(* ===== verification/_CoqProject ===== *)
-Q . S2P
Prelude.v
PyData.v
RoomVersions.v
Ids.v
Events.v
EventAuth.v
RoomExample.v
EventAuthFacts.v
PowerLevelFacts.v
RedactionFacts.v
StreamTokens.v
StreamTokenFacts.v
StateFilters.v
TopoSort.v
StateResV2.v
StateResV2Facts.v
StateResV1.v
ChangeCache.v
Visibility.v
VisibilityFacts.v
IdGen.v
IdGenSystem.v
IdGenFacts.v
WheelTimer.v
Presence.v
PresenceFacts.v
PresenceQueue.v
Linearizer.v
ReadWriteLock.v
LinkedList.v
CacheStore.v
LruCache.v
LruCacheFacts.v
TreeCache.v
IterUtils.v
ChainCover.v
ChainPaths.v
ChainBuild.v
ChainGather.v
ChainIndex.v
AuthChains.v
AuthChainFacts.v
AuthDifference.v
DictionaryCache.v
StateGroups.v
StateGroupFacts.v
StateGroupCache.v
StateGroupSystem.v
ExpiringCache.v
StateHandler.v
StateHandlerFacts.v
ContextCodec.v
EventTables.v
PersistEvents.v
PersistExample.v
EventGraphFacts.v
Extremities.v
CurrentState.v
LocalMembership.v
BackwardExtremities.v
PersistCorners.v
PersistQueue.v
PersistSystem.v
DeferredCache.v
DeferredCacheFacts.v
CachedCalls.v
WorkerLocks.v
WorkerLockFacts.v
WorkerLockSystem.v
WorkerLockExclusion.v
WorkerLockPlain.v
WorkerLockHandler.v
ClientFilters.v
FilterClause.v
RoomPagination.v
RoomPaginationFacts.v
