(* ===== verification/Prelude.v ===== *)
(** * Verification of the core logic of the Synapse homeserver

    Synapse is a server for the Matrix protocol, written in Python
    ([src/synapse]).  A room is a graph of events shared by many servers.  Each
    event names earlier events that authorize it; the room's state is a map from
    [(type, state_key)] to events.  When a server receives or makes an event it
    checks the event against the authorization rules; when branches of the graph
    meet it resolves their states into one; redaction strips events of their
    content without disturbing either.  What changed is told to clients and other
    processes through streams, in which tokens name positions and filters and
    caches select what to read.  This library models these parts, function by
    function, and proves what the rest of the server relies on.

    ** The parts and where they are

    - [Prelude] (this file): exceptions, the error monad [py] (a call returns
      [Ok] or raises), loops over it, stable sorting, total orders as a class,
      and the tactics [py_inv], [py_cases], [to_prop] all proofs use.
      [PyData]: Python strings, decimal integers, JSON values and dicts, and the
      class [External] of third-party functions (signature verification, the
      canonical JSON encoding, IPv6 syntax, SHA-1).
    - [RoomVersions]: [api/room_versions.py] and the names of [api/constants.py].
      Every other file reads the attributes of room versions from here.
    - [Ids]: identifiers and server names, [types/__init__.py] and
      [util/stringutils.py] and their validation.
    - [Events]: the event classes of [events/__init__.py] as one record, and
      [events/utils.py]: [prune_event], [clone_event], [validate_canonicaljson],
      [copy_and_fixup_power_levels_contents].
    - [EventAuth]: [event_auth.py], all of it.  Its facts are in
      [EventAuthFacts] and [PowerLevelFacts]; [RedactionFacts] relates it to
      [Events]; [RoomExample] is a small room that instantiates them.
    - [StreamTokens], [StreamTokenFacts]: the tokens of [types/__init__.py].
    - [StateFilters]: [types/state.py].
    - [TopoSort], [StateResV2], [StateResV2Facts]: [state/v2.py], which calls
      [EventAuth] on each event it applies; the store is the class
      [StateResolutionStore] with the laws [LawfulStore].
      [StateResV1]: [state/v1.py].
    - [ChangeCache]: [util/caches/stream_change_cache.py].
    - [Visibility], [VisibilityFacts]: [visibility.py], which events clients and
      other servers may see; it uses [EventAuth], [Events] and [StateFilters].
    - [IdGen], [IdGenSystem], [IdGenFacts]: [storage/util/id_generators.py] and
      [sequence.py]; the system has several writers and the replication between
      them.
    - [WheelTimer]: [util/wheel_timer.py].  [Presence], [PresenceFacts] and
      [PresenceQueue]: the presence handler of [handlers/presence.py], which keeps
      its timeouts in the wheel timer, and its queue for other servers.
    - [Linearizer], [ReadWriteLock]: the two locks of [util/async_helpers.py], as
      step relations over the coroutines that wait.
    - [LinkedList]: [util/linked_list.py], nodes in a heap.  [CacheStore]: what an
      LRU cache needs of its store, as a class with laws.  [LruCache],
      [LruCacheFacts]: [util/caches/lrucache.py], over any such store.
      [TreeCache]: [util/caches/treecache.py], one such store.  [DictionaryCache]:
      [util/caches/dictionary_cache.py], over an LRU cache of it.
      [DeferredCache], [DeferredCacheFacts]: [util/caches/deferred_cache.py], values
      that are being loaded and those in an LRU cache; [CachedCalls]: the wrappers of
      cached methods ([util/caches/descriptors.py]), with loads and invalidations as
      steps.
    - [IterUtils]: [util/iterutils.py].  [ChainCover]: the chain cover index of the
      auth graph, as [storage/databases/main/events.py] writes it; its facts are in
      [ChainPaths], [ChainBuild], [ChainGather] and [ChainIndex].  [AuthChains]: the
      readers of the index in [event_federation.py], with facts in
      [AuthChainFacts] and [AuthDifference].
    - [StateGroups]: the state tables, [storage/databases/state/store.py] and
      [bg_updates.py], on both database engines, with [StateGroupFacts];
      [StateGroupCache]: the store with its two [DictionaryCache]s;
      [StateGroupSystem]: all its operations and the reads that wait, as steps.
    - [ExpiringCache]: [util/caches/expiringcache.py].  [StateHandler],
      [StateHandlerFacts]: [state/__init__.py], which keeps resolved states in such a
      cache over the state groups and makes the contexts of events
      ([events/snapshot.py]); the state resolution is a class, [StateResolver].
      [ContextCodec]: contexts as they are sent to other workers.
    - [EventTables]: the tables events are persisted in and the transaction that
      writes them, [storage/databases/main/events.py].  [PersistEvents]: the
      controller [storage/controllers/persist_events.py], which works out the
      extremities and the current state with the state handler and runs the
      transaction.  Facts are in [EventGraphFacts] (what is stored), [Extremities],
      [CurrentState], [LocalMembership], [BackwardExtremities]; [PersistExample] is
      a room in the tables, and [PersistCorners] has the corner cases.
      [PersistQueue]: the queue of tasks of each room in the same file, as steps;
      [PersistSystem]: calls of [persist_events], the queue and the tables together.
    - [WorkerLocks]: the tables of locks between processes with their triggers and
      constraints, [storage/databases/main/lock.py] and the schema, on both database
      engines, with [WorkerLockFacts]; [WorkerLockSystem]: the processes that take,
      renew, release and reap locks, as steps, with [WorkerLockExclusion] for the
      read-write locks and [WorkerLockPlain] for the others; [WorkerLockHandler]: those
      who wait, [handlers/worker_lock.py].
    - [ClientFilters]: [api/filtering.py].  [FilterClause]: the SQL condition of a filter
      and the joins it needs, with their meaning on both engines, and [RoomPagination]:
      the pages of a room, both of [storage/databases/main/stream.py]; facts are in
      [RoomPaginationFacts], which uses [ChangeCache] and [StreamTokens].

    Names of definitions are those of the source, without leading underscores;
    a part of a function that is a definition of its own says so in its comment.
    Python raises: definitions return [py], and an attribute that is missing, a
    comparison of ill-typed values or an unhashable key raises as it does in
    Python.  Integers are unbounded, as Python's are.  Dicts and sets are [gmap]
    and [gset], and [json] objects are association lists, whose order matters
    for printing.  Objects that are shared and changed are state that is passed:
    the event map of the state resolution, the caches and their nodes, the tables of
    the database.  A database transaction is one function of the tables; where code
    waits, it is split into steps that others may come between.

    ** What the theorems show

    - Authorization.  The membership rules implement the rules of the Matrix
      specification, stated as an inductive relation; the decision depends only
      on the state [auth_types_for_event] selects; nobody acts without being
      joined, on somebody of their own level or above, or gives away more power
      than they have (removing an entry excepted, where the default is higher); a ban is lifted only by somebody with the level for it;
      auth events are known, unrejected, of the room and without duplicates;
      size limits.
    - Redaction is idempotent, keeps the identity of events, and in the rooms of
      version 11 leaves authorization decisions as they are, but for power levels and
      third-party invites.
    - Round trips and injectivity for identifiers, tokens, cloned events.
    - Tokens are vector clocks: advancing is the least upper bound, comparison is
      a partial order, and consecutive ranges partition a stream.
    - Filters denote sets of state keys; difference, expansion and the SQL clause
      are related to that meaning.
    - State resolution keeps what the states agree on and otherwise only admits
      conflicted events that pass the rules, under their own keys; its topological sort
      has one result, whatever order sets are iterated in; events are applied after the events that
      authorize them; it terminates when auth events form no cycle.  The first
      version of the algorithm picks among the candidates of each key.
    - The change cache, after any sequence of operations, answers from the log of
      the changes reported to it, stays within its size and never raises.
    - Visibility.  Where the state decides, clients see an event exactly when the rules
      of the specification for history visibility and membership allow it; other servers
      see no more.
    - Stream ids.  As long as no process starts while the last id is being written, a
      token is only given out when everything up to it is persisted; positions never go
      back, and tokens catch up by replication when the writers are done.
    - Presence follows the devices of a user, survives a restart, and reaches other
      servers; timers are never late.
    - Locks exclude, within their limits, and nobody waits for ever.  Locks between
      processes exclude as long as they are renewed in time; the transactions on them
      refine a table of readers and writers.
    - The LRU cache is a list ordered by last use, for every store that satisfies the
      laws, and stays within its size.  A cached method never returns a value that was
      loaded before an invalidation that came before the call.
    - The chain cover index covers the auth graph after every batch of events, so that
      auth chains and their differences read from it are those of the graph.
    - State groups are immutable; reads through the caches, on both engines, with
      anything in between, give the group's state; purges keep what is referred to.
      (A purge of a room that leaves a difference to a deleted group is excepted.)
    - The context of an event names groups that stand for the resolved state before it
      and the state after it; it is read back as it was by another worker.
    - After a batch of events is persisted, the forward extremities are accepted
      events that no accepted event follows, and but for pruning all accepted events are
      behind them; the current state is the resolution of the states after them, if
      nothing refers to failed events; the stream of changes replays to the current state;
      no gap before a stored event, other than outliers and rejected ones, is missing from
      the backward extremities; and the server leaves the room exactly when none of its
      users is joined.  A rejected event among others can make a chunk of a batch fail.
    - The queue runs one task per room, in order, loses nothing and answers everybody;
      the events that [persist_events] returns are stored.
    - Client filters and pages.  The SQL condition of a filter selects whatever the filter
      lets through, if LIKE reads its patterns as meant; going through the pages of a room
      gives every selected event once, in order; a page between tokens of several writers
      has what lies between the positions of the writers.

    Examples beside the theorems show corner cases of the code: a deleted
    power-level entry can raise a user to the default level, the SQL clause of a
    filter that matches nothing is that of one that matches everything, the power
    ordering ignores implicit room creators, an event that lists an auth event twice
    leaves the chain cover index, a purge of history never reaches the previous state
    groups, soft-failed events leave extremities and states behind that are not right, a
    process that starts while another writes lets tokens pass an id that is being written, a
    lock can be taken by a process that still holds it, the next page repeats events of a
    writer that was ahead.

    ** Fuel

    Loops that follow pointers, edges or a worklist take fuel and give [None] when it
    runs out, which is neither a value nor an exception; in [py] this is
    [fuel_out].  The theorems show results, so that the fuel is enough.
    [resolve_terminates] shows that [(D + 1) ^ N] and [N + 1] rounds are enough for
    state resolution when events have at most [D] auth events, of smaller rank, and
    ranks are at most [N]; the topological sort runs on the size of its graph.
    Evicting from an LRU cache takes a round per node; the walks of the chain cover
    index and of the auth graph a round per link, chain or event; a chain of state
    groups has no more groups than there are edges, and one; the search for groups to
    purge handles each group once.  The search for events behind soft-failed ones takes a
    round per edge at most; pruning extremities walks over dummy events of this server
    with a fuel that is given, and theorems about a batch that is stored hold for any.
    Going through pages takes a round per page, of which there are no more than events, and
    one.

    ** What is not modelled

    HTTP, federation transport, media, push and configuration are input and output
    around this core, and so are most of the tables of the database; of the tables that
    events are written to, those that are derived from the content of single events and
    those of sliding sync.  Signatures,
    hashes and JSON encoding are third-party code and parameters.  Cooperative yields,
    logging and metrics have no effect on results and are left out.  Rate limits and
    back-off are computed with floating point numbers and random jitter.  The handlers above
    this core (synchronization, federation, registration) and the storage of users, devices,
    receipts and the like are left out for their size: they mostly pass data between the
    parts modelled here and tables of their own.  Sets are iterated in one fixed order. *)

From stdpp Require Export base gmap strings list sets numbers sorting.
From Stdlib Require Export ZArith.

(** ** Python exceptions

    The exceptions the modelled code raises or catches, with the constructor
    arguments that callers can observe.  A message is the literal format string
    of the source; the values interpolated into it are not kept. *)

Inductive exn : Type :=
  | SynapseError (code : Z) (msg : string)
  | AuthError (code : Z) (msg : string)
  | UnstableSpecAuthError (code : Z) (msg : string) (errcode : string)
  | EventSizeError (msg : string) (unpersistable : bool)
  | LimitExceededError (limiter_name : string) (retry_after_ms : Z)
  | SignatureVerifyException
  | KeyError
  | IndexError
  | AttributeError
  | TypeError
  | ValueError
  | OverflowError
  | AssertionError
  | ZeroDivisionError
  | StopIteration
  | UnboundLocalError
  | NameError
  | CancelledError
  | IncorrectDatabaseSetup
  | IntegrityError
  | PartialStateConflictError
  | RuntimeError (msg : string)
  | PyException (msg : string).

#[export] Instance exn_eq_dec : EqDecision exn.
Proof. solve_decision. Defined.

(** [except AuthError]: [UnstableSpecAuthError] is a subclass of [AuthError];
    [SynapseError], its superclass, is not caught. *)
Definition is_AuthError (e : exn) : bool :=
  match e with AuthError _ _ | UnstableSpecAuthError _ _ _ => true | _ => false end.

(** ** The error monad: a Python call returns a value or raises *)

Inductive py (A : Type) : Type :=
  | Ok (a : A)
  | Raise (e : exn).
Arguments Ok {A} a.
Arguments Raise {A} e.

#[export] Instance py_ret : MRet py := λ A a, Ok a.
#[export] Instance py_bind : MBind py := λ A B f m,
  match m with Ok a => f a | Raise e => Raise e end.
#[export] Instance py_fmap : FMap py := λ A B f m,
  match m with Ok a => Ok (f a) | Raise e => Raise e end.

Definition is_ok {A} (m : py A) : bool :=
  match m with Ok _ => true | Raise _ => false end.

(** [if c: raise e] *)
Definition raise_if (c : bool) (e : exn) : py unit :=
  if c then Raise e else Ok tt.

(** [try: m except <handled>: h] *)
Definition py_try {A} (m : py A) (handled : exn → bool) (h : py A) : py A :=
  match m with
  | Ok a => Ok a
  | Raise e => if handled e then h else Raise e
  end.

(** A [for] loop that only checks, and one that threads an accumulator. *)
Fixpoint py_for_each {A} (f : A → py unit) (l : list A) : py unit :=
  match l with
  | [] => Ok tt
  | x :: l => f x ;; py_for_each f l
  end.

(** Loops that are not over a collection have fuel; running out of it is an error that
    the code does not have. *)
Definition fuel_out {A} : py A := Raise (RuntimeError "out of fuel").
Definition fueled {A} (o : option A) : py A := match o with Some a => Ok a | None => fuel_out end.

Fixpoint py_fold {A S} (f : S → A → py S) (s : S) (l : list A) : py S :=
  match l with
  | [] => Ok s
  | x :: l => s' ← f s x; py_fold f s' l
  end.

(** [any(f(x) for x in l)] with an [f] that may raise: stops at the first hit. *)
Fixpoint py_any {A} (f : A → py bool) (l : list A) : py bool :=
  match l with
  | [] => Ok false
  | x :: l => b ← f x; if b : bool then Ok true else py_any f l
  end.

Lemma Ok_inj {A} (a b : A) : Ok a = Ok b → a = b.
Proof. by injection 1. Qed.

Lemma py_bind_Ok {A B} (m : py A) (f : A → py B) (b : B) :
  m ≫= f = Ok b ↔ ∃ a, m = Ok a ∧ f a = Ok b.
Proof.
  destruct m; simpl; split; [eauto | by intros (? & [= ->] & ?) | done | by intros (? & ? & ?)].
Qed.

Lemma py_bind_Raise {A B} (m : py A) (f : A → py B) (e : exn) :
  m ≫= f = Raise e ↔ m = Raise e ∨ ∃ a, m = Ok a ∧ f a = Raise e.
Proof.
  destruct m; simpl; split.
  - eauto.
  - by intros [?|(? & [= ->] & ?)].
  - intros [= ->]. by left.
  - by intros [[= ->]|(? & ? & ?)].
Qed.

Lemma py_bind_ext {A B} (m : py A) (f g : A → py B) :
  (∀ a, m = Ok a → f a = g a) → m ≫= f = m ≫= g.
Proof. destruct m; simpl; auto. Qed.

Lemma py_bind_assoc {A B C} (m : py A) (f : A → py B) (g : B → py C) :
  (m ≫= f) ≫= g = m ≫= (λ a, f a ≫= g).
Proof. by destruct m. Qed.

Lemma py_fmap_Ok {A B} (m : py A) (f : A → B) (b : B) :
  f <$> m = Ok b ↔ ∃ a, m = Ok a ∧ f a = b.
Proof.
  destruct m; simpl; split; [intros [= <-]; eauto | by intros (? & [= ->] & <-) | done | naive_solver].
Qed.

Lemma raise_if_Ok c e u : raise_if c e = Ok u ↔ c = false.
Proof. by destruct c, u. Qed.

Lemma raise_if_Raise c e e' : raise_if c e = Raise e' ↔ c = true ∧ e' = e.
Proof. destruct c; simpl; intuition congruence. Qed.

Lemma py_for_each_Ok {A} (f : A → py unit) l u :
  py_for_each f l = Ok u ↔ Forall (λ x, f x = Ok tt) l.
Proof.
  destruct u. induction l as [|x l IH]; simpl; [done|].
  rewrite py_bind_Ok, Forall_cons, <- IH.
  split; [intros ([] & ? & ?); done | intros [? ?]; eauto].
Qed.

(** What every round of a loop keeps holds after the loop. *)
Lemma py_fold_inv {A S} (P : S → Prop) (f : S → A → py S) s l s' :
  (∀ x s s', x ∈ l → P s → f s x = Ok s' → P s') → P s → py_fold f s l = Ok s' → P s'.
Proof.
  revert s. induction l as [|x l IH]; intros s Hf Hs Hr; cbn [py_fold] in Hr; [by injection Hr as <-|].
  apply py_bind_Ok in Hr as (s1 & H1 & Hr). eapply IH; [| |exact Hr].
  - intros y ?? Hy. apply Hf. by right.
  - eapply Hf; [by left|done|done].
Qed.

Lemma py_any_true {A} (f : A → py bool) l :
  py_any f l = Ok true → Exists (λ x, f x = Ok true) l.
Proof.
  induction l as [|x l IH]; simpl; [done|].
  rewrite py_bind_Ok. intros ([] & ? & ?); [by left | right; auto].
Qed.

(** ** Tactics *)

(** Split the hypotheses that say a monadic computation returned. *)
Ltac py_inv1 :=
  match goal with
  | H : _ ≫= _ = Ok _ |- _ => apply py_bind_Ok in H as (? & ? & ?)
  | H : raise_if _ _ = Ok _ |- _ => apply raise_if_Ok in H
  | H : Ok ?x = Ok ?y |- _ =>
      first [ is_var y; apply Ok_inj in H; subst y | is_var x; apply Ok_inj in H; subst x
            | injection H; clear H; intros; subst ]
  | H : Raise _ = Ok _ |- _ => discriminate H
  | H : Ok _ = Raise _ |- _ => discriminate H
  | H : Raise _ = Raise _ |- _ => injection H; clear H; intros; subst
  end.
Ltac py_inv := repeat py_inv1.

(** The same, also splitting on the [if] or [match] a computation starts with. *)
Ltac py_step :=
  match goal with
  | H : (match ?x with _ => _ end) = Ok _ |- _ => destruct x eqn:?; try discriminate H
  | H : _ <$> _ = Ok _ |- _ => apply py_fmap_Ok in H as (? & ? & ?)
  end.
Ltac py_cases := repeat (py_inv1 || py_step).

(** Case analysis on the scrutinee of the next [if] or [match] of a hypothesis. *)
Ltac case_hyp H :=
  match type of H with
  | context [match ?x with _ => _ end] =>
      lazymatch x with
      | context [match _ with _ => _ end] => fail
      | _ => destruct x eqn:?
      end
  end.

(** Turn the boolean tests of the source into propositions. *)
Ltac to_prop :=
  repeat match goal with
  | H : negb _ = true |- _ => apply negb_true_iff in H
  | H : negb _ = false |- _ => apply negb_false_iff in H
  | H : _ && _ = true |- _ => apply andb_true_iff in H as [? ?]
  | H : _ || _ = false |- _ => apply orb_false_iff in H as [? ?]
  | H : bool_decide _ = true |- _ => apply bool_decide_eq_true in H
  | H : bool_decide _ = false |- _ => apply bool_decide_eq_false in H
  | H : (_ <? _)%Z = true |- _ => apply Z.ltb_lt in H
  | H : (_ <? _)%Z = false |- _ => apply Z.ltb_ge in H
  | H : (_ <=? _)%Z = true |- _ => apply Z.leb_le in H
  | H : (_ <=? _)%Z = false |- _ => apply Z.leb_gt in H
  | H : (_ =? _)%Z = true |- _ => apply Z.eqb_eq in H
  | H : (_ =? _)%Z = false |- _ => apply Z.eqb_neq in H
  end.

(** ** Rewriting and hint databases *)

Create HintDb synapse.
Create Rewrite HintDb synapse.
#[export] Hint Rewrite @py_bind_Ok raise_if_Ok @py_for_each_Ok : synapse.

(** ** Stable sorting, as [sorted(l, key=...)] and [list.sort] do it *)

Section PySort.
Context {A : Type} (leb : A → A → bool).

Fixpoint insert_sorted (x : A) (l : list A) : list A :=
  match l with
  | [] => [x]
  | y :: l' => if leb x y then x :: l else y :: insert_sorted x l'
  end.

Definition py_sorted (l : list A) : list A := foldr insert_sorted [] l.

Lemma insert_sorted_perm x l : insert_sorted x l ≡ₚ x :: l.
Proof.
  induction l as [|y l IH]; cbn; [done|].
  destruct (leb x y); [done|]. rewrite IH. apply Permutation_swap.
Qed.

Lemma py_sorted_perm l : py_sorted l ≡ₚ l.
Proof.
  induction l as [|x l IH]; cbn; [done|]. by rewrite insert_sorted_perm, IH.
Qed.

Context (leb_total : ∀ x y, leb x y = true ∨ leb y x = true)
        (leb_trans : ∀ x y z, leb x y = true → leb y z = true → leb x z = true).

Let R x y := leb x y = true.

Lemma insert_sorted_sorted x l :
  StronglySorted R l → StronglySorted R (insert_sorted x l).
Proof using leb_total leb_trans.
  induction 1 as [|y l Hs IH Hy]; cbn; [by repeat constructor|].
  destruct (leb x y) eqn:E.
  - constructor; [by constructor|]. constructor; [done|].
    eapply Forall_impl; [exact Hy|]. intros z. by apply leb_trans.
  - constructor; [done|]. rewrite insert_sorted_perm. constructor; [|done].
    destruct (leb_total x y); unfold R; congruence.
Qed.

Lemma py_sorted_sorted l : StronglySorted R (py_sorted l).
Proof using leb_total leb_trans.
  induction l; cbn; [constructor | by apply insert_sorted_sorted].
Qed.
End PySort.

(** ** Comparison of keys: Python's [<=] on integers, strings and tuples *)

Class TotalOrderB {A} (leb : A → A → bool) : Prop := {
  leb_total : ∀ x y, leb x y = true ∨ leb y x = true;
  leb_trans : ∀ x y z, leb x y = true → leb y z = true → leb x z = true;
  leb_antisym : ∀ x y, leb x y = true → leb y x = true → x = y;
}.

#[export] Instance Z_leb_total : TotalOrderB Z.leb.
Proof. split; intros *; rewrite !Z.leb_le; lia. Qed.

(** Strings compare by their bytes, which for UTF-8 is by code points. *)
Lemma string_compare_trans s1 s2 s3 :
  String.leb s1 s2 = true → String.leb s2 s3 = true → String.leb s1 s3 = true.
Proof.
  unfold String.leb. revert s2 s3. induction s1 as [|a s1 IH]; intros [|b s2] [|c s3]; cbn;
    try done. unfold Ascii.compare.
  destruct (N.compare_spec (Ascii.N_of_ascii a) (Ascii.N_of_ascii b)) as [E1|E1|E1],
    (N.compare_spec (Ascii.N_of_ascii b) (Ascii.N_of_ascii c)) as [E2|E2|E2]; try done;
    destruct (N.compare_spec (Ascii.N_of_ascii a) (Ascii.N_of_ascii c)) as [E3|E3|E3];
    try done; try lia. by apply IH.
Qed.

#[export] Instance string_leb_total : TotalOrderB String.leb.
Proof.
  split; [apply String.leb_total|apply string_compare_trans|apply String.leb_antisym].
Qed.

(** Tuples compare lexicographically. *)
Definition pair_leb {A B} (leA : A → A → bool) (leB : B → B → bool) (p q : A * B) : bool :=
  leA p.1 q.1 && (negb (leA q.1 p.1) || leB p.2 q.2).

#[export] Instance pair_leb_total {A B} (leA : A → A → bool) (leB : B → B → bool) :
  TotalOrderB leA → TotalOrderB leB → TotalOrderB (pair_leb leA leB).
Proof.
  intros TA TB. unfold pair_leb. split.
  - intros [a b] [c d]. cbn. destruct (leb_total a c) as [H|H], (leb_total b d) as [H'|H'];
      rewrite H, H'; destruct (leA a c), (leA c a); cbn; auto.
  - intros [a b] [c d] [e f]. cbn. rewrite !andb_true_iff, !orb_true_iff, !negb_true_iff.
    intros [H1 H2] [H3 H4]. split; [by eapply leb_trans|].
    destruct (leA e a) eqn:E; [|by left]. right.
    assert (leA c a = true) as Hca by (by eapply leb_trans).
    assert (leA e c = true) as Hec by (by eapply leb_trans).
    destruct H2 as [H2|H2]; [congruence|]. destruct H4 as [H4|H4]; [congruence|].
    by eapply leb_trans.
  - intros [a b] [c d]. cbn. rewrite !andb_true_iff, !orb_true_iff, !negb_true_iff.
    intros [H1 H2] [H3 H4]. f_equal; [by apply leb_antisym|].
    destruct H2 as [H2|H2]; [congruence|]. destruct H4 as [H4|H4]; [congruence|].
    by apply leb_antisym.
Qed.

(** A sorted list is determined by its elements. *)
Lemma py_sorted_unique {A} (leb : A → A → bool) `{!TotalOrderB leb} (l1 l2 : list A) :
  l1 ≡ₚ l2 → py_sorted leb l1 = py_sorted leb l2.
Proof.
  intros Hp. assert (AntiSymm eq (λ x y, leb x y = true)) by (intros ??; apply leb_antisym).
  apply (StronglySorted_unique (λ x y, leb x y = true)).
  - apply py_sorted_sorted; [apply leb_total|apply leb_trans].
  - apply py_sorted_sorted; [apply leb_total|apply leb_trans].
  - by rewrite !py_sorted_perm.
Qed.

(** ** Lists as Python sets: duplicate-free, in some order *)

Lemma remove_dups_perm_set `{EqDecision A} (l1 l2 : list A) :
  (∀ x, x ∈ l1 ↔ x ∈ l2) → remove_dups l1 ≡ₚ remove_dups l2.
Proof.
  intros H. apply NoDup_Permutation; [apply NoDup_remove_dups..|].
  intros x. by rewrite !elem_of_remove_dups.
Qed.

(** ** Smallest and largest of a list: Python's [min] and [max] *)

Definition z_min (l : list Z) : option Z :=
  match l with [] => None | x :: l => Some (foldr Z.min x l) end.
Definition z_max (l : list Z) : option Z :=
  match l with [] => None | x :: l => Some (foldr Z.max x l) end.

Lemma z_min_Some l m : z_min l = Some m → m ∈ l ∧ ∀ x, x ∈ l → (m ≤ x)%Z.
Proof.
  destruct l as [|x l]; [done|]. cbn. intros [= <-].
  induction l as [|y l [IH1 IH2]]; cbn.
  - split; [by left|]. intros y ->%list_elem_of_singleton. lia.
  - split.
    + destruct (Z.min_spec y (foldr Z.min x l)) as [[_ ->]|[_ ->]]; [by right; left|].
      apply elem_of_cons in IH1 as [->|IH1]; [by left|by do 2 right].
    + intros z Hz. apply elem_of_cons in Hz as [->|[->|Hz]%elem_of_cons]; [|lia|].
      * specialize (IH2 x ltac:(by left)). lia.
      * specialize (IH2 z ltac:(by right)). lia.
Qed.

Lemma z_max_Some l m : z_max l = Some m → m ∈ l ∧ ∀ x, x ∈ l → (x ≤ m)%Z.
Proof.
  destruct l as [|x l]; [done|]. cbn. intros [= <-].
  induction l as [|y l [IH1 IH2]]; cbn.
  - split; [by left|]. intros y ->%list_elem_of_singleton. lia.
  - split.
    + destruct (Z.max_spec y (foldr Z.max x l)) as [[_ ->]|[_ ->]]; [|by right; left].
      apply elem_of_cons in IH1 as [->|IH1]; [by left|by do 2 right].
    + intros z Hz. apply elem_of_cons in Hz as [->|[->|Hz]%elem_of_cons]; [|lia|].
      * specialize (IH2 x ltac:(by left)). lia.
      * specialize (IH2 z ltac:(by right)). lia.
Qed.

Lemma z_min_None l : z_min l = None ↔ l = [].
Proof. by destruct l. Qed.
Lemma z_max_None l : z_max l = None ↔ l = [].
Proof. by destruct l. Qed.
