(* ===== verification/PyData.v ===== *)
(** * Python data: strings, integers in decimal, JSON values and dictionaries

    What the modelled code uses of Python's [str], [int], [dict] and of the
    values its JSON decoder produces.

    A [str] is its UTF-8 encoding, a [string] of bytes: [len(s)] counts the
    bytes that do not continue a code point, [len(s.encode())] counts bytes,
    comparison of code points is comparison of bytes, and searching, splitting
    and slicing are only ever done by the code at ASCII separators.  (Strings
    holding lone surrogates, which have no UTF-8 encoding, are out of scope.) *)

From S2P Require Import Prelude.
From Stdlib Require Import Ascii.

Open Scope Z_scope.

(** ** Strings *)

(** Is the byte a UTF-8 continuation byte, [10xxxxxx]? *)
Definition utf8_continuation (c : ascii) : bool :=
  let 'Ascii _ _ _ _ _ _ b6 b7 := c in b7 && negb b6.

(** [len(s)]: the number of code points. *)
Fixpoint str_len (s : string) : Z :=
  match s with
  | "" => 0
  | String c s => (if utf8_continuation c then 0 else 1) + str_len s
  end.

(** [len(s.encode("utf-8"))]: the number of bytes. *)
Fixpoint byte_len (s : string) : Z :=
  match s with "" => 0 | String _ s => 1 + byte_len s end.

(** [s.find(c)] for an ASCII character, together with the slices around it:
    [None] when the character does not occur (Python's [-1]). *)
Fixpoint str_cut (c : ascii) (s : string) : option (string * string) :=
  match s with
  | "" => None
  | String a s =>
      if decide (a = c) then Some ("", s)
      else match str_cut c s with
           | Some (l, r) => Some (String a l, r)
           | None => None
           end
  end.

Fixpoint str_mem (c : ascii) (s : string) : bool :=
  match s with
  | "" => false
  | String a s => bool_decide (a = c) || str_mem c s
  end.

(** [s.split(c)] *)
Fixpoint str_split (c : ascii) (s : string) : list string :=
  match s with
  | "" => [""]
  | String a s =>
      if decide (a = c) then "" :: str_split c s
      else match str_split c s with
           | p :: ps => String a p :: ps
           | [] => [String a ""]
           end
  end.

(** [sep.join(l)] for a one-character separator *)
Fixpoint str_join (c : ascii) (l : list string) : string :=
  match l with
  | [] => ""
  | [p] => p
  | p :: ps => p +:+ String c (str_join c ps)
  end.

(** [s.startswith(p)] *)
Fixpoint str_prefix (p s : string) : bool :=
  match p, s with
  | "", _ => true
  | String a p, String b s => bool_decide (a = b) && str_prefix p s
  | _, _ => false
  end.

Lemma str_app_cons a s t : String a s +:+ t = String a (s +:+ t).
Proof. done. Qed.

Lemma str_app_nil_r s : s +:+ "" = s.
Proof. induction s as [|a s IH]; [done|]. by rewrite str_app_cons, IH. Qed.

Lemma str_app_assoc s t u : (s +:+ t) +:+ u = s +:+ t +:+ u.
Proof. induction s as [|a s IH]; [done|]. by rewrite !str_app_cons, IH. Qed.

Lemma str_cut_app c l r :
  str_mem c l = false → str_cut c (l +:+ String c r) = Some (l, r).
Proof.
  induction l as [|a l IH]; intros H.
  - change ("" +:+ String c r) with (String c r). simpl. by rewrite decide_True.
  - rewrite str_app_cons. simpl in *. to_prop. by rewrite decide_False, IH by done.
Qed.

Lemma str_cut_Some_inv c s l r :
  str_cut c s = Some (l, r) → s = l +:+ String c r ∧ str_mem c l = false.
Proof.
  revert l r. induction s as [|a s IH]; intros l r; simpl; [done|].
  destruct (decide (a = c)) as [->|Hne]; [by intros [= <- <-]|].
  destruct (str_cut c s) as [[l' r']|]; [|done]. intros [= <- <-].
  destruct (IH _ _ eq_refl) as [-> Hm]. rewrite str_app_cons. simpl.
  by rewrite bool_decide_eq_false_2.
Qed.

Lemma str_cut_Some c s l r :
  str_cut c s = Some (l, r) ↔ s = l +:+ String c r ∧ str_mem c l = false.
Proof.
  split; [apply str_cut_Some_inv|]. intros [-> ?]. by apply str_cut_app.
Qed.

Lemma str_cut_None c s : str_cut c s = None ↔ str_mem c s = false.
Proof.
  induction s as [|a s IH]; simpl; [done|].
  destruct (decide (a = c)) as [->|Hne].
  - by rewrite bool_decide_eq_true_2.
  - rewrite bool_decide_eq_false_2 by done. simpl. rewrite <- IH.
    by destruct (str_cut c s) as [[]|].
Qed.

Lemma str_mem_app c s t : str_mem c (s +:+ t) = str_mem c s || str_mem c t.
Proof.
  induction s as [|a s IH]; [done|]. rewrite str_app_cons. simpl.
  by rewrite IH, orb_assoc.
Qed.

Lemma byte_len_nonneg s : 0 ≤ byte_len s.
Proof. induction s; simpl; lia. Qed.

(** A string never has more code points than bytes. *)
Lemma str_len_le_byte_len s : 0 ≤ str_len s ≤ byte_len s.
Proof. induction s as [|a s IH]; simpl; [lia|]. destruct (utf8_continuation a); lia. Qed.

Lemma str_split_nonempty c s : str_split c s ≠ [].
Proof. destruct s; simpl; [done|]. destruct (decide _); [done|]. by case_match. Qed.

Lemma str_split_no_sep c s : str_mem c s = false → str_split c s = [s].
Proof.
  induction s as [|a s IH]; simpl; [done|]. intros H. to_prop.
  destruct (decide (a = c)); [done|]. by rewrite IH.
Qed.

Lemma str_split_app_sep c p s :
  str_mem c p = false → str_split c (p +:+ String c s) = p :: str_split c s.
Proof.
  induction p as [|a p IH]; intros H.
  - change ("" +:+ String c s) with (String c s). simpl. by destruct (decide (c = c)).
  - rewrite str_app_cons. simpl in *. to_prop.
    destruct (decide (a = c)); [done|]. by rewrite IH.
Qed.

(** Splitting undoes joining when no part holds the separator. *)
Lemma str_split_join c l :
  l ≠ [] → Forall (λ p, str_mem c p = false) l → str_split c (str_join c l) = l.
Proof.
  intros Hne H. induction H as [|p ps Hp Hps IH]; [done|].
  destruct ps as [|q ps]; simpl; [by apply str_split_no_sep|].
  rewrite str_split_app_sep by done. f_equal. by apply IH.
Qed.

(** ** Decimal integers: [int(s)] and [str(n)]

    [int] strips ASCII white space, accepts a sign and single underscores
    between digits.  Unicode digits and white space outside ASCII, which Python
    also accepts, are rejected here, and there is no limit on the number of
    digits. *)

Definition is_space (c : ascii) : bool :=
  let n := nat_of_ascii c in
  ((9 <=? n)%nat && (n <=? 13)%nat) || ((28 <=? n)%nat && (n <=? 32)%nat).

Definition digit_val (c : ascii) : option Z :=
  let n := nat_of_ascii c in
  if (48 <=? n)%nat && (n <=? 57)%nat then Some (Z.of_nat n - 48) else None.

Definition digit_chr (d : Z) : ascii := ascii_of_nat (Z.to_nat (48 + d)).

Fixpoint str_lstrip (s : string) : string :=
  match s with
  | "" => ""
  | String c s' => if is_space c then str_lstrip s' else s
  end.

Fixpoint str_rstrip (s : string) : string :=
  match s with
  | "" => ""
  | String c s' =>
      match str_rstrip s' with
      | "" => if is_space c then "" else String c ""
      | t => String c t
      end
  end.

Fixpoint parse_digits (acc : Z) (after_digit : bool) (s : string) : option Z :=
  match s with
  | "" => if after_digit then Some acc else None
  | String c s =>
      match digit_val c with
      | Some d => parse_digits (10 * acc + d) true s
      | None =>
          if bool_decide (c = "_"%char) && after_digit then parse_digits acc false s
          else None
      end
  end.

Definition parse_signed (s : string) : option Z :=
  match s with
  | "" => None
  | String c s' =>
      if decide (c = "-"%char) then Z.opp <$> parse_digits 0 false s'
      else if decide (c = "+"%char) then parse_digits 0 false s'
      else parse_digits 0 false s
  end.

Definition int_of_str (s : string) : option Z :=
  parse_signed (str_rstrip (str_lstrip s)).

(** [int(s)] *)
Definition py_int_of_str (s : string) : py Z :=
  match int_of_str s with Some z => Ok z | None => Raise ValueError end.

(** The decimal digits of [n], in front of [acc]; a number below [10 ^ fuel]
    is written in full. *)
Fixpoint print_digits (fuel : nat) (n : Z) (acc : string) : string :=
  match fuel with
  | O => acc
  | S fuel =>
      let acc := String (digit_chr (n mod 10)) acc in
      if n <? 10 then acc else print_digits fuel (n / 10) acc
  end.

(** [str(z)], [f"{z}"], ["%d" % (z,)] *)
Definition str_of_Z (z : Z) : string :=
  let n := Z.abs z in
  let ds := print_digits (S (Z.to_nat (Z.log2 n))) n "" in
  if z <? 0 then String "-" ds else ds.

Lemma digit_val_chr d : 0 ≤ d < 10 → digit_val (digit_chr d) = Some d.
Proof.
  intros H.
  assert (d = 0 ∨ d = 1 ∨ d = 2 ∨ d = 3 ∨ d = 4 ∨ d = 5 ∨ d = 6 ∨ d = 7 ∨ d = 8 ∨ d = 9)
    as Hd by lia.
  by destruct_or!; subst d.
Qed.

Lemma parse_print_digits fuel n acc :
  0 ≤ n < 10 ^ Z.of_nat fuel → (fuel ≠ 0)%nat →
  ∃ k, 0 ≤ k ∧ ∀ a b,
    parse_digits a b (print_digits fuel n acc) = parse_digits (a * 10 ^ k + n) true acc.
Proof.
  revert n acc. induction fuel as [|fuel IH]; intros n acc Hn Hf; [done|].
  rewrite Nat2Z.inj_succ, Z.pow_succ_r in Hn by lia.
  pose proof (Z.mod_pos_bound n 10 ltac:(lia)) as Hm.
  cbn [print_digits]. destruct (Z.ltb_spec n 10) as [Hlt|Hge].
  - exists 1. split; [lia|]. intros a b. simpl. rewrite digit_val_chr by done.
    rewrite Z.mod_small by lia. f_equal. lia.
  - destruct (IH (n / 10) (String (digit_chr (n mod 10)) acc)) as (k & Hk & IHk).
    + split; [apply Z.div_pos; lia|]. apply Z.div_lt_upper_bound; lia.
    + intros ->. simpl in Hn. lia.
    + exists (k + 1). split; [lia|]. intros a b. rewrite IHk. simpl.
      rewrite digit_val_chr by done. f_equal.
      rewrite Z.pow_add_r, Z.pow_1_r by lia.
      pose proof (Z.div_mod n 10). lia.
Qed.

(** Every character printed is a digit. *)
Lemma print_digits_shape (P : ascii → Prop) fuel n acc :
  0 ≤ n → (∀ d, 0 ≤ d < 10 → P (digit_chr d)) →
  Forall P (String.list_ascii_of_string acc) →
  Forall P (String.list_ascii_of_string (print_digits fuel n acc)).
Proof.
  intros Hn HP. revert n acc Hn. induction fuel as [|fuel IH]; intros n acc Hn Ha; [done|].
  cbn [print_digits].
  assert (Forall P (String.list_ascii_of_string (String (digit_chr (n mod 10)) acc))).
  { constructor; [|done]. apply HP, Z.mod_pos_bound. lia. }
  destruct (n <? 10); [done|]. apply IH; [|done]. apply Z.div_pos; lia.
Qed.

Lemma str_of_Z_chars (P : ascii → Prop) z :
  (∀ d, 0 ≤ d < 10 → P (digit_chr d)) → P "-"%char →
  Forall P (String.list_ascii_of_string (str_of_Z z)).
Proof.
  intros HP Hm. unfold str_of_Z. case_match.
  - constructor; [done|]. apply print_digits_shape; [lia|done|constructor].
  - apply print_digits_shape; [lia|done|constructor].
Qed.

Lemma str_mem_Forall c s :
  str_mem c s = false ↔ Forall (λ a, a ≠ c) (String.list_ascii_of_string s).
Proof.
  induction s as [|a s IH]; simpl; [done|].
  rewrite Forall_cons, <- IH, orb_false_iff, bool_decide_eq_false. done.
Qed.

(** The separators of the token formats never occur in a printed number. *)
Lemma str_of_Z_no_sep c z :
  (∀ d, 0 ≤ d < 10 → digit_chr d ≠ c) → c ≠ "-"%char → str_mem c (str_of_Z z) = false.
Proof. intros H1 H2. apply str_mem_Forall, str_of_Z_chars; auto. Qed.

Definition no_space (s : string) : Prop :=
  Forall (λ a, is_space a = false) (String.list_ascii_of_string s).

Lemma str_strip_no_space s : no_space s → str_rstrip (str_lstrip s) = s.
Proof.
  unfold no_space. intros H.
  assert (str_lstrip s = s) as ->.
  { destruct s as [|c s]; [done|]. apply Forall_cons in H as [Hc _].
    simpl. by rewrite Hc. }
  induction s as [|a s IH]; simpl; [done|].
  apply Forall_cons in H as [Ha H]. rewrite IH by done.
  destruct s; [by rewrite Ha | done].
Qed.

Lemma digit_chr_props d :
  0 ≤ d < 10 →
  is_space (digit_chr d) = false ∧ digit_chr d ≠ "-"%char ∧ digit_chr d ≠ "+"%char.
Proof.
  intros H.
  assert (d = 0 ∨ d = 1 ∨ d = 2 ∨ d = 3 ∨ d = 4 ∨ d = 5 ∨ d = 6 ∨ d = 7 ∨ d = 8 ∨ d = 9)
    as Hd by lia.
  by destruct_or!; subst d.
Qed.

Lemma str_of_Z_no_space z : no_space (str_of_Z z).
Proof. apply str_of_Z_chars; [|done]. intros d Hd. by apply digit_chr_props. Qed.

Lemma log2_fuel n : 0 ≤ n → 0 ≤ n < 10 ^ Z.of_nat (S (Z.to_nat (Z.log2 n))).
Proof.
  intros Hn. split; [done|]. rewrite Nat2Z.inj_succ, Z2Nat.id by apply Z.log2_nonneg.
  destruct (decide (n = 0)) as [->|]; [done|].
  pose proof (Z.log2_spec n ltac:(lia)) as [_ H].
  eapply Z.lt_le_trans; [exact H|]. apply Z.pow_le_mono_l. lia.
Qed.

Lemma parse_print n :
  0 ≤ n → parse_digits 0 false (print_digits (S (Z.to_nat (Z.log2 n))) n "") = Some n.
Proof.
  intros Hn. destruct (parse_print_digits _ n "" (log2_fuel n Hn) ltac:(done)) as (k & _ & H).
  rewrite H. done.
Qed.

(** [int(str(z)) == z] *)
Lemma int_of_str_of_Z z : int_of_str (str_of_Z z) = Some z.
Proof.
  unfold int_of_str. rewrite str_strip_no_space by apply str_of_Z_no_space.
  unfold str_of_Z. destruct (Z.ltb_spec z 0) as [Hlt|Hge].
  - unfold parse_signed. rewrite decide_True, parse_print by (done || lia).
    simpl. f_equal. lia.
  - pose proof (parse_print (Z.abs z) ltac:(lia)) as Hp.
    pose proof (print_digits_shape (λ a, a ≠ "-"%char ∧ a ≠ "+"%char)
      (S (Z.to_nat (Z.log2 (Z.abs z)))) (Z.abs z) "" ltac:(lia)
      (λ d Hd, proj2 (digit_chr_props d Hd)) (Forall_nil_2 _)) as Hs.
    destruct (print_digits _ _ _) as [|c s]; [done|]. simpl in Hs.
    apply Forall_cons in Hs as [[??] _]. unfold parse_signed.
    rewrite !decide_False by done. rewrite Hp. f_equal. lia.
Qed.

Lemma py_int_of_str_of_Z z : py_int_of_str (str_of_Z z) = Ok z.
Proof. unfold py_int_of_str. by rewrite int_of_str_of_Z. Qed.

(** ** JSON values

    What [json_decoder] produces: integers are unbounded, a finite float is
    [m * 2 ^ e] exactly, and an out-of-range literal such as [1e999] decodes to
    an infinity.  The decoder rejects [NaN].  An object is the list of its items
    in insertion order. *)

Inductive pyfloat : Type :=
  | FFin (m e : Z)
  | FInf (negative : bool).

Inductive json : Type :=
  | JNull
  | JBool (b : bool)
  | JInt (z : Z)
  | JFloat (f : pyfloat)
  | JStr (s : string)
  | JList (l : list json)
  | JObj (d : list (string * json)).

Abbreviation jdict := (list (string * json)).

Section JsonInd.
Context (P : json → Prop).
Context (Hnull : P JNull) (Hbool : ∀ b, P (JBool b)) (Hint : ∀ z, P (JInt z))
        (Hfloat : ∀ f, P (JFloat f)) (Hstr : ∀ s, P (JStr s))
        (Hlist : ∀ l, Forall P l → P (JList l))
        (Hobj : ∀ d, Forall (λ kv, P kv.2) d → P (JObj d)).

Fixpoint json_nested_ind (j : json) : P j :=
  match j with
  | JNull => Hnull
  | JBool b => Hbool b
  | JInt z => Hint z
  | JFloat f => Hfloat f
  | JStr s => Hstr s
  | JList l =>
      Hlist l ((fix go (l : list json) : Forall P l :=
                  match l with
                  | [] => Forall_nil_2 _
                  | x :: l => Forall_cons_2 _ _ _ (json_nested_ind x) (go l)
                  end) l)
  | JObj d =>
      Hobj d ((fix go (d : jdict) : Forall (λ kv, P kv.2) d :=
                 match d with
                 | [] => Forall_nil_2 _
                 | kv :: d => Forall_cons_2 _ _ _ (json_nested_ind kv.2) (go d)
                 end) d)
  end.
End JsonInd.

(** *** Dictionaries *)

(** [d.get(k)] / [k in d] / [d[k] = v] / [d.pop(k, None)] on a dict with string keys. *)
Fixpoint dict_get {A} (k : string) (d : list (string * A)) : option A :=
  match d with
  | [] => None
  | (k', v) :: d => if decide (k = k') then Some v else dict_get k d
  end.

Definition dict_in {A} (k : string) (d : list (string * A)) : bool :=
  match dict_get k d with Some _ => true | None => false end.

Fixpoint dict_set {A} (k : string) (v : A) (d : list (string * A)) : list (string * A) :=
  match d with
  | [] => [(k, v)]
  | (k', v') :: d =>
      if decide (k = k') then (k', v) :: d else (k', v') :: dict_set k v d
  end.

Definition dict_pop {A} (k : string) (d : list (string * A)) : list (string * A) :=
  filter (λ kv, kv.1 ≠ k) d.

(** [d[k]] *)
Definition dict_item {A} (k : string) (d : list (string * A)) : py A :=
  match dict_get k d with Some v => Ok v | None => Raise KeyError end.

Definition dict_keys {A} (d : list (string * A)) : list string := map fst d.

(** A dict has one entry per key. *)
Definition dict_wf {A} (d : list (string * A)) : Prop := NoDup (dict_keys d).

Section Dict.
Context {A : Type}.
Implicit Types (d : list (string * A)) (k : string) (v : A).

Lemma dict_get_set k k' v d :
  dict_get k (dict_set k' v d) = if decide (k = k') then Some v else dict_get k d.
Proof.
  induction d as [|[k0 v0] d IH]; simpl.
  - by repeat case_decide.
  - repeat case_decide; simplify_eq/=; repeat case_decide; congruence.
Qed.

Lemma dict_get_set_eq k v d : dict_get k (dict_set k v d) = Some v.
Proof. rewrite dict_get_set. by rewrite decide_True. Qed.

Lemma dict_get_set_ne k k' v d : k ≠ k' → dict_get k (dict_set k' v d) = dict_get k d.
Proof. intros. rewrite dict_get_set. by rewrite decide_False. Qed.

Lemma dict_get_pop k k' d :
  dict_get k (dict_pop k' d) = if decide (k = k') then None else dict_get k d.
Proof.
  unfold dict_pop. induction d as [|[k0 v0] d IH]; simpl; [by case_decide|].
  rewrite filter_cons. repeat case_decide; simplify_eq/=; repeat case_decide; congruence.
Qed.

Lemma dict_get_filter (Q : string → Prop) `{∀ k, Decision (Q k)} k d :
  dict_get k (filter (λ kv, Q kv.1) d) = if decide (Q k) then dict_get k d else None.
Proof.
  induction d as [|[k0 v0] d IH]; simpl; [by case_decide|].
  rewrite filter_cons. repeat case_decide; simplify_eq/=; repeat case_decide; congruence.
Qed.

Lemma dict_get_elem k v d : dict_get k d = Some v → (k, v) ∈ d.
Proof.
  induction d as [|[k0 v0] d IH]; simpl; [done|]. case_decide.
  - intros [= ->]. subst. by left.
  - intros. right. auto.
Qed.

Lemma dict_get_None k d : dict_get k d = None ↔ k ∉ dict_keys d.
Proof.
  induction d as [|[k0 v0] d IH]; simpl; [set_solver|].
  rewrite not_elem_of_cons, <- IH. case_decide; naive_solver.
Qed.

Lemma dict_in_keys k d : dict_in k d = true ↔ k ∈ dict_keys d.
Proof.
  unfold dict_in. pose proof (dict_get_None k d) as H.
  destruct (dict_get k d); [|naive_solver]. split; [|done]. intros _.
  destruct (decide (k ∈ dict_keys d)) as [|Hn]; [done|]. apply H in Hn. done.
Qed.

Lemma elem_dict_get k v d : dict_wf d → (k, v) ∈ d → dict_get k d = Some v.
Proof.
  unfold dict_wf. induction d as [|[k0 v0] d IH]; simpl; [by intros _ ?%elem_of_nil|].
  intros [Hn Hd]%NoDup_cons [Heq|Hin]%elem_of_cons.
  - simplify_eq. by rewrite decide_True.
  - rewrite decide_False; [auto|]. intros ->. apply Hn.
    apply list_elem_of_In, in_map_iff. exists (k0, v). by rewrite <- list_elem_of_In.
Qed.
End Dict.
#[export] Hint Rewrite @dict_get_set_eq : synapse.

(** *** Operations on dynamically typed values *)

(** [j == s], [j != s] for a string [s] *)
Definition is_str (j : json) (s : string) : bool :=
  match j with JStr t => bool_decide (t = s) | _ => false end.

(** [j.get(k)]: only mappings have the method. *)
Definition py_get (j : json) (k : string) : py (option json) :=
  match j with JObj d => Ok (dict_get k d) | _ => Raise AttributeError end.

(** [d.get(k, default)] *)
Definition dict_get_default {A} (k : string) (default : A) (d : list (string * A)) : A :=
  match dict_get k d with Some v => v | None => default end.

(** [j[k]] for a string [k] *)
Definition py_item (j : json) (k : string) : py json :=
  match j with JObj d => dict_item k d | _ => Raise TypeError end.

(** [x is None] for the result of a [dict.get] *)
Definition none_or_null (o : option json) : option json :=
  match o with Some JNull | None => None | Some j => Some j end.

(** [int(j)] *)
Definition py_int (j : json) : py Z :=
  match j with
  | JInt z => Ok z
  | JBool b => Ok (if b then 1 else 0)
  | JFloat (FFin m e) => Ok (if 0 <=? e then m * 2 ^ e else Z.quot m (2 ^ (- e)))
  | JFloat (FInf _) => Raise OverflowError
  | JStr s => py_int_of_str s
  | JNull | JList _ | JObj _ => Raise TypeError
  end.

(** [type(j) is int]: a bool is not an int here. *)
Definition type_is_int (j : json) : bool :=
  match j with JInt _ => true | _ => false end.

Definition is_mapping (j : json) : bool :=
  match j with JObj _ => true | _ => false end.

(** Lists and dicts are unhashable: they cannot be set elements or dict keys. *)
Definition hashable (j : json) : bool :=
  match j with JList _ | JObj _ => false | _ => true end.

(** The code points of a string, as [list(s)] enumerates them. *)
Definition starts_continuation (s : string) : bool :=
  match s with "" => false | String c _ => utf8_continuation c end.

Fixpoint str_chars (s : string) : list string :=
  match s with
  | "" => []
  | String c s' =>
      match str_chars s' with
      | p :: ps =>
          if starts_continuation s' then String c p :: ps else String c "" :: p :: ps
      | [] => [String c ""]
      end
  end.

Fixpoint str_contains (sub s : string) : bool :=
  str_prefix sub s || match s with "" => false | String _ s => str_contains sub s end.

(** [list(j)] *)
Definition py_list (j : json) : py (list json) :=
  match j with
  | JObj d => Ok (JStr <$> dict_keys d)
  | JList l => Ok l
  | JStr s => Ok (JStr <$> str_chars s)
  | _ => Raise TypeError
  end.

(** The value of a number as [m * 2 ^ e]; [True == 1 == 1.0]. *)
Definition num_value (j : json) : option (Z * Z) :=
  match j with
  | JBool b => Some (if b then 1 else 0, 0)
  | JInt z => Some (z, 0)
  | JFloat (FFin m e) => Some (m, e)
  | _ => None
  end.

(** [a == b] where [a] is hashable *)
Definition scalar_eqb (a b : json) : bool :=
  match a, b with
  | JNull, JNull => true
  | JStr s, JStr t => bool_decide (s = t)
  | JFloat (FInf x), JFloat (FInf y) => Bool.eqb x y
  | _, _ =>
      match num_value a, num_value b with
      | Some (m1, e1), Some (m2, e2) =>
          let e := Z.min e1 e2 in m1 * 2 ^ (e1 - e) =? m2 * 2 ^ (e2 - e)
      | _, _ => false
      end
  end.

(** [k in j] for a hashable [k] *)
Definition py_in (k j : json) : py bool :=
  match j with
  | JObj d => Ok (match k with JStr s => dict_in s d | _ => false end)
  | JList l => Ok (existsb (scalar_eqb k) l)
  | JStr s => match k with JStr sub => Ok (str_contains sub s) | _ => Raise TypeError end
  | _ => Raise TypeError
  end.

Definition list_index {A} (l : list A) (i : Z) : py A :=
  let n := Z.of_nat (length l) in
  let i := if i <? 0 then i + n else i in
  if i <? 0 then Raise IndexError
  else match l !! Z.to_nat i with Some x => Ok x | None => Raise IndexError end.

(** [j[k]] for a hashable [k] *)
Definition py_getitem (j k : json) : py json :=
  match j with
  | JObj d => match k with JStr s => dict_item s d | _ => Raise KeyError end
  | JList l =>
      match k with
      | JInt i => list_index l i
      | JBool b => list_index l (if b then 1 else 0)
      | _ => Raise TypeError
      end
  | JStr s =>
      match k with
      | JInt i => JStr <$> list_index (str_chars s) i
      | JBool b => JStr <$> list_index (str_chars s) (if b then 1 else 0)
      | _ => Raise TypeError
      end
  | _ => Raise TypeError
  end.

(** [if j:], the truth value of an optional value *)
Definition truthy (j : json) : bool :=
  match j with
  | JNull => false
  | JBool b => b
  | JInt z => negb (z =? 0)
  | JFloat (FFin m _) => negb (m =? 0)
  | JFloat (FInf _) => true
  | JStr s => negb (bool_decide (s = ""))
  | JList l => negb (bool_decide (l = []))
  | JObj d => negb (bool_decide (d = []))
  end.

Lemma is_str_true j s : is_str j s = true ↔ j = JStr s.
Proof. destruct j; simpl; rewrite ?bool_decide_eq_true; split; congruence. Qed.

Lemma is_str_false j s : is_str j s = false ↔ j ≠ JStr s.
Proof. rewrite <- not_true_iff_false, is_str_true. done. Qed.
#[export] Hint Rewrite is_str_true is_str_false : synapse.

Ltac is_str_prop :=
  repeat match goal with H : is_str _ _ = true |- _ => apply is_str_true in H end.

(** Evaluate comparisons of string constants. *)
Ltac eval_is_str :=
  repeat match goal with
  | |- context [is_str (JStr ?a) ?b] =>
      let v := eval vm_compute in (is_str (JStr a) b) in
      lazymatch v with
      | true => change (is_str (JStr a) b) with true
      | false => change (is_str (JStr a) b) with false
      end
  end; cbn [andb orb negb].

(** ** Third-party code the modelled functions call

    - [valid_ipv6]: [netaddr.valid_ipv6];
    - [verify_signed_json signed server key_name public_key]: decoding the public
      key ([unpaddedbase64], [signedjson.key]) and checking the signature
      ([signedjson.sign.verify_signed_json]); raises when either fails;
    - [canonical_json_len d]: the length of [canonicaljson.encode_canonical_json(d)];
    - [sha1_hexdigest s]: [hashlib.sha1(s.encode("utf-8")).hexdigest()]. *)
Class External : Type := {
  valid_ipv6 : string → bool;
  verify_signed_json : jdict → string → string → json → py unit;
  canonical_json_len : jdict → Z;
  sha1_hexdigest : string → string;
}.
