(* ===== verification/RoomVersions.v ===== *)
(** * Protocol constants and room versions

    [synapse/api/constants.py] (the names the modelled code uses) and
    [synapse/api/room_versions.py]: the attributes of every room version, on
    which the event format, the authorization rules, the redaction rules and
    the choice of state resolution algorithm depend. *)

From S2P Require Import Prelude PyData.

Module EventTypes.
Definition Member := "m.room.member".
Definition Create := "m.room.create".
Definition JoinRules := "m.room.join_rules".
Definition PowerLevels := "m.room.power_levels".
Definition Aliases := "m.room.aliases".
Definition Redaction := "m.room.redaction".
Definition ThirdPartyInvite := "m.room.third_party_invite".
Definition RoomHistoryVisibility := "m.room.history_visibility".
Definition Dummy := "org.matrix.dummy_event".
End EventTypes.

Module Membership.
Definition INVITE := "invite".
Definition JOIN := "join".
Definition KNOCK := "knock".
Definition LEAVE := "leave".
Definition BAN := "ban".
End Membership.

Module JoinRules.
Definition PUBLIC := "public".
Definition KNOCK := "knock".
Definition INVITE := "invite".
Definition PRIVATE := "private".
Definition RESTRICTED := "restricted".
Definition KNOCK_RESTRICTED := "knock_restricted".
End JoinRules.

Module HistoryVisibility.
Definition INVITED := "invited".
Definition JOINED := "joined".
Definition SHARED := "shared".
Definition WORLD_READABLE := "world_readable".
End HistoryVisibility.

Module EventContentFields.
Definition FEDERATE := "m.federate".
Definition ROOM_CREATOR := "creator".
Definition AUTHORISING_USER := "join_authorised_via_users_server".
End EventContentFields.

Definition MAX_PDU_SIZE : Z := 65536.

(** ** Room versions *)

Inductive EventFormatVersions : Type := ROOM_V1_V2 | ROOM_V3 | ROOM_V4_PLUS.
Inductive StateResolutionVersions : Type := StateResV1 | StateResV2.
Inductive RoomDisposition : Type := STABLE | UNSTABLE.
Inductive PushRuleRoomFlag : Type := EXTENSIBLE_EVENTS.

#[export] Instance EventFormatVersions_eq_dec : EqDecision EventFormatVersions.
Proof. solve_decision. Defined.
#[export] Instance StateResolutionVersions_eq_dec : EqDecision StateResolutionVersions.
Proof. solve_decision. Defined.
#[export] Instance RoomDisposition_eq_dec : EqDecision RoomDisposition.
Proof. solve_decision. Defined.
#[export] Instance PushRuleRoomFlag_eq_dec : EqDecision PushRuleRoomFlag.
Proof. solve_decision. Defined.

Record RoomVersion : Type := {
  identifier : string;
  disposition : RoomDisposition;
  event_format : EventFormatVersions;
  state_res : StateResolutionVersions;
  enforce_key_validity : bool;
  special_case_aliases_auth : bool;
  strict_canonicaljson : bool;
  limit_notifications_power_levels : bool;
  implicit_room_creator : bool;
  updated_redaction_rules : bool;
  restricted_join_rule : bool;
  restricted_join_rule_fix : bool;
  knock_join_rule : bool;
  msc3389_relation_redactions : bool;
  knock_restricted_join_rule : bool;
  enforce_int_power_levels : bool;
  msc3931_push_features : list PushRuleRoomFlag;
  msc3757_enabled : bool;
}.

#[export] Instance RoomVersion_eq_dec : EqDecision RoomVersion.
Proof. solve_decision. Defined.

Module RoomVersions.
Definition V1 : RoomVersion :=
  {| identifier := "1"; disposition := STABLE;
     event_format := ROOM_V1_V2; state_res := StateResV1;
     enforce_key_validity := false;
     special_case_aliases_auth := true;
     strict_canonicaljson := false;
     limit_notifications_power_levels := false;
     implicit_room_creator := false;
     updated_redaction_rules := false;
     restricted_join_rule := false;
     restricted_join_rule_fix := false;
     knock_join_rule := false;
     msc3389_relation_redactions := false;
     knock_restricted_join_rule := false;
     enforce_int_power_levels := false;
     msc3931_push_features := [];
     msc3757_enabled := false |}.

Definition V2 : RoomVersion :=
  {| identifier := "2"; disposition := STABLE;
     event_format := ROOM_V1_V2; state_res := StateResV2;
     enforce_key_validity := false;
     special_case_aliases_auth := true;
     strict_canonicaljson := false;
     limit_notifications_power_levels := false;
     implicit_room_creator := false;
     updated_redaction_rules := false;
     restricted_join_rule := false;
     restricted_join_rule_fix := false;
     knock_join_rule := false;
     msc3389_relation_redactions := false;
     knock_restricted_join_rule := false;
     enforce_int_power_levels := false;
     msc3931_push_features := [];
     msc3757_enabled := false |}.

Definition V3 : RoomVersion :=
  {| identifier := "3"; disposition := STABLE;
     event_format := ROOM_V3; state_res := StateResV2;
     enforce_key_validity := false;
     special_case_aliases_auth := true;
     strict_canonicaljson := false;
     limit_notifications_power_levels := false;
     implicit_room_creator := false;
     updated_redaction_rules := false;
     restricted_join_rule := false;
     restricted_join_rule_fix := false;
     knock_join_rule := false;
     msc3389_relation_redactions := false;
     knock_restricted_join_rule := false;
     enforce_int_power_levels := false;
     msc3931_push_features := [];
     msc3757_enabled := false |}.

Definition V4 : RoomVersion :=
  {| identifier := "4"; disposition := STABLE;
     event_format := ROOM_V4_PLUS; state_res := StateResV2;
     enforce_key_validity := false;
     special_case_aliases_auth := true;
     strict_canonicaljson := false;
     limit_notifications_power_levels := false;
     implicit_room_creator := false;
     updated_redaction_rules := false;
     restricted_join_rule := false;
     restricted_join_rule_fix := false;
     knock_join_rule := false;
     msc3389_relation_redactions := false;
     knock_restricted_join_rule := false;
     enforce_int_power_levels := false;
     msc3931_push_features := [];
     msc3757_enabled := false |}.

Definition V5 : RoomVersion :=
  {| identifier := "5"; disposition := STABLE;
     event_format := ROOM_V4_PLUS; state_res := StateResV2;
     enforce_key_validity := true;
     special_case_aliases_auth := true;
     strict_canonicaljson := false;
     limit_notifications_power_levels := false;
     implicit_room_creator := false;
     updated_redaction_rules := false;
     restricted_join_rule := false;
     restricted_join_rule_fix := false;
     knock_join_rule := false;
     msc3389_relation_redactions := false;
     knock_restricted_join_rule := false;
     enforce_int_power_levels := false;
     msc3931_push_features := [];
     msc3757_enabled := false |}.

Definition V6 : RoomVersion :=
  {| identifier := "6"; disposition := STABLE;
     event_format := ROOM_V4_PLUS; state_res := StateResV2;
     enforce_key_validity := true;
     special_case_aliases_auth := false;
     strict_canonicaljson := true;
     limit_notifications_power_levels := true;
     implicit_room_creator := false;
     updated_redaction_rules := false;
     restricted_join_rule := false;
     restricted_join_rule_fix := false;
     knock_join_rule := false;
     msc3389_relation_redactions := false;
     knock_restricted_join_rule := false;
     enforce_int_power_levels := false;
     msc3931_push_features := [];
     msc3757_enabled := false |}.

Definition V7 : RoomVersion :=
  {| identifier := "7"; disposition := STABLE;
     event_format := ROOM_V4_PLUS; state_res := StateResV2;
     enforce_key_validity := true;
     special_case_aliases_auth := false;
     strict_canonicaljson := true;
     limit_notifications_power_levels := true;
     implicit_room_creator := false;
     updated_redaction_rules := false;
     restricted_join_rule := false;
     restricted_join_rule_fix := false;
     knock_join_rule := true;
     msc3389_relation_redactions := false;
     knock_restricted_join_rule := false;
     enforce_int_power_levels := false;
     msc3931_push_features := [];
     msc3757_enabled := false |}.

Definition V8 : RoomVersion :=
  {| identifier := "8"; disposition := STABLE;
     event_format := ROOM_V4_PLUS; state_res := StateResV2;
     enforce_key_validity := true;
     special_case_aliases_auth := false;
     strict_canonicaljson := true;
     limit_notifications_power_levels := true;
     implicit_room_creator := false;
     updated_redaction_rules := false;
     restricted_join_rule := true;
     restricted_join_rule_fix := false;
     knock_join_rule := true;
     msc3389_relation_redactions := false;
     knock_restricted_join_rule := false;
     enforce_int_power_levels := false;
     msc3931_push_features := [];
     msc3757_enabled := false |}.

Definition V9 : RoomVersion :=
  {| identifier := "9"; disposition := STABLE;
     event_format := ROOM_V4_PLUS; state_res := StateResV2;
     enforce_key_validity := true;
     special_case_aliases_auth := false;
     strict_canonicaljson := true;
     limit_notifications_power_levels := true;
     implicit_room_creator := false;
     updated_redaction_rules := false;
     restricted_join_rule := true;
     restricted_join_rule_fix := true;
     knock_join_rule := true;
     msc3389_relation_redactions := false;
     knock_restricted_join_rule := false;
     enforce_int_power_levels := false;
     msc3931_push_features := [];
     msc3757_enabled := false |}.

Definition V10 : RoomVersion :=
  {| identifier := "10"; disposition := STABLE;
     event_format := ROOM_V4_PLUS; state_res := StateResV2;
     enforce_key_validity := true;
     special_case_aliases_auth := false;
     strict_canonicaljson := true;
     limit_notifications_power_levels := true;
     implicit_room_creator := false;
     updated_redaction_rules := false;
     restricted_join_rule := true;
     restricted_join_rule_fix := true;
     knock_join_rule := true;
     msc3389_relation_redactions := false;
     knock_restricted_join_rule := true;
     enforce_int_power_levels := true;
     msc3931_push_features := [];
     msc3757_enabled := false |}.

Definition MSC1767v10 : RoomVersion :=
  {| identifier := "org.matrix.msc1767.10"; disposition := UNSTABLE;
     event_format := ROOM_V4_PLUS; state_res := StateResV2;
     enforce_key_validity := true;
     special_case_aliases_auth := false;
     strict_canonicaljson := true;
     limit_notifications_power_levels := true;
     implicit_room_creator := false;
     updated_redaction_rules := false;
     restricted_join_rule := true;
     restricted_join_rule_fix := true;
     knock_join_rule := true;
     msc3389_relation_redactions := false;
     knock_restricted_join_rule := true;
     enforce_int_power_levels := true;
     msc3931_push_features := [EXTENSIBLE_EVENTS];
     msc3757_enabled := false |}.

Definition MSC3757v10 : RoomVersion :=
  {| identifier := "org.matrix.msc3757.10"; disposition := UNSTABLE;
     event_format := ROOM_V4_PLUS; state_res := StateResV2;
     enforce_key_validity := true;
     special_case_aliases_auth := false;
     strict_canonicaljson := true;
     limit_notifications_power_levels := true;
     implicit_room_creator := false;
     updated_redaction_rules := false;
     restricted_join_rule := true;
     restricted_join_rule_fix := true;
     knock_join_rule := true;
     msc3389_relation_redactions := false;
     knock_restricted_join_rule := true;
     enforce_int_power_levels := true;
     msc3931_push_features := [];
     msc3757_enabled := true |}.

Definition V11 : RoomVersion :=
  {| identifier := "11"; disposition := STABLE;
     event_format := ROOM_V4_PLUS; state_res := StateResV2;
     enforce_key_validity := true;
     special_case_aliases_auth := false;
     strict_canonicaljson := true;
     limit_notifications_power_levels := true;
     implicit_room_creator := true;
     updated_redaction_rules := true;
     restricted_join_rule := true;
     restricted_join_rule_fix := true;
     knock_join_rule := true;
     msc3389_relation_redactions := false;
     knock_restricted_join_rule := true;
     enforce_int_power_levels := true;
     msc3931_push_features := [];
     msc3757_enabled := false |}.

Definition MSC3757v11 : RoomVersion :=
  {| identifier := "org.matrix.msc3757.11"; disposition := UNSTABLE;
     event_format := ROOM_V4_PLUS; state_res := StateResV2;
     enforce_key_validity := true;
     special_case_aliases_auth := false;
     strict_canonicaljson := true;
     limit_notifications_power_levels := true;
     implicit_room_creator := true;
     updated_redaction_rules := true;
     restricted_join_rule := true;
     restricted_join_rule_fix := true;
     knock_join_rule := true;
     msc3389_relation_redactions := false;
     knock_restricted_join_rule := true;
     enforce_int_power_levels := true;
     msc3931_push_features := [];
     msc3757_enabled := true |}.
End RoomVersions.

(** The versions known without any experimental setting (the server adds
    [MSC1767v10] when [msc1767_enabled] is set). *)
Definition KNOWN_ROOM_VERSIONS : list (string * RoomVersion) :=
  map (λ v, (identifier v, v))
    [ RoomVersions.V1;
      RoomVersions.V2;
      RoomVersions.V3;
      RoomVersions.V4;
      RoomVersions.V5;
      RoomVersions.V6;
      RoomVersions.V7;
      RoomVersions.V8;
      RoomVersions.V9;
      RoomVersions.V10;
      RoomVersions.V11;
      RoomVersions.MSC3757v10;
      RoomVersions.MSC3757v11 ].

(** [room_version_prop in KNOWN_ROOM_VERSIONS] for a value read from an event:
    an unhashable value raises, any other value that is not a string is absent. *)
Definition in_known_room_versions (j : json) : py bool :=
  if hashable j then
    Ok (match j with JStr s => dict_in s KNOWN_ROOM_VERSIONS | _ => false end)
  else Raise TypeError.

(** [MSC3244_CAPABILITIES]: which versions support a capability *)
Definition capability_support (support_check_lambda : RoomVersion → bool) : list string :=
  map identifier
    (List.filter support_check_lambda (map snd KNOWN_ROOM_VERSIONS)).
