(* ===== verification/Ids.v ===== *)
(** * Identifiers: [synapse/types/__init__.py] and [synapse/util/stringutils.py]

    User, room and event identifiers, server names, and the mapping of external
    user names onto Matrix localparts. *)

From S2P Require Import Prelude PyData RoomVersions.
From Stdlib Require Import Ascii.

Open Scope Z_scope.

Definition get_domain_from_id (s : string) : py string :=
  match str_cut ":" s with
  | Some (_, domain) => Ok domain
  | None => Raise (SynapseError 400 "Invalid ID: %r")
  end.

(** [string[1:idx]]: the first character is dropped whatever it is. *)
Definition get_localpart_from_id (s : string) : py string :=
  match str_cut ":" s with
  | Some (l, _) => Ok (match str_chars l with [] => "" | c :: cs => foldr String.app "" cs end)
  | None => Raise (SynapseError 400 "Invalid ID: %r")
  end.

Record DomainSpecificString : Type := { localpart : string; domain : string }.

(** The class variable [SIGIL] of the subclasses. *)
Definition UserID_SIGIL : ascii := "@".
Definition RoomAlias_SIGIL : ascii := "#".
Definition RoomID_SIGIL : ascii := "!".
Definition EventID_SIGIL : ascii := "$".

Definition from_string (SIGIL : ascii) (s : string) : py DomainSpecificString :=
  match s with
  | "" => Raise (SynapseError 400 "Expected %s string to start with '%s'")
  | String c rest =>
      if decide (c = SIGIL) then
        match str_cut ":" rest with
        | Some (l, d) => Ok {| localpart := l; domain := d |}
        | None => Raise (SynapseError 400 "Expected %s of the form '%slocalname:domain'")
        end
      else Raise (SynapseError 400 "Expected %s string to start with '%s'")
  end.

Definition to_string (SIGIL : ascii) (d : DomainSpecificString) : string :=
  String SIGIL (localpart d +:+ String ":" (domain d)).

(** ** Server names *)

(** [s.rsplit(c, 1)]: split at the last occurrence. *)
Fixpoint str_rcut (c : ascii) (s : string) : option (string * string) :=
  match s with
  | "" => None
  | String a s' =>
      match str_rcut c s' with
      | Some (l, r) => Some (String a l, r)
      | None => if decide (a = c) then Some ("", s') else None
      end
  end.

Fixpoint last_char (s : string) : option ascii :=
  match s with
  | "" => None
  | String c "" => Some c
  | String _ s => last_char s
  end.

(** [s[:-1]] on a string ending in an ASCII character *)
Fixpoint drop_last (s : string) : string :=
  match s with
  | "" => ""
  | String c "" => ""
  | String c s => String c (drop_last s)
  end.

Definition parse_server_name (server_name : string) : py (string * option Z) :=
  if decide (last_char server_name = Some "]"%char) then Ok (server_name, None)
  else
    match str_rcut ":" server_name with
    | None => Ok (server_name, None)
    | Some (d, p) =>
        match int_of_str p with
        | Some port => Ok (d, Some port)
        | None => Raise ValueError
        end
    end.

Definition in_range (lo hi : string) (c : ascii) : bool :=
  match lo, hi with
  | String l _, String h _ =>
      (nat_of_ascii l <=? nat_of_ascii c)%nat && (nat_of_ascii c <=? nat_of_ascii h)%nat
  | _, _ => false
  end.

Definition host_char (c : ascii) : bool :=
  in_range "0" "9" c || in_range "a" "z" c || in_range "A" "Z" c || bool_decide (c = "-"%char).

Fixpoint str_forallb (f : ascii → bool) (s : string) : bool :=
  match s with "" => true | String c s => f c && str_forallb f s end.

(** [\A[0-9a-zA-Z-]+(?:\.[0-9a-zA-Z-]+)*\Z]: dot-separated non-empty labels. *)
Definition VALID_HOST_REGEX (host : string) : bool :=
  forallb (λ label, negb (bool_decide (label = "")) && str_forallb host_char label)
    (str_split "." host).

Section WithExternal.
Context `{External}.

Definition parse_and_validate_server_name (server_name : string) : py (string * option Z) :=
  '(host, port) ← parse_server_name server_name;
  match host with
  | String "[" inner =>
      if decide (last_char host = Some "]"%char) then
        let ipv6_address := drop_last inner in
        if bool_decide (ipv6_address = "") || negb (valid_ipv6 ipv6_address)
        then Raise ValueError else Ok (host, port)
      else Raise ValueError
  | _ => if VALID_HOST_REGEX host then Ok (host, port) else Raise ValueError
  end.

Definition is_valid (SIGIL : ascii) (s : string) : bool :=
  is_ok (obj ← from_string SIGIL s; parse_and_validate_server_name (domain obj)).
End WithExternal.

(** ** Localparts *)

Definition MXID_LOCALPART_ALLOWED_CHARACTERS (c : ascii) : bool :=
  bool_decide (c ∈ ["_"; "-"; "."; "/"; "="; "+"]%char)
  || in_range "a" "z" c || in_range "0" "9" c.

Definition contains_invalid_mxid_characters (localpart : string) : bool :=
  negb (str_forallb MXID_LOCALPART_ALLOWED_CHARACTERS localpart).

(** [bytes.lower()] on one byte *)
Definition ascii_lower (c : ascii) : ascii :=
  if in_range "A" "Z" c then ascii_of_nat (nat_of_ascii c + 32) else c.

Definition hex_digit (n : nat) : ascii :=
  ascii_of_nat (if (n <? 10)%nat then 48 + n else 87 + n).

(** [b"=%02x" % (c,)] *)
Definition hex_escape (c : ascii) : string :=
  let n := nat_of_ascii c in
  String "=" (String (hex_digit (n / 16)) (String (hex_digit (n mod 16)) "")).

Fixpoint str_concat_map (f : ascii → string) (s : string) : string :=
  match s with "" => "" | String c s => f c +:+ str_concat_map f s end.

(** [UPPER_CASE_PATTERN.sub(f1, username)] *)
Definition escape_upper (c : ascii) : string :=
  if in_range "A" "Z" c || bool_decide (c = "_"%char)
  then String "_" (String (ascii_lower c) "") else String c "".

(** [NON_MXID_CHARACTER_PATTERN.sub(f2, username)] *)
Definition escape_non_mxid (c : ascii) : string :=
  if MXID_LOCALPART_ALLOWED_CHARACTERS c && negb (bool_decide (c = "="%char))
  then String c "" else hex_escape c.

(** [re.sub(b"^_", b"=5f", username)] *)
Definition escape_initial_underscore (s : string) : string :=
  match s with
  | String "_" s' => "=5f" +:+ s'
  | _ => s
  end.

Definition map_username_to_mxid_localpart (username : string) (case_sensitive : bool) : string :=
  let username :=
    if case_sensitive then str_concat_map escape_upper username
    else str_concat_map (λ c, String (ascii_lower c) "") username in
  let username := str_concat_map escape_non_mxid username in
  escape_initial_underscore username.

(** ** Facts *)

Lemma to_string_from_string SIGIL s d :
  from_string SIGIL s = Ok d → to_string SIGIL d = s.
Proof.
  unfold from_string, to_string. destruct s as [|c s]; [done|].
  case_decide as Hc; [|done]. destruct (str_cut ":" s) as [[l r]|] eqn:E; [|done].
  intros [= <-]. simpl. apply str_cut_Some in E as [-> _]. by subst c.
Qed.

Lemma from_string_to_string SIGIL d :
  str_mem ":" (localpart d) = false → from_string SIGIL (to_string SIGIL d) = Ok d.
Proof.
  intros Hl. unfold from_string, to_string. rewrite decide_True by done.
  rewrite str_cut_app by done. by destruct d.
Qed.

Lemma from_string_localpart SIGIL s d :
  from_string SIGIL s = Ok d → str_mem ":" (localpart d) = false.
Proof.
  unfold from_string. destruct s as [|c s]; [done|]. case_decide; [|done].
  destruct (str_cut ":" s) as [[l r]|] eqn:E; [|done]. intros [= <-]. simpl.
  by apply str_cut_Some in E as [_ ?].
Qed.

Lemma from_string_domain SIGIL s d :
  SIGIL ≠ ":"%char → from_string SIGIL s = Ok d → get_domain_from_id s = Ok (domain d).
Proof.
  intros Hs Hd. pose proof (to_string_from_string _ _ _ Hd) as <-.
  pose proof (from_string_localpart _ _ _ Hd) as Hl.
  unfold get_domain_from_id, to_string. rewrite <- str_app_cons, str_cut_app; [done|].
  simpl. by rewrite bool_decide_eq_false_2.
Qed.

Lemma str_forallb_app f s t : str_forallb f (s +:+ t) = str_forallb f s && str_forallb f t.
Proof.
  induction s as [|c s IH]; [done|]. rewrite str_app_cons. simpl. by rewrite IH, andb_assoc.
Qed.

Lemma str_forallb_concat_map f g s :
  (∀ c, str_forallb f (g c) = true) → str_forallb f (str_concat_map g s) = true.
Proof.
  intros H. induction s as [|c s IH]; [done|]. simpl. by rewrite str_forallb_app, H, IH.
Qed.

(** Case analysis over all 256 bytes. *)
Ltac all_bytes c := destruct c as [[] [] [] [] [] [] [] []].

Lemma escape_non_mxid_allowed c :
  str_forallb MXID_LOCALPART_ALLOWED_CHARACTERS (escape_non_mxid c) = true.
Proof. all_bytes c; reflexivity. Qed.

Lemma escape_initial_underscore_allowed s :
  str_forallb MXID_LOCALPART_ALLOWED_CHARACTERS s = true →
  str_forallb MXID_LOCALPART_ALLOWED_CHARACTERS (escape_initial_underscore s) = true.
Proof.
  intros H. destruct s as [|c s]; [done|].
  destruct (decide (c = "_"%char)) as [->|Hne].
  - change (escape_initial_underscore _) with ("=5f" +:+ s). simpl in H.
    by rewrite str_forallb_app, H.
  - replace (escape_initial_underscore (String c s)) with (String c s); [done|].
    all_bytes c; done.
Qed.

(** The result of the mapping is a valid localpart. *)
Lemma map_username_allowed username case_sensitive :
  contains_invalid_mxid_characters
    (map_username_to_mxid_localpart username case_sensitive) = false.
Proof.
  unfold contains_invalid_mxid_characters. apply negb_false_iff.
  apply escape_initial_underscore_allowed, str_forallb_concat_map, escape_non_mxid_allowed.
Qed.

(** A character encoding with a decoder is injective on strings. *)
Lemma str_concat_map_inj (f : ascii → string) (dec : string → option (ascii * string)) :
  (∀ c s, dec (f c +:+ s) = Some (c, s)) → dec "" = None →
  ∀ s t, str_concat_map f s = str_concat_map f t → s = t.
Proof.
  intros Hdec Hnil s. induction s as [|c s IH]; intros [|d t]; simpl; intros Heq;
    [done| | |]; apply (f_equal dec) in Heq; rewrite ?Hdec, ?Hnil in Heq; simplify_eq.
  f_equal. auto.
Qed.

Definition unescape_upper (s : string) : option (ascii * string) :=
  match s with
  | "" => None
  | String "_" (String x s) =>
      Some (if decide (x = "_"%char) then x else ascii_of_nat (nat_of_ascii x - 32), s)
  | String c s => Some (c, s)
  end.

Definition hex_val (c : ascii) : nat :=
  let n := nat_of_ascii c in if (n <? 58)%nat then n - 48 else n - 87.

Definition unescape_non_mxid (s : string) : option (ascii * string) :=
  match s with
  | "" => None
  | String "=" (String h (String l s)) => Some (ascii_of_nat (hex_val h * 16 + hex_val l), s)
  | String c s => Some (c, s)
  end.

Definition unescape_initial (s : string) : string :=
  match s with
  | String "=" (String "5" (String "f" s)) => String "_" s
  | _ => s
  end.

Lemma unescape_upper_spec c s : unescape_upper (escape_upper c +:+ s) = Some (c, s).
Proof. all_bytes c; reflexivity. Qed.

Lemma unescape_non_mxid_spec c s : unescape_non_mxid (escape_non_mxid c +:+ s) = Some (c, s).
Proof. all_bytes c; reflexivity. Qed.

Lemma unescape_initial_spec u :
  unescape_initial (escape_initial_underscore (str_concat_map escape_non_mxid u))
  = str_concat_map escape_non_mxid u.
Proof.
  destruct u as [|c u]; [done|]. simpl. generalize (str_concat_map escape_non_mxid u).
  intros t. all_bytes c; reflexivity.
Qed.

(** With [case_sensitive], distinct user names get distinct localparts. *)
Lemma map_username_inj u1 u2 :
  map_username_to_mxid_localpart u1 true = map_username_to_mxid_localpart u2 true → u1 = u2.
Proof.
  unfold map_username_to_mxid_localpart. intros Heq.
  apply (f_equal unescape_initial) in Heq. rewrite !unescape_initial_spec in Heq.
  apply (str_concat_map_inj _ _ unescape_non_mxid_spec eq_refl) in Heq.
  by apply (str_concat_map_inj _ _ unescape_upper_spec eq_refl) in Heq.
Qed.

(** ** The guarantees *)

(** Parsing and printing identifiers are inverse: a string parses as an
    identifier exactly when it is the printed form of that identifier, whose
    localpart has no colon. *)
Theorem matrix_id_roundtrip SIGIL s d :
  from_string SIGIL s = Ok d ↔ to_string SIGIL d = s ∧ str_mem ":" (localpart d) = false.
Proof.
  split.
  - intros Hd. split; [by apply to_string_from_string | by eapply from_string_localpart].
  - intros [<- Hl]. by apply from_string_to_string.
Qed.

(** External user names map onto valid Matrix localparts, and when case is
    kept two user names map to the same localpart only if they are equal. *)
Theorem mxid_mapping_valid_and_injective :
  (∀ username case_sensitive,
     contains_invalid_mxid_characters
       (map_username_to_mxid_localpart username case_sensitive) = false) ∧
  (∀ u1 u2, map_username_to_mxid_localpart u1 true = map_username_to_mxid_localpart u2 true
            ↔ u1 = u2).
Proof.
  split; [apply map_username_allowed|].
  intros u1 u2. split; [apply map_username_inj | by intros ->].
Qed.
