(* ===== verification/Events.v ===== *)
(** * Events and their redaction

    [EventBase] of [synapse/events/__init__.py] and the functions of
    [synapse/events/utils.py] that redact events and validate their JSON.

    An event is a record of the attributes [EventBase] declares, at the types
    it declares for them: [state_key] is the one that may be absent.
    [ev_extra] holds the remaining keys of [_dict] ([hashes], [origin],
    [redacts], ...); [ev_prev_events] and [ev_auth_events] pair each event id
    with the hashes that room versions 1 and 2 store beside it. *)

From S2P Require Import Prelude PyData RoomVersions Ids.

Open Scope Z_scope.

Record event : Type := Event {
  ev_id : string;
  ev_room_version : RoomVersion;
  ev_type : string;
  ev_sender : string;
  ev_room_id : string;
  ev_state_key : option string;
  ev_content : jdict;
  ev_origin_server_ts : Z;
  ev_depth : Z;
  ev_prev_events : list (string * json);
  ev_auth_events : list (string * json);
  ev_extra : jdict;
  ev_signatures : jdict;
  ev_unsigned : jdict;
  ev_rejected_reason : option string;
  (* internal_metadata *)
  ev_outlier : bool;
  ev_soft_failed : bool;
  ev_redacted : bool;
  ev_recheck_redaction : bool;
}.

(** [event.state_key], a [DictProperty]: missing keys are attribute errors. *)
Definition state_key (e : event) : py string :=
  match ev_state_key e with Some s => Ok s | None => Raise AttributeError end.

Definition get_state_key (e : event) : option string := ev_state_key e.

Definition is_state (e : event) : bool :=
  match get_state_key e with Some _ => true | None => false end.

(** [event.membership] *)
Definition membership (e : event) : py json := dict_item "membership" (ev_content e).

Definition prev_event_ids (e : event) : list string := map fst (ev_prev_events e).
Definition auth_event_ids (e : event) : list string := map fst (ev_auth_events e).

(** [event.redacts] *)
Definition redacts (e : event) : option json :=
  if updated_redaction_rules (ev_room_version e)
  then dict_get "redacts" (ev_content e) else dict_get "redacts" (ev_extra e).

(** The edges as the event format writes them: [[id, hashes]] pairs or ids. *)
Definition edges_to_json (v : EventFormatVersions) (l : list (string * json)) : json :=
  JList (match v with
         | ROOM_V1_V2 => map (λ p, JList [JStr p.1; p.2]) l
         | _ => map (λ p, JStr p.1) l
         end).

Definition opt_item (k : string) (o : option json) : jdict :=
  match o with Some j => [(k, j)] | None => [] end.

(** [event.get_dict()] *)
Definition get_dict (e : event) : jdict :=
  let v := event_format (ev_room_version e) in
  opt_item "event_id" (match v with ROOM_V1_V2 => Some (JStr (ev_id e)) | _ => None end) ++
  [("type", JStr (ev_type e)); ("sender", JStr (ev_sender e));
   ("room_id", JStr (ev_room_id e))] ++
  opt_item "state_key" (JStr <$> ev_state_key e) ++
  [("content", JObj (ev_content e)); ("origin_server_ts", JInt (ev_origin_server_ts e));
   ("depth", JInt (ev_depth e)); ("prev_events", edges_to_json v (ev_prev_events e));
   ("auth_events", edges_to_json v (ev_auth_events e))] ++
  ev_extra e ++
  [("signatures", JObj (ev_signatures e)); ("unsigned", JObj (ev_unsigned e))].

(** ** Redaction *)

Definition redaction_allowed_keys (rv : RoomVersion) : list string :=
  ["event_id"; "sender"; "room_id"; "hashes"; "signatures"; "content"; "type"; "state_key";
   "depth"; "prev_events"; "auth_events"; "origin_server_ts"]
  ++ (if updated_redaction_rules rv then [] else ["prev_state"; "membership"; "origin"]).

(** The closure [add_fields] of [prune_event_dict], copying from [content] into
    [new_content]. *)
Definition add_fields (content : jdict) (fields : list string) (new_content : jdict) : jdict :=
  fold_left (λ acc field,
    match dict_get field content with Some v => dict_set field v acc | None => acc end)
    fields new_content.

(** The [third_party_invite] kept for a membership event of room version 11. *)
Definition prune_third_party_invite (content new_content : jdict) : jdict :=
  match dict_get "third_party_invite" content with
  | Some (JObj tpi) =>
      dict_set "third_party_invite" (JObj (opt_item "signed" (dict_get "signed" tpi)))
        new_content
  | _ => new_content
  end.

(** The [m.relates_to] kept under [msc3389_relation_redactions]. *)
Definition prune_relates_to (content new_content : jdict) : jdict :=
  match dict_get "m.relates_to" content with
  | Some (JObj r) =>
      match add_fields r ["rel_type"; "event_id"] [] with
      | [] => new_content
      | kept => dict_set "m.relates_to" (JObj kept) new_content
      end
  | _ => new_content
  end.

Definition prune_content (rv : RoomVersion) (event_type : json) (content : jdict) : jdict :=
  let kept :=
    if is_str event_type EventTypes.Member then
      let c := add_fields content ["membership"] [] in
      let c := if restricted_join_rule_fix rv
               then add_fields content [EventContentFields.AUTHORISING_USER] c else c in
      if updated_redaction_rules rv then prune_third_party_invite content c else c
    else if is_str event_type EventTypes.Create then
      if updated_redaction_rules rv then content
      else if negb (implicit_room_creator rv) then add_fields content ["creator"] [] else []
    else if is_str event_type EventTypes.JoinRules then
      let c := add_fields content ["join_rule"] [] in
      if restricted_join_rule rv then add_fields content ["allow"] c else c
    else if is_str event_type EventTypes.PowerLevels then
      let c := add_fields content
        ["users"; "users_default"; "events"; "events_default"; "state_default"; "ban";
         "kick"; "redact"] [] in
      if updated_redaction_rules rv then add_fields content ["invite"] c else c
    else if is_str event_type EventTypes.Aliases && special_case_aliases_auth rv then
      add_fields content ["aliases"] []
    else if is_str event_type EventTypes.RoomHistoryVisibility then
      add_fields content ["history_visibility"] []
    else if is_str event_type EventTypes.Redaction && updated_redaction_rules rv then
      add_fields content ["redacts"] []
    else [] in
  if msc3389_relation_redactions rv then prune_relates_to content kept else kept.

(** [prune_event_dict].  The [content] of an event is an object and its
    [unsigned], when present, too; a dict that breaks this raises. *)
Definition prune_event_dict (rv : RoomVersion) (event_dict : jdict) : py jdict :=
  event_type ← dict_item "type" event_dict;
  content ← dict_item "content" event_dict;
  match content, dict_get_default "unsigned" (JObj []) event_dict with
  | JObj content, JObj event_unsigned =>
      let allowed_fields :=
        filter (λ kv, kv.1 ∈ redaction_allowed_keys rv) event_dict in
      let allowed_fields :=
        dict_set "content" (JObj (prune_content rv event_type content)) allowed_fields in
      Ok (dict_set "unsigned"
            (JObj (add_fields event_unsigned ["age_ts"; "replaces_state"] []))
            allowed_fields)
  | _, _ => Raise TypeError
  end.

(** ** Building events from dicts

    [make_event_from_dict] keeps the dict and reads the attributes lazily; here
    they are read at once, and a missing or ill-typed attribute raises.  For
    room versions 3 and later the event id is not in the dict but the reference
    hash of the event, passed as [event_id]. *)

Definition as_str (j : json) : py string :=
  match j with JStr s => Ok s | _ => Raise TypeError end.
Definition as_int (j : json) : py Z :=
  match j with JInt z => Ok z | _ => Raise TypeError end.
Definition as_obj (j : json) : py jdict :=
  match j with JObj d => Ok d | _ => Raise TypeError end.

Definition edge_of_json (v : EventFormatVersions) (j : json) : py (string * json) :=
  match v, j with
  | ROOM_V1_V2, JList [JStr s; h] => Ok (s, h)
  | ROOM_V1_V2, _ => Raise ValueError
  | _, JStr s => Ok (s, JNull)
  | _, _ => Raise TypeError
  end.

Fixpoint edges_of_list (v : EventFormatVersions) (l : list json) : py (list (string * json)) :=
  match l with
  | [] => Ok []
  | j :: l => p ← edge_of_json v j; ps ← edges_of_list v l; Ok (p :: ps)
  end.

Definition edges_of_json (v : EventFormatVersions) (j : json) : py (list (string * json)) :=
  match j with JList l => edges_of_list v l | _ => Raise TypeError end.

Definition typed_keys : list string :=
  ["event_id"; "type"; "sender"; "room_id"; "state_key"; "content"; "origin_server_ts";
   "depth"; "prev_events"; "auth_events"; "signatures"; "unsigned"].

Definition make_event_from_dict (event_id : string) (d : jdict) (rv : RoomVersion)
    (rejected_reason : option string) : py event :=
  let v := event_format rv in
  id ← (match v with
        | ROOM_V1_V2 => dict_item "event_id" d ≫= as_str
        | _ => if dict_in "event_id" d then Raise AssertionError else Ok event_id
        end);
  signatures ← as_obj (dict_get_default "signatures" (JObj []) d);
  unsigned ← as_obj (dict_get_default "unsigned" (JObj []) d);
  typ ← dict_item "type" d ≫= as_str;
  sender ← dict_item "sender" d ≫= as_str;
  room_id ← dict_item "room_id" d ≫= as_str;
  sk ← (match dict_get "state_key" d with
        | None => Ok None
        | Some j => Some <$> as_str j
        end);
  content ← dict_item "content" d ≫= as_obj;
  ts ← dict_item "origin_server_ts" d ≫= as_int;
  depth ← dict_item "depth" d ≫= as_int;
  prev ← dict_item "prev_events" d ≫= edges_of_json v;
  auth ← dict_item "auth_events" d ≫= edges_of_json v;
  Ok {| ev_id := id; ev_room_version := rv; ev_type := typ; ev_sender := sender;
        ev_room_id := room_id; ev_state_key := sk; ev_content := content;
        ev_origin_server_ts := ts; ev_depth := depth; ev_prev_events := prev;
        ev_auth_events := auth; ev_extra := filter (λ kv, kv.1 ∉ typed_keys) d;
        ev_signatures := signatures; ev_unsigned := unsigned;
        ev_rejected_reason := rejected_reason; ev_outlier := false;
        ev_soft_failed := false; ev_redacted := false; ev_recheck_redaction := false |}.

(** Copy [internal_metadata]: [get_dict()] carries the flags, [outlier] is
    copied separately. *)
Definition with_metadata_of (e src : event) (redacted : bool) : event :=
  {| ev_id := ev_id e; ev_room_version := ev_room_version e; ev_type := ev_type e;
     ev_sender := ev_sender e; ev_room_id := ev_room_id e; ev_state_key := ev_state_key e;
     ev_content := ev_content e; ev_origin_server_ts := ev_origin_server_ts e;
     ev_depth := ev_depth e; ev_prev_events := ev_prev_events e;
     ev_auth_events := ev_auth_events e; ev_extra := ev_extra e;
     ev_signatures := ev_signatures e; ev_unsigned := ev_unsigned e;
     ev_rejected_reason := ev_rejected_reason e;
     ev_outlier := ev_outlier src; ev_soft_failed := ev_soft_failed src;
     ev_redacted := redacted; ev_recheck_redaction := ev_recheck_redaction src |}.

Definition prune_event (e : event) : py event :=
  pruned_event_dict ← prune_event_dict (ev_room_version e) (get_dict e);
  pruned_event ← make_event_from_dict (ev_id e) pruned_event_dict (ev_room_version e) None;
  Ok (with_metadata_of pruned_event e true).

Definition clone_event (e : event) : py event :=
  new_event ← make_event_from_dict (ev_id e) (get_dict e) (ev_room_version e) None;
  Ok (with_metadata_of new_event e (ev_redacted e)).

(** ** Canonical JSON and power-level contents *)

Definition CANONICALJSON_MAX_INT : Z := 2 ^ 53 - 1.
Definition CANONICALJSON_MIN_INT : Z := - CANONICALJSON_MAX_INT.

Fixpoint validate_canonicaljson (value : json) : py unit :=
  match value with
  | JInt z =>
      raise_if ((z <? CANONICALJSON_MIN_INT) || (CANONICALJSON_MAX_INT <? z))
        (SynapseError 400 "JSON integer out of range")
  | JFloat _ => Raise (SynapseError 400 "Bad JSON value: float")
  | JObj d =>
      (fix go (d : jdict) : py unit :=
         match d with [] => Ok tt | (_, v) :: d => validate_canonicaljson v ;; go d end) d
  | JList l =>
      (fix go (l : list json) : py unit :=
         match l with [] => Ok tt | v :: l => validate_canonicaljson v ;; go l end) l
  | JBool _ | JStr _ | JNull => Ok tt
  end.

(** [_copy_power_level_value_as_integer]: the integer to store under [key] *)
Definition copy_power_level_value_as_integer (old_value : json) : py json :=
  match old_value with
  | JInt z => Ok (JInt z)
  | JStr s =>
      match int_of_str s with
      | Some z => Ok (JInt z)
      | None => Raise TypeError
      end
  | _ => Raise TypeError
  end.

Fixpoint copy_power_level_items (d : jdict) : py jdict :=
  match d with
  | [] => Ok []
  | (k, v) :: d =>
      v' ← copy_power_level_value_as_integer v;
      d' ← copy_power_level_items d;
      Ok ((k, v') :: d')
  end.

Fixpoint copy_power_levels_go (d : jdict) : py jdict :=
  match d with
  | [] => Ok []
  | (k, v) :: d =>
      v' ← (match v with
            | JObj h => JObj <$> copy_power_level_items h
            | _ => copy_power_level_value_as_integer v
            end);
      d' ← copy_power_levels_go d;
      Ok ((k, v') :: d')
  end.

Definition copy_and_fixup_power_levels_contents (old_power_levels : json) : py jdict :=
  match old_power_levels with
  | JObj d => copy_power_levels_go d
  | _ => Raise TypeError
  end.

(** ** Facts about redaction *)

Lemma dict_set_fresh {A} k (v : A) d : k ∉ dict_keys d → dict_set k v d = d ++ [(k, v)].
Proof.
  induction d as [|[k' v'] d IH]; simpl; [done|]. intros [? ?]%not_elem_of_cons.
  by rewrite decide_False, IH.
Qed.

Lemma dict_set_same {A} k (v : A) d : dict_get k d = Some v → dict_set k v d = d.
Proof.
  induction d as [|[k' v'] d IH]; simpl; [done|]. case_decide; [by intros [= ->]|].
  intros. f_equal. auto.
Qed.

Lemma dict_keys_set {A} k k' (v : A) d :
  k ∈ dict_keys (dict_set k' v d) ↔ k = k' ∨ k ∈ dict_keys d.
Proof.
  rewrite <- !dict_in_keys. unfold dict_in. rewrite dict_get_set.
  case_decide; [naive_solver|]. destruct (dict_get k d); naive_solver.
Qed.

(** The fields of [fs] that [c] has, in the order of [fs]. *)
Definition pick (c : jdict) (fs : list string) : jdict :=
  omap (λ f, (f,.) <$> dict_get f c) fs.

Lemma pick_keys c fs k : k ∈ dict_keys (pick c fs) → k ∈ fs.
Proof.
  unfold dict_keys. rewrite list_elem_of_In, in_map_iff. intros ([k' v] & <- & Hin).
  apply list_elem_of_In, list_elem_of_omap in Hin as (f & Hf & Hv).
  destruct (dict_get f c); simplify_eq/=. done.
Qed.

Lemma dict_get_pick c fs k :
  dict_get k (pick c fs) = if decide (k ∈ fs) then dict_get k c else None.
Proof.
  induction fs as [|f fs IH]; simpl; [done|].
  change (pick c (f :: fs)) with
    (match (f,.) <$> dict_get f c with Some y => y :: pick c fs | None => pick c fs end).
  destruct (dict_get f c) as [v|] eqn:E; simpl.
  - destruct (decide (k = f)) as [->|Hne].
    + rewrite (decide_True (P := f ∈ f :: fs)) by set_solver. done.
    + rewrite IH. by apply decide_ext; set_solver.
  - rewrite IH. destruct (decide (k = f)) as [->|Hne].
    + rewrite (decide_True (P := f ∈ f :: fs)) by set_solver. by case_decide.
    + by apply decide_ext; set_solver.
Qed.

Lemma add_fields_app c fs1 fs2 acc :
  add_fields c (fs1 ++ fs2) acc = add_fields c fs2 (add_fields c fs1 acc).
Proof. apply fold_left_app. Qed.

Lemma add_fields_pick c fs acc :
  NoDup fs → (∀ f, f ∈ fs → f ∉ dict_keys acc) →
  add_fields c fs acc = acc ++ pick c fs.
Proof.
  revert acc. induction fs as [|f fs IH]; intros acc Hnd Hacc; simpl.
  - by rewrite app_nil_r.
  - apply NoDup_cons in Hnd as [Hf Hnd].
    change (pick c (f :: fs)) with
      (match (f,.) <$> dict_get f c with Some y => y :: pick c fs | None => pick c fs end).
    destruct (dict_get f c) as [v|]; simpl.
    + rewrite dict_set_fresh by (apply Hacc; set_solver).
      rewrite IH; [by rewrite <- app_assoc|done|].
      intros g Hg. unfold dict_keys. rewrite map_app. simpl.
      rewrite not_elem_of_app, list_elem_of_singleton. split.
      * apply Hacc. set_solver.
      * intros ->. done.
    + apply IH; [done|]. intros g Hg. apply Hacc. set_solver.
Qed.

Lemma add_fields_nil c fs : NoDup fs → add_fields c fs [] = pick c fs.
Proof. intros. rewrite add_fields_pick; [done..|]. intros f _. apply not_elem_of_nil. Qed.

Lemma pick_ext c c' fs :
  (∀ f, f ∈ fs → dict_get f c = dict_get f c') → pick c fs = pick c' fs.
Proof.
  intros H. unfold pick. induction fs as [|f fs IH]; simpl; [done|].
  rewrite H by set_solver. destruct (dict_get f c'); simpl; [f_equal|];
    apply IH; intros; apply H; set_solver.
Qed.

Lemma pick_idemp c fs : pick (pick c fs) fs = pick c fs.
Proof. apply pick_ext. intros f Hf. rewrite dict_get_pick. by rewrite decide_True. Qed.

(** The top-level content fields redaction keeps, by event type. *)
Definition kept_fields (rv : RoomVersion) (t : json) : list string :=
  if is_str t EventTypes.Member then
    "membership" :: (if restricted_join_rule_fix rv
                     then [EventContentFields.AUTHORISING_USER] else [])
  else if is_str t EventTypes.Create then
    if negb (implicit_room_creator rv) then ["creator"] else []
  else if is_str t EventTypes.JoinRules then
    "join_rule" :: (if restricted_join_rule rv then ["allow"] else [])
  else if is_str t EventTypes.PowerLevels then
    ["users"; "users_default"; "events"; "events_default"; "state_default"; "ban"; "kick";
     "redact"] ++ (if updated_redaction_rules rv then ["invite"] else [])
  else if is_str t EventTypes.Aliases && special_case_aliases_auth rv then ["aliases"]
  else if is_str t EventTypes.RoomHistoryVisibility then ["history_visibility"]
  else if is_str t EventTypes.Redaction && updated_redaction_rules rv then ["redacts"]
  else [].

Definition kept_invite (rv : RoomVersion) (t : json) (c : jdict) : jdict :=
  if is_str t EventTypes.Member && updated_redaction_rules rv then
    match dict_get "third_party_invite" c with
    | Some (JObj tpi) =>
        [("third_party_invite", JObj (opt_item "signed" (dict_get "signed" tpi)))]
    | _ => []
    end
  else [].

Lemma kept_fields_NoDup rv t : NoDup (kept_fields rv t).
Proof.
  unfold kept_fields. repeat case_match; apply (bool_decide_unpack _); vm_compute; exact I.
Qed.

Lemma third_party_invite_not_kept rv t : "third_party_invite" ∉ kept_fields rv t.
Proof.
  unfold kept_fields. repeat case_match; apply (bool_decide_unpack _); vm_compute; exact I.
Qed.

Lemma prune_content_spec rv t c :
  msc3389_relation_redactions rv = false →
  prune_content rv t c =
    if is_str t EventTypes.Create && updated_redaction_rules rv then c
    else pick c (kept_fields rv t) ++ kept_invite rv t c.
Proof.
  intros Hmsc. unfold prune_content. rewrite Hmsc.
  pose proof (kept_fields_NoDup rv t) as Hnd.
  pose proof (third_party_invite_not_kept rv t) as Htpi.
  unfold kept_fields, kept_invite in *.
  assert (∀ fs, NoDup fs → add_fields c fs [] = pick c fs ++ []) as Hadd.
  { intros. by rewrite add_fields_nil, app_nil_r. }
  destruct (is_str t EventTypes.Member) eqn:EM.
  { apply is_str_true in EM as ->.
    change (is_str (JStr EventTypes.Member) EventTypes.Create) with false.
    cbn [andb]. unfold prune_third_party_invite.
    destruct (restricted_join_rule_fix rv); rewrite <- ?add_fields_app, add_fields_nil by done;
      destruct (updated_redaction_rules rv); rewrite ?app_nil_r; try done;
      destruct (dict_get "third_party_invite" c) as [[]|]; rewrite ?app_nil_r; try done;
      apply dict_set_fresh; intros Hin%pick_keys; done. }
  destruct (is_str t EventTypes.Create) eqn:EC.
  { destruct (updated_redaction_rules rv); [done|]. cbn [andb].
    destruct (implicit_room_creator rv); cbn [negb] in *; [done|]. by apply Hadd. }
  cbn [andb]. rewrite app_nil_r.
  destruct (is_str t EventTypes.JoinRules).
  { destruct (restricted_join_rule rv); rewrite <- ?add_fields_app, add_fields_nil; done. }
  destruct (is_str t EventTypes.PowerLevels).
  { destruct (updated_redaction_rules rv); rewrite <- ?add_fields_app, add_fields_nil; done. }
  destruct (is_str t EventTypes.Aliases && special_case_aliases_auth rv);
    [by rewrite add_fields_nil|].
  destruct (is_str t EventTypes.RoomHistoryVisibility); [by rewrite add_fields_nil|].
  destruct (is_str t EventTypes.Redaction && updated_redaction_rules rv);
    [by rewrite add_fields_nil|done].
Qed.

Lemma dict_get_app {A} k (d1 d2 : list (string * A)) :
  dict_get k (d1 ++ d2) = match dict_get k d1 with Some v => Some v | None => dict_get k d2 end.
Proof. induction d1 as [|[k' v] d1 IH]; simpl; [done|]. by case_decide. Qed.

Lemma dict_get_kept_invite_ne rv t c k :
  k ≠ "third_party_invite" → dict_get k (kept_invite rv t c) = None.
Proof. intros. unfold kept_invite. repeat case_match; simpl; try done. by rewrite decide_False. Qed.

(** A field redaction keeps reads the same in the redacted content. *)
Lemma prune_content_get rv t c k :
  msc3389_relation_redactions rv = false → k ∈ kept_fields rv t →
  dict_get k (prune_content rv t c) = dict_get k c.
Proof.
  intros Hmsc Hk. rewrite prune_content_spec by done. case_match; [done|].
  rewrite dict_get_app, dict_get_pick, decide_True by done.
  destruct (dict_get k c); [done|]. apply dict_get_kept_invite_ne.
  intros ->. by apply third_party_invite_not_kept in Hk.
Qed.

Lemma kept_invite_idemp rv t c :
  kept_invite rv t (pick c (kept_fields rv t) ++ kept_invite rv t c) = kept_invite rv t c.
Proof.
  unfold kept_invite at 1. rewrite dict_get_app, dict_get_pick.
  rewrite decide_False by apply third_party_invite_not_kept. unfold kept_invite.
  destruct (is_str t EventTypes.Member && updated_redaction_rules rv); [|done].
  destruct (dict_get "third_party_invite" c) as [[]|]; simpl; try done.
  destruct (dict_get "signed" d); done.
Qed.

Lemma prune_content_idemp rv t c :
  msc3389_relation_redactions rv = false →
  prune_content rv t (prune_content rv t c) = prune_content rv t c.
Proof.
  intros Hmsc. rewrite !prune_content_spec by done.
  destruct (is_str t EventTypes.Create && updated_redaction_rules rv); [done|].
  rewrite kept_invite_idemp. f_equal. apply pick_ext. intros f Hf.
  rewrite dict_get_app, dict_get_pick, decide_True by done.
  destruct (dict_get f c); [done|]. apply dict_get_kept_invite_ne.
  intros ->. by apply third_party_invite_not_kept in Hf.
Qed.

Lemma filter_dict_set {A} (Q : string → Prop) `{∀ k, Decision (Q k)} k (v : A) d :
  Q k → filter (λ kv, Q kv.1) (dict_set k v d) = dict_set k v (filter (λ kv, Q kv.1) d).
Proof.
  intros Hk. induction d as [|[k' v'] d IH]; simpl.
  - rewrite filter_cons. by rewrite decide_True.
  - case_decide; simplify_eq; rewrite !filter_cons; simpl.
    + rewrite !decide_True by done. simpl. by rewrite decide_True.
    + case_decide; [|done]. simpl. rewrite decide_False by done. by f_equal.
Qed.

Lemma dict_set_set {A} k (v v' : A) d : dict_set k v (dict_set k v' d) = dict_set k v d.
Proof.
  induction d as [|[k' w] d IH]; simpl; [by rewrite decide_True|].
  case_decide; simpl; [by rewrite decide_True | rewrite decide_False by done; by f_equal].
Qed.

Lemma unsigned_not_allowed rv : "unsigned" ∉ redaction_allowed_keys rv.
Proof.
  unfold redaction_allowed_keys. case_match; apply (bool_decide_unpack _); vm_compute; exact I.
Qed.

Lemma allowed_common rv k :
  k ∈ ["event_id"; "sender"; "room_id"; "hashes"; "signatures"; "content"; "type"; "state_key";
       "depth"; "prev_events"; "auth_events"; "origin_server_ts"] →
  k ∈ redaction_allowed_keys rv.
Proof. intros H. apply elem_of_app. by left. Qed.
#[export] Hint Resolve allowed_common : synapse.

Lemma dict_get_allowed rv k (d : jdict) :
  dict_get k (filter (λ kv, kv.1 ∈ redaction_allowed_keys rv) d) =
  if decide (k ∈ redaction_allowed_keys rv) then dict_get k d else None.
Proof. exact (@dict_get_filter json (λ k, k ∈ redaction_allowed_keys rv) (λ k, _) k d). Qed.

Lemma filter_allowed_set rv k v (d : jdict) :
  k ∈ redaction_allowed_keys rv →
  filter (λ kv, kv.1 ∈ redaction_allowed_keys rv) (dict_set k v d) =
  dict_set k v (filter (λ kv, kv.1 ∈ redaction_allowed_keys rv) d).
Proof. exact (@filter_dict_set json (λ k, k ∈ redaction_allowed_keys rv) (λ k, _) k v d). Qed.

(** What a key of the redacted dict holds. *)
Lemma prune_event_dict_get rv d d' k :
  prune_event_dict rv d = Ok d' → k ≠ "content" → k ≠ "unsigned" →
  dict_get k d' = if decide (k ∈ redaction_allowed_keys rv) then dict_get k d else None.
Proof.
  unfold prune_event_dict. intros H Hc Hu. py_inv. do 2 (case_hyp H1; py_inv).
  rewrite !dict_get_set_ne by done. apply dict_get_allowed.
Qed.

(** The redacted dict: its content and unsigned parts. *)
Lemma prune_event_dict_inv rv d d' :
  prune_event_dict rv d = Ok d' ↔
  ∃ t c u, dict_get "type" d = Some t ∧ dict_get "content" d = Some (JObj c) ∧
    dict_get_default "unsigned" (JObj []) d = JObj u ∧
    d' = dict_set "unsigned" (JObj (add_fields u ["age_ts"; "replaces_state"] []))
           (dict_set "content" (JObj (prune_content rv t c))
              (filter (λ kv, kv.1 ∈ redaction_allowed_keys rv) d)).
Proof.
  unfold prune_event_dict, dict_item. split.
  - destruct (dict_get "type" d) as [t|]; [|done]. simpl.
    destruct (dict_get "content" d) as [c|]; [|done]. simpl.
    destruct c; try done. destruct (dict_get_default _ _ _) eqn:E; try done.
    intros [= <-]. eauto 10.
  - intros (t & c & u & -> & -> & E & ->). simpl. by rewrite E.
Qed.

Lemma prune_event_dict_idemp rv d d' :
  msc3389_relation_redactions rv = false →
  prune_event_dict rv d = Ok d' → prune_event_dict rv d' = Ok d'.
Proof.
  intros Hmsc (t & c & u & Ht & Hc & Hu & ->)%prune_event_dict_inv.
  set (F := filter _ d).
  assert (dict_get "content" F = Some (JObj c)) as HF.
  { unfold F. rewrite dict_get_allowed, decide_True by (apply allowed_common; set_solver). done. }
  set (C := dict_set "content" _ F).
  assert ("unsigned" ∉ dict_keys C) as HuC.
  { unfold C. rewrite dict_keys_set. intros [?|Hin]; [done|].
    apply dict_in_keys in Hin. unfold dict_in, F in Hin.
    rewrite dict_get_allowed, decide_False in Hin by apply unsigned_not_allowed. done. }
  apply prune_event_dict_inv. exists t, (prune_content rv t c), (add_fields u ["age_ts"; "replaces_state"] []).
  split_and!.
  - unfold C. rewrite !dict_get_set_ne by done. unfold F.
    rewrite dict_get_allowed, decide_True by (apply allowed_common; set_solver). done.
  - rewrite dict_get_set_ne by done. unfold C. apply dict_get_set_eq.
  - unfold dict_get_default. by rewrite dict_get_set_eq.
  - rewrite prune_content_idemp by done. rewrite !add_fields_nil by (apply (bool_decide_unpack _); vm_compute; exact I).
    rewrite pick_idemp. rewrite !(dict_set_fresh "unsigned") by done.
    rewrite filter_app. rewrite (filter_cons_False _ ("unsigned", _)) by apply unsigned_not_allowed.
    rewrite filter_nil, app_nil_r.
    assert (filter (λ kv, kv.1 ∈ redaction_allowed_keys rv) C = C) as HC.
    { unfold C. rewrite filter_allowed_set by (apply allowed_common; set_solver).
      f_equal. unfold F. rewrite list_filter_filter. apply list_filter_iff. naive_solver. }
    rewrite HC. unfold C. rewrite dict_set_set.
    by rewrite (dict_set_fresh "unsigned") by done.
Qed.

(** ** Events and their dicts *)

(** The split of [_dict] into attributes and [ev_extra], and of the edges into
    ids and hashes, is the one [make_event_from_dict] produces. *)
Record event_wf (e : event) : Prop := {
  wf_extra : Forall (λ kv, kv.1 ∉ typed_keys) (ev_extra e);
  wf_edges : event_format (ev_room_version e) ≠ ROOM_V1_V2 →
    Forall (λ p, p.2 = JNull) (ev_prev_events e) ∧ Forall (λ p, p.2 = JNull) (ev_auth_events e);
}.

Lemma extra_get (x : jdict) k :
  Forall (λ kv, kv.1 ∉ typed_keys) x → k ∈ typed_keys → dict_get k x = None.
Proof.
  intros Hx Hk. apply dict_get_None. intros Hin. apply list_elem_of_In, in_map_iff in Hin
    as ([k' v] & <- & Hin%list_elem_of_In). rewrite Forall_forall in Hx. by apply (Hx _ Hin).
Qed.

Ltac typed_key := apply (bool_decide_unpack _); vm_compute; exact I.

(** The value of each attribute's key in [get_dict]. *)
Lemma get_dict_get e : event_wf e →
  dict_get "type" (get_dict e) = Some (JStr (ev_type e)) ∧
  dict_get "sender" (get_dict e) = Some (JStr (ev_sender e)) ∧
  dict_get "room_id" (get_dict e) = Some (JStr (ev_room_id e)) ∧
  dict_get "state_key" (get_dict e) = JStr <$> ev_state_key e ∧
  dict_get "content" (get_dict e) = Some (JObj (ev_content e)) ∧
  dict_get "origin_server_ts" (get_dict e) = Some (JInt (ev_origin_server_ts e)) ∧
  dict_get "depth" (get_dict e) = Some (JInt (ev_depth e)) ∧
  dict_get "prev_events" (get_dict e) =
    Some (edges_to_json (event_format (ev_room_version e)) (ev_prev_events e)) ∧
  dict_get "auth_events" (get_dict e) =
    Some (edges_to_json (event_format (ev_room_version e)) (ev_auth_events e)) ∧
  dict_get "signatures" (get_dict e) = Some (JObj (ev_signatures e)) ∧
  dict_get "unsigned" (get_dict e) = Some (JObj (ev_unsigned e)) ∧
  dict_get "event_id" (get_dict e) =
    match event_format (ev_room_version e) with
    | ROOM_V1_V2 => Some (JStr (ev_id e)) | _ => None end.
Proof.
  intros [Hx _]. pose proof (extra_get (ev_extra e)) as Hg. unfold get_dict.
  destruct (event_format (ev_room_version e)), (ev_state_key e);
    split_and!; simpl; rewrite ?dict_get_app, ?Hg by (done || typed_key); done.
Qed.

Lemma edges_roundtrip v l :
  (v ≠ ROOM_V1_V2 → Forall (λ p, p.2 = JNull) l) → edges_of_json v (edges_to_json v l) = Ok l.
Proof.
  intros H. unfold edges_of_json, edges_to_json.
  induction l as [|[s h] l IH]; [by destruct v|].
  assert (v ≠ ROOM_V1_V2 → Forall (λ p : string * json, p.2 = JNull) l ∧ h = JNull) as H'.
  { intros Hv. by apply H, Forall_cons in Hv as [??]. }
  destruct v; simpl in *; rewrite IH; try done; try (by intros _; apply H').
  - by rewrite (proj2 (H' ltac:(done))).
  - by rewrite (proj2 (H' ltac:(done))).
Qed.

Lemma filter_extra_all (x : jdict) :
  Forall (λ kv, kv.1 ∉ typed_keys) x → filter (λ kv, kv.1 ∉ typed_keys) x = x.
Proof. induction 1 as [|kv x Hk Hx IH]; [done|]. rewrite filter_cons_True by exact Hk. by f_equal. Qed.

Lemma get_dict_extra e : event_wf e → filter (λ kv, kv.1 ∉ typed_keys) (get_dict e) = ev_extra e.
Proof.
  intros [Hx _]. unfold get_dict.
  rewrite !filter_app, (filter_extra_all (ev_extra e)) by done.
  destruct (event_format (ev_room_version e)), (ev_state_key e);
    simpl; rewrite ?app_nil_r; reflexivity.
Qed.

(** [make_event_from_dict] reads an event's attributes back from its dict. *)
Lemma make_event_from_dict_get e d rr :
  event_wf e →
  (∀ k, k ∈ ["event_id"; "type"; "sender"; "room_id"; "state_key"; "origin_server_ts";
             "depth"; "prev_events"; "auth_events"; "signatures"] →
        dict_get k d = dict_get k (get_dict e)) →
  ∀ c u, dict_get "content" d = Some (JObj c) → dict_get "unsigned" d = Some (JObj u) →
  make_event_from_dict (ev_id e) d (ev_room_version e) rr =
    Ok {| ev_id := ev_id e; ev_room_version := ev_room_version e; ev_type := ev_type e;
          ev_sender := ev_sender e; ev_room_id := ev_room_id e;
          ev_state_key := ev_state_key e; ev_content := c;
          ev_origin_server_ts := ev_origin_server_ts e; ev_depth := ev_depth e;
          ev_prev_events := ev_prev_events e; ev_auth_events := ev_auth_events e;
          ev_extra := filter (λ kv, kv.1 ∉ typed_keys) d;
          ev_signatures := ev_signatures e; ev_unsigned := u; ev_rejected_reason := rr;
          ev_outlier := false; ev_soft_failed := false; ev_redacted := false;
          ev_recheck_redaction := false |}.
Proof.
  intros Hwf Hd c u Hc Hu. pose proof (get_dict_get e Hwf) as Hg. destruct_and! Hg.
  pose proof (wf_edges _ Hwf) as He.
  unfold make_event_from_dict, dict_in, dict_item, dict_get_default.
  rewrite (Hd "event_id"), (Hd "type"), (Hd "sender"), (Hd "room_id"), (Hd "state_key"),
    (Hd "origin_server_ts"), (Hd "depth"), (Hd "prev_events"), (Hd "auth_events"),
    (Hd "signatures"), Hc, Hu by typed_key.
  repeat match goal with H : dict_get _ (get_dict e) = _ |- _ => rewrite H; clear H end.
  set (v := event_format (ev_room_version e)) in *.
  cbn [mbind py_bind as_str as_obj as_int].
  rewrite !(edges_roundtrip v) by (intros Hv; by apply He).
  destruct v, (ev_state_key e); reflexivity.
Qed.

Lemma filter_dict_set_out {A} (Q : string → Prop) `{∀ k, Decision (Q k)} k (v : A) d :
  ¬ Q k → filter (λ kv, Q kv.1) (dict_set k v d) = filter (λ kv, Q kv.1) d.
Proof.
  intros Hk. induction d as [|[k' v'] d IH]; simpl.
  - by rewrite filter_cons_False.
  - case_decide; simplify_eq; rewrite !filter_cons; simpl; [by rewrite !decide_False|].
    by rewrite IH.
Qed.

Lemma filter_typed_out k v (d : jdict) :
  k ∈ typed_keys →
  filter (λ kv, kv.1 ∉ typed_keys) (dict_set k v d) = filter (λ kv, kv.1 ∉ typed_keys) d.
Proof.
  intros Hk. exact (@filter_dict_set_out json (λ k, k ∉ typed_keys) (λ k, _) k v d (λ H, H Hk)).
Qed.

(** What redacting an event gives: the same event with its content, unsigned
    data and extra keys pruned, and the redacted mark set. *)
Definition redacted_event (e : event) : event :=
  let rv := ev_room_version e in
  {| ev_id := ev_id e; ev_room_version := rv; ev_type := ev_type e;
     ev_sender := ev_sender e; ev_room_id := ev_room_id e; ev_state_key := ev_state_key e;
     ev_content := prune_content rv (JStr (ev_type e)) (ev_content e);
     ev_origin_server_ts := ev_origin_server_ts e; ev_depth := ev_depth e;
     ev_prev_events := ev_prev_events e; ev_auth_events := ev_auth_events e;
     ev_extra := filter (λ kv, kv.1 ∈ redaction_allowed_keys rv) (ev_extra e);
     ev_signatures := ev_signatures e;
     ev_unsigned := pick (ev_unsigned e) ["age_ts"; "replaces_state"];
     ev_rejected_reason := None;
     ev_outlier := ev_outlier e; ev_soft_failed := ev_soft_failed e;
     ev_redacted := true; ev_recheck_redaction := ev_recheck_redaction e |}.

Lemma prune_event_eq e : event_wf e → prune_event e = Ok (redacted_event e).
Proof.
  intros Hwf. unfold prune_event.
  pose proof (get_dict_get e Hwf) as Hg. destruct_and! Hg.
  set (d' := dict_set "unsigned" (JObj (add_fields (ev_unsigned e) ["age_ts"; "replaces_state"] []))
     (dict_set "content" (JObj (prune_content (ev_room_version e) (JStr (ev_type e)) (ev_content e)))
       (filter (λ kv, kv.1 ∈ redaction_allowed_keys (ev_room_version e)) (get_dict e)))).
  assert (prune_event_dict (ev_room_version e) (get_dict e) = Ok d') as Hp.
  { apply prune_event_dict_inv. exists (JStr (ev_type e)), (ev_content e), (ev_unsigned e).
    split_and!; [done|done| |done]. unfold dict_get_default. by rewrite H9. }
  rewrite Hp. cbn [mbind py_bind].
  rewrite (make_event_from_dict_get e d' None Hwf) with
    (c := prune_content (ev_room_version e) (JStr (ev_type e)) (ev_content e))
    (u := pick (ev_unsigned e) ["age_ts"; "replaces_state"]).
  - unfold redacted_event, with_metadata_of. cbn. f_equal. f_equal. unfold d'. rewrite !filter_typed_out by typed_key.
    rewrite <- (get_dict_extra e Hwf), !list_filter_filter.
    apply list_filter_iff. naive_solver.
  - intros k Hk. assert (k ≠ "content" ∧ k ≠ "unsigned") as [??].
    { split; intros ->; revert Hk; apply (bool_decide_unpack _); vm_compute; exact I. }
    rewrite (prune_event_dict_get _ _ _ _ Hp) by done. rewrite decide_True; [done|].
    apply allowed_common. revert Hk. rewrite !elem_of_cons, elem_of_nil. tauto.
  - unfold d'. rewrite dict_get_set_ne by done. apply dict_get_set_eq.
  - unfold d'. rewrite add_fields_nil by typed_key. apply dict_get_set_eq.
Qed.
