(* ===== verification/EventAuth.v ===== *)
(** * The event authorization rules: [synapse/event_auth.py]

    One definition per function of the module.  A state map is a finite map
    from [(type, state_key)]; where the source iterates over a Python set the
    model uses a list in some fixed order.  A test such as [caller and
    caller.membership == "join"] is evaluated here as it is in Python, raising
    what the attribute access raises. *)

From S2P Require Import Prelude PyData RoomVersions Ids Events.
From Stdlib Require Import Ascii.

Open Scope Z_scope.

Abbreviation state_map A := (gmap (string * string) A).

(** [{(e.type, e.state_key): e for e in auth_events}] *)
Definition build_auth_dict (auth_events : list event) : py (state_map event) :=
  py_fold (λ m e, sk ← state_key e; Ok (<[(ev_type e, sk) := e]> m)) ∅ auth_events.

(** ** Power levels *)

Definition get_power_level_event (auth_events : state_map event) : option event :=
  auth_events !! (EventTypes.PowerLevels, "").

(** The creator named by a create event. *)
Definition room_creator (create_event : event) : py json :=
  if implicit_room_creator (ev_room_version create_event)
  then Ok (JStr (ev_sender create_event))
  else dict_item EventContentFields.ROOM_CREATOR (ev_content create_event).

Definition get_user_power_level (user_id : string) (auth_events : state_map event) : py Z :=
  match get_power_level_event auth_events with
  | Some power_level_event =>
      let content := ev_content power_level_event in
      level ← py_get (dict_get_default "users" (JObj []) content) user_id;
      let level :=
        match none_or_null level with
        | Some l => Some l
        | None => none_or_null (Some (dict_get_default "users_default" (JInt 0) content))
        end in
      match level with None => Ok 0 | Some l => py_int l end
  | None =>
      match auth_events !! (EventTypes.Create, "") with
      | Some create_event =>
          creator ← room_creator create_event;
          Ok (if is_str creator user_id then 100 else 0)
      | None => Ok 0
      end
  end.

Definition get_named_level (auth_events : state_map event) (name : string) (default : Z) : py Z :=
  match get_power_level_event auth_events with
  | None => Ok default
  | Some power_level_event =>
      match none_or_null (dict_get name (ev_content power_level_event)) with
      | Some level => py_int level
      | None => Ok default
      end
  end.

Definition get_send_level (etype : string) (sk : option string)
    (power_levels_event : option event) : py Z :=
  let power_levels_content :=
    match power_levels_event with Some e => ev_content e | None => [] end in
  send_level ← py_get (dict_get_default "events" (JObj []) power_levels_content) etype;
  match none_or_null send_level with
  | Some l => py_int l
  | None =>
      match sk with
      | Some _ => py_int (dict_get_default "state_default" (JInt 50) power_levels_content)
      | None => py_int (dict_get_default "events_default" (JInt 0) power_levels_content)
      end
  end.

(** ** Which state events an event may be authorized by *)

Definition auth_types_for_event (room_version : RoomVersion) (e : event)
    : py (list (string * string)) :=
  if decide (ev_type e = EventTypes.Create) then Ok []
  else
    let auth_types :=
      [(EventTypes.PowerLevels, ""); (EventTypes.Member, ev_sender e); (EventTypes.Create, "")] in
    if decide (ev_type e = EventTypes.Member) then
      m ← membership e;
      let auth_types :=
        auth_types ++
        (if is_str m Membership.JOIN || is_str m Membership.INVITE || is_str m Membership.KNOCK
         then [(EventTypes.JoinRules, "")] else []) in
      sk ← state_key e;
      let auth_types := auth_types ++ [(EventTypes.Member, sk)] in
      auth_types ←
        (if is_str m Membership.INVITE then
           match dict_get "third_party_invite" (ev_content e) with
           | Some tpi =>
               signed ← py_item tpi "signed";
               token ← py_item signed "token";
               (* a key that is not a string is hashed but matches no state key *)
               if hashable token then
                 Ok (auth_types ++
                     match token with JStr t => [(EventTypes.ThirdPartyInvite, t)] | _ => [] end)
               else Raise TypeError
           | None => Ok auth_types
           end
         else Ok auth_types);
      if restricted_join_rule room_version && is_str m Membership.JOIN then
        match dict_get EventContentFields.AUTHORISING_USER (ev_content e) with
        | Some u =>
            if hashable u then
              Ok (auth_types ++ match u with JStr u => [(EventTypes.Member, u)] | _ => [] end)
            else Raise TypeError
        | None => Ok auth_types
        end
      else Ok auth_types
    else Ok auth_types.

(** ** Helpers *)

Definition can_federate (auth_events : state_map event) : bool :=
  match auth_events !! (EventTypes.Create, "") with
  | None => false
  | Some creation_event =>
      match dict_get_default EventContentFields.FEDERATE (JBool true) (ev_content creation_event) with
      | JBool true => true
      | _ => false
      end
  end.

Definition UNFEDERATABLE : exn := AuthError 403 "This room has been marked as unfederatable.".

(** [e and e.membership == m] *)
Definition membership_is (e : option event) (m : string) : py bool :=
  match e with
  | None => Ok false
  | Some e => j ← membership e; Ok (is_str j m)
  end.

Definition check_joined_room (member : option event) : py unit :=
  joined ← membership_is member Membership.JOIN;
  raise_if (negb joined) (AuthError 403 "User %s not in room %s (%s)").

Definition check_event_sender_in_room (e : event) (auth_events : state_map event) : py unit :=
  check_joined_room (auth_events !! (EventTypes.Member, ev_sender e)).

(** [auth_events.get((etype, k))] for a key read from an event's content *)
Definition state_get_json (auth_events : state_map event) (etype : string) (k : json)
    : py (option event) :=
  if hashable k then
    Ok (match k with JStr s => auth_events !! (etype, s) | _ => None end)
  else Raise TypeError.

(** [get_public_keys] *)
Definition get_public_keys (invite_event : event) : py (list json) :=
  let content := ev_content invite_event in
  let public_keys :=
    match dict_get "public_key" content with
    | Some pk =>
        [JObj (("public_key", pk) :: opt_item "key_validity_url" (dict_get "key_validity_url" content))]
    | None => []
    end in
  more ← py_list (dict_get_default "public_keys" (JList []) content);
  Ok (public_keys ++ more).

Section EventAuth.
Context `{External}.

(** ** Third-party invites *)

(** The loop over the key names of one signature block. *)
Fixpoint verify_key_names (signed : jdict) (server : string) (public_key : json)
    (key_names : list string) : py bool :=
  match key_names with
  | [] => Ok false
  | key_name :: key_names =>
      if str_prefix "ed25519:" key_name then
        verify_signed_json signed server key_name public_key ;; Ok true
      else verify_key_names signed server public_key key_names
  end.

(** The loop over the servers that signed. *)
Fixpoint verify_signatures (signed : jdict) (public_key : json) (signatures : jdict) : py bool :=
  match signatures with
  | [] => Ok false
  | (server, signature_block) :: signatures =>
      match signature_block with
      | JObj block =>
          found ← verify_key_names signed server public_key (dict_keys block);
          if found : bool then Ok true else verify_signatures signed public_key signatures
      | _ => Raise AttributeError
      end
  end.

Definition is_key_or_signature_error (e : exn) : bool :=
  match e with KeyError | SignatureVerifyException => true | _ => false end.

Definition verify_public_key (signed : jdict) (public_key_object : json) : py bool :=
  public_key ← py_item public_key_object "public_key";
  py_try
    (signatures ← dict_item "signatures" signed;
     match signatures with
     | JObj sigs => verify_signatures signed public_key sigs
     | _ => Raise AttributeError
     end)
    is_key_or_signature_error (Ok false).

Definition verify_third_party_invite (e : event) (auth_events : state_map event) : py bool :=
  match dict_get "third_party_invite" (ev_content e) with
  | Some (JObj third_party_invite) =>
      match dict_get "signed" third_party_invite with
      | Some (JObj signed) =>
          match dict_get "mxid" signed, dict_get "token" signed, dict_get "signatures" signed with
          | Some mxid, Some token, Some _ =>
              invite_event ← state_get_json auth_events EventTypes.ThirdPartyInvite token;
              match invite_event with
              | None => Ok false
              | Some invite_event =>
                  (* [event.user_id] is [event.sender]: the source compares it twice *)
                  if negb (bool_decide (ev_sender invite_event = ev_sender e)) then Ok false
                  else
                    sk ← state_key e;
                    if negb (is_str mxid sk) then Ok false
                    else
                      public_keys ← get_public_keys invite_event;
                      py_any (verify_public_key signed) public_keys
              end
          | _, _, _ => Ok false
          end
      | _ => Ok false
      end
  | _ => Ok false
  end.

(** ** Membership changes *)

(** [Codes] of [synapse/api/errors.py] *)
Definition INSUFFICIENT_POWER := "ORG.MATRIX.MSC3848.INSUFFICIENT_POWER".
Definition ALREADY_JOINED := "ORG.MATRIX.MSC3848.ALREADY_JOINED".
Definition NOT_JOINED := "ORG.MATRIX.MSC3848.NOT_JOINED".

(** The room creator's first join: the only case decided before anything is
    looked up. *)
Definition is_creator_join (room_version : RoomVersion) (e : event)
    (auth_events : state_map event) (m : json) : py bool :=
  match prev_event_ids e with
  | [prev] =>
      if is_str m Membership.JOIN then
        match auth_events !! (EventTypes.Create, "") with
        | Some create =>
            if decide (prev = ev_id create) then
              creator ← (if implicit_room_creator room_version then Ok (JStr (ev_sender create))
                         else dict_item EventContentFields.ROOM_CREATOR (ev_content create));
              sk ← state_key e;
              Ok (is_str creator sk)
            else Ok false
        | None => Ok false
        end
      else Ok false
  | _ => Ok false
  end.

(** The values [_is_membership_change_allowed] reads from the room state. *)
Record membership_context : Type := {
  caller_in_room : bool;
  caller_invited : bool;
  caller_knocked : bool;
  target_in_room : bool;
  target_banned : bool;
  join_rule : json;
  user_level : Z;
  target_level : Z;
  invite_level : Z;
  ban_level : Z;
}.

Definition get_membership_context (room_version : RoomVersion) (e : event)
    (target_user_id : string) (auth_events : state_map event) : py membership_context :=
  let caller := auth_events !! (EventTypes.Member, ev_sender e) in
  in_room ← membership_is caller Membership.JOIN;
  invited ← membership_is caller Membership.INVITE;
  knocked ← (if knock_join_rule room_version then membership_is caller Membership.KNOCK
             else Ok false);
  let target := auth_events !! (EventTypes.Member, target_user_id) in
  t_in_room ← membership_is target Membership.JOIN;
  t_banned ← membership_is target Membership.BAN;
  let rule :=
    match auth_events !! (EventTypes.JoinRules, "") with
    | Some ev => dict_get_default "join_rule" (JStr JoinRules.INVITE) (ev_content ev)
    | None => JStr JoinRules.INVITE
    end in
  u_level ← get_user_power_level (ev_sender e) auth_events;
  t_level ← get_user_power_level target_user_id auth_events;
  i_level ← get_named_level auth_events "invite" 0;
  b_level ← get_named_level auth_events "ban" 50;
  Ok {| caller_in_room := in_room; caller_invited := invited; caller_knocked := knocked;
        target_in_room := t_in_room; target_banned := t_banned; join_rule := rule;
        user_level := u_level; target_level := t_level; invite_level := i_level;
        ban_level := b_level |}.

(** The branch for [Membership.JOIN] *)
Definition check_join (room_version : RoomVersion) (e : event) (target_user_id : string)
    (auth_events : state_map event) (c : membership_context) : py unit :=
  if negb (bool_decide (ev_sender e = target_user_id)) then
    Raise (AuthError 403 "Cannot force another user to join.")
  else if target_banned c then Raise (AuthError 403 "You are banned from this room")
  else if is_str (join_rule c) JoinRules.PUBLIC then Ok tt
  else if (restricted_join_rule room_version && is_str (join_rule c) JoinRules.RESTRICTED)
       || (knock_restricted_join_rule room_version
           && is_str (join_rule c) JoinRules.KNOCK_RESTRICTED) then
    if negb (caller_in_room c) && negb (caller_invited c) then
      match none_or_null (dict_get EventContentFields.AUTHORISING_USER (ev_content e)) with
      | None => Raise (AuthError 403 "Join event is missing authorising user.")
      | Some authorising_user =>
          member_event ← state_get_json auth_events EventTypes.Member authorising_user;
          check_joined_room member_event ;;
          match authorising_user with
          | JStr u =>
              authorising_user_level ← get_user_power_level u auth_events;
              raise_if (authorising_user_level <? invite_level c)
                (AuthError 403 "Join event authorised by invalid server.")
          | _ => Ok tt (* unreachable: [member_event] is [None] *)
          end
      end
    else Ok tt
  else if is_str (join_rule c) JoinRules.INVITE
       || (knock_join_rule room_version && is_str (join_rule c) JoinRules.KNOCK)
       || (knock_restricted_join_rule room_version
           && is_str (join_rule c) JoinRules.KNOCK_RESTRICTED) then
    raise_if (negb (caller_in_room c) && negb (caller_invited c))
      (AuthError 403 "You are not invited to this room.")
  else Raise (AuthError 403 "You are not allowed to join this room").

(** The branch for [Membership.LEAVE] *)
Definition check_leave (e : event) (target_user_id : string)
    (auth_events : state_map event) (c : membership_context) : py unit :=
  if target_banned c && (user_level c <? ban_level c) then
    Raise (UnstableSpecAuthError 403 "You cannot unban user %s." INSUFFICIENT_POWER)
  else if negb (bool_decide (target_user_id = ev_sender e)) then
    kick_level ← get_named_level auth_events "kick" 50;
    raise_if ((user_level c <? kick_level) || (user_level c <=? target_level c))
      (UnstableSpecAuthError 403 "You cannot kick user %s." INSUFFICIENT_POWER)
  else Ok tt.

(** The branch for [Membership.KNOCK] *)
Definition check_knock (room_version : RoomVersion) (e : event) (target_user_id : string)
    (c : membership_context) : py unit :=
  if negb (is_str (join_rule c) JoinRules.KNOCK)
     && (negb (knock_restricted_join_rule room_version)
         || negb (is_str (join_rule c) JoinRules.KNOCK_RESTRICTED)) then
    Raise (AuthError 403 "You don't have permission to knock")
  else if negb (bool_decide (target_user_id = ev_sender e)) then
    Raise (AuthError 403 "You cannot knock for other users")
  else if target_in_room c then
    Raise (UnstableSpecAuthError 403 "You cannot knock on a room you are already in"
             ALREADY_JOINED)
  else if caller_invited c then
    Raise (AuthError 403 "You are already invited to this room")
  else raise_if (target_banned c) (AuthError 403 "You are banned from this room").

(** The branches on the new membership *)
Definition check_membership_change (room_version : RoomVersion) (e : event)
    (target_user_id : string) (auth_events : state_map event) (m : json)
    (c : membership_context) : py unit :=
  if is_str m Membership.INVITE then
    if target_banned c then Raise (AuthError 403 "%s is banned from the room")
    else if target_in_room c then
      Raise (UnstableSpecAuthError 403 "%s is already in the room." ALREADY_JOINED)
    else
      raise_if (user_level c <? invite_level c)
        (UnstableSpecAuthError 403 "You don't have permission to invite users" INSUFFICIENT_POWER)
  else if is_str m Membership.JOIN then check_join room_version e target_user_id auth_events c
  else if is_str m Membership.LEAVE then check_leave e target_user_id auth_events c
  else if is_str m Membership.BAN then
    if user_level c <? ban_level c then
      Raise (UnstableSpecAuthError 403 "You don't have permission to ban" INSUFFICIENT_POWER)
    else
      raise_if (user_level c <=? target_level c)
        (UnstableSpecAuthError 403 "You don't have permission to ban this user" INSUFFICIENT_POWER)
  else if knock_join_rule room_version && is_str m Membership.KNOCK then
    check_knock room_version e target_user_id c
  else Raise (AuthError 500 "Unknown membership %s").

Definition is_membership_change_allowed (room_version : RoomVersion) (e : event)
    (auth_events : state_map event) : py unit :=
  m ← membership e;
  creator_join ← is_creator_join room_version e auth_events m;
  if creator_join : bool then Ok tt
  else
    target_user_id ← state_key e;
    creating_domain ← get_domain_from_id (ev_room_id e);
    target_domain ← get_domain_from_id target_user_id;
    raise_if (negb (bool_decide (creating_domain = target_domain))
              && negb (can_federate auth_events)) UNFEDERATABLE ;;
    c ← get_membership_context room_version e target_user_id auth_events;
    if is_str m Membership.INVITE && dict_in "third_party_invite" (ev_content e) then
      verified ← verify_third_party_invite e auth_events;
      raise_if (negb verified) (AuthError 403 "You are not invited to this room.") ;;
      raise_if (target_banned c) (AuthError 403 "%s is banned from the room")
    else if negb (is_str m Membership.JOIN) && negb (is_str m Membership.KNOCK) then
      if (caller_invited c || caller_knocked c) && is_str m Membership.LEAVE
         && bool_decide (target_user_id = ev_sender e) then Ok tt
      else
        raise_if (negb (caller_in_room c))
          (UnstableSpecAuthError 403 "%s not in room %s." NOT_JOINED) ;;
        check_membership_change room_version e target_user_id auth_events m c
    else check_membership_change room_version e target_user_id auth_events m c.

(** ** Sending events *)

(** The user id at the start of a state key, under MSC3757: the key up to the
    first underscore after its colon. *)
Definition state_key_user_id (sk : string) : option string :=
  match str_cut ":" sk with
  | None => None
  | Some (l, r) =>
      let uid := match str_cut "_" r with
                 | Some (r', _) => l +:+ ":" +:+ r'
                 | None => sk
                 end in
      if is_valid UserID_SIGIL uid then Some uid else None
  end.

Definition can_send_event (e : event) (auth_events : state_map event) : py bool :=
  let sk := get_state_key e in
  let power_levels_event := get_power_level_event auth_events in
  send_level ← get_send_level (ev_type e) sk power_levels_event;
  user_level ← get_user_power_level (ev_sender e) auth_events;
  raise_if (user_level <? send_level)
    (UnstableSpecAuthError 403
       "You don't have permission to post that to the room. user_level (%d) < send_level (%d)"
       INSUFFICIENT_POWER) ;;
  match sk with
  | Some sk =>
      if str_prefix "@" sk && negb (bool_decide (sk = ev_sender e)) then
        allowed ←
          (if msc3757_enabled (ev_room_version e) then
             match state_key_user_id sk with
             | None =>
                 Raise (SynapseError 400
                   "State key neither equals a valid user ID, nor starts with one plus an underscore")
             | Some uid =>
                 if decide (uid = ev_sender e) then Ok true
                 else owner_level ← get_user_power_level uid auth_events;
                      Ok (owner_level <? user_level)
             end
           else Ok false);
        if allowed : bool then Ok true
        else Raise (AuthError 403 "You are not allowed to set others state")
      else Ok true
  | None => Ok true
  end.

(** [check_redaction]: its result, and the event with the
    [internal_metadata.recheck_redaction] flag it may set. *)
Definition set_recheck_redaction (e : event) : event :=
  {| ev_id := ev_id e; ev_room_version := ev_room_version e; ev_type := ev_type e;
     ev_sender := ev_sender e; ev_room_id := ev_room_id e; ev_state_key := ev_state_key e;
     ev_content := ev_content e; ev_origin_server_ts := ev_origin_server_ts e;
     ev_depth := ev_depth e; ev_prev_events := ev_prev_events e;
     ev_auth_events := ev_auth_events e; ev_extra := ev_extra e;
     ev_signatures := ev_signatures e; ev_unsigned := ev_unsigned e;
     ev_rejected_reason := ev_rejected_reason e; ev_outlier := ev_outlier e;
     ev_soft_failed := ev_soft_failed e; ev_redacted := ev_redacted e;
     ev_recheck_redaction := true |}.

Definition check_redaction (room_version_obj : RoomVersion) (e : event)
    (auth_events : state_map event) : py (bool * event) :=
  user_level ← get_user_power_level (ev_sender e) auth_events;
  redact_level ← get_named_level auth_events "redact" 50;
  if redact_level <=? user_level then Ok (false, e)
  else if decide (event_format room_version_obj = ROOM_V1_V2) then
    redacter_domain ← get_domain_from_id (ev_id e);
    match redacts e with
    | Some (JStr r) =>
        redactee_domain ← get_domain_from_id r;
        if decide (redacter_domain = redactee_domain) then Ok (true, e)
        else Raise (AuthError 403 "You don't have permission to redact events")
    | _ => Ok (false, e)
    end
  else Ok (true, set_recheck_redaction e).

(** ** Power-level changes *)

Definition POWER_LEVEL_NAMES : list string :=
  ["users_default"; "events_default"; "state_default"; "ban"; "redact"; "kick"; "invite"].

(** "Validate users" *)
Definition check_user_entry (kv : string * json) : py unit :=
  match from_string UserID_SIGIL kv.1 with
  | Raise _ => Raise (SynapseError 400 "Not a valid user_id: %s")
  | Ok _ =>
      match py_int kv.2 with
      | Raise _ => Raise (SynapseError 400 "Not a valid power level: %s")
      | Ok _ => Ok tt
      end
  end.

(** "Reject events with stringy power levels" *)
Definition check_int_entry (kv : string * json) : py unit :=
  raise_if (bool_decide (kv.1 ∈ POWER_LEVEL_NAMES) && negb (type_is_int kv.2))
    (SynapseError 400 "{v!r} must be an integer.") ;;
  raise_if (bool_decide (kv.1 ∈ ["events"; "notifications"; "users"])
            && negb (match kv.2 with
                     | JObj d => forallb (λ p, type_is_int p.2) d
                     | _ => false
                     end))
    (SynapseError 400 "{v!r} must be a dict wherein all the values are integers.").

(** [set(list(old_list) + list(new_list))] *)
Definition level_keys (old_list new_list : json) : py (list json) :=
  o ← py_list old_list;
  n ← py_list new_list;
  if forallb hashable (o ++ n) then Ok (o ++ n) else Raise TypeError.

(** [int(loc[level])] if present; [loc] is the content or one of its values. *)
Definition level_at (loc k : json) : py (option Z) :=
  present ← py_in k loc;
  if present : bool then v ← py_getitem loc k; Some <$> py_int v else Ok None.

(** [old_loc] and [new_loc] *)
Definition level_loc (dir : option string) (st : jdict) : json :=
  match dir with Some d => dict_get_default d (JObj []) st | None => JObj st end.

(** The body of the loop over [levels_to_check] *)
Definition check_level (e : event) (user_level : Z) (old_state new_state : jdict)
    (lvl : json * option string) : py unit :=
  let '(level_to_check, dir) := lvl in
  old_level ← level_at (level_loc dir old_state) level_to_check;
  new_level ← level_at (level_loc dir new_state) level_to_check;
  if match new_level, old_level with Some n, Some o => n =? o | _, _ => false end then Ok tt
  else
    raise_if (bool_decide (dir = Some "users") && negb (is_str level_to_check (ev_sender e))
              && bool_decide (old_level = Some user_level))
      (AuthError 403 "You don't have permission to remove ops level equal to your own") ;;
    let too_big (l : option Z) := match l with Some l => user_level <? l | None => false end in
    raise_if (too_big old_level || too_big new_level)
      (AuthError 403 "You don't have permission to add ops level greater than your own").

Definition levels_to_check (room_version_obj : RoomVersion) (old_state new_state : jdict)
    : py (list (json * option string)) :=
  let keys_of dir :=
    ks ← level_keys (dict_get_default dir (JObj []) old_state)
                    (dict_get_default dir (JObj []) new_state);
    Ok (map (λ k, (k, Some dir)) ks) in
  users ← keys_of "users";
  events ← keys_of "events";
  notifications ← (if limit_notifications_power_levels room_version_obj
                   then keys_of "notifications" else Ok []);
  Ok (map (λ n, (JStr n, None)) POWER_LEVEL_NAMES ++ users ++ events ++ notifications).

Definition check_power_levels (room_version_obj : RoomVersion) (e : event)
    (auth_events : state_map event) : py unit :=
  user_list ← (match dict_get_default "users" (JObj []) (ev_content e) with
               | JObj d => Ok d
               | _ => Raise AttributeError
               end);
  py_for_each check_user_entry user_list ;;
  (if bool_decide (ev_type e = EventTypes.PowerLevels) && enforce_int_power_levels room_version_obj
   then py_for_each check_int_entry (ev_content e) else Ok tt) ;;
  sk ← state_key e;
  match auth_events !! (ev_type e, sk) with
  | None => Ok tt
  | Some current_state =>
      user_level ← get_user_power_level (ev_sender e) auth_events;
      levels ← levels_to_check room_version_obj (ev_content current_state) (ev_content e);
      py_for_each (check_level e user_level (ev_content current_state) (ev_content e)) levels
  end.

(** ** The entry points *)

(** [_check_create] *)
Definition check_create (e : event) : py unit :=
  raise_if (negb (bool_decide (ev_type e = EventTypes.Create))) AssertionError ;;
  raise_if (match prev_event_ids e with [] => false | _ => true end)
    (AuthError 403 "Create event has prev events") ;;
  sender_domain ← get_domain_from_id (ev_sender e);
  room_id_domain ← get_domain_from_id (ev_room_id e);
  raise_if (negb (bool_decide (room_id_domain = sender_domain)))
    (AuthError 403 "Creation event's room_id domain does not match sender's") ;;
  known ← in_known_room_versions (dict_get_default "room_version" (JStr "1") (ev_content e));
  raise_if (negb known) (AuthError 403 "room appears to have unsupported version %s") ;;
  raise_if (negb (implicit_room_creator (ev_room_version e))
            && negb (dict_in EventContentFields.ROOM_CREATOR (ev_content e)))
    (AuthError 403 "Create event lacks a 'creator' property").

(** [event.get_pdu_json()] *)
Definition get_pdu_json (e : event) : jdict :=
  dict_set "unsigned" (JObj (dict_pop "redacted_because" (ev_unsigned e))) (get_dict e).

Definition LENIENT_EVENT_BYTE_LIMITS_ROOM_VERSIONS : list RoomVersion :=
  [RoomVersions.V1; RoomVersions.V2; RoomVersions.V3; RoomVersions.V4; RoomVersions.V5;
   RoomVersions.V6; RoomVersions.V7; RoomVersions.V8; RoomVersions.V9; RoomVersions.V10;
   RoomVersions.MSC1767v10; RoomVersions.MSC3757v10].

(** The five length checks, in code points ([str_len]) and then in bytes
    ([byte_len]). *)
Definition check_field_limits (len : string → Z) (unpersistable : bool) (e : event) : py unit :=
  raise_if (255 <? len (ev_sender e)) (EventSizeError "'user_id' too large" unpersistable) ;;
  raise_if (255 <? len (ev_room_id e)) (EventSizeError "'room_id' too large" unpersistable) ;;
  raise_if (match ev_state_key e with Some sk => 255 <? len sk | None => false end)
    (EventSizeError "'state_key' too large" unpersistable) ;;
  raise_if (255 <? len (ev_type e)) (EventSizeError "'type' too large" unpersistable) ;;
  raise_if (255 <? len (ev_id e)) (EventSizeError "'event_id' too large" unpersistable).

(** [_check_size_limits] *)
Definition check_size_limits (e : event) : py unit :=
  raise_if (MAX_PDU_SIZE <? canonical_json_len (get_pdu_json e))
    (EventSizeError "event too large" true) ;;
  check_field_limits str_len true e ;;
  let strict_byte_limits :=
    negb (bool_decide (ev_room_version e ∈ LENIENT_EVENT_BYTE_LIMITS_ROOM_VERSIONS)) in
  check_field_limits byte_len strict_byte_limits e.

(** [not event.signatures.get(domain)] is false *)
Definition signed_by (e : event) (domain : string) : bool :=
  match dict_get domain (ev_signatures e) with Some j => truthy j | None => false end.

(** [get_domain_from_id(v)] of a value read from an event *)
Definition get_domain_from_json (v : json) : py string :=
  match v with
  | JStr s => get_domain_from_id s
  | _ => Raise AttributeError
  end.

Definition validate_event_for_room_version (e : event) : py unit :=
  check_size_limits e ;;
  sender_domain ← get_domain_from_id (ev_sender e);
  is_invite_via_3pid ←
    (if decide (ev_type e = EventTypes.Member) then
       m ← membership e;
       Ok (is_str m Membership.INVITE && dict_in "third_party_invite" (ev_content e))
     else Ok false);
  raise_if (negb (signed_by e sender_domain) && negb is_invite_via_3pid)
    (AuthError 403 "Event not signed by sender's server") ;;
  (if decide (event_format (ev_room_version e) = ROOM_V1_V2) then
     event_id_domain ← get_domain_from_id (ev_id e);
     raise_if (negb (signed_by e event_id_domain))
       (AuthError 403 "Event not signed by sending server")
   else Ok tt) ;;
  is_invite_via_allow_rule ←
    (if restricted_join_rule (ev_room_version e)
        && bool_decide (ev_type e = EventTypes.Member) then
       m ← membership e;
       Ok (is_str m Membership.JOIN
           && dict_in EventContentFields.AUTHORISING_USER (ev_content e))
     else Ok false);
  if is_invite_via_allow_rule : bool then
    authoriser ← dict_item EventContentFields.AUTHORISING_USER (ev_content e);
    authoriser_domain ← get_domain_from_json authoriser;
    raise_if (negb (signed_by e authoriser_domain))
      (AuthError 403 "Event not signed by authorising server")
  else Ok tt.

(** The loop over [event.auth_event_ids()]: [auth_dict] maps the keys seen to the
    ids they were seen at. *)
Fixpoint check_auth_event_ids (e : event) (expected_auth_types : list (string * string))
    (auth_events : string → option event) (ids : list string) (auth_dict : state_map string)
    : py (state_map string) :=
  match ids with
  | [] => Ok auth_dict
  | auth_event_id :: ids =>
      match auth_events auth_event_id with
      | None => Raise (RuntimeError "Event has unknown auth event")
      | Some auth_event =>
          raise_if (negb (bool_decide (ev_room_id auth_event = ev_room_id e)))
            (AuthError 403 "During auth, found event in the state which is in another room") ;;
          sk ← state_key auth_event;
          let k := (ev_type auth_event, sk) in
          raise_if (match auth_dict !! k with Some _ => true | None => false end)
            (AuthError 403 "Event has duplicate auth_events") ;;
          raise_if (negb (bool_decide (k ∈ expected_auth_types)))
            (AuthError 403 "Event has unexpected auth_event") ;;
          raise_if (match ev_rejected_reason auth_event with
                    | Some r => negb (bool_decide (r = "")) | None => false end)
            (AuthError 403 "During auth, found rejected event in the state") ;;
          check_auth_event_ids e expected_auth_types auth_events ids
            (<[k := auth_event_id]> auth_dict)
      end
  end.

(** The [ChainMap] of auth events: a [ChainMap] looks in the newest map first.
    [store_get_events] is the store's [get_events(ids, as_is,
    allow_rejected=True)]. *)
Definition find_auth_event (store_get_events : list string → gmap string event) (e : event)
    (batched_auth_events : option (gmap string event)) : string → option event :=
  let from_store := λ i, store_get_events (auth_event_ids e) !! i in
  match batched_auth_events with
  | Some batched =>
      if decide (batched = ∅) then from_store
      else
        let needed := List.filter (λ i, bool_decide (batched !! i = None)) (auth_event_ids e) in
        match needed with
        | [] => λ i, batched !! i
        | _ => λ i, match store_get_events needed !! i with
                    | Some ev => Some ev
                    | None => batched !! i
                    end
        end
  | None => from_store
  end.

Definition check_state_independent_auth_rules
    (store_get_events : list string → gmap string event) (e : event)
    (batched_auth_events : option (gmap string event)) : py unit :=
  if decide (ev_type e = EventTypes.Create) then check_create e
  else
    let auth_events := find_auth_event store_get_events e batched_auth_events in
    expected ← auth_types_for_event (ev_room_version e) e;
    auth_dict ← check_auth_event_ids e expected auth_events (auth_event_ids e) ∅;
    raise_if (match auth_dict !! (EventTypes.Create, "") with
              | Some i => bool_decide (i = "") | None => true end)
      (AuthError 403 "No create event in auth events").

(** The alias rules 4a to 4c *)
Definition check_aliases (e : event) : py unit :=
  match ev_state_key e with
  | None => Raise (AuthError 403 "Alias event must be a state event")
  | Some sk =>
      raise_if (bool_decide (sk = "")) (AuthError 403 "Alias event must have non-empty state_key") ;;
      sender_domain ← get_domain_from_id (ev_sender e);
      raise_if (negb (bool_decide (sk = sender_domain)))
        (AuthError 403 "Alias event's state_key does not match sender's domain")
  end.

(** The rules on the state, given as a map: returns the event, whose
    [recheck_redaction] flag the last rule may set. *)
Definition check_auth_dict (e : event) (auth_dict : state_map event) : py event :=
  creating_domain ← get_domain_from_id (ev_room_id e);
  originating_domain ← get_domain_from_id (ev_sender e);
  raise_if (negb (bool_decide (creating_domain = originating_domain))
            && negb (can_federate auth_dict)) UNFEDERATABLE ;;
  if bool_decide (ev_type e = EventTypes.Aliases)
     && special_case_aliases_auth (ev_room_version e) then check_aliases e ;; Ok e
  else if decide (ev_type e = EventTypes.Member) then
    is_membership_change_allowed (ev_room_version e) e auth_dict ;; Ok e
  else
    check_event_sender_in_room e auth_dict ;;
    if decide (ev_type e = EventTypes.ThirdPartyInvite) then
      user_level ← get_user_power_level (ev_sender e) auth_dict;
      invite_level ← get_named_level auth_dict "invite" 0;
      raise_if (user_level <? invite_level)
        (UnstableSpecAuthError 403 "You don't have permission to invite users"
           INSUFFICIENT_POWER) ;;
      Ok e
    else
      can_send_event e auth_dict ;;
      (if decide (ev_type e = EventTypes.PowerLevels)
       then check_power_levels (ev_room_version e) e auth_dict else Ok tt) ;;
      if decide (ev_type e = EventTypes.Redaction) then
        '(_, e') ← check_redaction (ev_room_version e) e auth_dict; Ok e'
      else Ok e.

Definition check_state_dependent_auth_rules (e : event) (auth_events : list event) : py event :=
  if decide (ev_type e = EventTypes.Create) then Ok e
  else auth_dict ← build_auth_dict auth_events; check_auth_dict e auth_dict.
End EventAuth.
