(* ===== verification/RoomExample.v ===== *)
(** * A small room

    Concrete events and state, used to instantiate the theorems about event
    authorization, redaction, visibility and state resolution: a public room
    made by Alice (level 100) in which Bob (level 50) is joined, Carol has been
    banned and Dave has been invited. *)

From S2P Require Import Prelude PyData RoomVersions Ids Events EventAuth.

Open Scope Z_scope.

(** Third-party code instantiated by the simplest functions of its type: no
    literal IPv6 addresses, every signature valid, every event small. *)
#[export] Instance simple_external : External := {|
  valid_ipv6 := λ _, false;
  verify_signed_json := λ _ _ _ _, Ok tt;
  canonical_json_len := λ d, Z.of_nat (length d);
  sha1_hexdigest := λ s, s;
|}.

Definition mk_event (rv : RoomVersion) (id typ sender : string) (sk : option string)
    (content : jdict) (depth : Z) (prev auth : list string) : event :=
  {| ev_id := id; ev_room_version := rv; ev_type := typ; ev_sender := sender;
     ev_room_id := "!r:hs"; ev_state_key := sk; ev_content := content;
     ev_origin_server_ts := 1000 + depth; ev_depth := depth;
     ev_prev_events := map (λ i, (i, JNull)) prev; ev_auth_events := map (λ i, (i, JNull)) auth;
     ev_extra := []; ev_signatures := [("hs", JObj [("ed25519:1", JStr "sig")])];
     ev_unsigned := []; ev_rejected_reason := None; ev_outlier := false;
     ev_soft_failed := false; ev_redacted := false; ev_recheck_redaction := false |}.

Definition alice := "@alice:hs".
Definition bob := "@bob:hs".
Definition carol := "@carol:hs".
Definition dave := "@dave:hs".
Definition eve := "@eve:hs".

Definition member_event (id sender target m : string) (depth : Z) : event :=
  mk_event RoomVersions.V11 id EventTypes.Member sender (Some target)
    [("membership", JStr m)] depth ["$prev"] ["$create"].

Definition create_event : event :=
  mk_event RoomVersions.V11 "$create" EventTypes.Create alice (Some "") [] 1 [] [].
Definition alice_join : event := member_event "$alice" alice alice Membership.JOIN 2.
Definition pl_content : jdict :=
  [("users", JObj [(alice, JInt 100); (bob, JInt 50)]);
   ("events", JObj [("m.room.topic", JInt 50)]);
   ("ban", JInt 50); ("kick", JInt 50); ("invite", JInt 50)].
Definition power_event : event :=
  mk_event RoomVersions.V11 "$power" EventTypes.PowerLevels alice (Some "") pl_content 3
    ["$alice"] ["$create"; "$alice"].
Definition join_rules_event : event :=
  mk_event RoomVersions.V11 "$rules" EventTypes.JoinRules alice (Some "")
    [("join_rule", JStr JoinRules.PUBLIC)] 4 ["$power"] ["$create"; "$alice"; "$power"].
Definition bob_join : event := member_event "$bob" bob bob Membership.JOIN 5.
Definition carol_ban : event := member_event "$carol" alice carol Membership.BAN 6.
Definition dave_invite : event := member_event "$dave" bob dave Membership.INVITE 7.

Definition room_events : list event :=
  [create_event; alice_join; power_event; join_rules_event; bob_join; carol_ban; dave_invite].

(** The state made by a list of events, and that of the room. *)
Definition state_of (l : list event) : state_map event :=
  match build_auth_dict l with Ok m => m | Raise _ => ∅ end.

Lemma state_of_Ok l : is_ok (build_auth_dict l) = true → build_auth_dict l = Ok (state_of l).
Proof. unfold state_of. by destruct (build_auth_dict l). Qed.

Definition room_state : state_map event := state_of room_events.

(** An ordinary message, and a change of the power levels that makes Eve a
    moderator. *)
Definition message_by (id sender : string) : event :=
  mk_event RoomVersions.V11 id "m.room.message" sender None [("body", JStr "hi")] 8
    ["$dave"] ["$create"].
Definition power_change (sender : string) (users : jdict) : event :=
  mk_event RoomVersions.V11 "$power2" EventTypes.PowerLevels sender (Some "")
    [("users", JObj users); ("events", JObj [("m.room.topic", JInt 50)]);
     ("ban", JInt 50); ("kick", JInt 50); ("invite", JInt 50)] 8 ["$dave"] ["$create"].
