(* ===== verification/EventAuthFacts.v ===== *)
(** * What the event authorization rules guarantee

    Theorems about [EventAuth]: which state an authorization decision depends
    on, the membership state machine against the rules of the Matrix
    specification, who may send and moderate, what is known of the auth events
    of an accepted event, and the size limits. *)

From S2P Require Import Prelude PyData RoomVersions Ids Events EventAuth RoomExample.

Open Scope Z_scope.

(** ** Reading the state through a set of keys *)

(** Two states that agree on the keys [ts]. *)
Definition agree_on (ts : list (string * string)) (m1 m2 : state_map event) : Prop :=
  ∀ k, k ∈ ts → m1 !! k = m2 !! k.

Definition level_keys_of_state : list (string * string) :=
  [(EventTypes.PowerLevels, ""); (EventTypes.Create, "")].

Lemma agree_on_mono ts ts' m1 m2 : ts ⊆ ts' → agree_on ts' m1 m2 → agree_on ts m1 m2.
Proof. intros Hs Ha k Hk. apply Ha, Hs, Hk. Qed.

Lemma get_user_power_level_agree u m1 m2 :
  agree_on level_keys_of_state m1 m2 → get_user_power_level u m1 = get_user_power_level u m2.
Proof.
  intros Ha. unfold get_user_power_level, get_power_level_event.
  rewrite !Ha by (unfold level_keys_of_state; set_solver). done.
Qed.

Lemma get_named_level_agree n d m1 m2 :
  agree_on level_keys_of_state m1 m2 → get_named_level m1 n d = get_named_level m2 n d.
Proof.
  intros Ha. unfold get_named_level, get_power_level_event.
  rewrite !Ha by (unfold level_keys_of_state; set_solver). done.
Qed.

Lemma can_federate_agree m1 m2 :
  agree_on level_keys_of_state m1 m2 → can_federate m1 = can_federate m2.
Proof.
  intros Ha. unfold can_federate. rewrite !Ha by (unfold level_keys_of_state; set_solver). done.
Qed.

(** The parts of [auth_types_for_event]. *)
Definition base_auth_types (e : event) : list (string * string) :=
  [(EventTypes.PowerLevels, ""); (EventTypes.Member, ev_sender e); (EventTypes.Create, "")].

Lemma auth_types_other rv e ts :
  auth_types_for_event rv e = Ok ts →
  ev_type e ≠ EventTypes.Create → ev_type e ≠ EventTypes.Member → ts = base_auth_types e.
Proof.
  unfold auth_types_for_event. intros H ??. rewrite !decide_False in H by done. by py_inv.
Qed.

Lemma auth_types_member rv e ts :
  auth_types_for_event rv e = Ok ts → ev_type e = EventTypes.Member →
  ∃ m sk, membership e = Ok m ∧ state_key e = Ok sk ∧ base_auth_types e ⊆ ts ∧
    (EventTypes.Member, sk) ∈ ts ∧
    (is_str m Membership.JOIN || is_str m Membership.INVITE || is_str m Membership.KNOCK = true →
     (EventTypes.JoinRules, "") ∈ ts) ∧
    (is_str m Membership.INVITE = true → ∀ tpi signed t,
       dict_get "third_party_invite" (ev_content e) = Some (JObj tpi) →
       dict_get "signed" tpi = Some (JObj signed) → dict_get "token" signed = Some (JStr t) →
       (EventTypes.ThirdPartyInvite, t) ∈ ts) ∧
    (restricted_join_rule rv && is_str m Membership.JOIN = true → ∀ u,
       dict_get EventContentFields.AUTHORISING_USER (ev_content e) = Some (JStr u) →
       (EventTypes.Member, u) ∈ ts).
Proof.
  unfold auth_types_for_event. intros H Ht. rewrite decide_False, decide_True in H by (by rewrite ?Ht).
  py_inv. exists x, x0. change [_; _; _] with (base_auth_types e) in *.
  set (jr := if is_str x Membership.JOIN || _ || _ then _ else _) in *.
  set (b := (base_auth_types e ++ jr) ++ _) in *.
  assert (∃ l1, x1 = b ++ l1 ∧
    (is_str x Membership.INVITE = true → ∀ tpi signed t,
       dict_get "third_party_invite" (ev_content e) = Some (JObj tpi) →
       dict_get "signed" tpi = Some (JObj signed) → dict_get "token" signed = Some (JStr t) →
       l1 = [(EventTypes.ThirdPartyInvite, t)])) as (l1 & -> & H1l).
  { clearbody b jr. clear H2. unfold py_item, dict_item in *.
    py_cases; try (exists []; rewrite app_nil_r; naive_solver); eexists; split; [reflexivity|]; intros; simplify_eq; try done; congruence. }
  assert (∃ l2, ts = (b ++ l1) ++ l2 ∧
    (restricted_join_rule rv && is_str x Membership.JOIN = true → ∀ u,
       dict_get EventContentFields.AUTHORISING_USER (ev_content e) = Some (JStr u) →
       l2 = [(EventTypes.Member, u)])) as (l2 & -> & H2l).
  { clearbody b jr. clear H1.
    py_cases; try (exists []; rewrite app_nil_r; naive_solver); eexists; split; [reflexivity|]; intros; simplify_eq; try done; congruence. }
  clear H1 H2. subst b.
  split_and!; try done.
  - intros k Hk. rewrite !elem_of_app. tauto.
  - rewrite !elem_of_app, list_elem_of_singleton. tauto.
  - intros E. subst jr. rewrite E, !elem_of_app, list_elem_of_singleton. tauto.
  - intros Hi tpi signed t ???. rewrite (H1l Hi tpi signed t) by done.
    rewrite !elem_of_app, !list_elem_of_singleton. tauto.
  - intros Hi u ?. rewrite (H2l Hi u) by done.
    rewrite !elem_of_app, !list_elem_of_singleton. tauto.
Qed.

Section AuthFacts.
Context `{External}.

(** Only joins and knocks look at the join rule. *)
Lemma check_membership_change_join_rule rv e t st m c c' :
  is_str m Membership.JOIN || is_str m Membership.KNOCK = false →
  (caller_in_room c, caller_invited c, target_in_room c, target_banned c,
   user_level c, target_level c, invite_level c, ban_level c) =
  (caller_in_room c', caller_invited c', target_in_room c', target_banned c',
   user_level c', target_level c', invite_level c', ban_level c') →
  check_membership_change rv e t st m c = check_membership_change rv e t st m c'.
Proof.
  intros [Hj Hk]%orb_false_iff E. destruct c, c'; simpl in E; simplify_eq.
  unfold check_membership_change, check_leave. by rewrite Hj, Hk, andb_false_r.
Qed.

Lemma verify_third_party_invite_agree e m1 m2 :
  (∀ tpi signed t,
     dict_get "third_party_invite" (ev_content e) = Some (JObj tpi) →
     dict_get "signed" tpi = Some (JObj signed) → dict_get "token" signed = Some (JStr t) →
     m1 !! (EventTypes.ThirdPartyInvite, t) = m2 !! (EventTypes.ThirdPartyInvite, t)) →
  verify_third_party_invite e m1 = verify_third_party_invite e m2.
Proof.
  intros Ha. unfold verify_third_party_invite.
  destruct (dict_get "third_party_invite" _) as [[| | | | | |tpi]|]; try done.
  destruct (dict_get "signed" tpi) as [[| | | | | |signed]|] eqn:Es; try done.
  specialize (Ha tpi signed).
  destruct (dict_get "mxid" signed), (dict_get "token" signed) as [tok|], (dict_get "signatures" signed); try done.
  replace (state_get_json m1 EventTypes.ThirdPartyInvite tok)
    with (state_get_json m2 EventTypes.ThirdPartyInvite tok); [done|].
  unfold state_get_json. destruct tok; try done. cbn. by rewrite (Ha s).
Qed.

Lemma check_join_agree rv e t m1 m2 c :
  agree_on level_keys_of_state m1 m2 →
  (restricted_join_rule rv || knock_restricted_join_rule rv = true → ∀ u,
     dict_get EventContentFields.AUTHORISING_USER (ev_content e) = Some (JStr u) →
     m1 !! (EventTypes.Member, u) = m2 !! (EventTypes.Member, u)) →
  check_join rv e t m1 c = check_join rv e t m2 c.
Proof.
  intros Hl Hu. unfold check_join. repeat (case_match; [done|]).
  destruct (restricted_join_rule rv && _ || _) eqn:Hr; [|done].
  destruct (negb (caller_in_room c) && _); [|done].
  assert (restricted_join_rule rv || knock_restricted_join_rule rv = true) as Hrv
    by (destruct (restricted_join_rule rv), (knock_restricted_join_rule rv); done).
  destruct (dict_get _ _) as [[| | | |u| |]|]; try done; cbn -[check_joined_room].
  rewrite (Hu Hrv u) by done.
  apply py_bind_ext. intros [] _. by rewrite (get_user_power_level_agree u m1 m2).
Qed.

Lemma check_membership_change_agree rv e t m1 m2 m c :
  agree_on level_keys_of_state m1 m2 →
  (is_str m Membership.JOIN = true →
   restricted_join_rule rv || knock_restricted_join_rule rv = true → ∀ u,
     dict_get EventContentFields.AUTHORISING_USER (ev_content e) = Some (JStr u) →
     m1 !! (EventTypes.Member, u) = m2 !! (EventTypes.Member, u)) →
  check_membership_change rv e t m1 m c = check_membership_change rv e t m2 m c.
Proof.
  intros Hl Hu. unfold check_membership_change, check_leave.
  rewrite (get_named_level_agree _ _ m1 m2 Hl).
  destruct (is_str m Membership.JOIN) eqn:Ej; [|done].
  rewrite (check_join_agree rv e t m1 m2 c Hl); auto.
Qed.

Lemma membership_change_agree rv e ts m1 m2 :
  auth_types_for_event rv e = Ok ts → ev_type e = EventTypes.Member →
  (knock_restricted_join_rule rv = true → restricted_join_rule rv = true) →
  agree_on ts m1 m2 →
  is_membership_change_allowed rv e m1 = is_membership_change_allowed rv e m2.
Proof.
  intros Hts Hty Hrv Ha.
  destruct (auth_types_member _ _ _ Hts Hty) as
    (m & sk & Hm & Hsk & Hbase & Htgt & Hjr & Htpi & Hauth).
  assert (agree_on level_keys_of_state m1 m2) as Hl.
  { eapply agree_on_mono; [|exact Ha]. intros k Hk. apply Hbase.
    revert Hk. unfold level_keys_of_state, base_auth_types. rewrite !elem_of_cons. tauto. }
  assert (m1 !! (EventTypes.Member, ev_sender e) = m2 !! (EventTypes.Member, ev_sender e)) as Hs.
  { apply Ha, Hbase. unfold base_auth_types. rewrite !elem_of_cons. tauto. }
  unfold is_membership_change_allowed. rewrite Hm. cbn [mbind py_bind].
  replace (is_creator_join rv e m1 m) with (is_creator_join rv e m2 m).
  2: { unfold is_creator_join. rewrite (Hl (EventTypes.Create, "")); [done|].
       unfold level_keys_of_state. rewrite !elem_of_cons. tauto. }
  apply py_bind_ext. intros [] _; [done|]. rewrite Hsk. cbn [mbind py_bind].
  do 2 (apply py_bind_ext; intros ? _). rewrite (can_federate_agree m1 m2 Hl).
  apply py_bind_ext; intros ? _.
  unfold get_membership_context. rewrite Hs, (Ha _ Htgt).
  rewrite !(get_user_power_level_agree _ m1 m2 Hl), !(get_named_level_agree _ _ m1 m2 Hl).
  destruct (is_str m Membership.JOIN || is_str m Membership.INVITE || is_str m Membership.KNOCK)
    eqn:Ej.
  - rewrite (Ha _ (Hjr eq_refl)). apply py_bind_ext. intros c _.
    rewrite (check_membership_change_agree rv e sk m1 m2 m c Hl).
    2: { intros Hj Hr u Hu. apply Ha, Hauth; [|done]. rewrite Hj, andb_true_r.
         destruct (restricted_join_rule rv); [done|]. by apply Hrv. }
    destruct (is_str m Membership.INVITE) eqn:Ei; cbn [andb]; [|done].
    rewrite (verify_third_party_invite_agree e m1 m2); [done|]. intros. apply Ha. eauto.
  - apply orb_false_iff in Ej as [[Ej Ei]%orb_false_iff Ek]. rewrite Ej, Ei, Ek. cbn [andb negb].
    repeat (rewrite !py_bind_assoc; apply py_bind_ext; intros ? _). cbn [mbind py_bind].
    cbn [caller_invited caller_knocked caller_in_room].
    repeat (case_match; [done|]). apply py_bind_ext; intros ? _.
    rewrite (check_membership_change_agree rv e sk m1 m2 m _ Hl) by congruence.
    apply check_membership_change_join_rule; [by rewrite Ej, Ek | done].
Qed.

Lemma can_send_event_agree e m1 m2 :
  agree_on level_keys_of_state m1 m2 → can_send_event e m1 = can_send_event e m2.
Proof.
  intros Hl. unfold can_send_event, get_power_level_event.
  rewrite (Hl (EventTypes.PowerLevels, "")) by (unfold level_keys_of_state; set_solver).
  rewrite (get_user_power_level_agree _ m1 m2 Hl).
  do 3 (apply py_bind_ext; intros ? _). repeat (case_match; try done).
  by rewrite (get_user_power_level_agree _ m1 m2 Hl).
Qed.

(** The state the authorization of an event depends on. *)
Lemma check_auth_dict_agree e ts m1 m2 :
  auth_types_for_event (ev_room_version e) e = Ok ts → ev_type e ≠ EventTypes.Create →
  (knock_restricted_join_rule (ev_room_version e) = true →
   restricted_join_rule (ev_room_version e) = true) →
  (ev_type e = EventTypes.PowerLevels → ev_state_key e = Some "") →
  agree_on ts m1 m2 → check_auth_dict e m1 = check_auth_dict e m2.
Proof.
  intros Hts Hc Hrv Hpl Ha. unfold check_auth_dict.
  destruct (decide (ev_type e = EventTypes.Member)) as [Hm|Hm].
  { destruct (auth_types_member _ _ _ Hts Hm) as (? & ? & _ & _ & Hbase & _).
    rewrite (can_federate_agree m1 m2).
    2: { eapply agree_on_mono; [|exact Ha]. intros k Hk. apply Hbase. revert Hk.
         unfold level_keys_of_state, base_auth_types. rewrite !elem_of_cons. tauto. }
    by rewrite (membership_change_agree _ e ts m1 m2). }
  pose proof (auth_types_other _ _ _ Hts Hc Hm) as ->.
  assert (agree_on level_keys_of_state m1 m2) as Hl.
  { eapply agree_on_mono; [|exact Ha]. intros k.
    unfold level_keys_of_state, base_auth_types. rewrite !elem_of_cons. tauto. }
  rewrite (can_federate_agree m1 m2 Hl).
  assert (m1 !! (EventTypes.Member, ev_sender e) = m2 !! (EventTypes.Member, ev_sender e)) as Hs.
  { apply Ha. unfold base_auth_types. rewrite !elem_of_cons. tauto. }
  assert (m1 !! (EventTypes.PowerLevels, "") = m2 !! (EventTypes.PowerLevels, "")) as Hp.
  { apply Ha. unfold base_auth_types. rewrite !elem_of_cons. tauto. }
  unfold check_event_sender_in_room, check_redaction.
  rewrite Hs, (can_send_event_agree _ m1 m2 Hl), !(get_user_power_level_agree _ m1 m2 Hl), !(get_named_level_agree _ _ m1 m2 Hl).
  do 3 (apply py_bind_ext; intros ? _). case_match; [done|].
  apply py_bind_ext; intros ? _. case_match; [done|].
  apply py_bind_ext; intros ? _. destruct (decide (ev_type e = EventTypes.PowerLevels)) as [Ht|];
    [|done].
  assert (check_power_levels (ev_room_version e) e m1 = check_power_levels (ev_room_version e) e m2)
    as ->; [|done].
  unfold check_power_levels, state_key. rewrite (Hpl Ht), Ht. cbn [mbind py_bind].
  by rewrite Hp, (get_user_power_level_agree _ m1 m2 Hl).
Qed.
(** ** Membership changes against the specification's rules *)

(** The join rules under which an invited (or already joined) user may join. *)
Definition invite_rules (rv : RoomVersion) : list string :=
  [JoinRules.INVITE]
  ++ (if knock_join_rule rv then [JoinRules.KNOCK] else [])
  ++ (if restricted_join_rule rv then [JoinRules.RESTRICTED] else [])
  ++ (if knock_restricted_join_rule rv then [JoinRules.KNOCK_RESTRICTED] else []).

(** The join rules under which a member may vouch for a join. *)
Definition restricted_rules (rv : RoomVersion) : list string :=
  (if restricted_join_rule rv then [JoinRules.RESTRICTED] else [])
  ++ (if knock_restricted_join_rule rv then [JoinRules.KNOCK_RESTRICTED] else []).

(** The join rules under which a user may knock. *)
Definition knock_rules (rv : RoomVersion) : list string :=
  [JoinRules.KNOCK] ++ (if knock_restricted_join_rule rv then [JoinRules.KNOCK_RESTRICTED] else []).

(** The authorization rules for [m.room.member] of the Matrix specification,
    one constructor per way a change of the target's membership is allowed. *)
Inductive membership_rule (rv : RoomVersion) (e : event) (st : state_map event)
    (target : string) (c : membership_context) : string → Prop :=
  | rule_invite_3pid :
      dict_in "third_party_invite" (ev_content e) = true →
      verify_third_party_invite e st = Ok true → target_banned c = false →
      membership_rule rv e st target c Membership.INVITE
  | rule_invite :
      dict_in "third_party_invite" (ev_content e) = false →
      caller_in_room c = true → target_banned c = false → target_in_room c = false →
      invite_level c ≤ user_level c →
      membership_rule rv e st target c Membership.INVITE
  | rule_join_public :
      ev_sender e = target → target_banned c = false → join_rule c = JStr JoinRules.PUBLIC →
      membership_rule rv e st target c Membership.JOIN
  | rule_join_invited r :
      ev_sender e = target → target_banned c = false →
      caller_in_room c = true ∨ caller_invited c = true →
      join_rule c = JStr r → r ∈ invite_rules rv →
      membership_rule rv e st target c Membership.JOIN
  | rule_join_authorised r u member level :
      ev_sender e = target → target_banned c = false →
      join_rule c = JStr r → r ∈ restricted_rules rv →
      dict_get EventContentFields.AUTHORISING_USER (ev_content e) = Some (JStr u) →
      st !! (EventTypes.Member, u) = Some member →
      membership member = Ok (JStr Membership.JOIN) →
      get_user_power_level u st = Ok level → invite_level c ≤ level →
      membership_rule rv e st target c Membership.JOIN
  | rule_leave_unjoined :
      ev_sender e = target → caller_invited c = true ∨ caller_knocked c = true →
      membership_rule rv e st target c Membership.LEAVE
  | rule_leave :
      ev_sender e = target → caller_in_room c = true →
      (target_banned c = true → ban_level c ≤ user_level c) →
      membership_rule rv e st target c Membership.LEAVE
  | rule_kick kick_level :
      ev_sender e ≠ target → caller_in_room c = true →
      (target_banned c = true → ban_level c ≤ user_level c) →
      get_named_level st "kick" 50 = Ok kick_level → kick_level ≤ user_level c →
      target_level c < user_level c →
      membership_rule rv e st target c Membership.LEAVE
  | rule_ban :
      caller_in_room c = true → ban_level c ≤ user_level c → target_level c < user_level c →
      membership_rule rv e st target c Membership.BAN
  | rule_knock r :
      knock_join_rule rv = true → join_rule c = JStr r → r ∈ knock_rules rv →
      ev_sender e = target → target_in_room c = false → caller_invited c = false →
      target_banned c = false →
      membership_rule rv e st target c Membership.KNOCK.

Lemma check_joined_room_Ok st k :
  (m ← state_get_json st EventTypes.Member k; check_joined_room m) = Ok tt ↔
  ∃ u member, k = JStr u ∧ st !! (EventTypes.Member, u) = Some member ∧
    membership member = Ok (JStr Membership.JOIN).
Proof.
  unfold state_get_json, check_joined_room, membership_is. split.
  - intros H'. destruct k as [| | | |s| |]; cbn in H'; try discriminate H'.
    destruct (st !! _) as [mem|] eqn:E; py_cases; [|done].
    to_prop. is_str_prop. subst. eauto 10.
  - intros (u & member & -> & E & Hm). cbn. rewrite E, Hm. done.
Qed.

Lemma is_str_eq s t : is_str (JStr s) t = bool_decide (s = t).
Proof. done. Qed.

Lemma restricted_rules_spec rv j :
  (restricted_join_rule rv && is_str j JoinRules.RESTRICTED)
  || (knock_restricted_join_rule rv && is_str j JoinRules.KNOCK_RESTRICTED) = true ↔
  ∃ r, j = JStr r ∧ r ∈ restricted_rules rv.
Proof.
  unfold restricted_rules.
  rewrite orb_true_iff, !andb_true_iff, !is_str_true. split.
  - intros [[-> ->]|[-> ->]]; eexists; split; try done; set_solver.
  - intros (r & -> & Hr). repeat case_match; set_solver.
Qed.

Lemma invite_rules_spec rv j :
  (is_str j JoinRules.INVITE || (knock_join_rule rv && is_str j JoinRules.KNOCK))
  || ((restricted_join_rule rv && is_str j JoinRules.RESTRICTED)
      || (knock_restricted_join_rule rv && is_str j JoinRules.KNOCK_RESTRICTED)) = true ↔
  ∃ r, j = JStr r ∧ r ∈ invite_rules rv.
Proof.
  unfold invite_rules.
  rewrite !orb_true_iff, !andb_true_iff, !is_str_true. split.
  - intros [[->|[-> ->]]|[[-> ->]|[-> ->]]]; eexists; split; try done; set_solver.
  - intros (r & -> & Hr). repeat case_match; set_solver.
Qed.

(** [membership_rule], one case per new membership. *)
Lemma check_join_rule rv e st target c :
  check_join rv e target st c = Ok tt ↔ membership_rule rv e st target c Membership.JOIN.
Proof.
  pose proof (restricted_rules_spec rv (join_rule c)) as HR.
  pose proof (invite_rules_spec rv (join_rule c)) as HI.
  unfold check_join. split.
  - intros Hc. do 2 (case_match; [discriminate Hc|]). to_prop.
    case_match eqn:Hpub; [is_str_prop; by apply rule_join_public|].
    destruct (restricted_join_rule rv && _ || _) eqn:ER.
    + destruct (proj1 HR eq_refl) as (r & Hr & Hin).
      destruct (negb (caller_in_room c) && _) eqn:Eio.
      * destruct (none_or_null _) as [k|] eqn:Ek; [|done].
        rewrite <- py_bind_assoc in Hc. apply py_bind_Ok in Hc as ([] & Hj & Hc).
        apply check_joined_room_Ok in Hj as (u & member & -> & Hm & Hjoin). py_inv. to_prop.
        destruct (dict_get EventContentFields.AUTHORISING_USER _) as [[]|] eqn:Ed; simplify_eq/=.
        eapply rule_join_authorised; eauto.
      * apply andb_false_iff in Eio. rewrite !negb_false_iff in Eio.
        destruct (proj1 HI ltac:(by rewrite orb_true_r)) as (r' & Hr' & Hin').
        eapply rule_join_invited; eauto.
    + case_match eqn:E; [|discriminate Hc]. py_inv.
      apply andb_false_iff in Hc. rewrite !negb_false_iff in Hc.
      destruct (proj1 HI) as (r' & Hr' & Hin'); [|by eapply rule_join_invited; eauto].
      rewrite orb_false_r. apply orb_false_iff in ER as [_ ER]. by rewrite ER, orb_false_r in E.
  - set (j := Membership.JOIN). intros Hr.
    assert (j = Membership.JOIN) as Hj by done. clearbody j.
    destruct Hr as [| |Hs Hb Hpub|r Hs Hb Hio Hr Hin|r u mem lv Hs Hb Hr Hin Hu Hm Hmem Hlv Hle
      | | | | |]; try discriminate Hj; rewrite bool_decide_true, Hb by done; cbn [negb].
    + by rewrite Hpub.
    + destruct (is_str _ JoinRules.PUBLIC); [done|].
      pose proof (proj2 HI (ex_intro _ r (conj Hr Hin))) as HI'.
      replace (negb (caller_in_room c) && _) with false
        by (destruct Hio as [-> | ->]; [done | by rewrite andb_false_r]).
      destruct (restricted_join_rule rv && _ || _) eqn:ER; [done|].
      apply orb_false_iff in ER as [_ ER]. rewrite orb_false_r in HI'.
      by rewrite ER, orb_false_r, HI'.
    + case_match; [done|]. rewrite (proj2 HR (ex_intro _ r (conj Hr Hin))).
      case_match; [|done]. rewrite Hu.
      cbn [none_or_null state_get_json hashable mbind py_bind]. rewrite Hm.
      unfold check_joined_room, membership_is. rewrite Hmem. cbn [mbind py_bind].
      rewrite is_str_eq, bool_decide_true, Hlv by done. cbn [mbind py_bind negb raise_if]. rewrite (proj2 (Z.ltb_ge _ _)) by done. done.
Qed.

Lemma knock_rules_spec rv j :
  negb (is_str j JoinRules.KNOCK)
  && (negb (knock_restricted_join_rule rv) || negb (is_str j JoinRules.KNOCK_RESTRICTED)) = false ↔
  ∃ r, j = JStr r ∧ r ∈ knock_rules rv.
Proof.
  unfold knock_rules.
  rewrite andb_false_iff, orb_false_iff, !negb_false_iff, !is_str_true. split.
  - intros [->|[-> ->]]; eexists; split; try done; set_solver.
  - intros (r & -> & Hr). repeat case_match; set_solver.
Qed.

End AuthFacts.

(** Case analysis on a [membership_rule] at a known membership. *)
Tactic Notation "inv_rule" hyp(H) "as" simple_intropattern(p) :=
  match type of H with
  | membership_rule _ _ _ _ _ ?m =>
      let Hj := fresh in
      remember m as j eqn:Hj in H; destruct H as p; try discriminate Hj; clear Hj
  end.

Section MembershipRules.
Context `{External}.

Lemma check_leave_rule rv e st target c :
  (if (caller_invited c || caller_knocked c) && bool_decide (target = ev_sender e) then Ok tt
   else raise_if (negb (caller_in_room c))
          (UnstableSpecAuthError 403 "%s not in room %s." NOT_JOINED) ;;
        check_leave e target st c) = Ok tt ↔
  membership_rule rv e st target c Membership.LEAVE.
Proof.
  unfold check_leave. split.
  - intros Hc. destruct (_ && bool_decide _) eqn:E1.
    { to_prop. apply orb_true_iff in H0. by apply rule_leave_unjoined. }
    py_inv. to_prop. case_match eqn:E2; [done|].
    assert (target_banned c = true → ban_level c ≤ user_level c) as Hb.
    { intros Hb. rewrite Hb in E2. cbn in E2. by to_prop. }
    case_match eqn:E3; to_prop; [py_inv; to_prop; by eapply rule_kick; eauto|by apply rule_leave].
  - intros Hr. inv_rule Hr as [| | | | |Hs Hik|Hs Hin Hb|kl Hs Hin Hb Hk Hle Hlt| |].
    + rewrite (bool_decide_true (target = _)) by done.
      destruct Hik as [-> | ->]; by rewrite ?orb_true_r.
    + case_match; [done|]. rewrite Hin. cbn [negb raise_if mbind py_bind].
      rewrite (bool_decide_true (target = _)) by done. cbn [negb].
      destruct (target_banned c); cbn [andb]; [|done].
      by rewrite (proj2 (Z.ltb_ge _ _)) by auto.
    + rewrite (bool_decide_false (target = _)), andb_false_r by congruence.
      rewrite Hin, Hk. cbn [negb raise_if mbind py_bind].
      rewrite (proj2 (Z.ltb_ge _ kl)), (proj2 (Z.leb_gt _ _)) by done.
      destruct (target_banned c); cbn [andb]; [|done].
      by rewrite (proj2 (Z.ltb_ge _ _)) by auto.
Qed.

Lemma check_invite_rule rv e st target c :
  (if dict_in "third_party_invite" (ev_content e) then
     verified ← verify_third_party_invite e st;
     raise_if (negb verified) (AuthError 403 "You are not invited to this room.") ;;
     raise_if (target_banned c) (AuthError 403 "%s is banned from the room")
   else
     raise_if (negb (caller_in_room c))
       (UnstableSpecAuthError 403 "%s not in room %s." NOT_JOINED) ;;
     if target_banned c then Raise (AuthError 403 "%s is banned from the room")
     else if target_in_room c then
       Raise (UnstableSpecAuthError 403 "%s is already in the room." ALREADY_JOINED)
     else raise_if (user_level c <? invite_level c)
       (UnstableSpecAuthError 403 "You don't have permission to invite users" INSUFFICIENT_POWER))
  = Ok tt ↔ membership_rule rv e st target c Membership.INVITE.
Proof.
  split.
  - intros Hc. case_match eqn:Et; py_cases; to_prop; subst;
      [by apply rule_invite_3pid | by apply rule_invite].
  - intros Hr. inv_rule Hr as [Ht Hv Hb|Ht Hin Hb Hr Hle| | | | | | | |]; rewrite Ht.
    + rewrite Hv. cbn. by rewrite Hb.
    + rewrite Hin, Hb, Hr. cbn [negb raise_if mbind py_bind].
      by rewrite (proj2 (Z.ltb_ge _ _)) by done.
Qed.

Lemma check_ban_rule rv e st target c :
  (raise_if (negb (caller_in_room c))
     (UnstableSpecAuthError 403 "%s not in room %s." NOT_JOINED) ;;
   if user_level c <? ban_level c then
     Raise (UnstableSpecAuthError 403 "You don't have permission to ban" INSUFFICIENT_POWER)
   else raise_if (user_level c <=? target_level c)
     (UnstableSpecAuthError 403 "You don't have permission to ban this user" INSUFFICIENT_POWER))
  = Ok tt ↔ membership_rule rv e st target c Membership.BAN.
Proof.
  split.
  - intros Hc. py_cases. to_prop. by apply rule_ban.
  - intros Hr. inv_rule Hr as [| | | | | | | |Hin Hle Hlt|].
    rewrite Hin. cbn [negb raise_if mbind py_bind].
    by rewrite (proj2 (Z.ltb_ge _ _)), (proj2 (Z.leb_gt _ _)) by done.
Qed.

Lemma check_knock_rule rv e st target c :
  (if knock_join_rule rv then check_knock rv e target c
   else Raise (AuthError 500 "Unknown membership %s")) = Ok tt ↔
  membership_rule rv e st target c Membership.KNOCK.
Proof.
  pose proof (knock_rules_spec rv (join_rule c)) as HK. unfold check_knock. split.
  - intros Hc. case_match eqn:Ek; [|done].
    case_match eqn:E1; [done|]. destruct (proj1 HK eq_refl) as (r & Hr & Hin).
    py_cases. to_prop. eapply rule_knock; eauto.
  - intros Hr. inv_rule Hr as [| | | | | | | | |r Hk Hr Hin Hs Ht Hi Hb].
    rewrite Hk, (proj2 HK) by eauto. by rewrite bool_decide_true, Ht, Hi, Hb by done.
Qed.

(** The whole function, once the creator's first join and the federation check
    are past. *)
Lemma membership_change_rule rv e st target c cd td :
  membership e ≫= is_creator_join rv e st = Ok false →
  state_key e = Ok target →
  get_domain_from_id (ev_room_id e) = Ok cd → get_domain_from_id target = Ok td →
  cd = td ∨ can_federate st = true →
  get_membership_context rv e target st = Ok c →
  is_membership_change_allowed rv e st = Ok tt ↔
  ∃ m, membership e = Ok (JStr m) ∧ membership_rule rv e st target c m.
Proof.
  intros Hcj Hsk Hcd Htd Hfed Hc. unfold is_membership_change_allowed.
  apply py_bind_Ok in Hcj as (m & Hm & Hcj). rewrite Hm. cbn [mbind py_bind].
  rewrite Hcj, Hsk, Hcd. cbn [mbind py_bind]. rewrite Htd. cbn [mbind py_bind].
  assert (negb (bool_decide (cd = td)) && negb (can_federate st) = false) as ->.
  { destruct Hfed as [->|Hf]; [by rewrite bool_decide_true | by rewrite Hf, andb_false_r]. }
  cbn [raise_if mbind py_bind]. rewrite Hc. cbn [mbind py_bind].
  unfold check_membership_change.
  destruct (is_str m Membership.JOIN) eqn:Ej.
  { is_str_prop. subst m. eval_is_str. rewrite check_join_rule. naive_solver. }
  destruct (is_str m Membership.LEAVE) eqn:El.
  { is_str_prop. subst m. eval_is_str. rewrite andb_true_r.
    rewrite (check_leave_rule rv). naive_solver. }
  destruct (is_str m Membership.INVITE) eqn:Ei.
  { is_str_prop. subst m. eval_is_str. rewrite andb_false_r. cbn [andb].
    rewrite (check_invite_rule rv _ _ target). naive_solver. }
  destruct (is_str m Membership.BAN) eqn:Eb.
  { is_str_prop. subst m. eval_is_str. rewrite andb_false_r. cbn [andb].
    rewrite (check_ban_rule rv e st target). naive_solver. }
  destruct (is_str m Membership.KNOCK) eqn:Ek.
  { is_str_prop. subst m. eval_is_str. rewrite andb_true_r.
    rewrite (check_knock_rule rv e st target). naive_solver. }
  rewrite !andb_false_r. cbn [andb negb].
  split; [intros; py_inv; done|]. intros (m' & [= ->] & Hr). destruct Hr; done.
Qed.
(** What the membership context holds. *)
Lemma membership_is_true o m :
  membership_is o m = Ok true ↔ ∃ ev, o = Some ev ∧ membership ev = Ok (JStr m).
Proof.
  unfold membership_is. split.
  - destruct o as [ev|]; [|done]. intros Hm. py_inv.
    match goal with E : is_str _ _ = true |- _ => apply is_str_true in E as -> end. eauto.
  - intros (ev & -> & ->). cbn. by rewrite bool_decide_true.
Qed.

Lemma membership_context_spec rv e target st c :
  get_membership_context rv e target st = Ok c →
  membership_is (st !! (EventTypes.Member, ev_sender e)) Membership.JOIN = Ok (caller_in_room c) ∧
  membership_is (st !! (EventTypes.Member, ev_sender e)) Membership.INVITE = Ok (caller_invited c) ∧
  (caller_knocked c = true →
   membership_is (st !! (EventTypes.Member, ev_sender e)) Membership.KNOCK = Ok true) ∧
  membership_is (st !! (EventTypes.Member, target)) Membership.BAN = Ok (target_banned c) ∧
  get_user_power_level (ev_sender e) st = Ok (user_level c) ∧
  get_user_power_level target st = Ok (target_level c) ∧
  get_named_level st "ban" 50 = Ok (ban_level c).
Proof.
  unfold get_membership_context. intros Hc. py_inv. cbn. split_and!; try done.
  intros ->. by case_match.
Qed.

(** The pieces of an accepted membership event. *)
Lemma membership_change_inv rv e st target :
  is_membership_change_allowed rv e st = Ok tt →
  membership e ≫= is_creator_join rv e st = Ok false → state_key e = Ok target →
  ∃ c m, get_membership_context rv e target st = Ok c ∧ membership e = Ok (JStr m) ∧
    membership_rule rv e st target c m.
Proof.
  intros Ha Hcj Hsk. pose proof Ha as Ha'. unfold is_membership_change_allowed in Ha.
  apply py_bind_Ok in Ha as (m & Hm & Ha). rewrite Hm in Hcj. cbn [mbind py_bind] in Hcj.
  rewrite Hcj, Hsk in Ha. cbn [mbind py_bind] in Ha.
  apply py_bind_Ok in Ha as (cd & Hcd & Ha). apply py_bind_Ok in Ha as (td & Htd & Ha).
  apply py_bind_Ok in Ha as ([] & Hf & Ha). apply py_bind_Ok in Ha as (c & Hc & _).
  apply raise_if_Ok, andb_false_iff in Hf. rewrite !negb_false_iff, bool_decide_eq_true in Hf.
  apply (membership_change_rule rv e st target c cd td) in Ha' as (m' & Hm' & Hr); try done.
  - eauto.
  - by rewrite Hm.
Qed.

Lemma check_auth_dict_member e e' st :
  check_auth_dict e st = Ok e' → ev_type e = EventTypes.Member →
  is_membership_change_allowed (ev_room_version e) e st = Ok tt ∧ e' = e.
Proof.
  unfold check_auth_dict. intros Hc Ht.
  do 3 (apply py_bind_Ok in Hc as (? & _ & Hc)).
  rewrite bool_decide_false in Hc by (by rewrite Ht). rewrite decide_True in Hc by done.
  cbn [andb] in Hc. by apply py_bind_Ok in Hc as ([] & Hm & [= <-]).
Qed.

Lemma check_auth_dict_other e e' st :
  check_auth_dict e st = Ok e' → ev_type e ≠ EventTypes.Member →
  (ev_type e = EventTypes.Aliases → special_case_aliases_auth (ev_room_version e) = false) →
  check_event_sender_in_room e st = Ok tt ∧
  (ev_type e ≠ EventTypes.ThirdPartyInvite → can_send_event e st ≠ Ok false ∧
     is_ok (can_send_event e st) = true).
Proof.
  unfold check_auth_dict. intros Hc Ht Ha.
  do 3 (apply py_bind_Ok in Hc as (? & _ & Hc)).
  replace (bool_decide _ && _) with false in Hc.
  2: { symmetry. apply andb_false_iff. rewrite bool_decide_eq_false.
       destruct (decide (ev_type e = EventTypes.Aliases)); auto. }
  rewrite decide_False in Hc by done. apply py_bind_Ok in Hc as ([] & Hs & Hc).
  split; [done|]. intros Hn. rewrite decide_False in Hc by done.
  apply py_bind_Ok in Hc as (b & Hb & _). rewrite Hb. split; [|done].
  unfold can_send_event in Hb. intros [= ->]. by py_cases.
Qed.
End MembershipRules.

(** ** The guarantees *)

Section Guarantees.
Context `{External}.

(** C3: The authorization of an event depends only on the state events that
    [auth_types_for_event] selects for it: two states that agree on those keys
    give the same decision, the same error included.  The side conditions hold
    for every known room version and for every power-levels event with the
    usual empty state key. *)
Theorem auth_types_suffice e ts l1 l2 m1 m2 :
  auth_types_for_event (ev_room_version e) e = Ok ts →
  (knock_restricted_join_rule (ev_room_version e) = true →
   restricted_join_rule (ev_room_version e) = true) →
  (ev_type e = EventTypes.PowerLevels → ev_state_key e = Some "") →
  build_auth_dict l1 = Ok m1 → build_auth_dict l2 = Ok m2 → agree_on ts m1 m2 →
  check_state_dependent_auth_rules e l1 = check_state_dependent_auth_rules e l2.
Proof.
  intros Hts Hrv Hpl H1 H2 Ha. unfold check_state_dependent_auth_rules.
  case_decide as Hc; [done|]. rewrite H1, H2. by apply (check_auth_dict_agree e ts m1 m2).
Qed.

(** C1: Membership changes follow the authorization rules of the Matrix
    specification: past the creator's first join and the federation check,
    [_is_membership_change_allowed] accepts a change exactly when one of the
    rules of [membership_rule] allows it. *)
Theorem membership_change_refines_rules rv e st target c cd td :
  membership e ≫= is_creator_join rv e st = Ok false →
  state_key e = Ok target →
  get_domain_from_id (ev_room_id e) = Ok cd → get_domain_from_id target = Ok td →
  cd = td ∨ can_federate st = true →
  get_membership_context rv e target st = Ok c →
  is_membership_change_allowed rv e st = Ok tt ↔
  ∃ m, membership e = Ok (JStr m) ∧ membership_rule rv e st target c m.
Proof. apply membership_change_rule. Qed.

(** C34: A ban holds until it is lifted by power: a membership event accepted for
    a banned user, but for the join of the creator right after the create event, sets
    [leave] or [ban], and is sent by somebody else, who is
    joined, has the level to ban and a level above the banned user's. *)
Theorem banned_user_needs_unban e e' st target ban_event :
  check_auth_dict e st = Ok e' → ev_type e = EventTypes.Member →
  membership e ≫= is_creator_join (ev_room_version e) e st = Ok false →
  state_key e = Ok target →
  st !! (EventTypes.Member, target) = Some ban_event →
  membership ban_event = Ok (JStr Membership.BAN) →
  ∃ m sender_event ul tl bl,
    membership e = Ok (JStr m) ∧ (m = Membership.LEAVE ∨ m = Membership.BAN) ∧
    ev_sender e ≠ target ∧
    st !! (EventTypes.Member, ev_sender e) = Some sender_event ∧
    membership sender_event = Ok (JStr Membership.JOIN) ∧
    get_user_power_level (ev_sender e) st = Ok ul ∧ get_user_power_level target st = Ok tl ∧
    get_named_level st "ban" 50 = Ok bl ∧ bl ≤ ul ∧ tl < ul.
Proof.
  intros Ha Ht Hcj Hsk Hban Hbm. apply check_auth_dict_member in Ha as [Ha _]; [|done].
  destruct (membership_change_inv _ _ _ _ Ha Hcj Hsk) as (c & m & Hc & Hm & Hr).
  apply membership_context_spec in Hc as (Hin & Hi & Hk & Hb & Hul & Htl & Hbl).
  assert (target_banned c = true) as Hbt.
  { rewrite (proj2 (membership_is_true _ _)) in Hb by eauto. by injection Hb. }
  assert (∀ k, k ≠ Membership.BAN →
    membership_is (st !! (EventTypes.Member, ev_sender e)) k = Ok true → ev_sender e ≠ target)
    as Hne by (intros k Hk' (ev & ? & ?)%membership_is_true <-; congruence).
  assert (caller_in_room c = true → membership_is (st !! (EventTypes.Member, ev_sender e))
    Membership.JOIN = Ok true) as Hj by (intros E; by rewrite E in Hin).
  destruct Hr; try congruence.
  - destruct H1 as [E|E]; [rewrite E in Hi|apply Hk in E]; exfalso; eapply Hne; eauto; done.
  - exfalso. by eapply Hne; [|apply Hj|].
  - destruct (proj1 (membership_is_true _ _) (Hj ltac:(done))) as (ev & ? & ?).
    exists Membership.LEAVE, ev, (user_level c), (target_level c), (ban_level c). split_and!; auto.
  - destruct (proj1 (membership_is_true _ _) (Hj ltac:(done))) as (ev & ? & ?).
    exists Membership.BAN, ev, (user_level c), (target_level c), (ban_level c). split_and!; auto.
    by eapply Hne; [|apply Hj].
Qed.

(** Moderation is strictly downwards: whoever is kicked or banned by an
    accepted event had a lower power level than the sender, who was joined. *)
Theorem moderation_is_downwards e e' st target m :
  check_auth_dict e st = Ok e' → ev_type e = EventTypes.Member →
  membership e ≫= is_creator_join (ev_room_version e) e st = Ok false →
  state_key e = Ok target → membership e = Ok (JStr m) →
  m = Membership.BAN ∨ (m = Membership.LEAVE ∧ ev_sender e ≠ target) →
  ∃ sender_event ul tl,
    st !! (EventTypes.Member, ev_sender e) = Some sender_event ∧
    membership sender_event = Ok (JStr Membership.JOIN) ∧
    get_user_power_level (ev_sender e) st = Ok ul ∧ get_user_power_level target st = Ok tl ∧
    tl < ul.
Proof.
  intros Ha Ht Hcj Hsk Hm Hmod. apply check_auth_dict_member in Ha as [Ha _]; [|done].
  destruct (membership_change_inv _ _ _ _ Ha Hcj Hsk) as (c & m' & Hc & Hm' & Hr).
  rewrite Hm in Hm'. injection Hm' as <-.
  apply membership_context_spec in Hc as (Hin & _ & _ & _ & Hul & Htl & _).
  assert (caller_in_room c = true ∧ target_level c < user_level c) as [E Hlt].
  { destruct Hmod as [->|[-> Hne]].
    - by inv_rule Hr as [| | | | | | | |Hj Hle Hlt|].
    - by inv_rule Hr as [| | | | |Hs Hj|Hs Hj Hb|kl Hs Hj Hb Hk Hle Hlt| |]. }
  rewrite E in Hin. apply membership_is_true in Hin as (ev & ? & ?). eauto 10.
Qed.

(** Every other event needs a joined sender with the level the room asks
    for: for an accepted event that is not a membership event (nor, in the old
    room versions that treat them apart, an alias event) the sender's membership
    is [join], and unless it is a third-party invite the sender's power level
    reaches the level required for its type. *)
Theorem accepted_event_sender e e' st :
  check_auth_dict e st = Ok e' → ev_type e ≠ EventTypes.Member →
  (ev_type e = EventTypes.Aliases → special_case_aliases_auth (ev_room_version e) = false) →
  (∃ mem, st !! (EventTypes.Member, ev_sender e) = Some mem ∧
     membership mem = Ok (JStr Membership.JOIN)) ∧
  (ev_type e ≠ EventTypes.ThirdPartyInvite → ∃ sl ul,
     get_send_level (ev_type e) (ev_state_key e) (get_power_level_event st) = Ok sl ∧
     get_user_power_level (ev_sender e) st = Ok ul ∧ sl ≤ ul).
Proof.
  intros Hc Ht Ha. apply check_auth_dict_other in Hc as [Hs Hsend]; [|done..]. split.
  - unfold check_event_sender_in_room, check_joined_room in Hs. py_inv. to_prop. subst.
    by apply membership_is_true.
  - intros Hn. destruct (Hsend Hn) as [_ Hok].
    destruct (can_send_event e st) eqn:E; [|done]. unfold can_send_event in E.
    apply py_bind_Ok in E as (sl & Hsl & E). apply py_bind_Ok in E as (ul & Hul & E).
    apply py_bind_Ok in E as ([] & Hle & _). apply raise_if_Ok in Hle. to_prop. eauto.
Qed.

(** ** State-independent rules *)

(** The state key pairs of the events that [ids] name. *)
Definition auth_event_keys (evs : string → option event) (ids : list string)
    : list (string * string) :=
  omap (λ i, ev ← evs i; (ev_type ev,.) <$> ev_state_key ev) ids.

Lemma state_key_Some ev sk : state_key ev = Ok sk ↔ ev_state_key ev = Some sk.
Proof. unfold state_key. destruct (ev_state_key ev); naive_solver. Qed.

Lemma check_auth_event_ids_inv e ts evs ids d d' :
  check_auth_event_ids e ts evs ids d = Ok d' →
  (∀ k, k ∈ dom d' ↔ k ∈ dom d ∨ ∃ i ev sk, i ∈ ids ∧ evs i = Some ev ∧ state_key ev = Ok sk ∧
     k = (ev_type ev, sk)) ∧
  Forall (λ i, ∃ ev sk, evs i = Some ev ∧ state_key ev = Ok sk ∧ ev_room_id ev = ev_room_id e ∧
    (ev_type ev, sk) ∈ ts ∧ (ev_type ev, sk) ∉ dom d ∧
    (ev_rejected_reason ev = None ∨ ev_rejected_reason ev = Some "")) ids ∧
  NoDup (auth_event_keys evs ids).
Proof.
  revert d. induction ids as [|i ids IH]; intros d; cbn [check_auth_event_ids].
  { intros [= <-]. split_and!; [set_solver|done|constructor]. }
  destruct (evs i) as [ev|] eqn:Ei; [|done]. intros Hc.
  apply py_bind_Ok in Hc as ([] & Hroom & Hc). apply py_bind_Ok in Hc as (sk & Hsk & Hc).
  apply py_bind_Ok in Hc as ([] & Hdup & Hc). apply py_bind_Ok in Hc as ([] & Hts & Hc).
  apply py_bind_Ok in Hc as ([] & Hrej & Hc). apply IH in Hc as (Hdom & Hall & Hnd).
  apply raise_if_Ok in Hroom, Hdup, Hts, Hrej. to_prop.
  assert ((ev_type ev, sk) ∉ dom d) as Hnew.
  { rewrite not_elem_of_dom. by destruct (d !! _). }
  split_and!.
  - intros k. rewrite Hdom, dom_insert. split.
    + intros [Hk|(i' & ev' & sk' & Hin & ?)].
      * apply elem_of_union in Hk as [->%elem_of_singleton|Hk]; [|by left].
        right. exists i, ev, sk. split_and!; [by left|done..].
      * right. exists i', ev', sk'. split; [by right|done].
    + rewrite elem_of_union, elem_of_singleton.
      intros [Hk|(i' & ev' & sk' & Hin & Hev & Hsk' & ->)]; [by left; right|].
      apply elem_of_cons in Hin as [->|Hin]; [left; left; congruence|right; eauto 10].
  - constructor.
    + exists ev, sk. split_and!; try done.
      destruct (ev_rejected_reason ev); [right|by left]. to_prop. by subst.
    + eapply Forall_impl; [exact Hall|]. intros i' (ev' & sk' & ? & ? & ? & ? & Hn & ?).
      exists ev', sk'. split_and!; try done. rewrite dom_insert, not_elem_of_union in Hn. by destruct Hn.
  - unfold auth_event_keys. cbn. rewrite Ei. cbn. rewrite (proj1 (state_key_Some _ _) Hsk). cbn.
    constructor; [|done]. rewrite list_elem_of_omap. intros (i' & Hi' & Hk).
    rewrite Forall_forall in Hall. destruct (Hall i' Hi') as (ev' & sk' & Hev & Hsk' & _ & _ & Hn & _).
    rewrite Hev in Hk. cbn in Hk. rewrite (proj1 (state_key_Some _ _) Hsk') in Hk.
    cbn in Hk. simplify_eq. apply Hn. rewrite dom_insert.
    apply elem_of_union. left. apply elem_of_singleton. congruence.
Qed.

(** The state-independent rules protect the auth chain: when an event other
    than a create event passes them, each of its auth events is known, belongs
    to the same room, was not rejected and is one that [auth_types_for_event]
    selects, no two of them are for the same state, and the room's create event
    is among them. *)
Theorem auth_events_checked get_events e batched ts :
  check_state_independent_auth_rules get_events e batched = Ok tt →
  ev_type e ≠ EventTypes.Create →
  auth_types_for_event (ev_room_version e) e = Ok ts →
  let find := find_auth_event get_events e batched in
  Forall (λ i, ∃ ev sk, find i = Some ev ∧ ev_state_key ev = Some sk ∧
    ev_room_id ev = ev_room_id e ∧ (ev_type ev, sk) ∈ ts ∧
    (ev_rejected_reason ev = None ∨ ev_rejected_reason ev = Some "")) (auth_event_ids e) ∧
  NoDup (auth_event_keys find (auth_event_ids e)) ∧
  ∃ i ev, i ∈ auth_event_ids e ∧ find i = Some ev ∧ ev_type ev = EventTypes.Create ∧
    ev_state_key ev = Some "".
Proof.
  intros Hc Ht Hts. unfold check_state_independent_auth_rules in Hc.
  rewrite decide_False, Hts in Hc by done. cbn [mbind py_bind] in Hc.
  apply py_bind_Ok in Hc as (d & Hd & Hcr). apply raise_if_Ok in Hcr.
  apply check_auth_event_ids_inv in Hd as (Hdom & Hall & Hnd). split_and!; [|done|].
  - eapply Forall_impl; [exact Hall|].
    intros i (ev & sk & Hf & Hsk%state_key_Some & Hr & Hin & _ & Hrej). eauto 10.
  - assert ((EventTypes.Create, "") ∈ dom d) as Hin.
    { apply elem_of_dom. destruct (d !! _); [eauto|discriminate]. }
    apply Hdom in Hin as [Hin|(i & ev & sk & Hin & Hev & Hsk%state_key_Some & [= ??])].
    { rewrite dom_empty in Hin. by apply not_elem_of_empty in Hin. }
    subst. eauto 10.
Qed.

(** ** Size limits *)

Definition fields_within (len : string → Z) (e : event) : Prop :=
  len (ev_sender e) ≤ 255 ∧ len (ev_room_id e) ≤ 255 ∧
  (∀ sk, ev_state_key e = Some sk → len sk ≤ 255) ∧
  len (ev_type e) ≤ 255 ∧ len (ev_id e) ≤ 255.

Lemma check_field_limits_cases len b e :
  (check_field_limits len b e = Ok tt ∧ fields_within len e) ∨
  (∃ msg, check_field_limits len b e = Raise (EventSizeError msg b) ∧ ¬ fields_within len e).
Proof.
  unfold check_field_limits, fields_within.
  destruct (255 <? len (ev_sender e)) eqn:E1; cbn [raise_if mbind py_bind]; to_prop;
    [right; eexists; split; [done|lia]|].
  destruct (255 <? len (ev_room_id e)) eqn:E2; cbn [raise_if mbind py_bind]; to_prop;
    [right; eexists; split; [done|lia]|].
  destruct (match ev_state_key e with Some sk => 255 <? len sk | None => false end) eqn:E3;
    cbn [raise_if mbind py_bind].
  { right. eexists. split; [done|]. intros (_ & _ & Hs & _).
    destruct (ev_state_key e) as [sk|]; [|done]. to_prop. specialize (Hs sk eq_refl). lia. }
  destruct (255 <? len (ev_type e)) eqn:E4; cbn [raise_if mbind py_bind]; to_prop;
    [right; eexists; split; [done|lia]|].
  destruct (255 <? len (ev_id e)) eqn:E5; cbn [raise_if mbind py_bind]; to_prop;
    [right; eexists; split; [done|lia]|].
  left. split_and!; try done. intros sk Hsk. rewrite Hsk in E3. by to_prop.
Qed.

Lemma fields_within_bytes e : fields_within byte_len e → fields_within str_len e.
Proof.
  intros (? & ? & Hs & ? & ?). pose proof str_len_le_byte_len as Hl.
  pose proof (Hl (ev_sender e)). pose proof (Hl (ev_room_id e)).
  pose proof (Hl (ev_type e)). pose proof (Hl (ev_id e)).
  split_and!; try lia. intros sk Hsk. specialize (Hs sk Hsk). pose proof (Hl sk). lia.
Qed.

(** The size limits: an event passes exactly when its PDU is within 64KiB and
    each of its five identifiers within 255 bytes; and the failures that leave
    the event persistable are exactly those of the lenient room versions where
    only the limit in bytes is exceeded, the one in code points being met. *)
Theorem size_limits_spec e :
  let too_large := MAX_PDU_SIZE < canonical_json_len (get_pdu_json e) in
  (check_size_limits e = Ok tt ↔ ¬ too_large ∧ fields_within byte_len e) ∧
  ((∃ msg, check_size_limits e = Raise (EventSizeError msg false)) ↔
   ¬ too_large ∧ fields_within str_len e ∧ ¬ fields_within byte_len e ∧
   ev_room_version e ∈ LENIENT_EVENT_BYTE_LIMITS_ROOM_VERSIONS).
Proof.
  intros too_large. unfold check_size_limits.
  pose proof (fields_within_bytes e) as Hb.
  destruct (MAX_PDU_SIZE <? canonical_json_len (get_pdu_json e)) eqn:E;
    cbn [raise_if mbind py_bind]; to_prop.
  { split; split; [done|intros []; done|intros (? & [=])|intros []; done]. }
  assert (¬ too_large) as Hn by (unfold too_large; lia).
  destruct (check_field_limits_cases str_len true e) as [[-> Hs]|(msg & -> & Hs)];
    cbn [mbind py_bind].
  2: { split; split; [done|naive_solver|intros (? & [=])|naive_solver]. }
  destruct (decide (ev_room_version e ∈ LENIENT_EVENT_BYTE_LIMITS_ROOM_VERSIONS)) as [Hl|Hl];
    [rewrite bool_decide_true by done|rewrite bool_decide_false by done]; cbn [negb].
  - destruct (check_field_limits_cases byte_len false e) as [[-> Hy]|(msg & -> & Hy)];
      split; split; intros; try done; naive_solver.
  - destruct (check_field_limits_cases byte_len true e) as [[-> Hy]|(msg & -> & Hy)];
      split; split; intros; try done; naive_solver.
Qed.
End Guarantees.

(** ** Instances in the example room *)

(** Bob's message is decided the same from the whole room and from the three
    events selected for it. *)
Example auth_types_suffice_witness :
  check_state_dependent_auth_rules (message_by "$m" bob) room_events =
  check_state_dependent_auth_rules (message_by "$m" bob) [create_event; power_event; bob_join].
Proof.
  apply (auth_types_suffice (message_by "$m" bob) (base_auth_types (message_by "$m" bob))
    room_events [create_event; power_event; bob_join]
    room_state (state_of [create_event; power_event; bob_join])).
  - reflexivity.
  - reflexivity.
  - discriminate.
  - apply state_of_Ok. vm_compute. reflexivity.
  - apply state_of_Ok. vm_compute. reflexivity.
  - unfold agree_on. apply Forall_forall.
    repeat constructor; vm_compute; reflexivity.
Defined.

(** A power-levels event with a state key of its own is checked against the
    event of that state key, which [auth_types_for_event] does not select: with
    and without it in the state the decisions differ. *)
Example auth_types_incomplete :
  let e := mk_event RoomVersions.V11 "$p" EventTypes.PowerLevels bob (Some "x")
             [("users", JObj [])] 8 ["$dave"] ["$create"] in
  let other := mk_event RoomVersions.V11 "$q" EventTypes.PowerLevels alice (Some "x")
                 [("users", JObj [(alice, JInt 100)])] 7 ["$dave"] ["$create"] in
  auth_types_for_event RoomVersions.V11 e = Ok (base_auth_types e) ∧
  check_state_dependent_auth_rules e room_events = Ok e ∧
  check_state_dependent_auth_rules e (room_events ++ [other]) =
    Raise (AuthError 403 "You don't have permission to add ops level greater than your own").
Proof. vm_compute. auto. Qed.

Definition test_context (e : event) (target : string) : membership_context :=
  match get_membership_context RoomVersions.V11 e target room_state with
  | Ok c => c
  | Raise _ => {| caller_in_room := false; caller_invited := false; caller_knocked := false;
                  target_in_room := false; target_banned := false; join_rule := JNull;
                  user_level := 0; target_level := 0; invite_level := 0; ban_level := 0 |}
  end.

(** Bob (level 50) may kick Dave. *)
Example membership_change_refines_rules_witness :
  let e := member_event "$k" bob dave Membership.LEAVE 8 in
  is_membership_change_allowed RoomVersions.V11 e room_state = Ok tt ↔
  ∃ m, membership e = Ok (JStr m) ∧
    membership_rule RoomVersions.V11 e room_state dave (test_context e dave) m.
Proof.
  apply (membership_change_refines_rules RoomVersions.V11
    (member_event "$k" bob dave Membership.LEAVE 8) room_state dave _ "hs" "hs");
    [reflexivity..|by left|vm_compute; reflexivity].
Defined.

(** Carol is unbanned by Alice. *)
Example banned_user_needs_unban_witness :
  ∃ m sender_event ul tl bl,
    membership (member_event "$u" alice carol Membership.LEAVE 8) = Ok (JStr m) ∧
    (m = Membership.LEAVE ∨ m = Membership.BAN) ∧ alice ≠ carol ∧
    room_state !! (EventTypes.Member, alice) = Some sender_event ∧
    membership sender_event = Ok (JStr Membership.JOIN) ∧
    get_user_power_level alice room_state = Ok ul ∧
    get_user_power_level carol room_state = Ok tl ∧
    get_named_level room_state "ban" 50 = Ok bl ∧ bl ≤ ul ∧ tl < ul.
Proof.
  apply (banned_user_needs_unban (member_event "$u" alice carol Membership.LEAVE 8)
    (member_event "$u" alice carol Membership.LEAVE 8) room_state carol carol_ban);
    vm_compute; reflexivity.
Defined.

Example moderation_is_downwards_witness :
  ∃ sender_event ul tl,
    room_state !! (EventTypes.Member, bob) = Some sender_event ∧
    membership sender_event = Ok (JStr Membership.JOIN) ∧
    get_user_power_level bob room_state = Ok ul ∧ get_user_power_level dave room_state = Ok tl ∧
    tl < ul.
Proof.
  apply (moderation_is_downwards (member_event "$b" bob dave Membership.BAN 8)
    (member_event "$b" bob dave Membership.BAN 8) room_state dave Membership.BAN);
    [vm_compute; reflexivity..|by left].
Defined.

Example accepted_event_sender_witness :
  (∃ mem, room_state !! (EventTypes.Member, bob) = Some mem ∧
     membership mem = Ok (JStr Membership.JOIN)) ∧
  ("m.room.message" ≠ EventTypes.ThirdPartyInvite → ∃ sl ul,
     get_send_level "m.room.message" None (get_power_level_event room_state) = Ok sl ∧
     get_user_power_level bob room_state = Ok ul ∧ sl ≤ ul).
Proof.
  apply (accepted_event_sender (message_by "$m" bob) (message_by "$m" bob) room_state);
    [vm_compute; reflexivity|done|done].
Defined.

(** A store holding the events of the example room. *)
Definition room_store (ids : list string) : gmap string event :=
  list_to_map (map (λ e, (ev_id e, e)) (List.filter (λ e, bool_decide (ev_id e ∈ ids)) room_events)).

Example auth_events_checked_witness :
  let e := mk_event RoomVersions.V11 "$m" "m.room.message" bob None [] 8 ["$dave"]
             ["$create"; "$power"; "$bob"] in
  let find := find_auth_event room_store e None in
  Forall (λ i, ∃ ev sk, find i = Some ev ∧ ev_state_key ev = Some sk ∧
    ev_room_id ev = ev_room_id e ∧ (ev_type ev, sk) ∈ base_auth_types e ∧
    (ev_rejected_reason ev = None ∨ ev_rejected_reason ev = Some "")) (auth_event_ids e) ∧
  NoDup (auth_event_keys find (auth_event_ids e)) ∧
  ∃ i ev, i ∈ auth_event_ids e ∧ find i = Some ev ∧ ev_type ev = EventTypes.Create ∧
    ev_state_key ev = Some "".
Proof.
  apply (auth_events_checked room_store
    (mk_event RoomVersions.V11 "$m" "m.room.message" bob None [] 8 ["$dave"]
       ["$create"; "$power"; "$bob"]) None); [vm_compute; reflexivity|done|reflexivity].
Defined.
