(* ===== verification/PowerLevelFacts.v ===== *)
(** * Power levels: who may change what

    The theorems about [_check_power_levels]: an accepted change of the power
    levels only touches levels at or below the sender's own, so that nobody is
    raised above the sender and nobody at the sender's level is demoted. *)

From S2P Require Import Prelude PyData RoomVersions Ids Events EventAuth RoomExample EventAuthFacts.

Open Scope Z_scope.

(** The level a dict of levels gives for a key, if any. *)
Definition dict_level (d : jdict) (k : string) : py (option Z) :=
  match dict_get k d with Some v => Some <$> py_int v | None => Ok None end.

Lemma level_at_obj d k : level_at (JObj d) (JStr k) = dict_level d k.
Proof.
  unfold level_at, dict_level. cbn. unfold dict_in, dict_item.
  by destruct (dict_get k d).
Qed.

(** What a change of one level from [o] to [n] by a user of level [ul] may be;
    [strict] for another user's level. *)
Definition level_change_ok (ul : Z) (strict : bool) (o n : option Z) : Prop :=
  o = n ∨
  (∀ x, o = Some x → x ≤ ul ∧ (strict = true → x ≠ ul)) ∧ (∀ x, n = Some x → x ≤ ul).

Lemma check_level_Ok e ul old new k dir :
  check_level e ul old new (k, dir) = Ok tt →
  ∃ o n, level_at (level_loc dir old) k = Ok o ∧ level_at (level_loc dir new) k = Ok n ∧
    level_change_ok ul (bool_decide (dir = Some "users") && negb (is_str k (ev_sender e))) o n.
Proof.
  unfold check_level. intros Hc. py_inv. exists x, x0. split_and!; [done..|].
  unfold level_change_ok.
  destruct (match x0, x with Some n, Some o => n =? o | _, _ => false end) eqn:E.
  { left. destruct x, x0; try done. to_prop. by subst. }
  py_inv. to_prop. right. apply andb_false_iff in H1.
  split; [intros y ->|intros y ->]; to_prop; [|done].
  split; [done|]. intros Hs. destruct H1 as [H1|H1]; [congruence|].
  to_prop. congruence.
Qed.

Lemma level_keys_obj d1 d2 ks :
  level_keys (JObj d1) (JObj d2) = Ok ks →
  ∀ k, k ∈ dict_keys d1 ∨ k ∈ dict_keys d2 → JStr k ∈ ks.
Proof.
  unfold level_keys. cbn. intros Hk k Hin. case_match; py_inv.
  rewrite elem_of_app. destruct Hin as [Hin|Hin]; [left|right];
    apply list_elem_of_In, in_map, list_elem_of_In, Hin.
Qed.

Lemma dict_level_absent d k : k ∉ dict_keys d → dict_level d k = Ok None.
Proof. intros Hk. unfold dict_level. by apply dict_get_None in Hk as ->. Qed.

Lemma check_power_levels_inv rv e st sk cur ul :
  check_power_levels rv e st = Ok tt → ev_state_key e = Some sk →
  st !! (ev_type e, sk) = Some cur → get_user_power_level (ev_sender e) st = Ok ul →
  (∃ du, dict_get_default "users" (JObj []) (ev_content e) = JObj du) ∧
  ∃ levels, levels_to_check rv (ev_content cur) (ev_content e) = Ok levels ∧
    ∀ k dir, (k, dir) ∈ levels →
      check_level e ul (ev_content cur) (ev_content e) (k, dir) = Ok tt.
Proof.
  unfold check_power_levels, state_key. intros Hc Hsk Hcur Hul. rewrite Hsk in Hc.
  py_inv. rewrite Hcur, Hul in *. py_inv.
  split; [destruct (dict_get_default _ _ _); try discriminate; eauto|].
  eexists. split; [done|].
  match goal with Hf : py_for_each _ _ = _ |- _ => apply py_for_each_Ok in Hf end.
  rewrite Forall_forall in *. eauto.
Qed.

(** The levels of one sub-dict ([users], [events], [notifications]). *)
Lemma check_sub_dict rv e ul old new dir d_old d_new levels :
  levels_to_check rv old new = Ok levels →
  (∀ k dir, (k, dir) ∈ levels → check_level e ul old new (k, dir) = Ok tt) →
  dir ∈ ["users"; "events"] ++ (if limit_notifications_power_levels rv
                                then ["notifications"] else []) →
  dict_get_default dir (JObj []) old = JObj d_old →
  dict_get_default dir (JObj []) new = JObj d_new →
  ∀ k, ∃ o n, dict_level d_old k = Ok o ∧ dict_level d_new k = Ok n ∧
    level_change_ok ul (bool_decide (dir = "users") && negb (bool_decide (k = ev_sender e))) o n.
Proof.
  intros Hl Hchk Hdir Ho Hn k.
  destruct (decide (k ∈ dict_keys d_old ∨ k ∈ dict_keys d_new)) as [Hin|Hout].
  - assert ((JStr k, Some dir) ∈ levels) as Hk.
    { unfold levels_to_check in Hl. py_inv.
      rewrite !elem_of_app in *. rewrite !elem_of_cons, !elem_of_nil in Hdir.
      assert (∀ ks, level_keys (JObj d_old) (JObj d_new) = Ok ks →
        (JStr k, Some dir) ∈ map (λ k, (k, Some dir)) ks) as Hmap.
      { intros ks Hks. apply list_elem_of_In, in_map_iff. eexists. split; [done|].
        apply list_elem_of_In. by eapply level_keys_obj. }
      destruct Hdir as [[->|[->|[]]]|Hdir].
      - rewrite Ho, Hn in *. right; left. eauto.
      - rewrite Ho, Hn in *. right; right; left. eauto.
      - case_match; [|by apply not_elem_of_nil in Hdir]. apply list_elem_of_singleton in Hdir as ->.
        rewrite Ho, Hn in *. py_inv. right; right; right. eauto. }
    destruct (check_level_Ok _ _ _ _ _ _ (Hchk _ _ Hk)) as (o & n & Ho' & Hn' & Hok).
    cbn [level_loc] in *. rewrite Ho, level_at_obj in Ho'. rewrite Hn, level_at_obj in Hn'.
    exists o, n. split_and!; [done..|].
    rewrite is_str_eq in Hok. replace (bool_decide (dir = "users")) with (bool_decide (Some dir = Some "users")).
    + done.
    + apply bool_decide_ext. naive_solver.
  - exists None, None. rewrite !dict_level_absent by tauto. split_and!; [done..|by left].
Qed.

Lemma check_named_levels rv e ul old new levels name :
  levels_to_check rv old new = Ok levels →
  (∀ k dir, (k, dir) ∈ levels → check_level e ul old new (k, dir) = Ok tt) →
  name ∈ POWER_LEVEL_NAMES →
  ∃ o n, dict_level old name = Ok o ∧ dict_level new name = Ok n ∧ level_change_ok ul false o n.
Proof.
  intros Hl Hchk Hin.
  assert ((JStr name, None) ∈ levels) as Hk.
  { unfold levels_to_check in Hl. py_inv. rewrite elem_of_app. left.
    apply list_elem_of_In, in_map_iff. eexists. split; [done|]. by apply list_elem_of_In. }
  destruct (check_level_Ok _ _ _ _ _ _ (Hchk _ _ Hk)) as (o & n & Ho' & Hn' & Hok).
  cbn [level_loc] in *. rewrite level_at_obj in Ho', Hn'. eauto 10.
Qed.

(** ** Power levels as numbers *)

Lemma dict_level_some d k n :
  dict_level d k = Ok (Some n) → ∃ v, none_or_null (dict_get k d) = Some v ∧ py_int v = Ok n.
Proof.
  unfold dict_level. destruct (dict_get k d) as [v|]; [|done]. intros Hp.
  apply py_fmap_Ok in Hp as (a & Ha & [= ->]). exists v. by destruct v.
Qed.

Lemma dict_level_none d k : dict_level d k = Ok None → dict_get k d = None.
Proof.
  unfold dict_level. destruct (dict_get k d); [|done]. intros (? & ? & ?)%py_fmap_Ok. done.
Qed.

(** A user's level: the entry of [users], or [users_default], or 0. *)
Lemma user_level_spec u st pl d o od :
  st !! (EventTypes.PowerLevels, "") = Some pl →
  dict_get_default "users" (JObj []) (ev_content pl) = JObj d →
  dict_level d u = Ok o → dict_level (ev_content pl) "users_default" = Ok od →
  get_user_power_level u st = Ok (default (default 0 od) o).
Proof.
  intros Hpl Hd Ho Hod. unfold get_user_power_level, get_power_level_event.
  rewrite Hpl, Hd. cbn [py_get mbind py_bind]. destruct o as [n|].
  { apply dict_level_some in Ho as (v & -> & Hv). done. }
  apply dict_level_none in Ho as ->. cbn [none_or_null]. destruct od as [n|].
  - apply dict_level_some in Hod as (v & Hv & Hn). unfold dict_get_default.
    destruct (dict_get "users_default" _) as [w|]; [|done].
    by destruct w; simplify_eq/=.
  - apply dict_level_none in Hod. unfold dict_get_default. by rewrite Hod.
Qed.

(** Whether the level of a user can be read at all: the [users] are an object. *)
Lemma user_level_users_obj u st pl l :
  st !! (EventTypes.PowerLevels, "") = Some pl → get_user_power_level u st = Ok l →
  ∃ d, dict_get_default "users" (JObj []) (ev_content pl) = JObj d.
Proof.
  unfold get_user_power_level, get_power_level_event. intros -> Hl.
  destruct (dict_get_default "users" _ _); try discriminate. eauto.
Qed.

Section Power.
Context `{External}.

Lemma can_send_event_true e st b : can_send_event e st = Ok b → b = true.
Proof. unfold can_send_event. intros Hc. by py_cases. Qed.

Lemma check_auth_dict_power e e' st :
  check_auth_dict e st = Ok e' → ev_type e = EventTypes.PowerLevels →
  check_event_sender_in_room e st = Ok tt ∧ can_send_event e st = Ok true ∧
  check_power_levels (ev_room_version e) e st = Ok tt ∧ e' = e.
Proof.
  unfold check_auth_dict. intros Hc Ht.
  do 3 (apply py_bind_Ok in Hc as (? & _ & Hc)).
  rewrite bool_decide_false, decide_False in Hc by (by rewrite Ht). cbn [andb] in Hc.
  apply py_bind_Ok in Hc as ([] & Hin & Hc). rewrite decide_False in Hc by (by rewrite Ht).
  apply py_bind_Ok in Hc as (b & Hs & Hc). rewrite (decide_True (P := ev_type e = EventTypes.PowerLevels)) in Hc by done.
  apply py_bind_Ok in Hc as ([] & Hp & Hc). rewrite decide_False in Hc by (by rewrite Ht).
  py_inv. by rewrite Hs, (can_send_event_true _ _ _ Hs).
Qed.

(** The level of every user before and after an accepted change. *)
Lemma power_change_users rv e st cur ul :
  ev_type e = EventTypes.PowerLevels → ev_state_key e = Some "" →
  st !! (EventTypes.PowerLevels, "") = Some cur →
  get_user_power_level (ev_sender e) st = Ok ul →
  check_power_levels rv e st = Ok tt →
  ∃ d_old d_new od nd,
    dict_get_default "users" (JObj []) (ev_content cur) = JObj d_old ∧
    dict_get_default "users" (JObj []) (ev_content e) = JObj d_new ∧
    dict_level (ev_content cur) "users_default" = Ok od ∧
    dict_level (ev_content e) "users_default" = Ok nd ∧ level_change_ok ul false od nd ∧
    ∀ u, ∃ o n, dict_level d_old u = Ok o ∧ dict_level d_new u = Ok n ∧
      level_change_ok ul (negb (bool_decide (u = ev_sender e))) o n.
Proof.
  intros Ht Hsk Hcur Hul Hc.
  destruct (user_level_users_obj _ _ _ _ Hcur Hul) as (d_old & Hd).
  rewrite <- Ht in Hcur.
  destruct (check_power_levels_inv _ _ _ _ _ _ Hc Hsk Hcur Hul) as ((d_new & Hd') & ls & Hls & Hchk).
  destruct (check_named_levels _ _ _ _ _ _ "users_default" Hls Hchk) as (od & nd & ? & ? & ?);
    [by left|].
  exists d_old, d_new, od, nd. split_and!; try done. intros u.
  apply (check_sub_dict _ _ _ _ _ "users" d_old d_new ls Hls Hchk); [by left|done..].
Qed.

(** An accepted change of the power levels respects the sender's own level.
    For each named level ([ban], [kick], [state_default], ...), for each user and
    for each event type whose entry differs between the old content and the
    new, neither the old nor the new value exceeds the sender's level, and the
    entry of another user was strictly below it. *)
Theorem power_level_changes_bounded e e' st cur ul :
  check_auth_dict e st = Ok e' →
  ev_type e = EventTypes.PowerLevels → ev_state_key e = Some "" →
  st !! (EventTypes.PowerLevels, "") = Some cur →
  get_user_power_level (ev_sender e) st = Ok ul →
  (∀ name, name ∈ POWER_LEVEL_NAMES → ∃ o n,
     dict_level (ev_content cur) name = Ok o ∧ dict_level (ev_content e) name = Ok n ∧
     level_change_ok ul false o n) ∧
  (∃ d_old d_new,
     dict_get_default "users" (JObj []) (ev_content cur) = JObj d_old ∧
     dict_get_default "users" (JObj []) (ev_content e) = JObj d_new ∧
     ∀ u, ∃ o n, dict_level d_old u = Ok o ∧ dict_level d_new u = Ok n ∧
       level_change_ok ul (negb (bool_decide (u = ev_sender e))) o n) ∧
  (∀ d_old d_new,
     dict_get_default "events" (JObj []) (ev_content cur) = JObj d_old →
     dict_get_default "events" (JObj []) (ev_content e) = JObj d_new →
     ∀ t, ∃ o n, dict_level d_old t = Ok o ∧ dict_level d_new t = Ok n ∧
       level_change_ok ul false o n).
Proof.
  intros Hc Ht Hsk Hcur Hul. apply check_auth_dict_power in Hc as (_ & _ & Hc & _); [|done].
  pose proof (power_change_users _ _ _ _ _ Ht Hsk Hcur Hul Hc) as (do & dn & _ & _ & Hdo & Hdn & _ & _ & _ & Hu).
  rewrite <- Ht in Hcur.
  destruct (check_power_levels_inv _ _ _ _ _ _ Hc Hsk Hcur Hul) as (_ & ls & Hls & Hchk).
  split_and!; [|by exists do, dn|].
  - intros name. by eapply check_named_levels.
  - intros d_old d_new Ho Hn.
    apply (check_sub_dict _ _ _ _ _ "events" d_old d_new ls Hls Hchk); [by right; left|done..].
Qed.

(** C2: No privilege escalation.  In a room with power levels whose default
    level does not exceed the sender's, which is not negative, an accepted power-levels event leaves everybody at most at the
    higher of their old level and the sender's; and it does not touch the level
    of anybody above the sender, nor that of another user who is explicitly at
    the sender's level. *)
Theorem no_privilege_escalation e e' st cur ul od :
  check_auth_dict e st = Ok e' →
  ev_type e = EventTypes.PowerLevels → ev_state_key e = Some "" →
  st !! (EventTypes.PowerLevels, "") = Some cur →
  get_user_power_level (ev_sender e) st = Ok ul →
  dict_level (ev_content cur) "users_default" = Ok od → default 0 od ≤ ul → 0 ≤ ul →
  let st' := <[(EventTypes.PowerLevels, "") := e]> st in
  ∀ u, ∃ old new,
    get_user_power_level u st = Ok old ∧ get_user_power_level u st' = Ok new ∧
    new ≤ Z.max old ul ∧ (ul < old → new = old) ∧
    (∀ d_old, dict_get_default "users" (JObj []) (ev_content cur) = JObj d_old →
       u ≠ ev_sender e → dict_level d_old u = Ok (Some ul) → new = ul).
Proof.
  intros Hc Ht Hsk Hcur Hul Hod Hle H0 st' u.
  apply check_auth_dict_power in Hc as (_ & _ & Hc & _); [|done].
  destruct (power_change_users _ _ _ _ _ Ht Hsk Hcur Hul Hc)
    as (d_old & d_new & od' & nd & Hdo & Hdn & Hod' & Hnd & Hdef & Hu).
  rewrite Hod in Hod'. injection Hod' as <-.
  destruct (Hu u) as (o & n & Ho & Hn & Hch).
  exists (default (default 0 od) o), (default (default 0 nd) n). split_and!.
  - by eapply user_level_spec.
  - eapply user_level_spec; [apply lookup_insert_eq|done..].
  - destruct Hdef as [->|[_ Hnd']], Hch as [->|[_ Hn']], n as [n|]; cbn; try lia;
      try (specialize (Hn' _ eq_refl); lia);
      destruct nd as [nd|]; cbn in *; try lia; try (specialize (Hnd' _ eq_refl); lia).
  - destruct o as [o|]; cbn; [|lia]. intros Hlt.
    destruct Hch as [<-|[Ho' _]]; [done|]. specialize (Ho' _ eq_refl). lia.
  - intros d Hd Hne Hl. rewrite Hdo in Hd. injection Hd as <-. rewrite Ho in Hl. injection Hl as ->.
    destruct Hch as [<-|[Ho' _]]; [done|]. rewrite bool_decide_false in Ho' by done.
    by destruct (Ho' _ eq_refl) as [_ []].
Qed.
End Power.

(** ** Instances in the example room *)

(** Bob (level 50) gives Eve level 50. *)
Example power_level_changes_bounded_witness :
  (∀ name, name ∈ POWER_LEVEL_NAMES → ∃ o n,
     dict_level pl_content name = Ok o ∧
     dict_level (ev_content (power_change bob [(alice, JInt 100); (bob, JInt 50); (eve, JInt 50)])) name = Ok n ∧
     level_change_ok 50 false o n) ∧ True.
Proof.
  split; [|exact I].
  apply (power_level_changes_bounded
    (power_change bob [(alice, JInt 100); (bob, JInt 50); (eve, JInt 50)])
    (power_change bob [(alice, JInt 100); (bob, JInt 50); (eve, JInt 50)])
    room_state power_event 50); vm_compute; reflexivity.
Defined.

Example no_privilege_escalation_witness :
  let e := power_change bob [(alice, JInt 100); (bob, JInt 50); (eve, JInt 50)] in
  ∃ old new,
    get_user_power_level eve room_state = Ok old ∧
    get_user_power_level eve (<[(EventTypes.PowerLevels, "") := e]> room_state) = Ok new ∧
    new ≤ Z.max old 50 ∧ (50 < old → new = old) ∧
    (∀ d_old, dict_get_default "users" (JObj []) pl_content = JObj d_old →
       eve ≠ bob → dict_level d_old eve = Ok (Some 50) → new = 50).
Proof.
  apply (no_privilege_escalation
    (power_change bob [(alice, JInt 100); (bob, JInt 50); (eve, JInt 50)])
    (power_change bob [(alice, JInt 100); (bob, JInt 50); (eve, JInt 50)])
    room_state power_event 50 None); vm_compute; try reflexivity; discriminate.
Defined.

(** Why the default level is bounded above: a user placed below the room's
    default may delete the entry and rise to the default. *)
Example deleting_an_entry_may_raise :
  let pl := mk_event RoomVersions.V11 "$power" EventTypes.PowerLevels alice (Some "")
    [("users", JObj [(bob, JInt 60)]); ("users_default", JInt 80)] 3 [] [] in
  let e := mk_event RoomVersions.V11 "$power2" EventTypes.PowerLevels bob (Some "")
    [("users", JObj []); ("users_default", JInt 80)] 8 [] [] in
  let st := <[(EventTypes.PowerLevels, "") := pl]> room_state in
  check_auth_dict e st = Ok e ∧ get_user_power_level bob st = Ok 60 ∧
  get_user_power_level bob (<[(EventTypes.PowerLevels, "") := e]> st) = Ok 80.
Proof. vm_compute. auto. Qed.
