(* ===== verification/RedactionFacts.v ===== *)
(** * What redaction preserves

    Redacting an event keeps what the authorization rules read from it: the
    theorems here are about [prune_event], [clone_event] and the helpers of
    [synapse/events/utils.py], and relate them to [EventAuth]. *)

From S2P Require Import Prelude PyData RoomVersions Ids Events EventAuth RoomExample EventAuthFacts.

Open Scope Z_scope.

(** ** Redacting twice, and cloning *)

Lemma redacted_event_wf e : event_wf e → event_wf (redacted_event e).
Proof.
  intros [Hx He]. split; cbn; [|done]. apply Forall_forall. intros kv Hin.
  apply list_elem_of_filter in Hin as [_ Hin]. rewrite Forall_forall in Hx. auto.
Qed.

Lemma redacted_event_idemp e :
  msc3389_relation_redactions (ev_room_version e) = false →
  redacted_event (redacted_event e) = redacted_event e.
Proof.
  intros Hm. unfold redacted_event at 1.
  cbn [redacted_event ev_id ev_room_version ev_type ev_sender ev_room_id ev_state_key ev_content
    ev_origin_server_ts ev_depth ev_prev_events ev_auth_events ev_extra ev_signatures ev_unsigned
    ev_outlier ev_soft_failed ev_recheck_redaction]. unfold redacted_event. f_equal.
  - by apply prune_content_idemp.
  - rewrite list_filter_filter. apply list_filter_iff. naive_solver.
  - apply pick_idemp.
Qed.

(** Redaction is idempotent: redacting a redacted event gives it back
    unchanged (in every room version without the experimental relation rule). *)
Theorem prune_event_idempotent e e1 :
  event_wf e → msc3389_relation_redactions (ev_room_version e) = false →
  prune_event e = Ok e1 → prune_event e1 = Ok e1.
Proof.
  intros Hwf Hm. rewrite prune_event_eq by done. intros [= <-].
  rewrite prune_event_eq by (by apply redacted_event_wf). by rewrite redacted_event_idemp.
Qed.

(** Redaction always succeeds on a well-formed event, keeps everything that
    identifies it and places it in the room, and marks it redacted. *)
Theorem prune_event_keeps_identity e :
  event_wf e →
  ∃ e1, prune_event e = Ok e1 ∧
    ev_id e1 = ev_id e ∧ ev_type e1 = ev_type e ∧ ev_sender e1 = ev_sender e ∧
    ev_room_id e1 = ev_room_id e ∧ ev_state_key e1 = ev_state_key e ∧
    ev_depth e1 = ev_depth e ∧ ev_origin_server_ts e1 = ev_origin_server_ts e ∧
    prev_event_ids e1 = prev_event_ids e ∧ auth_event_ids e1 = auth_event_ids e ∧
    ev_signatures e1 = ev_signatures e ∧ ev_redacted e1 = true.
Proof. intros Hwf. exists (redacted_event e). by rewrite prune_event_eq. Qed.

Lemma clone_event_eq e :
  event_wf e → ev_rejected_reason e = None → clone_event e = Ok e.
Proof.
  intros Hwf Hr. unfold clone_event.
  pose proof (get_dict_get e Hwf) as Hg. destruct_and! Hg.
  rewrite (make_event_from_dict_get e (get_dict e) None Hwf) with
    (c := ev_content e) (u := ev_unsigned e); [|done..].
  cbn [mbind py_bind]. rewrite (get_dict_extra e Hwf). destruct e; cbn in *. by rewrite Hr.
Qed.

(** Cloning an event that was not rejected gives an equal event. *)
Theorem clone_event_roundtrip e :
  event_wf e → ev_rejected_reason e = None → clone_event e = Ok e.
Proof. apply clone_event_eq. Qed.

(** ** Canonical JSON *)

(** The values that occur in a JSON value, itself included. *)
Inductive subvalue : json → json → Prop :=
  | sub_refl j : subvalue j j
  | sub_obj v w k d : (k, w) ∈ d → subvalue v w → subvalue v (JObj d)
  | sub_list v w l : w ∈ l → subvalue v w → subvalue v (JList l).

Definition canonical_value (v : json) : Prop :=
  match v with
  | JFloat _ => False
  | JInt z => - (2 ^ 53 - 1) ≤ z ≤ 2 ^ 53 - 1
  | _ => True
  end.

Lemma validate_obj_Ok d :
  validate_canonicaljson (JObj d) = Ok tt ↔ Forall (λ kv, validate_canonicaljson kv.2 = Ok tt) d.
Proof.
  cbn. induction d as [|[k v] d IH]; [by split|].
  rewrite py_bind_Ok, Forall_cons, <- IH. split; [intros ([] & ? & ?); done|intros [? ?]; eauto].
Qed.

Lemma validate_list_Ok l :
  validate_canonicaljson (JList l) = Ok tt ↔ Forall (λ v, validate_canonicaljson v = Ok tt) l.
Proof.
  cbn. induction l as [|v l IH]; [by split|].
  rewrite py_bind_Ok, Forall_cons, <- IH. split; [intros ([] & ? & ?); done|intros [? ?]; eauto].
Qed.

(** [validate_canonicaljson] accepts a value exactly when nothing in it, at
    any depth, is a float or an integer outside [-(2^53 - 1), 2^53 - 1]. *)
Theorem canonicaljson_spec j :
  validate_canonicaljson j = Ok tt ↔ ∀ v, subvalue v j → canonical_value v.
Proof.
  split.
  - intros Hj v Hv. revert Hj. induction Hv as [j|v w k d Hin Hv IH|v w l Hin Hv IH].
    + destruct j; cbn -[Z.pow]; intros Hj; try done. py_inv. to_prop.
      unfold CANONICALJSON_MIN_INT, CANONICALJSON_MAX_INT in *. lia.
    + rewrite validate_obj_Ok, Forall_forall. intros Hd. apply IH, (Hd (k, w) Hin).
    + rewrite validate_list_Ok, Forall_forall. intros Hl. by apply IH, Hl.
  - induction j as [| | | | |l IH|d IH] using json_nested_ind; intros Hs; try done.
    + specialize (Hs _ (sub_refl _)). cbn -[Z.pow] in *.
      unfold CANONICALJSON_MIN_INT, CANONICALJSON_MAX_INT.
      rewrite (proj2 (Z.ltb_ge _ _)), (proj2 (Z.ltb_ge _ _)) by lia. done.
    + by specialize (Hs _ (sub_refl _)).
    + rewrite validate_list_Ok. rewrite Forall_forall in *. intros w Hw. apply IH; [done|].
      intros v Hv. apply Hs. by eapply sub_list.
    + rewrite validate_obj_Ok. rewrite Forall_forall in *. intros [k w] Hw. apply (IH _ Hw).
      intros v Hv. apply Hs. by eapply sub_obj.
Qed.

(** ** Fixing up power-level contents *)

Definition int_or_ints (v : json) : Prop :=
  match v with
  | JInt _ => True
  | JObj h => Forall (λ kv, ∃ z, kv.2 = JInt z) h
  | _ => False
  end.

(** The two values read the same as levels. *)
Definition same_levels (v v' : json) : Prop :=
  match v, v' with
  | JObj h, JObj h' =>
      dict_keys h = dict_keys h' ∧
      Forall2 (λ a b, py_int a.2 = py_int b.2) h h'
  | _, _ => py_int v = py_int v'
  end.

Lemma copy_level_value v v' :
  copy_power_level_value_as_integer v = Ok v' → py_int v = py_int v' ∧ ∃ z, v' = JInt z.
Proof.
  destruct v; cbn; try done; [intros [= <-]; eauto|]. unfold py_int_of_str.
  destruct (int_of_str s); [|done]. intros [= <-]. eauto.
Qed.

Lemma copy_level_items h h' :
  copy_power_level_items h = Ok h' →
  dict_keys h = dict_keys h' ∧ Forall2 (λ a b, py_int a.2 = py_int b.2) h h' ∧
  Forall (λ kv, ∃ z, kv.2 = JInt z) h'.
Proof.
  revert h'. induction h as [|[k v] h IH]; cbn; intros h' Hh; [py_inv; by repeat constructor|].
  py_inv. destruct (IH _ ltac:(done)) as (Hk & Hf & Ha).
  match goal with E : copy_power_level_value_as_integer _ = Ok _ |- _ =>
    apply copy_level_value in E as [? ?] end.
  split_and!; [unfold dict_keys in *; cbn; by rewrite Hk|by constructor..].
Qed.

(** Copying the power levels of a room keeps every level and leaves only
    integers: the result has the same keys, in the same order, each value is an
    integer or a dict of integers, and reads as the same levels. *)
Theorem fixup_power_levels_spec d d' :
  copy_and_fixup_power_levels_contents (JObj d) = Ok d' →
  dict_keys d = dict_keys d' ∧ Forall (λ kv, int_or_ints kv.2) d' ∧
  Forall2 (λ a b, same_levels a.2 b.2) d d'.
Proof.
  cbn. revert d'. induction d as [|[k v] d IH]; cbn; intros d' Hd; [py_inv; by repeat constructor|].
  py_inv. destruct (IH _ ltac:(done)) as (Hk & Ha & Hf).
  assert (int_or_ints x ∧ same_levels v x) as [Hx Hs].
  { destruct v as [| | | | | |h]; try (
      match goal with E : copy_power_level_value_as_integer _ = Ok _ |- _ =>
        apply copy_level_value in E as [? [? ->]] end; done).
    match goal with E : _ = Ok x |- _ => apply py_fmap_Ok in E as (h' & Hh & <-) end.
    apply copy_level_items in Hh as (? & ? & ?). done. }
  split_and!; [unfold dict_keys in *; cbn; by rewrite Hk|by constructor..].
Qed.

(** ** Authorization against redacted state *)

(** A state map of a room whose version has the redaction rules of version 11,
    filed under the right keys. *)
Definition redactable_state (st : state_map event) : Prop :=
  ∀ t sk ev, st !! (t, sk) = Some ev →
    ev_type ev = t ∧ updated_redaction_rules (ev_room_version ev) = true ∧
    msc3389_relation_redactions (ev_room_version ev) = false.

Section RedactedState.
Context (st : state_map event) (Hst : redactable_state st).

Let st' : state_map event := redacted_event <$> st.

Lemma redacted_lookup t sk : st' !! (t, sk) = redacted_event <$> st !! (t, sk).
Proof. apply lookup_fmap. Qed.

Lemma redacted_content_get t sk ev k :
  st !! (t, sk) = Some ev → (∀ rv, updated_redaction_rules rv = true → k ∈ kept_fields rv (JStr t)) →
  dict_get k (ev_content (redacted_event ev)) = dict_get k (ev_content ev).
Proof using Hst.
  intros He Hk. destruct (Hst _ _ _ He) as (<- & Hu & Hm). cbn [redacted_event ev_content].
  apply prune_content_get; auto.
Qed.

Lemma redacted_create ev :
  st !! (EventTypes.Create, "") = Some ev → ev_content (redacted_event ev) = ev_content ev.
Proof using Hst.
  intros He. destruct (Hst _ _ _ He) as (Ht & Hu & Hm). cbn [redacted_event ev_content].
  rewrite prune_content_spec by done. by rewrite Ht, Hu.
Qed.

Lemma membership_is_redacted u m :
  membership_is (st' !! (EventTypes.Member, u)) m = membership_is (st !! (EventTypes.Member, u)) m.
Proof using Hst.
  rewrite redacted_lookup. destruct (st !! (EventTypes.Member, u)) as [ev|] eqn:E; [|done].
  cbn [fmap option_fmap option_map membership_is]. unfold membership, dict_item.
  rewrite (redacted_content_get _ _ _ "membership" E); [done|]. intros rv _. by left.
Qed.

Lemma power_content_redacted ev k :
  st !! (EventTypes.PowerLevels, "") = Some ev →
  k ∈ ["users"; "users_default"; "events"; "events_default"; "state_default"; "ban"; "kick";
       "redact"; "invite"] →
  dict_get k (ev_content (redacted_event ev)) = dict_get k (ev_content ev).
Proof using Hst.
  intros He Hk. apply (redacted_content_get _ _ _ k He). intros rv Hu.
  unfold kept_fields. eval_is_str. rewrite Hu. exact Hk.
Qed.

Lemma get_user_power_level_redacted u : get_user_power_level u st' = get_user_power_level u st.
Proof using Hst.
  unfold get_user_power_level, get_power_level_event. rewrite !redacted_lookup.
  destruct (st !! (EventTypes.PowerLevels, "")) as [pl|] eqn:Ep; cbn [fmap option_fmap option_map].
  - unfold dict_get_default. rewrite !(power_content_redacted pl) by (done || typed_key). done.
  - destruct (st !! (EventTypes.Create, "")) as [c|] eqn:Ec; cbn [fmap option_fmap option_map]; [|done].
    unfold room_creator. by rewrite (redacted_create c Ec).
Qed.

Lemma get_named_level_redacted name d :
  name ∈ ["ban"; "kick"; "redact"; "invite"] → get_named_level st' name d = get_named_level st name d.
Proof using Hst.
  intros Hn. unfold get_named_level, get_power_level_event. rewrite redacted_lookup.
  destruct (st !! (EventTypes.PowerLevels, "")) as [pl|] eqn:Ep; cbn [fmap option_fmap option_map]; [|done].
  rewrite (power_content_redacted pl) by (done || set_solver). done.
Qed.

Lemma get_send_level_redacted t sk :
  get_send_level t sk (get_power_level_event st') = get_send_level t sk (get_power_level_event st).
Proof using Hst.
  unfold get_send_level, get_power_level_event. rewrite redacted_lookup.
  destruct (st !! (EventTypes.PowerLevels, "")) as [pl|] eqn:Ep; cbn [fmap option_fmap option_map]; [|done].
  unfold dict_get_default. rewrite !(power_content_redacted pl) by (done || typed_key). done.
Qed.

Lemma can_federate_redacted : can_federate st' = can_federate st.
Proof using Hst.
  unfold can_federate. rewrite redacted_lookup.
  destruct (st !! (EventTypes.Create, "")) as [c|] eqn:Ec; cbn [fmap option_fmap option_map]; [|done].
  by rewrite (redacted_create c Ec).
Qed.

Lemma is_creator_join_redacted rv e m : is_creator_join rv e st' m = is_creator_join rv e st m.
Proof using Hst.
  unfold is_creator_join. rewrite redacted_lookup.
  destruct (st !! (EventTypes.Create, "")) as [c|] eqn:Ec; cbn [fmap option_fmap option_map]; [|done].
  by rewrite (redacted_create c Ec).
Qed.

Context `{External}.

Lemma get_membership_context_redacted rv e t :
  get_membership_context rv e t st' = get_membership_context rv e t st.
Proof using Hst.
  unfold get_membership_context.
  rewrite !membership_is_redacted, !get_user_power_level_redacted,
    !get_named_level_redacted by set_solver.
  rewrite redacted_lookup.
  destruct (st !! (EventTypes.JoinRules, "")) as [j|] eqn:Ej; cbn [fmap option_fmap option_map]; [|done].
  unfold dict_get_default. rewrite (redacted_content_get _ _ _ "join_rule" Ej); [done|].
  intros rv' _. by left.
Qed.

Lemma check_joined_room_redacted u :
  check_joined_room (st' !! (EventTypes.Member, u)) = check_joined_room (st !! (EventTypes.Member, u)).
Proof using Hst. unfold check_joined_room. by rewrite membership_is_redacted. Qed.

Lemma check_membership_change_redacted rv e t m c :
  check_membership_change rv e t st' m c = check_membership_change rv e t st m c.
Proof using Hst.
  unfold check_membership_change, check_leave, check_join.
  rewrite get_named_level_redacted by set_solver.
  destruct (none_or_null (dict_get EventContentFields.AUTHORISING_USER _)) as [[| | | |u| |]|]; try done.
  unfold state_get_json. cbn [hashable mbind py_bind].
  by rewrite check_joined_room_redacted, get_user_power_level_redacted.
Qed.

Lemma is_membership_change_allowed_redacted rv e :
  dict_in "third_party_invite" (ev_content e) = false →
  is_membership_change_allowed rv e st' = is_membership_change_allowed rv e st.
Proof using Hst.
  intros Ht. unfold is_membership_change_allowed. apply py_bind_ext. intros m _.
  rewrite is_creator_join_redacted, can_federate_redacted, Ht, andb_false_r.
  apply py_bind_ext. intros [] _; [done|]. do 4 (apply py_bind_ext; intros ? _).
  rewrite get_membership_context_redacted. apply py_bind_ext. intros c _.
  by rewrite check_membership_change_redacted.
Qed.

Lemma can_send_event_redacted e : can_send_event e st' = can_send_event e st.
Proof using Hst.
  unfold can_send_event. rewrite get_send_level_redacted, get_user_power_level_redacted.
  do 3 (apply py_bind_ext; intros ? _). repeat (case_match; try done).
  by rewrite get_user_power_level_redacted.
Qed.
End RedactedState.

(** C33: Redacting the state of a room does not change what is allowed in it: with
    the redaction rules of room version 11, an event gets the same decision
    against the state and against the state with every event in it redacted.  The events of
    the state are filed under their own types.  Excepted are power-levels events, which also compare the [notifications]
    that redaction drops, and third-party invites, which need the redacted
    public keys. *)
Theorem authorization_survives_redaction `{External} e st :
  redactable_state st →
  ev_type e ≠ EventTypes.PowerLevels →
  dict_in "third_party_invite" (ev_content e) = false →
  check_auth_dict e (redacted_event <$> st) = check_auth_dict e st.
Proof.
  intros Hst Hp Ht. unfold check_auth_dict.
  rewrite can_federate_redacted, is_membership_change_allowed_redacted, can_send_event_redacted by done.
  unfold check_event_sender_in_room, check_redaction.
  rewrite check_joined_room_redacted, !get_user_power_level_redacted,
    !get_named_level_redacted by (done || set_solver).
  rewrite !(decide_False (P := ev_type e = EventTypes.PowerLevels)) by done. done.
Qed.

Example prune_event_idempotent_witness :
  prune_event (redacted_event power_event) = Ok (redacted_event power_event).
Proof.
  apply (prune_event_idempotent power_event); [|reflexivity|vm_compute; reflexivity].
  split; [by constructor|]. intros _. split; repeat constructor.
Defined.

Example prune_event_keeps_identity_witness :
  ∃ e1, prune_event power_event = Ok e1 ∧
    ev_id e1 = "$power" ∧ ev_type e1 = EventTypes.PowerLevels ∧ ev_sender e1 = alice ∧
    ev_room_id e1 = "!r:hs" ∧ ev_state_key e1 = Some "" ∧
    ev_depth e1 = 3 ∧ ev_origin_server_ts e1 = 1003 ∧
    prev_event_ids e1 = ["$alice"] ∧ auth_event_ids e1 = ["$create"; "$alice"] ∧
    ev_signatures e1 = ev_signatures power_event ∧ ev_redacted e1 = true.
Proof.
  apply (prune_event_keeps_identity power_event).
  split; [by constructor|]. intros _. split; repeat constructor.
Defined.

Example clone_event_roundtrip_witness : clone_event power_event = Ok power_event.
Proof.
  apply (clone_event_roundtrip power_event); [|reflexivity].
  split; [by constructor|]. intros _. split; repeat constructor.
Defined.

(** Whether a state map is redactable, decided on its entries. *)
Definition redactable_stateb (st : state_map event) : bool :=
  forallb (λ '((t, _), ev), bool_decide (ev_type ev = t)
    && updated_redaction_rules (ev_room_version ev)
    && negb (msc3389_relation_redactions (ev_room_version ev))) (map_to_list st).

Lemma redactable_stateb_true st : redactable_stateb st = true → redactable_state st.
Proof.
  unfold redactable_stateb. rewrite forallb_forall. intros Hf t sk ev He.
  specialize (Hf ((t, sk), ev) ltac:(by apply list_elem_of_In, elem_of_map_to_list)).
  cbn in Hf. by to_prop.
Qed.

Example authorization_survives_redaction_witness :
  check_auth_dict (message_by "$m" bob) (redacted_event <$> room_state) =
  check_auth_dict (message_by "$m" bob) room_state.
Proof.
  apply (authorization_survives_redaction (message_by "$m" bob) room_state);
    [apply redactable_stateb_true; vm_compute; reflexivity | discriminate | reflexivity].
Defined.

Example fixup_power_levels_spec_witness :
  let d := [("ban", JStr " 50 "); ("users", JObj [(alice, JInt 100); (bob, JStr "50")])] in
  let d' := [("ban", JInt 50); ("users", JObj [(alice, JInt 100); (bob, JInt 50)])] in
  dict_keys d = dict_keys d' ∧ Forall (λ kv, int_or_ints kv.2) d' ∧
  Forall2 (λ a b, same_levels a.2 b.2) d d'.
Proof.
  apply (fixup_power_levels_spec
    [("ban", JStr " 50 "); ("users", JObj [(alice, JInt 100); (bob, JStr "50")])]
    [("ban", JInt 50); ("users", JObj [(alice, JInt 100); (bob, JInt 50)])]).
  vm_compute. reflexivity.
Defined.
