(* ===== verification/StreamTokens.v ===== *)
(** * Stream tokens: [synapse/types/__init__.py]

    Positions in the server's streams.  A multi-writer token is a vector clock:
    a default position and the positions of the writers that are ahead of it.
    [copy_and_advance] joins two of them, [is_before_or_eq] compares them, and
    the textual forms ([s12], [t4-12], [m56~2.58~3.59], and the underscore
    separated [StreamToken]) are printed and parsed.

    An [immutabledict] is a finite map: two of them are equal when they hold the
    same entries, whatever the order.  The entries are printed in the map's
    order.  The numbering of writer names by the store is an interface. *)

From S2P Require Import Prelude PyData.
From Stdlib Require Import Ascii.

Open Scope Z_scope.

(** [store.get_id_for_instance] and [store.get_name_from_instance_id] *)
Class InstanceStore : Type := {
  get_id_for_instance : string → Z;
  get_name_from_instance_id : Z → py string;
}.

(** The id given for a name is stored against that name. *)
Class InstanceStoreLaws `{InstanceStore} : Prop :=
  name_of_id : ∀ name, get_name_from_instance_id (get_id_for_instance name) = Ok name.

(** ** Multi-writer tokens *)

Record MultiWriterStreamToken : Type := MkToken {
  stream : Z;
  instance_map : gmap string Z;
}.

#[export] Instance MultiWriterStreamToken_eq_dec : EqDecision MultiWriterStreamToken.
Proof. solve_decision. Defined.

(** [cls(stream=..., instance_map=...)] with its [__attrs_post_init__] *)
Definition new_token (stream : Z) (instance_map : gmap string Z) : py MultiWriterStreamToken :=
  if forallb (λ p, stream <? p.2) (map_to_list instance_map)
  then Ok (MkToken stream instance_map) else Raise ValueError.

Definition get_stream_pos_for_instance (t : MultiWriterStreamToken) (instance_name : string) : Z :=
  default (stream t) (instance_map t !! instance_name).

Definition copy_and_advance (self other : MultiWriterStreamToken) : py MultiWriterStreamToken :=
  let max_stream := Z.max (stream self) (stream other) in
  let m : gmap string Z :=
    merge (λ a b, match a, b with
                  | None, None => None
                  | _, _ => Some (Z.max (default (stream self) a) (default (stream other) b))
                  end) (instance_map self) (instance_map other) in
  new_token max_stream (filter (λ p, max_stream < p.2) m).

(** [max(self.instance_map.values(), default=self.stream)] *)
Definition get_max_stream_pos (t : MultiWriterStreamToken) : Z :=
  match map snd (map_to_list (instance_map t)) with
  | [] => stream t
  | v :: vs => foldl Z.max v vs
  end.

Definition is_before_or_eq (self other : MultiWriterStreamToken) : bool :=
  if stream other <? stream self then false
  else forallb (λ i, get_stream_pos_for_instance self i <=? get_stream_pos_for_instance other i)
         (elements (dom (instance_map self) ∪ dom (instance_map other))).

Definition bound_stream_token (t : MultiWriterStreamToken) (max_stream : Z)
    : py MultiWriterStreamToken :=
  let min_pos := Z.min (stream t) max_stream in
  new_token min_pos
    (filter (λ p, min_pos < p.2) ((λ s, Z.min s max_stream) <$> instance_map t)).

(** [if instance_name: t.instance_map.get(instance_name, t.stream) else: t.stream] *)
Definition position_for (t : MultiWriterStreamToken) (instance_name : option string) : Z :=
  match instance_name with
  | Some i => if decide (i = "") then stream t else get_stream_pos_for_instance t i
  | None => stream t
  end.

Definition is_stream_position_in_range (low high : option MultiWriterStreamToken)
    (instance_name : option string) (pos : Z) : bool :=
  match low with
  | Some low => negb (pos <=? position_for low instance_name)
  | None => true
  end &&
  match high with
  | Some high => negb (position_for high instance_name <? pos)
  | None => true
  end.

(** ** Room tokens *)

Record RoomStreamToken : Type := MkRoomToken {
  room_pos : MultiWriterStreamToken;
  topological : option Z;
}.

#[export] Instance RoomStreamToken_eq_dec : EqDecision RoomStreamToken.
Proof. solve_decision. Defined.

(** [if self.topological:]: neither [None] nor 0 *)
Definition topological_truthy (t : option Z) : bool :=
  match t with Some z => negb (z =? 0) | None => false end.

(** The constructor with its [__attrs_post_init__] *)
Definition new_room_token (stream : Z) (instance_map : gmap string Z) (topological : option Z)
    : py RoomStreamToken :=
  raise_if (negb (bool_decide (instance_map = ∅)) && topological_truthy topological) ValueError ;;
  t ← new_token stream instance_map;
  Ok (MkRoomToken t topological).

Definition room_copy_and_advance (self other : RoomStreamToken) : py RoomStreamToken :=
  if topological_truthy (topological self) || topological_truthy (topological other) then
    Raise (PyException "Can't advance topological tokens")
  else
    t ← copy_and_advance (room_pos self) (room_pos other);
    new_room_token (stream t) (instance_map t) (topological self).

Definition as_historical_tuple (t : RoomStreamToken) : py (Z * Z) :=
  match topological t with
  | None => Raise (PyException "Cannot call `RoomStreamToken.as_historical_tuple` on live token")
  | Some top => Ok (top, stream (room_pos t))
  end.

Definition room_get_stream_pos_for_instance (t : RoomStreamToken) (instance_name : string) : py Z :=
  match topological t with
  | Some _ => Raise AssertionError
  | None => Ok (get_stream_pos_for_instance (room_pos t) instance_name)
  end.

Definition room_bound_stream_token (t : RoomStreamToken) (max_stream : Z) : py RoomStreamToken :=
  match topological t with
  | Some _ => Raise AssertionError
  | None => b ← bound_stream_token (room_pos t) max_stream;
            new_room_token (stream b) (instance_map b) None
  end.

(** ** Positions of persisted rows *)

Record PersistedPosition : Type := { pp_instance_name : string; pp_stream : Z }.

Definition persisted_after (p : PersistedPosition) (token : MultiWriterStreamToken) : bool :=
  get_stream_pos_for_instance token (pp_instance_name p) <? pp_stream p.

Definition to_room_stream_token (p : PersistedPosition) : py RoomStreamToken :=
  new_room_token (pp_stream p) ∅ None.

(** ** Textual forms *)

Section Textual.
Context `{InstanceStore}.

(** The entries of an [m...] token: [{instance_id}.{pos}] *)
Definition token_entries (t : MultiWriterStreamToken) : list string :=
  map (λ p, str_of_Z (get_id_for_instance p.1) +:+ String "." (str_of_Z p.2))
    (List.filter (λ p, negb (p.2 <=? stream t)) (map_to_list (instance_map t))).

(** [f"m{self.stream}~{encoded_map}"] if there are entries, [plain] otherwise *)
Definition vector_to_string (t : MultiWriterStreamToken) (plain : string) : string :=
  if decide (instance_map t = ∅) then plain
  else match token_entries t with
       | [] => plain
       | entries => "m" +:+ str_of_Z (stream t) +:+ String "~" (str_join "~" entries)
       end.

Definition multi_to_string (t : MultiWriterStreamToken) : string :=
  vector_to_string t (str_of_Z (stream t)).

Definition room_to_string (t : RoomStreamToken) : string :=
  match topological t with
  | Some top => "t" +:+ str_of_Z top +:+ String "-" (str_of_Z (stream (room_pos t)))
  | None => vector_to_string (room_pos t) ("s" +:+ str_of_Z (stream (room_pos t)))
  end.

(** The loop over [parts[1:]] *)
Fixpoint parse_instance_map (parts : list string) (m : gmap string Z) : py (gmap string Z) :=
  match parts with
  | [] => Ok m
  | part :: parts =>
      if decide (part = "") then parse_instance_map parts m
      else
        match str_split "." part with
        | [key; value] =>
            instance_id ← py_int_of_str key;
            pos ← py_int_of_str value;
            instance_name ← get_name_from_instance_id instance_id;
            parse_instance_map parts (<[instance_name := pos]> m)
        | _ => Raise ValueError
        end
  end.

(** [string[1:]] of an [m...] token: its stream and instance map *)
Definition parse_vector (s : string) : py (Z * gmap string Z) :=
  match str_split "~" s with
  | [] => Raise IndexError (* unreachable *)
  | first :: rest =>
      stream ← py_int_of_str first;
      m ← parse_instance_map rest ∅;
      Ok (stream, m)
  end.

(** [try: m except Exception: pass; raise e] *)
Definition or_raise {A} (m : py A) (e : exn) : py A :=
  match m with Ok a => Ok a | Raise _ => Raise e end.

Definition INVALID_ROOM_TOKEN : exn := SynapseError 400 "Invalid room stream token %r".
Definition INVALID_TOKEN : exn := SynapseError 400 "Invalid stream token %r".

Definition room_parse (s : string) : py RoomStreamToken :=
  or_raise
    match s with
    | "" => Raise IndexError
    | String c rest =>
        if decide (c = "s"%char) then
          stream ← py_int_of_str rest; new_room_token stream ∅ None
        else if decide (c = "t"%char) then
          match str_cut "-" rest with
          | Some (l, r) =>
              top ← py_int_of_str l; stream ← py_int_of_str r; new_room_token stream ∅ (Some top)
          | None => py_int_of_str rest ;; Raise IndexError
          end
        else if decide (c = "m"%char) then
          '(stream, m) ← parse_vector rest; new_room_token stream m None
        else Raise INVALID_ROOM_TOKEN
    end INVALID_ROOM_TOKEN.

Definition parse_stream_token (s : string) : py RoomStreamToken :=
  or_raise
    match s with
    | "" => Raise IndexError
    | String c rest =>
        if decide (c = "s"%char) then
          stream ← py_int_of_str rest; new_room_token stream ∅ None
        else Raise INVALID_ROOM_TOKEN
    end INVALID_ROOM_TOKEN.

Definition is_digit (c : ascii) : bool :=
  match digit_val c with Some _ => true | None => false end.

Definition multi_parse (s : string) : py MultiWriterStreamToken :=
  or_raise
    match s with
    | "" => Raise IndexError
    | String c rest =>
        if is_digit c then stream ← py_int_of_str s; new_token stream ∅
        else if decide (c = "m"%char) then
          '(stream, m) ← parse_vector rest; new_token stream m
        else Raise INVALID_TOKEN
    end INVALID_TOKEN.

(** ** Tokens over all streams *)

Inductive StreamKeyType : Type :=
  | ROOM | PRESENCE | TYPING | RECEIPT | ACCOUNT_DATA | PUSH_RULES | TO_DEVICE | DEVICE_LIST
  | UN_PARTIAL_STATED_ROOMS.

#[export] Instance StreamKeyType_eq_dec : EqDecision StreamKeyType.
Proof. solve_decision. Defined.

(** [StreamKeyType.__members__], in the order of definition *)
Definition stream_key_types : list StreamKeyType :=
  [ROOM; PRESENCE; TYPING; RECEIPT; ACCOUNT_DATA; PUSH_RULES; TO_DEVICE; DEVICE_LIST;
   UN_PARTIAL_STATED_ROOMS].

Record StreamToken : Type := MkStreamToken {
  room_key : RoomStreamToken;
  presence_key : Z;
  typing_key : Z;
  receipt_key : MultiWriterStreamToken;
  account_data_key : Z;
  push_rules_key : Z;
  to_device_key : Z;
  device_list_key : Z;
  groups_key : Z;
  un_partial_stated_rooms_key : Z;
}.

(** The value of a field: [Union[int, RoomStreamToken, MultiWriterStreamToken]] *)
Inductive field : Type :=
  | FInt (z : Z)
  | FRoom (t : RoomStreamToken)
  | FMulti (t : MultiWriterStreamToken).

Definition get_field (t : StreamToken) (key : StreamKeyType) : field :=
  match key with
  | ROOM => FRoom (room_key t)
  | PRESENCE => FInt (presence_key t)
  | TYPING => FInt (typing_key t)
  | RECEIPT => FMulti (receipt_key t)
  | ACCOUNT_DATA => FInt (account_data_key t)
  | PUSH_RULES => FInt (push_rules_key t)
  | TO_DEVICE => FInt (to_device_key t)
  | DEVICE_LIST => FInt (device_list_key t)
  | UN_PARTIAL_STATED_ROOMS => FInt (un_partial_stated_rooms_key t)
  end.

(** [attr.evolve(self, **{key.value: new_value})]: the validators of [room_key]
    and [receipt_key] reject a value of another class. *)
Definition copy_and_replace (t : StreamToken) (key : StreamKeyType) (v : field)
    : py StreamToken :=
  let '(MkStreamToken r p ty re a pu td dl g u) := t in
  match key, v with
  | ROOM, FRoom v => Ok (MkStreamToken v p ty re a pu td dl g u)
  | PRESENCE, FInt v => Ok (MkStreamToken r v ty re a pu td dl g u)
  | TYPING, FInt v => Ok (MkStreamToken r p v re a pu td dl g u)
  | RECEIPT, FMulti v => Ok (MkStreamToken r p ty v a pu td dl g u)
  | ACCOUNT_DATA, FInt v => Ok (MkStreamToken r p ty re v pu td dl g u)
  | PUSH_RULES, FInt v => Ok (MkStreamToken r p ty re a v td dl g u)
  | TO_DEVICE, FInt v => Ok (MkStreamToken r p ty re a pu v dl g u)
  | DEVICE_LIST, FInt v => Ok (MkStreamToken r p ty re a pu td v g u)
  | UN_PARTIAL_STATED_ROOMS, FInt v => Ok (MkStreamToken r p ty re a pu td dl g v)
  | _, _ => Raise TypeError
  end.

Definition token_copy_and_advance (t : StreamToken) (key : StreamKeyType) (new_value : field)
    : py StreamToken :=
  match key, new_value with
  | ROOM, FRoom v => r ← room_copy_and_advance (room_key t) v; copy_and_replace t ROOM (FRoom r)
  | RECEIPT, FMulti v => r ← copy_and_advance (receipt_key t) v; copy_and_replace t RECEIPT (FMulti r)
  | ROOM, _ | RECEIPT, _ => Raise AttributeError
  | _, _ =>
      new_token ← copy_and_replace t key new_value;
      match get_field new_token key, get_field t key with
      | FInt new_id, FInt old_id => Ok (if old_id <? new_id then new_token else t)
      | _, _ => Raise TypeError
      end
  end.

(** The comparison of one field of two tokens *)
Definition field_before_or_eq (a b : field) : bool :=
  match a, b with
  | FRoom a, FRoom b => is_before_or_eq (room_pos a) (room_pos b)
  | FMulti a, FMulti b => is_before_or_eq a b
  | FInt a, FInt b => negb (b <? a)
  | _, _ => false (* fields of one key have one class *)
  end.

Definition token_is_before_or_eq (self other : StreamToken) : bool :=
  forallb (λ key, bool_decide (key = TYPING)
                  || field_before_or_eq (get_field self key) (get_field other key))
    stream_key_types.

Definition token_to_string (t : StreamToken) : string :=
  str_join "_"
    [room_to_string (room_key t); str_of_Z (presence_key t); str_of_Z (typing_key t);
     multi_to_string (receipt_key t); str_of_Z (account_data_key t);
     str_of_Z (push_rules_key t); str_of_Z (to_device_key t); str_of_Z (device_list_key t);
     str_of_Z (groups_key t); str_of_Z (un_partial_stated_rooms_key t)].

(** [while len(keys) < 10: keys.append("0")] *)
Definition pad_keys (keys : list string) : list string :=
  keys ++ replicate (10 - length keys) "0".

Definition token_from_string (s : string) : py StreamToken :=
  or_raise
    match pad_keys (str_split "_" s) with
    | [room; presence; typing; receipt; account_data; push_rules; to_device; device_list;
       groups; un_partial_stated_rooms] =>
        room ← room_parse room;
        presence ← py_int_of_str presence;
        typing ← py_int_of_str typing;
        receipt ← multi_parse receipt;
        account_data ← py_int_of_str account_data;
        push_rules ← py_int_of_str push_rules;
        to_device ← py_int_of_str to_device;
        device_list ← py_int_of_str device_list;
        groups ← py_int_of_str groups;
        un_partial_stated_rooms ← py_int_of_str un_partial_stated_rooms;
        Ok (MkStreamToken room presence typing receipt account_data push_rules to_device
              device_list groups un_partial_stated_rooms)
    | _ => Raise ValueError
    end (SynapseError 400 "Invalid stream token").

(** ** Sliding sync tokens *)

Record SlidingSyncStreamToken : Type := {
  stream_token : StreamToken;
  connection_position : Z;
}.

Definition sliding_to_string (t : SlidingSyncStreamToken) : string :=
  str_of_Z (connection_position t) +:+ String "/" (token_to_string (stream_token t)).

Definition sliding_from_string (s : string) : py SlidingSyncStreamToken :=
  or_raise
    match str_cut "/" s with
    | Some (l, r) =>
        pos ← py_int_of_str l;
        t ← token_from_string r;
        Ok {| stream_token := t; connection_position := pos |}
    | None => Raise ValueError
    end (SynapseError 400 "Invalid stream token").
End Textual.
