(* ===== verification/StreamTokenFacts.v ===== *)
(** * Stream tokens as vector clocks

    A well-formed multi-writer token is determined by the position it gives to
    each writer; [copy_and_advance] is the least upper bound, [is_before_or_eq]
    the pointwise order, [bound_stream_token] the pointwise minimum, the ranges
    between consecutive tokens partition the stream, and the textual forms can
    be read back. *)

From S2P Require Import Prelude PyData StreamTokens.
From Stdlib Require Import Ascii.

Open Scope Z_scope.

Lemma guard_Some (P : Prop) `{Decision P} {A} (x : A) :
  guard P ≫= (λ _ : P, Some x) = if decide P then Some x else None.
Proof. unfold guard. by case_decide. Qed.

Abbreviation pos := get_stream_pos_for_instance.

(** What [__attrs_post_init__] enforces. *)
Definition token_wf (t : MultiWriterStreamToken) : Prop :=
  ∀ i v, instance_map t !! i = Some v → stream t < v.

Lemma new_token_Ok s m t : new_token s m = Ok t ↔ t = MkToken s m ∧ token_wf t.
Proof.
  unfold new_token, token_wf. destruct (forallb _ _) eqn:E.
  - rewrite forallb_forall in E. split; [|by intros [-> _]]. intros [= <-]. split; [done|].
    cbn. intros i v Hi. apply Z.ltb_lt.
    apply (E (i, v)), list_elem_of_In, elem_of_map_to_list, Hi.
  - split; [done|]. intros [-> Hwf]. exfalso. apply not_true_iff_false in E. apply E.
    apply forallb_forall. intros [i v] Hin. apply Z.ltb_lt. cbn in *.
    by apply (Hwf i v), elem_of_map_to_list, list_elem_of_In.
Qed.

Lemma new_token_wf s m : (∀ i v, m !! i = Some v → s < v) → new_token s m = Ok (MkToken s m).
Proof. intros Hm. by apply new_token_Ok. Qed.

Lemma pos_ge_stream t i : token_wf t → stream t ≤ pos t i.
Proof.
  intros Hwf. unfold get_stream_pos_for_instance.
  destruct (instance_map t !! i) as [v|] eqn:E; cbn; [apply Hwf in E|]; lia.
Qed.

(** Some writer is not in the map, and so is at [stream]. *)
Lemma pos_fresh t1 t2 : ∃ i, pos t1 i = stream t1 ∧ pos t2 i = stream t2.
Proof.
  set (i := fresh (dom (instance_map t1) ∪ dom (instance_map t2))).
  assert (i ∉ dom (instance_map t1) ∪ dom (instance_map t2)) as Hi by apply is_fresh.
  apply not_elem_of_union in Hi as [H1%not_elem_of_dom H2%not_elem_of_dom].
  exists i. unfold get_stream_pos_for_instance. by rewrite H1, H2.
Qed.

Lemma token_ext t1 t2 : token_wf t1 → token_wf t2 → (∀ i, pos t1 i = pos t2 i) → t1 = t2.
Proof.
  intros W1 W2 Hp. destruct (pos_fresh t1 t2) as (i & H1 & H2).
  assert (stream t1 = stream t2) as Hs by (rewrite <- H1, <- H2; apply Hp).
  destruct t1 as [s1 m1], t2 as [s2 m2]; cbn in *. subst s2. f_equal.
  apply map_eq. intros j. specialize (Hp j). unfold get_stream_pos_for_instance in Hp. cbn in Hp.
  destruct (m1 !! j) as [v|] eqn:E1, (m2 !! j) as [w|] eqn:E2; cbn in *; try congruence.
  - apply W1 in E1. cbn in E1. lia.
  - apply W2 in E2. cbn in E2. lia.
Qed.

(** The token made by [copy_and_advance]. *)
Lemma copy_and_advance_pos a b :
  token_wf a → token_wf b →
  ∃ t, copy_and_advance a b = Ok t ∧ token_wf t ∧ stream t = Z.max (stream a) (stream b) ∧
    ∀ i, pos t i = Z.max (pos a i) (pos b i).
Proof.
  intros Wa Wb. unfold copy_and_advance. set (m := filter _ _).
  assert (∀ i, m !! i =
    (v ← match instance_map a !! i, instance_map b !! i with
         | None, None => None | x, y => Some (Z.max (default (stream a) x) (default (stream b) y)) end;
     if decide (Z.max (stream a) (stream b) < v) then Some v else None)) as Hm.
  { intros i. unfold m. rewrite map_lookup_filter, lookup_merge. unfold diag_None.
    destruct (instance_map a !! i), (instance_map b !! i); cbn;
      rewrite ?guard_Some; done. }
  rewrite new_token_wf.
  2: { intros i v. rewrite Hm. intros (w & Hw & Hg)%bind_Some. case_decide; by simplify_eq. }
  eexists. split; [done|]. split_and!; [|done|].
  { intros i v. cbn [instance_map stream]. rewrite Hm.
    intros (w & Hw & Hg)%bind_Some. case_decide; by simplify_eq. }
  intros i. pose proof (pos_ge_stream a i Wa) as Ha. pose proof (pos_ge_stream b i Wb) as Hb.
  unfold get_stream_pos_for_instance in *. cbn [instance_map stream]. rewrite Hm.
  destruct (instance_map a !! i) as [x|], (instance_map b !! i) as [y|]; cbn in *;
    try case_decide; cbn; lia.
Qed.

Lemma is_before_or_eq_pos a b :
  token_wf a → token_wf b → is_before_or_eq a b = true ↔ ∀ i, pos a i ≤ pos b i.
Proof.
  intros Wa Wb. unfold is_before_or_eq.
  destruct (pos_fresh a b) as (i0 & Ha & Hb). split.
  - destruct (stream b <? stream a) eqn:Es; [done|]. to_prop. rewrite forallb_forall.
    intros Hall i. destruct (decide (i ∈ dom (instance_map a) ∪ dom (instance_map b))) as [Hi|Hi].
    + apply Z.leb_le, Hall, list_elem_of_In, elem_of_elements, Hi.
    + apply not_elem_of_union in Hi as [H1%not_elem_of_dom H2%not_elem_of_dom].
      unfold get_stream_pos_for_instance. by rewrite H1, H2.
  - intros Hle. pose proof (Hle i0) as H0. rewrite Ha, Hb in H0.
    rewrite (proj2 (Z.ltb_ge _ _)) by done. apply forallb_forall. intros i _. by apply Z.leb_le.
Qed.

Lemma bound_stream_token_pos t m :
  token_wf t → ∃ b, bound_stream_token t m = Ok b ∧ token_wf b ∧ ∀ i, pos b i = Z.min (pos t i) m.
Proof.
  intros Wt. unfold bound_stream_token. set (f := filter _ _).
  assert (∀ i, f !! i = (v ← (λ s, Z.min s m) <$> instance_map t !! i;
     if decide (Z.min (stream t) m < v) then Some v else None)) as Hf.
  { intros i. unfold f. rewrite map_lookup_filter, lookup_fmap.
    destruct (instance_map t !! i); cbn; rewrite ?guard_Some; done. }
  rewrite new_token_wf.
  2: { intros i v. rewrite Hf. intros (w & Hw & Hg)%bind_Some. case_decide; by simplify_eq. }
  eexists. split; [done|]. split.
  { intros i v. cbn [instance_map stream]. rewrite Hf.
    intros (w & Hw & Hg)%bind_Some. case_decide; by simplify_eq. }
  intros i. pose proof (pos_ge_stream t i Wt) as Ht.
  unfold get_stream_pos_for_instance in *. cbn [instance_map stream]. rewrite Hf.
  destruct (instance_map t !! i) as [x|]; cbn in *; try case_decide; cbn; lia.
Qed.

(** ** The guarantees *)

(** [copy_and_advance] is the least upper bound of two tokens: it returns a
    well-formed token, at which each writer is at the later of its two
    positions; so a row was persisted after the result exactly when it was
    persisted after both, and the result is before any token both are before. *)
Theorem copy_and_advance_lub a b :
  token_wf a → token_wf b →
  ∃ t, copy_and_advance a b = Ok t ∧ token_wf t ∧
    (∀ i, pos t i = Z.max (pos a i) (pos b i)) ∧
    (∀ p, persisted_after p t = persisted_after p a && persisted_after p b) ∧
    ∀ c, token_wf c →
      is_before_or_eq t c = is_before_or_eq a c && is_before_or_eq b c.
Proof.
  intros Wa Wb. destruct (copy_and_advance_pos a b Wa Wb) as (t & Ht & Wt & _ & Hp).
  exists t. split_and!; [done..| |].
  - intros p. unfold persisted_after. rewrite Hp. apply eq_true_iff_eq.
    rewrite andb_true_iff, !Z.ltb_lt. lia.
  - intros c Wc. apply eq_true_iff_eq. rewrite andb_true_iff, !is_before_or_eq_pos by done.
    split; [intros Hc; split; intros i; specialize (Hc i); rewrite Hp in Hc; lia|].
    intros [Hac Hbc] i. rewrite Hp. specialize (Hac i). specialize (Hbc i). lia.
Qed.

(** [is_before_or_eq] is a partial order on well-formed tokens, the pointwise
    order of the writers' positions; in particular two tokens each before the
    other are equal. *)
Theorem is_before_or_eq_partial_order a b c :
  token_wf a → token_wf b → token_wf c →
  is_before_or_eq a a = true ∧
  (is_before_or_eq a b = true → is_before_or_eq b c = true → is_before_or_eq a c = true) ∧
  (is_before_or_eq a b = true → is_before_or_eq b a = true → a = b) ∧
  (is_before_or_eq a b = true ↔ ∀ i, pos a i ≤ pos b i).
Proof.
  intros Wa Wb Wc. rewrite !is_before_or_eq_pos by done. split_and!; [done| |  |done].
  - intros H1 H2 i. specialize (H1 i). specialize (H2 i). lia.
  - intros H1 H2. apply token_ext; [done..|]. intros i. specialize (H1 i). specialize (H2 i). lia.
Qed.

(** [bound_stream_token] bounds every writer's position and gives the largest
    such token: it is before the original, and a token at or below the bound is
    before the result exactly when it is before the original. *)
Theorem bound_stream_token_spec t m :
  token_wf t →
  ∃ b, bound_stream_token t m = Ok b ∧ token_wf b ∧ (∀ i, pos b i = Z.min (pos t i) m) ∧
    is_before_or_eq b t = true ∧
    ∀ c, token_wf c → (∀ i, pos c i ≤ m) → is_before_or_eq c b = is_before_or_eq c t.
Proof.
  intros Wt. destruct (bound_stream_token_pos t m Wt) as (b & Hb & Wb & Hp).
  exists b. split_and!; [done..| |].
  - apply is_before_or_eq_pos; [done..|]. intros i. rewrite Hp. lia.
  - intros c Wc Hc. apply eq_true_iff_eq. rewrite !is_before_or_eq_pos by done.
    split; intros Hle i; specialize (Hle i); specialize (Hc i); rewrite Hp in *; lia.
Qed.

(** Consecutive tokens partition a stream: for tokens in order, a row persisted
    by a known writer is in the range from the first to the last exactly when it
    is in one of the two ranges between them, and never in both, so that a
    client syncing step by step gets every row once. *)
Theorem ranges_partition low mid high i p :
  token_wf low → token_wf mid → token_wf high →
  is_before_or_eq low mid = true → is_before_or_eq mid high = true → i ≠ "" →
  let in_range a b := is_stream_position_in_range (Some a) (Some b) (Some i) p in
  in_range low high = in_range low mid || in_range mid high ∧
  in_range low mid && in_range mid high = false ∧
  (in_range low high = true ↔ pos low i < p ≤ pos high i).
Proof.
  intros Wl Wm Wh. rewrite !is_before_or_eq_pos by done. intros Hlm Hmh Hi in_range.
  specialize (Hlm i). specialize (Hmh i).
  assert (∀ a b, in_range a b = (pos a i <? p) && (p <=? pos b i)) as Hr.
  { intros a b. unfold in_range, is_stream_position_in_range, position_for.
    rewrite !decide_False by done.
    apply eq_true_iff_eq.
    rewrite !andb_true_iff, !negb_true_iff, Z.leb_gt, Z.ltb_ge, Z.ltb_lt, Z.leb_le. lia. }
  rewrite !Hr. split_and!.
  - apply eq_true_iff_eq. rewrite orb_true_iff, !andb_true_iff, !Z.ltb_lt, !Z.leb_le. lia.
  - apply not_true_iff_false. rewrite !andb_true_iff, !Z.ltb_lt, !Z.leb_le. lia.
  - rewrite andb_true_iff, Z.ltb_lt, Z.leb_le. lia.
Qed.

(** The largest position named by a token bounds the position of every writer
    and is the position of one of them. *)
Theorem get_max_stream_pos_spec t :
  token_wf t →
  (∀ i, pos t i ≤ get_max_stream_pos t) ∧ ∃ i, pos t i = get_max_stream_pos t.
Proof.
  intros Wt. unfold get_max_stream_pos.
  assert (∀ vs v, v ≤ foldl Z.max v vs ∧ (∀ w, w ∈ vs → w ≤ foldl Z.max v vs) ∧
    (foldl Z.max v vs = v ∨ foldl Z.max v vs ∈ vs)) as Hf.
  { intros vs. induction vs as [|w vs IH]; intros v; cbn [foldl].
    - split_and!; [lia|intros ? []%not_elem_of_nil|by left].
    - destruct (IH (Z.max v w)) as (H1 & H2 & H3). split_and!; [lia| |].
      + intros x [->|Hx]%elem_of_cons; [lia|auto].
      + destruct H3 as [H3|H3]; [|right; by right].
        rewrite H3. destruct (Z.max_spec v w) as [[_ ->]|[_ ->]]; [right; by left|by left]. }
  assert (∀ i v, instance_map t !! i = Some v ↔ (i, v) ∈ map_to_list (instance_map t)) as Hl
    by (intros; by rewrite elem_of_map_to_list).
  destruct (map_to_list (instance_map t)) as [|[i0 v0] l] eqn:E; cbn [map].
  - assert (∀ i, pos t i = stream t) as Hp.
    { intros i. unfold get_stream_pos_for_instance.
      destruct (instance_map t !! i) as [v|] eqn:Ei; [|done].
      apply Hl in Ei. by apply not_elem_of_nil in Ei. }
    split; [intros i; by rewrite Hp | exists ""; apply Hp].
  - destruct (Hf (map snd l) v0) as (H1 & H2 & H3). cbn [snd]. split.
    + intros i. unfold get_stream_pos_for_instance.
      destruct (instance_map t !! i) as [v|] eqn:Ei; cbn.
      * apply Hl, elem_of_cons in Ei as [[= -> ->]|Ei]; [done|].
        apply H2, list_elem_of_In. change v with (snd (i, v)). by apply in_map, list_elem_of_In.
      * assert (stream t < v0) by (apply (Wt i0), Hl; by left). lia.
    + unfold get_stream_pos_for_instance. destruct H3 as [->|H3].
      * exists i0. by rewrite (proj2 (Hl i0 v0)) by (by left).
      * apply list_elem_of_In, in_map_iff in H3 as ([i v] & <- & Hin%list_elem_of_In).
        exists i. by rewrite (proj2 (Hl i v)) by (by right).
Qed.

(** ** Printing and parsing *)

Lemma foldl_insert_list_to_map (l : list (string * Z)) :
  foldl (λ m p, <[p.1 := p.2]> m) ∅ l = list_to_map (reverse l) :> gmap string Z.
Proof.
  induction l as [|p l IH] using rev_ind; [done|].
  rewrite foldl_app, reverse_app. cbn. by rewrite IH.
Qed.

Lemma foldl_insert_map_to_list (m : gmap string Z) :
  foldl (λ m p, <[p.1 := p.2]> m) ∅ (map_to_list m) = m.
Proof.
  rewrite foldl_insert_list_to_map.
  rewrite <- (list_to_map_proper (map_to_list m)); [apply list_to_map_to_list| |].
  - apply NoDup_fst_map_to_list.
  - by rewrite reverse_Permutation.
Qed.

Lemma digit_no_sep c : is_digit c = false → ∀ d, 0 ≤ d < 10 → digit_chr d ≠ c.
Proof. intros Hc d Hd <-. unfold is_digit in Hc. by rewrite digit_val_chr in Hc. Qed.

Lemma str_of_Z_sep c z :
  is_digit c = false → c ≠ "-"%char → str_mem c (str_of_Z z) = false.
Proof. intros Hc Hm. apply str_of_Z_no_sep; [by apply digit_no_sep | done]. Qed.

(** The first character of a non-negative number is a digit. *)
Lemma str_of_Z_head z : 0 ≤ z → ∃ c s, str_of_Z z = String c s ∧ is_digit c = true.
Proof.
  intros Hz. unfold str_of_Z. rewrite (proj2 (Z.ltb_ge _ _)) by lia.
  pose proof (print_digits_shape (λ c, is_digit c = true) (S (Z.to_nat (Z.log2 (Z.abs z))))
    (Z.abs z) "") as Hp.
  destruct (print_digits _ (Z.abs z) "") as [|c s] eqn:E.
  - exfalso. revert E. cbn [print_digits]. clear.
    assert (∀ f n acc, acc ≠ "" → print_digits f n acc ≠ "") as Hne.
    { intros f. induction f as [|f IH]; intros n acc Ha; [done|]. cbn [print_digits].
      case_match; [done|]. by apply IH. }
    case_match; [done|]. by apply Hne.
  - exists c, s. split; [done|].
    assert (Forall (λ c, is_digit c = true) (String.list_ascii_of_string (String c s))) as Hf.
    { apply Hp; [lia| |constructor]. intros d Hd. unfold is_digit. by rewrite digit_val_chr. }
    by inversion Hf.
Qed.

Lemma str_of_Z_nonneg_no_minus z : 0 ≤ z → str_mem "-" (str_of_Z z) = false.
Proof.
  intros Hz. unfold str_of_Z. rewrite (proj2 (Z.ltb_ge _ _)) by lia. apply str_mem_Forall.
  apply print_digits_shape; [lia| |constructor]. intros d Hd. by apply digit_no_sep.
Qed.

Section Textual.
Context `{IS : InstanceStore} {ISL : InstanceStoreLaws}.

Definition entry_string (p : string * Z) : string :=
  str_of_Z (get_id_for_instance p.1) +:+ String "." (str_of_Z p.2).

Lemma entry_string_sep p c :
  is_digit c = false → c ≠ "-"%char → c ≠ "."%char → str_mem c (entry_string p) = false.
Proof.
  intros Hc Hm Hd. unfold entry_string. rewrite str_mem_app. cbn [str_mem].
  rewrite !str_of_Z_sep, bool_decide_eq_false_2 by (done || congruence). done.
Qed.

Lemma parse_entry p parts m :
  parse_instance_map (entry_string p :: parts) m =
  parse_instance_map parts (<[p.1 := p.2]> m).
Proof using Type*.
  cbn [parse_instance_map]. rewrite decide_False.
  2: { intros E. apply (f_equal (str_mem ".")) in E. unfold entry_string in E.
       rewrite str_mem_app in E. cbn [str_mem] in E.
       by rewrite bool_decide_eq_true_2, orb_true_r in E. }
  unfold entry_string.
  rewrite str_split_app_sep, str_split_no_sep by (by apply str_of_Z_sep).
  rewrite !py_int_of_str_of_Z. cbn [mbind py_bind]. by rewrite name_of_id.
Qed.

Lemma parse_entries l m :
  parse_instance_map (map entry_string l) m = Ok (foldl (λ m p, <[p.1 := p.2]> m) m l).
Proof using Type*.
  revert m. induction l as [|p l IH]; intros m; [done|].
  cbn [map]. rewrite parse_entry. apply IH.
Qed.

Lemma token_entries_wf t :
  token_wf t → token_entries t = map entry_string (map_to_list (instance_map t)).
Proof.
  intros Wt. unfold token_entries. f_equal.
  assert (∀ l, (∀ p, p ∈ l → stream t < p.2) →
    List.filter (λ p : string * Z, negb (p.2 <=? stream t)) l = l) as Hl.
  { intros l Hl. induction l as [|p l IH]; [done|]. cbn.
    rewrite (proj2 (Z.leb_gt _ _)) by (apply Hl; by left). cbn. f_equal.
    apply IH. intros q Hq. apply Hl. by right. }
  apply Hl. intros [i v] Hi. by apply (Wt i), elem_of_map_to_list.
Qed.

(** What an [m...] token reads back as. *)
Lemma parse_vector_string t :
  token_wf t → instance_map t ≠ ∅ →
  ∃ body, vector_to_string t (str_of_Z (stream t)) = String "m" body ∧
    (∀ plain, vector_to_string t plain = String "m" body) ∧
    parse_vector body = Ok (stream t, instance_map t).
Proof using Type*.
  intros Wt Hne. set (es := map entry_string (map_to_list (instance_map t))).
  assert (es ≠ []) as Hes.
  { unfold es. intros E%map_eq_nil. by apply map_to_list_empty_iff in E. }
  exists (str_of_Z (stream t) +:+ String "~" (str_join "~" es)).
  assert (∀ plain, vector_to_string t plain =
    String "m" (str_of_Z (stream t) +:+ String "~" (str_join "~" es))) as Hv.
  { intros plain. unfold vector_to_string. rewrite decide_False, token_entries_wf by done.
    fold es. by destruct es. }
  split_and!; [apply Hv..|]. unfold parse_vector.
  rewrite str_split_app_sep by (by apply str_of_Z_sep).
  rewrite str_split_join; [|done|].
  - rewrite py_int_of_str_of_Z. cbn [mbind py_bind]. unfold es. rewrite parse_entries.
    cbn [mbind py_bind]. by rewrite foldl_insert_map_to_list.
  - unfold es. apply Forall_map, Forall_true. intros p. by apply entry_string_sep.
Qed.

Lemma new_token_eta t : token_wf t → new_token (stream t) (instance_map t) = Ok t.
Proof. intros Wt. apply new_token_Ok. by destruct t. Qed.

Lemma multi_token_parse t :
  token_wf t → 0 ≤ stream t → multi_parse (multi_to_string t) = Ok t.
Proof using Type*.
  intros Wt H0. unfold multi_to_string, multi_parse.
  destruct (decide (instance_map t = ∅)) as [He|Hne].
  - unfold vector_to_string. rewrite decide_True by done.
    destruct (str_of_Z_head (stream t) H0) as (c & s & E & Hd). rewrite E, Hd, <- E.
    rewrite py_int_of_str_of_Z. cbn [mbind py_bind]. rewrite <- He, new_token_eta by done. done.
  - destruct (parse_vector_string t Wt Hne) as (body & -> & _ & Hb).
    change (is_digit "m"%char) with false. rewrite decide_True by done. rewrite Hb.
    cbn [mbind py_bind]. by rewrite new_token_eta.
Qed.

Definition room_wf (t : RoomStreamToken) : Prop :=
  token_wf (room_pos t) ∧
  ∀ top, topological t = Some top → 0 ≤ top ∧ instance_map (room_pos t) = ∅.

Lemma new_room_token_eta t :
  room_wf t →
  new_room_token (stream (room_pos t)) (instance_map (room_pos t)) (topological t) = Ok t.
Proof.
  intros [Wt Htop]. unfold new_room_token. rewrite new_token_eta by done.
  assert (negb (bool_decide (instance_map (room_pos t) = ∅)) && topological_truthy (topological t)
    = false) as ->.
  { destruct (topological t) as [top|] eqn:E; [|by rewrite andb_false_r].
    rewrite bool_decide_eq_true_2 by (by eapply Htop). done. }
  cbn. by destruct t.
Qed.

Lemma room_token_parse t : room_wf t → room_parse (room_to_string t) = Ok t.
Proof using Type*.
  intros Wt. pose proof (new_room_token_eta t Wt) as Heta. destruct Wt as [Wt Htop].
  unfold room_to_string, room_parse. destruct (topological t) as [top|] eqn:Et.
  - destruct (Htop _ eq_refl) as [Htop0 He].
    rewrite str_app_cons, decide_False, decide_True by done.
    change ("" +:+ ?x) with x.
    rewrite str_cut_app; [|by apply str_of_Z_nonneg_no_minus].
    rewrite !py_int_of_str_of_Z. cbn [mbind py_bind]. rewrite <- He, Heta. done.
  - destruct (decide (instance_map (room_pos t) = ∅)) as [He|Hne].
    + unfold vector_to_string. rewrite decide_True by done.
      rewrite str_app_cons, decide_True by done. change ("" +:+ ?x) with x.
      rewrite py_int_of_str_of_Z. cbn [mbind py_bind]. rewrite <- He, Heta. done.
    + destruct (parse_vector_string (room_pos t) Wt Hne) as (body & _ & -> & Hb).
      rewrite !decide_False, decide_True by done. rewrite Hb. cbn [mbind py_bind].
      by rewrite Heta.
Qed.

Lemma str_join_sep c sep l :
  c ≠ sep → Forall (λ p, str_mem c p = false) l → str_mem c (str_join sep l) = false.
Proof.
  intros Hc Hl. induction Hl as [|p ps Hp Hps IH]; [done|]. destruct ps as [|q ps]; [done|].
  change (str_join sep (p :: q :: ps)) with (p +:+ String sep (str_join sep (q :: ps))).
  rewrite str_mem_app, Hp. cbn [str_mem]. rewrite bool_decide_eq_false_2 by congruence.
  exact IH.
Qed.

(** No separator of the outer formats occurs in a vector clock. *)
Lemma vector_to_string_sep t plain c :
  token_wf t → is_digit c = false → c ∉ ["-"; "."; "~"; "m"]%char → str_mem c plain = false →
  str_mem c (vector_to_string t plain) = false.
Proof.
  intros Wt Hd Hc Hp. rewrite !not_elem_of_cons in Hc. destruct_and! Hc.
  unfold vector_to_string. case_decide; [done|]. rewrite token_entries_wf by done.
  destruct (map entry_string _) as [|e es] eqn:E; [done|]. rewrite <- E.
  rewrite str_app_cons. cbn [str_mem]. rewrite bool_decide_eq_false_2 by congruence.
  change ("" +:+ ?x) with x. cbn [orb]. rewrite str_mem_app, str_of_Z_sep by done. cbn [str_mem orb].
  rewrite bool_decide_eq_false_2 by congruence. cbn [orb].
  apply str_join_sep; [done|]. apply Forall_map, Forall_true. intros q. by apply entry_string_sep.
Qed.

Lemma multi_to_string_sep t c :
  token_wf t → is_digit c = false → c ∉ ["-"; "."; "~"; "m"]%char →
  str_mem c (multi_to_string t) = false.
Proof.
  intros Wt Hd Hc. apply vector_to_string_sep; [done..|]. apply str_of_Z_sep; [done|set_solver].
Qed.

Lemma room_to_string_sep t c :
  room_wf t → is_digit c = false → c ∉ ["-"; "."; "~"; "m"; "s"; "t"]%char →
  str_mem c (room_to_string t) = false.
Proof.
  intros [Wt _] Hd Hc. rewrite !not_elem_of_cons in Hc. destruct_and! Hc. unfold room_to_string.
  destruct (topological t).
  - rewrite str_app_cons. cbn [str_mem]. rewrite bool_decide_eq_false_2 by congruence.
    change ("" +:+ ?x) with x. cbn [orb]. rewrite str_mem_app, str_of_Z_sep by done. cbn [str_mem orb].
    rewrite bool_decide_eq_false_2 by congruence. cbn [orb]. by apply str_of_Z_sep.
  - apply vector_to_string_sep; [done..| |].
    + rewrite !not_elem_of_cons. split_and!; done.
    + rewrite str_app_cons. cbn [str_mem]. rewrite bool_decide_eq_false_2 by congruence.
      by apply str_of_Z_sep.
Qed.

Definition stream_token_wf (t : StreamToken) : Prop :=
  room_wf (room_key t) ∧ token_wf (receipt_key t) ∧ 0 ≤ stream (receipt_key t).

Lemma token_parts_sep t c :
  stream_token_wf t → is_digit c = false → c ∉ ["-"; "."; "~"; "m"; "s"; "t"]%char →
  Forall (λ p, str_mem c p = false)
    [room_to_string (room_key t); str_of_Z (presence_key t); str_of_Z (typing_key t);
     multi_to_string (receipt_key t); str_of_Z (account_data_key t);
     str_of_Z (push_rules_key t); str_of_Z (to_device_key t); str_of_Z (device_list_key t);
     str_of_Z (groups_key t); str_of_Z (un_partial_stated_rooms_key t)].
Proof.
  intros (Wr & Wm & _) Hd Hc. pose proof Hc as Hc'. rewrite !not_elem_of_cons in Hc.
  destruct_and! Hc.
  repeat (apply Forall_cons; split); try (by apply str_of_Z_sep).
  - by apply room_to_string_sep.
  - apply multi_to_string_sep; [done..|]. rewrite !not_elem_of_cons.
    split_and!; done.
  - by apply Forall_nil.
Qed.

Lemma sep_ok c : c = "_"%char ∨ c = "/"%char →
  is_digit c = false ∧ c ∉ ["-"; "."; "~"; "m"; "s"; "t"]%char.
Proof. intros [-> | ->]; (split; [done|]); apply (bool_decide_unpack _); vm_compute; exact I. Qed.

Lemma stream_token_parse t : stream_token_wf t → token_from_string (token_to_string t) = Ok t.
Proof using Type*.
  intros Wt. unfold token_from_string, token_to_string.
  destruct (sep_ok "_"%char) as [Hd Hc]; [by left|].
  rewrite str_split_join; [|done|by apply token_parts_sep].
  unfold pad_keys. cbn [length replicate Nat.sub app].
  destruct Wt as (Wr & Wm & H0).
  rewrite room_token_parse, multi_token_parse by done. cbn [mbind py_bind].
  rewrite !py_int_of_str_of_Z. cbn [mbind py_bind]. by destruct t.
Qed.

(** Sync tokens read back from their textual form: the ten positions of a
    [StreamToken], and the connection position of a sliding sync token before
    it. *)
Theorem stream_token_roundtrip t conn :
  stream_token_wf t →
  token_from_string (token_to_string t) = Ok t ∧
  let st := {| stream_token := t; connection_position := conn |} in
  sliding_from_string (sliding_to_string st) = Ok st.
Proof using Type*.
  intros Wt. split; [by apply stream_token_parse|]. cbn zeta.
  unfold sliding_from_string, sliding_to_string. cbn [stream_token connection_position].
  rewrite str_cut_app by (by apply str_of_Z_sep).
  rewrite py_int_of_str_of_Z, stream_token_parse by done. done.
Qed.
End Textual.

(** ** Advancing a token over all streams *)

Definition field_wf (v : field) : Prop :=
  match v with
  | FInt _ => True
  | FRoom r => token_wf (room_pos r)
  | FMulti m => token_wf m
  end.

Lemma is_before_or_eq_refl a : token_wf a → is_before_or_eq a a = true.
Proof. intros Wa. by apply is_before_or_eq_pos. Qed.

Lemma copy_and_advance_before a b t :
  token_wf a → token_wf b → copy_and_advance a b = Ok t → is_before_or_eq a t = true.
Proof.
  intros Wa Wb Ht. destruct (copy_and_advance_pos a b Wa Wb) as (t' & Ht' & Wt & _ & Hp).
  rewrite Ht in Ht'. injection Ht' as <-. apply is_before_or_eq_pos; [done..|].
  intros i. rewrite Hp. lia.
Qed.

Lemma copy_and_replace_get t k v t' :
  copy_and_replace t k v = Ok t' →
  get_field t' k = v ∧ (∀ k', k' ≠ k → get_field t' k' = get_field t k') ∧
  groups_key t' = groups_key t.
Proof.
  destruct t. unfold copy_and_replace. intros Hr.
  destruct k, v; try discriminate Hr; injection Hr as <-; (split_and!; [done| |done]);
    intros [] ?; done.
Qed.

Lemma token_before_fields t t' k :
  (∀ k', field_wf (get_field t k')) →
  (∀ k', k' ≠ k → get_field t' k' = get_field t k') →
  field_before_or_eq (get_field t k) (get_field t' k) = true →
  token_is_before_or_eq t t' = true.
Proof.
  intros Wt Hne Hk. apply forallb_forall. intros k' _. apply orb_true_iff. right.
  destruct (decide (k' = k)) as [->|Hk']; [done|]. rewrite Hne by done. specialize (Wt k').
  destruct (get_field t k'); cbn in *; [|by apply is_before_or_eq_refl..].
  rewrite (proj2 (Z.ltb_ge _ _)) by lia. done.
Qed.

(** Advancing one stream of a [StreamToken] never moves it backwards: the old
    token is before the new one, which differs only in that stream, and the
    stream's new position is not before the value it was advanced to. *)
Theorem token_advance_monotone t key v t' :
  (∀ k, field_wf (get_field t k)) → field_wf v →
  token_copy_and_advance t key v = Ok t' →
  token_is_before_or_eq t t' = true ∧
  (∀ k, k ≠ key → get_field t' k = get_field t k) ∧ groups_key t' = groups_key t ∧
  field_before_or_eq v (get_field t' key) = true.
Proof.
  intros Wt Wv Ht.
  assert (∀ a b, token_wf a → token_wf b → ∃ j, copy_and_advance a b = Ok j ∧
    is_before_or_eq a j = true ∧ is_before_or_eq b j = true) as Hadv.
  { intros a b Wa Wb. destruct (copy_and_advance_pos a b Wa Wb) as (j & Hj & Wj & _ & Hp).
    exists j. split_and!; [done|exact (copy_and_advance_before a b j Wa Wb Hj)|].
    apply is_before_or_eq_pos; [done..|]. intros i. rewrite Hp. lia. }
  assert (∃ w, copy_and_replace t key w = Ok t' ∧
      field_before_or_eq (get_field t key) w = true ∧ field_before_or_eq v w = true
    ∨ t' = t ∧ field_before_or_eq v (get_field t key) = true) as (w & [(Hr & Hw & Hv)|[-> Hv]]).
  { pose proof (Wt key) as Wk. destruct key, v; cbn [token_copy_and_advance get_field] in Ht; cbn in Wk, Wv;
      try discriminate Ht; try (destruct t; discriminate Ht).
    1: { destruct (Hadv _ _ Wk Wv) as (j & Hj & H1 & H2).
         unfold room_copy_and_advance in Ht. case_match; [done|]. rewrite Hj in Ht. cbn [mbind py_bind] in Ht.
         py_inv. unfold new_room_token in *. py_inv.
         match goal with E : new_token _ _ = Ok _ |- _ => apply new_token_Ok in E as [-> _] end.
         exists (FRoom (MkRoomToken (MkToken (stream j) (instance_map j)) (topological (room_key t)))).
         left. split_and!; [by destruct j|by destruct j..]. }
    3: { destruct (Hadv _ _ Wk Wv) as (j & Hj & H1 & H2). rewrite Hj in Ht.
         exists (FMulti j). by left. }
    all: destruct t; cbn in Ht; injection Ht as <-; exists (FInt z);
      (case_match; to_prop; [left|right]); (split_and!; [done|..]);
      cbn; apply negb_true_iff, Z.ltb_ge; lia. }
  - apply copy_and_replace_get in Hr as (Hk & Hne & Hg). subst w. split_and!; [|done..].
    by apply (token_before_fields _ _ key).
  - split_and!; [|done..]. apply (token_before_fields _ _ TYPING); [done..|].
    specialize (Wt TYPING). cbn. apply negb_true_iff, Z.ltb_ge. lia.
Qed.

(** ** Instances *)

(** Two event persisters and a receipts writer. *)
Definition tok (s : Z) (l : list (string * Z)) : MultiWriterStreamToken :=
  MkToken s (list_to_map l).

Lemma token_wf_check t :
  forallb (λ p, stream t <? p.2) (map_to_list (instance_map t)) = true → token_wf t.
Proof.
  intros Hf. assert (new_token (stream t) (instance_map t) = Ok t) as Ht
    by (unfold new_token; rewrite Hf; by destruct t).
  by apply new_token_Ok in Ht as [_ Ht].
Qed.

Ltac check_wf := apply token_wf_check; vm_compute; reflexivity.

Example copy_and_advance_lub_witness :
  ∃ t, copy_and_advance (tok 5 [("w1", 9)]) (tok 7 [("w2", 8)]) = Ok t ∧ token_wf t ∧
    (∀ i, pos t i = Z.max (pos (tok 5 [("w1", 9)]) i) (pos (tok 7 [("w2", 8)]) i)) ∧
    (∀ p, persisted_after p t =
       persisted_after p (tok 5 [("w1", 9)]) && persisted_after p (tok 7 [("w2", 8)])) ∧
    ∀ c, token_wf c → is_before_or_eq t c =
      is_before_or_eq (tok 5 [("w1", 9)]) c && is_before_or_eq (tok 7 [("w2", 8)]) c.
Proof. apply (copy_and_advance_lub (tok 5 [("w1", 9)]) (tok 7 [("w2", 8)])); check_wf. Defined.

Example is_before_or_eq_partial_order_witness :
  let a := tok 5 [("w1", 9)] in let b := tok 7 [("w1", 9)] in let c := tok 9 [] in
  is_before_or_eq a a = true ∧
  (is_before_or_eq a b = true → is_before_or_eq b c = true → is_before_or_eq a c = true) ∧
  (is_before_or_eq a b = true → is_before_or_eq b a = true → a = b) ∧
  (is_before_or_eq a b = true ↔ ∀ i, pos a i ≤ pos b i).
Proof.
  apply (is_before_or_eq_partial_order (tok 5 [("w1", 9)]) (tok 7 [("w1", 9)]) (tok 9 []));
    check_wf.
Defined.

Example bound_stream_token_spec_witness :
  ∃ b, bound_stream_token (tok 5 [("w1", 9); ("w2", 7)]) 8 = Ok b ∧ token_wf b ∧
    (∀ i, pos b i = Z.min (pos (tok 5 [("w1", 9); ("w2", 7)]) i) 8) ∧
    is_before_or_eq b (tok 5 [("w1", 9); ("w2", 7)]) = true ∧
    ∀ c, token_wf c → (∀ i, pos c i ≤ 8) →
      is_before_or_eq c b = is_before_or_eq c (tok 5 [("w1", 9); ("w2", 7)]).
Proof. apply (bound_stream_token_spec (tok 5 [("w1", 9); ("w2", 7)]) 8); check_wf. Defined.

Example ranges_partition_witness :
  let in_range a b := is_stream_position_in_range (Some a) (Some b) (Some "w1") 8 in
  in_range (tok 5 []) (tok 9 []) =
    in_range (tok 5 []) (tok 6 [("w1", 8)]) || in_range (tok 6 [("w1", 8)]) (tok 9 []) ∧
  in_range (tok 5 []) (tok 6 [("w1", 8)]) && in_range (tok 6 [("w1", 8)]) (tok 9 []) = false ∧
  (in_range (tok 5 []) (tok 9 []) = true ↔ pos (tok 5 []) "w1" < 8 ≤ pos (tok 9 []) "w1").
Proof.
  apply (ranges_partition (tok 5 []) (tok 6 [("w1", 8)]) (tok 9 []) "w1" 8);
    [check_wf..|vm_compute; reflexivity|vm_compute; reflexivity|discriminate].
Defined.

Example get_max_stream_pos_spec_witness :
  (∀ i, pos (tok 5 [("w1", 9); ("w2", 7)]) i ≤ get_max_stream_pos (tok 5 [("w1", 9); ("w2", 7)])) ∧
  ∃ i, pos (tok 5 [("w1", 9); ("w2", 7)]) i = get_max_stream_pos (tok 5 [("w1", 9); ("w2", 7)]).
Proof. apply (get_max_stream_pos_spec (tok 5 [("w1", 9); ("w2", 7)])); check_wf. Defined.

(** Writer names numbered by their own text: [w7] has id 7. *)
Definition number_store : InstanceStore := {|
  get_id_for_instance := λ name,
    match name with String "w" ds => default (-1) (int_of_str ds) | _ => -1 end;
  get_name_from_instance_id := λ id, Ok ("w" +:+ str_of_Z id);
|}.

(** A store in which every name has an id: the bijective numbering of strings. *)
Definition encoding_store : InstanceStore := {|
  get_id_for_instance := λ name, Z.pos (encode name);
  get_name_from_instance_id := λ id,
    match id with
    | Z.pos p => match decode p with Some name => Ok name | None => Raise KeyError end
    | _ => Raise KeyError
    end;
|}.

#[export] Instance encoding_store_laws : @InstanceStoreLaws encoding_store.
Proof. intros name. cbn. by rewrite decode_encode. Qed.

Definition sample_token : StreamToken :=
  MkStreamToken (MkRoomToken (tok 56 [("a", 58); ("b", 59)]) None) 17 338 (tok 6 [("r", 9)])
    10 54 27 26 1 37.

Lemma sample_token_wf : stream_token_wf sample_token.
Proof. split_and!; [split; [check_wf | discriminate] | check_wf | done]. Qed.

Example stream_token_roundtrip_witness :
  @token_from_string encoding_store (@token_to_string encoding_store sample_token) =
    Ok sample_token ∧
  let st := {| stream_token := sample_token; connection_position := 5 |} in
  @sliding_from_string encoding_store (@sliding_to_string encoding_store st) = Ok st.
Proof.
  apply (@stream_token_roundtrip encoding_store encoding_store_laws sample_token 5).
  exact sample_token_wf.
Defined.

Example token_advance_monotone_witness :
  let t' := MkStreamToken (MkRoomToken (tok 56 [("a", 58); ("b", 59)]) None) 17 338
              (tok 8 [("r", 9)]) 10 54 27 26 1 37 in
  token_is_before_or_eq sample_token t' = true ∧
  (∀ k, k ≠ RECEIPT → get_field t' k = get_field sample_token k) ∧ groups_key t' = 1 ∧
  field_before_or_eq (FMulti (tok 8 [])) (get_field t' RECEIPT) = true.
Proof.
  apply (token_advance_monotone sample_token RECEIPT (FMulti (tok 8 []))).
  - intros []; try exact I; check_wf.
  - check_wf.
  - vm_compute. reflexivity.
Defined.

(** The check of the constructor tests the truth of [topological], so that it
    lets through depth 0 together with an instance map, which the printed form
    then loses. *)
Example topological_zero_keeps_instance_map :
  let t := MkRoomToken (tok 5 [("w1", 9)]) (Some 0) in
  new_room_token 5 (instance_map (tok 5 [("w1", 9)])) (Some 0) = Ok t ∧
  @room_to_string number_store t = "t0-5" ∧
  @room_parse number_store "t0-5" = Ok (MkRoomToken (tok 5 []) (Some 0)).
Proof. vm_compute. auto. Qed.
