(* ===== verification/StateFilters.v ===== *)
(** * State filters: [synapse/types/state.py]

    Which parts of a room's state a query asks for.  The [types] of a filter map
    an event type to the state keys wanted, or to [None] for all of them; types
    that are not mentioned are wanted when [include_others] is set.

    Dicts and frozensets are finite maps and sets; the lists built by iterating
    over them follow the map's order. *)

From S2P Require Import Prelude PyData RoomVersions Ids Events EventAuth.
From Stdlib Require Import Ascii.

Open Scope Z_scope.

Record StateFilter : Type := MkStateFilter {
  types : gmap string (option (gset string));
  include_others : bool;
}.

(** The constructor with its [__attrs_post_init__]: with [include_others] the
    wildcards are removed. *)
Definition new_filter (types : gmap string (option (gset string))) (include_others : bool)
    : StateFilter :=
  MkStateFilter (if include_others then filter (λ kv, is_Some kv.2) types else types)
    include_others.

Definition all : StateFilter := new_filter ∅ true.
Definition none : StateFilter := new_filter ∅ false.
Definition ALL_NON_MEMBER_STATE_FILTER : StateFilter :=
  new_filter {[EventTypes.Member := Some ∅]} true.

(** The body of the loop of [from_types] *)
Definition add_type (type_dict : gmap string (option (gset string)))
    (p : string * option string) : gmap string (option (gset string)) :=
  let '(typ, s) := p in
  match type_dict !! typ with
  | Some None => type_dict
  | cur =>
      match s with
      | None => <[typ := None]> type_dict
      | Some s => <[typ := Some ({[s]} ∪ match cur with Some (Some ks) => ks | _ => ∅ end)]> type_dict
      end
  end.

Definition from_types (l : list (string * option string)) : StateFilter :=
  new_filter (foldl add_type ∅ l) false.

Definition to_types (f : StateFilter) : list (string * option string) :=
  flat_map (λ p : string * option (gset string),
    match p.2 with
    | None => [(p.1, None)]
    | Some ks => map (λ k, (p.1, Some k)) (elements ks)
    end) (map_to_list (types f)).

Definition from_lazy_load_member_list (members : list string) : StateFilter :=
  new_filter {[EventTypes.Member := Some (list_to_set members)]} true.

(** [freeze]: the mutable contents are already values here *)
Definition freeze (types : gmap string (option (gset string))) (include_others : bool) : StateFilter :=
  new_filter types include_others.

Definition is_full (f : StateFilter) : bool :=
  include_others f && bool_decide (types f = ∅).

Definition has_wildcards (f : StateFilter) : bool :=
  include_others f || existsb (λ p, bool_decide (p.2 = None)) (map_to_list (types f)).

Definition concrete_types (f : StateFilter) : list (string * string) :=
  flat_map (λ p : string * option (gset string),
    match p.2 with
    | Some ks => map (λ k, (p.1, k)) (elements ks)
    | None => []
    end) (map_to_list (types f)).

Definition wildcard_types (f : StateFilter) : list string :=
  flat_map (λ p : string * option (gset string),
    match p.2 with None => [p.1] | Some _ => [] end) (map_to_list (types f)).

(** [key in self] *)
Definition contains (f : StateFilter) (key : string * string) : bool :=
  match types f !! key.1 with
  | Some None => true
  | Some (Some state_keys) => bool_decide (key.2 ∈ state_keys)
  | None => include_others f
  end.

(** [bool(self)] *)
Definition filter_bool (f : StateFilter) : bool :=
  if include_others f then true else negb (bool_decide (types f = ∅)).

Definition max_entries_returned (f : StateFilter) : option nat :=
  if has_wildcards f then None else Some (length (concrete_types f)).

Definition filter_state {A} (f : StateFilter) (state_dict : state_map A) : state_map A :=
  if is_full f then state_dict
  else filter (λ kv : (string * string) * A,
         match types f !! kv.1.1 with
         | Some None => true
         | Some (Some state_keys) => bool_decide (kv.1.2 ∈ state_keys)
         | None => include_others f
         end = true) state_dict.

Definition return_expanded (f : StateFilter) : StateFilter :=
  if is_full f then f
  else if negb (has_wildcards f) then f
  else
    let get_all_members :=
      match types f !! EventTypes.Member with
      | Some ks => bool_decide (ks = None)
      | None => include_others f
      end in
    let has_non_member_wildcard :=
      include_others f ||
      existsb (λ p, bool_decide (p.2 = None))
        (List.filter (λ p, bool_decide (p.1 ≠ EventTypes.Member)) (map_to_list (types f))) in
    if negb has_non_member_wildcard then f
    else if get_all_members then all
    else match types f !! EventTypes.Member with
         | Some ks => new_filter {[EventTypes.Member := ks]} true
         | None => ALL_NON_MEMBER_STATE_FILTER
         end.

(** ** The SQL clause *)

(** The disjuncts the clause is built from, each with its arguments. *)
Inductive sql_clause : Type :=
  | SqlNothing
  | SqlType (etype : string)
  | SqlTypeKey (etype state_key : string)
  | SqlTypeNotIn (etypes : list string).

Definition sql_text (c : sql_clause) : string :=
  match c with
  | SqlNothing => "1 = 2"
  | SqlType _ => "(type = ?)"
  | SqlTypeKey _ _ => "(type = ? AND state_key = ?)"
  | SqlTypeNotIn l => "type NOT IN (" +:+ str_join "," (map (λ _, "?") l) +:+ ")"
  end.

Definition sql_args (c : sql_clause) : list string :=
  match c with
  | SqlNothing => []
  | SqlType t => [t]
  | SqlTypeKey t k => [t; k]
  | SqlTypeNotIn l => l
  end.

Definition sql_clauses (f : StateFilter) : list sql_clause :=
  if is_full f then []
  else if negb (include_others f) && bool_decide (types f = ∅) then [SqlNothing]
  else
    flat_map (λ p : string * option (gset string),
      match p.2 with
      | None => [SqlType p.1]
      | Some ks => map (SqlTypeKey p.1) (elements ks)
      end) (map_to_list (types f))
    ++ (if include_others f then [SqlTypeNotIn (map fst (map_to_list (types f)))] else []).

(** [" OR ".join(l)] *)
Fixpoint join_or (l : list string) : string :=
  match l with
  | [] => ""
  | [s] => s
  | s :: l => s +:+ " OR " +:+ join_or l
  end.

Definition make_sql_filter_clause (f : StateFilter) : string * list string :=
  let cs := sql_clauses f in
  (join_or (map sql_text cs), flat_map sql_args cs).

(** ** Splitting and subtracting *)

Definition get_member_split (f : StateFilter) : StateFilter * StateFilter :=
  let member_filter :=
    match types f !! EventTypes.Member with
    | Some None => all
    | Some (Some state_keys) => new_filter {[EventTypes.Member := Some state_keys]} false
    | None => if include_others f then all else none
    end in
  (member_filter, new_filter (delete EventTypes.Member (types f)) (include_others f)).

Definition decompose_into_four_parts (f : StateFilter)
    : (bool * gset string) * (gset string * gset (string * string)) :=
  ((include_others f, if include_others f then dom (types f) else ∅),
   (list_to_set (wildcard_types f), list_to_set (concrete_types f))).

(** The body of the loop over [plus_state_keys] *)
Definition add_state_key (all_part : bool) (new_types : gmap string (option (gset string)))
    (k : string * string) : gmap string (option (gset string)) :=
  match new_types !! k.1 with
  | Some None => new_types
  | Some (Some entry) => <[k.1 := Some ({[k.2]} ∪ entry)]> new_types
  | None => if all_part then new_types else <[k.1 := Some {[k.2]}]> new_types
  end.

Definition recompose_from_four_parts (all_part : bool) (minus_wildcards plus_wildcards : gset string)
    (plus_state_keys : gset (string * string)) : StateFilter :=
  let new_types : gmap string (option (gset string)) :=
    if all_part then set_to_map (λ t, (t, Some ∅)) minus_wildcards else ∅ in
  let new_types : gmap string (option (gset string)) :=
    set_to_map (λ t, (t, None)) plus_wildcards ∪ new_types in
  freeze (foldl (add_state_key all_part) new_types (elements plus_state_keys)) all_part.

Definition approx_difference (self other : StateFilter) : StateFilter :=
  let '((self_all, self_excludes), (self_wildcards, self_concrete_keys)) :=
    decompose_into_four_parts self in
  let '((other_all, other_excludes), (other_wildcards, other_concrete_keys)) :=
    decompose_into_four_parts other in
  let new_excludes := self_excludes ∪ other_wildcards in
  let new_wildcards := self_wildcards ∖ other_wildcards in
  let new_concrete_keys :=
    filter (λ k, k.1 ∉ other_wildcards) self_concrete_keys ∖ other_concrete_keys in
  if other_all then
    let new_wildcards :=
      (if self_all then new_wildcards ∪ (other_excludes ∖ self_excludes) else new_wildcards)
      ∩ other_excludes in
    recompose_from_four_parts false ∅ new_wildcards
      (filter (λ k, k.1 ∈ other_excludes) new_concrete_keys)
  else recompose_from_four_parts self_all new_excludes new_wildcards new_concrete_keys.

Definition must_await_full_state (is_mine_id : string → bool) (f : StateFilter) : bool :=
  match types f !! EventTypes.Member with
  | None => include_others f
  | Some None => true
  | Some (Some member_state_keys) => existsb (λ k, negb (is_mine_id k)) (elements member_state_keys)
  end.

(** ** Facts *)

(** What [__attrs_post_init__] establishes. *)
Definition canonical (f : StateFilter) : Prop :=
  include_others f = true → ∀ t, types f !! t ≠ Some None.

Lemma new_filter_types m io t :
  types (new_filter m io) !! t =
  match m !! t with Some None => if io then None else Some None | o => o end.
Proof.
  unfold new_filter. cbn [types]. destruct io; [|by destruct (m !! t) as [[]|]].
  destruct (m !! t) as [[ks|]|] eqn:E.
  - apply map_lookup_filter_Some. eauto.
  - apply map_lookup_filter_None. right. intros x Hx [y Hy]. cbn in Hy. congruence.
  - apply map_lookup_filter_None. by left.
Qed.

Lemma new_filter_canonical m io : canonical (new_filter m io).
Proof. intros Hio t. rewrite new_filter_types. cbn in Hio. subst io. by repeat case_match. Qed.

Lemma contains_new_filter m io t k :
  contains (new_filter m io) (t, k) =
  match m !! t with Some None => true | Some (Some ks) => bool_decide (k ∈ ks) | None => io end.
Proof.
  unfold contains. cbn [fst snd]. rewrite new_filter_types. cbn [include_others new_filter].
  destruct (m !! t) as [[]|]; destruct io; done.
Qed.

Lemma elem_of_flat_map {A B} (g : A → list B) l y :
  y ∈ flat_map g l ↔ ∃ x, x ∈ l ∧ y ∈ g x.
Proof.
  rewrite list_elem_of_In, in_flat_map.
  split; intros (x & H1 & H2); exists x; rewrite ?list_elem_of_In in *; done.
Qed.

Lemma elem_of_map_list {A B} (g : A → B) l y : y ∈ map g l ↔ ∃ x, y = g x ∧ x ∈ l.
Proof.
  rewrite list_elem_of_In, in_map_iff.
  split; intros (x & H1 & H2); exists x; rewrite ?list_elem_of_In in *; done.
Qed.

Lemma elem_of_concrete_types f t k :
  (t, k) ∈ concrete_types f ↔ ∃ ks, types f !! t = Some (Some ks) ∧ k ∈ ks.
Proof.
  unfold concrete_types. rewrite elem_of_flat_map. split.
  - intros ([t' o] & Hin%elem_of_map_to_list & Hk). cbn in Hk. destruct o as [ks|].
    + apply elem_of_map_list in Hk as (k' & [= -> ->] & Hk%elem_of_elements). eauto.
    + by apply not_elem_of_nil in Hk.
  - intros (ks & Ht & Hk). exists (t, Some ks). split; [by apply elem_of_map_to_list|].
    cbn. apply elem_of_map_list. exists k. split; [done|]. by apply elem_of_elements.
Qed.

Lemma elem_of_wildcard_types f t : t ∈ wildcard_types f ↔ types f !! t = Some None.
Proof.
  unfold wildcard_types. rewrite elem_of_flat_map. split.
  - intros ([t' o] & Hin%elem_of_map_to_list & Hk). cbn in Hk. destruct o.
    + by apply not_elem_of_nil in Hk.
    + apply list_elem_of_singleton in Hk as ->. done.
  - intros Ht. exists (t, None). split; [by apply elem_of_map_to_list|]. by apply list_elem_of_singleton.
Qed.

Lemma existsb_wildcard l :
  existsb (λ p : string * option (gset string), bool_decide (p.2 = None)) l = true ↔
  ∃ t, (t, None) ∈ l.
Proof.
  rewrite existsb_exists. split.
  - intros ([t o] & Hin & Ho). to_prop. cbn in Ho. subst o. exists t. by apply list_elem_of_In.
  - intros (t & Hin). exists (t, None). split; [by apply list_elem_of_In|done].
Qed.

Lemma has_wildcards_true f :
  has_wildcards f = true ↔ include_others f = true ∨ ∃ t, types f !! t = Some None.
Proof.
  unfold has_wildcards. rewrite orb_true_iff, existsb_wildcard.
  setoid_rewrite elem_of_map_to_list. done.
Qed.

Lemma is_full_contains f key : is_full f = true → contains f key = true.
Proof.
  unfold is_full, contains. intros Hf. to_prop.
  match goal with E : types f = ∅ |- _ => rewrite E, lookup_empty end. done.
Qed.

(** Adding state keys to the types of a filter under construction. *)
Lemma add_state_keys_lookup a l m t :
  let r := foldl (add_state_key a) m l in
  match m !! t with
  | Some None => r !! t = Some None
  | Some (Some e) => ∃ e', r !! t = Some (Some e') ∧ ∀ k, k ∈ e' ↔ k ∈ e ∨ (t, k) ∈ l
  | None =>
      if a then r !! t = None
      else (r !! t = None ∧ ∀ k, (t, k) ∉ l) ∨
           ∃ e', r !! t = Some (Some e') ∧ ∀ k, k ∈ e' ↔ (t, k) ∈ l
  end.
Proof.
  revert m. induction l as [|[t0 k0] l IH]; intros m; cbn [foldl].
  { destruct (m !! t) as [[e|]|]; [|done|].
    - exists e. split; [done|]. intros k. set_solver.
    - destruct a; [done|]. left. split; [done|]. intros k. apply not_elem_of_nil. }
  specialize (IH (add_state_key a m (t0, k0))). revert IH.
  set (r := foldl _ _ l). unfold add_state_key. cbn [fst snd].
  destruct (decide (t0 = t)) as [->|Hne].
  - destruct (m !! t) as [[e|]|] eqn:Em.
    + rewrite lookup_insert_eq. intros (e' & He' & Hk). exists e'. split; [done|].
      intros k. rewrite Hk, elem_of_cons, elem_of_union, elem_of_singleton. naive_solver.
    + by rewrite Em.
    + destruct a; [by rewrite Em|]. rewrite lookup_insert_eq.
      intros (e' & He' & Hk). right. exists e'. split; [done|].
      intros k. rewrite Hk, elem_of_cons, elem_of_singleton. naive_solver.
  - assert (∀ k, (t, k) ∈ (t0, k0) :: l ↔ (t, k) ∈ l) as Hl.
    { intros k. rewrite elem_of_cons. naive_solver. }
    replace (match m !! t0 with
             | Some (Some entry) => <[t0:=Some ({[k0]} ∪ entry)]> m
             | Some None => m
             | None => if a then m else <[t0:=Some {[k0]}]> m
             end !! t) with (m !! t)
      by (repeat case_match; rewrite ?lookup_insert_ne by done; done).
    intros IH. destruct (m !! t) as [[e|]|]; [|done|].
    + destruct IH as (e' & ? & Hk). exists e'. split; [done|]. intros k. by rewrite Hk, Hl.
    + destruct a; [done|]. destruct IH as [[? Hk]|(e' & ? & Hk)].
      * left. split; [done|]. intros k. by rewrite Hl.
      * right. exists e'. split; [done|]. intros k. by rewrite Hk, Hl.
Qed.

Lemma lookup_set_to_map_const (X : gset string) (o : option (gset string)) t :
  (set_to_map (λ t, (t, o)) X : gmap string (option (gset string))) !! t =
  if decide (t ∈ X) then Some o else None.
Proof.
  case_decide as Ht.
  - apply lookup_set_to_map; [naive_solver|]. exists t. done.
  - apply eq_None_not_Some. intros [v Hv].
    apply lookup_set_to_map in Hv as (t' & Ht' & [= -> ->]); [done|naive_solver].
Qed.

(** A filter recomposed from four parts includes what the parts say. *)
Lemma recompose_contains a mw pw ks t k :
  contains (recompose_from_four_parts a mw pw ks) (t, k) = true ↔
  t ∈ pw ∨ (if a then t ∉ mw ∨ (t, k) ∈ ks else (t, k) ∈ ks).
Proof.
  unfold recompose_from_four_parts, freeze.
  set (m := set_to_map (λ t, (t, None)) pw ∪ _). rewrite contains_new_filter.
  pose proof (add_state_keys_lookup a (elements ks) m t) as Hr. cbn zeta in Hr.
  assert (m !! t = if decide (t ∈ pw) then Some None
                   else if a then if decide (t ∈ mw) then Some (Some ∅) else None else None) as Hm.
  { unfold m. rewrite lookup_union, lookup_set_to_map_const.
    destruct a; rewrite ?lookup_set_to_map_const, ?lookup_empty; repeat case_decide; done. }
  rewrite Hm in Hr. clearbody m. clear Hm.
  destruct (decide (t ∈ pw)) as [Hp|Hp]; [rewrite Hr; naive_solver|].
  destruct a.
  - destruct (decide (t ∈ mw)) as [Hmw|Hmw].
    + destruct Hr as (e' & -> & Hk). rewrite bool_decide_eq_true, Hk, elem_of_elements. set_solver.
    + rewrite Hr. naive_solver.
  - destruct Hr as [[-> Hk]|(e' & -> & Hk)].
    + split; [done|]. intros [?|Hin]; [done|]. by apply elem_of_elements, Hk in Hin.
    + rewrite bool_decide_eq_true, Hk, elem_of_elements. naive_solver.
Qed.

(** The four parts of a filter describe it. *)
Lemma contains_parts f t k :
  contains f (t, k) = true ↔
  types f !! t = Some None ∨
  (if include_others f then t ∉ dom (types f) ∨ (t, k) ∈ concrete_types f
   else (t, k) ∈ concrete_types f).
Proof.
  unfold contains. cbn [fst snd].
  destruct (include_others f); rewrite elem_of_concrete_types, ?not_elem_of_dom;
    destruct (types f !! t) as [[ks|]|]; rewrite ?bool_decide_eq_true; naive_solver.
Qed.

Lemma concrete_in_dom f t k : (t, k) ∈ concrete_types f → t ∈ dom (types f) ∧ types f !! t ≠ Some None.
Proof. rewrite elem_of_concrete_types. intros (ks & Ht & _). split; [by apply elem_of_dom|congruence]. Qed.

(** What the difference of two filters includes, part by part. *)
Lemma approx_difference_contains self other t k :
  let W f := types f !! t = Some None in
  let D f := t ∈ dom (types f) in
  let C f := (t, k) ∈ concrete_types f in
  contains (approx_difference self other) (t, k) = true ↔
  if include_others other then
    if include_others self then
      (((W self ∧ ¬ W other) ∨ (D other ∧ ¬ D self)) ∧ D other)
      ∨ (D other ∧ (¬ W other ∧ C self) ∧ ¬ C other)
    else ((W self ∧ ¬ W other) ∧ D other) ∨ (D other ∧ (¬ W other ∧ C self) ∧ ¬ C other)
  else if include_others self then
    (W self ∧ ¬ W other) ∨ ¬ (D self ∨ W other) ∨ ((¬ W other ∧ C self) ∧ ¬ C other)
  else (W self ∧ ¬ W other) ∨ ((¬ W other ∧ C self) ∧ ¬ C other).
Proof.
  intros W D C. unfold approx_difference, decompose_into_four_parts, W, D, C.
  destruct (include_others other), (include_others self); rewrite recompose_contains;
    rewrite ?elem_of_intersection, ?elem_of_union, ?elem_of_difference, ?elem_of_filter,
      ?elem_of_difference, ?elem_of_filter, ?elem_of_list_to_set, ?elem_of_wildcard_types;
    cbn [fst]; rewrite ?elem_of_list_to_set, ?elem_of_wildcard_types; done.
Qed.

(** ** The guarantees *)

(** [approx_difference] keeps its contract: the difference includes everything
    this filter includes and the other does not, and nothing that this filter
    does not include; and taking a filter apart and putting it together again
    gives a filter that includes the same state. *)
Theorem approx_difference_spec self other t k :
  canonical self → canonical other →
  (contains self (t, k) = true → contains other (t, k) = false →
   contains (approx_difference self other) (t, k) = true) ∧
  (contains (approx_difference self other) (t, k) = true → contains self (t, k) = true) ∧
  let '((a, mw), (pw, ks)) := decompose_into_four_parts self in
  contains (recompose_from_four_parts a mw pw ks) (t, k) = contains self (t, k).
Proof.
  intros Cs Co. rewrite <- not_true_iff_false.
  pose proof (approx_difference_contains self other t k) as Ha. cbn zeta in Ha. rewrite Ha. clear Ha.
  pose proof (concrete_in_dom self t k) as Ds. pose proof (concrete_in_dom other t k) as Do.
  specialize (λ H, Cs H t). specialize (λ H, Co H t).
  assert (types self !! t = Some None → t ∈ dom (types self)) as Ws by (intros; by apply elem_of_dom).
  assert (types other !! t = Some None → t ∈ dom (types other)) as Wo by (intros; by apply elem_of_dom).
  split_and!; rewrite ?contains_parts.
  - destruct (include_others self), (include_others other);
      destruct (decide (t ∈ dom (types self))), (decide (t ∈ dom (types other))); tauto.
  - destruct (include_others self), (include_others other); tauto.
  - unfold decompose_into_four_parts. apply eq_true_iff_eq.
    rewrite recompose_contains, contains_parts, elem_of_list_to_set, elem_of_wildcard_types.
    destruct (include_others self); by rewrite elem_of_list_to_set.
Qed.

(** [g] includes what [f] includes, the same member events, and has no wildcard
    for other types. *)
Definition expands (f g : StateFilter) : Prop :=
  (∀ t k, contains f (t, k) = true → contains g (t, k) = true) ∧
  (∀ k, contains g (EventTypes.Member, k) = contains f (EventTypes.Member, k)) ∧
  ∀ t, t ≠ EventTypes.Member → types g !! t ≠ Some None.

Lemma expands_refl f : (∀ t, t ≠ EventTypes.Member → types f !! t ≠ Some None) → expands f f.
Proof. by intros Hw. Qed.

Lemma expands_all f :
  (∀ k, contains f (EventTypes.Member, k) = true) → expands f all.
Proof.
  intros Hm. unfold expands, all. split_and!.
  - intros t k _. by rewrite contains_new_filter, lookup_empty.
  - intros k. by rewrite Hm, contains_new_filter, lookup_empty.
  - intros t _. by rewrite new_filter_types, lookup_empty.
Qed.

Lemma expands_others f (ks : gset string) :
  (∀ k, contains f (EventTypes.Member, k) = bool_decide (k ∈ ks)) →
  expands f (new_filter {[EventTypes.Member := Some ks]} true).
Proof.
  intros Hm. split_and!.
  - intros t k. rewrite contains_new_filter. destruct (decide (t = EventTypes.Member)) as [->|Hne].
    + by rewrite Hm, lookup_singleton_eq.
    + by rewrite lookup_singleton_ne.
  - intros k. by rewrite Hm, contains_new_filter, lookup_singleton_eq.
  - intros t Hne. rewrite new_filter_types. by rewrite lookup_singleton_ne.
Qed.

Lemma no_other_wildcards f :
  existsb (λ p : string * option (gset string), bool_decide (p.2 = None))
    (List.filter (λ p, bool_decide (p.1 ≠ EventTypes.Member)) (map_to_list (types f))) = false →
  ∀ t, t ≠ EventTypes.Member → types f !! t ≠ Some None.
Proof.
  intros Hf t Hne Ht. apply not_true_iff_false in Hf. apply Hf, existsb_wildcard. exists t.
  apply list_elem_of_In, filter_In. split; [|by apply bool_decide_eq_true].
  by apply list_elem_of_In, elem_of_map_to_list.
Qed.

Lemma return_expanded_expands f : canonical f → expands f (return_expanded f).
Proof.
  intros Cf. unfold return_expanded. destruct (is_full f) eqn:Ef.
  { apply expands_refl. intros t _ Ht. unfold is_full in Ef. to_prop. by apply Cf in Ht. }
  destruct (has_wildcards f) eqn:Ew; cbn [negb].
  2: { apply expands_refl. intros t _ Ht. apply not_true_iff_false in Ew.
       apply Ew, has_wildcards_true. eauto. }
  destruct (include_others f || _) eqn:En; cbn [negb].
  2: { apply orb_false_iff in En as [_ En]. by apply expands_refl, no_other_wildcards. }
  destruct (types f !! EventTypes.Member) as [[ks|]|] eqn:Em;
    [rewrite bool_decide_eq_false_2 by done|rewrite bool_decide_eq_true_2 by done|].
  - apply expands_others. intros k. unfold contains. cbn [fst snd]. by rewrite Em.
  - apply expands_all. intros k. unfold contains. cbn [fst snd]. by rewrite Em.
  - destruct (include_others f) eqn:Ei.
    + apply expands_all. intros k. unfold contains. cbn [fst snd]. by rewrite Em, Ei.
    + apply expands_others. intros k. unfold contains. cbn [fst snd]. rewrite Em, Ei.
      symmetry. by apply bool_decide_eq_false_2, not_elem_of_empty.
Qed.

(** [return_expanded] gives a superset that leaves member events alone: what
    passes the filter passes the expanded one, exactly the same member events
    pass both, and no wildcard is left for another type. *)
Theorem return_expanded_spec f t k :
  canonical f →
  (contains f (t, k) = true → contains (return_expanded f) (t, k) = true) ∧
  contains (return_expanded f) (EventTypes.Member, k) = contains f (EventTypes.Member, k) ∧
  (t ≠ EventTypes.Member → types (return_expanded f) !! t ≠ Some None).
Proof. intros Cf. destruct (return_expanded_expands f Cf) as (H1 & H2 & H3). auto. Qed.

(** [get_member_split] splits a filter along the two caches: against member
    state its first half, and against other state its second half, includes
    exactly what the filter includes. *)
Theorem get_member_split_spec f t k :
  canonical f →
  contains (get_member_split f).1 (EventTypes.Member, k) = contains f (EventTypes.Member, k) ∧
  (t ≠ EventTypes.Member → contains (get_member_split f).2 (t, k) = contains f (t, k)).
Proof.
  intros Cf. unfold get_member_split. cbn [fst snd]. split.
  - unfold contains at 2. cbn [fst snd].
    destruct (types f !! EventTypes.Member) as [[ks|]|] eqn:E; unfold all, none.
    + by rewrite contains_new_filter, lookup_singleton_eq.
    + by rewrite contains_new_filter, lookup_empty.
    + destruct (include_others f); by rewrite contains_new_filter, lookup_empty.
  - intros Hne. rewrite contains_new_filter, lookup_delete_ne by done.
    unfold contains. cbn [fst snd]. done.
Qed.

Lemma filter_state_lookup {A} (f : StateFilter) (st : state_map A) (key : string * string) :
  filter_state f st !! key = if contains f key then st !! key else None.
Proof.
  unfold filter_state. destruct (is_full f) eqn:Ef; [by rewrite is_full_contains|].
  destruct (contains f key) eqn:Ec.
  - destruct (st !! key) as [v|] eqn:E.
    + apply map_lookup_filter_Some. split; [done|]. exact Ec.
    + apply map_lookup_filter_None. by left.
  - apply map_lookup_filter_None. right. intros v _ Hv. unfold contains in Ec. cbn in Hv. congruence.
Qed.

(** [filter_state] keeps exactly the entries the filter contains. *)
Theorem filter_state_spec {A} (f : StateFilter) (st : state_map A) (key : string * string) :
  filter_state f st !! key = if contains f key then st !! key else None.
Proof. apply filter_state_lookup. Qed.

(** The dict built by the loop of [from_types]. *)
Lemma foldl_add_type l t :
  match foldl add_type ∅ l !! t with
  | Some None => (t, None) ∈ l
  | Some (Some ks) => (t, None) ∉ l ∧ ∀ k, k ∈ ks ↔ (t, Some k) ∈ l
  | None => ∀ o, (t, o) ∉ l
  end.
Proof.
  induction l as [|[t0 o] l IH] using rev_ind.
  { cbn [foldl]. rewrite lookup_empty. intros. apply not_elem_of_nil. }
  rewrite foldl_app. cbn [foldl]. revert IH. generalize (foldl add_type ∅ l). intros m IH.
  assert (∀ x, (t, x) ∈ l ++ [(t0, o)] ↔ (t, x) ∈ l ∨ (t = t0 ∧ x = o)) as Hl.
  { intros x. rewrite elem_of_app, list_elem_of_singleton. naive_solver. }
  destruct (decide (t0 = t)) as [->|Hne].
  - unfold add_type. destruct (m !! t) as [[ks|]|] eqn:Em.
    + destruct o as [s|]; rewrite lookup_insert_eq; [|apply Hl; auto].
      destruct IH as [Hn Hk]. split.
      * rewrite Hl. naive_solver.
      * intros k. rewrite Hl, elem_of_union, elem_of_singleton, Hk. naive_solver.
    + rewrite Em. apply Hl. by left.
    + destruct o as [s|]; rewrite lookup_insert_eq; [|apply Hl; auto]. split.
      * rewrite Hl. naive_solver.
      * intros k. rewrite Hl, elem_of_union, elem_of_singleton. set_solver.
  - assert (add_type m (t0, o) !! t = m !! t) as ->
      by (unfold add_type; repeat case_match; rewrite ?lookup_insert_ne by done; done).
    destruct (m !! t) as [[ks|]|].
    + split; [rewrite Hl; naive_solver|]. intros k. rewrite Hl, (proj2 IH). naive_solver.
    + apply Hl. by left.
    + intros x. rewrite Hl. naive_solver.
Qed.

Lemma from_types_contains l t k :
  contains (from_types l) (t, k) = true ↔ (t, None) ∈ l ∨ (t, Some k) ∈ l.
Proof.
  unfold from_types. rewrite contains_new_filter. pose proof (foldl_add_type l t) as Ht.
  destruct (foldl add_type ∅ l !! t) as [[ks|]|].
  - rewrite bool_decide_eq_true, (proj2 Ht). naive_solver.
  - naive_solver.
  - naive_solver.
Qed.

Lemma elem_of_to_types f t o :
  (t, o) ∈ to_types f ↔
  match o with
  | None => types f !! t = Some None
  | Some k => ∃ ks, types f !! t = Some (Some ks) ∧ k ∈ ks
  end.
Proof.
  unfold to_types. rewrite elem_of_flat_map. split.
  - intros ([t' [ks|]] & Hin%elem_of_map_to_list & Ho); cbn [fst snd] in *.
    + apply elem_of_map_list in Ho as (k & [= -> ->] & Hk%elem_of_elements). eauto.
    + apply list_elem_of_singleton in Ho as [= -> ->]. done.
  - destruct o as [k|].
    + intros (ks & Ht & Hk). exists (t, Some ks). split; [by apply elem_of_map_to_list|].
      cbn. apply elem_of_map_list. exists k. split; [done|]. by apply elem_of_elements.
    + intros Ht. exists (t, None). split; [by apply elem_of_map_to_list|].
      by apply list_elem_of_singleton.
Qed.

(** [from_types] includes exactly the state asked for, a [None] state key
    asking for the whole type, and it undoes [to_types] for the filters that do
    not include other types. *)
Theorem from_types_spec :
  (∀ l t k, contains (from_types l) (t, k) = true ↔ (t, None) ∈ l ∨ (t, Some k) ∈ l) ∧
  (∀ f key, include_others f = false → contains (from_types (to_types f)) key = contains f key).
Proof.
  split; [apply from_types_contains|]. intros f [t k] Hf. apply eq_true_iff_eq.
  rewrite from_types_contains, !elem_of_to_types. unfold contains. cbn [fst snd]. rewrite Hf.
  destruct (types f !! t) as [[ks|]|]; rewrite ?bool_decide_eq_true; naive_solver.
Qed.

(** ** The SQL clause *)

(** Whether a row of type [t] and state key [k] satisfies a disjunct, and a
    clause; an empty clause is no restriction. *)
Definition sql_holds (c : sql_clause) (t k : string) : bool :=
  match c with
  | SqlNothing => false
  | SqlType t' => bool_decide (t = t')
  | SqlTypeKey t' k' => bool_decide (t = t' ∧ k = k')
  | SqlTypeNotIn l => bool_decide (t ∉ l)
  end.

Definition sql_matches (cs : list sql_clause) (t k : string) : bool :=
  bool_decide (cs = []) || existsb (λ c, sql_holds c t k) cs.

Lemma join_or_empty l : Forall (λ s, s ≠ "") l → join_or l = "" ↔ l = [].
Proof.
  destruct 1 as [|s l Hs Hl]; [done|]. split; [|done].
  destruct s as [|c s]; [done|]. by destruct l.
Qed.

Lemma sql_text_nonempty c : sql_text c ≠ "".
Proof. by destruct c. Qed.

Lemma sql_clauses_holds f t k :
  is_full f = false →
  existsb (λ c, sql_holds c t k) (sql_clauses f) = true ↔ contains f (t, k) = true.
Proof.
  intros Hf. unfold sql_clauses. rewrite Hf.
  destruct (negb (include_others f) && bool_decide (types f = ∅)) eqn:E.
  { to_prop. cbn. unfold contains. match goal with E : types f = ∅ |- _ => rewrite E, lookup_empty end.
    by match goal with E : include_others f = false |- _ => rewrite E end. }
  clear E. rewrite existsb_app, orb_true_iff.
  assert (existsb (λ c, sql_holds c t k)
    (flat_map (λ p : string * option (gset string),
      match p.2 with None => [SqlType p.1] | Some ks => map (SqlTypeKey p.1) (elements ks) end)
      (map_to_list (types f))) = true ↔
    types f !! t = Some None ∨ (t, k) ∈ concrete_types f) as ->.
  { rewrite existsb_exists, elem_of_concrete_types. split.
    - intros (c & Hin & Hc). apply list_elem_of_In, elem_of_flat_map in Hin
        as ([t' [ks|]] & Hin%elem_of_map_to_list & Hc'); cbn [fst snd] in *.
      + apply elem_of_map_list in Hc' as (k' & -> & Hk%elem_of_elements). cbn in Hc. to_prop.
        destruct Hc as [-> ->]. right. eauto.
      + apply list_elem_of_singleton in Hc' as ->. cbn in Hc. to_prop. subst. by left.
    - intros [Ht|(ks & Ht & Hk)].
      + exists (SqlType t). split; [|by apply bool_decide_eq_true].
        apply list_elem_of_In, elem_of_flat_map. exists (t, None).
        split; [by apply elem_of_map_to_list | by apply list_elem_of_singleton].
      + exists (SqlTypeKey t k). split; [|by apply bool_decide_eq_true].
        apply list_elem_of_In, elem_of_flat_map. exists (t, Some ks).
        split; [by apply elem_of_map_to_list|]. cbn. apply elem_of_map_list. exists k.
        split; [done|]. by apply elem_of_elements. }
  rewrite contains_parts. destruct (include_others f); cbn; [|naive_solver].
  rewrite orb_false_r, bool_decide_eq_true.
  assert (t ∈ map fst (map_to_list (types f)) ↔ t ∈ dom (types f)) as ->.
  { rewrite elem_of_map_list, elem_of_dom. split.
    - intros ([t' o] & -> & Hin%elem_of_map_to_list). eauto.
    - intros [o Ho]. exists (t, o). split; [done|]. by apply elem_of_map_to_list. }
  naive_solver.
Qed.

(** Some state passes the filter, or no type is mentioned. *)
Definition sql_expressible (f : StateFilter) : Prop :=
  types f = ∅ ∨ ∃ key, contains f key = true.

Lemma sql_clauses_nil f : sql_expressible f → sql_clauses f = [] ↔ is_full f = true.
Proof.
  intros He. destruct (is_full f) eqn:Ef; [unfold sql_clauses; by rewrite Ef|].
  split; [|done]. intros Hn. destruct He as [He|[[t k] Hk]].
  - unfold sql_clauses in Hn. rewrite Ef in Hn. unfold is_full in Ef.
    rewrite bool_decide_eq_true_2, andb_true_r in Ef, Hn by done. by rewrite Ef in Hn.
  - apply sql_clauses_holds in Hk; [|done]. by rewrite Hn in Hk.
Qed.

(** The SQL clause selects exactly the rows the filter contains, and is empty
    (no restriction) exactly for the full filter, provided that some state
    passes the filter or that it mentions no type. *)
Theorem sql_filter_clause_spec f t k :
  sql_expressible f →
  sql_matches (sql_clauses f) t k = contains f (t, k) ∧
  ((make_sql_filter_clause f).1 = "" ↔ is_full f = true).
Proof.
  intros He. pose proof (sql_clauses_nil f He) as Hn. split.
  - unfold sql_matches. destruct (is_full f) eqn:Ef.
    + rewrite (proj2 Hn), is_full_contains by done. done.
    + rewrite bool_decide_eq_false_2 by (intros Hc; apply Hn in Hc; done). cbn [orb].
      apply eq_true_iff_eq. by apply sql_clauses_holds.
  - rewrite <- Hn. unfold make_sql_filter_clause. cbn [fst].
    rewrite join_or_empty by (apply Forall_map, Forall_true; intros; apply sql_text_nonempty).
    split; [apply map_eq_nil | by intros ->].
Qed.

(** A filter that names types but wants none of their state keys, and does not
    include other types, gets the empty clause: the query is not restricted
    although nothing passes the filter. *)
Theorem sql_clause_of_empty_key_sets (ts : gset string) t k :
  ts ≠ ∅ →
  let f := freeze (set_to_map (λ t, (t, Some ∅)) ts) false in
  contains f (t, k) = false ∧ make_sql_filter_clause f = ("", []) ∧
  sql_matches (sql_clauses f) t k = true.
Proof.
  intros Hne f.
  assert (∀ t' o, types f !! t' = Some o → o = Some ∅) as Ht.
  { intros t' o. unfold f, freeze. rewrite new_filter_types, lookup_set_to_map_const.
    case_decide; congruence. }
  assert (sql_clauses f = []) as Hs.
  { unfold sql_clauses. cbn [is_full include_others f freeze new_filter andb negb].
    rewrite bool_decide_eq_false_2.
    2: { intros E. apply Hne. apply set_eq. intros t'. split; [|by intros ?%not_elem_of_empty].
         intros Hin. exfalso. apply (f_equal (.!! t')) in E. unfold f, freeze in E.
         rewrite new_filter_types, lookup_set_to_map_const, lookup_empty, decide_True in E by done.
         done. }
    rewrite app_nil_r.
    assert (∀ l, (∀ t' o, (t', o) ∈ l → o = Some ∅) →
      flat_map (λ p : string * option (gset string),
        match p.2 with None => [SqlType p.1] | Some ks => map (SqlTypeKey p.1) (elements ks) end) l
      = []) as Hl.
    { intros l Hl. induction l as [|[t' o] l IH]; [done|]. cbn.
      rewrite (Hl t' o) by (by left). rewrite elements_empty. cbn. apply IH. intros. eapply Hl. by right. }
    apply Hl. intros t' o Hin%elem_of_map_to_list. by eapply Ht. }
  split_and!.
  - unfold contains. cbn [fst snd]. destruct (types f !! t) as [o|] eqn:E; [|done].
    rewrite (Ht _ _ E). by apply bool_decide_eq_false_2, not_elem_of_empty.
  - unfold make_sql_filter_clause. by rewrite Hs.
  - by rewrite Hs.
Qed.

(** [max_entries_returned] bounds the size of a filtered state. *)
Theorem max_entries_returned_spec {A} (f : StateFilter) (n : nat) (st : state_map A) :
  max_entries_returned f = Some n → (size (filter_state f st) ≤ n)%nat.
Proof.
  unfold max_entries_returned. destruct (has_wildcards f) eqn:Ew; [done|]. intros [= <-].
  rewrite <- size_dom. transitivity (size (list_to_set (concrete_types f) : gset (string * string))).
  - apply subseteq_size. intros [t k] Hin. apply elem_of_dom in Hin as [v Hv].
    rewrite filter_state_lookup in Hv. destruct (contains f (t, k)) eqn:Ec; [|done].
    apply elem_of_list_to_set. apply contains_parts in Ec as [Hn|Hc].
    + exfalso. apply not_true_iff_false in Ew. apply Ew, has_wildcards_true. eauto.
    + destruct (include_others f) eqn:Ei; [|done]. exfalso. apply not_true_iff_false in Ew.
      apply Ew, has_wildcards_true. by left.
  - generalize (concrete_types f). intros l. induction l as [|x l IH]; [done|].
    cbn [list_to_set length]. pose proof (size_union_alt {[x]} (list_to_set l : gset (string * string))) as Hu.
    rewrite size_singleton in Hu.
    pose proof (subseteq_size (list_to_set l ∖ {[x]} : gset (string * string)) (list_to_set l)
      ltac:(set_solver)). rewrite Hu. lia.
Qed.

(** When [must_await_full_state] says there is no need to wait, every
    membership the filter includes is of a local user. *)
Theorem must_await_full_state_spec is_mine_id f u :
  must_await_full_state is_mine_id f = false →
  contains f (EventTypes.Member, u) = true → is_mine_id u = true.
Proof.
  unfold must_await_full_state, contains. cbn [fst snd].
  destruct (types f !! EventTypes.Member) as [[ks|]|]; [|done|congruence].
  intros Hf Hk. to_prop. destruct (is_mine_id u) eqn:E; [done|].
  exfalso. apply not_true_iff_false in Hf. apply Hf, existsb_exists. exists u.
  split; [by apply list_elem_of_In, elem_of_elements | by rewrite E].
Qed.

(** ** Instances *)

(** All state but members, minus the topic and Alice's membership. *)
Example approx_difference_spec_witness :
  let self := from_lazy_load_member_list ["@alice:hs"; "@bob:hs"] in
  let other := from_types [("m.room.topic", None); (EventTypes.Member, Some "@alice:hs")] in
  (contains self (EventTypes.Member, "@bob:hs") = true →
   contains other (EventTypes.Member, "@bob:hs") = false →
   contains (approx_difference self other) (EventTypes.Member, "@bob:hs") = true) ∧
  (contains (approx_difference self other) (EventTypes.Member, "@bob:hs") = true →
   contains self (EventTypes.Member, "@bob:hs") = true) ∧
  let '((a, mw), (pw, ks)) := decompose_into_four_parts self in
  contains (recompose_from_four_parts a mw pw ks) (EventTypes.Member, "@bob:hs") =
    contains self (EventTypes.Member, "@bob:hs").
Proof.
  intros self other.
  exact (approx_difference_spec self other EventTypes.Member "@bob:hs"
    (new_filter_canonical _ _) (new_filter_canonical _ _)).
Defined.

Example return_expanded_spec_witness :
  let f := from_types [("m.room.topic", None); (EventTypes.Member, Some "@alice:hs")] in
  (contains f ("m.room.topic", "") = true → contains (return_expanded f) ("m.room.topic", "") = true) ∧
  contains (return_expanded f) (EventTypes.Member, "") = contains f (EventTypes.Member, "") ∧
  ("m.room.topic" ≠ EventTypes.Member → types (return_expanded f) !! "m.room.topic" ≠ Some None).
Proof.
  intros f. exact (return_expanded_spec f "m.room.topic" "" (new_filter_canonical _ _)).
Defined.

Example sql_filter_clause_spec_witness :
  let f := from_types [("m.room.topic", Some "")] in
  sql_matches (sql_clauses f) "m.room.name" "" = contains f ("m.room.name", "") ∧
  ((make_sql_filter_clause f).1 = "" ↔ is_full f = true).
Proof.
  apply (sql_filter_clause_spec (from_types [("m.room.topic", Some "")]) "m.room.name" "").
  right. exists ("m.room.topic", ""). vm_compute. reflexivity.
Defined.

Example sql_clause_of_empty_key_sets_witness :
  let f := freeze (set_to_map (λ t, (t, Some ∅)) ({["m.room.topic"]} : gset string)) false in
  contains f ("m.room.name", "") = false ∧ make_sql_filter_clause f = ("", []) ∧
  sql_matches (sql_clauses f) "m.room.name" "" = true.
Proof.
  apply (sql_clause_of_empty_key_sets {["m.room.topic"]} "m.room.name" "").
  apply (bool_decide_unpack _). vm_compute. exact I.
Defined.

Example sql_clause_text :
  make_sql_filter_clause (from_types [("m.room.create", Some "")]) =
    ("(type = ? AND state_key = ?)", ["m.room.create"; ""]).
Proof. vm_compute. reflexivity. Qed.
