(* ===== verification/TopoSort.v ===== *)
(** * Lexicographic topological sorting

    [lexicographical_topological_sort] of [synapse/state/v2.py]: Kahn's
    algorithm from the nodes without outgoing edges, ties broken by a key.

    A heap is a list kept sorted: [heapq.heapify] sorts, [heappush] inserts,
    [heappop] takes the smallest entry.  Every iteration of the main loop takes
    one node out for good, so that the size of the graph is fuel enough; a run
    out of fuel would be [None], which the first theorem excludes. *)

From S2P Require Import Prelude.

Abbreviation graph := (gmap string (gset string)).

Section TopoSort.
Context {K : Type} (kleb : K → K → bool) (key : string → K).

(** [(key(node), node)] and the order of these tuples *)
Definition entry (n : string) : K * string := (key n, n).
Definition entry_leb : K * string → K * string → bool := pair_leb kleb String.leb.

(** [reverse_graph.setdefault(edge, set()).add(node)] *)
Definition add_reverse (node : string) (rg : graph) (edge : string) : graph :=
  <[edge := {[node]} ∪ default ∅ (rg !! edge)]> rg.

Definition add_node (rg : graph) (p : string * gset string) : graph :=
  foldl (add_reverse p.1) (<[p.1 := default ∅ (rg !! p.1)]> rg) (elements p.2).

Definition reverse_graph (g : graph) : graph := foldl add_node ∅ (map_to_list g).

Definition initial_heap (g : graph) : list (K * string) :=
  py_sorted entry_leb
    (map (λ p : string * gset string, entry p.1)
       (List.filter (λ p : string * gset string, bool_decide (p.2 = ∅)) (map_to_list g))).

(** [for parent in reverse_graph[node]: ...] *)
Definition visit_parent (node : string) (s : graph * list (K * string)) (parent : string)
    : graph * list (K * string) :=
  let '(outdegree_map, heap) := s in
  let out := default ∅ (outdegree_map !! parent) ∖ {[node]} in
  (<[parent := out]> outdegree_map,
   if decide (out = ∅) then insert_sorted entry_leb (entry parent) heap else heap).

Fixpoint topo_loop (rg : graph) (fuel : nat) (outdegree_map : graph)
    (heap : list (K * string)) : option (list string) :=
  match heap with
  | [] => Some []
  | (_, node) :: heap =>
      match fuel with
      | O => None
      | S fuel =>
          let '(outdegree_map, heap) :=
            foldl (visit_parent node) (outdegree_map, heap) (elements (default ∅ (rg !! node))) in
          (node ::.) <$> topo_loop rg fuel outdegree_map heap
      end
  end.

Definition lexicographical_topological_sort (g : graph) : option (list string) :=
  topo_loop (reverse_graph g) (size g) g (initial_heap g).

(** ** Specification *)

(** A node not yet output all of whose edges lead to nodes that were. *)
Definition available (g : graph) (D : gset string) (n : string) : Prop :=
  ∃ es, g !! n = Some es ∧ n ∉ D ∧ es ⊆ D.

(** The sequence that repeatedly outputs the smallest available node. *)
Inductive lex_topo (g : graph) : gset string → list string → Prop :=
  | lex_topo_nil D : (∀ n, ¬ available g D n) → lex_topo g D []
  | lex_topo_cons D n l :
      available g D n →
      (∀ n', available g D n' → entry_leb (entry n) (entry n') = true) →
      lex_topo g ({[n]} ∪ D) l → lex_topo g D (n :: l).

Context `{!TotalOrderB kleb}.

#[local] Instance entry_leb_total : TotalOrderB entry_leb := pair_leb_total _ _ _ _.

Lemma lex_topo_unique g D l1 l2 : lex_topo g D l1 → lex_topo g D l2 → l1 = l2.
Proof using Type*.
  intros H1. revert l2. induction H1 as [D Hn|D n l Ha Hm Hl IH]; intros l2 H2.
  - destruct H2 as [|D n l Ha]; [done|]. by apply Hn in Ha.
  - destruct H2 as [D Hn|D n' l' Ha' Hm' Hl']; [by apply Hn in Ha|].
    assert (entry n = entry n') as [= _ ->] by (apply (leb_antisym (leb := entry_leb)); auto).
    f_equal. auto.
Qed.

(** ** The reversed graph *)

Lemma lookup_foldl_add_reverse node es rg n :
  default ∅ (foldl (add_reverse node) rg es !! n) =
  default ∅ (rg !! n) ∪ (if decide (n ∈ es) then {[node]} else ∅).
Proof.
  revert rg. induction es as [|e es IH]; intros rg; cbn [foldl].
  { rewrite decide_False by apply not_elem_of_nil. by rewrite (right_id_L ∅ (∪)). }
  rewrite IH. unfold add_reverse. destruct (decide (n = e)) as [->|Hne].
  - rewrite lookup_insert_eq. cbn. rewrite (decide_True (P := e ∈ e :: es)) by (by left).
    case_decide; set_solver.
  - rewrite lookup_insert_ne by done. f_equal. apply decide_ext. rewrite elem_of_cons. naive_solver.
Qed.

Lemma lookup_reverse_graph g n p :
  p ∈ default ∅ (reverse_graph g !! n) ↔ ∃ es, g !! p = Some es ∧ n ∈ es.
Proof.
  unfold reverse_graph.
  assert (∀ l rg, p ∈ default ∅ (foldl add_node rg l !! n) ↔
    p ∈ default ∅ (rg !! n) ∨ ∃ es, (p, es) ∈ l ∧ n ∈ es) as Hl.
  { intros l. induction l as [|[q es] l IH]; intros rg; cbn [foldl].
    - split; [by left|]. intros [?|(es & []%not_elem_of_nil & _)]; done.
    - rewrite IH. unfold add_node at 1. cbn [fst snd].
      rewrite lookup_foldl_add_reverse, elem_of_union.
      assert (default ∅ (<[q := default ∅ (rg !! q)]> rg !! n) = default ∅ (rg !! n)) as ->.
      { destruct (decide (n = q)) as [->|]; [by rewrite lookup_insert_eq|].
        by rewrite lookup_insert_ne. }
      setoid_rewrite elem_of_cons. case_decide as Hn; rewrite elem_of_elements in Hn.
      + rewrite elem_of_singleton. naive_solver.
      + rewrite elem_of_empty. naive_solver. }
  rewrite Hl, lookup_empty. cbn. setoid_rewrite elem_of_map_to_list. set_solver.
Qed.

(** ** The main loop *)

Definition sorted_heap (heap : list (K * string)) : Prop :=
  StronglySorted (λ x y, entry_leb x y = true) heap.

Lemma visit_parents node ps out heap :
  NoDup ps → sorted_heap heap →
  let '(out', heap') := foldl (visit_parent node) (out, heap) ps in
  (∀ n, default ∅ (out' !! n) =
     if decide (n ∈ ps) then default ∅ (out !! n) ∖ {[node]} else default ∅ (out !! n)) ∧
  heap' ≡ₚ map entry (filter (λ p, default ∅ (out !! p) ∖ {[node]} = ∅) ps) ++ heap ∧
  sorted_heap heap'.
Proof using Type*.
  revert out heap. induction ps as [|p ps IH]; intros out heap Hnd Hs; cbn [foldl].
  { split_and!; [|done..]. intros n. by rewrite decide_False by apply not_elem_of_nil. }
  apply NoDup_cons in Hnd as [Hp Hnd]. unfold visit_parent at 2.
  set (o := default ∅ (out !! p) ∖ {[node]}).
  set (h := if decide (o = ∅) then insert_sorted entry_leb (entry p) heap else heap).
  assert (sorted_heap h) as Hh.
  { unfold h. case_decide; [|done]. apply insert_sorted_sorted; [apply leb_total|apply leb_trans|done]. }
  specialize (IH (<[p := o]> out) h Hnd Hh).
  destruct (foldl (visit_parent node) (<[p := o]> out, h) ps) as [out' heap'].
  destruct IH as (Hout & Hperm & Hsort). split_and!; [| |done].
  - intros n. rewrite Hout. destruct (decide (n = p)) as [->|Hne].
    + rewrite lookup_insert_eq, decide_False by done. cbn.
      by rewrite (decide_True (P := p ∈ p :: ps)) by (by left).
    + rewrite lookup_insert_ne by done. apply decide_ext. rewrite elem_of_cons. naive_solver.
  - rewrite Hperm, filter_cons.
    assert (filter (λ p0, default ∅ (<[p := o]> out !! p0) ∖ {[node]} = ∅) ps =
            filter (λ p0, default ∅ (out !! p0) ∖ {[node]} = ∅) ps) as ->.
    { clear -Hp. induction ps as [|q ps IH]; [done|]. apply not_elem_of_cons in Hp as [Hq Hp].
      rewrite !filter_cons, lookup_insert_ne by done. by rewrite IH. }
    unfold h. fold o. case_decide as Ho.
    + cbn. rewrite insert_sorted_perm. by rewrite Permutation_middle.
    + done.
Qed.

(** What holds between two iterations, [D] being the nodes output so far. *)
Record loop_inv (g : graph) (D : gset string) (out : graph) (heap : list (K * string)) : Prop := {
  inv_closed : ∀ n, n ∈ D → ∃ es, g !! n = Some es ∧ es ⊆ D;
  inv_out : ∀ n es, g !! n = Some es → default ∅ (out !! n) = es ∖ D;
  inv_heap : ∀ e, e ∈ heap ↔ ∃ n, e = entry n ∧ available g D n;
  inv_nodup : NoDup heap;
  inv_sorted : sorted_heap heap;
}.

Lemma initial_inv g : loop_inv g ∅ g (initial_heap g).
Proof using Type*.
  assert (∀ e, e ∈ initial_heap g ↔ ∃ n, e = entry n ∧ g !! n = Some ∅) as Hin.
  { intros e. unfold initial_heap. rewrite py_sorted_perm, list_elem_of_In, in_map_iff. split.
    - intros ([n es] & <- & [Hg He]%filter_In). to_prop. cbn in He. subst es.
      exists n. split; [done|]. by apply elem_of_map_to_list, list_elem_of_In.
    - intros (n & -> & Hn). exists (n, ∅). split; [done|]. apply filter_In.
      split; [by apply list_elem_of_In, elem_of_map_to_list | by apply bool_decide_eq_true]. }
  split.
  - intros n Hn. by apply not_elem_of_empty in Hn.
  - intros n es ->. cbn. set_solver.
  - intros e. rewrite Hin. split; intros (n & -> & Ha); exists n; (split; [done|]).
    + exists ∅. split_and!; [done|set_solver|set_solver].
    + destruct Ha as (es & Hes & _ & Hsub). rewrite Hes. f_equal. set_solver.
  - unfold initial_heap. rewrite py_sorted_perm.
    assert (map (λ p : string * gset string, entry p.1)
      (List.filter (λ p : string * gset string, bool_decide (p.2 = ∅)) (map_to_list g)) =
      entry <$> (List.filter (λ p : string * gset string, bool_decide (p.2 = ∅)) (map_to_list g)).*1) as ->.
    { generalize (List.filter (λ p : string * gset string, bool_decide (p.2 = ∅)) (map_to_list g)).
      intros l. induction l as [|x l IH]; [done|]. cbn. by rewrite IH. }
    apply NoDup_fmap_2; [by intros ?? [= _ ?]|].
    pose proof (NoDup_fst_map_to_list g) as Hnd. revert Hnd.
    generalize (map_to_list g). intros l. induction l as [|[n es] l IH]; [done|].
    cbn. rewrite NoDup_cons. intros [Hn Hnd]. case_match; [|auto].
    cbn. constructor; [|auto]. intros Hin'. apply Hn.
    apply list_elem_of_fmap in Hin' as ([n' es'] & -> & Hin').
    apply list_elem_of_fmap. exists (n', es'). split; [done|].
    apply list_elem_of_In. by apply list_elem_of_In, filter_In in Hin' as [? _].
  - apply py_sorted_sorted; [apply leb_total|apply leb_trans].
Qed.

Lemma elem_of_map_entry (P : string → Prop) `{∀ p, Decision (P p)} ps e :
  e ∈ map entry (filter P ps) ↔ ∃ p, e = entry p ∧ P p ∧ p ∈ ps.
Proof.
  change (map entry) with (fmap (M := list) entry).
  rewrite list_elem_of_fmap. setoid_rewrite list_elem_of_filter. naive_solver.
Qed.

Lemma step_inv g D out k node heap :
  loop_inv g D out ((k, node) :: heap) →
  let '(out', heap') := foldl (visit_parent node) (out, heap)
                          (elements (default ∅ (reverse_graph g !! node))) in
  available g D node ∧ (k, node) = entry node ∧ loop_inv g ({[node]} ∪ D) out' heap'.
Proof using Type*.
  intros [Hcl Hout Hheap Hnd Hs].
  assert ((k, node) = entry node ∧ available g D node) as [Hk Hav].
  { destruct (proj1 (Hheap (k, node))) as (n & [= -> ->] & Ha); [by left|]. done. }
  destruct Hav as (esn & Hn & HnD & Hsub).
  apply NoDup_cons in Hnd as [Hhd Hnd].
  assert (sorted_heap heap) as Hs' by (by apply StronglySorted_inv in Hs as [? _]).
  set (ps := elements (default ∅ (reverse_graph g !! node))).
  assert (∀ p, p ∈ ps ↔ ∃ es, g !! p = Some es ∧ node ∈ es) as Hps.
  { intros p. unfold ps. by rewrite elem_of_elements, lookup_reverse_graph. }
  pose proof (visit_parents node ps out heap (NoDup_elements _) Hs') as Hv.
  destruct (foldl (visit_parent node) (out, heap) ps) as [out' heap'].
  destruct Hv as (Hout' & Hperm & Hsort).
  assert (∀ n es, g !! n = Some es → default ∅ (out' !! n) = es ∖ ({[node]} ∪ D)) as Hout2.
  { intros n es Hes. rewrite Hout', (Hout _ _ Hes). case_decide as Hin; [set_solver|].
    assert (node ∉ es) by (intros ?; apply Hin, Hps; eauto). set_solver. }
  assert (∀ p es, g !! p = Some es → node ∈ es → p ∉ {[node]} ∪ D) as Hpar.
  { intros p es Hes Hin [->%elem_of_singleton|HpD]%elem_of_union.
    - rewrite Hn in Hes. injection Hes as ->. set_solver.
    - destruct (Hcl p HpD) as (es' & Hes' & Hsub'). rewrite Hes in Hes'. injection Hes' as <-.
      set_solver. }
  assert (∀ p es, g !! p = Some es → default ∅ (out !! p) ∖ {[node]} = ∅ ↔ es ⊆ {[node]} ∪ D) as Hemp.
  { intros p es Hes. rewrite (Hout _ _ Hes). split; [|set_solver].
    intros He x Hx. destruct (decide (x ∈ {[node]} ∪ D)); [done|]. exfalso.
    assert (x ∈ (es ∖ D) ∖ {[node]}) as Hxe by set_solver. rewrite He in Hxe. set_solver. }
  split_and!; [by exists esn|done|]. split.
  - intros n [->%elem_of_singleton|HnD']%elem_of_union.
    + exists esn. split; [done|set_solver].
    + destruct (Hcl n HnD') as (es & Hes & ?). exists es. split; [done|set_solver].
  - done.
  - intros e. rewrite Hperm, elem_of_app, elem_of_map_entry. split.
    + intros [(p & -> & Hp & Hin)|Hin].
      * apply Hps in Hin as (es & Hes & Hnode). exists p. split; [done|]. exists es.
        split_and!; [done|by eapply Hpar|]. by apply (Hemp p es Hes).
      * destruct (proj1 (Hheap e)) as (n & -> & es & Hes & HnD' & Hs''); [by right|].
        exists n. split; [done|]. exists es. split_and!; [done| |set_solver].
        intros [->%elem_of_singleton|?]%elem_of_union; [|done]. by rewrite <- Hk in Hin.
    + intros (n & -> & es & Hes & HnD' & Hsub').
      destruct (decide (node ∈ es)) as [Hin|Hin].
      * left. exists n. split_and!; [done|by apply (Hemp n es Hes)|]. apply Hps. eauto.
      * right. assert (entry n ∈ (k, node) :: heap) as Hin'.
        { apply Hheap. exists n. split; [done|]. exists es. split_and!; [done|set_solver|set_solver]. }
        apply elem_of_cons in Hin' as [E|?]; [|done]. rewrite Hk in E. injection E as _ ->.
        set_solver.
  - rewrite Hperm. apply NoDup_app. split_and!; [|intros e He Hin|done].
    + change (map entry) with (fmap (M := list) entry).
      apply NoDup_fmap_2; [by intros ?? [= _ ?]|]. apply NoDup_filter, NoDup_elements.
    + apply elem_of_map_entry in He as (p & -> & _ & Hp%Hps). destruct Hp as (es & Hes & Hnode).
      destruct (proj1 (Hheap (entry p))) as (n & [= _ <-] & es' & Hes' & _ & Hs''); [by right|].
      rewrite Hes in Hes'. injection Hes' as <-. set_solver.
  - done.
Qed.

Lemma topo_loop_spec g fuel D out heap :
  loop_inv g D out heap → (size g ≤ fuel + size D)%nat →
  ∃ l, topo_loop (reverse_graph g) fuel out heap = Some l ∧ lex_topo g D l.
Proof using Type*.
  revert D out heap. induction fuel as [|fuel IH]; intros D out heap Hinv Hf;
    destruct heap as [|[k node] heap]; cbn [topo_loop].
  1, 3: exists []; split; [done|]; constructor; intros n Ha;
    apply (not_elem_of_nil (entry n)), (inv_heap _ _ _ _ Hinv); eauto.
  - exfalso. pose proof (step_inv _ _ _ _ _ _ Hinv) as Hst.
    destruct (foldl _ _ _). destruct Hst as ((es & Hn & HnD & _) & _ & Hinv').
    assert (size ({[node]} ∪ D) ≤ size (dom g))%nat as Hsz.
    { apply subseteq_size. intros n Hin. destruct (inv_closed _ _ _ _ Hinv' n Hin) as (es' & ? & _).
      by apply elem_of_dom. }
    rewrite size_union, size_singleton, size_dom in Hsz by set_solver. lia.
  - pose proof (step_inv _ _ _ _ _ _ Hinv) as Hst.
    destruct (foldl _ _ _) as [out' heap']. destruct Hst as (Hav & Hk & Hinv').
    destruct (IH ({[node]} ∪ D) out' heap' Hinv') as (l & -> & Hl).
    { destruct Hav as (es & _ & HnD & _). rewrite size_union, size_singleton by set_solver. lia. }
    exists (node :: l). split; [done|]. constructor; [done| |done].
    intros n' Hn'. assert (entry n' ∈ (k, node) :: heap) as Hin by (apply (inv_heap _ _ _ _ Hinv); eauto).
    rewrite <- Hk. apply elem_of_cons in Hin as [<-|Hin].
    + by destruct (leb_total (leb := entry_leb) (entry n') (entry n')).
    + pose proof (inv_sorted _ _ _ _ Hinv) as Hs. apply StronglySorted_inv in Hs as [_ Hall].
      rewrite Forall_forall in Hall. by apply Hall.
Qed.

(** ** The guarantees *)

Lemma lex_topo_props g D l :
  lex_topo g D l →
  NoDup l ∧ (∀ n, n ∈ l → n ∉ D ∧ n ∈ dom g) ∧
  ∀ i n es, l !! i = Some n → g !! n = Some es →
    ∀ e, e ∈ es → e ∈ D ∨ ∃ j, (j < i)%nat ∧ l !! j = Some e.
Proof.
  induction 1 as [D Hn|D n l Ha Hm Hl (IHnd & IHin & IHord)].
  { split_and!; [constructor|by intros ? ?%not_elem_of_nil|by intros [] ???]. }
  destruct Ha as (es & Hes & HnD & Hsub). split_and!.
  - constructor; [|done]. intros Hin. apply IHin in Hin as [Hin _]. set_solver.
  - intros m [->|Hin]%elem_of_cons; [split; [done|by apply elem_of_dom]|].
    apply IHin in Hin as [??]. split; [set_solver|done].
  - intros [|i] m es' Hi Hes' e He.
    + injection Hi as <-. rewrite Hes in Hes'. injection Hes' as <-. left. set_solver.
    + destruct (IHord i m es' Hi Hes' e He) as [HeD|(j & Hj & Hlj)].
      * apply elem_of_union in HeD as [->%elem_of_singleton|?]; [|by left].
        right. exists 0%nat. split; [lia|done].
      * right. exists (S j). split; [lia|done].
Qed.

(** Everything is output when edges stay in the graph and decrease a rank. *)
Lemma lex_topo_all g D l (rank : string → nat) :
  lex_topo g D l →
  (∀ n es e, g !! n = Some es → e ∈ es → e ∈ dom g ∧ (rank e < rank n)%nat) →
  ∀ n, n ∈ dom g → n ∈ D ∨ n ∈ l.
Proof.
  intros Hl Hr. induction Hl as [D Hn|D n l Ha Hm Hl IH].
  - intros n. remember (rank n) as r eqn:Er. revert n Er.
    induction (lt_wf r) as [r _ IHr]. intros n -> Hdom. left.
    apply elem_of_dom in Hdom as [es Hes].
    destruct (decide (n ∈ D)) as [|HnD]; [done|]. exfalso. apply (Hn n). exists es.
    split_and!; [done..|]. intros e He. destruct (Hr n es e Hes He) as [Hd Hlt].
    destruct (IHr (rank e) Hlt e eq_refl Hd) as [?|[]%not_elem_of_nil]. done.
  - intros m Hm'. destruct (IH m Hm') as [[->%elem_of_singleton|?]%elem_of_union|?];
      [right; by left|by left|right; by right].
Qed.

Lemma topo_sort_total g :
  ∃ l, lexicographical_topological_sort g = Some l ∧ lex_topo g ∅ l.
Proof using Type*.
  apply topo_loop_spec; [apply initial_inv|]. rewrite size_empty. lia.
Qed.

Lemma topo_sort_acyclic g (rank : string → nat) :
  (∀ n es e, g !! n = Some es → e ∈ es → e ∈ dom g ∧ (rank e < rank n)%nat) →
  ∃ l, lexicographical_topological_sort g = Some l ∧
    l ≡ₚ elements (dom g) ∧
    ∀ i n es e, l !! i = Some n → g !! n = Some es → e ∈ es →
      ∃ j, (j < i)%nat ∧ l !! j = Some e.
Proof using Type*.
  intros Hr. destruct (topo_sort_total g) as (l & Hl & Hspec).
  destruct (lex_topo_props g ∅ l Hspec) as (Hnd & Hin & Hord).
  exists l. split_and!; [done| |].
  - apply NoDup_Permutation; [done|apply NoDup_elements|]. intros n. rewrite elem_of_elements.
    split; [by intros [_ ?]%Hin|]. intros Hn.
    by destruct (lex_topo_all g ∅ l rank Hspec Hr n Hn) as [[]%not_elem_of_empty|].
  - intros i n es e Hi Hes He.
    by destruct (Hord i n es Hi Hes e He) as [[]%not_elem_of_empty|].
Qed.

(** Without acyclicity, what is output is in the graph. *)
Lemma topo_sort_sub g l n : lexicographical_topological_sort g = Some l → n ∈ l → n ∈ dom g.
Proof using Type*.
  intros Hl Hn. destruct (topo_sort_total g) as (l' & Hl' & Hspec).
  rewrite Hl in Hl'. injection Hl' as <-.
  destruct (lex_topo_props g ∅ l Hspec) as (_ & Hin & _). by apply Hin.
Qed.
End TopoSort.

(** C39: [lexicographical_topological_sort], with keys in a total order, terminates on every graph with the
    sequence that keeps taking the smallest node whose edges all lead to nodes
    already taken, and this determines the result: it does not depend on the
    order in which the sets are iterated. *)
Theorem topological_sort_spec {K} (kleb : K → K → bool) (key : string → K) (g : graph) :
  TotalOrderB kleb →
  ∃ l, lexicographical_topological_sort kleb key g = Some l ∧ lex_topo kleb key g ∅ l ∧
    ∀ l', lex_topo kleb key g ∅ l' → l' = l.
Proof.
  intros HK. destruct (topo_sort_total kleb key g) as (l & Hl & Hspec).
  exists l. split_and!; [done..|]. intros l' Hl'. by eapply lex_topo_unique.
Qed.

(** On an acyclic graph (one whose edges stay in it and decrease some rank)
    [lexicographical_topological_sort] outputs every node exactly once, and each
    node after all the nodes its edges lead to. *)
Theorem topological_sort_acyclic {K} (kleb : K → K → bool) (key : string → K) (g : graph)
    (rank : string → nat) :
  TotalOrderB kleb →
  (∀ n es e, g !! n = Some es → e ∈ es → e ∈ dom g ∧ (rank e < rank n)%nat) →
  ∃ l, lexicographical_topological_sort kleb key g = Some l ∧
    l ≡ₚ elements (dom g) ∧
    ∀ i n es e, l !! i = Some n → g !! n = Some es → e ∈ es →
      ∃ j, (j < i)%nat ∧ l !! j = Some e.
Proof. intros HK. exact (topo_sort_acyclic kleb key g rank). Qed.

(** ** Instances *)

(** A diamond, with the name as key. *)
Definition diamond : graph :=
  {["a" := {["b"; "c"]}; "b" := {["d"]}; "c" := {["d"]}; "d" := ∅]}.

Definition diamond_rank (n : string) : nat :=
  if decide (n = "a") then 2 else if decide (n = "d") then 0 else 1.

Example topological_sort_spec_witness :
  ∃ l, lexicographical_topological_sort String.leb (λ n, n) diamond = Some l ∧
    lex_topo String.leb (λ n, n) diamond ∅ l ∧
    ∀ l', lex_topo String.leb (λ n, n) diamond ∅ l' → l' = l.
Proof. apply (topological_sort_spec String.leb (λ n, n) diamond). exact string_leb_total. Defined.

Definition graph_check (g : graph) (rank : string → nat) : bool :=
  forallb (λ p : string * gset string,
    forallb (λ e, bool_decide (e ∈ dom g) && (rank e <? rank p.1)%nat) (elements p.2))
    (map_to_list g).

Lemma graph_check_true g rank :
  graph_check g rank = true →
  ∀ n es e, g !! n = Some es → e ∈ es → e ∈ dom g ∧ (rank e < rank n)%nat.
Proof.
  unfold graph_check. rewrite forallb_forall. intros Hf n es e Hn He.
  specialize (Hf (n, es) ltac:(by apply list_elem_of_In, elem_of_map_to_list)).
  rewrite forallb_forall in Hf.
  specialize (Hf e ltac:(by apply list_elem_of_In, elem_of_elements)). to_prop.
  split; [done|]. by apply Nat.ltb_lt.
Qed.

Example topological_sort_acyclic_witness :
  ∃ l, lexicographical_topological_sort String.leb (λ n, n) diamond = Some l ∧
    l ≡ₚ elements (dom diamond) ∧
    ∀ i n es e, l !! i = Some n → diamond !! n = Some es → e ∈ es →
      ∃ j, (j < i)%nat ∧ l !! j = Some e.
Proof.
  apply (topological_sort_acyclic String.leb (λ n, n) diamond diamond_rank);
    [exact string_leb_total|]. apply graph_check_true. vm_compute. reflexivity.
Defined.

Example diamond_sorted :
  lexicographical_topological_sort String.leb (λ n, n) diamond = Some ["d"; "b"; "c"; "a"].
Proof. vm_compute. reflexivity. Qed.
