(* ===== verification/StateResV2.v ===== *)
(** * State resolution, version 2: [synapse/state/v2.py]

    Resolving several states of a room into one.  The functions read events
    through [event_map], a dict that they fill from the store as they go: they
    are state-passing over it ([SM]), and may raise.  Where the source iterates
    over a set the model iterates over its elements in one fixed order; the
    cooperative [clock.sleep(0)] has no effect and is left out.  The values of
    the dict of auth events are handed to the checks in the map's order, which
    matters only if two of them are filed under keys that are not their own.

    Loops that follow auth events take [fuel] and give [None] when it runs out,
    which is neither a result nor an exception of the program; [StateResV2Facts]
    shows that there is enough of it whenever the auth events of the events form
    no cycle. *)

From S2P Require Import Prelude PyData RoomVersions Ids Events EventAuth TopoSort.

Open Scope Z_scope.

Abbreviation emap := (gmap string event).

(** ** Computations over the event map *)

Definition SM (A : Type) : Type := emap → option (py (A * emap)).

#[export] Instance SM_ret : MRet SM := λ A a em, Some (Ok (a, em)).
#[export] Instance SM_bind : MBind SM := λ A B f m em,
  match m em with
  | Some (Ok (a, em')) => f a em'
  | Some (Raise e) => Some (Raise e)
  | None => None
  end.

Definition lift {A} (m : py A) : SM A := λ em,
  Some (match m with Ok a => Ok (a, em) | Raise e => Raise e end).
Definition out_of_fuel {A} : SM A := λ em, None.
Definition get_map : SM emap := λ em, Some (Ok (em, em)).
Definition update_map (f : emap → emap) : SM unit := λ em, Some (Ok (tt, f em)).

Fixpoint sm_fold {A S} (f : S → A → SM S) (s : S) (l : list A) : SM S :=
  match l with
  | [] => mret s
  | x :: l => s' ← f s x; sm_fold f s' l
  end.

(** [event_map[event_id]] *)
Definition map_item (event_id : string) : SM event := λ em,
  Some (match em !! event_id with Some e => Ok (e, em) | None => Raise KeyError end).

(** The store: [StateResolutionStore] *)
Class StateResolutionStore : Type := {
  store_get_events : list string → emap;
  store_get_auth_chain_difference : string → list (gset string) → gset string;
}.

(** ** Splitting the state *)

(** [{state_set.get(key) for state_set in state_sets}] *)
Definition event_ids_for (state_sets : list (state_map string)) (k : string * string)
    : gset (option string) :=
  list_to_set (map (λ s : state_map string, s !! k) state_sets).

Definition state_keys (state_sets : list (state_map string)) : gset (string * string) :=
  ⋃ (map (λ s : state_map string, dom s) state_sets).

(** [event_ids.pop()] when [len(event_ids) == 1] (never [None] for a key of some
    state set) and otherwise [event_ids.discard(None)] *)
Definition unconflicted_id (ids : gset (option string)) : option string :=
  match elements ids with [Some i] => Some i | _ => None end.

Definition conflicted_ids (ids : gset (option string)) : option (gset string) :=
  if decide (size ids = 1%nat) then None
  else Some (list_to_set (omap (M := list) id (elements ids))).

(** [_seperate]: the unconflicted state and the conflicted state *)
Definition seperate (state_sets : list (state_map string))
    : state_map string * state_map (gset string) :=
  let keys := elements (state_keys state_sets) in
  (list_to_map (omap (M := list) (λ k, k_unconflicted ← unconflicted_id (event_ids_for state_sets k);
                                       Some (k, k_unconflicted)) keys),
   list_to_map (omap (M := list) (λ k, ids ← conflicted_ids (event_ids_for state_sets k);
                                       Some (k, ids)) keys)).

(** [_is_power_event] *)
Definition is_power_event (e : event) : py bool :=
  sk ← state_key e;
  if bool_decide ((ev_type e, sk) ∈ [(EventTypes.PowerLevels, ""); (EventTypes.JoinRules, "");
                                     (EventTypes.Create, "")]) then Ok true
  else if decide (ev_type e = EventTypes.Member) then
    m ← membership e;
    Ok ((is_str m "leave" || is_str m "ban") && negb (bool_decide (ev_sender e = sk)))
  else Ok false.

Section V2.
Context `{StateResolutionStore}.

(** [_get_event] with [allow_none=True] *)
Definition get_event_opt (room_id event_id : string) : SM (option event) := λ em,
  let em := match em !! event_id with
            | Some _ => em
            | None => store_get_events [event_id] ∪ em
            end in
  match em !! event_id with
  | None => Some (Ok (None, em))
  | Some e =>
      if decide (ev_room_id e = room_id) then Some (Ok (Some e, em))
      else Some (Raise (PyException "In state res for room %s, event %s is in %s"))
  end.

(** [_get_event] *)
Definition get_event (room_id event_id : string) : SM event :=
  o ← get_event_opt room_id event_id;
  match o with
  | Some e => mret e
  | None => lift (Raise (PyException "Unknown event %s"))
  end.

(** [for aid in auth_event_ids: ...; if aev and (aev.type, aev.state_key) ==
    (etype, ""): ...; break] *)
Fixpoint find_auth_of_type (room_id etype : string) (aids : list string)
    : SM (option (string * event)) :=
  match aids with
  | [] => mret None
  | aid :: aids =>
      o ← get_event_opt room_id aid;
      match o with
      | None => find_auth_of_type room_id etype aids
      | Some aev =>
          sk ← lift (state_key aev);
          if bool_decide ((ev_type aev, sk) = (etype, "")) then mret (Some (aid, aev))
          else find_auth_of_type room_id etype aids
      end
  end.

Definition get_power_level_for_sender (room_id event_id : string) : SM Z :=
  e ← get_event room_id event_id;
  pl ← find_auth_of_type room_id EventTypes.PowerLevels (auth_event_ids e);
  match pl with
  | None =>
      create ← find_auth_of_type room_id EventTypes.Create (auth_event_ids e);
      mret (match create with
            | Some (_, aev) =>
                match dict_get "creator" (ev_content aev) with
                | Some c => if is_str c (ev_sender e) then 100 else 0
                | None => 0
                end
            | None => 0
            end)
  | Some (_, pl) =>
      lift (level ← py_get (dict_get_default "users" (JObj []) (ev_content pl)) (ev_sender e);
            match none_or_null level with
            | Some l => py_int l
            | None =>
                match none_or_null (Some (dict_get_default "users_default" (JInt 0) (ev_content pl))) with
                | Some l => py_int l
                | None => Ok 0
                end
            end)
  end.

(** ** The auth chain difference *)

(** The [while to_search] loop: the intersection of an event's auth chain with
    the unpersisted events, plus their auth events. *)
Fixpoint search_chain (fuel : nat) (unpersisted : emap) (to_search : list event)
    (chain : gset string) : option (gset string) :=
  match to_search with
  | [] => Some chain
  | e :: to_search =>
      match fuel with
      | O => None
      | S fuel =>
          let found := omap (M := list) (λ i, unpersisted !! i) (auth_event_ids e) in
          search_chain fuel unpersisted (rev found ++ to_search)
            (chain ∪ list_to_set (auth_event_ids e))
      end
  end.

Fixpoint chains_of (fuel : nat) (unpersisted : emap) (l : list (string * event))
    : option (gmap string (gset string)) :=
  match l with
  | [] => Some ∅
  | (_, e) :: l =>
      c ← search_chain fuel unpersisted [e] {[ev_id e]};
      m ← chains_of fuel unpersisted l;
      Some (<[ev_id e := c]> m)
  end.

(** The chains, by event id; the last event with an id wins. *)
Definition events_to_auth_chain (fuel : nat) (unpersisted : emap)
    : option (gmap string (gset string)) :=
  chains_of fuel unpersisted (reverse (map_to_list unpersisted)).

(** One state set: its persisted part for the store, and the unpersisted events
    it reaches. *)
Definition split_state_set (unpersisted : emap) (chains : gmap string (gset string))
    (state_set : state_map string) : gset string * gset string :=
  foldl (λ '(set_ids, unpersisted_ids) (p : (string * string) * string),
    match chains !! p.2 with
    | Some event_chain =>
        (set_ids ∪ filter (λ i, unpersisted !! i = None) event_chain,
         unpersisted_ids ∪ filter (λ i, is_Some (unpersisted !! i)) event_chain)
    | None => (set_ids ∪ {[p.2]}, unpersisted_ids)
    end) (∅, ∅) (map_to_list state_set).

(** The union and the intersection of the sets of a non-empty list *)
Definition union_of (sets : list (gset string)) : gset string := ⋃ sets.
Definition intersection_of (sets : list (gset string)) : gset string :=
  match sets with [] => ∅ | s :: sets => foldl (∩) s sets end.

Definition get_auth_chain_difference (fuel : nat) (room_id : string)
    (state_sets : list (state_map string)) : SM (gset string) := λ unpersisted,
  chains ← events_to_auth_chain fuel unpersisted;
  if decide (unpersisted = ∅) then
    Some (Ok (store_get_auth_chain_difference room_id
                (map (λ s : state_map string, list_to_set (map snd (map_to_list s))) state_sets),
              unpersisted))
  else
    let split := map (split_state_set unpersisted chains) state_sets in
    let sets := map snd split in
    match split with
    | [] => Some (Raise IndexError)
    | _ => Some (Ok (store_get_auth_chain_difference room_id (map fst split)
                       ∪ (union_of sets ∖ intersection_of sets), unpersisted))
    end.

(** ** Sorting the power events *)

(** The [while state] loop of [_add_event_and_auth_chain_to_graph] *)
Fixpoint grow_graph (fuel : nat) (room_id : string) (full_conflicted_set : gset string)
    (stack : list string) (g : graph) : SM graph :=
  match stack with
  | [] => mret g
  | eid :: stack =>
      match fuel with
      | O => out_of_fuel
      | S fuel =>
          let g := <[eid := default ∅ (g !! eid)]> g in
          e ← get_event room_id eid;
          let aids := List.filter (λ a, bool_decide (a ∈ full_conflicted_set)) (auth_event_ids e) in
          let new := List.filter (λ a, bool_decide (g !! a = None)) aids in
          grow_graph fuel room_id full_conflicted_set (rev new ++ stack)
            (<[eid := default ∅ (g !! eid) ∪ list_to_set aids]> g)
      end
  end.

Definition add_event_and_auth_chain_to_graph (fuel : nat) (room_id : string)
    (full_conflicted_set : gset string) (g : graph) (event_id : string) : SM graph :=
  grow_graph fuel room_id full_conflicted_set [event_id] g.

Definition power_key : Type := (Z * Z) * string.
Definition power_key_leb : power_key → power_key → bool :=
  pair_leb (pair_leb Z.leb Z.leb) String.leb.

(** [(-pl, ev.origin_server_ts, event_id)] *)
Definition get_power_order (em : emap) (event_to_pl : gmap string Z) (event_id : string) : power_key :=
  ((- default 0 (event_to_pl !! event_id),
    match em !! event_id with Some e => ev_origin_server_ts e | None => 0 end), event_id).

(** [event_ids] is a generator that selects from a list of ids as the loop asks
    for the next one: [keep] is its condition. *)
Definition reverse_topological_power_sort (fuel : nat) (room_id : string)
    (keep : event → py bool) (event_ids : list string)
    (full_conflicted_set : gset string) : SM (list string) :=
  g ← sm_fold (λ g eid,
        e ← map_item eid;
        b ← lift (keep e);
        if b : bool then add_event_and_auth_chain_to_graph fuel room_id full_conflicted_set g eid
        else mret g) ∅ event_ids;
  event_to_pl ← sm_fold (λ (m : gmap string Z) (p : string * gset string),
      pl ← get_power_level_for_sender room_id p.1; mret (<[p.1 := pl]> m)) ∅ (map_to_list g);
  em ← get_map;
  match lexicographical_topological_sort power_key_leb (get_power_order em event_to_pl) g with
  | Some l => mret l
  | None => out_of_fuel
  end.

(** ** Applying events in turn *)

(** [auth_events[(ev.type, ev.state_key)] = ev] for the auth events of an event *)
Definition collect_auth_events (room_id : string) (aids : list string) : SM (state_map event) :=
  sm_fold (λ (m : state_map event) aid,
    o ← get_event_opt room_id aid;
    match o with
    | None => mret m
    | Some ev =>
        match ev_rejected_reason ev with
        | None => sk ← lift (state_key ev); mret (<[(ev_type ev, sk) := ev]> m)
        | Some _ => mret m
        end
    end) ∅ aids.

(** Overlaid with the resolved state for the keys of [auth_types_for_event] *)
Definition overlay_state (room_id : string) (resolved_state : state_map string)
    (keys : list (string * string)) (auth_events : state_map event) : SM (state_map event) :=
  sm_fold (λ (m : state_map event) key,
    match resolved_state !! key with
    | None => mret m
    | Some ev_id =>
        ev ← get_event room_id ev_id;
        match ev_rejected_reason ev with
        | None => mret (<[key := ev]> m)
        | Some _ => mret m
        end
    end) auth_events keys.

Context `{External}.

(** The body of the loop: the new resolved state.  The event may be marked for a
    recheck of its redaction, which is a change of the shared event. *)
Definition auth_check_step (room_id : string) (room_version : RoomVersion)
    (resolved_state : state_map string) (event_id : string) : SM (state_map string) :=
  e ← map_item event_id;
  auth_events ← collect_auth_events room_id (auth_event_ids e);
  keys ← lift (auth_types_for_event room_version e);
  auth_events ← overlay_state room_id resolved_state keys auth_events;
  match ev_rejected_reason e with
  | Some _ => mret resolved_state
  | None =>
      match check_state_dependent_auth_rules e (map snd (map_to_list auth_events)) with
      | Ok e' =>
          update_map <[event_id := e']> ;;
          sk ← lift (state_key e);
          mret (<[(ev_type e, sk) := event_id]> resolved_state)
      | Raise ex => if is_AuthError ex then mret resolved_state else lift (Raise ex)
      end
  end.

Definition iterative_auth_checks (room_id : string) (room_version : RoomVersion)
    (event_ids : list string) (base_state : state_map string) : SM (state_map string) :=
  sm_fold (auth_check_step room_id room_version) base_state event_ids.

(** ** The mainline *)

(** The [while pl] loop: the power-levels events from the resolved one back *)
Fixpoint mainline (fuel : nat) (room_id : string) (pl : option string) : SM (list string) :=
  match pl with
  | None => mret []
  | Some pl =>
      if decide (pl = "") then mret []
      else
        match fuel with
        | O => out_of_fuel
        | S fuel =>
            pl_ev ← get_event room_id pl;
            next ← find_auth_of_type room_id EventTypes.PowerLevels (auth_event_ids pl_ev);
            rest ← mainline fuel room_id (fst <$> next);
            mret (pl :: rest)
        end
  end.

(** [{ev_id: i + 1 for i, ev_id in enumerate(reversed(mainline))}] *)
Definition mainline_map (l : list string) : gmap string Z :=
  list_to_map (reverse (imap (λ i ev_id, (ev_id, Z.of_nat i + 1)) (reverse l))).

(** [_get_mainline_depth_for_event] *)
Fixpoint get_mainline_depth_for_event (fuel : nat) (mm : gmap string Z) (room_id : string)
    (tmp_event : option event) : SM Z :=
  match tmp_event with
  | None => mret 0
  | Some e =>
      match mm !! ev_id e with
      | Some depth => mret depth
      | None =>
          match fuel with
          | O => out_of_fuel
          | S fuel =>
              next ← find_auth_of_type room_id EventTypes.PowerLevels (auth_event_ids e);
              get_mainline_depth_for_event fuel mm room_id (snd <$> next)
          end
      end
  end.

Definition mainline_key_leb : (Z * Z) * string → (Z * Z) * string → bool := power_key_leb.

Definition mainline_sort (fuel : nat) (room_id : string) (event_ids : list string)
    (resolved_power_event_id : option string) : SM (list string) :=
  match event_ids with
  | [] => mret []
  | _ =>
      ml ← mainline fuel room_id resolved_power_event_id;
      order ← sm_fold (λ (acc : list (((Z * Z) * string) * string)) ev_id,
          e ← map_item ev_id;
          depth ← get_mainline_depth_for_event fuel (mainline_map ml) (ev_room_id e) (Some e);
          mret (acc ++ [((depth, ev_origin_server_ts e), ev_id, ev_id)])) [] event_ids;
      mret (map snd (py_sorted (λ a b, mainline_key_leb a.1 b.1) order))
  end.

(** ** The whole algorithm *)

Definition check_rooms (room_id : string) (em : emap) : py unit :=
  py_for_each (λ p, raise_if (negb (bool_decide (ev_room_id p.2 = room_id)))
    (PyException "Attempting to state-resolve for room %s with event %s which is in %s"))
    (map_to_list em).

Definition resolve_conflicts (fuel : nat) (room_id : string) (room_version : RoomVersion)
    (state_sets : list (state_map string)) (unconflicted_state : state_map string)
    (conflicted_state : state_map (gset string)) : SM (state_map string) :=
  auth_diff ← get_auth_chain_difference fuel room_id state_sets;
  let full_conflicted_set : gset string :=
    ⋃ (map snd (map_to_list conflicted_state)) ∪ auth_diff in
  update_map (λ em, store_get_events (elements (filter (λ i, em !! i = None) full_conflicted_set)) ∪ em) ;;
  em ← get_map;
  lift (check_rooms room_id em) ;;
  let full_conflicted_set := filter (λ i, is_Some (em !! i)) full_conflicted_set in
  sorted_power_events ←
    reverse_topological_power_sort fuel room_id is_power_event (elements full_conflicted_set)
      full_conflicted_set;
  resolved_state ←
    iterative_auth_checks room_id room_version sorted_power_events unconflicted_state;
  let leftover_events :=
    List.filter (λ i, bool_decide (i ∉ sorted_power_events)) (elements full_conflicted_set) in
  leftover_events ←
    mainline_sort fuel room_id leftover_events (resolved_state !! (EventTypes.PowerLevels, ""));
  resolved_state ← iterative_auth_checks room_id room_version leftover_events resolved_state;
  mret (unconflicted_state ∪ resolved_state).

Definition resolve_events_with_store (fuel : nat) (room_id : string) (room_version : RoomVersion)
    (state_sets : list (state_map string)) : SM (state_map string) :=
  let '(unconflicted_state, conflicted_state) := seperate state_sets in
  if decide (conflicted_state = ∅) then mret unconflicted_state
  else resolve_conflicts fuel room_id room_version state_sets unconflicted_state conflicted_state.
End V2.
