(* ===== verification/StateResV2Facts.v ===== *)
(** * Properties of state resolution, version 2

    Theorems about [StateResV2]: how the state is split, that agreeing states
    resolve to themselves, that the result does not depend on the order of the
    states, where every entry of the result comes from, the order in which
    events are applied, and that the algorithm terminates when the auth events
    form no cycle. *)

From S2P Require Import Prelude PyData RoomVersions Ids Events EventAuth RoomExample.
From S2P Require Import TopoSort StateResV2.

Open Scope Z_scope.

(** ** Results of computations over the event map *)

Lemma sm_bind_Ok {A B} (m : SM A) (f : A → SM B) em b em2 :
  (m ≫= f) em = Some (Ok (b, em2)) ↔
  ∃ a em1, m em = Some (Ok (a, em1)) ∧ f a em1 = Some (Ok (b, em2)).
Proof.
  unfold mbind, SM_bind. destruct (m em) as [[[a em1]|]|]; naive_solver.
Qed.

Lemma lift_Ok {A} (m : py A) em a em' : lift m em = Some (Ok (a, em')) ↔ m = Ok a ∧ em' = em.
Proof. unfold lift. destruct m; naive_solver. Qed.

Lemma sm_ret_Ok {A} (x : A) em a em' :
  (mret x : SM A) em = Some (Ok (a, em')) ↔ a = x ∧ em' = em.
Proof. unfold mret, SM_ret. naive_solver. Qed.

Lemma map_item_Ok i em e em' : map_item i em = Some (Ok (e, em')) ↔ em !! i = Some e ∧ em' = em.
Proof. unfold map_item. destruct (em !! i); naive_solver. Qed.

Lemma get_map_Ok em a em' : get_map em = Some (Ok (a, em')) ↔ a = em ∧ em' = em.
Proof. unfold get_map. naive_solver. Qed.

Lemma update_map_Ok f em a em' : update_map f em = Some (Ok (a, em')) ↔ em' = f em.
Proof. unfold update_map. destruct a. naive_solver. Qed.

Ltac sm_inv1 :=
  match goal with
  | H : (_ ≫= _) _ = Some (Ok _) |- _ => apply sm_bind_Ok in H as (? & ? & ? & ?)
  | H : lift _ _ = Some (Ok _) |- _ => apply lift_Ok in H as [? ->]
  | H : mret _ _ = Some (Ok _) |- _ => apply sm_ret_Ok in H as [-> ->]
  | H : map_item _ _ = Some (Ok _) |- _ => apply map_item_Ok in H as [? ->]
  | H : get_map _ = Some (Ok _) |- _ => apply get_map_Ok in H as [-> ->]
  | H : update_map _ _ = Some (Ok _) |- _ => apply update_map_Ok in H as ->
  | H : out_of_fuel _ = Some _ |- _ => discriminate H
  | H : (match ?x with _ => _ end) _ = Some (Ok _) |- _ => destruct x eqn:?; try discriminate H
  end.
Ltac sm_inv := repeat sm_inv1.

(** A predicate on the accumulator and the event map that every round of a loop
    keeps holds after the loop. *)
Lemma sm_fold_inv {A S} (P : S → emap → Prop) (f : S → A → SM S) l s em s' em' :
  (∀ x s em s' em', x ∈ l → P s em → f s x em = Some (Ok (s', em')) → P s' em') →
  P s em → sm_fold f s l em = Some (Ok (s', em')) → P s' em'.
Proof.
  revert s em. induction l as [|x l IH]; cbn [sm_fold]; intros s em Hf HP Hr; sm_inv; [done|].
  eapply IH; [|eapply (Hf x); [by left|done|done]|done].
  intros y ???? Hy. apply Hf. by right.
Qed.

(** ** Splitting the state *)

Lemma elem_of_event_ids_for sets k o :
  o ∈ event_ids_for sets k ↔ ∃ s, s ∈ sets ∧ s !! k = o.
Proof.
  unfold event_ids_for. rewrite elem_of_list_to_set, list_elem_of_fmap. naive_solver.
Qed.

Lemma elem_of_state_keys sets k : k ∈ state_keys sets ↔ ∃ s, s ∈ sets ∧ is_Some (s !! k).
Proof.
  unfold state_keys. rewrite elem_of_union_list. setoid_rewrite list_elem_of_fmap.
  setoid_rewrite <- elem_of_dom. naive_solver.
Qed.

Lemma unconflicted_id_Some ids i : unconflicted_id ids = Some i ↔ ids = {[Some i]}.
Proof.
  unfold unconflicted_id. split.
  - destruct (elements ids) as [|o l] eqn:E; [done|]. destruct o as [j|]; [|by destruct l].
    destruct l; [|done]. intros [= ->]. apply set_eq. intros x.
    rewrite <- elem_of_elements, E. set_solver.
  - intros ->. by rewrite elements_singleton.
Qed.

Lemma conflicted_ids_Some ids c :
  conflicted_ids ids = Some c ↔ size ids ≠ 1%nat ∧ ∀ i, i ∈ c ↔ Some i ∈ ids.
Proof.
  unfold conflicted_ids. case_decide; [naive_solver|].
  assert (∀ i, i ∈@{gset string} list_to_set (omap (M := list) id (elements ids)) ↔ Some i ∈ ids) as Hi.
  { intros i. rewrite elem_of_list_to_set, list_elem_of_omap.
    setoid_rewrite elem_of_elements. naive_solver. }
  split; [intros [= <-]; done|]. intros [_ Hc]. f_equal. apply set_eq. intros i. by rewrite Hi, Hc.
Qed.

(** A dict built key by key *)
Lemma lookup_keyed_map {B} (f : string * string → option B) (keys : gset (string * string)) k :
  (list_to_map (omap (M := list) (λ k, b ← f k; Some (k, b)) (elements keys)) : state_map B) !! k
  = if decide (k ∈ keys) then f k else None.
Proof.
  assert (∀ l, NoDup l → (list_to_map (omap (M := list) (λ k, b ← f k; Some (k, b)) l) : state_map B) !! k
    = if decide (k ∈ l) then f k else None) as Hl.
  { intros l. induction 1 as [|k' l Hk' Hnd IH]; [done|]. cbn.
    destruct (f k') as [b|] eqn:E; cbn.
    - destruct (decide (k' = k)) as [->|].
      + by rewrite lookup_insert_eq, decide_True by (by left).
      + rewrite lookup_insert_ne by done. etrans; [exact IH|]. apply decide_ext. set_solver.
    - etrans; [exact IH|]. destruct (decide (k' = k)) as [->|].
      + by rewrite decide_False, decide_True by (done || by left).
      + apply decide_ext. set_solver. }
  rewrite Hl by apply NoDup_elements. apply decide_ext. apply elem_of_elements.
Qed.

Lemma lookup_unconflicted sets k i :
  (seperate sets).1 !! k = Some i ↔ sets ≠ [] ∧ ∀ s, s ∈ sets → s !! k = Some i.
Proof.
  unfold seperate. cbn [fst]. rewrite lookup_keyed_map.
  assert (unconflicted_id (event_ids_for sets k) = Some i ↔
    sets ≠ [] ∧ ∀ s, s ∈ sets → s !! k = Some i) as Hu.
  { rewrite unconflicted_id_Some. split.
    - intros E. split.
      + intros ->. assert (Some i ∈ event_ids_for [] k) as (? & []%not_elem_of_nil & _)%elem_of_event_ids_for
          by (rewrite E; set_solver).
      + intros s Hs. assert (s !! k ∈ event_ids_for sets k) as Hin by (apply elem_of_event_ids_for; eauto).
        rewrite E in Hin. by apply elem_of_singleton in Hin.
    - intros [Hne Hall]. apply set_eq. intros o. rewrite elem_of_event_ids_for, elem_of_singleton. split.
      + intros (s & Hs & <-). auto.
      + intros ->. destruct sets as [|s sets]; [done|]. exists s. split; [by left|]. apply Hall. by left. }
  case_decide as Hk; [done|]. split; [done|]. intros [Hne Hall]. destruct Hk.
  apply elem_of_state_keys. destruct sets as [|s sets]; [done|]. exists s.
  split; [by left|]. rewrite Hall by (by left). eauto.
Qed.

(** The states disagree on a key: some has it and another has not the same. *)
Definition disagree (sets : list (state_map string)) (k : string * string) : Prop :=
  ∃ s s', s ∈ sets ∧ s' ∈ sets ∧ is_Some (s !! k) ∧ s !! k ≠ s' !! k.

Lemma lookup_conflicted sets k c :
  (seperate sets).2 !! k = Some c ↔
  disagree sets k ∧ ∀ i, i ∈ c ↔ ∃ s, s ∈ sets ∧ s !! k = Some i.
Proof.
  unfold seperate. cbn [snd]. rewrite lookup_keyed_map.
  assert (k ∈ state_keys sets ∧ size (event_ids_for sets k) ≠ 1%nat ↔ disagree sets k) as Hd.
  { rewrite elem_of_state_keys. split.
    - intros [(s & Hs & Hk) Hsz].
      destruct (decide (Exists (λ s' : state_map string, s !! k ≠ s' !! k) sets)) as [He|He].
      + apply Exists_exists in He as (s' & Hs' & Hne). by exists s, s'.
      + destruct Hsz. assert (event_ids_for sets k = {[s !! k]}) as ->; [|apply size_singleton].
        apply set_eq. intros o. rewrite elem_of_event_ids_for, elem_of_singleton.
        split; [|intros ->; eauto]. intros (s' & Hs' & <-).
        destruct (decide (s' !! k = s !! k)) as [|Hne]; [done|]. destruct He.
        apply Exists_exists. eauto.
    - intros (s & s' & Hs & Hs' & Hk & Hne). split; [eauto|].
      intros [o Ho]%size_1_elem_of. destruct Hne. apply leibniz_equiv in Ho.
      assert (s !! k ∈ event_ids_for sets k) as H1 by (apply elem_of_event_ids_for; eauto).
      assert (s' !! k ∈ event_ids_for sets k) as H2 by (apply elem_of_event_ids_for; eauto).
      rewrite Ho in H1, H2. apply elem_of_singleton in H1, H2. congruence. }
  rewrite <- Hd. case_decide as Hk; [|naive_solver].
  rewrite conflicted_ids_Some. setoid_rewrite elem_of_event_ids_for. naive_solver.
Qed.

(** ** Agreement and order *)

Lemma pair_eq_split {A B} (p q : A * B) : p.1 = q.1 → p.2 = q.2 → p = q.
Proof. destruct p, q. cbn. congruence. Qed.

Lemma seperate_agree n s : seperate (replicate (S n) s) = (s, ∅).
Proof.
  apply pair_eq_split; apply map_eq; intros k; cbn [fst snd].
  - apply option_eq. intros i. rewrite lookup_unconflicted. split.
    + intros [_ Hall]. apply Hall. by left.
    + intros Hk. split; [done|]. by intros s' [-> _]%elem_of_replicate.
  - rewrite lookup_empty. apply eq_None_not_Some. intros [c Hc].
    apply lookup_conflicted in Hc as [(s1 & s2 & H1 & H2 & _ & Hne) _].
    apply elem_of_replicate in H1 as [-> _], H2 as [-> _]. done.
Qed.

Lemma event_ids_for_perm sets sets' k : sets ≡ₚ sets' → event_ids_for sets k = event_ids_for sets' k.
Proof. intros Hp. apply set_eq. intros o. rewrite !elem_of_event_ids_for. by setoid_rewrite Hp. Qed.

Lemma state_keys_perm sets sets' : sets ≡ₚ sets' → state_keys sets = state_keys sets'.
Proof. intros Hp. apply set_eq. intros o. rewrite !elem_of_state_keys. by setoid_rewrite Hp. Qed.

Lemma seperate_perm sets sets' : sets ≡ₚ sets' → seperate sets = seperate sets'.
Proof.
  intros Hp. apply pair_eq_split; apply map_eq; intros k; unfold seperate; cbn [fst snd]; rewrite !lookup_keyed_map;
    by rewrite (state_keys_perm _ _ Hp), (event_ids_for_perm _ _ k Hp).
Qed.

Lemma elem_of_intersection_of s sets i : i ∈ intersection_of (s :: sets) ↔ ∀ t, t ∈ s :: sets → i ∈ t.
Proof.
  change (intersection_of (s :: sets)) with (foldl (∩) s sets). rewrite <- Forall_forall.
  revert s. induction sets as [|t sets IH]; intros s; cbn [foldl].
  - by rewrite Forall_singleton.
  - rewrite IH, !Forall_cons, elem_of_intersection. tauto.
Qed.

Lemma intersection_of_perm sets sets' : sets ≡ₚ sets' → intersection_of sets = intersection_of sets'.
Proof.
  intros Hp. destruct sets as [|s sets], sets' as [|s' sets'].
  - done.
  - by apply Permutation_nil_cons in Hp.
  - symmetry in Hp. by apply Permutation_nil_cons in Hp.
  - apply set_eq. intros i. rewrite !elem_of_intersection_of. by setoid_rewrite Hp.
Qed.

Lemma union_of_perm sets sets' : sets ≡ₚ sets' → union_of sets = union_of sets'.
Proof.
  intros Hp. apply set_eq. intros i. unfold union_of. rewrite !elem_of_union_list. by setoid_rewrite Hp.
Qed.

(** What the store promises: a dict from the ids asked for to the events with
    those ids, and a difference that does not depend on the order of the sets. *)
Class LawfulStore `{StateResolutionStore} : Prop := {
  store_get_events_spec ids i e :
    store_get_events ids !! i = Some e → i ∈ ids ∧ ev_id e = i;
  store_difference_perm room_id sets sets' :
    sets ≡ₚ sets' → store_get_auth_chain_difference room_id sets
                    = store_get_auth_chain_difference room_id sets';
}.

Section StateRes.
Context `{LawfulStore} `{External}.

Lemma get_auth_chain_difference_perm fuel room_id sets sets' em :
  sets ≡ₚ sets' →
  get_auth_chain_difference fuel room_id sets em = get_auth_chain_difference fuel room_id sets' em.
Proof.
  intros Hp. unfold get_auth_chain_difference.
  destruct (events_to_auth_chain fuel em) as [chains|]; [cbn|done]. case_decide.
  - do 3 f_equal. by apply store_difference_perm, Permutation_map.
  - rewrite (union_of_perm _ (map snd (map (split_state_set em chains) sets')))
      by (by do 2 apply Permutation_map).
    rewrite (intersection_of_perm _ (map snd (map (split_state_set em chains) sets')))
      by (by do 2 apply Permutation_map).
    rewrite (store_difference_perm room_id _ (map fst (map (split_state_set em chains) sets')))
      by (by do 2 apply Permutation_map).
    destruct sets, sets'; try done; cbn.
    + by apply Permutation_nil_cons in Hp.
    + symmetry in Hp. by apply Permutation_nil_cons in Hp.
Qed.

Lemma resolve_perm fuel room_id rv sets sets' em :
  sets ≡ₚ sets' →
  resolve_events_with_store fuel room_id rv sets em
  = resolve_events_with_store fuel room_id rv sets' em.
Proof.
  intros Hp. unfold resolve_events_with_store. rewrite (seperate_perm _ _ Hp).
  destruct (seperate sets') as [u c]. case_decide; [done|].
  unfold resolve_conflicts. unfold mbind, SM_bind at 1.
  by rewrite (get_auth_chain_difference_perm fuel room_id sets sets' em Hp).
Qed.

(** ** How the event map evolves *)

(** The same event up to the [recheck_redaction] flag *)
Definition same_event (e e' : event) : Prop := set_recheck_redaction e = set_recheck_redaction e'.

#[export] Instance same_event_equiv : Equivalence same_event.
Proof. split; red; unfold same_event; congruence. Qed.

Lemma same_event_field {A} (f : event → A) e e' :
  (∀ e, f (set_recheck_redaction e) = f e) → same_event e e' → f e = f e'.
Proof. intros Hf Hs. by rewrite <- (Hf e), <- (Hf e'), Hs. Qed.

Lemma check_auth_dict_same e st e' : check_auth_dict e st = Ok e' → same_event e e'.
Proof.
  unfold check_auth_dict, check_redaction, same_event. intros Hc. py_cases; try done;
    repeat match goal with x : bool * event |- _ => destruct x end; py_cases; done.
Qed.

Lemma check_state_dependent_same e l e' :
  check_state_dependent_auth_rules e l = Ok e' → same_event e e'.
Proof.
  unfold check_state_dependent_auth_rules. intros Hc. py_cases; [done|].
  by eapply check_auth_dict_same.
Qed.

Definition from_store (i : string) (e' : event) : Prop :=
  ∃ ids e, store_get_events ids !! i = Some e ∧ same_event e e'.

(** Events stay in the map, and new ones come from the store. *)
Record evolves (em em' : emap) : Prop := {
  evolves_keep i e : em !! i = Some e → ∃ e', em' !! i = Some e' ∧ same_event e e';
  evolves_new i e' : em' !! i = Some e' →
    from_store i e' ∨ ∃ e, em !! i = Some e ∧ same_event e e';
}.

#[local] Instance evolves_preorder : PreOrder evolves.
Proof.
  split.
  - intros em. split; intros i e Hi; [|right]; exists e; done.
  - intros em1 em2 em3 [K1 N1] [K2 N2]. split.
    + intros i e Hi. destruct (K1 i e Hi) as (e1 & L1 & S1). destruct (K2 i e1 L1) as (e2 & L2 & S2).
      exists e2. split; [done|]. by etrans.
    + intros i e' Hi. destruct (N2 i e' Hi) as [?|(e2 & L2 & S2)]; [by left|].
      destruct (N1 i e2 L2) as [(ids & e & Hs & S1)|(e1 & L1 & S1)].
      * left. exists ids, e. split; [done|]. by etrans.
      * right. exists e1. split; [done|]. by etrans.
Qed.

Lemma evolves_fetch em ids :
  (∀ i, i ∈ ids → em !! i = None) → evolves em (store_get_events ids ∪ em).
Proof.
  intros Hids. split.
  - intros i e Hi. exists e. split; [|done].
    destruct (store_get_events ids !! i) as [e'|] eqn:E.
    + apply store_get_events_spec in E as [Hin _]. apply Hids in Hin. congruence.
    + by rewrite lookup_union_r.
  - intros i e'. rewrite lookup_union_Some_raw. intros [Hs|[_ Hi]]; [|right; by exists e'].
    left. exists ids, e'. done.
Qed.

Lemma evolves_update em i e e' :
  em !! i = Some e → same_event e e' → evolves em (<[i := e']> em).
Proof.
  intros Hi Hs. split.
  - intros j f Hj. destruct (decide (i = j)) as [<-|].
    + rewrite lookup_insert_eq. exists e'. split; [done|]. congruence.
    + rewrite lookup_insert_ne by done. by exists f.
  - intros j f. rewrite lookup_insert_Some. intros [[<- <-]|[_ Hj]]; right; [by exists e|by exists f].
Qed.

(** Computations that change the event map only so *)
Definition evolving {A} (m : SM A) : Prop :=
  ∀ em a em', m em = Some (Ok (a, em')) → evolves em em'.

Lemma evolving_bind {A B} (m : SM A) (f : A → SM B) :
  evolving m → (∀ a, evolving (f a)) → evolving (m ≫= f).
Proof. intros Hm Hf em b em' Hr. sm_inv. etrans; [by eapply Hm|by eapply Hf]. Qed.

Lemma evolving_ret {A} (a : A) : evolving (mret a : SM A).
Proof. intros em b em' Hr. by sm_inv. Qed.

Lemma evolving_lift {A} (m : py A) : evolving (lift m).
Proof. intros em b em' Hr. by sm_inv. Qed.

Lemma evolving_out_of_fuel {A} : evolving (@out_of_fuel A).
Proof. intros em b em' Hr. by sm_inv. Qed.

Lemma evolving_map_item i : evolving (map_item i).
Proof. intros em b em' Hr. by sm_inv. Qed.

Lemma evolving_get_map : evolving get_map.
Proof. intros em b em' Hr. by sm_inv. Qed.

Lemma evolving_fold {A S} (f : S → A → SM S) s l :
  (∀ s x, evolving (f s x)) → evolving (sm_fold f s l).
Proof.
  intros Hf. revert s. induction l as [|x l IH]; intros s; cbn [sm_fold].
  - apply evolving_ret.
  - apply evolving_bind; [apply Hf|apply IH].
Qed.

Lemma get_event_opt_Ok room_id i em o em' :
  get_event_opt room_id i em = Some (Ok (o, em')) →
  evolves em em' ∧ em' !! i = o ∧ ∀ e, o = Some e → ev_room_id e = room_id.
Proof.
  unfold get_event_opt. intros Hr. destruct (em !! i) as [e|] eqn:E.
  - rewrite E in Hr. case_decide; [|done]. injection Hr as <- <-.
    split_and!; [done|done|by intros ? [= <-]].
  - pose proof (evolves_fetch em [i]) as Hev.
    specialize (Hev ltac:(by intros ? ->%list_elem_of_singleton)).
    destruct ((store_get_events [i] ∪ em) !! i) as [e|] eqn:E'; [|by injection Hr as <- <-].
    case_decide; [|done]. injection Hr as <- <-. split_and!; [done|done|by intros ? [= <-]].
Qed.

Lemma evolving_get_event_opt room_id i : evolving (get_event_opt room_id i).
Proof. intros em o em' Hr. by apply get_event_opt_Ok in Hr as [? _]. Qed.

(** One syntax-directed step of such a proof *)
Ltac evolving :=
  repeat (intros; first
    [ apply evolving_ret | apply evolving_lift | apply evolving_out_of_fuel | apply evolving_map_item
    | apply evolving_get_map | apply evolving_get_event_opt | apply evolving_fold
    | solve [eauto with synapse]
    | apply evolving_bind
    | match goal with |- evolving (match ?x with _ => _ end) => destruct x end
    | match goal with |- evolving (let '(_, _) := ?x in _) => destruct x end ]).

Lemma evolving_get_event room_id i : evolving (get_event room_id i).
Proof. unfold get_event. evolving. Qed.
#[local] Hint Resolve evolving_get_event : synapse.

Lemma evolving_find_auth_of_type room_id t aids : evolving (find_auth_of_type room_id t aids).
Proof. induction aids as [|a aids IH]; cbn [find_auth_of_type]; evolving. Qed.
#[local] Hint Resolve evolving_find_auth_of_type : synapse.

Lemma evolving_grow_graph fuel room_id fcs stack g : evolving (grow_graph fuel room_id fcs stack g).
Proof.
  revert stack g. induction fuel as [|fuel IH]; intros [|i stack] g; cbn [grow_graph]; evolving.
Qed.
#[local] Hint Resolve evolving_grow_graph : synapse.

Lemma evolving_power_sort fuel room_id keep ids fcs :
  evolving (reverse_topological_power_sort fuel room_id keep ids fcs).
Proof.
  unfold reverse_topological_power_sort, add_event_and_auth_chain_to_graph, get_power_level_for_sender.
  evolving.
Qed.
#[local] Hint Resolve evolving_power_sort : synapse.

Lemma evolving_collect_auth_events room_id aids : evolving (collect_auth_events room_id aids).
Proof. unfold collect_auth_events. evolving. Qed.
#[local] Hint Resolve evolving_collect_auth_events : synapse.

Lemma evolving_overlay_state room_id st keys m : evolving (overlay_state room_id st keys m).
Proof. unfold overlay_state. evolving. Qed.
#[local] Hint Resolve evolving_overlay_state : synapse.

Lemma evolving_mainline fuel room_id pl : evolving (mainline fuel room_id pl).
Proof. revert pl. induction fuel as [|fuel IH]; intros [pl|]; cbn [mainline]; evolving. Qed.
#[local] Hint Resolve evolving_mainline : synapse.

Lemma evolving_mainline_depth fuel mm room_id o :
  evolving (get_mainline_depth_for_event fuel mm room_id o).
Proof.
  revert o. induction fuel as [|fuel IH]; intros [e|]; cbn [get_mainline_depth_for_event]; evolving.
Qed.
#[local] Hint Resolve evolving_mainline_depth : synapse.

Lemma evolving_mainline_sort fuel room_id ids pl : evolving (mainline_sort fuel room_id ids pl).
Proof. unfold mainline_sort. evolving. Qed.
#[local] Hint Resolve evolving_mainline_sort : synapse.

(** ** Applying events *)

(** The events an event is checked against were not rejected and are in the room. *)
Definition usable (room_id : string) (e : event) : Prop :=
  ev_rejected_reason e = None ∧ ev_room_id e = room_id.

Lemma collect_auth_events_ok room_id aids em m em' :
  collect_auth_events room_id aids em = Some (Ok (m, em')) →
  map_Forall (λ _, usable room_id) m.
Proof.
  apply (sm_fold_inv (λ m _, map_Forall (λ _, usable room_id) m));
    [|apply map_Forall_empty].
  intros a m1 em1 m2 em2 _ Hm Hr. sm_inv; try done.
  apply map_Forall_insert_2; [|done].
  match goal with H : get_event_opt _ _ _ = _ |- _ => apply get_event_opt_Ok in H as (_ & _ & Hroom) end.
  split; [done|]. by apply Hroom.
Qed.

Lemma get_event_Ok room_id i em e em' :
  get_event room_id i em = Some (Ok (e, em')) →
  evolves em em' ∧ em' !! i = Some e ∧ ev_room_id e = room_id.
Proof.
  unfold get_event. intros Hr. sm_inv; try done.
  match goal with H : get_event_opt _ _ _ = _ |- _ => apply get_event_opt_Ok in H as (? & ? & Hroom) end.
  split_and!; [done|congruence|]. by apply Hroom.
Qed.

Lemma overlay_state_ok room_id st keys m0 em m em' :
  map_Forall (λ _, usable room_id) m0 →
  overlay_state room_id st keys m0 em = Some (Ok (m, em')) →
  map_Forall (λ _, usable room_id) m.
Proof.
  intros Hm0. apply (sm_fold_inv (λ m _, map_Forall (λ _, usable room_id) m)); [|done].
  intros k m1 em1 m2 em2 _ Hm Hr. sm_inv; try done.
  match goal with H : get_event _ _ _ = _ |- _ => apply get_event_Ok in H as (_ & _ & Hroom) end.
  by apply map_Forall_insert_2.
Qed.

(** The entry [k] of a resolved state is an event filed under its own type and
    state key, that was not rejected before and passed the checks. *)
Definition admitted (room_id : string) (em : emap) (k : string * string) (i : string) : Prop :=
  ∃ e, em !! i = Some e ∧ ev_type e = k.1 ∧ ev_state_key e = Some k.2 ∧
    ev_rejected_reason e = None ∧
    ∃ e0 e1 auth, same_event e0 e ∧ Forall (usable room_id) auth ∧
      check_state_dependent_auth_rules e0 auth = Ok e1.

Lemma admitted_evolves room_id em em' k i :
  evolves em em' → admitted room_id em k i → admitted room_id em' k i.
Proof.
  intros [Hk _] (e & Hi & Ht & Hs & Hr & e0 & e1 & auth & Hse & Ha & Hc).
  destruct (Hk i e Hi) as (e' & Hi' & Hse'). exists e'. split_and!; [done|..].
  - rewrite <- Ht. by apply (same_event_field ev_type).
  - rewrite <- Hs. by apply (same_event_field ev_state_key).
  - rewrite <- Hr. by apply (same_event_field ev_rejected_reason).
  - exists e0, e1, auth. split_and!; [by etrans|done..].
Qed.

Lemma state_key_inv e sk : state_key e = Ok sk → ev_state_key e = Some sk.
Proof. unfold state_key. by destruct (ev_state_key e) as [?|]; [intros [= ->]|]. Qed.

(** A round either leaves the state or files the event, which is admitted. *)
Lemma auth_check_step_Ok room_id rv st i em st' em' :
  auth_check_step room_id rv st i em = Some (Ok (st', em')) →
  evolves em em' ∧ (st' = st ∨ ∃ k, st' = <[k := i]> st ∧ admitted room_id em' k i).
Proof.
  unfold auth_check_step. intros Hr. apply sm_bind_Ok in Hr as (e & em0 & Hi & Hr). apply map_item_Ok in Hi as [Hi ->].
  apply sm_bind_Ok in Hr as (m & em1 & Hm & Hr).
  apply sm_bind_Ok in Hr as (ks & em2 & Hks & Hr). apply lift_Ok in Hks as [_ ->].
  apply sm_bind_Ok in Hr as (m' & em3 & Hm' & Hr).
  assert (evolves em em3) as Hev.
  { etrans; [by eapply evolving_collect_auth_events|by eapply evolving_overlay_state]. }
  assert (map_Forall (λ _, usable room_id) m') as Hus.
  { eapply overlay_state_ok; [|done]. by eapply collect_auth_events_ok. }
  destruct (ev_rejected_reason e) eqn:Hrej; [sm_inv; auto|].
  destruct (check_state_dependent_auth_rules e _) as [e'|ex] eqn:Hc.
  2: { destruct (is_AuthError ex); sm_inv; [auto|done]. }
  pose proof (check_state_dependent_same _ _ _ Hc) as Hse. sm_inv.
  match goal with H : state_key _ = Ok ?k |- _ => rename H into Hsk; rename k into sk end.
  destruct (evolves_keep _ _ Hev i e) as (e3 & Hi3 & Hs3); [done|]. split.
  - etrans; [exact Hev|]. eapply evolves_update; [done|]. etrans; [symmetry|]; done.
  - right. exists (ev_type e, sk). split; [done|]. exists e'. split_and!; cbn.
    + by rewrite lookup_insert_eq.
    + symmetry. by apply (same_event_field ev_type).
    + rewrite <- (state_key_inv _ _ Hsk). symmetry. by apply (same_event_field ev_state_key).
    + rewrite <- Hrej. symmetry. by apply (same_event_field ev_rejected_reason).
    + eexists e, e', _. split_and!; [done| |exact Hc]. apply Forall_forall. intros a Ha.
      apply list_elem_of_fmap in Ha as ([k' a'] & -> & Hin%elem_of_map_to_list). by eapply Hus.
Qed.

Lemma evolving_iterative room_id rv ids st : evolving (iterative_auth_checks room_id rv ids st).
Proof. apply evolving_fold. intros ?? em a em' Hr. by apply auth_check_step_Ok in Hr as [? _]. Qed.
#[local] Hint Resolve evolving_iterative : synapse.

Lemma iterative_auth_checks_Ok room_id rv ids st em st' em' :
  iterative_auth_checks room_id rv ids st em = Some (Ok (st', em')) →
  ∀ k i, st' !! k = Some i → st !! k = Some i ∨ i ∈ ids ∧ admitted room_id em' k i.
Proof.
  intros Hr. revert Hr.
  apply (sm_fold_inv (λ st' em', ∀ k i, st' !! k = Some i →
    st !! k = Some i ∨ i ∈ ids ∧ admitted room_id em' k i)); [|by left].
  intros j st1 em1 st2 em2 Hj Hst Hr k i Hi.
  apply auth_check_step_Ok in Hr as [Hev [->|(k' & -> & Ha)]].
  - apply Hst in Hi as [?|[? ?]]; [by left|right]. split; [done|]. by eapply admitted_evolves.
  - apply lookup_insert_Some in Hi as [[<- <-]|[_ Hi]]; [by right|].
    apply Hst in Hi as [?|[? ?]]; [by left|right]. split; [done|]. by eapply admitted_evolves.
Qed.

(** ** The graph of power events *)

(** The auth events of an event that are in the full conflicted set *)
Definition edges (fcs : gset string) (e : event) : gset string :=
  list_to_set (List.filter (λ a, bool_decide (a ∈ fcs)) (auth_event_ids e)).

Lemma elem_of_filter_in {A} `{Countable A} (X : gset A) l a :
  a ∈ List.filter (λ a, bool_decide (a ∈ X)) l ↔ a ∈ l ∧ a ∈ X.
Proof. rewrite !list_elem_of_In, filter_In, bool_decide_eq_true. done. Qed.

Lemma elem_of_edges fcs e a : a ∈ edges fcs e ↔ a ∈ auth_event_ids e ∧ a ∈ fcs.
Proof. unfold edges. by rewrite elem_of_list_to_set, elem_of_filter_in. Qed.

Lemma edges_same fcs e e' : same_event e e' → edges fcs e = edges fcs e'.
Proof. by apply (same_event_field (edges fcs)). Qed.

(** The graph holds the edges of known events of the conflicted set; what they
    lead to is in the graph or waits on the stack. *)
Record graph_inv (fcs : gset string) (em : emap) (stack : list string) (g : graph) : Prop := {
  gi_edges n es : g !! n = Some es → n ∈ fcs ∧ ∃ e, em !! n = Some e ∧ es = edges fcs e;
  gi_closed n es a : g !! n = Some es → a ∈ es → a ∈ dom g ∨ a ∈ stack;
  gi_stack a : a ∈ stack → a ∈ fcs;
}.

Lemma graph_inv_evolves fcs em em' stack g :
  evolves em em' → graph_inv fcs em stack g → graph_inv fcs em' stack g.
Proof.
  intros [Hk _] [He Hc Hs]. split; [|done..]. intros n es Hn.
  destruct (He n es Hn) as (Hf & e & Hi & ->). destruct (Hk n e Hi) as (e' & Hi' & Hse).
  split; [done|]. exists e'. split; [done|]. by apply edges_same.
Qed.

Lemma graph_inv_step fcs em i stack g e new :
  graph_inv fcs em (i :: stack) g → em !! i = Some e →
  (∀ a, a ∈ new ↔ a ∈ edges fcs e ∧ a ∉ dom (<[i := ∅]> g : graph)) →
  graph_inv fcs em (new ++ stack) (<[i := edges fcs e]> g).
Proof.
  intros [He Hc Hs] Hi Hnew. split.
  - intros n es. rewrite lookup_insert_Some. intros [[<- <-]|[_ Hn]]; [|eauto].
    split; [apply Hs; by left|eauto].
  - intros n es a. rewrite dom_insert_L, elem_of_union, elem_of_singleton, elem_of_app, Hnew.
    rewrite dom_insert_L, elem_of_union, elem_of_singleton.
    rewrite lookup_insert_Some. intros [[<- <-]|[_ Hn]] Ha.
    + destruct (decide (a = i)); [by left; left|]. destruct (decide (a ∈ dom g)); [by left; right|].
      right. left. tauto.
    + destruct (Hc n es a Hn Ha) as [?|[->|?]%elem_of_cons]; tauto.
  - intros a [Ha|Ha]%elem_of_app; [|apply Hs; by right].
    apply Hnew in Ha as [Ha%elem_of_edges _]. tauto.
Qed.

Lemma grow_graph_Ok fuel room_id fcs stack g em g' em' :
  graph_inv fcs em stack g →
  grow_graph fuel room_id fcs stack g em = Some (Ok (g', em')) →
  graph_inv fcs em' [] g' ∧ dom g ⊆ dom g' ∧ ∀ i, i ∈ stack → i ∈ dom g'.
Proof.
  revert stack g em. induction fuel as [|fuel IH]; intros [|i stack] g em Hinv Hr; cbn [grow_graph] in Hr.
  1, 3: sm_inv; split_and!; [done|done|by intros ? []%not_elem_of_nil].
  { sm_inv. }
  apply sm_bind_Ok in Hr as (e & em1 & Hg & Hr). apply get_event_Ok in Hg as (Hev & Hi & _).
  pose proof (graph_inv_evolves _ _ _ _ _ Hev Hinv) as Hinv1.
  match type of Hr with grow_graph _ _ _ ?st ?gg _ = _ =>
    assert (gg = <[i := edges fcs e]> g) as Hgg; [|rewrite Hgg in Hr] end.
  { rewrite insert_insert_eq, lookup_insert_eq. cbn. fold (edges fcs e). f_equal.
    destruct (g !! i) as [es|] eqn:E; cbn; [|set_solver].
    destruct (gi_edges _ _ _ _ Hinv1 i es E) as (_ & e' & Hi' & ->).
    rewrite Hi in Hi'. injection Hi' as <-. set_solver. }
  apply IH in Hr as (? & Hd & Hst).
  - split_and!; [done|rewrite dom_insert_L in Hd; set_solver|].
    intros j [->|Hj]%elem_of_cons; [rewrite dom_insert_L in Hd; set_solver|].
    apply Hst, elem_of_app. by right.
  - apply (graph_inv_step _ _ _ _ _ e); [done..|].
    intros a. rewrite list_elem_of_In, <- in_rev, filter_In, <- list_elem_of_In, bool_decide_eq_true.
    rewrite elem_of_filter_in, elem_of_edges, not_elem_of_dom. by rewrite !lookup_insert_None.
Qed.

Lemma graph_loop_Ok fuel room_id keep ids fcs g em g' em' :
  (∀ e, keep (set_recheck_redaction e) = keep e) →
  (∀ i, i ∈ ids → i ∈ fcs) → graph_inv fcs em [] g →
  sm_fold (λ g eid,
    e ← map_item eid;
    b ← lift (keep e);
    if b : bool then add_event_and_auth_chain_to_graph fuel room_id fcs g eid else mret g) g ids em
  = Some (Ok (g', em')) →
  evolves em em' ∧ graph_inv fcs em' [] g' ∧ dom g ⊆ dom g' ∧
  ∀ i e, i ∈ ids → em !! i = Some e → keep e = Ok true → i ∈ dom g'.
Proof.
  intros Hkeep. revert g em. induction ids as [|i ids IH]; intros g em Hids Hinv Hr; cbn [sm_fold] in Hr.
  { sm_inv. split_and!; [done..|]. by intros ?? []%not_elem_of_nil. }
  apply sm_bind_Ok in Hr as (g1 & em1 & Hstep & Hr).
  apply sm_bind_Ok in Hstep as (e & ? & Hi & Hstep). apply map_item_Ok in Hi as [Hi ->].
  apply sm_bind_Ok in Hstep as (b & ? & Hb & Hstep). apply lift_Ok in Hb as [Hb ->].
  assert (evolves em em1 ∧ graph_inv fcs em1 [] g1 ∧ dom g ⊆ dom g1 ∧
    (keep e = Ok true → i ∈ dom g1)) as (Hev & Hinv1 & Hd & Hin).
  { destruct b; [|sm_inv; split_and!; try done; rewrite Hb; congruence].
    unfold add_event_and_auth_chain_to_graph in Hstep. split; [by eapply evolving_grow_graph|].
    apply grow_graph_Ok in Hstep as (? & ? & Hst).
    - split_and!; [done..|]. intros _. apply Hst. by left.
    - destruct Hinv as [He Hc _]. split; [done| |].
      + intros n es a Hn Ha. destruct (Hc n es a Hn Ha) as [?|[]%not_elem_of_nil]. by left.
      + intros a ->%list_elem_of_singleton. apply Hids. by left. }
  apply IH in Hr as (Hev' & Hinv' & Hd' & Hin'); [|intros; apply Hids; by right|done].
  split_and!; [by etrans|done|set_solver|]. intros j f [->|Hj]%elem_of_cons Hf Hk.
  - assert (f = e) as -> by congruence. auto.
  - destruct (evolves_keep _ _ Hev j f Hf) as (f' & Hf' & Hse).
    apply (Hin' j f'); [done..|]. rewrite <- Hk. symmetry. by apply (same_event_field keep).
Qed.

Lemma power_sort_Ok fuel room_id keep ids fcs em l em' :
  (∀ e, keep (set_recheck_redaction e) = keep e) →
  (∀ i, i ∈ ids → i ∈ fcs) →
  reverse_topological_power_sort fuel room_id keep ids fcs em = Some (Ok (l, em')) →
  ∃ g key, evolves em em' ∧ graph_inv fcs em' [] g ∧
    lexicographical_topological_sort power_key_leb key g = Some l ∧
    ∀ i e, i ∈ ids → em !! i = Some e → keep e = Ok true → i ∈ dom g.
Proof.
  intros Hkeep Hids Hr. pose proof (evolving_power_sort _ _ _ _ _ _ _ _ Hr) as Hev.
  unfold reverse_topological_power_sort in Hr.
  apply sm_bind_Ok in Hr as (g & em1 & Hg & Hr). apply graph_loop_Ok in Hg as (_ & Hinv & _ & Hin);
    [|done..|by split; [intros ??; rewrite lookup_empty|intros ???; rewrite lookup_empty|
                        intros ? []%not_elem_of_nil]].
  apply sm_bind_Ok in Hr as (pls & em2 & Hpl & Hr).
  assert (evolves em1 em2) as Hev2.
  { revert Hpl. apply evolving_fold. intros. unfold get_power_level_for_sender. evolving. }
  sm_inv. eexists g, _. split_and!; [done| |done|done]. by eapply graph_inv_evolves.
Qed.

#[local] Instance power_key_leb_total : TotalOrderB power_key_leb := pair_leb_total _ _ _ _.

Lemma power_sort_sub fuel room_id keep ids fcs em l em' :
  (∀ e, keep (set_recheck_redaction e) = keep e) →
  (∀ i, i ∈ ids → i ∈ fcs) →
  reverse_topological_power_sort fuel room_id keep ids fcs em = Some (Ok (l, em')) →
  ∀ i, i ∈ l → i ∈ fcs.
Proof.
  intros Hk Hids Hr i Hi. apply power_sort_Ok in Hr as (g & key & _ & Hinv & Hl & _); [|done..].
  apply (topo_sort_sub _ _ _ _ _ Hl), elem_of_dom in Hi as [es Hes].
  by apply (gi_edges _ _ _ _ Hinv) in Hes as [? _].
Qed.

(** ** The mainline sort *)

Lemma order_loop_Ok fuel mm ids acc em order em' :
  sm_fold (λ (acc : list (((Z * Z) * string) * string)) ev_id,
    e ← map_item ev_id;
    depth ← get_mainline_depth_for_event fuel mm (ev_room_id e) (Some e);
    mret (acc ++ [((depth, ev_origin_server_ts e), ev_id, ev_id)])) acc ids em = Some (Ok (order, em')) →
  map snd order = map snd acc ++ ids.
Proof.
  revert acc em. induction ids as [|i ids IH]; intros acc em Hr; cbn [sm_fold] in Hr.
  { sm_inv. by rewrite app_nil_r. }
  apply sm_bind_Ok in Hr as (acc' & em1 & Hstep & Hr). sm_inv.
  apply IH in Hr. rewrite Hr, map_app. cbn. by rewrite <- app_assoc.
Qed.

Lemma mainline_sort_perm fuel room_id ids pl em l em' :
  mainline_sort fuel room_id ids pl em = Some (Ok (l, em')) → l ≡ₚ ids.
Proof.
  unfold mainline_sort. intros Hr. destruct ids as [|i ids]; [by sm_inv|].
  apply sm_bind_Ok in Hr as (ml & em1 & _ & Hr). apply sm_bind_Ok in Hr as (order & em2 & Ho & Hr).
  apply order_loop_Ok in Ho. apply sm_ret_Ok in Hr as [-> _].
  rewrite (Permutation_map snd (py_sorted_perm _ order)). by rewrite Ho.
Qed.

(** ** Where the resolved state comes from *)

Lemma difference_same_map fuel room_id sets em ad em' :
  get_auth_chain_difference fuel room_id sets em = Some (Ok (ad, em')) → em' = em.
Proof.
  unfold get_auth_chain_difference. destruct (events_to_auth_chain fuel em); [cbn|done].
  case_decide; [congruence|]. destruct (map _ sets); cbn; congruence.
Qed.

Lemma resolve_conflicts_Ok fuel room_id rv sets u c em r em' :
  resolve_conflicts fuel room_id rv sets u c em = Some (Ok (r, em')) →
  ∃ auth_diff,
    get_auth_chain_difference fuel room_id sets em = Some (Ok (auth_diff, em)) ∧
    (∀ k i, u !! k = Some i → r !! k = Some i) ∧
    ∀ k i, r !! k = Some i → u !! k = Some i ∨
      (i ∈ auth_diff ∨ ∃ k' ids, c !! k' = Some ids ∧ i ∈ ids) ∧ admitted room_id em' k i.
Proof.
  unfold resolve_conflicts. intros Hr.
  apply sm_bind_Ok in Hr as (ad & em0 & Had & Hr).
  pose proof (difference_same_map _ _ _ _ _ _ Had) as ->.
  exists ad. split; [done|]. set (fcs0 := _ ∪ ad) in Hr.
  assert (∀ i, i ∈ fcs0 → i ∈ ad ∨ ∃ k' ids, c !! k' = Some ids ∧ i ∈ ids) as Hfcs0.
  { unfold fcs0. intros i. rewrite elem_of_union, elem_of_union_list. intros [(X & HX & Hi)|?]; [right|by left].
    apply list_elem_of_fmap in HX as ([k' X'] & -> & Hin%elem_of_map_to_list). eauto. }
  clearbody fcs0. apply sm_bind_Ok in Hr as ([] & em1 & Hem1 & Hr). apply update_map_Ok in Hem1.
  apply sm_bind_Ok in Hr as (? & ? & Hem & Hr). apply get_map_Ok in Hem as [-> ->].
  apply sm_bind_Ok in Hr as ([] & ? & _ & Hr).
  apply sm_bind_Ok in Hr as (spe & em2 & Hspe & Hr).
  apply sm_bind_Ok in Hr as (st1 & em3 & Hst1 & Hr).
  apply sm_bind_Ok in Hr as (lo & em4 & Hlo & Hr).
  apply sm_bind_Ok in Hr as (st2 & em5 & Hst2 & Hr). apply sm_ret_Ok in Hr as [-> ->].
  split; [intros k i Hi; by apply lookup_union_Some_l|].
  intros k i. rewrite lookup_union_Some_raw. intros [?|[_ Hi]]; [by left|].
  assert (∀ j, j ∈ spe → j ∈ fcs0) as Hspe'.
  { intros j Hj. apply power_sort_sub with (i := j) in Hspe;
      [|done|intros ? ?%elem_of_elements; done|done].
    by apply elem_of_filter in Hspe as [_ ?]. }
  destruct (iterative_auth_checks_Ok _ _ _ _ _ _ _ Hst2 k i Hi) as [Hi1|[Hin Ha]].
  - destruct (iterative_auth_checks_Ok _ _ _ _ _ _ _ Hst1 k i Hi1) as [|[Hin Ha]]; [by left|right].
    split; [auto|]. eapply admitted_evolves; [|done].
    etrans; [by eapply evolving_mainline_sort|by eapply evolving_iterative].
  - right. split; [|done]. rewrite (mainline_sort_perm _ _ _ _ _ _ _ Hlo) in Hin.
    apply list_elem_of_In, filter_In in Hin as [Hin _].
    apply list_elem_of_In, elem_of_elements, elem_of_filter in Hin as [_ Hin]. auto.
Qed.

(** ** Acyclic auth events *)

Lemma evolving_resolve_conflicts fuel room_id rv sets u c : evolving (resolve_conflicts fuel room_id rv sets u c).
Proof.
  intros em r em' Hr. unfold resolve_conflicts in Hr. apply sm_bind_Ok in Hr as (ad & em0 & Had & Hr).
  pose proof (difference_same_map _ _ _ _ _ _ Had) as ->. apply sm_bind_Ok in Hr as ([] & em1 & Hem1 & Hr). apply update_map_Ok in Hem1.
  trans em1.
  - subst em1. apply evolves_fetch. intros i Hi%elem_of_elements. by apply elem_of_filter in Hi as [? _].
  - clear Hem1. match type of Hr with ?m em1 = _ => enough (evolving m) as Hm by by eapply Hm end.
    repeat (intros; first [apply evolving_iterative | apply evolving_ret | apply evolving_get_map | apply evolving_lift | apply evolving_power_sort
      | apply evolving_mainline_sort | apply evolving_bind]).
Qed.

(** Where the entries of a resolved state come from, by their keys *)
Lemma resolve_own_keys fuel room_id rv sets em r em' k i :
  resolve_events_with_store fuel room_id rv sets em = Some (Ok (r, em')) → r !! k = Some i →
  (∃ s, s ∈ sets ∧ s !! k = Some i) ∨
  ∃ e, (from_store i e ∨ ∃ e0, em !! i = Some e0 ∧ same_event e0 e) ∧ ev_type e = k.1 ∧ ev_state_key e = Some k.2.
Proof.
  unfold resolve_events_with_store. intros Hr Hi. pose proof (λ k i, lookup_unconflicted sets k i) as Hu. destruct (seperate sets) as [u c]. cbn [fst snd] in *.
  assert (∀ k i, u !! k = Some i → ∃ s, s ∈ sets ∧ s !! k = Some i) as Hus.
  { intros k' i' [Hne Hall]%Hu. destruct sets as [|s sets]; [done|]. exists s. split; [by left|]. apply Hall. by left. }
  case_decide as Hemp; [sm_inv; left; by apply Hus|]. pose proof (evolving_resolve_conflicts _ _ _ _ _ _ _ _ _ Hr) as [_ Hnew].
  apply resolve_conflicts_Ok in Hr as (ad & _ & _ & Hfrom). destruct (Hfrom k i Hi) as [?|[_ (e & He & Ht & Hs & _)]]; [left; by apply Hus|right].
  exists e. split_and!; [by apply Hnew|done|done].
Qed.

(** The event known as [i] has that id, at most [D] auth events, and these are
    of smaller rank. *)
Definition dag_event (rank : string → nat) (D N : nat) (i : string) (e : event) : Prop :=
  ev_id e = i ∧ (length (auth_event_ids e) ≤ D)%nat ∧ (rank i ≤ N)%nat ∧
  ∀ a, a ∈ auth_event_ids e → (rank a < rank i)%nat.

Record auth_dag (rank : string → nat) (D N : nat) (em : emap) : Prop := {
  dag_map i e : em !! i = Some e → dag_event rank D N i e;
  dag_store ids i e : store_get_events ids !! i = Some e → dag_event rank D N i e;
}.

Lemma dag_event_same rank D N i e e' :
  same_event e e' → dag_event rank D N i e → dag_event rank D N i e'.
Proof.
  intros Hs. rewrite (same_event_field (dag_event rank D N i) e e') by done. done.
Qed.

Lemma auth_dag_evolves rank D N em em' : evolves em em' → auth_dag rank D N em → auth_dag rank D N em'.
Proof.
  intros [_ Hn] [Hm Hs]. split; [|done]. intros i e Hi.
  destruct (Hn i e Hi) as [(ids & e0 & He0 & Hse)|(e0 & He0 & Hse)];
    (eapply dag_event_same; [done|]); eauto.
Qed.

Lemma power_sort_order fuel room_id keep ids fcs em l em' rank D N :
  (∀ e, keep (set_recheck_redaction e) = keep e) →
  (∀ i, i ∈ ids → i ∈ fcs) → auth_dag rank D N em →
  reverse_topological_power_sort fuel room_id keep ids fcs em = Some (Ok (l, em')) →
  NoDup l ∧ (∀ i, i ∈ l → i ∈ fcs) ∧
  (∀ i e, i ∈ ids → em !! i = Some e → keep e = Ok true → i ∈ l) ∧
  ∀ p n e a, l !! p = Some n → em' !! n = Some e → a ∈ auth_event_ids e → a ∈ fcs →
    ∃ q, (q < p)%nat ∧ l !! q = Some a.
Proof.
  intros Hk Hids Hdag Hr. pose proof (power_sort_sub _ _ _ _ _ _ _ _ Hk Hids Hr) as Hsub.
  apply power_sort_Ok in Hr as (g & key & Hev & Hinv & Hl & Hin); [|done..].
  pose proof (auth_dag_evolves _ _ _ _ _ Hev Hdag) as Hdag'.
  destruct (topo_sort_acyclic power_key_leb key g rank) as (l' & Hl' & Hperm & Hord).
  { intros n es a Hn Ha. split; [by destruct (gi_closed _ _ _ _ Hinv n es a Hn Ha) as [|[]%not_elem_of_nil]|].
    apply (gi_edges _ _ _ _ Hinv) in Hn as (_ & e & He & ->). apply elem_of_edges in Ha as [Ha _].
    by apply (dag_map _ _ _ _ Hdag' n e He). }
  rewrite Hl in Hl'. injection Hl' as <-. split_and!; [|done|..].
  - rewrite Hperm. apply NoDup_elements.
  - intros i e Hi He Hke. rewrite Hperm. apply elem_of_elements. eauto.
  - intros p n e a Hp He Ha Hf.
    assert (n ∈ dom g) as [es Hes]%elem_of_dom.
    { apply elem_of_elements. rewrite <- Hperm. by eapply list_elem_of_lookup_2. }
    apply (Hord p n es a); [done..|]. apply (gi_edges _ _ _ _ Hinv) in Hes as (_ & e' & He' & ->).
    rewrite He in He'. injection He' as <-. by apply elem_of_edges.
Qed.

(** ** Termination *)

(** The size of the tree of auth events below some events *)
Definition weight (rank : string → nat) (D : nat) (l : list string) : nat :=
  sum_list (map (λ i, Nat.pow (S D) (rank i)) l).

Lemma weight_below rank D r l :
  (∀ a, a ∈ l → (rank a < S r)%nat) → (weight rank D l ≤ length l * Nat.pow (S D) r)%nat.
Proof.
  induction l as [|a l IH]; intros Hl; cbn; [lia|].
  assert (Nat.pow (S D) (rank a) ≤ Nat.pow (S D) r)%nat.
  { apply Nat.pow_le_mono_r; [lia|]. specialize (Hl a ltac:(by left)). lia. }
  specialize (IH ltac:(intros; apply Hl; by right)). unfold weight in IH. cbn in *. lia.
Qed.

Lemma weight_children rank D r l :
  (length l ≤ D)%nat → (∀ a, a ∈ l → (rank a < r)%nat) → (weight rank D l < Nat.pow (S D) r)%nat.
Proof.
  intros Hlen Hl. destruct r as [|r].
  { destruct l as [|a l]; [cbn; lia|]. specialize (Hl a ltac:(by left)). lia. }
  pose proof (weight_below rank D r l Hl). rewrite Nat.pow_succ_r'.
  pose proof (Nat.pow_nonzero (S D) r). nia.
Qed.

Lemma weight_app rank D l l' : weight rank D (l ++ l') = (weight rank D l + weight rank D l')%nat.
Proof. unfold weight. induction l; cbn in *; lia. Qed.

Lemma weight_event rank D N i e l :
  dag_event rank D N i e → (length l ≤ length (auth_event_ids e))%nat → l ⊆ auth_event_ids e →
  (weight rank D l < Nat.pow (S D) (rank i))%nat.
Proof.
  intros (_ & HD & _ & Hr) Hlen Hsub. apply weight_children; [lia|]. intros a Ha. by apply Hr, Hsub.
Qed.

Lemma search_chain_returns rank D N unpersisted fuel to_search chain :
  (∀ i e, unpersisted !! i = Some e → dag_event rank D N i e) →
  Forall (λ e, dag_event rank D N (ev_id e) e) to_search →
  (weight rank D (map ev_id to_search) ≤ fuel)%nat →
  is_Some (search_chain fuel unpersisted to_search chain).
Proof.
  intros Hu. revert to_search chain. induction fuel as [|fuel IH]; intros [|e l] chain Hl Hw;
    cbn [search_chain]; [done| |done|].
  { exfalso. cbn in Hw. pose proof (Nat.pow_nonzero (S D) (rank (ev_id e))). lia. }
  apply Forall_cons in Hl as [He Hl]. set (found := omap _ _).
  assert (∀ f, f ∈ found → dag_event rank D N (ev_id f) f ∧ ev_id f ∈ auth_event_ids e) as Hfound.
  { intros f (a & Ha & Hf)%list_elem_of_omap. pose proof (Hu a f Hf) as Hd.
    destruct Hd as [<- Hd']. done. }
  assert (weight rank D (map ev_id (rev found)) < Nat.pow (S D) (rank (ev_id e)))%nat.
  { apply (weight_event _ _ N _ e); [done|..].
    - rewrite length_map, length_rev. unfold found. clear.
      induction (auth_event_ids e) as [|a l IH]; cbn; [lia|]. destruct (unpersisted !! a); cbn; lia.
    - intros a Ha. apply list_elem_of_fmap in Ha as (f & -> & Hf).
      apply list_elem_of_In, in_rev, list_elem_of_In in Hf. by apply Hfound. }
  apply IH.
  - apply Forall_app. split; [|done]. apply Forall_forall. intros f Hf.
    apply list_elem_of_In, in_rev, list_elem_of_In in Hf. by apply Hfound.
  - rewrite map_app, weight_app. cbn in Hw. unfold weight in *. lia.
Qed.

Lemma chains_of_returns rank D N unpersisted fuel l :
  (∀ i e, unpersisted !! i = Some e → dag_event rank D N i e) →
  Forall (λ p, dag_event rank D N p.1 p.2) l → (Nat.pow (S D) N ≤ fuel)%nat →
  is_Some (chains_of fuel unpersisted l).
Proof.
  intros Hu Hl Hf. induction Hl as [|[i e] l He Hl [m IH]]; cbn [chains_of]; [done|]. cbn in He.
  assert (ev_id e = i) as Hid by apply He.
  destruct (search_chain_returns rank D N unpersisted fuel [e] {[ev_id e]}) as [c ->].
  - done.
  - apply Forall_singleton. by rewrite Hid.
  - cbn. rewrite Hid, Nat.add_0_r. etrans; [|exact Hf]. apply Nat.pow_le_mono_r; [lia|]. apply He.
  - cbn. by rewrite IH.
Qed.

(** A computation that returns or raises *)
Definition returns {A} (m : SM A) (em : emap) : Prop := m em ≠ None.

Lemma returns_bind {A B} (m : SM A) (f : A → SM B) em :
  returns m em → (∀ a em', m em = Some (Ok (a, em')) → returns (f a) em') → returns (m ≫= f) em.
Proof.
  unfold returns, mbind, SM_bind. intros Hm Hf. destruct (m em) as [[[a em']|]|]; [|done..].
  by apply Hf.
Qed.

Lemma returns_lift {A} (m : py A) em : returns (lift m) em.
Proof. done. Qed.

Lemma returns_map_item i em : returns (map_item i) em.
Proof. done. Qed.

Lemma returns_get_event_opt room_id i em : returns (get_event_opt room_id i) em.
Proof. unfold returns, get_event_opt. destruct (match em !! i with _ => _ end !! i); [|done]. by case_decide. Qed.

Lemma returns_fold {A S} (I : emap → Prop) (f : S → A → SM S) s l em :
  (∀ s x em, x ∈ l → I em → returns (f s x) em) →
  (∀ s x em s' em', I em → f s x em = Some (Ok (s', em')) → I em') →
  I em → returns (sm_fold f s l) em.
Proof.
  intros Hf HI. revert s em. induction l as [|x l IH]; intros s em Hem; cbn [sm_fold]; [done|].
  apply returns_bind; [apply Hf; [by left|done]|]. intros s' em' Hr. apply IH; [|eauto].
  intros ??? Hy. apply Hf. by right.
Qed.

(** The steps that take no fuel *)
Ltac returns :=
  repeat (intros; first
    [ apply returns_lift | apply returns_map_item | apply returns_get_event_opt
    | done | solve [eauto with synapse]
    | apply (returns_fold (λ _, True)); [| done | done]
    | apply returns_bind
    | match goal with |- returns (match ?x with _ => _ end) _ => destruct x end ]).

Lemma returns_get_event room_id i em : returns (get_event room_id i) em.
Proof. unfold get_event. returns. Qed.
#[local] Hint Resolve returns_get_event : synapse.

Lemma returns_find_auth room_id t aids em : returns (find_auth_of_type room_id t aids) em.
Proof. revert em. induction aids as [|a aids IH]; intros em; cbn [find_auth_of_type]; returns. Qed.
#[local] Hint Resolve returns_find_auth : synapse.

Lemma returns_power_level room_id i em : returns (get_power_level_for_sender room_id i) em.
Proof. unfold get_power_level_for_sender. returns. Qed.
#[local] Hint Resolve returns_power_level : synapse.

Lemma returns_iterative room_id rv ids st em : returns (iterative_auth_checks room_id rv ids st) em.
Proof.
  unfold iterative_auth_checks, auth_check_step, collect_auth_events, overlay_state. returns.
Qed.
#[local] Hint Resolve returns_iterative : synapse.

Section Termination.
Context (rank : string → nat) (D N : nat).
Abbreviation dag := (auth_dag rank D N).

Lemma grow_graph_returns fuel room_id fcs stack g em :
  dag em → (∀ i, i ∈ fcs → is_Some (em !! i)) → (∀ i, i ∈ stack → i ∈ fcs) →
  (weight rank D stack ≤ fuel)%nat → returns (grow_graph fuel room_id fcs stack g) em.
Proof.
  revert stack g em. induction fuel as [|fuel IH]; intros [|i stack] g em Hdag Hfcs Hst Hw;
    cbn [grow_graph]; [done| |done|].
  { exfalso. cbn in Hw. pose proof (Nat.pow_nonzero (S D) (rank i)). lia. }
  apply returns_bind; [apply returns_get_event|]. intros e em1 Hg.
  apply get_event_Ok in Hg as (Hev & Hi & _).
  pose proof (auth_dag_evolves _ _ _ _ _ Hev Hdag) as Hdag1.
  set (new := List.filter (λ a, bool_decide (_ = None)) _).
  assert (∀ a, a ∈ new → a ∈ auth_event_ids e ∧ a ∈ fcs) as Hnew.
  { intros a Ha. apply list_elem_of_In, filter_In in Ha as [Ha _].
    by apply list_elem_of_In, elem_of_filter_in in Ha. }
  assert (weight rank D (rev new) < Nat.pow (S D) (rank i))%nat.
  { apply (weight_event _ _ N _ e); [by apply (dag_map _ _ _ _ Hdag1)|..].
    - rewrite length_rev. unfold new. do 2 (etrans; [apply filter_length_le|]). done.
    - intros a Ha. apply list_elem_of_In, in_rev, list_elem_of_In in Ha. by apply Hnew. }
  apply IH; [done|..].
  - intros j Hj. destruct (Hfcs j Hj) as [f Hf].
    destruct (evolves_keep _ _ Hev j f Hf) as (f' & Hf' & _). eauto.
  - intros a [Ha|Ha]%elem_of_app; [|apply Hst; by right].
    apply list_elem_of_In, in_rev, list_elem_of_In in Ha. by apply Hnew.
  - rewrite weight_app. cbn in Hw. unfold weight in *. lia.
Qed.

Lemma find_auth_Ok room_id t aids em a e em' :
  find_auth_of_type room_id t aids em = Some (Ok (Some (a, e), em')) → a ∈ aids ∧ em' !! a = Some e.
Proof.
  revert em. induction aids as [|b aids IH]; intros em Hr; cbn [find_auth_of_type] in Hr;
    [by apply sm_ret_Ok in Hr as [? _]|].
  apply sm_bind_Ok in Hr as (o & em1 & Hg & Hr). apply get_event_opt_Ok in Hg as (_ & Hb & _).
  destruct o as [f|]; [|apply IH in Hr as [? ?]; split; [by right|done]].
  apply sm_bind_Ok in Hr as (sk & em2 & Hsk & Hr). apply lift_Ok in Hsk as [_ ->].
  case_bool_decide.
  - apply sm_ret_Ok in Hr as [[= -> ->] ->]. split; [by left|done].
  - apply IH in Hr as [? ?]. split; [by right|done].
Qed.

Lemma mainline_returns fuel room_id pl em :
  dag em → (0 < fuel)%nat → (∀ i e, pl = Some i → dag_event rank D N i e → (rank i < fuel)%nat) →
  returns (mainline fuel room_id pl) em.
Proof.
  revert pl em. induction fuel as [|fuel IH]; intros [i|] em Hdag Hpos Hrank; cbn [mainline]; [lia|done| |done].
  case_decide; [done|]. apply returns_bind; [apply returns_get_event|]. intros e em1 Hg.
  apply get_event_Ok in Hg as (Hev & Hi & _).
  pose proof (auth_dag_evolves _ _ _ _ _ Hev Hdag) as Hdag1.
  pose proof (dag_map _ _ _ _ Hdag1 i e Hi) as He. specialize (Hrank i e eq_refl He).
  apply returns_bind; [apply returns_find_auth|]. intros next em2 Hn.
  pose proof (evolving_find_auth_of_type _ _ _ _ _ _ Hn) as Hev2.
  apply returns_bind; [|done]. destruct next as [[a f]|]; cbn; [|by destruct fuel].
  apply find_auth_Ok in Hn as [Ha _]. apply He in Ha. apply IH.
  - by eapply auth_dag_evolves.
  - lia.
  - intros ?? [= <-] _. lia.
Qed.

Lemma mainline_depth_returns fuel mm room_id e em :
  dag em → dag_event rank D N (ev_id e) e → (rank (ev_id e) < fuel)%nat →
  returns (get_mainline_depth_for_event fuel mm room_id (Some e)) em.
Proof.
  revert e em. induction fuel as [|fuel IH]; intros e em Hdag He Hrank;
    cbn [get_mainline_depth_for_event]; [lia|].
  destruct (mm !! ev_id e); [done|]. apply returns_bind; [apply returns_find_auth|]. intros next em1 Hn.
  pose proof (evolving_find_auth_of_type _ _ _ _ _ _ Hn) as Hev.
  destruct next as [[a f]|]; cbn; [|by destruct fuel].
  pose proof (auth_dag_evolves _ _ _ _ _ Hev Hdag) as Hdag1.
  apply find_auth_Ok in Hn as [Ha Hf]. apply He in Ha.
  pose proof (dag_map _ _ _ _ Hdag1 a f Hf) as Hd. assert (ev_id f = a) as Hid by apply Hd.
  apply IH; [done|by rewrite Hid|]. rewrite Hid. lia.
Qed.

Context (fuel : nat) (Hpow : (Nat.pow (S D) N ≤ fuel)%nat) (HN : (N < fuel)%nat).

Lemma mainline_sort_returns room_id ids pl em : dag em → returns (mainline_sort fuel room_id ids pl) em.
Proof using H0 Hpow HN.
  intros Hdag. unfold mainline_sort. destruct ids as [|i ids]; [done|].
  apply returns_bind.
  { apply mainline_returns; [done|lia|]. intros j e _ (_ & _ & Hj & _). lia. }
  intros ml em1 Hml. apply returns_bind; [|done].
  apply (returns_fold dag); [| |by eapply auth_dag_evolves; [by eapply evolving_mainline|]].
  - intros acc j em2 _ Hd. apply returns_bind; [done|]. intros e em3 [He ->]%map_item_Ok.
    pose proof (dag_map _ _ _ _ Hd j e He) as Hde. assert (ev_id e = j) as Hid by apply Hde.
    apply returns_bind; [|done]. apply mainline_depth_returns; [done|by rewrite Hid|].
    rewrite Hid. destruct Hde as (_ & _ & ? & _). lia.
  - intros acc j em2 acc' em3 Hd Hr. eapply auth_dag_evolves; [|done].
    revert Hr. match goal with |- ?m em2 = _ → _ => cut (evolving m); [intros Hm Hr; by eapply Hm|] end.
    evolving.
Qed.

Lemma power_sort_returns room_id keep ids fcs em :
  dag em → (∀ i, i ∈ fcs → is_Some (em !! i)) → (∀ i, i ∈ ids → i ∈ fcs) →
  returns (reverse_topological_power_sort fuel room_id keep ids fcs) em.
Proof using H0 Hpow HN.
  intros Hdag Hfcs Hids. unfold reverse_topological_power_sort.
  apply returns_bind.
  - apply (returns_fold (λ em, dag em ∧ ∀ i, i ∈ fcs → is_Some (em !! i))); [| |done].
    + intros g i em1 Hi [Hd Hf]. apply returns_bind; [done|]. intros e em2 [He ->]%map_item_Ok.
      apply returns_bind; [done|]. intros [] em3 [_ ->]%lift_Ok; [|done].
      apply grow_graph_returns; [done..|by intros j ->%list_elem_of_singleton; auto|].
      cbn. rewrite Nat.add_0_r. etrans; [|exact Hpow]. apply Nat.pow_le_mono_r; [lia|].
      apply (dag_map _ _ _ _ Hd i e He).
    + intros g i em1 g' em2 [Hd Hf] Hr. assert (evolves em1 em2) as Hev.
      { revert Hr. match goal with |- ?m em1 = _ → _ => cut (evolving m); [intros Hm Hr; by eapply Hm|] end.
        unfold add_event_and_auth_chain_to_graph. evolving. }
      split; [by eapply auth_dag_evolves|]. intros j [f Hj]%Hf.
      destruct (evolves_keep _ _ Hev j f Hj) as (f' & ? & _). eauto.
  - intros g em1 _. apply returns_bind; [returns|]. intros pls em2 _.
    apply returns_bind; [done|]. intros em3 em4 _.
    destruct (topo_sort_total power_key_leb (get_power_order em3 pls) g) as (l & -> & _). done.
Qed.

Lemma difference_returns room_id sets em :
  dag em → returns (get_auth_chain_difference fuel room_id sets) em.
Proof using H0 Hpow HN.
  intros Hdag. unfold returns, get_auth_chain_difference, events_to_auth_chain.
  destruct (chains_of_returns rank D N em fuel (reverse (map_to_list em))) as [ch ->].
  - apply (dag_map _ _ _ _ Hdag).
  - apply Forall_forall. intros [i e] Hin. apply elem_of_reverse, elem_of_map_to_list in Hin.
    by apply (dag_map _ _ _ _ Hdag).
  - done.
  - cbn. case_decide; [done|]. by destruct (map _ sets).
Qed.

Lemma resolve_returns room_id rv sets em :
  dag em → returns (resolve_events_with_store fuel room_id rv sets) em.
Proof using H0 Hpow HN.
  intros Hdag. unfold resolve_events_with_store. destruct (seperate sets) as [u c].
  case_decide; [done|]. unfold resolve_conflicts.
  apply returns_bind; [by apply difference_returns|]. intros ad em0 Had.
  apply difference_same_map in Had as ->. set (fcs0 := _ ∪ ad). clearbody fcs0.
  apply returns_bind; [done|]. intros [] em1 Hem1. apply update_map_Ok in Hem1.
  assert (evolves em em1) as Hev.
  { rewrite Hem1. apply evolves_fetch. by intros i [? _]%elem_of_elements%elem_of_filter. }
  apply returns_bind; [done|]. intros ? ? [-> ->]%get_map_Ok.
  apply returns_bind; [done|]. intros [] ? [_ ->]%lift_Ok.
  pose proof (auth_dag_evolves _ _ _ _ _ Hev Hdag) as Hdag1.
  apply returns_bind.
  { apply power_sort_returns; [done|by intros i [? _]%elem_of_filter|by intros i ?%elem_of_elements]. }
  intros spe em2 Hspe. apply returns_bind; [apply returns_iterative|]. intros st em3 Hst.
  apply returns_bind; [|intros; apply returns_bind; [apply returns_iterative|done]].
  apply mainline_sort_returns. eapply auth_dag_evolves; [|done].
  etrans; [by eapply evolving_power_sort|by eapply evolving_iterative].
Qed.
End Termination.
End StateRes.

(** ** The theorems *)

(** [_seperate] splits the state: a key is unconflicted, with an event id,
    when every state set has it with this id, and conflicted when the sets
    disagree on it (one that lacks the key counts), with exactly the ids the sets
    have for it. *)
Theorem seperate_spec (sets : list (state_map string)) k :
  (∀ i, (seperate sets).1 !! k = Some i ↔ sets ≠ [] ∧ ∀ s, s ∈ sets → s !! k = Some i) ∧
  ∀ c, (seperate sets).2 !! k = Some c ↔
    disagree sets k ∧ ∀ i, i ∈ c ↔ ∃ s, s ∈ sets ∧ s !! k = Some i.
Proof. split; intros; [apply lookup_unconflicted|apply lookup_conflicted]. Qed.

(** Resolving any number of copies of one state gives that state, at once:
    no event is read or changed. *)
Theorem resolve_agreeing_states `{StateResolutionStore} `{External} fuel room_id rv n s em :
  resolve_events_with_store fuel room_id rv (replicate (S n) s) em = Some (Ok (s, em)).
Proof. unfold resolve_events_with_store. by rewrite seperate_agree, decide_True. Qed.

(** C4: Whenever state resolution returns a state, the entries on which all the
    states agree are in it unchanged, and every other entry is an event of the
    conflicted state or of the auth chain difference, filed under its own type
    and state key, that had not been rejected and that passed the authorization
    rules against unrejected events of the room. *)
Theorem resolved_state_provenance `{LawfulStore} `{External} fuel room_id rv sets em r em' :
  resolve_events_with_store fuel room_id rv sets em = Some (Ok (r, em')) →
  (∀ k i, sets ≠ [] → (∀ s, s ∈ sets → s !! k = Some i) → r !! k = Some i) ∧
  ∀ k i, r !! k = Some i →
    (∀ s, s ∈ sets → s !! k = Some i) ∨
    ((∃ ad, get_auth_chain_difference fuel room_id sets em = Some (Ok (ad, em)) ∧ i ∈ ad) ∨
     (∃ k' s, disagree sets k' ∧ s ∈ sets ∧ s !! k' = Some i)) ∧
    admitted room_id em' k i.
Proof.
  unfold resolve_events_with_store. intros Hr.
  pose proof (λ k i, lookup_unconflicted sets k i) as Hu.
  pose proof (λ k c, lookup_conflicted sets k c) as Hc.
  destruct (seperate sets) as [u c]. cbn [fst snd] in *. case_decide as Hemp.
  { sm_inv. split; [intros; apply Hu; done|]. intros k i Hi. left. by apply Hu in Hi as [_ ?]. }
  apply resolve_conflicts_Ok in Hr as (ad & Had & Hkeep & Hfrom). split.
  { intros k i Hne Hall. apply Hkeep, Hu. done. }
  intros k i Hi. apply Hfrom in Hi as [Hi|[Hi Ha]]; [left; by apply Hu in Hi as [_ ?]|right].
  split; [|done]. destruct Hi as [?|(k' & ids & Hk' & Hin)]; [left; eauto|right].
  apply Hc in Hk' as [Hd Hids]. apply Hids in Hin as (s & ? & ?). eauto.
Qed.

(** When auth events form no cycle, the sorted power events are distinct
    events of the full conflicted set, all its power events are among them, and
    every event comes after those of its auth events that are in the set. *)
Theorem power_sort_respects_auth `{LawfulStore} `{External} fuel room_id fcs em l em' rank D N :
  auth_dag rank D N em →
  reverse_topological_power_sort fuel room_id is_power_event (elements fcs) fcs em
  = Some (Ok (l, em')) →
  NoDup l ∧ (∀ i, i ∈ l → i ∈ fcs) ∧
  (∀ i e, i ∈ fcs → em !! i = Some e → is_power_event e = Ok true → i ∈ l) ∧
  ∀ p n e a, l !! p = Some n → em' !! n = Some e → a ∈ auth_event_ids e → a ∈ fcs →
    ∃ q, (q < p)%nat ∧ l !! q = Some a.
Proof.
  intros Hdag Hr. eapply power_sort_order in Hr as (? & ? & Hin & ?); [|done| |done].
  - split_and!; [done..| |done]. intros i e Hi. apply Hin. by apply elem_of_elements.
  - by intros i ?%elem_of_elements.
Qed.

(** C31: State resolution terminates when auth events form no cycle: if events
    have at most [D] auth events, of smaller rank, and ranks are at most [N],
    then the loops run out within [(D + 1) ^ N] and [N + 1] rounds, so that it
    returns a state or raises. *)
Theorem resolve_terminates `{LawfulStore} `{External} rank D N fuel room_id rv sets em :
  auth_dag rank D N em → (Nat.pow (S D) N ≤ fuel)%nat → (N < fuel)%nat →
  is_Some (resolve_events_with_store fuel room_id rv sets em).
Proof.
  intros Hdag Hp HN. apply not_eq_None_Some. exact (resolve_returns rank D N fuel Hp HN room_id rv sets em Hdag).
Qed.

(** ** A conflict *)

(** While Alice bans Bob, Bob sets the topic. *)
Definition bob_topic : event :=
  mk_event RoomVersions.V11 "$topic" "m.room.topic" bob (Some "") [("topic", JStr "hi")] 8
    ["$dave"] ["$create"; "$power"; "$bob"].
Definition bob_ban : event :=
  mk_event RoomVersions.V11 "$ban" EventTypes.Member alice (Some bob)
    [("membership", JStr Membership.BAN)] 9 ["$dave"] ["$create"; "$power"; "$alice"].

Definition stored : emap :=
  list_to_map (map (λ e, (ev_id e, e)) (room_events ++ [bob_topic; bob_ban])).

(** The auth events below an event *)
Fixpoint stored_chain (fuel : nat) (i : string) : gset string :=
  match fuel with
  | O => ∅
  | S fuel =>
      match stored !! i with
      | None => ∅
      | Some e => {[i]} ∪ ⋃ (map (stored_chain fuel) (auth_event_ids e))
      end
  end.

Definition set_chain (X : gset string) : gset string := ⋃ (map (stored_chain 5) (elements X)).

#[export] Instance room_store : StateResolutionStore := {|
  store_get_events ids := filter (λ p, p.1 ∈ ids) stored;
  store_get_auth_chain_difference _ sets :=
    union_of (map set_chain sets) ∖ intersection_of (map set_chain sets);
|}.

Definition common_state : list ((string * string) * string) :=
  [((EventTypes.Create, ""), "$create"); ((EventTypes.PowerLevels, ""), "$power");
   ((EventTypes.JoinRules, ""), "$rules"); ((EventTypes.Member, alice), "$alice")].
Definition topic_state : state_map string :=
  list_to_map (((EventTypes.Member, bob), "$bob") :: (("m.room.topic", ""), "$topic") :: common_state).
Definition ban_state : state_map string :=
  list_to_map (((EventTypes.Member, bob), "$ban") :: common_state).

Definition stored_rank (i : string) : nat :=
  if decide (i = "$create") then 0 else if decide (i = "$alice" ∨ i = "$bob") then 1
  else if decide (i = "$power") then 2 else 3.

Definition resolved : option (py (state_map string * emap)) :=
  resolve_events_with_store 64 "!r:hs" RoomVersions.V11 [topic_state; ban_state] ∅.

Definition resolved_entry (k : string * string) : option string :=
  match resolved with Some (Ok (r, _)) => r !! k | _ => None end.

(** The ban is resolved first and the topic is then refused. *)
Example ban_wins :
  map resolved_entry [(EventTypes.Member, bob); ("m.room.topic", ""); (EventTypes.PowerLevels, "")]
  = [Some "$ban"; None; Some "$power"].
Proof. vm_compute. reflexivity. Qed.

Definition dag_check (i : string) (e : event) : bool :=
  bool_decide (ev_id e = i) && (length (auth_event_ids e) <=? 3)%nat && (stored_rank i <=? 3)%nat &&
  forallb (λ a, stored_rank a <? stored_rank i)%nat (auth_event_ids e).

Lemma dag_check_true i e : dag_check i e = true → dag_event stored_rank 3 3 i e.
Proof.
  unfold dag_check, dag_event. rewrite !andb_true_iff, forallb_forall, bool_decide_eq_true.
  intros [[[? ?%Nat.leb_le] ?%Nat.leb_le] Hall]. split_and!; [done..|]. intros a Ha.
  by apply Nat.ltb_lt, Hall, list_elem_of_In.
Qed.

Lemma dag_check_map (m : emap) :
  forallb (λ p, dag_check p.1 p.2) (map_to_list m) = true →
  ∀ i e, m !! i = Some e → dag_event stored_rank 3 3 i e.
Proof.
  rewrite forallb_forall. intros Hall i e Hi. apply dag_check_true. apply (Hall (i, e)).
  by apply list_elem_of_In, elem_of_map_to_list.
Qed.

Lemma stored_dag : ∀ i e, stored !! i = Some e → dag_event stored_rank 3 3 i e.
Proof. apply dag_check_map. vm_compute. reflexivity. Qed.

Lemma room_store_events ids i e :
  store_get_events ids !! i = Some e → i ∈ ids ∧ stored !! i = Some e.
Proof. cbn. rewrite map_lookup_filter_Some. tauto. Qed.

#[export] Instance room_store_lawful : LawfulStore.
Proof.
  split.
  - intros ids i e [? Hi]%room_store_events. split; [done|]. apply (stored_dag i e Hi).
  - intros room_id sets sets' Hp. cbn.
    rewrite (union_of_perm _ (map set_chain sets')) by (by apply Permutation_map).
    by rewrite (intersection_of_perm _ (map set_chain sets')) by (by apply Permutation_map).
Qed.

Lemma room_dag : auth_dag stored_rank 3 3 ∅.
Proof.
  split; [by intros i e; rewrite lookup_empty|]. intros ids i e [_ Hi]%room_store_events.
  by apply stored_dag.
Qed.

Definition resolved_map : state_map string * emap :=
  match resolved with Some (Ok p) => p | _ => (∅, ∅) end.

Lemma resolved_Ok : resolved = Some (Ok (resolved_map.1, resolved_map.2)).
Proof.
  assert (match resolved with Some (Ok _) => true | _ => false end = true) as Hb
    by (vm_compute; reflexivity).
  revert Hb. unfold resolved_map. destruct resolved as [[[r em]|]|]; done.
Qed.

Example resolved_state_provenance_witness :
  (disagree [topic_state; ban_state] (EventTypes.Member, bob) ∧
   resolved_map.1 !! (EventTypes.Member, bob) = Some "$ban") ∧
  ∀ k i, resolved_map.1 !! k = Some i →
    (∀ s, s ∈ [topic_state; ban_state] → s !! k = Some i) ∨
    ((∃ ad, get_auth_chain_difference 64 "!r:hs" [topic_state; ban_state] ∅ = Some (Ok (ad, ∅)) ∧ i ∈ ad) ∨
     (∃ k' s, disagree [topic_state; ban_state] k' ∧ s ∈ [topic_state; ban_state] ∧ s !! k' = Some i)) ∧
    admitted "!r:hs" resolved_map.2 k i.
Proof.
  split; [split|].
  - exists topic_state, ban_state. split_and!; [by left|right; by left|by eexists|by vm_compute].
  - vm_compute. reflexivity.
  - apply (resolved_state_provenance 64 "!r:hs" RoomVersions.V11). exact resolved_Ok.
Defined.

Definition conflicted_example : gset string := {["$ban"; "$bob"; "$topic"]}.

Definition sorted_example : list string * emap :=
  match reverse_topological_power_sort 64 "!r:hs" is_power_event (elements conflicted_example)
          conflicted_example stored with
  | Some (Ok p) => p
  | _ => ([], ∅)
  end.

Lemma sorted_example_Ok :
  reverse_topological_power_sort 64 "!r:hs" is_power_event (elements conflicted_example)
    conflicted_example stored = Some (Ok (sorted_example.1, sorted_example.2)).
Proof.
  assert (match reverse_topological_power_sort 64 "!r:hs" is_power_event (elements conflicted_example)
          conflicted_example stored with Some (Ok _) => true | _ => false end = true) as Hb
    by (vm_compute; reflexivity).
  revert Hb. unfold sorted_example.
  destruct (reverse_topological_power_sort _ _ _ _ _ _) as [[[r em]|]|]; done.
Qed.

Example power_sort_respects_auth_witness :
  sorted_example.1 = ["$ban"] ∧ NoDup sorted_example.1 ∧
  (∀ i e, i ∈ conflicted_example → stored !! i = Some e → is_power_event e = Ok true →
     i ∈ sorted_example.1).
Proof.
  destruct (power_sort_respects_auth 64 "!r:hs" conflicted_example stored sorted_example.1
    sorted_example.2 stored_rank 3 3) as (? & _ & ? & _).
  - split; [exact stored_dag|]. intros ids i e [_ Hi]%room_store_events. by apply stored_dag.
  - exact sorted_example_Ok.
  - split_and!; [vm_compute; reflexivity|done..].
Defined.

Example resolve_terminates_witness :
  is_Some (resolve_events_with_store 64 "!r:hs" RoomVersions.V11 [topic_state; ban_state] ∅).
Proof.
  apply (resolve_terminates stored_rank 3 3 64); [exact room_dag|apply Nat.leb_le; reflexivity|lia].
Defined.

(** In a room of version 11 the creator is the sender of the create event, and
    has level 100 before there are power levels; the power sort looks for a
    [creator] in the content and gives level 0. *)
Example creator_level_in_v11 :
  fst <$> (get_power_level_for_sender "!r:hs" "$alice" stored ≫= λ r,
             match r with Ok p => Some p | Raise _ => None end) = Some 0 ∧
  get_user_power_level alice (state_of [create_event]) = Ok 100.
Proof. split; vm_compute; reflexivity. Qed.
