(* ===== verification/StateResV1.v ===== *)
(** * State resolution, version 1: [synapse/state/v1.py]

    The algorithm of the first room versions.  Events are read once through
    [state_map_factory], a parameter; dicts are [gmap]s, and where the source
    iterates over a dict or set the model iterates over its elements in some
    order.  What an event check changes is the [recheck_redaction] flag of the
    event, which nothing here reads: it is left out.

    The second part relates the sequential split of the states to a declarative
    one and shows where the entries of the resolved state come from. *)

From S2P Require Import Prelude PyData RoomVersions Ids Events EventAuth RoomExample.

Open Scope Z_scope.

Definition POWER_KEY : string * string := (EventTypes.PowerLevels, "").

(** ** Splitting the state *)

Definition seperate_v1_entry (acc : state_map string * state_map (gset string))
    (p : (string * string) * string) : state_map string * state_map (gset string) :=
  let '(unconflicted_state, conflicted_state) := acc in
  let '(key, value) := p in
  match unconflicted_state !! key with
  | None =>
      match conflicted_state !! key with
      | None => (<[key := value]> unconflicted_state, conflicted_state)
      | Some ls => (unconflicted_state, <[key := {[value]} ∪ ls]> conflicted_state)
      end
  | Some unconflicted_value =>
      if negb (bool_decide (unconflicted_value = value)) then
        (delete key unconflicted_state, <[key := {[value; unconflicted_value]}]> conflicted_state)
      else acc
  end.

Definition seperate_v1_set (acc : state_map string * state_map (gset string))
    (state_set : state_map string) : state_map string * state_map (gset string) :=
  foldl seperate_v1_entry acc (map_to_list state_set).

Definition seperate_v1 (state_sets : list (state_map string))
    : py (state_map string * state_map (gset string)) :=
  match state_sets with
  | [] => Raise StopIteration
  | s :: state_sets => Ok (foldl seperate_v1_set (s, ∅) state_sets)
  end.

Section V1.
Context `{External}.

(** ** Choosing events *)

(** [(-int(e.depth), hashlib.sha1(e.event_id.encode("utf-8")).hexdigest())] *)
Definition order_key (e : event) : Z * string := (- ev_depth e, sha1_hexdigest (ev_id e)).

Definition ordered_events (events : list event) : list event :=
  py_sorted (λ a b, pair_leb Z.leb String.leb (order_key a) (order_key b)) events.

(** The check against a dict of auth events; [true] if it passes, [false] if it
    raises an [AuthError] *)
Definition passes (e : event) (auth_events : state_map event) : py bool :=
  py_try (check_state_dependent_auth_rules e (map snd (map_to_list auth_events)) ;; Ok true)
    is_AuthError (Ok false).

(** The loop of [_resolve_normal_events]; [last] is the event of the previous
    round *)
Fixpoint first_passing (auth_events : state_map event) (last : option event) (events : list event)
    : py event :=
  match events with
  | [] => match last with Some e => Ok e | None => Raise UnboundLocalError end
  | e :: events =>
      ok ← passes e auth_events;
      if ok : bool then Ok e else first_passing auth_events (Some e) events
  end.

Definition resolve_normal_events (events : list event) (auth_events : state_map event) : py event :=
  first_passing auth_events None (ordered_events events).

(** The loop of [_resolve_auth_events] *)
Fixpoint extend_passing (auth_events : state_map event) (prev_event : event) (events : list event)
    : py event :=
  match events with
  | [] => Ok prev_event
  | e :: events =>
      sk ← state_key prev_event;
      let auth_events := <[(ev_type prev_event, sk) := prev_event]> auth_events in
      ok ← passes e auth_events;
      if ok : bool then extend_passing auth_events e events else Ok prev_event
  end.

Definition resolve_auth_events (room_version : RoomVersion) (events : list event)
    (auth_events : state_map event) : py event :=
  keys ← py_fold (λ (acc : gset (string * string)) e,
    ts ← auth_types_for_event room_version e; Ok (acc ∪ list_to_set ts)) ∅ events;
  let auth_events := filter (λ p, p.1 ∈ keys) auth_events in
  match reverse (ordered_events events) with
  | [] => Raise IndexError
  | [_] => Raise UnboundLocalError
  | prev_event :: events => extend_passing auth_events prev_event events
  end.

(** The conflicted entries whose key is selected, resolved one by one *)
Definition resolve_phase (select : string * string → state_map event → bool)
    (choose : list event → py event) (conflicted_state : state_map (list event))
    (resolved_state : state_map event) : py (state_map event) :=
  py_fold (λ acc (p : (string * string) * list event),
    if select p.1 acc then e ← choose p.2; Ok (<[p.1 := e]> acc) else Ok acc)
    resolved_state (map_to_list conflicted_state).

Definition resolve_state_events (room_version : RoomVersion)
    (conflicted_state : state_map (list event)) (auth_events : state_map event)
    : py (state_map event) :=
  resolved_state ←
    (match conflicted_state !! POWER_KEY with
     | Some events =>
         e ← resolve_auth_events room_version events auth_events; Ok {[POWER_KEY := e]}
     | None => Ok ∅
     end);
  let auth_events := resolved_state ∪ auth_events in
  resolved_state ←
    resolve_phase (λ k _, bool_decide (k.1 = EventTypes.JoinRules))
      (λ events, resolve_auth_events room_version events auth_events) conflicted_state resolved_state;
  let auth_events := resolved_state ∪ auth_events in
  resolved_state ←
    resolve_phase (λ k _, bool_decide (k.1 = EventTypes.Member))
      (λ events, resolve_auth_events room_version events auth_events) conflicted_state resolved_state;
  let auth_events := resolved_state ∪ auth_events in
  resolve_phase (λ k resolved, bool_decide (resolved !! k = None))
    (λ events, resolve_normal_events events auth_events) conflicted_state resolved_state.

(** [[state_map[ev_id] for ev_id in event_ids if ev_id in state_map]] *)
Definition known_events (known : gmap string event) (event_ids : gset string) : list event :=
  omap (M := list) (λ i, known !! i) (elements event_ids).

(** The entries of which more than one event is known stay in conflict; one known
    event decides an entry. *)
Definition split_known (known : gmap string event)
    (acc : state_map string * state_map (list event)) (p : (string * string) * gset string)
    : state_map string * state_map (list event) :=
  match known_events known p.2 with
  | [] => acc
  | [e] => (<[p.1 := ev_id e]> acc.1, acc.2)
  | events => (acc.1, <[p.1 := events]> acc.2)
  end.

Definition resolve_with_state (room_version : RoomVersion)
    (unconflicted_state_ids : state_map string) (conflicted_state_ids : state_map (gset string))
    (auth_event_ids : state_map string) (known : gmap string event) : py (state_map string) :=
  let '(new_state, conflicted_state) :=
    foldl (split_known known) (unconflicted_state_ids, ∅) (map_to_list conflicted_state_ids) in
  let auth_events : state_map event := omap (λ i, known !! i) auth_event_ids in
  resolved_state ← resolve_state_events room_version conflicted_state auth_events;
  Ok ((ev_id <$> resolved_state) ∪ new_state).

Definition add_auth_key (unconflicted_state : state_map string) (auth_events : state_map string)
    (key : string * string) : state_map string :=
  match auth_events !! key with
  | Some _ => auth_events
  | None =>
      match unconflicted_state !! key with
      | Some i => if bool_decide (i = "") then auth_events else <[key := i]> auth_events
      | None => auth_events
      end
  end.

Definition create_auth_events_from_maps (room_version : RoomVersion)
    (unconflicted_state : state_map string) (conflicted_state : state_map (gset string))
    (known : gmap string event) : py (state_map string) :=
  py_fold (λ (auth_events : state_map string) (p : (string * string) * gset string),
    py_fold (λ (auth_events : state_map string) event_id,
      match known !! event_id with
      | None => Ok auth_events
      | Some e =>
          keys ← auth_types_for_event room_version e;
          Ok (foldl (add_auth_key unconflicted_state) auth_events keys)
      end) auth_events (elements p.2)) ∅ (map_to_list conflicted_state).

(** ** The whole algorithm *)

Definition check_state_map_rooms (room_id : string) (known : gmap string event) : py unit :=
  py_for_each (λ p : string * event, raise_if (negb (bool_decide (ev_room_id p.2 = room_id)))
    (PyException "Attempting to state-resolve for room %s with event %s which is in %s"))
    (map_to_list known).

Definition resolve_events_with_store_v1 (state_map_factory : gset string → gmap string event)
    (room_id : string) (room_version : RoomVersion) (state_sets : list (state_map string))
    (event_map : option (gmap string event)) : py (state_map string) :=
  match state_sets with
  | [s] => Ok s
  | _ =>
      '(unconflicted_state, conflicted_state) ← seperate_v1 state_sets;
      let in_flight := default ∅ event_map in
      let needed_events : gset string :=
        ⋃ (map snd (map_to_list conflicted_state)) ∖ dom in_flight in
      let known := in_flight ∪ state_map_factory needed_events in
      check_state_map_rooms room_id known ;;
      auth_events ←
        create_auth_events_from_maps room_version unconflicted_state conflicted_state known;
      let new_needed_events : gset string :=
        (list_to_set (map snd (map_to_list auth_events)) ∖ needed_events) ∖ dom in_flight in
      let known_new := state_map_factory new_needed_events in
      check_state_map_rooms room_id known_new ;;
      resolve_with_state room_version unconflicted_state conflicted_state auth_events
        (known_new ∪ known)
  end.
End V1.

(** ** Splitting the state, declaratively *)

(** The values seen for a key, and what they make of it *)
Definition values_of (seen : list ((string * string) * string)) (k : string * string) : gset string :=
  list_to_set (omap (M := list) (λ p, if decide (p.1 = k) then Some p.2 else None) seen).

Definition classify (V : gset string) : option string * option (gset string) :=
  if decide (size V ≤ 1)%nat then (head (elements V), None) else (None, Some V).

Lemma elem_of_values_of seen k i : i ∈ values_of seen k ↔ (k, i) ∈ seen.
Proof.
  unfold values_of. rewrite elem_of_list_to_set, list_elem_of_omap. split.
  - intros ([k' j] & Hin & Hj). cbn in Hj. case_decide; [|done]. congruence.
  - intros Hin. exists (k, i). split; [done|]. cbn. by rewrite decide_True.
Qed.

Lemma values_of_app seen k v seen' :
  values_of (seen ++ (k, v) :: seen') k = {[v]} ∪ values_of (seen ++ seen') k.
Proof. apply set_eq. intros i. rewrite elem_of_union, !elem_of_values_of. set_solver. Qed.

Lemma size_le_1 (V : gset string) : (size V ≤ 1)%nat → V = ∅ ∨ ∃ i, V = {[i]}.
Proof.
  intros Hs. destruct (decide (size V = 0%nat)) as [E|E].
  - left. by apply leibniz_equiv, size_empty_inv.
  - right. assert (size V = 1%nat) as [i Hi]%size_1_elem_of by lia. exists i. by apply leibniz_equiv.
Qed.

Lemma size_two (V : gset string) i j : i ∈ V → j ∈ V → i ≠ j → (2 ≤ size V)%nat.
Proof.
  intros Hi Hj Hne. etrans; [|apply (subseteq_size {[i; j]})]; [|set_solver].
  rewrite size_union, !size_singleton by set_solver. lia.
Qed.

Lemma classify_add V v :
  classify ({[v]} ∪ V) =
  match classify V with
  | (None, None) => (Some v, None)
  | (None, Some ls) => (None, Some ({[v]} ∪ ls))
  | (Some i, c) => if decide (i = v) then (Some i, c) else (None, Some {[v; i]})
  end.
Proof.
  unfold classify. destruct (decide (size V ≤ 1)%nat) as [Hs|Hs].
  - apply size_le_1 in Hs as [->|[i ->]]; cbn [head].
    + rewrite elements_empty, union_empty_r_L. cbn [head].
      rewrite decide_True by (rewrite size_singleton; lia). by rewrite elements_singleton.
    + rewrite elements_singleton. cbn [head]. destruct (decide (i = v)) as [->|Hv].
      * rewrite union_idemp_L, decide_True by (rewrite size_singleton; lia).
        by rewrite elements_singleton.
      * rewrite decide_False; [done|].
        assert (2 ≤ size ({[v]} ∪ {[i]} : gset string))%nat; [|lia].
        apply (size_two _ i v); [set_solver..|done].
  - rewrite decide_False; [done|]. assert (size V ≤ size ({[v]} ∪ V))%nat by (apply subseteq_size; set_solver).
    lia.
Qed.

Lemma seperate_v1_entry_spec seen u c k v :
  (∀ k, (u !! k, c !! k) = classify (values_of seen k)) →
  ∀ k', ((seperate_v1_entry (u, c) (k, v)).1 !! k', (seperate_v1_entry (u, c) (k, v)).2 !! k')
        = classify (values_of (seen ++ [(k, v)]) k').
Proof.
  intros Hspec k'. destruct (decide (k' = k)) as [->|Hne].
  - rewrite values_of_app, app_nil_r, classify_add, <- (Hspec k). unfold seperate_v1_entry.
    destruct (u !! k) as [i|] eqn:Eu.
    + destruct (decide (i = v)) as [->|Hv].
      * rewrite bool_decide_eq_true_2 by done. cbn. by rewrite Eu.
      * rewrite bool_decide_eq_false_2 by done. cbn. by rewrite lookup_delete_eq, lookup_insert_eq.
    + destruct (c !! k) as [ls|] eqn:Ec; cbn; by rewrite ?Eu, ?Ec, lookup_insert_eq.
  - assert (values_of (seen ++ [(k, v)]) k' = values_of seen k') as ->.
    { apply set_eq. intros i. rewrite !elem_of_values_of. set_solver. }
    rewrite <- Hspec. unfold seperate_v1_entry. destruct (u !! k) as [i|].
    + destruct (negb _); cbn; by rewrite ?lookup_delete_ne, ?lookup_insert_ne by done.
    + destruct (c !! k); cbn; by rewrite lookup_insert_ne by done.
Qed.

Lemma seperate_v1_entries l seen acc :
  (∀ k, (acc.1 !! k, acc.2 !! k) = classify (values_of seen k)) →
  ∀ k, ((foldl seperate_v1_entry acc l).1 !! k, (foldl seperate_v1_entry acc l).2 !! k)
       = classify (values_of (seen ++ l) k).
Proof.
  revert seen acc. induction l as [|[k v] l IH]; intros seen [u c] Hspec; [by rewrite app_nil_r|].
  cbn [foldl]. replace (seen ++ (k, v) :: l) with ((seen ++ [(k, v)]) ++ l) by (by rewrite <- app_assoc).
  apply IH. by apply seperate_v1_entry_spec.
Qed.

Lemma seperate_v1_spec_all s sets u c :
  seperate_v1 (s :: sets) = Ok (u, c) →
  ∀ k, (u !! k, c !! k) = classify (values_of (flat_map map_to_list (s :: sets)) k).
Proof.
  cbn [seperate_v1]. intros [= Hf].
  assert (∀ sets seen acc, (∀ k, (acc.1 !! k, acc.2 !! k) = classify (values_of seen k)) →
    ∀ k, ((foldl seperate_v1_set acc sets).1 !! k, (foldl seperate_v1_set acc sets).2 !! k)
         = classify (values_of (seen ++ flat_map map_to_list sets) k)) as Hsets.
  { clear. induction sets as [|s sets IH]; intros seen acc Hspec; cbn [foldl flat_map].
    - by rewrite app_nil_r.
    - rewrite app_assoc. apply IH. by apply seperate_v1_entries. }
  specialize (Hsets sets (map_to_list s) (s, ∅)). rewrite Hf in Hsets. apply Hsets.
  intros k. cbn [fst snd]. rewrite lookup_empty. unfold classify.
  destruct (s !! k) as [i|] eqn:Ek.
  - assert (values_of (map_to_list s) k = {[i]}) as ->.
    { apply set_eq. intros j. rewrite elem_of_values_of, elem_of_map_to_list, Ek, elem_of_singleton.
      naive_solver. }
    rewrite decide_True by (rewrite size_singleton; lia). by rewrite elements_singleton.
  - assert (values_of (map_to_list s) k = ∅) as ->.
    { apply set_eq. intros j. rewrite elem_of_values_of, elem_of_map_to_list, Ek. set_solver. }
    by rewrite decide_True by (rewrite size_empty; lia).
Qed.

Lemma elem_of_entries (sets : list (state_map string)) k i :
  (k, i) ∈ flat_map map_to_list sets ↔ ∃ s, s ∈ sets ∧ s !! k = Some i.
Proof.
  rewrite list_elem_of_In, in_flat_map. setoid_rewrite <- list_elem_of_In.
  by setoid_rewrite elem_of_map_to_list.
Qed.

(** Some of the states has this event id for the key. *)
Definition candidate (sets : list (state_map string)) (k : string * string) (i : string) : Prop :=
  ∃ s, s ∈ sets ∧ s !! k = Some i.

Lemma seperate_v1_lookup sets u c k :
  seperate_v1 sets = Ok (u, c) →
  (∀ i, u !! k = Some i ↔ candidate sets k i ∧ ∀ j, candidate sets k j → j = i) ∧
  (∀ ids, c !! k = Some ids ↔
     (∀ i, i ∈ ids ↔ candidate sets k i) ∧ ∃ i j, candidate sets k i ∧ candidate sets k j ∧ i ≠ j).
Proof.
  intros Hs. destruct sets as [|s sets]; [done|].
  pose proof (seperate_v1_spec_all s sets u c Hs k) as Hk. revert Hk.
  set (V := values_of _ k). assert (∀ i, i ∈ V ↔ candidate (s :: sets) k i) as HV.
  { intros i. unfold V. by rewrite elem_of_values_of, elem_of_entries. }
  clearbody V. setoid_rewrite <- HV. unfold classify. case_decide as Hsz; intros [= -> ->].
  - apply size_le_1 in Hsz as [->|[x ->]].
    + rewrite elements_empty. cbn. split; [set_solver|]. intros ids. split; [done|set_solver].
    + rewrite elements_singleton. cbn. split.
      * intros i. rewrite elem_of_singleton. setoid_rewrite elem_of_singleton. naive_solver.
      * intros ids. split; [done|]. intros [_ (i & j & ->%elem_of_singleton & ->%elem_of_singleton & ?)]. done.
  - assert (∃ i j, i ∈ V ∧ j ∈ V ∧ i ≠ j) as Htwo.
    { destruct (set_choose_or_empty V) as [[i Hi]|E].
      2: { apply leibniz_equiv in E. rewrite E, size_empty in Hsz. lia. }
      destruct (set_choose_or_empty (V ∖ {[i]})) as [[j Hj]|E]; [exists i, j; set_solver|].
      assert (V ⊆ {[i]}) as Hsub.
      { intros x Hx. apply elem_of_singleton. destruct (decide (x = i)) as [|Hne]; [done|].
        assert (x ∈ V ∖ {[i]}) as Hin by (apply elem_of_difference; rewrite elem_of_singleton; done).
        rewrite E in Hin. by apply elem_of_empty in Hin. }
      apply subseteq_size in Hsub as Hle.
      rewrite size_singleton in Hle. lia. }
    split; [intros i; split; [done|]; intros [Hi Hall]; destruct Htwo as (a & b & Ha & Hb & Hab);
            apply Hall in Ha, Hb; congruence|].
    intros ids. split; [by intros [= <-]|]. intros [Hids _]. f_equal. apply set_eq. intros i. by rewrite Hids.
Qed.

(** ** Chosen events *)

Section V1Facts.
Context `{External}.

Lemma first_passing_elem auth last events e :
  first_passing auth last events = Ok e → e ∈ events ∨ last = Some e.
Proof.
  revert last. induction events as [|x events IH]; intros last Hr; cbn [first_passing] in Hr.
  - destruct last; [|done]. injection Hr as ->. by right.
  - apply py_bind_Ok in Hr as ([] & _ & Hr); [injection Hr as <-; left; by left|].
    left. apply IH in Hr as [?|[= ->]]; [by right|by left].
Qed.

Lemma extend_passing_elem auth prev events e :
  extend_passing auth prev events = Ok e → e ∈ prev :: events.
Proof.
  revert auth prev. induction events as [|x events IH]; intros auth prev Hr; cbn [extend_passing] in Hr.
  - injection Hr as <-. by left.
  - apply py_bind_Ok in Hr as (sk & _ & Hr). apply py_bind_Ok in Hr as ([] & _ & Hr).
    + right. by eapply IH.
    + injection Hr as <-. by left.
Qed.

Lemma elem_of_ordered_events e events : e ∈ ordered_events events ↔ e ∈ events.
Proof. unfold ordered_events. by rewrite py_sorted_perm. Qed.

Lemma resolve_normal_elem events auth e : resolve_normal_events events auth = Ok e → e ∈ events.
Proof. intros [He|?]%first_passing_elem; [by apply elem_of_ordered_events|done]. Qed.

Lemma resolve_auth_elem rv events auth e : resolve_auth_events rv events auth = Ok e → e ∈ events.
Proof.
  unfold resolve_auth_events. intros Hr. apply py_bind_Ok in Hr as (keys & _ & Hr).
  rewrite <- elem_of_ordered_events, <- elem_of_reverse.
  destruct (reverse (ordered_events events)) as [|x [|y l]]; [done..|].
  by eapply extend_passing_elem.
Qed.

(** Every entry is one of the conflicting events of its key. *)
Definition chosen_from (conflicted : state_map (list event)) (resolved : state_map event) : Prop :=
  ∀ k e, resolved !! k = Some e → ∃ events, conflicted !! k = Some events ∧ e ∈ events.

Lemma resolve_phase_chosen select choose conflicted resolved resolved' :
  (∀ events e, choose events = Ok e → e ∈ events) → chosen_from conflicted resolved →
  resolve_phase select choose conflicted resolved = Ok resolved' →
  chosen_from conflicted resolved' .
Proof.
  intros Hc. apply (py_fold_inv (chosen_from conflicted)).
  intros [k events] acc acc' Hin Hacc Hr. apply elem_of_map_to_list in Hin. cbn in Hr.
  destruct (select k acc); [|by injection Hr as <-].
  apply py_bind_Ok in Hr as (e & He & [= <-]). intros k' e' [[<- <-]|[_ Hk']]%lookup_insert_Some; eauto.
Qed.

Lemma resolve_state_events_chosen rv conflicted auth resolved :
  resolve_state_events rv conflicted auth = Ok resolved → chosen_from conflicted resolved.
Proof.
  unfold resolve_state_events. intros Hr.
  apply py_bind_Ok in Hr as (r1 & H1 & Hr). apply py_bind_Ok in Hr as (r2 & H2 & Hr).
  apply py_bind_Ok in Hr as (r3 & H3 & Hr).
  apply resolve_phase_chosen in Hr; [done|intros; by eapply resolve_normal_elem|].
  apply resolve_phase_chosen in H3; [done|intros; by eapply resolve_auth_elem|].
  apply resolve_phase_chosen in H2; [done|intros; by eapply resolve_auth_elem|].
  destruct (conflicted !! POWER_KEY) as [events|] eqn:Ek.
  - apply py_bind_Ok in H1 as (e & He & [= <-]).
    intros k e' [<- <-]%lookup_singleton_Some. exists events. split; [done|]. by eapply resolve_auth_elem.
  - injection H1 as <-. intros k e. by rewrite lookup_empty.
Qed.

(** ** Known events *)

Lemma elem_of_known known ids e :
  (∀ i e, known !! i = Some e → ev_id e = i) → e ∈ known_events known ids → ev_id e ∈ ids.
Proof.
  intros Hid (i & Hi & He)%list_elem_of_omap. rewrite (Hid i e He). by apply elem_of_elements.
Qed.

(** What the loop over the conflicted ids has made so far *)
Record split_inv (u : state_map string) (c : state_map (gset string))
    (acc : state_map string * state_map (list event)) : Prop := {
  split_from k i : acc.1 !! k = Some i → u !! k = Some i ∨ ∃ ids, c !! k = Some ids ∧ i ∈ ids;
  split_keep k i : u !! k = Some i → c !! k = None → acc.1 !! k = Some i;
  split_conf k events : acc.2 !! k = Some events →
    ∃ ids, c !! k = Some ids ∧ ∀ e, e ∈ events → ev_id e ∈ ids;
}.

Lemma split_known_inv known u c acc k ids :
  (∀ i e, known !! i = Some e → ev_id e = i) → c !! k = Some ids →
  split_inv u c acc → split_inv u c (split_known known acc (k, ids)).
Proof.
  intros Hid Hk [Hf Hkp Hc]. unfold split_known. cbn [fst snd].
  pose proof (λ e, elem_of_known known ids e Hid) as Hel.
  destruct (known_events known ids) as [|e [|e' l]]; [by split|..]; split; cbn [fst snd]; try done.
  - intros k' i [[<- <-]|[_ Hi]]%lookup_insert_Some; [|auto]. right. exists ids.
    split; [done|]. apply Hel. by left.
  - intros k' i Hu Hc'. rewrite lookup_insert_ne by congruence. auto.
  - intros k' events [[<- <-]|[_ Hi]]%lookup_insert_Some; [eauto|auto].
Qed.

Lemma split_all_inv known u c :
  (∀ i e, known !! i = Some e → ev_id e = i) →
  split_inv u c (foldl (split_known known) (u, ∅) (map_to_list c)).
Proof.
  intros Hid. assert (∀ l acc, (∀ p, p ∈ l → c !! p.1 = Some p.2) → split_inv u c acc →
    split_inv u c (foldl (split_known known) acc l)) as Hl.
  { induction l as [|[k ids] l IH]; intros acc Hin Hacc; [done|]. cbn [foldl]. apply IH.
    - intros p Hp. apply Hin. by right.
    - apply split_known_inv; [done| |done]. apply (Hin (k, ids)). by left. }
  apply Hl; [by intros [k ids] Hin%elem_of_map_to_list|]. split; cbn; [by left|done|].
  intros k events. by rewrite lookup_empty.
Qed.

Lemma resolve_with_state_from rv u c auth known r :
  (∀ i e, known !! i = Some e → ev_id e = i) →
  resolve_with_state rv u c auth known = Ok r →
  (∀ k i, r !! k = Some i → u !! k = Some i ∨ ∃ ids, c !! k = Some ids ∧ i ∈ ids) ∧
  ∀ k i, u !! k = Some i → c !! k = None → r !! k = Some i.
Proof.
  intros Hid. unfold resolve_with_state. pose proof (split_all_inv known u c Hid) as [Hf Hk Hc].
  destruct (foldl _ _ _) as [u' c']. cbn [fst snd] in *. intros Hr.
  apply py_bind_Ok in Hr as (res & Hres & [= <-]). apply resolve_state_events_chosen in Hres.
  split.
  - intros k i. rewrite lookup_union_Some_raw. intros [Hi|[_ Hi]]; [|auto].
    rewrite lookup_fmap, fmap_Some in Hi. destruct Hi as (e & He & ->).
    apply Hres in He as (events & He & Hin). apply Hc in He as (ids & ? & Hids). right. eauto.
  - intros k i Hu Hck. rewrite lookup_union_r; [auto|].
    rewrite lookup_fmap. destruct (res !! k) as [e|] eqn:He; [|done].
    apply Hres in He as (events & He & _). apply Hc in He as (ids & ? & _). congruence.
Qed.
End V1Facts.

(** ** The theorems *)

(** [_seperate] of the first state resolution looks at the states one after
    the other, and its result depends only on the set of event ids there are for
    a key, not on the order: a key is unconflicted when all the states that have
    it agree, and conflicted, with all its ids, when two of them differ. *)
Theorem seperate_v1_spec sets u c k :
  seperate_v1 sets = Ok (u, c) →
  (∀ i, u !! k = Some i ↔ candidate sets k i ∧ ∀ j, candidate sets k j → j = i) ∧
  (∀ ids, c !! k = Some ids ↔
     (∀ i, i ∈ ids ↔ candidate sets k i) ∧ ∃ i j, candidate sets k i ∧ candidate sets k j ∧ i ≠ j).
Proof. apply seperate_v1_lookup. Qed.

(** The state resolved by the first algorithm keeps every entry on which the
    states that have it agree, and gives every other key one of the event ids
    that one of the states has for this very key: nothing is made up and nothing
    moves to another key. *)
Theorem resolve_v1_picks_candidates `{External} factory room_id rv sets event_map r k i :
  (∀ ids j e, factory ids !! j = Some e → ev_id e = j) →
  (∀ em j e, event_map = Some em → em !! j = Some e → ev_id e = j) →
  resolve_events_with_store_v1 factory room_id rv sets event_map = Ok r →
  (r !! k = Some i → candidate sets k i) ∧
  (candidate sets k i → (∀ j, candidate sets k j → j = i) → r !! k = Some i).
Proof.
  intros Hf Hm Hr. destruct sets as [|s [|s' sets]]; [done|..].
  { injection Hr as ->. unfold candidate. split.
    - intros Hi. exists r. split; [by left|done].
    - by intros (s & ->%list_elem_of_singleton & Hs) _. }
  unfold resolve_events_with_store_v1 in Hr.
  apply py_bind_Ok in Hr as ([u c] & Hsep & Hr). apply py_bind_Ok in Hr as ([] & _ & Hr).
  apply py_bind_Ok in Hr as (auth & _ & Hr). apply py_bind_Ok in Hr as ([] & _ & Hr).
  apply resolve_with_state_from in Hr as [Hfrom Hkeep].
  - destruct (seperate_v1_lookup _ u c k Hsep) as [Hu Hc]. split.
    + intros Hi. apply Hfrom in Hi as [Hi|(ids & Hids & Hi)]; [by apply Hu in Hi as [? _]|].
      apply Hc in Hids as [Hids _]. by apply Hids.
    + intros Hi Hall. apply Hkeep; [by apply Hu|]. apply eq_None_not_Some. intros [ids Ek].
      apply Hc in Ek as [_ (a & b & Ha & Hb & Hab)]. apply Hall in Ha, Hb. congruence.
  - intros j e. rewrite !lookup_union_Some_raw. intros [Hj|[_ [Hj|[_ Hj]]]]; [eauto| |eauto].
    destruct event_map as [em|]; cbn in Hj; [eauto|by rewrite lookup_empty in Hj].
Qed.

(** ** A conflict resolved by depth *)

(** Two topics, set in different branches of a room of version 1. *)
Definition topic_event (id : string) (depth : Z) : event :=
  mk_event RoomVersions.V1 id "m.room.topic" alice (Some "") [("topic", JStr "t")] depth [] ["$create"].
Definition v1_create : event :=
  mk_event RoomVersions.V1 "$create" EventTypes.Create alice (Some "") [("creator", JStr alice)] 1 [] [].
Definition v1_alice : event :=
  mk_event RoomVersions.V1 "$alice" EventTypes.Member alice (Some alice)
    [("membership", JStr Membership.JOIN)] 2 [] ["$create"].

Definition v1_events : gmap string event :=
  list_to_map (map (λ e, (ev_id e, e)) [topic_event "$t1" 5; topic_event "$t2" 7; v1_create; v1_alice]).
Definition v1_factory (ids : gset string) : gmap string event := filter (λ p, p.1 ∈ ids) v1_events.

Definition v1_state (topic : string) : state_map string :=
  list_to_map [((EventTypes.Create, ""), "$create"); ((EventTypes.Member, alice), "$alice");
               (("m.room.topic", ""), topic)].
Definition v1_resolved : py (state_map string) :=
  resolve_events_with_store_v1 v1_factory "!r:hs" RoomVersions.V1 [v1_state "$t1"; v1_state "$t2"] None.
Definition v1_result : state_map string := match v1_resolved with Ok r => r | Raise _ => ∅ end.

Lemma v1_resolved_Ok : v1_resolved = Ok v1_result.
Proof.
  assert (is_ok v1_resolved = true) as Hb by (vm_compute; reflexivity).
  revert Hb. unfold v1_result. by destruct v1_resolved.
Qed.

Example deepest_topic_wins : v1_result !! ("m.room.topic", "") = Some "$t2".
Proof. vm_compute. reflexivity. Qed.

Lemma v1_ids_map (m : gmap string event) :
  forallb (λ p : string * event, bool_decide (ev_id p.2 = p.1)) (map_to_list m) = true →
  ∀ i e, m !! i = Some e → ev_id e = i.
Proof.
  rewrite forallb_forall. intros Hall i e Hi.
  specialize (Hall (i, e) ltac:(by apply list_elem_of_In, elem_of_map_to_list)). by to_prop.
Qed.

Example seperate_v1_spec_witness :
  match seperate_v1 [v1_state "$t1"; v1_state "$t2"] with
  | Ok (u, c) => u !! (EventTypes.Create, "") = Some "$create" ↔
      candidate [v1_state "$t1"; v1_state "$t2"] (EventTypes.Create, "") "$create" ∧
      ∀ j, candidate [v1_state "$t1"; v1_state "$t2"] (EventTypes.Create, "") j → j = "$create"
  | Raise _ => False
  end.
Proof.
  destruct (seperate_v1 _) as [[u c]|ex] eqn:E; [|done].
  apply (seperate_v1_spec _ u c (EventTypes.Create, "") E).
Defined.

Example resolve_v1_picks_candidates_witness :
  candidate [v1_state "$t1"; v1_state "$t2"] ("m.room.topic", "") "$t2".
Proof.
  apply (resolve_v1_picks_candidates v1_factory "!r:hs" RoomVersions.V1
           [v1_state "$t1"; v1_state "$t2"] None v1_result ("m.room.topic", "") "$t2").
  - intros ids j e. unfold v1_factory. rewrite map_lookup_filter_Some. intros [Hj _].
    revert j e Hj. apply v1_ids_map. vm_compute. reflexivity.
  - done.
  - exact v1_resolved_Ok.
  - exact deepest_topic_wins.
Defined.
