(* ===== verification/ChangeCache.v ===== *)
(** * The stream change cache: [synapse/util/caches/stream_change_cache.py]

    A bounded record of which entities changed at which stream positions.  The
    first part is the class, the second the abstract log of changes it stands for
    and the theorems that relate the two.

    The [SortedDict] is a [gmap] whose keys are read in order; a query with a
    position is an [int] by its type, so that the [assert]s always hold; the
    metrics are left out. *)

From Stdlib Require Import QArith Qround.
From S2P Require Import Prelude.

Open Scope Z_scope.

Record StreamChangeCache : Type := {
  original_max_size : Z;
  max_size : Z;
  cache : gmap Z (gset string);
  entity_to_key : gmap string Z;
  earliest_known_stream_pos : Z;
}.

Definition with_maps (s : StreamChangeCache) (c : gmap Z (gset string)) (m : gmap string Z)
    (earliest : Z) : StreamChangeCache :=
  {| original_max_size := original_max_size s; max_size := max_size s; cache := c;
     entity_to_key := m; earliest_known_stream_pos := earliest |}.

(** The keys of the [SortedDict], in order *)
Definition sorted_keys (c : gmap Z (gset string)) : list Z := py_sorted Z.leb (elements (dom c)).

(** [self._cache.peekitem()[0]], the largest key *)
Definition peek_last (c : gmap Z (gset string)) : option Z := last (sorted_keys c).

(** The [while] loop of [_evict].  [popitem(0)] takes the smallest key, so that
    the keys go in order; it raises on an empty dict. *)
Fixpoint evict_keys (keys : list Z) (s : StreamChangeCache) : py StreamChangeCache :=
  if max_size s <? Z.of_nat (size (cache s)) then
    match keys with
    | [] => Raise KeyError
    | k :: keys =>
        let r := default ∅ (cache s !! k) in
        evict_keys keys
          (with_maps s (delete k (cache s))
             (foldl (λ m e, delete e m) (entity_to_key s) (elements r))
             (Z.max k (earliest_known_stream_pos s)))
    end
  else Ok s.

Definition evict (s : StreamChangeCache) : py StreamChangeCache :=
  evict_keys (sorted_keys (cache s)) s.

(** Taking an entity out of the set at its old position *)
Definition remove_old (c : gmap Z (gset string)) (old_pos : Z) (entity : string)
    : py (gmap Z (gset string)) :=
  match c !! old_pos with
  | None => Raise KeyError
  | Some e =>
      if bool_decide (entity ∈ e) then
        let e := e ∖ {[entity]} in
        Ok (if bool_decide (e = ∅) then delete old_pos c else <[old_pos := e]> c)
      else Raise KeyError
  end.

Definition entity_has_changed (s : StreamChangeCache) (entity : string) (stream_pos : Z)
    : py StreamChangeCache :=
  if stream_pos <=? earliest_known_stream_pos s then Ok s
  else
    let file c :=
      let e1 := default ∅ (c !! stream_pos) in
      evict (with_maps s (<[stream_pos := {[entity]} ∪ e1]> c)
               (<[entity := stream_pos]> (entity_to_key s)) (earliest_known_stream_pos s)) in
    match entity_to_key s !! entity with
    | Some old_pos =>
        if stream_pos <=? old_pos then Ok s
        else c ← remove_old (cache s) old_pos entity; file c
    | None => file (cache s)
    end.

Definition new_cache (current_stream_pos max_size : Z) (prefilled_cache : list (string * Z))
    : py StreamChangeCache :=
  py_fold (λ s p, entity_has_changed s p.1 p.2)
    {| original_max_size := max_size; max_size := max_size; cache := ∅; entity_to_key := ∅;
       earliest_known_stream_pos := current_stream_pos |} prefilled_cache.

(** The [factor] is a rational. *)
Definition set_cache_factor (s : StreamChangeCache) (factor : Q) : py (StreamChangeCache * bool) :=
  let new_size := Qfloor (Qmult (inject_Z (original_max_size s)) factor) in
  if negb (new_size =? max_size s) then
    s ← evict {| original_max_size := original_max_size s; max_size := new_size; cache := cache s;
                 entity_to_key := entity_to_key s;
                 earliest_known_stream_pos := earliest_known_stream_pos s |};
    Ok (s, true)
  else Ok (s, false).

Definition has_entity_changed (s : StreamChangeCache) (entity : string) (stream_pos : Z) : bool :=
  if stream_pos <? earliest_known_stream_pos s then true
  else
    match entity_to_key s !! entity with
    | None => false
    | Some latest => stream_pos <? latest
    end.

(** The result of [get_all_entities_changed]: [None] when there is no hit *)
Definition get_all_entities_changed (s : StreamChangeCache) (stream_pos : Z) : option (list string) :=
  if stream_pos <? earliest_known_stream_pos s then None
  else Some (flat_map (λ k, elements (default ∅ (cache s !! k)))
               (List.filter (λ k, stream_pos <? k) (sorted_keys (cache s)))).

(** The branches on the kind and size of [entities] only choose which of the two
    collections the intersection starts from. *)
Definition get_entities_changed (s : StreamChangeCache) (entities : list string) (stream_pos : Z)
    (perf_factor : Z) : gset string :=
  match peek_last (cache s) with
  | None => list_to_set entities
  | Some max_stream_pos =>
      if stream_pos <? earliest_known_stream_pos s then list_to_set entities
      else if perf_factor * Z.of_nat (length entities) <? max_stream_pos - stream_pos then
        list_to_set (List.filter
          (λ e, stream_pos <? default (-1) (entity_to_key s !! e)) entities)
      else
        match get_all_entities_changed s stream_pos with
        | Some changed => list_to_set entities ∩ list_to_set changed
        | None => list_to_set entities
        end
  end.

Definition has_any_entity_changed (s : StreamChangeCache) (stream_pos : Z) : bool :=
  if stream_pos <? earliest_known_stream_pos s then true
  else
    match peek_last (cache s) with
    | None => false
    | Some last_pos => stream_pos <? last_pos
    end.

Definition get_max_pos_of_last_change (s : StreamChangeCache) (entity : string) : option Z :=
  entity_to_key s !! entity.

Definition get_earliest_known_position (s : StreamChangeCache) : Z := earliest_known_stream_pos s.

(** ** The log of changes the cache stands for *)

Definition change_log : Type := list (string * Z).

Definition changed_after (log : change_log) (e : string) (p : Z) : Prop := ∃ q, (e, q) ∈ log ∧ p < q.

(** The two maps agree, and hold the last change of every entity that changed
    after the earliest known position. *)
Record cache_inv (s : StreamChangeCache) (log : change_log) : Prop := {
  inv_sync e q : entity_to_key s !! e = Some q ↔ ∃ S, cache s !! q = Some S ∧ e ∈ S;
  inv_nonempty q S : cache s !! q = Some S → S ≠ ∅;
  inv_after q : q ∈ dom (cache s) → earliest_known_stream_pos s < q;
  inv_last e q : entity_to_key s !! e = Some q → (e, q) ∈ log ∧ ∀ q', (e, q') ∈ log → q' ≤ q;
  inv_known e q : (e, q) ∈ log → earliest_known_stream_pos s < q → is_Some (entity_to_key s !! e);
}.

Lemma elem_of_sorted_keys c k : k ∈ sorted_keys c ↔ k ∈ dom c.
Proof. unfold sorted_keys. by rewrite py_sorted_perm, elem_of_elements. Qed.

Lemma sorted_keys_sorted c : StronglySorted Z.le (sorted_keys c).
Proof.
  assert (StronglySorted (λ x y, (x <=? y) = true) (sorted_keys c)) as Hs.
  { apply py_sorted_sorted; intros; rewrite ?Z.leb_le in *; lia. }
  induction Hs as [|k l _ IH Hk]; constructor; [done|].
  eapply Forall_impl; [exact Hk|]. intros x. apply Z.leb_le.
Qed.

Lemma sorted_keys_NoDup c : NoDup (sorted_keys c).
Proof. unfold sorted_keys. rewrite py_sorted_perm. apply NoDup_elements. Qed.

Lemma lookup_foldl_delete (l : list string) (m : gmap string Z) e :
  foldl (λ m e, delete e m) m l !! e = if decide (e ∈ l) then None else m !! e.
Proof.
  revert m. induction l as [|e' l IH]; intros m; cbn [foldl]; [done|]. rewrite IH.
  destruct (decide (e ∈ l)) as [Hl|Hl]; [by rewrite decide_True by (by right)|].
  destruct (decide (e' = e)) as [->|Hne].
  - by rewrite lookup_delete_eq, decide_True by (by left).
  - rewrite lookup_delete_ne by done. rewrite decide_False; [done|].
    intros [->|?]%elem_of_cons; done.
Qed.

(** Taking out the smallest key *)
Lemma pop_inv s log k :
  cache_inv s log → k ∈ dom (cache s) → (∀ q, q ∈ dom (cache s) → k ≤ q) →
  cache_inv (with_maps s (delete k (cache s))
    (foldl (λ m e, delete e m) (entity_to_key s) (elements (default ∅ (cache s !! k))))
    (Z.max k (earliest_known_stream_pos s))) log.
Proof.
  intros [Hsync Hne Haft Hlast Hkn] Hk Hmin. apply elem_of_dom in Hk as [R HR].
  assert (∀ e q, entity_to_key s !! e = Some q → e ∈ R ↔ q = k) as HeR.
  { intros e q He. split; [|intros ->; apply Hsync in He as (S & HS & ?); congruence].
    intros Hin. assert (entity_to_key s !! e = Some k) by (apply Hsync; eauto). congruence. }
  rewrite HR. cbn [default from_option]. unfold id.
  split; cbn [entity_to_key cache earliest_known_stream_pos with_maps].
  - intros e q. rewrite lookup_foldl_delete. case_decide as Hin; [apply elem_of_elements in Hin|].
    + split; [done|]. intros (S & [Hkq HS]%lookup_delete_Some & HeS).
      assert (entity_to_key s !! e = Some q) as He by (apply Hsync; eauto).
      destruct Hkq. symmetry. by apply (HeR e q He).
    + rewrite elem_of_elements in Hin. rewrite Hsync. setoid_rewrite lookup_delete_Some.
      split; [|naive_solver]. intros (S & HS & HeS). exists S. split_and!; [|done..].
      intros <-. apply Hin. by rewrite HR in HS; injection HS as ->.
  - intros q S [_ HS]%lookup_delete_Some. eauto.
  - intros q. rewrite dom_delete_L, elem_of_difference, elem_of_singleton. intros [Hq Hqk].
    specialize (Haft q Hq). specialize (Hmin q Hq). lia.
  - intros e q. rewrite lookup_foldl_delete. case_decide; [done|]. apply Hlast.
  - intros e q Hin Hq. destruct (Hkn e q Hin) as [q' Hq']; [lia|].
    rewrite lookup_foldl_delete, decide_False; [eauto|]. rewrite elem_of_elements, (HeR e q' Hq').
    intros ->. apply Hlast in Hq' as [_ Hle]. specialize (Hle q Hin). lia.
Qed.

Lemma evict_keys_inv keys s log :
  cache_inv s log → 0 ≤ max_size s →
  (∀ k, k ∈ keys ↔ k ∈ dom (cache s)) → StronglySorted Z.le keys → NoDup keys →
  ∃ s', evict_keys keys s = Ok s' ∧ cache_inv s' log ∧ Z.of_nat (size (cache s')) ≤ max_size s' ∧
    max_size s' = max_size s ∧ original_max_size s' = original_max_size s.
Proof.
  revert s. induction keys as [|k keys IH]; intros s Hinv Hm Hkeys Hs Hnd;
    cbn [evict_keys]; destruct (max_size s <? _) eqn:E; to_prop.
  - exfalso. assert (cache s = ∅) as Hc.
    { apply dom_empty_inv_L, set_eq. intros k. rewrite <- Hkeys. set_solver. }
    rewrite Hc, map_size_empty in E. lia.
  - eauto 10.
  - apply StronglySorted_inv in Hs as [Hs Hall]. apply NoDup_cons in Hnd as [Hk Hnd].
    rewrite Forall_forall in Hall.
    destruct (IH (with_maps s (delete k (cache s))
      (foldl (λ m e, delete e m) (entity_to_key s) (elements (default ∅ (cache s !! k))))
      (Z.max k (earliest_known_stream_pos s)))) as (s' & Hr & ? & ? & Hmax & Horig); [|done| |done..|].
    + apply pop_inv; [done|apply Hkeys; by left|].
      intros q [->|Hq]%Hkeys%elem_of_cons; [lia|]. by apply Hall.
    + intros q. cbn. rewrite dom_delete_L, elem_of_difference, elem_of_singleton, <- Hkeys, elem_of_cons.
      split; [|tauto]. intros Hq. split; [by right|]. by intros ->.
    + exists s'. split_and!; done.
  - eauto 10.
Qed.

Lemma evict_inv s log :
  cache_inv s log → 0 ≤ max_size s →
  ∃ s', evict s = Ok s' ∧ cache_inv s' log ∧ Z.of_nat (size (cache s')) ≤ max_size s' ∧
    max_size s' = max_size s ∧ original_max_size s' = original_max_size s.
Proof.
  intros Hinv Hm. apply evict_keys_inv; [done..| | |].
  - intros k. apply elem_of_sorted_keys.
  - apply sorted_keys_sorted.
  - apply sorted_keys_NoDup.
Qed.

Ltac apply_evict_inv :=
  match goal with |- ∃ s', evict ?t = _ ∧ _ => apply (evict_inv t); [|done] end.

(** ** Recording a change *)

Definition at_pos (c : gmap Z (gset string)) (q : Z) (e : string) : Prop :=
  ∃ S, c !! q = Some S ∧ e ∈ S.

Lemma remove_old_inv s log e old :
  cache_inv s log → entity_to_key s !! e = Some old →
  ∃ c, remove_old (cache s) old e = Ok c ∧ dom c ⊆ dom (cache s) ∧
    (∀ q S, c !! q = Some S → S ≠ ∅) ∧
    ∀ q x, at_pos c q x ↔ entity_to_key s !! x = Some q ∧ x ≠ e.
Proof.
  intros [Hsync Hne _ _ _] He. destruct (proj1 (Hsync e old) He) as (R & HR & HeR).
  unfold remove_old. rewrite HR, bool_decide_eq_true_2 by done.
  assert (∀ q x, at_pos (cache s) q x ↔ entity_to_key s !! x = Some q) as Hat
    by (intros; symmetry; apply Hsync).
  assert (∀ q, entity_to_key s !! e = Some q → q = old) as Huniq by (intros; congruence).
  eexists. split; [done|]. case_bool_decide as Hemp; split_and!.
  - rewrite dom_delete_L. set_solver.
  - intros q S [_ HS]%lookup_delete_Some. eauto.
  - intros q x. rewrite <- Hat. unfold at_pos. setoid_rewrite lookup_delete_Some. split.
    + intros (S & [Hq HS] & Hx). split; [eauto|]. intros ->. destruct Hq. symmetry.
      apply Huniq, Hat. by exists S.
    + intros [(S & HS & Hx) Hxe]. exists S. split_and!; [|done..]. intros <-.
      assert (x ∈ R ∖ {[e]}) by (rewrite HR in HS; injection HS as ->; set_solver). set_solver.
  - rewrite dom_insert_L. apply elem_of_dom_2 in HR. set_solver.
  - intros q S [[_ <-]|[_ HS]]%lookup_insert_Some; [done|eauto].
  - intros q x. rewrite <- Hat. unfold at_pos. setoid_rewrite lookup_insert_Some. split.
    + intros (S & [[<- <-]|[Hq HS]] & Hx).
      * apply elem_of_difference in Hx as [Hx Hxe]. split; [eauto|set_solver].
      * split; [eauto|]. intros ->. destruct Hq. symmetry. apply Huniq, Hat. by exists S.
    + intros [(S & HS & Hx) Hxe]. destruct (decide (old = q)) as [<-|].
      * rewrite HR in HS. injection HS as ->. exists (S ∖ {[e]}). split; [by left|set_solver].
      * exists S. split; [by right|done].
Qed.

Lemma file_inv s log e p c :
  cache_inv s log → earliest_known_stream_pos s < p → dom c ⊆ dom (cache s) →
  (∀ q S, c !! q = Some S → S ≠ ∅) →
  (∀ q x, at_pos c q x ↔ entity_to_key s !! x = Some q ∧ x ≠ e) →
  (∀ q, (e, q) ∈ log → q < p) →
  cache_inv (with_maps s (<[p := {[e]} ∪ default ∅ (c !! p)]> c)
    (<[e := p]> (entity_to_key s)) (earliest_known_stream_pos s)) ((e, p) :: log).
Proof.
  intros [Hsync Hne Haft Hlast Hkn] Hp Hdom Hcne Hat Hlt.
  assert (∀ x, x ∈ default ∅ (c !! p) ↔ at_pos c p x) as Hdef.
  { intros x. unfold at_pos. destruct (c !! p) as [S|]; cbn; [naive_solver|set_solver]. }
  split; cbn [entity_to_key cache earliest_known_stream_pos with_maps].
  - intros x q. change (∃ S, ?m !! q = Some S ∧ x ∈ S) with (at_pos m q x).
    rewrite lookup_insert_Some. trans (x = e ∧ q = p ∨ at_pos c q x).
    { rewrite Hat. naive_solver. }
    unfold at_pos at 2. setoid_rewrite lookup_insert_Some. split.
    + intros [[-> ->]|(S & HS & Hx)]; [eexists; split; [by left|set_solver]|].
      destruct (decide (p = q)) as [<-|]; [|by exists S; split; [right|]].
      eexists. split; [by left|]. apply elem_of_union_r, Hdef. by exists S.
    + intros (S & [[<- <-]|[Hpq HS]] & Hx); [|right; by exists S].
      apply elem_of_union in Hx as [->%elem_of_singleton|Hx]; [by left|right]. by apply Hdef.
  - intros q S [[_ <-]|[_ HS]]%lookup_insert_Some; [set_solver|eauto].
  - intros q. rewrite dom_insert_L, elem_of_union, elem_of_singleton. intros [->|Hq]; [done|auto].
  - intros x q [[<- <-]|[Hx Hq]]%lookup_insert_Some.
    + split; [by left|]. intros q' [[= ->]|Hq']%elem_of_cons; [lia|]. specialize (Hlt q' Hq'). lia.
    + apply Hlast in Hq as [Hin Hmax]. split; [by right|].
      intros q' [[= <- _]|Hq']%elem_of_cons; [done|auto].
  - intros x q Hin Hq. rewrite lookup_insert_is_Some. destruct (decide (e = x)); [by left|right].
    split; [done|]. apply elem_of_cons in Hin as [[= <- _]|Hin]; [done|eauto].
Qed.

Lemma entity_has_changed_inv s log e p :
  cache_inv s log → 0 ≤ max_size s → Z.of_nat (size (cache s)) ≤ max_size s →
  ∃ s', entity_has_changed s e p = Ok s' ∧ cache_inv s' ((e, p) :: log) ∧
    Z.of_nat (size (cache s')) ≤ max_size s' ∧
    max_size s' = max_size s ∧ original_max_size s' = original_max_size s.
Proof.
  intros Hinv Hm Hsz. unfold entity_has_changed. destruct (p <=? _) eqn:Ep; to_prop.
  { exists s. split_and!; try done. destruct Hinv as [Hsync Hne Haft Hlast Hkn]. split; [done..| |].
    - intros x q Hq. pose proof (Haft q) as Hq'. destruct (Hlast x q Hq) as [Hin Hmax].
      split; [by right|]. intros q' [[= _ ->]|?]%elem_of_cons; [|auto].
      apply Hsync in Hq as (S & HS & _). specialize (Hq' ltac:(by apply elem_of_dom)). lia.
    - intros x q [[= -> ->]|Hin]%elem_of_cons Hq; [lia|eauto]. }
  destruct (entity_to_key s !! e) as [old|] eqn:Eo.
  - destruct (p <=? old) eqn:Eold; to_prop.
    { exists s. split_and!; try done. destruct Hinv as [Hsync Hne Haft Hlast Hkn]. split; [done..| |].
      - intros x q Hq. destruct (Hlast x q Hq) as [Hin Hmax]. split; [by right|].
        intros q' [[= -> ->]|?]%elem_of_cons; [|auto]. assert (q = old) as -> by congruence. done.
      - intros x q [[= -> ->]|Hin]%elem_of_cons Hq; eauto. }
    destruct (remove_old_inv s log e old Hinv Eo) as (c & -> & Hdom & Hcne & Hat).
    cbn [mbind py_bind]. apply_evict_inv.
    apply file_inv; try done. intros q Hq. apply (inv_last _ _ Hinv) in Eo as [_ Hmax].
    specialize (Hmax q Hq). lia.
  - apply_evict_inv. apply file_inv; try done.
    + apply (inv_nonempty _ _ Hinv).
    + intros q x. rewrite (inv_sync _ _ Hinv). split; [|naive_solver]. intros Hx. split; [done|].
      intros ->. apply (inv_sync _ _ Hinv) in Hx. congruence.
    + intros q Hq. destruct (decide (q < p)); [done|]. exfalso.
      destruct (inv_known _ _ Hinv e q Hq) as [? ?]; [lia|congruence].
Qed.

(** ** Reachable caches, with the changes reported so far *)

Inductive reachable : StreamChangeCache → change_log → Prop :=
  | reach_new pos size prefilled s :
      0 ≤ size → new_cache pos size prefilled = Ok s → reachable s prefilled
  | reach_change s log e p s' :
      reachable s log → entity_has_changed s e p = Ok s' → reachable s' ((e, p) :: log)
  | reach_factor s log factor s' b :
      reachable s log → Qle 0 factor → set_cache_factor s factor = Ok (s', b) → reachable s' log.

Record cache_ok (s : StreamChangeCache) (log : change_log) : Prop := {
  ok_inv : cache_inv s log;
  ok_max : 0 ≤ max_size s;
  ok_original : 0 ≤ original_max_size s;
  ok_size : Z.of_nat (size (cache s)) ≤ max_size s;
}.

Lemma change_ok s log e p :
  cache_ok s log → ∃ s', entity_has_changed s e p = Ok s' ∧ cache_ok s' ((e, p) :: log).
Proof.
  intros [Hi Hm Ho Hs]. destruct (entity_has_changed_inv s log e p Hi Hm Hs) as (s' & ? & ? & ? & E1 & E2).
  exists s'. split; [done|]. split; [done|by rewrite E1|by rewrite E2|done].
Qed.

Lemma cache_inv_log s log log' : (∀ x, x ∈ log ↔ x ∈ log') → cache_inv s log → cache_inv s log'.
Proof.
  intros Heq [Hsync Hne Haft Hlast Hkn]. split; [done..| |].
  - intros e q Hq. apply Hlast in Hq as [Hin Hmax]. split; [by apply Heq|].
    intros q' Hq'. by apply Hmax, Heq.
  - intros e q Hin. apply Hkn. by apply Heq.
Qed.

Lemma prefill_ok prefilled s log :
  cache_ok s log →
  ∃ s', py_fold (λ s p, entity_has_changed s p.1 p.2) s prefilled = Ok s' ∧
    cache_ok s' (rev prefilled ++ log).
Proof.
  revert s log. induction prefilled as [|[e p] l IH]; intros s log Hok; cbn [py_fold]; [eauto|].
  destruct (change_ok s log e p Hok) as (s1 & Hs1 & Hok1). cbn [fst snd]. rewrite Hs1.
  destruct (IH s1 _ Hok1) as (s2 & Hs2 & Hok2). exists s2. split; [done|].
  cbn [rev]. by rewrite <- app_assoc.
Qed.

Lemma new_cache_ok pos n prefilled :
  0 ≤ n → ∃ s, new_cache pos n prefilled = Ok s ∧ cache_ok s prefilled.
Proof.
  intros Hn. unfold new_cache. edestruct (prefill_ok prefilled) as (s & -> & [Hi ???]); cycle 1.
  - exists s. split; [done|]. split; [|done..]. eapply cache_inv_log; [|exact Hi].
    intros x. rewrite app_nil_r, !list_elem_of_In. symmetry. apply in_rev.
  - split; cbn; [|done..]. split; cbn.
    + intros e q. rewrite lookup_empty. setoid_rewrite lookup_empty. naive_solver.
    + intros q S. by rewrite lookup_empty.
    + intros q. by rewrite dom_empty_L, elem_of_empty.
    + intros e q. by rewrite lookup_empty.
    + by intros e q []%not_elem_of_nil.
Qed.

Lemma factor_ok s log factor :
  cache_ok s log → Qle 0 factor →
  ∃ s' b, set_cache_factor s factor = Ok (s', b) ∧ cache_ok s' log ∧
    max_size s' = Qfloor (Qmult (inject_Z (original_max_size s)) factor).
Proof.
  intros [Hi Hm Ho Hs] Hf. unfold set_cache_factor.
  set (n := Qfloor _). assert (0 ≤ n) as Hn.
  { change 0 with (Qfloor 0). apply Qfloor_resp_le. apply Qmult_le_0_compat; [|done].
    by rewrite <- (Zle_Qle 0). }
  destruct (n =? max_size s) eqn:E; cbn [negb].
  { exists s, false. apply Z.eqb_eq in E. done. }
  match goal with |- context [evict ?t] => destruct (evict_inv t log) as (s' & -> & ? & ? & E1 & E2) end.
  - destruct Hi. by split.
  - done.
  - exists s', true. split; [done|]. split; [|done]. split; [done|by rewrite E1|by rewrite E2|done].
Qed.

Lemma reachable_ok s log : reachable s log → cache_ok s log.
Proof.
  induction 1 as [pos n prefilled s Hn Hs|s log e p s' _ IH Hs|s log f s' b _ IH Hf Hs].
  - destruct (new_cache_ok pos n prefilled Hn) as (s' & Hs' & ?). congruence.
  - destruct (change_ok s log e p IH) as (s2 & Hs2 & ?). congruence.
  - destruct (factor_ok s log f IH Hf) as (s2 & b2 & Hs2 & ? & _). congruence.
Qed.

(** ** What the queries say *)

Lemma known_changed s log e p :
  cache_inv s log → earliest_known_stream_pos s ≤ p →
  (∃ q, entity_to_key s !! e = Some q ∧ p < q) ↔ changed_after log e p.
Proof.
  intros Hi Hp. split.
  - intros (q & Hq & Hlt). apply (inv_last _ _ Hi) in Hq as [Hin _]. by exists q.
  - intros (q & Hin & Hlt). destruct (inv_known _ _ Hi e q Hin) as [q' Hq']; [lia|].
    exists q'. split; [done|]. apply (inv_last _ _ Hi) in Hq' as [_ Hmax]. specialize (Hmax q Hin). lia.
Qed.

Lemma has_entity_changed_spec s log e p :
  cache_inv s log → earliest_known_stream_pos s ≤ p →
  has_entity_changed s e p = true ↔ changed_after log e p.
Proof.
  intros Hi Hp. rewrite <- (known_changed s) by done. unfold has_entity_changed.
  destruct (p <? _) eqn:E; to_prop; [lia|].
  destruct (entity_to_key s !! e); rewrite ?Z.ltb_lt; naive_solver.
Qed.

Lemma elem_of_all_changed s log p l e :
  cache_inv s log → get_all_entities_changed s p = Some l →
  e ∈ l ↔ changed_after log e p.
Proof.
  unfold get_all_entities_changed. intros Hi. destruct (p <? _) eqn:E; [done|]. intros [= <-]. to_prop.
  rewrite <- (known_changed s) by done. rewrite list_elem_of_In, in_flat_map.
  setoid_rewrite filter_In. setoid_rewrite <- list_elem_of_In. setoid_rewrite elem_of_sorted_keys.
  setoid_rewrite Z.ltb_lt. setoid_rewrite elem_of_elements. setoid_rewrite (inv_sync _ _ Hi). split.
  - intros (q & [HqS Hlt] & He). apply elem_of_dom in HqS as [S HS]. exists q. split; [|done]. exists S.
    by rewrite HS in He.
  - intros (q & (S & HS & He) & Hlt). exists q. rewrite HS. split; [|done].
    split; [|done]. by apply elem_of_dom.
Qed.

Lemma peek_last_None c : peek_last c = None ↔ c = ∅.
Proof.
  unfold peek_last. rewrite last_None. split.
  - intros Hk. apply dom_empty_inv_L, set_eq. intros k. rewrite <- elem_of_sorted_keys, Hk. set_solver.
  - intros ->. done.
Qed.

Lemma peek_last_Some c k : peek_last c = Some k → k ∈ dom c ∧ ∀ q, q ∈ dom c → q ≤ k.
Proof.
  unfold peek_last. intros Hk. apply last_Some in Hk as [l Hl].
  pose proof (sorted_keys_sorted c) as Hs. rewrite Hl in Hs.
  split; [apply elem_of_sorted_keys; rewrite Hl; set_solver|].
  intros q. rewrite <- elem_of_sorted_keys, Hl, elem_of_app, list_elem_of_singleton.
  intros [Hq | -> ]; [|lia]. clear Hl. induction l as [|x l IH]; [by apply not_elem_of_nil in Hq|].
  apply StronglySorted_inv in Hs as [Hs Hall]. apply elem_of_cons in Hq as [->|Hq]; [|auto].
  rewrite Forall_forall in Hall. apply Hall. set_solver.
Qed.

Lemma has_any_spec s log p :
  cache_inv s log → earliest_known_stream_pos s ≤ p →
  has_any_entity_changed s p = true ↔ ∃ e, changed_after log e p.
Proof.
  intros Hi Hp. setoid_rewrite <- (known_changed s log); [|done..]. unfold has_any_entity_changed.
  destruct (p <? _) eqn:E; to_prop; [lia|]. destruct (peek_last (cache s)) as [k|] eqn:Ek.
  - apply peek_last_Some in Ek as [Hk Hmax]. rewrite Z.ltb_lt. split.
    + intros Hlt. apply elem_of_dom in Hk as [S HS]. pose proof (inv_nonempty _ _ Hi k S HS) as Hne.
      apply set_choose_L in Hne as [e He]. exists e, k. split; [|done]. apply (inv_sync _ _ Hi). eauto.
    + intros (e & q & Hq & Hlt). apply (inv_sync _ _ Hi) in Hq as (S & HS & _).
      specialize (Hmax q ltac:(by apply elem_of_dom)). lia.
  - apply peek_last_None in Ek. split; [done|]. intros (e & q & Hq & _).
    apply (inv_sync _ _ Hi) in Hq as (S & HS & _). by rewrite Ek, lookup_empty in HS.
Qed.

Lemma get_entities_changed_sound s log entities p factor e :
  cache_inv s log → e ∈ entities → changed_after log e p →
  e ∈ get_entities_changed s entities p factor.
Proof.
  intros Hi He Hc. unfold get_entities_changed. destruct (peek_last (cache s)) as [k|]; [|set_solver].
  destruct (p <? _) eqn:E; [set_solver|]. to_prop. destruct (_ <? k - p).
  - rewrite elem_of_list_to_set, list_elem_of_In, filter_In. split; [by apply list_elem_of_In|].
    apply Z.ltb_lt. apply (known_changed s) in Hc as (q & -> & ?); done.
  - destruct (get_all_entities_changed s p) as [l|] eqn:El; [|set_solver].
    apply (elem_of_all_changed s log p l e Hi El) in Hc. set_solver.
Qed.

Lemma get_entities_changed_exact s log entities p factor e :
  cache_inv s log → cache s ≠ ∅ → earliest_known_stream_pos s ≤ p → -1 ≤ p →
  e ∈ get_entities_changed s entities p factor → e ∈ entities ∧ changed_after log e p.
Proof.
  intros Hi Hne Hp Hp1. unfold get_entities_changed.
  destruct (peek_last (cache s)) as [k|] eqn:Ek; [|by apply peek_last_None in Ek].
  destruct (p <? _) eqn:E; to_prop; [lia|]. destruct (_ <? k - p).
  - rewrite elem_of_list_to_set, list_elem_of_In, filter_In, <- list_elem_of_In, Z.ltb_lt.
    intros [He Hlt]. split; [done|]. apply (known_changed s); [done..|].
    destruct (entity_to_key s !! e) as [q|]; cbn in Hlt; [eauto|lia].
  - destruct (get_all_entities_changed s p) as [l|] eqn:El.
    + intros [He Hl]%elem_of_intersection. rewrite elem_of_list_to_set in He, Hl. split; [done|].
      by apply (elem_of_all_changed s log p l e Hi El).
    + unfold get_all_entities_changed in El. destruct (p <? _) eqn:E'; to_prop; [lia|done].
Qed.

(** The entities come in the order of their last changes. *)
Lemma all_changed_sorted s log p l :
  cache_inv s log → get_all_entities_changed s p = Some l →
  StronglySorted (λ a b, default 0 (entity_to_key s !! a) ≤ default 0 (entity_to_key s !! b)) l.
Proof.
  unfold get_all_entities_changed. intros Hi. destruct (p <? _); [done|]. intros [= <-].
  pose proof (sorted_keys_sorted (cache s)) as Hs.
  assert (∀ q e, e ∈ elements (default ∅ (cache s !! q)) → entity_to_key s !! e = Some q) as Hpos.
  { intros q e. rewrite elem_of_elements. intros He. apply (inv_sync _ _ Hi).
    destruct (cache s !! q) as [S|]; cbn in He; [eauto|set_solver]. }
  induction Hs as [|k ks Hs IH Hk]; cbn [List.filter]; [constructor|].
  destruct (p <? k); [cbn [flat_map]|done].
  assert (∀ b, b ∈ flat_map (λ k, elements (default ∅ (cache s !! k)))
                 (List.filter (λ k, p <? k) ks) → k ≤ default 0 (entity_to_key s !! b)) as Hrest.
  { intros b. rewrite list_elem_of_In, in_flat_map. intros (q & [Hq _]%filter_In & Hb).
    rewrite Forall_forall in Hk. specialize (Hk q). rewrite list_elem_of_In in Hk.
    apply list_elem_of_In, Hpos in Hb as ->. cbn. auto. }
  specialize (Hpos k). induction (elements (default ∅ (cache s !! k))) as [|a l IHl]; [done|].
  cbn. constructor; [apply IHl; intros; apply Hpos; by right|]. apply Forall_app.
  rewrite !Forall_forall, (Hpos a) by (by left). split; cbn.
  - intros b Hb. rewrite (Hpos b) by (by right). done.
  - auto.
Qed.

(** ** The theorems *)

(** C37: A cache reached by any sequence of reports and resizes answers from the
    log of all reported changes.  It never says that an entity, or any entity, has not
    changed after a position when one has, at whatever position.  After the earliest known
    position it is exact: whether an entity, or any entity, changed after a position, and
    all the entities that did, in the order of their last changes.  Before that
    position it answers that everything may have changed. *)
Theorem change_cache_refines_log s log :
  reachable s log →
  (∀ p e, changed_after log e p → has_entity_changed s e p = true ∧ has_any_entity_changed s p = true ∧
     ∀ l, get_all_entities_changed s p = Some l → e ∈ l) ∧
  (∀ p, get_earliest_known_position s < p →
     (∀ e, has_entity_changed s e p = true ↔ changed_after log e p) ∧
     (has_any_entity_changed s p = true ↔ ∃ e, changed_after log e p) ∧
     ∃ l, get_all_entities_changed s p = Some l ∧
       (∀ e, e ∈ l ↔ changed_after log e p) ∧
       StronglySorted (λ a b, default 0 (get_max_pos_of_last_change s a)
                              ≤ default 0 (get_max_pos_of_last_change s b)) l) ∧
  ∀ p, p < get_earliest_known_position s →
     (∀ e, has_entity_changed s e p = true) ∧ has_any_entity_changed s p = true ∧
     get_all_entities_changed s p = None.
Proof.
  intros [Hi _ _ _]%reachable_ok. unfold get_earliest_known_position.
  assert (∀ p, p < earliest_known_stream_pos s →
     (∀ e, has_entity_changed s e p = true) ∧ has_any_entity_changed s p = true ∧ get_all_entities_changed s p = None) as Hbefore.
  { intros p Hp%Z.ltb_lt. unfold has_entity_changed, has_any_entity_changed, get_all_entities_changed.
    by rewrite Hp. }
  split_and!; [| |exact Hbefore].
  - intros p e He. destruct (decide (p < earliest_known_stream_pos s)) as [Hp|Hp].
    + destruct (Hbefore p Hp) as (H1 & H2 & H3). split_and!; [done|done|]. by rewrite H3.
    + split_and!; [by apply (has_entity_changed_spec s log); [|lia|]|apply (has_any_spec s log); [done|lia|by exists e]|].
      intros l Hl. by apply (elem_of_all_changed s log p).
  - intros p Hp. split_and!; [intros e; apply has_entity_changed_spec; [done|lia]|apply has_any_spec; [done|lia]|].
    destruct (get_all_entities_changed s p) as [l|] eqn:El.
    + exists l. split_and!; [done|intros e; by eapply elem_of_all_changed|by eapply all_changed_sorted].
    + unfold get_all_entities_changed in El. destruct (p <? _) eqn:E; to_prop; [lia|done].
Qed.

(** [get_entities_changed] never leaves out an entity that changed after the
    position; it returns exactly those of the given entities that did when the
    cache goes back far enough and holds anything, whichever of its two
    strategies it chooses. *)
Theorem get_entities_changed_spec s log entities p perf_factor e :
  reachable s log →
  (e ∈ entities → changed_after log e p → e ∈ get_entities_changed s entities p perf_factor) ∧
  (cache s ≠ ∅ → get_earliest_known_position s ≤ p → -1 ≤ p →
   e ∈ get_entities_changed s entities p perf_factor → e ∈ entities ∧ changed_after log e p).
Proof.
  intros [Hi _ _ _]%reachable_ok.
  split; intros; [by eapply get_entities_changed_sound|by eapply get_entities_changed_exact].
Qed.

(** No operation on a reachable cache raises: reporting a change always
    succeeds, and so does resizing by a factor that is not negative.  Afterwards
    the cache holds at most its maximum number of positions. *)
Theorem change_cache_bounded s log e p factor :
  reachable s log → Qle 0 factor →
  (∃ s', entity_has_changed s e p = Ok s' ∧ Z.of_nat (size (cache s')) ≤ max_size s') ∧
  ∃ s' b, set_cache_factor s factor = Ok (s', b) ∧
    max_size s' = Qfloor (Qmult (inject_Z (original_max_size s)) factor) ∧
    Z.of_nat (size (cache s')) ≤ max_size s'.
Proof.
  intros Hok%reachable_ok Hf. split.
  - destruct (change_ok s log e p Hok) as (s' & ? & [????]). eauto.
  - destruct (factor_ok s log factor Hok Hf) as (s' & b & ? & [????] & ?). eauto 10.
Qed.

(** ** Instances *)

(** A cache of two positions after three changes: the first was evicted. *)
Definition sample_log : change_log := [("!c:hs", 7); ("!b:hs", 6); ("!a:hs", 5)].
Definition sample_cache : StreamChangeCache :=
  match new_cache 3 2 sample_log with Ok s => s | Raise _ =>
    {| original_max_size := 0; max_size := 0; cache := ∅; entity_to_key := ∅;
       earliest_known_stream_pos := 0 |} end.

Lemma sample_reachable : reachable sample_cache sample_log.
Proof. apply (reach_new 3 2); [lia|]. vm_compute. reflexivity. Qed.

Example sample_answers :
  (get_earliest_known_position sample_cache, has_entity_changed sample_cache "!a:hs" 5,
   get_all_entities_changed sample_cache 5, get_all_entities_changed sample_cache 4,
   has_any_entity_changed sample_cache 7)
  = (5, false, Some ["!b:hs"; "!c:hs"], None, false).
Proof. vm_compute. reflexivity. Qed.

Example change_cache_refines_log_witness :
  (has_entity_changed sample_cache "!c:hs" 6 = true ↔ changed_after sample_log "!c:hs" 6) ∧
  get_all_entities_changed sample_cache 4 = None.
Proof.
  destruct (change_cache_refines_log sample_cache sample_log sample_reachable) as (_ & H1 & H2). split.
  - apply H1. vm_compute. reflexivity.
  - apply H2. vm_compute. reflexivity.
Defined.

Example get_entities_changed_spec_witness :
  "!c:hs" ∈ get_entities_changed sample_cache ["!a:hs"; "!c:hs"] 6 1 ∧
  ("!a:hs" ∈ get_entities_changed sample_cache ["!a:hs"; "!c:hs"] 6 1 →
   changed_after sample_log "!a:hs" 6).
Proof.
  split.
  - apply (get_entities_changed_spec sample_cache sample_log _ _ _ _ sample_reachable);
      [right; by left|]. exists 7. split; [by left|lia].
  - intros Hin. eapply (get_entities_changed_spec sample_cache sample_log _ _ _ _ sample_reachable);
      [| | |exact Hin]; vm_compute; discriminate.
Defined.

Example change_cache_bounded_witness :
  ∃ s', entity_has_changed sample_cache "!d:hs" 9 = Ok s' ∧ Z.of_nat (size (cache s')) ≤ max_size s'.
Proof.
  apply (change_cache_bounded sample_cache sample_log "!d:hs" 9 1); [exact sample_reachable|].
  vm_compute. discriminate.
Defined.

(** An empty cache returns all the entities although it knows that none changed,
    and an entity it does not know is otherwise not returned. *)
Example empty_cache_returns_all :
  (let s := {| original_max_size := 2; max_size := 2; cache := ∅; entity_to_key := ∅;
               earliest_known_stream_pos := 3 |} in
   (get_entities_changed s ["!a:hs"] 5 1, has_entity_changed s "!a:hs" 5))
  = ({["!a:hs"]}, false) ∧
  get_entities_changed sample_cache ["!unknown:hs"] 6 1 = ∅.
Proof. split; vm_compute; reflexivity. Qed.
