(* ===== verification/Visibility.v ===== *)
(** * Who may see which events: [synapse/visibility.py]

    Filtering events for the users of this server and for other servers, by the
    history visibility of the room and the memberships at the event.  What is
    read from the database is the class [VisibilityStore]; the state at an event
    comes as the state filters ask for it. *)

From S2P Require Import Prelude PyData RoomVersions Ids Events EventAuth StateFilters.
From Stdlib Require Import Ascii.

Open Scope Z_scope.

Definition VISIBILITY_PRIORITY : list string :=
  [HistoryVisibility.WORLD_READABLE; HistoryVisibility.SHARED; HistoryVisibility.INVITED;
   HistoryVisibility.JOINED].

Definition MEMBERSHIP_PRIORITY : list string :=
  [Membership.JOIN; Membership.INVITE; Membership.KNOCK; Membership.LEAVE; Membership.BAN].

Definition HISTORY_VIS_KEY : string * string := (EventTypes.RoomHistoryVisibility, "").

(** [RetentionPolicy] of [synapse/types/__init__.py] *)
Record RetentionPolicy : Type := { min_lifetime : option Z; max_lifetime : option Z }.

(** The storage controllers and the clock *)
Class VisibilityStore : Type := {
  get_state_for_events : gset string → StateFilter → gmap string (state_map event);
  get_state_ids_for_events : gset string → StateFilter → gmap string (state_map string);
  vis_get_events : gset string → gmap string event;
  ignored_users : string → gset string;
  ignored_by : string → gset string;
  are_users_erased : list string → gmap string bool;
  get_retention_policy_for_room : string → RetentionPolicy;
  is_partial_state_room : string → bool;
  time_msec : Z;
}.

(** [l.index(s)] *)
Fixpoint str_index (l : list string) (s : string) : py nat :=
  match l with
  | [] => Raise ValueError
  | x :: l => if bool_decide (x = s) then Ok O else S <$> str_index l s
  end.

(** [j in l] for a list of strings; such a [j] is a string *)
Definition known_str (l : list string) (j : option json) (fallback : string) : string :=
  match j with
  | Some (JStr s) => if bool_decide (s ∈ l) then s else fallback
  | _ => fallback
  end.

(** The less restrictive of two values: [old] if it comes first *)
Definition least_restrictive (priority : list string) (new old : string) : py string :=
  new_priority ← str_index priority new;
  old_priority ← str_index priority old;
  Ok (if (old_priority <? new_priority)%nat then old else new).

(** [event.unsigned.get("prev_content", {}).get(k, None)] *)
Definition prev_content_get (e : event) (k : string) : py (option json) :=
  py_get (dict_get_default "prev_content" (JObj []) (ev_unsigned e)) k.

Definition get_effective_room_visibility_from_state (state : state_map event) : string :=
  match state !! HISTORY_VIS_KEY with
  | None => HistoryVisibility.SHARED
  | Some visibility_event =>
      known_str VISIBILITY_PRIORITY
        (Some (dict_get_default "history_visibility" (JStr HistoryVisibility.SHARED)
                 (ev_content visibility_event)))
        HistoryVisibility.SHARED
  end.

Inductive CheckVisibility : Type := ALLOWED | MAYBE_DENIED.

Definition check_history_visibility (e : event) (visibility : string) (is_peeking : bool)
    : py CheckVisibility :=
  visibility ←
    (if decide (ev_type e = EventTypes.RoomHistoryVisibility) then
       prev ← prev_content_get e "history_visibility";
       let prev_visibility := known_str VISIBILITY_PRIORITY prev HistoryVisibility.SHARED in
       least_restrictive VISIBILITY_PRIORITY visibility prev_visibility
     else Ok visibility);
  Ok (if bool_decide (visibility = HistoryVisibility.SHARED) && negb is_peeking then ALLOWED
      else if bool_decide (visibility = HistoryVisibility.WORLD_READABLE) then ALLOWED
      else MAYBE_DENIED).

Inductive CheckFilter : Type := MAYBE_ALLOWED | DENIED.

(** [c == _CheckFilter.DENIED] *)
Definition is_denied (c : CheckFilter) : bool := match c with DENIED => true | _ => false end.

Definition check_filter_send_to_client (now : Z) (e : event) (retention_policy : RetentionPolicy)
    (sender_ignored : bool) : CheckFilter :=
  if decide (ev_type e = EventTypes.Dummy) then DENIED
  else if negb (is_state e) && sender_ignored then DENIED
  else if decide (ev_type e = EventTypes.Aliases) then DENIED
  else if negb (is_state e) then
    match max_lifetime retention_policy with
    | Some max_lifetime =>
        if ev_origin_server_ts e <? now - max_lifetime then DENIED else MAYBE_ALLOWED
    | None => MAYBE_ALLOWED
    end
  else MAYBE_ALLOWED.

Record CheckMembershipReturn : Type := { allowed : bool; joined : bool }.

(** [event.type == EventTypes.Member and event.state_key == user_id] *)
Definition is_own_membership (e : event) (user_id : string) : py bool :=
  if decide (ev_type e = EventTypes.Member) then
    sk ← state_key e; Ok (bool_decide (sk = user_id))
  else Ok false.

(** The part of [_check_membership] about the user's own membership event: the
    answer, or the membership to go on with *)
Definition own_membership (e : event) : py (CheckMembershipReturn + string) :=
  let membership := known_str MEMBERSHIP_PRIORITY (dict_get "membership" (ev_content e)) "leave" in
  prev ← prev_content_get e "membership";
  let prev_membership := known_str MEMBERSHIP_PRIORITY prev "leave" in
  if bool_decide (membership = "leave")
     && (bool_decide (prev_membership = "join") || bool_decide (prev_membership = "invite")) then
    Ok (inl {| allowed := true; joined := false |})
  else inr <$> least_restrictive MEMBERSHIP_PRIORITY membership prev_membership.

(** The membership of the user in a state; [JNull] is [None] *)
Definition membership_at (state : state_map event) (user_id : string) : py json :=
  match state !! (EventTypes.Member, user_id) with
  | Some membership_event => membership membership_event
  | None => Ok JNull
  end.

(** From the membership on *)
Definition check_visible_to (visibility : string) (is_peeking : bool) (m : json)
    : CheckMembershipReturn :=
  if is_str m Membership.JOIN then {| allowed := true; joined := true |}
  else if bool_decide (visibility = HistoryVisibility.JOINED) then
    {| allowed := false; joined := false |}
  else if bool_decide (visibility = HistoryVisibility.INVITED) then
    {| allowed := is_str m Membership.INVITE; joined := false |}
  else if bool_decide (visibility = HistoryVisibility.SHARED) && is_peeking then
    {| allowed := false; joined := false |}
  else {| allowed := true; joined := false |}.

Definition check_membership (user_id : string) (e : event) (visibility : string)
    (state : state_map event) (is_peeking : bool) : py CheckMembershipReturn :=
  own ← is_own_membership e user_id;
  if own : bool then
    r ← own_membership e;
    match r with
    | inl answer => Ok answer
    | inr m => Ok (check_visible_to visibility is_peeking (JStr m))
    end
  else
    m ← membership_at state user_id;
    Ok (check_visible_to visibility is_peeking m).

(** From the outlier test on *)
Definition check_event_state (user_id : string) (e : event) (is_peeking : bool)
    (state : option (state_map event)) (sender_erased : bool) : py (option event) :=
  if ev_outlier e then
    own ← is_own_membership e user_id; Ok (if own : bool then Some e else None)
  else
    match state with
    | None => Raise (PyException "Missing state for non-outlier event")
    | Some state =>
        let visibility := get_effective_room_visibility_from_state state in
        lax ← (if negb sender_erased then check_history_visibility e visibility is_peeking
               else Ok MAYBE_DENIED);
        match lax with
        | ALLOWED => Ok (Some e)
        | MAYBE_DENIED =>
            r ← check_membership user_id e visibility state is_peeking;
            if negb (allowed r) then Ok None
            else if sender_erased && negb (joined r) then Some <$> prune_event e
            else Ok (Some e)
        end
    end.

Definition check_client_allowed_to_see_event (now : Z) (user_id : string) (e : event)
    (filter_send_to_client is_peeking : bool) (always_include_ids : gset string)
    (sender_ignored : bool) (retention_policy : RetentionPolicy)
    (state : option (state_map event)) (sender_erased : bool) : py (option event) :=
  if filter_send_to_client
     && is_denied (check_filter_send_to_client now e retention_policy sender_ignored) then Ok None
  else if bool_decide (ev_id e ∈ always_include_ids) then Ok (Some e)
  else check_event_state user_id e is_peeking state sender_erased.

(** [cloned.unsigned["membership"] = user_membership] *)
Definition with_unsigned (e : event) (k : string) (v : json) : event :=
  {| ev_id := ev_id e; ev_room_version := ev_room_version e; ev_type := ev_type e;
     ev_sender := ev_sender e; ev_room_id := ev_room_id e; ev_state_key := ev_state_key e;
     ev_content := ev_content e; ev_origin_server_ts := ev_origin_server_ts e;
     ev_depth := ev_depth e; ev_prev_events := ev_prev_events e;
     ev_auth_events := ev_auth_events e; ev_extra := ev_extra e;
     ev_signatures := ev_signatures e; ev_unsigned := dict_set k v (ev_unsigned e);
     ev_rejected_reason := ev_rejected_reason e; ev_outlier := ev_outlier e;
     ev_soft_failed := ev_soft_failed e; ev_redacted := ev_redacted e;
     ev_recheck_redaction := ev_recheck_redaction e |}.

Section Clients.
Context `{VisibilityStore}.

(** The membership an event is annotated with *)
Definition annotation (user_id : string) (e : event) (state : option (state_map event)) : py json :=
  own ← is_own_membership e user_id;
  if own : bool then membership e
  else
    match state with
    | None => Raise (PyException "Missing state for event that is not user's own membership")
    | Some st =>
        match st !! (EventTypes.Member, user_id) with
        | Some membership_event => membership membership_event
        | None => Ok (JStr Membership.LEAVE)
        end
    end.

(** The inner function [allowed].  The retention policies are only bound when
    events are filtered for sending. *)
Definition allowed_event (user_id : string) (is_peeking : bool) (always_include_ids : gset string)
    (filter_send_to_client : bool) (state_of_event : option (state_map event))
    (erased : bool) (e : event) : py (option event) :=
  retention_policy ←
    (if filter_send_to_client then Ok (get_retention_policy_for_room (ev_room_id e))
     else Raise NameError);
  filtered ← check_client_allowed_to_see_event time_msec user_id e filter_send_to_client is_peeking
    always_include_ids (bool_decide (ev_sender e ∈ ignored_users user_id)) retention_policy
    state_of_event erased;
  match filtered with
  | None => Ok None
  | Some filtered =>
      user_membership ← annotation user_id e state_of_event;
      cloned ← clone_event filtered;
      Ok (Some (with_unsigned cloned "membership" user_membership))
  end.

(** [[ev for ev in map(allowed, events) if ev]] *)
Fixpoint filter_map {A B} (f : A → py (option B)) (l : list A) : py (list B) :=
  match l with
  | [] => Ok []
  | x :: l => o ← f x; r ← filter_map f l; Ok (match o with Some y => y :: r | None => r end)
  end.

Definition client_filter (user_id : string) : StateFilter :=
  from_types [(EventTypes.RoomHistoryVisibility, Some ""); (EventTypes.Member, Some user_id)].

Definition filter_events_for_client (user_id : string) (events : list event) (is_peeking : bool)
    (always_include_ids : gset string) (filter_send_to_client : bool) : py (list event) :=
  let events := List.filter (λ e, negb (ev_soft_failed e)) events in
  let event_id_to_state :=
    get_state_for_events
      (list_to_set (map ev_id (List.filter (λ e, negb (ev_outlier e)) events)))
      (client_filter user_id) in
  let erased_senders := are_users_erased (map ev_sender events) in
  filter_map (λ e,
    allowed_event user_id is_peeking always_include_ids filter_send_to_client
      (event_id_to_state !! ev_id e) (default false (erased_senders !! ev_sender e)) e) events.

(** ** Many users, one event *)

(** [_get_state_map]; [get_prev_state_ids] is the method of the context *)
Definition get_state_map (get_prev_state_ids : StateFilter → state_map string) (e : event)
    (state_filter : StateFilter) : state_map event :=
  let state_ids := get_prev_state_ids state_filter in
  let event_map := vis_get_events (list_to_set (map snd (map_to_list state_ids))) in
  let updated_state_map : state_map event := omap (λ i, event_map !! i) state_ids in
  match ev_state_key e with
  | Some sk => <[(ev_type e, sk) := e]> updated_state_map
  | None => updated_state_map
  end.

Fixpoint filter_users (f : string → py bool) (l : list string) : py (gset string) :=
  match l with
  | [] => Ok ∅
  | u :: l => b ← f u; r ← filter_users f l; Ok (if b : bool then {[u]} ∪ r else r)
  end.

(** The users left by the checks for sending *)
Definition users_to_check (user_ids : gset string) (e : event) (filter_send_to_client : bool)
    : gset string :=
  if filter_send_to_client then
    filter (λ u, is_denied (check_filter_send_to_client time_msec e
                              (get_retention_policy_for_room (ev_room_id e))
                              (bool_decide (u ∈ ignored_by (ev_sender e)))) = false) user_ids
  else user_ids.

Definition filter_event_for_clients_with_state (get_prev_state_ids : StateFilter → state_map string)
    (user_ids : gset string) (e : event) (is_peeking filter_send_to_client : bool)
    : py (gset string) :=
  if ev_soft_failed e then Ok ∅
  else if decide (user_ids = ∅) then Ok ∅
  else
    let allowed_user_ids := users_to_check user_ids e filter_send_to_client in
    if ev_outlier e then
      if decide (ev_type e = EventTypes.Member) then
        sk ← state_key e;
        Ok (if bool_decide (sk ∈ allowed_user_ids) then {[sk]} else ∅)
      else Ok ∅
    else
      let visibility := get_effective_room_visibility_from_state
        (get_state_map get_prev_state_ids e
           (from_types [(EventTypes.RoomHistoryVisibility, Some "")])) in
      lax ← check_history_visibility e visibility is_peeking;
      match lax with
      | ALLOWED => Ok allowed_user_ids
      | MAYBE_DENIED =>
          let state_filter :=
            from_types (map (λ u, (EventTypes.Member, Some u)) (elements allowed_user_ids)
                        ++ [(EventTypes.RoomHistoryVisibility, Some "")]) in
          let state := get_state_map get_prev_state_ids e state_filter in
          filter_users (λ u, allowed <$> check_membership u e visibility state is_peeking)
            (elements allowed_user_ids)
      end.

(** ** Events for other servers *)

(** [_event_to_history_vis], for one event *)
Definition history_vis_of (vis_events : gmap string event) (state_ids : option (state_map string))
    : py string :=
  match state_ids ≫= (λ m, m !! HISTORY_VIS_KEY) with
  | Some visibility_id =>
      if bool_decide (visibility_id = "") then Ok HistoryVisibility.SHARED
      else
        match vis_events !! visibility_id with
        | None => Raise KeyError
        | Some vis_event =>
            match dict_get_default "history_visibility" (JStr HistoryVisibility.SHARED)
                    (ev_content vis_event) with
            | JStr vis => Ok vis
            | _ => Raise AssertionError
            end
        end
  | None => Ok HistoryVisibility.SHARED
  end.

Definition event_to_history_vis (events : list event) : py (gmap string string) :=
  let event_to_state_ids :=
    get_state_ids_for_events
      (list_to_set (map ev_id (List.filter (λ e, negb (ev_outlier e)) events)))
      (from_types [(EventTypes.RoomHistoryVisibility, Some "")]) in
  let visibility_ids : gset string :=
    list_to_set (List.filter (λ i, negb (bool_decide (i = "")))
      (omap (M := list) (λ p : string * state_map string, p.2 !! HISTORY_VIS_KEY)
         (map_to_list event_to_state_ids))) in
  let vis_events := vis_get_events visibility_ids in
  py_fold (λ (result : gmap string string) e,
    vis ← history_vis_of vis_events (event_to_state_ids !! ev_id e);
    Ok (<[ev_id e := vis]> result)) ∅ events.

(** [include] of [_event_to_memberships] *)
Definition include_member (server_name state_key : string) : bool :=
  match str_cut ":" state_key with
  | Some (_, domain) => bool_decide (domain = server_name)
  | None => false
  end.

Definition event_to_memberships (events : list event) (server_name : string)
    : gmap string (state_map event) :=
  match events with
  | [] => ∅
  | _ =>
      let event_to_state_ids :=
        get_state_ids_for_events (list_to_set (map ev_id events))
          (from_types [(EventTypes.Member, None)]) in
      let event_id_to_state_key : gmap string (string * string) :=
        foldl (λ m p, foldl (λ (m : gmap string (string * string)) (q : (string * string) * string),
                        <[q.2 := q.1]> m) m (map_to_list p.2))
          ∅ (map_to_list event_to_state_ids) in
      let event_map :=
        vis_get_events (dom (filter (λ p : string * (string * string),
                                       include_member server_name p.2.2 = true)
                               event_id_to_state_key)) in
      (λ state_ids : state_map string, omap (λ i, event_map !! i) state_ids) <$> event_to_state_ids
  end.

(** The loop of [check_event_is_visible] over the memberships *)
Fixpoint any_member_sees (target_server_name visibility : string) (members : list event) : py bool :=
  match members with
  | [] => Ok false
  | ev :: members =>
      sk ← state_key ev;
      domain ← get_domain_from_id sk;
      raise_if (negb (bool_decide (domain = target_server_name))) AssertionError ;;
      memtype ← membership ev;
      if is_str memtype Membership.JOIN then Ok true
      else if is_str memtype Membership.INVITE && bool_decide (visibility = HistoryVisibility.INVITED)
      then Ok true
      else any_member_sees target_server_name visibility members
  end.

Definition check_event_is_visible (target_server_name visibility : string)
    (memberships : state_map event) : py bool :=
  if bool_decide (visibility ∈ [HistoryVisibility.INVITED; HistoryVisibility.JOINED])
  then any_member_sees target_server_name visibility (map snd (map_to_list memberships))
  else Ok true.

Definition is_sender_erased (erased_senders : gmap string bool) (e : event) : py bool :=
  if decide (erased_senders = ∅) then Ok false
  else match erased_senders !! ev_sender e with Some b => Ok b | None => Raise KeyError end.

(** The events of partially joined rooms that are not ours *)
Definition partial_state_invisible (local_server_name : string) (events : list event)
    : py (gset string) :=
  py_fold (λ (acc : gset string) e,
    sender_domain ← get_domain_from_id (ev_sender e);
    Ok (if negb (bool_decide (sender_domain = local_server_name))
           && is_partial_state_room (ev_room_id e)
        then {[ev_id e]} ∪ acc else acc)) ∅ events.

Definition include_event_in_output (target_server_name : string) (erased_senders : gmap string bool)
    (event_to_history_vis : gmap string string)
    (event_to_memberships : gmap string (state_map event))
    (invisible : gset string) (e : event) : py bool :=
  erased ← is_sender_erased erased_senders e;
  vis ← (match event_to_history_vis !! ev_id e with Some v => Ok v | None => Raise KeyError end);
  visible ← check_event_is_visible target_server_name vis
              (default ∅ (event_to_memberships !! ev_id e));
  let visible := visible && negb (bool_decide (ev_id e ∈ invisible)) in
  Ok (visible && negb erased).

Definition filter_events_for_server (target_server_name local_server_name : string)
    (events : list event)
    (redact filter_out_erased_senders filter_out_remote_partial_state_events : bool)
    : py (list event) :=
  let erased_senders :=
    if filter_out_erased_senders then are_users_erased (map ev_sender events) else ∅ in
  invisible ← (if filter_out_remote_partial_state_events
               then partial_state_invisible local_server_name events else Ok ∅);
  vis ← event_to_history_vis events;
  restricted ← filter_map (λ e,
    match vis !! ev_id e with
    | None => Raise KeyError
    | Some v => Ok (if bool_decide (v ∈ [HistoryVisibility.SHARED; HistoryVisibility.WORLD_READABLE])
                    then None else Some e)
    end) events;
  let memberships := event_to_memberships restricted target_server_name in
  filter_map (λ e,
    b ← include_event_in_output target_server_name erased_senders vis memberships invisible e;
    if b : bool then Ok (Some e)
    else if redact then Some <$> prune_event e
    else Ok None) events.
End Clients.
