(* ===== verification/VisibilityFacts.v ===== *)
(** * What the visibility filters guarantee

    The rules by which users and servers see events, stated without the code's
    order of checks, and the theorems that the filters of [Visibility] follow
    them, for one event and for lists. *)

From S2P Require Import Prelude PyData RoomVersions Ids Events EventAuth StateFilters.
From S2P Require Import RoomExample EventAuthFacts RedactionFacts Visibility.

Open Scope Z_scope.

(** ** The rules for users *)

(** A user with membership [m] at an event, in a room with this visibility at the
    event: joined users see it, everybody sees world-readable rooms, shared
    history is seen unless by peeking, invited users see it if the room says so. *)
Inductive may_see (visibility : string) (is_peeking : bool) (m : json) : Prop :=
  | see_joined : m = JStr Membership.JOIN → may_see visibility is_peeking m
  | see_world_readable :
      visibility = HistoryVisibility.WORLD_READABLE → may_see visibility is_peeking m
  | see_shared :
      visibility = HistoryVisibility.SHARED → is_peeking = false → may_see visibility is_peeking m
  | see_invited :
      visibility = HistoryVisibility.INVITED → m = JStr Membership.INVITE →
      may_see visibility is_peeking m.

Lemma known_str_elem l j d : d ∈ l → known_str l j d ∈ l.
Proof.
  intros Hd. unfold known_str. destruct j as [[]|]; try done. case_bool_decide; done.
Qed.

Lemma effective_visibility_known st :
  get_effective_room_visibility_from_state st ∈ VISIBILITY_PRIORITY.
Proof.
  unfold get_effective_room_visibility_from_state.
  assert (HistoryVisibility.SHARED ∈ VISIBILITY_PRIORITY) by (right; by left).
  destruct (st !! HISTORY_VIS_KEY); [by apply known_str_elem|done].
Qed.

Lemma is_str_JStr j s : is_str j s = true ↔ j = JStr s.
Proof.
  unfold is_str. destruct j; try (by split; [|intros]). rewrite bool_decide_eq_true. naive_solver.
Qed.

(** The membership check allows what the rules do. *)
Lemma check_visible_to_allowed v p m :
  v ∈ VISIBILITY_PRIORITY → allowed (check_visible_to v p m) = true ↔ may_see v p m.
Proof.
  intros Hv. unfold check_visible_to.
  destruct (is_str m Membership.JOIN) eqn:Ej.
  { apply is_str_JStr in Ej. split; [by constructor|done]. }
  assert (m ≠ JStr Membership.JOIN) as Hj by (intros E; apply is_str_JStr in E; congruence).
  unfold VISIBILITY_PRIORITY in Hv. rewrite !elem_of_cons, elem_of_nil in Hv.
  destruct Hv as [->|[->|[->|[->|[]]]]]; repeat case_bool_decide; try done; cbn [andb negb allowed].
  - split; [|done]. intros _. by apply see_world_readable.
  - destruct p; cbn.
    + split; [done|]. by intros [].
    + split; [|done]. intros _. by apply see_shared.
  - rewrite is_str_JStr. split; [by apply see_invited|]. by intros [].
  - split; [done|]. by intros [].
Qed.

Lemma check_visible_to_joined v p m : joined (check_visible_to v p m) = is_str m Membership.JOIN.
Proof.
  unfold check_visible_to. destruct (is_str m Membership.JOIN); [done|].
  by repeat case_bool_decide; destruct p.
Qed.

(** Lax history only shows what the rules allow to anybody. *)
Lemma check_history_visibility_other e v p m :
  ev_type e ≠ EventTypes.RoomHistoryVisibility →
  ∃ c, check_history_visibility e v p = Ok c ∧ (c = ALLOWED → may_see v p m).
Proof.
  intros Ht. unfold check_history_visibility. rewrite decide_False by done. cbn [mbind py_bind].
  eexists. split; [done|]. repeat case_bool_decide; destruct p; cbn; try done; intros _;
    (by apply see_shared) || (by apply see_world_readable).
Qed.

(** What a user is shown of an event: nothing, the event, or its redacted form if
    its sender was erased and the user was not joined. *)
Inductive shown (e : event) (visibility : string) (is_peeking : bool) (m : json) (erased : bool)
    : option event → Prop :=
  | shown_not : ¬ may_see visibility is_peeking m → shown e visibility is_peeking m erased None
  | shown_full :
      may_see visibility is_peeking m → erased = false ∨ m = JStr Membership.JOIN →
      shown e visibility is_peeking m erased (Some e)
  | shown_redacted :
      may_see visibility is_peeking m → erased = true → m ≠ JStr Membership.JOIN →
      shown e visibility is_peeking m erased (Some (redacted_event e)).

(** An event whose visibility is decided by the state alone: in the room's graph,
    neither a change of the visibility nor a membership of the user *)
Record ordinary (e : event) (user_id : string) : Prop := {
  ord_outlier : ev_outlier e = false;
  ord_type : ev_type e ≠ EventTypes.RoomHistoryVisibility;
  ord_own : is_own_membership e user_id = Ok false;
}.

Lemma check_event_state_shown u e p st erased m :
  event_wf e → ordinary e u → membership_at st u = Ok m →
  ∃ o, check_event_state u e p (Some st) erased = Ok o ∧
    shown e (get_effective_room_visibility_from_state st) p m erased o.
Proof.
  intros Hwf [Hout Ht Hown] Hm. unfold check_event_state. rewrite Hout.
  pose proof (effective_visibility_known st) as Hv.
  set (v := get_effective_room_visibility_from_state st) in *. clearbody v.
  destruct (check_history_visibility_other e v p m Ht) as (c & Hc & Hlax).
  assert (∃ o, (r ← check_membership u e v st p;
    if negb (allowed r) then Ok None
    else if erased && negb (joined r) then Some <$> prune_event e else Ok (Some e)) = Ok o ∧
    shown e v p m erased o) as Hmem.
  { unfold check_membership. rewrite Hown, Hm. cbn [mbind py_bind].
    destruct (allowed (check_visible_to v p m)) eqn:Ea; cbn [negb].
    2: { exists None. split; [done|]. apply shown_not. rewrite <- check_visible_to_allowed by done. congruence. }
    apply check_visible_to_allowed in Ea; [|done]. rewrite check_visible_to_joined.
    destruct (is_str m Membership.JOIN) eqn:Ej; [apply is_str_JStr in Ej|].
    - rewrite andb_false_r. exists (Some e). split; [done|]. by apply shown_full; [|right].
    - destruct erased; cbn [andb negb].
      + rewrite prune_event_eq by done. exists (Some (redacted_event e)). split; [done|].
        apply shown_redacted; [done..|]. intros E. apply is_str_JStr in E. congruence.
      + exists (Some e). split; [done|]. by apply shown_full; [|left]. }
  destruct erased; cbn [negb].
  - exact Hmem.
  - rewrite Hc. cbn [mbind py_bind]. destruct c; [|exact Hmem].
    exists (Some e). split; [done|]. apply shown_full; [by apply Hlax|by left].
Qed.

(** ** Lists of events *)

Lemma filter_map_Ok {A B} (f : A → py (option B)) l out :
  filter_map f l = Ok out →
  ∃ picks, picks `sublist_of` l ∧ Forall2 (λ x y, f x = Ok (Some y)) picks out ∧
    ∀ x, x ∈ l → f x = Ok None ∨ x ∈ picks.
Proof.
  revert out. induction l as [|x l IH]; intros out Hr; cbn [filter_map] in Hr.
  { injection Hr as <-. exists []. split_and!; [done..|]. by intros x []%not_elem_of_nil. }
  apply py_bind_Ok in Hr as (o & Ho & Hr). apply py_bind_Ok in Hr as (r & Hr' & [= <-]).
  destruct (IH r Hr') as (picks & Hsub & Hall & Hrest). destruct o as [y|].
  - exists (x :: picks). split_and!; [by constructor|by constructor|].
    intros z [->|Hz]%elem_of_cons; [right; by left|]. destruct (Hrest z Hz); [by left|right; by right].
  - exists picks. split_and!; [by constructor|done|].
    intros z [->|Hz]%elem_of_cons; [by left|auto].
Qed.

Lemma filter_map_total {A B} (f : A → py (option B)) l :
  (∀ x, x ∈ l → ∃ y, f x = Ok (Some y)) →
  ∃ out, filter_map f l = Ok out ∧ Forall2 (λ x y, f x = Ok (Some y)) l out.
Proof.
  induction l as [|x l IH]; intros Hf; cbn [filter_map]; [by exists []|].
  destruct (Hf x) as [y Hy]; [by left|]. destruct IH as (out & Hout & Hall).
  { intros z Hz. apply Hf. by right. }
  exists (y :: out). rewrite Hy, Hout. split; [done|]. by constructor.
Qed.

Lemma Forall2_with_l {A B} (P : A → Prop) (R : A → B → Prop) l k :
  Forall P l → Forall2 R l k → Forall2 (λ x y, P x ∧ R x y) l k.
Proof. intros HP HR. induction HR; [constructor|]. apply Forall_cons in HP as [? ?]. auto. Qed.

(** The laws of the store: queries for state by event and filter answer from the
    state after each event, queries for events from the known events; ignoring is
    one relation read from both sides. *)
Class LawfulVisibilityStore `{VisibilityStore} (state_at : string → option (state_map string))
    (known : gmap string event) : Prop := {
  vis_events_spec ids i : vis_get_events ids !! i = if decide (i ∈ ids) then known !! i else None;
  vis_state_ids_spec ids f i :
    get_state_ids_for_events ids f !! i
    = if decide (i ∈ ids) then filter_state f <$> state_at i else None;
  vis_state_spec ids f i :
    get_state_for_events ids f !! i
    = if decide (i ∈ ids) then (λ st, filter_state f (omap (λ j, known !! j) st)) <$> state_at i
      else None;
  vis_ignore_spec u s : s ∈ ignored_users u ↔ u ∈ ignored_by s;
}.

Lemma from_types_contains_key l t k : (t, Some k) ∈ l → contains (from_types l) (t, k) = true.
Proof. intros Hin. apply from_types_contains. by right. Qed.

(** Reading a filtered state at a key the filter contains *)
Lemma lookup_filtered {A} (f : StateFilter) (st : state_map A) k :
  contains f k = true → filter_state f st !! k = st !! k.
Proof. intros Hc. by rewrite filter_state_lookup, Hc. Qed.

Lemma effective_visibility_agree st st' :
  st !! HISTORY_VIS_KEY = st' !! HISTORY_VIS_KEY →
  get_effective_room_visibility_from_state st = get_effective_room_visibility_from_state st'.
Proof. unfold get_effective_room_visibility_from_state. by intros ->. Qed.

Lemma check_membership_agree u e v st st' p :
  st !! (EventTypes.Member, u) = st' !! (EventTypes.Member, u) →
  check_membership u e v st p = check_membership u e v st' p.
Proof. unfold check_membership, membership_at. by intros ->. Qed.

Lemma check_event_state_agree u e p st st' erased :
  st !! HISTORY_VIS_KEY = st' !! HISTORY_VIS_KEY →
  st !! (EventTypes.Member, u) = st' !! (EventTypes.Member, u) →
  check_event_state u e p (Some st) erased = check_event_state u e p (Some st') erased.
Proof.
  intros Hv Hm. unfold check_event_state. destruct (ev_outlier e); [done|].
  rewrite (effective_visibility_agree st st' Hv). apply py_bind_ext. intros [] _; [done|].
  by rewrite (check_membership_agree u e _ st st' p Hm).
Qed.

(** ** Many users at once *)

Lemma filter_users_Ok f l R :
  filter_users f l = Ok R →
  (∀ u, u ∈ l → ∃ b, f u = Ok b) ∧ ∀ u, u ∈ R ↔ u ∈ l ∧ f u = Ok true.
Proof.
  revert R. induction l as [|x l IH]; intros R Hr; cbn [filter_users] in Hr.
  { injection Hr as <-. set_solver. }
  apply py_bind_Ok in Hr as (b & Hb & Hr). apply py_bind_Ok in Hr as (R' & HR' & [= <-]).
  destruct (IH R' HR') as [Hall Hin]. split.
  - intros u [->|Hu]%elem_of_cons; eauto.
  - intros u. rewrite elem_of_cons. destruct b.
    + rewrite elem_of_union, elem_of_singleton, Hin. naive_solver.
    + rewrite Hin. split; [tauto|]. intros [[->|?] ?]; [congruence|done].
Qed.

Section Laws.
Context `{LawfulVisibilityStore}.

(** The state of a context, filtered, agrees with the whole one. *)
Lemma get_state_map_agree ids e f k :
  contains f k = true →
  get_state_map (λ f, filter_state f ids) e f !! k = get_state_map (λ f, filter_state f ids) e all !! k.
Proof.
  intros Hc. unfold get_state_map.
  assert (∀ f, contains f k = true →
    (omap (λ i, vis_get_events (list_to_set (map snd (map_to_list (filter_state f ids)))) !! i)
       (filter_state f ids) : state_map event) !! k = ids !! k ≫= λ i, known !! i) as Hl.
  { intros g Hg. rewrite lookup_omap, lookup_filtered by done.
    destruct (ids !! k) as [i|] eqn:Ek; [cbn|done]. rewrite vis_events_spec, decide_True; [done|].
    apply elem_of_list_to_set, list_elem_of_fmap. exists (k, i). split; [done|].
    apply elem_of_map_to_list. by rewrite lookup_filtered. }
  assert (contains all k = true) as Ha by (unfold all; destruct k; by rewrite contains_new_filter, lookup_empty).
  destruct (ev_state_key e) as [sk|]; [|by rewrite !Hl].
  destruct (decide ((ev_type e, sk) = k)) as [<-|Hne]; [by rewrite !lookup_insert_eq|].
  rewrite !lookup_insert_ne by done. by rewrite !Hl.
Qed.

Lemma bulk_agrees ids users e p send R u :
  filter_event_for_clients_with_state (λ f, filter_state f ids) users e p send = Ok R →
  ev_soft_failed e = false → u ∈ users →
  ∃ o, check_client_allowed_to_see_event time_msec u e send p ∅
         (bool_decide (ev_sender e ∈ ignored_users u))
         (get_retention_policy_for_room (ev_room_id e))
         (Some (get_state_map (λ f, filter_state f ids) e all)) false = Ok o ∧
       (u ∈ R ↔ o = Some e) ∧ (u ∉ R ↔ o = None).
Proof.
  intros Hr Hsf Hu. unfold filter_event_for_clients_with_state in Hr. rewrite Hsf in Hr.
  destruct (decide (users = ∅)) as [->|_]; [set_solver|].
  unfold check_client_allowed_to_see_event.
  replace (bool_decide (ev_sender e ∈ ignored_users u)) with (bool_decide (u ∈ ignored_by (ev_sender e)))
    by (apply bool_decide_ext; by rewrite vis_ignore_spec).
  set (den := is_denied _).
  assert (u ∈ users_to_check users e send ↔ send && den = false) as HA.
  { unfold users_to_check. destruct send; cbn [andb]; [rewrite elem_of_filter; tauto|done]. }
  set (A := users_to_check users e send) in *. clearbody A.
  destruct (send && den) eqn:Ed.
  { exists None. split; [done|]. assert (u ∉ R) as HuR; [|by split].
    assert (u ∉ A) as HuA by (rewrite HA; done). destruct (ev_outlier e).
    - case_decide; [|by injection Hr as <-]. apply py_bind_Ok in Hr as (sk & _ & [= <-]).
      case_bool_decide; [|set_solver]. rewrite elem_of_singleton. by intros ->.
    - apply py_bind_Ok in Hr as ([] & _ & Hr); [by injection Hr as <-|].
      apply filter_users_Ok in Hr as [_ Hin]. rewrite Hin, elem_of_elements. tauto. }
  assert (u ∈ A) as HuA by (by apply HA).
  rewrite bool_decide_eq_false_2 by set_solver. unfold check_event_state. destruct (ev_outlier e).
  - unfold is_own_membership. case_decide; [|exists None; injection Hr as <-; set_solver].
    apply py_bind_Ok in Hr as (sk & -> & [= <-]). cbn [mbind py_bind].
    destruct (decide (sk = u)) as [->|Hne].
    + rewrite !bool_decide_eq_true_2 by done. exists (Some e). split; [done|]. set_solver.
    + rewrite (bool_decide_eq_false_2 (sk = u)) by done. exists None. split; [done|].
      case_bool_decide; set_solver.
  - cbn [negb]. rewrite (effective_visibility_agree _ (get_state_map (λ f, filter_state f ids) e all)) in Hr
      by (apply get_state_map_agree, from_types_contains_key; by left).
    set (v := get_effective_room_visibility_from_state _) in *.
    apply py_bind_Ok in Hr as (lax & Hlax & Hr). rewrite Hlax. cbn [mbind py_bind].
    destruct lax; [exists (Some e); injection Hr as <-; set_solver|].
    apply filter_users_Ok in Hr as [Hall Hin].
    rewrite (check_membership_agree u e v _ (get_state_map (λ f, filter_state f ids) e
      (from_types (map (λ u, (EventTypes.Member, Some u)) (elements A)
                   ++ [(EventTypes.RoomHistoryVisibility, Some "")])))).
    2: { symmetry. apply get_state_map_agree, from_types_contains_key, elem_of_app. left.
         apply list_elem_of_fmap. exists u. split; [done|]. by apply elem_of_elements. }
    specialize (Hin u). rewrite elem_of_elements in Hin.
    destruct (Hall u) as [b Hb]; [by apply elem_of_elements|]. rewrite Hb in Hin.
    apply py_fmap_Ok in Hb as (r & Hr & <-). rewrite Hr. cbn [mbind py_bind].
    destruct (allowed r) eqn:Ea; cbn [negb andb]; [exists (Some e)|exists None]; (split; [done|]);
      naive_solver.
Qed.

(** ** Lists of events for a user *)

(** The events of a state *)
Definition events_of (st : state_map string) : state_map event := omap (λ j, known !! j) st.

Definition to_be_sent (u : string) (e : event) : Prop :=
  ev_soft_failed e = false ∧
  check_filter_send_to_client time_msec e (get_retention_policy_for_room (ev_room_id e))
    (bool_decide (ev_sender e ∈ ignored_users u)) = MAYBE_ALLOWED.

(** The event [o] put out for the event [e], up to the membership it is annotated
    with *)
Definition output_for (u : string) (p : bool) (erased : gmap string bool) (e o : event) : Prop :=
  ∃ f a m st, o = with_unsigned f "membership" a ∧ state_at (ev_id e) = Some st ∧
    membership_at (events_of st) u = Ok m ∧
    shown e (get_effective_room_visibility_from_state (events_of st)) p m
      (default false (erased !! ev_sender e)) (Some f).

Lemma client_state ids u e st :
  ev_id e ∈ ids → state_at (ev_id e) = Some st →
  get_state_for_events ids (client_filter u) !! ev_id e
  = Some (filter_state (client_filter u) (events_of st)).
Proof. intros Hin Hst. by rewrite vis_state_spec, decide_True, Hst. Qed.

Lemma client_filter_keys u :
  contains (client_filter u) HISTORY_VIS_KEY = true ∧
  contains (client_filter u) (EventTypes.Member, u) = true.
Proof.
  unfold client_filter, HISTORY_VIS_KEY.
  split; apply from_types_contains_key; [by left|right; by left].
Qed.

Lemma annotation_membership u e st a :
  is_own_membership e u = Ok false → annotation u e (Some st) = Ok a → ∃ m, membership_at st u = Ok m.
Proof.
  unfold annotation, membership_at. intros ->. cbn [mbind py_bind].
  destruct (st !! _); [|by eauto]. intros ->. eauto.
Qed.

(** The check on an ordinary event, from the filtered state *)
Lemma client_check_shown ids u p always ignored rp erased e st m :
  event_wf e → ordinary e u → ev_id e ∉ always → ev_id e ∈ ids →
  check_filter_send_to_client time_msec e rp ignored = MAYBE_ALLOWED →
  state_at (ev_id e) = Some st → membership_at (events_of st) u = Ok m →
  ∃ o, check_client_allowed_to_see_event time_msec u e true p always ignored rp
         (get_state_for_events ids (client_filter u) !! ev_id e) erased = Ok o ∧
    shown e (get_effective_room_visibility_from_state (events_of st)) p m erased o.
Proof.
  intros Hwf Hord Hal Hin Hden Hst Hm. destruct (client_filter_keys u) as [Hv Hu].
  unfold check_client_allowed_to_see_event. rewrite Hden. cbn [andb is_denied].
  rewrite bool_decide_eq_false_2 by done. rewrite (client_state ids u e st) by done.
  rewrite (check_event_state_agree u e p _ (events_of st)) by (by apply lookup_filtered).
  by apply check_event_state_shown.
Qed.

Lemma shown_plain e v p m erased f :
  event_wf e → ev_rejected_reason e = None → shown e v p m erased (Some f) → clone_event f = Ok f.
Proof.
  intros Hwf Hrej Hs. inversion Hs; subst.
  - by apply clone_event_eq.
  - apply clone_event_eq; [by apply redacted_event_wf|done].
Qed.

Lemma allowed_event_pick ids u p always erased e o :
  event_wf e → ev_rejected_reason e = None → ordinary e u → ev_id e ∉ always → ev_id e ∈ ids →
  allowed_event u p always true (get_state_for_events ids (client_filter u) !! ev_id e)
    (default false (erased !! ev_sender e)) e = Ok (Some o) →
  ev_soft_failed e = false → to_be_sent u e ∧ output_for u p erased e o.
Proof.
  intros Hwf Hrej Hord Hal Hin Hr Hsf. unfold allowed_event in Hr. cbn [mbind py_bind] in Hr.
  apply py_bind_Ok in Hr as (fo & Hfo & Hr). destruct fo as [f|]; [|done].
  apply py_bind_Ok in Hr as (a & Ha & Hr). apply py_bind_Ok in Hr as (c & Hc & [= <-]).
  destruct (check_filter_send_to_client time_msec e (get_retention_policy_for_room (ev_room_id e))
    (bool_decide (ev_sender e ∈ ignored_users u))) eqn:Hden.
  2: { unfold check_client_allowed_to_see_event in Hfo. by rewrite Hden in Hfo. }
  destruct (state_at (ev_id e)) as [st|] eqn:Hst.
  2: { rewrite vis_state_spec, decide_True, Hst in Hfo by done.
       unfold check_client_allowed_to_see_event, check_event_state in Hfo.
       rewrite Hden, (ord_outlier _ _ Hord) in Hfo. cbn in Hfo.
       by rewrite bool_decide_eq_false_2 in Hfo. }
  rewrite (client_state ids u e st) in Ha by done.
  apply annotation_membership in Ha as [m Hm]; [|apply Hord].
  unfold membership_at in Hm. rewrite lookup_filtered in Hm by apply client_filter_keys.
  destruct (client_check_shown ids u p always (bool_decide (ev_sender e ∈ ignored_users u))
    (get_retention_policy_for_room (ev_room_id e)) (default false (erased !! ev_sender e)) e st m)
    as (o & Ho & Hs); [done..|].
  rewrite Hfo in Ho. injection Ho as <-. rewrite (shown_plain _ _ _ _ _ _ Hwf Hrej Hs) in Hc.
  injection Hc as <-. split; [done|]. exists f, a, m, st. done.
Qed.

Lemma allowed_event_drop ids u p always erased e st m :
  event_wf e → ordinary e u → ev_id e ∉ always → ev_id e ∈ ids →
  state_at (ev_id e) = Some st → membership_at (events_of st) u = Ok m →
  to_be_sent u e → may_see (get_effective_room_visibility_from_state (events_of st)) p m →
  allowed_event u p always true (get_state_for_events ids (client_filter u) !! ev_id e) erased e
  ≠ Ok None.
Proof.
  intros Hwf Hord Hal Hin Hst Hm [_ Hden] Hsee Hr. unfold allowed_event in Hr. cbn [mbind py_bind] in Hr.
  apply py_bind_Ok in Hr as (fo & Hfo & Hr).
  destruct (client_check_shown ids u p always (bool_decide (ev_sender e ∈ ignored_users u))
    (get_retention_policy_for_room (ev_room_id e)) erased e st m) as (o & Ho & Hs); [done..|].
  rewrite Hfo in Ho. injection Ho as <-. inversion Hs; subst; [done|..];
    apply py_bind_Ok in Hr as (a & _ & Hr); by apply py_bind_Ok in Hr as (c & _ & Hr).
Qed.

Lemma client_list_Ok u events p always out :
  Forall (λ e, event_wf e ∧ ev_rejected_reason e = None ∧ ordinary e u ∧ ev_id e ∉ always) events →
  filter_events_for_client u events p always true = Ok out →
  ∃ picks, picks `sublist_of` events ∧
    Forall2 (λ e o, to_be_sent u e ∧ output_for u p
      (are_users_erased (map ev_sender (List.filter (λ e, negb (ev_soft_failed e)) events))) e o)
      picks out ∧
    ∀ e st m, e ∈ events → to_be_sent u e → state_at (ev_id e) = Some st →
      membership_at (events_of st) u = Ok m →
      may_see (get_effective_room_visibility_from_state (events_of st)) p m → e ∈ picks.
Proof.
  intros Hall Hr. unfold filter_events_for_client in Hr. rewrite Forall_forall in Hall.
  set (evs := List.filter (λ e, negb (ev_soft_failed e)) events) in Hr.
  assert (∀ e, e ∈ evs ↔ e ∈ events ∧ ev_soft_failed e = false) as Hevs.
  { intros e. unfold evs. by rewrite !list_elem_of_In, filter_In, negb_true_iff. }
  assert (∀ e, e ∈ evs → ev_id e ∈@{gset string}
    list_to_set (map ev_id (List.filter (λ e, negb (ev_outlier e)) evs))) as Hids.
  { intros e He. apply elem_of_list_to_set, list_elem_of_fmap. exists e. split; [done|].
    apply list_elem_of_In, filter_In. split; [by apply list_elem_of_In|]. apply Hevs in He as [He _].
    destruct (Hall e He) as (_ & _ & Hord & _). by rewrite (ord_outlier _ _ Hord). }
  apply filter_map_Ok in Hr as (picks & Hsub & Hpicks & Hrest). exists picks. split_and!.
  - etrans; [exact Hsub|]. unfold evs. clear. induction events as [|e l IH]; cbn; [constructor|].
    destruct (negb _); by constructor.
  - assert (Forall (λ e, e ∈ evs) picks) as Hin.
    { apply Forall_forall. intros e He. by eapply elem_of_submseteq, sublist_submseteq. }
    eapply Forall2_impl; [exact (Forall2_with_l _ _ _ _ Hin Hpicks)|].
    intros e o [He Ho]. pose proof He as He'. apply Hevs in He' as [He' Hsf].
    destruct (Hall e He') as (? & ? & ? & ?).
    eapply allowed_event_pick in Ho; [done|done..|by apply Hids|done].
  - intros e st m He Hs Hst Hm Hsee. destruct (Hall e He) as (? & ? & ? & ?).
    assert (e ∈ evs) as Hin by (apply Hevs; split; [done|apply Hs]).
    destruct (Hrest e Hin) as [Hn|]; [|done]. exfalso. revert Hn.
    eapply allowed_event_drop; [done..|by apply Hids|done|done|done|done].
Qed.

(** ** Events for servers *)

(** Somebody of the server is joined at the event, or invited if that is enough. *)
Definition server_in_room (server visibility : string) (st : state_map string) : Prop :=
  ∃ u ev sk, events_of st !! (EventTypes.Member, u) = Some ev ∧ ev_state_key ev = Some sk ∧
    get_domain_from_id sk = Ok server ∧
    (membership ev = Ok (JStr Membership.JOIN) ∨
     membership ev = Ok (JStr Membership.INVITE) ∧ visibility = HistoryVisibility.INVITED).

Lemma any_member_sees_true server v members :
  any_member_sees server v members = Ok true →
  ∃ ev sk, ev ∈ members ∧ ev_state_key ev = Some sk ∧ get_domain_from_id sk = Ok server ∧
    (membership ev = Ok (JStr Membership.JOIN) ∨
     membership ev = Ok (JStr Membership.INVITE) ∧ v = HistoryVisibility.INVITED).
Proof.
  induction members as [|ev members IH]; cbn [any_member_sees]; [done|]. intros Hr.
  apply py_bind_Ok in Hr as (sk & Hsk & Hr). apply py_bind_Ok in Hr as (d & Hd & Hr).
  apply py_bind_Ok in Hr as ([] & Hc & Hr). apply raise_if_Ok in Hc. to_prop. subst d.
  apply py_bind_Ok in Hr as (m & Hm & Hr).
  assert (ev_state_key ev = Some sk) as Hsk'.
  { unfold state_key in Hsk. destruct (ev_state_key ev); [congruence|done]. }
  destruct (is_str m Membership.JOIN) eqn:Ej; [apply is_str_JStr in Ej as ->|].
  { exists ev, sk. split_and!; [by left|done..|by left]. }
  destruct (is_str m Membership.INVITE && _) eqn:Ei.
  { to_prop. match goal with H : is_str m _ = true |- _ => apply is_str_JStr in H as -> end.
    exists ev, sk. split_and!; [by left|done..|by right]. }
  destruct (IH Hr) as (ev' & sk' & ? & ?). exists ev', sk'. split; [by right|done].
Qed.

(** The visibility at an event, as the filter for servers reads it: not checked
    against the known values *)
Definition raw_visibility (st : state_map string) : option string :=
  match st !! HISTORY_VIS_KEY with
  | Some i =>
      if bool_decide (i = "") then Some HistoryVisibility.SHARED
      else match known !! i with
           | Some ev =>
               match dict_get_default "history_visibility" (JStr HistoryVisibility.SHARED)
                       (ev_content ev) with
               | JStr s => Some s | _ => None end
           | None => None
           end
  | None => Some HistoryVisibility.SHARED
  end.

(** A dict filled by event id with what depends on the id only *)
Lemma fill_by_id (g : string → py string) events (vis : gmap string string) e :
  py_fold (λ (r : gmap string string) e, v ← g (ev_id e); Ok (<[ev_id e := v]> r)) ∅ events = Ok vis →
  e ∈ events → ∃ v, vis !! ev_id e = Some v ∧ g (ev_id e) = Ok v.
Proof.
  intros Hr He.
  assert (∀ i v, vis !! i = Some v → g i = Ok v) as Hval.
  { revert Hr. apply (py_fold_inv (λ r : gmap string string, ∀ i v, r !! i = Some v → g i = Ok v)).
    - intros x r r' _ Hr Hx i v. apply py_bind_Ok in Hx as (w & Hw & [= <-]).
      intros [[<- <-]|[_ ?]]%lookup_insert_Some; auto.
    - intros i v. by rewrite lookup_empty. }
  enough (is_Some (vis !! ev_id e)) as [v Hv] by eauto. clear Hval.
  revert Hr. generalize (∅ : gmap string string) as m.
  induction events as [|x l IH]; intros m Hr; [by apply not_elem_of_nil in He|].
  cbn [py_fold] in Hr. apply py_bind_Ok in Hr as (m' & Hm' & Hr).
  apply py_bind_Ok in Hm' as (v & Hv & [= <-]). apply elem_of_cons in He as [->|He]; [|by eapply IH].
  revert Hr. apply (py_fold_inv (λ r : gmap string string, is_Some (r !! ev_id x))).
  - intros y r r' _ Hs Hy. apply py_bind_Ok in Hy as (w & _ & [= <-]).
    rewrite lookup_insert_is_Some. destruct (decide (ev_id y = ev_id x)); auto.
  - rewrite lookup_insert_eq. eauto.
Qed.

Lemma event_to_history_vis_Ok events vis e st :
  event_to_history_vis events = Ok vis → e ∈ events → ev_outlier e = false →
  state_at (ev_id e) = Some st → ∃ v, vis !! ev_id e = Some v ∧ raw_visibility st = Some v.
Proof.
  unfold event_to_history_vis. intros Hr He Hout Hst.
  set (X := list_to_set (map ev_id _)) in Hr. set (f := from_types _) in Hr.
  assert (get_state_ids_for_events X f !! ev_id e = Some (filter_state f st)) as Hids.
  { rewrite vis_state_ids_spec, decide_True, Hst; [done|].
    apply elem_of_list_to_set, list_elem_of_fmap. exists e. split; [done|].
    apply list_elem_of_In, filter_In. split; [by apply list_elem_of_In|]. by rewrite Hout. }
  set (V := list_to_set (List.filter _ _)) in Hr.
  apply (fill_by_id (λ i, history_vis_of (vis_get_events V) (get_state_ids_for_events X f !! i)))
    with (e := e) in Hr as (v & Hv & Hg); [|done].
  exists v. split; [done|]. rewrite Hids in Hg. unfold history_vis_of in Hg. cbn [mbind option_bind] in Hg.
  assert (contains f HISTORY_VIS_KEY = true) as Hk by (apply from_types_contains_key; by left).
  rewrite lookup_filtered in Hg by done. unfold raw_visibility.
  destruct (st !! HISTORY_VIS_KEY) as [i|] eqn:Ei; [|by injection Hg as <-].
  case_bool_decide as Hi; [by injection Hg as <-|].
  rewrite vis_events_spec, decide_True in Hg.
  - destruct (known !! i) as [ev|]; [|done]. by destruct (dict_get_default _ _ _); try done; injection Hg as <-.
  - apply elem_of_list_to_set, list_elem_of_In, filter_In. split; [|by rewrite bool_decide_eq_false_2].
    apply list_elem_of_In, list_elem_of_omap. exists (ev_id e, filter_state f st).
    split; [by apply elem_of_map_to_list|]. cbn [snd]. by rewrite lookup_filtered.
Qed.

Lemma event_to_memberships_in events server e st ms k ev :
  event_to_memberships events server !! ev_id e = Some ms → state_at (ev_id e) = Some st →
  ms !! k = Some ev → events_of st !! k = Some ev ∧ k.1 = EventTypes.Member.
Proof.
  unfold event_to_memberships. destruct events as [|e0 l]; [by rewrite lookup_empty|].
  set (f := from_types _). set (X := list_to_set _). set (em := vis_get_events _). intros Hms Hst Hk.
  rewrite lookup_fmap, fmap_Some in Hms. destruct Hms as (ids & Hids & ->).
  rewrite vis_state_ids_spec in Hids. case_decide; [|done]. rewrite Hst in Hids. injection Hids as <-.
  rewrite lookup_omap, filter_state_lookup in Hk. destruct (contains f k) eqn:Hc; [|done].
  unfold events_of. rewrite lookup_omap. destruct (st !! k) as [i|]; [|done]. cbn in *.
  unfold em in Hk. rewrite vis_events_spec in Hk. case_decide; [|done]. split; [done|].
  destruct k as [t k]. apply from_types_contains in Hc as [Hc|Hc]; apply list_elem_of_singleton in Hc;
    by injection Hc as ->.
Qed.

(** What a server may see of an event *)
Record server_may_see (server local : string) (erased : gmap string bool) (partial : bool) (e : event)
    : Prop := {
  sms_erased : erased !! ev_sender e ≠ Some true;
  sms_partial : partial = true → get_domain_from_id (ev_sender e) = Ok local ∨
                                 is_partial_state_room (ev_room_id e) = false;
  sms_visible st : ev_outlier e = false → state_at (ev_id e) = Some st →
    ∃ v, raw_visibility st = Some v ∧
      (v ∉ [HistoryVisibility.INVITED; HistoryVisibility.JOINED] ∨ server_in_room server v st);
}.

Lemma partial_invisible_Ok local events inv e :
  partial_state_invisible local events = Ok inv → e ∈ events → ev_id e ∉ inv →
  get_domain_from_id (ev_sender e) = Ok local ∨ is_partial_state_room (ev_room_id e) = false.
Proof.
  unfold partial_state_invisible. generalize (∅ : gset string) as acc.
  induction events as [|x l IH]; intros acc Hr He Hni; [by apply not_elem_of_nil in He|].
  cbn [py_fold] in Hr. apply py_bind_Ok in Hr as (acc' & Hacc' & Hr).
  apply elem_of_cons in He as [->|He]; [|by eapply IH].
  apply py_bind_Ok in Hacc' as (d & Hd & [= <-]).
  destruct (is_partial_state_room (ev_room_id x)); [|by right]. left.
  case_bool_decide as Hdl; [by subst d|]. exfalso. apply Hni. revert Hr. cbn [negb andb].
  apply (py_fold_inv (λ r : gset string, ev_id x ∈ r)); [|set_solver].
  intros y r r' _ Hs Hy. apply py_bind_Ok in Hy as (w & _ & [= <-]). case_match; set_solver.
Qed.

Lemma check_event_is_visible_true server v events e st :
  check_event_is_visible server v (default ∅ (event_to_memberships events server !! ev_id e)) = Ok true →
  state_at (ev_id e) = Some st →
  v ∉ [HistoryVisibility.INVITED; HistoryVisibility.JOINED] ∨ server_in_room server v st.
Proof.
  unfold check_event_is_visible. case_bool_decide as Hv; [|by left]. intros Hr Hst. right.
  apply any_member_sees_true in Hr as (ev & sk & Hin & Hsk & Hd & Hm).
  apply list_elem_of_fmap in Hin as ([k ev'] & -> & Hin%elem_of_map_to_list).
  destruct (event_to_memberships events server !! ev_id e) as [ms|] eqn:Ems; cbn in Hin.
  2: by rewrite lookup_empty in Hin.
  destruct (event_to_memberships_in _ _ _ _ _ _ _ Ems Hst Hin) as [Hev Hk].
  destruct k as [t u]. cbn in Hk. subst t. exists u, ev', sk. done.
Qed.

Lemma filter_map_all {A B} (f : A → py (option B)) l out :
  filter_map f l = Ok out → (∀ x, x ∈ l → f x ≠ Ok None) → Forall2 (λ x y, f x = Ok (Some y)) l out.
Proof.
  revert out. induction l as [|x l IH]; intros out Hr Hn; cbn [filter_map] in Hr.
  { injection Hr as <-. constructor. }
  apply py_bind_Ok in Hr as (o & Ho & Hr). apply py_bind_Ok in Hr as (r & Hr' & [= <-]).
  destruct o as [y|]; [|by apply Hn in Ho; [|left]]. constructor; [done|].
  apply IH; [done|]. intros z Hz. apply Hn. by right.
Qed.

(** An event put out for a server is one it may see, or the redacted form of one
    of the events. *)
Lemma server_list_Ok server local events redact ers part out :
  filter_events_for_server server local events redact ers part = Ok out →
  ∃ picks, picks `sublist_of` events ∧ (redact = true → picks = events) ∧
    Forall2 (λ e o,
      (o = e ∧ server_may_see server local
                 (if ers then are_users_erased (map ev_sender events) else ∅) part e) ∨
      redact = true ∧ prune_event e = Ok o) picks out.
Proof.
  unfold filter_events_for_server. set (er := if ers then _ else _). intros Hr.
  apply py_bind_Ok in Hr as (inv & Hinv & Hr). apply py_bind_Ok in Hr as (vis & Hvis & Hr).
  apply py_bind_Ok in Hr as (restr & _ & Hr). set (g := λ e, b ← _; _) in Hr.
  assert (∀ e o, e ∈ events → g e = Ok (Some o) →
    (o = e ∧ server_may_see server local er part e) ∨ redact = true ∧ prune_event e = Ok o) as Hg.
  { intros e o He Ho. unfold g in Ho. apply py_bind_Ok in Ho as (b & Hb & Ho). destruct b.
    2: { destruct redact; [|done]. right. split; [done|]. by apply py_fmap_Ok in Ho as (x & -> & [= ->]). }
    injection Ho as <-. left. split; [done|]. unfold include_event_in_output in Hb.
    apply py_bind_Ok in Hb as (erased & Her & Hb). apply py_bind_Ok in Hb as (v & Hv & Hb).
    apply py_bind_Ok in Hb as (visible & Hvb & [= Hb]). to_prop. subst erased visible. split.
    - unfold is_sender_erased in Her. case_decide as E; [by rewrite E, lookup_empty|].
      destruct (er !! ev_sender e) as [[]|]; [done| |]; congruence.
    - intros ->. by eapply partial_invisible_Ok.
    - intros st Hout Hst. destruct (event_to_history_vis_Ok events vis e st Hvis He Hout Hst) as (v' & Hv' & Hraw).
      rewrite Hv' in Hv. injection Hv as ->. exists v. split; [done|].
      by eapply check_event_is_visible_true. }
  assert (redact = true → ∀ x, x ∈ events → g x ≠ Ok None) as Hn.
  { intros -> x _ Hx. unfold g in Hx. apply py_bind_Ok in Hx as ([] & _ & Hx); [done|].
    by apply py_fmap_Ok in Hx as (? & _ & ?). }
  pose proof Hr as Hr'. apply filter_map_Ok in Hr as (picks & Hsub & Hpicks & _).
  destruct redact.
  - exists events. split_and!; [done..|]. apply filter_map_all in Hr'; [|by apply Hn].
    eapply Forall2_impl; [eapply (Forall2_with_l (λ e, e ∈ events)); [|exact Hr']|].
    + by apply Forall_forall.
    + intros e o [He Ho]. auto.
  - exists picks. split_and!; [done..|].
    eapply Forall2_impl; [eapply (Forall2_with_l (λ e, e ∈ events)); [|exact Hpicks]|].
    + apply Forall_forall. intros e He. by eapply elem_of_sublist.
    + intros e o [He Ho]. auto.
Qed.
End Laws.

(** Without filtering for sending the retention policies are never bound, and the
    first event that is not soft-failed raises. *)
Lemma not_sending_raises `{VisibilityStore} u events p always :
  Exists (λ e, ev_soft_failed e = false) events →
  filter_events_for_client u events p always false = Raise NameError.
Proof.
  intros He. unfold filter_events_for_client.
  destruct (List.filter (λ e, negb (ev_soft_failed e)) events) as [|e l] eqn:E; [|done].
  exfalso. apply Exists_exists in He as (e & Hin & Hs).
  assert (e ∈ List.filter (λ e, negb (ev_soft_failed e)) events) as Hf.
  { apply list_elem_of_In, filter_In. split; [by apply list_elem_of_In|]. by rewrite Hs. }
  rewrite E in Hf. by apply not_elem_of_nil in Hf.
Qed.

(** ** The theorems *)

(** C35: For an event whose visibility the state decides, the checks of
    [_check_client_allowed_to_see_event] give what the rules say: an event is
    shown exactly when the membership of the user and the history visibility at
    the event allow it, and it is shown redacted exactly when its sender was
    erased and the user was not joined.  The event is no outlier, no change of the
    history visibility and no membership of the user, is not among the events always to
    be included, and passes the filter for sending (ignored senders, retention, dummy
    events and aliases) if that is asked for. *)
Theorem client_visibility_rules now u e send p always ignored rp st erased m :
  event_wf e → ordinary e u → ev_id e ∉ always → membership_at st u = Ok m →
  send && is_denied (check_filter_send_to_client now e rp ignored) = false →
  ∃ o, check_client_allowed_to_see_event now u e send p always ignored rp (Some st) erased = Ok o ∧
    shown e (get_effective_room_visibility_from_state st) p m erased o.
Proof.
  intros Hwf Hord Hal Hm Hd. unfold check_client_allowed_to_see_event.
  rewrite Hd, bool_decide_eq_false_2 by done. by apply check_event_state_shown.
Qed.

(** Checking one event for many users, reading the state twice through
    narrow filters, gives exactly the users for whom the check of a single user
    against the whole state shows the event. *)
Theorem bulk_visibility_agrees `{LawfulVisibilityStore} ids users e p send R u :
  filter_event_for_clients_with_state (λ f, filter_state f ids) users e p send = Ok R →
  ev_soft_failed e = false → u ∈ users →
  ∃ o, check_client_allowed_to_see_event time_msec u e send p ∅
         (bool_decide (ev_sender e ∈ ignored_users u))
         (get_retention_policy_for_room (ev_room_id e))
         (Some (get_state_map (λ f, filter_state f ids) e all)) false = Ok o ∧
       (u ∈ R ↔ o = Some e) ∧ (u ∉ R ↔ o = None).
Proof. apply bulk_agrees. Qed.

(** The events given to a user are some of the events asked about, in their
    order; none is soft-failed or barred from being sent, each is shown as the
    rules say for the state at that event, and no event that the rules show is
    left out. *)
Theorem filter_events_for_client_spec `{LawfulVisibilityStore} u events p always out :
  Forall (λ e, event_wf e ∧ ev_rejected_reason e = None ∧ ordinary e u ∧ ev_id e ∉ always) events →
  filter_events_for_client u events p always true = Ok out →
  ∃ picks, picks `sublist_of` events ∧
    Forall2 (λ e o, to_be_sent u e ∧ output_for (state_at := state_at) (known := known) u p
      (are_users_erased (map ev_sender (List.filter (λ e, negb (ev_soft_failed e)) events))) e o)
      picks out ∧
    ∀ e st m, e ∈ events → to_be_sent u e → state_at (ev_id e) = Some st →
      membership_at (events_of (known := known) st) u = Ok m →
      may_see (get_effective_room_visibility_from_state (events_of (known := known) st)) p m → e ∈ picks.
Proof. apply client_list_Ok. Qed.

(** C36: Whatever [filter_events_for_server] returns for a server is one of the events given
    or, if redaction was asked for, the redacted form of one, in their order; and with
    redaction there is one result for every event.  An event that is returned as it is has a
    sender who is not erased, if erased senders are to be filtered out; it is sent from this
    server or in a room that is fully joined, if partial-state rooms are to be filtered; and
    if it is no outlier and its state is known, then the room was open at it or a user of that
    server was in the room (joined, or invited where that is enough). *)
Theorem server_sees_only_allowed `{LawfulVisibilityStore} server local events redact ers part out :
  filter_events_for_server server local events redact ers part = Ok out →
  ∃ picks, picks `sublist_of` events ∧ (redact = true → picks = events) ∧
    Forall2 (λ e o,
      (o = e ∧ server_may_see (state_at := state_at) (known := known) server local
                 (if ers then are_users_erased (map ev_sender events) else ∅) part e) ∨
      redact = true ∧ prune_event e = Ok o) picks out.
Proof. apply server_list_Ok. Qed.

(** ** The small room, with history for members only *)

Definition joined_history : event :=
  mk_event RoomVersions.V11 "$vis" EventTypes.RoomHistoryVisibility alice (Some "")
    [("history_visibility", JStr HistoryVisibility.JOINED)] 7 ["$dave"] ["$create"].

Definition vis_known : gmap string event :=
  list_to_map (map (λ e, (ev_id e, e)) (joined_history :: room_events)).

Definition vis_state : state_map string :=
  list_to_map [((EventTypes.Create, ""), "$create"); (HISTORY_VIS_KEY, "$vis");
               ((EventTypes.Member, alice), "$alice"); ((EventTypes.Member, bob), "$bob");
               ((EventTypes.Member, dave), "$dave")].

(** Carol ignores Bob and Alice's data was erased. *)
#[export] Instance vis_store : VisibilityStore := {|
  get_state_for_events ids f :=
    gset_to_gmap (filter_state f (omap (λ j, vis_known !! j) vis_state)) ids;
  get_state_ids_for_events ids f := gset_to_gmap (filter_state f vis_state) ids;
  vis_get_events ids := filter (λ p, p.1 ∈ ids) vis_known;
  ignored_users u := if decide (u = carol) then {[bob]} else ∅;
  ignored_by u := if decide (u = bob) then {[carol]} else ∅;
  are_users_erased us := list_to_map (map (λ u, (u, bool_decide (u = alice))) us);
  get_retention_policy_for_room _ := {| min_lifetime := None; max_lifetime := Some 100000 |};
  is_partial_state_room _ := false;
  time_msec := 2000;
|}.

#[export] Instance vis_store_lawful : LawfulVisibilityStore (λ _, Some vis_state) vis_known.
Proof.
  split.
  - intros ids i. cbn [vis_get_events vis_store]. apply option_eq. intros e.
    rewrite map_lookup_filter_Some. cbn [fst]. case_decide; naive_solver.
  - intros ids f i. cbn [get_state_ids_for_events vis_store]. rewrite lookup_gset_to_gmap.
    by case_decide; simplify_option_eq.
  - intros ids f i. cbn [get_state_for_events vis_store]. rewrite lookup_gset_to_gmap.
    by case_decide; simplify_option_eq.
  - intros u s. cbn. destruct (decide (u = carol)), (decide (s = bob)); subst; set_solver.
Qed.

Definition bob_message : event := message_by "$m" bob.

Lemma bob_message_wf : event_wf bob_message.
Proof. split; [by constructor|]. intros _. split; repeat constructor. Qed.

Lemma bob_message_ordinary u : ordinary bob_message u.
Proof. by split. Qed.

Definition vis_events : state_map event := omap (λ j, vis_known !! j) vis_state.

Example client_visibility_rules_witness :
  ∃ o, check_client_allowed_to_see_event 2000 dave bob_message true false ∅ false
         {| min_lifetime := None; max_lifetime := None |} (Some vis_events) false = Ok o ∧
    shown bob_message (get_effective_room_visibility_from_state vis_events) false
      (JStr Membership.INVITE) false o.
Proof.
  apply (client_visibility_rules 2000 dave bob_message true false ∅ false _ vis_events false).
  - exact bob_message_wf.
  - apply bob_message_ordinary.
  - apply not_elem_of_empty.
  - vm_compute. reflexivity.
  - reflexivity.
Defined.

Definition seen_by : gset string :=
  match filter_event_for_clients_with_state (λ f, filter_state f vis_state) {[alice; carol; dave]}
          bob_message false true with Ok R => R | Raise _ => ∅ end.

Lemma seen_by_Ok :
  filter_event_for_clients_with_state (λ f, filter_state f vis_state) {[alice; carol; dave]}
    bob_message false true = Ok seen_by.
Proof.
  assert (is_ok (filter_event_for_clients_with_state (λ f, filter_state f vis_state)
    {[alice; carol; dave]} bob_message false true) = true) as Hb by (vm_compute; reflexivity).
  revert Hb. unfold seen_by. by destruct (filter_event_for_clients_with_state _ _ _ _ _).
Qed.

(** Alice, who is joined, is the one to see the message. *)
Example seen_by_alice : elements seen_by = [alice].
Proof. vm_compute. reflexivity. Qed.

Example bulk_visibility_agrees_witness :
  ∃ o : option event, (alice ∈ seen_by ↔ o = Some bob_message) ∧ (alice ∉ seen_by ↔ o = None).
Proof.
  destruct (bulk_visibility_agrees vis_state {[alice; carol; dave]} bob_message false true seen_by alice)
    as (o & _ & Ho).
  - exact seen_by_Ok.
  - reflexivity.
  - apply elem_of_union_l, elem_of_union_l, elem_of_singleton_2. reflexivity.
  - exists o. exact Ho.
Defined.

Definition shown_to_dave : list event :=
  match filter_events_for_client dave [bob_message; message_by "$n" alice] false ∅ true with
  | Ok l => l | Raise _ => [] end.

Lemma shown_to_dave_Ok :
  filter_events_for_client dave [bob_message; message_by "$n" alice] false ∅ true = Ok shown_to_dave.
Proof.
  assert (is_ok (filter_events_for_client dave [bob_message; message_by "$n" alice] false ∅ true) = true)
    as Hb by (vm_compute; reflexivity).
  revert Hb. unfold shown_to_dave. by destruct (filter_events_for_client _ _ _ _ _).
Qed.

Example filter_events_for_client_spec_witness :
  ∃ picks, picks `sublist_of` [bob_message; message_by "$n" alice] ∧ length picks = length shown_to_dave.
Proof.
  destruct (filter_events_for_client_spec dave [bob_message; message_by "$n" alice] false ∅ shown_to_dave)
    as (picks & Hsub & Hp & _).
  - repeat constructor; try apply not_elem_of_empty; done.
  - exact shown_to_dave_Ok.
  - exists picks. split; [done|]. by eapply Forall2_length.
Defined.

Definition shown_to_server (redact : bool) : list event :=
  match filter_events_for_server "other" "hs" [bob_message] redact true true with
  | Ok l => l | Raise _ => [] end.

(** The other server has nobody in the room: it gets the event redacted. *)
Example other_server_sees_redacted :
  shown_to_server false = [] ∧ map ev_content (shown_to_server true) = [[]].
Proof. vm_compute. done. Qed.

Lemma shown_to_server_Ok :
  filter_events_for_server "other" "hs" [bob_message] true true true = Ok (shown_to_server true).
Proof.
  assert (is_ok (filter_events_for_server "other" "hs" [bob_message] true true true) = true) as Hb
    by (vm_compute; reflexivity).
  revert Hb. unfold shown_to_server. by destruct (filter_events_for_server _ _ _ _ _ _).
Qed.

Lemma shown_to_hs_Ok : filter_events_for_server "hs" "hs" [bob_message] false true true = Ok [bob_message].
Proof. vm_compute. reflexivity. Qed.

(** The other server gets the redacted message; the server of the users in the room may see the message. *)
Example server_sees_only_allowed_witness :
  Forall2 (λ e o, (o = e ∧ server_may_see (state_at := λ _, Some vis_state) (known := vis_known) "other" "hs" (are_users_erased [bob]) true e) ∨ prune_event e = Ok o)
    [bob_message] (shown_to_server true) ∧ map ev_content (shown_to_server true) = [[]] ∧
  server_may_see (state_at := λ _, Some vis_state) (known := vis_known) "hs" "hs" (are_users_erased [bob]) true bob_message.
Proof.
  split_and!.
  - destruct (server_sees_only_allowed "other" "hs" [bob_message] true true true (shown_to_server true)
      shown_to_server_Ok) as (picks & _ & Hall & Hp). rewrite (Hall eq_refl) in Hp. eapply Forall2_impl; [exact Hp|].
    intros e o [H|[_ H]]; [left; exact H|right; exact H].
  - vm_compute. reflexivity.
  - destruct (server_sees_only_allowed "hs" "hs" [bob_message] false true true [bob_message] shown_to_hs_Ok) as (picks & _ & _ & Hp).
    destruct picks as [|e picks]; [inversion Hp|]. apply Forall2_cons in Hp as [[[<- H]|[H _]] _]; [exact H|discriminate H].
Defined.
