(* ===== verification/IdGen.v ===== *)
(** * Stream id generators: [synapse/storage/util/id_generators.py] and
      [synapse/storage/util/sequence.py]

    A stream is written by several processes.  Ids come from one sequence of the
    database; each process tracks the ids it is writing, the positions the other
    writers have announced, and the position up to which everything has been
    persisted.  The methods that run under the lock are functions on [id_gen];
    what a method does between two acquisitions of the lock is in separate
    functions, so that the steps of different processes and threads interleave.

    A [SortedSet] is a set of which the code reads the ends, a [SortedList] and a
    heap are lists kept sorted. *)

From S2P Require Import Prelude.

Open Scope Z_scope.

(** ** [IdGenerator] *)

(** [_load_current_id]; [ids] is the column *)
Definition load_current_id (ids : list Z) (step : Z) : Z :=
  let val := if step =? 1 then z_max ids else z_min ids in
  let current_id := match val with Some v => if v =? 0 then step else v | None => step end in
  if 0 <? step then Z.max current_id step else Z.min current_id step.

(** [IdGenerator.get_next]: the id returned is also the new state *)
Definition id_generator_get_next (next_id : Z) : Z := next_id + 1.

(** ** Sequences *)

(** A sequence of PostgreSQL, as [SELECT last_value, is_called] reads it *)
Record pg_sequence : Type := PgSequence { last_value : Z; is_called : bool }.

(** [PostgresSequenceGenerator.get_max_allocated] *)
Definition pg_get_max_allocated (q : pg_sequence) : Z :=
  if is_called q then last_value q else last_value q - 1.

(** [SELECT GREATEST(MAX(id), 0)], or [-MIN(id)] for a negative stream *)
Definition table_max (positive : bool) (ids : list Z) : Z :=
  Z.max (default 0 (if positive then z_max ids else Z.opp <$> z_min ids)) 0.

(** [PostgresSequenceGenerator.check_consistency]; [stream_ids] are those of the
    stream in [stream_positions], [None] without a stream name *)
Definition pg_check_consistency (q : pg_sequence) (ids : list Z) (positive : bool)
    (stream_ids : option (list Z)) : pg_sequence * py unit :=
  let max_stream_id := table_max positive ids in
  let max_in_stream_positions := stream_ids ≫= z_max in
  let last := if is_called q then last_value q else last_value q - 1 in
  let q' :=
    if last <? max_stream_id then PgSequence (Z.max (last_value q) max_stream_id) true else q in
  (q', match max_in_stream_positions with
       | Some m => raise_if (negb (m =? 0) && (last <? m)) IncorrectDatabaseSetup
       | None => Ok tt
       end).

(** [LocalSequenceGenerator]; the callback is there until it has been called *)
Record local_sequence : Type := LocalSequence { has_callback : bool; current_max_id : option Z }.

(** The initialisation at the head of each of its methods; [first] is what the
    callback returns *)
Definition local_current_max (q : local_sequence) (first : Z) : py (local_sequence * Z) :=
  match current_max_id q with
  | Some m => Ok (q, m)
  | None =>
      raise_if (negb (has_callback q)) AssertionError ;;
      Ok (LocalSequence false (Some first), first)
  end.

Definition local_get_next_id_txn (q : local_sequence) (first : Z) : py (local_sequence * Z) :=
  '(q, m) ← local_current_max q first;
  Ok (LocalSequence (has_callback q) (Some (m + 1)), m + 1).

Definition local_get_next_mult_txn (q : local_sequence) (first : Z) (n : nat)
    : py (local_sequence * list Z) :=
  '(q, m) ← local_current_max q first;
  let first_id := m + 1 in
  Ok (LocalSequence (has_callback q) (Some (m + Z.of_nat n)),
      map (λ i, first_id + Z.of_nat i) (seq 0 n)).

Definition local_get_max_allocated (q : local_sequence) (first : Z) : py (local_sequence * Z) :=
  local_current_max q first.

(** ** [MultiWriterIdGenerator] *)

Record gen_config : Type := GenConfig {
  instance_name : string;
  writers : list string;
  is_positive : bool;
}.

Record id_gen : Type := IdGen {
  current_positions : gmap string Z;
  unfinished_ids : gset Z;
  in_flight_fetches : list Z;
  finished_ids : gset Z;
  persisted_upto_position : Z;
  known_persisted_positions : list Z;
  max_seen_allocated_stream_id : Z;
  max_position_of_local_instance : Z;
}.

(** What is left of the tables of the database for the stream *)
Record stream_db : Type := StreamDb {
  stream_positions : gmap string Z;
  sequence : pg_sequence;
  tables : list (list (option string * Z));
}.

Definition return_factor (c : gen_config) : Z := if is_positive c then 1 else -1.

Definition with_current_positions (s : id_gen) (p : gmap string Z) : id_gen :=
  IdGen p (unfinished_ids s) (in_flight_fetches s) (finished_ids s) (persisted_upto_position s)
    (known_persisted_positions s) (max_seen_allocated_stream_id s)
    (max_position_of_local_instance s).

Definition with_in_flight (s : id_gen) (l : list Z) : id_gen :=
  IdGen (current_positions s) (unfinished_ids s) l (finished_ids s) (persisted_upto_position s)
    (known_persisted_positions s) (max_seen_allocated_stream_id s)
    (max_position_of_local_instance s).

Definition with_persisted_upto (s : id_gen) (p : Z) : id_gen :=
  IdGen (current_positions s) (unfinished_ids s) (in_flight_fetches s) (finished_ids s) p
    (known_persisted_positions s) (max_seen_allocated_stream_id s)
    (max_position_of_local_instance s).

Definition with_max_seen (s : id_gen) (m : Z) : id_gen :=
  IdGen (current_positions s) (unfinished_ids s) (in_flight_fetches s) (finished_ids s)
    (persisted_upto_position s) (known_persisted_positions s) m (max_position_of_local_instance s).

(** [self._unfinished_ids or self._in_flight_fetches] *)
Definition busy (s : id_gen) : bool :=
  negb (bool_decide (unfinished_ids s = ∅)) || negb (bool_decide (in_flight_fetches s = [])).

(** *** Persisted positions *)

Definition min_curr (c : gen_config) (s : id_gen) : Z :=
  let our_current_position := default 0 (current_positions s !! instance_name c) in
  let min_curr :=
    default our_current_position
      (z_min (map snd (map_to_list (delete (instance_name c) (current_positions s))))) in
  if negb (our_current_position =? 0) && busy s then Z.min min_curr our_current_position
  else min_curr.

(** The [while] loop over the heap *)
Fixpoint skip_forward (known : list Z) (upto : Z) : list Z * Z :=
  match known with
  | [] => ([], upto)
  | k :: rest =>
      if k <=? upto then skip_forward rest upto
      else if k =? upto + 1 then skip_forward rest (upto + 1)
      else (known, upto)
  end.

Definition add_persisted_position (c : gen_config) (s : id_gen) (new_id : Z) : id_gen :=
  let known := insert_sorted Z.leb new_id (known_persisted_positions s) in
  let persisted_upto := Z.max (min_curr c s) (persisted_upto_position s) in
  let max_local := Z.max (max_position_of_local_instance s) persisted_upto in
  let max_local :=
    if negb (busy s) then Z.max (max_seen_allocated_stream_id s) max_local else max_local in
  let '(known, persisted_upto) := skip_forward known persisted_upto in
  IdGen (current_positions s) (unfinished_ids s) (in_flight_fetches s) (finished_ids s)
    persisted_upto known (max_seen_allocated_stream_id s) max_local.

(** The smallest id that may still be unfinished *)
Definition min_unfinished (unfinished : gset Z) (in_flight : list Z) : option Z :=
  match z_min (elements unfinished), head in_flight with
  | Some u, Some f => Some (Z.min u (f + 1))
  | None, Some f => Some (f + 1)
  | o, None => o
  end.

(** The new position and the finished ids that stay *)
Definition finished_position (finished unfinished : gset Z) (in_flight : list Z)
    : py (option Z * gset Z) :=
  match min_unfinished unfinished in_flight with
  | Some m => Ok (z_max (elements (filter (λ s, s < m) finished)), filter (λ s, ¬ s < m) finished)
  | None =>
      match z_max (elements finished) with
      | Some new_cur => Ok (Some new_cur, ∅)
      | None => Raise ValueError
      end
  end.

(** [if new_cur: ...] *)
Definition set_local_position (c : gen_config) (s : id_gen) (new_cur : option Z) : id_gen :=
  match new_cur with
  | Some new_cur =>
      if new_cur =? 0 then s
      else
        let curr := default 0 (current_positions s !! instance_name c) in
        IdGen (<[instance_name c := Z.max curr new_cur]> (current_positions s)) (unfinished_ids s)
          (in_flight_fetches s) (finished_ids s) (persisted_upto_position s)
          (known_persisted_positions s) (max_seen_allocated_stream_id s)
          (Z.max (Z.max curr new_cur) (max_position_of_local_instance s))
  | None => s
  end.

Definition mark_ids_as_finished (c : gen_config) (s : id_gen) (next_ids : list Z) : py id_gen :=
  let unfinished := unfinished_ids s ∖ list_to_set next_ids in
  let finished := finished_ids s ∪ list_to_set next_ids in
  '(new_cur, finished) ← finished_position finished unfinished (in_flight_fetches s);
  let s := IdGen (current_positions s) unfinished (in_flight_fetches s) finished
             (persisted_upto_position s) (known_persisted_positions s)
             (max_seen_allocated_stream_id s) (max_position_of_local_instance s) in
  let s := set_local_position c s new_cur in
  Ok (foldl (add_persisted_position c) s next_ids).

Definition advance (c : gen_config) (s : id_gen) (writer : string) (new_id : Z) : id_gen :=
  let new_id := new_id * return_factor c in
  let s := with_current_positions s
             (<[writer := Z.max new_id (default 0 (current_positions s !! writer))]>
                (current_positions s)) in
  let s := with_max_seen s (Z.max (max_seen_allocated_stream_id s) new_id) in
  add_persisted_position c s new_id.

(** *** Reading positions *)

Definition get_persisted_upto_position (c : gen_config) (s : id_gen) : Z :=
  return_factor c * persisted_upto_position s.

Definition get_current_token (c : gen_config) (s : id_gen) : Z := get_persisted_upto_position c s.

Definition get_current_token_for_writer (c : gen_config) (s : id_gen) (writer : string) : Z :=
  if decide (instance_name c = writer) then return_factor c * max_position_of_local_instance s
  else
    let pos := default (persisted_upto_position s) (current_positions s !! writer) in
    return_factor c * Z.max pos (persisted_upto_position s).

Definition get_minimal_local_current_token (c : gen_config) (s : id_gen) : Z :=
  return_factor c * default (persisted_upto_position s) (current_positions s !! instance_name c).

Definition get_positions (c : gen_config) (s : id_gen) : gmap string Z :=
  (λ i, return_factor c * i) <$> current_positions s.

(** *** Allocating ids *)

(** [_load_next_mult_id_txn], in the three parts that hold the lock: before the
    sequence is asked; with the ids it gave; in [finally] *)
Definition begin_fetch (s : id_gen) : id_gen * Z :=
  let current_max := max_seen_allocated_stream_id s in
  (with_in_flight s (insert_sorted Z.leb current_max (in_flight_fetches s)), current_max).

Definition record_ids (s : id_gen) (stream_ids : list Z) : py id_gen :=
  let unfinished := unfinished_ids s ∪ list_to_set stream_ids in
  match z_max (elements unfinished) with
  | None => Raise IndexError
  | Some m =>
      Ok (IdGen (current_positions s) unfinished (in_flight_fetches s) (finished_ids s)
            (persisted_upto_position s) (known_persisted_positions s)
            (Z.max (max_seen_allocated_stream_id s) m) (max_position_of_local_instance s))
  end.

(** [l.remove(x)] of a [SortedList] *)
Fixpoint sorted_list_remove (x : Z) (l : list Z) : py (list Z) :=
  match l with
  | [] => Raise ValueError
  | y :: l => if x =? y then Ok l else (y ::.) <$> sorted_list_remove x l
  end.

Definition end_fetch (s : id_gen) (current_max : Z) : py id_gen :=
  with_in_flight s <$> sorted_list_remove current_max (in_flight_fetches s).

(** The whole method when nothing else happens meanwhile; [fetched] is the result
    of asking the sequence *)
Definition load_next_mult_id_txn (s : id_gen) (fetched : py (list Z)) : id_gen * py (list Z) :=
  let '(s1, current_max) := begin_fetch s in
  let '(s2, result) :=
    match fetched with
    | Ok stream_ids =>
        match record_ids s1 stream_ids with
        | Ok s2 => (s2, Ok stream_ids)
        | Raise e => (s1, Raise e)
        end
    | Raise e => (s1, Raise e)
    end in
  match end_fetch s2 current_max with
  | Ok s3 => (s3, result)
  | Raise e => (s2, Raise e)
  end.

Definition load_next_id_txn (s : id_gen) (fetched : py (list Z)) : id_gen * py Z :=
  let '(s, stream_ids) := load_next_mult_id_txn s fetched in
  (s, stream_ids ≫= λ l, match l with i :: _ => Ok i | [] => Raise IndexError end).

(** The guard of [get_next], [get_next_mult], [get_next_txn] and [get_next_mult_txn] *)
Definition check_writer (c : gen_config) : py unit :=
  raise_if (negb (bool_decide (writers c = [])) && negb (bool_decide (instance_name c ∈ writers c)))
    (PyException "Tried to allocate stream ID on non-writer").

(** What a transaction calls when it is over *)
Inductive callback : Type :=
  | MarkIdsAsFinished (ids : list Z)
  | NotifyReplication
  | UpdateTable.

Record allocation (A : Type) : Type := Allocation {
  allocated : A;
  call_after : list callback;
  call_on_exception : list callback;
}.
Arguments Allocation {A} _ _ _.
Arguments allocated {A} _.
Arguments call_after {A} _.
Arguments call_on_exception {A} _.

Definition get_next_mult_txn (c : gen_config) (s : id_gen) (fetched : py (list Z))
    : id_gen * py (allocation (list Z)) :=
  match check_writer c with
  | Raise e => (s, Raise e)
  | Ok _ =>
      let '(s, next_ids) := load_next_mult_id_txn s fetched in
      (s, next_ids ← next_ids;
          Ok (Allocation (map (λ i, return_factor c * i) next_ids)
                ([MarkIdsAsFinished next_ids; NotifyReplication]
                 ++ (if bool_decide (writers c = []) then [] else [UpdateTable]))
                [MarkIdsAsFinished next_ids]))
  end.

Definition get_next_txn (c : gen_config) (s : id_gen) (fetched : py (list Z))
    : id_gen * py (allocation Z) :=
  match check_writer c with
  | Raise e => (s, Raise e)
  | Ok _ =>
      let '(s, next_id) := load_next_id_txn s fetched in
      (s, next_id ← next_id;
          Ok (Allocation (return_factor c * next_id)
                ([MarkIdsAsFinished [next_id]; NotifyReplication]
                 ++ (if bool_decide (writers c = []) then [] else [UpdateTable]))
                [MarkIdsAsFinished [next_id]]))
  end.

(** [_update_stream_positions_table_txn]; [GREATEST] or [LEAST] on conflict *)
Definition update_stream_positions_table_txn (c : gen_config) (s : id_gen)
    (stream_positions : gmap string Z) : gmap string Z :=
  if bool_decide (writers c = []) then stream_positions
  else
    let agg := if is_positive c then Z.max else Z.min in
    let pos := get_current_token_for_writer c s (instance_name c) in
    <[instance_name c := match stream_positions !! instance_name c with
                         | Some old => agg old pos
                         | None => pos
                         end]> stream_positions.

Definition run_callback (c : gen_config) (st : id_gen * gmap string Z) (cb : callback)
    : py (id_gen * gmap string Z) :=
  match cb with
  | MarkIdsAsFinished ids => s ← mark_ids_as_finished c st.1 ids; Ok (s, st.2)
  | NotifyReplication => Ok st
  | UpdateTable => Ok (st.1, update_stream_positions_table_txn c st.1 st.2)
  end.

(** [_MultiWriterCtxManager]: [get_next] gives a manager without, [get_next_mult]
    one with [multiple_ids] *)
Definition get_next (c : gen_config) : py (option nat) := check_writer c ;; Ok None.
Definition get_next_mult (c : gen_config) (n : nat) : py (option nat) := check_writer c ;; Ok (Some n).

(** [self.multiple_ids or 1] *)
Definition ids_to_fetch (multiple_ids : option nat) : nat :=
  match multiple_ids with Some (S n) => S n | _ => 1%nat end.

(** [__aenter__]: the ids kept in the manager, and what it returns *)
Definition aenter (c : gen_config) (s : id_gen) (multiple_ids : option nat) (fetched : py (list Z))
    : id_gen * py (list Z * (Z + list Z)) :=
  let '(s, stream_ids) := load_next_mult_id_txn s fetched in
  (s, stream_ids ← stream_ids;
      match multiple_ids with
      | None =>
          match stream_ids with
          | i :: _ => Ok (stream_ids, inl (i * return_factor c))
          | [] => Raise IndexError
          end
      | Some _ => Ok (stream_ids, inr (map (λ i, i * return_factor c) stream_ids))
      end).

(** [__aexit__] *)
Definition aexit (c : gen_config) (s : id_gen) (stream_positions : gmap string Z)
    (stream_ids : list Z) (failed : bool) : py (id_gen * gmap string Z) :=
  s ← mark_ids_as_finished c s stream_ids;
  if failed then Ok (s, stream_positions)
  else Ok (s, update_stream_positions_table_txn c s stream_positions).

(** *** Starting *)

(** [SELECT instance, id FROM table WHERE min_stream_id <= id] *)
Definition rows_from (c : gen_config) (min_stream_id : Z) (table : list (option string * Z))
    : list (option string * Z) :=
  List.filter (λ r, if is_positive c then min_stream_id * return_factor c <=? r.2
                    else r.2 <=? min_stream_id * return_factor c) table.

(** The body of the loop over the rows *)
Definition load_row (c : gen_config) (s : id_gen) (row : option string * Z) : id_gen :=
  let stream_id := return_factor c * row.2 in
  let s := add_persisted_position c s stream_id in
  if bool_decide (row.1 = Some (instance_name c)) then
    with_current_positions s (<[instance_name c := stream_id]> (current_positions s))
  else s.

(** The positions read from [stream_positions] and the sequence *)
Definition load_positions (c : gen_config) (db : stream_db) (is_postgres : bool)
    (positions : gmap string Z) : gmap string Z :=
  let positions :=
    if bool_decide (writers c = []) then positions
    else (λ stream_id, stream_id * return_factor c)
           <$> filter (λ p, p.1 ∈ writers c) (stream_positions db) in
  if bool_decide (instance_name c ∈ writers c) && is_postgres
  then <[instance_name c := last_value (sequence db)]> positions
  else positions.

(** [SELECT GREATEST(COALESCE(MAX(id), 1), 1)], or [-MIN(id)] *)
Definition table_greatest (c : gen_config) (table : list (option string * Z)) : Z :=
  Z.max (default 1 (if is_positive c then z_max (map snd table) else Z.opp <$> z_min (map snd table))) 1.

(** [_load_current_ids]: also deletes stale rows of [stream_positions] *)
Definition load_current_ids (c : gen_config) (is_postgres : bool) (db : stream_db) (s : id_gen)
    : stream_db * id_gen :=
  let db :=
    if bool_decide (writers c = []) then db
    else StreamDb (filter (λ p, p.1 ∈ writers c) (stream_positions db)) (sequence db) (tables db) in
  let positions := load_positions c db is_postgres (current_positions s) in
  let s := with_current_positions s positions in
  let s :=
    match z_min (map snd (map_to_list positions)) with
    | None => with_persisted_upto s (foldl (λ m t, Z.max m (table_greatest c t)) 1 (tables db))
    | Some min_stream_id =>
        let rows := concat (map (rows_from c min_stream_id) (tables db)) in
        foldl (load_row c) (with_persisted_upto s min_stream_id)
          (py_sorted (λ r r', r.2 <=? r'.2) rows)
    end in
  (db, with_current_positions s
         (foldl (λ m w, match m !! w with
                        | Some _ => m
                        | None => <[w := persisted_upto_position s]> m
                        end) (current_positions s) (writers c))).

(** The state before anything is loaded *)
Definition blank_gen : id_gen := IdGen ∅ ∅ [] ∅ 1 [] 1 1.

(** The loop that checks the tables against the sequence *)
Definition check_table (c : gen_config) (acc : stream_db * py unit)
    (table : list (option string * Z)) : stream_db * py unit :=
  match acc.2 with
  | Raise _ => acc
  | Ok _ =>
      let '(q, r) := pg_check_consistency (sequence acc.1) (map snd table) (is_positive c)
                       (Some (map snd (map_to_list (stream_positions acc.1)))) in
      (StreamDb (stream_positions acc.1) q (tables acc.1), r)
  end.

Definition check_tables (c : gen_config) (db : stream_db) : stream_db * py unit :=
  foldl (check_table c) (db, Ok tt) (tables db).

(** The rest of the constructor *)
Definition finish_init (c : gen_config) (s : id_gen) : id_gen :=
  let max_seen := default 1 (z_max (map snd (map_to_list (current_positions s)))) in
  let max_seen := Z.max max_seen (persisted_upto_position s) in
  let positions :=
    if bool_decide (writers c = [])
    then <[instance_name c := persisted_upto_position s]> (current_positions s)
    else current_positions s in
  IdGen positions (unfinished_ids s) (in_flight_fetches s) (finished_ids s)
    (persisted_upto_position s) (known_persisted_positions s) max_seen max_seen.

(** [MultiWriterIdGenerator.__init__] *)
Definition new_id_gen (c : gen_config) (is_postgres : bool) (db : stream_db)
    : stream_db * py id_gen :=
  let '(db, checked) := if is_postgres then check_tables c db else (db, Ok tt) in
  match checked with
  | Raise e => (db, Raise e)
  | Ok _ => let '(db, s) := load_current_ids c is_postgres db blank_gen in (db, Ok (finish_init c s))
  end.
