(* ===== verification/IdGenSystem.v ===== *)
(** * The processes of a stream together

    The step relation of several instances of [MultiWriterIdGenerator] that share
    a sequence, a database and replication, every method cut where it gives up
    its lock, with crashes and restarts.  The invariant shows what the positions
    mean: no id at or below them is still being written, anywhere. *)

From S2P Require Import Prelude IdGen.

Open Scope Z_scope.

(** ** Worlds *)

(** A call of [_load_next_mult_id_txn] in progress *)
Inductive fetch_phase : Type :=
  | Requested
  | Fetched (ids : list Z)
  | Recorded.
Record fetch : Type := Fetch { f_max : Z; f_phase : fetch_phase }.

Record node : Type := Node { n_gen : id_gen; n_fetches : list fetch }.

(** [uncommitted] maps the ids being written to their writers: neither committed
    nor rolled back.  [announced] are the positions that have been sent over
    replication, which may be delivered late, repeatedly or never. *)
Record world : Type := World {
  uncommitted : gmap Z string;
  nodes : gmap string node;
  announced : gset (string * Z);
  db : stream_db;
}.

Definition seq_last (W : world) : Z := last_value (sequence (db W)).

Section System.
Context (ws : list string) (pos : bool).

(** All instances are configured with the same writers. *)
Definition cfg (w : string) : gen_config := GenConfig w ws pos.
Definition rf : Z := return_factor (cfg "").

Definition set_node (W : world) (w : string) (n : node) : world :=
  World (uncommitted W) (<[w := n]> (nodes W)) (announced W) (db W).

Definition with_sequence (d : stream_db) (last : Z) : stream_db :=
  StreamDb (stream_positions d) (PgSequence last true) (tables d).

Inductive step (W : world) : world → Prop :=
  (** An instance asks for ids. *)
  | step_request w g fs g' m :
      nodes W !! w = Some (Node g fs) → check_writer (cfg w) = Ok tt → w ∈ ws →
      begin_fetch g = (g', m) →
      step W (set_node W w (Node g' (Fetch m Requested :: fs)))
  (** The sequence gives out ids it has not given out before. *)
  | step_allocate w g fs1 m fs2 ids last' :
      nodes W !! w = Some (Node g (fs1 ++ Fetch m Requested :: fs2)) →
      Forall (λ i, seq_last W < i ≤ last') ids → seq_last W ≤ last' →
      step W (World (list_to_map (map (λ i, (i, w)) ids) ∪ uncommitted W)
                (<[w := Node g (fs1 ++ Fetch m (Fetched ids) :: fs2)]> (nodes W))
                (announced W) (with_sequence (db W) last'))
  | step_record w g fs1 m ids fs2 g' :
      nodes W !! w = Some (Node g (fs1 ++ Fetch m (Fetched ids) :: fs2)) →
      record_ids g ids = Ok g' →
      step W (set_node W w (Node g' (fs1 ++ Fetch m Recorded :: fs2)))
  (** The [finally] clause, also when no ids were obtained *)
  | step_end w g fs1 m ph fs2 g' :
      nodes W !! w = Some (Node g (fs1 ++ Fetch m ph :: fs2)) →
      match ph with Fetched (_ :: _) => False | _ => True end →
      end_fetch g m = Ok g' →
      step W (set_node W w (Node g' (fs1 ++ fs2)))
  (** Ids of the sequence get lost, for instance with a connection. *)
  | step_gap last' :
      seq_last W ≤ last' →
      step W (World (uncommitted W) (nodes W) (announced W) (with_sequence (db W) last'))
  (** A transaction commits, with rows for its id, or is rolled back; rows may
      also disappear. *)
  | step_commit w g fs i ts :
      nodes W !! w = Some (Node g fs) → i ∈ unfinished_ids g →
      (∀ r, r ∈ concat ts → r ∈ concat (tables (db W)) ∨ r = (Some w, rf * i)) →
      step W (World (delete i (uncommitted W)) (nodes W) (announced W)
                (StreamDb (stream_positions (db W)) (sequence (db W)) ts))
  | step_finish w g fs ids g' :
      nodes W !! w = Some (Node g fs) →
      (∀ i, i ∈ ids → i ∈ unfinished_ids g ∧ uncommitted W !! i = None) →
      mark_ids_as_finished (cfg w) g ids = Ok g' →
      step W (set_node W w (Node g' fs))
  | step_update_table w g fs :
      nodes W !! w = Some (Node g fs) →
      step W (World (uncommitted W) (nodes W) (announced W)
                (StreamDb (update_stream_positions_table_txn (cfg w) g (stream_positions (db W)))
                   (sequence (db W)) (tables (db W))))
  (** An instance announces its position, or rows of it up to there. *)
  | step_announce w g fs p :
      nodes W !! w = Some (Node g fs) → w ∈ ws →
      p = get_current_token_for_writer (cfg w) g w
        ∨ (rf * p ≤ rf * get_current_token_for_writer (cfg w) g w
           ∧ (Some w, p) ∈ concat (tables (db W))) →
      step W (World (uncommitted W) (nodes W) ({[(w, p)]} ∪ announced W) (db W))
  | step_deliver w p u g fs :
      (w, p) ∈ announced W → u ≠ w → nodes W !! u = Some (Node g fs) →
      step W (set_node W u (Node (advance (cfg u) g w p) fs))
  (** The transactions of a process that dies are rolled back. *)
  | step_crash w :
      step W (World (filter (λ p, p.2 ≠ w) (uncommitted W)) (delete w (nodes W)) (announced W) (db W))
  | step_start w g d :
      nodes W !! w = None →
      new_id_gen (cfg w) true (db W) = (d, Ok g) →
      step W (World (uncommitted W) (<[w := Node g []]> (nodes W)) (announced W) d).

(** The sequence has been used, and the tables are those of an empty stream. *)
Definition initial_world (last : Z) : world :=
  World ∅ ∅ ∅ (StreamDb ∅ (PgSequence last true) []).

(** A process may start at any time.  The positions are only right if none starts while the last id
    given out is being written, or while a writer at work has no position in the database. *)
Definition quiet (W : world) : Prop :=
  ∀ i v, uncommitted W !! i = Some v → i ≠ seq_last W ∧ is_Some (stream_positions (db W) !! v).
Definition quiet_step (W W' : world) : Prop :=
  step W W' ∧ ∀ w, nodes W !! w = None → is_Some (nodes W' !! w) → quiet W.

Definition reachable (W : world) : Prop := ∃ last, 1 ≤ last ∧ rtc quiet_step (initial_world last) W.

(** ** The invariant *)

(** A position that no writer is at, and none of the writer [w] is below *)
Definition safe_for (U : gmap Z string) (last : Z) (w : string) (q : Z) : Prop :=
  1 ≤ q ≤ last ∧ U !! q = None ∧ ∀ i, U !! i = Some w → q < i.

(** What instance [w] knows is true of the ids being written, [U]. *)
Record node_ok (U : gmap Z string) (last : Z) (w : string) (n : node) : Prop := {
  ok_others : ∀ i v, U !! i = Some v → v ≠ w →
    ∃ q, current_positions (n_gen n) !! v = Some q ∧ q < i;
  ok_positions : ∀ v q, current_positions (n_gen n) !! v = Some q → q ≤ last;
  ok_own : ∀ i, U !! i = Some w → i ∈ unfinished_ids (n_gen n) ∨
    ∃ m ids, Fetch m (Fetched ids) ∈ n_fetches n ∧ i ∈ ids;
  ok_own_position : ∀ q, current_positions (n_gen n) !! w = Some q →
    1 ≤ q ≤ max_seen_allocated_stream_id (n_gen n) ∧ U !! q = None ∧
    (∀ i, i ∈ unfinished_ids (n_gen n) → q < i) ∧ (∀ m, m ∈ in_flight_fetches (n_gen n) → q ≤ m);
  ok_fetches : in_flight_fetches (n_gen n) ≡ₚ map f_max (n_fetches n);
  ok_fetched : ∀ m ids i, Fetch m (Fetched ids) ∈ n_fetches n → i ∈ ids →
    m < i ≤ last ∧ ∀ v, U !! i = Some v → v = w;
  ok_in_flight : StronglySorted Z.le (in_flight_fetches (n_gen n)) ∧
    ∀ m, m ∈ in_flight_fetches (n_gen n) → 1 ≤ m ≤ last;
  ok_unfinished : ∀ i, i ∈ unfinished_ids (n_gen n) →
    1 ≤ i ≤ max_seen_allocated_stream_id (n_gen n) ∧ ∀ v, U !! i = Some v → v = w;
  ok_finished : ∀ i, i ∈ finished_ids (n_gen n) →
    U !! i = None ∧ 1 ≤ i ≤ max_seen_allocated_stream_id (n_gen n);
  ok_known : ∀ k, k ∈ known_persisted_positions (n_gen n) → U !! k = None ∧ k ≤ last;
  ok_upto : (∀ i v, U !! i = Some v → persisted_upto_position (n_gen n) < i) ∧
    1 ≤ persisted_upto_position (n_gen n) ≤ last;
  ok_local : safe_for U last w (max_position_of_local_instance (n_gen n));
  ok_seen : max_seen_allocated_stream_id (n_gen n) ≤ last ∧
    ∀ v, U !! max_seen_allocated_stream_id (n_gen n) = Some v → v = w;
  ok_busy : busy (n_gen n) = true → is_Some (current_positions (n_gen n) !! w);
}.

Record world_ok (W : world) : Prop := {
  ok_called : is_called (sequence (db W)) = true;
  ok_last : 1 ≤ seq_last W;
  ok_uncommitted : ∀ i v, uncommitted W !! i = Some v →
    1 < i ≤ seq_last W ∧ v ∈ ws ∧ is_Some (nodes W !! v);
  ok_nodes : ∀ w n, nodes W !! w = Some n →
    node_ok (uncommitted W) (seq_last W) w n ∧
    (∀ v, v ∈ ws → is_Some (current_positions (n_gen n) !! v)) ∧
    (n_fetches n ≠ [] → w ∈ ws) ∧
    (∀ v, is_Some (current_positions (n_gen n) !! v) → v = w ∨ v ∈ ws);
  ok_announced : ∀ w p, (w, p) ∈ announced W →
    safe_for (uncommitted W) (seq_last W) w (rf * p) ∧ w ∈ ws;
  ok_db_positions : ∀ w p, stream_positions (db W) !! w = Some p →
    safe_for (uncommitted W) (seq_last W) w (rf * p);
  ok_rows : ∀ r, r ∈ concat (tables (db W)) →
    uncommitted W !! (rf * r.2) = None ∧ 1 ≤ rf * r.2 ≤ seq_last W;
}.

(** *** Recording a persisted position *)

Lemma min_curr_below U last w n :
  node_ok U last w n → ∀ i v, U !! i = Some v → min_curr (cfg w) (n_gen n) < i.
Proof.
  intros Hn i v Hi. unfold min_curr. cbn [instance_name cfg].
  set (ours := default 0 _). set (others := z_min _).
  assert (v ≠ w → ∃ m, others = Some m ∧ m < i) as Hothers.
  { intros Hv. destruct (ok_others _ _ _ _ Hn i v Hi Hv) as (q & Hq & Hlt).
    assert (q ∈ map snd (map_to_list (delete w (current_positions (n_gen n))))) as Hin.
    { apply list_elem_of_fmap. exists (v, q). split; [done|].
      apply elem_of_map_to_list. by rewrite lookup_delete_ne. }
    destruct others as [m|] eqn:E; [|by apply z_min_None in E; rewrite E in Hin; inversion Hin].
    exists m. split; [done|]. apply z_min_Some in E as [_ E]. specialize (E q Hin). lia. }
  destruct (decide (v = w)) as [->|Hv].
  - assert (busy (n_gen n) = true) as Hb.
    { unfold busy. destruct (ok_own _ _ _ _ Hn i Hi) as [Hu|(m & ids & Hf & Hid)].
      - rewrite bool_decide_eq_false_2; [done|set_solver].
      - apply orb_true_iff. right. rewrite bool_decide_eq_false_2; [done|]. intros Hnil.
        pose proof (ok_fetches _ _ _ _ Hn) as Hp. rewrite Hnil in Hp.
        apply Permutation_nil_l in Hp. apply (f_equal length) in Hp. rewrite length_map in Hp.
        destruct (n_fetches n); [inversion Hf|done]. }
    destruct (ok_busy _ _ _ _ Hn Hb) as [q Hq]. subst ours. rewrite Hq, Hb. cbn [default].
    destruct (ok_own_position _ _ _ _ Hn q Hq) as (Hq1 & _ & Hun & Hfl).
    assert (q < i) as Hlt.
    { destruct (ok_own _ _ _ _ Hn i Hi) as [Hu|(m & ids & Hf & Hid)]; [by apply Hun|].
      pose proof (ok_fetched _ _ _ _ Hn m ids i Hf Hid) as [[? _] _].
      assert (m ∈ in_flight_fetches (n_gen n)) as Hm.
      { rewrite (ok_fetches _ _ _ _ Hn). apply list_elem_of_fmap. by exists (Fetch m (Fetched ids)). }
      specialize (Hfl m Hm). lia. }
    cbn. rewrite (proj2 (Z.eqb_neq q 0)) by lia. cbn. lia.
  - destruct (Hothers Hv) as (m & -> & Hlt). cbn [default from_option id].
    destruct (negb _ && _); lia.
Qed.

Lemma min_curr_le U last w n : node_ok U last w n → 1 ≤ last → min_curr (cfg w) (n_gen n) ≤ last.
Proof.
  intros Hn Hl. unfold min_curr. cbn [instance_name cfg].
  assert (default 0 (current_positions (n_gen n) !! w) ≤ last) as Ho.
  { destruct (_ !! w) as [q|] eqn:Hq; cbn; [|lia]. by eapply ok_positions. }
  destruct (z_min _) as [m|] eqn:E; cbn [default].
  - apply z_min_Some in E as [E _]. apply list_elem_of_fmap in E as ([v q] & -> & Hin).
    apply elem_of_map_to_list, lookup_delete_Some in Hin as [_ Hq].
    pose proof (ok_positions _ _ _ _ Hn v q Hq). cbn. destruct (negb _ && _); lia.
  - destruct (negb _ && _); lia.
Qed.

Lemma skip_forward_ok (U : gmap Z string) last known upto :
  (∀ i v, U !! i = Some v → upto < i) → upto ≤ last →
  (∀ k, k ∈ known → U !! k = None ∧ k ≤ last) →
  let '(known', upto') := skip_forward known upto in
  (∀ i v, U !! i = Some v → upto' < i) ∧ upto ≤ upto' ≤ last ∧ ∀ k, k ∈ known' → k ∈ known.
Proof.
  revert upto. induction known as [|k known IH]; intros upto Hu Hl Hk; cbn [skip_forward].
  { split_and!; [done|lia|lia|done]. }
  destruct (Hk k ltac:(by left)) as [Hk1 Hk2].
  assert (∀ k, k ∈ known → U !! k = None ∧ k ≤ last) as Hk' by (intros ??; apply Hk; by right).
  destruct (k <=? upto) eqn:E1; to_prop.
  { specialize (IH upto Hu Hl Hk'). destruct (skip_forward known upto) as [known' upto'].
    destruct IH as (? & ? & Hsub). split_and!; [done|lia|lia|]. intros. right. auto. }
  destruct (k =? upto + 1) eqn:E2; to_prop.
  - assert (∀ i v, U !! i = Some v → upto + 1 < i) as Hu'.
    { intros i v Hi. specialize (Hu i v Hi). destruct (decide (i = upto + 1)); [|lia]. congruence. }
    specialize (IH (upto + 1) Hu' ltac:(lia) Hk').
    destruct (skip_forward known (upto + 1)) as [known' upto'].
    destruct IH as (? & ? & Hsub). split_and!; [done|lia|lia|]. intros. right. auto.
  - split_and!; [done|lia|lia|done].
Qed.

Lemma busy_fetches U last w n :
  node_ok U last w n → busy (n_gen n) = false → unfinished_ids (n_gen n) = ∅ ∧ n_fetches n = [].
Proof.
  unfold busy. intros Hn Hb. to_prop. split; [done|].
  pose proof (ok_fetches _ _ _ _ Hn) as Hp. apply Permutation_length in Hp.
  rewrite length_map in Hp. destruct (n_fetches n); [done|].
  destruct (in_flight_fetches (n_gen n)); done.
Qed.

Lemma add_persisted_position_ok U last w g fs k :
  1 ≤ last → node_ok U last w (Node g fs) → U !! k = None → k ≤ last →
  node_ok U last w (Node (add_persisted_position (cfg w) g k) fs).
Proof.
  intros Hl Hn Hk Hkl. unfold add_persisted_position.
  pose proof (min_curr_below _ _ _ _ Hn) as Hmc. pose proof (min_curr_le _ _ _ _ Hn Hl) as Hml.
  destruct (ok_upto _ _ _ _ Hn) as [Hu1 Hu2]. cbn [n_gen] in Hmc, Hml, Hu1, Hu2.
  set (upto := Z.max _ (persisted_upto_position g)).
  assert (∀ i v, U !! i = Some v → upto < i) as Hupto.
  { intros i v Hi. specialize (Hmc i v Hi). specialize (Hu1 i v Hi). lia. }
  assert (safe_for U last w upto) as Hsafe.
  { split; [lia|]. split; [|by intros; eapply Hupto].
    destruct (U !! upto) as [v|] eqn:E; [|done]. specialize (Hupto _ _ E). lia. }
  pose proof (skip_forward_ok U last (insert_sorted Z.leb k (known_persisted_positions g)) upto Hupto
    ltac:(lia)) as Hskip.
  destruct (skip_forward _ _) as [known' upto'].
  destruct Hskip as (Hs1 & Hs2 & Hs3).
  { intros x. rewrite insert_sorted_perm. intros [->|Hx]%elem_of_cons; [done|]. by apply (ok_known _ _ _ _ Hn). }
  assert (safe_for U last w (Z.max (max_position_of_local_instance g) upto)) as Hloc.
  { destruct (Z.max_spec (max_position_of_local_instance g) upto) as [[_ ->]|[_ ->]]; [done|].
    apply (ok_local _ _ _ _ Hn). }
  pose proof (busy_fetches _ _ _ _ Hn) as Hidle. destruct Hn. split; cbn in *; try done.
  - intros x Hx. apply Hs3 in Hx. rewrite insert_sorted_perm in Hx.
    apply elem_of_cons in Hx as [->|Hx]; auto.
  - split; [done|lia].
  - destruct (busy g) eqn:Hb; [done|]. cbn.
    destruct (Hidle eq_refl) as [Hun Hfs].
    destruct (Z.max_spec (max_seen_allocated_stream_id g)
      (Z.max (max_position_of_local_instance g) upto)) as [[_ ->]|[Hge ->]]; [done|].
    destruct Hloc as (Hl1 & _ & _). destruct ok_seen0 as [Hs Hown].
    assert (∀ i, U !! i ≠ Some w) as Hnone.
    { intros i Hi. destruct (ok_own0 i Hi) as [Hi'|(m & ids & Hf & _)]; [set_solver|].
      rewrite Hfs in Hf. inversion Hf. }
    split; [lia|]. split.
    + destruct (U !! max_seen_allocated_stream_id g) as [v|] eqn:E; [|done].
      rewrite (Hown v eq_refl) in E. by destruct (Hnone (max_seen_allocated_stream_id g)).
    + intros i Hi. by destruct (Hnone i).
Qed.

Lemma add_persisted_positions_ok U last w g fs ks :
  1 ≤ last → node_ok U last w (Node g fs) → (∀ k, k ∈ ks → U !! k = None ∧ k ≤ last) →
  node_ok U last w (Node (foldl (add_persisted_position (cfg w)) g ks) fs).
Proof.
  intros Hl. revert g. induction ks as [|k ks IH]; intros g Hn Hk; [done|]. cbn [foldl].
  destruct (Hk k ltac:(by left)). apply IH.
  - by apply add_persisted_position_ok.
  - intros k' ?. apply Hk. by right.
Qed.

(** *** The rest of the world changes *)

(** Ids of other writers that are new are above everything known. *)
Definition grows (U U' : gmap Z string) (last : Z) (w : string) : Prop :=
  ∀ i v, U' !! i = Some v → U !! i = Some v ∨ (last < i ∧ v ≠ w ∧ v ∈ ws).

Lemma grows_None U U' last w q : grows U U' last w → q ≤ last → U !! q = None → U' !! q = None.
Proof.
  intros Hg Hq HU. destruct (U' !! q) as [v|] eqn:E; [|done].
  destruct (Hg q v E) as [?|[? _]]; [congruence|lia].
Qed.

Lemma safe_for_grows U U' last last' w v q :
  grows U U' last w → last ≤ last' → safe_for U last v q → safe_for U' last' v q.
Proof.
  intros Hg Hl (H1 & H2 & H3). split; [lia|]. split; [eapply grows_None; [done|lia|done]|].
  intros i Hi. destruct (Hg i v Hi) as [?|[? _]]; [by apply H3|lia].
Qed.

Lemma node_ok_grows U U' last last' w n :
  grows U U' last w → last ≤ last' →
  (∀ v, v ∈ ws → is_Some (current_positions (n_gen n) !! v)) →
  node_ok U last w n → node_ok U' last' w n.
Proof.
  intros Hg Hl Hws Hn.
  assert (∀ q, q ≤ last → U !! q = None → U' !! q = None) as HN by (intros; by eapply grows_None).
  assert (∀ i, U' !! i = Some w → U !! i = Some w) as Hw.
  { intros i Hi. by destruct (Hg i w Hi) as [?|(_ & ? & _)]. }
  pose proof (safe_for_grows U U' last last' w w _ Hg Hl (ok_local _ _ _ _ Hn)) as Hloc.
  destruct (ok_seen _ _ _ _ Hn) as [Hseen Hown]. destruct (ok_upto _ _ _ _ Hn) as [Hu1 Hu2].
  destruct (ok_in_flight _ _ _ _ Hn) as [Hf1 Hf2].
  split.
  - intros i v Hi Hv. destruct (Hg i v Hi) as [Hi'|(Hlt & _ & Hin)]; [by eapply ok_others|].
    destruct (Hws v Hin) as [q Hq]. exists q. split; [done|].
    pose proof (ok_positions _ _ _ _ Hn v q Hq). lia.
  - intros v q Hq. pose proof (ok_positions _ _ _ _ Hn v q Hq). lia.
  - intros i Hi. apply (ok_own _ _ _ _ Hn). auto.
  - intros q Hq. destruct (ok_own_position _ _ _ _ Hn q Hq) as (? & ? & ? & ?).
    split_and!; [lia|lia| |done|done]. apply HN; [lia|done].
  - apply (ok_fetches _ _ _ _ Hn).
  - intros m ids i Hf Hi. destruct (ok_fetched _ _ _ _ Hn m ids i Hf Hi) as [? Ho]. split; [lia|].
    intros v Hv. destruct (Hg i v Hv) as [?|[? _]]; [by apply Ho|lia].
  - split; [done|]. intros m Hm. specialize (Hf2 m Hm). lia.
  - intros i Hi. destruct (ok_unfinished _ _ _ _ Hn i Hi) as [? Ho]. split; [done|].
    intros v Hv. destruct (Hg i v Hv) as [?|[? _]]; [by apply Ho|lia].
  - intros i Hi. destruct (ok_finished _ _ _ _ Hn i Hi). split; [apply HN; [lia|done]|done].
  - intros k Hk. destruct (ok_known _ _ _ _ Hn k Hk). split; [by apply HN|lia].
  - split; [|lia]. intros i v Hi. destruct (Hg i v Hi) as [?|[? _]]; [by eapply Hu1|lia].
  - done.
  - split; [lia|]. intros v Hv. destruct (Hg _ v Hv) as [?|[? _]]; [by apply Hown|lia].
  - apply (ok_busy _ _ _ _ Hn).
Qed.

Lemma grows_subseteq U U' last w : (∀ i v, U' !! i = Some v → U !! i = Some v) → grows U U' last w.
Proof. intros H i v Hi. left. auto. Qed.

(** *** Allocating ids *)

Lemma insert_sorted_Z x l : StronglySorted Z.le l → StronglySorted Z.le (insert_sorted Z.leb x l).
Proof.
  assert (∀ l, StronglySorted Z.le l ↔ StronglySorted (λ x y, (x <=? y) = true) l) as Heq.
  { intros l'. split; induction 1 as [|y l' Hs IH Hy]; constructor; try done;
      eapply Forall_impl; try exact Hy; intros z; apply Z.leb_le. }
  rewrite !Heq. apply insert_sorted_sorted; [apply leb_total|apply leb_trans].
Qed.

Lemma begin_fetch_ok U last w g fs g' m :
  is_Some (current_positions g !! w) → begin_fetch g = (g', m) →
  node_ok U last w (Node g fs) → node_ok U last w (Node g' (Fetch m Requested :: fs)).
Proof.
  intros [q Hq] Hb Hn. injection Hb as <- <-.
  destruct (ok_own_position _ _ _ _ Hn q Hq) as (Hq1 & Hq2 & Hq3 & Hq4).
  destruct (ok_seen _ _ _ _ Hn) as [Hs _]. destruct (ok_in_flight _ _ _ _ Hn) as [Hf1 Hf2].
  pose proof (ok_own _ _ _ _ Hn) as Hown. pose proof (ok_fetched _ _ _ _ Hn) as Hft.
  cbn in *. destruct Hn. split; cbn in *; try done.
  - intros i Hi. destruct (Hown i Hi) as [?|(m & ids & ? & ?)]; [by left|right].
    exists m, ids. split; [by right|done].
  - intros q' Hq'. rewrite Hq in Hq'. injection Hq' as <-. split_and!; [lia|lia|done|done|].
    intros m. rewrite insert_sorted_perm. intros [->|?]%elem_of_cons; [lia|auto].
  - by rewrite insert_sorted_perm, ok_fetches0.
  - intros m ids i [Hf|Hf]%elem_of_cons Hi; [done|by eapply Hft].
  - split; [by apply insert_sorted_Z|]. intros m. rewrite insert_sorted_perm.
    intros [->|?]%elem_of_cons; [lia|auto].
Qed.

Lemma fetched_lookup (ids : list Z) (w : string) (U : gmap Z string) i v :
  ((list_to_map (map (λ i, (i, w)) ids) : gmap Z string) ∪ U) !! i = Some v →
  (v = w ∧ i ∈ ids) ∨ U !! i = Some v.
Proof.
  intros [H|[_ H]]%lookup_union_Some_raw; [left|by right].
  apply elem_of_list_to_map_2, list_elem_of_fmap in H as (j & [= <- <-] & Hj). done.
Qed.

Lemma allocate_grows (ids : list Z) (w u : string) (U : gmap Z string) last last' :
  Forall (λ i, last < i ≤ last') ids → u ≠ w → w ∈ ws →
  grows U ((list_to_map (map (λ i, (i, w)) ids) : gmap Z string) ∪ U) last u.
Proof.
  intros Hids Hu Hw i v [[-> Hi]|?]%fetched_lookup; [right|by left].
  rewrite Forall_forall in Hids. specialize (Hids i Hi). split_and!; [lia|done|done].
Qed.

Lemma allocate_ok U last last' w g fs1 m fs2 ids :
  Forall (λ i, last < i ≤ last') ids → last ≤ last' → (∀ i v, U !! i = Some v → i ≤ last) →
  node_ok U last w (Node g (fs1 ++ Fetch m Requested :: fs2)) →
  node_ok ((list_to_map (map (λ i, (i, w)) ids) : gmap Z string) ∪ U) last' w
    (Node g (fs1 ++ Fetch m (Fetched ids) :: fs2)).
Proof.
  intros Hids Hl HU Hn. set (U' := _ ∪ U). rewrite Forall_forall in Hids.
  assert (∀ q, q ≤ last → U !! q = None → U' !! q = None) as HN.
  { intros q Hq HUq. destruct (U' !! q) as [v|] eqn:E; [|done].
    apply fetched_lookup in E as [[_ Hi]|?]; [|congruence]. specialize (Hids q Hi). lia. }
  assert (∀ i v, U' !! i = Some v → i ≤ last → U !! i = Some v) as Hold.
  { intros i v [[_ Hi]|?]%fetched_lookup Hle; [|done]. specialize (Hids i Hi). lia. }
  destruct Hn. cbn in *. destruct ok_upto0 as [Hu1 Hu2], ok_seen0 as [Hs1 Hs2],
    ok_in_flight0 as [Hf1 Hf2], ok_local0 as (Hl1 & Hl2 & Hl3).
  split; cbn; try done.
  - intros i v [[-> _]|Hi]%fetched_lookup Hv; [done|]. by apply ok_others0.
  - intros v q Hq. specialize (ok_positions0 v q Hq). lia.
  - intros i [[_ Hi]|Hi]%fetched_lookup.
    + right. exists m, ids. split; [|done]. apply elem_of_app. right. by left.
    + destruct (ok_own0 i Hi) as [?|(m' & ids' & Hf & ?)]; [by left|right]. exists m', ids'.
      split; [|done]. apply elem_of_app in Hf as [Hf|[Hf|Hf]%elem_of_cons]; [|done|];
        apply elem_of_app; [by left|right; by right].
  - intros q Hq. destruct (ok_own_position0 q Hq) as (? & ? & ? & ?).
    split_and!; [lia|lia| |done|done]. apply HN; [lia|done].
  - rewrite ok_fetches0, !map_app. done.
  - intros m' ids' i Hf Hi.
    apply elem_of_app in Hf as [Hf|[[= -> ->]|Hf]%elem_of_cons].
    2:{ assert (m ≤ last) by (apply Hf2; rewrite ok_fetches0, map_app; apply elem_of_app; right; by left).
        specialize (Hids i Hi). split; [lia|]. intros v [[? _]|Hv]%fetched_lookup; [done|].
        specialize (HU i v Hv). lia. }
    all: destruct (ok_fetched0 m' ids' i) as [? Ho]; [apply elem_of_app; first [by left|right; by right]|done|];
        split; [lia|]; intros v Hv; apply Ho; apply Hold; [done|lia].
  - split; [done|]. intros m' Hm'. specialize (Hf2 m' Hm'). lia.
  - intros i Hi. destruct (ok_unfinished0 i Hi) as [? Ho]. split; [done|].
    intros v Hv. apply Ho, Hold; [done|lia].
  - intros i Hi. destruct (ok_finished0 i Hi). split; [apply HN; [lia|done]|done].
  - intros k Hk. destruct (ok_known0 k Hk). split; [by apply HN|lia].
  - split; [|lia]. intros i v [[_ Hi]|Hi]%fetched_lookup; [|by eapply Hu1]. specialize (Hids i Hi). lia.
  - split; [lia|]. split; [apply HN; [lia|done]|].
    intros i [[_ Hi]|Hi]%fetched_lookup; [|by apply Hl3]. specialize (Hids i Hi). lia.
  - split; [lia|]. intros v Hv. apply Hs2, Hold; [done|lia].
Qed.

(** A fetch moves on: what the others say stays. *)
Lemma other_fetch {m ids fs1 f fs2} f' :
  Fetch m (Fetched ids) ∈ fs1 ++ f :: fs2 → Fetch m (Fetched ids) ≠ f →
  Fetch m (Fetched ids) ∈ fs1 ++ f' :: fs2.
Proof.
  rewrite !elem_of_app, !elem_of_cons. tauto.
Qed.

Lemma record_ids_ok U last w g fs1 m ids fs2 g' :
  record_ids g ids = Ok g' → node_ok U last w (Node g (fs1 ++ Fetch m (Fetched ids) :: fs2)) →
  node_ok U last w (Node g' (fs1 ++ Fetch m Recorded :: fs2)).
Proof.
  unfold record_ids. intros Hr Hn. destruct (z_max _) as [mx|] eqn:Hmx; [|done].
  injection Hr as <-. apply z_max_Some in Hmx as [Hmx1 Hmx2].
  rewrite elem_of_elements, elem_of_union, elem_of_list_to_set in Hmx1.
  assert (∀ i, i ∈ unfinished_ids g ∨ i ∈ ids → i ≤ mx) as Hmx.
  { intros i Hi. apply Hmx2. by rewrite elem_of_elements, elem_of_union, elem_of_list_to_set. }
  assert (Fetch m (Fetched ids) ∈ fs1 ++ Fetch m (Fetched ids) :: fs2) as Hf
    by (apply elem_of_app; right; by left).
  destruct Hn. cbn in *.
  assert (m ∈ in_flight_fetches g) as Hm.
  { rewrite ok_fetches0. apply list_elem_of_fmap. by exists (Fetch m (Fetched ids)). }
  destruct ok_seen0 as [Hs1 Hs2], ok_in_flight0 as [Hf1 Hf2].
  specialize (Hf2 m Hm) as Hm1.
  split; cbn; try done.
  - intros i Hi. rewrite elem_of_union, elem_of_list_to_set.
    destruct (ok_own0 i Hi) as [?|(m' & ids' & Hf' & Hi')]; [by left; left|].
    destruct (decide (i ∈ ids)) as [|Hni]; [by left; right|]. right. exists m', ids'.
    split; [|done]. eapply other_fetch; [exact Hf'|]. intros [= -> ->]. done.
  - intros q Hq. destruct (ok_own_position0 q Hq) as (? & ? & Hun & Hfl).
    split_and!; [lia|lia|done| |done]. intros i. rewrite elem_of_union, elem_of_list_to_set.
    intros [Hi|Hi]; [by apply Hun|]. destruct (ok_fetched0 m ids i Hf Hi).
    specialize (Hfl m Hm). lia.
  - rewrite ok_fetches0, !map_app. done.
  - intros m' ids' i Hf' Hi. apply (ok_fetched0 m' ids' i); [|done].
    eapply other_fetch; [exact Hf'|done].
  - intros i. rewrite elem_of_union, elem_of_list_to_set. intros Hi.
    specialize (Hmx i Hi). destruct Hi as [Hi|Hi].
    + destruct (ok_unfinished0 i Hi). split; [lia|done].
    + destruct (ok_fetched0 m ids i Hf Hi). split; [lia|done].
  - intros i Hi. destruct (ok_finished0 i Hi). split; [done|lia].
  - assert (mx ≤ last ∧ ∀ v, U !! mx = Some v → v = w) as [? ?].
    { destruct Hmx1 as [Hi|Hi].
      - destruct (ok_unfinished0 mx Hi). split; [lia|done].
      - destruct (ok_fetched0 m ids mx Hf Hi). split; [lia|done]. }
    split; [lia|]. intros v. destruct (Z.max_spec (max_seen_allocated_stream_id g) mx) as [[_ ->]|[_ ->]]; auto.
  - intros _. apply ok_busy0. unfold busy. apply orb_true_iff. right.
    rewrite bool_decide_eq_false_2; [done|]. cbn. intros E. rewrite E in Hm. inversion Hm.
Qed.

Lemma sorted_list_remove_perm x l l' : sorted_list_remove x l = Ok l' → l ≡ₚ x :: l'.
Proof.
  revert l'. induction l as [|y l IH]; intros l' H; cbn in H; [done|].
  destruct (x =? y) eqn:E; to_prop; [by py_inv; subst|].
  apply py_fmap_Ok in H as (l1 & H1 & <-). rewrite (IH l1 H1). apply Permutation_swap.
Qed.

Lemma sorted_list_remove_sorted x l l' :
  sorted_list_remove x l = Ok l' → StronglySorted Z.le l → StronglySorted Z.le l'.
Proof.
  revert l'. induction l as [|y l IH]; intros l' H Hs; cbn in H; [done|].
  apply StronglySorted_inv in Hs as [Hs Hy].
  destruct (x =? y) eqn:E; to_prop; [by py_inv|].
  apply py_fmap_Ok in H as (l1 & H1 & <-). constructor; [by apply IH|].
  apply sorted_list_remove_perm in H1. rewrite H1 in Hy. by apply Forall_cons in Hy as [_ ?].
Qed.

Lemma end_fetch_ok U last w g fs1 m ph fs2 g' :
  match ph with Fetched (_ :: _) => False | _ => True end → end_fetch g m = Ok g' →
  node_ok U last w (Node g (fs1 ++ Fetch m ph :: fs2)) → node_ok U last w (Node g' (fs1 ++ fs2)).
Proof.
  unfold end_fetch. intros Hph He Hn. apply py_fmap_Ok in He as (l & Hr & <-).
  pose proof (sorted_list_remove_perm _ _ _ Hr) as Hp.
  destruct Hn. cbn in *. destruct ok_in_flight0 as [Hf1 Hf2].
  apply sorted_list_remove_sorted in Hr; [|done].
  split; cbn; try done.
  - intros i Hi. destruct (ok_own0 i Hi) as [?|(m' & ids' & Hf & Hi')]; [by left|right].
    exists m', ids'. split; [|done].
    apply elem_of_app in Hf as [Hf|[[= -> <-]|Hf]%elem_of_cons]; [apply elem_of_app; by left| |apply elem_of_app; by right].
    destruct ids'; [inversion Hi'|done].
  - intros q Hq. destruct (ok_own_position0 q Hq) as (? & ? & ? & Hfl). split_and!; [lia|lia|done|done|].
    intros m' Hm'. apply Hfl. rewrite Hp. by right.
  - rewrite Hp, map_app in ok_fetches0. cbn in ok_fetches0.
    rewrite map_app. apply (Permutation_cons_inv (a := m)). rewrite ok_fetches0. by rewrite Permutation_middle.
  - intros m' ids' i Hf Hi. apply (ok_fetched0 m' ids' i); [|done].
    apply elem_of_app in Hf as [?|?]; apply elem_of_app; [by left|right; by right].
  - split; [done|]. intros m' Hm'. apply Hf2. rewrite Hp. by right.
  - intros Hb. apply ok_busy0. unfold busy in *. cbn in Hb.
    destruct (bool_decide (unfinished_ids g = ∅)); [|done]. cbn.
    rewrite bool_decide_eq_false_2; [done|]. intros E. rewrite E in Hp. by apply Permutation_nil_cons in Hp.
Qed.

(** *** Finishing ids and hearing from other writers *)

Lemma below_own U last w n x :
  node_ok U last w n → (∀ i, i ∈ unfinished_ids (n_gen n) → x < i) →
  (∀ m, m ∈ in_flight_fetches (n_gen n) → x ≤ m) → ∀ i, U !! i = Some w → x < i.
Proof.
  intros Hn Hun Hfl i Hi. destruct (ok_own _ _ _ _ Hn i Hi) as [?|(m & ids & Hf & Hid)]; [by apply Hun|].
  destruct (ok_fetched _ _ _ _ Hn m ids i Hf Hid) as [? _].
  assert (m ∈ in_flight_fetches (n_gen n)) as Hm.
  { rewrite (ok_fetches _ _ _ _ Hn). apply list_elem_of_fmap. by exists (Fetch m (Fetched ids)). }
  specialize (Hfl m Hm). lia.
Qed.

Lemma min_unfinished_spec unfinished in_flight :
  StronglySorted Z.le in_flight →
  match min_unfinished unfinished in_flight with
  | Some m => (∀ i, i ∈ unfinished → m ≤ i) ∧ (∀ c, c ∈ in_flight → m ≤ c + 1)
  | None => unfinished = ∅ ∧ in_flight = []
  end.
Proof.
  intros Hs. unfold min_unfinished.
  assert (∀ f l, in_flight = f :: l → ∀ c, c ∈ in_flight → f ≤ c) as Hhead.
  { intros f l -> c. apply StronglySorted_inv in Hs as [_ Hf].
    rewrite Forall_forall in Hf. intros [->|?]%elem_of_cons; [lia|auto]. }
  destruct (z_min _) as [u|] eqn:E.
  - apply z_min_Some in E as [_ E].
    assert (∀ i, i ∈ unfinished → u ≤ i) as Hu by (intros; apply E; by apply elem_of_elements).
    destruct in_flight as [|f l]; cbn.
    + split; [done|]. intros c Hc. inversion Hc.
    + split; intros x Hx; [specialize (Hu x Hx); lia|]. specialize (Hhead f l eq_refl x Hx). lia.
  - apply z_min_None, elements_empty_iff, leibniz_equiv in E as ->.
    destruct in_flight as [|f l]; cbn; [done|].
    split; intros x Hx; [set_solver|]. specialize (Hhead f l eq_refl x Hx). lia.
Qed.

Lemma finished_position_spec finished unfinished in_flight new_cur finished' :
  StronglySorted Z.le in_flight → finished_position finished unfinished in_flight = Ok (new_cur, finished') →
  finished' ⊆ finished ∧
  ∀ x, new_cur = Some x → x ∈ finished ∧ (∀ i, i ∈ unfinished → x < i) ∧ (∀ m, m ∈ in_flight → x ≤ m).
Proof.
  intros Hs Hf. unfold finished_position in Hf. pose proof (min_unfinished_spec unfinished _ Hs) as Hm.
  destruct (min_unfinished _ _) as [m|].
  - py_inv. split; [set_solver|]. intros x Hx. apply z_max_Some in Hx as [Hx _].
    apply elem_of_elements, elem_of_filter in Hx as [Hlt Hx]. destruct Hm as [Hm1 Hm2].
    split; [done|]. split; intros y Hy; [specialize (Hm1 y Hy)|specialize (Hm2 y Hy)]; lia.
  - destruct Hm as [-> ->]. destruct (z_max _) eqn:E; [|done]. py_inv.
    split; [set_solver|]. intros ? [= <-]. apply z_max_Some in E as [E _]. apply elem_of_elements in E.
    split; [done|]. split; [set_solver|]. intros y Hy. inversion Hy.
Qed.

Lemma set_local_position_ok U last w g fs new_cur :
  node_ok U last w (Node g fs) →
  (∀ x, new_cur = Some x → U !! x = None ∧ 1 ≤ x ≤ max_seen_allocated_stream_id g ∧
     (∀ i, i ∈ unfinished_ids g → x < i) ∧ (∀ m, m ∈ in_flight_fetches g → x ≤ m)) →
  node_ok U last w (Node (set_local_position (cfg w) g new_cur) fs).
Proof.
  intros Hn Hx. unfold set_local_position. destruct new_cur as [x|]; [|done].
  destruct (Hx x eq_refl) as (Hx1 & Hx2 & Hx3 & Hx4). clear Hx.
  rewrite (proj2 (Z.eqb_neq x 0)) by lia. cbn [instance_name cfg].
  set (curr := default 0 _).
  assert (Z.max curr x = x ∨ (Z.max curr x = curr ∧ current_positions g !! w = Some curr)) as Hmax.
  { subst curr. destruct (current_positions g !! w); cbn; [|left; lia].
    destruct (Z.max_spec z x) as [[_ ->]|[_ ->]]; auto. }
  set (y := Z.max curr x) in *.
  assert (U !! y = None ∧ 1 ≤ y ≤ max_seen_allocated_stream_id g ∧
     (∀ i, i ∈ unfinished_ids g → y < i) ∧ (∀ m, m ∈ in_flight_fetches g → y ≤ m)) as (Hy1 & Hy2 & Hy3 & Hy4).
  { destruct Hmax as [->|[-> Hc]]; [done|].
    destruct (ok_own_position _ _ _ _ Hn curr Hc) as (? & ? & ? & ?). done. }
  pose proof (below_own _ _ _ _ y Hn Hy3 Hy4) as Hbelow.
  destruct Hn. cbn in *. destruct ok_seen0 as [Hs1 Hs2].
  split; cbn; try done.
  - intros i v Hi Hv. destruct (ok_others0 i v Hi Hv) as (q & ? & ?). exists q.
    by rewrite lookup_insert_ne.
  - intros v q Hq. apply lookup_insert_Some in Hq as [[<- <-]|[_ Hq]]; [lia|by eapply ok_positions0].
  - intros q Hq. rewrite lookup_insert_eq in Hq. injection Hq as <-. done.
  - destruct (Z.max_spec y (max_position_of_local_instance g)) as [[_ ->]|[_ ->]]; [done|].
    split; [lia|done].
  - intros _. rewrite lookup_insert_eq. by eexists.
Qed.

Lemma mark_ids_as_finished_ok U last w g fs ids g' :
  1 ≤ last → (∀ i, i ∈ ids → i ∈ unfinished_ids g ∧ U !! i = None) →
  mark_ids_as_finished (cfg w) g ids = Ok g' →
  node_ok U last w (Node g fs) → node_ok U last w (Node g' fs).
Proof.
  intros Hl Hids Hm Hn. unfold mark_ids_as_finished in Hm.
  apply py_bind_Ok in Hm as ([new_cur finished'] & Hf & Hm). py_inv.
  apply finished_position_spec in Hf as [Hsub Hx]; [|by destruct (ok_in_flight _ _ _ _ Hn)].
  assert (∀ i, i ∈ finished_ids g ∪ list_to_set ids →
    U !! i = None ∧ 1 ≤ i ≤ max_seen_allocated_stream_id g) as Hfin.
  { intros i [Hi|Hi%elem_of_list_to_set]%elem_of_union; [by apply (ok_finished _ _ _ _ Hn)|].
    destruct (Hids i Hi) as [Hu ?]. destruct (ok_unfinished _ _ _ _ Hn i Hu). done. }
  apply add_persisted_positions_ok; [done| |].
  - apply set_local_position_ok.
    + destruct Hn. cbn in *. split; cbn; try done.
      * intros i Hi. destruct (ok_own0 i Hi) as [?|?]; [left|by right].
        apply elem_of_difference. split; [done|]. intros Hin%elem_of_list_to_set.
        destruct (Hids i Hin). congruence.
      * intros q Hq. destruct (ok_own_position0 q Hq) as (? & ? & ? & ?). split_and!; [lia|lia|done| |done].
        set_solver.
      * intros i [Hi _]%elem_of_difference. by apply ok_unfinished0.
      * intros i Hi. apply Hfin. by apply Hsub.
      * intros Hb. apply ok_busy0. unfold busy in *. cbn in Hb.
        destruct (bool_decide (in_flight_fetches g = [])); [|by rewrite orb_true_r].
        rewrite orb_false_r in *. to_prop. apply negb_true_iff, bool_decide_eq_false.
        intros E. apply Hb. rewrite E. set_solver.
    + intros x ->. destruct (Hx x eq_refl) as (? & ? & ?). destruct (Hfin x) as [? ?]; done.
  - intros k Hk. destruct (Hids k Hk) as [Hu ?]. split; [done|].
    destruct (ok_unfinished _ _ _ _ Hn k Hu), (ok_seen _ _ _ _ Hn). cbn in *. lia.
Qed.

Lemma rf_rf x : rf * (rf * x) = x.
Proof. unfold rf, return_factor. cbn. destruct pos; lia. Qed.

Lemma advance_ok U last w g fs v p :
  1 ≤ last → v ≠ w → safe_for U last v (rf * p) →
  node_ok U last w (Node g fs) → node_ok U last w (Node (advance (cfg w) g v p) fs).
Proof.
  intros Hl Hv (Hp1 & Hp2 & Hp3) Hn. unfold advance.
  replace (p * return_factor (cfg w)) with (rf * p) by (unfold rf, return_factor; cbn; lia).
  apply add_persisted_position_ok; [done| |done|lia].
  destruct Hn. cbn in *. destruct ok_seen0 as [Hs1 Hs2].
  split; cbn; try done.
  - intros i v' Hi Hv'. destruct (ok_others0 i v' Hi Hv') as (q & Hq & Hlt).
    destruct (decide (v' = v)) as [->|Hne].
    + rewrite lookup_insert_eq. eexists. split; [done|]. rewrite Hq. cbn. specialize (Hp3 i Hi). lia.
    + rewrite lookup_insert_ne by done. by exists q.
  - intros v' q Hq. apply lookup_insert_Some in Hq as [[<- <-]|[_ Hq]]; [|by eapply ok_positions0].
    destruct (current_positions g !! v) as [q|] eqn:Eq; cbn; [specialize (ok_positions0 v q Eq)|]; lia.
  - intros q Hq. rewrite lookup_insert_ne in Hq by done.
    destruct (ok_own_position0 q Hq) as (? & ? & ? & ?). split_and!; [lia|lia|done..].
  - intros i Hi. destruct (ok_unfinished0 i Hi). split; [lia|done].
  - intros i Hi. destruct (ok_finished0 i Hi). split; [done|lia].
  - split; [lia|]. intros v' Hv'.
    destruct (Z.max_spec (max_seen_allocated_stream_id g) (rf * p)) as [[_ E]|[_ E]];
      rewrite E in Hv'; [congruence|auto].
  - intros Hb. rewrite lookup_insert_ne by done. by apply ok_busy0.
Qed.

(** *** Starting *)

(** Equal but for what the constructor sets at the end *)
Definition same_loaded (s s' : id_gen) : Prop :=
  current_positions s = current_positions s' ∧ unfinished_ids s = unfinished_ids s' ∧
  in_flight_fetches s = in_flight_fetches s' ∧ finished_ids s = finished_ids s' ∧
  persisted_upto_position s = persisted_upto_position s' ∧
  known_persisted_positions s = known_persisted_positions s'.

Lemma load_rows_same c rows s s' :
  same_loaded s s' → same_loaded (foldl (load_row c) s rows) (foldl (load_row c) s' rows).
Proof.
  revert s s'. induction rows as [|r rows IH]; intros s s' Hs; [done|]. cbn [foldl]. apply IH.
  destruct s, s'. destruct Hs as (E1 & E2 & E3 & E4 & E5 & E6). cbn in *. subst.
  unfold load_row, add_persisted_position. cbn.
  unfold min_curr, busy. cbn. destruct (skip_forward _ _); cbn. by destruct (bool_decide _).
Qed.

Lemma finish_init_same c s s' : same_loaded s s' → finish_init c s = finish_init c s'.
Proof. destruct s, s'. intros (E1 & E2 & E3 & E4 & E5 & E6). cbn in *. by subst. Qed.

(** The state while positions are loaded: nothing is in flight. *)
Definition loading (U : gmap Z string) (last : Z) (w : string) (s : id_gen) : Prop :=
  node_ok U last w (Node s []) ∧ unfinished_ids s = ∅ ∧ in_flight_fetches s = [] ∧
  finished_ids s = ∅ ∧ max_seen_allocated_stream_id s = last ∧
  ∀ v q, current_positions s !! v = Some q → U !! q = None ∧ 1 ≤ q ≤ last.

Lemma add_persisted_loading U last w s k :
  1 ≤ last → loading U last w s → U !! k = None → k ≤ last →
  loading U last w (add_persisted_position (cfg w) s k).
Proof.
  intros Hl (Hn & Hu & Hf & Hfin & Hm & Hc) Hk Hkl. split; [by apply add_persisted_position_ok|].
  unfold add_persisted_position. by destruct (skip_forward _ _).
Qed.

Lemma set_position_loading U last w s v x :
  (∀ i, U !! i ≠ Some w) → loading U last w s → U !! x = None → 1 ≤ x ≤ last →
  (v = w ∨ current_positions s !! v = None) →
  loading U last w (with_current_positions s (<[v := x]> (current_positions s))).
Proof.
  intros Hno (Hn & Hu & Hf & Hfin & Hm & Hc) Hx Hxl Hv. split_and!; [|done|done|done|done|].
  - destruct Hn. cbn in *. split; cbn; try done.
    + intros i v' Hi Hv'. destruct (ok_others0 i v' Hi Hv') as (q & Hq & Hlt).
      destruct (decide (v' = v)) as [->|]; [|rewrite lookup_insert_ne by done; by exists q].
      destruct Hv; congruence.
    + intros v' q Hq. apply lookup_insert_Some in Hq as [[<- <-]|[_ Hq]]; [lia|by eapply ok_positions0].
    + intros q Hq. apply lookup_insert_Some in Hq as [[<- <-]|[_ Hq]]; [|by apply ok_own_position0].
      rewrite Hm, Hu, Hf. split_and!; [lia|lia|done|set_solver|]. intros m Hin. inversion Hin.
    + intros Hb. unfold busy in Hb. cbn in Hb. by rewrite Hu, Hf in Hb.
  - cbn. intros v' q Hq. apply lookup_insert_Some in Hq as [[<- <-]|[_ Hq]]; [done|by eapply Hc].
Qed.

Lemma load_rows_loading U last w rows s :
  1 ≤ last → (∀ i, U !! i ≠ Some w) →
  (∀ r, r ∈ rows → U !! (rf * r.2) = None ∧ 1 ≤ rf * r.2 ≤ last) →
  loading U last w s → loading U last w (foldl (load_row (cfg w)) s rows).
Proof.
  intros Hl Hno. revert s. induction rows as [|r rows IH]; intros s Hr Hs; [done|]. cbn [foldl].
  destruct (Hr r ltac:(by left)) as [Hr1 Hr2]. apply IH.
  { intros r' ?. apply Hr. by right. }
  unfold load_row. change (return_factor (cfg w)) with rf.
  pose proof (add_persisted_loading U last w s (rf * r.2) Hl Hs Hr1 ltac:(lia)).
  destruct (bool_decide _); [|done]. apply set_position_loading; auto.
Qed.

Lemma setdefaults_loading U last w s l :
  (∀ i, U !! i ≠ Some w) → loading U last w s →
  let m := foldl (λ m w, match m !! w with
                         | Some _ => m
                         | None => <[w := persisted_upto_position s]> m
                         end) (current_positions s) l in
  loading U last w (with_current_positions s m) ∧
  (∀ v, v ∈ l ∨ is_Some (current_positions s !! v) → is_Some (m !! v)).
Proof.
  intros Hno Hs. cbn zeta.
  assert (U !! persisted_upto_position s = None ∧ 1 ≤ persisted_upto_position s ≤ last) as [HP1 HP2].
  { destruct Hs as (Hn & _). destruct (ok_upto _ _ _ _ Hn) as [Hu ?]. cbn in *. split; [|done].
    destruct (U !! _) as [v|] eqn:E; [|done]. specialize (Hu _ _ E). lia. }
  set (P := persisted_upto_position s) in *. clearbody P.
  revert s Hs. induction l as [|v l IH]; intros s Hs; cbn [foldl].
  { split; [by destruct s|]. intros v [Hv|?]; [inversion Hv|done]. }
  destruct (current_positions s !! v) eqn:E.
  - destruct (IH s Hs) as [? Hi]. split; [done|]. intros v' [[->|?]%elem_of_cons|?]; apply Hi; eauto.
  - destruct (IH (with_current_positions s (<[v := P]> (current_positions s)))) as [H1 H2].
    { apply set_position_loading; auto. }
    split; [done|]. intros v' Hv'. apply H2. cbn.
    destruct (decide (v' = v)) as [->|]; [right; rewrite lookup_insert_eq; by eexists|].
    destruct Hv' as [[->|?]%elem_of_cons|?]; [done|by left|right]. by rewrite lookup_insert_ne.
Qed.

Lemma finish_init_ok U last w s :
  1 ≤ last → (∀ i, U !! i ≠ Some w) → (∀ i v, U !! i = Some v → 1 < i) → loading U last w s →
  node_ok U last w (Node (finish_init (cfg w) s) []).
Proof.
  intros Hl Hno HU Hs.
  assert (U !! persisted_upto_position s = None ∧ 1 ≤ persisted_upto_position s ≤ last) as [HP1 HP2].
  { destruct Hs as (Hn & _). destruct (ok_upto _ _ _ _ Hn) as [Hu ?]. cbn in *. split; [|done].
    destruct (U !! _) as [v|] eqn:E; [|done]. specialize (Hu _ _ E). lia. }
  unfold finish_init. cbn [instance_name cfg].
  set (M := Z.max _ (persisted_upto_position s)).
  assert (U !! M = None ∧ 1 ≤ M ≤ last ∧ persisted_upto_position s ≤ M ∧
    ∀ v q, current_positions s !! v = Some q → q ≤ M) as (HM1 & HM2 & HM3 & HM4).
  { subst M. destruct (z_max _) as [mx|] eqn:E; cbn [default from_option id].
    - apply z_max_Some in E as [E1 E2]. apply list_elem_of_fmap in E1 as ([v q] & -> & Hin).
      apply elem_of_map_to_list in Hin. destruct Hs as (_ & _ & _ & _ & _ & Hc).
      destruct (Hc v q Hin) as [? ?]. cbn in *.
      split_and!; [destruct (Z.max_spec q (persisted_upto_position s)) as [[_ ->]|[_ ->]]; done|lia..|].
      intros v' q' Hq'. specialize (E2 q' ltac:(apply list_elem_of_fmap; exists (v', q'); split; [done|by apply elem_of_map_to_list])). lia.
    - rewrite Z.max_r by lia. split_and!; [done|lia..|]. intros v q Hq.
      apply z_max_None, fmap_nil_inv, map_to_list_empty_iff in E. rewrite E in Hq. by rewrite lookup_empty in Hq. }
  clearbody M.
  assert (loading U last w (with_current_positions s
    (if bool_decide (ws = []) then <[w := persisted_upto_position s]> (current_positions s)
     else current_positions s))) as Hs'.
  { destruct (bool_decide (ws = [])); [|by destruct s]. apply set_position_loading; auto. }
  assert (∀ q, (if bool_decide (ws = []) then <[w := persisted_upto_position s]> (current_positions s)
     else current_positions s) !! w = Some q → q ≤ M) as Hw.
  { intros q Hq. destruct (bool_decide (ws = [])); [|by eapply HM4].
    rewrite lookup_insert_eq in Hq. injection Hq as <-. lia. }
  cbn [writers cfg]. set (cp := if bool_decide _ then _ else _) in *. clearbody cp.
  destruct Hs' as (Hn & Hu & Hf & Hfin & Hm & Hc). destruct s; cbn in *. subst. destruct Hn. cbn in *.
  split; cbn; try done.
  - intros q Hq. destruct (ok_own_position0 q Hq) as (? & ? & ? & ?). specialize (Hw q Hq).
    split_and!; [lia|lia|done|done|done].
  - split; [lia|]. split; [done|]. intros i Hi. by destruct (Hno i).
  - split; [lia|]. intros v Hv. congruence.
Qed.

Lemma check_tables_same (d : stream_db) w ts :
  is_called (sequence d) = true →
  (∀ r, r ∈ concat ts → rf * r.2 ≤ last_value (sequence d)) → 0 ≤ last_value (sequence d) →
  ∃ r, foldl (check_table (cfg w)) (d, Ok tt) ts = (d, r).
Proof.
  intros Hc Hr H0.
  assert (∀ ts e, foldl (check_table (cfg w)) (d, Raise e) ts = (d, Raise e)) as Hraise.
  { intros ts' e. by induction ts'. }
  induction ts as [|t ts IH]; [by eexists|]. cbn [foldl].
  unfold check_table at 2. cbn [fst snd]. unfold pg_check_consistency. rewrite Hc.
  assert (table_max (is_positive (cfg w)) (map snd t) ≤ last_value (sequence d)) as Hmax.
  { assert (∀ x, x ∈ map snd t → rf * x ≤ last_value (sequence d)) as Ht.
    { intros x (r & -> & Hin)%list_elem_of_fmap. apply Hr. cbn. apply elem_of_app. by left. }
    unfold table_max, rf, return_factor in *. cbn in *. destruct pos.
    - destruct (z_max _) as [m|] eqn:E; cbn; [|lia]. apply z_max_Some in E as [E _]. specialize (Ht m E). lia.
    - destruct (z_min _) as [m|] eqn:E; cbn; [|lia]. apply z_min_Some in E as [E _]. specialize (Ht m E). lia. }
  rewrite (proj2 (Z.ltb_ge _ _) Hmax).
  replace (StreamDb (stream_positions d) (sequence d) (tables d)) with d by by destruct d.
  set (r := match _ with Some _ => _ | None => _ end). destruct r as [[]|e].
  - apply IH. intros r Hin. apply Hr. cbn. apply elem_of_app. by right.
  - eexists. apply Hraise.
Qed.

Lemma load_positions_safe U (d : stream_db) w :
  1 ≤ last_value (sequence d) → U !! last_value (sequence d) = None → (∀ i, U !! i ≠ Some w) →
  (∀ v p, stream_positions d !! v = Some p → safe_for U (last_value (sequence d)) v (rf * p)) →
  ∀ v q, load_positions (cfg w) d true ∅ !! v = Some q → safe_for U (last_value (sequence d)) v q.
Proof.
  intros Hl HU Hno Hd v q. unfold load_positions. cbn [writers instance_name cfg].
  assert (∀ v q, (if bool_decide (ws = []) then ∅ else
    (λ stream_id, stream_id * return_factor (cfg w)) <$> filter (λ p, p.1 ∈ ws) (stream_positions d))
      !! v = Some q → safe_for U (last_value (sequence d)) v q) as Hpos.
  { intros v' q'. destruct (bool_decide (ws = [])); [by rewrite lookup_empty|].
    rewrite lookup_fmap_Some. intros (p & <- & [Hp _]%map_lookup_filter_Some).
    apply Hd in Hp. by rewrite Z.mul_comm in Hp. }
  destruct (bool_decide (w ∈ ws) && true); [|apply Hpos].
  intros [[<- <-]|[_ Hq]]%lookup_insert_Some; [|by apply Hpos].
  split; [lia|]. split; [done|]. intros i Hi. by destruct (Hno i).
Qed.

Lemma load_positions_owner (d : stream_db) w v :
  v ∈ ws → v ≠ w → is_Some (stream_positions d !! v) →
  is_Some (load_positions (cfg w) d true ∅ !! v).
Proof.
  intros Hv Hne [p Hp]. unfold load_positions. cbn [writers instance_name cfg].
  rewrite (bool_decide_eq_false_2 (ws = [])) by (intros E; rewrite E in Hv; inversion Hv).
  assert (is_Some (((λ stream_id, stream_id * return_factor (cfg w))
    <$> filter (λ p, p.1 ∈ ws) (stream_positions d)) !! v)) as Hs.
  { rewrite lookup_fmap.
    replace (filter _ _ !! v) with (Some p) by (symmetry; by apply map_lookup_filter_Some). by eexists. }
  destruct (bool_decide (w ∈ ws) && true); [|done]. by rewrite lookup_insert_ne.
Qed.

Lemma tables_greatest_bounds w (ts : list (list (option string * Z))) last :
  1 ≤ last → (∀ r, r ∈ concat ts → rf * r.2 ≤ last) →
  1 ≤ foldl (λ m t, Z.max m (table_greatest (cfg w) t)) 1 ts ≤ last.
Proof.
  intros Hl Hr. assert (∀ m, 1 ≤ m ≤ last →
    1 ≤ foldl (λ m t, Z.max m (table_greatest (cfg w) t)) m ts ≤ last) as H; [|apply H; lia].
  induction ts as [|t ts IH]; intros m Hm; [done|]. cbn [foldl]. apply IH.
  { intros r ?. apply Hr. cbn. apply elem_of_app. by right. }
  assert (table_greatest (cfg w) t ≤ last); [|lia].
  assert (∀ x, x ∈ map snd t → rf * x ≤ last) as Ht.
  { intros x (r & -> & Hin)%list_elem_of_fmap. apply Hr. cbn. apply elem_of_app. by left. }
  unfold table_greatest, rf, return_factor in *. cbn in *. destruct pos.
  - destruct (z_max _) as [x|] eqn:E; cbn; [|lia]. apply z_max_Some in E as [E _]. specialize (Ht x E). lia.
  - destruct (z_min _) as [x|] eqn:E; cbn; [|lia]. apply z_min_Some in E as [E _]. specialize (Ht x E). lia.
Qed.

(** A state that counts every id as seen, loaded alongside the real one *)
Lemma loading_base U last w P0 u :
  1 ≤ last → U !! last = None → (∀ i, U !! i ≠ Some w) → (∀ i v, U !! i = Some v → 1 < i) →
  (∀ v q, P0 !! v = Some q → safe_for U last v q) →
  (∀ i v, U !! i = Some v → is_Some (P0 !! v)) →
  1 ≤ u ≤ last → (∀ i v, U !! i = Some v → u < i) →
  loading U last w (IdGen P0 ∅ [] ∅ u [] last 1).
Proof.
  intros Hl HUl Hno HU Hsafe Hown Hu Hui. split_and!; [|done..|].
  - split; cbn; try done.
    + intros i v Hi Hv. destruct (Hown i v Hi) as [q Hq]. exists q. split; [done|].
      destruct (Hsafe v q Hq) as (_ & _ & ?). auto.
    + intros v q Hq. destruct (Hsafe v q Hq). lia.
    + intros i Hi. by destruct (Hno i).
    + intros q Hq. destruct (Hsafe w q Hq) as (? & ? & _). split_and!; [lia|lia|done|set_solver|].
      intros m Hm. inversion Hm.
    + intros m ids i Hm. inversion Hm.
    + split; [constructor|]. intros m Hm. inversion Hm.
    + intros k Hk. inversion Hk.
    + split; [lia|]. split; [|intros i Hi; by destruct (Hno i)].
      destruct (U !! 1) as [v|] eqn:E; [|done]. specialize (HU 1 v E). lia.
    + split; [lia|]. intros v Hv. congruence.
  - intros v q Hq. destruct (Hsafe v q Hq) as (? & ? & _). done.
Qed.

Lemma load_current_ids_loading U (d d' : stream_db) w s :
  let last := last_value (sequence d) in
  1 ≤ last → U !! last = None → (∀ i, U !! i ≠ Some w) →
  (∀ i v, U !! i = Some v → 1 < i ∧ v ∈ ws ∧ is_Some (stream_positions d !! v)) →
  (∀ v p, stream_positions d !! v = Some p → safe_for U last v (rf * p)) →
  (∀ r, r ∈ concat (tables d) → U !! (rf * r.2) = None ∧ 1 ≤ rf * r.2 ≤ last) →
  load_current_ids (cfg w) true d blank_gen = (d', s) →
  ∃ s', same_loaded s s' ∧ loading U last w s' ∧
    ∀ v, v ∈ ws → is_Some (current_positions s' !! v).
Proof.
  intros last Hl HUl Hno HU Hd Hrows. unfold load_current_ids. cbn [writers cfg].
  set (d1 := if bool_decide (ws = []) then d else _).
  assert (sequence d1 = sequence d ∧ tables d1 = tables d ∧
    (∀ v p, stream_positions d1 !! v = Some p → stream_positions d !! v = Some p) ∧
    (∀ v, v ∈ ws → stream_positions d1 !! v = stream_positions d !! v)) as (E1 & E2 & E3 & E4).
  { subst d1. destruct (bool_decide_reflect (ws = [])) as [->|]; [done|]. cbn. split_and!; [done|done| |].
    - intros v p Hp. by apply map_lookup_filter_Some in Hp as [? _].
    - intros v Hv. destruct (stream_positions d !! v) as [p|] eqn:E.
      + by apply map_lookup_filter_Some.
      + apply map_lookup_filter_None. by left. }
  clearbody d1. intros [= <- <-]. rewrite E2.
  pose proof (load_positions_safe U d1 w) as Hsafe. rewrite E1 in Hsafe.
  specialize (Hsafe Hl HUl Hno ltac:(intros; apply Hd; auto)).
  assert (∀ i v, U !! i = Some v → is_Some (load_positions (cfg w) d1 true ∅ !! v)) as Hown.
  { intros i v Hi. destruct (HU i v Hi) as (_ & Hv & Hs). apply load_positions_owner; [done| |by rewrite E4].
    intros ->. by destruct (Hno i). }
  cbn [current_positions blank_gen] in *. set (P0 := load_positions (cfg w) d1 true ∅) in *. clearbody P0.
  set (base u := IdGen P0 ∅ [] ∅ u [] last 1).
  assert (∀ u, 1 ≤ u ≤ last → (∀ i v, U !! i = Some v → u < i) → loading U last w (base u)) as Hbase.
  { intros u Hu Hui. apply loading_base; try done. intros i v Hi. by destruct (HU i v Hi). }
  assert (∃ s1', loading U last w s1' ∧ same_loaded
    (match z_min (map snd (map_to_list P0)) with
     | Some m => foldl (load_row (cfg w)) (with_persisted_upto (with_current_positions blank_gen P0) m)
         (py_sorted (λ r r', r.2 <=? r'.2) (concat (map (rows_from (cfg w) m) (tables d))))
     | None => with_persisted_upto (with_current_positions blank_gen P0)
         (foldl (λ m t, Z.max m (table_greatest (cfg w) t)) 1 (tables d))
     end) s1') as (s1' & Hs1 & Hsame).
  { destruct (z_min _) as [m|] eqn:Em.
    - apply z_min_Some in Em as [Em1 Em2]. apply list_elem_of_fmap in Em1 as ([v q] & -> & Hin).
      apply elem_of_map_to_list in Hin. destruct (Hsafe v q Hin) as (Hq & _). cbn [snd] in *.
      eexists. split; [|apply (load_rows_same _ _ _ (base q)); done].
      apply load_rows_loading; [done|done| |].
      + intros r. rewrite py_sorted_perm. intros Hr. apply Hrows.
        apply list_elem_of_In, in_concat in Hr as (l & Hl2 & Hr).
        apply in_map_iff in Hl2 as (t & <- & Ht). apply filter_In in Hr as [Hr _].
        apply list_elem_of_In, in_concat. by exists t.
      + apply Hbase; [done|]. intros i v' Hi. destruct (Hown i v' Hi) as [q' Hq'].
        destruct (Hsafe v' q' Hq') as (_ & _ & Hlt). specialize (Hlt i Hi).
        specialize (Em2 q' ltac:(apply list_elem_of_fmap; exists (v', q'); split; [done|by apply elem_of_map_to_list])). lia.
    - set (u := foldl _ 1 _). exists (base u). split; [|done].
      apply z_min_None, fmap_nil_inv, map_to_list_empty_iff in Em.
      apply Hbase.
      + apply tables_greatest_bounds; [done|]. intros r Hr. by apply Hrows.
      + intros i v Hi. destruct (Hown i v Hi) as [q Hq]. rewrite Em in Hq. by rewrite lookup_empty in Hq. }
  destruct (setdefaults_loading U last w s1' ws Hno Hs1) as [Hl1 Hl2].
  eexists. split; [|split; [exact Hl1|]].
  - destruct Hsame as (A1 & A2 & A3 & A4 & A5 & A6). rewrite A1, A5.
    split_and!; cbn; [done|by rewrite A2|by rewrite A3|by rewrite A4|by rewrite A5|by rewrite A6].
  - intros v Hv. cbn. apply Hl2. by left.
Qed.

Lemma add_persisted_same w g ks :
  current_positions (foldl (add_persisted_position (cfg w)) g ks) = current_positions g.
Proof.
  revert g. induction ks as [|k ks IH]; intros g; [done|]. cbn [foldl]. rewrite IH.
  unfold add_persisted_position. by destruct (skip_forward _ _).
Qed.

(** Loading only makes entries for this instance and the writers. *)
Definition keys_known (w : string) (m : gmap string Z) : Prop :=
  ∀ v, is_Some (m !! v) → v = w ∨ v ∈ ws.

Lemma keys_known_insert w m v x : keys_known w m → v = w ∨ v ∈ ws → keys_known w (<[v := x]> m).
Proof.
  intros Hm Hv u Hu. destruct (decide (u = v)) as [->|]; [done|].
  apply Hm. by rewrite lookup_insert_ne in Hu.
Qed.

Lemma load_current_ids_keys w d :
  keys_known w (current_positions (load_current_ids (cfg w) true d blank_gen).2).
Proof.
  unfold load_current_ids. cbn [snd writers cfg current_positions with_current_positions].
  set (s := match z_min _ with Some _ => _ | None => _ end).
  assert (∀ l m, (∀ v, v ∈ l → v ∈ ws) → keys_known w m → keys_known w (foldl (λ m w,
    match m !! w with Some _ => m | None => <[w := persisted_upto_position s]> m end) m l)) as Hset.
  { induction l as [|v l IH]; intros m Hl Hm; [done|]. cbn [foldl].
    apply IH; [intros; apply Hl; by right|]. destruct (m !! v); [done|].
    apply keys_known_insert; [done|]. right. apply Hl. by left. }
  apply Hset; [done|]. clear Hset.
  assert (∀ rows s, keys_known w (current_positions s) →
    keys_known w (current_positions (foldl (load_row (cfg w)) s rows))) as Hrows.
  { induction rows as [|r rows IH]; intros s' Hs'; [done|]. cbn [foldl]. apply IH.
    pose proof (add_persisted_same w s' [return_factor (cfg w) * r.2]) as Ep. cbn [foldl] in Ep.
    unfold load_row. cbn zeta. destruct (bool_decide (r.1 = _)); cbn; rewrite Ep; [|done].
    apply keys_known_insert; auto. }
  assert (∀ d', keys_known w (load_positions (cfg w) d' true ∅)) as Hload.
  { intros d'. unfold load_positions. cbn [writers instance_name cfg].
    set (m := if bool_decide (ws = []) then _ else _).
    assert (keys_known w m) as Hm.
    { subst m. destruct (bool_decide (ws = [])); intros v [q Hq]; [by rewrite lookup_empty in Hq|].
      apply lookup_fmap_Some in Hq as (? & _ & [_ Hin]%map_lookup_filter_Some). by right. }
    destruct (bool_decide (w ∈ ws) && true); [|done]. apply keys_known_insert; auto. }
  subst s. destruct (z_min _); [apply Hrows|]; apply Hload.
Qed.

Lemma new_id_gen_ok U (d d' : stream_db) w g :
  let last := last_value (sequence d) in
  is_called (sequence d) = true → 1 ≤ last → U !! last = None → (∀ i, U !! i ≠ Some w) →
  (∀ i v, U !! i = Some v → 1 < i ∧ v ∈ ws ∧ is_Some (stream_positions d !! v)) →
  (∀ v p, stream_positions d !! v = Some p → safe_for U last v (rf * p)) →
  (∀ r, r ∈ concat (tables d) → U !! (rf * r.2) = None ∧ 1 ≤ rf * r.2 ≤ last) →
  new_id_gen (cfg w) true d = (d', Ok g) →
  node_ok U last w (Node g []) ∧ (∀ v, v ∈ ws → is_Some (current_positions g !! v)) ∧
  (∀ v, is_Some (current_positions g !! v) → v = w ∨ v ∈ ws) ∧ sequence d' = sequence d ∧ tables d' = tables d ∧
  (∀ v p, stream_positions d' !! v = Some p → stream_positions d !! v = Some p).
Proof.
  intros last Hc Hl HUl Hno HU Hd Hrows. unfold new_id_gen, check_tables.
  destruct (check_tables_same d w (tables d)) as [r Hr]; [done| |lia|].
  { intros r Hin. by apply Hrows. }
  rewrite Hr. destruct r as [[]|]; [|done].
  destruct (load_current_ids (cfg w) true d blank_gen) as [d1 s] eqn:E. intros [= <- <-].
  destruct (load_current_ids_loading U d d1 w s) as (s' & Hsame & Hload & Hws); try done.
  rewrite (finish_init_same _ _ _ Hsame). split_and!.
  - apply finish_init_ok; [done|done| |done]. intros i v Hi. by destruct (HU i v Hi).
  - intros v Hv. specialize (Hws v Hv). unfold finish_init. cbn.
    destruct (bool_decide (ws = [])); [|done]. destruct (decide (v = w)) as [->|].
    + rewrite lookup_insert_eq. by eexists.
    + by rewrite lookup_insert_ne.
  - rewrite <- (finish_init_same _ _ _ Hsame). pose proof (load_current_ids_keys w d) as Hkeys.
    rewrite E in Hkeys. unfold finish_init. cbn [current_positions writers cfg instance_name].
    destruct (bool_decide (ws = [])); [|done]. apply keys_known_insert; auto.
  - unfold load_current_ids in E. cbn in E. injection E as <- _. by destruct (bool_decide (ws = [])).
  - unfold load_current_ids in E. cbn in E. injection E as <- _. by destruct (bool_decide (ws = [])).
  - unfold load_current_ids in E. cbn in E. injection E as <- _. intros v p.
    destruct (bool_decide (ws = [])); [done|]. cbn. by intros [? _]%map_lookup_filter_Some.
Qed.

(** *** Every step *)

(** Other nodes, messages and rows when the ids being written change *)
Lemma world_ok_grows U U' last last' w n :
  grows U U' last w → last ≤ last' →
  node_ok U last w n ∧ (∀ v, v ∈ ws → is_Some (current_positions (n_gen n) !! v)) ∧
    (n_fetches n ≠ [] → w ∈ ws) ∧
    (∀ v, is_Some (current_positions (n_gen n) !! v) → v = w ∨ v ∈ ws) →
  node_ok U' last' w n ∧ (∀ v, v ∈ ws → is_Some (current_positions (n_gen n) !! v)) ∧
    (n_fetches n ≠ [] → w ∈ ws) ∧
    (∀ v, is_Some (current_positions (n_gen n) !! v) → v = w ∨ v ∈ ws).
Proof. intros Hg Hl (Hn & Hws & Hf). split; [by eapply node_ok_grows|done]. Qed.

(** Only one node changes. *)
Lemma set_node_ok W w n' :
  world_ok W → is_Some (nodes W !! w) →
  node_ok (uncommitted W) (seq_last W) w n' →
  (∀ v, v ∈ ws → is_Some (current_positions (n_gen n') !! v)) → (n_fetches n' ≠ [] → w ∈ ws) →
  (∀ v, is_Some (current_positions (n_gen n') !! v) → v = w ∨ v ∈ ws) →
  world_ok (set_node W w n').
Proof.
  intros HW Hw Hn Hws Hf Hk. destruct HW. split; try done; cbn.
  - intros i v Hi. destruct (ok_uncommitted0 i v Hi) as ([? ?] & ? & ?). split_and!; [done|done|done|].
    destruct (decide (v = w)) as [->|]; [rewrite lookup_insert_eq; by eexists|by rewrite lookup_insert_ne].
  - intros u n Hu. apply lookup_insert_Some in Hu as [[<- <-]|[_ Hu]]; [done|by apply ok_nodes0].
Qed.

(** The ids being written shrink or the sequence moves on. *)
Lemma shrink_ok W U' last' ts :
  world_ok W → (∀ i v, U' !! i = Some v → uncommitted W !! i = Some v) → seq_last W ≤ last' →
  (∀ r, r ∈ concat ts → r ∈ concat (tables (db W)) ∨ U' !! (rf * r.2) = None ∧ 1 ≤ rf * r.2 ≤ last') →
  world_ok (World U' (nodes W) (announced W) (StreamDb (stream_positions (db W)) (PgSequence last' true) ts)).
Proof.
  intros HW HU Hl Hts.
  assert (∀ w, grows (uncommitted W) U' (seq_last W) w) as Hg by (intros; by apply grows_subseteq).
  assert (∀ q, uncommitted W !! q = None → U' !! q = None) as HN.
  { intros q Hq. destruct (U' !! q) eqn:E; [|done]. apply HU in E. congruence. }
  destruct HW. split; cbn; unfold seq_last in *; cbn; try done.
  - lia.
  - intros i v Hi. destruct (ok_uncommitted0 i v (HU i v Hi)) as (? & ? & ?). split_and!; [lia|lia|done|done].
  - intros w n Hn. eapply world_ok_grows; [apply Hg|done|by apply ok_nodes0].
  - intros w p Hp. destruct (ok_announced0 w p Hp). split; [|done].
    eapply (safe_for_grows _ _ _ _ ""); [apply Hg|done|done].
  - intros w p Hp. eapply (safe_for_grows _ _ _ _ ""); [apply Hg|done|by apply ok_db_positions0].
  - intros r Hr. destruct (Hts r Hr) as [Hr'|?]; [|done].
    destruct (ok_rows0 r Hr'). split; [auto|lia].
Qed.

Lemma local_position W w g fs :
  world_ok W → nodes W !! w = Some (Node g fs) →
  rf * get_current_token_for_writer (cfg w) g w = max_position_of_local_instance g ∧
  safe_for (uncommitted W) (seq_last W) w (max_position_of_local_instance g).
Proof.
  intros HW Hw. destruct (ok_nodes _ HW w _ Hw) as [Hn _]. split; [|apply (ok_local _ _ _ _ Hn)].
  unfold get_current_token_for_writer. cbn [instance_name cfg]. rewrite decide_True by done. apply rf_rf.
Qed.

Lemma request_step W w g fs g' m :
  world_ok W → nodes W !! w = Some (Node g fs) → w ∈ ws → begin_fetch g = (g', m) →
  world_ok (set_node W w (Node g' (Fetch m Requested :: fs))).
Proof.
  intros HW Hw Hin Hb. destruct (ok_nodes _ HW w _ Hw) as (Hn & Hws & Hf & Hk).
  apply set_node_ok; [done|by eexists| | |done|].
  - eapply begin_fetch_ok; [by apply Hws|done|done].
  - cbn in *. injection Hb as <- <-. done.
  - cbn in *. injection Hb as <- <-. done.
Qed.

Lemma allocate_step W w g fs1 m fs2 ids last' :
  world_ok W → nodes W !! w = Some (Node g (fs1 ++ Fetch m Requested :: fs2)) →
  Forall (λ i, seq_last W < i ≤ last') ids → seq_last W ≤ last' →
  world_ok (World (list_to_map (map (λ i, (i, w)) ids) ∪ uncommitted W)
    (<[w := Node g (fs1 ++ Fetch m (Fetched ids) :: fs2)]> (nodes W))
    (announced W) (with_sequence (db W) last')).
Proof.
  intros HW Hw Hids Hl. destruct (ok_nodes _ HW w _ Hw) as (Hn & Hws & Hf & Hk). cbn in Hf, Hws.
  assert (w ∈ ws) as Hin by (apply Hf; by destruct fs1).
  pose proof (ok_last _ HW) as Hl1.
  set (U' := _ ∪ uncommitted W).
  assert (∀ v q, safe_for (uncommitted W) (seq_last W) v q → safe_for U' last' v q) as Hsafe.
  { intros v q (H1 & H2 & H3). split; [lia|]. rewrite Forall_forall in Hids. split.
    - destruct (U' !! q) as [v'|] eqn:E; [|done].
      apply fetched_lookup in E as [[_ Hi]|?]; [|congruence]. specialize (Hids q Hi). lia.
    - intros i [[-> Hi]|Hi]%fetched_lookup; [|by apply H3]. specialize (Hids i Hi). lia. }
  split; cbn; unfold seq_last in *; cbn.
  - done.
  - lia.
  - rewrite Forall_forall in Hids.
    intros i v [[-> Hi]|Hi]%fetched_lookup.
    + specialize (Hids i Hi). split_and!; [lia|lia|done|]. rewrite lookup_insert_eq. by eexists.
    + destruct (ok_uncommitted _ HW i v Hi) as (? & ? & ?). unfold seq_last in *.
      split_and!; [lia|lia|done|]. destruct (decide (v = w)) as [->|].
      * rewrite lookup_insert_eq. by eexists.
      * by rewrite lookup_insert_ne.
  - intros u n Hu. apply lookup_insert_Some in Hu as [[<- <-]|[Hne Hu]].
    + split; [|done]. eapply allocate_ok; [done|done| |done].
      intros i v Hi. destruct (ok_uncommitted _ HW i v Hi) as (? & _). unfold seq_last in *. lia.
    + eapply world_ok_grows; [|done|by apply (ok_nodes _ HW)].
      eapply allocate_grows; [done|congruence|done].
  - intros u p Hp. destruct (ok_announced _ HW u p Hp). split; [by apply Hsafe|done].
  - intros u p Hp. by apply Hsafe, (ok_db_positions _ HW).
  - intros r Hr. destruct (ok_rows _ HW r Hr) as [H1 H2]. unfold seq_last in *. split; [|lia].
    destruct (U' !! (rf * r.2)) as [v'|] eqn:E; [|done].
    apply fetched_lookup in E as [[_ Hi]|?]; [|congruence]. rewrite Forall_forall in Hids.
    specialize (Hids _ Hi). lia.
Qed.

Lemma advance_positions w g v p u :
  is_Some (current_positions (advance (cfg w) g v p) !! u) ↔ u = v ∨ is_Some (current_positions g !! u).
Proof.
  unfold advance, add_persisted_position. destruct (skip_forward _ _). cbn.
  destruct (decide (u = v)) as [->|].
  - rewrite lookup_insert_eq. split; [by left|by eexists].
  - rewrite lookup_insert_ne by done. naive_solver.
Qed.

Lemma mark_positions w g ids g' u :
  mark_ids_as_finished (cfg w) g ids = Ok g' →
  (is_Some (current_positions g !! u) → is_Some (current_positions g' !! u)) ∧
  (is_Some (current_positions g' !! u) → u = w ∨ is_Some (current_positions g !! u)).
Proof.
  unfold mark_ids_as_finished. intros ([new_cur fin] & _ & Hm)%py_bind_Ok. py_inv.
  rewrite add_persisted_same. unfold set_local_position. destruct new_cur as [x|]; [|naive_solver].
  destruct (x =? 0); [naive_solver|]. cbn.
  destruct (decide (u = w)) as [->|].
  - rewrite lookup_insert_eq. split; [by eexists|by left].
  - rewrite lookup_insert_ne by done. naive_solver.
Qed.

Lemma update_table_safe W w g fs v p :
  world_ok W → nodes W !! w = Some (Node g fs) →
  update_stream_positions_table_txn (cfg w) g (stream_positions (db W)) !! v = Some p →
  safe_for (uncommitted W) (seq_last W) v (rf * p).
Proof.
  intros HW Hw. destruct (local_position W w g fs HW Hw) as [Hrf Hsafe].
  pose proof (ok_db_positions _ HW) as Hd. unfold update_stream_positions_table_txn. cbn [writers cfg instance_name].
  destruct (bool_decide (ws = [])); [apply Hd|].
  set (tok := get_current_token_for_writer (cfg w) g w) in *.
  intros [[<- <-]|[_ ?]]%lookup_insert_Some; [|by apply Hd].
  destruct (stream_positions (db W) !! w) as [old|] eqn:E; [|by rewrite Hrf].
  assert ((if is_positive (cfg w) then Z.max else Z.min) old tok = old ∨
          (if is_positive (cfg w) then Z.max else Z.min) old tok = tok) as [-> | -> ].
  { destruct (is_positive (cfg w)); lia. }
  - by apply Hd.
  - by rewrite Hrf.
Qed.

Lemma commit_step W w g fs i ts :
  world_ok W → nodes W !! w = Some (Node g fs) → i ∈ unfinished_ids g →
  (∀ r, r ∈ concat ts → r ∈ concat (tables (db W)) ∨ r = (Some w, rf * i)) →
  world_ok (World (delete i (uncommitted W)) (nodes W) (announced W)
              (StreamDb (stream_positions (db W)) (sequence (db W)) ts)).
Proof.
  intros HW Hw Hi Hts. destruct (ok_nodes _ HW w _ Hw) as (Hn & _).
  replace (sequence (db W)) with (PgSequence (seq_last W) true).
  2:{ pose proof (ok_called _ HW) as Hc. unfold seq_last. destruct (sequence (db W)). cbn in *. by subst. }
  apply shrink_ok; [done| |done|].
  - intros j v Hj. by apply lookup_delete_Some in Hj as [_ ?].
  - intros r Hr. destruct (Hts r Hr) as [? | ->]; [by left|right]. cbn [snd]. rewrite rf_rf.
    destruct (ok_unfinished _ _ _ _ Hn i Hi) as [? _], (ok_seen _ _ _ _ Hn) as [? _]. cbn in *.
    split; [apply lookup_delete_eq|lia].
Qed.

Lemma announce_step W w g fs p :
  world_ok W → nodes W !! w = Some (Node g fs) → w ∈ ws →
  p = get_current_token_for_writer (cfg w) g w
    ∨ (rf * p ≤ rf * get_current_token_for_writer (cfg w) g w
       ∧ (Some w, p) ∈ concat (tables (db W))) →
  world_ok (World (uncommitted W) (nodes W) ({[(w, p)]} ∪ announced W) (db W)).
Proof.
  intros HW Hw Hin Hp. destruct (local_position W w g fs HW Hw) as [Hrf Hsafe].
  pose proof (ok_rows _ HW) as Hrows.
  destruct HW. split; try done. cbn. intros v q [[= -> ->]%elem_of_singleton|Hq]%elem_of_union; [|auto].
  split; [|done]. destruct Hp as [->|[Hle Hr]]; [by rewrite Hrf|]. rewrite Hrf in Hle.
  destruct (Hrows _ Hr) as [? ?]. destruct Hsafe as (? & ? & Hlt).
  split; [done|]. split; [done|]. intros i Hi. specialize (Hlt i Hi). cbn in *. lia.
Qed.

Lemma crash_step W w :
  world_ok W →
  world_ok (World (filter (λ p, p.2 ≠ w) (uncommitted W)) (delete w (nodes W)) (announced W) (db W)).
Proof.
  intros HW. set (U' := filter _ _).
  assert (∀ i v, U' !! i = Some v → uncommitted W !! i = Some v) as HU.
  { intros i v Hi. by apply map_lookup_filter_Some in Hi as [? _]. }
  pose proof (shrink_ok W U' (seq_last W) (tables (db W)) HW HU ltac:(lia) ltac:(by left)) as H.
  destruct HW, H. unfold seq_last in *. cbn in *. split; cbn; unfold seq_last; try done.
  - intros i v Hi. destruct (ok_uncommitted1 i v Hi) as ([? ?] & ? & ?). split_and!; [done|done|done|].
    apply map_lookup_filter_Some in Hi as [_ Hne]. cbn in Hne. by rewrite lookup_delete_ne.
  - intros u n Hu. apply lookup_delete_Some in Hu as [_ Hu]. by apply ok_nodes1.
Qed.

Lemma start_step W w g d :
  world_ok W → nodes W !! w = None →
  quiet W → new_id_gen (cfg w) true (db W) = (d, Ok g) →
  world_ok (World (uncommitted W) (<[w := Node g []]> (nodes W)) (announced W) d).
Proof.
  intros HW Hw Hst Hnew. pose proof HW as [Hc Hl HU Hns Ha Hd Hr]. unfold quiet, seq_last in *.
  destruct (new_id_gen_ok (uncommitted W) (db W) d w g) as (Hn & Hws & Hk & E1 & E2 & E3); try done.
  - destruct (uncommitted W !! _) as [v|] eqn:E; [|done]. by destruct (Hst _ v E).
  - intros i Hi. destruct (HU i w Hi) as (_ & _ & [? ?]). congruence.
  - intros i v Hi. destruct (HU i v Hi) as ([? ?] & ? & _), (Hst i v Hi). done.
  - split; cbn; unfold seq_last; cbn; rewrite ?E1, ?E2; try done.
    + intros i v Hi. destruct (HU i v Hi) as ([? ?] & ? & ?). split_and!; [done|done|done|].
      destruct (decide (v = w)) as [->|]; [rewrite lookup_insert_eq; by eexists|by rewrite lookup_insert_ne].
    + intros u n Hu. apply lookup_insert_Some in Hu as [[<- <-]|[_ Hu]]; [done|by apply Hns].
    + intros v p Hp. by apply Hd, E3.
Qed.

Lemma step_ok W W' : world_ok W → quiet_step W W' → world_ok W'.
Proof.
  intros HW [Hs Hquiet]. pose proof (ok_last _ HW) as Hl. destruct Hs.
  - by eapply request_step.
  - by eapply allocate_step.
  - destruct (ok_nodes _ HW w _ H) as (Hn & Hws & Hf & Hk).
    assert (current_positions g' = current_positions g) as E.
    { unfold record_ids in H0. destruct (z_max _); [|done]. by py_inv. }
    apply set_node_ok; [done|by eexists|by eapply record_ids_ok|by cbn; rewrite E| |by cbn; rewrite E].
    intros _. apply Hf. cbn. by destruct fs1.
  - destruct (ok_nodes _ HW w _ H) as (Hn & Hws & Hf & Hk).
    assert (current_positions g' = current_positions g) as E.
    { unfold end_fetch in H1. by apply py_fmap_Ok in H1 as (? & _ & <-). }
    apply set_node_ok; [done|by eexists|by eapply end_fetch_ok|by cbn; rewrite E| |by cbn; rewrite E].
    intros _. apply Hf. cbn. by destruct fs1.
  - apply shrink_ok; auto.
  - by eapply commit_step.
  - destruct (ok_nodes _ HW w _ H) as (Hn & Hws & Hf & Hk).
    apply set_node_ok; [done|by eexists|by eapply mark_ids_as_finished_ok| |done|].
    + intros v Hv. eapply mark_positions; [done|]. by apply Hws.
    + intros v [?|Hv]%(mark_positions w g ids g' v H1); [by left|by apply Hk].
  - pose proof (update_table_safe W w g fs) as Hu. destruct HW. split; try done.
    intros v p Hp. eapply Hu; [by split|done|done].
  - by eapply announce_step.
  - destruct (ok_nodes _ HW u _ H1) as (Hn & Hws & Hf & Hk). destruct (ok_announced _ HW w p H).
    apply set_node_ok; [done|by eexists| | |done|].
    + by apply advance_ok.
    + intros v Hv. apply advance_positions. right. by apply Hws.
    + intros v [->|Hv]%advance_positions; [by right|by apply Hk].
  - by apply crash_step.
  - eapply start_step; [done|done| |done]. apply (Hquiet w); [done|]. cbn. rewrite lookup_insert_eq. by eexists.
Qed.

Lemma initial_world_ok last : 1 ≤ last → world_ok (initial_world last).
Proof.
  intros Hl. split; cbn; try done.
  - intros r Hr. inversion Hr.
Qed.

Lemma reachable_world_ok W : reachable W → world_ok W.
Proof.
  intros (last & Hl & Hr). revert W Hr. apply rtc_ind_r.
  - by apply initial_world_ok.
  - intros W1 W2 _ Hs HW. by eapply step_ok.
Qed.

End System.
