(* ===== verification/IdGenFacts.v ===== *)
(** * What stream positions promise

    Consequences of the invariant of [IdGenSystem]: the current token and the
    positions of writers are safe and never go back, every token catches up once
    writing stops, allocated ids do not stay unfinished, and what goes wrong when
    a process starts while another is writing. *)

From S2P Require Import Prelude IdGen IdGenSystem.

Open Scope Z_scope.

Section Facts.
Context (ws : list string) (pos : bool).
Abbreviation cfg := (cfg ws pos).
Abbreviation rf := (rf ws pos).
Abbreviation step := (step ws pos).
Abbreviation quiet_step := (quiet_step ws pos).
Abbreviation reachable := (reachable ws pos).
Abbreviation world_ok := (world_ok ws pos).

(** ** Safety *)

(** New ids are above the last value of the sequence, which does not go back. *)
Lemma step_uncommitted W W' :
  world_ok W → quiet_step W W' →
  seq_last W ≤ seq_last W' ∧
  ∀ i v, uncommitted W' !! i = Some v → uncommitted W !! i = Some v ∨ seq_last W < i.
Proof.
  intros HW [Hs Hquiet]. destruct Hs; cbn; try (split; [unfold seq_last; cbn; lia|by left]).
  - split; [done|]. intros i v [[_ Hi]|?]%fetched_lookup; [right|by left].
    rewrite Forall_forall in H0. specialize (H0 i Hi). lia.
  - split; [done|by left].
  - split; [unfold seq_last; cbn; lia|]. intros j v [_ ?]%lookup_delete_Some. by left.
  - split; [unfold seq_last; cbn; lia|]. intros j v [? _]%map_lookup_filter_Some. by left.
  - assert (quiet W) as H0' by (apply (Hquiet w); [done|]; cbn; rewrite lookup_insert_eq; by eexists).
    pose proof HW as [Hc Hl HU Hns Ha Hd Hrows]. unfold quiet, seq_last in *. cbn.
    destruct (new_id_gen_ok ws pos (uncommitted W) (db W) d w g) as (_ & _ & _ & -> & _); try done.
    + destruct (uncommitted W !! _) as [v|] eqn:E; [|done]. by destruct (H0' _ v E).
    + intros i Hi. destruct (HU i w Hi) as (_ & _ & [? ?]). congruence.
    + intros i v Hi. destruct (HU i v Hi) as ([? ?] & ? & _), (H0' i v Hi). done.
    + split; [lia|by left].
Qed.

Lemma run_uncommitted W W' :
  world_ok W → rtc quiet_step W W' →
  world_ok W' ∧ seq_last W ≤ seq_last W' ∧
  ∀ i v, uncommitted W' !! i = Some v → uncommitted W !! i = Some v ∨ seq_last W < i.
Proof.
  intros HW Hr. revert W' Hr. apply rtc_ind_r.
  - split; [done|]. split; [lia|by left].
  - intros W1 W2 _ Hs (H1 & H2 & H3). destruct (step_uncommitted _ _ H1 Hs) as [H4 H5].
    split; [by eapply step_ok|]. split; [lia|]. intros i v Hi.
    destruct (H5 i v Hi) as [?|?]; [auto|right; lia].
Qed.

(** C5: When an instance reads its current token, every id up to the token has
    been committed or rolled back, by whatever process, and none will be written
    later: in every run from there, an id that is being written is above the
    token.  This is for runs, with any interleaving, crashes and late messages, in
    which no process starts while the last id that the sequence gave out is being
    written, or while a process is writing that has no position in the database. *)
Theorem current_token_means_persisted W W' w g fs i v :
  reachable W → nodes W !! w = Some (Node g fs) → rtc quiet_step W W' →
  uncommitted W' !! i = Some v → rf * get_current_token (cfg w) g < i.
Proof.
  intros HW Hw Hr Hi. apply reachable_world_ok in HW.
  destruct (run_uncommitted W W' HW Hr) as (_ & _ & Hu).
  destruct (ok_nodes _ _ _ HW w _ Hw) as [Hn _].
  destruct (ok_upto _ _ _ _ Hn) as [Hup [_ Hle]]. cbn in Hup, Hle.
  change (get_current_token (cfg w) g) with (rf * persisted_upto_position g). rewrite rf_rf.
  destruct (Hu i v Hi) as [?|?]; [by eapply Hup|lia].
Qed.

(** The position an instance reports for a writer, itself or another, is one
    below which that writer writes nothing any more, now or later. *)
Theorem writer_token_means_persisted W W' u g fs v i :
  reachable W → nodes W !! u = Some (Node g fs) → rtc quiet_step W W' →
  uncommitted W' !! i = Some v → rf * get_current_token_for_writer (cfg u) g v < i.
Proof.
  intros HW Hw Hr Hi. apply reachable_world_ok in HW.
  destruct (run_uncommitted W W' HW Hr) as (_ & _ & Hu).
  destruct (ok_nodes _ _ _ HW u _ Hw) as [Hn _].
  destruct (ok_upto _ _ _ _ Hn) as [Hup [_ Hle]]. cbn in Hup, Hle.
  unfold get_current_token_for_writer. cbn [instance_name IdGenSystem.cfg].
  change (return_factor (cfg u)) with rf. case_decide as Huv.
  - subst v. rewrite rf_rf. destruct (ok_local _ _ _ _ Hn) as ([_ ?] & _ & Hl). cbn in *.
    destruct (Hu i u Hi) as [?|?]; [by apply Hl|lia].
  - rewrite rf_rf. destruct (Hu i v Hi) as [Hi'|Hlt].
    + destruct (ok_others _ _ _ _ Hn i v Hi' ltac:(congruence)) as (q & Hq & ?). cbn in Hq. rewrite Hq.
      specialize (Hup i v Hi'). cbn. lia.
    + destruct (current_positions g !! v) as [q|] eqn:Hq; cbn; [|lia].
      pose proof (ok_positions _ _ _ _ Hn v q Hq). lia.
Qed.

(** ** Positions do not go back *)

Definition ahead (g g' : id_gen) : Prop :=
  persisted_upto_position g ≤ persisted_upto_position g' ∧
  max_position_of_local_instance g ≤ max_position_of_local_instance g' ∧
  ∀ v q, current_positions g !! v = Some q → ∃ q', current_positions g' !! v = Some q' ∧ q ≤ q'.

#[global] Instance ahead_preorder : PreOrder ahead.
Proof.
  split.
  - intros g. split_and!; [lia|lia|]. intros v q Hq. exists q. split; [done|lia].
  - intros g1 g2 g3 (H1 & H2 & H3) (H4 & H5 & H6). split_and!; [lia|lia|]. intros v q Hq.
    destruct (H3 v q Hq) as (q2 & Hq2 & ?), (H6 v q2 Hq2) as (q3 & Hq3 & ?). exists q3. split; [done|lia].
Qed.

Lemma skip_forward_le known upto : upto ≤ (skip_forward known upto).2.
Proof.
  revert upto. induction known as [|k known IH]; intros upto; cbn; [lia|].
  destruct (k <=? upto); [apply IH|]. destruct (k =? upto + 1); [|cbn; lia].
  specialize (IH (upto + 1)). lia.
Qed.

Lemma add_persisted_ahead c g k : ahead g (add_persisted_position c g k).
Proof.
  unfold add_persisted_position.
  pose proof (skip_forward_le (insert_sorted Z.leb k (known_persisted_positions g))
    (Z.max (min_curr c g) (persisted_upto_position g))) as Hle.
  destruct (skip_forward _ _) as [known upto]. cbn in Hle. split_and!; cbn; [lia| |].
  - destruct (busy g); cbn; lia.
  - intros v q Hq. exists q. split; [done|lia].
Qed.

Lemma add_persisted_all_ahead c ks g : ahead g (foldl (add_persisted_position c) g ks).
Proof.
  revert g. induction ks as [|k ks IH]; intros g; cbn [foldl]; [done|].
  etrans; [apply (add_persisted_ahead c g k)|apply IH].
Qed.

Lemma advance_ahead c g v p : ahead g (advance c g v p).
Proof.
  unfold advance. etrans; [|apply add_persisted_ahead]. split_and!; cbn; [lia|lia|].
  intros u q Hq. destruct (decide (u = v)) as [->|].
  - rewrite lookup_insert_eq. eexists. split; [done|]. rewrite Hq. cbn. lia.
  - rewrite lookup_insert_ne by done. exists q. split; [done|lia].
Qed.

Lemma mark_ahead c g ids g' : mark_ids_as_finished c g ids = Ok g' → ahead g g'.
Proof.
  unfold mark_ids_as_finished. intros ([new_cur fin] & _ & Hm)%py_bind_Ok. py_inv.
  etrans; [|apply add_persisted_all_ahead].
  assert (∀ g1, current_positions g1 = current_positions g →
    persisted_upto_position g1 = persisted_upto_position g →
    max_position_of_local_instance g1 = max_position_of_local_instance g → ahead g g1) as Hsame.
  { intros g1 E1 E2 E3. split_and!; [lia|lia|]. intros v q Hq. exists q. rewrite E1. split; [done|lia]. }
  unfold set_local_position. destruct new_cur as [x|]; [|by apply Hsame].
  destruct (x =? 0); [by apply Hsame|]. split_and!; cbn; [lia|lia|]. intros v q Hq.
  destruct (decide (v = instance_name c)) as [->|].
  - rewrite lookup_insert_eq. eexists. split; [done|]. rewrite Hq. cbn. lia.
  - rewrite lookup_insert_ne by done. exists q. split; [done|lia].
Qed.

(** As long as an instance runs, its current token, its local position and
    the positions it knows of other writers never decrease, whatever step is
    taken. *)
Theorem positions_never_go_back W W' w g fs g' fs' :
  step W W' → nodes W !! w = Some (Node g fs) → nodes W' !! w = Some (Node g' fs') → ahead g g'.
Proof.
  intros Hs Hw Hw'.
  assert (∀ g1, current_positions g1 = current_positions g →
    persisted_upto_position g1 = persisted_upto_position g →
    max_position_of_local_instance g1 = max_position_of_local_instance g → ahead g g1) as Hsame.
  { intros g1 E1 E2 E3. split_and!; [lia|lia|]. intros v q Hq. exists q. rewrite E1. split; [done|lia]. }
  destruct Hs; cbn in Hw';
    try (rewrite Hw in Hw'; injection Hw' as <- <-; done);
    try (apply lookup_insert_Some in Hw' as [[<- Hw']|[_ Hw']];
         [|rewrite Hw in Hw'; injection Hw' as <- <-; done]; injection Hw' as <- <-);
    try match goal with H1 : nodes W !! ?x = Some _, H2 : nodes W !! ?x = _ |- _ =>
      rewrite H1 in H2; simplify_eq end.
  - unfold begin_fetch in *. simplify_eq. by apply Hsame.
  - done.
  - unfold record_ids in H0. destruct (z_max _); [|done]. py_inv. by apply Hsame.
  - apply py_fmap_Ok in H1 as (l & _ & <-). by apply Hsame.
  - by eapply mark_ahead.
  - apply advance_ahead.
  - apply lookup_delete_Some in Hw' as [_ Hw']. rewrite Hw in Hw'. by injection Hw' as <- <-.
Qed.

(** ** Every token catches up *)

(** [v] announces its position and [u] hears it. *)
Definition tell (W : world) (v u : string) : world :=
  match nodes W !! v, nodes W !! u with
  | Some nv, Some nu =>
      let p := get_current_token_for_writer (cfg v) (n_gen nv) v in
      set_node (World (uncommitted W) (nodes W) ({[(v, p)]} ∪ announced W) (db W)) u
        (Node (advance (cfg u) (n_gen nu) v p) (n_fetches nu))
  | _, _ => W
  end.

Definition tell_all (W : world) (ps : list (string * string)) : world :=
  foldl (λ W p, tell W p.1 p.2) W ps.

Definition idle (W : world) : Prop := ∀ w n, nodes W !! w = Some n → busy (n_gen n) = false.

(** Replication: an instance announces its position, or hears an announcement. *)
Inductive replication (W : world) : world → Prop :=
  | repl_announce w g fs :
      nodes W !! w = Some (Node g fs) → w ∈ ws →
      replication W (World (uncommitted W) (nodes W) ({[(w, get_current_token_for_writer (cfg w) g w)]} ∪ announced W) (db W))
  | repl_deliver w p u g fs :
      (w, p) ∈ announced W → u ≠ w → nodes W !! u = Some (Node g fs) →
      replication W (set_node W u (Node (advance (cfg u) g w p) fs)).

Lemma replication_step W W' : replication W W' → quiet_step W W'.
Proof.
  destruct 1 as [w g fs Hw Hin|w p u g fs Ha Hne Hu]; (split; [econstructor; by eauto|]); intros x Hx [n Hn]; cbn in Hn; [congruence|].
  apply lookup_insert_Some in Hn as [[<- _]|[_ Hn]]; congruence.
Qed.

Lemma tell_run W v u : v ∈ ws → u ≠ v → rtc replication W (tell W v u).
Proof.
  intros Hv Hne. unfold tell. destruct (nodes W !! v) as [[gv fv]|] eqn:Ev; [|done].
  destruct (nodes W !! u) as [[gu fu]|] eqn:Eu; [|done].
  eapply rtc_l; [exact (repl_announce W v gv fv Ev Hv)|].
  apply rtc_once. eapply repl_deliver; [|done|exact Eu]. apply elem_of_union. left.
  by apply elem_of_singleton.
Qed.

(** Hearing from [v] when idle: the local position passes the one heard, and the
    token is at least the smallest position known of the other writers. *)
Lemma advance_idle u g v p :
  u ≠ v → busy g = false →
  busy (advance (cfg u) g v p) = false ∧
  (∃ q, current_positions (advance (cfg u) g v p) !! v = Some q ∧ rf * p ≤ q) ∧
  rf * p ≤ max_position_of_local_instance (advance (cfg u) g v p) ∧
  ∀ T, (∀ x q, x ≠ u → current_positions (advance (cfg u) g v p) !! x = Some q → T ≤ q) →
    T ≤ persisted_upto_position (advance (cfg u) g v p).
Proof.
  intros Hne Hb. unfold advance.
  replace (p * return_factor (cfg u)) with (rf * p) by (unfold IdGenSystem.rf, return_factor; cbn; lia).
  set (g1 := with_max_seen _ _).
  assert (busy g1 = false) as Hb1 by done.
  assert (min_curr (cfg u) g1 = default (default 0 (current_positions g1 !! u))
    (z_min (map snd (map_to_list (delete u (current_positions g1)))))) as Hmc.
  { unfold min_curr. rewrite Hb1, andb_false_r. done. }
  assert (current_positions g1 !! v = Some (Z.max (rf * p) (default 0 (current_positions g !! v)))) as Hv
    by (cbn; by rewrite lookup_insert_eq).
  unfold add_persisted_position.
  pose proof (skip_forward_le (insert_sorted Z.leb (rf * p) (known_persisted_positions g1))
    (Z.max (min_curr (cfg u) g1) (persisted_upto_position g1))) as Hle.
  destruct (skip_forward _ _) as [known upto]. cbn [snd] in Hle. rewrite Hb1.
  cbn [busy unfinished_ids in_flight_fetches current_positions max_position_of_local_instance
    persisted_upto_position negb].
  split; [exact Hb1|]. split; [eexists; split; [exact Hv|lia]|]. split; [cbn; lia|].
  intros T HT. enough (T ≤ min_curr (cfg u) g1) by lia. rewrite Hmc.
  destruct (z_min _) as [m|] eqn:E; cbn [default from_option id].
  - apply z_min_Some in E as [E _]. apply list_elem_of_fmap in E as ([x q] & -> & Hin).
    apply elem_of_map_to_list, lookup_delete_Some in Hin as [Hx Hq]. by apply (HT x).
  - exfalso. apply z_min_None, fmap_nil_inv, map_to_list_empty_iff in E.
    assert (delete u (current_positions g1) !! v = None) as Hnone by by rewrite E.
    rewrite lookup_delete_ne in Hnone by done. congruence.
Qed.

(** What telling does to the nodes: nobody falls behind, and the hearer's token
    reaches whatever the positions it knows of all other writers have reached. *)
Lemma tell_effect W v u nv nu :
  world_ok W → idle W → v ∈ ws → u ≠ v → nodes W !! v = Some nv → nodes W !! u = Some nu →
  idle (tell W v u) ∧
  (∀ x n, nodes W !! x = Some n → ∃ n', nodes (tell W v u) !! x = Some n' ∧ ahead (n_gen n) (n_gen n')) ∧
  ∃ nu', nodes (tell W v u) !! u = Some nu' ∧
    (∃ q, current_positions (n_gen nu') !! v = Some q ∧ max_position_of_local_instance (n_gen nv) ≤ q) ∧
    max_position_of_local_instance (n_gen nv) ≤ max_position_of_local_instance (n_gen nu') ∧
    ∀ T, (∀ x, x ∈ ws → x ≠ u → ∃ q, current_positions (n_gen nu) !! x = Some q ∧ T ≤ q) →
      T ≤ persisted_upto_position (n_gen nu').
Proof.
  intros HW Hi Hv Hne Hnv Hnu. unfold tell. rewrite Hnv, Hnu.
  set (p := get_current_token_for_writer _ _ _).
  assert (rf * p = max_position_of_local_instance (n_gen nv)) as Hp.
  { destruct nv as [gv fv]. by destruct (local_position ws pos W v gv fv HW Hnv). }
  destruct (advance_idle u (n_gen nu) v p Hne (Hi u nu Hnu)) as (H1 & H2 & H3 & H4).
  rewrite Hp in *. split_and!.
  - intros x n. cbn. intros [[<- <-]|[_ Hx]]%lookup_insert_Some; [done|by apply (Hi x)].
  - intros x n Hx. cbn. destruct (decide (x = u)) as [->|].
    + rewrite lookup_insert_eq. eexists. split; [done|]. rewrite Hnu in Hx. injection Hx as <-.
      apply advance_ahead.
    + rewrite lookup_insert_ne by done. exists n. done.
  - eexists. cbn. rewrite lookup_insert_eq. split; [done|]. cbn [n_gen]. split_and!; [done|done|].
    intros T HT. apply H4. intros x q Hx Hq.
    destruct (ok_nodes _ _ _ HW u nu Hnu) as (_ & _ & _ & Hk).
    assert (x ∈ ws) as Hxw.
    { assert (is_Some (current_positions (advance (cfg u) (n_gen nu) v p) !! x)) as Hs by by eexists.
      apply advance_positions in Hs as [->|Hs]; [done|]. by destruct (Hk x Hs). }
    destruct (HT x Hxw Hx) as (q0 & Hq0 & ?).
    destruct (advance_ahead (cfg u) (n_gen nu) v p) as (_ & _ & Ha).
    destruct (Ha x q0 Hq0) as (q1 & Hq1 & ?). rewrite Hq in Hq1. injection Hq1 as <-. lia.
Qed.

Definition talkative (W : world) (ps : list (string * string)) : Prop :=
  ∀ v u, (v, u) ∈ ps → v ∈ ws ∧ u ≠ v ∧ is_Some (nodes W !! v) ∧ is_Some (nodes W !! u).

Lemma tell_all_effect ps W :
  world_ok W → idle W → talkative W ps →
  rtc replication W (tell_all W ps) ∧ world_ok (tell_all W ps) ∧ idle (tell_all W ps) ∧
  (∀ x n, nodes W !! x = Some n → ∃ n', nodes (tell_all W ps) !! x = Some n' ∧ ahead (n_gen n) (n_gen n')) ∧
  ∀ v u nv nu, (v, u) ∈ ps → nodes W !! v = Some nv → nodes W !! u = Some nu →
    ∃ nu', nodes (tell_all W ps) !! u = Some nu' ∧
    (∃ q, current_positions (n_gen nu') !! v = Some q ∧ max_position_of_local_instance (n_gen nv) ≤ q) ∧
    max_position_of_local_instance (n_gen nv) ≤ max_position_of_local_instance (n_gen nu') ∧
    ∀ T, (∀ x, x ∈ ws → x ≠ u → ∃ q, current_positions (n_gen nu) !! x = Some q ∧ T ≤ q) →
      T ≤ persisted_upto_position (n_gen nu').
Proof.
  revert W. induction ps as [|[v u] ps IH]; intros W HW Hi Ht.
  { cbn. split_and!; [done|done|done|intros x n Hx; by exists n|]. intros v u nv nu Hin. inversion Hin. }
  destruct (Ht v u ltac:(by left)) as (Hv & Hne & [nv Hnv] & [nu Hnu]).
  destruct (tell_effect W v u nv nu HW Hi Hv Hne Hnv Hnu) as (Hi1 & Ha1 & nu1 & Hnu1 & (q1 & Hq1 & Hle1) & HL1 & HT1).
  pose proof (tell_run W v u Hv Hne) as Hrun.
  assert (world_ok (tell W v u)) as HW1.
  { apply (run_uncommitted W); [done|]. clear -Hrun. induction Hrun; [done|]. eapply rtc_l; [by apply replication_step|done]. }
  change (tell_all W ((v, u) :: ps)) with (tell_all (tell W v u) ps).
  destruct (IH (tell W v u)) as (Hr2 & HW2 & Hi2 & Ha2 & Hp2); [done|done| |].
  { intros v' u' Hin. destruct (Ht v' u' ltac:(by right)) as (? & ? & [n1 H1] & [n2 H2]).
    destruct (Ha1 _ _ H1) as (? & ? & _), (Ha1 _ _ H2) as (? & ? & _). eauto. }
  split_and!; [by etrans|done|done| |].
  - intros x n Hx. destruct (Ha1 x n Hx) as (n1 & Hn1 & ?), (Ha2 x n1 Hn1) as (n2 & Hn2 & ?).
    exists n2. split; [done|]. by etrans.
  - intros v' u' nv' nu' [[= -> ->]|Hin]%elem_of_cons Hnv' Hnu'.
    + simplify_eq. destruct (Ha2 u nu1 Hnu1) as (nu2 & Hnu2 & (HP & HL & Hc)).
      exists nu2. split; [done|]. destruct (Hc v q1 Hq1) as (q2 & Hq2 & ?).
      split_and!; [exists q2; split; [done|lia]|lia|]. intros T HT. specialize (HT1 T HT). lia.
    + destruct (Ha1 _ _ Hnv') as (nv1 & Hnv1 & (_ & HL & _)), (Ha1 _ _ Hnu') as (nu1' & Hnu1' & (_ & _ & Hc)).
      destruct (Hp2 v' u' nv1 nu1' Hin Hnv1 Hnu1') as (nu2 & Hnu2 & (q2 & Hq2 & ?) & HL2 & HT2).
      exists nu2. split; [done|]. split_and!; [exists q2; split; [done|lia]|lia|].
      intros T HT. apply HT2. intros x Hx Hxu. destruct (HT x Hx Hxu) as (q & Hq & ?).
      destruct (Hc x q Hq) as (q' & ? & ?). exists q'. split; [done|lia].
Qed.

(** A round: every writer tells every other instance, in any order. *)
Definition round (W : world) (ps : list (string * string)) : Prop :=
  ∀ v u, (v, u) ∈ ps ↔ v ∈ ws ∧ u ≠ v ∧ is_Some (nodes W !! u).

Lemma catch_up W a b ps1 ps2 ps3 :
  world_ok W → idle W → (∀ v, v ∈ ws → is_Some (nodes W !! v)) → a ∈ ws → b ∈ ws → a ≠ b →
  round W ps1 → round W ps2 → round W ps3 →
  let W' := tell_all W (ps1 ++ ps2 ++ ps3) in
  rtc replication W W' ∧ ∀ u nu, nodes W !! u = Some nu → ∃ nu', nodes W' !! u = Some nu' ∧
    ∀ v nv, v ∈ ws → nodes W !! v = Some nv →
      max_position_of_local_instance (n_gen nv) ≤ persisted_upto_position (n_gen nu').
Proof.
  intros HW Hi Hrun Ha Hb Hab Hps1 Hps2 Hps3. unfold tell_all. rewrite !foldl_app. fold (tell_all W ps1). fold (tell_all (tell_all W ps1) ps2). fold (tell_all (tell_all (tell_all W ps1) ps2) ps3).
  assert (∀ W1 ps, round W ps → (∀ x n, nodes W !! x = Some n → ∃ n', nodes W1 !! x = Some n' ∧ ahead (n_gen n) (n_gen n')) →
    talkative W1 ps) as Htalk.
  { intros W1 ps Hps H1 v u (Hv & Hne & [nu Hu])%Hps. destruct (Hrun v Hv) as [nv Hnv].
    destruct (H1 v nv Hnv) as (? & ? & _), (H1 u nu Hu) as (? & ? & _). eauto. }
  destruct (tell_all_effect ps1 W) as (Hr1 & HW1 & Hi1 & Ha1 & Hp1); [done|done|apply Htalk; [done|]; intros x n Hx; by exists n|].
  set (W1 := tell_all W ps1) in *.
  destruct (tell_all_effect ps2 W1) as (Hr2 & HW2 & Hi2 & Ha2 & Hp2); [done|done|by apply Htalk|].
  set (W2 := tell_all W1 ps2) in *.
  assert (∀ x n, nodes W !! x = Some n → ∃ n', nodes W2 !! x = Some n' ∧ ahead (n_gen n) (n_gen n')) as Ha12.
  { intros x n Hx. destruct (Ha1 x n Hx) as (n1 & Hn1 & ?), (Ha2 x n1 Hn1) as (n2 & ? & ?).
    exists n2. split; [done|]. by etrans. }
  destruct (tell_all_effect ps3 W2) as (Hr3 & _ & _ & _ & Hp3); [done|done|by apply Htalk|].
  split; [by do 2 (etrans; [eassumption|])|]. intros u nu Hnu.
  assert (∃ c, c ∈ ws ∧ u ≠ c) as (c & Hc & Huc).
  { destruct (decide (u = a)) as [->|]; [exists b|exists a]; done. }
  assert ((c, u) ∈ ps3) as Hcu by (apply Hps3; eauto).
  destruct (Hrun c Hc) as [nc Hnc].
  destruct (Ha12 c nc Hnc) as (nc2 & Hnc2 & _), (Ha1 u nu Hnu) as (nu1 & Hnu1 & _).
  destruct (Ha12 u nu Hnu) as (nu2 & Hnu2 & _).
  destruct (Hp3 c u nc2 nu2 Hcu Hnc2 Hnu2) as (nu3 & Hnu3 & _ & _ & HT).
  exists nu3. split; [done|]. intros v nv Hv Hnv. apply HT. intros x Hx Hxu.
  destruct (Hrun x Hx) as [nx Hnx]. destruct (Ha1 x nx Hnx) as (nx1 & Hnx1 & _).
  assert (max_position_of_local_instance (n_gen nv) ≤ max_position_of_local_instance (n_gen nx1)) as HL.
  { destruct (decide (x = v)) as [->|Hxv].
    - destruct (Ha1 v nv Hnv) as (nv1 & Hnv1 & (_ & ? & _)). rewrite Hnx1 in Hnv1. by injection Hnv1 as <-.
    - destruct (Hp1 v x nv nx) as (nx' & Hnx' & _ & ? & _); [apply Hps1; eauto|done|done|].
      rewrite Hnx1 in Hnx'. by injection Hnx' as <-. }
  destruct (Hp2 x u nx1 nu1) as (nu2' & Hnu2' & (q & Hq & ?) & _); [apply Hps2; eauto|done|done|].
  rewrite Hnu2 in Hnu2'. injection Hnu2' as <-. exists q. split; [done|lia].
Qed.

(** C29: Once writing stops, replication makes the tokens catch up: take any reachable
    world in which all writers, at least two, are running and nobody is writing, and three
    rounds in each of which every writer announces its position and every other instance
    hears it, in any order.  Then the current token of every instance is at least the
    position of every writer.  The steps taken are announcements and deliveries only. *)
Theorem tokens_catch_up W a b ps1 ps2 ps3 :
  reachable W → (∀ w n, nodes W !! w = Some n → busy (n_gen n) = false) →
  (∀ v, v ∈ ws → is_Some (nodes W !! v)) → a ∈ ws → b ∈ ws → a ≠ b →
  round W ps1 → round W ps2 → round W ps3 →
  let W' := tell_all W (ps1 ++ ps2 ++ ps3) in
  rtc replication W W' ∧ ∀ u nu, nodes W !! u = Some nu → ∃ nu', nodes W' !! u = Some nu' ∧
    ∀ v nv, v ∈ ws → nodes W !! v = Some nv →
      rf * get_current_token_for_writer (cfg v) (n_gen nv) v ≤ rf * get_current_token (cfg u) (n_gen nu').
Proof.
  intros HW Hi Hrun Ha Hb Hab H1 H2 H3 W'. apply reachable_world_ok in HW.
  destruct (catch_up W a b ps1 ps2 ps3 HW Hi Hrun Ha Hb Hab H1 H2 H3) as (Hr & Hall). split; [done|].
  intros u nu Hu. destruct (Hall u nu Hu) as (nu' & Hu' & Hle). exists nu'. split; [done|].
  intros v [gv fv] Hv Hnv. destruct (local_position ws pos W v gv fv HW Hnv) as [Hloc _].
  cbn [n_gen]. rewrite Hloc. change (get_current_token (cfg u) (n_gen nu')) with (rf * persisted_upto_position (n_gen nu')).
  rewrite rf_rf. by apply (Hle v (Node gv fv)).
Qed.

(** ** Runs *)

(** Steps to execute; ids and rows as a lone writer gets and stores them *)
Inductive action : Type :=
  | Start (w : string) | Crash (w : string)
  | Request (w : string) | Allocate (w : string) (n : nat) | Record (w : string) | End (w : string)
  | Commit (w : string) (i : Z) | Finish (w : string) (ids : list Z)
  | Announce (w : string) | Deliver (w : string) (p : Z) (u : string) | Update (w : string).

Definition add_row (w : string) (i : Z) (ts : list (list (option string * Z))) :=
  match ts with [] => [[(Some w, rf * i)]] | t :: ts => ((Some w, rf * i) :: t) :: ts end.

(** [quiet], to compute *)
Definition may_start (W : world) : bool :=
  forallb (λ p, negb (p.1 =? seq_last W) && bool_decide (is_Some (stream_positions (db W) !! p.2)))
    (map_to_list (uncommitted W)).

(** With [careful], processes only start when all is quiet. *)
Definition exec (careful : bool) (W : world) (a : action) : option world :=
  match a with
  | Start w =>
      match nodes W !! w, new_id_gen (cfg w) true (db W) with
      | None, (d, Ok g) =>
          if negb careful || may_start W then Some (World (uncommitted W) (<[w := Node g []]> (nodes W)) (announced W) d)
          else None
      | _, _ => None
      end
  | Crash w =>
      Some (World (filter (λ p, p.2 ≠ w) (uncommitted W)) (delete w (nodes W)) (announced W) (db W))
  | Request w =>
      match nodes W !! w, check_writer (cfg w) with
      | Some (Node g fs), Ok _ =>
          if bool_decide (w ∈ ws)
          then let '(g', m) := begin_fetch g in Some (set_node W w (Node g' (Fetch m Requested :: fs)))
          else None
      | _, _ => None
      end
  | Allocate w n =>
      match nodes W !! w with
      | Some (Node g (Fetch m Requested :: fs)) =>
          let ids := map (λ i, seq_last W + 1 + Z.of_nat i) (seq 0 n) in
          Some (World (list_to_map (map (λ i, (i, w)) ids) ∪ uncommitted W)
                  (<[w := Node g (Fetch m (Fetched ids) :: fs)]> (nodes W))
                  (announced W) (with_sequence (db W) (seq_last W + Z.of_nat n)))
      | _ => None
      end
  | Record w =>
      match nodes W !! w with
      | Some (Node g (Fetch m (Fetched ids) :: fs)) =>
          match record_ids g ids with
          | Ok g' => Some (set_node W w (Node g' (Fetch m Recorded :: fs)))
          | Raise _ => None
          end
      | _ => None
      end
  | End w =>
      match nodes W !! w with
      | Some (Node g (Fetch m Recorded :: fs)) =>
          match end_fetch g m with Ok g' => Some (set_node W w (Node g' fs)) | Raise _ => None end
      | _ => None
      end
  | Commit w i =>
      match nodes W !! w with
      | Some (Node g fs) =>
          if bool_decide (i ∈ unfinished_ids g) then
            Some (World (delete i (uncommitted W)) (nodes W) (announced W)
                    (StreamDb (stream_positions (db W)) (sequence (db W)) (add_row w i (tables (db W)))))
          else None
      | None => None
      end
  | Finish w ids =>
      match nodes W !! w with
      | Some (Node g fs) =>
          if forallb (λ i, bool_decide (i ∈ unfinished_ids g) && bool_decide (uncommitted W !! i = None)) ids
          then match mark_ids_as_finished (cfg w) g ids with
               | Ok g' => Some (set_node W w (Node g' fs))
               | Raise _ => None
               end
          else None
      | None => None
      end
  | Announce w =>
      match nodes W !! w with
      | Some (Node g fs) =>
          if bool_decide (w ∈ ws) then
            Some (World (uncommitted W) (nodes W)
                    ({[(w, get_current_token_for_writer (cfg w) g w)]} ∪ announced W) (db W))
          else None
      | None => None
      end
  | Deliver w p u =>
      match nodes W !! u with
      | Some (Node g fs) =>
          if bool_decide ((w, p) ∈ announced W) && negb (bool_decide (u = w))
          then Some (set_node W u (Node (advance (cfg u) g w p) fs)) else None
      | None => None
      end
  | Update w =>
      match nodes W !! w with
      | Some (Node g fs) =>
          Some (World (uncommitted W) (nodes W) (announced W)
                  (StreamDb (update_stream_positions_table_txn (cfg w) g (stream_positions (db W)))
                     (sequence (db W)) (tables (db W))))
      | None => None
      end
  end.

Lemma add_row_rows w i ts r : r ∈ concat (add_row w i ts) → r ∈ concat ts ∨ r = (Some w, rf * i).
Proof. destruct ts; cbn; rewrite ?elem_of_cons, ?elem_of_app, ?elem_of_cons; tauto. Qed.

Ltac exec_case :=
  match goal with
  | H : context [match ?x with _ => _ end] |- _ => destruct x eqn:?; try discriminate H
  end.

Lemma exec_step careful W a W' : exec careful W a = Some W' → step W W'.
Proof.
  destruct a; cbn; intros H.
  - repeat exec_case. simplify_eq. by eapply step_start.
  - simplify_eq. apply step_crash.
  - repeat exec_case. simplify_eq. to_prop. match goal with x : unit |- _ => destruct x end.
    by eapply step_request.
  - repeat exec_case. simplify_eq. eapply (step_allocate _ _ _ _ _ []); [done| |lia].
    apply Forall_forall. intros i (k & -> & Hk)%list_elem_of_fmap. apply elem_of_seq in Hk. lia.
  - repeat exec_case. simplify_eq. by eapply (step_record _ _ _ _ _ []).
  - repeat exec_case. simplify_eq. by eapply (step_end _ _ _ _ _ []).
  - repeat exec_case. simplify_eq. to_prop. eapply step_commit; [done|done|apply add_row_rows].
  - repeat exec_case. simplify_eq. eapply step_finish; [done| |done]. intros i Hi.
    match goal with Hf : forallb _ _ = true |- _ => rewrite forallb_forall in Hf;
      specialize (Hf i (proj1 (list_elem_of_In _ _) Hi)) end. cbn in *. by to_prop.
  - repeat exec_case. simplify_eq. to_prop. eapply step_announce; [done|done|by left].
  - repeat exec_case. simplify_eq. to_prop. by eapply step_deliver.
  - repeat exec_case. simplify_eq. by eapply step_update_table.
Qed.

Lemma may_start_quiet W : may_start W = true → quiet W.
Proof.
  unfold may_start. rewrite forallb_forall. intros Hf i v Hi. specialize (Hf (i, v)). rewrite <- list_elem_of_In, elem_of_map_to_list in Hf.
  specialize (Hf Hi). cbn in Hf. by to_prop.
Qed.

Lemma exec_quiet W a W' : exec true W a = Some W' → quiet_step W W'.
Proof.
  intros H. split; [by eapply exec_step|]. intros x Hx [n Hn]. destruct a; cbn in H.
  1: repeat exec_case; by apply may_start_quiet.
  all: exfalso; repeat exec_case; simplify_eq; cbn in Hn; repeat match goal with
    | H : <[_ := _]> _ !! _ = Some _ |- _ => apply lookup_insert_Some in H as [[<- _]|[_ H]]
    | H : delete _ _ !! _ = Some _ |- _ => apply lookup_delete_Some in H as [_ H]
    end; congruence.
Qed.

Fixpoint exec_all (careful : bool) (W : world) (l : list action) : option world :=
  match l with
  | [] => Some W
  | a :: l => match exec careful W a with Some W' => exec_all careful W' l | None => None end
  end.

Lemma exec_all_run (R : world → world → Prop) careful l W W' :
  (∀ W a W', exec careful W a = Some W' → R W W') → exec_all careful W l = Some W' → rtc R W W'.
Proof.
  intros HR. revert W. induction l as [|a l IH]; cbn; intros W H; [by simplify_eq|].
  destruct (exec careful W a) eqn:E; [|done]. eapply rtc_l; [by eapply HR|by apply IH].
Qed.
End Facts.

(** ** Ids that are allocated are finished *)

Lemma remove_inserted x l : sorted_list_remove x (insert_sorted Z.leb x l) = Ok l.
Proof.
  induction l as [|y l IH]; cbn; [by rewrite Z.eqb_refl|].
  destruct (x <=? y) eqn:E; cbn; [by rewrite Z.eqb_refl|]. to_prop.
  rewrite (proj2 (Z.eqb_neq x y)) by lia. by rewrite IH.
Qed.

Lemma add_persisted_unfinished c ks s :
  unfinished_ids (foldl (add_persisted_position c) s ks) = unfinished_ids s ∧
  in_flight_fetches (foldl (add_persisted_position c) s ks) = in_flight_fetches s.
Proof.
  revert s. induction ks as [|k ks IH]; intros s; [done|]. cbn [foldl].
  destruct (IH (add_persisted_position c s k)) as [-> ->].
  unfold add_persisted_position. by destruct (skip_forward _ _).
Qed.

(** Finishing works on every list but the empty one. *)
Lemma mark_ids_as_finished_total c s ids :
  ids ≠ [] → ∃ s', mark_ids_as_finished c s ids = Ok s' ∧
    unfinished_ids s' = unfinished_ids s ∖ list_to_set ids ∧ in_flight_fetches s' = in_flight_fetches s.
Proof.
  intros Hids. unfold mark_ids_as_finished.
  destruct (finished_position _ _ _) as [[new_cur fin]|e] eqn:E.
  - eexists. split; [reflexivity|]. destruct (add_persisted_unfinished c ids (set_local_position c
      (IdGen (current_positions s) (unfinished_ids s ∖ list_to_set ids) (in_flight_fetches s) fin
        (persisted_upto_position s) (known_persisted_positions s) (max_seen_allocated_stream_id s)
        (max_position_of_local_instance s)) new_cur)) as [-> ->].
    unfold set_local_position. destruct new_cur as [x|]; [|done]. by destruct (x =? 0).
  - exfalso. unfold finished_position in E. destruct (min_unfinished _ _); [done|].
    destruct (z_max _) eqn:Em; [done|]. apply z_max_None, elements_empty_iff in Em.
    destruct ids as [|i ids]; [done|]. specialize (Em i). set_solver.
Qed.

Lemma mark_nothing_raises c s :
  unfinished_ids s = ∅ → in_flight_fetches s = [] → finished_ids s = ∅ →
  mark_ids_as_finished c s [] = Raise ValueError.
Proof.
  intros Hu Hf Hd. unfold mark_ids_as_finished, finished_position, min_unfinished. rewrite Hu, Hf, Hd. done.
Qed.

Lemma load_next_mult_spec s ids :
  ids ≠ [] → ∃ s1, load_next_mult_id_txn s (Ok ids) = (s1, Ok ids) ∧
    unfinished_ids s1 = unfinished_ids s ∪ list_to_set ids ∧ in_flight_fetches s1 = in_flight_fetches s.
Proof.
  intros Hids. unfold load_next_mult_id_txn, begin_fetch, record_ids. cbn.
  destruct (z_max _) as [m|] eqn:Em.
  - unfold end_fetch. cbn. rewrite remove_inserted. cbn. by eexists.
  - exfalso. apply z_max_None, elements_empty_iff in Em.
    destruct ids as [|i ids]; [done|]. specialize (Em i). set_solver.
Qed.

(** Whatever becomes of the transaction that allocates ids, its callbacks
    finish them: after a commit as after an exception the ids that are unfinished
    and the fetches in flight are those from before, and the callbacks raise
    nothing. *)
Theorem allocated_ids_get_finished c s ids s1 a tbl (failed : bool) :
  ids ≠ [] → (∀ i, i ∈ ids → i ∉ unfinished_ids s) →
  get_next_mult_txn c s (Ok ids) = (s1, Ok a) →
  allocated a = map (λ i, return_factor c * i) ids ∧ unfinished_ids s1 = unfinished_ids s ∪ list_to_set ids ∧
  ∃ s2 tbl2,
    py_fold (run_callback c) (s1, tbl) (if failed then call_on_exception a else call_after a)
      = Ok (s2, tbl2) ∧
    unfinished_ids s2 = unfinished_ids s ∧ in_flight_fetches s2 = in_flight_fetches s.
Proof.
  intros Hids Hnew Hget. unfold get_next_mult_txn in Hget.
  destruct (check_writer c); [|done].
  destruct (load_next_mult_spec s ids Hids) as (s1' & Hl & Hu & Hf). rewrite Hl in Hget. cbn in Hget.
  injection Hget as <- <-. cbn [allocated]. split; [done|]. split; [done|].
  destruct (mark_ids_as_finished_total c s1' ids Hids) as (s2 & Hm & Hu2 & Hf2).
  assert (unfinished_ids s2 = unfinished_ids s) as Hu3.
  { rewrite Hu2, Hu. apply leibniz_equiv. intros i. specialize (Hnew i). set_solver. }
  destruct failed; cbn [call_on_exception call_after].
  - exists s2, tbl. cbn. rewrite Hm. cbn. split_and!; [done|done|congruence].
  - destruct (bool_decide (writers c = [])); cbn; rewrite Hm; cbn; do 2 eexists;
      split_and!; [done|done|congruence|done|done|congruence].
Qed.

(** ** Starting while another instance writes *)

Definition ab : list string := ["a"; "b"].

(** Executes a run from the empty world with two writers. *)
Definition run (l : list action) : world := default (initial_world 1) (exec_all ab true true (initial_world 1) l).

Lemma run_reachable l :
  (if exec_all ab true true (initial_world 1) l is Some _ then true else false) = true →
  reachable ab true (run l).
Proof.
  intros H. unfold run. destruct (exec_all _ _ _ _) as [W|] eqn:E; [|done]. exists 1. split; [lia|].
  eapply exec_all_run; [|exact E]. intros ???. apply exec_quiet.
Qed.

Definition write (w : string) (i : Z) : list action :=
  [Request w; Allocate w 1; Record w; End w; Commit w i; Finish w [i]; Update w; Announce w].

(** ["b"] writes 2, all positions are stored and sent around, ["b"] begins to
    write 3, and ["a"] dies. *)
Definition before_restart : list action :=
  [Start "a"; Start "b"; Start "c"] ++ write "b" 2
  ++ [Deliver "b" 2 "a"; Deliver "b" 2 "c"; Update "a"; Announce "a"; Deliver "a" 2 "c";
      Request "b"; Allocate "b" 1; Record "b"; End "b"; Crash "a"].

Definition gen_of (W : world) (w : string) : id_gen :=
  match nodes W !! w with Some n => n_gen n | None => blank_gen end.

Definition started (W : world) (w : string) : id_gen :=
  match new_id_gen (cfg ab true w) true (db W) with (_, Ok g) => g | (_, Raise _) => blank_gen end.

Example tokens_before_restart :
  get_current_token (cfg ab true "c") (gen_of (run before_restart) "c") = 2 ∧
  get_current_token (cfg ab true "a") (started (run before_restart) "a") = 2 ∧
  get_current_token_for_writer (cfg ab true "a") (started (run before_restart) "a") "a" = 3.
Proof. vm_compute. done. Qed.

(** It is needed that no process starts while the last id is being written.  Here all
    writers have a position in the database and ["b"] is writing 3; ["a"] starts, takes the
    last value of the sequence as its own position and announces it; and ["c"], hearing
    that, moves its current token to the id that ["b"] is still writing. *)
Definition after_restart : world :=
  default (initial_world 1) (exec_all ab true false (initial_world 1) (before_restart ++ [Start "a"; Announce "a"; Deliver "a" 3 "c"])).
Theorem start_while_writing_unsafe :
  rtc (step ab true) (initial_world 1) after_restart ∧ uncommitted after_restart !! 3 = Some "b" ∧
  get_current_token (cfg ab true "c") (gen_of (run before_restart) "c") = 2 ∧
  get_current_token (cfg ab true "c") (gen_of after_restart "c") = 3.
Proof.
  assert ((if exec_all ab true false (initial_world 1) (before_restart ++ [Start "a"; Announce "a"; Deliver "a" 3 "c"]) is Some _ then true else false) = true) as H
    by (vm_compute; reflexivity).
  split; [|split_and!; vm_compute; reflexivity]. unfold after_restart. destruct (exec_all _ _ _ _ _) as [W|] eqn:E; [|done].
  eapply exec_all_run; [|exact E]. intros ???. apply exec_step.
Qed.

(** The rows of a negative stream are read in the wrong order: the position of
    the instance ends at its first id instead of its last. *)
Example negative_rows_in_wrong_order :
  let load p := current_positions (foldl (load_row (GenConfig "a" ["a"] p)) blank_gen
    (py_sorted (λ r r', r.2 <=? r'.2)
       [(Some "a", if p then 2 else -2); (Some "a", if p then 3 else -3)])) !! "a" in
  load true = Some 3 ∧ load false = Some 2.
Proof. vm_compute. done. Qed.

(** ** Witnesses *)

Definition both_up : world := run [Start "a"; Start "b"].
Definition b_writing : list action := [Request "b"; Allocate "b" 1; Record "b"; End "b"].

Lemma both_up_reachable : reachable ab true both_up.
Proof. apply run_reachable. vm_compute. reflexivity. Qed.

Definition during : world := default both_up (exec_all ab true true both_up b_writing).

Lemma during_run : rtc (quiet_step ab true) both_up during.
Proof.
  assert ((if exec_all ab true true both_up b_writing is Some _ then true else false) = true) as H
    by (vm_compute; reflexivity).
  unfold during. destruct (exec_all ab true true both_up b_writing) eqn:E; [|done].
  eapply exec_all_run; [|exact E]. intros ???. apply exec_quiet.
Qed.

Lemma both_up_node w : w ∈ ab → nodes both_up !! w = Some (Node (gen_of both_up w) []).
Proof. unfold ab. intros [->|[->|[]%elem_of_nil]%elem_of_cons]%elem_of_cons; vm_compute; reflexivity. Qed.

Example current_token_means_persisted_witness :
  rf ab true * get_current_token (cfg ab true "a") (gen_of both_up "a") < 2.
Proof.
  apply (current_token_means_persisted ab true both_up during "a" (gen_of both_up "a") [] 2 "b").
  - exact both_up_reachable.
  - apply both_up_node. by left.
  - exact during_run.
  - vm_compute. reflexivity.
Defined.

Example writer_token_means_persisted_witness :
  rf ab true * get_current_token_for_writer (cfg ab true "a") (gen_of both_up "a") "b" < 2.
Proof.
  apply (writer_token_means_persisted ab true both_up during "a" (gen_of both_up "a") [] "b" 2).
  - exact both_up_reachable.
  - apply both_up_node. by left.
  - exact during_run.
  - vm_compute. reflexivity.
Defined.

Example positions_never_go_back_witness :
  ahead (gen_of both_up "b") (begin_fetch (gen_of both_up "b")).1.
Proof.
  apply (positions_never_go_back ab true both_up
    (set_node both_up "b" (Node (begin_fetch (gen_of both_up "b")).1
       [Fetch (begin_fetch (gen_of both_up "b")).2 Requested]))
    "b" (gen_of both_up "b") [] _ [Fetch (begin_fetch (gen_of both_up "b")).2 Requested]).
  - apply (step_request ab true both_up "b" (gen_of both_up "b") []).
    + apply both_up_node. by right; left.
    + reflexivity.
    + by right; left.
    + reflexivity.
  - apply both_up_node. by right; left.
  - apply lookup_insert_eq.
Defined.

Lemma both_up_idle w n : nodes both_up !! w = Some n → busy (n_gen n) = false.
Proof.
  intros Hn. assert (w ∈ ab) as Hw.
  { assert (is_Some (nodes both_up !! w)) as Hs by by eexists.
    apply elem_of_dom in Hs. apply elem_of_elements in Hs. revert Hs.
    replace (elements (dom (nodes both_up))) with ab by (vm_compute; reflexivity). done. }
  rewrite (both_up_node w Hw) in Hn. injection Hn as <-. revert Hw. unfold ab.
  intros [->|[->|[]%elem_of_nil]%elem_of_cons]%elem_of_cons; vm_compute; reflexivity.
Qed.

(** After ["b"] has written 2 *)
Definition b_wrote : world := run ([Start "a"; Start "b"; Start "c"] ++ write "b" 2).
Definition abc : list string := ["c"; "a"; "b"].
Definition abc_round : list (string * string) := [("b", "c"); ("a", "b"); ("a", "c"); ("b", "a")].
Lemma b_wrote_node w n : nodes b_wrote !! w = Some n → w ∈ abc ∧ n = Node (gen_of b_wrote w) [].
Proof.
  intros Hn. assert (w ∈ abc) as Hw.
  { assert (is_Some (nodes b_wrote !! w)) as Hs by by eexists. apply elem_of_dom, elem_of_elements in Hs. revert Hs.
    replace (elements (dom (nodes b_wrote))) with abc by (vm_compute; reflexivity). done. }
  split; [done|]. revert Hn. unfold gen_of. revert Hw. unfold abc.
  intros [->|[->|[->|[]%elem_of_nil]%elem_of_cons]%elem_of_cons]%elem_of_cons Hn; rewrite Hn; vm_compute in Hn; by injection Hn as <-.
Qed.
Lemma b_wrote_round : round ab b_wrote abc_round.
Proof.
  intros v u. assert (is_Some (nodes b_wrote !! u) ↔ u ∈ abc) as ->.
  { split; [by intros [n [? _]%b_wrote_node]|]. unfold abc. intros [->|[->|[->|[]%elem_of_nil]%elem_of_cons]%elem_of_cons]%elem_of_cons; vm_compute; by eexists. }
  unfold abc, ab, abc_round. rewrite !elem_of_cons, !elem_of_nil. naive_solver.
Qed.

Example tokens_catch_up_witness :
  get_current_token (cfg ab true "c") (gen_of b_wrote "c") = 1 ∧
  get_current_token (cfg ab true "c") (gen_of (tell_all ab true b_wrote (abc_round ++ abc_round ++ abc_round)) "c") = 2 ∧
  rtc (replication ab true) b_wrote (tell_all ab true b_wrote (abc_round ++ abc_round ++ abc_round)).
Proof.
  split; [vm_compute; reflexivity|]. split; [vm_compute; reflexivity|].
  apply (tokens_catch_up ab true b_wrote "a" "b" abc_round abc_round abc_round).
  - apply run_reachable. vm_compute. reflexivity.
  - intros w n [Hw ->]%b_wrote_node. revert Hw. unfold abc. intros [->|[->|[->|[]%elem_of_nil]%elem_of_cons]%elem_of_cons]%elem_of_cons; vm_compute; reflexivity.
  - unfold ab. intros v [->|[->|[]%elem_of_nil]%elem_of_cons]%elem_of_cons; vm_compute; by eexists.
  - by left.
  - by right; left.
  - done.
  - apply b_wrote_round.
  - apply b_wrote_round.
  - apply b_wrote_round.
Defined.

Example allocated_ids_get_finished_witness :
  ∃ s2 tbl2,
    py_fold (run_callback (cfg ab true "b"))
      ((get_next_mult_txn (cfg ab true "b") (gen_of both_up "b") (Ok [2; 3])).1, ∅)
      [MarkIdsAsFinished [2; 3]; NotifyReplication; UpdateTable] = Ok (s2, tbl2) ∧
    unfinished_ids s2 = ∅ ∧ in_flight_fetches s2 = [].
Proof.
  destruct (allocated_ids_get_finished (cfg ab true "b") (gen_of both_up "b") [2; 3]
    (get_next_mult_txn (cfg ab true "b") (gen_of both_up "b") (Ok [2; 3])).1
    (Allocation [2; 3] [MarkIdsAsFinished [2; 3]; NotifyReplication; UpdateTable] [MarkIdsAsFinished [2; 3]])
    ∅ false) as (_ & _ & s2 & tbl2 & H1 & H2 & H3).
  - done.
  - replace (unfinished_ids (gen_of both_up "b")) with (∅ : gset Z) by (vm_compute; reflexivity).
    intros i _. apply not_elem_of_empty.
  - vm_compute. reflexivity.
  - exists s2, tbl2. split; [exact H1|].
    replace (unfinished_ids (gen_of both_up "b")) with (∅ : gset Z) in H2 by (vm_compute; reflexivity).
    replace (in_flight_fetches (gen_of both_up "b")) with (@nil Z) in H3 by (vm_compute; reflexivity).
    split; [exact H2|exact H3].
Defined.
