(* ===== verification/WheelTimer.v ===== *)
(** * Timers: [synapse/util/wheel_timer.py]

    Objects are filed in buckets by the time they are due.  The theorems: the
    list of buckets stays contiguous, so that inserting finds its bucket; an
    object is returned by the first fetch after its time; but it can be returned
    before its time.

    Times are milliseconds; [int(t / bucket_size)] divides floating point numbers
    and truncates, which for times of less than 2 ^ 50 and buckets of at most
    2 ^ 13 milliseconds is the truncated quotient of the integers. *)

From S2P Require Import Prelude.

Open Scope Z_scope.

Section WheelTimer.
Context {T : Type} `{Countable T}.

(** [_Entry] *)
Record Entry : Type := MkEntry { end_key : Z; entry_elements : gset T }.

Record WheelTimer : Type := MkTimer { bucket_size : Z; entries : list Entry }.

Definition new_timer (bucket_size : Z) : WheelTimer := MkTimer bucket_size [].

(** [int(t / self.bucket_size)] *)
Definition key_of (w : WheelTimer) (t : Z) : py Z :=
  raise_if (bucket_size w =? 0) ZeroDivisionError ;; Ok (t `quot` bucket_size w).

(** [self.entries[i].elements.add(obj)] for an index that is not negative *)
Definition add_at (l : list Entry) (i : nat) (obj : T) : py (list Entry) :=
  match l !! i with
  | Some e => Ok (<[i := MkEntry (end_key e) ({[obj]} ∪ entry_elements e)]> l)
  | None => Raise IndexError
  end.

(** [self.entries.extend(_Entry(key) for key in range(last_key, then_key + 1))]
    and [self.entries[-1].elements.add(obj)] *)
Definition extend_and_add (l : list Entry) (last_key then_key : Z) (obj : T) : py (list Entry) :=
  let l := l ++ map (λ k, MkEntry k ∅) (seqZ last_key (then_key + 1 - last_key)) in
  match l with
  | [] => Raise IndexError
  | _ => add_at l (length l - 1) obj
  end.

Definition timer_insert (w : WheelTimer) (now : Z) (obj : T) (then_ : Z) : py WheelTimer :=
  then_key ← key_of w then_;
  let then_key := then_key + 1 in
  now_key ← key_of w now;
  MkTimer (bucket_size w) <$>
    match head (entries w), last (entries w) with
    | Some first, Some last =>
        let min_key := end_key first in
        let max_key := end_key last in
        if then_key <=? max_key
        then add_at (entries w) (Z.to_nat (Z.max min_key then_key - min_key)) obj
        else extend_and_add (entries w) max_key (Z.max max_key then_key) obj
    | _, _ =>
        let next_key := now_key + 1 in
        extend_and_add (entries w) next_key (Z.max next_key then_key) obj
    end.

(** The loop of [fetch] *)
Fixpoint pop_until (l : list Entry) (now_key : Z) : list T * list Entry :=
  match l with
  | e :: rest =>
      if end_key e <=? now_key then
        let '(ret, l') := pop_until rest now_key in (elements (entry_elements e) ++ ret, l')
      else ([], l)
  | [] => ([], [])
  end.

Definition timer_fetch (w : WheelTimer) (now : Z) : py (list T * WheelTimer) :=
  now_key ← key_of w now;
  let '(ret, l) := pop_until (entries w) now_key in
  Ok (ret, MkTimer (bucket_size w) l).

(** [__len__] *)
Definition timer_len (w : WheelTimer) : nat :=
  foldr (λ e n, (size (entry_elements e) + n)%nat) 0%nat (entries w).

(** ** The buckets are contiguous *)

Definition contiguous (l : list Entry) : Prop :=
  ∀ i a b, l !! i = Some a → l !! S i = Some b → end_key a ≤ end_key b ≤ end_key a + 1.

Lemma contiguous_app l1 l2 :
  contiguous l1 → contiguous l2 →
  (∀ a b, last l1 = Some a → head l2 = Some b → end_key a ≤ end_key b ≤ end_key a + 1) →
  contiguous (l1 ++ l2).
Proof.
  intros H1 H2 H12 i a b Ha Hb. destruct (decide (S i < length l1)%nat) as [Hlt|Hge].
  - rewrite lookup_app_l in Ha, Hb by lia. by eapply H1.
  - rewrite (lookup_app_r l1 l2 (S i)) in Hb by lia.
    destruct (decide (i < length l1)%nat) as [Hlt|Hge'].
    + rewrite lookup_app_l in Ha by lia. replace (S i - length l1)%nat with 0%nat in Hb by lia.
      apply H12; [|by destruct l2]. rewrite last_lookup. by replace (pred (length l1)) with i by lia.
    + rewrite lookup_app_r in Ha by lia. replace (S i - length l1)%nat with (S (i - length l1)) in Hb by lia.
      by eapply H2.
Qed.

Lemma contiguous_range a n : contiguous (map (λ k, MkEntry k ∅) (seqZ a n)).
Proof.
  intros i x y Hx Hy. rewrite list_lookup_fmap in Hx, Hy.
  apply fmap_Some in Hx as (k & Hk & ->). apply fmap_Some in Hy as (k' & Hk' & ->).
  apply lookup_seqZ in Hk as [-> ?], Hk' as [-> ?]. cbn. lia.
Qed.

(** Only the elements of a bucket change. *)
Lemma add_at_keys l i obj l' : add_at l i obj = Ok l' → map end_key l' = map end_key l.
Proof.
  unfold add_at. destruct (l !! i) as [e|] eqn:E; [|done]. intros Ha. py_inv.
  change (map end_key) with (fmap (M := list) end_key). rewrite list_fmap_insert. cbn.
  apply list_insert_id. by rewrite list_lookup_fmap, E.
Qed.

Lemma contiguous_keys l l' : map end_key l' = map end_key l → contiguous l → contiguous l'.
Proof.
  intros E Hc i a b Ha Hb.
  assert (∀ j x, l' !! j = Some x → ∃ y, l !! j = Some y ∧ end_key y = end_key x) as Hl.
  { intros j x Hx. apply (f_equal (λ l : list Z, l !! j)) in E.
    change (map end_key) with (fmap (M := list) end_key) in E. rewrite !list_lookup_fmap, Hx in E. cbn in E.
    destruct (l !! j) as [y|]; cbn in E; [|done]. injection E as E. eauto. }
  destruct (Hl i a Ha) as (a' & Ha' & <-), (Hl (S i) b Hb) as (b' & Hb' & <-). by eapply Hc.
Qed.

(** Keys grow from the first bucket by at most one at each index. *)
Lemma contiguous_bounds l e0 i e :
  contiguous l → head l = Some e0 → l !! i = Some e → end_key e0 ≤ end_key e ≤ end_key e0 + Z.of_nat i.
Proof.
  intros Hc He0. revert e. induction i as [|i IH]; intros e He.
  - destruct l; [done|]. cbn in *. simplify_eq. lia.
  - destruct (l !! i) as [e'|] eqn:E.
    + specialize (IH e' eq_refl). pose proof (Hc i e' e E He). lia.
    + apply lookup_ge_None in E. apply lookup_lt_Some in He. lia.
Qed.

Lemma contiguous_tail e l : contiguous (e :: l) → contiguous l.
Proof. intros Hc i a b Ha Hb. by apply (Hc (S i)). Qed.

(** ** Operations *)

Inductive timer_op : Type :=
  | Insert (now : Z) (obj : T) (then_ : Z)
  | Fetch (now : Z).

Definition op_time (o : timer_op) : Z := match o with Insert now _ _ | Fetch now => now end.

Definition run_op (w : WheelTimer) (o : timer_op) : py (list T * WheelTimer) :=
  match o with
  | Insert now obj then_ => w' ← timer_insert w now obj then_; Ok ([], w')
  | Fetch now => timer_fetch w now
  end.

(** Everything a sequence of operations returns, and the timer after it *)
Fixpoint run_ops (w : WheelTimer) (l : list timer_op) : py (list T * WheelTimer) :=
  match l with
  | [] => Ok ([], w)
  | o :: l => '(out, w1) ← run_op w o; '(out', w2) ← run_ops w1 l; Ok (out ++ out', w2)
  end.

(** The buckets are in order, and at time [t] the first is due at the next tick at
    the latest. *)
Definition timer_ok (t : Z) (w : WheelTimer) : Prop :=
  0 < bucket_size w ∧ contiguous (entries w) ∧
  ∀ e, head (entries w) = Some e → end_key e ≤ t `quot` bucket_size w + 1.

(** [obj] is filed under a key of at most [k]. *)
Definition due (w : WheelTimer) (obj : T) (k : Z) : Prop :=
  ∃ e, e ∈ entries w ∧ obj ∈ entry_elements e ∧ end_key e ≤ k.

Lemma key_of_Ok w t : 0 < bucket_size w → key_of w t = Ok (t `quot` bucket_size w).
Proof. intros Hb. unfold key_of. by rewrite (proj2 (Z.eqb_neq _ _)) by lia. Qed.

Lemma head_lookup {A} (l : list A) : head l = l !! 0%nat.
Proof. by destruct l. Qed.

(** What inserting changes: one bucket gets the object, and buckets are added. *)
Lemma add_at_spec l i obj e :
  l !! i = Some e → ∃ l', add_at l i obj = Ok l' ∧ map end_key l' = map end_key l ∧
    (∃ e', e' ∈ l' ∧ obj ∈ entry_elements e' ∧ end_key e' = end_key e) ∧
    ∀ x ex, ex ∈ l → x ∈ entry_elements ex → ∃ ex', ex' ∈ l' ∧ x ∈ entry_elements ex' ∧ end_key ex' = end_key ex.
Proof.
  intros He. destruct (add_at l i obj) as [l'|] eqn:E; unfold add_at in E; rewrite He in E; [|done].
  exists l'. split; [done|]. assert (add_at l i obj = Ok l') as Ha by (unfold add_at; by rewrite He).
  split; [by eapply add_at_keys|]. py_inv.
  assert (i < length l)%nat as Hi by by eapply lookup_lt_Some.
  split.
  - eexists. split; [eapply list_elem_of_lookup_2; by apply list_lookup_insert_eq|]. set_solver.
  - intros x ex Hex Hx. apply list_elem_of_lookup in Hex as [j Hj].
    destruct (decide (i = j)) as [<-|Hne].
    + rewrite He in Hj. injection Hj as <-.
      eexists. split; [eapply list_elem_of_lookup_2; by apply list_lookup_insert_eq|]. set_solver.
    + exists ex. split; [|done]. eapply list_elem_of_lookup_2. by rewrite list_lookup_insert_ne.
Qed.

Lemma extend_spec l last_key then_key obj :
  contiguous l → last_key ≤ then_key →
  (∀ a, last l = Some a → end_key a = last_key) →
  ∃ l', extend_and_add l last_key then_key obj = Ok l' ∧ contiguous l' ∧
    (∀ e, head l' = Some e → match head l with Some e0 => end_key e = end_key e0 | None => end_key e = last_key end) ∧
    (∃ e', e' ∈ l' ∧ obj ∈ entry_elements e' ∧ end_key e' = then_key) ∧
    ∀ x ex, ex ∈ l → x ∈ entry_elements ex → ∃ ex', ex' ∈ l' ∧ x ∈ entry_elements ex' ∧ end_key ex' = end_key ex.
Proof.
  intros Hc Hle Hlast. unfold extend_and_add.
  set (new := map (λ k, MkEntry k ∅) (seqZ last_key (then_key + 1 - last_key))).
  assert (length new = Z.to_nat (then_key + 1 - last_key)) as Hlen.
  { unfold new. by rewrite length_map, length_seqZ. }
  assert (contiguous (l ++ new)) as Hc2.
  { apply contiguous_app; [done|apply contiguous_range|]. intros a b Ha Hb. apply Hlast in Ha.
    rewrite head_lookup in Hb. unfold new in Hb. change (map (λ k, MkEntry k ∅)) with (fmap (M := list) (λ k, MkEntry k ∅)) in Hb.
    rewrite list_lookup_fmap in Hb. apply fmap_Some in Hb as (k & Hk & ->). apply lookup_seqZ in Hk as [-> _].
    cbn. lia. }
  assert ((l ++ new) !! (length (l ++ new) - 1)%nat = Some (MkEntry then_key ∅)) as Hl.
  { rewrite length_app, Hlen. rewrite lookup_app_r by lia.
    replace (length l + Z.to_nat (then_key + 1 - last_key) - 1 - length l)%nat
      with (Z.to_nat (then_key - last_key)) by lia.
    unfold new. change (map (λ k, MkEntry k ∅)) with (fmap (M := list) (λ k, MkEntry k ∅)).
    rewrite list_lookup_fmap. rewrite (proj2 (lookup_seqZ last_key (then_key + 1 - last_key)
      (Z.to_nat (then_key - last_key)) then_key)); [done|]. lia. }
  assert (l ++ new ≠ []) as Hne.
  { intros E. apply (f_equal length) in E. rewrite length_app, Hlen in E. cbn in E. lia. }
  destruct (add_at_spec (l ++ new) (length (l ++ new) - 1) obj _ Hl) as (l' & Ha & Hk & Ho & Hkeep).
  exists l'. split; [destruct (l ++ new); done|].
  split; [by eapply contiguous_keys|]. split; [|split].
  - intros e He. destruct l as [|e0 l]; cbn [app head] in *.
    + destruct new as [|n0 new'] eqn:En; [cbn in Hlen; lia|].
      destruct l' as [|e' l']; [done|]. cbn in He, Hk. injection He as ->. injection Hk as -> _.
      assert (head new = Some n0) as Hn by by rewrite En.
      rewrite head_lookup in Hn. unfold new in Hn.
      change (map (λ k, MkEntry k ∅)) with (fmap (M := list) (λ k, MkEntry k ∅)) in Hn.
      rewrite list_lookup_fmap in Hn. apply fmap_Some in Hn as (k & Hk' & ->).
      apply lookup_seqZ in Hk' as [-> _]. cbn. lia.
    + destruct l' as [|e' l']; [done|]. cbn in He, Hk. injection He as ->. by injection Hk as -> _.
  - done.
  - intros x ex Hex. apply Hkeep. apply elem_of_app. by left.
Qed.

Lemma timer_insert_spec t w now obj then_ :
  timer_ok t w → t ≤ now →
  ∃ w', timer_insert w now obj then_ = Ok w' ∧ timer_ok now w' ∧ bucket_size w' = bucket_size w ∧
    due w' obj (Z.max (then_ `quot` bucket_size w + 1) (now `quot` bucket_size w + 1)) ∧
    ∀ x k, due w x k → due w' x k.
Proof.
  intros (Hb & Hc & Hf) Ht. unfold timer_insert. rewrite !key_of_Ok by done. cbn [mbind py_bind].
  set (bs := bucket_size w) in *. set (tk := then_ `quot` bs + 1). set (nk := now `quot` bs).
  assert (t `quot` bs ≤ nk) as Htn by (apply Z.quot_le_mono; lia).
  assert (∀ l', contiguous l' →
    (∀ e, head l' = Some e → end_key e ≤ nk + 1) →
    (∃ e', e' ∈ l' ∧ obj ∈ entry_elements e' ∧ end_key e' ≤ Z.max tk (nk + 1)) →
    (∀ x ex, ex ∈ entries w → x ∈ entry_elements ex →
       ∃ ex', ex' ∈ l' ∧ x ∈ entry_elements ex' ∧ end_key ex' = end_key ex) →
    ∃ w', MkTimer bs <$> Ok l' = Ok w' ∧ timer_ok now w' ∧ bucket_size w' = bs ∧
      due w' obj (Z.max tk (nk + 1)) ∧ ∀ x k, due w x k → due w' x k) as Hdone.
  { intros l' H1 H2 (e' & He' & Ho & Hk) H4. exists (MkTimer bs l'). split; [done|].
    split; [done|]. split; [done|]. split; [by exists e'|].
    intros x k (ex & Hex & Hx & Hle). destruct (H4 x ex Hex Hx) as (ex' & ? & ? & ?).
    exists ex'. split_and!; [done|done|cbn; lia]. }
  destruct (entries w) as [|e0 l] eqn:El.
  - destruct (extend_spec [] (nk + 1) (Z.max (nk + 1) tk) obj Hc ltac:(lia)) as (l' & Ha & H1 & H2 & (e' & ? & ? & ?) & H4); [done|].
    cbn [head last]. rewrite Ha. apply Hdone; [done| | |done].
    + intros e He. rewrite (H2 e He). lia.
    + exists e'. split_and!; [done|done|lia].
  - rewrite <- El in *. destruct (last (entries w)) as [en|] eqn:Elast.
    2:{ apply last_None in Elast. congruence. }
    assert (head (entries w) = Some e0) as Hhead by by rewrite El. rewrite Hhead.
    assert (end_key e0 ≤ nk + 1) as Hmin by (specialize (Hf e0 Hhead); lia).
    rewrite last_lookup in Elast. set (n := pred (length (entries w))) in *.
    pose proof (contiguous_bounds _ _ _ _ Hc Hhead Elast) as Hbn.
    destruct (tk <=? end_key en) eqn:Ele; to_prop.
    + set (i := Z.to_nat (Z.max (end_key e0) tk - end_key e0)).
      assert (i < length (entries w))%nat as Hi.
      { subst i n. destruct (entries w); [done|]. cbn [length] in *. lia. }
      destruct (lookup_lt_is_Some_2 _ _ Hi) as [e He].
      pose proof (contiguous_bounds _ _ _ _ Hc Hhead He) as Hbe.
      destruct (add_at_spec _ _ obj _ He) as (l' & Ha & Hk & (e' & ? & ? & ?) & Hkeep). rewrite Ha.
      apply Hdone; [by eapply contiguous_keys| | |done].
      * intros x Hx. rewrite El in Hk. destruct l' as [|y l']; [done|]. cbn in Hx, Hk.
        injection Hx as ->. injection Hk as -> _. lia.
      * exists e'. split_and!; [done|done|]. subst i. lia.
    + destruct (extend_spec (entries w) (end_key en) (Z.max (end_key en) tk) obj Hc ltac:(lia))
        as (l' & Ha & H1 & H2 & (e' & ? & ? & ?) & H4).
      { intros a Hl. rewrite last_lookup in Hl. fold n in Hl. congruence. }
      rewrite Ha. apply Hdone; [done| | |done].
      * intros x Hx. specialize (H2 x Hx). rewrite Hhead in H2. lia.
      * exists e'. split_and!; [done|done|lia].
Qed.

Lemma pop_until_spec l nk :
  contiguous l →
  let '(ret, l') := pop_until l nk in
  contiguous l' ∧
  (∀ e, head l' = Some e → nk < end_key e ∧ (head l = Some e ∨ end_key e ≤ nk + 1)) ∧
  ∀ x e, e ∈ l → x ∈ entry_elements e → (end_key e ≤ nk ∧ x ∈ ret) ∨ e ∈ l'.
Proof.
  induction l as [|e0 l IH]; intros Hc; cbn [pop_until].
  { split_and!; [done|done|]. intros x e He. inversion He. }
  destruct (end_key e0 <=? nk) eqn:E; to_prop.
  - specialize (IH (contiguous_tail _ _ Hc)). destruct (pop_until l nk) as [ret l'].
    destruct IH as (H1 & H2 & H3). split_and!; [done| |].
    + intros e He. destruct (H2 e He) as [? [Hh|?]]; [|auto]. split; [done|]. right.
      destruct l as [|e1 l]; [done|]. cbn in Hh. injection Hh as <-.
      pose proof (Hc 0%nat e0 e1 eq_refl eq_refl). lia.
    + intros x e [->|He]%elem_of_cons Hx.
      * left. split; [done|]. apply elem_of_app. left. by apply elem_of_elements.
      * destruct (H3 x e He Hx) as [[? ?]|?]; [left|by right]. split; [done|]. apply elem_of_app. by right.
  - split_and!; [done| |].
    + intros e [= <-]. split; [lia|by left].
    + intros x e He Hx. by right.
Qed.

Lemma timer_fetch_spec t w now :
  timer_ok t w → t ≤ now →
  ∃ ret w', timer_fetch w now = Ok (ret, w') ∧ timer_ok now w' ∧ bucket_size w' = bucket_size w ∧
    ∀ x k, due w x k → x ∈ ret ∨ due w' x k ∧ now `quot` bucket_size w < k.
Proof.
  intros (Hb & Hc & Hf) Ht. unfold timer_fetch. rewrite key_of_Ok by done. cbn [mbind py_bind].
  pose proof (pop_until_spec (entries w) (now `quot` bucket_size w) Hc) as Hp.
  destruct (pop_until _ _) as [ret l'] eqn:E. destruct Hp as (H1 & H2 & H3).
  exists ret, (MkTimer (bucket_size w) l'). split; [done|]. split; [|split; [done|]].
  - split; [done|]. split; [done|]. cbn. intros e He. destruct (H2 e He) as [_ [Hh|?]]; [|done].
    specialize (Hf e Hh). assert (t `quot` bucket_size w ≤ now `quot` bucket_size w); [|lia].
    apply Z.quot_le_mono; lia.
  - intros x k (e & He & Hx & Hk). destruct (H3 x e He Hx) as [[_ ?]|He']; [by left|right].
    split; [by exists e|]. destruct l' as [|e1 l1]; [inversion He'|].
    destruct (H2 e1 eq_refl) as [Hlt _]. apply list_elem_of_lookup in He' as [i Hi].
    pose proof (contiguous_bounds _ e1 i e H1 eq_refl Hi). lia.
Qed.

Definition in_time (t : Z) (l : list timer_op) : Prop := Forall (λ o, t ≤ op_time o) l ∧ StronglySorted Z.le (map op_time l).

Lemma in_time_cons t o l : in_time t (o :: l) → t ≤ op_time o ∧ in_time (op_time o) l.
Proof.
  intros [Hf Hs]. cbn in *. apply Forall_cons in Hf as [? _]. apply StronglySorted_inv in Hs as [Hs Ho].
  split; [done|]. split; [|done]. by rewrite Forall_map in Ho.
Qed.

(** No operation raises, and what is due stays so until it is returned. *)
Lemma run_ops_spec l t w :
  timer_ok t w → in_time t l →
  ∃ out w', run_ops w l = Ok (out, w') ∧ timer_ok (default t (last (map op_time l))) w' ∧
    bucket_size w' = bucket_size w ∧ ∀ x k, due w x k → x ∈ out ∨ due w' x k.
Proof.
  revert t w. induction l as [|o l IH]; intros t w Hw Hl.
  { exists [], w. cbn. split_and!; [done|done|done|by right]. }
  apply in_time_cons in Hl as [Ho Hl].
  assert (∃ out w1, run_op w o = Ok (out, w1) ∧ timer_ok (op_time o) w1 ∧ bucket_size w1 = bucket_size w ∧
    ∀ x k, due w x k → x ∈ out ∨ due w1 x k) as (out & w1 & Hr & Hok & Hbs & Hdue).
  { destruct o as [now obj then_|now]; cbn [run_op op_time] in *.
    - destruct (timer_insert_spec t w now obj then_ Hw Ho) as (w1 & Hi & ? & ? & _ & ?).
      rewrite Hi. cbn. exists [], w1. split_and!; [done|done|done|]. intros x k Hx. right. auto.
    - destruct (timer_fetch_spec t w now Hw Ho) as (ret & w1 & Hi & ? & ? & Hd).
      rewrite Hi. exists ret, w1. split_and!; [done|done|done|]. intros x k Hx.
      destruct (Hd x k Hx) as [?|[? _]]; auto. }
  destruct (IH (op_time o) w1 Hok Hl) as (out' & w2 & Hr2 & Hok2 & Hbs2 & Hdue2).
  exists (out ++ out'), w2. cbn [run_ops]. rewrite Hr. cbn. rewrite Hr2. cbn. split_and!; [done| |congruence|].
  - destruct l as [|o' l]; [done|]. cbn [map] in *. rewrite last_cons_cons.
    destruct (last (op_time o' :: map op_time l)) eqn:E; [done|]. by apply last_None in E.
  - intros x k Hx. rewrite elem_of_app. destruct (Hdue x k Hx) as [?|Hx1]; [auto|].
    destruct (Hdue2 x k Hx1); auto.
Qed.

Lemma new_timer_ok bs t : 0 < bs → timer_ok t (new_timer bs).
Proof. intros Hb. split_and!; [done| |done]. intros i a b Ha. done. Qed.

Lemma run_ops_app w l1 l2 :
  run_ops w (l1 ++ l2) =
    '(out, w1) ← run_ops w l1; '(out', w2) ← run_ops w1 l2; Ok (out ++ out', w2).
Proof.
  revert w. induction l1 as [|o l1 IH]; intros w; cbn.
  - destruct (run_ops w l2) as [[? ?]|]; done.
  - destruct (run_op w o) as [[out w1]|]; [|done]. cbn. rewrite IH.
    destruct (run_ops w1 l1) as [[? w2]|]; [|done]. cbn.
    destruct (run_ops w2 l2) as [[? ?]|]; [|done]. cbn. by rewrite (assoc_L (++)).
Qed.

Lemma sorted_app_inv (l1 l2 : list Z) x :
  StronglySorted Z.le (l1 ++ x :: l2) →
  StronglySorted Z.le l1 ∧ StronglySorted Z.le (x :: l2) ∧ ∀ y, y ∈ l1 → y ≤ x.
Proof.
  induction l1 as [|a l1 IH]; cbn; intros Hs.
  - split_and!; [constructor|done|]. intros y Hy. inversion Hy.
  - apply StronglySorted_inv in Hs as [Hs Ha]. destruct (IH Hs) as (H1 & H2 & H3).
    apply Forall_app in Ha as [Ha1 Ha2]. apply Forall_cons in Ha2 as [Hax _]. split_and!; [by constructor|done|].
    intros y [->|?]%elem_of_cons; auto.
Qed.

(** A timer never raises and is never late.  After any operations at times
    that do not go back, an object inserted to be returned after [then_] is
    returned by the time of a fetch whose tick has passed the ticks of [then_] and
    of the insertion. *)
Theorem wheel_timer_never_late bs ops now obj then_ ops' now' :
  0 < bs → StronglySorted Z.le (map op_time (ops ++ Insert now obj then_ :: ops' ++ [Fetch now'])) →
  Z.max (then_ `quot` bs) (now `quot` bs) < now' `quot` bs →
  ∃ out w out' w', run_ops (new_timer bs) ops = Ok (out, w) ∧
    run_ops w (Insert now obj then_ :: ops' ++ [Fetch now']) = Ok (out', w') ∧ obj ∈ out'.
Proof.
  intros Hb Hs Hdue. rewrite map_app in Hs. cbn [map op_time] in Hs.
  apply sorted_app_inv in Hs as (Hs1 & Hs2 & Hle).
  set (t0 := default now (head (map op_time ops))).
  destruct (run_ops_spec ops t0 (new_timer bs)) as (out & w & Hr & Hw & Hbs & _).
  { by apply new_timer_ok. }
  { split; [|done]. subst t0. destruct ops as [|o ops1]; [done|]. cbn in *.
    apply StronglySorted_inv in Hs1 as [_ Ho]. constructor; [lia|]. by rewrite Forall_map in Ho. }
  cbn in Hbs. exists out, w. set (t := default t0 (last (map op_time ops))) in *.
  assert (t ≤ now) as Ht.
  { subst t t0. destruct (last (map op_time ops)) as [x|] eqn:E.
    - apply Hle. rewrite last_lookup in E. by eapply list_elem_of_lookup_2.
    - apply last_None in E. rewrite E. done. }
  destruct (timer_insert_spec t w now obj then_ Hw Ht) as (w1 & Hi & Hw1 & Hbs1 & Hd & _).
  apply StronglySorted_inv in Hs2 as [Hs2 Hnow]. rewrite map_app in Hs2, Hnow. cbn in Hs2, Hnow.
  apply sorted_app_inv in Hs2 as (Hs2 & _ & Hle2).
  apply Forall_app in Hnow as [Hnow Hnow']. apply Forall_cons in Hnow' as [Hnow' _].
  destruct (run_ops_spec ops' now w1 Hw1) as (out2 & w2 & Hr2 & Hw2 & Hbs2 & Hd2).
  { split; [|done]. by rewrite Forall_map in Hnow. }
  set (t2 := default now (last (map op_time ops'))) in *.
  assert (t2 ≤ now') as Ht2.
  { subst t2. destruct (last (map op_time ops')) as [x|] eqn:E; cbn; [|lia].
    apply Hle2. rewrite last_lookup in E. by eapply list_elem_of_lookup_2. }
  destruct (timer_fetch_spec t2 w2 now' Hw2 Ht2) as (ret & w3 & Hf & _ & _ & Hd3).
  exists (out2 ++ ret), w3. split; [done|]. split.
  - cbn [run_ops run_op]. rewrite Hi. cbn [mbind py_bind]. rewrite run_ops_app, Hr2. cbn. rewrite Hf. cbn. by rewrite app_nil_r.
  - apply elem_of_app. destruct (Hd2 _ _ Hd) as [?|Hd']; [by left|right].
    destruct (Hd3 _ _ Hd') as [?|[_ Hlt]]; [done|]. rewrite Hbs2, Hbs1, Hbs in Hlt. lia.
Qed.

End WheelTimer.

(** ** Too early

    When a later bucket is needed, the range of new keys begins with the last key
    there is, so that this key is there twice, and from then on the bucket at an
    index is one tick before the one that is meant. *)

(** Buckets of five seconds.  The third object should be returned after 19.999
    seconds; it is at 15. *)
Example wheel_timer_early :
  ∃ w1 w2 w3 ret, timer_insert (new_timer (T := string) 5000) 0 "a" 5000 = Ok w1 ∧
    timer_insert w1 0 "b" 20000 = Ok w2 ∧ map end_key (entries w2) = [1; 2; 2; 3; 4; 5] ∧
    timer_insert w2 0 "c" 19999 = Ok w3 ∧ timer_fetch w3 15000 = Ok (ret, MkTimer 5000 (drop 4 (entries w3))) ∧
    "c" ∈ ret.
Proof.
  do 4 eexists. split_and!; [vm_compute; reflexivity..|].
  apply list_elem_of_In. cbn. auto.
Qed.

Example wheel_timer_never_late_witness :
  ∃ out w out' w', run_ops (new_timer (T := string) 5000) [Insert 0 "a" 5000] = Ok (out, w) ∧
    run_ops w (Insert 1000 "b" 20000 :: [Fetch 6000] ++ [Fetch 25000]) = Ok (out', w') ∧ "b" ∈ out'.
Proof.
  apply (wheel_timer_never_late 5000 [Insert 0 "a" 5000] 1000 "b" 20000 [Fetch 6000] 25000).
  - reflexivity.
  - cbn. repeat constructor; discriminate.
  - reflexivity.
Defined.
