(* ===== verification/Presence.v ===== *)
(** * Presence: [synapse/api/presence.py] and [synapse/handlers/presence.py]

    Whether users are online: the state of each user is combined from the states
    of their devices, and timers take devices and users offline.  The class
    [PresenceHandler] is the record [handler] with its methods as functions; what
    it stores and sends is part of the record.  A method runs without
    interruption here; [_update_states], which awaits the database in the middle,
    is cut there.  User ids are valid, and the fields of presence received from
    other servers have the types of the specification. *)

From S2P Require Import Prelude WheelTimer Ids.

Open Scope Z_scope.

Module PresenceState.
Definition OFFLINE : string := "offline".
Definition UNAVAILABLE : string := "unavailable".
Definition ONLINE : string := "online".
Definition BUSY : string := "org.matrix.msc3026.busy".
End PresenceState.

Record UserDevicePresenceState : Type := DeviceState {
  ds_user_id : string;
  ds_device_id : option string;
  ds_state : string;
  ds_last_active_ts : Z;
  ds_last_sync_ts : Z;
}.

Definition default_device (user_id : string) (device_id : option string) : UserDevicePresenceState :=
  DeviceState user_id device_id PresenceState.OFFLINE 0 0.

Record UserPresenceState : Type := UserState {
  us_user_id : string;
  us_state : string;
  us_last_active_ts : Z;
  us_last_federation_update_ts : Z;
  us_last_user_sync_ts : Z;
  us_status_msg : option string;
  us_currently_active : bool;
}.

#[export] Instance user_state_eq_dec : EqDecision UserPresenceState.
Proof. solve_decision. Defined.

Definition default_user (user_id : string) : UserPresenceState :=
  UserState user_id PresenceState.OFFLINE 0 0 0 None false.

(** [copy_and_replace] and assignments to attributes *)
Definition set_us_state (s : UserPresenceState) (x : string) : UserPresenceState :=
  UserState (us_user_id s) x (us_last_active_ts s) (us_last_federation_update_ts s)
    (us_last_user_sync_ts s) (us_status_msg s) (us_currently_active s).
Definition set_us_active_ts (s : UserPresenceState) (x : Z) : UserPresenceState :=
  UserState (us_user_id s) (us_state s) x (us_last_federation_update_ts s)
    (us_last_user_sync_ts s) (us_status_msg s) (us_currently_active s).
Definition set_us_federation_ts (s : UserPresenceState) (x : Z) : UserPresenceState :=
  UserState (us_user_id s) (us_state s) (us_last_active_ts s) x
    (us_last_user_sync_ts s) (us_status_msg s) (us_currently_active s).
Definition set_us_sync_ts (s : UserPresenceState) (x : Z) : UserPresenceState :=
  UserState (us_user_id s) (us_state s) (us_last_active_ts s) (us_last_federation_update_ts s)
    x (us_status_msg s) (us_currently_active s).
Definition set_us_status_msg (s : UserPresenceState) (x : option string) : UserPresenceState :=
  UserState (us_user_id s) (us_state s) (us_last_active_ts s) (us_last_federation_update_ts s)
    (us_last_user_sync_ts s) x (us_currently_active s).
Definition set_us_active (s : UserPresenceState) (x : bool) : UserPresenceState :=
  UserState (us_user_id s) (us_state s) (us_last_active_ts s) (us_last_federation_update_ts s)
    (us_last_user_sync_ts s) (us_status_msg s) x.

Definition set_ds_state (d : UserDevicePresenceState) (x : string) : UserDevicePresenceState :=
  DeviceState (ds_user_id d) (ds_device_id d) x (ds_last_active_ts d) (ds_last_sync_ts d).
Definition set_ds_active_ts (d : UserDevicePresenceState) (x : Z) : UserDevicePresenceState :=
  DeviceState (ds_user_id d) (ds_device_id d) (ds_state d) x (ds_last_sync_ts d).
Definition set_ds_sync_ts (d : UserDevicePresenceState) (x : Z) : UserDevicePresenceState :=
  DeviceState (ds_user_id d) (ds_device_id d) (ds_state d) (ds_last_active_ts d) x.

Definition LAST_ACTIVE_GRANULARITY : Z := 60 * 1000.
Definition SYNC_ONLINE_TIMEOUT : Z := 30 * 1000.
Definition BUSY_ONLINE_TIMEOUT : Z := 60 * 60 * 1000.
Definition IDLE_TIMER : Z := 5 * 60 * 1000.
Definition FEDERATION_TIMEOUT : Z := 30 * 60 * 1000.
Definition FEDERATION_PING_INTERVAL : Z := 25 * 60 * 1000.
Definition EXTERNAL_PROCESS_EXPIRY : Z := 5 * 60 * 1000.

Abbreviation wheel := (WheelTimer (T := string)).
Abbreviation devices := (gmap (option string) UserDevicePresenceState).

(** ** The rules *)

Definition PRESENCE_BY_PRIORITY (state : string) : py Z :=
  if decide (state = PresenceState.BUSY) then Ok 4
  else if decide (state = PresenceState.ONLINE) then Ok 3
  else if decide (state = PresenceState.UNAVAILABLE) then Ok 2
  else if decide (state = PresenceState.OFFLINE) then Ok 1
  else Raise KeyError.

(** One round of the loop of [_combine_device_states] *)
Definition combine_device (acc : string * Z) (d : UserDevicePresenceState) : py (string * Z) :=
  p ← PRESENCE_BY_PRIORITY (ds_state d);
  q ← PRESENCE_BY_PRIORITY acc.1;
  Ok (if (q <? p) || ((p =? q) && (acc.2 <? ds_last_active_ts d))
      then (ds_state d, ds_last_active_ts d) else acc).

Definition combine_device_states (device_states : list UserDevicePresenceState) : py string :=
  fst <$> py_fold combine_device (PresenceState.OFFLINE, -1) device_states.

Definition device_values (ds : devices) : list UserDevicePresenceState := map snd (map_to_list ds).

Definition should_notify (old_state new_state : UserPresenceState) : bool :=
  if decide (old_state = new_state) then false
  else if negb (bool_decide (us_status_msg old_state = us_status_msg new_state)) then true
  else if negb (bool_decide (us_state old_state = us_state new_state)) then true
  else if decide (us_state old_state = PresenceState.ONLINE) then
    if negb (bool_decide (us_currently_active new_state = us_currently_active old_state)) then true
    else (LAST_ACTIVE_GRANULARITY <? us_last_active_ts new_state - us_last_active_ts old_state)
         && negb (us_currently_active new_state)
  else LAST_ACTIVE_GRANULARITY <? us_last_active_ts new_state - us_last_active_ts old_state.

(** The body of the loop of [handle_timeout] over the devices: what becomes of the
    device, and whether that is a change *)
Definition timeout_device (user_id : string) (syncing : gset (string * option string)) (now : Z)
    (device_id : option string) (d : UserDevicePresenceState)
    : option UserDevicePresenceState * bool :=
  let idle := bool_decide (ds_state d = PresenceState.ONLINE)
              && (IDLE_TIMER <? now - ds_last_active_ts d) in
  let d := if idle then set_ds_state d PresenceState.UNAVAILABLE else d in
  let sync_or_active := Z.max (ds_last_sync_ts d) (ds_last_active_ts d) in
  let online_timeout :=
    if decide (ds_state d = PresenceState.BUSY) then BUSY_ONLINE_TIMEOUT else SYNC_ONLINE_TIMEOUT in
  let offline := negb (bool_decide ((user_id, device_id) ∈ syncing))
                 && (online_timeout <? now - sync_or_active) in
  (if offline then None else Some d, idle || offline).

Definition handle_timeout (state : UserPresenceState) (is_mine : bool)
    (syncing : gset (string * option string)) (user_devices : devices) (now : Z)
    : py (option UserPresenceState * devices) :=
  if decide (us_state state = PresenceState.OFFLINE) then Ok (None, user_devices)
  else if is_mine then
    let step := timeout_device (us_user_id state) syncing now in
    let device_changed := existsb (λ p, (step p.1 p.2).2) (map_to_list user_devices) in
    let user_devices := map_imap (λ i d, (step i d).1) user_devices in
    new_presence ← (if device_changed then combine_device_states (device_values user_devices)
                    else Ok (us_state state));
    let changed := negb (bool_decide (new_presence = us_state state)) in
    let state := set_us_state state new_presence in
    let changed := changed || (LAST_ACTIVE_GRANULARITY <? now - us_last_active_ts state)
                   || (FEDERATION_PING_INTERVAL <? now - us_last_federation_update_ts state) in
    Ok (if changed then Some state else None, user_devices)
  else
    Ok (if FEDERATION_TIMEOUT <? now - us_last_federation_update_ts state
        then Some (set_us_state state PresenceState.OFFLINE) else None, user_devices).

(** Sequences of [wheel_timer.insert] *)
Definition insert_if (b : bool) (now : Z) (obj : string) (then_ : Z) (w : wheel)
    : py wheel :=
  if b then timer_insert w now obj then_ else Ok w.

Definition handle_update (prev_state new_state : UserPresenceState) (is_mine : bool)
    (wheel_timer : wheel) (now : Z) (persist : bool)
    : py (UserPresenceState * bool * bool * wheel) :=
  let user_id := us_user_id new_state in
  '(new_state, federation_ping, wheel_timer) ←
    (if is_mine then
       '(new_state, wheel_timer) ←
         (if decide (us_state new_state = PresenceState.ONLINE) then
            w ← insert_if (negb persist) now user_id (us_last_active_ts new_state + IDLE_TIMER) wheel_timer;
            let active := now - us_last_active_ts new_state <? LAST_ACTIVE_GRANULARITY in
            let new_state := set_us_active new_state active in
            w ← insert_if (active && negb persist) now user_id
                  (us_last_active_ts new_state + LAST_ACTIVE_GRANULARITY) w;
            Ok (new_state, w)
          else Ok (new_state, wheel_timer));
       '(new_state, federation_ping, wheel_timer) ←
         (if decide (us_state new_state = PresenceState.OFFLINE) then Ok (new_state, false, wheel_timer)
          else
            w ← insert_if (negb persist) now user_id
                  (us_last_user_sync_ts new_state + SYNC_ONLINE_TIMEOUT) wheel_timer;
            if FEDERATION_PING_INTERVAL <? now - us_last_federation_update_ts new_state
            then Ok (set_us_federation_ts new_state now, true, w)
            else Ok (new_state, false, w));
       w ← insert_if (bool_decide (us_state new_state = PresenceState.BUSY) && negb persist) now user_id
             (us_last_user_sync_ts new_state + BUSY_ONLINE_TIMEOUT) wheel_timer;
       Ok (new_state, federation_ping, w)
     else
       w ← insert_if (negb persist) now user_id
             (us_last_federation_update_ts new_state + FEDERATION_TIMEOUT) wheel_timer;
       Ok (new_state, false, w));
  if should_notify prev_state new_state
  then Ok (set_us_federation_ts new_state now, true, federation_ping, wheel_timer)
  else Ok (new_state, false, federation_ping, wheel_timer).

(** ** [PresenceHandler] *)

Record presence_config : Type := PresenceConfig {
  presence_enabled : bool;
  track_presence : bool;
  msc3026_enabled : bool;
  is_mine_id : string → bool;
}.

Record handler : Type := Handler {
  user_to_current_state : gmap string UserPresenceState;
  user_to_device_to_current_state : gmap string devices;
  wheel_timer : wheel;
  unpersisted_users_changes : gset string;
  user_device_to_num_current_syncs : gmap (string * option string) Z;
  external_process_to_current_syncs : gmap string (gset (string * option string));
  external_process_last_updated_ms : gmap string Z;
  (** the database, and what has been sent to clients and to other servers *)
  presence_db : gmap string UserPresenceState;
  notified : list UserPresenceState;
  pinged : list UserPresenceState;
}.

Definition with_states (s : handler) (m : gmap string UserPresenceState) (w : wheel) : handler :=
  Handler m (user_to_device_to_current_state s) w (unpersisted_users_changes s)
    (user_device_to_num_current_syncs s) (external_process_to_current_syncs s)
    (external_process_last_updated_ms s) (presence_db s) (notified s) (pinged s).

Definition with_devices (s : handler) (m : gmap string devices) : handler :=
  Handler (user_to_current_state s) m (wheel_timer s) (unpersisted_users_changes s)
    (user_device_to_num_current_syncs s) (external_process_to_current_syncs s)
    (external_process_last_updated_ms s) (presence_db s) (notified s) (pinged s).

Definition with_unpersisted (s : handler) (u : gset string) : handler :=
  Handler (user_to_current_state s) (user_to_device_to_current_state s) (wheel_timer s) u
    (user_device_to_num_current_syncs s) (external_process_to_current_syncs s)
    (external_process_last_updated_ms s) (presence_db s) (notified s) (pinged s).

Definition with_syncs (s : handler) (m : gmap (string * option string) Z) : handler :=
  Handler (user_to_current_state s) (user_to_device_to_current_state s) (wheel_timer s)
    (unpersisted_users_changes s) m (external_process_to_current_syncs s)
    (external_process_last_updated_ms s) (presence_db s) (notified s) (pinged s).

Definition with_external (s : handler) (m : gmap string (gset (string * option string)))
    (u : gmap string Z) : handler :=
  Handler (user_to_current_state s) (user_to_device_to_current_state s) (wheel_timer s)
    (unpersisted_users_changes s) (user_device_to_num_current_syncs s) m u
    (presence_db s) (notified s) (pinged s).

(** [store.update_presence(states)] *)
Definition update_presence (s : handler) (states : list UserPresenceState) : handler :=
  Handler (user_to_current_state s) (user_to_device_to_current_state s) (wheel_timer s)
    (unpersisted_users_changes s) (user_device_to_num_current_syncs s)
    (external_process_to_current_syncs s) (external_process_last_updated_ms s)
    (foldl (λ m st, <[us_user_id st := st]> m) (presence_db s) states) (notified s) (pinged s).

Definition with_sent (s : handler) (n p : list UserPresenceState) : handler :=
  Handler (user_to_current_state s) (user_to_device_to_current_state s) (wheel_timer s)
    (unpersisted_users_changes s) (user_device_to_num_current_syncs s)
    (external_process_to_current_syncs s) (external_process_last_updated_ms s)
    (presence_db s) (notified s ++ n) (pinged s ++ p).

(** [_persist_and_notify] *)
Definition persist_and_notify (s : handler) (states : list UserPresenceState) : handler :=
  with_sent (update_presence s states) states [].

Section Handler.
Context (c : presence_config).

(** [current_state_for_users]: those in memory, then those in the database, then
    the new ones *)
Definition current_state_for_users (s : handler) (users : list string)
    : list UserPresenceState * handler :=
  let known := omap (M := list) (λ u, user_to_current_state s !! u) users in
  let missing := List.filter (λ u, negb (bool_decide (is_Some (user_to_current_state s !! u)))) users in
  let stored := omap (M := list) (λ u, presence_db s !! u) missing in
  let fresh := List.filter (λ u, negb (bool_decide (is_Some (presence_db s !! u)))) missing in
  (known ++ stored ++ map default_user fresh,
   with_states s (foldl (λ m u, <[u := default_user u]> m) (user_to_current_state s) fresh)
     (wheel_timer s)).

Definition current_state_for_user (s : handler) (user_id : string) : UserPresenceState * handler :=
  let '(states, s) := current_state_for_users s [user_id] in
  (default (default_user user_id) (head states), s).

(** [new_states_dict]: the last state for each user, in the order of the first *)
Fixpoint dict_put (st : UserPresenceState) (l : list UserPresenceState) : list UserPresenceState :=
  match l with
  | [] => [st]
  | x :: l => if decide (us_user_id x = us_user_id st) then st :: l else x :: dict_put st l
  end.
Definition last_states (l : list UserPresenceState) : list UserPresenceState :=
  foldl (λ acc st, dict_put st acc) [] l.

(** The loop of [_update_states]: the handler, [to_notify] and [to_federation_ping] *)
Definition update_one (now : Z) (force_notify : bool)
    (acc : handler * list UserPresenceState * list UserPresenceState) (new_state : UserPresenceState)
    : py (handler * list UserPresenceState * list UserPresenceState) :=
  let '(s, to_notify, to_ping) := acc in
  let user_id := us_user_id new_state in
  let prev_state := default (default_user user_id) (user_to_current_state s !! user_id) in
  '(new_state, should_notify, should_ping, w) ←
    handle_update prev_state new_state (is_mine_id c user_id) (wheel_timer s) now
      (negb (track_presence c));
  let s := with_states s (<[user_id := new_state]> (user_to_current_state s)) w in
  Ok (if force_notify || should_notify then (s, to_notify ++ [new_state], to_ping)
      else if (should_ping : bool) then (s, to_notify, to_ping ++ [new_state])
      else (s, to_notify, to_ping)).

(** [_update_states] up to the first [await] *)
Definition compute_updates (s : handler) (now : Z) (new_states : list UserPresenceState)
    (force_notify : bool) : py (handler * list UserPresenceState * list UserPresenceState) :=
  py_fold (update_one now force_notify) (s, [], []) (last_states new_states).

(** From the first [await] on: persist and notify, then the book-keeping *)
Definition begin_notify (s : handler) (to_notify : list UserPresenceState) : handler :=
  if decide (to_notify = []) then s else persist_and_notify s to_notify.

Definition finish_updates (s : handler) (new_states to_notify to_ping : list UserPresenceState)
    : handler :=
  let s := with_unpersisted s
    ((unpersisted_users_changes s ∪ list_to_set (map us_user_id (last_states new_states)))
       ∖ list_to_set (map us_user_id to_notify)) in
  with_sent s []
    (List.filter (λ st, negb (bool_decide (us_user_id st ∈ map us_user_id to_notify))) to_ping).

Definition update_states (s : handler) (now : Z) (new_states : list UserPresenceState)
    (force_notify : bool) : py handler :=
  if negb (presence_enabled c) then Ok s
  else
    '(s, to_notify, to_ping) ← compute_updates s now new_states force_notify;
    Ok (finish_updates (begin_notify s to_notify) new_states to_notify to_ping).

(** [handle_timeouts]: the changes, and the devices as the calls leave them *)
Definition timeout_one (syncing : gset (string * option string)) (now : Z)
    (acc : list UserPresenceState * gmap string devices) (state : UserPresenceState)
    : py (list UserPresenceState * gmap string devices) :=
  let '(changes, m) := acc in
  let user_id := us_user_id state in
  '(new_state, ds) ←
    handle_timeout state (is_mine_id c user_id) syncing (default ∅ (m !! user_id)) now;
  Ok (match new_state with Some st => dict_put st changes | None => changes end,
      match m !! user_id with Some _ => <[user_id := ds]> m | None => m end).

Definition handle_timeouts (user_states : list UserPresenceState)
    (syncing : gset (string * option string)) (user_to_devices : gmap string devices) (now : Z)
    : py (list UserPresenceState * gmap string devices) :=
  py_fold (timeout_one syncing now) ([], user_to_devices) user_states.

(** The (user, device) pairs that are syncing, here or on another process *)
Definition syncing_user_devices (s : handler) : gset (string * option string) :=
  dom (filter (λ p, p.2 ≠ 0) (user_device_to_num_current_syncs s))
  ∪ ⋃ (map snd (map_to_list (external_process_to_current_syncs s))).

(** [_handle_timeouts] *)
Definition handler_handle_timeouts (s : handler) (now : Z) : py handler :=
  '(due, w) ← timer_fetch (wheel_timer s) now;
  let s := with_states s (user_to_current_state s) w in
  let expired : gset string :=
    dom (filter (λ p, EXTERNAL_PROCESS_EXPIRY < now - p.2) (external_process_last_updated_ms s)) in
  let expired_users : gset string :=
    set_map fst (⋃ (map (λ p, default ∅ (external_process_to_current_syncs s !! p))
                      (elements expired)) : gset (string * option string)) in
  let users_to_check : gset string := list_to_set due ∪ expired_users in
  let s := with_external s
    (filter (λ p, p.1 ∉ expired) (external_process_to_current_syncs s))
    (filter (λ p, p.1 ∉ expired) (external_process_last_updated_ms s)) in
  let states :=
    map (λ u, default (default_user u) (user_to_current_state s !! u)) (elements users_to_check) in
  '(changes, ds) ← handle_timeouts states (syncing_user_devices s)
                      (user_to_device_to_current_state s) now;
  update_states (with_devices s ds) now changes false.

(** [devices.setdefault(device_id, default)] and changing the device found *)
Definition change_device (s : handler) (user_id : string) (device_id : option string)
    (f : UserDevicePresenceState → UserDevicePresenceState) : handler :=
  let ds := default ∅ (user_to_device_to_current_state s !! user_id) in
  let d := default (default_device user_id device_id) (ds !! device_id) in
  with_devices s (<[user_id := <[device_id := f d]> ds]> (user_to_device_to_current_state s)).

Definition user_devices (s : handler) (user_id : string) : devices :=
  default ∅ (user_to_device_to_current_state s !! user_id).

Definition bump_presence_active_time (s : handler) (now : Z) (user_id : string)
    (device_id : option string) : py handler :=
  if negb (track_presence c) then Ok s
  else
    let s := change_device s user_id device_id (λ d,
      let d := set_ds_active_ts d now in
      if decide (ds_state d = PresenceState.UNAVAILABLE) then set_ds_state d PresenceState.ONLINE
      else d) in
    let '(prev_state, s) := current_state_for_user s user_id in
    presence ← combine_device_states (device_values (user_devices s user_id));
    update_states s now [set_us_state (set_us_active_ts prev_state now) presence] false.

Definition VALID_PRESENCE : list string :=
  [PresenceState.ONLINE; PresenceState.UNAVAILABLE; PresenceState.OFFLINE]
  ++ (if msc3026_enabled c then [PresenceState.BUSY] else []).

Definition set_state (s : handler) (now : Z) (user_id : string) (device_id : option string)
    (presence : string) (status_msg : option string) (force_notify is_sync : bool) : py handler :=
  raise_if (negb (bool_decide (presence ∈ VALID_PRESENCE))) (SynapseError 400 "Invalid presence state") ;;
  if negb (track_presence c) then Ok s
  else
    let '(prev_state, s) := current_state_for_user s user_id in
    let presence :=
      if bool_decide (us_state prev_state = PresenceState.BUSY) && is_sync
      then PresenceState.BUSY else presence in
    let s := change_device s user_id device_id (λ d,
      let d := set_ds_active_ts (set_ds_state d presence) now in
      if is_sync then set_ds_sync_ts d now else d) in
    presence ← combine_device_states (device_values (user_devices s user_id));
    let st := set_us_state prev_state presence in
    let st :=
      if bool_decide (presence = PresenceState.ONLINE) || bool_decide (presence = PresenceState.BUSY)
      then set_us_active_ts st now else st in
    let st := if is_sync then set_us_sync_ts st now else set_us_status_msg st status_msg in
    update_states s now [st] force_notify.

(** [user_syncing]: the count goes up even if [set_state] raises *)
Definition user_syncing (s : handler) (now : Z) (user_id : string) (device_id : option string)
    (affect_presence : bool) (presence : string) : handler * py unit :=
  if negb affect_presence || negb (track_presence c) then (s, Ok tt)
  else
    let curr_sync := default 0 (user_device_to_num_current_syncs s !! (user_id, device_id)) in
    let s := with_syncs s
      (<[(user_id, device_id) := curr_sync + 1]> (user_device_to_num_current_syncs s)) in
    match set_state s now user_id device_id presence None false true with
    | Ok s => (s, Ok tt)
    | Raise e => (s, Raise e)
    end.

(** [_end], where exceptions are logged *)
Definition end_sync (s : handler) (now : Z) (user_id : string) (device_id : option string) : handler :=
  match user_device_to_num_current_syncs s !! (user_id, device_id) with
  | None => s
  | Some n =>
      let s := with_syncs s (<[(user_id, device_id) := n - 1]> (user_device_to_num_current_syncs s)) in
      let '(prev_state, s) := current_state_for_user s user_id in
      match update_states s now [set_us_sync_ts prev_state now] false with
      | Ok s => s
      | Raise _ => s
      end
  end.

Definition update_external_syncs_row (s : handler) (now : Z) (process_id user_id : string)
    (device_id : option string) (is_syncing : bool) (sync_time_msec : Z) : py handler :=
  let '(prev_state, s) := current_state_for_user s user_id in
  let process_presence := default ∅ (external_process_to_current_syncs s !! process_id) in
  let set_process s x :=
    with_external s (<[process_id := x]> (external_process_to_current_syncs s))
      (external_process_last_updated_ms s) in
  let s := set_process s process_presence in
  s ← (if is_syncing then Ok (set_process s ({[(user_id, device_id)]} ∪ process_presence))
       else if bool_decide ((user_id, device_id) ∈ process_presence) then
         let s := change_device s user_id device_id (λ d, set_ds_sync_ts d sync_time_msec) in
         s ← update_states s now [set_us_sync_ts prev_state sync_time_msec] false;
         Ok (set_process s (process_presence ∖ {[(user_id, device_id)]}))
       else Ok s);
  Ok (with_external s (external_process_to_current_syncs s)
        (<[process_id := now]> (external_process_last_updated_ms s))).

Definition update_external_syncs_clear (s : handler) (now : Z) (process_id : string) : py handler :=
  let process_presence := default ∅ (external_process_to_current_syncs s !! process_id) in
  let s := with_external s (delete process_id (external_process_to_current_syncs s))
             (external_process_last_updated_ms s) in
  let s := foldl (λ s p, change_device s p.1 p.2 (λ d, set_ds_sync_ts d now)) s
             (elements process_presence) in
  let updated_users : gset string := set_map fst process_presence in
  let '(prev_states, s) := current_state_for_users s (elements updated_users) in
  s ← update_states s now (map (λ st, set_us_sync_ts st now) prev_states) false;
  Ok (with_external s (external_process_to_current_syncs s)
        (delete process_id (external_process_last_updated_ms s))).

(** A member of the list ["push"] of a presence EDU, as the code reads it *)
Record push : Type := Push {
  push_user_id : option string;
  push_presence : option string;
  push_last_active_ago : option Z;
  push_status_msg : option string;
  push_currently_active : bool;
}.

(** The loop of [incoming_presence] *)
Definition read_push (origin : string) (now : Z) (acc : list UserPresenceState * handler) (p : push)
    : py (list UserPresenceState * handler) :=
  let '(updates, s) := acc in
  match push_user_id p with
  | None | Some "" => Ok (updates, s)
  | Some user_id =>
      domain ← get_domain_from_id user_id;
      if negb (bool_decide (domain = origin)) then Ok (updates, s)
      else
        match push_presence p with
        | None | Some "" => Ok (updates, s)
        | Some presence_state =>
            let '(st, s) := current_state_for_user s user_id in
            let st := set_us_federation_ts (set_us_state st presence_state) now in
            let st := match push_last_active_ago p with
                      | Some ago => set_us_active_ts st (now - ago)
                      | None => st
                      end in
            let st := set_us_active (set_us_status_msg st (push_status_msg p)) (push_currently_active p) in
            Ok (updates ++ [st], s)
        end
  end.

Definition incoming_presence (s : handler) (now : Z) (origin : string) (pushes : list push) : py handler :=
  if negb (track_presence c) then Ok s
  else
    '(updates, s) ← py_fold (read_push origin now) ([], s) pushes;
    if decide (updates = []) then Ok s else update_states s now updates false.

(** [[self.user_to_current_state[user_id] for user_id in users]] *)
Fixpoint current_states (s : handler) (users : list string) : py (list UserPresenceState) :=
  match users with
  | [] => Ok []
  | u :: users =>
      match user_to_current_state s !! u with
      | Some st => (st ::.) <$> current_states s users
      | None => Raise KeyError
      end
  end.

(** [_persist_unpersisted_changes] *)
Definition persist_unpersisted_changes (s : handler) : handler * py unit :=
  let unpersisted := unpersisted_users_changes s in
  let s := with_unpersisted s ∅ in
  if decide (unpersisted = ∅) then (s, Ok tt)
  else
    match current_states s (elements unpersisted) with
    | Ok states => (update_presence s states, Ok tt)
    | Raise e => (s, Raise e)
    end.

(** [_on_shutdown], with the database pool running *)
Definition on_shutdown (s : handler) : py handler :=
  if decide (unpersisted_users_changes s = ∅) then Ok s
  else states ← current_states s (elements (unpersisted_users_changes s)); Ok (update_presence s states).

(** The timers the constructor sets for a user *)
Definition startup_timers (now : Z) (w : wheel) (st : UserPresenceState) : py wheel :=
  w ← timer_insert w now (us_user_id st) (us_last_active_ts st + IDLE_TIMER);
  w ← timer_insert w now (us_user_id st) (us_last_user_sync_ts st + SYNC_ONLINE_TIMEOUT);
  timer_insert w now (us_user_id st)
    (us_last_federation_update_ts st
     + (if is_mine_id c (us_user_id st) then FEDERATION_PING_INTERVAL else FEDERATION_TIMEOUT)).

(** The constructor; the states in the database that are not offline are loaded *)
Definition new_handler (now : Z) (db : gmap string UserPresenceState) : py handler :=
  let active_presence := filter (λ p, us_state p.2 ≠ PresenceState.OFFLINE) db in
  w ← (if track_presence c
       then py_fold (startup_timers now) (new_timer (T := string) 5000)
              (map snd (map_to_list active_presence))
       else Ok (new_timer (T := string) 5000));
  let ds : gmap string devices :=
    if track_presence c then
      (λ st, {[ None := DeviceState (us_user_id st) None (us_state st) (us_last_active_ts st)
                          (us_last_user_sync_ts st) ]}) <$> active_presence
    else ∅ in
  Ok (Handler active_presence ds w ∅ ∅ ∅ ∅ db [] []).
End Handler.
