(* ===== verification/PresenceFacts.v ===== *)
(** * What holds of presence

    The state of a local user is always the combination of the states of their
    devices; a device that syncs is never timed out; what changed is in the
    database or waits to be written; and two ways in which the code falls short:
    an update that is forgotten, and a remote user who stays online. *)

From S2P Require Import Prelude WheelTimer Ids Presence.

Open Scope Z_scope.

(** ** Combining devices *)

(** The priority of a known state *)
Definition priority (state : string) : option Z :=
  match PRESENCE_BY_PRIORITY state with Ok p => Some p | Raise _ => None end.

Lemma priority_cases s p :
  PRESENCE_BY_PRIORITY s = Ok p ↔
  (s = PresenceState.BUSY ∧ p = 4) ∨ (s = PresenceState.ONLINE ∧ p = 3) ∨
  (s = PresenceState.UNAVAILABLE ∧ p = 2) ∨ (s = PresenceState.OFFLINE ∧ p = 1).
Proof.
  unfold PRESENCE_BY_PRIORITY. repeat case_decide; subst; split; intros Hs; py_inv; auto;
    try (destruct Hs as [[? ?]|[[? ?]|[[? ?]|[? ?]]]]; subst; done).
Qed.

Lemma priority_inj s s' p : PRESENCE_BY_PRIORITY s = Ok p → PRESENCE_BY_PRIORITY s' = Ok p → s = s'.
Proof. rewrite !priority_cases. naive_solver lia. Qed.

(** What the loop ends with: a known state, at least the one it begins with, at
    least every device's, and one of these. *)
Lemma combine_fold l s0 t0 s t :
  py_fold combine_device (s0, t0) l = Ok (s, t) → is_Some (priority s0) →
  ∃ p, PRESENCE_BY_PRIORITY s = Ok p ∧
    (∀ p0, PRESENCE_BY_PRIORITY s0 = Ok p0 → p0 ≤ p) ∧
    (∀ d, d ∈ l → ∃ pd, PRESENCE_BY_PRIORITY (ds_state d) = Ok pd ∧ pd ≤ p) ∧
    (s = s0 ∨ ∃ d, d ∈ l ∧ ds_state d = s).
Proof.
  revert s0 t0. induction l as [|d l IH]; intros s0 t0 Hf [p0 Hp0]; cbn [py_fold] in Hf; unfold priority in Hp0.
  { py_inv. destruct (PRESENCE_BY_PRIORITY s) as [p|] eqn:E; [|done]. injection Hp0 as <-.
    exists p. split_and!; [done| |intros d Hd; inversion Hd|by left]. intros p0 Hp0. py_inv. lia. }
  destruct (PRESENCE_BY_PRIORITY s0) as [q|] eqn:Eq; [|done]. injection Hp0 as <-.
  apply py_bind_Ok in Hf as ([s1 t1] & Hc & Hf). unfold combine_device in Hc. cbn [fst snd] in Hc.
  destruct (PRESENCE_BY_PRIORITY (ds_state d)) as [pd|] eqn:Ed; [|done]. cbn in Hc. rewrite Eq in Hc. cbn in Hc.
  assert ((s1 = ds_state d ∧ q ≤ pd) ∨ (s1 = s0 ∧ pd ≤ q)) as Hs1.
  { destruct (q <? pd) eqn:E1; to_prop; cbn in Hc.
    - py_inv. left. split; [done|lia].
    - destruct ((pd =? q) && (t0 <? ds_last_active_ts d)) eqn:E2; py_inv; to_prop; [left|right]; split; try done; lia. }
  destruct (IH s1 t1 Hf) as (p & Hp & H1 & H2 & H3).
  { unfold priority. destruct Hs1 as [[-> _]|[-> _]]; [rewrite Ed|rewrite Eq]; by eexists. }
  exists p. assert (q ≤ p ∧ pd ≤ p) as [Hqp Hdp].
  { destruct Hs1 as [[-> ?]|[-> ?]]; [specialize (H1 pd Ed)|specialize (H1 q Eq)]; lia. }
  split_and!; [done| | |].
  - intros x Hx. py_inv. done.
  - intros d' [->|Hd']%elem_of_cons; [|auto]. exists pd. done.
  - destruct H3 as [->|(d' & ? & ?)].
    + destruct Hs1 as [[-> _]|[-> _]]; [right|by left]. exists d. split; [by left|done].
    + right. exists d'. split; [by right|done].
Qed.

(** The combined state is the highest of the devices' states, offline without
    devices, and the devices' states are known. *)
Definition combined (l : list UserDevicePresenceState) (s : string) : Prop :=
  (s = PresenceState.OFFLINE ∨ ∃ d, d ∈ l ∧ ds_state d = s) ∧
  ∃ p, PRESENCE_BY_PRIORITY s = Ok p ∧
    ∀ d, d ∈ l → ∃ pd, PRESENCE_BY_PRIORITY (ds_state d) = Ok pd ∧ pd ≤ p.

Lemma combine_sound l s : combine_device_states l = Ok s → combined l s.
Proof.
  unfold combine_device_states. intros ([s' t] & Hf & <-)%py_fmap_Ok.
  destruct (combine_fold _ _ _ _ _ Hf) as (p & Hp & _ & H2 & H3); [vm_compute; by eexists|].
  split; [done|]. by exists p.
Qed.

Lemma combine_total l :
  (∀ d, d ∈ l → is_Some (priority (ds_state d))) → ∃ s, combine_device_states l = Ok s.
Proof.
  unfold combine_device_states. intros Hl.
  assert (∀ s0 t0, is_Some (priority s0) → ∃ r, py_fold combine_device (s0, t0) l = Ok r) as Hf.
  { induction l as [|d l IH]; intros s0 t0 [p0 Hp0]; cbn [py_fold]; [by eexists|].
    unfold priority in Hp0. destruct (PRESENCE_BY_PRIORITY s0) as [q|] eqn:Eq; [|done].
    destruct (Hl d ltac:(by left)) as [pd Hpd]. unfold priority in Hpd.
    destruct (PRESENCE_BY_PRIORITY (ds_state d)) as [x|] eqn:Ed; [|done].
    assert (∃ s1 t1, combine_device (s0, t0) d = Ok (s1, t1) ∧ is_Some (priority s1)) as (s1 & t1 & Hc & Hs1).
    { unfold combine_device, priority. cbn. rewrite Ed. cbn. rewrite Eq. cbn.
      destruct (_ || _); do 2 eexists; (split; [done|]); rewrite ?Ed, ?Eq; by eexists. }
    rewrite Hc. cbn. apply IH; [|done]. intros; apply Hl; by right. }
  destruct (Hf PresenceState.OFFLINE (-1)) as [[s t] Hr]; [vm_compute; by eexists|].
  rewrite Hr. by eexists.
Qed.

(** Two lists of devices with the same states combine to the same. *)
Lemma combined_unique l l' s s' :
  (∀ x, (∃ d, d ∈ l ∧ ds_state d = x ∧ x ≠ PresenceState.OFFLINE) ↔
        ∃ d, d ∈ l' ∧ ds_state d = x ∧ x ≠ PresenceState.OFFLINE) →
  combined l s → combined l' s' → s = s'.
Proof.
  intros Heq [H1 (p & Hp & Hmax)] [H1' (p' & Hp' & Hmax')].
  assert (∀ x px, PRESENCE_BY_PRIORITY x = Ok px → 1 ≤ px ∧ (x ≠ PresenceState.OFFLINE → 1 < px)) as Hone.
  { intros x px. rewrite priority_cases. intros [[-> ->]|[[-> ->]|[[-> ->]|[-> ->]]]]; split; try lia; done. }
  assert (∀ (l1 l2 : list UserDevicePresenceState) x y px py,
    (∀ x, (∃ d, d ∈ l1 ∧ ds_state d = x ∧ x ≠ PresenceState.OFFLINE) →
        ∃ d, d ∈ l2 ∧ ds_state d = x ∧ x ≠ PresenceState.OFFLINE) →
    (x = PresenceState.OFFLINE ∨ ∃ d, d ∈ l1 ∧ ds_state d = x) → PRESENCE_BY_PRIORITY x = Ok px →
    PRESENCE_BY_PRIORITY y = Ok py →
    (∀ d, d ∈ l2 → ∃ pd, PRESENCE_BY_PRIORITY (ds_state d) = Ok pd ∧ pd ≤ py) → px ≤ py) as Hle.
  { intros l1 l2 x y px py Hsub Hx Hpx Hpy Hm. destruct (decide (x = PresenceState.OFFLINE)) as [->|Hne].
    - destruct (Hone y py Hpy). change (Ok 1 = Ok px) in Hpx. py_inv. lia.
    - destruct Hx as [?|(d & Hd & Hdx)]; [done|]. destruct (Hsub x) as (d' & Hd' & Hdx' & _); [by exists d|].
      destruct (Hm d' Hd') as (pd & Hpd & ?). rewrite Hdx', Hpx in Hpd. by py_inv. }
  assert (p = p').
  { apply Z.le_antisymm; [eapply (Hle l l')|eapply (Hle l' l)]; try done; intros x; apply Heq. }
  subst. by eapply priority_inj.
Qed.

(** ** Timeouts *)

Lemma elem_of_device_values (ds : devices) d : d ∈ device_values ds ↔ ∃ i, ds !! i = Some d.
Proof.
  unfold device_values. rewrite list_elem_of_fmap. split.
  - intros ([i d'] & -> & Hin). apply elem_of_map_to_list in Hin. by exists i.
  - intros [i Hi]. exists (i, d). split; [done|]. by apply elem_of_map_to_list.
Qed.

Lemma timeout_device_kept u syncing now i d d' b :
  timeout_device u syncing now i d = (Some d', b) →
  ds_state d' = ds_state d ∨ (ds_state d = PresenceState.ONLINE ∧ ds_state d' = PresenceState.UNAVAILABLE).
Proof.
  unfold timeout_device. intros Hd. injection Hd as Hd _.
  destruct (bool_decide (ds_state d = PresenceState.ONLINE)) eqn:E; cbn in Hd; to_prop.
  - destruct (IDLE_TIMER <? _); destruct (_ && _) in Hd; simplify_eq; auto.
  - destruct (_ && _) in Hd; simplify_eq; auto.
Qed.

Lemma timeout_device_syncing u syncing now i d :
  (u, i) ∈ syncing → ∃ d', (timeout_device u syncing now i d).1 = Some d'.
Proof. intros Hs. unfold timeout_device. rewrite bool_decide_eq_true_2 by done. cbn. by eexists. Qed.

(** Whatever the timers say, a device that is syncing is neither dropped nor
    makes its user offline: it stays among the devices, at worst as unavailable,
    and the state the user gets, if any, is not offline. *)
Theorem syncing_device_stays state syncing ds now o ds' i d :
  handle_timeout state true syncing ds now = Ok (o, ds') →
  (us_user_id state, i) ∈ syncing → ds !! i = Some d → ds_state d ≠ PresenceState.OFFLINE →
  (∃ d', ds' !! i = Some d' ∧
     (ds_state d' = ds_state d ∨
      ds_state d = PresenceState.ONLINE ∧ ds_state d' = PresenceState.UNAVAILABLE)) ∧
  ∀ st, o = Some st → us_state st ≠ PresenceState.OFFLINE.
Proof.
  unfold handle_timeout. intros Ht Hs Hi Hoff. case_decide as Hst.
  { py_inv. split; [|done]. exists d. split; [done|by left]. }
  set (step := timeout_device (us_user_id state) syncing now) in *.
  apply py_bind_Ok in Ht as (p & Hp & Ht). injection Ht as <- <-.
  destruct (timeout_device_syncing _ syncing now i d Hs) as [d' Hd']. fold step in Hd'.
  assert (map_imap (λ i d, (step i d).1) ds !! i = Some d') as Hkeep
    by (rewrite map_lookup_imap, Hi; exact Hd').
  assert (ds_state d' = ds_state d ∨
      ds_state d = PresenceState.ONLINE ∧ ds_state d' = PresenceState.UNAVAILABLE) as Hsame.
  { destruct (step i d) as [o b] eqn:E. cbn in Hd'. subst o. by eapply timeout_device_kept. }
  split; [by exists d'|]. intros st Hst'. destruct (_ || _) in Hst'; [|done]. injection Hst' as <-. cbn.
  destruct (existsb _ _); [|by py_inv].
  apply combine_sound in Hp as [_ (pp & Hpp & Hmax)]. intros ->.
  destruct (Hmax d') as (pd & Hpd & Hle); [apply elem_of_device_values; eauto|].
  change (Ok 1 = Ok pp) in Hpp. py_inv. apply priority_cases in Hpd.
  destruct Hsame as [Heq|[_ Heq]]; rewrite Heq in Hpd; naive_solver lia.
Qed.

(** Without syncs and with all timeouts passed, a user goes offline. *)
Lemma abandoned_user_goes_offline state syncing ds now :
  us_state state ≠ PresenceState.OFFLINE → ds ≠ ∅ →
  (∀ i d, ds !! i = Some d → (us_user_id state, i) ∉ syncing ∧
     BUSY_ONLINE_TIMEOUT < now - Z.max (ds_last_sync_ts d) (ds_last_active_ts d)) →
  handle_timeout state true syncing ds now = Ok (Some (set_us_state state PresenceState.OFFLINE), ∅).
Proof.
  intros Hst Hne Hall. unfold handle_timeout. rewrite decide_False by done.
  set (step := timeout_device (us_user_id state) syncing now).
  assert (∀ i d, ds !! i = Some d → step i d = (None, true)) as Hstep.
  { intros i d Hi. destruct (Hall i d Hi) as [Hs Ht]. unfold step, timeout_device.
    rewrite (bool_decide_eq_false_2 ((us_user_id state, i) ∈ syncing)) by done.
    set (idle := bool_decide (ds_state d = PresenceState.ONLINE) && _). clearbody idle.
    set (d1 := if idle then _ else d).
    assert (ds_last_sync_ts d1 = ds_last_sync_ts d ∧ ds_last_active_ts d1 = ds_last_active_ts d) as [-> ->]
      by (subst d1; by destruct idle).
    unfold BUSY_ONLINE_TIMEOUT, SYNC_ONLINE_TIMEOUT in *.
    rewrite (proj2 (Z.ltb_lt _ _)) by (case_decide; lia). cbn. by rewrite orb_true_r. }
  assert (existsb (λ p, (step p.1 p.2).2) (map_to_list ds) = true) as Hex.
  { apply existsb_exists. destruct (map_choose ds Hne) as (i & d & Hi). exists (i, d).
    split; [by apply list_elem_of_In, elem_of_map_to_list|]. cbn [fst snd]. by rewrite (Hstep i d Hi). }
  assert (map_imap (λ i d, (step i d).1) ds = ∅) as Hempty.
  { apply map_empty. intros i. rewrite map_lookup_imap. destruct (ds !! i) as [d|] eqn:E; [|done].
    cbn [mbind option_bind]. by rewrite (Hstep i d E). }
  rewrite Hex, Hempty. change (device_values ∅) with (@nil UserDevicePresenceState). cbn [mbind py_bind].
  change (combine_device_states []) with (Ok (A := string) PresenceState.OFFLINE). cbn [mbind py_bind].
  rewrite (bool_decide_eq_false_2 (PresenceState.OFFLINE = us_state state)) by congruence. done.
Qed.

(** ** The handler *)

(** The state of a user: in memory, else in the database, else the default *)
Definition state_of (s : handler) (u : string) : UserPresenceState :=
  match user_to_current_state s !! u with
  | Some st => st
  | None => default (default_user u) (presence_db s !! u)
  end.

(** States follow devices, but for the users in [X] *)
Record handler_ok_but (c : presence_config) (X : list string) (s : handler) : Prop := {
  h_keyed : ∀ u st, user_to_current_state s !! u = Some st → us_user_id st = u;
  h_db_keyed : ∀ u st, presence_db s !! u = Some st → us_user_id st = u;
  h_follow : ∀ u, is_mine_id c u = true → u ∉ X →
    combined (device_values (user_devices s u)) (us_state (state_of s u));
  h_unpersisted : ∀ u, u ∈ unpersisted_users_changes s → is_Some (user_to_current_state s !! u);
  h_persisted : ∀ u st, user_to_current_state s !! u = Some st → u ∉ unpersisted_users_changes s →
    presence_db s !! u = Some st ∨ (st = default_user u ∧ presence_db s !! u = None);
}.
Abbreviation handler_ok c := (handler_ok_but c []).

Lemma state_of_keyed c X s u : handler_ok_but c X s → us_user_id (state_of s u) = u.
Proof.
  intros Hs. unfold state_of. destruct (user_to_current_state s !! u) eqn:E; [by eapply h_keyed|].
  destruct (presence_db s !! u) eqn:E'; [by eapply h_db_keyed|done].
Qed.

Lemma handler_ok_weaken c X Y s : (∀ u, u ∈ X → u ∈ Y) → handler_ok_but c X s → handler_ok_but c Y s.
Proof. intros HX []. split; auto. Qed.

(** *** Updates *)

Lemma dict_put_ids st l u : u ∈ map us_user_id (dict_put st l) ↔ u = us_user_id st ∨ u ∈ map us_user_id l.
Proof.
  induction l as [|x l IH]; cbn; [rewrite elem_of_cons; done|].
  case_decide as E; cbn; rewrite ?elem_of_cons; [rewrite E; tauto|]. rewrite IH. tauto.
Qed.

Lemma dict_put_in st l x : x ∈ dict_put st l → x = st ∨ x ∈ l.
Proof.
  induction l as [|y l IH]; cbn; [by intros ->%list_elem_of_singleton; left|].
  case_decide; intros [->|Hx]%elem_of_cons; rewrite ?elem_of_cons; auto. apply IH in Hx as [?|?]; auto.
Qed.

Lemma dict_put_NoDup st l : NoDup (map us_user_id l) → NoDup (map us_user_id (dict_put st l)).
Proof.
  induction l as [|y l IH]; cbn; intros Hl; [repeat constructor; by intros ?%elem_of_nil|].
  apply NoDup_cons in Hl as [Hy Hl]. case_decide as E; cbn.
  - constructor; [by rewrite <- E|done].
  - constructor; [|auto]. intros [?|?]%dict_put_ids; done.
Qed.

Lemma last_states_spec l :
  NoDup (map us_user_id (last_states l)) ∧ (∀ x, x ∈ last_states l → x ∈ l) ∧
  ∀ u, u ∈ map us_user_id (last_states l) ↔ u ∈ map us_user_id l.
Proof.
  unfold last_states.
  assert (∀ acc, NoDup (map us_user_id acc) →
    NoDup (map us_user_id (foldl (λ acc st, dict_put st acc) acc l)) ∧
    (∀ x, x ∈ foldl (λ acc st, dict_put st acc) acc l → x ∈ acc ∨ x ∈ l) ∧
    ∀ u, u ∈ map us_user_id (foldl (λ acc st, dict_put st acc) acc l) ↔
      u ∈ map us_user_id acc ∨ u ∈ map us_user_id l) as Hall.
  { induction l as [|st l IH]; intros acc Hacc; cbn [foldl map].
    { split_and!; [done|auto|]. intros u. rewrite elem_of_nil. tauto. }
    destruct (IH (dict_put st acc)) as (H1 & H2 & H3); [by apply dict_put_NoDup|]. split_and!; [done| |].
    - intros x [[->|?]%dict_put_in|?]%H2; rewrite elem_of_cons; auto.
    - intros u. rewrite H3, dict_put_ids, elem_of_cons. tauto. }
  destruct (Hall [] ltac:(constructor)) as (H1 & H2 & H3). split_and!; [done| |].
  - intros x [Hx|?]%H2; [inversion Hx|done].
  - intros u. rewrite H3. cbn. rewrite elem_of_nil. tauto.
Qed.

Lemma handle_update_same prev new mine w now p st n f w' :
  handle_update prev new mine w now p = Ok (st, n, f, w') →
  us_user_id st = us_user_id new ∧ us_state st = us_state new.
Proof.
  unfold handle_update. intros H. apply py_bind_Ok in H as ([[st1 f1] w1] & H1 & H2).
  assert (us_user_id st1 = us_user_id new ∧ us_state st1 = us_state new) as [E1 E2].
  { destruct mine; [|apply py_bind_Ok in H1 as (? & _ & H1); injection H1 as <- <- <-; done].
    apply py_bind_Ok in H1 as ([st2 w2] & H3 & H1).
    assert (us_user_id st2 = us_user_id new ∧ us_state st2 = us_state new) as [<- <-].
    { case_hyp H3; [|injection H3 as <- <-; done]. apply py_bind_Ok in H3 as (? & _ & H3).
      apply py_bind_Ok in H3 as (? & _ & H3). injection H3 as <- <-. done. }
    apply py_bind_Ok in H1 as ([[st3 f3] w3] & H4 & H1).
    apply py_bind_Ok in H1 as (? & _ & H1). injection H1 as <- <- <-.
    case_hyp H4; [injection H4 as <- <- <-; done|].
    apply py_bind_Ok in H4 as (? & _ & H4). case_hyp H4; injection H4 as <- <- <-; done. }
  destruct (should_notify prev st1); py_inv; done.
Qed.

(** What stays when states are updated *)
Definition same_frame (s s' : handler) : Prop :=
  user_to_device_to_current_state s' = user_to_device_to_current_state s ∧
  unpersisted_users_changes s' = unpersisted_users_changes s ∧ presence_db s' = presence_db s.

Lemma compute_updates_spec c now force l s nt pg s' nt' pg' :
  NoDup (map us_user_id l) →
  py_fold (update_one c now force) (s, nt, pg) l = Ok (s', nt', pg') →
  same_frame s s' ∧
  (∀ u, u ∉ map us_user_id l → user_to_current_state s' !! u = user_to_current_state s !! u) ∧
  (∀ st, st ∈ l → ∃ st', user_to_current_state s' !! us_user_id st = Some st' ∧
     us_user_id st' = us_user_id st ∧ us_state st' = us_state st) ∧
  ∃ new, nt' = nt ++ new ∧ (∀ x, x ∈ new → us_user_id x ∈ map us_user_id l ∧
    user_to_current_state s' !! us_user_id x = Some x).
Proof.
  revert s nt pg. induction l as [|st l IH]; intros s nt pg Hnd Hf; cbn [py_fold] in Hf.
  { injection Hf as <- <- <-. split_and!; [done|done| |].
    - intros st Hst. inversion Hst.
    - exists []. split; [by rewrite app_nil_r|]. intros x Hx. inversion Hx. }
  cbn in Hnd. apply NoDup_cons in Hnd as [Hst Hnd].
  apply py_bind_Ok in Hf as ([[s1 nt1] pg1] & H1 & Hf). unfold update_one in H1.
  apply py_bind_Ok in H1 as ([[[st1 n] f] w] & Hu & H1). apply handle_update_same in Hu as [Hid Hstate].
  set (sx := with_states s (<[us_user_id st := st1]> (user_to_current_state s)) w) in *.
  assert (s1 = sx ∧ (nt1 = nt ++ [st1] ∨ nt1 = nt)) as [-> Hnt].
  { destruct (force || n); [by py_inv; auto|]. destruct f; py_inv; auto. }
  destruct (IH sx nt1 pg1 Hnd Hf) as ((A1 & A2 & A3) & H2 & H3 & new & -> & H4).
  assert (user_to_current_state s' !! us_user_id st = Some st1) as Hcur.
  { rewrite H2 by done. apply lookup_insert_eq. }
  split; [by split_and!|]. split_and!.
  - cbn. intros u Hu. apply not_elem_of_cons in Hu as [Hne Hu]. rewrite H2 by done.
    by apply lookup_insert_ne.
  - intros x [->|Hx]%elem_of_cons; [|auto]. by exists st1.
  - destruct Hnt as [->| -> ].
    + exists (st1 :: new). split; [by rewrite <- (assoc_L (++))|].
      intros x [->|Hx]%elem_of_cons; cbn.
      * rewrite Hid. split; [by left|done].
      * destruct (H4 x Hx). split; [by right|done].
    + exists new. split; [done|]. intros x Hx. destruct (H4 x Hx). split; [cbn; by right|done].
Qed.

Lemma lookup_stored (l : list UserPresenceState) (m : gmap string UserPresenceState) u :
  (u ∉ map us_user_id l → foldl (λ m st, <[us_user_id st := st]> m) m l !! u = m !! u) ∧
  (u ∈ map us_user_id l → ∃ st, st ∈ l ∧ us_user_id st = u ∧
     foldl (λ m st, <[us_user_id st := st]> m) m l !! u = Some st).
Proof.
  revert m. induction l as [|st l IH]; intros m; cbn [foldl map].
  { split; [done|]. intros Hu. inversion Hu. }
  destruct (IH (<[us_user_id st := st]> m)) as [H1 H2]. split.
  - intros [Hne Hu]%not_elem_of_cons. rewrite H1 by done. by apply lookup_insert_ne.
  - intros Hu. destruct (decide (u ∈ map us_user_id l)) as [Hin|Hni].
    + destruct (H2 Hin) as (x & ? & ? & ?). exists x. split; [by right|done].
    + apply elem_of_cons in Hu as [->|?]; [|done]. exists st. split; [by left|]. split; [done|].
      rewrite H1 by done. apply lookup_insert_eq.
Qed.

(** After an update all is well if it was for the users not updated and the new
    states follow the devices. *)
Lemma update_states_ok c s now sts force s' :
  handler_ok_but c (if presence_enabled c then map us_user_id sts else []) s →
  (∀ st, st ∈ sts → is_mine_id c (us_user_id st) = true →
     combined (device_values (user_devices s (us_user_id st))) (us_state st)) →
  update_states c s now sts force = Ok s' →
  handler_ok c s' ∧ user_to_device_to_current_state s' = user_to_device_to_current_state s.
Proof.
  intros Hs Hsts. unfold update_states. destruct (presence_enabled c) eqn:He; cbn [negb];
    [|intros [= <-]; done].
  intros ([[s1 nt] pg] & Hc & Hu)%py_bind_Ok. injection Hu as <-.
  destruct (last_states_spec sts) as (Hnd & Hin & Hids).
  destruct (compute_updates_spec _ _ _ _ _ _ _ _ _ _ Hnd Hc) as ((A1 & A2 & A3) & H2 & H3 & new & -> & H4).
  cbn [app] in *. unfold begin_notify, finish_updates. set (s2 := if decide (new = []) then s1 else _).
  assert (user_to_current_state s2 = user_to_current_state s1 ∧
    user_to_device_to_current_state s2 = user_to_device_to_current_state s1 ∧
    unpersisted_users_changes s2 = unpersisted_users_changes s1 ∧
    presence_db s2 = foldl (λ m st, <[us_user_id st := st]> m) (presence_db s1) new) as (B1 & B2 & B3 & B4).
  { subst s2. case_decide as E; [by rewrite E|done]. }
  clearbody s2.
  assert (∀ u, u ∈ map us_user_id new → u ∈ map us_user_id sts) as Hsub.
  { intros u (x & -> & Hx)%list_elem_of_fmap. apply Hids. by apply H4. }
  split; [|cbn; congruence]. split; cbn.
  - intros u st Hu. rewrite B1 in Hu. destruct (decide (u ∈ map us_user_id (last_states sts))) as [Hx|Hx].
    + apply list_elem_of_fmap in Hx as (x & -> & Hx). destruct (H3 x Hx) as (st' & Hst' & ? & _). congruence.
    + rewrite H2 in Hu by done. by eapply h_keyed.
  - intros u st Hu. rewrite B4 in Hu. destruct (lookup_stored new (presence_db s1) u) as [L1 L2].
    destruct (decide (u ∈ map us_user_id new)) as [Hx|Hx].
    + destruct (L2 Hx) as (x & ? & ? & ?). congruence.
    + rewrite L1, A3 in Hu by done. by eapply h_db_keyed.
  - intros u Hm _. unfold user_devices. cbn. rewrite B2, A1.
    destruct (decide (u ∈ map us_user_id (last_states sts))) as [Hx|Hx].
    + apply list_elem_of_fmap in Hx as (x & -> & Hx). destruct (H3 x Hx) as (st' & Hst' & _ & Hst).
      unfold state_of. cbn. rewrite B1, Hst', Hst. apply Hsts; [by apply Hin|done].
    + assert (u ∉ map us_user_id new) as Hnew by (intros ?; by apply Hx, Hids, Hsub).
      unfold state_of. cbn. rewrite B1, B4, H2, (proj1 (lookup_stored _ _ _) Hnew), A3 by done.
      apply (h_follow _ _ _ Hs); [done|]. by rewrite <- Hids.
  - intros u Hu. rewrite B1. apply elem_of_difference in Hu as [Hu _].
    destruct (decide (u ∈ map us_user_id (last_states sts))) as [Hx|Hx].
    + apply list_elem_of_fmap in Hx as (x & -> & Hx). destruct (H3 x Hx) as (st' & -> & _). by eexists.
    + apply elem_of_union in Hu as [Hu|Hu%elem_of_list_to_set]; [|done].
      rewrite H2 by done. apply (h_unpersisted _ _ _ Hs). congruence.
  - intros u st Hu Hn. rewrite B1 in Hu. rewrite B3, A2 in Hn.
    destruct (decide (u ∈ map us_user_id new)) as [Hx|Hx].
    + destruct (proj2 (lookup_stored new (presence_db s1) u) Hx) as (x & Hx1 & Hx2 & Hx3).
      left. rewrite B4, Hx3. destruct (H4 x Hx1) as [_ Hcur]. rewrite Hx2, Hu in Hcur. congruence.
    + assert (u ∉ unpersisted_users_changes s ∧ u ∉ map us_user_id (last_states sts)) as [Hn1 Hn2].
      { split; intros ?; apply Hn; apply elem_of_difference; (split; [|by rewrite elem_of_list_to_set]);
          apply elem_of_union; [by left|right; by apply elem_of_list_to_set]. }
      rewrite H2 in Hu by done. rewrite B4, (proj1 (lookup_stored _ _ _) Hx), A3.
      by apply (h_persisted _ _ _ Hs).
Qed.

(** *** Reading and changing *)

(** Reading a state may add a default state to memory. *)
Lemma current_state_spec c X s u st s' :
  handler_ok_but c X s → current_state_for_user s u = (st, s') →
  st = state_of s u ∧ (∀ v, state_of s' v = state_of s v) ∧ handler_ok_but c X s' ∧
  user_to_device_to_current_state s' = user_to_device_to_current_state s.
Proof.
  intros Hs. unfold current_state_for_user, current_state_for_users. cbn [omap list_omap List.filter].
  destruct (user_to_current_state s !! u) as [st0|] eqn:E.
  { rewrite bool_decide_eq_true_2 by by eexists. cbn. intros [= <- <-].
    unfold state_of at 1. rewrite E. split_and!; [done|done| |done]. destruct s; exact Hs. }
  rewrite bool_decide_eq_false_2 by (intros [? ?]; congruence). cbn.
  destruct (presence_db s !! u) as [st0|] eqn:E'.
  { rewrite bool_decide_eq_true_2 by by eexists. cbn. intros [= <- <-].
    unfold state_of at 1. rewrite E, E'. split_and!; [done|done| |done]. destruct s; exact Hs. }
  rewrite bool_decide_eq_false_2 by (intros [? ?]; congruence). cbn. intros [= <- <-].
  assert (∀ v, state_of (with_states s (<[u := default_user u]> (user_to_current_state s)) (wheel_timer s)) v
    = state_of s v) as Hsame.
  { intros v. unfold state_of. cbn. destruct (decide (v = u)) as [->|].
    - by rewrite lookup_insert_eq, E, E'.
    - by rewrite lookup_insert_ne. }
  split_and!; [by unfold state_of; rewrite E, E'|done| |done].
  destruct Hs. split; cbn; try done.
  - intros v st. rewrite lookup_insert_Some. intros [[<- <-]|[_ ?]]; [done|auto].
  - intros v Hm HX. rewrite Hsame. by apply h_follow0.
  - intros v Hv. destruct (decide (v = u)) as [->|]; [rewrite lookup_insert_eq; by eexists|].
    rewrite lookup_insert_ne by done. auto.
  - intros v st. rewrite lookup_insert_Some. intros [[<- <-]|[_ ?]] Hn; [by right|auto].
Qed.

Lemma user_devices_change s u i f v :
  user_devices (change_device s u i f) v =
    if decide (v = u) then
      <[i := f (default (default_device u i) (user_devices s u !! i))]> (user_devices s u)
    else user_devices s v.
Proof.
  unfold user_devices, change_device. cbn. case_decide as E; [subst|].
  - by rewrite lookup_insert_eq.
  - by rewrite lookup_insert_ne.
Qed.

(** Changing a device only affects the user's own state. *)
Lemma change_device_ok c X s u i f :
  handler_ok_but c X s → handler_ok_but c (u :: X) (change_device s u i f).
Proof.
  intros []. split; try done. intros v Hm [Hne HX]%not_elem_of_cons.
  rewrite user_devices_change, decide_False by done. by apply h_follow0.
Qed.

(** Not at all if the state of the device stays. *)
Lemma change_ts_ok c X s u i f :
  (∀ d, ds_state (f d) = ds_state d) → handler_ok_but c X s → handler_ok_but c X (change_device s u i f).
Proof.
  intros Hf Hs. destruct Hs. split; try done. intros v Hm HX. rewrite user_devices_change.
  change (state_of (change_device s u i f) v) with (state_of s v).
  specialize (h_follow0 v Hm HX). case_decide as E; [subst v|done].
  set (ds := user_devices s u) in *. set (d := default (default_device u i) (ds !! i)).
  assert (combined (device_values (<[i := f d]> ds)) (us_state (state_of s u))); [|done].
  destruct h_follow0 as [H1 (p & Hp & Hmax)]. split.
  - destruct H1 as [?|(d' & Hd' & Hst)]; [by left|]. apply elem_of_device_values in Hd' as [j Hj].
    right. destruct (decide (j = i)) as [->|].
    + exists (f d). split; [apply elem_of_device_values; exists i; apply lookup_insert_eq|].
      rewrite Hf. subst d. by rewrite Hj.
    + exists d'. split; [|done]. apply elem_of_device_values. exists j. by rewrite lookup_insert_ne.
  - exists p. split; [done|]. intros d' Hd'. apply elem_of_device_values in Hd' as [j Hj].
    apply lookup_insert_Some in Hj as [[<- <-]|[_ Hj]].
    + rewrite Hf. subst d. destruct (ds !! i) as [d0|] eqn:E; cbn.
      * apply Hmax, elem_of_device_values. eauto.
      * exists 1. split; [done|]. apply priority_cases in Hp. naive_solver lia.
    + apply Hmax, elem_of_device_values. eauto.
Qed.

(** *** The methods *)

Section Methods.
Context (c : presence_config) (tracked : track_presence c = true → presence_enabled c = true).

Lemma update_one_user_ok s now u st force s' :
  handler_ok_but c [u] s → us_user_id st = u →
  (presence_enabled c = true) → combined (device_values (user_devices s u)) (us_state st) →
  update_states c s now [st] force = Ok s' → handler_ok c s'.
Proof using Type.
  intros Hs Hid He Hc Hu. eapply update_states_ok; [| |exact Hu].
  - rewrite He. cbn. by rewrite Hid.
  - intros x ->%list_elem_of_singleton _. by rewrite Hid.
Qed.

(** An update that does not change the state of the user *)
Lemma update_same_state_ok s now u st force s' :
  handler_ok c s → us_user_id st = u → us_state st = us_state (state_of s u) →
  update_states c s now [st] force = Ok s' → handler_ok c s'.
Proof using Type.
  intros Hs Hid Hst Hu. eapply update_states_ok; [| |exact Hu].
  - eapply handler_ok_weaken; [|exact Hs]. intros ? Hx. inversion Hx.
  - intros x ->%list_elem_of_singleton Hm. rewrite Hid in *. rewrite Hst.
    apply (h_follow _ _ _ Hs); [done|]. by intros ?%elem_of_nil.
Qed.

Lemma bump_ok s now u i s' :
  handler_ok c s → bump_presence_active_time c s now u i = Ok s' → handler_ok c s'.
Proof using tracked.
  intros Hs. unfold bump_presence_active_time. destruct (track_presence c) eqn:Et; cbn [negb];
    [|by intros [= <-]].
  set (f := λ d : UserDevicePresenceState, _).
  destruct (current_state_for_user _ u) as [st s1] eqn:Ec.
  apply (current_state_spec c [u]) in Ec as (-> & Hst & Hs1 & Hd); [|by apply change_device_ok].
  intros (p & Hp & Hu)%py_bind_Ok. apply combine_sound in Hp.
  eapply (update_one_user_ok s1 now u); [done| | | |exact Hu]; [|by apply tracked|exact Hp].
  cbn. eapply state_of_keyed. exact (change_device_ok _ _ _ _ i f Hs).
Qed.

Lemma set_state_ok s now u i p msg force sync s' :
  handler_ok c s → set_state c s now u i p msg force sync = Ok s' → handler_ok c s'.
Proof using tracked.
  intros Hs. unfold set_state. intros (_ & _ & H)%py_bind_Ok. revert H.
  destruct (track_presence c) eqn:Et; cbn [negb]; [|by intros [= <-]].
  destruct (current_state_for_user s u) as [st s1] eqn:Ec.
  apply (current_state_spec c []) in Ec as (-> & Hst & Hs1 & Hd); [|done].
  set (f := λ d : UserDevicePresenceState, _). set (s2 := change_device s1 u i f).
  intros (q & Hq & Hu)%py_bind_Ok. apply combine_sound in Hq.
  eapply (update_one_user_ok s2 now u); [by apply change_device_ok| | | |exact Hu]; [|by apply tracked|].
  - pose proof (state_of_keyed c [] s u Hs) as Hk.
    destruct (_ || _), sync; exact Hk.
  - destruct (_ || _), sync; exact Hq.
Qed.

Lemma syncs_ok s m : handler_ok c s → handler_ok c (with_syncs s m).
Proof using Type. by intros []. Qed.

Lemma external_ok s m u : handler_ok c s → handler_ok c (with_external s m u).
Proof using Type. by intros []. Qed.

Lemma user_syncing_ok s now u i aff p s' r :
  handler_ok c s → user_syncing c s now u i aff p = (s', r) → handler_ok c s'.
Proof using tracked.
  intros Hs. unfold user_syncing. destruct (_ || _); [by intros [= <- <-]|].
  destruct (set_state _ _ _ _ _ _ _ _ _) as [s1|e] eqn:E; intros [= <- <-].
  - eapply set_state_ok; [|exact E]. by apply syncs_ok.
  - by apply syncs_ok.
Qed.

Lemma end_sync_ok s now u i : handler_ok c s → handler_ok c (end_sync c s now u i).
Proof using Type.
  intros Hs. unfold end_sync. destruct (_ !! (u, i)) as [n|]; [|done].
  set (s0 := with_syncs s _). assert (handler_ok c s0) as Hs0 by by apply syncs_ok.
  destruct (current_state_for_user s0 u) as [st s1] eqn:Ec.
  apply (current_state_spec c []) in Ec as (-> & Hst & Hs1 & _); [|done].
  destruct (update_states _ _ _ _ _) as [s2|] eqn:Eu; [|done].
  eapply (update_same_state_ok s1 now u); [done| | |exact Eu].
  - by eapply state_of_keyed.
  - by rewrite Hst.
Qed.

Lemma external_row_ok s now pid u i is_syncing t s' :
  handler_ok c s → update_external_syncs_row c s now pid u i is_syncing t = Ok s' → handler_ok c s'.
Proof using Type.
  intros Hs. unfold update_external_syncs_row.
  destruct (current_state_for_user s u) as [st s1] eqn:Ec.
  apply (current_state_spec c []) in Ec as (-> & Hst & Hs1 & _); [|done].
  intros (s2 & H2 & H)%py_bind_Ok. injection H as <-. apply external_ok. revert H2.
  destruct is_syncing; [intros [= <-]; do 2 apply external_ok; done|].
  destruct (bool_decide _); [|intros [= <-]; by apply external_ok].
  intros (s3 & H3 & H)%py_bind_Ok. injection H as <-. apply external_ok.
  eapply (update_same_state_ok _ now u); [| | |exact H3].
  - apply change_ts_ok; [done|]. by apply external_ok.
  - cbn. by eapply state_of_keyed.
  - cbn. rewrite <- Hst. done.
Qed.

Lemma read_push_cases origin now l s p l1 s1 :
  read_push origin now (l, s) p = Ok (l1, s1) →
  (l1 = l ∧ s1 = s) ∨
  ∃ u st st', get_domain_from_id u = Ok origin ∧ current_state_for_user s u = (st, s1) ∧
    us_user_id st' = us_user_id st ∧ l1 = l ++ [st'].
Proof using Type.
  unfold read_push. destruct (push_user_id p) as [[|a u0]|]; try by (intros [= <- <-]; left).
  set (u := String a u0). intros (d & Hd & H)%py_bind_Ok. revert H.
  destruct (bool_decide_reflect (d = origin)) as [->|]; cbn [negb]; [|by intros [= <- <-]; left].
  destruct (push_presence p) as [[|b q]|]; try by (intros [= <- <-]; left).
  destruct (current_state_for_user s u) as [st s2] eqn:Ec. intros H. right. exists u, st.
  eexists. split; [done|]. injection H as <- <-. split; [done|]. split; [|done].
  by destruct (push_last_active_ago p).
Qed.

Lemma read_push_ok origin now pushes l s l' s' :
  (∀ u, is_mine_id c u = true → get_domain_from_id u ≠ Ok origin) →
  py_fold (read_push origin now) (l, s) pushes = Ok (l', s') →
  handler_ok c s → (∀ st, st ∈ l → is_mine_id c (us_user_id st) = false) →
  handler_ok c s' ∧ ∀ st, st ∈ l' → is_mine_id c (us_user_id st) = false.
Proof using Type.
  intros Hmine. revert l s. induction pushes as [|p pushes IH]; intros l s Hf Hs Hl; cbn [py_fold] in Hf.
  { by injection Hf as <- <-. }
  apply py_bind_Ok in Hf as ([l1 s1] & H1 & Hf).
  apply read_push_cases in H1 as [[-> -> ]|(u & st & st' & Hd & Hc & Hid & ->)]; [by eapply IH|].
  apply (current_state_spec c []) in Hc as (-> & _ & Hs1 & _); [|done].
  eapply IH; [exact Hf|done|]. intros x [?|Hx]%elem_of_app; [auto|].
  apply list_elem_of_singleton in Hx as ->. rewrite Hid, (state_of_keyed c [] s u Hs).
  destruct (is_mine_id c u) eqn:E; [|done]. by destruct (Hmine u E).
Qed.

Lemma incoming_ok s now origin pushes s' :
  (∀ u, is_mine_id c u = true → get_domain_from_id u ≠ Ok origin) →
  handler_ok c s → incoming_presence c s now origin pushes = Ok s' → handler_ok c s'.
Proof using Type.
  intros Hmine Hs. unfold incoming_presence. destruct (negb _); [by intros [= <-]|].
  intros ([l s1] & Hf & Hu)%py_bind_Ok.
  destruct (read_push_ok _ _ _ _ _ _ _ Hmine Hf Hs) as [Hs1 Hl]; [intros ? Hx; inversion Hx|].
  case_decide; [by injection Hu as <-|]. eapply update_states_ok; [| |exact Hu].
  - eapply handler_ok_weaken; [|exact Hs1]. intros ? Hx. inversion Hx.
  - intros st Hst Hm. rewrite Hl in Hm; done.
Qed.
Lemma lookup_defaults (l : list string) (m : gmap string UserPresenceState) u :
  foldl (λ m u, <[u := default_user u]> m) m l !! u =
    if decide (u ∈ l) then Some (default_user u) else m !! u.
Proof using Type.
  revert m. induction l as [|x l IH]; intros m; cbn [foldl]; [by rewrite decide_False by by intros ?%elem_of_nil|].
  rewrite IH. destruct (decide (u ∈ l)) as [Hu|Hu].
  { rewrite decide_True; [done|by right]. }
  destruct (decide (u = x)) as [->|Hne].
  - rewrite decide_True by by left. apply lookup_insert_eq.
  - rewrite decide_False by (intros [?|?]%elem_of_cons; done). by apply lookup_insert_ne.
Qed.

Lemma current_states_spec s users sts s' :
  handler_ok c s → current_state_for_users s users = (sts, s') →
  (∀ st, st ∈ sts → st = state_of s (us_user_id st)) ∧ (∀ v, state_of s' v = state_of s v) ∧
  handler_ok c s' ∧ user_to_device_to_current_state s' = user_to_device_to_current_state s ∧
  wheel_timer s' = wheel_timer s.
Proof using Type.
  intros Hs. unfold current_state_for_users.
  set (missing := List.filter _ users). set (fresh := List.filter _ missing). intros [= <- <-].
  assert (∀ u, u ∈ missing → user_to_current_state s !! u = None) as Hmiss.
  { intros u Hu%list_elem_of_In. apply filter_In in Hu as [_ Hu]. to_prop. by apply eq_None_not_Some. }
  assert (∀ u, u ∈ fresh → user_to_current_state s !! u = None ∧ presence_db s !! u = None) as Hfresh.
  { intros u Hu%list_elem_of_In. apply filter_In in Hu as [Hm Hu]. to_prop.
    split; [apply Hmiss; by apply list_elem_of_In|by apply eq_None_not_Some]. }
  set (m' := foldl _ _ fresh).
  assert (∀ u, m' !! u = if decide (u ∈ fresh) then Some (default_user u) else user_to_current_state s !! u)
    as Hm' by (intros u; apply lookup_defaults). clearbody m'.
  assert (∀ v, state_of (with_states s m' (wheel_timer s)) v = state_of s v) as Hsame.
  { intros v. unfold state_of. cbn. rewrite Hm'. case_decide as Hv; [|done].
    destruct (Hfresh v Hv) as [-> -> ]. done. }
  split_and!; [|done| |done|done].
  - intros st [Hk|[Hst|Hf]%elem_of_app]%elem_of_app.
    + apply list_elem_of_omap in Hk as (u & _ & Hu). rewrite (h_keyed _ _ _ Hs u st Hu).
      unfold state_of. by rewrite Hu.
    + apply list_elem_of_omap in Hst as (u & Hin & Hu). rewrite (h_db_keyed _ _ _ Hs u st Hu).
      unfold state_of. by rewrite Hmiss, Hu.
    + apply list_elem_of_fmap in Hf as (u & -> & Hu). unfold state_of. cbn.
      destruct (Hfresh u Hu) as [-> -> ]. done.
  - destruct Hs. split; cbn; try done.
    + intros v st. rewrite Hm'. case_decide; [by intros [= <-]|auto].
    + intros v Hm HX. rewrite Hsame. by apply h_follow0.
    + intros v Hv. rewrite Hm'. case_decide; [by eexists|auto].
    + intros v st. rewrite Hm'. case_decide as Hv; [|auto]. intros [= <-] _. right.
      split; [done|]. by apply Hfresh.
Qed.

Lemma external_clear_ok s now pid s' :
  handler_ok c s → update_external_syncs_clear c s now pid = Ok s' → handler_ok c s'.
Proof using Type.
  intros Hs. unfold update_external_syncs_clear. set (pp := default ∅ _).
  set (s0 := with_external s _ _). assert (handler_ok c s0) as Hs0 by by apply external_ok. clearbody s0.
  assert (∀ l s0, handler_ok c s0 →
    handler_ok c (foldl (λ s p, change_device s p.1 p.2 (λ d, set_ds_sync_ts d now)) s0 l)) as Hfold.
  { induction l as [|x l IH]; intros s1 Hs1; [done|]. apply IH. by apply change_ts_ok. }
  specialize (Hfold (elements pp) s0 Hs0). revert Hfold. set (s1 := foldl _ _ _). intros Hs1.
  destruct (current_state_for_users s1 _) as [sts s2] eqn:Ec.
  apply current_states_spec in Ec as (Hsts & Hsame & Hs2 & _ & _); [|done].
  intros (s3 & Hu & H)%py_bind_Ok. injection H as <-. apply external_ok.
  eapply update_states_ok; [| |exact Hu].
  - eapply handler_ok_weaken; [|exact Hs2]. intros ? Hx. inversion Hx.
  - intros st (st0 & -> & Hst)%list_elem_of_fmap Hm. cbn in *. rewrite (Hsts st0 Hst), <- Hsame.
    replace (us_user_id (state_of s2 (us_user_id st0))) with (us_user_id st0)
      by by rewrite Hsame, <- Hsts.
    apply (h_follow _ _ _ Hs2); [done|]. by intros ?%elem_of_nil.
Qed.
(** A timeout changes devices and state together. *)
Lemma handle_timeout_follow state syncing ds now o ds' :
  handle_timeout state true syncing ds now = Ok (o, ds') →
  combined (device_values ds) (us_state state) →
  combined (device_values ds') (us_state (default state o)).
Proof using Type.
  unfold handle_timeout. intros Ht Hc. case_decide; [by injection Ht as <- <-|].
  set (step := timeout_device (us_user_id state) syncing now) in *.
  apply py_bind_Ok in Ht as (p & Hp & Ht). injection Ht as <- <-.
  assert (combined (device_values (map_imap (λ i d, (step i d).1) ds)) p) as Hp'.
  { destruct (existsb _ _) eqn:Ex; [by apply combine_sound|]. injection Hp as <-.
    replace (map_imap (λ i d, (step i d).1) ds) with ds; [done|]. symmetry. apply map_eq. intros i.
    rewrite map_lookup_imap. destruct (ds !! i) as [d|] eqn:E; [|done]. cbn.
    assert ((step i d).2 = false) as Hch.
    { apply not_true_is_false. intros Hst. enough (existsb (λ p, (step p.1 p.2).2) (map_to_list ds) = true) by congruence.
      apply existsb_exists. exists (i, d). split; [by apply list_elem_of_In, elem_of_map_to_list|done]. }
    revert Hch. unfold step, timeout_device. cbn. intros [H1 H2]%orb_false_iff. rewrite H1 in H2 |- *. by rewrite H2. }
  destruct (_ || _) eqn:E; [done|]. apply orb_false_iff in E as [E _]. apply orb_false_iff in E as [E _].
  to_prop. cbn. by subst p.
Qed.

Lemma handle_timeout_keyed state mine syncing ds now st ds' :
  handle_timeout state mine syncing ds now = Ok (Some st, ds') → us_user_id st = us_user_id state.
Proof using Type.
  unfold handle_timeout. intros Ht. case_hyp Ht; [done|]. destruct mine.
  - apply py_bind_Ok in Ht as (p & _ & Ht). injection Ht as Ht _. case_hyp Ht; by simplify_eq.
  - injection Ht as Ht _. case_hyp Ht; by simplify_eq.
Qed.

(** The changes with the new devices follow each other, the rest is as before. *)
Lemma handle_timeouts_follow s syncing now states ch m ch' m' :
  py_fold (timeout_one c syncing now) (ch, m) states = Ok (ch', m') →
  NoDup (map us_user_id states) →
  (∀ st, st ∈ states → us_user_id st ∉ map us_user_id ch ∧
     (st = state_of s (us_user_id st) ∨ us_state st = PresenceState.OFFLINE)) →
  (∀ u, is_mine_id c u = true →
     (u ∉ map us_user_id ch → combined (device_values (default ∅ (m !! u))) (us_state (state_of s u))) ∧
     ∀ st, st ∈ ch → us_user_id st = u → combined (device_values (default ∅ (m !! u))) (us_state st)) →
  ∀ u, is_mine_id c u = true →
     (u ∉ map us_user_id ch' → combined (device_values (default ∅ (m' !! u))) (us_state (state_of s u))) ∧
     ∀ st, st ∈ ch' → us_user_id st = u → combined (device_values (default ∅ (m' !! u))) (us_state st).
Proof using Type.
  revert ch m. induction states as [|st states IH]; intros ch m Hf Hnd Hst Hinv; cbn [py_fold] in Hf.
  { by injection Hf as <- <-. }
  apply py_bind_Ok in Hf as ([ch1 m1] & H1 & Hf). cbn in Hnd. apply NoDup_cons in Hnd as [Hnot Hnd].
  unfold timeout_one in H1. apply py_bind_Ok in H1 as ([o ds] & Ht & H1). injection H1 as <- <-.
  destruct (Hst st ltac:(by left)) as [Hnew Hcur].
  set (u0 := us_user_id st) in *.
  assert (∀ x, o = Some x → us_user_id x = u0) as Hkey by (intros x ->; by eapply handle_timeout_keyed).
  eapply IH; [exact Hf|done| |].
  { intros x Hx. destruct (Hst x ltac:(by right)) as [Hx1 Hx2]. split; [|done].
    destruct o as [y|]; [|done]. intros [E|?]%dict_put_ids; [|done]. rewrite (Hkey y eq_refl) in E.
    apply Hnot. rewrite <- E. apply list_elem_of_fmap. eauto. }
  intros u Hm. destruct (decide (u = u0)) as [->|Hne].
  - destruct (Hinv u0 Hm) as [Hi _]. specialize (Hi Hnew).
    assert (o = None ∧ ds = default ∅ (m !! u0) ∨
      st = state_of s u0 ∧ combined (device_values ds) (us_state (default st o))) as Hcase.
    { destruct Hcur as [Hcur|Hoff].
      - right. split; [done|]. rewrite Hm in Ht. eapply handle_timeout_follow; [exact Ht|]. by rewrite Hcur.
      - left. unfold handle_timeout in Ht. rewrite decide_True in Ht by done. by injection Ht as <- <-. }
    assert (default ∅ (match m !! u0 with Some _ => <[u0 := ds]> m | None => m end !! u0) = ds) as ->.
    { destruct (m !! u0) eqn:E; [by rewrite lookup_insert_eq|]. rewrite E.
      destruct Hcase as [[_ ->]|_]; [done|]. unfold handle_timeout in Ht. rewrite Hm in Ht. cbn [default] in Ht.
      case_hyp Ht; [by injection Ht as _ <-|]. apply py_bind_Ok in Ht as (p & _ & Ht). injection Ht as _ <-.
      symmetry. apply map_empty. intros i. by rewrite map_lookup_imap, lookup_empty. }
    destruct Hcase as [[-> -> ]|[Heq Hc]].
    + split; [done|]. intros x Hx Hxu. destruct Hnew. rewrite <- Hxu. apply list_elem_of_fmap. eauto.
    + split.
      * intros Hni. destruct o as [y|]; [|by rewrite <- Heq].
        destruct Hni. apply dict_put_ids. left. by rewrite (Hkey y).
      * intros x Hx Hxu. destruct o as [y|].
        -- apply dict_put_in in Hx as [->|Hx]; [done|]. destruct Hnew. rewrite <- Hxu. apply list_elem_of_fmap. eauto.
        -- destruct Hnew. rewrite <- Hxu. apply list_elem_of_fmap. eauto.
  - assert (match m !! u0 with Some _ => <[u0 := ds]> m | None => m end !! u = m !! u) as ->
      by (destruct (m !! u0); [by apply lookup_insert_ne|done]).
    destruct (Hinv u Hm) as [Hi1 Hi2]. split.
    + intros Hni. apply Hi1. intros ?. apply Hni. destruct o; [apply dict_put_ids; by right|done].
    + intros x Hx Hxu. destruct o as [y|]; [|by apply Hi2].
      apply dict_put_in in Hx as [->|Hx]; [|by apply Hi2]. rewrite (Hkey y eq_refl) in Hxu. congruence.
Qed.
Lemma timeouts_ok s now s' :
  track_presence c = true → handler_ok c s → handler_handle_timeouts c s now = Ok s' → handler_ok c s'.
Proof using tracked.
  intros Ht Hs. unfold handler_handle_timeouts. intros ([due w] & _ & H)%py_bind_Ok. revert H.
  set (users := (list_to_set due ∪ _) : gset string). set (s1 := with_external _ _ _).
  assert (handler_ok c s1) as Hs1 by (apply external_ok; by destruct Hs). clearbody s1 users.
  intros ([ch ds] & Hh & Hu)%py_bind_Ok.
  eassert (∀ u, is_mine_id c u = true → _) as Hfol;
    [eapply (handle_timeouts_follow s1); [exact Hh| | |]|eapply update_states_ok; [| |exact Hu]].
  - match goal with |- NoDup (map ?f (map ?g ?l)) => rewrite (map_map g f l) end.
    change (@map) with (λ A B, fmap (M := list) (A := A) (B := B)). cbn beta.
    rewrite (list_fmap_ext _ id); [rewrite list_fmap_id; apply NoDup_elements|].
    intros i u _. cbn. destruct (user_to_current_state s1 !! u) eqn:E; [by eapply h_keyed|done].
  - intros st (u & -> & _)%list_elem_of_fmap. split; [by intros ?%elem_of_nil|].
    destruct (user_to_current_state s1 !! u) as [st|] eqn:E; cbn; [left|by right].
    rewrite (h_keyed _ _ _ Hs1 u st E). unfold state_of. by rewrite E.
  - intros u Hm. split; [intros _|intros st Hst; inversion Hst].
    apply (h_follow _ _ _ Hs1); [done|]. by intros ?%elem_of_nil.
  - rewrite tracked by done. destruct Hs1. split; try done. intros u Hm Hni.
    exact (proj1 (Hfol u Hm) Hni).
  - intros st Hst Hm. by apply (Hfol _ Hm).
Qed.

(** Writing out the current states of some users *)
Lemma current_states_Ok s users :
  (∀ u, u ∈ users → is_Some (user_to_current_state s !! u)) →
  ∃ sts, current_states s users = Ok sts ∧
    (∀ st, st ∈ sts → ∃ u, u ∈ users ∧ user_to_current_state s !! u = Some st) ∧
    ∀ u st, u ∈ users → user_to_current_state s !! u = Some st → st ∈ sts.
Proof using Type.
  induction users as [|u users IH]; intros Hall; cbn.
  { exists []. split_and!; [done|intros ? Hx; inversion Hx|intros ? ? Hx; inversion Hx]. }
  destruct (Hall u ltac:(by left)) as [st Hst]. rewrite Hst.
  destruct IH as (sts & -> & H1 & H2); [intros; apply Hall; by right|]. exists (st :: sts).
  split_and!; [done| |].
  - intros x [->|Hx]%elem_of_cons; [exists u; split; [by left|done]|].
    destruct (H1 x Hx) as (v & ? & ?). exists v. split; [by right|done].
  - intros v x [->|Hv]%elem_of_cons Hx; [|right; by eapply H2]. rewrite Hx in Hst. injection Hst as ->. by left.
Qed.

Lemma current_states_unpersisted s U l : current_states (with_unpersisted s U) l = current_states s l.
Proof using Type. induction l as [|u l IH]; [done|]. cbn. by rewrite IH. Qed.

(** Writing out the unpersisted users puts their states in the database. *)
Lemma written_db s l sts u :
  handler_ok c s → current_states s l = Ok sts → (∀ u, u ∈ l ↔ u ∈ unpersisted_users_changes s) →
  foldl (λ m st, <[us_user_id st := st]> m) (presence_db s) sts !! u =
    if decide (u ∈ unpersisted_users_changes s) then user_to_current_state s !! u else presence_db s !! u.
Proof using Type.
  intros Hs Hc Hl. destruct (current_states_Ok s l) as (sts' & Hc' & H1 & H2).
  { intros v Hv. apply (h_unpersisted _ _ _ Hs). by apply Hl. }
  rewrite Hc in Hc'. injection Hc' as <-.
  destruct (lookup_stored sts (presence_db s) u) as [L1 L2]. case_decide as Hu.
  - destruct (h_unpersisted _ _ _ Hs u Hu) as [st Hst].
    assert (st ∈ sts) as Hin by (apply (H2 u); [by apply Hl|done]).
    destruct L2 as (x & Hx & Hxu & Hxl).
    { apply list_elem_of_fmap. exists st. split; [|done]. symmetry. by eapply h_keyed. }
    rewrite Hxl. destruct (H1 x Hx) as (v & _ & Hv). rewrite <- (h_keyed _ _ _ Hs v x Hv) in Hv. congruence.
  - apply L1. intros (x & -> & Hx)%list_elem_of_fmap. destruct (H1 x Hx) as (v & Hv & Hvx).
    apply Hu. rewrite (h_keyed _ _ _ Hs v x Hvx). by apply Hl.
Qed.

Lemma write_out_ok s U l sts :
  handler_ok c s → current_states s l = Ok sts →
  (∀ u, u ∈ l ↔ u ∈ unpersisted_users_changes s) → U ⊆ unpersisted_users_changes s →
  handler_ok c (update_presence (with_unpersisted s U) sts) ∧
  ∀ u, state_of (update_presence (with_unpersisted s U) sts) u = state_of s u.
Proof using Type.
  clear tracked. intros Hs Hc Hl HU. pose proof (λ u, written_db s l sts u Hs Hc Hl) as Hdb.
  assert (∀ u, state_of (update_presence (with_unpersisted s U) sts) u = state_of s u) as Hst.
  { intros u. unfold state_of. cbn. rewrite Hdb. destruct (user_to_current_state s !! u) eqn:E; [done|].
    case_decide as Hu; [|done]. destruct (h_unpersisted _ _ _ Hs u Hu). congruence. }
  split; [|done]. destruct Hs. split; cbn; try done.
  - intros u st. rewrite Hdb. case_decide; auto.
  - intros u Hm HX. rewrite Hst. by apply h_follow0.
  - intros u Hu. apply h_unpersisted0. set_solver.
  - intros u st Hu Hn. rewrite Hdb. case_decide as Hx; [by left|]. by apply h_persisted0.
Qed.

Lemma persist_ok s s' r :
  handler_ok c s → persist_unpersisted_changes s = (s', r) → handler_ok c s' ∧ r = Ok tt.
Proof using Type.
  clear tracked. intros Hs. unfold persist_unpersisted_changes. case_decide as E.
  { intros [= <- <-]. split; [|done]. destruct Hs. split; try done. cbn.
    intros u st Hu _. apply h_persisted0; [done|]. rewrite E. set_solver. }
  rewrite current_states_unpersisted.
  destruct (current_states_Ok s (elements (unpersisted_users_changes s))) as (sts & Hc & _ & _).
  { intros u Hu%elem_of_elements. by apply (h_unpersisted _ _ _ Hs). }
  rewrite Hc. intros [= <- <-]. split; [|done].
  apply (write_out_ok s ∅ _ _ Hs Hc); [intros u; by rewrite elem_of_elements|set_solver].
Qed.

Lemma on_shutdown_ok s :
  handler_ok c s → ∃ s', on_shutdown s = Ok s' ∧ handler_ok c s' ∧ (∀ u, state_of s' u = state_of s u) ∧
    ∀ u st, user_to_current_state s' !! u = Some st →
      presence_db s' !! u = Some st ∨ (st = default_user u ∧ presence_db s' !! u = None).
Proof using Type.
  clear tracked. intros Hs. unfold on_shutdown. case_decide as E.
  { exists s. split_and!; [done|done|done|]. intros u st Hu. apply (h_persisted _ _ _ Hs); [done|].
    rewrite E. set_solver. }
  destruct (current_states_Ok s (elements (unpersisted_users_changes s))) as (sts & Hc & _ & _).
  { intros u Hu%elem_of_elements. by apply (h_unpersisted _ _ _ Hs). }
  rewrite Hc. eexists. split; [done|].
  assert (∀ u, u ∈ elements (unpersisted_users_changes s) ↔ u ∈ unpersisted_users_changes s) as Hl
    by (intros u; by rewrite elem_of_elements).
  destruct (write_out_ok s (unpersisted_users_changes s) _ _ Hs Hc Hl ltac:(done)) as [Hw Hst].
  split_and!; [by destruct s|by destruct s|].
  intros u st Hu. destruct (write_out_ok s ∅ _ _ Hs Hc Hl ltac:(set_solver)) as [Hw' _].
  apply (h_persisted _ _ _ Hw' u st Hu). cbn. set_solver.
Qed.
End Methods.

(** *** Calls return *)

Lemma timer_ok_later t now (w : wheel) : timer_ok t w → t ≤ now → timer_ok now w.
Proof.
  intros (Hb & Hc & Hf) Ht. split_and!; [done|done|]. intros e He. specialize (Hf e He).
  pose proof (Z.quot_le_mono t now (bucket_size w) Hb Ht). lia.
Qed.

Lemma insert_if_returns b now u t (w : wheel) :
  timer_ok now w → ∃ w', insert_if b now u t w = Ok w' ∧ timer_ok now w'.
Proof.
  intros Hw. destruct b; [|by exists w].
  destruct (timer_insert_spec now w now u t Hw) as (w' & ? & ? & _); [lia|]. by exists w'.
Qed.

(** Take the next [insert_if] of the goal to its result *)
Ltac insert_returns Hw :=
  match goal with |- context [insert_if ?b ?n ?u ?t ?w] =>
    let w' := fresh "w" in let E := fresh "E" in let Hw' := fresh "Hw" in
    destruct (insert_if_returns b n u t w Hw) as (w' & E & Hw'); rewrite E; cbn [mbind py_bind];
    clear E Hw; rename Hw' into Hw
  end.

Lemma handle_update_returns prev new mine w now p :
  timer_ok now w → ∃ st n f w', handle_update prev new mine w now p = Ok (st, n, f, w') ∧ timer_ok now w'.
Proof.
  intros Hw. unfold handle_update.
  assert (∀ (st : UserPresenceState) (f : bool) (w : wheel), timer_ok now w → ∃ st' n' f' w',
    (if should_notify prev st then Ok (set_us_federation_ts st now, true, f, w)
     else Ok (st, false, f, w)) = Ok (st', n', f', w') ∧ timer_ok now w') as Hend
    by (intros; case_match; by do 4 eexists).
  destruct mine; [|insert_returns Hw; by apply Hend].
  case_decide.
  - do 2 insert_returns Hw. case_decide.
    + cbn [mbind py_bind]. insert_returns Hw. by apply Hend.
    + insert_returns Hw. destruct (FEDERATION_PING_INTERVAL <? _); cbn [mbind py_bind]; insert_returns Hw; by apply Hend.
  - cbn [mbind py_bind]. case_decide.
    + cbn [mbind py_bind]. insert_returns Hw. by apply Hend.
    + insert_returns Hw. destruct (FEDERATION_PING_INTERVAL <? _); cbn [mbind py_bind]; insert_returns Hw; by apply Hend.
Qed.

Section Returns.
Context (c : presence_config) (now : Z).
Implicit Types s : handler.

Lemma compute_returns force l s nt pg :
  timer_ok now (wheel_timer s) →
  ∃ s' nt' pg', py_fold (update_one c now force) (s, nt, pg) l = Ok (s', nt', pg') ∧
    timer_ok now (wheel_timer s').
Proof using Type.
  revert s nt pg. induction l as [|st l IH]; intros s nt pg Hw; cbn [py_fold]; [by do 3 eexists|].
  unfold update_one at 2. set (prev := default _ _).
  destruct (handle_update_returns prev st (is_mine_id c (us_user_id st)) (wheel_timer s) now
              (negb (track_presence c)) Hw) as (st' & n & f & w' & E & Hw').
  rewrite E. cbn [mbind py_bind]. destruct (force || n); [by apply IH|]. destruct f; by apply IH.
Qed.

Lemma update_states_returns s l force :
  timer_ok now (wheel_timer s) →
  ∃ s', update_states c s now l force = Ok s' ∧ timer_ok now (wheel_timer s').
Proof using Type.
  intros Hw. unfold update_states. destruct (presence_enabled c); cbn [negb]; [|by exists s].
  unfold compute_updates.
  destruct (compute_returns force (last_states l) s [] [] Hw) as (s' & nt & pg & E & Hw').
  rewrite E. cbn [mbind py_bind]. eexists. split; [done|]. unfold finish_updates, begin_notify.
  by case_decide.
Qed.

Lemma current_state_wheel s u : wheel_timer (current_state_for_user s u).2 = wheel_timer s.
Proof using Type. done. Qed.

(** States of a local user's devices are known. *)
Definition known_devices (ds : devices) : Prop :=
  ∀ d, d ∈ device_values ds → is_Some (priority (ds_state d)).

Lemma combined_known ds x : combined (device_values ds) x → known_devices ds.
Proof using Type.
  intros [_ (p & _ & Hall)] d Hd. destruct (Hall d Hd) as (pd & Hp & _). unfold priority. rewrite Hp. by eexists.
Qed.

Lemma known_insert ds i d : known_devices ds → is_Some (priority (ds_state d)) → known_devices (<[i := d]> ds).
Proof using Type.
  intros Hds Hd x [j Hj]%elem_of_device_values. apply lookup_insert_Some in Hj as [[_ <-]|[_ Hj]]; [done|].
  apply Hds, elem_of_device_values. eauto.
Qed.

Lemma local_devices_known s u : handler_ok c s → is_mine_id c u = true → known_devices (user_devices s u).
Proof using Type.
  intros Hs Hm. eapply combined_known. apply (h_follow _ _ _ Hs); [done|]. by intros ?%elem_of_nil.
Qed.

Lemma device_or_default_known ds u i :
  known_devices ds → is_Some (priority (ds_state (default (default_device u i) (ds !! i)))).
Proof using Type.
  intros Hds. destruct (ds !! i) as [d|] eqn:E; cbn; [|vm_compute; by eexists].
  apply Hds, elem_of_device_values. eauto.
Qed.
Lemma bump_returns s u i :
  handler_ok c s → is_mine_id c u = true → timer_ok now (wheel_timer s) →
  ∃ s', bump_presence_active_time c s now u i = Ok s' ∧ timer_ok now (wheel_timer s').
Proof using Type.
  intros Hs Hm Hw. unfold bump_presence_active_time. destruct (track_presence c); cbn [negb]; [|by exists s].
  set (f := λ d : UserDevicePresenceState, _). set (s0 := change_device s u i f).
  destruct (current_state_for_user s0 u) as [st s1] eqn:Ec.
  assert (wheel_timer s1 = wheel_timer s ∧ user_devices s1 u = user_devices s0 u) as [Hw1 Hd1].
  { injection Ec as _ <-. done. }
  destruct (combine_total (device_values (user_devices s1 u))) as [p Hp].
  { rewrite Hd1. subst s0. rewrite user_devices_change, decide_True by done.
    pose proof (local_devices_known s u Hs Hm) as Hk. apply known_insert; [done|].
    subst f. cbn. case_decide; [vm_compute; by eexists|]. by apply device_or_default_known. }
  rewrite Hp. cbn [mbind py_bind]. apply update_states_returns. by rewrite Hw1.
Qed.

Lemma valid_presence_known p : p ∈ VALID_PRESENCE c → is_Some (priority p).
Proof using Type.
  unfold VALID_PRESENCE. intros [Hp|Hp]%elem_of_app.
  - repeat (apply elem_of_cons in Hp as [->|Hp]; [vm_compute; by eexists|]). inversion Hp.
  - destruct (msc3026_enabled c); [|inversion Hp]. apply list_elem_of_singleton in Hp as ->.
    vm_compute. by eexists.
Qed.

Lemma set_state_returns s u i p msg force sync :
  handler_ok c s → is_mine_id c u = true → p ∈ VALID_PRESENCE c → timer_ok now (wheel_timer s) →
  ∃ s', set_state c s now u i p msg force sync = Ok s' ∧ timer_ok now (wheel_timer s').
Proof using Type.
  intros Hs Hm Hp Hw. unfold set_state. rewrite (bool_decide_eq_true_2 (p ∈ _)) by done. cbn [negb raise_if mbind py_bind].
  destruct (track_presence c); cbn [negb]; [|by exists s].
  destruct (current_state_for_user s u) as [st s1] eqn:Ec.
  assert (wheel_timer s1 = wheel_timer s ∧ user_devices s1 u = user_devices s u) as [Hw1 Hd1].
  { injection Ec as _ <-. done. }
  set (f := λ d : UserDevicePresenceState, _). set (s2 := change_device s1 u i f).
  destruct (combine_total (device_values (user_devices s2 u))) as [q Hq].
  { subst s2. rewrite user_devices_change, decide_True, Hd1 by done.
    apply known_insert; [by apply local_devices_known|]. subst f. cbn.
    assert (is_Some (priority (if bool_decide (us_state st = PresenceState.BUSY) && sync
      then PresenceState.BUSY else p))) as Hk.
    { destruct (_ && _); [vm_compute; by eexists|by apply valid_presence_known]. }
    destruct sync; exact Hk. }
  rewrite Hq. cbn [mbind py_bind]. apply update_states_returns. cbn. by rewrite Hw1.
Qed.

Lemma user_syncing_returns s u i aff p :
  handler_ok c s → is_mine_id c u = true → p ∈ VALID_PRESENCE c → timer_ok now (wheel_timer s) →
  ∃ s', user_syncing c s now u i aff p = (s', Ok tt) ∧ timer_ok now (wheel_timer s').
Proof using Type.
  intros Hs Hm Hp Hw. unfold user_syncing. destruct (_ || _); [by exists s|].
  set (s0 := with_syncs s _).
  destruct (set_state_returns s0 u i p None false true) as (s' & -> & Hw'); [by apply syncs_ok|done..|].
  by exists s'.
Qed.

Lemma end_sync_wheel s u i : timer_ok now (wheel_timer s) → timer_ok now (wheel_timer (end_sync c s now u i)).
Proof using Type.
  intros Hw. unfold end_sync. destruct (_ !! (u, i)) as [n|]; [|done].
  destruct (current_state_for_user _ u) as [st s1] eqn:Ec.
  assert (wheel_timer s1 = wheel_timer s) as Hw1 by by injection Ec as _ <-.
  destruct (update_states_returns s1 [set_us_sync_ts st now] false) as (s' & -> & Hw'); [by rewrite Hw1|done].
Qed.

Lemma external_row_returns s pid u i is_syncing t :
  timer_ok now (wheel_timer s) →
  ∃ s', update_external_syncs_row c s now pid u i is_syncing t = Ok s' ∧ timer_ok now (wheel_timer s').
Proof using Type.
  intros Hw. unfold update_external_syncs_row.
  destruct (current_state_for_user s u) as [st s1] eqn:Ec.
  assert (wheel_timer s1 = wheel_timer s) as Hw1 by by injection Ec as _ <-.
  destruct is_syncing; [cbn; eexists; split; [done|cbn; by rewrite Hw1]|].
  destruct (bool_decide _); [|cbn; eexists; split; [done|cbn; by rewrite Hw1]].
  edestruct update_states_returns as (s' & Hu & Hw'); [|rewrite Hu; cbn; by eexists].
  cbn. by rewrite Hw1.
Qed.

Lemma external_clear_returns s pid :
  timer_ok now (wheel_timer s) →
  ∃ s', update_external_syncs_clear c s now pid = Ok s' ∧ timer_ok now (wheel_timer s').
Proof using Type.
  intros Hw. unfold update_external_syncs_clear. set (pp := default ∅ _). set (s0 := with_external s _ _).
  assert (∀ l s0, wheel_timer (foldl (λ s p, change_device s p.1 p.2 (λ d, set_ds_sync_ts d now)) s0 l)
    = wheel_timer s0) as Hfold.
  { induction l as [|x l IH]; intros s1; [done|]. cbn [foldl]. by rewrite IH. }
  specialize (Hfold (elements pp) s0). revert Hfold. set (s1 := foldl _ _ _). intros Hw1.
  unfold current_state_for_users.
  edestruct update_states_returns as (s' & Hu & Hw'); [|rewrite Hu; cbn; by eexists].
  cbn. by rewrite Hw1.
Qed.
Lemma read_push_returns origin l s p :
  (∀ u, push_user_id p = Some u → ∃ d, get_domain_from_id u = Ok d) →
  ∃ l' s', read_push origin now (l, s) p = Ok (l', s') ∧ wheel_timer s' = wheel_timer s.
Proof using Type.
  intros Hu. unfold read_push. destruct (push_user_id p) as [[|a u]|]; try by do 2 eexists.
  destruct (Hu _ eq_refl) as [d Hd]. rewrite Hd. cbn [mbind py_bind].
  destruct (negb _); [by do 2 eexists|]. destruct (push_presence p) as [[|b q]|]; try by do 2 eexists.
Qed.

Lemma incoming_returns s origin pushes :
  (∀ p u, p ∈ pushes → push_user_id p = Some u → ∃ d, get_domain_from_id u = Ok d) →
  timer_ok now (wheel_timer s) →
  ∃ s', incoming_presence c s now origin pushes = Ok s' ∧ timer_ok now (wheel_timer s').
Proof using Type.
  intros Hp Hw. unfold incoming_presence. destruct (negb _); [by exists s|].
  assert (∀ l s, ∃ l' s', py_fold (read_push origin now) (l, s) pushes = Ok (l', s') ∧
    wheel_timer s' = wheel_timer s) as Hf.
  { induction pushes as [|p pushes IH]; intros l s0; cbn [py_fold]; [by do 2 eexists|].
    destruct (read_push_returns origin l s0 p) as (l1 & s1 & -> & <-); [intros; by eapply Hp; [left|]|].
    cbn [mbind py_bind]. apply IH. intros q u Hq. apply Hp. by right. }
  destruct (Hf [] s) as (l' & s' & -> & Hw'). cbn [mbind py_bind].
  case_decide; [|apply update_states_returns]; rewrite <- Hw' in Hw; eauto.
Qed.

Lemma handle_timeout_returns state mine syncing ds :
  (mine = true → known_devices ds) →
  ∃ o ds', handle_timeout state mine syncing ds now = Ok (o, ds') ∧ (mine = true → known_devices ds').
Proof using Type.
  intros Hk. unfold handle_timeout. case_decide; [by do 2 eexists|]. destruct mine; [|by do 2 eexists].
  set (ds' := map_imap _ ds).
  assert (known_devices ds') as Hk'.
  { intros d [i Hi]%elem_of_device_values. subst ds'. rewrite map_lookup_imap in Hi.
    apply bind_Some in Hi as (d0 & Hd0 & Hi).
    assert (is_Some (priority (ds_state d0))) as Hd0k by (apply Hk; [done|]; apply elem_of_device_values; eauto).
    destruct (timeout_device (us_user_id state) syncing now i d0) as [o b] eqn:E. cbn in Hi. subst o.
    apply timeout_device_kept in E as [->|[_ ->]]; [done|]. vm_compute. by eexists. }
  destruct (existsb _ _); [|by do 2 eexists].
  destruct (combine_total _ Hk') as [p Hp]. rewrite Hp. by do 2 eexists.
Qed.

Lemma timeouts_returns s :
  handler_ok c s → timer_ok now (wheel_timer s) →
  ∃ s', handler_handle_timeouts c s now = Ok s' ∧ timer_ok now (wheel_timer s').
Proof using Type.
  intros Hs Hw. unfold handler_handle_timeouts.
  destruct (timer_fetch_spec now (wheel_timer s) now Hw) as (due & w' & -> & Hw' & _); [lia|].
  cbn [mbind py_bind]. set (syncing := syncing_user_devices _). set (states := map _ (elements _)).
  assert (∀ l ch m, (∀ u, is_mine_id c u = true → known_devices (default ∅ (m !! u))) →
    ∃ ch' m', py_fold (timeout_one c syncing now) (ch, m) l = Ok (ch', m')) as Hf.
  { induction l as [|st l IH]; intros ch m Hm; cbn [py_fold]; [by do 2 eexists|]. unfold timeout_one at 2.
    edestruct (handle_timeout_returns st (is_mine_id c (us_user_id st)) syncing) as (o & ds' & E & Hk).
    { apply Hm. }
    rewrite E. cbn [mbind py_bind]. apply IH. intros u Hu.
    destruct (m !! us_user_id st) eqn:El; [|by apply Hm].
    destruct (decide (u = us_user_id st)) as [->|]; [rewrite lookup_insert_eq; by apply Hk|].
    rewrite lookup_insert_ne by done. by apply Hm. }
  unfold handle_timeouts.
  edestruct (Hf states [] (user_to_device_to_current_state s)) as (ch & m & E).
  { intros u Hu. by apply local_devices_known. }
  cbn [with_external with_states user_to_device_to_current_state] in *.
  rewrite E. cbn [mbind py_bind]. by apply update_states_returns.
Qed.

(** What the database may hold *)
Record db_ok (db : gmap string UserPresenceState) : Prop := {
  db_keyed : ∀ u st, db !! u = Some st → us_user_id st = u;
  db_known : ∀ u st, db !! u = Some st → is_mine_id c u = true → is_Some (priority (us_state st));
}.

Lemma new_handler_returns db :
  ∃ s, new_handler c now db = Ok s ∧ timer_ok now (wheel_timer s).
Proof using Type.
  unfold new_handler. assert (timer_ok now (new_timer (T := string) 5000)) as H0 by by apply new_timer_ok.
  destruct (track_presence c); [|by eexists].
  assert (∀ l w, timer_ok now w → ∃ w', py_fold (startup_timers c now) w l = Ok w' ∧ timer_ok now w') as Hf.
  { induction l as [|st l IH]; intros w Hw; cbn [py_fold]; [by eexists|]. unfold startup_timers at 2.
    do 3 (match goal with |- context [timer_insert ?w ?n ?u ?t] =>
      destruct (timer_insert_spec now w n u t) as (? & -> & ? & _); [done|lia|]; cbn [mbind py_bind] end).
    by apply IH. }
  match goal with |- context [py_fold _ ?w ?l] => destruct (Hf l w H0) as (w' & -> & Hw') end.
  cbn [mbind py_bind]. by eexists.
Qed.

Lemma new_handler_ok db s :
  track_presence c = true → db_ok db → new_handler c now db = Ok s →
  handler_ok c s ∧ ∀ u, state_of s u = default (default_user u) (db !! u).
Proof using Type.
  intros Ht Hdb. unfold new_handler. rewrite Ht. intros (w & _ & H)%py_bind_Ok. injection H as <-.
  set (act := filter _ db). set (s := Handler _ _ _ _ _ _ _ _ _ _).
  assert (∀ u st, act !! u = Some st ↔ db !! u = Some st ∧ us_state st ≠ PresenceState.OFFLINE) as Hact
    by (intros u st; apply map_lookup_filter_Some).
  assert (∀ u, state_of s u = default (default_user u) (db !! u)) as Hst.
  { intros u. unfold state_of, s. cbn. destruct (act !! u) as [st|] eqn:E; [|done].
    apply Hact in E as [-> _]. done. }
  split; [|done]. split; try done; cbn.
  - intros u st [? _]%Hact. by eapply db_keyed.
  - by eapply db_keyed.
  - intros u Hm _. rewrite Hst. unfold user_devices, s. cbn. rewrite lookup_fmap.
    destruct (act !! u) as [st|] eqn:E; cbn.
    + apply Hact in E as [E _]. rewrite E. cbn. destruct (db_known _ Hdb u st E Hm) as [p Hp].
      unfold priority in Hp. destruct (PRESENCE_BY_PRIORITY (us_state st)) as [q|] eqn:Eq; [|done].
      set (d := DeviceState _ _ _ _ _). assert (device_values {[None := d]} = [d]) as ->.
      { unfold device_values. by rewrite map_to_list_singleton. }
      split; [right; exists d; split; [by left|done]|]. exists q. split; [done|].
      intros x ->%list_elem_of_singleton. by exists q.
    + change (device_values ∅) with (@nil UserDevicePresenceState).
      assert (us_state (default (default_user u) (db !! u)) = PresenceState.OFFLINE) as ->.
      { destruct (db !! u) as [st|] eqn:E'; [|done]. cbn.
        destruct (decide (us_state st = PresenceState.OFFLINE)) as [|Hne]; [done|].
        assert (act !! u = Some st) by by apply Hact. congruence. }
      split; [by left|]. exists 1. split; [done|]. intros d Hd. inversion Hd.
  - intros u st [? _]%Hact _. by left.
Qed.
End Returns.

(** ** Runs of the handler *)

(** What calls the process that tracks presence gets: from clients, from other
    workers, from other servers, and from its own timers *)
Inductive call : Type :=
  | Bump (user_id : string) (device_id : option string)
  | SetState (user_id : string) (device_id : option string) (presence : string)
      (status_msg : option string) (force_notify is_sync : bool)
  | Syncing (user_id : string) (device_id : option string) (affect_presence : bool) (presence : string)
  | EndSync (user_id : string) (device_id : option string)
  | External (process_id user_id : string) (device_id : option string) (is_syncing : bool) (t : Z)
  | ExternalClear (process_id : string)
  | Incoming (origin : string) (pushes : list push)
  | Timeouts
  | Persist.

Definition run_call (c : presence_config) (s : handler) (now : Z) (x : call) : py handler :=
  match x with
  | Bump u i => bump_presence_active_time c s now u i
  | SetState u i p msg force sync => set_state c s now u i p msg force sync
  | Syncing u i aff p => let '(s, r) := user_syncing c s now u i aff p in r ;; Ok s
  | EndSync u i => Ok (end_sync c s now u i)
  | External pid u i b t => update_external_syncs_row c s now pid u i b t
  | ExternalClear pid => update_external_syncs_clear c s now pid
  | Incoming origin pushes => incoming_presence c s now origin pushes
  | Timeouts => handler_handle_timeouts c s now
  | Persist => let '(s, r) := persist_unpersisted_changes s in r ;; Ok s
  end.

(** Clients are local and ask for a valid state; servers send only their own users. *)
Definition good_call (c : presence_config) (x : call) : Prop :=
  match x with
  | Bump u _ => is_mine_id c u = true
  | SetState u _ p _ _ _ | Syncing u _ _ p => is_mine_id c u = true ∧ p ∈ VALID_PRESENCE c
  | Incoming origin pushes =>
      (∀ u, is_mine_id c u = true → get_domain_from_id u ≠ Ok origin) ∧
      ∀ p u, p ∈ pushes → push_user_id p = Some u → ∃ d, get_domain_from_id u = Ok d
  | _ => True
  end.

(** Calls at times that do not go back *)
Fixpoint calls_in_order (t : Z) (l : list (Z * call)) : Prop :=
  match l with [] => True | (now, _) :: l => t ≤ now ∧ calls_in_order now l end.

Definition run_calls (c : presence_config) (s : handler) (l : list (Z * call)) : py handler :=
  py_fold (λ s x, run_call c s x.1 x.2) s l.

Section Runs.
Context (c : presence_config) (Htrack : track_presence c = true) (Henabled : presence_enabled c = true).

Lemma run_call_ok s now x :
  handler_ok c s → timer_ok now (wheel_timer s) → good_call c x →
  ∃ s', run_call c s now x = Ok s' ∧ handler_ok c s' ∧ timer_ok now (wheel_timer s').
Proof using Htrack Henabled.
  intros Hs Hw Hx. destruct x; cbn in *.
  - destruct (bump_returns c now s user_id device_id) as (s' & E & ?); [done..|].
    exists s'. split_and!; [done| |done]. by eapply bump_ok; [done| |exact E].
  - destruct Hx. edestruct set_state_returns as (s' & E & ?); [done..|].
    exists s'. split_and!; [exact E| |done]. by eapply set_state_ok; [done| |exact E].
  - destruct Hx. edestruct (user_syncing_returns c now s user_id device_id affect_presence presence) as (s' & E & ?); [done..|].
    rewrite E. exists s'. split_and!; [done| |done]. by eapply user_syncing_ok; [done| |exact E].
  - eexists. split_and!; [done|by apply end_sync_ok|by apply end_sync_wheel].
  - edestruct external_row_returns as (s' & E & ?); [done|].
    exists s'. split_and!; [exact E| |done]. by eapply external_row_ok; [|exact E].
  - edestruct external_clear_returns as (s' & E & ?); [done|].
    exists s'. split_and!; [exact E| |done]. by eapply external_clear_ok; [|exact E].
  - destruct Hx. edestruct incoming_returns as (s' & E & ?); [done..|].
    exists s'. split_and!; [exact E| |done]. by eapply incoming_ok; [| |exact E].
  - destruct (timeouts_returns c now s) as (s' & E & ?); [done..|].
    exists s'. split_and!; [exact E| |done]. by eapply timeouts_ok; [| | |exact E].
  - destruct (persist_unpersisted_changes s) as [s' r] eqn:E.
    destruct (persist_ok c s s' r Hs E) as [Hs' ->]. exists s'. split_and!; [done|done|].
    revert E. unfold persist_unpersisted_changes. case_decide; [by intros [= <-]|].
    destruct (current_states _ _); by intros [= <-].
Qed.

Lemma run_calls_ok l s t :
  handler_ok c s → timer_ok t (wheel_timer s) → calls_in_order t l → Forall (good_call c) (map snd l) →
  ∃ s', run_calls c s l = Ok s' ∧ handler_ok c s'.
Proof using Htrack Henabled.
  revert s t. induction l as [|[now x] l IH]; intros s t Hs Hw Ho Hg; [by exists s|].
  destruct Ho as [Ht Ho]. cbn in Hg. apply Forall_cons in Hg as [Hx Hg].
  destruct (run_call_ok s now x Hs) as (s1 & E & Hs1 & Hw1); [by eapply timer_ok_later|done|].
  destruct (IH s1 now Hs1 Hw1 Ho Hg) as (s' & Hr & Hs'). exists s'. split; [|done].
  unfold run_calls in *. cbn [py_fold fst snd]. by rewrite E.
Qed.

Lemma runs_ok db t l :
  db_ok c db → calls_in_order t l → Forall (good_call c) (map snd l) →
  ∃ s0 s, new_handler c t db = Ok s0 ∧ run_calls c s0 l = Ok s ∧ handler_ok c s.
Proof using Htrack Henabled.
  intros Hdb Ho Hg. destruct (new_handler_returns c t db) as (s0 & E0 & Hw).
  destruct (new_handler_ok c t db s0 Htrack Hdb E0) as [Hs0 _].
  destruct (run_calls_ok l s0 t Hs0 Hw Ho Hg) as (s & ? & ?). by exists s0, s.
Qed.
End Runs.

Lemma combined_combine l s : combined l s → combine_device_states l = Ok s.
Proof.
  intros Hc. destruct (combine_total l) as [s' Hs'].
  { destruct Hc as [_ (p & _ & Hall)]. intros d Hd. destruct (Hall d Hd) as (pd & Hp & _).
    unfold priority. rewrite Hp. by eexists. }
  rewrite Hs'. f_equal. eapply combined_unique; [|by apply combine_sound|exact Hc]. done.
Qed.

(** C28: However clients, workers, other servers and timers call the process that
    tracks presence, in the order of time, with valid states of local users, and of their own
    users from other servers, every call returns, and after them the presence of each local
    user is exactly what their devices combine to. *)
Theorem presence_follows_devices c db t calls :
  track_presence c = true → presence_enabled c = true →
  db_ok c db → calls_in_order t calls → Forall (good_call c) (map snd calls) →
  ∃ s0 s, new_handler c t db = Ok s0 ∧ run_calls c s0 calls = Ok s ∧
    ∀ u, is_mine_id c u = true →
      combine_device_states (device_values (user_devices s u)) = Ok (us_state (state_of s u)).
Proof.
  intros Ht He Hdb Ho Hg. destruct (runs_ok c Ht He db t calls Hdb Ho Hg) as (s0 & s & E0 & Er & Hs).
  exists s0, s. split_and!; [done|done|]. intros u Hm. apply combined_combine.
  apply (h_follow _ _ _ Hs); [done|]. by intros ?%elem_of_nil.
Qed.

(** What an orderly shutdown leaves in the database is all there is: the
    handler made from it when the server starts again has the same state for every
    user, timestamps and status messages included. *)
Theorem presence_survives_restart c db t calls t' :
  track_presence c = true → presence_enabled c = true →
  db_ok c db → calls_in_order t calls → Forall (good_call c) (map snd calls) →
  ∃ s0 s s1 s2, new_handler c t db = Ok s0 ∧ run_calls c s0 calls = Ok s ∧ on_shutdown s = Ok s1 ∧
    new_handler c t' (presence_db s1) = Ok s2 ∧ ∀ u, state_of s2 u = state_of s u.
Proof.
  intros Ht He Hdb Ho Hg. destruct (runs_ok c Ht He db t calls Hdb Ho Hg) as (s0 & s & E0 & Er & Hs).
  destruct (on_shutdown_ok c s Hs) as (s1 & E1 & Hs1 & Hsame & Hdb1).
  destruct (new_handler_returns c t' (presence_db s1)) as (s2 & E2 & _).
  exists s0, s, s1, s2. split_and!; [done..|].
  assert (db_ok c (presence_db s1)) as Hok1.
  { split; [apply (h_db_keyed _ _ _ Hs1)|]. intros u st Hst Hm.
    destruct (h_follow _ _ _ Hs1 u Hm) as [_ (p & Hp & _)]; [by intros ?%elem_of_nil|].
    assert (state_of s1 u = st) as Heq.
    { unfold state_of. rewrite Hst. destruct (user_to_current_state s1 !! u) as [st'|] eqn:E; [|done].
      destruct (Hdb1 u st' E) as [?|[_ ?]]; congruence. }
    rewrite Heq in Hp. unfold priority. rewrite Hp. by eexists. }
  destruct (new_handler_ok c t' _ s2 Ht Hok1 E2) as [_ H2]. intros u. rewrite H2, <- Hsame.
  unfold state_of. destruct (user_to_current_state s1 !! u) as [st|] eqn:E; [|done].
  destruct (Hdb1 u st E) as [->|[-> -> ]]; done.
Qed.

(** ** Examples *)

Definition presence_example : presence_config :=
  PresenceConfig true true false
    (λ u, match get_domain_from_id u with Ok d => bool_decide (d = "here") | Raise _ => false end).

Definition remote_push (u : string) : push := Push (Some u) (Some "online") None None false.

(** Two devices, a remote user, a process that syncs, timeouts *)
Definition example_calls : list (Z * call) :=
  [(0, Syncing "@a:here" (Some "phone") true "online");
   (1000, SetState "@a:here" (Some "laptop") "unavailable" (Some "hello") false false);
   (2000, EndSync "@a:here" (Some "phone"));
   (3000, Incoming "far" [remote_push "@b:far"; remote_push "@a:here"]);
   (390000, External "worker" "@a:here" (Some "laptop") true 390000);
   (400000, Timeouts); (450000, Bump "@a:here" None); (460000, Persist); (470000, ExternalClear "worker")].

Lemma example_calls_good :
  calls_in_order 0 example_calls ∧ Forall (good_call presence_example) (map snd example_calls).
Proof.
  split; [cbn; lia|]. repeat constructor; cbn; try done; try (vm_compute; set_solver).
  intros u Hu E. by rewrite E in Hu.
Qed.

Lemma db_ok_empty c : db_ok c ∅.
Proof. split; intros u st; by rewrite lookup_empty. Qed.

Lemma syncing_device_stays_witness :
  let before := UserState "@a:here" "online" 0 0 0 None true in
  let after := UserState "@a:here" "unavailable" 0 0 0 None true in
  let d x := DeviceState "@a:here" None x 0 0 in
  handle_timeout before true {[("@a:here", None)]} {[None := d "online"]} 10000000 =
    Ok (Some after, {[None := d "unavailable"]}) ∧
  us_state after ≠ PresenceState.OFFLINE.
Proof.
  intros before after d.
  assert (handle_timeout before true {[("@a:here", None)]} {[None := d "online"]} 10000000 =
    Ok (Some after, {[None := d "unavailable"]})) as Ht by (vm_compute; reflexivity).
  split; [exact Ht|].
  pose proof (syncing_device_stays before {[("@a:here", None)]} {[None := d "online"]} 10000000
    (Some after) {[None := d "unavailable"]} None (d "online") Ht) as H.
  apply H; [by apply elem_of_singleton|apply lookup_singleton_eq|discriminate|reflexivity].
Defined.

Lemma presence_follows_devices_witness :
  ∃ s0 s, new_handler presence_example 0 ∅ = Ok s0 ∧ run_calls presence_example s0 example_calls = Ok s ∧
    combine_device_states (device_values (user_devices s "@a:here")) = Ok (us_state (state_of s "@a:here")).
Proof.
  destruct (presence_follows_devices presence_example ∅ 0 example_calls eq_refl eq_refl (db_ok_empty _)
    (proj1 example_calls_good) (proj2 example_calls_good)) as (s0 & s & E0 & Er & H).
  exists s0, s. split_and!; [exact E0|exact Er|exact (H "@a:here" eq_refl)].
Defined.

Lemma presence_survives_restart_witness :
  ∃ s0 s s1 s2, new_handler presence_example 0 ∅ = Ok s0 ∧ run_calls presence_example s0 example_calls = Ok s ∧
    on_shutdown s = Ok s1 ∧ new_handler presence_example 500000 (presence_db s1) = Ok s2 ∧
    state_of s2 "@a:here" = state_of s "@a:here".
Proof.
  destruct (presence_survives_restart presence_example ∅ 0 example_calls 500000 eq_refl eq_refl
    (db_ok_empty _) (proj1 example_calls_good) (proj2 example_calls_good))
    as (s0 & s & s1 & s2 & E0 & Er & E1 & E2 & H).
  exists s0, s, s1, s2. split_and!; [exact E0|exact Er|exact E1|exact E2|exact (H "@a:here")].
Defined.

(** The state and the status message the example ends with *)
Example example_calls_end :
  (s0 ← new_handler presence_example 0 ∅; s ← run_calls presence_example s0 example_calls;
   Ok (us_state (state_of s "@a:here"), us_status_msg (state_of s "@a:here"), us_state (state_of s "@b:far")))
  = Ok ("unavailable", Some "hello", "online").
Proof. vm_compute. reflexivity. Qed.

(** Two updates of one user, the second while the first waits for the database: the
    first then takes the user out of [unpersisted_users_changes], although what is
    in memory is not in the database. *)
Example overlapping_update_forgotten :
  let st t := UserState "@a:here" "online" t 0 0 None true in
  match new_handler presence_example 0 ∅ with
  | Raise _ => False
  | Ok s =>
      match compute_updates presence_example s 1000 [st 1000] false with
      | Raise _ => False
      | Ok (s1, notify1, ping1) =>
          match update_states presence_example (begin_notify s1 notify1) 2000 [st 2000] false with
          | Raise _ => False
          | Ok s2 =>
              let s3 := finish_updates s2 [st 1000] notify1 ping1 in
              unpersisted_users_changes s2 = {["@a:here"]} ∧ unpersisted_users_changes s3 = ∅ ∧
              us_last_active_ts <$> user_to_current_state s3 !! "@a:here" = Some 2000 ∧
              us_last_active_ts <$> presence_db s3 !! "@a:here" = Some 1000
          end
      end
  end.
Proof. vm_compute. repeat split; reflexivity. Qed.

(** Presence of three remote users arrives; the timer of the third goes off too
    early, changes nothing and is not set again: whatever time passes, the third
    stays online, while the others go offline. *)
Example remote_user_stuck_online :
  (s0 ← new_handler presence_example 0 ∅;
   s ← run_calls presence_example s0
     [(0, Incoming "far" [remote_push "@x:far"]);
      (5000, Incoming "far" [remote_push "@y:far"]);
      (5000, Incoming "far" [remote_push "@z:far"]);
      (1805000, Timeouts); (1815000, Timeouts); (1000000000, Timeouts)];
   Ok (map (λ u, us_state (state_of s u)) ["@x:far"; "@y:far"; "@z:far"]))
  = Ok ["offline"; "offline"; "online"].
Proof. vm_compute. reflexivity. Qed.
