(* ===== verification/PresenceQueue.v ===== *)
(** * The class [PresenceFederationQueue] of [synapse/handlers/presence.py]

    Presence to be sent to other servers, kept for five minutes so that the
    processes that send can ask for what they missed.  The theorems: a process
    that asks for rows gets exactly those between its position and the one it is
    told, and asking again until it is told to stop gets it everything that is
    queued; what has been queued within the last five minutes is there. *)

From S2P Require Import Prelude Presence.

Open Scope Z_scope.

Definition KEEP_ITEMS_IN_QUEUE_FOR_MS : Z := 5 * 60 * 1000.

(** A member of [_queue] *)
Record queue_item : Type := QueueItem {
  qi_time : Z;
  qi_stream_id : Z;
  qi_destinations : list string;
  qi_user_ids : gset string;
}.

Record PresenceFederationQueue : Type := FederationQueue {
  fq_instance_name : string;
  fq_presence_writer : bool;
  (** whether this process sends to other servers, and what it has been given to send *)
  fq_federation : bool;
  fq_sent : list (list UserPresenceState * list string);
  fq_queue_presence_updates : bool;
  fq_queue : list queue_item;
  fq_next_id : Z;
  fq_current_tokens : gmap string Z;
}.

(** [__init__]; [only] says that this process alone sends to other servers *)
Definition new_federation_queue (instance_name : string) (presence_writer federation only : bool)
    : PresenceFederationQueue :=
  FederationQueue instance_name presence_writer federation [] (negb (federation && only)) [] 1 ∅.

Definition with_queue (q : PresenceFederationQueue) (l : list queue_item) (next_id : Z) : PresenceFederationQueue :=
  FederationQueue (fq_instance_name q) (fq_presence_writer q) (fq_federation q) (fq_sent q)
    (fq_queue_presence_updates q) l next_id (fq_current_tokens q).

Definition with_fq_sent (q : PresenceFederationQueue) (states : list UserPresenceState) (dests : list string)
    : PresenceFederationQueue :=
  FederationQueue (fq_instance_name q) (fq_presence_writer q) (fq_federation q) (fq_sent q ++ [(states, dests)])
    (fq_queue_presence_updates q) (fq_queue q) (fq_next_id q) (fq_current_tokens q).

Definition with_current_token (q : PresenceFederationQueue) (instance : string) (token : Z) : PresenceFederationQueue :=
  FederationQueue (fq_instance_name q) (fq_presence_writer q) (fq_federation q) (fq_sent q)
    (fq_queue_presence_updates q) (fq_queue q) (fq_next_id q) (<[instance := token]> (fq_current_tokens q)).

(** [bisect(queue, (x,))]: the one-tuple is less than a member unless the member's
    time is less than [x]. *)
Fixpoint bisect_loop (fuel : nat) (l : list queue_item) (x : Z) (lo hi : nat) : nat :=
  match fuel with
  | O => lo
  | S fuel =>
      if (lo <? hi)%nat then
        let mid := ((lo + hi) / 2)%nat in
        match l !! mid with
        | Some item => if x <=? qi_time item then bisect_loop fuel l x lo mid else bisect_loop fuel l x (S mid) hi
        | None => lo
        end
      else lo
  end.

Definition bisect (l : list queue_item) (x : Z) : nat := bisect_loop (length l) l x 0 (length l).

Definition clear_queue (q : PresenceFederationQueue) (now : Z) : PresenceFederationQueue :=
  let clear_before := now - KEEP_ITEMS_IN_QUEUE_FOR_MS in
  with_queue q (drop (bisect (fq_queue q) clear_before) (fq_queue q)) (fq_next_id q).

Definition send_presence_to_destinations (q : PresenceFederationQueue) (now : Z)
    (states : list UserPresenceState) (destinations : list string) : py PresenceFederationQueue :=
  raise_if (negb (fq_presence_writer q)) AssertionError ;;
  if bool_decide (states = []) || bool_decide (destinations = []) then Ok q
  else
    let q := if fq_federation q then with_fq_sent q states destinations else q in
    if negb (fq_queue_presence_updates q) then Ok q
    else
      let stream_id := fq_next_id q in
      Ok (with_queue q
            (fq_queue q ++ [QueueItem now stream_id destinations (list_to_set (map us_user_id states))])
            (fq_next_id q + 1)).

(** [get_current_token] *)
Definition fq_get_current_token (q : PresenceFederationQueue) (instance_name : string) : Z :=
  if decide (instance_name = fq_instance_name q) then fq_next_id q - 1
  else default 0 (fq_current_tokens q !! instance_name).

Abbreviation fq_row := (Z * (string * string))%type.

Definition item_rows (i : queue_item) : list fq_row :=
  d ← qi_destinations i; u ← elements (qi_user_ids i); [(qi_stream_id i, (d, u))].

(** The loop of [get_replication_rows] *)
Fixpoint collect_rows (l : list queue_item) (from_token upto_token target_row_count : Z)
    (to_send : list fq_row) (new_id : Z) : list fq_row * Z * bool :=
  match l with
  | [] => (to_send, new_id, false)
  | i :: l =>
      if qi_stream_id i <=? from_token then
        collect_rows l from_token upto_token target_row_count to_send new_id
      else if upto_token <? qi_stream_id i then (to_send, new_id, false)
      else
        let to_send := to_send ++ item_rows i in
        if target_row_count <? Z.of_nat (length to_send) then (to_send, qi_stream_id i, true)
        else collect_rows l from_token upto_token target_row_count to_send (qi_stream_id i)
  end.

(** [queue[start:]] *)
Definition slice_from {A} (l : list A) (start : Z) : list A :=
  if start <? 0 then drop (Z.to_nat (Z.max 0 (Z.of_nat (length l) + start))) l else drop (Z.to_nat start) l.

(** [remote] stands for the HTTP request to another process. *)
Definition get_replication_rows (remote : string → Z → Z → py (list fq_row * Z * bool))
    (q : PresenceFederationQueue) (instance_name : string) (from_token upto_token target_row_count : Z)
    : py (list fq_row * Z * bool) :=
  if negb (bool_decide (instance_name = fq_instance_name q)) then remote instance_name from_token upto_token
  else if from_token =? fq_next_id q - 1 then Ok ([], upto_token, false)
  else
    let start_idx := Z.max (from_token + 1 - fq_next_id q) (- Z.of_nat (length (fq_queue q))) in
    Ok (collect_rows (slice_from (fq_queue q) start_idx) from_token upto_token target_row_count [] upto_token).

(** A row of the stream: destination and user id.  [hosts_to_users] keeps the order
    in which hosts first appear. *)
Definition add_host_user (m : list (string * gset string)) (row : string * string) : list (string * gset string) :=
  if decide (row.1 ∈ map fst m)
  then map (λ p, if decide (p.1 = row.1) then (p.1, {[row.2]} ∪ p.2) else p) m
  else m ++ [(row.1, {[row.2]})].

Definition hosts_to_users (rows : list (string * string)) : list (string * gset string) :=
  foldl add_host_user [] rows.

(** [process_replication_rows] of the stream itself, with the presence handler *)
Definition process_replication_rows (q : PresenceFederationQueue) (h : handler) (instance_name : string)
    (token : Z) (rows : list (string * string)) : PresenceFederationQueue * handler :=
  let q := with_current_token q instance_name token in
  if negb (fq_federation q) then (q, h)
  else
    foldl (λ acc p,
      let '(q, h) := acc in
      let '(states, h) := current_state_for_users h (elements p.2) in
      (with_fq_sent q states [p.1], h)) (q, h) (hosts_to_users rows).

(** ** The queue *)

(** There is one member for each of the last stream ids, in the order of their times. *)
Record fq_ok (t : Z) (q : PresenceFederationQueue) : Prop := {
  fq_ids : ∀ i x, fq_queue q !! i = Some x →
    qi_stream_id x = fq_next_id q - Z.of_nat (length (fq_queue q)) + Z.of_nat i;
  fq_sorted : ∀ i j x y, (i ≤ j)%nat → fq_queue q !! i = Some x → fq_queue q !! j = Some y → qi_time x ≤ qi_time y;
  fq_past : ∀ x, x ∈ fq_queue q → qi_time x ≤ t;
}.

Lemma bisect_loop_spec fuel l x lo hi :
  (∀ i j a b, (i ≤ j)%nat → l !! i = Some a → l !! j = Some b → qi_time a ≤ qi_time b) →
  (lo ≤ hi ≤ length l)%nat → (hi - lo ≤ fuel)%nat →
  (∀ i a, (i < lo)%nat → l !! i = Some a → qi_time a < x) →
  (∀ i a, (hi ≤ i)%nat → l !! i = Some a → x ≤ qi_time a) →
  let n := bisect_loop fuel l x lo hi in
  (∀ i a, (i < n)%nat → l !! i = Some a → qi_time a < x) ∧
  (∀ i a, (n ≤ i)%nat → l !! i = Some a → x ≤ qi_time a).
Proof.
  intros Hs. revert lo hi. induction fuel as [|fuel IH]; intros lo hi Hlh Hf Hlo Hhi n; subst n; cbn [bisect_loop].
  { split; [done|]. intros i a Hi. apply Hhi. lia. }
  destruct (lo <? hi)%nat eqn:E.
  2:{ apply Nat.ltb_ge in E. split; [done|]. intros i a Hi. apply Hhi. lia. }
  apply Nat.ltb_lt in E. set (mid := ((lo + hi) / 2)%nat).
  assert (lo ≤ mid < hi)%nat as Hmid.
  { subst mid. split; [apply Nat.div_le_lower_bound; lia|apply Nat.Div0.div_lt_upper_bound; lia]. }
  destruct (l !! mid) as [a|] eqn:Ea; [|apply lookup_ge_None in Ea; lia].
  destruct (x <=? qi_time a) eqn:Ex; to_prop; apply IH; try lia; try done.
  - intros i b Hi Hb. specialize (Hs mid i a b ltac:(lia) Ea Hb). lia.
  - intros i b Hi Hb. specialize (Hs i mid b a ltac:(lia) Hb Ea). lia.
Qed.

Lemma bisect_spec l x :
  (∀ i j a b, (i ≤ j)%nat → l !! i = Some a → l !! j = Some b → qi_time a ≤ qi_time b) →
  (∀ i a, (i < bisect l x)%nat → l !! i = Some a → qi_time a < x) ∧
  (∀ i a, (bisect l x ≤ i)%nat → l !! i = Some a → x ≤ qi_time a).
Proof.
  intros Hs. apply bisect_loop_spec; [done|lia|lia|lia|].
  intros i a Hi Ha. apply lookup_lt_Some in Ha. lia.
Qed.

Lemma new_queue_ok t i w f o : fq_ok t (new_federation_queue i w f o).
Proof. split; cbn; try (intros *; rewrite ?lookup_nil; done). intros x Hx. inversion Hx. Qed.

Lemma clear_queue_ok t q now : fq_ok t q → t ≤ now → fq_ok now (clear_queue q now).
Proof.
  intros [] Ht. split; cbn.
  - intros i x. rewrite lookup_drop, length_drop. intros Hx. rewrite (fq_ids0 _ _ Hx).
    apply lookup_lt_Some in Hx. lia.
  - intros i j x y Hij. rewrite !lookup_drop. apply fq_sorted0. lia.
  - intros x Hx. transitivity t; [|done]. apply fq_past0.
    rewrite <- (take_drop (bisect (fq_queue q) (now - KEEP_ITEMS_IN_QUEUE_FOR_MS)) (fq_queue q)).
    apply elem_of_app. by right.
Qed.

Lemma clear_queue_keeps t q now x :
  fq_ok t q → x ∈ fq_queue q → now - KEEP_ITEMS_IN_QUEUE_FOR_MS ≤ qi_time x → x ∈ fq_queue (clear_queue q now).
Proof.
  intros [] [i Hi]%list_elem_of_lookup Hx. cbn. set (n := bisect _ _).
  destruct (bisect_spec (fq_queue q) (now - KEEP_ITEMS_IN_QUEUE_FOR_MS) fq_sorted0) as [H1 _]. fold n in H1.
  destruct (decide (i < n)%nat) as [Hlt|Hge]; [specialize (H1 i x Hlt Hi); lia|].
  apply list_elem_of_lookup. exists (i - n)%nat. rewrite lookup_drop. by replace (n + (i - n))%nat with i by lia.
Qed.

Lemma send_ok t q now states dests q' :
  fq_ok t q → t ≤ now → send_presence_to_destinations q now states dests = Ok q' →
  fq_ok now q' ∧ ∀ x, x ∈ fq_queue q → x ∈ fq_queue q'.
Proof.
  intros Hq Ht. unfold send_presence_to_destinations. intros (_ & _ & H)%py_bind_Ok. revert H.
  assert (fq_ok now q) as Hq' by (destruct Hq; split; try done; intros x Hx; specialize (fq_past0 x Hx); lia).
  destruct (_ || _); [by intros [= <-]|].
  set (q1 := if fq_federation q then _ else q).
  assert (fq_queue q1 = fq_queue q ∧ fq_next_id q1 = fq_next_id q) as [Eq En] by (subst q1; by destruct (fq_federation q)).
  assert (fq_ok now q1) as Hq1 by (destruct Hq'; split; rewrite ?Eq, ?En; done).
  destruct (negb _); [intros [= <-]; by rewrite Eq|]. intros [= <-]. cbn. rewrite Eq, En. destruct Hq'. split.
  - split; cbn.
    + intros i x. rewrite length_app. cbn [length]. intros [Hi|[Hi Hx]]%lookup_app_Some.
      * rewrite (fq_ids0 _ _ Hi). lia.
      * apply list_lookup_singleton_Some in Hx as [Hz <-]. cbn. lia.
    + intros i j x y Hij [Hi|[Hi Hx]]%lookup_app_Some [Hj|[Hj Hy]]%lookup_app_Some.
      * by eapply fq_sorted0.
      * apply list_lookup_singleton_Some in Hy as [_ <-]. cbn. apply fq_past0. by eapply list_elem_of_lookup_2.
      * apply lookup_lt_Some in Hj. lia.
      * apply list_lookup_singleton_Some in Hx as [_ <-], Hy as [_ <-]. done.
    + intros x [Hx|Hx]%elem_of_app; [auto|]. apply list_elem_of_singleton in Hx as ->. done.
  - intros x Hx. apply elem_of_app. by left.
Qed.

(** ** Rows *)

Definition between (a b : Z) (i : queue_item) : bool := (a <? qi_stream_id i) && (qi_stream_id i <=? b).

(** The rows of the members after [a] up to [b] *)
Definition rows_of (a b : Z) (l : list queue_item) : list fq_row :=
  i ← List.filter (between a b) l; item_rows i.

Definition consecutive (a : Z) (l : list queue_item) : Prop :=
  ∀ i x, l !! i = Some x → qi_stream_id x = a + Z.of_nat i.

Lemma consecutive_cons a x l : consecutive a (x :: l) → qi_stream_id x = a ∧ consecutive (a + 1) l.
Proof.
  intros Hl. split; [specialize (Hl 0%nat x eq_refl); lia|]. intros i y Hy. specialize (Hl (S i) y Hy). lia.
Qed.

Lemma consecutive_ge a l x : consecutive a l → x ∈ l → a ≤ qi_stream_id x.
Proof. intros Hl [i Hi]%list_elem_of_lookup. rewrite (Hl i x Hi). lia. Qed.

Lemma rows_of_none a b l : (∀ x, x ∈ l → between a b x = false) → rows_of a b l = [].
Proof.
  unfold rows_of. induction l as [|x l IH]; intros Hl; [done|]. cbn [List.filter].
  rewrite Hl by by left. apply IH. intros y Hy. apply Hl. by right.
Qed.

Lemma rows_of_cons a b x l :
  rows_of a b (x :: l) = (if between a b x then item_rows x else []) ++ rows_of a b l.
Proof. unfold rows_of. cbn [List.filter]. by destruct (between a b x). Qed.

Lemma rows_of_app a b l l' : rows_of a b (l ++ l') = rows_of a b l ++ rows_of a b l'.
Proof. unfold rows_of. by rewrite List.filter_app, bind_app. Qed.

(** What the loop returns: everything up to the position it names, or everything
    there is to say that it is done *)
Lemma collect_rows_spec a l from upto target acc new rows nid lim :
  consecutive a l → collect_rows l from upto target acc new = (rows, nid, lim) →
  rows = acc ++ rows_of from (if lim then nid else upto) l ∧
  if lim then from < nid ≤ upto ∧ a ≤ nid < a + Z.of_nat (length l)
  else nid = new ∨ from < nid ≤ upto.
Proof.
  revert a acc new. induction l as [|x l IH]; intros a acc new Hl Hc; cbn [collect_rows] in Hc.
  { injection Hc as <- <- <-. split; [by rewrite app_nil_r|by left]. }
  apply consecutive_cons in Hl as [Hx Hl]. rewrite rows_of_cons. unfold between.
  destruct (qi_stream_id x <=? from) eqn:E1; to_prop.
  { destruct (IH _ _ _ Hl Hc) as [-> H2]. rewrite (proj2 (Z.ltb_ge _ _)) by done. cbn. split; [done|].
    destruct lim; [|done]. rewrite Nat2Z.inj_succ. lia. }
  destruct (upto <? qi_stream_id x) eqn:E2; to_prop.
  { injection Hc as <- <- <-. rewrite (proj2 (Z.leb_gt _ _)), andb_false_r by done. split; [|by left]. cbn.
    rewrite rows_of_none; [by rewrite app_nil_r|]. intros y Hy. unfold between.
    pose proof (consecutive_ge _ _ _ Hl Hy). rewrite (proj2 (Z.leb_gt _ _)), andb_false_r by lia. done. }
  rewrite (proj2 (Z.ltb_lt _ _)) by done. cbn [andb].
  destruct (target <? Z.of_nat (length (acc ++ item_rows x))) eqn:E3; to_prop.
  { injection Hc as <- <- <-. rewrite Z.leb_refl. split; [|cbn [length]; lia].
    rewrite rows_of_none; [by rewrite app_nil_r|]. intros y Hy. unfold between.
    pose proof (consecutive_ge _ _ _ Hl Hy). rewrite (proj2 (Z.leb_gt _ _)), andb_false_r by lia. done. }
  destruct (IH _ _ _ Hl Hc) as [-> H2].
  assert (qi_stream_id x <=? (if lim then nid else upto) = true) as ->.
  { apply Z.leb_le. destruct lim; [lia|done]. }
  rewrite <- (assoc_L (++)). split; [done|]. destruct lim.
  - cbn [length]. lia.
  - destruct H2 as [->|?]; [right; lia|by right].
Qed.

(** The members the slice leaves out are not after [from]. *)
Lemma slice_rows t q from upto :
  fq_ok t q → from ≠ fq_next_id q - 1 →
  rows_of from upto
    (slice_from (fq_queue q) (Z.max (from + 1 - fq_next_id q) (- Z.of_nat (length (fq_queue q))))) =
  rows_of from upto (fq_queue q).
Proof.
  intros [Hids _ _] Hne. set (len := length (fq_queue q)). set (start := Z.max _ _). unfold slice_from.
  assert (∀ n, (∀ i x, (i < n)%nat → fq_queue q !! i = Some x → qi_stream_id x ≤ from) →
    rows_of from upto (drop n (fq_queue q)) = rows_of from upto (fq_queue q)) as Hdrop.
  { intros n Hn. rewrite <- (take_drop n (fq_queue q)) at 2. rewrite rows_of_app, (rows_of_none _ _ (take n _)); [done|].
    intros x [i Hi]%list_elem_of_lookup. apply lookup_take_Some in Hi as [Hi Hlt].
    unfold between. by rewrite (proj2 (Z.ltb_ge _ _)) by by eapply Hn. }
  destruct (start <? 0) eqn:E; to_prop; apply Hdrop; intros i x Hi Hx; specialize (Hids i x Hx);
    fold len in Hids; apply lookup_lt_Some in Hx; fold len in Hx; subst start; lia.
Qed.

Section Replication.
Context (remote : string → Z → Z → py (list fq_row * Z * bool)).

Lemma own_rows t q from upto target :
  fq_ok t q →
  ∃ rows nid lim, get_replication_rows remote q (fq_instance_name q) from upto target = Ok (rows, nid, lim) ∧
    rows = rows_of from (if lim then nid else upto) (fq_queue q) ∧
    if lim then from < nid ≤ upto ∧ nid < fq_next_id q else nid = upto ∨ from < nid ≤ upto.
Proof using Type.
  intros Hq. unfold get_replication_rows. rewrite bool_decide_eq_true_2 by done. cbn [negb].
  destruct (from =? fq_next_id q - 1) eqn:E; to_prop.
  { exists [], upto, false. split; [done|]. split; [|by left]. symmetry. apply rows_of_none.
    intros x [i Hi]%list_elem_of_lookup. unfold between. rewrite (proj2 (Z.ltb_ge _ _)); [done|].
    rewrite (fq_ids _ _ Hq i x Hi). apply lookup_lt_Some in Hi. lia. }
  set (l := slice_from _ _).
  assert (∃ a, consecutive a l ∧ a + Z.of_nat (length l) ≤ fq_next_id q) as (a & Hl & Ha).
  { assert (∀ n, ∃ a, consecutive a (drop n (fq_queue q)) ∧
      a + Z.of_nat (length (drop n (fq_queue q))) ≤ fq_next_id q) as Hd.
    { intros n. destruct (decide (length (fq_queue q) ≤ n)%nat) as [Hn|Hn].
      - exists (fq_next_id q). rewrite drop_ge by done. split; [intros i x; by rewrite lookup_nil|cbn; lia].
      - exists (fq_next_id q - Z.of_nat (length (fq_queue q)) + Z.of_nat n). rewrite length_drop.
        split; [|lia]. intros i x. rewrite lookup_drop. intros Hx. rewrite (fq_ids _ _ Hq _ _ Hx). lia. }
    subst l. unfold slice_from. destruct (_ <? 0); apply Hd. }
  destruct (collect_rows l from upto target [] upto) as [[rows nid] lim] eqn:Ec.
  destruct (collect_rows_spec _ _ _ _ _ _ _ _ _ _ Hl Ec) as [-> H2]. exists ([] ++ rows_of from (if lim then nid else upto) l), nid, lim.
  split; [done|]. cbn [app]. split; [by apply (slice_rows t)|]. destruct lim; [lia|done].
Qed.

(** A process asks until it is told that it has everything; [None] if it has to ask
    more than [fuel] times. *)
Fixpoint catch_up (fuel : nat) (q : PresenceFederationQueue) (from upto target : Z) : option (py (list fq_row)) :=
  match fuel with
  | O => None
  | S fuel =>
      match get_replication_rows remote q (fq_instance_name q) from upto target with
      | Raise e => Some (Raise e)
      | Ok (rows, nid, true) => fmap (M := py) (rows ++.) <$> catch_up fuel q nid upto target
      | Ok (rows, nid, false) => Some (Ok rows)
      end
  end.

Lemma rows_of_split a b d l :
  (∀ i j x y, (i < j)%nat → l !! i = Some x → l !! j = Some y → qi_stream_id x < qi_stream_id y) →
  a ≤ b → b ≤ d → rows_of a d l = rows_of a b l ++ rows_of b d l.
Proof using Type.
  intros Hs Hab Hbd. induction l as [|x l IH]; [done|].
  rewrite !rows_of_cons, IH; [|intros i j y z Hij Hy Hz; by apply (Hs (S i) (S j)); [lia|..]].
  unfold between. destruct (decide (qi_stream_id x ≤ b)) as [Hle|Hgt].
  - assert (b <? qi_stream_id x = false) as -> by (apply Z.ltb_ge; lia).
    assert (qi_stream_id x <=? b = true) as -> by (apply Z.leb_le; lia).
    assert (qi_stream_id x <=? d = true) as -> by (apply Z.leb_le; lia). cbn. by rewrite (assoc_L (++)).
  - assert (rows_of a b l = []) as ->.
    { apply rows_of_none. intros y [i Hi]%list_elem_of_lookup. specialize (Hs 0%nat (S i) x y ltac:(lia) eq_refl Hi).
      unfold between. by rewrite (proj2 (Z.leb_gt _ b)), andb_false_r by lia. }
    assert (qi_stream_id x <=? b = false) as -> by (apply Z.leb_gt; lia).
    assert (b <? qi_stream_id x = true) as -> by (apply Z.ltb_lt; lia).
    assert (a <? qi_stream_id x = true) as -> by (apply Z.ltb_lt; lia). rewrite andb_false_r. done.
Qed.

Lemma catch_up_spec fuel t q from upto target :
  fq_ok t q → fq_next_id q - from ≤ Z.of_nat fuel → (0 < fuel)%nat →
  catch_up fuel q from upto target = Some (Ok (rows_of from upto (fq_queue q))).
Proof using Type.
  intros Hq. revert from. induction fuel as [|fuel IH]; intros from Hf Hpos; [lia|]. cbn [catch_up].
  destruct (own_rows t q from upto target Hq) as (rows & nid & lim & -> & -> & Hn).
  destruct lim; [|done]. rewrite IH by lia. cbn. do 2 f_equal. symmetry. apply rows_of_split; [|lia|lia].
  intros i j x y Hij Hx Hy. rewrite (fq_ids _ _ Hq i x Hx), (fq_ids _ _ Hq j y Hy). lia.
Qed.
End Replication.

(** ** The writer and a process that sends *)

Inductive fq_op : Type :=
  | FQSend (now : Z) (states : list UserPresenceState) (destinations : list string)
  | FQClear (now : Z).

Definition fq_time (o : fq_op) : Z := match o with FQSend now _ _ | FQClear now => now end.

Definition run_fq (q : PresenceFederationQueue) (o : fq_op) : py PresenceFederationQueue :=
  match o with
  | FQSend now states dests => send_presence_to_destinations q now states dests
  | FQClear now => Ok (clear_queue q now)
  end.

(** Operations at times that do not go back *)
Fixpoint fq_in_order (t : Z) (l : list fq_op) : Prop :=
  match l with [] => True | o :: l => t ≤ fq_time o ∧ fq_in_order (fq_time o) l end.

Definition fq_last_time (t : Z) (l : list fq_op) : Z := foldl (λ _ o, fq_time o) t l.

Lemma run_fq_ok t q o q' : fq_ok t q → t ≤ fq_time o → run_fq q o = Ok q' → fq_ok (fq_time o) q'.
Proof.
  destruct o; cbn; intros Hq Ht Hr; [by eapply send_ok|]. injection Hr as <-. by eapply clear_queue_ok.
Qed.

Lemma fq_in_order_last t l : fq_in_order t l → t ≤ fq_last_time t l.
Proof.
  revert t. induction l as [|o l IH]; intros t; cbn; [lia|]. intros [? Hl]. specialize (IH _ Hl).
  unfold fq_last_time in *. lia.
Qed.

(** What is queued stays for five minutes. *)
Lemma run_fq_keeps l t q q' x :
  fq_ok t q → fq_in_order t l → py_fold run_fq q l = Ok q' → x ∈ fq_queue q →
  fq_last_time t l - KEEP_ITEMS_IN_QUEUE_FOR_MS ≤ qi_time x →
  x ∈ fq_queue q' ∧ fq_ok (fq_last_time t l) q'.
Proof.
  revert t q. induction l as [|o l IH]; intros t q Hq Ho Hr Hx Hk; cbn [py_fold] in Hr; [by injection Hr as <-|].
  destruct Ho as [Ht Ho]. apply py_bind_Ok in Hr as (q1 & H1 & Hr).
  change (fq_last_time t (o :: l)) with (fq_last_time (fq_time o) l) in *.
  eapply IH; [by eapply run_fq_ok|done|done| |done].
  destruct o; cbn in *; [by eapply send_ok|]. injection H1 as <-. eapply clear_queue_keeps; [done|done|].
  pose proof (fq_in_order_last _ _ Ho). lia.
Qed.

Lemma elem_of_rows a b l i d u :
  i ∈ l → a < qi_stream_id i ≤ b → d ∈ qi_destinations i → u ∈ qi_user_ids i →
  (qi_stream_id i, (d, u)) ∈ rows_of a b l.
Proof.
  intros Hi Hab Hd Hu. unfold rows_of, item_rows. apply list_elem_of_bind. exists i. split.
  - apply list_elem_of_bind. exists d. split; [|done]. apply list_elem_of_bind. exists u.
    split; [by left|by apply elem_of_elements].
  - apply list_elem_of_In, filter_In. split; [by apply list_elem_of_In|]. unfold between.
    apply andb_true_iff. rewrite Z.ltb_lt, Z.leb_le. lia.
Qed.

(** Presence given to the queue reaches a process that asks within five minutes:
    after any further operations, the process that asks again and again from a
    position before it gets a row for each destination and user, in a bounded
    number of requests, whatever their size; and no row is sent that was not
    queued after its position. *)
Theorem recent_presence_delivered remote q t states dests now q1 later q2 from upto target d u :
  fq_ok t q → t ≤ now → fq_presence_writer q = true → fq_queue_presence_updates q = true →
  states ≠ [] → send_presence_to_destinations q now states dests = Ok q1 →
  fq_in_order now later → py_fold run_fq q1 later = Ok q2 →
  fq_last_time now later - now ≤ KEEP_ITEMS_IN_QUEUE_FOR_MS →
  from < fq_next_id q ≤ upto → d ∈ dests → u ∈ map us_user_id states →
  ∃ rows, catch_up remote (Z.to_nat (fq_next_id q2 - from) + 1) q2 from upto target = Some (Ok rows) ∧
    (fq_next_id q, (d, u)) ∈ rows ∧ rows = rows_of from upto (fq_queue q2).
Proof.
  intros Hq Ht Hw Hqueue Hst Hs Hord Hr Hk Hfrom Hd Hu.
  pose proof (send_ok _ _ _ _ _ _ Hq Ht Hs) as [Hq1 _].
  set (x := QueueItem now (fq_next_id q) dests (list_to_set (map us_user_id states))).
  assert (x ∈ fq_queue q1) as Hx.
  { unfold send_presence_to_destinations in Hs. rewrite Hw in Hs. cbn [negb raise_if mbind py_bind] in Hs.
    rewrite (bool_decide_eq_false_2 (states = [])), (bool_decide_eq_false_2 (dests = [])) in Hs
      by (done || intros ->; inversion Hd).
    cbn [orb] in Hs. destruct (fq_federation q); cbn in Hs; rewrite Hqueue in Hs; injection Hs as <-; cbn;
      apply elem_of_app; right; by left. }
  destruct (run_fq_keeps later now q1 q2 x Hq1 Hord Hr Hx) as [Hx2 Hq2]; [cbn; lia|].
  exists (rows_of from upto (fq_queue q2)). split_and!; [|apply (elem_of_rows _ _ _ x); cbn; [done|done|done|]|done].
  - eapply catch_up_spec; [exact Hq2|lia|lia].
  - by apply elem_of_list_to_set.
Qed.

Definition queue_example : PresenceFederationQueue := new_federation_queue "master" true false false.
Definition example_states : list UserPresenceState := [default_user "@a:here"].

Lemma recent_presence_delivered_witness :
  ∃ q1 q2 rows, send_presence_to_destinations queue_example 1000 example_states ["far"] = Ok q1 ∧
    py_fold run_fq q1 [FQSend 2000 example_states ["far"; "away"]; FQClear 300000] = Ok q2 ∧
    catch_up (λ _ _ _, Raise KeyError) (Z.to_nat (fq_next_id q2 - 0) + 1) q2 0 5 0 = Some (Ok rows) ∧
    (1, ("far", "@a:here")) ∈ rows.
Proof.
  destruct (send_presence_to_destinations queue_example 1000 example_states ["far"]) as [q1|] eqn:E1;
    [|vm_compute in E1; discriminate E1].
  destruct (py_fold run_fq q1 [FQSend 2000 example_states ["far"; "away"]; FQClear 300000]) as [q2|] eqn:E2.
  2:{ vm_compute in E1. injection E1 as <-. vm_compute in E2. discriminate E2. }
  destruct (recent_presence_delivered (λ _ _ _, Raise KeyError) queue_example 0 example_states ["far"] 1000 q1
    [FQSend 2000 example_states ["far"; "away"]; FQClear 300000] q2 0 5 0 "far" "@a:here"
    (new_queue_ok _ _ _ _ _) ltac:(lia) eq_refl eq_refl ltac:(discriminate) E1
    ltac:(cbn; lia) E2 ltac:(vm_compute; discriminate) ltac:(cbn; lia) ltac:(by left) ltac:(by left))
    as (rows & Hc & Hin & _).
  exists q1, q2, rows. split_and!; [reflexivity|exact E2|exact Hc|exact Hin].
Defined.
