(* ===== verification/Linearizer.v ===== *)
(** * The class [Linearizer] of [synapse/util/async_helpers.py]

    Coroutines interleave only where they await; each stretch between two awaits
    is a function here, and the coroutines that use a linearizer are put together
    as a step relation in which anything may happen between them: new arrivals,
    cancellations, releases.

    A [Deferred] is known by the number of the coroutine that created it; calling
    it back wakes the coroutine that awaits it.  Logging and log contexts are left
    out. *)

From S2P Require Import Prelude.

Open Scope Z_scope.

Section Linearizer.
Context {K : Type} `{Countable K} (max_count : Z).

(** [_LinearizerEntry]; the values of [deferreds], all 1, are left out *)
Record LinearizerEntry : Type := LEntry { count : Z; deferreds : list nat }.

(** Entries are objects, shared by the dict and the coroutines: [lin_heap] holds
    them, the dict and the coroutines refer to them by number. *)
Record Linearizer : Type := MkLinearizer {
  key_to_defer : gmap K nat;
  lin_heap : gmap nat LinearizerEntry;
  lin_next : nat;
}.

Definition new_linearizer : Linearizer := MkLinearizer ∅ ∅ 0.

Definition set_entry (s : Linearizer) (l : nat) (e : LinearizerEntry) : Linearizer :=
  MkLinearizer (key_to_defer s) (<[l := e]> (lin_heap s)) (lin_next s).

Definition get_entry (s : Linearizer) (l : nat) : LinearizerEntry := default (LEntry 0 []) (lin_heap s !! l).

Definition is_queued (s : Linearizer) (key : K) : bool :=
  match key_to_defer s !! key with
  | None => false
  | Some l => negb (bool_decide (deferreds (get_entry s l) = []))
  end.

(** [self.key_to_defer.setdefault(key, _LinearizerEntry(0, ...))] *)
Definition setdefault_entry (s : Linearizer) (key : K) : Linearizer * nat :=
  match key_to_defer s !! key with
  | Some l => (s, l)
  | None =>
      let l := lin_next s in
      (MkLinearizer (<[key := l]> (key_to_defer s)) (<[l := LEntry 0 []]> (lin_heap s)) (S l), l)
  end.

(** [_acquire_lock] up to its first [await]: the entry, and whether the lock is
    acquired at once *)
Definition acquire_lock (s : Linearizer) (key : K) (new_defer : nat) : Linearizer * nat * bool :=
  let '(s, l) := setdefault_entry s key in
  let entry := get_entry s l in
  if count entry <? max_count then (set_entry s l (LEntry (count entry + 1) (deferreds entry)), l, true)
  else (set_entry s l (LEntry (count entry) (deferreds entry ++ [new_defer])), l, false).

(** When the wait for [new_defer] is cancelled *)
Definition cancel_wait (s : Linearizer) (l : nat) (new_defer : nat) : py Linearizer :=
  let entry := get_entry s l in
  raise_if (negb (bool_decide (new_defer ∈ deferreds entry))) KeyError ;;
  Ok (set_entry s l (LEntry (count entry) (List.filter (λ d, negb (bool_decide (d = new_defer))) (deferreds entry)))).

(** When [new_defer] has been called back, up to [sleep(0)] *)
Definition resume_acquire (s : Linearizer) (l : nat) : Linearizer :=
  let entry := get_entry s l in set_entry s l (LEntry (count entry + 1) (deferreds entry)).

(** [_release_lock], and the deferred it is going to call back *)
Definition release_lock (s : Linearizer) (key : K) (l : nat) : py (Linearizer * option nat) :=
  let entry := get_entry s l in
  let count := count entry - 1 in
  match deferreds entry with
  | next_def :: rest => Ok (set_entry s l (LEntry count rest), Some next_def)
  | [] =>
      let s := set_entry s l (LEntry count []) in
      if count =? 0 then
        raise_if (bool_decide (key_to_defer s !! key = None)) KeyError ;;
        Ok (MkLinearizer (delete key (key_to_defer s)) (lin_heap s) (lin_next s), None)
      else Ok (s, None)
  end.

(** *** The coroutines *)

(** Where a coroutine in [queue(key)] is, with its variable [entry] *)
Inductive lin_phase : Type := LWaiting | LSleeping | LHolding.

#[export] Instance lin_phase_eq_dec : EqDecision lin_phase.
Proof. solve_decision. Defined.

Record lin_system : Type := LinSystem {
  lin : Linearizer;
  lin_tasks : gmap nat (lin_phase * K * nat);
}.

(** [_release_lock] by a coroutine: the waiting one runs within [callback(None)] *)
Definition run_release (s : lin_system) (t : nat) (key : K) (l : nat) : py lin_system :=
  '(q, next) ← release_lock (lin s) key l;
  let tasks := delete t (lin_tasks s) in
  match next with
  | None => Ok (LinSystem q tasks)
  | Some u =>
      match tasks !! u with
      | Some (LWaiting, key', l') => Ok (LinSystem (resume_acquire q l') (<[u := (LSleeping, key', l')]> tasks))
      | _ => Raise AssertionError
      end
  end.

Inductive lin_event : Type :=
  | LAcquire (t : nat) (key : K)
  | LSlept (t : nat)
  | LCancel (t : nat)
  | LRelease (t : nat).

Inductive lin_step : lin_system → lin_event → py lin_system → Prop :=
  | lin_acquire s t key q l acquired :
      lin_tasks s !! t = None → acquire_lock (lin s) key t = (q, l, acquired) →
      lin_step s (LAcquire t key)
        (Ok (LinSystem q (<[t := (if acquired then LHolding else LWaiting, key, l)]> (lin_tasks s))))
  | lin_slept s t key l :
      lin_tasks s !! t = Some (LSleeping, key, l) →
      lin_step s (LSlept t) (Ok (LinSystem (lin s) (<[t := (LHolding, key, l)]> (lin_tasks s))))
  | lin_cancel_wait s t key l :
      lin_tasks s !! t = Some (LWaiting, key, l) →
      lin_step s (LCancel t)
        (q ← cancel_wait (lin s) l t; Ok (LinSystem q (delete t (lin_tasks s))))
  | lin_cancel_sleep s t key l :
      lin_tasks s !! t = Some (LSleeping, key, l) → lin_step s (LCancel t) (run_release s t key l)
  | lin_release s t key l :
      lin_tasks s !! t = Some (LHolding, key, l) → lin_step s (LRelease t) (run_release s t key l).

Inductive lin_reachable : lin_system → Prop :=
  | lin_start : lin_reachable (LinSystem new_linearizer ∅)
  | lin_next_state s e s' : lin_reachable s → lin_step s e (Ok s') → lin_reachable s'.

(** The coroutines that have the lock of a key *)
Definition holds (key : K) (x : lin_phase * K * nat) : Prop := x.1.2 = key ∧ x.1.1 ≠ LWaiting.
#[export] Instance holds_dec key x : Decision (holds key x).
Proof. unfold holds. apply _. Defined.

Definition holders (tasks : gmap nat (lin_phase * K * nat)) (key : K) : gset nat :=
  dom (filter (λ p, holds key p.2) tasks).

(** ** The invariant *)

Lemma elem_of_holders m key t : t ∈ holders m key ↔ ∃ ph l, m !! t = Some (ph, key, l) ∧ ph ≠ LWaiting.
Proof using Type.
  unfold holders. rewrite elem_of_dom. split.
  - intros [[[ph k] l] Hx]. apply map_lookup_filter_Some in Hx as [Hm [Hk Hph]]. cbn in *. subst. eauto.
  - intros (ph & l & Hm & Hph). exists (ph, key, l). by apply map_lookup_filter_Some.
Qed.

(** The coroutine [t] begins to hold [key]. *)
Lemma holders_gain m key t l ph k :
  t ∉ holders m k → ph ≠ LWaiting →
  size (holders (<[t := (ph, key, l)]> m) k) = ((if decide (k = key) then 1 else 0) + size (holders m k))%nat.
Proof using Type.
  intros Ht Hph. destruct (decide (k = key)) as [->|Hne].
  - replace (holders (<[t := (ph, key, l)]> m) key) with ({[t]} ∪ holders m key).
    { rewrite size_union, size_singleton; [done|]. set_solver. }
    apply set_eq. intros u. rewrite elem_of_union, elem_of_singleton, !elem_of_holders.
    destruct (decide (u = t)) as [->|].
    + rewrite lookup_insert_eq. naive_solver.
    + rewrite lookup_insert_ne by done. naive_solver.
  - cbn [Nat.add]. f_equal. apply set_eq. intros u. rewrite !elem_of_holders. destruct (decide (u = t)) as [->|].
    + rewrite lookup_insert_eq. split; [naive_solver|]. intros Hx. destruct Ht. by apply elem_of_holders.
    + by rewrite lookup_insert_ne.
Qed.

(** It waits, or goes while it waits. *)
Lemma holders_wait m key t l k : t ∉ holders m k → holders (<[t := (LWaiting, key, l)]> m) k = holders m k.
Proof using Type.
  intros Ht. apply set_eq. intros u. rewrite !elem_of_holders. destruct (decide (u = t)) as [->|].
  - rewrite lookup_insert_eq. split; [naive_solver|]. intros Hx. destruct Ht. by apply elem_of_holders.
  - by rewrite lookup_insert_ne.
Qed.

Lemma holders_leave m t k : t ∉ holders m k → holders (delete t m) k = holders m k.
Proof using Type.
  intros Ht. apply set_eq. intros u. rewrite !elem_of_holders. destruct (decide (u = t)) as [->|].
  - rewrite lookup_delete_eq. split; [naive_solver|]. intros Hx. destruct Ht. by apply elem_of_holders.
  - by rewrite lookup_delete_ne.
Qed.

Lemma holders_release m t k : t ∈ holders m k → size (holders m k) = S (size (holders (delete t m) k)).
Proof using Type.
  intros Ht. replace (holders m k) with ({[t]} ∪ holders (delete t m) k).
  { rewrite size_union, size_singleton; [done|]. intros u ->%elem_of_singleton Hu.
    apply elem_of_holders in Hu as (ph & l & Hu & _). by rewrite lookup_delete_eq in Hu. }
  apply set_eq. intros u. rewrite elem_of_union, elem_of_singleton.
  destruct (decide (u = t)) as [->|]; [naive_solver|]. rewrite !elem_of_holders, lookup_delete_ne by done. naive_solver.
Qed.

(** What holds of the entry of a key in use *)
Record entry_ok (m : gmap nat (lin_phase * K * nat)) (key : K) (l : nat) (e : LinearizerEntry) : Prop := {
  e_count : count e = Z.of_nat (size (holders m key));
  e_queue : NoDup (deferreds e);
  e_waiting : ∀ t, t ∈ deferreds e ↔ m !! t = Some (LWaiting, key, l);
  e_full : deferreds e ≠ [] → count e = max_count;
  e_used : 0 < count e ≤ max_count;
}.

Record lin_ok (s : lin_system) : Prop := {
  l_task : ∀ t ph key l, lin_tasks s !! t = Some (ph, key, l) → key_to_defer (lin s) !! key = Some l;
  l_entry : ∀ key l, key_to_defer (lin s) !! key = Some l →
    (l < lin_next (lin s))%nat ∧ ∃ e, lin_heap (lin s) !! l = Some e ∧ entry_ok (lin_tasks s) key l e;
  l_inj : ∀ key key' l, key_to_defer (lin s) !! key = Some l → key_to_defer (lin s) !! key' = Some l → key = key';
}.

(** The entry of a key depends only on the coroutines that use the key. *)
Lemma entry_ok_other m m' key l e :
  (∀ t, (∃ ph l', m !! t = Some (ph, key, l')) ∨ (∃ ph l', m' !! t = Some (ph, key, l')) → m' !! t = m !! t) →
  entry_ok m key l e → entry_ok m' key l e.
Proof using Type.
  intros Hm []. assert (holders m' key = holders m key) as Hh.
  { apply set_eq. intros u. rewrite !elem_of_holders. split; intros (ph & l' & Hu & Hph); exists ph, l'.
    - rewrite <- Hm; [done|]. right. eauto.
    - rewrite Hm; [done|]. left. eauto. }
  split; try done; [by rewrite Hh|]. intros t. rewrite e_waiting0. split; intros Ht.
  - rewrite Hm; [done|]. left. eauto.
  - rewrite <- Hm; [done|]. right. eauto.
Qed.

(** Coroutines of other keys are as before. *)
Definition same_but (key : K) (m m' : gmap nat (lin_phase * K * nat)) : Prop :=
  ∀ t ph k l, k ≠ key → m' !! t = Some (ph, k, l) ↔ m !! t = Some (ph, k, l).

Lemma same_but_insert key m t ph l :
  (∀ ph' k l', m !! t = Some (ph', k, l') → k = key) → same_but key m (<[t := (ph, key, l)]> m).
Proof using Type.
  intros Ht u ph' k l' Hk. destruct (decide (u = t)) as [->|]; [|by rewrite lookup_insert_ne].
  rewrite lookup_insert_eq. split; [naive_solver|]. intros Hu. by destruct Hk; eapply Ht.
Qed.

Lemma same_but_delete key m t :
  (∀ ph' k l', m !! t = Some (ph', k, l') → k = key) → same_but key m (delete t m).
Proof using Type.
  intros Ht u ph' k l' Hk. destruct (decide (u = t)) as [->|]; [|by rewrite lookup_delete_ne].
  rewrite lookup_delete_eq. split; [naive_solver|]. intros Hu. by destruct Hk; eapply Ht.
Qed.

Lemma same_but_trans key m1 m2 m3 : same_but key m1 m2 → same_but key m2 m3 → same_but key m1 m3.
Proof using Type. intros H1 H2 t ph k l Hk. etrans; [by apply H2|by apply H1]. Qed.

Lemma same_but_entry key k m m' l e : k ≠ key → same_but key m m' → entry_ok m k l e → entry_ok m' k l e.
Proof using Type.
  intros Hk Hm. apply entry_ok_other. intros t [(ph & l' & Ht)|(ph & l' & Ht)].
  - by rewrite Ht; apply Hm.
  - rewrite Ht. symmetry. by apply Hm.
Qed.

(** An operation on one key keeps the invariant if it does so for this key. *)
Lemma lin_ok_update s key l q' m' e :
  lin_ok s →
  (key_to_defer (lin s) !! key = Some l ∨ key_to_defer (lin s) !! key = None ∧ l = lin_next (lin s)) →
  key_to_defer q' = <[key := l]> (key_to_defer (lin s)) → lin_heap q' !! l = Some e →
  (∀ l', l' ≠ l → lin_heap q' !! l' = lin_heap (lin s) !! l') →
  (lin_next (lin s) ≤ lin_next q')%nat → (l < lin_next q')%nat →
  same_but key (lin_tasks s) m' → (∀ t ph l', m' !! t = Some (ph, key, l') → l' = l) →
  entry_ok m' key l e → lin_ok (LinSystem q' m').
Proof using Type.
  intros Hs Hl Hk He Hh Hn Hln Hm Hml Hok.
  assert (∀ k l', k ≠ key → key_to_defer (lin s) !! k = Some l' → l' ≠ l) as Hdiff.
  { intros k l' Hne Hk' ->. destruct Hl as [Hl|[_ ->]].
    - by destruct Hne; eapply l_inj.
    - apply (l_entry _ Hs) in Hk' as [? _]. lia. }
  split; cbn.
  - intros t ph k l' Ht. rewrite Hk. destruct (decide (k = key)) as [->|Hne].
    + rewrite lookup_insert_eq. f_equal. symmetry. by eapply Hml.
    + rewrite lookup_insert_ne by done. apply Hm in Ht; [|done]. by eapply l_task.
  - intros k l'. rewrite Hk, lookup_insert_Some. intros [[<- <-]|[Hne Hkl]].
    { split; [done|]. by exists e. }
    destruct (l_entry _ Hs _ _ Hkl) as [Hlt (e' & He' & Hok')]. split; [lia|]. exists e'. split.
    + rewrite Hh; [done|]. by eapply Hdiff.
    + by eapply same_but_entry.
  - intros k k' l'. rewrite Hk, !lookup_insert_Some. intros [[<- <-]|[Hne Hkl]] [[<- Hl']|[Hne' Hkl']]; [done| | |].
    + by destruct (Hdiff k' l).
    + subst l'. by destruct (Hdiff k l).
    + by eapply l_inj.
Qed.

Lemma lin_ok_delete s key l q' m' :
  lin_ok s → key_to_defer (lin s) !! key = Some l →
  key_to_defer q' = delete key (key_to_defer (lin s)) →
  (∀ l', l' ≠ l → lin_heap q' !! l' = lin_heap (lin s) !! l') → lin_next q' = lin_next (lin s) →
  same_but key (lin_tasks s) m' → (∀ t ph l', m' !! t ≠ Some (ph, key, l')) →
  lin_ok (LinSystem q' m').
Proof using Type.
  intros Hs Hl Hk Hh Hn Hm Hml. split; cbn.
  - intros t ph k l' Ht. rewrite Hk. destruct (decide (k = key)) as [->|Hne]; [by destruct (Hml _ _ _ Ht)|].
    rewrite lookup_delete_ne by done. apply Hm in Ht; [|done]. by eapply l_task.
  - intros k l'. rewrite Hk, Hn, lookup_delete_Some. intros [Hne Hkl].
    destruct (l_entry _ Hs _ _ Hkl) as [Hlt (e' & He' & Hok')]. split; [done|]. exists e'. split.
    + rewrite Hh; [done|]. intros ->. by destruct Hne; eapply l_inj.
    + by eapply same_but_entry.
  - intros k k' l'. rewrite Hk, !lookup_delete_Some. intros [? ?] [? ?]. by eapply l_inj.
Qed.

Context (max_pos : 0 < max_count).

Lemma not_holder_fresh m t k : m !! t = None → t ∉ holders m k.
Proof using Type. intros Ht (ph & l & Hx & _)%elem_of_holders. congruence. Qed.

Lemma not_holder_waiting m t key l k : m !! t = Some (LWaiting, key, l) → t ∉ holders m k.
Proof using Type. intros Ht (ph & l' & Hx & Hph)%elem_of_holders. congruence. Qed.

Lemma acquire_ok s t key q l b :
  lin_ok s → lin_tasks s !! t = None → acquire_lock (lin s) key t = (q, l, b) →
  lin_ok (LinSystem q (<[t := (if b then LHolding else LWaiting, key, l)]> (lin_tasks s))).
Proof using max_pos.
  intros Hs Ht. unfold acquire_lock, setdefault_entry.
  assert (∀ ph' k l', lin_tasks s !! t = Some (ph', k, l') → k = key) as Hfresh by (intros; congruence).
  destruct (key_to_defer (lin s) !! key) as [l0|] eqn:Ek.
  - destruct (l_entry _ Hs _ _ Ek) as [Hlt (e & He & [])]. unfold get_entry. rewrite He. cbn [default from_option id].
    assert (∀ x u ph l', <[t := (x, key, l0)]> (lin_tasks s) !! u = Some (ph, key, l') → l' = l0) as Hml.
    { intros x u ph l'. rewrite lookup_insert_Some. intros [[_ Heq]|[_ Hu]]; [by simplify_eq|].
      apply (l_task _ Hs) in Hu. congruence. }
    destruct (count e <? max_count) eqn:Ec; to_prop; intros [= <- <- <-].
    + eapply lin_ok_update; cbn; [done|by left|by rewrite insert_id|apply lookup_insert_eq|
        intros; by apply lookup_insert_ne|lia|done|by apply same_but_insert|apply Hml|].
      assert (deferreds e = []) as Hnil by (destruct (decide (deferreds e = [])); [done|]; rewrite e_full0 in Ec by done; lia).
      split; cbn; try done; [| |lia].
      * rewrite holders_gain, decide_True by (done || by apply not_holder_fresh). lia.
      * intros u. rewrite e_waiting0. destruct (decide (u = t)) as [->|]; [rewrite lookup_insert_eq, Ht; naive_solver|].
        by rewrite lookup_insert_ne.
    + eapply lin_ok_update; cbn; [done|by left|by rewrite insert_id|apply lookup_insert_eq|
        intros; by apply lookup_insert_ne|lia|done|by apply same_but_insert|apply Hml|].
      split; cbn; try done; [| | |lia].
      * by rewrite holders_wait by by apply not_holder_fresh.
      * apply NoDup_app. split_and!; [done| |apply NoDup_singleton].
        intros u Hu ->%list_elem_of_singleton. apply e_waiting0 in Hu. congruence.
      * intros u. rewrite elem_of_app, e_waiting0, list_elem_of_singleton.
        destruct (decide (u = t)) as [->|]; [rewrite lookup_insert_eq; naive_solver|].
        rewrite lookup_insert_ne by done. naive_solver.
  - cbn. unfold get_entry. cbn. rewrite lookup_insert_eq. cbn. rewrite (proj2 (Z.ltb_lt 0 max_count)) by done.
    intros [= <- <- <-].
    assert (∀ u ph l', lin_tasks s !! u ≠ Some (ph, key, l')) as Hno.
    { intros u ph l' Hu. apply (l_task _ Hs) in Hu. congruence. }
    eapply lin_ok_update; cbn; [done|by right|done|apply lookup_insert_eq|
      intros; by rewrite !lookup_insert_ne|lia|lia|by apply same_but_insert| |].
    + intros u ph l'. rewrite lookup_insert_Some. intros [[_ Heq]|[_ Hu]]; [by simplify_eq|]. by apply Hno in Hu.
    + assert (size (holders (lin_tasks s) key) = 0%nat) as Hz.
      { apply size_empty_iff. intros u. rewrite elem_of_holders. split; [|set_solver].
        intros (ph & l' & Hu & _). by apply Hno in Hu. }
      split; cbn; try done; [|constructor| |lia].
      * rewrite holders_gain, decide_True, Hz by (done || by apply not_holder_fresh). lia.
      * intros u. rewrite elem_of_nil. split; [done|].
        destruct (decide (u = t)) as [->|]; [by rewrite lookup_insert_eq|].
        rewrite lookup_insert_ne by done. intros Hu. by apply Hno in Hu.
Qed.

Lemma slept_ok s t key l :
  lin_ok s → lin_tasks s !! t = Some (LSleeping, key, l) →
  lin_ok (LinSystem (lin s) (<[t := (LHolding, key, l)]> (lin_tasks s))).
Proof using Type.
  intros Hs Ht. pose proof (l_task _ Hs _ _ _ _ Ht) as Hk. destruct (l_entry _ Hs _ _ Hk) as [Hlt (e & He & [])].
  eapply lin_ok_update; [done|by left|by rewrite insert_id|exact He|done|lia|done| | |].
  - apply same_but_insert. intros ph' k l' ?. congruence.
  - intros u ph l'. rewrite lookup_insert_Some. intros [[_ Heq]|[_ Hu]]; [by simplify_eq|].
    apply (l_task _ Hs) in Hu. congruence.
  - assert (holders (<[t := (LHolding, key, l)]> (lin_tasks s)) key = holders (lin_tasks s) key) as Hh.
    { apply set_eq. intros u. rewrite !elem_of_holders. destruct (decide (u = t)) as [->|].
      - rewrite lookup_insert_eq, Ht. naive_solver.
      - by rewrite lookup_insert_ne. }
    split; try done; [by rewrite Hh|]. intros u. rewrite e_waiting0. destruct (decide (u = t)) as [->|].
    + rewrite lookup_insert_eq, Ht. naive_solver.
    + by rewrite lookup_insert_ne.
Qed.

Lemma cancel_wait_ok s t key l :
  lin_ok s → lin_tasks s !! t = Some (LWaiting, key, l) →
  ∃ q, cancel_wait (lin s) l t = Ok q ∧ lin_ok (LinSystem q (delete t (lin_tasks s))).
Proof using Type.
  intros Hs Ht. pose proof (l_task _ Hs _ _ _ _ Ht) as Hk. destruct (l_entry _ Hs _ _ Hk) as [Hlt (e & He & [])].
  unfold cancel_wait, get_entry. rewrite He. cbn [default from_option id].
  rewrite bool_decide_eq_true_2 by by apply e_waiting0. eexists. split; [done|].
  set (ds := List.filter _ (deferreds e)).
  assert (∀ u, u ∈ ds ↔ u ≠ t ∧ u ∈ deferreds e) as Hds.
  { intros u. subst ds. rewrite !list_elem_of_In, filter_In.
    destruct (bool_decide_reflect (u = t)); cbn; naive_solver. }
  eapply lin_ok_update; [done|by left|by rewrite insert_id|apply lookup_insert_eq|
    intros; by apply lookup_insert_ne|cbn; lia|done| | |].
  - apply same_but_delete. intros ph' k l' ?. congruence.
  - intros u ph l'. rewrite lookup_delete_Some. intros [_ Hu]. apply (l_task _ Hs) in Hu. congruence.
  - split; cbn; [| | | |done].
    + by rewrite holders_leave by by eapply not_holder_waiting.
    + subst ds. apply NoDup_ListNoDup, List.NoDup_filter. by apply NoDup_ListNoDup.
    + intros u. rewrite Hds, e_waiting0, lookup_delete_Some. naive_solver.
    + intros Hne. apply e_full0. intros Hnil. apply Hne. subst ds. by rewrite Hnil.
Qed.

(** A coroutine that holds the lock releases it, and wakes the first that waits. *)
Lemma release_ok s t ph key l :
  lin_ok s → lin_tasks s !! t = Some (ph, key, l) → ph ≠ LWaiting →
  ∃ s', run_release s t key l = Ok s' ∧ lin_ok s' ∧
    match deferreds (get_entry (lin s) l) with
    | [] => lin_tasks s' = delete t (lin_tasks s)
    | u :: _ => lin_tasks s' = <[u := (LSleeping, key, l)]> (delete t (lin_tasks s))
    end.
Proof using max_pos.
  intros Hs Ht Hph. pose proof (l_task _ Hs _ _ _ _ Ht) as Hk. destruct (l_entry _ Hs _ _ Hk) as [Hlt (e & He & [])].
  assert (t ∈ holders (lin_tasks s) key) as Hth by (apply elem_of_holders; eauto).
  pose proof (holders_release _ _ _ Hth) as Hsize.
  assert (same_but key (lin_tasks s) (delete t (lin_tasks s))) as Hdel
    by (apply same_but_delete; intros ph' k l' ?; congruence).
  unfold run_release, release_lock, get_entry. rewrite He. cbn [default from_option id].
  destruct (deferreds e) as [|u rest] eqn:Ed.
  - destruct (count e - 1 =? 0) eqn:Ec; to_prop.
    + cbn [key_to_defer set_entry]. rewrite bool_decide_eq_false_2 by congruence.
      eexists. split; [done|]. split; [|done]. eapply lin_ok_delete; cbn; try done.
      { intros; by apply lookup_insert_ne. }
      intros v ph' l' Hv. assert (size (holders (delete t (lin_tasks s)) key) = 0%nat) as Hz by lia.
      apply size_empty_iff in Hz. destruct (decide (ph' = LWaiting)) as [->|Hne].
      * apply lookup_delete_Some in Hv as [_ Hv]. pose proof (l_task _ Hs _ _ _ _ Hv).
        assert (l' = l) as -> by congruence. apply e_waiting0 in Hv. inversion Hv.
      * assert (v ∈ holders (delete t (lin_tasks s)) key) as Hin by (apply elem_of_holders; eauto). set_solver.
    + eexists. split; [done|]. split; [|done].
      eapply lin_ok_update; [done|by left|by rewrite insert_id|apply lookup_insert_eq|
        intros; by apply lookup_insert_ne|cbn; lia|done|done| |].
      { intros v ph' l'. rewrite lookup_delete_Some. intros [_ Hv]. apply (l_task _ Hs) in Hv. congruence. }
      split; cbn; try done; [lia| |lia]. intros v. rewrite e_waiting0, lookup_delete_Some.
      split; [|naive_solver]. intros Hv. split; [|done]. intros ->. congruence.
  - assert (u ≠ t ∧ lin_tasks s !! u = Some (LWaiting, key, l)) as [Hut Hu].
    { assert (lin_tasks s !! u = Some (LWaiting, key, l)) as Hu by (apply e_waiting0; by left).
      split; [|done]. intros ->. congruence. }
    cbn [mbind py_bind]. rewrite lookup_delete_ne, Hu by done. eexists. split; [done|]. split; [|done].
    unfold resume_acquire, get_entry, set_entry. cbn. rewrite lookup_insert_eq. cbn.
    apply NoDup_cons in e_queue0 as [Hur Hrest].
    eapply lin_ok_update; [done|by left|cbn; by rewrite insert_id|apply lookup_insert_eq|
      intros; cbn; by rewrite !lookup_insert_ne|cbn; lia|done| | |].
    + eapply same_but_trans; [exact Hdel|]. apply same_but_insert. intros ph' k l'.
      rewrite lookup_delete_ne, Hu by done. congruence.
    + intros v ph' l'. rewrite lookup_insert_Some. intros [[_ Heq]|[_ Hv]]; [by simplify_eq|].
      apply lookup_delete_Some in Hv as [_ Hv]. apply (l_task _ Hs) in Hv. congruence.
    + assert (u ∉ holders (delete t (lin_tasks s)) key) as Hnu
        by (eapply (not_holder_waiting _ _ key l); by rewrite lookup_delete_ne).
      split; cbn; [| | | |lia].
      * rewrite holders_gain, decide_True by done. lia.
      * done.
      * intros v. assert (v ∈ rest ↔ v ≠ u ∧ v ∈ u :: rest) as -> by (rewrite elem_of_cons; naive_solver).
        rewrite e_waiting0, lookup_insert_Some, lookup_delete_Some. split.
        -- intros [? Hv]. right. split_and!; [done| |done]. intros ->. congruence.
        -- intros [[-> Heq]|(? & ? & ?)]; [|done]. simplify_eq.
      * intros _. assert (count e = max_count) by by apply e_full0. lia.
Qed.

(** Every step from a good state succeeds and leads to a good one. *)
Lemma lin_step_ok s e r : lin_ok s → lin_step s e r → ∃ s', r = Ok s' ∧ lin_ok s'.
Proof using max_pos.
  intros Hs Hr. destruct Hr as [s t key q l b Ht Hq|s t key l Ht|s t key l Ht|s t key l Ht|s t key l Ht].
  - eexists. split; [done|]. by eapply acquire_ok.
  - eexists. split; [done|]. by apply slept_ok.
  - destruct (cancel_wait_ok s t key l Hs Ht) as (q & -> & Hok). eexists. by split.
  - destruct (release_ok s t _ key l Hs Ht) as (s' & -> & Hok & _); [done|]. by exists s'.
  - destruct (release_ok s t _ key l Hs Ht) as (s' & -> & Hok & _); [done|]. by exists s'.
Qed.

Lemma lin_reachable_ok s : lin_reachable s → lin_ok s.
Proof using max_pos.
  induction 1 as [|s e s' _ IH Hst].
  - split; cbn; intros *; by rewrite lookup_empty.
  - destruct (lin_step_ok _ _ _ IH Hst) as (x & Heq & Hx). by injection Heq as ->.
Qed.

(** [t] is in the queue for [key], behind [i] others. *)
Definition waits_at (s : lin_system) (key : K) (t i : nat) : Prop :=
  ∃ l, key_to_defer (lin s) !! key = Some l ∧ deferreds (get_entry (lin s) l) !! i = Some t.

(** The step [e] gives back a lock on [key]. *)
Definition frees (s : lin_system) (e : lin_event) (key : K) : Prop :=
  ∃ u, u ∈ holders (lin_tasks s) key ∧ (e = LRelease u ∨ e = LCancel u).

Lemma waits_at_task s key t i :
  lin_ok s → waits_at s key t i → ∃ l, key_to_defer (lin s) !! key = Some l ∧
    lin_tasks s !! t = Some (LWaiting, key, l) ∧ deferreds (get_entry (lin s) l) !! i = Some t.
Proof using Type.
  intros Hs (l & Hk & Hi). exists l. split; [done|]. split; [|done].
  destruct (l_entry _ Hs _ _ Hk) as [_ (e & He & Hok)]. unfold get_entry in Hi. rewrite He in Hi.
  apply (e_waiting _ _ _ _ Hok). by eapply list_elem_of_lookup_2.
Qed.

(** Where a filtered list still has an element that stays *)
Lemma filter_position (l : list nat) t u i :
  l !! i = Some t → t ≠ u →
  ∃ j, (j ≤ i)%nat ∧ List.filter (λ d, negb (bool_decide (d = u))) l !! j = Some t.
Proof using Type.
  intros Hi Hne. revert i Hi. induction l as [|x l IH]; intros i Hi; [done|]. cbn [List.filter].
  destruct i as [|i]; cbn in Hi.
  - injection Hi as ->. rewrite bool_decide_eq_false_2 by done. exists 0%nat. by split.
  - destruct (IH i Hi) as (j & Hj & Hf). destruct (bool_decide (x = u)); cbn.
    + exists j. split; [lia|done].
    + exists (S j). split; [lia|done].
Qed.

Lemma setdefault_keeps s key key' l :
  lin_ok s → key_to_defer (lin s) !! key' = Some l →
  key_to_defer (setdefault_entry (lin s) key).1 !! key' = Some l ∧
  get_entry (setdefault_entry (lin s) key).1 l = get_entry (lin s) l.
Proof using Type.
  intros Hs Hk. unfold setdefault_entry. destruct (key_to_defer (lin s) !! key) eqn:E; [done|]. cbn.
  rewrite lookup_insert_ne by congruence. split; [done|]. unfold get_entry. cbn.
  rewrite lookup_insert_ne; [done|]. destruct (l_entry _ Hs _ _ Hk). lia.
Qed.

(** Entering the queue changes nothing for those who wait already. *)
Lemma acquire_keeps_position s key key' t u i q l b :
  lin_ok s → waits_at s key t i → acquire_lock (lin s) key' u = (q, l, b) →
  ∀ m, waits_at (LinSystem q m) key t i.
Proof using Type.
  intros Hs (l0 & Hk & Hi) Ha m. destruct (setdefault_keeps s key' key l0 Hs Hk) as [Hk' He'].
  unfold acquire_lock in Ha. destruct (setdefault_entry (lin s) key') as [q1 l1] eqn:E. cbn [fst] in Hk', He'.
  exists l0. destruct (count (get_entry q1 l1) <? max_count); injection Ha as <- <- <-; (split; [done|]);
    unfold get_entry at 1, set_entry; cbn; (destruct (decide (l1 = l0)) as [->|];
      [rewrite lookup_insert_eq; cbn; rewrite He'|rewrite lookup_insert_ne by done; by rewrite <- He' in Hi]).
  - done.
  - by apply lookup_app_l_Some.
Qed.

(** Releasing a key moves its queue up by one, and leaves the other queues alone. *)
Lemma release_moves_up s key key' t u ph l' i s' :
  lin_ok s → waits_at s key t i → lin_tasks s !! u = Some (ph, key', l') → ph ≠ LWaiting →
  run_release s u key' l' = Ok s' →
  if decide (key = key') then
    match i with O => t ∈ holders (lin_tasks s') key | S j => waits_at s' key t j end
  else waits_at s' key t i.
Proof using Type.
  intros Hs Hw Hu Hph Hr. destruct (waits_at_task _ _ _ _ Hs Hw) as (l & Hk & Ht & Hi).
  pose proof (l_task _ Hs _ _ _ _ Hu) as Hk'.
  destruct (l_entry _ Hs _ _ Hk') as [_ (e' & He' & Hok')].
  unfold run_release, release_lock in Hr. unfold get_entry in Hr at 1 2 3 4. rewrite He' in Hr. cbn [default from_option id] in Hr.
  case_decide as Hkk.
  - subst key'. assert (l' = l) as -> by congruence. unfold get_entry in Hi. rewrite He' in Hi. cbn in Hi.
    destruct (deferreds e') as [|x rest] eqn:Ed; [done|]. cbn [mbind py_bind] in Hr.
    assert (lin_tasks s !! x = Some (LWaiting, key, l)) as Hx by (apply (e_waiting _ _ _ _ Hok'); rewrite Ed; by left).
    assert (x ≠ u) as Hxu by congruence. rewrite lookup_delete_ne, Hx in Hr by done. injection Hr as <-.
    destruct i as [|j]; cbn in Hi.
    + injection Hi as ->. apply elem_of_holders. exists LSleeping, l. cbn. by rewrite lookup_insert_eq.
    + exists l. cbn. split; [done|]. unfold resume_acquire, get_entry, set_entry. cbn.
      by rewrite !lookup_insert_eq.
  - assert (l ≠ l') as Hll by (intros ->; by destruct Hkk; eapply l_inj).
    assert (∀ m e, get_entry (MkLinearizer m (<[l' := e]> (lin_heap (lin s))) (lin_next (lin s))) l = get_entry (lin s) l) as Hsame
      by (intros; unfold get_entry; cbn; by rewrite lookup_insert_ne).
    destruct (deferreds e') as [|x rest] eqn:Ed.
    + destruct (count e' - 1 =? 0); [|injection Hr as <-; exists l; split; [done|]; unfold set_entry; cbn; by rewrite Hsame].
      cbn [key_to_defer set_entry] in Hr. rewrite bool_decide_eq_false_2 in Hr by congruence. injection Hr as <-.
      exists l. cbn. rewrite lookup_delete_ne by done. split; [done|]. by rewrite Hsame.
    + cbn [mbind py_bind] in Hr.
      assert (lin_tasks s !! x = Some (LWaiting, key', l')) as Hx by (apply (e_waiting _ _ _ _ Hok'); rewrite Ed; by left).
      assert (x ≠ u) as Hxu by congruence. rewrite lookup_delete_ne, Hx in Hr by done. injection Hr as <-.
      exists l. cbn. split; [done|]. unfold resume_acquire, set_entry, get_entry. cbn.
      rewrite !lookup_insert_eq, !lookup_insert_ne by done. done.
Qed.

(** One step: a coroutine in the queue stays there or gets the lock; it does not
    fall back, and moves up if the lock is given back. *)
Lemma queue_moves_up s e s' key t i :
  lin_ok s → lin_step s e (Ok s') → waits_at s key t i → e ≠ LCancel t →
  (∃ j, waits_at s' key t j ∧ (j ≤ i)%nat ∧ (frees s e key → (j < i)%nat)) ∨ t ∈ holders (lin_tasks s') key.
Proof using Type.
  intros Hs Hst Hw Hne. remember (Ok s') as r eqn:Er.
  assert (∀ ph key' l', ∀ u, lin_tasks s !! u = Some (ph, key', l') → ph ≠ LWaiting → run_release s u key' l' = Ok s' →
    (e = LRelease u ∨ e = LCancel u) →
    (∃ j, waits_at s' key t j ∧ (j ≤ i)%nat ∧ (frees s e key → (j < i)%nat)) ∨ t ∈ holders (lin_tasks s') key) as Hrel.
  { intros ph key' l' u Hu Hph Hr He. pose proof (release_moves_up _ _ _ _ _ _ _ _ _ Hs Hw Hu Hph Hr) as Hm.
    case_decide as Hkk.
    - destruct i as [|j]; [by right|]. left. exists j. split; [done|]. split; [lia|]. lia.
    - left. exists i. split_and!; [done|lia|]. intros (v & Hv & Hev).
      assert (v = u) as -> by naive_solver. apply elem_of_holders in Hv as (? & ? & Hv & _). congruence. }
  destruct Hst as [s u key' q l b Hu Hq|s u key' l Hu|s u key' l Hu|s u key' l Hu|s u key' l Hu].
  - injection Er as <-. left. exists i. split_and!; [by eapply acquire_keeps_position|lia|].
    intros (v & _ & [?|?]); done.
  - injection Er as <-. left. exists i. split_and!; [exact Hw|lia|]. intros (v & _ & [?|?]); done.
  - apply py_bind_Ok in Er as (q & Hq & Er). injection Er as <-. left.
    unfold cancel_wait in Hq. apply py_bind_Ok in Hq as (_ & _ & Hq). injection Hq as <-.
    destruct Hw as (l0 & Hk & Hi). assert (t ≠ u) as Htu by congruence.
    assert (¬ frees s (LCancel u) key) as Hnf.
    { intros (v & Hv & [?|[= <-]]); [done|]. apply elem_of_holders in Hv as (? & ? & Hv & ?). congruence. }
    destruct (decide (l0 = l)) as [->|Hll].
    + destruct (filter_position _ t u i Hi Htu) as (j & Hj & Hf). exists j. split_and!; [|lia|done].
      exists l. split; [done|]. unfold get_entry, set_entry. cbn. by rewrite lookup_insert_eq.
    + exists i. split_and!; [|lia|done]. exists l0. split; [done|]. unfold get_entry, set_entry. cbn.
      by rewrite lookup_insert_ne.
  - eapply Hrel; [exact Hu|done|done|by right].
  - eapply Hrel; [exact Hu|done|done|by left].
Qed.

(** A run in which [t] waits for [key] throughout, and in which the lock is given
    back [n] times *)
Inductive starved (key : K) (t : nat) : lin_system → nat → lin_system → Prop :=
  | starved_end s : starved key t s 0 s
  | starved_free s e s' n s'' :
      lin_step s e (Ok s') → e ≠ LCancel t → t ∉ holders (lin_tasks s') key → frees s e key →
      starved key t s' n s'' → starved key t s (S n) s''
  | starved_other s e s' n s'' :
      lin_step s e (Ok s') → e ≠ LCancel t → t ∉ holders (lin_tasks s') key → ¬ frees s e key →
      starved key t s' n s'' → starved key t s n s''.
End Linearizer.

(** C10: However coroutines arrive, are cancelled and leave, at most [max_count] of
    them have the lock of a key, and if one waits there are exactly so many; an
    entry is kept exactly for the keys in use; and no step raises an exception. *)
Theorem linearizer_limits_access {K} `{Countable K} (max_count : Z) (s : lin_system (K := K)) :
  0 < max_count → lin_reachable max_count s →
  (∀ key, Z.of_nat (size (holders (lin_tasks s) key)) ≤ max_count) ∧
  (∀ key t l, lin_tasks s !! t = Some (LWaiting, key, l) →
     Z.of_nat (size (holders (lin_tasks s) key)) = max_count) ∧
  (∀ key, is_Some (key_to_defer (lin s) !! key) ↔ ∃ t ph l, lin_tasks s !! t = Some (ph, key, l)) ∧
  ∀ e r, lin_step max_count s e r → ∃ s', r = Ok s'.
Proof.
  intros Hpos Hr. pose proof (lin_reachable_ok max_count Hpos s Hr) as Hs. split_and!.
  - intros key. destruct (key_to_defer (lin s) !! key) as [l|] eqn:Ek.
    + destruct (l_entry _ _ Hs _ _ Ek) as [_ (e & _ & [])]. lia.
    + assert (holders (lin_tasks s) key = ∅) as ->; [|rewrite size_empty; lia].
      apply set_eq. intros t. rewrite elem_of_holders. split; [|set_solver].
      intros (ph & l & Ht & _). apply (l_task _ _ Hs) in Ht. congruence.
  - intros key t l Ht. destruct (l_entry _ _ Hs _ _ (l_task _ _ Hs _ _ _ _ Ht)) as [_ (e & _ & [])].
    rewrite <- e_count0. apply e_full0. intros Hnil. apply e_waiting0 in Ht. rewrite Hnil in Ht. inversion Ht.
  - intros key. split; [|intros (t & ph & l & Ht); exists l; by eapply l_task].
    intros [l Hk]. destruct (l_entry _ _ Hs _ _ Hk) as [_ (e & _ & [])].
    destruct (decide (holders (lin_tasks s) key = ∅)) as [Hem|Hne].
    { rewrite Hem, size_empty in e_count0. lia. }
    apply set_choose_L in Hne as [t Ht]. apply elem_of_holders in Ht as (ph & l' & Ht & _). eauto.
  - intros e r Hst. destruct (lin_step_ok max_count Hpos s e r Hs Hst) as (s' & ? & _). eauto.
Qed.

(** The queue is fair: a coroutine behind [i] others gets the lock at the latest
    when it has been given back [i + 1] times, whoever arrives or is cancelled in
    the meantime; and until then there is somebody to give it back. *)
Theorem linearizer_bounded_wait {K} `{Countable K} (max_count : Z) (s s' : lin_system (K := K)) key t i n :
  0 < max_count → lin_reachable max_count s → waits_at s key t i → starved max_count key t s n s' →
  (n ≤ i)%nat ∧ ∃ u e s'', u ∈ holders (lin_tasks s') key ∧ frees s' e key ∧ lin_step max_count s' e (Ok s'').
Proof.
  intros Hpos Hr Hw Hst. pose proof (lin_reachable_ok max_count Hpos s Hr) as Hs. clear Hr. revert i Hw Hs.
  induction Hst as [s|s e s1 n s2 Hst Hne Hno Hfr _ IH|s e s1 n s2 Hst Hne Hno Hfr _ IH]; intros i Hw Hs.
  - split; [lia|]. destruct (waits_at_task _ _ _ _ _ Hs Hw) as (l & Hk & Ht & Hi).
    destruct (l_entry _ _ Hs _ _ Hk) as [_ (e & He & [])].
    destruct (decide (holders (lin_tasks s) key = ∅)) as [Hem|Hne].
    { rewrite Hem, size_empty in e_count0. lia. }
    apply set_choose_L in Hne as [u Hu]. exists u. pose proof Hu as Hu'.
    apply elem_of_holders in Hu' as (ph & l' & Hul & Hph).
    destruct (release_ok max_count Hpos s u ph key l' Hs Hul Hph) as (s' & Hrel & _).
    destruct ph; [done| |]; [exists (LCancel u)|exists (LRelease u)]; exists s'; (split_and!; [done|exists u; by auto|]);
      rewrite <- Hrel; by econstructor.
  - destruct (lin_step_ok max_count Hpos s e _ Hs Hst) as (x & [= <-] & Hs1).
    destruct (queue_moves_up max_count s e s1 key t i Hs Hst Hw Hne) as [(j & Hwj & Hle & Hlt)|Hh]; [|done].
    destruct (IH j Hwj Hs1) as [? ?]. split; [|done]. specialize (Hlt Hfr). lia.
  - destruct (lin_step_ok max_count Hpos s e _ Hs Hst) as (x & [= <-] & Hs1).
    destruct (queue_moves_up max_count s e s1 key t i Hs Hst Hw Hne) as [(j & Hwj & Hle & Hlt)|Hh]; [|done].
    destruct (IH j Hwj Hs1) as [? ?]. split; [|done]. lia.
Qed.

(** ** An example: three coroutines, the first leaves *)

Definition run_acquire (s : lin_system (K := string)) (t : nat) (key : string) : lin_system :=
  let '(q, l, b) := acquire_lock 1 (lin s) key t in
  LinSystem q (<[t := (if b then LHolding else LWaiting, key, l)]> (lin_tasks s)).

Definition lin_example : lin_system :=
  run_acquire (run_acquire (run_acquire (LinSystem new_linearizer ∅) 0 "k") 1 "k") 2 "k".

Definition lin_example_released : lin_system :=
  match run_release lin_example 0 "k" 0 with Ok s => s | Raise _ => lin_example end.

Lemma run_acquire_step s t key :
  lin_tasks s !! t = None → lin_step 1 s (LAcquire t key) (Ok (run_acquire s t key)).
Proof.
  intros Ht. unfold run_acquire. destruct (acquire_lock 1 (lin s) key t) as [[q l] b] eqn:E. by constructor.
Qed.

Lemma lin_example_reachable : lin_reachable 1 lin_example.
Proof.
  unfold lin_example.
  do 3 (eapply lin_next_state; [|apply run_acquire_step; reflexivity]). constructor.
Qed.

Lemma lin_example_release : lin_step 1 lin_example (LRelease 0) (Ok lin_example_released).
Proof.
  assert (Ok lin_example_released = run_release lin_example 0 "k" 0) as -> by (vm_compute; reflexivity).
  apply lin_release. vm_compute. reflexivity.
Qed.

Lemma linearizer_limits_access_witness :
  lin_reachable 1 lin_example ∧ Z.of_nat (size (holders (lin_tasks lin_example) "k")) ≤ 1.
Proof.
  split; [exact lin_example_reachable|].
  exact (proj1 (linearizer_limits_access 1 lin_example ltac:(lia) lin_example_reachable) "k").
Defined.

Lemma linearizer_bounded_wait_witness :
  waits_at lin_example "k" 2 1 ∧ starved 1 "k" 2 lin_example 1 lin_example_released ∧ (1 ≤ 1)%nat.
Proof.
  assert (waits_at lin_example "k" 2 1) as Hw by (exists 0%nat; split; vm_compute; reflexivity).
  assert (starved 1 "k" 2 lin_example 1 lin_example_released) as Hst.
  { eapply starved_free; [exact lin_example_release|discriminate| | |constructor].
    - vm_compute. intros Hx. discriminate Hx.
    - exists 0%nat. split; [vm_compute; reflexivity|left; reflexivity]. }
  split; [exact Hw|]. split; [exact Hst|].
  exact (proj1 (linearizer_bounded_wait 1 lin_example lin_example_released "k" 2 1 1 ltac:(lia)
    lin_example_reachable Hw Hst)).
Defined.
