(* ===== verification/ReadWriteLock.v ===== *)
(** * The class [ReadWriteLock] of [synapse/util/async_helpers.py]

    Each reader and writer makes a [Deferred] that it calls back when it is done,
    and waits for those of others.  A [Deferred] is known by the number of its
    coroutine.  The stretches of the code between two awaits are functions; a
    coroutine that waits may go on at any time after the deferreds it waits for
    have been called, and between calling its own deferred and the clean-up after
    it anything may run, since the callbacks run other coroutines. *)

From S2P Require Import Prelude.

Section ReadWriteLock.
Context {K : Type} `{Countable K}.

Record ReadWriteLock : Type := RWLock {
  key_to_current_readers : gmap K (gset nat);
  key_to_current_writer : gmap K nat;
}.

Definition new_rw_lock : ReadWriteLock := RWLock ∅ ∅.

(** [read] before the wait: the lock, and the deferreds it waits for *)
Definition read_begin (s : ReadWriteLock) (key : K) (new_defer : nat) : ReadWriteLock * list nat :=
  let curr_readers := default ∅ (key_to_current_readers s !! key) in
  let curr_writer := key_to_current_writer s !! key in
  (RWLock (<[key := {[new_defer]} ∪ curr_readers]> (key_to_current_readers s)) (key_to_current_writer s),
   option_list curr_writer).

(** [read] after [new_defer] has been called *)
Definition read_cleanup (s : ReadWriteLock) (key : K) (new_defer : nat) : ReadWriteLock :=
  match key_to_current_readers s !! key with
  | Some readers => RWLock (<[key := readers ∖ {[new_defer]}]> (key_to_current_readers s)) (key_to_current_writer s)
  | None => s
  end.

(** [write] before the wait *)
Definition write_begin (s : ReadWriteLock) (key : K) (new_defer : nat) : ReadWriteLock * list nat :=
  let curr_readers := default ∅ (key_to_current_readers s !! key) in
  let curr_writer := key_to_current_writer s !! key in
  let to_wait_on := elements curr_readers ++ option_list curr_writer in
  let readers :=
    match key_to_current_readers s !! key with
    | Some _ => <[key := ∅]> (key_to_current_readers s)
    | None => key_to_current_readers s
    end in
  (RWLock readers (<[key := new_defer]> (key_to_current_writer s)), to_wait_on).

(** [write] after [new_defer] has been called *)
Definition write_cleanup (s : ReadWriteLock) (key : K) (new_defer : nat) : ReadWriteLock :=
  if decide (key_to_current_writer s !! key = Some new_defer)
  then RWLock (key_to_current_readers s) (delete key (key_to_current_writer s))
  else s.

(** *** The coroutines *)

Inductive rw_kind : Type := Reader | Writer.

#[export] Instance rw_kind_eq_dec : EqDecision rw_kind.
Proof. solve_decision. Defined.

(** A coroutine waits (and may have been cancelled meanwhile, if it is a writer),
    has the lock, or has called its deferred and has the clean-up to do. *)
Inductive rw_phase : Type :=
  | RWWaiting (to_wait_on : list nat) (cancelled : bool)
  | RWHolding
  | RWCleanup.

Record rw_system : Type := RWSystem {
  rw : ReadWriteLock;
  rw_called : gset nat;
  rw_tasks : gmap nat (rw_kind * K * rw_phase);
  (** who came, the last one first *)
  rw_arrived : list (rw_kind * K * nat);
}.

Definition rw_begin (s : rw_system) (k : rw_kind) (key : K) (t : nat) : rw_system :=
  let '(q, ws) := match k with Reader => read_begin (rw s) key t | Writer => write_begin (rw s) key t end in
  RWSystem q (rw_called s) (<[t := (k, key, RWWaiting ws false)]> (rw_tasks s)) ((k, key, t) :: rw_arrived s).

(** [new_defer.callback(None)] *)
Definition rw_call (s : rw_system) (k : rw_kind) (key : K) (t : nat) : rw_system :=
  RWSystem (rw s) ({[t]} ∪ rw_called s) (<[t := (k, key, RWCleanup)]> (rw_tasks s)) (rw_arrived s).

Definition rw_move (s : rw_system) (k : rw_kind) (key : K) (t : nat) (ph : rw_phase) : rw_system :=
  RWSystem (rw s) (rw_called s) (<[t := (k, key, ph)]> (rw_tasks s)) (rw_arrived s).

Definition rw_cleanup (s : rw_system) (k : rw_kind) (key : K) (t : nat) : rw_system :=
  RWSystem (match k with Reader => read_cleanup (rw s) key t | Writer => write_cleanup (rw s) key t end)
    (rw_called s) (delete t (rw_tasks s)) (rw_arrived s).

Inductive rw_step : rw_system → rw_system → Prop :=
  | rw_arrive s k key t :
      t ∉ map snd (rw_arrived s) → rw_step s (rw_begin s k key t)
  | rw_resume s k key t ws :
      rw_tasks s !! t = Some (k, key, RWWaiting ws false) → (∀ d, d ∈ ws → d ∈ rw_called s) →
      rw_step s (rw_move s k key t RWHolding)
  (** a reader that is cancelled does not wait any longer *)
  | rw_cancel_read s key t ws b :
      rw_tasks s !! t = Some (Reader, key, RWWaiting ws b) → rw_step s (rw_call s Reader key t)
  (** a writer that is cancelled waits on, and then gives up *)
  | rw_cancel_write s key t ws b :
      rw_tasks s !! t = Some (Writer, key, RWWaiting ws b) →
      rw_step s (rw_move s Writer key t (RWWaiting ws true))
  | rw_give_up s k key t ws :
      rw_tasks s !! t = Some (k, key, RWWaiting ws true) → (∀ d, d ∈ ws → d ∈ rw_called s) →
      rw_step s (rw_call s k key t)
  | rw_finish s k key t :
      rw_tasks s !! t = Some (k, key, RWHolding) → rw_step s (rw_call s k key t)
  | rw_clean s k key t :
      rw_tasks s !! t = Some (k, key, RWCleanup) → rw_step s (rw_cleanup s k key t).

Inductive rw_reachable : rw_system → Prop :=
  | rw_start : rw_reachable (RWSystem new_rw_lock ∅ ∅ [])
  | rw_next s s' : rw_reachable s → rw_step s s' → rw_reachable s'.

(** ** The invariant *)

(** [u] came for [key] before [t]. *)
Definition came_before (l : list (rw_kind * K * nat)) (key : K) (k' : rw_kind) (u : nat) (k : rw_kind) (t : nat) : Prop :=
  ∃ l1 l2, l = l1 ++ (k, key, t) :: l2 ∧ (k', key, u) ∈ l2.

(** No writer has come for [key] since [t]. *)
Definition last_writer_since (l : list (rw_kind * K * nat)) (key : K) (k : rw_kind) (t : nat) : Prop :=
  ∃ l1 l2, l = l1 ++ (k, key, t) :: l2 ∧ ∀ u, (Writer, key, u) ∉ l1.

(** Not both may have the lock. *)
Definition conflict (k k' : rw_kind) : Prop := k = Writer ∨ k' = Writer.

Record rw_ok (s : rw_system) : Prop := {
  r_NoDup : NoDup (map snd (rw_arrived s));
  r_called : ∀ t, t ∈ rw_called s → t ∈ map snd (rw_arrived s);
  r_tasks : ∀ t k key ph, rw_tasks s !! t = Some (k, key, ph) →
    (k, key, t) ∈ rw_arrived s ∧ (ph = RWCleanup ↔ t ∈ rw_called s);
  r_open : ∀ t k key, (k, key, t) ∈ rw_arrived s → t ∉ rw_called s → is_Some (rw_tasks s !! t);
  r_writer : ∀ key t, last_writer_since (rw_arrived s) key Writer t → t ∉ rw_called s →
    key_to_current_writer (rw s) !! key = Some t;
  r_readers : ∀ key t, last_writer_since (rw_arrived s) key Reader t → t ∉ rw_called s →
    t ∈ default ∅ (key_to_current_readers (rw s) !! key);
  r_known_writer : ∀ key t, key_to_current_writer (rw s) !! key = Some t → (Writer, key, t) ∈ rw_arrived s;
  r_known_readers : ∀ key t, t ∈ default ∅ (key_to_current_readers (rw s) !! key) → (Reader, key, t) ∈ rw_arrived s;
  (** everybody waits for people who came before, *)
  r_waits : ∀ t k key ws b d, rw_tasks s !! t = Some (k, key, RWWaiting ws b) → d ∈ ws →
    ∃ k', came_before (rw_arrived s) key k' d k t;
  (** and for all of them, directly or through a writer *)
  r_covered : ∀ t k key ws b k' u, rw_tasks s !! t = Some (k, key, RWWaiting ws b) →
    came_before (rw_arrived s) key k' u k t → conflict k' k →
    u ∈ rw_called s ∨ u ∈ ws ∨ ∃ w, w ∈ ws ∧ came_before (rw_arrived s) key k' u Writer w;
  r_holding : ∀ t k key k' u, rw_tasks s !! t = Some (k, key, RWHolding) →
    came_before (rw_arrived s) key k' u k t → conflict k' k → u ∈ rw_called s;
  r_done : ∀ t key k' u, t ∈ rw_called s → came_before (rw_arrived s) key k' u Writer t → u ∈ rw_called s;
}.

(** *** Order of arrival *)

Lemma came_before_cons x l key k' u k t :
  came_before (x :: l) key k' u k t ↔ (x = (k, key, t) ∧ (k', key, u) ∈ l) ∨ came_before l key k' u k t.
Proof using Type.
  split.
  - intros ([|y l1] & l2 & Hl & Hu); injection Hl as -> ->; [by left|]. right. by exists l1, l2.
  - intros [[-> Hu]|(l1 & l2 & -> & Hu)]; [by exists [], l|]. by exists (x :: l1), l2.
Qed.

Lemma last_writer_since_cons x l key k t :
  last_writer_since (x :: l) key k t ↔
    x = (k, key, t) ∨ last_writer_since l key k t ∧ ∀ u, x ≠ (Writer, key, u).
Proof using Type.
  split.
  - intros ([|y l1] & l2 & Hl & Hu); injection Hl as -> ->; [by left|]. right. split.
    + exists l1, l2. split; [done|]. intros u Hin. apply (Hu u). by right.
    + intros u ->. apply (Hu u). by left.
  - intros [->|[(l1 & l2 & -> & Hu) Hx]].
    + exists [], l. split; [done|]. intros u Hin. inversion Hin.
    + exists (x :: l1), l2. split; [done|]. intros u [?|?]%elem_of_cons; [by apply (Hx u)|by apply (Hu u)].
Qed.

Lemma came_before_in l key k' u k t : came_before l key k' u k t → (k', key, u) ∈ l ∧ (k, key, t) ∈ l.
Proof using Type. intros (l1 & l2 & -> & Hu). rewrite !elem_of_app, !elem_of_cons. auto. Qed.

(** Since somebody came, no writer has come, or the last that came came later. *)
Lemma last_writer_cases l key k u :
  (k, key, u) ∈ l →
  last_writer_since l key k u ∨
  ∃ w, last_writer_since l key Writer w ∧ came_before l key k u Writer w.
Proof using EqDecision0.
  induction l as [|[[kx keyx] tx] l IH]; intros Hin; [inversion Hin|].
  assert (last_writer_since ((kx, keyx, tx) :: l) key k u ∨ (k, key, u) ∈ l) as [?|Hin']; [|by left|].
  { apply elem_of_cons in Hin as [Heq|?]; [left|by right]. apply last_writer_since_cons. by left. }
  destruct (decide (kx = Writer ∧ keyx = key)) as [[-> ->]|Hne].
  - right. exists tx. rewrite last_writer_since_cons, came_before_cons. auto.
  - assert (∀ w, (kx, keyx, tx) ≠ (Writer, key, w)) as Hx by naive_solver.
    destruct (IH Hin') as [Hl|(w & Hl & Hc)].
    + left. apply last_writer_since_cons. auto.
    + right. exists w. rewrite last_writer_since_cons, came_before_cons. auto.
Qed.

Lemma arrived_unique (l : list (rw_kind * K * nat)) k key t k' key' :
  NoDup (map snd l) → (k, key, t) ∈ l → (k', key', t) ∈ l → k = k' ∧ key = key'.
Proof using Type.
  intros Hnd H1 H2. induction l as [|x l IH]; [inversion H1|]. cbn in Hnd. apply NoDup_cons in Hnd as [Hx Hnd].
  assert (∀ k key, (k, key, t) ∈ l → x.2 ≠ t) as Hne.
  { intros kk kkey Hin <-. apply Hx. apply list_elem_of_fmap. by exists (kk, kkey, x.2). }
  apply elem_of_cons in H1 as [<-|H1], H2 as [H2|H2]; [by simplify_eq| | |auto].
  - by apply Hne in H2.
  - subst x. by apply Hne in H1.
Qed.

(** *** Steps *)

(** [t] need not wait any longer. *)
Definition may_go (s : rw_system) (k : rw_kind) (key : K) (t : nat) : Prop :=
  rw_tasks s !! t = Some (k, key, RWHolding) ∨
  ∃ ws b, rw_tasks s !! t = Some (k, key, RWWaiting ws b) ∧ ∀ d, d ∈ ws → d ∈ rw_called s.

(** Then everybody it could clash with who came before is done. *)
Lemma may_go_after s k key t k' u :
  rw_ok s → may_go s k key t → came_before (rw_arrived s) key k' u k t → conflict k' k → u ∈ rw_called s.
Proof using Type.
  intros Hs [Hh|(ws & b & Ht & Hws)] Hc Hk; [by eapply r_holding|].
  destruct (r_covered _ Hs _ _ _ _ _ _ _ Ht Hc Hk) as [?|[?|(w & Hw & Hcw)]]; [done|auto|].
  eapply r_done; [done| |exact Hcw]. auto.
Qed.

Lemma task_open s t k key ph :
  rw_ok s → rw_tasks s !! t = Some (k, key, ph) → ph ≠ RWCleanup → t ∉ rw_called s.
Proof using Type. intros Hs Ht Hph Hin. apply Hph. by apply (r_tasks _ Hs _ _ _ _ Ht). Qed.

Lemma move_ok s k key t ph ph' :
  rw_ok s → rw_tasks s !! t = Some (k, key, ph) → ph ≠ RWCleanup → ph' ≠ RWCleanup →
  (ph' = RWHolding → may_go s k key t) → (∀ ws b, ph' = RWWaiting ws b → ∃ b', ph = RWWaiting ws b') →
  rw_ok (rw_move s k key t ph').
Proof using Type.
  intros Hs Ht Hph Hph' Hh Hw. pose proof (task_open _ _ _ _ _ Hs Ht Hph) as Hopen.
  assert (∀ k' u kk kkey, may_go s kk kkey t → came_before (rw_arrived s) kkey k' u kk t → conflict k' kk → u ∈ rw_called s)
    as Hgo by (intros; by eapply may_go_after).
  destruct Hs. split; cbn; try done.
  - intros u k' key' ph0. rewrite lookup_insert_Some. intros [[<- Heq]|[_ Hu]]; [|by apply r_tasks0].
    simplify_eq. split; [by eapply r_tasks0|]. tauto.
  - intros u k' key' Hin Hu. destruct (decide (u = t)) as [->|]; [rewrite lookup_insert_eq; by eexists|].
    rewrite lookup_insert_ne by done. by eapply r_open0.
  - intros u k' key' ws b d. rewrite lookup_insert_Some. intros [[<- Heq]|[_ Hu]] Hd; [|by eapply r_waits0].
    simplify_eq. destruct (Hw ws b eq_refl) as [b' ->]. by eapply r_waits0.
  - intros u k' key' ws b k2 v. rewrite lookup_insert_Some. intros [[<- Heq]|[_ Hu]]; [|by eapply r_covered0].
    simplify_eq. destruct (Hw ws b eq_refl) as [b' ->]. by eapply r_covered0.
  - intros u k' key' k2 v. rewrite lookup_insert_Some. intros [[<- Heq]|[_ Hu]]; [|by eapply r_holding0].
    simplify_eq. apply Hgo. by apply Hh.
Qed.

Lemma call_ok s k key t ph :
  rw_ok s → rw_tasks s !! t = Some (k, key, ph) → ph ≠ RWCleanup → (k = Writer → may_go s k key t) →
  rw_ok (rw_call s k key t).
Proof using Type.
  intros Hs Ht Hph Hgo. pose proof (task_open _ _ _ _ _ Hs Ht Hph) as Hopen.
  destruct (r_tasks _ Hs _ _ _ _ Ht) as [Harr _].
  assert (∀ kkey k' u, came_before (rw_arrived s) kkey k' u Writer t → u ∈ rw_called s) as Hdone.
  { intros kkey k' u Hc. destruct (came_before_in _ _ _ _ _ _ Hc) as [_ Hin].
    destruct (arrived_unique _ _ _ _ _ _ (r_NoDup _ Hs) Harr Hin) as [-> ->].
    eapply may_go_after; [done|by apply Hgo|done|by right]. }
  destruct Hs. split; cbn; try done.
  - intros u [->%elem_of_singleton|Hu]%elem_of_union; [|auto]. apply list_elem_of_fmap. by exists (k, key, t).
  - intros u k' key' ph0. rewrite lookup_insert_Some. intros [[<- Heq]|[Hne Hu]].
    + simplify_eq. split; [done|]. set_solver.
    + destruct (r_tasks0 _ _ _ _ Hu) as [? Hc]. split; [done|]. rewrite Hc. set_solver.
  - intros u k' key' Hin Hu. rewrite lookup_insert_ne by set_solver. eapply r_open0; [done|set_solver].
  - intros key' u Hl Hu. apply r_writer0; [done|set_solver].
  - intros key' u Hl Hu. apply r_readers0; [done|set_solver].
  - intros u k' key' ws b d. rewrite lookup_insert_Some. intros [[<- Heq]|[_ Hu]]; [by simplify_eq|by eapply r_waits0].
  - intros u k' key' ws b k2 v. rewrite lookup_insert_Some. intros [[<- Heq]|[_ Hu]] Hc Hk; [by simplify_eq|].
    destruct (r_covered0 _ _ _ _ _ _ _ Hu Hc Hk) as [?|[?|?]]; [set_solver|auto|auto].
  - intros u k' key' k2 v. rewrite lookup_insert_Some. intros [[<- Heq]|[_ Hu]] Hc Hk; [by simplify_eq|].
    apply elem_of_union. right. by eapply r_holding0.
  - intros u key' k2 v Hu Hc. apply elem_of_union. right. apply elem_of_union in Hu as [->%elem_of_singleton|Hu].
    + by eapply Hdone.
    + by eapply r_done0.
Qed.

Lemma cleanup_ok s k key t :
  rw_ok s → rw_tasks s !! t = Some (k, key, RWCleanup) → rw_ok (rw_cleanup s k key t).
Proof using Type.
  intros Hs Ht. assert (t ∈ rw_called s) as Hcalled by by apply (r_tasks _ Hs _ _ _ _ Ht).
  set (q := match k with Reader => read_cleanup (rw s) key t | Writer => write_cleanup (rw s) key t end).
  assert (∀ key' u, u ≠ t → key_to_current_writer (rw s) !! key' = Some u → key_to_current_writer q !! key' = Some u) as Hw.
  { intros key' u Hne Hu. subst q. destruct k.
    - unfold read_cleanup. by destruct (key_to_current_readers (rw s) !! key).
    - unfold write_cleanup. case_decide as E; [|done]. cbn. rewrite lookup_delete_ne; [done|]. congruence. }
  assert (∀ key' u, key_to_current_writer q !! key' = Some u → key_to_current_writer (rw s) !! key' = Some u) as Hw'.
  { intros key' u Hu. subst q. destruct k.
    - unfold read_cleanup in Hu. by destruct (key_to_current_readers (rw s) !! key).
    - unfold write_cleanup in Hu. case_decide; [|done]. cbn in Hu. by apply lookup_delete_Some in Hu as [_ ?]. }
  assert (∀ key' u, u ≠ t → u ∈ default ∅ (key_to_current_readers (rw s) !! key') →
    u ∈ default ∅ (key_to_current_readers q !! key')) as Hr.
  { intros key' u Hne Hu. subst q. destruct k; [|by unfold write_cleanup; case_decide].
    unfold read_cleanup. destruct (key_to_current_readers (rw s) !! key) as [rs|] eqn:E; [|done]. cbn.
    destruct (decide (key' = key)) as [->|]; [|by rewrite lookup_insert_ne].
    rewrite lookup_insert_eq. rewrite E in Hu. cbn in *. set_solver. }
  assert (∀ key' u, u ∈ default ∅ (key_to_current_readers q !! key') →
    u ∈ default ∅ (key_to_current_readers (rw s) !! key')) as Hr'.
  { intros key' u. subst q. destruct k; [|by unfold write_cleanup; case_decide].
    unfold read_cleanup. destruct (key_to_current_readers (rw s) !! key) as [rs|] eqn:E; [|done]. cbn.
    destruct (decide (key' = key)) as [->|]; [|by rewrite lookup_insert_ne].
    rewrite lookup_insert_eq, E. cbn. set_solver. }
  destruct Hs. split; cbn; fold q; try done.
  - intros u k' key' ph0 [_ Hu]%lookup_delete_Some. by apply r_tasks0.
  - intros u k' key' Hin Hu. rewrite lookup_delete_ne by congruence. by eapply r_open0.
  - intros key' u Hl Hu. apply Hw; [congruence|]. by apply r_writer0.
  - intros key' u Hl Hu. apply Hr; [congruence|]. by apply r_readers0.
  - intros key' u Hu. apply r_known_writer0. by apply Hw'.
  - intros key' u Hu. apply r_known_readers0. by apply Hr'.
  - intros u k' key' ws b d [_ Hu]%lookup_delete_Some. by eapply r_waits0.
  - intros u k' key' ws b k2 v [_ Hu]%lookup_delete_Some. by eapply r_covered0.
  - intros u k' key' k2 v [_ Hu]%lookup_delete_Some. by eapply r_holding0.
Qed.

Lemma elem_of_option_list (o : option nat) d : d ∈ option_list o ↔ o = Some d.
Proof using Type.
  destruct o as [x|]; cbn; [rewrite list_elem_of_singleton; naive_solver|]. rewrite elem_of_nil. naive_solver.
Qed.

(** What the two kinds of arrival do to the lock *)
Lemma begin_effect s k key t q ws :
  match k with Reader => read_begin s key t | Writer => write_begin s key t end = (q, ws) →
  (∀ key', key_to_current_writer q !! key' =
     if decide (k = Writer ∧ key' = key) then Some t else key_to_current_writer s !! key') ∧
  (∀ key' u, u ∈ default ∅ (key_to_current_readers q !! key') ↔
     if decide (key' = key)
     then k = Reader ∧ (u = t ∨ u ∈ default ∅ (key_to_current_readers s !! key))
     else u ∈ default ∅ (key_to_current_readers s !! key')) ∧
  ∀ d, d ∈ ws ↔ key_to_current_writer s !! key = Some d ∨
    (k = Writer ∧ d ∈ default ∅ (key_to_current_readers s !! key)).
Proof using Type.
  destruct k; intros [= <- <-]; cbn; split_and!.
  - intros key'. rewrite decide_False by naive_solver. done.
  - intros key' u. case_decide as E; [subst; rewrite lookup_insert_eq; cbn; set_solver|]. by rewrite lookup_insert_ne.
  - intros d. rewrite elem_of_option_list. naive_solver.
  - intros key'. destruct (decide (key' = key)) as [->|].
    + rewrite decide_True by done. apply lookup_insert_eq.
    + rewrite decide_False by naive_solver. by apply lookup_insert_ne.
  - intros key' u. destruct (key_to_current_readers s !! key) as [rs|] eqn:E; case_decide as Ek; subst.
    + rewrite lookup_insert_eq. cbn. set_solver.
    + by rewrite lookup_insert_ne.
    + rewrite E. cbn. set_solver.
    + done.
  - intros d. rewrite elem_of_app, elem_of_elements, elem_of_option_list. naive_solver.
Qed.

Lemma begin_ok s k key t :
  rw_ok s → t ∉ map snd (rw_arrived s) → rw_ok (rw_begin s k key t).
Proof using Type.
  intros Hs Ht. unfold rw_begin.
  destruct (match k with Reader => read_begin (rw s) key t | Writer => write_begin (rw s) key t end) as [q ws] eqn:Eq.
  apply begin_effect in Eq as (Hw & Hr & Hws).
  assert (∀ k' key', (k', key', t) ∉ rw_arrived s) as Hfresh.
  { intros k' key' Hin. apply Ht. apply list_elem_of_fmap. by exists (k', key', t). }
  assert (∀ key' k' u k2 v, v ≠ t → came_before ((k, key, t) :: rw_arrived s) key' k' u k2 v →
    came_before (rw_arrived s) key' k' u k2 v) as Hcb.
  { intros key' k' u k2 v Hne [[Heq _]|Hc]%came_before_cons; [|done]. by simplify_eq. }
  assert (∀ key' k' u k2 v, came_before (rw_arrived s) key' k' u k2 v →
    came_before ((k, key, t) :: rw_arrived s) key' k' u k2 v) as Hcb'
    by (intros; apply came_before_cons; by right).
  assert (∀ u k' key' ph, rw_tasks s !! u = Some (k', key', ph) → u ≠ t) as Hold.
  { intros u k' key' ph Hu ->. apply (r_tasks _ Hs) in Hu as [? _]. by eapply Hfresh. }
  assert (t ∉ rw_called s) as Hnc by (intros Hin; by apply Ht, (r_called _ Hs)).
  destruct Hs. split; cbn.
  - by apply NoDup_cons.
  - intros u Hu. right. auto.
  - intros u k' key' ph. rewrite lookup_insert_Some. intros [[<- Heq]|[Hne Hu]].
    + simplify_eq. split; [by left|]. by split.
    + destruct (r_tasks0 _ _ _ _ Hu). split; [by right|done].
  - intros u k' key' [Heq|Hin]%elem_of_cons Hu.
    + simplify_eq. rewrite lookup_insert_eq. by eexists.
    + rewrite lookup_insert_ne; [by eapply r_open0|]. intros <-. by eapply Hfresh.
  - intros key' u [Heq|[Hl Hx]]%last_writer_since_cons Hu; rewrite Hw.
    + simplify_eq. by rewrite decide_True.
    + rewrite decide_False; [by apply r_writer0|]. intros [-> ->]. by apply (Hx t).
  - intros key' u [Heq|[Hl Hx]]%last_writer_since_cons Hu; apply Hr.
    + simplify_eq. rewrite decide_True by done. auto.
    + destruct (decide (key' = key)) as [->|]; [|by apply r_readers0]. destruct k; [|by destruct (Hx t)].
      split; [done|]. right. by apply r_readers0.
  - intros key' u. rewrite Hw. destruct (decide (k = Writer ∧ key' = key)) as [[-> -> ]|];
      [intros [= <-]; by left|intros ?; right; by apply r_known_writer0].
  - intros key' u Hu. apply Hr in Hu. destruct (decide (key' = key)) as [->|]; [|right; by apply r_known_readers0].
    destruct Hu as [-> [->|Hu]]; [by left|]. right. by apply r_known_readers0.
  - intros u k' key' ws' b d. rewrite lookup_insert_Some. intros [[<- Heq]|[Hne Hu]] Hd.
    + simplify_eq. apply Hws in Hd as [Hd|[-> Hd]]; [exists Writer|exists Reader];
        apply came_before_cons; left; (split; [done|]); auto.
    + destruct (r_waits0 _ _ _ _ _ _ Hu Hd) as [k2 Hc]. exists k2. by apply Hcb'.
  - intros u k' key' ws' b k2 v. rewrite lookup_insert_Some. intros [[<- Heq]|[Hne Hu]] Hc Hk.
    + simplify_eq. assert ((k2, key', v) ∈ rw_arrived s) as Hin.
      { apply came_before_cons in Hc as [[_ ?]|Hc]; [done|]. apply came_before_in in Hc as [_ Hc]. by apply Hfresh in Hc. }
      destruct (decide (v ∈ rw_called s)) as [|Hv]; [by left|right].
      destruct (last_writer_cases _ _ _ _ Hin) as [Hl|(w & Hl & Hcw)].
      * left. apply Hws. destruct k2; [|left; by apply r_writer0].
        right. destruct Hk as [?| -> ]; [done|]. split; [done|]. by apply r_readers0.
      * right. exists w. split; [|by apply Hcb']. apply Hws. left. apply r_writer0; [done|].
        intros Hwc. apply Hv. by eapply r_done0.
    + destruct (r_covered0 _ _ _ _ _ _ _ Hu (Hcb _ _ _ _ _ (Hold _ _ _ _ Hu) Hc) Hk) as [?|[?|(w & ? & ?)]]; [auto..|].
      right. right. exists w. split; [done|]. by apply Hcb'.
  - intros u k' key' k2 v. rewrite lookup_insert_Some. intros [[<- Heq]|[Hne Hu]] Hc Hk; [by simplify_eq|].
    eapply r_holding0; [done| |done]. apply Hcb; [|done]. by eapply Hold.
  - intros u key' k2 v Hu Hc. eapply r_done0; [done|]. apply Hcb; [congruence|done].
Qed.

Lemma rw_step_ok s s' : rw_ok s → rw_step s s' → rw_ok s'.
Proof using Type.
  intros Hs Hst. destruct Hst as [s k key t Ht|s k key t ws Ht Hws|s key t ws b Ht|s key t ws b Ht|s k key t ws Ht Hws|
    s k key t Ht|s k key t Ht].
  - by apply begin_ok.
  - eapply move_ok; [done|exact Ht|done|done| |done]. intros _. right. eauto.
  - eapply call_ok; [done|exact Ht|done|done].
  - eapply move_ok; [done|exact Ht|done|done|done|]. intros ws' b' [= <- <-]. eauto.
  - eapply call_ok; [done|exact Ht|done|]. intros _. right. eauto.
  - eapply call_ok; [done|exact Ht|done|]. intros _. by left.
  - by apply cleanup_ok.
Qed.

Lemma rw_reachable_ok s : rw_reachable s → rw_ok s.
Proof using Type.
  induction 1 as [|s s' _ IH Hst]; [|by eapply rw_step_ok].
  assert (∀ x : rw_kind * K * nat, x ∉ []) as Hnil by (intros x Hx; inversion Hx).
  assert (∀ key k' u k t, ¬ came_before (@nil (rw_kind * K * nat)) key k' u k t) as Hcb
    by (intros * ([|] & ? & ? & _); done).
  assert (∀ key k t, ¬ last_writer_since (@nil (rw_kind * K * nat)) key k t) as Hlw
    by (intros * ([|] & ? & ? & _); done).
  split; cbn; try (intros *; rewrite ?lookup_empty; set_solver). constructor.
Qed.

(** A coroutine comes once. *)
Lemma arrived_split (l1 l2 m1 m2 : list (rw_kind * K * nat)) x y :
  NoDup (map snd (l1 ++ x :: l2)) → l1 ++ x :: l2 = m1 ++ y :: m2 → x.2 = y.2 → l1 = m1 ∧ l2 = m2.
Proof using Type.
  revert m1. induction l1 as [|a l1 IH]; intros [|c m1] Hnd Heq Hxy; cbn in *.
  - by injection Heq.
  - injection Heq as <- ->. apply NoDup_cons in Hnd as [[] _]. rewrite map_app, Hxy. cbn. set_solver.
  - injection Heq as -> <-. apply NoDup_cons in Hnd as [[] _]. rewrite map_app, <- Hxy. cbn. set_solver.
  - injection Heq as -> Heq. apply NoDup_cons in Hnd as [_ Hnd]. by destruct (IH m1 Hnd Heq Hxy) as [-> ->].
Qed.

Lemma came_before_trans l key k1 u k2 v k3 t :
  NoDup (map snd l) → came_before l key k1 u k2 v → came_before l key k2 v k3 t → came_before l key k1 u k3 t.
Proof using Type.
  intros Hnd Huv (l1 & l2 & -> & Hv). exists l1, l2. split; [done|].
  apply list_elem_of_split in Hv as (m1 & m2 & ->).
  destruct Huv as (n1 & n2 & Hl & Hu).
  enough (n2 = m2) as -> by (rewrite elem_of_app, elem_of_cons; auto).
  rewrite Hl in Hnd. symmetry. rewrite app_comm_cons, (assoc_L (++)) in Hl.
  by destruct (arrived_split _ _ _ _ _ _ Hnd (eq_sym Hl) eq_refl).
Qed.
End ReadWriteLock.

(** C6: However readers and writers arrive, are cancelled, go on and leave, while a
    writer has the lock of a key nobody else has it. *)
Theorem rw_lock_exclusion {K} `{Countable K} (s : rw_system (K := K)) key t u k :
  rw_reachable s → rw_tasks s !! t = Some (Writer, key, RWHolding) →
  rw_tasks s !! u = Some (k, key, RWHolding) → t = u.
Proof.
  intros Hr Ht Hu. pose proof (rw_reachable_ok s Hr) as Hs.
  pose proof (task_open _ _ _ _ _ Hs Ht ltac:(done)) as Ht'. pose proof (task_open _ _ _ _ _ Hs Hu ltac:(done)) as Hu'.
  destruct (r_tasks _ Hs _ _ _ _ Ht) as [Hat _], (r_tasks _ Hs _ _ _ _ Hu) as [Hau _].
  destruct (decide (t = u)) as [|Hne]; [done|]. exfalso.
  assert (came_before (rw_arrived s) key k u Writer t ∨ came_before (rw_arrived s) key Writer t k u) as [Hc|Hc].
  { apply list_elem_of_split in Hat as (l1 & l2 & Heq). rewrite Heq in Hau. rewrite Heq.
    apply elem_of_app in Hau as [Hin|[?|Hin]%elem_of_cons].
    - right. apply list_elem_of_split in Hin as (m1 & m2 & ->). exists m1, (m2 ++ (Writer, key, t) :: l2).
      split; [by rewrite <- (assoc_L (++))|]. apply elem_of_app. right. by left.
    - by simplify_eq.
    - left. by exists l1, l2. }
  - apply Hu'. eapply r_holding; [done|exact Ht|done|by right].
  - apply Ht'. eapply r_holding; [done|exact Hu|done|by left].
Qed.

(** Nobody waits for ever: if a coroutine waits for the lock of a key, then
    somebody who is not behind it has the lock or can take it now, so that the
    wait ends when those before are done. *)
Theorem rw_lock_no_deadlock {K} `{Countable K} (s : rw_system (K := K)) key t k ws b :
  rw_reachable s → rw_tasks s !! t = Some (k, key, RWWaiting ws b) →
  ∃ k' u, ((k', u) = (k, t) ∨ came_before (rw_arrived s) key k' u k t) ∧ may_go s k' key u.
Proof.
  intros Hr Ht. pose proof (rw_reachable_ok s Hr) as Hs. destruct (r_tasks _ Hs _ _ _ _ Ht) as [Hin _].
  apply list_elem_of_split in Hin as (l1 & l2 & Heq).
  remember (length l2) as n eqn:Hn. revert t k ws b l1 l2 Ht Heq Hn.
  induction n as [n IH] using lt_wf_ind. intros t k ws b l1 l2 Ht Heq Hn.
  destruct (decide (Forall (λ d, d ∈ rw_called s) ws)) as [Hall|Hnot].
  { exists k, t. split; [by left|]. right. exists ws, b. split; [done|]. by apply Forall_forall. }
  apply not_Forall_Exists in Hnot; [|apply _]. apply Exists_exists in Hnot as (d & Hd & Hnd).
  destruct (r_waits _ Hs _ _ _ _ _ _ Ht Hd) as [k' Hc].
  destruct (came_before_in _ _ _ _ _ _ Hc) as [Hdin _].
  destruct (r_open _ Hs _ _ _ Hdin Hnd) as [[[k2 key2] ph] Hdt].
  destruct (r_tasks _ Hs _ _ _ _ Hdt) as [Hdin' Hcl].
  destruct (arrived_unique _ _ _ _ _ _ (r_NoDup _ Hs) Hdin Hdin') as [<- <-].
  destruct ph as [ws' b'| |]; [|exists k', d; split; [by right|by left]|by destruct Hnd; apply Hcl].
  assert (∃ m1 m2, rw_arrived s = m1 ++ (k', key, d) :: m2 ∧ (length m2 < n)%nat) as (m1 & m2 & Heq' & Hlt).
  { destruct Hc as (x1 & x2 & Hx & Hdx). apply list_elem_of_split in Hdx as (y1 & y2 & ->).
    exists (x1 ++ (k, key, t) :: y1), y2. split; [rewrite Hx; by rewrite <- (assoc_L (++))|].
    pose proof (r_NoDup _ Hs) as Hnodup. rewrite Hx in Heq, Hnodup.
    destruct (arrived_split _ _ _ _ _ _ Hnodup Heq eq_refl) as [_ <-].
    rewrite Hn, length_app. cbn. lia. }
  destruct (IH (length m2) Hlt d k' ws' b' m1 m2 Hdt Heq' eq_refl) as (k3 & u & Hu & Hgo).
  exists k3, u. split; [|done]. right. destruct Hu as [[= -> ->]|Hu]; [done|].
  eapply came_before_trans; [by apply r_NoDup|exact Hu|done].
Qed.

(** ** An example: two readers have the lock, a writer and a third reader wait *)

Definition rw_example : rw_system (K := string) :=
  let s := RWSystem new_rw_lock ∅ ∅ [] in
  let s := rw_begin (rw_begin s Reader "k" 0) Reader "k" 1 in
  let s := rw_move (rw_move s Reader "k" 0 RWHolding) Reader "k" 1 RWHolding in
  rw_begin (rw_begin s Writer "k" 2) Reader "k" 3.

(** The readers leave, the writer takes the lock *)
Definition rw_example_writing : rw_system (K := string) :=
  rw_move (rw_call (rw_call rw_example Reader "k" 0) Reader "k" 1) Writer "k" 2 RWHolding.

Lemma rw_example_reachable : rw_reachable rw_example.
Proof.
  unfold rw_example. cbv zeta.
  eapply rw_next; [|apply rw_arrive; compute_done].
  eapply rw_next; [|apply rw_arrive; compute_done].
  eapply rw_next; [|eapply (rw_resume _ _ _ _ []); [vm_compute; reflexivity|intros d Hd; inversion Hd]].
  eapply rw_next; [|eapply (rw_resume _ _ _ _ []); [vm_compute; reflexivity|intros d Hd; inversion Hd]].
  eapply rw_next; [|apply rw_arrive; compute_done].
  eapply rw_next; [|apply rw_arrive; compute_done].
  constructor.
Qed.

Lemma rw_example_writing_reachable : rw_reachable rw_example_writing.
Proof.
  unfold rw_example_writing.
  eapply rw_next; [|eapply (rw_resume _ _ _ _ [1; 0]%nat); [vm_compute; reflexivity|]].
  - eapply rw_next; [|eapply rw_finish; vm_compute; reflexivity].
    eapply rw_next; [|eapply rw_finish; vm_compute; reflexivity]. exact rw_example_reachable.
  - intros d Hd. repeat (apply elem_of_cons in Hd as [->|Hd]; [compute_done|]).
    inversion Hd.
Qed.

Lemma rw_lock_exclusion_witness :
  rw_reachable rw_example_writing ∧ rw_tasks rw_example_writing !! 2%nat = Some (Writer, "k", RWHolding) ∧
  ¬ rw_tasks rw_example_writing !! 3%nat = Some (Reader, "k", RWHolding).
Proof.
  assert (rw_tasks rw_example_writing !! 2%nat = Some (Writer, "k", RWHolding)) as Hw by (vm_compute; reflexivity).
  split; [exact rw_example_writing_reachable|]. split; [exact Hw|]. intros Hr.
  discriminate (rw_lock_exclusion rw_example_writing "k" 2 3 Reader rw_example_writing_reachable Hw Hr).
Defined.

Lemma rw_lock_no_deadlock_witness :
  ∃ k' u, ((k', u) = (Reader, 3%nat) ∨ came_before (rw_arrived rw_example) "k" k' u Reader 3%nat) ∧
    may_go rw_example k' "k" u.
Proof.
  apply (rw_lock_no_deadlock rw_example "k" 3 Reader [2%nat] false rw_example_reachable).
  vm_compute. reflexivity.
Defined.
