(* ===== verification/LinkedList.v ===== *)
(** * Linked lists: [synapse/util/linked_list.py]

    A circular doubly linked list with a root node, as objects in a heap that refer
    to each other.  The theorem: the methods do what they say to the sequence of
    nodes that one finds by following [next_node] from the root, and the other
    direction agrees with it.  The lock and the dropping of reference cycles for
    the garbage collector are left out. *)

From S2P Require Import Prelude.

Section LinkedList.
Context {P : Type}.

Record ListNode : Type := MkListNode {
  cache_entry : option P;
  prev_node : option nat;
  next_node : option nat;
}.

(** The nodes there are, and the number of the next one *)
Record list_heap : Type := MkHeap { lh_nodes : gmap nat ListNode; lh_fresh : nat }.

Definition empty_heap : list_heap := MkHeap ∅ 0.

Definition node_at (h : list_heap) (x : nat) : py ListNode :=
  match lh_nodes h !! x with Some n => Ok n | None => Raise AttributeError end.

Definition put_node (h : list_heap) (x : nat) (n : ListNode) : list_heap :=
  MkHeap (<[x := n]> (lh_nodes h)) (lh_fresh h).

(** Assignments to attributes *)
Definition set_prev (h : list_heap) (x : nat) (p : option nat) : py list_heap :=
  n ← node_at h x; Ok (put_node h x (MkListNode (cache_entry n) p (next_node n))).
Definition set_next (h : list_heap) (x : nat) (p : option nat) : py list_heap :=
  n ← node_at h x; Ok (put_node h x (MkListNode (cache_entry n) (prev_node n) p)).

(** [ListNode(cache_entry)] *)
Definition new_node (h : list_heap) (e : option P) : list_heap * nat :=
  let x := lh_fresh h in (MkHeap (<[x := MkListNode e None None]> (lh_nodes h)) (S x), x).

Definition create_root_node (h : list_heap) : py (list_heap * nat) :=
  let '(h, root) := new_node h None in
  h ← set_prev h root (Some root); h ← set_next h root (Some root); Ok (h, root).

Definition refs_remove_node_from_list (h : list_heap) (self : nat) : py list_heap :=
  n ← node_at h self;
  match prev_node n, next_node n with
  | Some p, Some q =>
      h ← set_next h p (Some q);
      h ← set_prev h q (Some p);
      h ← set_prev h self None;
      set_next h self None
  | _, _ => Ok h
  end.

Definition refs_insert_after (h : list_heap) (self node : nat) : py list_heap :=
  n ← node_at h self;
  raise_if (bool_decide (is_Some (prev_node n)) || bool_decide (is_Some (next_node n))) AssertionError ;;
  m ← node_at h node;
  match next_node m, prev_node m with
  | Some q, Some _ =>
      h ← set_prev h self (Some node);
      h ← set_next h self (Some q);
      h ← set_next h node (Some self);
      set_prev h q (Some self)
  | _, _ => Raise AssertionError
  end.

Definition insert_after (h : list_heap) (e : P) (node : nat) : py (list_heap * nat) :=
  let '(h, x) := new_node h (Some e) in
  h ← refs_insert_after h x node; Ok (h, x).

Definition remove_from_list (h : list_heap) (self : nat) : py list_heap :=
  h ← refs_remove_node_from_list h self;
  n ← node_at h self;
  Ok (put_node h self (MkListNode None (prev_node n) (next_node n))).

Definition move_after (h : list_heap) (self node : nat) : py list_heap :=
  n ← node_at h self;
  m ← node_at h node;
  raise_if (bool_decide (prev_node n = None) || bool_decide (next_node n = None)
            || bool_decide (prev_node m = None) || bool_decide (next_node m = None)
            || bool_decide (self = node)) AssertionError ;;
  h ← refs_remove_node_from_list h self;
  refs_insert_after h self node.

Definition get_cache_entry (h : list_heap) (self : nat) : py (option P) :=
  n ← node_at h self; Ok (cache_entry n).

(** ** The sequence of nodes *)

Definition nxt (h : list_heap) (x : nat) : option nat := lh_nodes h !! x ≫= next_node.
Definition prv (h : list_heap) (x : nat) : option nat := lh_nodes h !! x ≫= prev_node.
Definition ent (h : list_heap) (x : nat) : option P := lh_nodes h !! x ≫= cache_entry.

(** From [a] one comes to [b] through [l], and back. *)
Fixpoint links (h : list_heap) (a : nat) (l : list nat) (b : nat) : Prop :=
  match l with
  | [] => nxt h a = Some b ∧ prv h b = Some a
  | x :: l => nxt h a = Some x ∧ prv h x = Some a ∧ links h x l b
  end.

(** The nodes after [root] are [l]; the numbers from [lh_fresh] on are not in use. *)
Record dll (h : list_heap) (root : nat) (l : list nat) : Prop := {
  dll_NoDup : NoDup (root :: l);
  dll_links : links h root l root;
  dll_fresh : ∀ x n, lh_nodes h !! x = Some n → (x < lh_fresh h)%nat;
}.

Lemma links_app h a l1 x l2 b : links h a (l1 ++ x :: l2) b ↔ links h a l1 x ∧ links h x l2 b.
Proof using Type.
  revert a. induction l1 as [|y l1 IH]; intros a; cbn; [tauto|]. rewrite IH. tauto.
Qed.

Lemma links_snoc h a l x b : links h a (l ++ [x]) b ↔ links h a l x ∧ nxt h x = Some b ∧ prv h b = Some x.
Proof using Type. apply links_app. Qed.

Lemma links_frame h h' a l b :
  (∀ x, x ∈ a :: l → nxt h' x = nxt h x) → (∀ x, x ∈ l ++ [b] → prv h' x = prv h x) →
  links h a l b → links h' a l b.
Proof using Type.
  revert a. induction l as [|y l IH]; intros a Hn Hp; cbn.
  - intros [? ?]. rewrite Hn by by left. rewrite Hp by by left. done.
  - intros (? & ? & ?). rewrite Hn by by left. rewrite Hp by by left. split_and!; [done|done|].
    apply IH; [intros x Hx; apply Hn; by right|intros x Hx; apply Hp; by right|done].
Qed.

(** What is there has successors and predecessors. *)
Lemma links_ends h a l b : links h a l b →
  (∀ x, x ∈ a :: l → is_Some (nxt h x)) ∧ (∀ x, x ∈ l ++ [b] → is_Some (prv h x)).
Proof using Type.
  revert a. induction l as [|y l IH]; intros a; cbn.
  - intros [H1 H2]. split; intros x ->%list_elem_of_singleton; by eexists.
  - intros (H1 & H2 & H3). destruct (IH y H3) as [H4 H5]. split.
    + intros x [->|Hx]%elem_of_cons; [by eexists|auto].
    + intros x [->|Hx]%elem_of_cons; [by eexists|auto].
Qed.

(** The same nodes with the same entries *)
Definition same_nodes (h h' : list_heap) : Prop :=
  lh_fresh h' = lh_fresh h ∧ ∀ y, (is_Some (lh_nodes h' !! y) ↔ is_Some (lh_nodes h !! y)) ∧ ent h' y = ent h y.

Lemma same_nodes_trans h1 h2 h3 : same_nodes h1 h2 → same_nodes h2 h3 → same_nodes h1 h3.
Proof using Type.
  intros [E1 H1] [E2 H2]. split; [congruence|]. intros y. destruct (H1 y) as [? <-], (H2 y) as [? <-]. tauto.
Qed.

Lemma set_next_spec h x p :
  is_Some (lh_nodes h !! x) →
  ∃ h', set_next h x p = Ok h' ∧ (∀ y, nxt h' y = if decide (y = x) then p else nxt h y) ∧
    (∀ y, prv h' y = prv h y) ∧ same_nodes h h'.
Proof using Type.
  intros [n Hn]. unfold set_next, node_at. rewrite Hn. eexists. split; [done|].
  unfold same_nodes, nxt, prv, ent. cbn. split_and!; [| |done|]; intros y;
    (destruct (decide (y = x)) as [->|]; [rewrite lookup_insert_eq, ?Hn|rewrite lookup_insert_ne by done]); cbn; done.
Qed.

Lemma set_prev_spec h x p :
  is_Some (lh_nodes h !! x) →
  ∃ h', set_prev h x p = Ok h' ∧ (∀ y, prv h' y = if decide (y = x) then p else prv h y) ∧
    (∀ y, nxt h' y = nxt h y) ∧ same_nodes h h'.
Proof using Type.
  intros [n Hn]. unfold set_prev, node_at. rewrite Hn. eexists. split; [done|].
  unfold same_nodes, nxt, prv, ent. cbn. split_and!; [| |done|]; intros y;
    (destruct (decide (y = x)) as [->|]; [rewrite lookup_insert_eq, ?Hn|rewrite lookup_insert_ne by done]); cbn; done.
Qed.

Lemma nxt_in h x y : nxt h x = Some y → is_Some (lh_nodes h !! x).
Proof using Type. unfold nxt. destruct (lh_nodes h !! x); [by eexists|done]. Qed.
Lemma prv_in h x y : prv h x = Some y → is_Some (lh_nodes h !! x).
Proof using Type. unfold prv. destruct (lh_nodes h !! x); [by eexists|done]. Qed.

Lemma remove_refs_spec h x p q :
  prv h x = Some p → nxt h x = Some q → is_Some (lh_nodes h !! p) → is_Some (lh_nodes h !! q) →
  ∃ h', refs_remove_node_from_list h x = Ok h' ∧ same_nodes h h' ∧
    (∀ y, nxt h' y = if decide (y = x) then None else if decide (y = p) then Some q else nxt h y) ∧
    (∀ y, prv h' y = if decide (y = x) then None else if decide (y = q) then Some p else prv h y).
Proof using Type.
  intros Hp Hq Hip Hiq. pose proof (prv_in _ _ _ Hp) as Hix. unfold refs_remove_node_from_list, node_at.
  destruct Hix as [n Hn]. rewrite Hn. cbn [mbind py_bind]. unfold prv in Hp. unfold nxt in Hq. rewrite Hn in Hp, Hq.
  cbn in Hp, Hq. rewrite Hp, Hq.
  destruct (set_next_spec h p (Some q) Hip) as (h1 & -> & N1 & P1 & S1). cbn [mbind py_bind].
  destruct (set_prev_spec h1 q (Some p)) as (h2 & -> & P2 & N2 & S2); [by apply S1|]. cbn [mbind py_bind].
  pose proof (same_nodes_trans _ _ _ S1 S2) as S12.
  destruct (set_prev_spec h2 x None) as (h3 & -> & P3 & N3 & S3); [apply S12; by eexists|]. cbn [mbind py_bind].
  pose proof (same_nodes_trans _ _ _ S12 S3) as S13.
  destruct (set_next_spec h3 x None) as (h4 & -> & N4 & P4 & S4); [apply S13; by eexists|].
  exists h4. split_and!; [done|by eapply same_nodes_trans| |].
  - intros y. rewrite N4, N3, N2, N1. done.
  - intros y. rewrite P4, P3, P2, P1. done.
Qed.

Lemma insert_refs_spec h x m q :
  is_Some (lh_nodes h !! x) → prv h x = None → nxt h x = None → x ≠ m →
  nxt h m = Some q → is_Some (prv h m) → is_Some (lh_nodes h !! q) →
  ∃ h', refs_insert_after h x m = Ok h' ∧ same_nodes h h' ∧
    (∀ y, nxt h' y = if decide (y = m) then Some x else if decide (y = x) then Some q else nxt h y) ∧
    (∀ y, prv h' y = if decide (y = q) then Some x else if decide (y = x) then Some m else prv h y).
Proof using Type.
  intros [n Hn] Hp Hnx Hxm Hq Hpm Hiq. pose proof (nxt_in _ _ _ Hq) as [k Hk].
  unfold refs_insert_after, node_at. rewrite Hn. cbn [mbind py_bind].
  unfold prv in Hp, Hpm. unfold nxt in Hnx, Hq. rewrite Hn in Hp, Hnx. rewrite Hk in Hq, Hpm.
  cbn in Hp, Hnx, Hq, Hpm. rewrite Hp, Hnx.
  rewrite !bool_decide_eq_false_2 by (intros [? ?]; done). cbn [orb raise_if mbind py_bind]. rewrite Hk. cbn [mbind py_bind].
  rewrite Hq. destruct Hpm as [z Hz]. rewrite Hz.
  destruct (set_prev_spec h x (Some m)) as (h1 & -> & P1 & N1 & S1); [by eexists|]. cbn [mbind py_bind].
  destruct (set_next_spec h1 x (Some q)) as (h2 & -> & N2 & P2 & S2); [apply S1; by eexists|]. cbn [mbind py_bind].
  pose proof (same_nodes_trans _ _ _ S1 S2) as S12.
  destruct (set_next_spec h2 m (Some x)) as (h3 & -> & N3 & P3 & S3); [apply S12; by eexists|]. cbn [mbind py_bind].
  pose proof (same_nodes_trans _ _ _ S12 S3) as S13.
  destruct (set_prev_spec h3 q (Some x)) as (h4 & -> & P4 & N4 & S4); [by apply S13|].
  exists h4. split_and!; [done|by eapply same_nodes_trans| |].
  - intros y. rewrite N4, N3, N2, N1. done.
  - intros y. rewrite P4, P3, P2, P1. done.
Qed.

(** The neighbours of a node in the list *)
Lemma links_first h a l b : links h a l b → nxt h a = Some (default b (head l)) ∧ prv h (default b (head l)) = Some a.
Proof using Type. destruct l; cbn; tauto. Qed.

Lemma links_last h a l b : links h a l b → prv h b = Some (default a (last l)) ∧ nxt h (default a (last l)) = Some b.
Proof using Type.
  destruct l as [|x l] using rev_ind; [cbn; tauto|]. rewrite links_snoc, last_snoc. cbn. tauto.
Qed.

(** Changing where a segment ends *)
Lemma relink_end h h' a l x q :
  NoDup (a :: l) → links h a l x →
  (∀ y, y ∈ a :: l → y ≠ default a (last l) → nxt h' y = nxt h y) → (∀ y, y ∈ l → prv h' y = prv h y) →
  nxt h' (default a (last l)) = Some q → prv h' q = Some (default a (last l)) → links h' a l q.
Proof using Type.
  destruct l as [|p l] using rev_ind; [done|]. clear IHl. rewrite last_snoc, !links_snoc. cbn.
  intros Hnd (Hl & _ & _) Hn Hp Hn' Hp'. split_and!; [|done|done]. eapply links_frame; [| |exact Hl].
  - intros y Hy. apply Hn.
    + apply elem_of_cons in Hy as [->|Hy]; [by left|right]. apply elem_of_app. by left.
    + intros ->. rewrite app_comm_cons in Hnd. apply NoDup_app in Hnd as (_ & Hd & _). apply (Hd p Hy). by left.
  - intros y Hy. by apply Hp.
Qed.

Lemma dll_remove h root l1 x l2 :
  dll h root (l1 ++ x :: l2) →
  ∃ h', refs_remove_node_from_list h x = Ok h' ∧ dll h' root (l1 ++ l2) ∧ same_nodes h h' ∧
    nxt h' x = None ∧ prv h' x = None ∧ root ≠ x ∧ x ∉ l1 ++ l2.
Proof using Type.
  intros [Hnd Hl Hf]. apply links_app in Hl as [Hl1 Hl2].
  pose proof (links_first _ _ _ _ Hl2) as [Hq Hq']. pose proof (links_last _ _ _ _ Hl1) as [Hp Hp'].
  set (q := default root (head l2)) in *. set (p := default root (last l1)) in *.
  destruct (remove_refs_spec h x p q Hp Hq) as (h' & Hr & Hs & Hn' & Hp1); [by eapply nxt_in|by eapply prv_in|].
  assert (NoDup (root :: l1 ++ l2) ∧ root ≠ x ∧ x ∉ l1 ++ l2) as (Hnd' & Hrx & Hx).
  { apply NoDup_cons in Hnd as [Hr1 Hnd]. rewrite elem_of_app, elem_of_cons in Hr1.
    apply NoDup_app in Hnd as (N1 & N2 & N3). apply NoDup_cons in N3 as [N3 N4].
    split; [|split; [tauto|]].
    - apply NoDup_cons. split; [rewrite elem_of_app; tauto|]. apply NoDup_app. split_and!; [done| |done].
      intros z Hz Hz'. apply (N2 z Hz). by right.
    - rewrite elem_of_app. intros [Hz|?]; [|done]. apply (N2 x Hz). by left. }
  exists h'. split_and!; [done| |done|by rewrite Hn', decide_True|by rewrite Hp1, decide_True|done|done].
  split; [done| |].
  - assert (∀ y, y ∈ l1 → y ≠ x ∧ y ≠ q ∧ y ≠ root) as Hy1.
    { intros y Hy. apply NoDup_cons in Hnd' as [Hr1 Hnd']. apply NoDup_app in Hnd' as (_ & N2 & _).
      rewrite elem_of_app in Hr1, Hx. split_and!; [naive_solver| |naive_solver].
      subst q. destruct l2 as [|z l2]; cbn; [naive_solver|]. intros ->. apply (N2 z Hy). by left. }
    assert (links h' root l1 q) as Hfirst.
    { eapply relink_end; [|exact Hl1| | | |]; fold p.
      - apply NoDup_cons in Hnd' as [Hr1 Hnd']. apply NoDup_cons. split; [rewrite elem_of_app in Hr1; tauto|].
        by apply NoDup_app in Hnd' as [? _].
      - intros y Hy Hyp. rewrite Hn', !decide_False; [done|done|].
        apply elem_of_cons in Hy as [->|Hy]; [done|by apply Hy1].
      - intros y Hy. destruct (Hy1 y Hy) as (? & ? & ?). by rewrite Hp1, !decide_False.
      - rewrite Hn', decide_False, decide_True; [done|done|].
        subst p. destruct (last l1) as [z|] eqn:El; cbn; [|done]. apply last_Some in El as [l' ->].
        apply Hy1. apply elem_of_app. right. by left.
      - rewrite Hp1, decide_False, decide_True; [done|done|].
        subst q. destruct l2 as [|z l2]; cbn; [done|]. intros ->. apply Hx. apply elem_of_app. right. by left. }
    destruct l2 as [|z l2]; [by rewrite app_nil_r|]. apply links_app. split; [done|]. cbn in q.
    destruct Hl2 as (_ & _ & Hl2). eapply links_frame; [| |exact Hl2].
    + intros y Hy. apply NoDup_cons in Hnd' as [Hr1 Hnd']. apply NoDup_app in Hnd' as (_ & N2 & _).
      rewrite Hn', !decide_False; [done| |].
      * subst p. destruct (last l1) as [w|] eqn:El; cbn.
        -- apply last_Some in El as [l' ->]. intros ->. apply (N2 w); [|done]. apply elem_of_app. right. by left.
        -- intros ->. apply Hr1. apply elem_of_app. by right.
      * intros ->. apply Hx. apply elem_of_app. by right.
    + intros y Hy. apply NoDup_cons in Hnd' as [Hr1 Hnd']. apply NoDup_app in Hnd' as (_ & _ & N3).
      apply NoDup_cons in N3 as [N3 _].
      rewrite Hp1, !decide_False; [done| |].
      * subst q. intros ->. apply elem_of_app in Hy as [Hy|Hy]; [done|]. apply list_elem_of_singleton in Hy as ->.
        apply Hr1. apply elem_of_app. right. by left.
      * intros ->. apply elem_of_app in Hy as [Hy|Hy].
        -- apply Hx. apply elem_of_app. right. by right.
        -- apply list_elem_of_singleton in Hy. by symmetry in Hy.
  - intros y n Hy. destruct Hs as [-> Hs]. destruct (Hs y) as [[H1 _] _].
    destruct H1 as [n' Hy']; [by eexists|]. by eapply Hf.
Qed.

Lemma links_insert h h' m l b x :
  NoDup (m :: l) → b ∉ l → x ∉ m :: l → x ≠ b → links h m l b →
  (∀ y, nxt h' y = if decide (y = m) then Some x
                   else if decide (y = x) then Some (default b (head l)) else nxt h y) →
  (∀ y, prv h' y = if decide (y = default b (head l)) then Some x
                   else if decide (y = x) then Some m else prv h y) →
  links h' m (x :: l) b.
Proof using Type.
  intros Hnd Hb Hx Hxb Hl Hn Hp. apply not_elem_of_cons in Hx as [Hxm Hx].
  assert (x ≠ default b (head l)) as Hxq by (destruct l; cbn; [done|]; intros ->; apply Hx; by left).
  cbn. split_and!; [by rewrite Hn, decide_True|by rewrite Hp, decide_False, decide_True|].
  assert (nxt h' x = Some (default b (head l)) ∧ prv h' (default b (head l)) = Some x) as [Hnx Hpx].
  { rewrite Hn, decide_False, decide_True, Hp, decide_True by done. done. }
  destruct l as [|z l]; [done|]. cbn in *. destruct Hl as (_ & _ & Hl). split_and!; [done|done|].
  apply NoDup_cons in Hnd as [Hm Hnd]. apply NoDup_cons in Hnd as [Hz _].
  eapply links_frame; [| |exact Hl].
  - intros y Hy. rewrite Hn, !decide_False; [done| |]; intros ->; done.
  - intros y Hy. rewrite Hp, !decide_False; [done| |]; intros ->.
    + apply elem_of_app in Hy as [Hy|Hy]; [apply Hx; by right|]. apply list_elem_of_singleton in Hy. done.
    + apply elem_of_app in Hy as [Hy|Hy]; [done|]. apply list_elem_of_singleton in Hy as ->. apply Hb. by left.
Qed.

(** Inserting after the node [m], which is the root or one of the list *)
Lemma dll_insert h root l x m l1 l2 :
  dll h root l → root :: l = l1 ++ m :: l2 →
  is_Some (lh_nodes h !! x) → prv h x = None → nxt h x = None →
  ∃ h' l', refs_insert_after h x m = Ok h' ∧ root :: l' = l1 ++ m :: x :: l2 ∧ dll h' root l' ∧ same_nodes h h'.
Proof using Type.
  intros [Hnd Hl Hf] Hsplit Hix Hpx Hnx.
  assert (x ∉ root :: l) as Hx.
  { intros Hx. destruct (links_ends _ _ _ _ Hl) as [H1 _]. destruct (H1 x Hx). congruence. }
  assert (links h m l2 root ∧ is_Some (prv h m) ∧ (l1 = [] ∨ ∃ l1', l1 = root :: l1' ∧ l = l1' ++ m :: l2 ∧ links h root l1' m))
    as (Hl2 & Hpm & Hl1).
  { destruct l1 as [|r l1]; injection Hsplit as <- ->.
    - split_and!; [done| |by left]. apply (links_ends _ _ _ _ Hl). apply elem_of_app. right. by left.
    - apply links_app in Hl as [Ha Hb]. split_and!; [done| |right; by exists l1].
      apply (links_ends _ _ _ _ Ha). apply elem_of_app. right. by left. }
  pose proof (links_first _ _ _ _ Hl2) as [Hq Hq']. set (q := default root (head l2)) in *.
  destruct (insert_refs_spec h x m q) as (h' & Hr & Hs & Hn & Hp); [done..| |done|done|by eapply prv_in|].
  { intros ->. apply Hx. rewrite Hsplit. apply elem_of_app. right. by left. }
  assert (NoDup (m :: l2) ∧ x ∉ m :: l2 ∧ x ≠ root ∧ root ∉ l2) as (Hnd2 & Hxm & Hxr & Hr2).
  { rewrite Hsplit in Hnd, Hx. apply NoDup_app in Hnd as (_ & Hd & Hnd2). split; [done|].
    split; [|split].
    - intros Hin. apply Hx. apply elem_of_app. by right.
    - intros ->. apply Hx. rewrite <- Hsplit. by left.
    - destruct l1 as [|r l1]; injection Hsplit as <- _; [by apply NoDup_cons in Hnd2 as [? _]|].
      intros Hin. apply (Hd root); [by left|by right]. }
  pose proof (links_insert h h' m l2 root x Hnd2 Hr2 Hxm Hxr Hl2 Hn Hp) as Hl2'.
  assert (∀ l', root :: l' = l1 ++ m :: x :: l2 → NoDup (root :: l')) as Hnd'.
  { intros l' ->. rewrite Hsplit in Hnd, Hx. clear -Hnd Hx. rewrite (Permutation_app_comm l1 (m :: x :: l2)). cbn.
    rewrite (Permutation_app_comm l1 (m :: l2)) in Hnd. rewrite (Permutation_app_comm l1 (m :: l2)) in Hx. cbn in Hnd, Hx.
    rewrite Permutation_swap. by apply NoDup_cons. }
  assert (∀ y n, lh_nodes h' !! y = Some n → (y < lh_fresh h')%nat) as Hf'.
  { intros y n Hy. destruct Hs as [-> Hs]. destruct (Hs y) as [[H1 _] _].
    destruct H1 as [n' Hy']; [by eexists|]. by eapply Hf. }
  destruct Hl1 as [->|(l1' & -> & -> & Ha)].
  - cbn in Hsplit. injection Hsplit as -> ->. exists h', (x :: l2). split_and!; [done|done| |done].
    split; [by apply Hnd'|done|done].
  - exists h', (l1' ++ m :: x :: l2). split_and!; [done|done| |done]. split; [by apply Hnd'| |done].
    apply links_app. split; [|done]. apply NoDup_cons in Hnd as [Hrn Hnd].
    apply NoDup_app in Hnd as (_ & Hd & _). rewrite elem_of_app in Hrn.
    eapply links_frame; [| |exact Ha].
    + intros y Hy. rewrite Hn, !decide_False; [done| |]; intros ->.
      * apply Hx. apply elem_of_cons in Hy as [->|Hy]; [by left|right; apply elem_of_app; by left].
      * apply elem_of_cons in Hy as [->|Hy]; [apply Hrn; right; by left|]. apply (Hd m Hy). by left.
    + assert (∀ y, y ∈ l1' ++ [m] → y ∈ root :: l1' ++ m :: l2 ∧ y ≠ q) as Hy'.
      { intros y Hy. split; [right; apply elem_of_app in Hy as [Hy|Hy]; apply elem_of_app; [by left|]; right;
          apply list_elem_of_singleton in Hy as ->; by left|].
        intros ->. subst q. destruct l2 as [|z l2]; cbn in Hy.
        - apply Hrn. rewrite elem_of_app, list_elem_of_singleton in Hy. rewrite elem_of_cons. tauto.
        - apply elem_of_app in Hy as [Hy|Hy]; [apply (Hd z Hy); right; by left|].
          apply list_elem_of_singleton in Hy as ->. apply NoDup_cons in Hnd2 as [Hnd2 _]. apply Hnd2. by left. }
      intros y Hy. destruct (Hy' y Hy) as [Hy1 Hy2]. rewrite Hp, !decide_False; [done| |done]. by intros ->.
Qed.

(** ** The methods *)

Definition heap_ok (h : list_heap) : Prop := ∀ x n, lh_nodes h !! x = Some n → (x < lh_fresh h)%nat.

Lemma create_root_spec h :
  heap_ok h → ∃ h' root, create_root_node h = Ok (h', root) ∧ dll h' root [] ∧ ent h' root = None.
Proof using Type.
  intros Hh. unfold create_root_node. cbn. set (x := lh_fresh h). set (h0 := MkHeap _ (S x)).
  assert (is_Some (lh_nodes h0 !! x)) as Hx by (cbn; rewrite lookup_insert_eq; by eexists).
  destruct (set_prev_spec h0 x (Some x) Hx) as (h1 & -> & P1 & N1 & S1). cbn [mbind py_bind].
  destruct (set_next_spec h1 x (Some x)) as (h2 & -> & N2 & P2 & S2); [by apply S1|]. cbn [mbind py_bind].
  pose proof (same_nodes_trans _ _ _ S1 S2) as [Sf Sn].
  exists h2, x. split; [done|]. split.
  - split; [apply NoDup_singleton|cbn; rewrite N2, P2, P1, !decide_True by done; done|].
    intros y n Hy. rewrite Sf. destruct (Sn y) as [[H1 _] _]. destruct H1 as [n' Hy']; [by eexists|].
    cbn in Hy' |- *. apply lookup_insert_Some in Hy' as [[<- _]|[_ Hy']]; [lia|]. apply Hh in Hy'. subst x. lia.
  - destruct (Sn x) as [_ ->]. unfold ent. cbn. by rewrite lookup_insert_eq.
Qed.

(** A new node does not touch the list. *)
Lemma new_node_spec h root l e :
  dll h root l → dll (new_node h e).1 root l ∧ lh_fresh h ∉ root :: l ∧
    prv (new_node h e).1 (lh_fresh h) = None ∧ nxt (new_node h e).1 (lh_fresh h) = None ∧
    ∀ y, ent (new_node h e).1 y = if decide (y = lh_fresh h) then e else ent h y.
Proof using Type.
  intros [Hnd Hl Hf]. set (x := lh_fresh h).
  assert (x ∉ root :: l) as Hx.
  { intros Hx. destruct (links_ends _ _ _ _ Hl) as [H1 _]. destruct (H1 x Hx) as [z Hz].
    apply nxt_in in Hz as [n Hz]. apply Hf in Hz. subst x. lia. }
  assert (∀ y, y ≠ x → nxt (new_node h e).1 y = nxt h y ∧ prv (new_node h e).1 y = prv h y) as Hsame.
  { intros y Hy. unfold nxt, prv. cbn. by rewrite lookup_insert_ne. }
  split_and!; [|done| | |].
  - split; [done| |].
    + apply not_elem_of_cons in Hx as [Hxr Hxl]. eapply links_frame; [| |exact Hl]; intros y Hy; apply Hsame; intros ->.
      * apply elem_of_cons in Hy as [?|?]; [by symmetry in H|done].
      * apply elem_of_app in Hy as [?|Hy]; [done|]. apply list_elem_of_singleton in Hy. by symmetry in Hy.
    + intros y n. cbn. rewrite lookup_insert_Some. intros [[<- _]|[_ Hy]]; [fold x; lia|]. apply Hf in Hy. lia.
  - unfold prv. cbn. fold x. by rewrite lookup_insert_eq.
  - unfold nxt. cbn. fold x. by rewrite lookup_insert_eq.
  - intros y. unfold ent. cbn. fold x. destruct (decide (y = x)) as [->|]; [by rewrite lookup_insert_eq|].
    by rewrite lookup_insert_ne.
Qed.

Lemma insert_after_spec h root l e m l1 l2 :
  dll h root l → root :: l = l1 ++ m :: l2 →
  ∃ h' x l', insert_after h e m = Ok (h', x) ∧ x = lh_fresh h ∧ root :: l' = l1 ++ m :: x :: l2 ∧ dll h' root l' ∧
    x ∉ root :: l ∧ ∀ y, ent h' y = if decide (y = x) then Some e else ent h y.
Proof using Type.
  intros Hd Hsplit. destruct (new_node_spec h root l (Some e) Hd) as (Hd0 & Hx & Hp & Hn & He).
  unfold insert_after. destruct (new_node h (Some e)) as [h0 x] eqn:Eh.
  assert (x = lh_fresh h ∧ is_Some (lh_nodes h0 !! x)) as [-> Hix].
  { injection Eh as <- <-. cbn. rewrite lookup_insert_eq. split; [done|by eexists]. }
  cbn [fst] in *.
  destruct (dll_insert h0 root l (lh_fresh h) m l1 l2 Hd0 Hsplit Hix Hp Hn) as (h' & l' & -> & Hl' & Hd' & [_ Hs]).
  cbn [mbind py_bind]. exists h', (lh_fresh h), l'. split_and!; [done|done|done|done|done|].
  intros y. destruct (Hs y) as [_ ->]. apply He.
Qed.

(** The same list and entries, but for the entry of [x] *)
Lemma put_entry_spec h root l x n e :
  dll h root l → lh_nodes h !! x = Some n →
  dll (put_node h x (MkListNode e (prev_node n) (next_node n))) root l ∧
  ∀ y, ent (put_node h x (MkListNode e (prev_node n) (next_node n))) y = if decide (y = x) then e else ent h y.
Proof using Type.
  intros [Hnd Hl Hf] Hx. split; [split; [done| |]|].
  - eapply links_frame; [| |exact Hl]; intros y _; unfold nxt, prv; cbn;
      (destruct (decide (y = x)) as [->|]; [by rewrite lookup_insert_eq, Hx|by rewrite lookup_insert_ne]).
  - intros y n'. cbn. rewrite lookup_insert_Some. intros [[<- _]|[_ Hy]]; by eapply Hf.
  - intros y. unfold ent. cbn. destruct (decide (y = x)) as [->|]; [by rewrite lookup_insert_eq|].
    by rewrite lookup_insert_ne.
Qed.

Lemma remove_from_list_spec h root l1 x l2 :
  dll h root (l1 ++ x :: l2) →
  ∃ h', remove_from_list h x = Ok h' ∧ dll h' root (l1 ++ l2) ∧ lh_fresh h' = lh_fresh h ∧
    ∀ y, ent h' y = if decide (y = x) then None else ent h y.
Proof using Type.
  intros Hd. pose proof (dll_links _ _ _ Hd) as Hl. apply links_app in Hl as [Hl1 _].
  pose proof (links_last _ _ _ _ Hl1) as [Hp _]. apply prv_in in Hp as Hix.
  destruct (dll_remove _ _ _ _ _ Hd) as (h1 & Hr & Hd1 & Hs & _). unfold remove_from_list. rewrite Hr. cbn [mbind py_bind].
  assert (is_Some (lh_nodes h1 !! x)) as [n Hn] by by apply Hs. unfold node_at. rewrite Hn. cbn [mbind py_bind].
  destruct (put_entry_spec h1 root (l1 ++ l2) x n None Hd1 Hn) as [Hd2 He].
  eexists. split_and!; [done|done|apply Hs|]. intros y. rewrite He. destruct Hs as [_ Hs]. by destruct (Hs y) as [_ ->].
Qed.

Lemma move_after_root_spec h root l1 x l2 :
  dll h root (l1 ++ x :: l2) →
  ∃ h', move_after h x root = Ok h' ∧ dll h' root (x :: l1 ++ l2) ∧ lh_fresh h' = lh_fresh h ∧ ∀ y, ent h' y = ent h y.
Proof using Type.
  intros Hd. pose proof (links_ends _ _ _ _ (dll_links _ _ _ Hd)) as [Hn Hp].
  destruct (dll_remove _ _ _ _ _ Hd) as (h1 & Hr & Hd1 & Hs & Hnx & Hpx & Hrx & Hx).
  assert (∀ y, y = x ∨ y = root → ∃ n p q, lh_nodes h !! y = Some n ∧ prev_node n = Some p ∧ next_node n = Some q) as Hin.
  { intros y Hy. destruct (Hn y) as [q Hq].
    { destruct Hy as [->| -> ]; [right; apply elem_of_app; right; by left|by left]. }
    destruct (Hp y) as [p Hp'].
    { destruct Hy as [->| -> ]; apply elem_of_app; [left; apply elem_of_app; right; by left|right; by left]. }
    unfold nxt in Hq. unfold prv in Hp'. destruct (lh_nodes h !! y) as [n|]; [|done]. exists n, p, q. done. }
  destruct (Hin x) as (n & p & q & En & Enp & Enq); [by left|]. destruct (Hin root) as (m & p' & q' & Em & Emp & Emq); [by right|].
  unfold move_after, node_at. rewrite En. cbn [mbind py_bind]. rewrite Em. cbn [mbind py_bind].
  rewrite Enp, Enq, Emp, Emq, !bool_decide_eq_false_2 by (congruence || done). cbn [orb raise_if mbind py_bind].
  rewrite Hr. cbn [mbind py_bind].
  destruct (dll_insert h1 root (l1 ++ l2) x root [] (l1 ++ l2) Hd1 eq_refl) as (h' & l' & -> & Hl' & Hd' & Hs');
    [apply Hs; by eexists|done|done|].
  injection Hl' as ->. exists h'. pose proof (same_nodes_trans _ _ _ Hs Hs') as [Sf Sn].
  split_and!; [done|done|done|]. intros y. apply Sn.
Qed.
End LinkedList.
