(* ===== verification/CacheStore.v ===== *)
(** * What an LRU cache keeps its nodes in

    [LruCache] of [synapse/util/caches/lrucache.py] works over a [dict] or over a
    [TreeCache].  [CacheStore] has the operations it uses, [CacheStoreLaws] what it
    relies on: a store represents a map from keys to nodes, and popping a key takes
    out all keys under it.  Nodes are numbers. *)

From S2P Require Import Prelude.

Open Scope Z_scope.

Class CacheStore (K S : Type) : Type := {
  store_empty : S;
  (** [cache.get(key, None)], where the result is used as a node *)
  store_get : S → K → py (option nat);
  (** [cache[key] = node] *)
  store_set : S → K → nat → py S;
  (** [cache.pop(key, None)]: the leaves of what is popped *)
  store_pop : S → K → py (list nat * S);
  (** [len(cache)] and [cache.values()] *)
  store_len : S → Z;
  store_values : S → list nat;
  (** [key in cache] *)
  store_contains : S → K → py bool;
}.

Class CacheStoreLaws (K S : Type) `{Countable K} `{!CacheStore K S} : Type := {
  store_ok : S → Prop;
  store_map : S → gmap K nat;
  (** keys for entries, and keys to pop *)
  full_key : K → Prop;
  some_key : K → Prop;
  (** [under p k]: popping [p] takes out [k] *)
  under : K → K → bool;
  under_full : ∀ p k, full_key p → full_key k → under p k = bool_decide (p = k);
  full_some : ∀ k, full_key k → some_key k;
  store_full : ∀ s k n, store_ok s → store_map s !! k = Some n → full_key k;
  store_empty_ok : store_ok store_empty ∧ store_map store_empty = ∅;
  store_get_law : ∀ s k, store_ok s → full_key k → store_get s k = Ok (store_map s !! k);
  store_set_law : ∀ s k n, store_ok s → full_key k → store_map s !! k = None →
    ∃ s', store_set s k n = Ok s' ∧ store_ok s' ∧ store_map s' = <[k := n]> (store_map s);
  store_pop_law : ∀ s p, store_ok s → some_key p →
    ∃ ns s', store_pop s p = Ok (ns, s') ∧ store_ok s' ∧
      store_map s' = filter (λ x, under p x.1 = false) (store_map s) ∧
      ns ≡ₚ map snd (map_to_list (filter (λ x, under p x.1 = true) (store_map s)));
  store_len_law : ∀ s, store_ok s → store_len s = Z.of_nat (size (store_map s));
  store_values_law : ∀ s, store_ok s → store_values s ≡ₚ map snd (map_to_list (store_map s));
  store_contains_law : ∀ s k, store_ok s → full_key k →
    store_contains s k = Ok (bool_decide (is_Some (store_map s !! k)));
}.

Section Laws.
Context {K S : Type} `{Countable K} `{!CacheStore K S} `{!CacheStoreLaws K S}.

(** Popping a full key takes out this key. *)
Lemma store_pop_full (s : S) (k : K) :
  store_ok s → full_key k →
  ∃ ns s', store_pop s k = Ok (ns, s') ∧ store_ok s' ∧ store_map s' = delete k (store_map s) ∧
    ns = option_list (store_map s !! k).
Proof.
  intros Hs Hk. destruct (store_pop_law s k Hs (full_some k Hk)) as (ns & s' & Hp & Hok & Hm & Hns).
  exists ns, s'. split_and!; [done|done| |].
  - rewrite Hm. apply map_eq. intros x. destruct (decide (x = k)) as [->|Hne].
    + rewrite lookup_delete_eq. apply map_lookup_filter_None. right. intros n Hn. cbn.
      rewrite under_full, bool_decide_eq_true_2 by done. done.
    + rewrite lookup_delete_ne by done. apply option_eq. intros n. rewrite map_lookup_filter_Some. cbn.
      split; [tauto|]. intros Hn. split; [done|]. rewrite under_full; [|done|by eapply (store_full s)].
      by apply bool_decide_eq_false_2.
  - assert (filter (λ x : K * nat, under k x.1 = true) (store_map s) =
      match store_map s !! k with Some n => {[k := n]} | None => ∅ end) as Heq.
    { apply map_eq. intros x. apply option_eq. intros n. rewrite map_lookup_filter_Some. cbn. split.
      - intros [Hx Hu]. rewrite under_full in Hu; [|done|by eapply (store_full s)]. to_prop. subst x.
        rewrite Hx. apply lookup_singleton_eq.
      - destruct (store_map s !! k) as [m|] eqn:E; [|by rewrite lookup_empty].
        rewrite lookup_singleton_Some. intros [<- <-]. split; [done|].
        rewrite under_full by done. by apply bool_decide_eq_true_2. }
    rewrite Heq in Hns. destruct (store_map s !! k) as [n|]; cbn.
    + rewrite map_to_list_singleton in Hns. by apply Permutation_singleton_r in Hns.
    + rewrite map_to_list_empty in Hns. by apply Permutation_nil_r in Hns.
Qed.
End Laws.

(** ** A [dict] *)

#[export] Instance dict_store {K} `{Countable K} : CacheStore K (gmap K nat) := {
  store_empty := ∅;
  store_get s k := Ok (s !! k);
  store_set s k n := Ok (<[k := n]> s);
  store_pop s k := Ok (option_list (s !! k), delete k s);
  store_len s := Z.of_nat (size s);
  store_values s := map snd (map_to_list s);
  store_contains s k := Ok (bool_decide (is_Some (s !! k)));
}.

Lemma dict_pop_map {K} `{Countable K} (s : gmap K nat) p :
  delete p s = filter (λ x, bool_decide (p = x.1) = false) s ∧
  option_list (s !! p) ≡ₚ map snd (map_to_list (filter (λ x, bool_decide (p = x.1) = true) s)).
Proof.
  split.
  - apply map_eq. intros x. apply option_eq. intros n. rewrite lookup_delete_Some, map_lookup_filter_Some. cbn.
    rewrite bool_decide_eq_false. tauto.
  - assert (filter (λ x : K * nat, bool_decide (p = x.1) = true) s =
      match s !! p with Some n => {[p := n]} | None => ∅ end) as ->.
    { apply map_eq. intros x. apply option_eq. intros n. rewrite map_lookup_filter_Some. cbn.
      rewrite bool_decide_eq_true. split.
      - intros [Hx <-]. rewrite Hx. apply lookup_singleton_eq.
      - destruct (s !! p) as [m|] eqn:E; [|by rewrite lookup_empty].
        rewrite lookup_singleton_Some. by intros [<- <-]. }
    destruct (s !! p); [by rewrite map_to_list_singleton|by rewrite map_to_list_empty].
Qed.

#[export] Instance dict_store_laws {K} `{Countable K} : CacheStoreLaws K (gmap K nat).
Proof.
  refine {| store_ok := λ _, True; store_map := λ s, s; full_key := λ _, True; some_key := λ _, True;
            under := λ p k, bool_decide (p = k) |}; try done.
  - intros s k n _ _ _. by exists (<[k := n]> s).
  - intros s p _ _. exists (option_list (s !! p)), (delete p s).
    destruct (dict_pop_map s p) as [H1 H2]. by split_and!.
Defined.
