(* ===== verification/LruCache.v ===== *)
(** * The class [LruCache] of [synapse/util/caches/lrucache.py]

    A cache with a bound on its size: nodes in a store ([dict] or [TreeCache], see
    [CacheStore]) and in a linked list, the one used last first.  The closures that
    the constructor makes are functions of the state.  Callbacks are numbers;
    running one adds it to [lru_called].  Time-based eviction ([USE_GLOBAL_LIST]) is
    off, as are metrics and the tracking of memory; each method holds the lock from
    beginning to end. *)

From S2P Require Import Prelude LinkedList CacheStore.

Open Scope Z_scope.

Section LruCache.
Context {K V S : Type} `{Countable K} `{EqDecision V} `{!CacheStore K S}.
Context (size_callback : option (V → Z)) (extra_index_cb : option (K → V → K)).

(** [_Node]; no callbacks are the empty list *)
Record LNode : Type := MkNode {
  ln_list_node : nat;
  ln_key : K;
  ln_value : V;
  ln_callbacks : list nat;
}.

Record LruCache : Type := MkLru {
  max_size : Z;
  lru_cache : S;
  lru_heap : list_heap (P := nat);
  list_root : nat;
  lru_nodes : gmap nat LNode;
  lru_fresh : nat;
  cached_cache_len : Z;
  extra_index : gmap K (gset K);
  lru_called : list nat;
}.

Definition with_max_size (s : LruCache) (n : Z) : LruCache :=
  MkLru n (lru_cache s) (lru_heap s) (list_root s) (lru_nodes s) (lru_fresh s) (cached_cache_len s)
    (extra_index s) (lru_called s).
Definition with_cache (s : LruCache) (c : S) : LruCache :=
  MkLru (max_size s) c (lru_heap s) (list_root s) (lru_nodes s) (lru_fresh s) (cached_cache_len s)
    (extra_index s) (lru_called s).
Definition with_heap (s : LruCache) (h : list_heap) : LruCache :=
  MkLru (max_size s) (lru_cache s) h (list_root s) (lru_nodes s) (lru_fresh s) (cached_cache_len s)
    (extra_index s) (lru_called s).
Definition with_node (s : LruCache) (x : nat) (n : LNode) : LruCache :=
  MkLru (max_size s) (lru_cache s) (lru_heap s) (list_root s) (<[x := n]> (lru_nodes s)) (lru_fresh s)
    (cached_cache_len s) (extra_index s) (lru_called s).
Definition with_len (s : LruCache) (n : Z) : LruCache :=
  MkLru (max_size s) (lru_cache s) (lru_heap s) (list_root s) (lru_nodes s) (lru_fresh s) n
    (extra_index s) (lru_called s).
Definition with_index (s : LruCache) (m : gmap K (gset K)) : LruCache :=
  MkLru (max_size s) (lru_cache s) (lru_heap s) (list_root s) (lru_nodes s) (lru_fresh s)
    (cached_cache_len s) m (lru_called s).
Definition with_called (s : LruCache) (l : list nat) : LruCache :=
  MkLru (max_size s) (lru_cache s) (lru_heap s) (list_root s) (lru_nodes s) (lru_fresh s)
    (cached_cache_len s) (extra_index s) (lru_called s ++ l).

Definition new_lru_cache (size : Z) : py LruCache :=
  '(h, root) ← create_root_node (P := nat) empty_heap;
  Ok (MkLru size store_empty h root ∅ 0 0 ∅ []).

Definition the_node (s : LruCache) (x : nat) : py LNode :=
  match lru_nodes s !! x with Some n => Ok n | None => Raise AttributeError end.

Definition cache_len (s : LruCache) : Z :=
  match size_callback with Some _ => cached_cache_len s | None => store_len (lru_cache s) end.

(** [add_callbacks] *)
Definition add_new (l : list nat) (c : nat) : list nat := if decide (c ∈ l) then l else l ++ [c].
Definition add_callbacks (s : LruCache) (x : nat) (callbacks : list nat) : py LruCache :=
  n ← the_node s x;
  Ok (with_node s x (MkNode (ln_list_node n) (ln_key n) (ln_value n) (foldl add_new (ln_callbacks n) callbacks))).

Definition run_and_clear_callbacks (s : LruCache) (x : nat) : py LruCache :=
  n ← the_node s x;
  Ok (with_called (with_node s x (MkNode (ln_list_node n) (ln_key n) (ln_value n) [])) (ln_callbacks n)).

Definition drop_from_lists (s : LruCache) (x : nat) : py LruCache :=
  n ← the_node s x;
  h ← remove_from_list (lru_heap s) (ln_list_node n);
  Ok (with_heap s h).

Definition move_node_to_front (s : LruCache) (x : nat) : py LruCache :=
  n ← the_node s x;
  h ← move_after (lru_heap s) (ln_list_node n) (list_root s);
  Ok (with_heap s h).

(** The part of [add_node] and [delete_node] for the extra index *)
Definition index_add (s : LruCache) (key : K) (value : V) : LruCache :=
  match extra_index_cb with
  | None => s
  | Some f =>
      let i := f key value in
      with_index s (<[i := {[key]} ∪ default ∅ (extra_index s !! i)]> (extra_index s))
  end.
Definition index_discard (s : LruCache) (key : K) (value : V) : LruCache :=
  match extra_index_cb with
  | None => s
  | Some f =>
      let i := f key value in
      match extra_index s !! i with
      | None => s
      | Some keys =>
          let keys := keys ∖ {[key]} in
          if decide (keys = ∅) then with_index s (delete i (extra_index s))
          else with_index s (<[i := keys]> (extra_index s))
      end
  end.

Definition lru_add_node (s : LruCache) (key : K) (value : V) (callbacks : list nat) : py LruCache :=
  let x := lru_fresh s in
  '(h, ln) ← insert_after (lru_heap s) x (list_root s);
  let s := MkLru (max_size s) (lru_cache s) h (list_root s)
             (<[x := MkNode ln key value (foldl add_new [] callbacks)]> (lru_nodes s)) (Datatypes.S x)
             (cached_cache_len s) (extra_index s) (lru_called s) in
  c ← store_set (lru_cache s) key x;
  let s := with_cache s c in
  let s := match size_callback with Some f => with_len s (cached_cache_len s + f value) | None => s end in
  Ok (index_add s key value).

Definition delete_node (s : LruCache) (x : nat) : py LruCache :=
  s ← drop_from_lists s x;
  n ← the_node s x;
  let s := match size_callback with
           | Some f => with_len s (cached_cache_len s - f (ln_value n)) | None => s end in
  s ← run_and_clear_callbacks s x;
  Ok (index_discard s (ln_key n) (ln_value n)).

(** [evict], where the number of rounds is bounded by the number of nodes made *)
Fixpoint evict_loop (fuel : nat) (s : LruCache) : py LruCache :=
  match fuel with
  | O => Ok s
  | Datatypes.S fuel =>
      if max_size s <? cache_len s then
        root ← node_at (lru_heap s) (list_root s);
        match prev_node root with
        | None => Raise AssertionError
        | Some todelete =>
            e ← get_cache_entry (lru_heap s) todelete;
            match e with
            | None => Raise AssertionError
            | Some x =>
                n ← the_node s x;
                s ← delete_node s x;
                '(_, c) ← store_pop (lru_cache s) (ln_key n);
                evict_loop fuel (with_cache s c)
            end
        end
      else Ok s
  end.
Definition lru_evict (s : LruCache) : py LruCache := evict_loop (Datatypes.S (lru_fresh s)) s.

Definition cache_get (s : LruCache) (key : K) (callbacks : list nat) (update_last_access : bool)
    : py (option V * LruCache) :=
  o ← store_get (lru_cache s) key;
  match o with
  | None => Ok (None, s)
  | Some x =>
      s ← (if update_last_access then move_node_to_front s x else Ok s);
      s ← add_callbacks s x callbacks;
      n ← the_node s x;
      Ok (Some (ln_value n), s)
  end.

(** [cache_set] for a node that is there *)
Definition set_value (s : LruCache) (x : nat) (value : V) (callbacks : list nat) : py LruCache :=
  n ← the_node s x;
  s ← (if negb (bool_decide (value = ln_value n)) then run_and_clear_callbacks s x else Ok s);
  let s := match size_callback with
           | Some f => with_len s (cached_cache_len s - f (ln_value n) + f value) | None => s end in
  s ← add_callbacks s x callbacks;
  s ← move_node_to_front s x;
  n ← the_node s x;
  Ok (with_node s x (MkNode (ln_list_node n) (ln_key n) value (ln_callbacks n))).

Definition cache_set (s : LruCache) (key : K) (value : V) (callbacks : list nat) : py LruCache :=
  o ← store_get (lru_cache s) key;
  s ← match o with
      | Some x => set_value s x value callbacks
      | None => lru_add_node s key value callbacks
      end;
  lru_evict s.

Definition cache_set_default (s : LruCache) (key : K) (value : V) : py (V * LruCache) :=
  o ← store_get (lru_cache s) key;
  match o with
  | Some x => n ← the_node s x; Ok (ln_value n, s)
  | None => s ← lru_add_node s key value []; s ← lru_evict s; Ok (value, s)
  end.

Definition cache_pop (s : LruCache) (key : K) : py (option V * LruCache) :=
  o ← store_get (lru_cache s) key;
  match o with
  | None => Ok (None, s)
  | Some x =>
      n ← the_node s x;
      s ← delete_node s x;
      '(_, c) ← store_pop (lru_cache s) (ln_key n);
      Ok (Some (ln_value n), with_cache s c)
  end.

Definition cache_del_multi (s : LruCache) (key : K) : py LruCache :=
  '(popped, c) ← store_pop (lru_cache s) key;
  py_fold delete_node (with_cache s c) popped.

Definition cache_clear (s : LruCache) : py LruCache :=
  s ← py_fold (λ s x, s ← run_and_clear_callbacks s x; drop_from_lists s x) s (store_values (lru_cache s));
  root ← node_at (lru_heap s) (list_root s);
  raise_if (negb (bool_decide (next_node root = Some (list_root s)))
            || negb (bool_decide (prev_node root = Some (list_root s)))) AssertionError ;;
  let s := with_cache s store_empty in
  let s := match size_callback with Some _ => with_len s 0 | None => s end in
  Ok (with_index s ∅).

Definition cache_contains (s : LruCache) (key : K) : py bool := store_contains (lru_cache s) key.

(** The loop of [cache_invalidate_on_extra_index] *)
Definition invalidate_one (s : LruCache) (key : K) : py LruCache :=
  '(popped, c) ← store_pop (lru_cache s) key;
  match popped with
  | x :: _ => delete_node (with_cache s c) x
  | [] => Ok (with_cache s c)
  end.

Definition cache_invalidate_on_extra_index (s : LruCache) (index_key : K) : py LruCache :=
  raise_if (bool_decide (extra_index_cb = None)) AssertionError ;;
  match extra_index s !! index_key with
  | None => Ok s
  | Some keys => py_fold invalidate_one (with_index s (delete index_key (extra_index s))) (elements keys)
  end.

(** [set_cache_factor], with the new size computed by the caller *)
Definition resize (s : LruCache) (new_size : Z) : py LruCache :=
  if negb (new_size =? max_size s) then lru_evict (with_max_size s new_size) else Ok s.

(** [__getitem__] and the body of [__delitem__], which asks for a value that it does
    not use *)
Definition getitem (s : LruCache) (key : K) : py (V * LruCache) :=
  '(o, s) ← cache_get s key [] true;
  match o with Some v => Ok (v, s) | None => Raise KeyError end.
Definition delitem (s : LruCache) (key : K) : py LruCache :=
  '(o, s) ← cache_pop s key;
  match o with Some _ => Ok s | None => Raise KeyError end.

(** *** [AsyncLruCache], without an external cache *)
Definition async_get (s : LruCache) (key : K) (default : option V) : py (option V * LruCache) := cache_get s key [] true.
Definition async_set (s : LruCache) (key : K) (value : V) : py LruCache := cache_set s key value [].
Definition async_invalidate (s : LruCache) (key : K) : py LruCache := cache_del_multi s key.
Definition async_clear (s : LruCache) : py LruCache := cache_clear s.

(** ** A sequence of calls *)
Inductive lru_op : Type :=
  | OpGet (key : K) (callbacks : list nat) (update_last_access : bool)
  | OpSet (key : K) (value : V) (callbacks : list nat)
  | OpSetDefault (key : K) (value : V)
  | OpPop (key : K)
  | OpDelMulti (key : K)
  | OpClear
  | OpInvalidateExtra (index_key : K)
  | OpContains (key : K)
  | OpLen
  | OpResize (size : Z).

Inductive lru_out : Type :=
  | OutNone
  | OutValue (v : option V)
  | OutBool (b : bool)
  | OutLen (n : Z).

Definition run_lru_op (s : LruCache) (op : lru_op) : py (lru_out * LruCache) :=
  match op with
  | OpGet k cs u => '(o, s) ← cache_get s k cs u; Ok (OutValue o, s)
  | OpSet k v cs => s ← cache_set s k v cs; Ok (OutNone, s)
  | OpSetDefault k v => '(v, s) ← cache_set_default s k v; Ok (OutValue (Some v), s)
  | OpPop k => '(o, s) ← cache_pop s k; Ok (OutValue o, s)
  | OpDelMulti k => s ← cache_del_multi s k; Ok (OutNone, s)
  | OpClear => s ← cache_clear s; Ok (OutNone, s)
  | OpInvalidateExtra i => s ← cache_invalidate_on_extra_index s i; Ok (OutNone, s)
  | OpContains k => b ← cache_contains s k; Ok (OutBool b, s)
  | OpLen => Ok (OutLen (cache_len s), s)
  | OpResize n => s ← resize s n; Ok (OutNone, s)
  end.

(** What each call returns, and the callbacks that run during it *)
Fixpoint run_lru_ops (s : LruCache) (ops : list lru_op) : py (list (lru_out * list nat) * LruCache) :=
  match ops with
  | [] => Ok ([], s)
  | op :: ops =>
      '(o, s1) ← run_lru_op s op;
      '(rest, s2) ← run_lru_ops s1 ops;
      Ok ((o, drop (length (lru_called s)) (lru_called s1)) :: rest, s2)
  end.
End LruCache.
