(* ===== verification/LruCacheFacts.v ===== *)
(** * What holds of the LRU cache

    The cache behaves as a list of entries, the one used last first, that is cut
    off at the end when it is too long.  The list is the specification; the nodes,
    the linked list, the store, the length and the extra index implement it. *)

From S2P Require Import Prelude LinkedList CacheStore LruCache.

Open Scope Z_scope.

(** ** The specification *)

Section Spec.
Context {K V : Type} `{EqDecision K} `{EqDecision V} (size_callback : option (V → Z)).

Record lru_entry : Type := Entry { e_key : K; e_value : V; e_callbacks : list nat }.

(** The size of the entries: their number, or what [size_callback] says *)
Definition entry_size (e : lru_entry) : Z := match size_callback with Some f => f (e_value e) | None => 1 end.
Definition total (l : list lru_entry) : Z := foldr (λ e n, entry_size e + n) 0 l.

Lemma total_cons e l : total (e :: l) = entry_size e + total l.
Proof using Type. done. Qed.

(** Take the last entries until the rest fits, and run their callbacks.  The list is
    given from its end. *)
Fixpoint spec_evict_rev (max : Z) (r : list lru_entry) : list lru_entry * list nat :=
  match r with
  | [] => ([], [])
  | e :: r' =>
      if max <? total r then
        let '(kept, called) := spec_evict_rev max r' in (kept, e_callbacks e ++ called)
      else (r, [])
  end.
Definition spec_evict (max : Z) (l : list lru_entry) : list lru_entry * list nat :=
  let '(kept, called) := spec_evict_rev max (rev l) in (rev kept, called).

Definition spec_find (l : list lru_entry) (k : K) : option lru_entry :=
  head (List.filter (λ e, bool_decide (e_key e = k)) l).
Definition spec_without (l : list lru_entry) (k : K) : list lru_entry :=
  List.filter (λ e, negb (bool_decide (e_key e = k))) l.

Definition spec_get (l : list lru_entry) (k : K) (callbacks : list nat) (to_front : bool) : list lru_entry :=
  match spec_find l k with
  | None => l
  | Some e =>
      let e' := Entry k (e_value e) (foldl add_new (e_callbacks e) callbacks) in
      if to_front then e' :: spec_without l k
      else map (λ x, if decide (e_key x = k) then e' else x) l
  end.

Definition spec_set (max : Z) (l : list lru_entry) (k : K) (v : V) (callbacks : list nat) : list lru_entry * list nat :=
  let old := match spec_find l k with Some e => e_callbacks e | None => [] end in
  let same := match spec_find l k with Some e => bool_decide (v = e_value e) | None => true end in
  let '(kept, called) :=
    spec_evict max (Entry k v (foldl add_new (if same then old else []) callbacks) :: spec_without l k) in
  (kept, (if same then [] else old) ++ called).

(** Take out the entries that satisfy [p], and run their callbacks in some order. *)
Definition spec_remove (l : list lru_entry) (p : lru_entry → bool) : list lru_entry := List.filter (λ e, negb (p e)) l.
Definition spec_removed (l : list lru_entry) (p : lru_entry → bool) : list nat :=
  concat (map e_callbacks (List.filter p l)).
End Spec.

(** ** The nodes *)

Section Facts.
Context {K V S : Type} `{Countable K} `{EqDecision V} `{!CacheStore K S} `{!CacheStoreLaws K S}.
Context (size_callback : option (V → Z)) (extra_index_cb : option (K → V → K)).
Implicit Types s : LruCache (K := K) (V := V) (S := S).
Abbreviation node := (LNode (K := K) (V := V)).

Definition node_entry (n : node) : lru_entry := Entry (ln_key n) (ln_value n) (ln_callbacks n).
Definition entries_of (zs : list (nat * node)) : list lru_entry := map (λ z, node_entry z.2) zs.

(** The nodes of the linked list are [zs], the one used last first. *)
Record list_rep s (zs : list (nat * node)) : Prop := {
  lr_nodes : ∀ x n, (x, n) ∈ zs → lru_nodes s !! x = Some n;
  lr_dll : dll (lru_heap s) (list_root s) (map (λ z, ln_list_node z.2) zs);
  lr_ent : ∀ x n, (x, n) ∈ zs → ent (lru_heap s) (ln_list_node n) = Some x;
  lr_keys : NoDup (map (λ z, ln_key z.2) zs);
  lr_fresh : ∀ x n, lru_nodes s !! x = Some n → (x < lru_fresh s)%nat;
}.

(** They are the nodes of the store. *)
Record store_rep s (zs : list (nat * node)) : Prop := {
  sr_ok : store_ok (lru_cache s);
  sr_map : ∀ k x, store_map (lru_cache s) !! k = Some x ↔ ∃ n, (x, n) ∈ zs ∧ ln_key n = k;
}.

Definition len_rep s (zs : list (nat * node)) : Prop :=
  size_callback ≠ None → cached_cache_len s = total size_callback (entries_of zs).

(** What the operations on the list leave alone *)
Definition same_rest s s' : Prop :=
  max_size s' = max_size s ∧ lru_cache s' = lru_cache s ∧ list_root s' = list_root s ∧ lru_fresh s' = lru_fresh s.

Lemma rep_ids s zs : list_rep s zs → NoDup (map fst zs).
Proof using Type.
  intros Hs. pose proof (lr_nodes _ _ Hs) as Hn. pose proof (lr_keys _ _ Hs) as Hk. clear Hs.
  induction zs as [|[x n] zs IH]; cbn in *; [constructor|]. apply NoDup_cons in Hk as [Hnk Hk]. apply NoDup_cons. split.
  - intros ([y m] & -> & Hy)%list_elem_of_fmap. apply Hnk. apply list_elem_of_fmap. exists (y, m).
    split; [|done]. cbn in *. pose proof (Hn y m ltac:(by right)). pose proof (Hn y n ltac:(by left)). congruence.
  - apply IH; [|done]. intros y m Hy. apply Hn. by right.
Qed.

Lemma entries_app zs1 zs2 : entries_of (zs1 ++ zs2) = entries_of zs1 ++ entries_of zs2.
Proof using Type. apply map_app. Qed.

Lemma total_app (l1 l2 : list (lru_entry (K := K) (V := V))) : total size_callback (l1 ++ l2) = total size_callback l1 + total size_callback l2.
Proof using Type.
  induction l1 as [|e l1 IH]; [done|]. rewrite <- app_comm_cons, !total_cons, IH. lia.
Qed.

Lemma total_middle zs1 x n zs2 :
  total size_callback (entries_of (zs1 ++ (x, n) :: zs2)) =
  entry_size size_callback (node_entry n) + total size_callback (entries_of (zs1 ++ zs2)).
Proof using Type.
  rewrite !entries_app, !total_app. change (entries_of ((x, n) :: zs2)) with (node_entry n :: entries_of zs2).
  rewrite total_cons. lia.
Qed.

Lemma the_node_Ok s zs x n : list_rep s zs → (x, n) ∈ zs → the_node s x = Ok n.
Proof using Type. intros Hs Hx. unfold the_node. by rewrite (lr_nodes _ _ Hs x n Hx). Qed.

Lemma move_spec s zs1 x n zs2 :
  list_rep s (zs1 ++ (x, n) :: zs2) →
  ∃ s', move_node_to_front s x = Ok s' ∧ list_rep s' ((x, n) :: zs1 ++ zs2) ∧ same_rest s s' ∧
    lru_nodes s' = lru_nodes s ∧ cached_cache_len s' = cached_cache_len s ∧ extra_index s' = extra_index s ∧
    lru_called s' = lru_called s.
Proof using Type.
  intros Hs. unfold move_node_to_front.
  rewrite (the_node_Ok s _ x n Hs) by (apply elem_of_app; right; by left). cbn [mbind py_bind].
  pose proof (lr_dll _ _ Hs) as Hd. rewrite map_app in Hd. cbn in Hd.
  destruct (move_after_root_spec _ _ _ _ _ Hd) as (h' & -> & Hd' & Hf & He). cbn [mbind py_bind].
  eexists. split; [done|]. split; [|done]. destruct Hs.
  assert (∀ y m, (y, m) ∈ (x, n) :: zs1 ++ zs2 → (y, m) ∈ zs1 ++ (x, n) :: zs2) as Hin.
  { intros y m. rewrite !elem_of_cons, !elem_of_app, elem_of_cons. tauto. }
  split; cbn.
  - intros y m Hy. by apply lr_nodes0, Hin.
  - by rewrite map_app.
  - intros y m Hy. rewrite He. by apply lr_ent0, Hin.
  - rewrite map_app in *. cbn in *. by rewrite Permutation_middle.
  - done.
Qed.

(** Changing the value or the callbacks of a node *)
Lemma with_node_spec s zs1 x n zs2 n' :
  list_rep s (zs1 ++ (x, n) :: zs2) → ln_list_node n' = ln_list_node n → ln_key n' = ln_key n →
  list_rep (with_node s x n') (zs1 ++ (x, n') :: zs2).
Proof using Type.
  intros Hs El Ek. pose proof (rep_ids _ _ Hs) as Hids. rewrite map_app in Hids. cbn in Hids.
  assert (∀ m, (x, m) ∉ zs1 ∧ (x, m) ∉ zs2) as Hx.
  { intros m. apply NoDup_app in Hids as (_ & Hd & Hids). apply NoDup_cons in Hids as [Hids _]. split; intros Hin.
    - apply (Hd x); [apply list_elem_of_fmap; by exists (x, m)|by left].
    - apply Hids. apply list_elem_of_fmap. by exists (x, m). }
  assert (lru_nodes s !! x = Some n) as Hxn by (apply (lr_nodes _ _ Hs); apply elem_of_app; right; by left).
  destruct Hs. split; cbn.
  - intros y m. rewrite elem_of_app, elem_of_cons. intros [Hy|[[= -> ->]|Hy]]; [|by rewrite lookup_insert_eq|].
    + rewrite lookup_insert_ne; [apply lr_nodes0; apply elem_of_app; by left|]. intros <-. by destruct (Hx m).
    + rewrite lookup_insert_ne; [apply lr_nodes0; apply elem_of_app; right; by right|]. intros <-. by destruct (Hx m).
  - rewrite map_app in *. cbn in *. by rewrite El.
  - intros y m. rewrite elem_of_app, elem_of_cons. intros [Hy|[[= -> ->]|Hy]].
    + apply lr_ent0. apply elem_of_app. by left.
    + rewrite El. apply lr_ent0. apply elem_of_app. right. by left.
    + apply lr_ent0. apply elem_of_app. right. by right.
  - rewrite map_app in *. cbn in *. by rewrite Ek.
  - intros y m. rewrite lookup_insert_Some. intros [[<- _]|[_ Hy]]; by eapply lr_fresh0.
Qed.

(** Taking a node out of the list *)
Lemma drop_spec s zs1 x n zs2 :
  list_rep s (zs1 ++ (x, n) :: zs2) →
  ∃ s', drop_from_lists s x = Ok s' ∧ list_rep s' (zs1 ++ zs2) ∧ same_rest s s' ∧
    lru_nodes s' = lru_nodes s ∧ cached_cache_len s' = cached_cache_len s ∧ extra_index s' = extra_index s ∧
    lru_called s' = lru_called s.
Proof using Type.
  intros Hs. unfold drop_from_lists.
  rewrite (the_node_Ok s _ x n Hs) by (apply elem_of_app; right; by left). cbn [mbind py_bind].
  pose proof (lr_dll _ _ Hs) as Hd. rewrite map_app in Hd. cbn in Hd.
  destruct (remove_from_list_spec _ _ _ _ _ Hd) as (h' & -> & Hd' & Hf & He). cbn [mbind py_bind].
  eexists. split; [done|]. split; [|done]. destruct Hs.
  assert (∀ y m, (y, m) ∈ zs1 ++ zs2 → (y, m) ∈ zs1 ++ (x, n) :: zs2 ∧ ln_list_node m ≠ ln_list_node n) as Hin.
  { intros y m Hy. split; [rewrite elem_of_app, elem_of_cons; apply elem_of_app in Hy; tauto|].
    pose proof (dll_NoDup _ _ _ Hd) as Hnd. apply NoDup_cons in Hnd as [_ Hnd].
    apply NoDup_app in Hnd as (_ & Hdj & Hnd). apply NoDup_cons in Hnd as [Hnd _].
    intros Heq. apply elem_of_app in Hy as [Hy|Hy].
    - apply (Hdj (ln_list_node n)); [|by left]. apply list_elem_of_fmap. by exists (y, m).
    - apply Hnd. apply list_elem_of_fmap. by exists (y, m). }
  split; cbn.
  - intros y m Hy. by apply lr_nodes0, Hin.
  - by rewrite map_app.
  - intros y m Hy. destruct (Hin y m Hy) as [Hy1 Hy2]. rewrite He, decide_False by done. by apply lr_ent0.
  - rewrite map_app in *. cbn in *. apply NoDup_app in lr_keys0 as (N1 & N2 & N3). apply NoDup_cons in N3 as [_ N3].
    apply NoDup_app. split_and!; [done| |done]. intros k Hk Hk'. apply (N2 k Hk). by right.
  - done.
Qed.

(** Nodes that are not in the list may change. *)
Lemma with_other_node s zs x n' :
  list_rep s zs → x ∉ map fst zs → (x < lru_fresh s)%nat → list_rep (with_node s x n') zs.
Proof using Type.
  intros [] Hx Hlt. split; cbn; try done.
  - intros y m Hy. rewrite lookup_insert_ne; [by apply lr_nodes0|]. intros <-. apply Hx.
    apply list_elem_of_fmap. by exists (x, m).
  - intros y m. rewrite lookup_insert_Some. intros [[<- _]|[_ Hy]]; [done|by eapply lr_fresh0].
Qed.

Lemma delete_spec s zs1 x n zs2 :
  list_rep s (zs1 ++ (x, n) :: zs2) →
  ∃ s', delete_node size_callback extra_index_cb s x = Ok s' ∧ list_rep s' (zs1 ++ zs2) ∧ same_rest s s' ∧
    lru_called s' = lru_called s ++ ln_callbacks n ∧
    (size_callback ≠ None → cached_cache_len s' = cached_cache_len s - entry_size size_callback (node_entry n)) ∧
    extra_index s' = extra_index (index_discard extra_index_cb s (ln_key n) (ln_value n)).
Proof using Type.
  intros Hs. pose proof (rep_ids _ _ Hs) as Hids.
  assert (lru_nodes s !! x = Some n) as Hxn by (apply (lr_nodes _ _ Hs); apply elem_of_app; right; by left).
  pose proof (lr_fresh _ _ Hs x n Hxn) as Hlt.
  destruct (drop_spec s zs1 x n zs2 Hs) as (s1 & Hd & Hs1 & (E1 & E2 & E3 & E4) & En & El & Ei & Ec).
  unfold delete_node. rewrite Hd. cbn [mbind py_bind]. unfold the_node at 1. rewrite En, Hxn. cbn [mbind py_bind].
  set (s2 := match size_callback with Some f => _ | None => s1 end).
  assert (list_rep s2 (zs1 ++ zs2) ∧ same_rest s s2 ∧ lru_nodes s2 = lru_nodes s ∧ extra_index s2 = extra_index s ∧
    lru_called s2 = lru_called s ∧
    (size_callback ≠ None → cached_cache_len s2 = cached_cache_len s - entry_size size_callback (node_entry n)))
    as (Hs2 & (F1 & F2 & F3 & F4) & Fn & Fi & Fc & Fl).
  { subst s2. unfold entry_size. destruct size_callback as [f|]; (split_and!; [by destruct Hs1|done..|]); cbn; [|done].
    intros _. by rewrite El. }
  clearbody s2. unfold run_and_clear_callbacks, the_node. rewrite Fn, Hxn. cbn [mbind py_bind].
  set (s3 := with_called (with_node s2 x _) _).
  assert (list_rep s3 (zs1 ++ zs2)) as Hs3.
  { assert (list_rep (with_node s2 x (MkNode (ln_list_node n) (ln_key n) (ln_value n) [])) (zs1 ++ zs2)) as Hw.
    - apply with_other_node; [done| |by rewrite F4]. rewrite map_app in *. cbn in Hids.
      apply NoDup_app in Hids as (_ & Hdj & Hids). apply NoDup_cons in Hids as [Hids _]. rewrite elem_of_app.
      intros [Hin|?]; [|done]. apply (Hdj x Hin). by left.
    - by destruct Hw. }
  eexists. split; [done|].
  assert (∀ s4, list_rep s4 (zs1 ++ zs2) → list_rep (index_discard extra_index_cb s4 (ln_key n) (ln_value n)) (zs1 ++ zs2) ∧
    same_rest s4 (index_discard extra_index_cb s4 (ln_key n) (ln_value n)) ∧
    lru_called (index_discard extra_index_cb s4 (ln_key n) (ln_value n)) = lru_called s4 ∧
    cached_cache_len (index_discard extra_index_cb s4 (ln_key n) (ln_value n)) = cached_cache_len s4) as Hdisc.
  { intros s4 Hs4. unfold index_discard. destruct extra_index_cb as [f|]; [|done].
    destruct (extra_index s4 !! _); [|done]. case_decide; (split_and!; [by destruct Hs4|done..]). }
  destruct (Hdisc s3 Hs3) as (H1 & (G1 & G2 & G3 & G4) & Gc & Gl). split_and!; [done| | | |].
  - unfold same_rest. rewrite G1, G2, G3, G4. cbn. split_and!; congruence.
  - rewrite Gc. cbn. by rewrite Fc.
  - intros Hne. rewrite Gl. cbn. by apply Fl.
  - unfold index_discard. destruct extra_index_cb as [f|]; [|cbn; congruence]. cbn. rewrite Fi.
    destruct (extra_index s !! f (ln_key n) (ln_value n)); [|cbn; congruence]. case_decide; cbn; congruence.
Qed.

Lemma add_spec s zs k v callbacks :
  list_rep s zs → store_rep s zs → full_key k → (∀ x n, (x, n) ∈ zs → ln_key n ≠ k) →
  ∃ s' x n, lru_add_node size_callback extra_index_cb s k v callbacks = Ok s' ∧
    list_rep s' ((x, n) :: zs) ∧ store_rep s' ((x, n) :: zs) ∧
    node_entry n = Entry k v (foldl add_new [] callbacks) ∧ max_size s' = max_size s ∧
    lru_called s' = lru_called s ∧ lru_fresh s' = Datatypes.S (lru_fresh s) ∧
    (size_callback ≠ None → cached_cache_len s' = cached_cache_len s + entry_size size_callback (node_entry n)) ∧
    extra_index s' = extra_index (index_add extra_index_cb s k v).
Proof using Type.
  intros Hs Hst Hk Hnew. set (x := lru_fresh s).
  destruct (insert_after_spec (lru_heap s) (list_root s) _ x (list_root s) [] (map (λ z, ln_list_node z.2) zs)
              (lr_dll _ _ Hs) eq_refl) as (h' & ln & l' & Hi & Hln & Hl' & Hd' & Hnotin & He).
  injection Hl' as ->. set (n := MkNode ln k v (foldl add_new [] callbacks)).
  unfold lru_add_node. fold x. rewrite Hi. cbn [mbind py_bind lru_cache].
  assert (store_map (lru_cache s) !! k = None) as Hnone.
  { apply eq_None_not_Some. intros [y Hy]. apply (sr_map _ _ Hst) in Hy as (m & Hm & <-). by eapply Hnew. }
  destruct (store_set_law (lru_cache s) k x (sr_ok _ _ Hst) Hk Hnone) as (c & Hc & Hok & Hmap).
  rewrite Hc. cbn [mbind py_bind].
  set (s1 := with_cache _ c). set (s2 := match size_callback with Some f => _ | None => s1 end).
  assert (∀ y m, (y, m) ∈ zs → y ≠ x ∧ ln_list_node m ≠ ln) as Hold.
  { intros y m Hy. split.
    - intros ->. pose proof (lr_fresh _ _ Hs x m (lr_nodes _ _ Hs x m Hy)). subst x. lia.
    - intros <-. apply Hnotin. right. apply list_elem_of_fmap. by exists (y, m). }
  assert (list_rep s1 ((x, n) :: zs)) as Hs1.
  { destruct Hs. split; cbn.
    - intros y m [[= -> ->]|Hy]%elem_of_cons; [apply lookup_insert_eq|].
      rewrite lookup_insert_ne; [by apply lr_nodes0|]. destruct (Hold y m Hy). congruence.
    - exact Hd'.
    - intros y m [[= -> ->]|Hy]%elem_of_cons; cbn; [by rewrite He, decide_True|].
      rewrite He, decide_False by by eapply Hold. by apply lr_ent0.
    - apply NoDup_cons. split; [|done]. intros ([y m] & Heq & Hy)%list_elem_of_fmap. cbn in Heq. by destruct (Hnew y m Hy).
    - intros y m. rewrite lookup_insert_Some. intros [[<- _]|[_ Hy]]; [lia|]. apply lr_fresh0 in Hy. subst x. lia. }
  assert (store_rep s1 ((x, n) :: zs)) as Hst1.
  { split; cbn; [done|]. intros k' y. rewrite Hmap, lookup_insert_Some, (sr_map _ _ Hst). split.
    - intros [[<- <-]|[_ (m & Hm & <-)]]; [exists n; split; [by left|done]|]. exists m. split; [by right|done].
    - intros (m & [[= -> ->]|Hm]%elem_of_cons & <-); [by left|]. right. split; [|by exists m].
      intros Heq. by eapply Hnew. }
  assert (list_rep s2 ((x, n) :: zs) ∧ store_rep s2 ((x, n) :: zs) ∧ max_size s2 = max_size s ∧
    lru_called s2 = lru_called s ∧ lru_fresh s2 = Datatypes.S x ∧ extra_index s2 = extra_index s ∧
    (size_callback ≠ None → cached_cache_len s2 = cached_cache_len s + entry_size size_callback (node_entry n)))
    as (Hs2 & Hst2 & F1 & F2 & F3 & F4 & F5).
  { subst s2. unfold entry_size. destruct size_callback as [f|]; (split_and!; [by destruct Hs1|by destruct Hst1|done..]). }
  clearbody s2. exists (index_add extra_index_cb s2 k v), x, n. unfold index_add.
  destruct extra_index_cb as [f|]; (split_and!; [done|by destruct Hs2|by destruct Hst2|done..| |]); try done.
  cbn. by rewrite F4.
Qed.

(** The store after the node has been popped *)
Lemma pop_spec s zs1 x n zs2 s1 :
  list_rep s (zs1 ++ (x, n) :: zs2) → store_rep s (zs1 ++ (x, n) :: zs2) → lru_cache s1 = lru_cache s →
  ∃ ns c, store_pop (lru_cache s1) (ln_key n) = Ok (ns, c) ∧ ns = [x] ∧
    ∀ s2, lru_cache s2 = c → store_rep s2 (zs1 ++ zs2).
Proof using Type.
  intros Hs [Hok Hmap] ->.
  assert (store_map (lru_cache s) !! ln_key n = Some x) as Hx.
  { apply Hmap. exists n. split; [|done]. apply elem_of_app. right. by left. }
  destruct (store_pop_full (lru_cache s) (ln_key n) Hok) as (ns & c & Hp & Hc & Hm & Hns).
  { by eapply store_full. }
  rewrite Hx in Hns. exists ns, c. split_and!; [done|done|]. intros s2 Es2. split; rewrite Es2; [done|].
  pose proof (lr_keys _ _ Hs) as Hkeys. rewrite map_app in Hkeys. cbn in Hkeys.
  apply NoDup_app in Hkeys as (_ & Hdj & Hkeys). apply NoDup_cons in Hkeys as [Hkeys _].
  intros k y. rewrite Hm, lookup_delete_Some, Hmap. split.
  - intros [Hne (m & Hin & <-)]. exists m. split; [|done]. apply elem_of_app in Hin as [?|[[= -> ->]|?]%elem_of_cons]; [| |].
    + apply elem_of_app. by left.
    + done.
    + apply elem_of_app. by right.
  - intros (m & Hin & <-). split.
    + intros Heq. apply elem_of_app in Hin as [Hin|Hin].
      * apply (Hdj (ln_key n)); [|by left]. apply list_elem_of_fmap. by exists (y, m).
      * apply Hkeys. apply list_elem_of_fmap. by exists (y, m).
    + exists m. split; [|done]. rewrite elem_of_app, elem_of_cons. apply elem_of_app in Hin. tauto.
Qed.

(** *** Length *)

Lemma store_size s zs : list_rep s zs → store_rep s zs → size (store_map (lru_cache s)) = length zs.
Proof using Type.
  intros Hs [_ Hmap]. assert (store_map (lru_cache s) = list_to_map (map (λ z, (ln_key z.2, z.1)) zs)) as ->.
  { apply map_eq. intros k. apply option_eq. intros x. rewrite Hmap.
    rewrite <- elem_of_list_to_map.
    - split.
      + intros (n & Hn & <-). apply list_elem_of_fmap. by exists (x, n).
      + intros ([y m] & [= -> ->] & Hin)%list_elem_of_fmap. by exists m.
    - rewrite <- (list_fmap_compose (λ z, (ln_key z.2, z.1)) fst). apply (lr_keys _ _ Hs). }
  rewrite <- (length_map (λ z, (ln_key z.2, z.1)) zs). apply map_size_list_to_map.
  rewrite <- (list_fmap_compose (λ z, (ln_key z.2, z.1)) fst). apply (lr_keys _ _ Hs).
Qed.

Lemma total_length (l : list (lru_entry (K := K) (V := V))) : size_callback = None → total size_callback l = Z.of_nat (length l).
Proof using Type.
  intros Hn. induction l as [|e l IH]; [done|]. rewrite total_cons, IH. unfold entry_size. rewrite Hn. cbn [length]. lia.
Qed.

Lemma cache_len_spec s zs :
  list_rep s zs → store_rep s zs → len_rep s zs → cache_len size_callback s = total size_callback (entries_of zs).
Proof using Type.
  intros Hs Hst Hl. unfold cache_len. destruct size_callback as [f|] eqn:E.
  - rewrite <- E. apply Hl. congruence.
  - rewrite store_len_law by apply Hst. rewrite (store_size s zs Hs Hst).
    rewrite <- E, total_length by done. unfold entries_of. by rewrite length_map.
Qed.

(** *** The extra index *)

(** The index lists the keys of the entries, but for the index keys in [skip], which
    it does not have. *)
Definition index_rep_but (skip : list K) s (zs : list (nat * node)) : Prop :=
  ∀ f, extra_index_cb = Some f →
    (∀ i k, i ∉ skip → k ∈ default ∅ (extra_index s !! i) ↔
       ∃ x n, (x, n) ∈ zs ∧ ln_key n = k ∧ f k (ln_value n) = i) ∧
    (∀ i, i ∈ skip → extra_index s !! i = None) ∧ ∀ i, extra_index s !! i ≠ Some ∅.

Lemma index_discard_rep skip s zs1 x n zs2 s' :
  NoDup (map (λ z, ln_key z.2) (zs1 ++ (x, n) :: zs2)) → index_rep_but skip s (zs1 ++ (x, n) :: zs2) →
  extra_index s' = extra_index (index_discard extra_index_cb s (ln_key n) (ln_value n)) →
  index_rep_but skip s' (zs1 ++ zs2).
Proof using Type.
  intros Hnd Hi Es f Ef. destruct (Hi f Ef) as (H1 & H2 & H3). unfold index_discard in Es. rewrite Ef in Es.
  set (i0 := f (ln_key n) (ln_value n)) in *.
  assert (∀ y m, (y, m) ∈ zs1 ++ zs2 → ln_key m ≠ ln_key n) as Hne.
  { rewrite map_app in Hnd. cbn in Hnd. apply NoDup_app in Hnd as (_ & Hdj & Hnd). apply NoDup_cons in Hnd as [Hnd _].
    intros y m Hy Heq. apply elem_of_app in Hy as [Hy|Hy].
    - apply (Hdj (ln_key n)); [|by left]. apply list_elem_of_fmap. by exists (y, m).
    - apply Hnd. apply list_elem_of_fmap. by exists (y, m). }
  assert (∀ k i, (∃ y m, (y, m) ∈ zs1 ++ zs2 ∧ ln_key m = k ∧ f k (ln_value m) = i) ↔
    (∃ y m, (y, m) ∈ zs1 ++ (x, n) :: zs2 ∧ ln_key m = k ∧ f k (ln_value m) = i) ∧ k ≠ ln_key n) as Hiff.
  { intros k i. split.
    - intros (y & m & Hy & <- & <-). split; [|by eapply Hne]. exists y, m. split; [|done].
      rewrite elem_of_app, elem_of_cons. apply elem_of_app in Hy. tauto.
    - intros [(y & m & Hy & <- & <-) Hk]. exists y, m. split; [|done].
      apply elem_of_app in Hy as [?|[[= -> ->]|?]%elem_of_cons]; [apply elem_of_app; by left|done|apply elem_of_app; by right]. }
  assert (∀ i k, i ∉ skip → k ∈ default ∅ (extra_index s !! i) → i ≠ i0 → k ≠ ln_key n) as Hother.
  { intros i k His Hk Hi0 ->. apply H1 in Hk as (y & m & Hy & Hmk & Hf); [|done].
    assert ((y, m) = (x, n)) as [= -> ->].
    { apply elem_of_app in Hy as [?|[?|?]%elem_of_cons]; [exfalso|done|exfalso]; (eapply Hne; [|exact Hmk]; apply elem_of_app; eauto). }
    done. }
  destruct (extra_index s !! i0) as [keys|] eqn:Ek.
  - assert (∀ i, extra_index s' !! i =
      if decide (i = i0) then (if decide (keys ∖ {[ln_key n]} = ∅) then None else Some (keys ∖ {[ln_key n]}))
      else extra_index s !! i) as Hs'.
    { intros i. rewrite Es. destruct (decide (i = i0)) as [->|]; case_decide; cbn.
      - apply lookup_delete_eq. - apply lookup_insert_eq. - by apply lookup_delete_ne. - by apply lookup_insert_ne. }
    split_and!.
    + intros i k His. rewrite Hiff, Hs', <- H1 by done. destruct (decide (i = i0)) as [->|Hii].
      * rewrite Ek. case_decide as Hem; cbn; set_solver.
      * split; [|tauto]. intros Hk. split; [done|]. by eapply Hother.
    + intros i His. rewrite Hs'. destruct (decide (i = i0)) as [->|]; [|auto]. rewrite (H2 i0 His) in Ek. done.
    + intros i. rewrite Hs'. destruct (decide (i = i0)); [|auto]. case_decide; [done|]. naive_solver.
  - rewrite Es. split_and!; [|done|done].
    intros i k His. rewrite Hiff, <- H1 by done. split; [|tauto]. intros Hk. split; [done|].
    destruct (decide (i = i0)) as [->|]; [|by eapply Hother]. rewrite Ek in Hk. set_solver.
Qed.

Lemma index_add_rep s zs x n s' :
  index_rep_but [] s zs → extra_index s' = extra_index (index_add extra_index_cb s (ln_key n) (ln_value n)) →
  index_rep_but [] s' ((x, n) :: zs).
Proof using Type.
  intros Hi Es f Ef. destruct (Hi f Ef) as (H1 & H2 & H3). unfold index_add in Es. rewrite Ef in Es. cbn in Es.
  set (i0 := f (ln_key n) (ln_value n)) in *. rewrite Es. split_and!.
  - intros i k _. destruct (decide (i = i0)) as [->|Hii].
    + rewrite lookup_insert_eq. cbn. rewrite elem_of_union, elem_of_singleton, H1 by by intros ?%elem_of_nil. split.
      * intros [->|(y & m & ? & ? & ?)]; [exists x, n; split; [by left|done]|]. exists y, m. split; [by right|done].
      * intros (y & m & [[= -> ->]|Hy]%elem_of_cons & <- & Hf); [by left|]. right. by exists y, m.
    + rewrite lookup_insert_ne, H1 by (done || by intros ?%elem_of_nil). split.
      * intros (y & m & ? & ? & ?). exists y, m. split; [by right|done].
      * intros (y & m & [[= -> ->]|Hy]%elem_of_cons & <- & Hf); [by destruct Hii|]. by exists y, m.
  - intros i Hin. by apply elem_of_nil in Hin.
  - intros i. destruct (decide (i = i0)) as [->|].
    + rewrite lookup_insert_eq. intros [= Hem]. set_solver.
    + by rewrite lookup_insert_ne.
Qed.

(** *** The whole *)

Record lru_rep s (zs : list (nat * node)) : Prop := {
  rep_list : list_rep s zs;
  rep_store : store_rep s zs;
  rep_len : len_rep s zs;
  rep_index : index_rep_but [] s zs;
}.

(** Deleting a node and popping its key *)
Lemma delete_pop_spec s zs1 x n zs2 :
  lru_rep s (zs1 ++ (x, n) :: zs2) →
  ∃ s1 c, delete_node size_callback extra_index_cb s x = Ok s1 ∧
    store_pop (lru_cache s1) (ln_key n) = Ok ([x], c) ∧ lru_rep (with_cache s1 c) (zs1 ++ zs2) ∧
    max_size s1 = max_size s ∧ lru_fresh s1 = lru_fresh s ∧ lru_called s1 = lru_called s ++ ln_callbacks n.
Proof using Type.
  intros [Hs Hst Hl Hi]. destruct (delete_spec s zs1 x n zs2 Hs) as (s1 & Hd & Hs1 & (E1 & E2 & E3 & E4) & Ec & El & Ei).
  destruct (pop_spec s zs1 x n zs2 s1 Hs Hst E2) as (ns & c & Hp & -> & Hst').
  exists s1, c. split_and!; [done|done| |done|done|done]. split.
  - by destruct Hs1.
  - by apply Hst'.
  - intros Hne. cbn. rewrite El, Hl, total_middle by done. lia.
  - assert (index_rep_but [] s1 (zs1 ++ zs2)) as Hi1 by (eapply index_discard_rep; [apply Hs|done|done]). exact Hi1.
Qed.

Lemma total_rev (l : list (lru_entry (K := K) (V := V))) : total size_callback (rev l) = total size_callback l.
Proof using Type.
  induction l as [|e l IH]; [done|]. cbn [rev]. rewrite total_app, IH, !total_cons. change (total size_callback []) with 0. lia.
Qed.

Lemma spec_evict_snoc max (l : list (lru_entry (K := K) (V := V))) e :
  spec_evict size_callback max (l ++ [e]) =
    if max <? total size_callback (l ++ [e]) then
      ((spec_evict size_callback max l).1, e_callbacks e ++ (spec_evict size_callback max l).2)
    else (l ++ [e], []).
Proof using Type.
  unfold spec_evict. rewrite rev_app_distr. cbn [rev app spec_evict_rev].
  rewrite <- (total_rev (l ++ [e])), rev_app_distr. cbn [rev app].
  destruct (max <? _); [by destruct (spec_evict_rev _ _ _)|]. cbn. by rewrite rev_involutive.
Qed.

Lemma evict_spec fuel s zs :
  lru_rep s zs → 0 ≤ max_size s → (length zs < fuel)%nat →
  ∃ s' zs', evict_loop size_callback extra_index_cb fuel s = Ok s' ∧ lru_rep s' zs' ∧
    entries_of zs' = (spec_evict size_callback (max_size s) (entries_of zs)).1 ∧
    lru_called s' = lru_called s ++ (spec_evict size_callback (max_size s) (entries_of zs)).2 ∧
    max_size s' = max_size s ∧ lru_fresh s' = lru_fresh s ∧ (length zs' ≤ length zs)%nat.
Proof using Type.
  revert fuel s. induction zs as [|[x n] zs1 IH] using rev_ind; intros fuel s Hs Hmax Hf;
    (destruct fuel as [|fuel]; [lia|]); cbn [evict_loop]; destruct Hs as [Hl Hst Hlen Hi];
    rewrite (cache_len_spec s _ Hl Hst Hlen).
  { change (total size_callback (entries_of [])) with 0. rewrite (proj2 (Z.ltb_ge _ _)) by done.
    exists s, []. by rewrite app_nil_r. }
  rewrite entries_app. change (entries_of [(x, n)]) with [node_entry n]. rewrite spec_evict_snoc.
  destruct (max_size s <? _) eqn:E; [|exists s, (zs1 ++ [(x, n)]); rewrite entries_app, app_nil_r; by split_and!].
  pose proof (lr_dll _ _ Hl) as Hd. rewrite map_app in Hd. cbn in Hd.
  pose proof (links_last _ _ _ _ (dll_links _ _ _ Hd)) as [Hp _]. rewrite last_snoc in Hp. cbn in Hp.
  assert ((x, n) ∈ zs1 ++ [(x, n)]) as Hin by (apply elem_of_app; right; by left).
  unfold prv in Hp. unfold node_at at 1. destruct (lh_nodes (lru_heap s) !! list_root s) as [root|]; [|done].
  cbn in Hp. cbn [mbind py_bind]. rewrite Hp. pose proof (lr_ent _ _ Hl x n Hin) as Hent.
  unfold get_cache_entry, node_at. unfold ent in Hent.
  destruct (lh_nodes (lru_heap s) !! ln_list_node n) as [ln|]; [|done]. cbn in Hent. cbn [mbind py_bind]. rewrite Hent.
  rewrite (the_node_Ok s _ x n Hl Hin). cbn [mbind py_bind].
  destruct (delete_pop_spec s zs1 x n []) as (s1 & c & -> & Hpop & Hs1 & Em & Ef & Ec); [by split|].
  cbn [mbind py_bind]. rewrite Hpop. cbn [mbind py_bind]. rewrite app_nil_r in Hs1.
  destruct (IH fuel (with_cache s1 c) Hs1) as (s' & zs' & He & Hs' & H1 & H2 & H3 & H4 & H5).
  { cbn. by rewrite Em. }
  { rewrite length_app in Hf. cbn in Hf. lia. }
  exists s', zs'. cbn in H1, H2, H3, H4. rewrite Em in H1, H2, H3. rewrite Ec in H2. rewrite length_app.
  split_and!; [done|done|done| |done|congruence|lia]. rewrite H2. cbn. by rewrite (assoc_L (++)).
Qed.

(** *** The methods *)

Lemma rep_length s zs : list_rep s zs → (length zs ≤ lru_fresh s)%nat.
Proof using Type.
  intros Hs. pose proof (rep_ids _ _ Hs) as Hids. rewrite <- (length_map fst zs), <- (length_seq (lru_fresh s) 0).
  apply submseteq_length, NoDup_submseteq; [done|]. intros x ([y n] & -> & Hy)%list_elem_of_fmap. cbn.
  apply elem_of_seq. pose proof (lr_fresh _ _ Hs y n (lr_nodes _ _ Hs y n Hy)). lia.
Qed.

(** Looking a key up in the store finds its entry. *)
Lemma find_some s zs k x :
  lru_rep s zs → store_map (lru_cache s) !! k = Some x →
  ∃ zs1 n zs2, zs = zs1 ++ (x, n) :: zs2 ∧ ln_key n = k ∧
    spec_find (entries_of zs) k = Some (node_entry n) ∧ spec_without (entries_of zs) k = entries_of (zs1 ++ zs2) ∧
    ∀ f, map (λ e, if decide (e_key e = k) then f else e) (entries_of zs) = entries_of zs1 ++ f :: entries_of zs2.
Proof using Type.
  intros [Hl Hst _ _] Hx. apply (sr_map _ _ Hst) in Hx as (n & Hin & <-).
  apply list_elem_of_split in Hin as (zs1 & zs2 & ->). exists zs1, n, zs2.
  pose proof (lr_keys _ _ Hl) as Hk. rewrite map_app in Hk. cbn in Hk. apply NoDup_app in Hk as (_ & Hdj & Hk).
  apply NoDup_cons in Hk as [Hk _].
  assert (∀ e, e ∈ entries_of zs1 ∨ e ∈ entries_of zs2 → e_key e ≠ ln_key n) as Hne.
  { intros e [([y m] & -> & Hy)%list_elem_of_fmap|([y m] & -> & Hy)%list_elem_of_fmap] Heq; cbn in Heq.
    - apply (Hdj (ln_key n)); [|by left]. apply list_elem_of_fmap. by exists (y, m).
    - apply Hk. apply list_elem_of_fmap. by exists (y, m). }
  assert (∀ l, (∀ e, e ∈ l → e_key e ≠ ln_key n) →
    List.filter (λ e : lru_entry (K := K) (V := V), bool_decide (e_key e = ln_key n)) l = [] ∧
    List.filter (λ e : lru_entry (K := K) (V := V), negb (bool_decide (e_key e = ln_key n))) l = l ∧
    ∀ f, map (λ e, if decide (e_key e = ln_key n) then f else e) l = l) as Hfil.
  { induction l as [|e l IH]; intros Hle; [done|]. cbn [List.filter map].
    rewrite bool_decide_eq_false_2 by (apply Hle; by left). cbn.
    destruct IH as (H1 & H2 & H3); [intros; apply Hle; by right|]. rewrite H2. split_and!; [done|done|].
    intros f. rewrite decide_False by (apply Hle; by left). by rewrite H3. }
  destruct (Hfil (entries_of zs1)) as (A1 & A2 & A3); [auto|]. destruct (Hfil (entries_of zs2)) as (B1 & B2 & B3); [auto|].
  rewrite !entries_app. change (entries_of ((x, n) :: zs2)) with (node_entry n :: entries_of zs2).
  unfold spec_find, spec_without. rewrite !List.filter_app. cbn [List.filter].
  change (e_key (node_entry n)) with (ln_key n). rewrite bool_decide_eq_true_2 by done. cbn [negb].
  rewrite A1, A2, B1, B2. split_and!; [done|done|done|done|]. intros f. rewrite map_app. cbn [map].
  rewrite decide_True by done. by rewrite A3, B3.
Qed.

Lemma find_none s zs k :
  lru_rep s zs → store_map (lru_cache s) !! k = None →
  (∀ x n, (x, n) ∈ zs → ln_key n ≠ k) ∧ spec_find (entries_of zs) k = None ∧ spec_without (entries_of zs) k = entries_of zs.
Proof using Type.
  intros [Hl Hst _ _] Hx.
  assert (∀ x n, (x, n) ∈ zs → ln_key n ≠ k) as Hne.
  { intros x n Hin <-. assert (store_map (lru_cache s) !! ln_key n = Some x) by (apply (sr_map _ _ Hst); eauto). congruence. }
  split; [done|]. clear Hl Hst Hx. induction zs as [|[x n] zs IH]; [done|].
  destruct IH as [H1 H2]; [intros; eapply Hne; by right|].
  change (entries_of ((x, n) :: zs)) with (node_entry n :: entries_of zs). unfold spec_find, spec_without in *. cbn [List.filter].
  change (e_key (node_entry n)) with (ln_key n). rewrite bool_decide_eq_false_2 by (eapply Hne; by left). cbn [negb].
  by rewrite H1, H2.
Qed.

Lemma evict_whole s zs :
  lru_rep s zs → 0 ≤ max_size s →
  ∃ s' zs', lru_evict size_callback extra_index_cb s = Ok s' ∧ lru_rep s' zs' ∧ max_size s' = max_size s ∧
    entries_of zs' = (spec_evict size_callback (max_size s) (entries_of zs)).1 ∧
    lru_called s' = lru_called s ++ (spec_evict size_callback (max_size s) (entries_of zs)).2.
Proof using Type.
  intros Hs Hmax. destruct (evict_spec (Datatypes.S (lru_fresh s)) s zs Hs Hmax) as (s' & zs' & He & Hs' & H1 & H2 & H3 & _).
  { pose proof (rep_length s zs (rep_list _ _ Hs)). lia. }
  exists s', zs'. by split_and!.
Qed.

(** Replacing a node by one with the same key, size and index *)
Lemma replace_node s zs1 x n zs2 n' :
  lru_rep s (zs1 ++ (x, n) :: zs2) → ln_list_node n' = ln_list_node n → ln_key n' = ln_key n →
  ln_value n' = ln_value n → lru_rep (with_node s x n') (zs1 ++ (x, n') :: zs2).
Proof using Type.
  intros [Hl Hst Hlen Hi] E1 E2 E3.
  assert (∀ (Q : K → V → Prop) y, (∃ m, (y, m) ∈ zs1 ++ (x, n') :: zs2 ∧ Q (ln_key m) (ln_value m)) ↔
    ∃ m, (y, m) ∈ zs1 ++ (x, n) :: zs2 ∧ Q (ln_key m) (ln_value m)) as Hiff.
  { intros Q y. split; intros (m & Hm & HQ); (apply elem_of_app in Hm as [?|[[= -> ->]|?]%elem_of_cons];
      [exists m|eexists|exists m]; (split; [apply elem_of_app; rewrite elem_of_cons; eauto|congruence])). }
  split.
  - by eapply with_node_spec.
  - destruct Hst as [Hok Hm]. split; [done|]. intros k y. cbn. rewrite Hm. symmetry. apply (Hiff (λ k' _, k' = k)).
  - intros Hne. cbn. rewrite Hlen by done. rewrite !total_middle. unfold entry_size, node_entry. cbn. by rewrite E3.
  - intros f Ef. destruct (Hi f Ef) as (H1 & H2 & H3). split_and!; [|done|done].
    intros i k His. cbn. rewrite H1 by done. split; intros (y & m & Hm).
    + destruct (proj2 (Hiff (λ k' v', k' = k ∧ f k v' = i) y)) as (m' & ? & ? & ?); [by exists m|]. by exists y, m'.
    + destruct (proj1 (Hiff (λ k' v', k' = k ∧ f k v' = i) y)) as (m' & ? & ? & ?); [by exists m|]. by exists y, m'.
Qed.

Lemma move_rep s zs1 x n zs2 :
  lru_rep s (zs1 ++ (x, n) :: zs2) →
  ∃ s', move_node_to_front s x = Ok s' ∧ lru_rep s' ((x, n) :: zs1 ++ zs2) ∧ max_size s' = max_size s ∧
    lru_called s' = lru_called s.
Proof using Type.
  intros [Hl Hst Hlen Hi]. destruct (move_spec s zs1 x n zs2 Hl) as (s' & Hm & Hl' & (E1 & E2 & E3 & E4) & En & El & Ei & Ec).
  assert (∀ z, z ∈ (x, n) :: zs1 ++ zs2 ↔ z ∈ zs1 ++ (x, n) :: zs2) as Hin
    by (intros z; rewrite !elem_of_cons, !elem_of_app, elem_of_cons; tauto).
  exists s'. split_and!; [done| |done|done]. split; [done| | |].
  - destruct Hst as [Hok Hmap]. split; rewrite E2; [done|]. intros k y. rewrite Hmap. by setoid_rewrite Hin.
  - intros Hne. rewrite El, Hlen by done. rewrite total_middle.
    change (entries_of ((x, n) :: zs1 ++ zs2)) with (node_entry n :: entries_of (zs1 ++ zs2)). by rewrite total_cons.
  - intros f Ef. rewrite Ei. destruct (Hi f Ef) as (H1 & H2 & H3). split_and!; [|done|done].
    intros i k His. rewrite H1 by done. by setoid_rewrite Hin.
Qed.

Lemma get_spec s zs k callbacks upd :
  lru_rep s zs → full_key k →
  ∃ s' zs', cache_get s k callbacks upd = Ok (e_value <$> spec_find (entries_of zs) k, s') ∧ lru_rep s' zs' ∧
    entries_of zs' = spec_get (entries_of zs) k callbacks upd ∧ max_size s' = max_size s ∧ lru_called s' = lru_called s.
Proof using Type.
  intros Hs Hk. unfold cache_get, spec_get. rewrite store_get_law by (done || apply Hs). cbn [mbind py_bind].
  destruct (store_map (lru_cache s) !! k) as [x|] eqn:Ex.
  2:{ destruct (find_none s zs k Hs Ex) as (_ & -> & _). exists s, zs. by split_and!. }
  destruct (find_some s zs k x Hs Ex) as (zs1 & n & zs2 & -> & <- & Hfind & Hwithout & Hmap). rewrite Hfind, Hwithout.
  set (n' := MkNode (ln_list_node n) (ln_key n) (ln_value n) (foldl add_new (ln_callbacks n) callbacks)).
  assert (∃ s1 zs1' zs2', (if upd then move_node_to_front s x else Ok s) = Ok s1 ∧ lru_rep s1 (zs1' ++ (x, n) :: zs2') ∧
    max_size s1 = max_size s ∧ lru_called s1 = lru_called s ∧
    entries_of (zs1' ++ (x, n') :: zs2') = if upd then node_entry n' :: entries_of (zs1 ++ zs2)
      else entries_of zs1 ++ node_entry n' :: entries_of zs2) as (s1 & zs1' & zs2' & -> & Hs1 & E1 & E2 & E3).
  { destruct upd.
    - destruct (move_rep s zs1 x n zs2 Hs) as (s1 & Hm & Hs1 & ? & ?). by exists s1, [], (zs1 ++ zs2).
    - exists s, zs1, zs2. rewrite entries_app. by split_and!. }
  cbn [mbind py_bind]. unfold add_callbacks.
  rewrite (the_node_Ok s1 _ x n (rep_list _ _ Hs1)) by (apply elem_of_app; right; by left). cbn [mbind py_bind]. fold n'.
  assert (lru_rep (with_node s1 x n') (zs1' ++ (x, n') :: zs2')) as Hs2 by by eapply replace_node.
  rewrite (the_node_Ok _ _ x n' (rep_list _ _ Hs2)) by (apply elem_of_app; right; by left). cbn [mbind py_bind].
  eexists _, _. split; [done|]. split; [exact Hs2|]. rewrite E3. split_and!; [|done|done].
  destruct upd; [done|]. by rewrite Hmap.
Qed.

Context (index_stable : ∀ f k v v', extra_index_cb = Some f → f k v = f k v').

(** A node in front with a new value, the length changed for it *)
Lemma front_value s zs1 x n zs2 s' n' :
  lru_rep s (zs1 ++ (x, n) :: zs2) → list_rep s' ((x, n') :: zs1 ++ zs2) → ln_key n' = ln_key n →
  lru_cache s' = lru_cache s → extra_index s' = extra_index s →
  (size_callback ≠ None → cached_cache_len s' =
     cached_cache_len s - entry_size size_callback (node_entry n) + entry_size size_callback (node_entry n')) →
  lru_rep s' ((x, n') :: zs1 ++ zs2).
Proof using index_stable.
  intros [Hl Hst Hlen Hi] Hl' Hk Ec Ei Elen.
  assert (∀ y m, (y, m) ∈ (x, n') :: zs1 ++ zs2 → ∃ m', (y, m') ∈ zs1 ++ (x, n) :: zs2 ∧ ln_key m' = ln_key m) as Ha.
  { intros y m [[= -> ->]|[?|?]%elem_of_app]%elem_of_cons; [exists n|exists m|exists m];
      (split; [apply elem_of_app; rewrite elem_of_cons; eauto|done]). }
  assert (∀ y m, (y, m) ∈ zs1 ++ (x, n) :: zs2 → ∃ m', (y, m') ∈ (x, n') :: zs1 ++ zs2 ∧ ln_key m' = ln_key m) as Hb.
  { intros y m Hm. apply elem_of_app in Hm as [?|[[= -> ->]|?]%elem_of_cons]; [exists m|exists n'|exists m];
      (split; [rewrite elem_of_cons, elem_of_app; eauto|done]). }
  split; [done| | |].
  - destruct Hst as [Hok Hm]. split; rewrite Ec; [done|]. intros k y. rewrite Hm. split.
    + intros (m & Hin & <-). apply Hb in Hin as (m' & ? & ?). eauto.
    + intros (m & Hin & <-). apply Ha in Hin as (m' & ? & ?). eauto.
  - intros Hne. rewrite Elen, Hlen by done. rewrite total_middle.
    change (entries_of ((x, n') :: zs1 ++ zs2)) with (node_entry n' :: entries_of (zs1 ++ zs2)). rewrite total_cons. lia.
  - intros f Ef. rewrite Ei. destruct (Hi f Ef) as (H1 & H2 & H3). split_and!; [|done|done].
    intros i k His. rewrite H1 by done. split; intros (y & m & Hm & <- & <-).
    + apply Hb in Hm as (m' & Hm' & Hkm). exists y, m'. split_and!; [done|done|]. by apply index_stable.
    + apply Ha in Hm as (m' & Hm' & Hkm). exists y, m'. split_and!; [done|done|]. by apply index_stable.
Qed.

(** Setting the value of a key that is there, before the eviction *)
Lemma set_old_spec s zs1 x n zs2 v callbacks :
  lru_rep s (zs1 ++ (x, n) :: zs2) →
  ∃ s' n',
    set_value size_callback s x v callbacks = Ok s' ∧
    lru_rep s' ((x, n') :: zs1 ++ zs2) ∧ max_size s' = max_size s ∧
    node_entry n' = Entry (ln_key n) v
      (foldl add_new (if bool_decide (v = ln_value n) then ln_callbacks n else []) callbacks) ∧
    lru_called s' = lru_called s ++ (if bool_decide (v = ln_value n) then [] else ln_callbacks n).
Proof using index_stable.
  intros Hs. pose proof (rep_list _ _ Hs) as Hl.
  assert (∀ (s1 : LruCache) m, list_rep s1 (zs1 ++ (x, m) :: zs2) → the_node s1 x = Ok m) as Hnode
    by (intros s1 m Hs1; eapply the_node_Ok; [done|]; apply elem_of_app; right; by left).
  unfold set_value. rewrite (Hnode s n Hl). cbn [mbind py_bind].
  set (cbs := if bool_decide (v = ln_value n) then ln_callbacks n else []).
  set (n1 := MkNode (ln_list_node n) (ln_key n) (ln_value n) cbs).
  assert (∃ s1, (if negb (bool_decide (v = ln_value n)) then run_and_clear_callbacks s x else Ok s) = Ok s1 ∧
    list_rep s1 (zs1 ++ (x, n1) :: zs2) ∧ same_rest s s1 ∧ extra_index s1 = extra_index s ∧
    cached_cache_len s1 = cached_cache_len s ∧
    lru_called s1 = lru_called s ++ (if bool_decide (v = ln_value n) then [] else ln_callbacks n))
    as (s1 & -> & Hl1 & (E1 & E2 & E3 & E4) & Ei & El & Ec).
  { subst n1 cbs. destruct (bool_decide (v = ln_value n)); cbn [negb].
    - exists s. rewrite app_nil_r. split_and!; try done. by destruct n.
    - unfold run_and_clear_callbacks. rewrite (Hnode s n Hl). cbn [mbind py_bind]. eexists. split_and!; try done.
      assert (list_rep (with_node s x (MkNode (ln_list_node n) (ln_key n) (ln_value n) []))
        (zs1 ++ (x, MkNode (ln_list_node n) (ln_key n) (ln_value n) []) :: zs2)) as Hw by by eapply with_node_spec.
      by destruct Hw. }
  cbn [mbind py_bind]. set (s2 := match size_callback with Some f => _ | None => s1 end).
  assert (list_rep s2 (zs1 ++ (x, n1) :: zs2) ∧ same_rest s1 s2 ∧ extra_index s2 = extra_index s1 ∧
    lru_called s2 = lru_called s1 ∧ (size_callback ≠ None → cached_cache_len s2 =
      cached_cache_len s - entry_size size_callback (node_entry n) + entry_size size_callback (Entry (ln_key n) v [])))
    as (Hl2 & (F1 & F2 & F3 & F4) & Fi & Fc & Fl).
  { subst s2. unfold entry_size. destruct size_callback as [f|]; (split_and!; [by destruct Hl1|done..|]); cbn; [|done].
    intros _. by rewrite El. }
  clearbody s2. unfold add_callbacks. rewrite (Hnode s2 n1 Hl2). cbn [mbind py_bind].
  set (n2 := MkNode _ _ _ _). assert (list_rep (with_node s2 x n2) (zs1 ++ (x, n2) :: zs2)) as Hl3 by by eapply with_node_spec.
  destruct (move_spec _ zs1 x n2 zs2 Hl3) as (s4 & -> & Hl4 & (G1 & G2 & G3 & G4) & Gn & Gl & Gi & Gc). cbn [mbind py_bind].
  rewrite (the_node_Ok s4 _ x n2 Hl4) by by left. cbn [mbind py_bind].
  eexists _, (MkNode (ln_list_node n2) (ln_key n2) v (ln_callbacks n2)). split; [done|].
  cbn in G1, G2, G3, G4, Gl, Gi, Gc. split_and!.
  - eapply (front_value s zs1 x n zs2); [done| |done|cbn; congruence|cbn; congruence|].
    + by apply (with_node_spec s4 [] x n2 (zs1 ++ zs2)).
    + intros Hne. cbn. rewrite Gl, Fl by done. unfold entry_size. by destruct size_callback.
  - cbn. congruence.
  - done.
  - cbn. by rewrite Gc, Fc, Ec.
Qed.

Lemma set_spec s zs k v callbacks :
  lru_rep s zs → full_key k → 0 ≤ max_size s →
  ∃ s' zs', cache_set size_callback extra_index_cb s k v callbacks = Ok s' ∧ lru_rep s' zs' ∧ max_size s' = max_size s ∧
    entries_of zs' = (spec_set size_callback (max_size s) (entries_of zs) k v callbacks).1 ∧
    lru_called s' = lru_called s ++ (spec_set size_callback (max_size s) (entries_of zs) k v callbacks).2.
Proof using index_stable.
  intros Hs Hk Hmax. unfold cache_set, spec_set. rewrite store_get_law by (done || apply Hs). cbn [mbind py_bind].
  destruct (store_map (lru_cache s) !! k) as [x|] eqn:Ex.
  - destruct (find_some s zs k x Hs Ex) as (zs1 & n & zs2 & -> & <- & -> & -> & _).
    destruct (set_old_spec s zs1 x n zs2 v callbacks Hs) as (s1 & n' & -> & Hs1 & E1 & E2 & E3). cbn [mbind py_bind].
    destruct (evict_whole s1 _ Hs1) as (s' & zs' & -> & Hs' & H1 & H2 & H3); [lia|]. exists s', zs'.
    change (entries_of ((x, n') :: zs1 ++ zs2)) with (node_entry n' :: entries_of (zs1 ++ zs2)) in H2, H3.
    rewrite E1, E2 in H2, H3. cbn [e_value e_callbacks node_entry].
    destruct (spec_evict _ _ _) as [kept called]. cbn in *. split_and!; [done|done|congruence|done|].
    rewrite H3, E3. by rewrite (assoc_L (++)).
  - destruct (find_none s zs k Hs Ex) as (Hnew & -> & ->).
    destruct (add_spec s zs k v callbacks (rep_list _ _ Hs) (rep_store _ _ Hs) Hk Hnew)
      as (s1 & x & n & -> & Hl1 & Hst1 & En & E1 & E2 & E3 & E4 & E5). cbn [mbind py_bind].
    assert (lru_rep s1 ((x, n) :: zs)) as Hs1.
    { split; [done|done| |].
      - intros Hne. rewrite E4 by done. rewrite (rep_len _ _ Hs) by done.
        change (entries_of ((x, n) :: zs)) with (node_entry n :: entries_of zs). rewrite total_cons. lia.
      - eapply index_add_rep; [apply Hs|]. injection En as -> ->. done. }
    destruct (evict_whole s1 _ Hs1) as (s' & zs' & -> & Hs' & H1 & H2 & H3); [lia|]. exists s', zs'.
    change (entries_of ((x, n) :: zs)) with (node_entry n :: entries_of zs) in H2, H3.
    rewrite E1, En in H2, H3. destruct (spec_evict _ _ _) as [kept called]. cbn in *.
    split_and!; [done|done|congruence|done|]. by rewrite H3, E2.
Qed.

Lemma set_default_spec s zs k v :
  lru_rep s zs → full_key k → 0 ≤ max_size s →
  ∃ s' zs' r, cache_set_default size_callback extra_index_cb s k v = Ok (r, s') ∧ lru_rep s' zs' ∧ max_size s' = max_size s ∧
    r = default v (e_value <$> spec_find (entries_of zs) k) ∧
    (entries_of zs', lru_called s') = match spec_find (entries_of zs) k with
      | Some _ => (entries_of zs, lru_called s)
      | None => ((spec_evict size_callback (max_size s) (Entry k v [] :: entries_of zs)).1,
                 lru_called s ++ (spec_evict size_callback (max_size s) (Entry k v [] :: entries_of zs)).2)
      end.
Proof using Type.
  intros Hs Hk Hmax. unfold cache_set_default. rewrite store_get_law by (done || apply Hs). cbn [mbind py_bind].
  destruct (store_map (lru_cache s) !! k) as [x|] eqn:Ex.
  - destruct (find_some s zs k x Hs Ex) as (zs1 & n & zs2 & -> & <- & -> & _).
    rewrite (the_node_Ok s _ x n (rep_list _ _ Hs)) by (apply elem_of_app; right; by left). cbn [mbind py_bind].
    exists s, (zs1 ++ (x, n) :: zs2), (ln_value n). by split_and!.
  - destruct (find_none s zs k Hs Ex) as (Hnew & -> & _).
    destruct (add_spec s zs k v [] (rep_list _ _ Hs) (rep_store _ _ Hs) Hk Hnew)
      as (s1 & x & n & -> & Hl1 & Hst1 & En & E1 & E2 & E3 & E4 & E5). cbn [mbind py_bind].
    assert (lru_rep s1 ((x, n) :: zs)) as Hs1.
    { split; [done|done| |].
      - intros Hne. rewrite E4 by done. rewrite (rep_len _ _ Hs) by done.
        change (entries_of ((x, n) :: zs)) with (node_entry n :: entries_of zs). rewrite total_cons. lia.
      - eapply index_add_rep; [apply Hs|]. injection En as -> ->. done. }
    destruct (evict_whole s1 _ Hs1) as (s' & zs' & -> & Hs' & H1 & H2 & H3); [lia|]. exists s', zs', v.
    change (entries_of ((x, n) :: zs)) with (node_entry n :: entries_of zs) in H2, H3.
    rewrite E1, En in H2, H3. split_and!; [done|done|congruence|done|]. rewrite H2, H3, E2. done.
Qed.

Lemma pop_key_spec s zs k :
  lru_rep s zs → full_key k →
  ∃ s' zs', cache_pop size_callback extra_index_cb s k = Ok (e_value <$> spec_find (entries_of zs) k, s') ∧ lru_rep s' zs' ∧
    max_size s' = max_size s ∧ entries_of zs' = spec_without (entries_of zs) k ∧
    lru_called s' = lru_called s ++ default [] (e_callbacks <$> spec_find (entries_of zs) k).
Proof using Type.
  intros Hs Hk. unfold cache_pop. rewrite store_get_law by (done || apply Hs). cbn [mbind py_bind].
  destruct (store_map (lru_cache s) !! k) as [x|] eqn:Ex.
  - destruct (find_some s zs k x Hs Ex) as (zs1 & n & zs2 & -> & <- & -> & -> & _).
    rewrite (the_node_Ok s _ x n (rep_list _ _ Hs)) by (apply elem_of_app; right; by left). cbn [mbind py_bind].
    destruct (delete_pop_spec s zs1 x n zs2 Hs) as (s1 & c & -> & Hp & Hs1 & E1 & E2 & E3). cbn [mbind py_bind].
    rewrite Hp. cbn [mbind py_bind]. exists (with_cache s1 c), (zs1 ++ zs2). by split_and!.
  - destruct (find_none s zs k Hs Ex) as (_ & -> & ->). exists s, zs. cbn. rewrite app_nil_r. by split_and!.
Qed.

Lemma resize_spec s zs n :
  lru_rep s zs → 0 ≤ n →
  ∃ s' zs', resize size_callback extra_index_cb s n = Ok s' ∧ lru_rep s' zs' ∧ max_size s' = n ∧
    (n ≠ max_size s → entries_of zs' = (spec_evict size_callback n (entries_of zs)).1 ∧
      lru_called s' = lru_called s ++ (spec_evict size_callback n (entries_of zs)).2) ∧
    (n = max_size s → s' = s ∧ zs' = zs).
Proof using Type.
  intros Hs Hn. unfold resize. destruct (n =? max_size s) eqn:E; to_prop; cbn [negb].
  - exists s, zs. by split_and!.
  - assert (lru_rep (with_max_size s n) zs) as Hs1 by (destruct Hs as [[] [] ? ?]; by split).
    destruct (evict_whole _ _ Hs1 Hn) as (s' & zs' & Hev & Hs' & H1 & H2 & H3). exists s', zs'. by split_and!.
Qed.

(** *** Removing many *)

(** Removing the nodes that [xs] names, one after the other *)
Definition named {A} `{EqDecision A} (id_of : nat * node → A) (xs : list A) (z : nat * node) : bool :=
  bool_decide (id_of z ∈ xs).

Lemma filter_named_none {A} `{EqDecision A} (id_of : nat * node → A) xs zs :
  (∀ z, z ∈ zs → id_of z ∉ xs) →
  List.filter (λ z, negb (named id_of xs z)) zs = zs ∧ List.filter (named id_of xs) zs = [].
Proof using Type.
  intros Hz. induction zs as [|z zs IH]; [done|]. cbn.
  assert (named id_of xs z = false) as -> by (apply bool_decide_eq_false_2, Hz; by left). cbn.
  destruct IH as [IH1 IH2]; [intros; apply Hz; by right|]. by rewrite IH1, IH2.
Qed.

Lemma filter_named_cons {A} `{EqDecision A} (id_of : nat * node → A) a xs zs :
  (∀ z, z ∈ zs → id_of z ≠ a) →
  List.filter (λ z, negb (named id_of (a :: xs) z)) zs = List.filter (λ z, negb (named id_of xs z)) zs ∧
  List.filter (named id_of (a :: xs)) zs = List.filter (named id_of xs) zs.
Proof using Type.
  intros Hz. assert (∀ z, List.In z zs → named id_of (a :: xs) z = named id_of xs z) as Heq.
  { intros z Hin. apply bool_decide_ext. rewrite elem_of_cons.
    pose proof (Hz z (proj2 (list_elem_of_In _ _) Hin)). tauto. }
  split; apply List.filter_ext_in; intros z Hin; by rewrite Heq.
Qed.

Lemma fold_many {A} `{EqDecision A} (id_of : nat * node → A) (F : LruCache → A → py LruCache)
    (P : LruCache → list (nat * node) → Prop) :
  (∀ s zs1 z zs2, P s (zs1 ++ z :: zs2) → ∃ s', F s (id_of z) = Ok s' ∧ P s' (zs1 ++ zs2) ∧
     lru_called s' = lru_called s ++ ln_callbacks z.2) →
  ∀ xs s zs, P s zs → NoDup (map id_of zs) → NoDup xs → (∀ a, a ∈ xs → a ∈ map id_of zs) →
  ∃ s' called, py_fold F s xs = Ok s' ∧ P s' (List.filter (λ z, negb (named id_of xs z)) zs) ∧
    lru_called s' = lru_called s ++ called ∧
    called ≡ₚ concat (map (λ z, ln_callbacks z.2) (List.filter (named id_of xs) zs)).
Proof using Type.
  intros HF. induction xs as [|a xs IH]; intros s zs Hs Hnd Hxs Hin; cbn [py_fold].
  { exists s, []. destruct (filter_named_none id_of [] zs) as [E1 E2]; [by intros z _ ?%elem_of_nil|].
    rewrite E1, E2, app_nil_r. by split_and!. }
  assert (a ∈ map id_of zs) as (z & Ha & Hz)%list_elem_of_fmap by (apply Hin; by left). subst a.
  apply list_elem_of_split in Hz as (zs1 & zs2 & ->). destruct (HF s zs1 z zs2 Hs) as (s1 & HF1 & Hs1 & Ec).
  rewrite HF1. cbn [mbind py_bind]. apply NoDup_cons in Hxs as [Hzx Hxs].
  rewrite map_app in Hnd. cbn in Hnd. rewrite <- Permutation_middle in Hnd. apply NoDup_cons in Hnd as [Hzn Hnd].
  rewrite <- map_app in Hzn, Hnd.
  destruct (IH s1 (zs1 ++ zs2) Hs1 Hnd Hxs) as (s' & called & HF2 & Hs' & Ec' & Hc').
  { intros a Ha. specialize (Hin a ltac:(by right)). rewrite map_app in Hin. cbn in Hin.
    rewrite map_app. rewrite elem_of_app, elem_of_cons in Hin. rewrite elem_of_app.
    destruct Hin as [?|[->|?]]; [by left|done|by right]. }
  assert (∀ y, y ∈ zs1 ++ zs2 → id_of y ≠ id_of z) as Hne
    by (intros y Hy Heq; apply Hzn; rewrite <- Heq; by apply list_elem_of_fmap_2).
  destruct (filter_named_cons id_of (id_of z) xs (zs1 ++ zs2) Hne) as [E1 E2].
  assert (named id_of (id_of z :: xs) z = true) as Ez by (apply bool_decide_eq_true_2; by left).
  rewrite List.filter_app in E1, E2. rewrite !List.filter_app. cbn [List.filter]. rewrite Ez. cbn [negb].
  rewrite E1. exists s', (ln_callbacks z.2 ++ called). split_and!; [done|exact Hs'| |].
  - rewrite Ec', Ec. by rewrite (assoc_L (++)).
  - rewrite Hc', <- E2, !map_app. cbn [map]. rewrite !concat_app. cbn [concat]. apply Permutation_app_swap_app.
Qed.

Lemma entries_filter (p : lru_entry → bool) zs :
  entries_of (List.filter (λ z, p (node_entry z.2)) zs) = List.filter p (entries_of zs).
Proof using Type. unfold entries_of. induction zs as [|z zs IH]; [done|]. cbn. destruct (p _); cbn; by rewrite IH. Qed.

(** What is left and what is called, when the nodes named are those whose entries satisfy [p] *)
Lemma named_entries {A} `{EqDecision A} (id_of : nat * node → A) xs zs (p : lru_entry → bool) :
  (∀ z, z ∈ zs → id_of z ∈ xs ↔ p (node_entry z.2) = true) →
  entries_of (List.filter (λ z, negb (named id_of xs z)) zs) = spec_remove (entries_of zs) p ∧
  concat (map (λ z, ln_callbacks z.2) (List.filter (named id_of xs) zs)) = spec_removed (entries_of zs) p.
Proof using Type.
  intros Hp. assert (∀ z, List.In z zs → named id_of xs z = p (node_entry z.2)) as Heq.
  { intros z Hz. apply eq_true_iff_eq. unfold named. rewrite bool_decide_eq_true. apply Hp. by apply list_elem_of_In. }
  unfold spec_remove, spec_removed. split.
  - rewrite <- (entries_filter (λ e, negb (p e))). f_equal. apply List.filter_ext_in. intros z Hz. by rewrite Heq.
  - rewrite <- (entries_filter p), (List.filter_ext_in _ (λ z, p (node_entry z.2)) zs Heq).
    unfold entries_of. by rewrite List.map_map.
Qed.

Lemma rep_keys_inj s zs z z' : list_rep s zs → z ∈ zs → z' ∈ zs → ln_key z.2 = ln_key z'.2 → z = z'.
Proof using Type.
  intros Hs Hz Hz' Heq. pose proof (lr_keys _ _ Hs) as Hk. clear Hs. induction zs as [|y zs IH]; [by apply elem_of_nil in Hz|].
  cbn in Hk. apply NoDup_cons in Hk as [Hy Hk].
  apply elem_of_cons in Hz as [-> |Hz]; apply elem_of_cons in Hz' as [-> |Hz']; [done| | |auto]; destruct Hy.
  - rewrite Heq. apply list_elem_of_fmap. by exists z'.
  - rewrite <- Heq. apply list_elem_of_fmap. by exists z.
Qed.

(** The nodes of a part of the store *)
Lemma store_part s zs (part : gmap K nat) xs :
  list_rep s zs → store_rep s zs → part ⊆ store_map (lru_cache s) → xs ≡ₚ map snd (map_to_list part) →
  NoDup xs ∧ (∀ x, x ∈ xs → x ∈ map fst zs) ∧ ∀ z, z ∈ zs → z.1 ∈ xs ↔ is_Some (part !! ln_key z.2).
Proof using Type.
  intros Hs [_ Hm] Hsub Hxs.
  assert (∀ k x, part !! k = Some x → ∃ n, (x, n) ∈ zs ∧ ln_key n = k) as Hpart
    by (intros k x Hx; apply Hm; by eapply lookup_weaken).
  assert (∀ x, x ∈ xs ↔ ∃ k, part !! k = Some x) as Hin.
  { intros x. rewrite Hxs. rewrite list_elem_of_fmap. split.
    - intros ([k y] & -> & Hy%elem_of_map_to_list). by exists k.
    - intros [k Hk]. exists (k, x). split; [done|]. by apply elem_of_map_to_list. }
  split_and!.
  - rewrite Hxs. apply NoDup_fmap_2_strong; [|apply NoDup_map_to_list]. intros [k x] [k' y] Hx Hy. cbn. intros ->.
    apply elem_of_map_to_list in Hx, Hy. apply Hpart in Hx as (n & Hn & <-). apply Hpart in Hy as (m & Hm' & <-).
    pose proof (lr_nodes _ _ Hs _ _ Hn). pose proof (lr_nodes _ _ Hs _ _ Hm'). by simplify_eq.
  - intros x [k Hk]%Hin. apply Hpart in Hk as (n & Hn & _). apply list_elem_of_fmap. by exists (x, n).
  - intros [x n] Hz. rewrite Hin. cbn. split.
    + intros [k Hk]. destruct (Hpart k x Hk) as (m & Hm' & <-).
      pose proof (lr_nodes _ _ Hs _ _ Hz). pose proof (lr_nodes _ _ Hs _ _ Hm'). simplify_eq. eauto.
    + intros [y Hy]. destruct (Hpart _ y Hy) as (m & Hm' & Hk).
      assert ((x, n) = (y, m)) as [= -> ->] by by eapply rep_keys_inj. eauto.
Qed.

Lemma del_multi_spec s zs p :
  lru_rep s zs → some_key p →
  ∃ s' zs' called, cache_del_multi size_callback extra_index_cb s p = Ok s' ∧ lru_rep s' zs' ∧ max_size s' = max_size s ∧
    entries_of zs' = spec_remove (entries_of zs) (λ e, under p (e_key e)) ∧ lru_called s' = lru_called s ++ called ∧
    called ≡ₚ spec_removed (entries_of zs) (λ e, under p (e_key e)).
Proof using Type.
  intros [Hl Hst Hlen Hi] Hp. unfold cache_del_multi.
  destruct (store_pop_law (lru_cache s) p (sr_ok _ _ Hst) Hp) as (xs & c & -> & Hc & Hcm & Hxs). cbn [mbind py_bind].
  destruct (store_part s zs _ xs Hl Hst (map_filter_subseteq _ _) Hxs) as (Hnd & Hsub & Hiff).
  destruct (fold_many fst (delete_node size_callback extra_index_cb) (λ s1 zs1, list_rep s1 zs1 ∧ len_rep s1 zs1 ∧
    index_rep_but [] s1 zs1 ∧ lru_cache s1 = c ∧ max_size s1 = max_size s)) with (xs := xs) (s := with_cache s c) (zs := zs)
    as (s' & called & Hf & (Hl' & Hlen' & Hi' & Ec & Em) & Ecall & Hcall); [|by destruct Hl|by eapply rep_ids|done|done|].
  { intros s1 zs1 [x n] zs2 (H1 & H2 & H3 & H4 & H5).
    destruct (delete_spec s1 zs1 x n zs2 H1) as (s2 & Hd & Hs2 & (E1 & E2 & E3 & E4) & Eca & El & Ei).
    exists s2. split_and!; [done|done| | |congruence|congruence|done].
    - intros Hne. rewrite El, H2, total_middle by done. lia.
    - eapply index_discard_rep; [apply H1|done|done]. }
  destruct (named_entries fst xs zs (λ e, under p (e_key e))) as [E1 E2].
  { intros z Hz. rewrite Hiff by done. cbn. destruct z as [x n]. cbn.
    assert (store_map (lru_cache s) !! ln_key n = Some x) as Hx by (apply (sr_map _ _ Hst); eauto).
    split.
    - intros [y [_ Hy]%map_lookup_filter_Some]. done.
    - intros Hu. exists x. by apply map_lookup_filter_Some. }
  rewrite E2 in Hcall. exists s', (List.filter (λ z, negb (named fst xs z)) zs), called. split_and!; try done. split; try done.
  split; rewrite Ec; [done|]. intros k x. rewrite Hcm, map_lookup_filter_Some, (sr_map _ _ Hst). cbn.
  setoid_rewrite list_elem_of_In. setoid_rewrite List.filter_In. setoid_rewrite <- list_elem_of_In. split.
  - intros [(n & Hn & <-) Hu]. exists n. split_and!; [done| |done]. unfold named. rewrite bool_decide_eq_false_2; [done|].
    rewrite Hiff by done. cbn. intros [y [_ Hy]%map_lookup_filter_Some]. cbn in Hy. congruence.
  - intros (n & [Hn Hu] & <-). split; [eauto|]. destruct (under p (ln_key n)) eqn:E; [|done]. unfold named in Hu.
    rewrite bool_decide_eq_true_2 in Hu; [done|]. apply Hiff; [done|]. cbn. exists x. apply map_lookup_filter_Some. split; [|done].
    apply (sr_map _ _ Hst). eauto.
Qed.

(** One round of the loop of [cache_clear] *)
Lemma clear_one_spec s zs1 x n zs2 :
  list_rep s (zs1 ++ (x, n) :: zs2) →
  ∃ s', (s1 ← run_and_clear_callbacks s x; drop_from_lists s1 x) = Ok s' ∧ list_rep s' (zs1 ++ zs2) ∧
    max_size s' = max_size s ∧ lru_called s' = lru_called s ++ ln_callbacks n.
Proof using Type.
  intros Hs. unfold run_and_clear_callbacks.
  rewrite (the_node_Ok s _ x n Hs) by (apply elem_of_app; right; by left). cbn [mbind py_bind].
  set (n' := MkNode _ _ _ _). set (s1 := with_called _ _).
  assert (list_rep s1 (zs1 ++ (x, n') :: zs2)) as Hs1.
  { assert (list_rep (with_node s x n') (zs1 ++ (x, n') :: zs2)) as Hw by by eapply with_node_spec. by destruct Hw. }
  destruct (drop_spec s1 zs1 x n' zs2 Hs1) as (s' & Hd & Hs' & (E1 & _) & _ & _ & _ & Ec).
  exists s'. split_and!; [done|done|by rewrite E1|by rewrite Ec].
Qed.

Lemma clear_spec s zs :
  lru_rep s zs →
  ∃ s' called, cache_clear size_callback s = Ok s' ∧ lru_rep s' [] ∧ max_size s' = max_size s ∧
    lru_called s' = lru_called s ++ called ∧ called ≡ₚ spec_removed (entries_of zs) (λ _, true).
Proof using Type.
  clear index_stable. intros [Hl Hst Hlen Hi]. unfold cache_clear.
  pose proof (store_values_law _ (sr_ok _ _ Hst)) as Hxs. set (xs := store_values (lru_cache s)) in *.
  destruct (store_part s zs _ xs Hl Hst (reflexivity _) Hxs) as (Hnd & Hsub & Hiff).
  destruct (fold_many fst (λ s x, s ← run_and_clear_callbacks s x; drop_from_lists s x)
    (λ s1 zs1, list_rep s1 zs1 ∧ max_size s1 = max_size s)) with (xs := xs) (s := s) (zs := zs)
    as (s' & called & Hf & (Hl' & Em) & Ecall & Hcall); [|done|by eapply rep_ids|done|done|].
  { intros s1 zs1 [x n] zs2 [H1 H2]. destruct (clear_one_spec s1 zs1 x n zs2 H1) as (s2 & Hc & ? & ? & ?).
    exists s2. split_and!; [exact Hc|done|congruence|done]. }
  destruct (named_entries fst xs zs (λ _, true)) as [E1 E2].
  { intros [x n] Hz. rewrite Hiff by done. split; [done|]. intros _. exists x. apply (sr_map _ _ Hst). eauto. }
  assert (List.filter (λ z, negb (named fst xs z)) zs = []) as Enil.
  { unfold spec_remove in E1. apply nil_length_inv. rewrite <- (length_map (λ z, node_entry z.2)).
    change (length (entries_of (List.filter (λ z, negb (named fst xs z)) zs)) = 0%nat). rewrite E1.
    generalize (entries_of zs) as l. intros l. by induction l. }
  rewrite Enil in Hl'. rewrite E2 in Hcall. rewrite Hf. cbn [mbind py_bind].
  pose proof (dll_links _ _ _ (lr_dll _ _ Hl')) as Hlinks. destruct (links_first _ _ _ _ Hlinks) as [Hn Hp]. cbn in Hn, Hp.
  unfold node_at. unfold nxt in Hn. unfold prv in Hp.
  destruct (lh_nodes (lru_heap s') !! list_root s') as [root|]; [|done]. cbn in Hn, Hp. cbn [mbind py_bind].
  rewrite Hn, Hp, !bool_decide_eq_true_2 by done. cbn [negb orb raise_if mbind py_bind].
  eexists _, called. split; [done|]. destruct store_empty_ok as [Hok Hem].
  split_and!; [|by destruct size_callback|by destruct size_callback|done]. split.
  - destruct Hl'. by destruct size_callback.
  - split; [by destruct size_callback|]. intros k x. destruct size_callback; cbn; rewrite Hem, lookup_empty;
      (split; [done|by intros (n & ?%elem_of_nil & _)]).
  - intros Hne. by destruct size_callback.
  - intros f Ef. split_and!.
    + intros i k _. cbn. rewrite lookup_empty. cbn. split; [set_solver|]. by intros (x & n & ?%elem_of_nil & _).
    + intros i _. apply lookup_empty.
    + intros i. cbn. by rewrite lookup_empty.
Qed.

Lemma invalidate_one_spec i s zs1 x n zs2 :
  list_rep s (zs1 ++ (x, n) :: zs2) → store_rep s (zs1 ++ (x, n) :: zs2) → len_rep s (zs1 ++ (x, n) :: zs2) →
  index_rep_but [i] s (zs1 ++ (x, n) :: zs2) →
  ∃ s', invalidate_one size_callback extra_index_cb s (ln_key n) = Ok s' ∧ list_rep s' (zs1 ++ zs2) ∧
    store_rep s' (zs1 ++ zs2) ∧ len_rep s' (zs1 ++ zs2) ∧ index_rep_but [i] s' (zs1 ++ zs2) ∧
    max_size s' = max_size s ∧ lru_called s' = lru_called s ++ ln_callbacks n.
Proof using Type.
  clear index_stable. intros Hl Hst Hlen Hi. unfold invalidate_one.
  destruct (pop_spec s zs1 x n zs2 s Hl Hst eq_refl) as (ns & c & -> & -> & Hst'). cbn [mbind py_bind].
  destruct (delete_spec (with_cache s c) zs1 x n zs2) as (s' & -> & Hl' & (E1 & E2 & E3 & E4) & Ec & El & Ei);
    [by destruct Hl|].
  exists s'. split_and!; [done|done|by apply Hst'| | |done|done].
  - intros Hne. rewrite El by done. cbn. rewrite Hlen, total_middle by done. lia.
  - eapply index_discard_rep; [apply Hl|exact Hi|]. rewrite Ei. unfold index_discard.
    destruct extra_index_cb as [f|]; [|done]. cbn. destruct (extra_index s !! _); [|done]. by case_decide.
Qed.

Lemma invalidate_spec f s zs i :
  lru_rep s zs → extra_index_cb = Some f →
  ∃ s' zs' called, cache_invalidate_on_extra_index size_callback extra_index_cb s i = Ok s' ∧ lru_rep s' zs' ∧
    max_size s' = max_size s ∧
    entries_of zs' = spec_remove (entries_of zs) (λ e, bool_decide (f (e_key e) (e_value e) = i)) ∧
    lru_called s' = lru_called s ++ called ∧
    called ≡ₚ spec_removed (entries_of zs) (λ e, bool_decide (f (e_key e) (e_value e) = i)).
Proof using Type.
  clear index_stable. intros [Hl Hst Hlen Hi] Ef. unfold cache_invalidate_on_extra_index.
  rewrite bool_decide_eq_false_2 by congruence. cbn [raise_if mbind py_bind].
  destruct (Hi f Ef) as (H1 & H2 & H3). pose (xs := elements (default ∅ (extra_index s !! i))).
  assert (∀ z, z ∈ zs → ln_key z.2 ∈ xs ↔ bool_decide (f (e_key (node_entry z.2)) (e_value (node_entry z.2)) = i) = true) as Hxs.
  { intros [x n] Hz. subst xs. rewrite elem_of_elements, H1, bool_decide_eq_true by by intros ?%elem_of_nil. cbn. split.
    - intros (y & m & Hm & Hk & Hf). assert ((x, n) = (y, m)) as [= -> ->] by by eapply rep_keys_inj. done.
    - intros Hf. by exists x, n. }
  destruct (named_entries (λ z, ln_key z.2) xs zs (λ e, bool_decide (f (e_key e) (e_value e) = i)) Hxs) as [E1 E2].
  destruct (extra_index s !! i) as [keys|] eqn:Ek.
  2:{ exists s, zs, []. assert (xs = []) as -> by (subst xs; cbn; apply elements_empty).
      destruct (filter_named_none (λ z, ln_key z.2) [] zs) as [F1 F2]; [by intros z _ ?%elem_of_nil|].
      rewrite F1 in E1. rewrite F2 in E2. rewrite <- E1, <- E2, app_nil_r. by split_and!. }
  cbn [default from_option id] in xs.
  destruct (fold_many (λ z, ln_key z.2) (invalidate_one size_callback extra_index_cb) (λ s1 zs1, list_rep s1 zs1 ∧ store_rep s1 zs1 ∧
    len_rep s1 zs1 ∧ index_rep_but [i] s1 zs1 ∧ max_size s1 = max_size s))
    with (xs := xs) (s := with_index s (delete i (extra_index s))) (zs := zs)
    as (s' & called & Hf & (Hl' & Hst' & Hlen' & Hi' & Em) & Ecall & Hcall).
  - intros s1 zs1 [x n] zs2 (G1 & G2 & G3 & G4 & G5).
    destruct (invalidate_one_spec i s1 zs1 x n zs2 G1 G2 G3 G4) as (s2 & Hd & ? & ? & ? & ? & ? & ?).
    exists s2. split_and!; [done..|congruence|done].
  - split_and!; [by destruct Hl|by destruct Hst|done| |done]. intros f' Ef'. assert (f' = f) as -> by congruence. split_and!.
    + intros j k Hj. cbn. rewrite lookup_delete_ne by (intros ->; apply Hj; by left). apply H1. by intros ?%elem_of_nil.
    + intros j ->%list_elem_of_singleton. cbn. apply lookup_delete_eq.
    + intros j. cbn. intros [_ Hj]%lookup_delete_Some. by eapply H3.
  - apply (lr_keys _ _ Hl).
  - apply NoDup_elements.
  - intros k Hk. subst xs. apply elem_of_elements in Hk.
    assert (k ∈ default ∅ (extra_index s !! i)) as Hk' by by rewrite Ek.
    apply H1 in Hk' as (x & n & Hn & <- & _); [|by intros ?%elem_of_nil]. apply list_elem_of_fmap. by exists (x, n).
  - rewrite E2 in Hcall. exists s', (List.filter (λ z, negb (named (λ z, ln_key z.2) xs z)) zs), called.
    split_and!; try done. split; try done. intros f' Ef'. assert (f' = f) as -> by congruence.
    destruct (Hi' f Ef') as (I1 & I2 & I3). split_and!; [|by intros j ?%elem_of_nil|done].
    intros j k _. destruct (decide (j = i)) as [->|Hj]; [|apply I1; by intros ?%list_elem_of_singleton].
    rewrite I2 by by left. cbn. split; [set_solver|]. intros (x & n & Hn & <- & Hf').
    apply list_elem_of_In, List.filter_In in Hn as [Hn%list_elem_of_In Hnn]. unfold named in Hnn.
    rewrite bool_decide_eq_true_2 in Hnn; [done|]. apply (Hxs (x, n)); [done|]. by apply bool_decide_eq_true_2.
Qed.

(** ** Sequences of calls *)

Definition spec_op (max : Z) (l : list lru_entry) (op : lru_op (K := K) (V := V)) : lru_out (V := V) * Z * list lru_entry * list nat :=
  match op with
  | OpGet k cs u => (OutValue (e_value <$> spec_find l k), max, spec_get l k cs u, [])
  | OpSet k v cs => let '(l', called) := spec_set size_callback max l k v cs in (OutNone, max, l', called)
  | OpSetDefault k v =>
      match spec_find l k with
      | Some e => (OutValue (Some (e_value e)), max, l, [])
      | None => let '(l', called) := spec_evict size_callback max (Entry k v [] :: l) in (OutValue (Some v), max, l', called)
      end
  | OpPop k =>
      (OutValue (e_value <$> spec_find l k), max, spec_without l k, default [] (e_callbacks <$> spec_find l k))
  | OpDelMulti k =>
      (OutNone, max, spec_remove l (λ e, under k (e_key e)), spec_removed l (λ e, under k (e_key e)))
  | OpClear => (OutNone, max, [], spec_removed l (λ _, true))
  | OpInvalidateExtra i =>
      let hit := λ e, match extra_index_cb with Some f => bool_decide (f (e_key e) (e_value e) = i) | None => false end in
      (OutNone, max, spec_remove l hit, spec_removed l hit)
  | OpContains k => (OutBool (bool_decide (is_Some (spec_find l k))), max, l, [])
  | OpLen => (OutLen (total size_callback l), max, l, [])
  | OpResize n =>
      if n =? max then (OutNone, max, l, [])
      else let '(l', called) := spec_evict size_callback n l in (OutNone, n, l', called)
  end.

Fixpoint spec_ops (max : Z) (l : list lru_entry) (ops : list lru_op) : list (lru_out (V := V) * list nat) * Z * list lru_entry :=
  match ops with
  | [] => ([], max, l)
  | op :: ops =>
      let '(o, max1, l1, called) := spec_op max l op in
      let '(rest, max2, l2) := spec_ops max1 l1 ops in
      ((o, called) :: rest, max2, l2)
  end.

(** Keys are of the right kind, sizes are not negative, and the extra index is used
    only when there is one. *)
Definition op_ok (op : lru_op (K := K) (V := V)) : Prop :=
  match op with
  | OpGet k _ _ | OpSet k _ _ | OpSetDefault k _ | OpPop k | OpContains k => full_key k
  | OpDelMulti k => some_key k
  | OpInvalidateExtra _ => extra_index_cb ≠ None
  | OpResize n => 0 ≤ n
  | OpClear | OpLen => True
  end.

(** The same result, and the same callbacks in some order *)
Definition same_call (a b : lru_out (V := V) * list nat) : Prop := a.1 = b.1 ∧ a.2 ≡ₚ b.2.

Lemma new_lru_spec n :
  ∃ s, new_lru_cache n = Ok s ∧ lru_rep s [] ∧ max_size s = n ∧ lru_called s = [].
Proof using Type.
  clear index_stable. unfold new_lru_cache. destruct (create_root_spec (P := nat) empty_heap) as (h & root & -> & Hd & _).
  { intros x m Hm. cbn in Hm. by rewrite lookup_empty in Hm. }
  cbn [mbind py_bind]. eexists. split; [done|]. split_and!; [|done|done]. destruct store_empty_ok as [Hok Hem]. split.
  - split; cbn; try (by intros x m ?%elem_of_nil); [done|constructor|]. intros x m. by rewrite lookup_empty.
  - split; cbn; [done|]. intros k x. rewrite Hem, lookup_empty. split; [done|]. by intros (m & ?%elem_of_nil & _).
  - done.
  - intros f Ef. cbn. split_and!.
    + intros i k _. rewrite lookup_empty. cbn. split; [set_solver|]. by intros (x & m & ?%elem_of_nil & _).
    + intros i _. apply lookup_empty.
    + intros i. by rewrite lookup_empty.
Qed.

Lemma contains_spec s zs k :
  lru_rep s zs → full_key k → cache_contains s k = Ok (bool_decide (is_Some (spec_find (entries_of zs) k))).
Proof using Type.
  intros Hs Hk. unfold cache_contains. rewrite store_contains_law by (done || apply Hs). f_equal. apply bool_decide_ext.
  destruct (store_map (lru_cache s) !! k) as [x|] eqn:E.
  - destruct (find_some s zs k x Hs E) as (zs1 & n & zs2 & -> & <- & -> & _). split; eauto.
  - destruct (find_none s zs k Hs E) as (_ & -> & _). split; by intros [? ?].
Qed.

Lemma op_spec s zs op :
  lru_rep s zs → 0 ≤ max_size s → op_ok op →
  ∃ o s' zs' called called', run_lru_op size_callback extra_index_cb s op = Ok (o, s') ∧ lru_rep s' zs' ∧ 0 ≤ max_size s' ∧
    lru_called s' = lru_called s ++ called ∧ called ≡ₚ called' ∧
    spec_op (max_size s) (entries_of zs) op = (o, max_size s', entries_of zs', called').
Proof using index_stable.
  intros Hs Hmax Hop. destruct op as [k cs u|k v cs|k v|k|k| |i|k| |n]; cbn [run_lru_op spec_op op_ok] in *.
  - destruct (get_spec s zs k cs u Hs Hop) as (s' & zs' & -> & Hs' & E1 & E2 & E3). eexists _, s', zs', [], [].
    rewrite E1, E2, E3, app_nil_r. by split_and!.
  - destruct (set_spec s zs k v cs Hs Hop Hmax) as (s' & zs' & -> & Hs' & E1 & E2 & E3).
    destruct (spec_set _ _ _ _ _ _) as [l called]. cbn in E2, E3. exists OutNone, s', zs', called, called. rewrite E1, E2. by split_and!.
  - destruct (set_default_spec s zs k v Hs Hop Hmax) as (s' & zs' & r & -> & Hs' & E1 & -> & E2).
    destruct (spec_find _ k) as [e|]; cbn in *.
    + injection E2 as E2 E3. eexists _, s', zs', [], []. rewrite E1, E2, E3, app_nil_r. by split_and!.
    + destruct (spec_evict _ _ _) as [l called]. cbn in E2. injection E2 as E2 E3. eexists _, s', zs', called, called.
      rewrite E1, E2. by split_and!.
  - destruct (pop_key_spec s zs k Hs Hop) as (s' & zs' & -> & Hs' & E1 & E2 & E3). eexists _, s', zs', _, _.
    rewrite E1, E2. by split_and!.
  - destruct (del_multi_spec s zs k Hs Hop) as (s' & zs' & called & -> & Hs' & E1 & E2 & E3 & E4).
    exists OutNone, s', zs', called, (spec_removed (entries_of zs) (λ e, under k (e_key e))). rewrite E1, E2. by split_and!.
  - destruct (clear_spec s zs Hs) as (s' & called & -> & Hs' & E1 & E2 & E3).
    exists OutNone, s', [], called, (spec_removed (entries_of zs) (λ _, true)). rewrite E1. by split_and!.
  - destruct extra_index_cb as [f|] eqn:Ef; [|done].
    destruct (invalidate_spec f s zs i) as (s' & zs' & called & Hr & Hs' & E1 & E2 & E3 & E4); [by rewrite ?Ef|by rewrite ?Ef|].
    eexists OutNone, s', zs', called, _. rewrite ?Ef in Hr. rewrite Hr, E1, E2. by split_and!.
  - rewrite (contains_spec s zs k Hs Hop). eexists _, s, zs, [], []. rewrite app_nil_r. by split_and!.
  - eexists _, s, zs, [], []. rewrite app_nil_r, (cache_len_spec s zs) by apply Hs. by split_and!.
  - destruct (resize_spec s zs n Hs Hop) as (s' & zs' & -> & Hs' & E1 & E2 & E3).
    destruct (n =? max_size s) eqn:E; to_prop.
    + destruct E3 as [-> ->]; [done|]. exists OutNone, s, zs, [], []. rewrite app_nil_r. by split_and!.
    + destruct E2 as [E2 E4]; [done|]. destruct (spec_evict _ _ _) as [l called]. cbn in E2, E4.
      exists OutNone, s', zs', called, called. rewrite E2. split_and!; try done; congruence.
Qed.

Lemma ops_spec ops s zs :
  lru_rep s zs → 0 ≤ max_size s → Forall op_ok ops →
  ∃ outs s' zs', run_lru_ops size_callback extra_index_cb s ops = Ok (outs, s') ∧ lru_rep s' zs' ∧
    ∃ outs', spec_ops (max_size s) (entries_of zs) ops = (outs', max_size s', entries_of zs') ∧ Forall2 same_call outs outs'.
Proof using index_stable.
  revert s zs. induction ops as [|op ops IH]; intros s zs Hs Hmax Hops; cbn [run_lru_ops spec_ops].
  { exists [], s, zs. split_and!; [done|done|]. exists []. split; [done|constructor]. }
  apply Forall_cons in Hops as [Hop Hops].
  destruct (op_spec s zs op Hs Hmax Hop) as (o & s1 & zs1 & called & called' & -> & Hs1 & Hm1 & Ec & Hc & ->).
  cbn [mbind py_bind]. destruct (IH s1 zs1 Hs1 Hm1 Hops) as (outs & s' & zs' & -> & Hs' & outs' & -> & Ho).
  cbn [mbind py_bind]. eexists _, s', zs'. split_and!; [done|done|]. eexists. split; [done|].
  constructor; [|done]. split; [done|]. cbn. by rewrite Ec, drop_app_length.
Qed.

(** The eviction keeps the longest beginning of the list that fits. *)
Lemma spec_evict_prefix max (l : list (lru_entry (K := K) (V := V))) :
  0 ≤ max →
  ∃ n, (spec_evict size_callback max l).1 = take n l ∧ (n ≤ length l)%nat ∧ total size_callback (take n l) ≤ max ∧
    ∀ m, (n < m ≤ length l)%nat → max < total size_callback (take m l).
Proof using Type.
  intros Hmax. induction l as [|e l IH] using rev_ind.
  { exists O. cbn. split_and!; [done|lia|done|]. intros m Hm. lia. }
  rewrite spec_evict_snoc, length_app. cbn [length]. destruct (max <? _) eqn:E; to_prop.
  - destruct IH as (n & -> & Hn & Ht & Hm). exists n. rewrite take_app_le by done. split_and!; [done|lia|done|].
    intros m Hlt. destruct (decide (m ≤ length l)%nat); [rewrite take_app_le by done; apply Hm; lia|].
    by rewrite take_ge by (rewrite length_app; cbn; lia).
  - exists (length l + 1)%nat. rewrite take_ge by (rewrite length_app; cbn; lia). split_and!; [done|lia|done|]. intros m Hm. lia.
Qed.

Section Bounded.
Context (sizes : ∀ f v, size_callback = Some f → 0 ≤ f v).

Lemma entry_size_pos e : 0 ≤ entry_size (K := K) size_callback e.
Proof using sizes. unfold entry_size. destruct size_callback as [f|]; [by apply sizes|lia]. Qed.

Lemma total_filter p (l : list (lru_entry (K := K) (V := V))) :
  total size_callback (List.filter p l) ≤ total size_callback l.
Proof using sizes.
  induction l as [|e l IH]; [done|]. cbn [List.filter]. pose proof (entry_size_pos e).
  destruct (p e); rewrite ?total_cons; lia.
Qed.

Lemma total_found k e (l : list (lru_entry (K := K) (V := V))) :
  spec_find l k = Some e → entry_size size_callback e + total size_callback (spec_without l k) ≤ total size_callback l.
Proof using sizes.
  unfold spec_find, spec_without. induction l as [|x l IH]; [done|]. cbn [List.filter].
  case_bool_decide as E; cbn [negb head]; rewrite ?total_cons.
  - intros [= <-]. pose proof (total_filter (λ e, negb (bool_decide (e_key e = k))) l). lia.
  - intros Hf. apply IH in Hf. lia.
Qed.

Lemma get_total (l : list (lru_entry (K := K) (V := V))) k cs u : NoDup (map e_key l) →
  total size_callback (spec_get l k cs u) ≤ total size_callback l.
Proof using sizes.
  intros Hnd. unfold spec_get. destruct (spec_find l k) as [e|] eqn:Ef; [|done]. destruct u.
  - rewrite total_cons. by apply (total_found k e l) in Ef.
  - revert Ef. unfold spec_find. induction l as [|x l IH]; [done|]. cbn [List.filter map] in *.
    apply NoDup_cons in Hnd as [Hx Hnd]. case_bool_decide as E; rewrite !total_cons.
    + intros [= <-]. rewrite decide_True by done.
      assert (map (λ y, if decide (e_key y = k) then Entry k (e_value x) (foldl add_new (e_callbacks x) cs) else y) l = l) as ->.
      { rewrite <- E in *. clear -Hx. induction l as [|y l IH]; [done|]. cbn in *. apply not_elem_of_cons in Hx as [? Hx].
        rewrite decide_False by done. by rewrite IH. }
      done.
    + intros Hf. rewrite decide_False by done. specialize (IH Hnd Hf). lia.
Qed.

Lemma op_bounded s zs op :
  lru_rep s zs → 0 ≤ max_size s → total size_callback (entries_of zs) ≤ max_size s → op_ok op →
  ∀ o max l called, spec_op (max_size s) (entries_of zs) op = (o, max, l, called) → total size_callback l ≤ max.
Proof using sizes.
  intros Hs Hmax Ht Hop o max l called. assert (NoDup (map e_key (entries_of zs))) as Hnd.
  { unfold entries_of. rewrite List.map_map. apply (lr_keys _ _ (rep_list _ _ Hs)). }
  assert (∀ m (l' : list (lru_entry (K := K) (V := V))) kept c, spec_evict size_callback m l' = (kept, c) → 0 ≤ m → total size_callback kept ≤ m) as Hev.
  { intros m l' kept c E Hm. destruct (spec_evict_prefix m l' Hm) as (n & E1 & _ & ? & _). rewrite E in E1. cbn in E1. by subst. }
  pose proof (λ p, total_filter p (entries_of zs)) as Hf.
  destruct op; cbn [spec_op op_ok] in *; intros Heq.
  - injection Heq as <- <- <- <-. etransitivity; [by apply get_total|done].
  - unfold spec_set in Heq. destruct (spec_evict _ _ _) as [l' c] eqn:E. simplify_eq. by eapply Hev.
  - destruct (spec_find _ _); [by simplify_eq|]. destruct (spec_evict _ _ _) as [l' c] eqn:E. simplify_eq. by eapply Hev.
  - injection Heq as <- <- <- <-. etransitivity; [apply Hf|done].
  - injection Heq as <- <- <- <-. etransitivity; [apply Hf|done].
  - by injection Heq as <- <- <- <-.
  - injection Heq as <- <- <- <-. etransitivity; [apply Hf|done].
  - by injection Heq as <- <- <- <-.
  - by injection Heq as <- <- <- <-.
  - destruct (_ =? _); [by simplify_eq|]. destruct (spec_evict _ _ _) as [l' c] eqn:E. simplify_eq. by eapply Hev.
Qed.

Lemma ops_bounded ops s zs :
  lru_rep s zs → 0 ≤ max_size s → total size_callback (entries_of zs) ≤ max_size s → Forall op_ok ops →
  ∃ outs s', run_lru_ops size_callback extra_index_cb s ops = Ok (outs, s') ∧ cache_len size_callback s' ≤ max_size s'.
Proof using index_stable sizes.
  revert s zs. induction ops as [|op ops IH]; intros s zs Hs Hmax Ht Hops; cbn [run_lru_ops].
  { exists [], s. split; [done|]. rewrite (cache_len_spec s zs) by apply Hs. done. }
  apply Forall_cons in Hops as [Hop Hops].
  destruct (op_spec s zs op Hs Hmax Hop) as (o & s1 & zs1 & called & called' & -> & Hs1 & Hm1 & _ & _ & Hsp).
  cbn [mbind py_bind]. destruct (IH s1 zs1 Hs1 Hm1) as (outs & s' & -> & Hb); [by eapply (op_bounded s zs op)|done|].
  cbn [mbind py_bind]. by eexists _, s'.
Qed.
End Bounded.

(** C24: an LRU cache behaves as a plain list of entries ordered by last use that is
    cut at the end when it is too large.  Whatever sequence of calls is made (get,
    set, setdefault, pop, del_multi, clear, invalidate_on_extra_index, contains, len,
    resize), no call raises, each returns what the list specification says, and runs
    the invalidation callbacks that the specification says, each time in some order.
    The key of the extra index must not change with the value stored. *)
Theorem lru_cache_refines size ops :
  0 ≤ size → Forall op_ok ops →
  ∃ s outs s', new_lru_cache size = Ok s ∧ run_lru_ops size_callback extra_index_cb s ops = Ok (outs, s') ∧
    Forall2 same_call outs (spec_ops size [] ops).1.1.
Proof using index_stable.
  intros Hsize Hops. destruct (new_lru_spec size) as (s & Hn & Hs & Em & _). subst size.
  destruct (ops_spec ops s [] Hs Hsize Hops) as (outs & s' & zs' & Hr & _ & outs' & Hsp & Ho).
  exists s, outs, s'. change (entries_of []) with (@nil (lru_entry (K := K) (V := V))) in Hsp. rewrite Hsp. by split_and!.
Qed.

(** C38: after any sequence of calls the cache is no larger than its maximal size,
    which may have changed on the way, if the key of the extra index does not change with the
    value and no size is negative; the size is the number of entries, or the sum
    of what [size_callback] says when there is one. *)
Theorem lru_cache_bounded size ops :
  (∀ f v, size_callback = Some f → 0 ≤ f v) → 0 ≤ size → Forall op_ok ops →
  ∃ s outs s', new_lru_cache size = Ok s ∧ run_lru_ops size_callback extra_index_cb s ops = Ok (outs, s') ∧
    cache_len size_callback s' ≤ max_size s'.
Proof using index_stable.
  intros Hf Hsize Hops. destruct (new_lru_spec size) as (s & Hn & Hs & Em & _). subst size.
  destruct (ops_bounded Hf ops s [] Hs Hsize Hsize Hops) as (outs & s' & Hr & Hb). by exists s, outs, s'.
Qed.
End Facts.

(** ** Examples *)

(** A cache of numbers in which the size of a value is the value, indexed by the
    parity of the key *)
Definition ex_size : option (Z → Z) := Some Z.abs.
Definition ex_index : option (Z → Z → Z) := Some (λ k _, k mod 2).
Definition ex_ops : list (lru_op (K := Z) (V := Z)) :=
  [OpSet 1 4 [10%nat]; OpSet 2 3 [20%nat]; OpGet 1 [11%nat] true; OpLen; OpSet 3 5 []; OpContains 2; OpSet 1 2 [12%nat];
   OpInvalidateExtra 1; OpSetDefault 5 1; OpPop 5; OpResize 0; OpClear; OpLen].

Example ex_ops_outputs :
  (s ← new_lru_cache (S := gmap Z nat) 10; '(outs, _) ← run_lru_ops ex_size ex_index s ex_ops; Ok outs) =
  Ok [(OutNone, []); (OutNone, []); (OutValue (Some 4), []); (OutLen 7, []); (OutNone, [20%nat]); (OutBool false, []);
      (OutNone, [10%nat; 11%nat]); (OutNone, [12%nat]); (OutValue (Some 1), []); (OutValue (Some 1), []); (OutNone, []);
      (OutNone, []); (OutLen 0, [])].
Proof. vm_compute. reflexivity. Qed.

Lemma lru_cache_refines_witness :
  ∃ s outs s', new_lru_cache (S := gmap Z nat) 10 = Ok s ∧ run_lru_ops ex_size ex_index s ex_ops = Ok (outs, s') ∧
    Forall2 same_call outs (spec_ops (S := gmap Z nat) ex_size ex_index 10 [] ex_ops).1.1.
Proof.
  apply (lru_cache_refines ex_size ex_index).
  - intros f k v v' [= <-]. reflexivity.
  - lia.
  - unfold ex_ops. repeat (apply Forall_cons; split; [first [exact I|unfold ex_index; cbn; congruence|cbn; lia]|]). apply Forall_nil. exact I.
Defined.

Lemma lru_cache_bounded_witness :
  ∃ s outs s', new_lru_cache (S := gmap Z nat) 10 = Ok s ∧ run_lru_ops ex_size ex_index s ex_ops = Ok (outs, s') ∧
    cache_len ex_size s' ≤ max_size s'.
Proof.
  apply (lru_cache_bounded ex_size ex_index).
  - intros f k v v' [= <-]. reflexivity.
  - intros f v [= <-]. lia.
  - lia.
  - unfold ex_ops. repeat (apply Forall_cons; split; [first [exact I|unfold ex_index; cbn; congruence|cbn; lia]|]). apply Forall_nil. exact I.
Defined.

(** When the index key does depend on the value, [set] on a key that is there leaves
    the extra index as it was: invalidating the new index key misses the entry, and
    invalidating the old one takes it out. *)
Example extra_index_stale :
  let index := Some (λ (_ v : Z), v) in
  let run ops := (s ← new_lru_cache (S := gmap Z nat) 10; '(outs, _) ← run_lru_ops None index s ops; Ok (map fst outs)) in
  run [OpSet 1 7 []; OpSet 1 8 []; OpInvalidateExtra 8; OpContains 1; OpInvalidateExtra 7; OpContains 1] =
  Ok [OutNone; OutNone; OutNone; OutBool true; OutNone; OutBool false].
Proof. vm_compute. reflexivity. Qed.

(** [AsyncLruCache.get] returns [None] for a key that is not there, whatever default it is given. *)
Example async_get_ignores_default :
  (s ← new_lru_cache (K := Z) (V := Z) (S := gmap Z nat) 10; '(o, _) ← async_get s 1 (Some 5); Ok o) = Ok None.
Proof. vm_compute. reflexivity. Qed.
