(* ===== verification/TreeCache.v ===== *)
(** * The class [TreeCache] of [synapse/util/caches/treecache.py]

    A store for [LruCache] whose keys are tuples: a tree of dicts, from which
    everything under a partial key can be popped.  Keys are lists of strings and the
    leaves are nodes of the LRU cache.  For keys of one length it satisfies the laws
    of [CacheStore]. *)

From S2P Require Import Prelude PyData LinkedList CacheStore LruCache LruCacheFacts.

Open Scope Z_scope.

(** ** The program *)

Unset Elimination Schemes.
Inductive tree : Type :=
  | Leaf (n : nat)
  | TreeCacheNode (d : list (string * tree)).
Set Elimination Schemes.

Record TreeCache : Type := MkTree { tree_size : Z; tree_root : list (string * tree) }.

Definition new_tree_cache : TreeCache := MkTree 0 [].

(** [iterate_tree_cache_entry] *)
Fixpoint iterate_tree_cache_entry (d : tree) : list nat :=
  match d with
  | Leaf n => [n]
  | TreeCacheNode ch => flat_map (λ x, iterate_tree_cache_entry x.2) ch
  end.

Fixpoint iterate_tree_cache_items (key : list string) (value : tree) : list (list string * nat) :=
  match value with
  | Leaf n => [(key, n)]
  | TreeCacheNode ch => flat_map (λ x, iterate_tree_cache_items (key ++ [x.1]) x.2) ch
  end.

(** The loop of [set] from a node on; only [TreeCacheNode]s are walked through *)
Fixpoint set_in (node : list (string * tree)) (key : list string) (value : nat) : py (list (string * tree)) :=
  match key with
  | [] => Raise IndexError
  | [k] => Ok (dict_set k (Leaf value) node)
  | k :: key' =>
      next ← match dict_get k node with
             | None => Ok []
             | Some (TreeCacheNode next) => Ok next
             | Some (Leaf _) => Raise ValueError
             end;
      next ← set_in next key' value;
      Ok (dict_set k (TreeCacheNode next) node)
  end.
Definition tree_set (t : TreeCache) (key : list string) (value : nat) : py TreeCache :=
  root ← set_in (tree_root t) key value;
  Ok (MkTree (tree_size t + 1) root).

(** The loop of [get]; a leaf has no [get] *)
Fixpoint get_in (node : tree) (key : list string) : py (option tree) :=
  match key, node with
  | [], _ => Raise IndexError
  | _, Leaf _ => Raise AttributeError
  | [k], TreeCacheNode ch => Ok (dict_get k ch)
  | k :: key', TreeCacheNode ch =>
      match dict_get k ch with None => Ok None | Some next => get_in next key' end
  end.
Definition tree_get (t : TreeCache) (key : list string) : py (option tree) := get_in (TreeCacheNode (tree_root t)) key.

Definition tree_contains (t : TreeCache) (key : list string) : py bool :=
  o ← tree_get t key; Ok (bool_decide (is_Some o)).

Definition tree_clear (t : TreeCache) : TreeCache := new_tree_cache.

(** The walk of [pop] down the tree and, for the nodes that became empty, back up *)
Fixpoint pop_in (node : list (string * tree)) (key : list string) : py (option (tree * list (string * tree))) :=
  match key with
  | [] => Raise IndexError
  | [k] => Ok (match dict_get k node with None => None | Some popped => Some (popped, dict_pop k node) end)
  | k :: key' =>
      match dict_get k node with
      | None => Ok None
      | Some (Leaf _) => Raise ValueError
      | Some (TreeCacheNode next) =>
          r ← pop_in next key';
          Ok (match r with
              | None => None
              | Some (popped, []) => Some (popped, dict_pop k node)
              | Some (popped, next') => Some (popped, dict_set k (TreeCacheNode next') node)
              end)
      end
  end.
Definition tree_pop (t : TreeCache) (key : list string) : py (option tree * TreeCache) :=
  r ← pop_in (tree_root t) key;
  Ok (match r with
      | None => (None, t)
      | Some (popped, root) =>
          (Some popped, MkTree (tree_size t - Z.of_nat (length (iterate_tree_cache_entry popped))) root)
      end).

Definition tree_values (t : TreeCache) : list nat := iterate_tree_cache_entry (TreeCacheNode (tree_root t)).
Definition tree_items (t : TreeCache) : list (list string * nat) := iterate_tree_cache_items [] (TreeCacheNode (tree_root t)).

(** What [LruCache] uses of it *)
#[export] Instance tree_store : CacheStore (list string) TreeCache := {
  store_empty := new_tree_cache;
  store_get t k :=
    o ← tree_get t k;
    match o with
    | None => Ok None
    | Some (Leaf n) => Ok (Some n)
    | Some (TreeCacheNode _) => Raise AttributeError
    end;
  store_set := tree_set;
  store_pop t k :=
    '(o, t') ← tree_pop t k;
    Ok (match o with Some popped => iterate_tree_cache_entry popped | None => [] end, t');
  store_len := tree_size;
  store_values := tree_values;
  store_contains := tree_contains;
}.

(** [cache_get_multi] of [LruCache], with the generator run to its end *)
Definition cache_get_multi {V : Type} (s : LruCache (K := list string) (V := V) (S := TreeCache)) (key : list string)
    : py (option (list (list string * V))) :=
  o ← tree_get (lru_cache s) key;
  match o with
  | None => Ok None
  | Some node =>
      l ← py_fold (λ acc '(full_key, x), n ← the_node s x; Ok (acc ++ [(full_key, ln_value n)])) []
            (iterate_tree_cache_items key node);
      Ok (Some l)
  end.

(** ** Facts *)

Lemma tree_ind (P : tree → Prop) :
  (∀ n, P (Leaf n)) → (∀ ch, Forall (λ x, P x.2) ch → P (TreeCacheNode ch)) → ∀ t, P t.
Proof.
  intros Hl Hn. fix go 1. intros [n|ch]; [apply Hl|]. apply Hn. induction ch as [|x ch IH]; constructor; [apply go|exact IH].
Qed.

(** All leaves are [d] steps away, and only the root may be empty. *)
Fixpoint tree_wf (d : nat) (t : tree) : Prop :=
  match d, t with
  | O, Leaf _ => True
  | S d, TreeCacheNode ch =>
      dict_wf ch ∧ ∀ k t', dict_get k ch = Some t' → tree_wf d t' ∧ t' ≠ TreeCacheNode []
  | _, _ => False
  end.

(** The leaf at a full key *)
Fixpoint tree_find (t : tree) (key : list string) : option nat :=
  match key, t with
  | [], Leaf n => Some n
  | k :: key, TreeCacheNode ch => dict_get k ch ≫= λ t', tree_find t' key
  | _, _ => None
  end.

Lemma dict_elem {A} (ch : list (string * A)) k t : dict_wf ch → (k, t) ∈ ch ↔ dict_get k ch = Some t.
Proof. intros Hwf. split; [by apply elem_dict_get|apply dict_get_elem]. Qed.

Lemma items_elem d t pre key n :
  tree_wf d t →
  (key, n) ∈ iterate_tree_cache_items pre t ↔ ∃ key', key = pre ++ key' ∧ tree_find t key' = Some n.
Proof.
  revert t pre. induction d as [|d IH]; intros [m|ch] pre Hwf; cbn in Hwf; try done.
  - cbn. rewrite list_elem_of_singleton. split.
    + intros [= -> ->]. exists []. by rewrite app_nil_r.
    + by intros ([|? ?] & -> & [= ->]); rewrite ?app_nil_r.
  - destruct Hwf as [Hd Hwf]. cbn [iterate_tree_cache_items]. rewrite list_elem_of_In, in_flat_map. split.
    + intros ([k t] & Hin & Hx). cbn in Hx. apply list_elem_of_In in Hin, Hx. apply dict_elem in Hin; [|done].
      apply IH in Hx as (key' & -> & Hf); [|by eapply Hwf]. exists (k :: key'). rewrite <- (assoc_L (++)). split; [done|].
      cbn. by rewrite Hin.
    + intros ([|k key'] & -> & Hf); [done|]. cbn in Hf. destruct (dict_get k ch) as [t|] eqn:Hk; [|done]. cbn in Hf.
      exists (k, t). rewrite <- !list_elem_of_In, dict_elem by done. split; [done|]. cbn. apply IH; [by eapply Hwf|].
      exists key'. by rewrite <- (assoc_L (++)).
Qed.

Lemma items_prefix t : ∀ pre key n, (key, n) ∈ iterate_tree_cache_items pre t → ∃ key', key = pre ++ key'.
Proof.
  induction t as [m|ch IH] using tree_ind; intros pre key n; cbn.
  - rewrite list_elem_of_singleton. intros [= -> ->]. exists []. by rewrite app_nil_r.
  - rewrite list_elem_of_In, in_flat_map. intros ([k t] & Hin & Hx). apply list_elem_of_In in Hin, Hx.
    rewrite Forall_forall in IH. apply (IH _ Hin) in Hx as [key' ->]. eexists. by rewrite <- (assoc_L (++)).
Qed.

Lemma items_NoDup d t pre : tree_wf d t → NoDup (map fst (iterate_tree_cache_items pre t)).
Proof.
  revert t pre. induction d as [|d IH]; intros [m|ch] pre Hwf; cbn in Hwf; try done.
  - cbn. apply NoDup_singleton.
  - destruct Hwf as [Hd Hwf]. assert (∀ k t, (k, t) ∈ ch → tree_wf d t) as Hwf'
      by (intros k t Hin; apply dict_elem in Hin; [by eapply Hwf|done]). clear Hwf.
    cbn. unfold dict_wf, dict_keys in Hd. induction ch as [|[k t] ch IHch]; cbn in *; [constructor|].
    apply NoDup_cons in Hd as [Hk Hd]. rewrite map_app. apply NoDup_app. split_and!.
    + apply IH. apply (Hwf' k). by left.
    + intros key Hin Hin'. apply list_elem_of_fmap in Hin as ([key1 n1] & -> & Hin).
      apply items_prefix in Hin as [key' ->]. cbn in Hin'. apply list_elem_of_fmap in Hin' as ([key2 n2] & Heq & Hin').
      cbn in Heq. subst key2. apply list_elem_of_In, in_flat_map in Hin' as ([k2 t2] & Hin2 & Hx). cbn in Hx.
      apply list_elem_of_In, items_prefix in Hx as [key2 Heq]. rewrite <- !(assoc_L (++)) in Heq.
      apply app_inv_head in Heq as [= <- _]. apply Hk. apply list_elem_of_fmap. exists (k, t2).
      by rewrite list_elem_of_In.
    + apply IHch; [done|]. intros k' t' Hin. apply (Hwf' k'). by right.
Qed.

Lemma leaves_items t : ∀ pre, map snd (iterate_tree_cache_items pre t) = iterate_tree_cache_entry t.
Proof.
  induction t as [m|ch IH] using tree_ind; intros pre; cbn; [done|].
  induction IH as [|[k t] ch Hx _ IH]; cbn; [done|]. cbn in Hx. by rewrite map_app, Hx, IH.
Qed.

Lemma find_length d t key n : tree_wf d t → tree_find t key = Some n → length key = d.
Proof.
  revert t key. induction d as [|d IH]; intros [m|ch] [|k key] Hwf; cbn in *; try done.
  destruct (dict_get k ch) as [t|] eqn:E; [|done]. cbn. intros Hf. f_equal. eapply IH; [|done]. by eapply Hwf.
Qed.

(** *** Dicts in the tree *)

Lemma dict_set_keys {A} k (v : A) d k' : k' ∈ dict_keys (dict_set k v d) ↔ k' = k ∨ k' ∈ dict_keys d.
Proof.
  induction d as [|[k0 v0] d IH]; cbn.
  - rewrite list_elem_of_singleton. split; [by left|]. by intros [?|?%elem_of_nil].
  - case_decide as E; cbn; rewrite !elem_of_cons; [naive_solver|]. fold (dict_keys (dict_set k v d)). rewrite IH.
    unfold dict_keys. tauto.
Qed.

Lemma dict_set_wf {A} k (v : A) d : dict_wf d → dict_wf (dict_set k v d).
Proof.
  unfold dict_wf. induction d as [|[k0 v0] d IH]; cbn; [intros; apply NoDup_singleton|].
  intros [Hk Hd]%NoDup_cons. case_decide as E; cbn; apply NoDup_cons; [done|]. split; [|by apply IH].
  fold (dict_keys (dict_set k v d)). rewrite dict_set_keys. intros [?|?]; [congruence|done].
Qed.

Lemma dict_pop_wf {A} k (d : list (string * A)) : dict_wf d → dict_wf (dict_pop k d).
Proof.
  unfold dict_wf, dict_pop, dict_keys. induction d as [|[k0 v0] d IH]; [done|]. cbn [map fst]. intros [Hk Hd]%NoDup_cons.
  rewrite filter_cons. case_decide; cbn; [|by apply IH]. apply NoDup_cons. split; [|by apply IH].
  intros ([k1 v1] & -> & [_ Hin]%list_elem_of_filter)%list_elem_of_fmap. apply Hk, list_elem_of_fmap. by exists (k1, v1).
Qed.

Lemma dict_set_nonempty {A} k (v : A) d : dict_set k v d ≠ [].
Proof. destruct d as [|[k0 v0] d]; cbn; [done|]. by case_decide. Qed.

Lemma tree_wf_set d ch k t :
  tree_wf (S d) (TreeCacheNode ch) → tree_wf d t → t ≠ TreeCacheNode [] → tree_wf (S d) (TreeCacheNode (dict_set k t ch)).
Proof.
  intros [Hd Hwf] Ht Hne. split; [by apply dict_set_wf|]. intros k' t'. rewrite dict_get_set. case_decide; [|apply Hwf].
  by intros [= <-].
Qed.

Lemma tree_wf_pop d ch k : tree_wf (S d) (TreeCacheNode ch) → tree_wf (S d) (TreeCacheNode (dict_pop k ch)).
Proof.
  intros [Hd Hwf]. split; [by apply dict_pop_wf|]. intros k' t'. rewrite dict_get_pop. case_decide; [done|]. apply Hwf.
Qed.

Lemma tree_find_set ch k t key :
  tree_find (TreeCacheNode (dict_set k t ch)) key =
    match key with k' :: key' => if decide (k' = k) then tree_find t key' else tree_find (TreeCacheNode ch) key | [] => None end.
Proof. destruct key as [|k' key]; [done|]. cbn. rewrite dict_get_set. by case_decide. Qed.

Lemma tree_find_pop ch k key :
  tree_find (TreeCacheNode (dict_pop k ch)) key =
    match key with k' :: key' => if decide (k' = k) then None else tree_find (TreeCacheNode ch) key | [] => None end.
Proof. destruct key as [|k' key]; [done|]. cbn. rewrite dict_get_pop. by case_decide. Qed.

(** *** The operations *)

Lemma get_in_spec d t key :
  tree_wf (S d) t → length key = S d → get_in t key = Ok (Leaf <$> tree_find t key).
Proof.
  revert t key. induction d as [|d IH]; intros [m|ch] [|k [|k2 key]] Hwf Hlen; try done; cbn in Hlen; try lia;
    destruct Hwf as [Hd Hwf].
  - cbn. destruct (dict_get k ch) as [t|] eqn:E; [|done]. destruct (Hwf k t E) as [Ht _]. by destruct t.
  - change (match dict_get k ch with None => Ok None | Some next => get_in next (k2 :: key) end =
      Ok (Leaf <$> (dict_get k ch ≫= λ t', tree_find t' (k2 :: key)))).
    destruct (dict_get k ch) as [t|] eqn:E; [|done]. apply IH; [by eapply Hwf|cbn; lia].
Qed.

Lemma set_in_spec d ch key v :
  tree_wf (S d) (TreeCacheNode ch) → length key = S d →
  ∃ ch', set_in ch key v = Ok ch' ∧ tree_wf (S d) (TreeCacheNode ch') ∧ ch' ≠ [] ∧
    ∀ key', tree_find (TreeCacheNode ch') key' = if decide (key' = key) then Some v else tree_find (TreeCacheNode ch) key'.
Proof.
  revert ch key. induction d as [|d IH]; intros ch [|k [|k2 key]] Hwf Hlen; try done; cbn in Hlen; try lia.
  - exists (dict_set k (Leaf v) ch). split_and!; [done|by apply tree_wf_set|apply dict_set_nonempty|].
    intros key'. rewrite tree_find_set. destruct key' as [|k' key']; [done|].
    destruct (decide (k' = k)) as [->|]; [|by rewrite decide_False by congruence].
    destruct key' as [|k2 key']; [by rewrite decide_True|]. rewrite decide_False by congruence. cbn.
    destruct (dict_get k ch) as [t|] eqn:E; [|done]. destruct Hwf as [_ Hwf]. destruct (Hwf k t E) as [Ht _]. by destruct t.
  - set (next := match dict_get k ch with Some (TreeCacheNode next) => next | _ => [] end).
    assert (tree_wf (S d) (TreeCacheNode next) ∧ set_in ch (k :: k2 :: key) v =
      (n ← set_in next (k2 :: key) v; Ok (dict_set k (TreeCacheNode n) ch)) ∧
      ∀ key', tree_find (TreeCacheNode ch) (k :: key') = tree_find (TreeCacheNode next) key') as (Hn & -> & Hfn).
    { subst next. cbn [set_in tree_find]. destruct (dict_get k ch) as [t|] eqn:E.
      - destruct Hwf as [_ Hwf]. destruct (Hwf k t E) as [Ht _]. destruct t as [|next]; [done|]. by split_and!.
      - cbn [mbind py_bind option_bind]. split_and!; [|done|by intros [|? ?]].
        split; [constructor|by intros]. }
    destruct (IH next (k2 :: key) Hn) as (ch' & -> & Hch' & Hne & Hf); [cbn; lia|]. cbn [mbind py_bind].
    eexists. split_and!; [done| |apply dict_set_nonempty|].
    + apply tree_wf_set; [done|done|]. by intros [= ->].
    + intros key'. rewrite tree_find_set. destruct key' as [|k' key']; [done|].
      destruct (decide (k' = k)) as [->|]; [|by rewrite decide_False by congruence].
      rewrite Hf, Hfn. destruct (decide (key' = k2 :: key)) as [->|]; [by rewrite decide_True|].
      by rewrite decide_False by congruence.
Qed.

Lemma pop_in_spec key d ch :
  tree_wf (S d) (TreeCacheNode ch) → (1 ≤ length key ≤ S d)%nat →
  ∃ r, pop_in ch key = Ok r ∧
    match r with
    | None => ∀ key', tree_find (TreeCacheNode ch) (key ++ key') = None
    | Some (popped, ch') =>
        tree_wf (S d) (TreeCacheNode ch') ∧ tree_wf (S d - length key) popped ∧
        (∀ key', tree_find popped key' = tree_find (TreeCacheNode ch) (key ++ key')) ∧
        ∀ key', tree_find (TreeCacheNode ch') key' =
          if decide (key `prefix_of` key') then None else tree_find (TreeCacheNode ch) key'
    end.
Proof.
  revert d ch. induction key as [|k key IH]; intros d ch Hwf Hlen; [cbn in Hlen; lia|].
  pose proof Hwf as [Hd Hch]. destruct key as [|k2 key].
  - cbn [pop_in]. eexists. split; [done|]. destruct (dict_get k ch) as [t|] eqn:E; [|intros key'; cbn; by rewrite E].
    split_and!; [by apply tree_wf_pop| | |].
    + cbn [length]. replace (S d - 1)%nat with d by lia. by eapply Hch.
    + intros key'. cbn. by rewrite E.
    + intros key'. rewrite tree_find_pop. destruct key' as [|k' key'].
      * rewrite decide_False; [done|]. by intros ?%prefix_nil_not.
      * destruct (decide (k' = k)) as [->|Hne].
        { rewrite decide_True; [done|]. by apply prefix_cons, prefix_nil. }
        rewrite decide_False; [done|]. intros ?%prefix_cons_inv_1. congruence.
  - change (pop_in ch (k :: k2 :: key)) with (match dict_get k ch with None => Ok None | Some (Leaf _) => Raise ValueError
      | Some (TreeCacheNode next) => r ← pop_in next (k2 :: key); Ok (match r with None => None
        | Some (popped, []) => Some (popped, dict_pop k ch)
        | Some (popped, next') => Some (popped, dict_set k (TreeCacheNode next') ch) end) end).
    destruct (dict_get k ch) as [t|] eqn:E; [|exists None; split; [done|]; intros key'; cbn; by rewrite E].
    destruct (Hch k t E) as [Ht _]. cbn [length] in Hlen. destruct d as [|d]; [lia|]. destruct t as [|next]; [done|].
    destruct (IH d next Ht) as (r & -> & Hr); [cbn [length]; lia|]. cbn [mbind py_bind]. eexists. split; [done|].
    destruct r as [[popped next']|]; [|intros key'; cbn [app tree_find]; rewrite E; apply Hr].
    destruct Hr as (H1 & H2 & H3 & H4).
    assert (∀ key', (if decide (k :: k2 :: key `prefix_of` k :: key') then None else tree_find (TreeCacheNode ch) (k :: key')) =
      tree_find (TreeCacheNode next') key') as Hsame.
    { intros key'. rewrite H4. cbn [tree_find]. rewrite E. cbn [mbind option_bind]. apply decide_ext.
      split; [apply prefix_cons_inv_2|apply prefix_cons]. }
    assert (tree_wf (S (S d) - length (k :: k2 :: key)) popped ∧
      ∀ key', tree_find popped key' = tree_find (TreeCacheNode ch) ((k :: k2 :: key) ++ key')) as [Hp1 Hp2].
    { split; [exact H2|]. intros key'. rewrite H3. cbn [app tree_find]. by rewrite E. }
    destruct next' as [|x next']; (split_and!; [|done|done|]).
    + by apply tree_wf_pop.
    + intros [|k' key']; [rewrite decide_False; [done|by intros ?%prefix_nil_not]|]. rewrite tree_find_pop.
      destruct (decide (k' = k)) as [->|]; [rewrite Hsame; by destruct key'|].
      rewrite decide_False; [done|]. intros ?%prefix_cons_inv_1. congruence.
    + by apply tree_wf_set.
    + intros [|k' key']; [rewrite decide_False; [done|by intros ?%prefix_nil_not]|]. rewrite tree_find_set.
      destruct (decide (k' = k)) as [->|]; [by rewrite Hsame|].
      rewrite decide_False; [done|]. intros ?%prefix_cons_inv_1. congruence.
Qed.

(** *** The laws of a store, for keys of length [d + 1] *)

Section Laws.
Context (d : nat).

Definition tree_ok (t : TreeCache) : Prop :=
  tree_wf (S d) (TreeCacheNode (tree_root t)) ∧ tree_size t = Z.of_nat (length (tree_items t)).
Definition tree_map (t : TreeCache) : gmap (list string) nat := list_to_map (tree_items t).

Lemma tree_map_find t key :
  tree_wf (S d) (TreeCacheNode (tree_root t)) → tree_map t !! key = tree_find (TreeCacheNode (tree_root t)) key.
Proof using Type.
  intros Hwf. apply option_eq. intros n. unfold tree_map, tree_items.
  rewrite <- elem_of_list_to_map by by eapply items_NoDup. rewrite items_elem by done. split.
  - by intros (key' & -> & ?).
  - intros Hf. by exists key.
Qed.

Lemma tree_map_items t :
  tree_wf (S d) (TreeCacheNode (tree_root t)) →
  map_to_list (tree_map t) ≡ₚ tree_items t ∧ size (tree_map t) = length (tree_items t).
Proof using Type.
  intros Hwf. pose proof (items_NoDup (S d) _ [] Hwf) as Hnd. split.
  - by apply map_to_list_to_map.
  - by apply map_size_list_to_map.
Qed.

Definition tree_under (p key : list string) : bool := bool_decide (p `prefix_of` key).

(** The leaves of what is popped *)
Lemma popped_leaves t p popped n :
  tree_wf (S d) (TreeCacheNode (tree_root t)) → tree_wf n popped →
  (∀ key, tree_find popped key = tree_find (TreeCacheNode (tree_root t)) (p ++ key)) →
  iterate_tree_cache_entry popped ≡ₚ map snd (map_to_list (filter (λ x, tree_under p x.1 = true) (tree_map t))).
Proof using Type.
  intros Hwf Hpw Hf. rewrite <- (leaves_items popped p). apply Permutation_map. apply NoDup_Permutation.
  - eapply (NoDup_fmap_1 fst). by eapply items_NoDup.
  - apply NoDup_map_to_list.
  - intros [key m]. rewrite (items_elem n) by done. rewrite elem_of_map_to_list, map_lookup_filter_Some, tree_map_find by done.
    cbn. unfold tree_under. rewrite bool_decide_eq_true. split.
    + intros (key' & -> & Hm). rewrite <- Hf. split; [done|]. by exists key'.
    + intros [Hm [key' ->]]. exists key'. by rewrite Hf.
Qed.

Lemma tree_pop_law t p :
  tree_ok t → (1 ≤ length p ≤ S d)%nat →
  ∃ ns t', store_pop t p = Ok (ns, t') ∧ tree_ok t' ∧
    tree_map t' = filter (λ x, tree_under p x.1 = false) (tree_map t) ∧
    ns ≡ₚ map snd (map_to_list (filter (λ x, tree_under p x.1 = true) (tree_map t))).
Proof using Type.
  intros [Hwf Hsize] Hp. cbn [store_pop tree_store]. unfold tree_pop.
  destruct (pop_in_spec p d (tree_root t) Hwf Hp) as (r & -> & Hr). cbn [mbind py_bind].
  destruct r as [[popped root]|]; cbn [mbind py_bind].
  - destruct Hr as (H1 & H2 & H3 & H4). eexists _, _. split; [done|].
    pose proof (popped_leaves t p popped _ Hwf H2 H3) as Hleaves. set (t' := MkTree _ root).
    assert (tree_map t' = filter (λ x, tree_under p x.1 = false) (tree_map t)) as Hmap.
    { apply map_eq. intros key. rewrite tree_map_find by done. change (tree_root t') with root. rewrite H4. apply option_eq. intros m.
      rewrite map_lookup_filter_Some, tree_map_find by done. unfold tree_under. cbn. rewrite bool_decide_eq_false.
      case_decide; naive_solver. }
    split_and!; [|done|done]. split; [done|].
    change (tree_size t') with (tree_size t - Z.of_nat (length (iterate_tree_cache_entry popped))).
    rewrite Hsize, Hleaves, length_map.
    destruct (tree_map_items t Hwf) as [_ <-]. destruct (tree_map_items t' H1) as [_ <-]. rewrite Hmap.
    rewrite length_map_to_list.
    rewrite <- (map_filter_union_complement (λ x : list string * nat, tree_under p x.1 = true) (tree_map t)) at 1.
    rewrite map_size_disj_union by apply map_disjoint_filter_complement.
    assert (filter (λ x : list string * nat, ¬ tree_under p x.1 = true) (tree_map t) =
      filter (λ x, tree_under p x.1 = false) (tree_map t)) as ->; [|lia].
    apply map_filter_ext. intros key m _. cbn. by rewrite not_true_iff_false.
  - eexists _, t. split; [done|].
    assert (∀ key m, tree_map t !! key = Some m → ¬ p `prefix_of` key) as Hnone.
    { intros key m. rewrite tree_map_find by done. intros Hm [key' ->]. by rewrite Hr in Hm. }
    split_and!; [done| |].
    + symmetry. apply map_filter_id. intros key m Hm. cbn. apply bool_decide_eq_false. by eapply Hnone.
    + assert (filter (λ x : list string * nat, tree_under p x.1 = true) (tree_map t) = ∅) as ->; [|by rewrite map_to_list_empty].
      apply map_empty. intros key. apply map_lookup_filter_None. right. intros m Hm. cbn. unfold tree_under.
      rewrite bool_decide_eq_true. by eapply Hnone.
Qed.

Lemma tree_set_law t key n :
  tree_ok t → length key = S d → tree_map t !! key = None →
  ∃ t', tree_set t key n = Ok t' ∧ tree_ok t' ∧ tree_map t' = <[key := n]> (tree_map t).
Proof using Type.
  intros [Hwf Hsize] Hk Hnone. unfold tree_set.
  destruct (set_in_spec d (tree_root t) key n Hwf Hk) as (root & -> & Hr & _ & Hf). cbn [mbind py_bind]. eexists. split; [done|].
  set (t' := MkTree _ root). assert (tree_map t' = <[key := n]> (tree_map t)) as Hmap.
  { apply map_eq. intros key'. rewrite tree_map_find by done. change (tree_root t') with root. rewrite Hf. case_decide as E.
    - subst. by rewrite lookup_insert_eq.
    - by rewrite lookup_insert_ne, tree_map_find by congruence. }
  split; [|done]. split; [done|].
  change (tree_size t') with (tree_size t + 1). rewrite Hsize.
  destruct (tree_map_items t Hwf) as [_ <-]. destruct (tree_map_items t' Hr) as [_ <-].
  rewrite Hmap, map_size_insert_None by done. lia.
Qed.

#[refine] Definition tree_store_laws : CacheStoreLaws (list string) TreeCache := {|
  store_ok := tree_ok;
  store_map := tree_map;
  full_key := λ key, length key = S d;
  some_key := λ key, (1 ≤ length key ≤ S d)%nat;
  under := tree_under;
|}.
Proof using d.
  - intros p k Hp Hk. apply bool_decide_ext. split; [|by intros ->]. intros [l ->]. rewrite length_app in Hk.
    destruct l; [by rewrite app_nil_r|]. cbn in Hk. lia.
  - intros k Hk. lia.
  - intros t k n [Hwf _] Hk. rewrite tree_map_find in Hk by done. by eapply find_length.
  - split; [|done]. split; [|done]. split; [constructor|done].
  - intros t k [Hwf _] Hk. rewrite tree_map_find by done. cbn [store_get tree_store]. unfold tree_get.
    rewrite (get_in_spec d) by done. cbn [mbind py_bind]. by destruct (tree_find _ k).
  - intros t k n Ht Hk Hn. by apply tree_set_law.
  - intros t p Ht Hp. by apply tree_pop_law.
  - intros t [Hwf Hsize]. cbn [store_len tree_store]. rewrite Hsize. by destruct (tree_map_items t Hwf) as [_ <-].
  - intros t [Hwf _]. cbn [store_values tree_store]. unfold tree_values. rewrite <- (leaves_items _ []). destruct (tree_map_items t Hwf) as [-> _]. done.
  - intros t k [Hwf _] Hk. rewrite tree_map_find by done. cbn [store_contains tree_store]. unfold tree_contains, tree_get.
    rewrite (get_in_spec d) by done. cbn [mbind py_bind]. f_equal. apply bool_decide_ext. by rewrite fmap_is_Some.
Defined.

(** *** Partial keys *)

Lemma get_in_part p n t :
  tree_wf (S n) t → (1 ≤ length p ≤ S n)%nat →
  ∃ r, get_in t p = Ok r ∧
    match r with
    | None => ∀ key, tree_find t (p ++ key) = None
    | Some t' => tree_wf (S n - length p) t' ∧ t' ≠ TreeCacheNode [] ∧ ∀ key, tree_find t' key = tree_find t (p ++ key)
    end.
Proof using Type.
  clear d. revert n t. induction p as [|k p IH]; intros n t Hwf Hlen; [cbn in Hlen; lia|].
  destruct t as [|ch]; [done|]. destruct Hwf as [Hd Hch]. destruct p as [|k2 p].
  - exists (dict_get k ch). split; [done|]. destruct (dict_get k ch) as [t|] eqn:E.
    + destruct (Hch k t E) as [Ht Hne]. cbn [length]. replace (S n - 1)%nat with n by lia. split_and!; [done|done|].
      intros key. cbn. by rewrite E.
    + intros key. cbn. by rewrite E.
  - change (get_in (TreeCacheNode ch) (k :: k2 :: p)) with
      (match dict_get k ch with None => Ok None | Some next => get_in next (k2 :: p) end).
    destruct (dict_get k ch) as [t|] eqn:E; [|exists None; split; [done|]; intros key; cbn; by rewrite E].
    destruct (Hch k t E) as [Ht _]. cbn [length] in Hlen. destruct n as [|n]; [lia|].
    destruct (IH n t Ht) as (r & -> & Hr); [cbn [length]; lia|]. exists r. split; [done|].
    cbn [app tree_find]. rewrite E. exact Hr.
Qed.

Lemma items_nonempty n t pre : tree_wf n t → t ≠ TreeCacheNode [] → iterate_tree_cache_items pre t ≠ [].
Proof using Type.
  clear d. revert t pre. induction n as [|n IH]; intros [m|[|[k t] ch]] pre Hwf Hne; cbn in Hwf; try done.
  destruct Hwf as [_ Hch]. cbn in Hch. destruct (Hch k t) as [Ht Hte]; [by rewrite decide_True|].
  cbn. intros [Hnil _]%app_eq_nil. by eapply IH.
Qed.
End Laws.

(** ** [get_multi] *)

Section GetMulti.
Context {V : Type} `{EqDecision V} (d : nat).
#[local] Instance multi_laws : CacheStoreLaws (list string) TreeCache := tree_store_laws d.
Context (size_callback : option (V → Z)) (extra_index_cb : option (list string → V → list string)).

Definition node_item (s : LruCache (K := list string) (V := V) (S := TreeCache)) (x : list string * nat) : list (list string * V) :=
  match lru_nodes s !! x.2 with Some n => [(x.1, ln_value n)] | None => [] end.

Lemma unwrap_spec s l acc :
  (∀ key x, (key, x) ∈ l → is_Some (lru_nodes s !! x)) →
  py_fold (λ acc '(full_key, x), n ← the_node s x; Ok (acc ++ [(full_key, ln_value n)])) acc l = Ok (acc ++ flat_map (node_item s) l).
Proof using Type.
  revert acc. induction l as [|[key x] l IH]; intros acc Hl; cbn [py_fold flat_map]; [by rewrite app_nil_r|].
  destruct (Hl key x) as [n Hn]; [by left|].
  assert (the_node s x = Ok n) as -> by (unfold the_node; by rewrite Hn). cbn [mbind py_bind].
  rewrite IH by (intros; eapply Hl; by right).
  assert (node_item s (key, x) = [(key, ln_value n)]) as -> by (unfold node_item; cbn; by rewrite Hn). by rewrite <- (assoc_L (++)).
Qed.

Lemma part_nodes s zs p items :
  lru_rep size_callback extra_index_cb s zs → NoDup (map fst items) →
  (∀ key x, (key, x) ∈ items ↔ p `prefix_of` key ∧ tree_map (lru_cache s) !! key = Some x) →
  flat_map (node_item s) items ≡ₚ
    map (λ e, (e_key e, e_value e)) (List.filter (λ e, tree_under p (e_key e)) (entries_of zs)) ∧
  ∀ key x, (key, x) ∈ items → is_Some (lru_nodes s !! x).
Proof using Type.
  intros [Hl Hst _ _] Hnd Hin. set (part := List.filter (λ z, tree_under p (ln_key z.2)) zs).
  assert (∀ z, z ∈ part ↔ z ∈ zs ∧ p `prefix_of` ln_key z.2) as Hpart.
  { intros z. subst part. rewrite list_elem_of_In, List.filter_In, <- list_elem_of_In. unfold tree_under. by rewrite bool_decide_eq_true. }
  assert (items ≡ₚ map (λ z, (ln_key z.2, z.1)) part) as Hitems.
  { apply NoDup_Permutation; [by eapply (NoDup_fmap_1 fst)| |].
    - apply NoDup_fmap_2_strong; [|].
      + intros z z' [Hz _]%Hpart [Hz' _]%Hpart [= Hk _]. by eapply rep_keys_inj.
      + subst part. apply NoDup_ListNoDup. apply List.NoDup_filter, NoDup_ListNoDup.
        eapply (NoDup_fmap_1 fst), rep_ids. done.
    - intros [key x]. rewrite Hin, list_elem_of_fmap. rewrite (sr_map _ _ Hst : ∀ k y, tree_map _ !! k = Some y ↔ _). split.
      + intros [Hp (n & Hn & <-)]. exists (x, n). split; [done|]. by apply Hpart.
      + intros ([y n] & [= -> ->] & [Hz Hp]%Hpart). split; [done|]. by exists n. }
  assert (∀ x n, (x, n) ∈ part → lru_nodes s !! x = Some n) as Hnodes
    by (intros x n [Hz _]%Hpart; by apply (lr_nodes _ _ Hl)).
  split.
  - rewrite <- (entries_filter (λ e, tree_under p (e_key e)) zs). cbn [e_key node_entry]. fold part. rewrite Hitems.
    clear -Hnodes. unfold entries_of. rewrite List.map_map. induction part as [|[x n] part IH]; [done|]. cbn [map flat_map].
    unfold node_item at 1. cbn [fst snd]. rewrite (Hnodes x n) by by left. cbn [app]. constructor.
    apply IH. intros y m Hy. apply Hnodes. by right.
  - intros key x Hx. rewrite Hitems in Hx. apply list_elem_of_fmap in Hx as ([y n] & [= -> ->] & Hy). eauto.
Qed.

Lemma get_multi_rep s zs p :
  lru_rep size_callback extra_index_cb s zs → (1 ≤ length p ≤ S d)%nat →
  ∃ r, cache_get_multi s p = Ok r ∧
    default [] r ≡ₚ map (λ e, (e_key e, e_value e)) (List.filter (λ e, tree_under p (e_key e)) (entries_of zs)) ∧
    (r = None ↔ List.filter (λ e, tree_under p (e_key e)) (entries_of zs) = []).
Proof using Type.
  intros Hs Hp. destruct (sr_ok _ _ (rep_store _ _ _ _ Hs)) as [Hwf _].
  unfold cache_get_multi, tree_get. destruct (get_in_part p d _ Hwf Hp) as (r & -> & Hr). cbn [mbind py_bind].
  destruct r as [t|].
  - destruct Hr as (Ht & Hne & Hf). pose proof (items_nonempty _ t p Ht Hne) as Hitems.
    destruct (part_nodes s zs p (iterate_tree_cache_items p t)) as [Hperm Hsome]; [done|by eapply items_NoDup| |].
    { intros key x. rewrite (items_elem _ t p key x Ht), (tree_map_find d) by done. split.
      - intros (key' & -> & Hx). rewrite <- Hf. split; [by exists key'|done].
      - intros [[key' ->] Hx]. exists key'. by rewrite Hf. }
    rewrite (unwrap_spec s _ [] Hsome). cbn [mbind py_bind]. eexists. split; [done|]. split; [done|]. split; [done|].
    intros Hnil. rewrite Hnil in Hperm. apply Permutation_nil_r in Hperm.
    destruct (iterate_tree_cache_items p t) as [|[key x] l]; [done|]. cbn in Hperm. unfold node_item in Hperm. cbn in Hperm.
    destruct (Hsome key x) as [n Hn]; [by left|]. by rewrite Hn in Hperm.
  - destruct (part_nodes s zs p []) as [Hperm _]; [done|constructor| |].
    { intros key x. split; [by intros ?%elem_of_nil|]. intros [[key' ->] Hx]. rewrite (tree_map_find d), Hr in Hx by done. done. }
    exists None. split; [done|]. cbn in Hperm. split; [done|]. split; [|done]. intros _.
    apply Permutation_nil_l in Hperm. by eapply map_eq_nil.
Qed.

(** on a cache over a tree, [get_multi] of a key or of a part of one returns the
    entries whose keys begin with it, whatever calls were made before, and [None]
    if there are none. *)
Theorem get_multi_entries size ops p :
  (∀ f k v v', extra_index_cb = Some f → f k v = f k v') → 0 ≤ size → Forall (op_ok extra_index_cb) ops →
  (1 ≤ length p ≤ S d)%nat →
  ∃ s outs s' r, new_lru_cache size = Ok s ∧ run_lru_ops size_callback extra_index_cb s ops = Ok (outs, s') ∧
    cache_get_multi s' p = Ok r ∧
    let hits := List.filter (λ e, tree_under p (e_key e)) (spec_ops size_callback extra_index_cb size [] ops).2 in
    default [] r ≡ₚ map (λ e, (e_key e, e_value e)) hits ∧ (r = None ↔ hits = []).
Proof using Type.
  intros Hix Hsize Hops Hp. destruct (new_lru_spec size_callback extra_index_cb size) as (s & Hn & Hs & Em & _). subst size.
  destruct (ops_spec size_callback extra_index_cb Hix ops s [] Hs Hsize Hops) as (outs & s' & zs' & Hr & Hs' & outs' & Hsp & _).
  destruct (get_multi_rep s' zs' p Hs' Hp) as (r & Hg & H1 & H2). exists s, outs, s', r. split_and!; [done|done|done|].
  change (entries_of []) with (@nil (lru_entry (K := list string) (V := V))) in Hsp. by rewrite Hsp.
Qed.
End GetMulti.

(** The example of the documentation of [get_multi] *)
Definition ex_tree_ops : list (lru_op (K := list string) (V := string)) :=
  [OpSet ["1"; "1"]%string "a"%string []; OpSet ["1"; "2"]%string "b"%string []; OpSet ["2"; "1"]%string "c"%string [7%nat]].

Lemma get_multi_entries_witness :
  ∃ s outs s' r, new_lru_cache (S := TreeCache) 10 = Ok s ∧ run_lru_ops None None s ex_tree_ops = Ok (outs, s') ∧
    cache_get_multi s' ["1"%string] = Ok r ∧
    let hits := List.filter (λ e, tree_under ["1"%string] (e_key e))
                  (spec_ops (CacheStoreLaws0 := tree_store_laws 1) None None 10 [] ex_tree_ops).2 in
    default [] r ≡ₚ map (λ e, (e_key e, e_value e)) hits ∧ (r = None ↔ hits = []).
Proof.
  apply (get_multi_entries 1 None None); [done|lia| |cbn; lia].
  unfold ex_tree_ops. repeat (apply Forall_cons; split; [reflexivity|]). apply Forall_nil. exact I.
Defined.

Example get_multi_doc :
  (s ← new_lru_cache (S := TreeCache) 10; '(_, s) ← run_lru_ops None None s ex_tree_ops; cache_get_multi s ["1"%string]) =
  Ok (Some [(["1"; "1"], "a"); (["1"; "2"], "b")])%string.
Proof. vm_compute. reflexivity. Qed.

(** Deleting everything under a partial key runs the callbacks of what was there. *)
Example del_multi_subtree :
  (s ← new_lru_cache (S := TreeCache) 10;
   '(outs, _) ← run_lru_ops None None s (ex_tree_ops ++ [OpDelMulti ["2"%string]; OpLen; OpContains ["1"; "2"]%string]); Ok (drop 3 outs)) =
  Ok [(OutNone, [7%nat]); (OutLen 2, []); (OutBool true, [])].
Proof. vm_compute. reflexivity. Qed.

(** [set] counts a key that is there already a second time ([LruCache] never sets one). *)
Example tree_size_counts_twice :
  (t ← tree_set new_tree_cache ["k"%string] 1; t ← tree_set t ["k"%string] 2; Ok (tree_size t, length (tree_items t))) = Ok (2, 1%nat).
Proof. vm_compute. reflexivity. Qed.
