(* ===== verification/IterUtils.v ===== *)
(** * Iteration helpers

    [synapse/util/iterutils.py]: splitting into batches, partitioning, and the
    topological order in which events are persisted.  [sorted_topologically] counts,
    for each node, the edges that still wait; it is shown to give the order of
    [TopoSort], which keeps the sets of these edges. *)

From S2P Require Import Prelude TopoSort.

Open Scope Z_scope.

(** ** Batches *)

(** [batch_iter]: [islice] until it gives nothing; every batch takes something if
    the size is not 0, so that the length is fuel enough *)
Fixpoint batch_loop {A} (fuel : nat) (size : nat) (l : list A) : list (list A) :=
  match fuel with
  | O => []
  | S fuel => match take size l with [] => [] | b => b :: batch_loop fuel size (drop size l) end
  end.
Definition batch_iter {A} (l : list A) (size : nat) : list (list A) := batch_loop (length l) size l.

(** [chunk_seq]: slices at the multiples of [maxlen]; a [range] of step 0 raises *)
Definition chunk_seq {A} (l : list A) (maxlen : nat) : py (list (list A)) :=
  raise_if (bool_decide (maxlen = 0%nat)) ValueError ;;
  Ok (map (λ i, take maxlen (drop (i * maxlen) l)) (seq 0 ((length l + (maxlen - 1)) / maxlen))).

Definition partition {A} (l : list A) (predicate : A → bool) : list A * list A :=
  (List.filter predicate l, List.filter (λ x, negb (predicate x)) l).

(** ** [sorted_topologically] *)

(** The loop over the edges of a node *)
Definition st_edge (node : string) (s : gmap string Z * graph) (edge : string) : gmap string Z * graph :=
  let '(degree_map, rev) := s in
  (if decide (edge ∈ dom degree_map) then <[node := default 0 (degree_map !! node) + 1]> degree_map else degree_map,
   add_reverse node rev edge).

Definition st_node (s : gmap string Z * graph) (p : string * list string) : gmap string Z * graph :=
  if decide (p.1 ∈ dom s.1) then
    let '(degree_map, rev) := foldl (st_edge p.1) s (elements (list_to_set p.2 : gset string)) in
    (degree_map, <[p.1 := default ∅ (rev !! p.1)]> rev)
  else s.

Definition st_degrees (nodes : list string) (g : gmap string (list string)) : gmap string Z * graph :=
  foldl st_node (list_to_map (map (λ n, (n, 0)) nodes), ∅) (map_to_list g).

(** [for edge in reverse_graph.get(node, [])] *)
Definition st_visit (s : gmap string Z * list string) (edge : string) : gmap string Z * list string :=
  let '(degree_map, heap) := s in
  match degree_map !! edge with
  | None => s
  | Some d =>
      (<[edge := d - 1]> degree_map, if d - 1 =? 0 then insert_sorted String.leb edge heap else heap)
  end.

Fixpoint st_loop (rev : graph) (fuel : nat) (degree_map : gmap string Z) (zero_degree : list string) : option (list string) :=
  match zero_degree with
  | [] => Some []
  | node :: zero_degree =>
      match fuel with
      | O => None
      | S fuel =>
          let '(degree_map, zero_degree) :=
            foldl st_visit (degree_map, zero_degree) (elements (default ∅ (rev !! node))) in
          (node ::.) <$> st_loop rev fuel degree_map zero_degree
      end
  end.

Definition sorted_topologically (nodes : list string) (g : gmap string (list string)) : option (list string) :=
  let '(degree_map, rev) := st_degrees nodes g in
  st_loop rev (size degree_map) degree_map
    (py_sorted String.leb (map fst (List.filter (λ p, p.2 =? 0) (map_to_list degree_map)))).

(** ** Facts: batches *)

Lemma batch_loop_concat {A} fuel size (l : list A) :
  (0 < size)%nat → (length l ≤ fuel)%nat →
  concat (batch_loop fuel size l) = l ∧ Forall (λ b, (0 < length b ≤ size)%nat) (batch_loop fuel size l).
Proof.
  intros Hs. revert l. induction fuel as [|fuel IH]; intros l Hl; cbn [batch_loop].
  { destruct l; [by split|cbn in Hl; lia]. }
  destruct (take size l) as [|x b] eqn:E.
  { destruct l; [by split|]. destruct size; [lia|]. done. }
  destruct (IH (drop size l)) as [IH1 IH2].
  { rewrite length_drop. lia. }
  split.
  - cbn [concat]. rewrite IH1, <- E. apply take_drop.
  - constructor; [|done]. rewrite <- E, length_take. assert (length (take size l) = S (length b)) as Hlen by by rewrite E.
    rewrite length_take in Hlen. lia.
Qed.

(** The batches are not empty, not too long, and together the list. *)
Lemma batch_iter_spec {A} (l : list A) size :
  (0 < size)%nat →
  concat (batch_iter l size) = l ∧ Forall (λ b, (0 < length b ≤ size)%nat) (batch_iter l size).
Proof. intros Hs. by apply batch_loop_concat. Qed.

Lemma slices_concat {A} (l : list A) m n :
  concat (map (λ i, take m (drop (i * m) l)) (seq 0 n)) = take (n * m) l.
Proof.
  induction n as [|n IH]; [done|]. rewrite seq_S, map_app, concat_app, IH. cbn [map concat]. rewrite app_nil_r, Nat.add_0_l.
  replace (S n * m)%nat with (n * m + m)%nat by lia. by rewrite take_take_drop.
Qed.

Lemma chunk_seq_spec {A} (l : list A) m : (0 < m)%nat → ∃ chunks, chunk_seq l m = Ok chunks ∧ concat chunks = l.
Proof.
  intros Hm. unfold chunk_seq. rewrite bool_decide_eq_false_2 by lia. eexists. split; [done|]. rewrite slices_concat. apply take_ge.
  pose proof (Nat.div_mod_eq (length l + (m - 1)) m). pose proof (Nat.mod_upper_bound (length l + (m - 1)) m). nia.
Qed.

(** ** Facts: the topological order *)

(** The edges between the nodes *)
Definition restrict (nodes : list string) (g : gmap string (list string)) : graph :=
  list_to_map (map (λ n, (n, list_to_set (default [] (g !! n)) ∩ list_to_set nodes)) nodes).

Lemma restrict_lookup nodes g n :
  restrict nodes g !! n = if decide (n ∈ nodes) then Some (list_to_set (default [] (g !! n)) ∩ list_to_set nodes) else None.
Proof.
  unfold restrict. generalize (list_to_set nodes : gset string) as ns. intros ns.
  induction nodes as [|m nodes IH]; cbn; [by rewrite decide_False by apply not_elem_of_nil|].
  destruct (decide (n = m)) as [->|Hne].
  - rewrite lookup_insert_eq, decide_True by by left. done.
  - rewrite lookup_insert_ne, IH by done. apply decide_ext. rewrite elem_of_cons. naive_solver.
Qed.

Abbreviation sentry := (entry (λ n : string, n)).
Abbreviation sentry_leb := (entry_leb String.leb).

Lemma sentry_leb_id a b : sentry_leb (sentry a) (sentry b) = String.leb a b.
Proof.
  unfold entry_leb, pair_leb, entry. cbn. destruct (String.leb a b) eqn:E; [|done]. cbn. by rewrite orb_true_r.
Qed.

Lemma insert_sentry a l : map sentry (insert_sorted String.leb a l) = insert_sorted sentry_leb (sentry a) (map sentry l).
Proof.
  induction l as [|b l IH]; [done|]. cbn [insert_sorted map]. rewrite sentry_leb_id. destruct (String.leb a b); [done|].
  cbn [map]. by rewrite IH.
Qed.

Lemma sorted_sentry l : map sentry (py_sorted String.leb l) = py_sorted sentry_leb (map sentry l).
Proof. unfold py_sorted. induction l as [|a l IH]; [done|]. cbn [foldr map]. by rewrite insert_sentry, IH. Qed.

(** The degrees and the reversed graph after the first loop *)
Lemma st_edges node es degree_map rev degree_map' rev' :
  NoDup es → node ∈ dom degree_map → foldl (st_edge node) (degree_map, rev) es = (degree_map', rev') →
  dom degree_map' = dom degree_map ∧
  (∀ n, default 0 (degree_map' !! n) =
     if decide (n = node) then default 0 (degree_map !! n) + Z.of_nat (length (filter (.∈ dom degree_map) es)) else default 0 (degree_map !! n)) ∧
  rev' = foldl (add_reverse node) rev es.
Proof.
  revert degree_map rev. induction es as [|e es IH]; intros degree_map rev Hnd Hnode Heq; cbn [foldl] in Heq.
  { injection Heq as <- <-. split_and!; [done| |done]. intros n. case_decide; [cbn|done]. lia. }
  apply NoDup_cons in Hnd as [_ Hnd]. unfold st_edge at 2 in Heq. apply IH in Heq as (H1 & H2 & H3); [|done|case_decide; set_solver].
  assert (dom (if decide (e ∈ dom degree_map) then <[node := default 0 (degree_map !! node) + 1]> degree_map else degree_map)
    = dom degree_map) as Hdom by (case_decide; set_solver). rewrite Hdom in H1, H2.
  split_and!; [done| |done]. intros n. rewrite H2, filter_cons. destruct (decide (n = node)) as [->|Hne].
  - case_decide; [rewrite lookup_insert_eq; cbn|]; lia.
  - case_decide; [by rewrite lookup_insert_ne|done].
Qed.

Lemma filter_size (X D : gset string) : length (filter (.∈ D) (elements X)) = size (X ∩ D).
Proof.
  unfold size, set_size. cbn. apply Permutation_length. apply NoDup_Permutation.
  - apply NoDup_filter, NoDup_elements.
  - apply NoDup_elements.
  - intros x. rewrite list_elem_of_filter, !elem_of_elements, elem_of_intersection. tauto.
Qed.

Lemma st_nodes gl degree_map rev degree_map' rev' :
  NoDup gl.*1 → foldl st_node (degree_map, rev) gl = (degree_map', rev') →
  dom degree_map' = dom degree_map ∧
  (∀ n, default 0 (degree_map' !! n) = default 0 (degree_map !! n) +
     if decide (n ∈ dom degree_map) then
       Z.of_nat (size (list_to_set (default [] (list_to_map (M := gmap string (list string)) gl !! n)) ∩ dom degree_map))
     else 0) ∧
  ∀ n p, p ∈ default ∅ (rev' !! n) ↔
    p ∈ default ∅ (rev !! n) ∨ p ∈ dom degree_map ∧ ∃ es, (p, es) ∈ gl ∧ n ∈ es.
Proof.
  revert degree_map rev. induction gl as [|[q es] gl IH]; intros degree_map rev Hnd Heq; cbn [foldl] in Heq.
  { injection Heq as <- <-. split_and!; [done| |].
    - intros n. cbn. rewrite lookup_empty. cbn.
      replace (size ((∅ : gset string) ∩ dom degree_map)) with O; [case_decide; lia|].
      symmetry. apply size_empty_iff. set_solver.
    - intros n p. split; [by left|]. by intros [?|[_ (es & ?%elem_of_nil & _)]]. }
  cbn in Hnd. apply NoDup_cons in Hnd as [Hq Hnd]. unfold st_node at 2 in Heq. cbn [fst snd] in Heq. cbn [list_to_map foldr].
  assert (list_to_map (M := gmap string (list string)) gl !! q = None) as Hnone by by apply not_elem_of_list_to_map_1.
  destruct (decide (q ∈ dom degree_map)) as [Hin|Hin].
  - destruct (foldl (st_edge q) (degree_map, rev) (elements (list_to_set es : gset string))) as [deg1 rev1] eqn:Ee.
    apply st_edges in Ee as (E1 & E2 & E3); [|apply NoDup_elements|done].
    apply IH in Heq as (H1 & H2 & H3); [|done]. rewrite E1 in H1, H2. split_and!; [done| |].
    + intros n. rewrite H2, E2, filter_size. destruct (decide (n = q)) as [->|Hne].
      * rewrite Hnone. cbn. rewrite lookup_insert_eq. cbn. rewrite !decide_True by done.
        replace (size ((∅ : gset string) ∩ dom degree_map)) with O; [lia|]. symmetry. apply size_empty_iff. set_solver.
      * by rewrite lookup_insert_ne.
    + intros n p. rewrite H3. setoid_rewrite elem_of_cons.
      assert (p ∈ default ∅ (<[q := default ∅ (rev1 !! q)]> rev1 !! n) ↔ p ∈ default ∅ (rev !! n) ∨ (p = q ∧ n ∈ es)) as ->.
      { assert (default ∅ (<[q := default ∅ (rev1 !! q)]> rev1 !! n) = default ∅ (rev1 !! n)) as ->.
        { destruct (decide (n = q)) as [->|]; [by rewrite lookup_insert_eq|by rewrite lookup_insert_ne]. }
        rewrite E3, (lookup_foldl_add_reverse String.leb (λ n, n)), elem_of_union. case_decide as Hn; rewrite elem_of_elements, elem_of_list_to_set in Hn.
        - rewrite elem_of_singleton. naive_solver.
        - rewrite elem_of_empty. naive_solver. }
      rewrite E1. naive_solver.
  - apply IH in Heq as (H1 & H2 & H3); [|done]. split_and!; [done| |].
    + intros n. rewrite H2. destruct (decide (n = q)) as [->|Hne]; [by rewrite !(decide_False (P := q ∈ _))|].
      by rewrite lookup_insert_ne.
    + intros n p. rewrite H3. setoid_rewrite elem_of_cons. naive_solver.
Qed.

Lemma st_degrees_spec nodes g degree_map rev :
  st_degrees nodes g = (degree_map, rev) →
  dom degree_map = list_to_set nodes ∧
  (∀ n es, restrict nodes g !! n = Some es → degree_map !! n = Some (Z.of_nat (size es))) ∧
  ∀ n, n ∈ nodes → default ∅ (rev !! n) = default ∅ (reverse_graph (restrict nodes g) !! n).
Proof.
  unfold st_degrees. intros Heq. apply st_nodes in Heq as (H1 & H2 & H3); [|apply NoDup_fst_map_to_list].
  set (deg0 := list_to_map (map (λ n, (n, 0)) nodes) : gmap string Z) in *.
  assert (dom deg0 = list_to_set nodes) as Hdom.
  { subst deg0. rewrite dom_list_to_map_L. f_equal. clear. induction nodes as [|n nodes IH]; [done|]. cbn. by rewrite IH. }
  assert (∀ n, default 0 (deg0 !! n) = 0) as Hzero.
  { intros n. subst deg0. clear. induction nodes as [|m nodes IH]; [cbn; by rewrite lookup_empty|]. cbn.
    destruct (decide (n = m)) as [->|]; [by rewrite lookup_insert_eq|by rewrite lookup_insert_ne]. }
  rewrite list_to_map_to_list in H2. rewrite Hdom in H1, H2, H3. split_and!; [done| |].
  - intros n es. rewrite restrict_lookup. case_decide as Hn; [|done]. intros [= <-].
    specialize (H2 n). rewrite decide_True in H2 by by apply elem_of_list_to_set.
    assert (is_Some (degree_map !! n)) as [d Hd]
      by (apply elem_of_dom; rewrite H1; by apply elem_of_list_to_set).
    rewrite Hd in H2 |- *. cbn in H2. f_equal. rewrite H2, Hzero. lia.
  - intros n Hn. apply set_eq. intros p. rewrite H3, (lookup_reverse_graph String.leb (λ n, n)), lookup_empty. cbn.
    setoid_rewrite restrict_lookup. setoid_rewrite elem_of_map_to_list. rewrite elem_of_list_to_set. split.
    + intros [?%elem_of_empty|[Hp (es & Hes & Hin)]]; [done|]. rewrite decide_True by done. eexists. split; [done|].
      rewrite Hes. cbn. rewrite elem_of_intersection, !elem_of_list_to_set. done.
    + intros (es & Hes & Hin). right. case_decide as Hp; [|done]. injection Hes as <-.
      rewrite elem_of_intersection, !elem_of_list_to_set in Hin. destruct Hin as [Hin _].
      destruct (g !! p) as [l|] eqn:E; [|by apply elem_of_nil in Hin]. eauto.
Qed.

(** Visiting the parents of a node counts down by one, where [TopoSort] takes the
    node out of the set. *)
Definition counts (degree_map : gmap string Z) (out : graph) (nodes : list string) : Prop :=
  ∀ n, n ∈ nodes → degree_map !! n = Some (Z.of_nat (size (default ∅ (out !! n)))).

Lemma visit_sim nodes node ps degree_map out heap :
  counts degree_map out nodes → NoDup ps → (∀ p, p ∈ ps → p ∈ nodes ∧ node ∈ default ∅ (out !! p)) →
  let '(degree_map', heap1) := foldl st_visit (degree_map, heap) ps in
  let '(out', heap2) := foldl (visit_parent String.leb (λ n, n) node) (out, map sentry heap) ps in
  counts degree_map' out' nodes ∧ map sentry heap1 = heap2.
Proof.
  revert degree_map out heap. induction ps as [|p ps IH]; intros degree_map out heap Hc Hnd Hps; cbn [foldl]; [done|].
  apply NoDup_cons in Hnd as [Hp Hnd]. destruct (Hps p) as [Hpn Hin]; [by left|].
  unfold st_visit at 2, visit_parent at 2. rewrite (Hc p Hpn).
  set (o := default ∅ (out !! p)) in *.
  assert (Z.of_nat (size o) - 1 = Z.of_nat (size (o ∖ {[node]}))) as Hsize.
  { rewrite size_difference by set_solver. rewrite size_singleton.
    assert (size o ≠ 0%nat) by (intros ?%size_empty_iff; set_solver). lia. }
  rewrite Hsize.
  assert ((Z.of_nat (size (o ∖ {[node]})) =? 0) = bool_decide (o ∖ {[node]} = ∅)) as Hz.
  { apply eq_true_iff_eq. rewrite Z.eqb_eq, bool_decide_eq_true, <- leibniz_equiv_iff, <- size_empty_iff. lia. }
  rewrite Hz.
  assert (map sentry (if bool_decide (o ∖ {[node]} = ∅) then insert_sorted String.leb p heap else heap) =
    (if decide (o ∖ {[node]} = ∅) then insert_sorted sentry_leb (sentry p) (map sentry heap) else map sentry heap)) as <-.
  { case_bool_decide; case_decide; try done. apply insert_sentry. }
  apply IH.
  - intros n Hn. destruct (decide (n = p)) as [->|Hne]; [by rewrite !lookup_insert_eq|].
    rewrite !lookup_insert_ne by done. by apply Hc.
  - done.
  - intros q Hq. destruct (Hps q) as [? ?]; [by right|]. rewrite lookup_insert_ne by congruence. done.
Qed.

Lemma st_loop_sim nodes g rev fuel degree_map out D heap :
  (∀ n, n ∈ nodes → default ∅ (rev !! n) = default ∅ (reverse_graph (restrict nodes g) !! n)) →
  counts degree_map out nodes → loop_inv String.leb (λ n, n) (restrict nodes g) D out (map sentry heap) →
  st_loop rev fuel degree_map heap = topo_loop String.leb (λ n, n) (reverse_graph (restrict nodes g)) fuel out (map sentry heap).
Proof.
  intros Hrev. revert degree_map out D heap. induction fuel as [|fuel IH]; intros degree_map out D [|node heap] Hc Hinv; try done.
  cbn [st_loop topo_loop map]. unfold entry at 1.
  pose proof (step_inv String.leb (λ n, n) _ D out node node (map sentry heap) Hinv) as Hst.
  assert (node ∈ nodes) as Hnode.
  { destruct (proj1 (inv_heap _ _ _ _ _ _ Hinv (node, node))) as (n & [= <-] & es & Hes & _); [by left|]. rewrite restrict_lookup in Hes.
    by case_decide. }
  rewrite (Hrev node Hnode). set (ps := elements _) in *.
  assert (∀ p, p ∈ ps → p ∈ nodes ∧ node ∈ default ∅ (out !! p)) as Hps.
  { intros p Hp. subst ps. apply elem_of_elements, (lookup_reverse_graph String.leb (λ n, n)) in Hp as (es & Hes & Hin).
    rewrite (inv_out _ _ _ _ _ _ Hinv p es Hes). split; [rewrite restrict_lookup in Hes; by case_decide|].
    apply elem_of_difference. split; [done|].
    destruct (proj1 (inv_heap _ _ _ _ _ _ Hinv (node, node))) as (n & [= <-] & _ & _ & HD & _); [by left|done]. }
  pose proof (visit_sim nodes node ps degree_map out heap Hc (NoDup_elements _) Hps) as Hv.
  destruct (foldl st_visit _ _) as [degree_map' heap1]. destruct (foldl (visit_parent _ _ _) _ _) as [out' heap2].
  destruct Hv as [Hc' <-]. destruct Hst as (_ & _ & Hinv'). f_equal. by eapply IH.
Qed.

Lemma NoDup_map_filter {A} (f : string * A → bool) l : NoDup l.*1 → NoDup (map fst (List.filter f l)).
Proof.
  induction l as [|x l IH]; cbn; [done|]. intros [Hx Hl]%NoDup_cons. destruct (f x); cbn; [|auto]. apply NoDup_cons. split; [|auto].
  intros (y & Heq & Hy)%list_elem_of_fmap. apply Hx. rewrite Heq. apply list_elem_of_fmap. exists y. split; [done|].
  by apply list_elem_of_In, List.filter_In in Hy as [Hy%list_elem_of_In _].
Qed.

(** [sorted_topologically] always ends.  It gives the nodes in the order of [TopoSort]
    on the graph cut down to the nodes. *)
Lemma sorted_topologically_lex nodes g :
  ∃ l, sorted_topologically nodes g = Some l ∧ lex_topo String.leb (λ n, n) (restrict nodes g) ∅ l.
Proof.
  destruct (topo_sort_total String.leb (λ n, n) (restrict nodes g)) as (l & Hl & Hspec). exists l. split; [|done].
  rewrite <- Hl. unfold sorted_topologically, lexicographical_topological_sort.
  destruct (st_degrees nodes g) as [degree_map rev] eqn:E. apply st_degrees_spec in E as (H1 & H2 & H3).
  assert (dom (restrict nodes g) = list_to_set nodes) as Hdom.
  { apply set_eq. intros n. rewrite elem_of_dom, restrict_lookup, elem_of_list_to_set.
    case_decide; split; try done; try by intros [? ?]. }
  assert (size degree_map = size (restrict nodes g)) as -> by by rewrite <- !size_dom, H1, Hdom.
  assert (map sentry (py_sorted String.leb (map fst (List.filter (λ p, p.2 =? 0) (map_to_list degree_map)))) =
    initial_heap String.leb (λ n, n) (restrict nodes g)) as Hheap.
  { rewrite sorted_sentry. unfold initial_heap. apply (py_sorted_unique _).
    change (λ p : string * gset string, sentry p.1) with (λ p : string * gset string, sentry (fst p)).
    rewrite <- (List.map_map fst sentry). apply Permutation_map. apply NoDup_Permutation.
    - apply NoDup_map_filter, NoDup_fst_map_to_list.
    - apply NoDup_map_filter, NoDup_fst_map_to_list.
    - intros n. rewrite !list_elem_of_fmap. split.
      + intros ([m d] & -> & Hm). apply list_elem_of_In, List.filter_In in Hm as [Hm Hd].
        apply list_elem_of_In, elem_of_map_to_list in Hm. cbn in Hd. to_prop. subst d.
        assert (m ∈ dom (restrict nodes g)) as [es Hes]%elem_of_dom by (rewrite Hdom, <- H1; by apply elem_of_dom).
        exists (m, es). split; [done|]. apply list_elem_of_In, List.filter_In. split.
        * by apply list_elem_of_In, elem_of_map_to_list.
        * apply bool_decide_eq_true. cbn. apply leibniz_equiv, size_empty_iff. rewrite (H2 m es Hes) in Hm. injection Hm. lia.
      + intros ([m es] & -> & Hm). apply list_elem_of_In, List.filter_In in Hm as [Hm Hd].
        apply list_elem_of_In, elem_of_map_to_list in Hm. cbn in Hd. to_prop. subst es.
        exists (m, 0). split; [done|]. apply list_elem_of_In, List.filter_In. split; [|done].
        apply list_elem_of_In, elem_of_map_to_list. by rewrite (H2 m ∅ Hm), size_empty. }
  rewrite <- Hheap. eapply (st_loop_sim nodes g).
  - done.
  - intros n Hn. pose proof (restrict_lookup nodes g n) as Hr. rewrite decide_True in Hr by done. rewrite Hr. cbn. by apply H2.
  - rewrite Hheap. apply initial_inv. apply _.
Qed.

(** If some rank decreases along the edges between the nodes, the result has every
    node once, after the nodes its edges lead to. *)
Lemma sorted_topologically_spec nodes g (rank : string → nat) :
  (∀ n es e, n ∈ nodes → g !! n = Some es → e ∈ es → e ∈ nodes → (rank e < rank n)%nat) →
  ∃ l, sorted_topologically nodes g = Some l ∧ NoDup l ∧ (∀ n, n ∈ l ↔ n ∈ nodes) ∧
    ∀ l1 n l2 es e, l = l1 ++ n :: l2 → g !! n = Some es → e ∈ es → e ∈ nodes → e ∈ l1.
Proof.
  intros Hr. destruct (sorted_topologically_lex nodes g) as (l & Hl & Hspec).
  destruct (lex_topo_props String.leb (λ n, n) _ _ _ Hspec) as (Hnd & Hin & Hord).
  assert (∀ n, n ∈ dom (restrict nodes g) ↔ n ∈ nodes) as Hdom.
  { intros n. rewrite elem_of_dom, restrict_lookup. case_decide; (split; [|done]); [done|by intros [? ?]]. }
  assert (∀ n, n ∈ l ↔ n ∈ nodes) as Hmem.
  { intros n. rewrite <- Hdom. split; [by intros [_ ?]%Hin|]. intros Hn.
    destruct (lex_topo_all String.leb (λ n, n) _ _ _ rank Hspec) with (n := n) as [?%elem_of_empty|]; try done.
    intros m es e Hm He. rewrite restrict_lookup in Hm. case_decide as Hmn; [|done]. injection Hm as <-.
    rewrite elem_of_intersection, !elem_of_list_to_set in He. destruct He as [He Hen]. rewrite Hdom. split; [done|].
    destruct (g !! m) as [es|] eqn:E; [|by apply elem_of_nil in He]. by eapply (Hr m es e). }
  exists l. split_and!; [done|done|done|]. intros l1 n l2 es e -> Hes He Hen.
  destruct (Hord (length l1) n (list_to_set es ∩ list_to_set nodes)) with (e := e) as [?%elem_of_empty|(j & Hj & Hlj)].
  - by apply list_lookup_middle.
  - rewrite restrict_lookup, decide_True, Hes; [done|]. apply Hmem. apply elem_of_app. right. by left.
  - rewrite elem_of_intersection, !elem_of_list_to_set. done.
  - done.
  - rewrite lookup_app_l in Hlj by done. by eapply list_elem_of_lookup_2.
Qed.

(** The example of the source *)
Example sorted_topologically_doc : sorted_topologically ["1"; "2"] {["1" := ["2"]]} = Some ["2"; "1"].
Proof. vm_compute. reflexivity. Qed.
