(* ===== verification/ChainCover.v ===== *)
(** * The chain cover index of auth chains

    Every state event has a position: a chain and a sequence number in it.  Links lead
    from positions to positions of other chains.  The auth chain of an event is what
    can be reached from its position by going down its chain and along links.

    - [LinkMap], [add_link], [exists_path_from]: the class [_LinkMap] of
      [synapse/storage/databases/main/events.py];
    - [allocate_chain_ids], [calculate_chain_cover_index], [persist_chain_cover_index]:
      the methods of [PersistEventsStore].

    The readers of the index are in [AuthChains].

    The tables are a record of maps.  Sets and dicts are iterated in the order of the
    maps.  Loops that are not over a collection have fuel; [None] is running out of it. *)

From S2P Require Import Prelude TopoSort IterUtils.

Open Scope Z_scope.

Abbreviation pos := (Z * Z)%type.

(** ** [_LinkMap] *)

Record LinkMap : Type := MkLinkMap {
  maps : gmap Z (gmap Z (gmap Z Z));
  additions : gset (Z * Z * Z * Z);
}.
Definition empty_link_map : LinkMap := MkLinkMap ∅ ∅.

(** Whether a link crosses one that is there *)
Definition redundant (current_links : gmap Z Z) (src_seq target_seq : Z) : bool :=
  existsb (λ p, (p.1 <=? src_seq) && (target_seq <=? p.2)) (map_to_list current_links).

Definition add_link (m : LinkMap) (src target : pos) (new : bool) : py (bool * LinkMap) :=
  let '(src_chain, src_seq) := src in
  let '(target_chain, target_seq) := target in
  let by_target := default ∅ (maps m !! src_chain) in
  let current_links := default ∅ (by_target !! target_chain) in
  let put l := <[src_chain := <[target_chain := l]> by_target]> (maps m) in
  raise_if (bool_decide (src_chain = target_chain)) AssertionError ;;
  if new && redundant current_links src_seq target_seq then Ok (false, MkLinkMap (put current_links) (additions m))
  else
    Ok (true, MkLinkMap (put (<[src_seq := target_seq]> current_links))
                (if new then {[(src_chain, src_seq, target_chain, target_seq)]} ∪ additions m else additions m)).

(** [get_additions] *)
Definition get_additions (m : LinkMap) : list (Z * Z * Z * Z) :=
  omap (λ '(src_chain, src_seq, target_chain, _),
    target_seq ← default ∅ (default ∅ (maps m !! src_chain) !! target_chain) !! src_seq;
    Some (src_chain, src_seq, target_chain, target_seq)) (elements (additions m)).

(** [self.maps.get(chain, {})], as triples of target chain, source and target number *)
Definition links_from (ms : gmap Z (gmap Z (gmap Z Z))) (chain : Z) : list (Z * Z * Z) :=
  flat_map (λ x, map (λ y, (x.1, y.1, y.2)) (map_to_list x.2)) (map_to_list (default ∅ (ms !! chain))).

(** The loops over the links of a chain; [None] is [return True]. *)
Fixpoint ep_scan (visited_chains : gmap Z Z) (target : pos) (seq : Z) (ls : list (Z * Z * Z)) (search : list pos)
    : option (list pos) :=
  match ls with
  | [] => Some search
  | (tc, ss, ts) :: ls =>
      if ts <=? default 0 (visited_chains !! tc) then ep_scan visited_chains target seq ls search
      else if ss <=? seq then
        if tc =? target.1 then
          if target.2 <=? ts then None else ep_scan visited_chains target seq ls search
        else ep_scan visited_chains target seq ls ((tc, ts) :: search)
      else ep_scan visited_chains target seq ls search
  end.

(** The stack has its top in front. *)
Fixpoint ep_loop (ms : gmap Z (gmap Z (gmap Z Z))) (target : pos) (fuel : nat) (visited_chains : gmap Z Z)
    (search : list pos) : option bool :=
  match search with
  | [] => Some false
  | (chain, seq) :: search =>
      match fuel with
      | O => None
      | S fuel =>
          let visited_chains := <[chain := Z.max seq (default 0 (visited_chains !! chain))]> visited_chains in
          match ep_scan visited_chains target seq (links_from ms chain) search with
          | None => Some true
          | Some search => ep_loop ms target fuel visited_chains search
          end
      end
  end.

Definition link_count (ms : gmap Z (gmap Z (gmap Z Z))) : nat :=
  length (flat_map (λ x, links_from ms x.1) (map_to_list ms)).
Definition ep_fuel (ms : gmap Z (gmap Z (gmap Z Z))) : nat := S (S (link_count ms) * S (link_count ms)).

Definition exists_path_from (m : LinkMap) (src target : pos) : option bool :=
  if src.1 =? target.1 then Some (target.2 <=? src.2) else ep_loop (maps m) target (ep_fuel (maps m)) ∅ [src].

(** ** The tables *)

Abbreviation chain_link := (Z * Z * Z * Z)%type.

Record chain_tables : Type := MkTables {
  (** [event_auth]: the auth events of an event *)
  t_event_auth : gmap string (list string);
  (** [events] joined with [state_events]: type and state key *)
  t_state_events : gmap string (string * string);
  event_auth_chains : gmap string pos;
  event_auth_chain_links : list chain_link;
  (** room, type and state key *)
  event_auth_chain_to_calculate : gmap string (string * string * string);
  (** the next value of the sequence of chain ids *)
  next_chain_id : Z;
}.

(** ** [_get_chain_links] *)

Definition link_targets (links : list chain_link) (chains : gset Z) : gset Z :=
  list_to_set (omap (λ '(oc, _, tc, _), if decide (oc ∈ chains) then Some tc else None) links).

(** The recursive query: all chains that links lead to.  A round that finds nothing
    new is the last one, and each round before finds the target of a link. *)
Fixpoint linked_chains (links : list chain_link) (fuel : nat) (chains : gset Z) : gset Z :=
  match fuel with O => chains | S fuel => linked_chains links fuel (chains ∪ link_targets links chains) end.

(** [links.setdefault(origin_chain_id, []).append(...)] *)
Definition add_row (d : gmap Z (list (Z * Z * Z))) (l : chain_link) : gmap Z (list (Z * Z * Z)) :=
  let '(oc, os, tc, ts) := l in <[oc := default [] (d !! oc) ++ [(os, tc, ts)]]> d.

Definition fetch_links (links : list chain_link) (batch : gset Z) : gmap Z (list (Z * Z * Z)) :=
  let chains := linked_chains links (length links) batch in
  foldl add_row ∅ (List.filter (λ l, bool_decide (l.1.1.1 ∈ chains)) links).

Fixpoint get_chain_links (links : list chain_link) (fuel : nat) (chains_to_fetch : gset Z) : list (gmap Z (list (Z * Z * Z))) :=
  match fuel with
  | O => []
  | S fuel =>
      match elements chains_to_fetch with
      | [] => []
      | l =>
          let batch2 := list_to_set (take 1000 l) in
          let d := fetch_links links batch2 in
          d :: get_chain_links links fuel ((chains_to_fetch ∖ batch2) ∖ dom d)
      end
  end.
Definition chain_links (t : chain_tables) (chains : gset Z) : list (gmap Z (list (Z * Z * Z))) :=
  get_chain_links (event_auth_chain_links t) (size chains) chains.

(** ** [_allocate_chain_ids] *)

(** A chain id, or the [object()] that stands for one *)
Inductive tmp_chain : Type :=
  | Existing (c : Z)
  | Temporary (n : nat).
#[export] Instance tmp_chain_eq_dec : EqDecision tmp_chain.
Proof. solve_decision. Defined.
#[export] Instance tmp_chain_countable : Countable tmp_chain.
Proof.
  refine (inj_countable' (λ c, match c with Existing c => inl c | Temporary n => inr n end)
            (λ x, match x with inl c => Existing c | inr n => Temporary n end) _). by intros [].
Defined.

(** The first auth event with the type and state key of the event *)
Definition chain_parent (event_to_types : gmap string (string * string)) (event_id : string) (auth : list string) : option string :=
  head (List.filter (λ a, bool_decide (event_to_types !! event_id = event_to_types !! a)) auth).

Definition chain_tree (event_to_types : gmap string (string * string)) (event_to_auth_chain : gmap string (list string))
    (order : list string) : list (string * option string) :=
  map (λ e, (e, chain_parent event_to_types e (default [] (event_to_auth_chain !! e)))) order.

Definition existing_chain_ids (chain_map : gmap string pos) (tree : list (string * option string)) : gset Z :=
  list_to_set (omap (λ x, a ← x.2; p ← chain_map !! a; Some p.1) tree).

(** [SELECT chain_id, MAX(sequence_number) ... GROUP BY chain_id] *)
Definition max_seq_no (t : chain_tables) (c : Z) : option Z :=
  foldr (λ x m, if x.2.1 =? c then Some (match m with Some m => Z.max x.2.2 m | None => x.2.2 end) else m) None
    (map_to_list (event_auth_chains t)).
Definition chain_max_seq_nos (t : chain_tables) (chains : gset Z) : gmap tmp_chain Z :=
  list_to_map (omap (λ c, m ← max_seq_no t c; Some (Existing c, m)) (elements chains)).

Record alloc_state : Type := MkAlloc {
  chain_to_max_seq_no : gmap tmp_chain Z;
  unallocated : nat;
  new_chain_tuples : gmap string (tmp_chain * Z);
}.

(** The loop over the tree *)
Definition existing_pos (chain_map : gmap string pos) (s : alloc_state) (auth_event_id : option string)
    : py (option (tmp_chain * Z)) :=
  match auth_event_id with
  | None => Ok None
  | Some a =>
      match new_chain_tuples s !! a with
      | Some p => Ok (Some p)
      | None => match chain_map !! a with Some (c, n) => Ok (Some (Existing c, n)) | None => Raise KeyError end
      end
  end.

Definition proposed_pos (s : alloc_state) (existing : option (tmp_chain * Z)) : py (option (tmp_chain * Z)) :=
  match existing with
  | None => Ok None
  | Some (c, n) =>
      match chain_to_max_seq_no s !! c with
      | None => Raise KeyError
      | Some m => Ok (if m <? n + 1 then Some (c, n + 1) else None)
      end
  end.

Definition take_pos (s : alloc_state) (event_id : string) (c : tmp_chain) (n : Z) (u : nat) : alloc_state :=
  MkAlloc (<[c := n]> (chain_to_max_seq_no s)) u (<[event_id := (c, n)]> (new_chain_tuples s)).

Definition alloc_one (chain_map : gmap string pos) (s : alloc_state) (x : string * option string) : py alloc_state :=
  existing ← existing_pos chain_map s x.2;
  proposed ← proposed_pos s existing;
  Ok (match proposed with
      | Some (c, n) => take_pos s x.1 c n (unallocated s)
      | None => take_pos s x.1 (Temporary (unallocated s)) 1 (S (unallocated s))
      end).

(** The ids that the sequence gives are handed to the temporary ids in order. *)
Definition real_chain (next : Z) (c : tmp_chain) : Z := match c with Existing c => c | Temporary n => next + Z.of_nat n end.

(** Returns the new positions, and how many ids were taken from the sequence *)
Definition allocate_chain_ids (t : chain_tables) (event_to_types : gmap string (string * string))
    (event_to_auth_chain : gmap string (list string)) (order : list string) (chain_map : gmap string pos)
    : py (gmap string pos * nat) :=
  let tree := chain_tree event_to_types event_to_auth_chain order in
  s ← py_fold (alloc_one chain_map) (MkAlloc (chain_max_seq_nos t (existing_chain_ids chain_map tree)) 0 ∅) tree;
  Ok ((λ p, (real_chain (next_chain_id t) p.1, p.2)) <$> new_chain_tuples s, unallocated s).

(** ** [_calculate_chain_cover_index] *)

(** What the first part of the function gathers *)
Record calc_state : Type := MkCalc {
  events_to_calc_chain_id_for : gset string;
  event_to_types : gmap string (string * string);
  event_to_auth_chain : gmap string (list string);
  chain_map : gmap string pos;
}.

Definition stored_auth (t : chain_tables) (event_id : string) : list string := default [] (t_event_auth t !! event_id).

(** The events that waited for their auth chain, of the rooms *)
Definition add_waiting (t : chain_tables) (rooms : gset string) (s : calc_state) (x : string * (string * string * string)) : calc_state :=
  let '(event_id, (room_id, event_type, state_key)) := x in
  if decide (room_id ∈ rooms) then
    MkCalc ({[event_id]} ∪ events_to_calc_chain_id_for s) (<[event_id := (event_type, state_key)]> (event_to_types s))
      (<[event_id := stored_auth t event_id]> (event_to_auth_chain s)) (chain_map s)
  else s.

Definition initial_missing (s : calc_state) : gset string :=
  list_to_set (List.filter (λ a, negb (bool_decide (a ∈ events_to_calc_chain_id_for s)))
                 (flat_map snd (map_to_list (event_to_auth_chain s)))).

(** One row of the query of the [while] loop: a state event that is stored *)
Definition fetch_one (t : chain_tables) (acc : calc_state * gset string) (auth_id : string) : calc_state * gset string :=
  let '(s, missing) := acc in
  match t_state_events t !! auth_id with
  | None => acc
  | Some types =>
      let types := <[auth_id := types]> (event_to_types s) in
      match event_auth_chains t !! auth_id with
      | Some p => (MkCalc (events_to_calc_chain_id_for s) types (event_to_auth_chain s) (<[auth_id := p]> (chain_map s)), missing)
      | None =>
          let auth := stored_auth t auth_id in
          (MkCalc ({[auth_id]} ∪ events_to_calc_chain_id_for s) types (<[auth_id := auth]> (event_to_auth_chain s)) (chain_map s),
           missing ∪ list_to_set (List.filter (λ e, bool_decide (types !! e = None)) auth))
      end
  end.

Fixpoint fetch_missing (t : chain_tables) (fuel : nat) (s : calc_state) (missing : gset string) : option calc_state :=
  match elements missing with
  | [] => Some s
  | l =>
      match fuel with
      | O => None
      | S fuel => let '(s, missing) := foldl (fetch_one t) (s, ∅) l in fetch_missing t fuel s missing
      end
  end.

(** The events whose auth events are not all known wait for another time. *)
Definition discard_one (event_to_room_id : gmap string string) (acc : calc_state * chain_tables) (event_id : string)
    : py (calc_state * chain_tables) :=
  let '(s, t) := acc in
  if forallb (λ a, bool_decide (a ∈ dom (chain_map s)) || bool_decide (a ∈ events_to_calc_chain_id_for s))
       (default [] (event_to_auth_chain s !! event_id)) then Ok acc
  else
    let s' := MkCalc (events_to_calc_chain_id_for s ∖ {[event_id]}) (event_to_types s) (event_to_auth_chain s) (chain_map s) in
    match event_to_room_id !! event_id with
    | None | Some EmptyString => Ok (s', t)
    | Some room_id =>
        match event_to_types s !! event_id with
        | None => Raise KeyError
        | Some (e_type, state_key) =>
            Ok (s', MkTables (t_event_auth t) (t_state_events t) (event_auth_chains t) (event_auth_chain_links t)
                      (<[event_id := (room_id, e_type, state_key)]> (event_auth_chain_to_calculate t)) (next_chain_id t))
        end
    end.

Definition gather (t : chain_tables) (event_to_room_id : gmap string string) (types : gmap string (string * string))
    (auth : gmap string (list string)) : py (calc_state * chain_tables) :=
  let s := foldl (add_waiting t (list_to_set (map snd (map_to_list event_to_room_id))))
             (MkCalc (dom event_to_room_id) types auth ∅) (map_to_list (event_auth_chain_to_calculate t)) in
  s ← fueled (fetch_missing t (size (t_state_events t) + 3) s (initial_missing s));
  order ← fueled (sorted_topologically (elements (dom (event_to_auth_chain s))) (event_to_auth_chain s));
  py_fold (discard_one event_to_room_id) (s, t) order.

(** [NewEventChainLinks] *)
Record NewEventChainLinks : Type := NewLinks { nl_chain_id : Z; nl_sequence_number : Z; nl_links : list pos }.

(** [itertools.permutations(l, r=2)] *)
Fixpoint picks {A} (before l : list A) : list (A * list A) :=
  match l with [] => [] | x :: l => (x, before ++ l) :: picks (before ++ [x]) l end.
Definition permutations2 {A} (l : list A) : list (A * A) := flat_map (λ x, map (pair x.1) x.2) (picks [] l).

Definition pos_of (chain_map : gmap string pos) (e : string) : py pos :=
  match chain_map !! e with Some p => Ok p | None => Raise KeyError end.

(** The auth events of another chain that no other auth event leads to *)
Definition reduction (chain_map : gmap string pos) (links : LinkMap) (chain_id : Z) (auth : list string) : py (gset string) :=
  start ← py_fold (λ r a, p ← pos_of chain_map a; Ok (if p.1 =? chain_id then r else {[a]} ∪ r)) ∅ auth;
  py_fold (λ r '(a, b),
    p ← pos_of chain_map a;
    q ← pos_of chain_map b;
    reaches ← fueled (exists_path_from links p q);
    Ok (if reaches : bool then r ∖ {[b]} else r)) start (permutations2 auth).

Definition link_one (chain_map : gmap string pos) (auth : gmap string (list string))
    (acc : LinkMap * gmap string NewEventChainLinks) (event_id : string) : py (LinkMap * gmap string NewEventChainLinks) :=
  p ← pos_of chain_map event_id;
  r ← reduction chain_map acc.1 p.1 (default [] (auth !! event_id));
  py_fold (λ acc a,
    q ← pos_of chain_map a;
    match acc.2 !! event_id with
    | None => Raise KeyError
    | Some n =>
        '(_, links) ← add_link acc.1 p q true;
        Ok (links, <[event_id := NewLinks (nl_chain_id n) (nl_sequence_number n) (nl_links n ++ [q])]> acc.2)
    end) acc (elements r).

Definition load_links (m : LinkMap) (d : gmap Z (list (Z * Z * Z))) : py LinkMap :=
  py_fold (λ m x, py_fold (λ m '(os, tc, ts), '(_, m) ← add_link m (x.1, os) (tc, ts) false; Ok m) m x.2) m (map_to_list d).

(** Returns the new positions and links by event, and the tables, in which the ids
    have been taken from the sequence and the discarded events noted. *)
Definition calculate_chain_cover_index (t : chain_tables) (event_to_room_id : gmap string string)
    (types : gmap string (string * string)) (auth : gmap string (list string))
    : py (gmap string NewEventChainLinks * chain_tables) :=
  '(s, t) ← gather t event_to_room_id types auth;
  if decide (events_to_calc_chain_id_for s = ∅) then Ok (∅, t)
  else
    order ← fueled (sorted_topologically (elements (events_to_calc_chain_id_for s)) (event_to_auth_chain s));
    '(new, taken) ← allocate_chain_ids t (event_to_types s) (event_to_auth_chain s) order (chain_map s);
    let t := MkTables (t_event_auth t) (t_state_events t) (event_auth_chains t) (event_auth_chain_links t)
               (event_auth_chain_to_calculate t) (next_chain_id t + Z.of_nat taken) in
    let all_pos := new ∪ chain_map s in
    links ← py_fold load_links empty_link_map (chain_links t (list_to_set (map (λ x, x.2.1) (map_to_list all_pos))));
    '(_, res) ← py_fold (link_one all_pos (event_to_auth_chain s)) (links, (λ p, NewLinks p.1 p.2 []) <$> new) order;
    Ok (res, t).

Definition persist_chain_cover_index (t : chain_tables) (new : gmap string NewEventChainLinks) : chain_tables :=
  MkTables (t_event_auth t) (t_state_events t)
    (((λ n, (nl_chain_id n, nl_sequence_number n)) <$> new) ∪ event_auth_chains t)
    (event_auth_chain_links t ++
       flat_map (λ x, map (λ q, (nl_chain_id x.2, nl_sequence_number x.2, q.1, q.2)) (nl_links x.2)) (map_to_list new))
    (filter (λ x, x.1 ∉ dom new) (event_auth_chain_to_calculate t)) (next_chain_id t).

(** [_add_chain_cover_index] *)
Definition add_chain_cover_index (t : chain_tables) (event_to_room_id : gmap string string)
    (types : gmap string (string * string)) (auth : gmap string (list string)) : py chain_tables :=
  '(new, t) ← calculate_chain_cover_index t event_to_room_id types auth;
  Ok (persist_chain_cover_index t new).

(** ** Persisting events

    What the functions read of an event *)
Record index_event : Type := IndexEvent {
  ie_id : string;
  ie_room : string;
  ie_type : string;
  ie_state_key : option string;
  ie_auth : list string;
}.
Definition ie_is_state (e : index_event) : bool := match ie_state_key e with Some _ => true | None => false end.

(** [calculate_chain_cover_index_for_events] *)
Fixpoint distinct_state_events (seen_events : gset string) (events : list index_event) : list index_event :=
  match events with
  | [] => []
  | e :: events =>
      if negb (ie_is_state e) || bool_decide (ie_id e ∈ seen_events) then distinct_state_events seen_events events
      else e :: distinct_state_events ({[ie_id e]} ∪ seen_events) events
  end.

Definition by_id {A} (f : index_event → A) (l : list index_event) : gmap string A :=
  foldl (λ m e, <[ie_id e := f e]> m) ∅ l.

(** [has_index] is the column [has_auth_chain_index] of the table [rooms]; it may be NULL. *)
Definition calculate_chain_cover_index_for_events_txn (t : chain_tables) (has_index : gmap string (option bool)) (room_id : string)
    (state_events : list index_event) : py (gmap string NewEventChainLinks * chain_tables) :=
  match has_index !! room_id with
  | None | Some (Some false) => Ok (∅, t)
  | Some _ =>
      match List.filter (λ e, negb (bool_decide (ie_id e ∈ dom (event_auth_chains t)))) state_events with
      | [] => Ok (∅, t)
      | l => calculate_chain_cover_index t (by_id ie_room l) (by_id (λ e, (ie_type e, default EmptyString (ie_state_key e))) l)
               (by_id ie_auth l)
      end
  end.

Definition calculate_chain_cover_index_for_events (t : chain_tables) (has_index : gmap string (option bool)) (room_id : string)
    (events : list index_event) : py (gmap string NewEventChainLinks * chain_tables) :=
  match distinct_state_events ∅ events with
  | [] => Ok (∅, t)
  | l => calculate_chain_cover_index_for_events_txn t has_index room_id l
  end.

(** The events that [_update_outliers_txn] leaves: those that are not stored yet *)
Definition unseen_events (t : chain_tables) (events : list index_event) : list index_event :=
  List.filter (λ e, negb (bool_decide (ie_id e ∈ dom (t_state_events t)))) events.

(** The rows that [_store_event_txn] adds to [state_events] *)
Definition store_state_event (t : chain_tables) (e : index_event) : chain_tables :=
  match ie_state_key e with
  | None => t
  | Some key =>
      MkTables (t_event_auth t) (<[ie_id e := (ie_type e, key)]> (t_state_events t)) (event_auth_chains t)
        (event_auth_chain_links t) (event_auth_chain_to_calculate t) (next_chain_id t)
  end.

(** The rows of an event in [event_auth] *)
Definition add_auth_row (id : string) (m : gmap string (list string)) (auth_id : string) : gmap string (list string) :=
  <[id := default [] (m !! id) ++ [auth_id]]> m.
Definition store_event_auth (t : chain_tables) (e : index_event) : chain_tables :=
  if ie_is_state e then
    MkTables (foldl (add_auth_row (ie_id e)) (t_event_auth t) (ie_auth e)) (t_state_events t) (event_auth_chains t)
      (event_auth_chain_links t) (event_auth_chain_to_calculate t) (next_chain_id t)
  else t.

(** [_persist_event_auth_chain_txn] *)
Definition persist_event_auth_chain (t : chain_tables) (events : list index_event) (new_event_links : gmap string NewEventChainLinks)
    : chain_tables :=
  let t := if decide (new_event_links = ∅) then t else persist_chain_cover_index t new_event_links in
  if existsb ie_is_state events then foldl store_event_auth t events else t.

(** What persisting a batch of events does to the tables: the index is calculated
    first, and stored with the events *)
Definition persist_auth_index (t : chain_tables) (has_index : gmap string (option bool)) (room_id : string)
    (events : list index_event) : py chain_tables :=
  '(new_event_links, t) ← calculate_chain_cover_index_for_events t has_index room_id events;
  let unseen := unseen_events t events in
  Ok (persist_event_auth_chain (foldl store_state_event t unseen) unseen new_event_links).
