(* ===== verification/ChainPaths.v ===== *)
(** * Paths through the chain cover index

    What the index means: the positions that can be reached from a position by going
    down its chain and along links; when a table of positions and links covers the
    auth graph; and the search of [exists_path_from]. *)

From S2P Require Import Prelude TopoSort IterUtils ChainCover.

Open Scope Z_scope.

(** ** Paths *)

Inductive path (R : chain_link → Prop) : pos → pos → Prop :=
  | path_down c s s' : s' ≤ s → path R (c, s) (c, s')
  | path_link c s os tc ts q : os ≤ s → R (c, os, tc, ts) → path R (tc, ts) q → path R (c, s) q.

(** Paths that follow a link *)
Definition linked (R : chain_link → Prop) (p q : pos) : Prop :=
  ∃ os tc ts, os ≤ p.2 ∧ R (p.1, os, tc, ts) ∧ path R (tc, ts) q.

Lemma path_linked R p q : path R p q ↔ (p.1 = q.1 ∧ q.2 ≤ p.2) ∨ linked R p q.
Proof.
  split.
  - destruct 1 as [c s s' Hs|c s os tc ts q Hs Hl Hp]; [by left|]. right. by exists os, tc, ts.
  - destruct p as [c s], q as [c' s']. cbn. intros [[-> Hs]|(os & tc & ts & Hs & Hl & Hp)]; [by constructor|].
    by eapply path_link.
Qed.

Lemma path_refl R p : path R p p.
Proof. destruct p. by constructor. Qed.

Lemma path_mono (R R' : chain_link → Prop) p q : (∀ l, R l → R' l) → path R p q → path R' p q.
Proof. intros Hsub. induction 1; [by constructor|]. eapply path_link; eauto. Qed.

Lemma path_up R c s s' q : s ≤ s' → path R (c, s) q → path R (c, s') q.
Proof.
  intros Hs Hp. inversion Hp as [? ? ? Hle|? ? ? ? ? ? Hle Hl Hp']; subst; [constructor; lia|].
  eapply path_link; [|done..]. lia.
Qed.

Lemma path_trans R p q r : path R p q → path R q r → path R p r.
Proof.
  induction 1 as [c s s' Hs|c s os tc ts q Hs Hl Hp IH]; intros Hr; [by eapply path_up|]. eapply path_link; eauto.
Qed.

Lemma path_lower R p c s s' : s' ≤ s → path R p (c, s) → path R p (c, s').
Proof. intros Hs Hp. eapply path_trans; [done|]. by constructor. Qed.

(** ** Covering an auth graph *)

Section Cover.
Context (auth : string → string → Prop) (at_pos : gmap string pos) (R : chain_link → Prop).

(** Going down a chain, and along links, follows auth events. *)
Record index_sound : Prop := {
  cov_inj : ∀ e e' p, at_pos !! e = Some p → at_pos !! e' = Some p → e = e';
  cov_pos : ∀ e c s, at_pos !! e = Some (c, s) → 1 ≤ s;
  cov_down : ∀ e c s, at_pos !! e = Some (c, s) → 1 < s → ∃ a, at_pos !! a = Some (c, s - 1) ∧ auth e a;
  cov_link : ∀ c os tc ts, R (c, os, tc, ts) →
    c ≠ tc ∧ ∃ e a, at_pos !! e = Some (c, os) ∧ at_pos !! a = Some (tc, ts) ∧ auth e a;
}.

(** And all auth events of an event are reached from it. *)
Record covers : Prop := {
  cov_sound : index_sound;
  cov_auth : ∀ e p a, at_pos !! e = Some p → auth e a → ∃ q, at_pos !! a = Some q ∧ path R p q;
}.

Section Sound.
Context (Hcov : index_sound).

(** The events below an event of the same chain *)
Lemma chain_event_below n e c s :
  at_pos !! e = Some (c, s + Z.of_nat n) → 1 ≤ s → ∃ a, at_pos !! a = Some (c, s) ∧ rtc auth e a ∧ (n ≠ O → tc auth e a).
Proof using Hcov.
  revert e. induction n as [|n IH]; intros e He Hs.
  { exists e. rewrite Z.add_0_r in He. by split_and!; [|apply rtc_refl|]. }
  destruct (cov_down Hcov e c (s + Z.of_nat (S n)) He) as (a & Ha & Hea); [lia|].
  replace (s + Z.of_nat (S n) - 1) with (s + Z.of_nat n) in Ha by lia.
  destruct (IH a Ha Hs) as (b & Hb & Hab & _). exists b. split_and!; [done|by eapply rtc_l|].
  intros _. by eapply tc_rtc_r; [apply tc_once|].
Qed.

Lemma at_below e c s s' : at_pos !! e = Some (c, s) → 1 ≤ s' ≤ s → ∃ a, at_pos !! a = Some (c, s') ∧ rtc auth e a ∧ (s' < s → tc auth e a).
Proof using Hcov.
  intros He Hs. destruct (chain_event_below (Z.to_nat (s - s')) e c s') as (a & Ha & Hea & Htc); [|lia|].
  - rewrite He. do 2 f_equal. lia.
  - exists a. split_and!; [done|done|]. intros. apply Htc. lia.
Qed.

Lemma path_sound p q : path R p q → ∀ e a, at_pos !! e = Some p → at_pos !! a = Some q → rtc auth e a.
Proof using Hcov.
  induction 1 as [c s s' Hs|c s os tc ts q Hs Hl Hp IH]; intros e a He Ha.
  - pose proof (cov_pos Hcov a c s' Ha). destruct (at_below e c s s' He) as (b & Hb & Heb & _); [lia|].
    by rewrite (cov_inj Hcov a b (c, s')).
  - destruct (cov_link Hcov c os tc ts Hl) as (_ & f & g & Hf & Hg & Hfg).
    pose proof (cov_pos Hcov f c os Hf). destruct (at_below e c s os He) as (b & Hb & Heb & _); [lia|].
    rewrite (cov_inj Hcov b f (c, os)) in Heb by done. etrans; [done|]. eapply rtc_l; [done|]. by eapply IH.
Qed.

Lemma linked_sound p q e a : linked R p q → at_pos !! e = Some p → at_pos !! a = Some q → tc auth e a.
Proof using Hcov.
  intros (os & tc & ts & Hs & Hl & Hp) He Ha. destruct p as [c s]. cbn in *.
  destruct (cov_link Hcov c os tc ts Hl) as (_ & f & g & Hf & Hg & Hfg).
  pose proof (cov_pos Hcov f c os Hf). destruct (at_below e c s os He) as (b & Hb & Heb & _); [lia|].
  rewrite (cov_inj Hcov b f (c, os)) in Heb by done. eapply tc_rtc_l; [done|]. eapply tc_rtc_r; [by apply tc_once|].
  by eapply path_sound.
Qed.

End Sound.

Context (Hcov : covers).

Lemma path_complete e a p : rtc auth e a → at_pos !! e = Some p → ∃ q, at_pos !! a = Some q ∧ path R p q.
Proof using Hcov.
  intros Hea. revert p. induction Hea as [e|e f a Hef Hfa IH]; intros p Hp.
  - exists p. split; [done|apply path_refl].
  - destruct (cov_auth Hcov e p f Hp Hef) as (q & Hq & Hpq). destruct (IH q Hq) as (r & Hr & Hqr).
    exists r. split; [done|]. by eapply path_trans.
Qed.

(** Reachability in the auth graph is reachability in the index. *)
Lemma covers_reach e a p q :
  at_pos !! e = Some p → at_pos !! a = Some q → rtc auth e a ↔ path R p q.
Proof using Hcov.
  intros Hp Hq. split.
  - intros Hea. destruct (path_complete e a p Hea Hp) as (q' & Hq' & Hpath). by simplify_eq.
  - intros Hpath. eapply path_sound; [apply Hcov|done..].
Qed.
End Cover.

(** ** The map of links *)

Definition in_maps (ms : gmap Z (gmap Z (gmap Z Z))) (l : chain_link) : Prop :=
  let '(c, os, tc, ts) := l in default ∅ (default ∅ (ms !! c) !! tc) !! os = Some ts.

Lemma links_from_elem ms c tc ss ts : (tc, ss, ts) ∈ links_from ms c ↔ in_maps ms (c, ss, tc, ts).
Proof.
  unfold links_from, in_maps. rewrite list_elem_of_In, in_flat_map. split.
  - intros ([tc' m] & Hm & Hin). apply list_elem_of_In, elem_of_map_to_list in Hm.
    apply list_elem_of_In, list_elem_of_fmap in Hin as ([ss' ts'] & [= -> -> ->] & Hin%elem_of_map_to_list).
    cbn in Hm. rewrite Hm. done.
  - intros Hin. destruct (default ∅ (ms !! c) !! tc) as [m|] eqn:E; cbn in Hin; [|by rewrite lookup_empty in Hin].
    exists (tc, m). split; [by apply list_elem_of_In, elem_of_map_to_list|].
    apply list_elem_of_In, list_elem_of_fmap. exists (ss, ts). split; [done|]. by apply elem_of_map_to_list.
Qed.

(** *** [exists_path_from]: what it finds *)

Lemma ep_scan_spec visited target seq ls search :
  match ep_scan visited target seq ls search with
  | None => ∃ ss ts, (target.1, ss, ts) ∈ ls ∧ ss ≤ seq ∧ target.2 ≤ ts
  | Some search' => ∃ new, search' = new ++ search ∧
      (∀ p, p ∈ new → ∃ ss, (p.1, ss, p.2) ∈ ls ∧ ss ≤ seq ∧ default 0 (visited !! p.1) < p.2 ∧ p.1 ≠ target.1) ∧
      (∀ tc ss ts, (tc, ss, ts) ∈ ls → ss ≤ seq → ts ≤ default 0 (visited !! tc) ∨ (tc, ts) ∈ new ∨ tc = target.1 ∧ ts < target.2) ∧
      (length new ≤ length ls)%nat
  end.
Proof.
  revert search. induction ls as [|[[tc ss] ts] ls IH]; intros search; cbn [ep_scan].
  { exists []. split_and!; [done|by intros p ?%elem_of_nil|by intros ? ? ? ?%elem_of_nil|done]. }
  assert (∀ search1 add,
    (search1 = search ∧ add = [] ∧ (ts ≤ default 0 (visited !! tc) ∨ seq < ss ∨ tc = target.1 ∧ ts < target.2)) ∨
    (search1 = (tc, ts) :: search ∧ add = [(tc, ts)] ∧ ss ≤ seq ∧ default 0 (visited !! tc) < ts ∧ tc ≠ target.1) →
    match ep_scan visited target seq ls search1 with
    | None => ∃ ss0 ts0, (target.1, ss0, ts0) ∈ (tc, ss, ts) :: ls ∧ ss0 ≤ seq ∧ target.2 ≤ ts0
    | Some search' => ∃ new, search' = new ++ search ∧
        (∀ p, p ∈ new → ∃ ss0, (p.1, ss0, p.2) ∈ (tc, ss, ts) :: ls ∧ ss0 ≤ seq ∧ default 0 (visited !! p.1) < p.2 ∧ p.1 ≠ target.1) ∧
        (∀ tc0 ss0 ts0, (tc0, ss0, ts0) ∈ (tc, ss, ts) :: ls → ss0 ≤ seq →
           ts0 ≤ default 0 (visited !! tc0) ∨ (tc0, ts0) ∈ new ∨ tc0 = target.1 ∧ ts0 < target.2) ∧
        (length new ≤ S (length ls))%nat
    end) as Hstep.
  { intros search1 add Hadd. specialize (IH search1). destruct (ep_scan visited target seq ls search1) as [search'|].
    - destruct IH as (new & -> & H1 & H2 & H3). exists (new ++ add).
      assert (search1 = add ++ search) as -> by by destruct Hadd as [(-> & -> & _)|(-> & -> & _)].
      split_and!; [by rewrite <- (assoc_L (++))| | |].
      + intros p [Hp|Hp]%elem_of_app; [destruct (H1 p Hp) as (ss0 & ? & ?); exists ss0; split; [by right|done]|].
        destruct Hadd as [(_ & -> & _)|(_ & -> & Hss & Hts)]; [by apply elem_of_nil in Hp|].
        apply list_elem_of_singleton in Hp as ->. exists ss. split; [by left|done].
      + intros tc0 ss0 ts0 [[= -> -> ->]|Hin]%elem_of_cons Hss0.
        * destruct Hadd as [(_ & -> & [?|[?|?]])|(_ & -> & _)]; [by left|lia|by right; right|].
          right. left. apply elem_of_app. right. by left.
        * destruct (H2 tc0 ss0 ts0 Hin Hss0) as [?|[?|?]]; [by left|right; left; apply elem_of_app; by left|by right; right].
      + rewrite length_app. destruct Hadd as [(_ & -> & _)|(_ & -> & _)]; cbn; lia.
    - destruct IH as (ss0 & ts0 & ? & ? & ?). exists ss0, ts0. split; [by right|done]. }
  destruct (ts <=? default 0 (visited !! tc)) eqn:E1; to_prop; [apply (Hstep search []); left; by split_and!; [..|left]|].
  destruct (ss <=? seq) eqn:E2; to_prop; [|apply (Hstep search []); left; split_and!; [done..|right; left; lia]].
  destruct (tc =? target.1) eqn:E3; to_prop; [|apply (Hstep ((tc, ts) :: search) [(tc, ts)]); right; split_and!; [done|done|done|lia|done]].
  destruct (target.2 <=? ts) eqn:E4; to_prop; [|apply (Hstep search []); left; split_and!; [done..|right; right; lia]].
  exists ss, ts. split; [subst; by left|done].
Qed.

Lemma ep_loop_sound ms target fuel visited search p0 :
  (∀ p, p ∈ search → path (in_maps ms) p0 p) → ep_loop ms target fuel visited search = Some true → path (in_maps ms) p0 target.
Proof.
  revert visited search. induction fuel as [|fuel IH]; intros visited [|[chain seq] search] Hs; cbn [ep_loop]; try done.
  set (visited' := <[chain := _]> visited).
  pose proof (ep_scan_spec visited' target seq (links_from ms chain) search) as Hscan.
  destruct (ep_scan visited' target seq (links_from ms chain) search) as [search'|].
  - destruct Hscan as (new & -> & H1 & _). apply IH. intros p [Hp|Hp]%elem_of_app; [|apply Hs; by right].
    destruct (H1 p Hp) as (ss & Hin & Hle & _). apply links_from_elem in Hin.
    eapply path_trans; [apply Hs; by left|]. eapply path_link; [done|done|]. destruct p. apply path_refl.
  - destruct Hscan as (ss & ts & Hin & Hss & Hts). apply links_from_elem in Hin. intros _.
    eapply path_trans; [apply Hs; by left|]. eapply path_link; [done|done|]. destruct target. by constructor.
Qed.

(** *** [exists_path_from]: that it ends *)

Section Search.
Context (ms : gmap Z (gmap Z (gmap Z Z))) (target : pos).
Abbreviation level visited c := (default 0 (visited !! c)).

Definition all_links : list (Z * Z * Z) := flat_map (λ x, links_from ms x.1) (map_to_list ms).
Definition open_links (visited : gmap Z Z) : nat :=
  length (List.filter (λ l : Z * Z * Z, level visited l.1.1 <? l.2) all_links).

Lemma all_links_elem tc ss ts : (tc, ss, ts) ∈ all_links ↔ ∃ c, in_maps ms (c, ss, tc, ts).
Proof using Type.
  unfold all_links. rewrite list_elem_of_In, in_flat_map. split.
  - intros ([c m] & _ & Hin%list_elem_of_In). exists c. by apply links_from_elem.
  - intros [c Hin]. destruct (ms !! c) as [m|] eqn:E.
    + exists (c, m). split; [by apply list_elem_of_In, elem_of_map_to_list|]. by apply list_elem_of_In, links_from_elem.
    + unfold in_maps in Hin. rewrite E in Hin. cbn in Hin. by rewrite !lookup_empty in Hin.
Qed.

Lemma links_from_length c : (length (links_from ms c) ≤ length all_links)%nat.
Proof using Type.
  unfold all_links. destruct (ms !! c) as [m|] eqn:E.
  - assert ((c, m) ∈ map_to_list ms) as Hin by by apply elem_of_map_to_list.
    apply list_elem_of_split in Hin as (l1 & l2 & ->). rewrite flat_map_app. cbn. rewrite !length_app. lia.
  - unfold links_from. rewrite E. cbn. rewrite map_to_list_empty. cbn. lia.
Qed.

Lemma filter_length_le {A} (f g : A → bool) l :
  (∀ x, f x = true → g x = true) → (length (List.filter f l) ≤ length (List.filter g l))%nat.
Proof using Type.
  intros Hfg. induction l as [|x l IH]; cbn; [lia|]. specialize (Hfg x). destruct (f x), (g x); cbn; try lia; by rewrite Hfg in *.
Qed.

Lemma filter_length_lt {A} (f g : A → bool) l x :
  (∀ x, f x = true → g x = true) → x ∈ l → f x = false → g x = true → (length (List.filter f l) < length (List.filter g l))%nat.
Proof using Type.
  intros Hfg Hx Hf Hg. apply list_elem_of_split in Hx as (l1 & l2 & ->). rewrite !List.filter_app, !length_app. cbn.
  rewrite Hf, Hg. cbn. pose proof (filter_length_le f g l1 Hfg). pose proof (filter_length_le f g l2 Hfg). lia.
Qed.

(** A position on the stack that has been passed already leads to nothing new that is
    not above it on the stack. *)
Definition stale_inv (visited : gmap Z Z) (search : list pos) : Prop :=
  ∀ above c s below, search = above ++ (c, s) :: below → s ≤ level visited c →
    ∀ ss tc ts, in_maps ms (c, ss, tc, ts) → ss ≤ s → ts ≤ level visited tc ∨ (tc, ts) ∈ above ∨ tc = target.1.

Lemma level_insert (visited : gmap Z Z) c s c' :
  level (<[c := Z.max s (level visited c)]> visited) c' = if decide (c' = c) then Z.max s (level visited c) else level visited c'.
Proof using Type. case_decide as E; [subst; by rewrite lookup_insert_eq|by rewrite lookup_insert_ne]. Qed.

Lemma stale_step visited c s search new :
  stale_inv visited ((c, s) :: search) →
  (∀ p, p ∈ new → level (<[c := Z.max s (level visited c)]> visited) p.1 < p.2) →
  (∀ tc ss ts, (tc, ss, ts) ∈ links_from ms c → ss ≤ s →
     ts ≤ level (<[c := Z.max s (level visited c)]> visited) tc ∨ (tc, ts) ∈ new ∨ tc = target.1) →
  stale_inv (<[c := Z.max s (level visited c)]> visited) (new ++ search).
Proof using Type.
  intros Hinv Hnew Hlinks above c0 s0 below Heq Hs0 ss tc ts Hl Hss.
  apply app_eq_inv in Heq as [(k & Hk1 & Hk2)|(k & Hk1 & Hk2)].
  - destruct k as [|p k]; cbn in Hk2.
    + (* the position is the first of the old ones *)
      rewrite app_nil_r in Hk1. subst above. assert (search = [] ++ (c0, s0) :: below) as Hsearch by done.
      destruct (decide (c0 = c ∧ s0 ≤ s)) as [[-> Hle]|Hne].
      * destruct (Hlinks tc ss ts) as [?|[?|?]]; [by apply links_from_elem|lia|by left|right; by left|by right; right].
      * assert (s0 ≤ level visited c0) as Hold.
        { rewrite level_insert in Hs0. case_decide as E; [subst; destruct (decide (s0 ≤ s)); [tauto|lia]|done]. }
        destruct (Hinv [(c, s)] c0 s0 below) with (ss := ss) (tc := tc) (ts := ts) as [?|[Hin|?]]; try done.
        -- by rewrite Hsearch.
        -- left. rewrite level_insert. case_decide; [subst; lia|done].
        -- apply list_elem_of_singleton in Hin as [= -> ->]. left. rewrite level_insert, decide_True by done. lia.
        -- by right; right.
    + injection Hk2 as <- Hk2. assert ((c0, s0) ∈ new) as Hin by (subst new; apply elem_of_app; right; by left).
      apply Hnew in Hin. cbn in Hin. lia.
  - destruct (decide (c0 = c ∧ s0 ≤ s)) as [[-> Hle]|Hne].
    + destruct (Hlinks tc ss ts) as [?|[?|?]]; [by apply links_from_elem|lia|by left| |by right; right].
      right. left. subst above. apply elem_of_app. by left.
    + assert (s0 ≤ level visited c0) as Hold.
      { rewrite level_insert in Hs0. case_decide as E; [subst; destruct (decide (s0 ≤ s)); [tauto|lia]|done]. }
      destruct (Hinv ((c, s) :: k) c0 s0 below) with (ss := ss) (tc := tc) (ts := ts) as [?|[Hin|?]]; try done.
      * by rewrite Hk2.
      * left. rewrite level_insert. case_decide; [subst; lia|done].
      * apply elem_of_cons in Hin as [[= -> ->]|Hin].
        -- left. rewrite level_insert, decide_True by done. lia.
        -- right. left. subst above. apply elem_of_app. by right.
      * by right; right.
Qed.

Lemma open_links_le visited c s : (open_links (<[c := Z.max s (level visited c)]> visited) ≤ open_links visited)%nat.
Proof using Type.
  apply filter_length_le. intros [[tc ss] ts]. cbn [fst snd]. rewrite !Z.ltb_lt, level_insert. case_decide; [subst; lia|done].
Qed.

Lemma open_links_lt visited c s ss :
  (c, ss, s) ∈ all_links → level visited c < s → (open_links (<[c := Z.max s (level visited c)]> visited) < open_links visited)%nat.
Proof using Type.
  intros Hin Hs. apply (filter_length_lt _ _ _ (c, ss, s)); [|done| |].
  - intros [[tc ss'] ts]. cbn [fst snd]. rewrite !Z.ltb_lt, level_insert. case_decide; [subst; lia|done].
  - cbn [fst snd]. apply Z.ltb_ge. rewrite level_insert, decide_True by done. lia.
  - by apply Z.ltb_lt.
Qed.

Lemma ep_loop_total fuel visited search :
  stale_inv visited search → (∀ p, p ∈ search → ∃ ss, (p.1, ss, p.2) ∈ all_links) →
  (open_links visited * S (length all_links) + length search ≤ fuel)%nat →
  ∃ b, ep_loop ms target fuel visited search = Some b.
Proof using Type.
  revert visited search. induction fuel as [|fuel IH]; intros visited [|[c s] search] Hst Hin Hf; cbn [ep_loop]; eauto; [cbn in Hf; lia|].
  set (visited' := <[c := Z.max s (level visited c)]> visited).
  pose proof (ep_scan_spec visited' target s (links_from ms c) search) as Hscan.
  destruct (ep_scan visited' target s (links_from ms c) search) as [search'|]; [|eauto].
  destruct Hscan as (new & -> & H1 & H2 & H3). destruct (Hin (c, s)) as [ss Hcs]; [by left|]. cbn in Hcs.
  apply IH.
  - apply stale_step; [done| |].
    + intros p Hp. destruct (H1 p Hp) as (? & _ & _ & ? & _). done.
    + intros tc ss' ts Hl Hle. destruct (H2 tc ss' ts Hl Hle) as [?|[?|[? _]]]; [by left|right; by left|by right; right].
  - intros p [Hp|Hp]%elem_of_app; [|apply Hin; by right]. destruct (H1 p Hp) as (ss' & Hl & _). exists ss'.
    apply all_links_elem. exists c. by apply links_from_elem.
  - rewrite length_app. cbn [length] in Hf. destruct (decide (s ≤ level visited c)) as [Hle|Hgt].
    + assert (new = []) as ->.
      { destruct new as [|[tc ts] new]; [done|]. exfalso. destruct (H1 (tc, ts)) as (ss' & Hl & Hss' & Hlt & Hne); [by left|].
        cbn in Hl, Hlt, Hne. destruct (Hst [] c s search eq_refl Hle ss' tc ts) as [Hv|[?%elem_of_nil|?]]; try done.
        - by apply links_from_elem.
        - subst visited'. rewrite level_insert in Hlt. case_decide; [subst|]; lia. }
      pose proof (open_links_le visited c s). fold visited' in H. cbn [length]. nia.
    + pose proof (open_links_lt visited c s ss Hcs ltac:(lia)) as Hlt. fold visited' in Hlt.
      pose proof (links_from_length c). nia.
Qed.

(** *** [exists_path_from]: what it does not miss *)

Definition closed_inv (visited : gmap Z Z) (search : list pos) : Prop :=
  ∀ c ss tc ts, c ∈ dom visited → in_maps ms (c, ss, tc, ts) → ss ≤ level visited c →
    ts ≤ level visited tc ∨ (tc, ts) ∈ search ∨ tc = target.1 ∧ ts < target.2.

Context (links_pos : ∀ c ss tc ts, in_maps ms (c, ss, tc, ts) → 1 ≤ ss ∧ 1 ≤ ts).

Lemma ep_loop_closed fuel visited search :
  closed_inv visited search → target.1 ∉ dom visited → (∀ p, p ∈ search → p.1 ≠ target.1) →
  ep_loop ms target fuel visited search = Some false →
  ∃ V, closed_inv V [] ∧ target.1 ∉ dom V ∧ (∀ p, p ∈ search → p.1 ∈ dom V ∧ p.2 ≤ level V p.1) ∧
    dom visited ⊆ dom V ∧ ∀ c, level visited c ≤ level V c.
Proof using links_pos.
  revert visited search. induction fuel as [|fuel IH]; intros visited [|[c s] search] Hcl Ht Hne; cbn [ep_loop]; try done.
  1,2: intros _; exists visited; split_and!; [done|done|by intros p ?%elem_of_nil|done|done].
  set (visited' := <[c := Z.max s (level visited c)]> visited).
  pose proof (ep_scan_spec visited' target s (links_from ms c) search) as Hscan.
  destruct (ep_scan visited' target s (links_from ms c) search) as [search'|]; [|done].
  destruct Hscan as (new & -> & H1 & H2 & H3). intros Hr.
  assert (∀ c', level visited c' ≤ level visited' c') as Hmono.
  { intros c'. subst visited'. rewrite level_insert. case_decide; [subst|]; lia. }
  destruct (IH visited' (new ++ search)) as (V & HV1 & HV2 & HV3 & Hdom & HV4); [| | |done|].
  - intros c0 ss tc ts Hdom Hl Hss. destruct (decide (c0 = c ∧ ss ≤ s)) as [[-> Hle]|Hneq].
    + destruct (H2 tc ss ts) as [?|[?|?]]; [by apply links_from_elem|done|by left|right; left; apply elem_of_app; by left|by right; right].
    + assert (c0 ∈ dom visited ∧ ss ≤ level visited c0) as [Hd Hle].
      { subst visited'. rewrite level_insert in Hss. case_decide as E; [|set_solver]. subst c0.
        assert (s < ss) by (destruct (decide (ss ≤ s)); [tauto|lia]). split; [|lia].
        apply elem_of_dom. destruct (visited !! c) as [v|] eqn:Ev; [eauto|]. cbn in Hss.
        pose proof (links_pos c ss tc ts Hl). lia. }
      destruct (Hcl c0 ss tc ts Hd Hl Hle) as [?|[Hin|?]].
      * left. etrans; [done|apply Hmono].
      * apply elem_of_cons in Hin as [[= -> ->]|Hin].
        -- left. subst visited'. rewrite level_insert, decide_True by done. lia.
        -- right. left. apply elem_of_app. by right.
      * by right; right.
  - subst visited'. rewrite dom_insert_L. apply not_elem_of_union. split; [|done]. apply not_elem_of_singleton.
    intros Heq. by apply (Hne (c, s)); [left|].
  - intros p [Hp|Hp]%elem_of_app; [|apply Hne; by right]. by destruct (H1 p Hp) as (? & _ & _ & _ & ?).
  - exists V. subst visited'. rewrite dom_insert_L in Hdom. split_and!; [done|done| |set_solver|].
    + intros p [->|Hp]%elem_of_cons; [|apply HV3, elem_of_app; by right]. cbn.
      specialize (HV4 c). rewrite level_insert, decide_True in HV4 by done. split; [set_solver|lia].
    + intros c'. etrans; [apply Hmono|done].
Qed.

Lemma closed_no_path V p :
  closed_inv V [] → target.1 ∉ dom V → (∀ s, s < target.2 → ¬ path (in_maps ms) (target.1, s) target) →
  p.1 ∈ dom V → p.2 ≤ level V p.1 → ¬ path (in_maps ms) p target.
Proof using links_pos.
  intros Hcl HtV Hup Hp Hle Hpath. remember target as q eqn:Eq.
  revert Hp Hle. induction Hpath as [c s s' Hs|c s os tc ts q Hos Hl Hpath IH]; cbn; intros Hp Hle; [by subst|]. subst q.
  destruct (Hcl c os tc ts Hp Hl) as [Hts|[?%elem_of_nil|[-> Hts]]]; [lia| |done|].
  - assert (tc ∈ dom V) as Hd.
    { apply elem_of_dom. destruct (V !! tc) eqn:E; [eauto|]. cbn in Hts. pose proof (links_pos c os tc ts Hl). lia. }
    by apply IH.
  - by apply (Hup ts).
Qed.
End Search.

Lemma exists_path_from_total m src target : ∃ b, exists_path_from m src target = Some b.
Proof.
  unfold exists_path_from. destruct (src.1 =? target.1) eqn:E; [eauto|]. to_prop. destruct src as [c s]. cbn in E.
  unfold ep_fuel. cbn [ep_loop]. set (visited := <[c := _]> ∅).
  pose proof (ep_scan_spec visited target s (links_from (maps m) c) []) as Hscan.
  destruct (ep_scan visited target s (links_from (maps m) c) []) as [search|]; [|eauto].
  destruct Hscan as (new & -> & H1 & H2 & H3). rewrite app_nil_r. apply ep_loop_total.
  - intros above c0 s0 below Heq Hs0 ss tc ts Hl Hss. exfalso.
    destruct (H1 (c0, s0)) as (? & _ & _ & Hlt & _); [rewrite Heq; apply elem_of_app; right; by left|]. cbn in Hlt. lia.
  - intros p Hp. destruct (H1 p Hp) as (ss & Hl & _). exists ss. apply all_links_elem. exists c. by apply links_from_elem.
  - assert (open_links (maps m) visited ≤ length (all_links (maps m)))%nat as Ho by apply List.filter_length_le.
    pose proof (links_from_length (maps m) c). change (link_count (maps m)) with (length (all_links (maps m))). nia.
Qed.

Lemma exists_path_from_sound m src target : exists_path_from m src target = Some true → path (in_maps (maps m)) src target.
Proof.
  unfold exists_path_from. destruct (src.1 =? target.1) eqn:E; to_prop.
  - intros [= Hle]. to_prop. destruct src, target. cbn in *. subst. by constructor.
  - apply ep_loop_sound. intros p ->%list_elem_of_singleton. apply path_refl.
Qed.

(** When no link leads up, the search finds every path. *)
Lemma exists_path_from_complete m src target :
  (∀ c ss tc ts, in_maps (maps m) (c, ss, tc, ts) → 1 ≤ ss ∧ 1 ≤ ts) →
  (∀ c s s', s < s' → ¬ path (in_maps (maps m)) (c, s) (c, s')) →
  exists_path_from m src target = Some false → ¬ path (in_maps (maps m)) src target.
Proof.
  intros Hpos Hup. unfold exists_path_from. destruct (src.1 =? target.1) eqn:E; to_prop.
  - intros [= Hle] Hpath. to_prop. destruct src as [c s], target as [c' s']. cbn in *. subst. by eapply Hup.
  - intros Hr. destruct (ep_loop_closed (maps m) target Hpos (ep_fuel (maps m)) ∅ [src]) as (V & H1 & H2 & H3 & _ & _).
    + intros c ss tc ts Hd. by rewrite dom_empty_L in Hd.
    + by rewrite dom_empty_L.
    + intros p ->%list_elem_of_singleton. done.
    + done.
    + destruct (H3 src) as [Hd Hle]; [by left|]. eapply closed_no_path; try done.
      intros s Hs. destruct target as [tc ts]. by apply Hup.
Qed.
