(* ===== verification/ChainBuild.v ===== *)
(** * Building the chain cover index

    [calculate_chain_cover_index] gives positions and links to new events such that
    the index covers their auth chains. *)

From S2P Require Import Prelude TopoSort IterUtils ChainCover ChainPaths.

Open Scope Z_scope.

(** ** Adding links *)

Lemma add_link_spec m c ss tc ts new :
  c ≠ tc →
  ∃ b m', add_link m (c, ss) (tc, ts) new = Ok (b, m') ∧
    ∀ l, in_maps (maps m') l → in_maps (maps m) l ∨ l = (c, ss, tc, ts).
Proof.
  intros Hne. unfold add_link. rewrite bool_decide_eq_false_2 by done. cbn [raise_if mbind py_bind].
  set (cur := default ∅ (default ∅ (maps m !! c) !! tc)).
  assert (∀ cur' l, (∀ k v, cur' !! k = Some v → cur !! k = Some v ∨ (k, v) = (ss, ts)) →
    in_maps (<[c := <[tc := cur']> (default ∅ (maps m !! c))]> (maps m)) l → in_maps (maps m) l ∨ l = (c, ss, tc, ts)) as Hput.
  { intros cur' [[[c0 os0] tc0] ts0] Hcur. unfold in_maps. destruct (decide (c0 = c)) as [->|]; [|rewrite lookup_insert_ne by done; by left].
    rewrite lookup_insert_eq. cbn [default from_option id].
    destruct (decide (tc0 = tc)) as [->|]; [|rewrite lookup_insert_ne by done; by left].
    rewrite lookup_insert_eq. cbn [default from_option id]. intros [?|[= -> ->]]%Hcur; [by left|by right]. }
  destruct (new && redundant cur ss ts).
  - eexists _, _. split; [done|]. intros l. apply Hput. by left.
  - eexists _, _. split; [done|]. intros l. apply Hput. intros k v [[<- <-]|[_ ?]]%lookup_insert_Some; [by right|by left].
Qed.

(** The links that [get_chain_links] gives are links of the table. *)
Lemma add_rows_elem ls d c os tc ts :
  (os, tc, ts) ∈ default [] (foldl add_row d ls !! c) ↔ (os, tc, ts) ∈ default [] (d !! c) ∨ (c, os, tc, ts) ∈ ls.
Proof.
  revert d. induction ls as [|[[[c' os'] tc'] ts'] ls IH]; intros d; cbn [foldl].
  { split; [by left|]. by intros [?|?%elem_of_nil]. }
  rewrite IH. unfold add_row at 1. rewrite elem_of_cons. destruct (decide (c = c')) as [->|Hne].
  - rewrite lookup_insert_eq. cbn [default from_option id]. rewrite elem_of_app, list_elem_of_singleton. naive_solver.
  - rewrite lookup_insert_ne by done. naive_solver.
Qed.

Lemma fetch_links_elem links batch c os tc ts :
  (os, tc, ts) ∈ default [] (fetch_links links batch !! c) ↔
  (c, os, tc, ts) ∈ links ∧ c ∈ linked_chains links (length links) batch.
Proof.
  unfold fetch_links. rewrite add_rows_elem, lookup_empty. cbn [default from_option id].
  rewrite (list_elem_of_In (List.filter _ _)), filter_In, <- list_elem_of_In, bool_decide_eq_true. cbn.
  split; [intros [?%elem_of_nil|?]; done|by right].
Qed.

Lemma get_chain_links_elem links fuel chains d c os tc ts :
  d ∈ get_chain_links links fuel chains → (os, tc, ts) ∈ default [] (d !! c) → (c, os, tc, ts) ∈ links.
Proof.
  revert chains. induction fuel as [|fuel IH]; intros chains; cbn [get_chain_links]; [by intros ?%elem_of_nil|].
  destruct (elements chains) as [|x l]; [by intros ?%elem_of_nil|]. intros [->|Hd]%elem_of_cons; [|by eapply IH].
  by intros [? _]%fetch_links_elem.
Qed.

Lemma load_links_spec (P : chain_link → Prop) m d :
  (∀ l, in_maps (maps m) l → P l) → (∀ c os tc ts, (os, tc, ts) ∈ default [] (d !! c) → P (c, os, tc, ts) ∧ c ≠ tc) →
  ∃ m', load_links m d = Ok m' ∧ ∀ l, in_maps (maps m') l → P l.
Proof.
  intros Hm Hd. unfold load_links.
  assert (∀ x, x ∈ map_to_list d → ∀ os tc ts, (os, tc, ts) ∈ x.2 → P (x.1, os, tc, ts) ∧ x.1 ≠ tc) as Hl.
  { intros [c l] Hx%elem_of_map_to_list os tc ts Hin. apply Hd. cbn in *. by rewrite Hx. }
  clear Hd. revert m Hm. induction (map_to_list d) as [|[c l] dl IH]; intros m Hm; cbn [py_fold]; [by exists m|].
  assert (∀ l m, (∀ os tc ts, (os, tc, ts) ∈ l → P (c, os, tc, ts) ∧ c ≠ tc) → (∀ l, in_maps (maps m) l → P l) →
    ∃ m', py_fold (λ m '(os, tc, ts), '(_, m) ← add_link m (c, os) (tc, ts) false; Ok m) m l = Ok m' ∧
      ∀ l, in_maps (maps m') l → P l) as Hin.
  { clear. intros l. induction l as [|[[os tc] ts] l IH]; intros m Hl Hm; cbn [py_fold]; [by exists m|].
    destruct (Hl os tc ts) as [HP Hne]; [by left|].
    destruct (add_link_spec m c os tc ts false Hne) as (b & m' & -> & Hm'). cbn [mbind py_bind].
    apply IH; [intros; apply Hl; by right|]. by intros l' [?| ->]%Hm'; [apply Hm|]. }
  destruct (Hin l m) as (m' & Hf & Hm'); [intros; apply (Hl (c, l)); [by left|done]|done|]. cbn [fst snd]. rewrite Hf.
  cbn [mbind py_bind]. apply IH; [|done]. intros x Hx. apply Hl. by right.
Qed.

(** ** Allocating positions *)

Lemma max_seq_no_spec t c :
  (∀ e s, event_auth_chains t !! e = Some (c, s) → ∃ m, max_seq_no t c = Some m ∧ s ≤ m).
Proof.
  intros e s He. unfold max_seq_no. apply elem_of_map_to_list in He.
  induction (map_to_list (event_auth_chains t)) as [|[e' [c' s']] l IH]; [by apply elem_of_nil in He|]. cbn [foldr fst snd].
  apply elem_of_cons in He as [[= <- <- <-]|He].
  - rewrite Z.eqb_refl. eexists. split; [done|]. case_match; lia.
  - destruct (IH He) as (m & Hm & Hle). rewrite Hm. destruct (c' =? c); eexists; (split; [done|lia]).
Qed.

Section Alloc.
Context (t : chain_tables) (types : gmap string (string * string)) (au : gmap string (list string)) (cm : gmap string pos).
Context (old_inj : ∀ e e' p, event_auth_chains t !! e = Some p → event_auth_chains t !! e' = Some p → e = e').
Context (old_pos : ∀ e c s, event_auth_chains t !! e = Some (c, s) → 1 ≤ s ∧ c < next_chain_id t).
Context (cm_old : cm ⊆ event_auth_chains t).
Abbreviation old := (event_auth_chains t).
Abbreviation auths e := (default [] (au !! e)).

(** Position with a possibly temporary chain *)
Definition tmp_pos (new : gmap string (tmp_chain * Z)) (e : string) : option (tmp_chain * Z) :=
  match new !! e with Some p => Some p | None => (λ p : pos, (Existing p.1, p.2)) <$> old !! e end.

Definition known_chains (chains : gset Z) : Prop := ∀ c, c ∈ chains → ∃ e s, old !! e = Some (c, s).

Record alloc_inv (chains : gset Z) (l : list string) (s : alloc_state) : Prop := {
  al_dom : ∀ e, e ∈ dom (new_chain_tuples s) ↔ e ∈ l;
  al_max : ∀ c, is_Some (chain_to_max_seq_no s !! c) ↔
    match c with Existing c => c ∈ chains | Temporary k => (k < unallocated s)%nat end;
  al_bound : ∀ e c n m, tmp_pos (new_chain_tuples s) e = Some (c, n) → chain_to_max_seq_no s !! c = Some m → n ≤ m;
  al_chain : ∀ e c n, new_chain_tuples s !! e = Some (c, n) → is_Some (chain_to_max_seq_no s !! c);
  al_down : ∀ e c n, new_chain_tuples s !! e = Some (c, n) →
    1 ≤ n ∧ (1 < n → ∃ a, a ∈ auths e ∧ tmp_pos (new_chain_tuples s) a = Some (c, n - 1));
  al_inj : ∀ e e' p, tmp_pos (new_chain_tuples s) e = Some p → tmp_pos (new_chain_tuples s) e' = Some p → e = e';
  al_auth : ∀ e a, e ∈ l → a ∈ auths e → a ∈ l ∨ a ∈ dom old;
  al_order : ∀ e a c n n', new_chain_tuples s !! e = Some (c, n) → a ∈ auths e →
    tmp_pos (new_chain_tuples s) a = Some (c, n') → n' < n;
}.

Lemma tmp_pos_insert new e p e' :
  tmp_pos (<[e := p]> new) e' = if decide (e' = e) then Some p else tmp_pos new e'.
Proof using Type. unfold tmp_pos. case_decide as E; [subst; by rewrite lookup_insert_eq|by rewrite lookup_insert_ne]. Qed.

(** Giving an event a position above all of its chain *)
Lemma take_pos_inv chains l s e c n u :
  alloc_inv chains l s → e ∉ l → e ∉ dom old → (∀ a, a ∈ auths e → a ∈ l ∨ a ∈ dom old) → 1 ≤ n →
  (is_Some (chain_to_max_seq_no s !! c) ∧ u = unallocated s ∨ c = Temporary (unallocated s) ∧ u = S (unallocated s)) →
  (∀ m, chain_to_max_seq_no s !! c = Some m → m < n) →
  (1 < n → ∃ a, a ∈ auths e ∧ tmp_pos (new_chain_tuples s) a = Some (c, n - 1)) →
  alloc_inv chains (l ++ [e]) (take_pos s e c n u).
Proof using Type.
  intros Hs Hel Heo Hau Hn Hu Hm Hdown.
  assert (tmp_pos (new_chain_tuples s) e = None) as Hnone.
  { unfold tmp_pos. assert (new_chain_tuples s !! e = None) as -> by (apply not_elem_of_dom; by rewrite (al_dom _ _ _ Hs)).
    by apply not_elem_of_dom in Heo as ->. }
  assert (∀ e' n', tmp_pos (new_chain_tuples s) e' = Some (c, n') → n' < n) as Hbelow.
  { intros e' n' He'. destruct (chain_to_max_seq_no s !! c) as [m|] eqn:Em.
    - pose proof (al_bound _ _ _ Hs e' c n' m He' Em). specialize (Hm m eq_refl). lia.
    - exfalso. destruct Hu as [[[? ?] _]|[-> _]]; [congruence|]. unfold tmp_pos in He'.
      destruct (new_chain_tuples s !! e') as [p|] eqn:Ep; [|by destruct (old !! e')]. injection He' as ->.
      apply (al_chain _ _ _ Hs) in Ep. rewrite Em in Ep. by destruct Ep. }
  split; cbn [take_pos new_chain_tuples chain_to_max_seq_no unallocated].
  - intros e'. rewrite dom_insert_L, elem_of_union, elem_of_singleton, (al_dom _ _ _ Hs), elem_of_app, list_elem_of_singleton. tauto.
  - intros c'. destruct (decide (c' = c)) as [->|Hne].
    + rewrite lookup_insert_eq. split; [intros _|by eauto]. destruct Hu as [[Hc ->]|[-> ->]]; [|lia].
      by apply (al_max _ _ _ Hs).
    + rewrite lookup_insert_ne by done. rewrite (al_max _ _ _ Hs). destruct Hu as [[_ ->]|[-> ->]]; [done|].
      destruct c' as [c'|k]; [done|]. assert (k ≠ unallocated s) by congruence. lia.
  - intros e' c' n' m. rewrite tmp_pos_insert. destruct (decide (c' = c)) as [->|Hne].
    + rewrite lookup_insert_eq. intros He' [= <-]. case_decide; [by simplify_eq|]. apply Hbelow in He'. lia.
    + rewrite lookup_insert_ne by done. case_decide; [congruence|]. apply (al_bound _ _ _ Hs).
  - intros e' c' n' [[<- [= <- <-]]|[Hne He']]%lookup_insert_Some; [rewrite lookup_insert_eq; eauto|].
    destruct (decide (c' = c)) as [->|]; [rewrite lookup_insert_eq; eauto|]. rewrite lookup_insert_ne by done.
    by eapply (al_chain _ _ _ Hs).
  - intros e' c' n' [[<- [= <- <-]]|[Hne He']]%lookup_insert_Some.
    + split; [done|]. intros Hn1. destruct (Hdown Hn1) as (a & Ha & Hp). exists a. split; [done|]. rewrite tmp_pos_insert.
      rewrite decide_False; [done|]. intros ->. congruence.
    + destruct (al_down _ _ _ Hs e' c' n' He') as [H1 H2]. split; [done|]. intros Hn1. destruct (H2 Hn1) as (a & Ha & Hp).
      exists a. split; [done|]. rewrite tmp_pos_insert, decide_False; [done|]. intros ->. congruence.
  - intros e1 e2 p. rewrite !tmp_pos_insert. case_decide; case_decide; subst.
    + done.
    + intros [= <-] He2. apply Hbelow in He2. lia.
    + intros He1 [= <-]. apply Hbelow in He1. lia.
    + apply (al_inj _ _ _ Hs).
  - intros e' a [He'| ->%list_elem_of_singleton]%elem_of_app Ha; rewrite elem_of_app.
    + destruct (al_auth _ _ _ Hs e' a He' Ha); tauto.
    + destruct (Hau a Ha); tauto.
  - intros e' a c' n1 n2 He' Ha. rewrite tmp_pos_insert. apply lookup_insert_Some in He' as [[<- [= <- <-]]|[Hne He']].
    + case_decide as Hae; [subst; destruct (Hau e Ha); done|]. apply Hbelow.
    + case_decide as Hae.
      * subst a. exfalso. assert (e' ∈ l) as Hel' by (apply (al_dom _ _ _ Hs); by apply elem_of_dom).
        destruct (al_auth _ _ _ Hs e' e Hel' Ha); done.
      * by eapply (al_order _ _ _ Hs).
Qed.

Lemma chain_parent_elem e l a : chain_parent types e l = Some a → a ∈ l.
Proof using Type.
  unfold chain_parent. intros Ha. destruct (List.filter _ l) as [|x k] eqn:E; [done|]. injection Ha as ->.
  apply list_elem_of_In. eapply (proj1 (List.filter_In _ _ _)). rewrite E. by left.
Qed.

(** One round of the loop *)
Lemma alloc_one_spec chains l s e :
  alloc_inv chains l s → e ∉ l → e ∉ dom old → (∀ a, a ∈ auths e → a ∈ l ∨ a ∈ dom cm) →
  (∀ a p, chain_parent types e (auths e) = Some a → cm !! a = Some p → p.1 ∈ chains) →
  ∃ s', alloc_one cm s (e, chain_parent types e (auths e)) = Ok s' ∧ alloc_inv chains (l ++ [e]) s'.
Proof using cm_old old_pos.
  intros Hs Hel Heo Hau Hch.
  assert (∀ a, a ∈ auths e → a ∈ l ∨ a ∈ dom old) as Hau'.
  { intros a Ha. destruct (Hau a Ha) as [?|Hc]; [by left|]. right. apply elem_of_dom in Hc as [p Hp]. apply elem_of_dom.
    exists p. by eapply lookup_weaken. }
  assert (alloc_inv chains (l ++ [e]) (take_pos s e (Temporary (unallocated s)) 1 (S (unallocated s)))) as Hfresh.
  { apply take_pos_inv; try done; [by right|]. intros m Hm. exfalso.
    assert (is_Some (chain_to_max_seq_no s !! Temporary (unallocated s))) as Hsome by eauto.
    apply (al_max _ _ _ Hs) in Hsome. lia. }
  unfold alloc_one. cbn [fst snd]. destruct (chain_parent types e (auths e)) as [a|] eqn:Ep; cbn [existing_pos mbind py_bind proposed_pos];
    [|by eexists].
  pose proof (chain_parent_elem _ _ _ Ep) as Ha.
  assert (∃ c n, existing_pos cm s (Some a) = Ok (Some (c, n)) ∧ tmp_pos (new_chain_tuples s) a = Some (c, n) ∧
    is_Some (chain_to_max_seq_no s !! c)) as (c & n & Hex & Hpos & [m Hm]).
  { unfold existing_pos, tmp_pos. destruct (new_chain_tuples s !! a) as [[c n]|] eqn:En.
    - exists c, n. split_and!; [done|done|]. by eapply (al_chain _ _ _ Hs).
    - destruct (Hau a Ha) as [Hal|Hac].
      { apply (al_dom _ _ _ Hs), elem_of_dom in Hal as [? ?]. congruence. }
      apply elem_of_dom in Hac as [[c n] Hcn]. rewrite Hcn. exists (Existing c), n. split_and!; [done| |].
      + by rewrite (lookup_weaken _ _ _ _ Hcn cm_old).
      + apply (al_max _ _ _ Hs). by apply (Hch a (c, n)). }
  cbn [existing_pos] in Hex. rewrite Hex. cbn [mbind py_bind proposed_pos]. rewrite Hm. cbn [mbind py_bind].
  destruct (m <? n + 1) eqn:E; to_prop; [|by eexists]. eexists. split; [done|]. apply take_pos_inv; try done.
  - pose proof (al_bound _ _ _ Hs a c n m Hpos Hm). assert (1 ≤ n); [|lia].
    unfold tmp_pos in Hpos. destruct (new_chain_tuples s !! a) as [p|] eqn:En.
    + injection Hpos as ->. by eapply (al_down _ _ _ Hs).
    + destruct (old !! a) as [[c' n']|] eqn:Eo; [|done]. injection Hpos as <- <-. by eapply old_pos.
  - left. split; [|done]. eauto.
  - intros m' Hm'. rewrite Hm in Hm'. injection Hm' as <-. lia.
  - intros _. exists a. split; [done|]. rewrite Hpos. do 2 f_equal. lia.
Qed.

Lemma chain_max_lookup chains c :
  chain_max_seq_nos t chains !! c =
    match c with Existing c => if decide (c ∈ chains) then max_seq_no t c else None | Temporary _ => None end.
Proof using Type.
  unfold chain_max_seq_nos.
  assert (∀ l, list_to_map (M := gmap tmp_chain Z) (omap (λ c, m ← max_seq_no t c; Some (Existing c, m)) l) !! c =
    match c with Existing c => if decide (c ∈ l) then max_seq_no t c else None | Temporary _ => None end) as Hl.
  { intros l. induction l as [|c' l IH]; cbn [omap list_omap].
    { cbn. rewrite lookup_empty. destruct c; [|done]. by rewrite decide_False by apply not_elem_of_nil. }
    destruct (max_seq_no t c') as [m|] eqn:Em; cbn.
    - destruct (decide (c = Existing c')) as [->|Hne].
      + rewrite lookup_insert_eq, decide_True by by left. done.
      + rewrite lookup_insert_ne, IH by done. destruct c as [c|]; [|done].
        apply decide_ext. assert (c ≠ c') by congruence. rewrite elem_of_cons. tauto.
    - rewrite IH. destruct c as [c|]; [|done]. destruct (decide (c = c')) as [->|Hne].
      + rewrite Em. by destruct (decide _), (decide _).
      + apply decide_ext. rewrite elem_of_cons. tauto. }
  rewrite Hl. destruct c as [c|]; [|done]. apply decide_ext. apply elem_of_elements.
Qed.

Lemma initial_alloc_inv chains : known_chains chains → alloc_inv chains [] (MkAlloc (chain_max_seq_nos t chains) 0 ∅).
Proof using cm_old old_pos old_inj.
  intros Hk.
  assert (∀ c, c ∈ chains → is_Some (max_seq_no t c)) as Hmax.
  { intros c Hc. destruct (Hk c Hc) as (e & s & He). destruct (max_seq_no_spec t c e s He) as (m & -> & _). eauto. }
  split; cbn [new_chain_tuples chain_to_max_seq_no unallocated].
  - intros e. rewrite dom_empty_L. set_solver.
  - intros c. rewrite chain_max_lookup. destruct c as [c|k]; [|split; [by intros [? ?]|lia]].
    case_decide; (split; [done|]); [auto|done].
  - intros e c n m. unfold tmp_pos. rewrite lookup_empty, chain_max_lookup. destruct (old !! e) as [[c' n']|] eqn:E; [|done].
    intros [= <- <-]. case_decide; [|done]. intros Hm. destruct (max_seq_no_spec t c' e n' E) as (m' & Hm' & Hle). congruence.
  - intros e c n. by rewrite lookup_empty.
  - intros e c n. by rewrite lookup_empty.
  - intros e e' p. unfold tmp_pos. rewrite !lookup_empty. destruct (old !! e) as [[c n]|] eqn:E1, (old !! e') as [[c' n']|] eqn:E2; try done.
    cbn. intros [= <-] [= -> ->]. by eapply old_inj.
  - intros e a He. by apply elem_of_nil in He.
  - intros e a c n n'. by rewrite lookup_empty.
Qed.

Lemma alloc_fold_spec chains order l s :
  alloc_inv chains l s → NoDup (l ++ order) → (∀ e, e ∈ order → e ∉ dom old) →
  (∀ k1 e k2 a, order = k1 ++ e :: k2 → a ∈ auths e → a ∈ l ++ k1 ∨ a ∈ dom cm) →
  (∀ e a p, e ∈ order → chain_parent types e (auths e) = Some a → cm !! a = Some p → p.1 ∈ chains) →
  ∃ s', py_fold (alloc_one cm) s (chain_tree types au order) = Ok s' ∧ alloc_inv chains (l ++ order) s'.
Proof using cm_old old_pos.
  revert l s. induction order as [|e order IH]; intros l s Hs Hnd Hnew Hau Hch; cbn [chain_tree map py_fold].
  { exists s. by rewrite app_nil_r. }
  destruct (alloc_one_spec chains l s e) as (s1 & Hs1 & Hinv1); [done| | | | |].
  - apply NoDup_app in Hnd as (_ & Hd & _). intros Hin. apply (Hd e Hin). by left.
  - apply Hnew. by left.
  - intros a Ha. destruct (Hau [] e order a eq_refl Ha) as [?|?]; [rewrite app_nil_r in *; by left|by right].
  - intros a p. apply Hch. by left.
  - rewrite Hs1. cbn [mbind py_bind]. destruct (IH (l ++ [e]) s1 Hinv1) as (s' & Hf & Hs').
    + by rewrite <- (assoc_L (++)).
    + intros e' He'. apply Hnew. by right.
    + intros k1 e' k2 a -> Ha. rewrite <- (assoc_L (++)). by apply (Hau (e :: k1) e' k2 a).
    + intros e' a p He'. apply Hch. by right.
    + exists s'. rewrite <- (assoc_L (++)) in Hs'. split; [exact Hf|exact Hs'].
Qed.

(** *** The result, with the real chain ids *)

Record allocated (order : list string) (new : gmap string pos) (taken : nat) : Prop := {
  all_dom : ∀ e, e ∈ dom new ↔ e ∈ order;
  all_pos : ∀ e c s, new !! e = Some (c, s) → 1 ≤ s ∧ c < next_chain_id t + Z.of_nat taken;
  all_down : ∀ e c s, new !! e = Some (c, s) → 1 < s → ∃ a, a ∈ auths e ∧ (new ∪ old) !! a = Some (c, s - 1);
  all_inj : ∀ e e' p, (new ∪ old) !! e = Some p → (new ∪ old) !! e' = Some p → e = e';
  all_order : ∀ e a c s s', new !! e = Some (c, s) → a ∈ auths e → (new ∪ old) !! a = Some (c, s') → s' < s;
}.

Lemma allocate_spec order :
  NoDup order → (∀ e, e ∈ order → e ∉ dom old) →
  (∀ k1 e k2 a, order = k1 ++ e :: k2 → a ∈ auths e → a ∈ k1 ∨ a ∈ dom cm) →
  ∃ new taken, allocate_chain_ids t types au order cm = Ok (new, taken) ∧ allocated order new taken.
Proof using cm_old old_pos old_inj.
  intros Hnd Hnew Hau. unfold allocate_chain_ids. set (tree := chain_tree types au order).
  set (chains := existing_chain_ids cm tree).
  assert (∀ e a p, e ∈ order → chain_parent types e (auths e) = Some a → cm !! a = Some p → p.1 ∈ chains) as Hch.
  { intros e a p He Ha Hp. subst chains. unfold existing_chain_ids. apply elem_of_list_to_set, list_elem_of_omap.
    exists (e, Some a). split; [|cbn; by rewrite Hp]. subst tree. unfold chain_tree. apply list_elem_of_fmap. exists e. by rewrite Ha. }
  assert (known_chains chains) as Hk.
  { intros c Hc. apply elem_of_list_to_set, list_elem_of_omap in Hc as ([e [a|]] & _ & Hc); [|done]. cbn in Hc.
    destruct (cm !! a) as [[c' n]|] eqn:E; [|done]. injection Hc as ->. exists a, n. by eapply lookup_weaken. }
  destruct (alloc_fold_spec chains order [] _ (initial_alloc_inv chains Hk) Hnd Hnew Hau Hch) as (s & Hs & Hinv). cbn [app] in Hinv.
  fold tree in Hs. rewrite Hs. cbn [mbind py_bind]. eexists _, _. split; [done|].
  set (new := (λ p, (real_chain (next_chain_id t) p.1, p.2)) <$> new_chain_tuples s).
  (* positions and temporary positions *)
  assert (∀ e c n, (new ∪ old) !! e = Some (c, n) ↔
    ∃ c', tmp_pos (new_chain_tuples s) e = Some (c', n) ∧ real_chain (next_chain_id t) c' = c) as Hpos.
  { intros e c n. subst new. unfold tmp_pos. rewrite lookup_union. rewrite lookup_fmap.
    destruct (new_chain_tuples s !! e) as [[c' n']|] eqn:En; cbn.
    - rewrite union_Some_l. split; [intros [= <- <-]; eauto|]. by intros (c'' & [= <- <-] & <-).
    - rewrite (left_id_L None (∪)). destruct (old !! e) as [[c' n']|]; cbn.
      + split; [intros [= <- <-]; by exists (Existing c')|]. by intros (c'' & [= <- <-] & <-).
      + split; [done|]. by intros (? & ? & _). }
  assert (∀ e c n, tmp_pos (new_chain_tuples s) e = Some (c, n) →
    match c with Existing c => c < next_chain_id t | Temporary k => (k < unallocated s)%nat end) as Hrange.
  { intros e c n. unfold tmp_pos. destruct (new_chain_tuples s !! e) as [p|] eqn:En.
    - intros [= ->]. apply (al_chain _ _ _ Hinv), (al_max _ _ _ Hinv) in En. destruct c as [c|k]; [|done].
      destruct (Hk c En) as (e' & n' & He'). by eapply old_pos.
    - destruct (old !! e) as [[c' n']|] eqn:Eo; [|done]. intros [= <- <-]. by eapply old_pos. }
  assert (∀ e e' c c' n n', tmp_pos (new_chain_tuples s) e = Some (c, n) → tmp_pos (new_chain_tuples s) e' = Some (c', n') →
    real_chain (next_chain_id t) c = real_chain (next_chain_id t) c' → c = c') as Hreal.
  { intros e e' c c' n n' He He' Hr. apply Hrange in He, He'. destruct c, c'; cbn in Hr; try (f_equal; lia); lia. }
  assert (∀ e c n, new !! e = Some (c, n) → ∃ c', new_chain_tuples s !! e = Some (c', n) ∧
    tmp_pos (new_chain_tuples s) e = Some (c', n) ∧ real_chain (next_chain_id t) c' = c) as Hnewpos.
  { intros e c n He. subst new. rewrite lookup_fmap in He. unfold tmp_pos. destruct (new_chain_tuples s !! e) as [[c' n']|]; [|done].
    injection He as <- <-. by exists c'. }
  split.
  - intros e. subst new. rewrite dom_fmap_L. apply (al_dom _ _ _ Hinv).
  - intros e c n He. apply Hnewpos in He as (c' & He & Hp & <-). split; [by eapply (al_down _ _ _ Hinv)|].
    apply Hrange in Hp. destruct c'; cbn; lia.
  - intros e c n He Hn. apply Hnewpos in He as (c' & He & Hp & <-).
    destruct (al_down _ _ _ Hinv e c' n He) as [_ Hd]. destruct (Hd Hn) as (a & Ha & Hpa). exists a. split; [done|].
    apply Hpos. by exists c'.
  - intros e e' [c n]. rewrite !Hpos. intros (c1 & H1 & R1) (c2 & H2 & R2).
    assert (c1 = c2) as <- by (eapply Hreal; [done|done|congruence]). by eapply (al_inj _ _ _ Hinv).
  - intros e a c n n' He Ha Hpa. apply Hnewpos in He as (c' & He & Hp & Hr). apply Hpos in Hpa as (c2 & Hp2 & Hr2).
    assert (c' = c2) as <- by (eapply Hreal; [done|done|congruence]). by eapply (al_order _ _ _ Hinv).
Qed.
End Alloc.

(** ** Links *)

Lemma permutations2_elem {A} (l : list A) a b : (a, b) ∈ permutations2 l → a ∈ l ∧ b ∈ l ∧ (NoDup l → a ≠ b).
Proof.
  unfold permutations2. rewrite list_elem_of_In, in_flat_map. intros ([x rest] & Hx%list_elem_of_In & Hin%list_elem_of_In).
  apply list_elem_of_fmap in Hin as (y & [= -> ->] & Hy). cbn in Hy |- *.
  assert (∀ before, (x, rest) ∈ picks before l → ∃ l1 l2, l = l1 ++ x :: l2 ∧ rest = before ++ l1 ++ l2) as Hp.
  { clear. induction l as [|z l IH]; intros before; cbn; [by intros ?%elem_of_nil|].
    intros [[= -> ->]|Hin]%elem_of_cons; [by exists [], l|]. destruct (IH _ Hin) as (l1 & l2 & -> & ->). exists (z :: l1), l2.
    split; [done|]. by rewrite <- (assoc_L (++)). }
  destruct (Hp [] Hx) as (l1 & l2 & -> & ->). cbn in Hy. split_and!.
  - apply elem_of_app. right. by left.
  - rewrite elem_of_app, elem_of_cons. apply elem_of_app in Hy. tauto.
  - intros Hnd ->. rewrite <- Permutation_middle in Hnd. by apply NoDup_cons in Hnd as [? _].
Qed.

Lemma permutations2_complete {A} (l : list A) a b : a ∈ l → b ∈ l → a ≠ b → (a, b) ∈ permutations2 l.
Proof.
  intros Ha Hb Hne. unfold permutations2. rewrite list_elem_of_In, in_flat_map.
  assert (∀ before, ∃ rest, (a, rest) ∈ picks before l ∧ (b ∈ before ++ l → b ∈ rest)) as Hp.
  { clear Hb. induction l as [|z l IH]; intros before; [by apply elem_of_nil in Ha|]. cbn.
    apply elem_of_cons in Ha as [<-|Ha].
    - exists (before ++ l). split; [by left|]. rewrite !elem_of_app, elem_of_cons. naive_solver.
    - destruct (IH Ha (before ++ [z])) as (rest & Hr & Hb). exists rest. split; [by right|]. intros Hb'. apply Hb.
      by rewrite <- (assoc_L (++)). }
  destruct (Hp []) as (rest & Hr & Hbr). exists (a, rest). rewrite <- !list_elem_of_In. split; [done|].
  apply list_elem_of_fmap. exists b. split; [done|]. by apply Hbr.
Qed.

Lemma pos_of_Ok ap e p : ap !! e = Some p → pos_of ap e = Ok p.
Proof. unfold pos_of. by intros ->. Qed.

Lemma reduction_spec ap lm c auth :
  (∀ a, a ∈ auth → a ∈ dom ap) →
  ∃ r, reduction ap lm c auth = Ok r ∧
    (∀ a, a ∈ r → a ∈ auth ∧ ∃ p, ap !! a = Some p ∧ p.1 ≠ c) ∧
    ∀ a p, a ∈ auth → ap !! a = Some p → p.1 ≠ c → a ∉ r →
      ∃ b q, (b, a) ∈ permutations2 auth ∧ ap !! b = Some q ∧ path (in_maps (maps lm)) q p.
Proof.
  intros Hdom. unfold reduction.
  assert (∀ l (r0 : gset string), (∀ a, a ∈ l → a ∈ dom ap) →
    ∃ r, py_fold (λ r a, p ← pos_of ap a; Ok (if p.1 =? c then r else {[a]} ∪ r)) r0 l = Ok r ∧
      ∀ a, a ∈ r ↔ a ∈ r0 ∨ a ∈ l ∧ ∃ p, ap !! a = Some p ∧ p.1 ≠ c) as Hstart.
  { intros l. induction l as [|a l IH]; intros r0 Hl; cbn [py_fold].
    { exists r0. split; [done|]. intros a. split; [by left|]. by intros [?|[?%elem_of_nil _]]. }
    assert (is_Some (ap !! a)) as [p Hp] by (apply elem_of_dom, Hl; by left). rewrite (pos_of_Ok ap a p Hp). cbn [mbind py_bind].
    destruct (IH (if p.1 =? c then r0 else {[a]} ∪ r0)) as (r & Hr & Hin); [intros; apply Hl; by right|].
    exists r. split; [exact Hr|]. intros b. rewrite Hin, elem_of_cons. destruct (p.1 =? c) eqn:E; to_prop.
    - split; [tauto|]. intros [?|[[->|?] Hb]]; [by left| |tauto]. destruct Hb as (p' & Hp' & ?). congruence.
    - rewrite elem_of_union, elem_of_singleton. split; [|tauto]. intros [[->|?]|?]; [|by left|tauto]. right. split; [by left|]. eauto. }
  destruct (Hstart auth ∅ Hdom) as (r1 & -> & Hr1). cbn [mbind py_bind].
  assert (∀ l (r0 : gset string), (∀ x, x ∈ l → x.1 ∈ dom ap ∧ x.2 ∈ dom ap) →
    ∃ r, py_fold (λ r '(a, b), p ← pos_of ap a; q ← pos_of ap b; reaches ← fueled (exists_path_from lm p q);
        Ok (if reaches : bool then r ∖ {[b]} else r)) r0 l = Ok r ∧ r ⊆ r0 ∧
      ∀ b, b ∈ r0 → b ∉ r → ∃ a p q, (a, b) ∈ l ∧ ap !! a = Some p ∧ ap !! b = Some q ∧ path (in_maps (maps lm)) p q) as Hperm.
  { intros l. induction l as [|[a b] l IH]; intros r0 Hl; cbn [py_fold]; [by exists r0|].
    destruct (Hl (a, b)) as [[p Hp]%elem_of_dom [q Hq]%elem_of_dom]; [by left|]. cbn in Hp, Hq.
    rewrite (pos_of_Ok ap a p Hp), (pos_of_Ok ap b q Hq). cbn [mbind py_bind].
    destruct (exists_path_from_total lm p q) as [reach Hreach]. rewrite Hreach. cbn [fueled mbind py_bind].
    destruct (IH (if reach then r0 ∖ {[b]} else r0)) as (r & Hr & Hsub & Hout); [intros; apply Hl; by right|].
    exists r. split; [exact Hr|]. split; [etrans; [exact Hsub|]; destruct reach; [apply subseteq_difference_l|]; done|].
    intros x Hx Hxr.
    destruct (decide (x ∈ (if reach then r0 ∖ {[b]} else r0))) as [Hin|Hnin].
    - destruct (Hout x Hin Hxr) as (a' & p' & q' & ? & ?). exists a', p', q'. split; [by right|done].
    - destruct reach; [|done]. destruct (decide (x = b)) as [->|Hne]; [|exfalso; apply Hnin, elem_of_difference; by rewrite elem_of_singleton].
      exists a, p, q. split_and!; [by left|done|done|].
      by apply exists_path_from_sound. }
  destruct (Hperm (permutations2 auth) r1) as (r & Hr & Hsub & Hout).
  { intros [a b] (Ha & Hb & _)%permutations2_elem. split; by apply Hdom. }
  exists r. split; [exact Hr|]. split.
  - intros a Ha. apply Hsub, Hr1 in Ha as [?%elem_of_empty|?]; done.
  - intros a p Ha Hp Hc Har. destruct (Hout a) as (b & q & p' & Hin & Hq & Hp' & Hpath); [|done|].
    + apply Hr1. right. split; [done|]. eauto.
    + simplify_eq. by exists b, q.
Qed.

Section Links.
Context (t : chain_tables) (au : gmap string (list string)) (cm new : gmap string pos) (order : list string) (taken : nat).
Context (auth0 : string → string → Prop) (rank : string → nat).
Abbreviation old := (event_auth_chains t).
Abbreviation old_links := (event_auth_chain_links t).
Abbreviation auths e := (default [] (au !! e)).
Context (Hold : covers auth0 old (.∈ old_links)) (Hcm : cm ⊆ old) (Hall : allocated t au order new taken).
Context (Hdisj : new ##ₘ old) (Hau : ∀ e a, e ∈ order → a ∈ auths e → a ∈ dom (new ∪ cm)).
Context (Hnodup : ∀ e, e ∈ order → NoDup (auths e)).

(** The auth graph with the new events *)
Definition auth1 (e a : string) : Prop := if decide (e ∈ dom new) then a ∈ auths e else auth0 e a.
Context (Hrank : ∀ e a, e ∈ dom (new ∪ old) → auth1 e a → (rank a < rank e)%nat).

Definition new_link (res : gmap string NewEventChainLinks) (l : chain_link) : Prop :=
  ∃ e n q, res !! e = Some n ∧ q ∈ nl_links n ∧ l = (nl_chain_id n, nl_sequence_number n, q.1, q.2).
Definition all_link (res : gmap string NewEventChainLinks) (l : chain_link) : Prop := l ∈ old_links ∨ new_link res l.

Record link_inv (done_events : list string) (acc : LinkMap * gmap string NewEventChainLinks) : Prop := {
  li_maps : ∀ l, in_maps (maps acc.1) l → all_link acc.2 l;
  li_pos : (λ n, (nl_chain_id n, nl_sequence_number n)) <$> acc.2 = new;
  li_links : ∀ e n q, acc.2 !! e = Some n → q ∈ nl_links n →
    nl_chain_id n ≠ q.1 ∧ ∃ a, a ∈ auths e ∧ (new ∪ old) !! a = Some q;
  li_done : ∀ e a p q, e ∈ done_events → a ∈ auths e → new !! e = Some p → (new ∪ old) !! a = Some q → path (all_link acc.2) p q;
}.

Lemma cm_all a p : (new ∪ cm) !! a = Some p → (new ∪ old) !! a = Some p.
Proof using Hcm.
  rewrite !lookup_union_Some_raw. intros [?|[? ?]]; [by left|]. right. split; [done|]. by eapply lookup_weaken.
Qed.

Lemma all_lookup_new e p : new !! e = Some p → (new ∪ old) !! e = Some p.
Proof using Type. intros He. by apply lookup_union_Some_l. Qed.

Lemma all_lookup_old e p : old !! e = Some p → (new ∪ old) !! e = Some p.
Proof using Hdisj. intros He. by apply lookup_union_Some_r. Qed.

Lemma old_not_new e p : old !! e = Some p → e ∉ dom new.
Proof using Hdisj.
  intros He Hd. apply elem_of_dom in Hd as [q Hq]. apply map_disjoint_dom in Hdisj.
  apply (Hdisj e); by apply elem_of_dom.
Qed.

Lemma new_sound done_events acc : link_inv done_events acc → index_sound auth1 (new ∪ old) (all_link acc.2).
Proof using Hold Hall Hdisj.
  intros Hinv. pose proof (cov_sound _ _ _ Hold) as Hs. split.
  - apply (all_inj _ _ _ _ _ Hall).
  - intros e c s [He|He]%lookup_union_Some; [by eapply (all_pos _ _ _ _ _ Hall)| |done]. by eapply (cov_pos _ _ _ Hs).
  - intros e c s He Hgt. unfold auth1. apply lookup_union_Some in He as [He|He]; [| |done].
    + destruct (all_down _ _ _ _ _ Hall e c s He Hgt) as (a & Ha & Hp). exists a. split; [done|].
      rewrite decide_True; [done|]. by apply elem_of_dom.
    + destruct (cov_down _ _ _ Hs e c s He Hgt) as (a & Ha & Hea). exists a. split; [by apply all_lookup_old|].
      rewrite decide_False; [done|]. by eapply old_not_new.
  - intros c os tc ts [Hl|(e & n & q & He & Hq & [= -> -> -> ->])].
    + destruct (cov_link _ _ _ Hs c os tc ts Hl) as (Hne & e & a & He & Ha & Hea). split; [done|]. exists e, a.
      split_and!; [by apply all_lookup_old|by apply all_lookup_old|]. unfold auth1. rewrite decide_False; [done|]. by eapply old_not_new.
    + destruct (li_links _ _ Hinv e n q He Hq) as (Hne & a & Ha & Hpa). split; [done|]. exists e, a.
      assert (new !! e = Some (nl_chain_id n, nl_sequence_number n)) as Hnew.
      { rewrite <- (li_pos _ _ Hinv), lookup_fmap, He. done. }
      split_and!; [by apply all_lookup_new|by destruct q|]. unfold auth1. rewrite decide_True; [done|]. by apply elem_of_dom.
Qed.

Lemma new_link_insert (res : gmap string NewEventChainLinks) e n q l :
  res !! e = Some n →
  new_link (<[e := NewLinks (nl_chain_id n) (nl_sequence_number n) (nl_links n ++ [q])]> res) l ↔
  new_link res l ∨ l = (nl_chain_id n, nl_sequence_number n, q.1, q.2).
Proof using Type.
  intros He. unfold new_link. split.
  - intros (e' & n' & q' & [[<- <-]|[Hne He']]%lookup_insert_Some & Hq & ->); [|left; eauto 10].
    cbn in *. apply elem_of_app in Hq as [?| ->%list_elem_of_singleton]; [left; eauto 10|by right].
  - intros [(e' & n' & q' & He' & Hq & ->)| ->].
    + destruct (decide (e' = e)) as [->|Hne].
      * simplify_eq. eexists e, _, q'. rewrite lookup_insert_eq. split; [done|]. split; [|done]. cbn. apply elem_of_app. by left.
      * exists e', n', q'. by rewrite lookup_insert_ne.
    + eexists e, _, q. rewrite lookup_insert_eq. split; [done|]. split; [|done]. cbn. apply elem_of_app. right. by left.
Qed.

(** The loop over the reduced auth events of an event *)
Lemma add_links_spec done_events e p rs acc :
  link_inv done_events acc → new !! e = Some p →
  (∀ a, a ∈ rs → a ∈ auths e ∧ ∃ q, (new ∪ cm) !! a = Some q ∧ q.1 ≠ p.1) →
  ∃ acc', py_fold (λ acc a,
      q ← pos_of (new ∪ cm) a;
      match acc.2 !! e with
      | None => Raise KeyError
      | Some n =>
          '(_, links) ← add_link acc.1 p q true;
          Ok (links, <[e := NewLinks (nl_chain_id n) (nl_sequence_number n) (nl_links n ++ [q])]> acc.2)
      end) acc rs = Ok acc' ∧ link_inv done_events acc' ∧ (∀ l, all_link acc.2 l → all_link acc'.2 l) ∧
    ∀ a q, a ∈ rs → (new ∪ cm) !! a = Some q → all_link acc'.2 (p.1, p.2, q.1, q.2).
Proof using Hcm.
  intros Hinv He. revert acc Hinv. induction rs as [|a rs IH]; intros acc Hinv Hrs; cbn [py_fold].
  { exists acc. split_and!; [done|done|done|]. by intros a q ?%elem_of_nil. }
  destruct (Hrs a) as (Ha & q & Hq & Hne); [by left|]. rewrite (pos_of_Ok _ a q Hq). cbn [mbind py_bind].
  destruct (acc.2 !! e) as [n|] eqn:En.
  2:{ exfalso. pose proof (li_pos _ _ Hinv) as Hp. rewrite <- Hp, lookup_fmap, En in He. done. }
  assert (p = (nl_chain_id n, nl_sequence_number n)) as ->.
  { pose proof (li_pos _ _ Hinv) as Hp. rewrite <- Hp, lookup_fmap, En in He. by injection He. }
  destruct q as [tc ts]. destruct (add_link_spec acc.1 (nl_chain_id n) (nl_sequence_number n) tc ts true) as (b & m & -> & Hm);
    [cbn in Hne; congruence|]. cbn [mbind py_bind]. set (acc1 := (m, _)).
  assert (∀ l, all_link acc1.2 l ↔ all_link acc.2 l ∨ l = (nl_chain_id n, nl_sequence_number n, tc, ts)) as Hl1.
  { intros l. unfold all_link. cbn [snd acc1]. rewrite (new_link_insert acc.2 e n (tc, ts) l En). cbn. tauto. }
  destruct (IH acc1) as (acc' & Hf & Hinv' & Hmono & Hlast).
  - split.
    + intros l Hl. apply Hl1. apply Hm in Hl as [?| ->]; [left; by apply (li_maps _ _ Hinv)|by right].
    + cbn. rewrite <- (li_pos _ _ Hinv), fmap_insert. cbn. apply insert_id. by rewrite lookup_fmap, En.
    + intros e' n' q'. cbn. intros [[<- <-]|[Hne' He']]%lookup_insert_Some Hq'; [|by eapply (li_links _ _ Hinv)].
      cbn in *. apply elem_of_app in Hq' as [?| ->%list_elem_of_singleton]; [by eapply (li_links _ _ Hinv)|].
      split; [cbn in *; congruence|]. exists a. split; [done|]. by apply cm_all.
    + intros e' a' p' q' He' Ha' Hp' Hq'. eapply path_mono; [|by eapply (li_done _ _ Hinv)]. intros l Hl. apply Hl1. by left.
  - intros a' Ha'. apply Hrs. by right.
  - exists acc'. split_and!; [exact Hf|done| |].
    + intros l Hl. apply Hmono, Hl1. by left.
    + intros a' q' [->|Ha']%elem_of_cons Hq'; [|by apply (Hlast a')]. simplify_eq. apply Hmono, Hl1. by right.
Qed.

Lemma link_one_spec done_events e acc :
  link_inv done_events acc → e ∈ order →
  ∃ acc', link_one (new ∪ cm) au acc e = Ok acc' ∧ link_inv (done_events ++ [e]) acc'.
Proof using Hold Hall Hdisj Hcm Hau Hnodup Hrank.
  intros Hinv He. assert (is_Some (new !! e)) as [p Hp] by (apply elem_of_dom; by apply (all_dom _ _ _ _ _ Hall)).
  unfold link_one. rewrite (pos_of_Ok (new ∪ cm) e p) by by apply lookup_union_Some_l. cbn [mbind py_bind].
  destruct (reduction_spec (new ∪ cm) acc.1 p.1 (auths e)) as (r & -> & Hr & Hout); [by intros a Ha; eapply Hau|].
  cbn [mbind py_bind].
  destruct (add_links_spec done_events e p (elements r) acc Hinv Hp) as (acc' & Hf & Hinv' & Hmono & Hlast).
  { intros a Ha. apply elem_of_elements in Ha. destruct (Hr a Ha) as (? & q & ? & ?). eauto. }
  exists acc'. split; [exact Hf|]. pose proof (new_sound _ _ Hinv') as Hsound.
  split; [apply Hinv'|apply Hinv'|apply Hinv'|].
  intros e' a p' q [He'|He']%elem_of_app Ha Hp' Hq; [by eapply (li_done _ _ Hinv')|].
  apply list_elem_of_singleton in He' as ->. assert (p' = p) as -> by congruence.
  (* auth events that can be reached from another one are reached through it *)
  remember (rank e - rank a)%nat as k eqn:Ek. revert a q Ha Hq Ek.
  induction (lt_wf k) as [k _ IH]. intros a q Ha Hq ->.
  destruct (decide (q.1 = p.1)) as [Hc|Hc].
  { destruct p as [c s], q as [c' s']. cbn in Hc. subst c'. constructor.
    pose proof (all_order _ _ _ _ _ Hall e a c s s' Hp Ha Hq). lia. }
  assert ((new ∪ cm) !! a = Some q) as Hq'.
  { pose proof (Hau e a He Ha) as [q' Hq']%elem_of_dom. rewrite Hq'. rewrite (cm_all a q' Hq') in Hq. done. }
  destruct (decide (a ∈ r)) as [Hin|Hnin].
  - destruct p as [c s], q as [c' s']. eapply path_link; [|apply (Hlast a _ (proj2 (elem_of_elements _ _) Hin) Hq')|apply path_refl].
    cbn. lia.
  - destruct (Hout a q Ha Hq' Hc Hnin) as (b & qb & Hpair & Hqb & Hpath).
    apply permutations2_elem in Hpair as (Hb & _ & Hne). specialize (Hne (Hnodup e He)).
    assert (path (all_link acc'.2) qb q) as Hpath'.
    { eapply path_mono; [|done]. intros l Hl. apply Hmono. by apply (li_maps _ _ Hinv). }
    apply cm_all in Hqb. eapply path_trans; [|done].
    assert (rtc auth1 b a) as Hba by by eapply path_sound.
    assert (rank a < rank b)%nat as Hlt.
    { assert (∀ x y, rtc auth1 x y → x ∈ dom (new ∪ old) → (x = y ∨ rank y < rank x)%nat) as Hdown.
      { clear -Hrank Hau Hall Hold Hcm. induction 1 as [x|x y z Hxy Hyz IH]; intros Hx; [by left|]. right.
        pose proof (Hrank x y Hx Hxy). assert (y ∈ dom (new ∪ old)) as Hy.
        { unfold auth1 in Hxy. case_decide as Hd.
          - assert (y ∈ dom (new ∪ cm)) as [q Hq]%elem_of_dom by (eapply Hau; [|done]; by apply (all_dom _ _ _ _ _ Hall)).
            apply elem_of_dom. exists q. by apply cm_all.
          - apply elem_of_dom in Hx as [q Hq]. apply lookup_union_Some_raw in Hq as [Hq|[_ Hq]]; [destruct Hd; by apply elem_of_dom|].
            destruct (cov_auth _ _ _ Hold x q y Hq Hxy) as (q' & Hq' & _). rewrite dom_union_L. apply elem_of_union. right. by apply elem_of_dom. }
        destruct (IH Hy) as [->|]; lia. }
      destruct (Hdown b a Hba) as [->|]; [by apply elem_of_dom|done|done]. }
    assert (rank b < rank e)%nat.
    { apply Hrank; [apply elem_of_dom; exists p; by apply all_lookup_new|]. unfold auth1. rewrite decide_True; [done|]. by apply elem_of_dom. }
    eapply (IH (rank e - rank b)%nat); [lia|exact Hb|exact Hqb|done].
Qed.

Lemma links_fold_spec l done_events acc :
  link_inv done_events acc → (∀ e, e ∈ l → e ∈ order) →
  ∃ acc', py_fold (link_one (new ∪ cm) au) acc l = Ok acc' ∧ link_inv (done_events ++ l) acc'.
Proof using Hold Hall Hdisj Hcm Hau Hnodup Hrank.
  revert done_events acc. induction l as [|e l IH]; intros done_events acc Hinv Hl; cbn [py_fold].
  { exists acc. by rewrite app_nil_r. }
  destruct (link_one_spec done_events e acc Hinv) as (acc1 & -> & Hinv1); [apply Hl; by left|]. cbn [mbind py_bind].
  destruct (IH _ acc1 Hinv1) as (acc' & Hf & Hinv'); [intros; apply Hl; by right|].
  exists acc'. rewrite <- (assoc_L (++)) in Hinv'. split; [exact Hf|exact Hinv'].
Qed.

Lemma link_inv_covers acc : link_inv order acc → covers auth1 (new ∪ old) (all_link acc.2).
Proof using Hold Hall Hdisj Hcm Hau.
  intros Hinv. split; [by eapply new_sound|]. intros e p a He Hea. unfold auth1 in Hea.
  apply lookup_union_Some in He as [He|He]; [| |done].
  - assert (e ∈ order) as Hin by (apply (all_dom _ _ _ _ _ Hall); by apply elem_of_dom).
    rewrite decide_True in Hea by by apply elem_of_dom.
    assert (is_Some ((new ∪ cm) !! a)) as [q Hq] by (apply elem_of_dom; by eapply Hau).
    apply cm_all in Hq. exists q. split; [done|]. by eapply (li_done _ _ Hinv e a).
  - rewrite decide_False in Hea by by eapply old_not_new.
    destruct (cov_auth _ _ _ Hold e p a He Hea) as (q & Hq & Hpath). exists q. split; [by apply all_lookup_old|].
    eapply path_mono; [|done]. intros l Hl. by left.
Qed.
End Links.

(** Links of the table after [persist_chain_cover_index] *)
Lemma persist_links t new l :
  l ∈ event_auth_chain_links (persist_chain_cover_index t new) ↔ all_link t new l.
Proof.
  unfold all_link, new_link. cbn. rewrite elem_of_app, (list_elem_of_In (flat_map _ _)), in_flat_map. split.
  - intros [?|([e n] & Hin & Hl)]; [by left|]. right. apply list_elem_of_In, elem_of_map_to_list in Hin.
    apply list_elem_of_In, list_elem_of_fmap in Hl as (q & -> & Hq). by exists e, n, q.
  - intros [?|(e & n & q & He & Hq & ->)]; [by left|]. right. exists (e, n). split; [by apply list_elem_of_In, elem_of_map_to_list|].
    apply list_elem_of_In, list_elem_of_fmap. by exists q.
Qed.
