(* ===== verification/ChainGather.v ===== *)
(** * Which events get a position

    The first part of [calculate_chain_cover_index]: the events that are to get a
    position are those given, those that waited for it, and those stored out of band
    that they need, except when some auth event is not known. *)

From S2P Require Import Prelude TopoSort IterUtils ChainCover ChainPaths ChainBuild.

Open Scope Z_scope.

Section Gather.
Context (t : chain_tables) (graph : string → list string).
Abbreviation old := (event_auth_chains t).
Abbreviation stored := (t_state_events t).
Abbreviation to_calc := events_to_calc_chain_id_for.
(** The table [event_auth] has the auth events of the state events that are stored. *)
Context (Hstored : ∀ e, e ∈ dom stored → stored_auth t e = graph e).
Context (rooms : gmap string string).

Record gather_inv (s : calc_state) : Prop := {
  ga_auth : ∀ e l, event_to_auth_chain s !! e = Some l → l = graph e;
  ga_none : ∀ e, e ∈ to_calc s → event_to_auth_chain s !! e = None → graph e = [];
  ga_map : chain_map s ⊆ old;
  ga_new : ∀ e, e ∈ to_calc s → e ∉ dom old;
  ga_types : ∀ e, e ∈ dom (event_to_types s) ↔ e ∈ to_calc s ∨ e ∈ dom (chain_map s);
  ga_from : ∀ e, e ∈ to_calc s → e ∈ dom rooms ∨ e ∈ dom stored;
}.

Record fetched_one (s : calc_state) (m : gset string) (x : string) (s' : calc_state) (m' : gset string) : Prop := {
  fo_inv : gather_inv s';
  fo_missing : m ⊆ m';
  fo_types : ∀ e, e ∈ dom (event_to_types s') ↔ e ∈ dom (event_to_types s) ∨ e = x ∧ e ∈ dom stored;
  fo_calc : ∀ e, e ∈ to_calc s' ↔ e ∈ to_calc s ∨ e = x ∧ e ∈ dom stored ∧ e ∉ dom old;
  fo_auth : x ∈ dom stored → x ∉ dom old → ∀ a, a ∈ graph x → a ∈ dom (event_to_types s') ∨ a ∈ m';
  fo_only : ∀ a, a ∈ m' → a ∈ m ∨ a ∉ dom (event_to_types s) ∧ x ∈ dom stored ∧ x ∉ dom old ∧ a ∈ graph x;
}.

Lemma fetch_one_spec s m x : gather_inv s → let '(s', m') := fetch_one t (s, m) x in fetched_one s m x s' m'.
Proof using Hstored.
  intros Hs. unfold fetch_one. destruct (stored !! x) as [ty|] eqn:Es.
  2:{ assert (x ∉ dom stored) as Hx by by apply not_elem_of_dom. split; [done|done| | |done|by left].
      - intros e. split; [by left|]. by intros [?|[-> ?]].
      - intros e. split; [by left|]. by intros [?|(-> & ? & _)]. }
  assert (x ∈ dom stored) as Hd by by apply elem_of_dom. destruct (old !! x) as [p|] eqn:Eo.
  - assert (x ∈ dom old) as Hdo by by apply elem_of_dom.
    assert (∀ e, e ∈ dom (<[x := ty]> (event_to_types s)) ↔ e = x ∨ e ∈ dom (event_to_types s)) as Hdt
      by (intros e; rewrite dom_insert_L, elem_of_union, elem_of_singleton; done).
    split; cbn.
    + split; cbn; [apply Hs|apply Hs| |apply Hs| |apply Hs].
      * apply insert_subseteq_l; [done|apply Hs].
      * intros e. rewrite Hdt, dom_insert_L, elem_of_union, elem_of_singleton, (ga_types _ Hs). tauto.
    + done.
    + intros e. rewrite Hdt. split; [intros [->|?]; [by right|by left]|]. intros [?|[-> _]]; [by right|by left].
    + intros e. split; [by left|]. intros [?|(-> & _ & ?)]; done.
    + done.
    + by left.
  - assert (x ∉ dom old) as Hdo by by apply not_elem_of_dom.
    assert (∀ e, e ∈ dom (<[x := ty]> (event_to_types s)) ↔ e = x ∨ e ∈ dom (event_to_types s)) as Hdt
      by (intros e; rewrite dom_insert_L, elem_of_union, elem_of_singleton; done).
    split; cbn.
    + split; cbn.
      * intros e l [[<- <-]|[_ He]]%lookup_insert_Some; [by apply Hstored|by apply Hs].
      * intros e He Hnone. apply lookup_insert_None in Hnone as [Hnone Hne]. apply Hs; [|done].
        apply elem_of_union in He as [->%elem_of_singleton|?]; done.
      * apply Hs.
      * intros e [->%elem_of_singleton|He]%elem_of_union; [done|by apply Hs].
      * intros e. rewrite Hdt, elem_of_union, elem_of_singleton, (ga_types _ Hs). tauto.
      * intros e [->%elem_of_singleton|He]%elem_of_union; [by right|by apply Hs].
    + apply union_subseteq_l.
    + intros e. rewrite Hdt. split; [intros [->|?]; [by right|by left]|]. intros [?|[-> _]]; [by right|by left].
    + intros e. rewrite elem_of_union, elem_of_singleton. split; [intros [->|?]; [by right|by left]|].
      intros [?|(-> & _ & _)]; [by right|by left].
    + intros _ _ a Ha. rewrite elem_of_union, elem_of_list_to_set, (Hstored x Hd).
      destruct (<[x := ty]> (event_to_types s) !! a) eqn:Ea; [left; by apply elem_of_dom|]. right. right.
      apply list_elem_of_In, filter_In. split; [by apply list_elem_of_In|]. by apply bool_decide_eq_true.
    + intros a [?|Ha]%elem_of_union; [by left|]. right. apply elem_of_list_to_set, list_elem_of_In, filter_In in Ha as [Hin Ha]. to_prop.
      apply lookup_insert_None in Ha as [Ha _]. split_and!; [by apply not_elem_of_dom|done|done|].
      rewrite <- (Hstored x Hd). by apply list_elem_of_In.
Qed.

Record fetched (s : calc_state) (m : gset string) (l : list string) (s' : calc_state) (m' : gset string) : Prop := {
  fs_inv : gather_inv s';
  fs_missing : m ⊆ m';
  fs_types : ∀ e, e ∈ dom (event_to_types s') ↔ e ∈ dom (event_to_types s) ∨ e ∈ l ∧ e ∈ dom stored;
  fs_calc : ∀ e, e ∈ to_calc s' ↔ e ∈ to_calc s ∨ e ∈ l ∧ e ∈ dom stored ∧ e ∉ dom old;
  fs_auth : ∀ x a, x ∈ l → x ∈ dom stored → x ∉ dom old → a ∈ graph x → a ∈ dom (event_to_types s') ∨ a ∈ m';
  fs_only : ∀ a, a ∈ m' → a ∈ m ∨ a ∉ dom (event_to_types s) ∧ ∃ x, x ∈ l ∧ x ∈ dom stored ∧ x ∉ dom old ∧ a ∈ graph x;
}.

Lemma fetch_fold_spec l s m : gather_inv s → let '(s', m') := foldl (fetch_one t) (s, m) l in fetched s m l s' m'.
Proof using Hstored.
  revert s m. induction l as [|x l IH]; intros s m Hs; cbn [foldl].
  { split; [done|done| | |by intros x a ?%elem_of_nil|by left]; intros e; (split; [by left|]); by intros [?|[?%elem_of_nil _]]. }
  pose proof (fetch_one_spec s m x Hs) as H1. destruct (fetch_one t (s, m) x) as [s1 m1].
  pose proof (IH s1 m1 (fo_inv _ _ _ _ _ H1)) as H2. destruct (foldl (fetch_one t) (s1, m1) l) as [s' m'].
  split.
  - apply H2.
  - etrans; [apply H1|apply H2].
  - intros e. rewrite (fs_types _ _ _ _ _ H2), (fo_types _ _ _ _ _ H1), elem_of_cons. naive_solver.
  - intros e. rewrite (fs_calc _ _ _ _ _ H2), (fo_calc _ _ _ _ _ H1), elem_of_cons. naive_solver.
  - intros y a [->|Hy]%elem_of_cons Hys Hyo Ha; [|by eapply (fs_auth _ _ _ _ _ H2)].
    destruct (fo_auth _ _ _ _ _ H1 Hys Hyo a Ha) as [Ht|Hm].
    + left. apply (fs_types _ _ _ _ _ H2). by left.
    + right. by apply (fs_missing _ _ _ _ _ H2).
  - intros a Ha. destruct (fs_only _ _ _ _ _ H2 a Ha) as [Hm|[Hn (y & Hy & Hy')]].
    + destruct (fo_only _ _ _ _ _ H1 a Hm) as [?|[? ?]]; [by left|]. right. split; [done|]. exists x. split; [by left|done].
    + right. split; [intros Hin; apply Hn, (fo_types _ _ _ _ _ H1); by left|]. exists y. split; [by right|done].
Qed.

(** Known auth events: with a type (to be calculated, or with a position), not
    stored, or still missing *)
Definition settled (s : calc_state) (missing : gset string) : Prop :=
  ∀ e a, e ∈ to_calc s → a ∈ graph e → a ∈ dom (event_to_types s) ∨ a ∉ dom stored ∨ a ∈ missing.

Lemma fetch_round s missing :
  gather_inv s → settled s missing →
  let '(s', missing') := foldl (fetch_one t) (s, ∅) (elements missing) in
  fetched s ∅ (elements missing) s' missing' ∧ settled s' missing'.
Proof using Hstored.
  intros Hs Hset. pose proof (fetch_fold_spec (elements missing) s ∅ Hs) as Hf.
  destruct (foldl (fetch_one t) (s, ∅) (elements missing)) as [s' m']. split; [done|].
  intros e a He Ha. apply (fs_calc _ _ _ _ _ Hf) in He as [He|(Hl & Hst & Ho)].
  - destruct (Hset e a He Ha) as [?|[?|Hm]].
    + left. apply (fs_types _ _ _ _ _ Hf). by left.
    + right. by left.
    + destruct (decide (a ∈ dom stored)) as [Hd|]; [|right; by left]. left. apply (fs_types _ _ _ _ _ Hf). right.
      split; [by apply elem_of_elements|done].
  - destruct (fs_auth _ _ _ _ _ Hf e a Hl Hst Ho Ha) as [?|?]; [by left|]. right. by right.
Qed.

(** *** The loop ends *)

Definition untyped (s : calc_state) : nat := size (dom stored ∖ dom (event_to_types s)).

Lemma settled_missing_none n s missing :
  gather_inv s → settled s missing → (∀ x, x ∈ missing → x ∉ dom stored) →
  ∃ s', fetch_missing t (S n) s missing = Some s' ∧ gather_inv s' ∧ settled s' ∅ ∧ to_calc s ⊆ to_calc s'.
Proof using Hstored.
  intros Hs Hset Hm. cbn [fetch_missing]. pose proof (fetch_round s missing Hs Hset) as Hr.
  destruct (elements missing) as [|x l] eqn:El.
  { exists s. split_and!; try done. assert (missing = ∅) as -> by by apply elements_empty_inv, leibniz_equiv in El. done. }
  destruct (foldl (fetch_one t) (s, ∅) (x :: l)) as [s' m'] eqn:Ef.
  assert (∀ y, y ∈ x :: l → y ∉ dom stored) as Hl by (intros y Hy; apply Hm; apply elem_of_elements; by rewrite El).
  assert (s' = s ∧ m' = ∅) as [-> ->].
  { revert Ef Hl. clear. generalize (x :: l) as k. intros k. revert s. induction k as [|y k IH]; intros s; cbn [foldl]; [by intros [= <- <-]|].
    unfold fetch_one at 2. intros Ef Hl. assert (stored !! y = None) as Hy by (apply not_elem_of_dom, Hl; by left). rewrite Hy in Ef.
    apply IH; [done|]. intros z Hz. apply Hl. by right. }
  destruct Hr as [_ Hset']. exists s. split_and!; try done. destruct n; cbn [fetch_missing]; by rewrite elements_empty.
Qed.

(** Events that the query returned before have had their auth events looked up. *)
Definition looked_up (s : calc_state) (missing : gset string) : Prop :=
  ∀ y a, y ∈ missing → y ∈ dom stored → y ∈ dom (event_to_types s) → y ∉ dom old → a ∈ graph y → a ∈ dom stored →
    a ∈ dom (event_to_types s) ∨ a ∈ missing.

Lemma fetch_missing_total fuel s missing :
  gather_inv s → settled s missing → looked_up s missing → (untyped s + 2 ≤ fuel)%nat →
  ∃ s', fetch_missing t fuel s missing = Some s' ∧ gather_inv s' ∧ settled s' ∅ ∧ to_calc s ⊆ to_calc s'.
Proof using Hstored.
  revert s missing. induction fuel as [|fuel IH]; intros s missing Hs Hset Hlook Hf; [lia|].
  cbn [fetch_missing]. pose proof (fetch_round s missing Hs Hset) as Hr.
  destruct (elements missing) as [|x0 l0] eqn:El.
  { exists s. split_and!; try done. assert (missing = ∅) as -> by by apply elements_empty_inv, leibniz_equiv in El. done. }
  rewrite <- El in *. destruct (foldl (fetch_one t) (s, ∅) (elements missing)) as [s' m']. destruct Hr as [Hfe Hset'].
  assert (dom (event_to_types s) ⊆ dom (event_to_types s')) as Hsub
    by (intros e He; apply (fs_types _ _ _ _ _ Hfe); by left).
  assert (to_calc s ⊆ to_calc s') as Hcalc by (intros e He; apply (fs_calc _ _ _ _ _ Hfe); by left).
  assert (looked_up s' m') as Hlook'.
  { intros y a Hy Hys Hyt Hyo Ha _. destruct (fs_only _ _ _ _ _ Hfe y Hy) as [?%elem_of_empty|[Hn _]]; [done|].
    apply (fs_types _ _ _ _ _ Hfe) in Hyt as [?|[Hin _]]; [done|]. by apply (fs_auth _ _ _ _ _ Hfe y). }
  destruct (decide (Exists (λ x, x ∈ dom stored ∧ x ∉ dom (event_to_types s)) (elements missing))) as [Hex|Hno].
  - apply Exists_exists in Hex as (x & Hx & Hxs & Hxt). destruct (IH s' m') as (s2 & -> & ? & ? & ?); [apply Hfe|done|done| |].
    + assert (untyped s' < untyped s)%nat; [|lia]. unfold untyped. apply subset_size. split.
      * intros e. rewrite !elem_of_difference. naive_solver.
      * intros Hle. assert (x ∈ dom stored ∖ dom (event_to_types s')) as Hin by (apply Hle; by apply elem_of_difference).
        apply elem_of_difference in Hin as [_ Hin]. apply Hin, (fs_types _ _ _ _ _ Hfe). by right.
    + exists s2. split_and!; try done. by etrans.
  - rewrite <- Forall_Exists_neg, Forall_forall in Hno. destruct fuel as [|fuel]; [lia|].
    destruct (settled_missing_none fuel s' m') as (s2 & -> & ? & ? & ?); [apply Hfe|done| |].
    + intros y Hy Hys. destruct (fs_only _ _ _ _ _ Hfe y Hy) as [?%elem_of_empty|[Hn (x & Hx & Hxs & Hxo & Ha)]]; [done|].
      assert (∀ z, z ∈ missing → z ∈ dom stored → z ∈ dom (event_to_types s)) as Hall.
      { intros z Hz Hzs. destruct (decide (z ∈ dom (event_to_types s))) as [|Hzn]; [done|]. exfalso.
        apply (Hno z); [by apply elem_of_elements|done]. }
      apply elem_of_elements in Hx. destruct (Hlook x y Hx Hxs (Hall x Hx Hxs) Hxo Ha Hys) as [?|Hym]; [done|].
      by apply Hn, Hall.
    + exists s2. split_and!; try done. by etrans.
Qed.

(** *** Discarding *)

Context (rank : string → nat) (Hrank : ∀ e a, a ∈ graph e → (rank a < rank e)%nat).
Context (Hrooms : ∀ e r, rooms !! e = Some r → r ≠ EmptyString).

Record discarded (s0 : calc_state) (l : list string) (s : calc_state) (t' : chain_tables) : Prop := {
  di_types : event_to_types s = event_to_types s0;
  di_auth : event_to_auth_chain s = event_to_auth_chain s0;
  di_map : chain_map s = chain_map s0;
  di_sub : ∀ e, e ∈ to_calc s → e ∈ to_calc s0;
  di_kept : ∀ e, e ∈ to_calc s0 → e ∉ l → e ∈ to_calc s;
  di_out : ∀ e, e ∈ to_calc s0 → e ∉ to_calc s →
    (∃ a, a ∈ graph e ∧ a ∉ dom (chain_map s) ∧ a ∉ to_calc s) ∧ (e ∈ dom rooms → e ∈ dom (event_auth_chain_to_calculate t'));
  di_ok : ∀ e a, e ∈ l → e ∈ to_calc s → a ∈ graph e → a ∈ dom (chain_map s) ∨ a ∈ to_calc s;
  di_tables : t_event_auth t' = t_event_auth t ∧ t_state_events t' = t_state_events t ∧ event_auth_chains t' = event_auth_chains t ∧
    event_auth_chain_links t' = event_auth_chain_links t ∧ next_chain_id t' = next_chain_id t ∧
    ∀ w, w ∈ dom (event_auth_chain_to_calculate t') → w ∈ dom (event_auth_chain_to_calculate t) ∨ w ∈ dom rooms;
}.

Lemma discard_one_spec s0 l s t' e :
  gather_inv s0 → dom rooms ⊆ dom (event_to_types s0) → discarded s0 l s t' → e ∉ l → e ∈ dom (event_to_auth_chain s0) →
  (∀ x, x ∈ l → e ∉ graph x) →
  ∃ s1 t1, discard_one rooms (s, t') e = Ok (s1, t1) ∧ discarded s0 (l ++ [e]) s1 t1.
Proof using Hrank Hrooms.
  intros Hs0 Hty Hd Hel [es Hes]%elem_of_dom Hlater. pose proof (ga_auth _ Hs0 e es Hes) as ->.
  unfold discard_one. rewrite (di_auth _ _ _ _ Hd), Hes. cbn [default from_option id].
  destruct (forallb _ (graph e)) eqn:Ef.
  - rewrite forallb_forall in Ef.
    assert (∀ a, a ∈ graph e → a ∈ dom (chain_map s) ∨ a ∈ to_calc s) as Hok.
    { intros a Ha. apply list_elem_of_In, Ef in Ha. apply orb_true_iff in Ha as [Ha|Ha]; to_prop; [by left|by right]. }
    exists s, t'. split; [done|]. destruct Hd. split; try done.
    + intros x Hx Hxl. apply di_kept0; [done|]. intros Hin. apply Hxl, elem_of_app. by left.
    + intros x a [Hx|Hx]%elem_of_app; [by apply di_ok0|]. apply list_elem_of_singleton in Hx as ->. intros _. apply Hok.
  - set (s1 := MkCalc _ _ _ _).
    assert (∃ a, a ∈ graph e ∧ a ∉ dom (chain_map s) ∧ a ∉ to_calc s) as (a & Ha & Ham & Hac).
    { apply not_true_iff_false in Ef. rewrite forallb_forall in Ef.
      destruct (decide (Exists (λ a, a ∉ dom (chain_map s) ∧ a ∉ to_calc s) (graph e))) as [Hex|Hno].
      - apply Exists_exists in Hex as (a & ? & ? & ?). eauto.
      - exfalso. apply Ef. intros a Ha. rewrite <- Forall_Exists_neg, Forall_forall in Hno. apply list_elem_of_In in Ha.
        specialize (Hno a Ha). apply orb_true_iff. rewrite !bool_decide_eq_true. destruct (decide (a ∈ dom (chain_map s))); [by left|].
        right. destruct (decide (a ∈ to_calc s)); [done|tauto]. }
    assert (∃ t1, (match rooms !! e with
      | None | Some EmptyString => Ok (s1, t')
      | Some room_id => match event_to_types s !! e with
          | None => Raise KeyError
          | Some (e_type, state_key) =>
            Ok (s1, MkTables (t_event_auth t') (t_state_events t') (event_auth_chains t') (event_auth_chain_links t')
                      (<[e := (room_id, e_type, state_key)]> (event_auth_chain_to_calculate t')) (next_chain_id t'))
          end end) = Ok (s1, t1) ∧ (e ∈ dom rooms → e ∈ dom (event_auth_chain_to_calculate t1)) ∧
      dom (event_auth_chain_to_calculate t') ⊆ dom (event_auth_chain_to_calculate t1) ∧
      t_event_auth t1 = t_event_auth t' ∧ t_state_events t1 = t_state_events t' ∧ event_auth_chains t1 = event_auth_chains t' ∧
      event_auth_chain_links t1 = event_auth_chain_links t' ∧ next_chain_id t1 = next_chain_id t' ∧
      ∀ w, w ∈ dom (event_auth_chain_to_calculate t1) → w ∈ dom (event_auth_chain_to_calculate t') ∨ w ∈ dom rooms)
      as (t1 & Hr & Hin & Hsub & E1 & E2 & E3 & E4 & E5 & E6).
    { destruct (rooms !! e) as [r|] eqn:Er.
      2:{ exists t'. split_and!; try done; [|by left]. intros Hin. apply elem_of_dom in Hin as [? ?]. congruence. }
      destruct r as [|ch r]; [by destruct (Hrooms e EmptyString Er)|].
      assert (is_Some (event_to_types s !! e)) as [[ty k] Hk].
      { rewrite (di_types _ _ _ _ Hd). apply elem_of_dom, Hty. by apply elem_of_dom. }
      rewrite Hk. eexists. split; [done|]. cbn. rewrite dom_insert_L.
      split_and!; try done; [intros _; apply elem_of_union; left; by apply elem_of_singleton|apply union_subseteq_r|].
      intros w [->%elem_of_singleton|?]%elem_of_union; [right; by apply elem_of_dom|by left]. }
    exists s1, t1. split; [exact Hr|]. destruct Hd as [D1 D2 D3 D4 D5 D6 D7 (T1 & T2 & T3 & T4 & T5 & T6)].
    assert (∀ x, x ∈ to_calc s1 ↔ x ∈ to_calc s ∧ x ≠ e) as Hs1
      by (intros x; cbn; rewrite elem_of_difference, elem_of_singleton; done).
    split; cbn [s1 event_to_types event_to_auth_chain chain_map].
    + done.
    + done.
    + done.
    + intros x [Hx _]%Hs1. by apply D4.
    + intros x Hx Hxl. apply Hs1. rewrite elem_of_app, list_elem_of_singleton in Hxl. split; [apply D5; tauto|tauto].
    + intros x Hx Hn. destruct (decide (x = e)) as [->|Hne].
      * split; [|done]. exists a. split_and!; [done|done|]. intros [? _]%Hs1. done.
      * destruct (D6 x Hx) as [(b & Hb & Hbm & Hbc) Hr2]; [intros ?; apply Hn, Hs1; done|]. split.
        -- exists b. split_and!; [done|done|]. intros [? _]%Hs1. done.
        -- intros Hxr. apply Hsub. auto.
    + intros x b Hx Hxc Hb. apply Hs1 in Hxc as [Hxc Hne]. apply elem_of_app in Hx as [Hx|Hx]; [|by apply list_elem_of_singleton in Hx].
      destruct (D7 x b Hx Hxc Hb) as [?|Hbc]; [by left|]. right. apply Hs1. split; [done|]. intros ->. by apply (Hlater x Hx).
    + split_and!; try congruence. intros w [?|?]%E6; [by apply T6|by right].
Qed.

Lemma discard_fold_spec s0 order l s t' :
  gather_inv s0 → dom rooms ⊆ dom (event_to_types s0) → discarded s0 l s t' → NoDup (l ++ order) →
  (∀ e, e ∈ order → e ∈ dom (event_to_auth_chain s0)) →
  (∀ k1 e k2 a, l ++ order = k1 ++ e :: k2 → a ∈ graph e → a ∈ dom (event_to_auth_chain s0) → a ∈ k1) →
  ∃ s1 t1, py_fold (discard_one rooms) (s, t') order = Ok (s1, t1) ∧ discarded s0 (l ++ order) s1 t1.
Proof using Hrank Hrooms.
  intros Hs0 Hty. revert l s t'. induction order as [|e order IH]; intros l s t' Hd Hnd Hdom Hord; cbn [py_fold].
  { exists s, t'. by rewrite app_nil_r. }
  assert (e ∉ l) as Hel by (apply NoDup_app in Hnd as (_ & Hx & _); intros ?; apply (Hx e); [done|by left]).
  destruct (discard_one_spec s0 l s t' e) as (s1 & t1 & -> & Hd1); try done.
  - apply Hdom. by left.
  - intros x Hx He. apply list_elem_of_split in Hx as (k1 & k2 & ->).
    assert (e ∈ k1) as Hk; [|by apply Hel, elem_of_app; left].
    apply (Hord k1 x (k2 ++ e :: order) e); [by rewrite <- (assoc_L (++))|done|]. apply Hdom. by left.
  - cbn [mbind py_bind]. destruct (IH (l ++ [e]) s1 t1) as (s2 & t2 & Hf & Hd2); [done| | | |].
    + by rewrite <- (assoc_L (++)).
    + intros x Hx. apply Hdom. by right.
    + intros k1 x k2 a. rewrite <- (assoc_L (++)). apply Hord.
    + exists s2, t2. rewrite <- (assoc_L (++)) in Hd2. split; [exact Hf|exact Hd2].
Qed.

(** *** The whole of [gather] *)

Context (Hwait : ∀ w, w ∈ dom (event_auth_chain_to_calculate t) → w ∉ dom old ∧ w ∈ dom stored).
Context (Hindexed : dom old ⊆ dom stored).
Context (types : gmap string (string * string)) (auth : gmap string (list string)).
Context (Htypes : dom types = dom rooms) (Hnew : ∀ e, e ∈ dom rooms → e ∉ dom old).
Context (Hauth : ∀ e, e ∈ dom rooms → default [] (auth !! e) = graph e) (Hauth_dom : dom auth ⊆ dom rooms).

(** Before the queries: nothing has a position yet. *)
Record waiting_added (s : calc_state) : Prop := {
  wa_inv : gather_inv s;
  wa_map : chain_map s = ∅;
  wa_rooms : dom rooms ⊆ to_calc s;
}.

Lemma add_waiting_spec rs l s :
  waiting_added s → (∀ x, x ∈ l → x.1 ∈ dom (event_auth_chain_to_calculate t)) →
  waiting_added (foldl (add_waiting t rs) s l).
Proof using Hwait Hstored.
  revert s. induction l as [|[w [[r ty] k]] l IH]; intros s Hs Hl; cbn [foldl]; [done|].
  apply IH; [|intros; apply Hl; by right]. unfold add_waiting. case_decide; [|done].
  destruct (Hwait w) as [Hwo Hwa]; [by apply (Hl (w, (r, ty, k))); left|].
  destruct Hs as [[G1 G2 G3 G4 G5 G6] Hmap Hrs]. split; cbn; [|done|].
  - split; cbn.
    + intros e a [[<- <-]|[_ ?]]%lookup_insert_Some; [by apply Hstored|by apply G1].
    + intros e He Hn. apply lookup_insert_None in Hn as [Hn Hne]. apply G2; [|done].
      apply elem_of_union in He as [->%elem_of_singleton|?]; done.
    + done.
    + intros e [->%elem_of_singleton|He]%elem_of_union; [done|by apply G4].
    + intros e. rewrite dom_insert_L, !elem_of_union, elem_of_singleton, G5. tauto.
    + intros e [->%elem_of_singleton|He]%elem_of_union; [by right|by apply G6].
  - etrans; [done|]. apply union_subseteq_r.
Qed.

Lemma initial_missing_spec s : waiting_added s → settled s (initial_missing s) ∧ looked_up s (initial_missing s).
Proof using Type.
  intros [[G1 G2 G3 G4 G5 G6] Hmap Hrs].
  assert (∀ a, a ∈ initial_missing s ↔ a ∉ to_calc s ∧ ∃ e l, event_to_auth_chain s !! e = Some l ∧ a ∈ l) as Hm.
  { intros a. unfold initial_missing. rewrite elem_of_list_to_set, list_elem_of_In, filter_In, in_flat_map, negb_true_iff, bool_decide_eq_false.
    split.
    - intros [([e l] & Hin & Ha) Hn]. apply list_elem_of_In, elem_of_map_to_list in Hin. apply list_elem_of_In in Ha. eauto.
    - intros (Hn & e & l & He & Ha). split; [|done]. exists (e, l). rewrite <- !list_elem_of_In. split; [|done]. by apply elem_of_map_to_list. }
  split.
  - intros e a He Ha. destruct (event_to_auth_chain s !! e) as [l|] eqn:El; [|by rewrite (G2 e He El) in Ha; apply elem_of_nil in Ha].
    destruct (decide (a ∈ to_calc s)) as [Hac|Hac]; [left; apply G5; by left|]. right. right. apply Hm. split; [done|].
    exists e, l. split; [done|]. by rewrite (G1 e l El).
  - intros y a [Hy _]%Hm _ Hyt. apply G5 in Hyt. rewrite Hmap, dom_empty_L in Hyt. destruct Hyt as [?|?%elem_of_empty]; done.
Qed.

Record gathered (s : calc_state) (t' : chain_tables) : Prop := {
  gd_auth : ∀ e, e ∈ to_calc s → default [] (event_to_auth_chain s !! e) = graph e;
  gd_map : chain_map s ⊆ old;
  gd_new : ∀ e, e ∈ to_calc s → e ∉ dom old;
  gd_known : ∀ e a, e ∈ to_calc s → a ∈ graph e → a ∈ dom (chain_map s) ∨ a ∈ to_calc s;
  gd_progress : ∀ e, e ∈ dom rooms → e ∈ to_calc s ∨
    e ∈ dom (event_auth_chain_to_calculate t') ∧ ∃ a, a ∈ graph e ∧ a ∉ dom old ∧ a ∉ to_calc s;
  gd_origin : ∀ e, e ∈ to_calc s → e ∈ dom rooms ∨ e ∈ dom stored;
  gd_waiting : ∀ w, w ∈ dom (event_auth_chain_to_calculate t') →
    w ∈ dom (event_auth_chain_to_calculate t) ∨ w ∈ dom rooms;
  gd_tables : t_event_auth t' = t_event_auth t ∧ t_state_events t' = t_state_events t ∧ event_auth_chains t' = event_auth_chains t ∧
    event_auth_chain_links t' = event_auth_chain_links t ∧ next_chain_id t' = next_chain_id t;
}.

Lemma gather_spec : ∃ s t', gather t rooms types auth = Ok (s, t') ∧ gathered s t'.
Proof using All.
  unfold gather. set (rs := list_to_set _). set (s0 := MkCalc (dom rooms) types auth ∅).
  assert (waiting_added s0) as H0.
  { split; cbn; [|done|done]. split; cbn.
    - intros e l He. rewrite <- (Hauth e); [by rewrite He|]. apply Hauth_dom. by apply elem_of_dom.
    - intros e He Hn. rewrite <- (Hauth e He), Hn. done.
    - apply map_empty_subseteq.
    - done.
    - intros e. rewrite Htypes, dom_empty_L, elem_of_empty. tauto.
    - by left. }
  pose proof (add_waiting_spec rs (map_to_list (event_auth_chain_to_calculate t)) s0 H0) as Hw.
  set (s1 := foldl _ s0 _) in *.
  assert (waiting_added s1) as H1.
  { apply Hw. intros [w v] Hin%elem_of_map_to_list. by apply elem_of_dom. }
  clear Hw. destruct (initial_missing_spec s1 H1) as [Hset Hlook].
  destruct (fetch_missing_total (size stored + 3) s1 (initial_missing s1)) as (s2 & -> & Hi2 & Hset2 & Hsub2);
    [apply H1|done|done| |].
  { assert (untyped s1 ≤ size (dom stored))%nat; [unfold untyped; apply subseteq_size, subseteq_difference_l; done|]. rewrite size_dom in *. lia. }
  cbn [fueled mbind py_bind].
  destruct (sorted_topologically_spec (elements (dom (event_to_auth_chain s2))) (event_to_auth_chain s2) rank) as (order & -> & Hnd & Hin & Hord).
  { intros n es e _ Hn He _. rewrite (ga_auth _ Hi2 n es Hn) in He. by apply Hrank. }
  cbn [fueled mbind py_bind].
  assert (∀ e, e ∈ dom rooms → e ∈ to_calc s2) as Hr2 by (intros e He; apply Hsub2; by apply (wa_rooms _ H1)).
  destruct (discard_fold_spec s2 order [] s2 t) as (s3 & t3 & -> & Hd); try done.
  - intros e He. apply (ga_types _ Hi2). left. by apply Hr2.
  - split; try done; [by intros e a ?%elem_of_nil|]. split_and!; try done. by left.
  - intros e He. by apply elem_of_elements, Hin.
  - cbn [app]. intros k1 e k2 a -> Ha Had. destruct (event_to_auth_chain s2 !! e) as [es|] eqn:Ee.
    + apply (Hord k1 e k2 es a eq_refl Ee); [by rewrite (ga_auth _ Hi2 e es Ee)|by apply elem_of_elements].
    + exfalso. assert (e ∈ elements (dom (event_to_auth_chain s2))) as Hed by (apply Hin, elem_of_app; right; by left).
      apply elem_of_elements, elem_of_dom in Hed as [? ?]. congruence.
  - exists s3, t3. split; [done|]. destruct Hd as [D1 D2 D3 D4 D5 D6 D7 (T1 & T2 & T3 & T4 & T5 & T6)]. cbn [app] in *.
    assert (∀ e, e ∈ to_calc s3 → default [] (event_to_auth_chain s3 !! e) = graph e) as Hau3.
    { intros e He. rewrite D2. destruct (event_to_auth_chain s2 !! e) as [l|] eqn:El; cbn; [by apply (ga_auth _ Hi2)|].
      symmetry. apply (ga_none _ Hi2); [by apply D4|done]. }
    split; try done.
    + rewrite D3. apply Hi2.
    + intros e He. apply (ga_new _ Hi2). by apply D4.
    + intros e a He Ha. destruct (decide (e ∈ order)) as [Ho|Ho]; [by apply (D7 e)|]. exfalso.
      rewrite Hin, elem_of_elements in Ho. apply not_elem_of_dom in Ho.
      rewrite <- (Hau3 e He), D2, Ho in Ha. by apply elem_of_nil in Ha.
    + intros e He. destruct (decide (e ∈ to_calc s3)) as [|Hn]; [by left|right].
      destruct (D6 e (Hr2 e He) Hn) as [(a & Ha & Ham & Hac) Hcalc]. split; [by apply Hcalc|]. exists a. split_and!; [done| |done].
      intros Hao. pose proof (Hindexed a Hao) as Has. destruct (Hset2 e a (Hr2 e He) Ha) as [Ht|[?|?%elem_of_empty]]; [|done..].
      apply (ga_types _ Hi2) in Ht as [Hc|Hm]; [by apply (ga_new _ Hi2) in Hc|]. by rewrite D3 in Ham.
    + intros e He. apply (ga_from _ Hi2). by apply D4.
Qed.
End Gather.
