(* ===== verification/ChainIndex.v ===== *)
(** * The chain cover index stays a cover

    Persisting events keeps the tables consistent with the auth graph: positions and
    links cover the auth chains of the indexed events, and an event without a position
    waits for an auth event that has none. *)

From S2P Require Import Prelude TopoSort IterUtils ChainCover ChainPaths ChainBuild ChainGather.

Open Scope Z_scope.

Lemma covers_ext (auth auth' : string → string → Prop) at_pos R :
  (∀ e a, e ∈ dom at_pos → auth e a ↔ auth' e a) → covers auth at_pos R → covers auth' at_pos R.
Proof.
  intros Hext [[C1 C2 C3 C4] C5].
  assert (∀ e p, at_pos !! e = Some p → e ∈ dom at_pos) as Hd by (intros e p He; by apply elem_of_dom).
  split; [split; [done|done| |]|].
  - intros e c s He Hs. destruct (C3 e c s He Hs) as (a & Ha & Hea). exists a. split; [done|]. apply Hext; eauto.
  - intros c os tc ts Hl. destruct (C4 c os tc ts Hl) as (Hne & e & a & He & Ha & Hea). split; [done|]. exists e, a.
    split_and!; [done|done|]. apply Hext; eauto.
  - intros e p a He Hea. apply (C5 e p a He). apply Hext; eauto.
Qed.

Lemma covers_links (auth : string → string → Prop) at_pos (R R' : chain_link → Prop) :
  (∀ l, R l ↔ R' l) → covers auth at_pos R → covers auth at_pos R'.
Proof.
  intros Hext [[C1 C2 C3 C4] C5]. split; [split; [done|done|done|]|].
  - intros c os tc ts Hl. by apply C4, Hext.
  - intros e p a He Hea. destruct (C5 e p a He Hea) as (q & Hq & Hp). exists q. split; [done|].
    eapply path_mono; [|done]. intros l. apply Hext.
Qed.

Lemma load_all_links (P : chain_link → Prop) ds m :
  (∀ l, in_maps (maps m) l → P l) →
  (∀ d c os tc ts, d ∈ ds → (os, tc, ts) ∈ default [] (d !! c) → P (c, os, tc, ts) ∧ c ≠ tc) →
  ∃ m', py_fold load_links m ds = Ok m' ∧ ∀ l, in_maps (maps m') l → P l.
Proof.
  revert m. induction ds as [|d ds IH]; intros m Hm Hds; cbn [py_fold]; [by exists m|].
  destruct (load_links_spec P m d Hm) as (m1 & -> & Hm1); [intros; eapply Hds; [by left|done]|]. cbn [mbind py_bind].
  apply IH; [done|]. intros d' c os tc ts Hd'. apply Hds. by right.
Qed.

(** ** Events of a batch *)

Lemma distinct_state_events_elem seen l e :
  e ∈ distinct_state_events seen l → e ∈ l ∧ ie_is_state e = true.
Proof.
  revert seen. induction l as [|x l IH]; intros seen; cbn [distinct_state_events]; [by intros ?%elem_of_nil|].
  destruct (negb (ie_is_state x) || bool_decide (ie_id x ∈ seen)) eqn:E.
  - intros [? ?]%IH. split; [by right|done].
  - apply orb_false_iff in E as [E%negb_false_iff _]. intros [->|[? ?]%IH]%elem_of_cons; (split; [|done]); [by left|by right].
Qed.

Lemma distinct_state_events_all seen l e :
  e ∈ l → ie_is_state e = true → ie_id e ∈ seen ∨ ∃ e', e' ∈ distinct_state_events seen l ∧ ie_id e' = ie_id e.
Proof.
  revert seen. induction l as [|x l IH]; intros seen He Hs; [by apply elem_of_nil in He|]. cbn [distinct_state_events].
  destruct (negb (ie_is_state x) || bool_decide (ie_id x ∈ seen)) eqn:E.
  - apply elem_of_cons in He as [->|He]; [|by apply IH]. rewrite Hs in E. cbn in E. left. by apply bool_decide_eq_true in E.
  - apply elem_of_cons in He as [->|He]; [right; exists x; split; [by left|done]|].
    destruct (IH ({[ie_id x]} ∪ seen) He Hs) as [[Hx%elem_of_singleton|?]%elem_of_union|(e' & ? & ?)].
    + right. exists x. split; [by left|done].
    + by left.
    + right. exists e'. split; [by right|done].
Qed.

Lemma by_id_some {A} (f : index_event → A) l i v :
  by_id f l !! i = Some v → ∃ e, e ∈ l ∧ ie_id e = i ∧ f e = v.
Proof.
  unfold by_id. assert (∀ m : gmap string A, foldl (λ m e, <[ie_id e := f e]> m) m l !! i = Some v →
    m !! i = Some v ∨ ∃ e, e ∈ l ∧ ie_id e = i ∧ f e = v) as Hm.
  { induction l as [|x l IH]; intros m; cbn [foldl]; [by left|]. intros [Hx|(e & ? & ?)]%IH.
    - apply lookup_insert_Some in Hx as [[? ?]|[_ ?]]; [|by left]. right. exists x. split; [by left|done].
    - right. exists e. split; [by right|done]. }
  by intros [?|?]%Hm.
Qed.

Lemma by_id_dom {A} (f : index_event → A) l i : i ∈ dom (by_id f l) ↔ ∃ e, e ∈ l ∧ ie_id e = i.
Proof.
  unfold by_id. assert (∀ m : gmap string A, i ∈ dom (foldl (λ m e, <[ie_id e := f e]> m) m l) ↔ i ∈ dom m ∨ ∃ e, e ∈ l ∧ ie_id e = i) as Hm.
  { induction l as [|x l IH]; intros m; cbn [foldl].
    { split; [by left|]. by intros [?|(? & ?%elem_of_nil & _)]. }
    rewrite IH, dom_insert_L, elem_of_union, elem_of_singleton. setoid_rewrite elem_of_cons. naive_solver. }
  rewrite Hm, dom_empty_L. set_solver.
Qed.

Section Index.
Context (graph : string → list string) (rank : string → nat).
Abbreviation auth_edge := (λ e a : string, a ∈ graph e).

(** The auth graph has no cycles and lists an auth event once. *)
Record graph_ok : Prop := {
  gr_rank : ∀ e a, a ∈ graph e → (rank a < rank e)%nat;
  gr_nodup : ∀ e, NoDup (graph e);
}.

Record tables_ok (t : chain_tables) : Prop := {
  ok_stored : ∀ e, e ∈ dom (t_state_events t) → stored_auth t e = graph e;
  ok_event_auth : ∀ e, e ∉ dom (t_state_events t) → stored_auth t e = [];
  ok_indexed : dom (event_auth_chains t) ⊆ dom (t_state_events t);
  ok_waiting : ∀ w, w ∈ dom (event_auth_chain_to_calculate t) → w ∉ dom (event_auth_chains t) ∧ w ∈ dom (t_state_events t);
  ok_chains : ∀ e c s, event_auth_chains t !! e = Some (c, s) → c < next_chain_id t;
  ok_covers : covers auth_edge (event_auth_chains t) (.∈ event_auth_chain_links t);
}.

Context (Hgraph : graph_ok).

(** What a calculation adds to the tables *)
Record calculated (t : chain_tables) (rooms : gmap string string) (new : gmap string NewEventChainLinks) (t' : chain_tables) : Prop := {
  cal_covers : covers auth_edge (((λ n, (nl_chain_id n, nl_sequence_number n)) <$> new) ∪ event_auth_chains t) (all_link t new);
  cal_new : ∀ e, e ∈ dom new → e ∉ dom (event_auth_chains t) ∧ (e ∈ dom rooms ∨ e ∈ dom (t_state_events t));
  cal_chains : ∀ e n, new !! e = Some n → nl_chain_id n < next_chain_id t';
  cal_next : next_chain_id t ≤ next_chain_id t';
  cal_progress : ∀ e, e ∈ dom rooms → e ∈ dom new ∨
    e ∈ dom (event_auth_chain_to_calculate t') ∧ ∃ a, a ∈ graph e ∧ a ∉ dom (event_auth_chains t) ∧ a ∉ dom new;
  cal_waiting : ∀ w, w ∈ dom (event_auth_chain_to_calculate t') →
    w ∈ dom (event_auth_chain_to_calculate t) ∨ w ∈ dom rooms;
  cal_tables : t_event_auth t' = t_event_auth t ∧ t_state_events t' = t_state_events t ∧ event_auth_chains t' = event_auth_chains t ∧
    event_auth_chain_links t' = event_auth_chain_links t;
}.

Lemma new_links_pos (new : gmap string pos) :
  (λ n, (nl_chain_id n, nl_sequence_number n)) <$> ((λ p : pos, NewLinks p.1 p.2 []) <$> new) = new.
Proof using Type.
  rewrite <- map_fmap_compose. rewrite <- (map_fmap_id new) at 2. apply map_fmap_ext. by intros e [c s] _.
Qed.

(** The positions of the gathered events *)
Lemma positions_spec t rooms s t1 :
  tables_ok t → gathered t graph rooms s t1 →
  ∃ order new taken, sorted_topologically (elements (events_to_calc_chain_id_for s)) (event_to_auth_chain s) = Some order ∧
    allocate_chain_ids t1 (event_to_types s) (event_to_auth_chain s) order (chain_map s) = Ok (new, taken) ∧
    allocated t (event_to_auth_chain s) order new taken ∧ ∀ e, e ∈ order ↔ e ∈ events_to_calc_chain_id_for s.
Proof using Hgraph.
  intros Ht [G1 G2 G3 G4 _ _ _ (T1 & T2 & T3 & T4 & T5)].
  set (calc := events_to_calc_chain_id_for s) in *. set (au := event_to_auth_chain s) in *.
  destruct (sorted_topologically_spec (elements calc) au rank) as (order & -> & Hnd & Hin & Hord).
  { intros n es e Hn Hes Hee _. apply (gr_rank Hgraph). rewrite <- (G1 n) by by apply elem_of_elements. by rewrite Hes. }
  assert (∀ e, e ∈ order ↔ e ∈ calc) as Hoc by (intros e; rewrite Hin; apply elem_of_elements).
  destruct (allocate_spec t1 (event_to_types s) au (chain_map s)) with (order := order) as (new & taken & Hr & Hall).
  - rewrite T3. apply (ok_covers _ Ht).
  - intros e c n. rewrite T3, T5. intros He.
    split; [by eapply (cov_pos _ _ _ (cov_sound _ _ _ (ok_covers _ Ht)))|by eapply ok_chains].
  - by rewrite T3.
  - done.
  - intros e He. rewrite T3. by apply G3, Hoc.
  - intros k1 e k2 a Ho Ha. assert (e ∈ calc) as Hec by (apply Hoc; rewrite Ho; apply elem_of_app; right; by left).
    pose proof (G1 e Hec) as Hau. rewrite Hau in Ha. destruct (G4 e a Hec Ha) as [?|Hac]; [by right|left].
    destruct (au !! e) as [es|] eqn:Ee; cbn in Hau; [|rewrite <- Hau in Ha; by apply elem_of_nil in Ha].
    apply (Hord k1 e k2 es a Ho Ee); [by rewrite Hau|by apply elem_of_elements].
  - exists order, new, taken. split_and!; try done. destruct Hall as [A1 A2 A3 A4 A5]. rewrite T3 in *. rewrite T5 in *. by split.
Qed.

(** Their links *)
Lemma links_spec t rooms s t1 order new taken chains :
  tables_ok t → gathered t graph rooms s t1 → allocated t (event_to_auth_chain s) order new taken →
  (∀ e, e ∈ order ↔ e ∈ events_to_calc_chain_id_for s) →
  ∃ lm lm' res, py_fold load_links empty_link_map (chain_links t chains) = Ok lm ∧
    py_fold (link_one (new ∪ chain_map s) (event_to_auth_chain s)) (lm, (λ p, NewLinks p.1 p.2 []) <$> new) order = Ok (lm', res) ∧
    (λ n, (nl_chain_id n, nl_sequence_number n)) <$> res = new ∧
    covers auth_edge (new ∪ event_auth_chains t) (all_link t res).
Proof using Hgraph.
  intros Ht [G1 G2 G3 G4 _ _ _ _] Hal Hoc. set (au := event_to_auth_chain s) in *. pose proof (ok_covers _ Ht) as Hcov.
  destruct (load_all_links (.∈ event_auth_chain_links t) (chain_links t chains) empty_link_map) as (lm & -> & Hlm).
  { intros [[[c os] tc] ts]. unfold in_maps. cbn. by rewrite !lookup_empty. }
  { intros d c os tc ts Hd Hl. apply (get_chain_links_elem _ _ _ _ _ _ _ _ Hd) in Hl.
    split; [done|]. by eapply (cov_link _ _ _ (cov_sound _ _ _ Hcov)). }
  assert (new ##ₘ event_auth_chains t) as Hdisj.
  { apply map_disjoint_dom. intros e He Ho. apply (all_dom _ _ _ _ _ Hal), Hoc in He. by apply (G3 e). }
  assert (∀ e a, e ∈ dom (new ∪ event_auth_chains t) → auth1 au new auth_edge e a ↔ a ∈ graph e) as Hext.
  { intros e a _. unfold auth1. case_decide as Hd; [|done]. rewrite (G1 e); [done|]. by apply Hoc, (all_dom _ _ _ _ _ Hal). }
  assert (∀ e a, e ∈ order → a ∈ default [] (au !! e) → a ∈ dom (new ∪ chain_map s)) as Hknown.
  { intros e a He Ha. apply Hoc in He as Hec. rewrite (G1 e Hec) in Ha. rewrite dom_union_L, elem_of_union.
    destruct (G4 e a Hec Ha) as [?|Hac]; [by right|left]. by apply (all_dom _ _ _ _ _ Hal), Hoc. }
  destruct (links_fold_spec t au (chain_map s) new order taken auth_edge rank) with
    (l := order) (done_events := @nil string) (acc := (lm, (λ p, NewLinks p.1 p.2 []) <$> new)) as ([lm' res] & Hf & Hinv); try done.
  { intros e He. rewrite (G1 e) by by apply Hoc. apply Hgraph. }
  { intros e a He Ha. apply Hext in Ha; [|done]. by apply (gr_rank Hgraph). }
  { split; cbn [fst snd].
    - intros l Hl. left. by apply Hlm.
    - apply new_links_pos.
    - intros e n q He Hq. rewrite lookup_fmap in He. destruct (new !! e) as [p|]; [|done]. injection He as <-. by apply elem_of_nil in Hq.
    - by intros e a p q ?%elem_of_nil. }
  exists lm, lm', res. split_and!; [done|done|by apply (li_pos _ _ _ _ _ Hinv)|]. eapply covers_ext; [exact Hext|].
  by apply (link_inv_covers t au (chain_map s) new order taken auth_edge Hcov G2 Hal Hdisj Hknown (lm', res)).
Qed.

Lemma calculate_spec t rooms types auth :
  tables_ok t → (∀ e r, rooms !! e = Some r → r ≠ EmptyString) → dom types = dom rooms →
  (∀ e, e ∈ dom rooms → e ∉ dom (event_auth_chains t)) → (∀ e, e ∈ dom rooms → default [] (auth !! e) = graph e) →
  dom auth ⊆ dom rooms →
  ∃ new t', calculate_chain_cover_index t rooms types auth = Ok (new, t') ∧ calculated t rooms new t'.
Proof using Hgraph.
  intros Ht Hrooms Htypes Hnew Hauth Hauth_dom.
  destruct (gather_spec t graph (ok_stored _ Ht) rooms rank (gr_rank Hgraph) Hrooms (ok_waiting _ Ht) (ok_indexed _ Ht)
    types auth Htypes Hnew Hauth Hauth_dom) as (s & t1 & Hg & Hgd).
  unfold calculate_chain_cover_index. rewrite Hg. cbn [mbind py_bind]. clear Hg.
  pose proof Hgd as [_ _ G3 _ G5 G6 G7 (T1 & T2 & T3 & T4 & T5)].
  destruct (decide (events_to_calc_chain_id_for s = ∅)) as [He|Hne].
  { exists ∅, t1. split; [done|]. split; try done; [|lia|].
    - rewrite fmap_empty, map_empty_union. eapply covers_links; [|by apply ok_covers]. intros l. unfold all_link, new_link.
      split; [by left|]. by intros [?|(e & n & q & Hn & _)].
    - intros e Her. rewrite dom_empty_L. destruct (G5 e Her) as [Hin|[Hw (a & ? & ? & _)]]; [by rewrite He in Hin|].
      right. split; [done|]. exists a. split_and!; [done|done|]. apply not_elem_of_empty. }
  destruct (positions_spec t rooms s t1 Ht Hgd) as (order & new & taken & -> & Hnewp & Hal & Hoc). cbn [fueled mbind py_bind].
  rewrite Hnewp. cbn [mbind py_bind]. set (t2 := MkTables _ _ _ _ _ _).
  set (chains := list_to_set _).
  destruct (links_spec t rooms s t1 order new taken chains Ht Hgd Hal Hoc) as (lm & lm' & res & Hl & Hf & Hpos & Hcov).
  assert (chain_links t2 chains = chain_links t chains) as -> by (unfold chain_links; cbn; by rewrite T4).
  rewrite Hl. cbn [mbind py_bind]. exists res, t2. split; [by rewrite Hf|].
  assert (dom res = dom new) as Hdom by (rewrite <- Hpos; by rewrite dom_fmap_L).
  assert (∀ e, e ∈ dom res ↔ e ∈ events_to_calc_chain_id_for s) as Hrc by (intros e; rewrite Hdom, (all_dom _ _ _ _ _ Hal); apply Hoc).
  split; try done.
  - by rewrite Hpos.
  - intros e He%Hrc. split; [by apply G3|by apply G6].
  - intros e n Hn. assert (new !! e = Some (nl_chain_id n, nl_sequence_number n)) as Hn' by (rewrite <- Hpos, lookup_fmap, Hn; done).
    apply (all_pos _ _ _ _ _ Hal) in Hn' as [_ Hlt]. cbn. by rewrite T5.
  - cbn. rewrite T5. lia.
  - intros e He. rewrite Hrc. destruct (G5 e He) as [Hc|[Hw (a & Ha & Hao & Hac)]]; [by left|].
    right. split; [done|]. exists a. split_and!; [done|done|]. by rewrite Hrc.
Qed.

(** What is assumed of the events of a batch: once each, with the auth events that
    the graph has. *)
Record events_ok (events : list index_event) : Prop := {
  ev_nodup : NoDup (map ie_id events);
  ev_auth : ∀ e, e ∈ events → ie_auth e = graph (ie_id e);
  ev_room : ∀ e, e ∈ events → ie_room e ≠ EmptyString;
}.

Lemma calculated_none t : tables_ok t → calculated t ∅ ∅ t.
Proof using Type.
  intros Ht. split; try done; [|by left].
  rewrite fmap_empty, map_empty_union. eapply covers_links; [|by apply ok_covers]. intros l. unfold all_link, new_link.
  split; [by left|]. by intros [?|(e & n & q & Hn & _)].
Qed.

Definition room_indexed (has_index : gmap string (option bool)) (room_id : string) : Prop :=
  match has_index !! room_id with None | Some (Some false) => False | Some _ => True end.

(** The calculation for the events that have no position yet *)
Lemma calculate_new_spec t k :
  tables_ok t → (∀ e, e ∈ k → ie_auth e = graph (ie_id e) ∧ ie_room e ≠ EmptyString ∧ ie_id e ∉ dom (event_auth_chains t)) →
  ∃ rooms new t', match k with
      | [] => Ok (∅, t)
      | x :: l =>
          calculate_chain_cover_index t (by_id ie_room (x :: l)) (by_id (λ e, (ie_type e, default EmptyString (ie_state_key e))) (x :: l))
            (by_id ie_auth (x :: l))
      end = Ok (new, t') ∧ calculated t rooms new t' ∧ ∀ i, i ∈ dom rooms ↔ ∃ e, e ∈ k ∧ ie_id e = i.
Proof using Hgraph.
  intros Ht Hk. destruct k as [|x0 k0] eqn:Ek.
  { exists ∅, ∅, t. split_and!; [done|by apply calculated_none|]. intros i. rewrite dom_empty_L. set_solver. }
  rewrite <- Ek in *. clear x0 k0 Ek. exists (by_id ie_room k).
  assert (∀ i, i ∈ dom (by_id ie_auth k) ↔ i ∈ dom (by_id ie_room k)) as Hda by (intros i; by rewrite !by_id_dom).
  destruct (calculate_spec t (by_id ie_room k) (by_id (λ e, (ie_type e, default EmptyString (ie_state_key e))) k) (by_id ie_auth k))
    as (new & t' & -> & Hc); try done.
  - intros i r (e & He & _ & <-)%by_id_some. by apply Hk.
  - apply set_eq. intros i. by rewrite !by_id_dom.
  - intros i (e & He & <-)%by_id_dom. by apply Hk.
  - intros i Hi%Hda. apply elem_of_dom in Hi as [v Hv]. rewrite Hv. apply by_id_some in Hv as (e & He & <- & <-). by apply Hk.
  - intros i. by rewrite Hda.
  - exists new, t'. split_and!; [done|done|]. apply by_id_dom.
Qed.

Lemma calculate_for_events_spec t has_index room_id events :
  tables_ok t → events_ok events →
  ∃ rooms new t', calculate_chain_cover_index_for_events t has_index room_id events = Ok (new, t') ∧ calculated t rooms new t' ∧
    (∀ i, i ∈ dom rooms → i ∉ dom (event_auth_chains t) ∧ ∃ e, e ∈ events ∧ ie_is_state e = true ∧ ie_id e = i) ∧
    (room_indexed has_index room_id → ∀ e, e ∈ events → ie_is_state e = true →
       ie_id e ∈ dom rooms ∨ ie_id e ∈ dom (event_auth_chains t)).
Proof using Hgraph.
  intros Ht Hev. unfold calculate_chain_cover_index_for_events.
  pose proof (distinct_state_events_elem ∅ events) as Hsub. pose proof (distinct_state_events_all ∅ events) as Hall.
  destruct (distinct_state_events ∅ events) as [|x0 l0] eqn:El.
  { exists ∅, ∅, t. split_and!; [done|by apply calculated_none|done|]. intros _ e He Hs.
    by destruct (Hall e He Hs) as [?%elem_of_empty|(? & ?%elem_of_nil & _)]. }
  rewrite <- El in *. clear x0 l0 El. set (l := distinct_state_events ∅ events) in *.
  unfold calculate_chain_cover_index_for_events_txn, room_indexed.
  destruct (has_index !! room_id) as [b|]; [|exists ∅, ∅, t; by split_and!; [|apply calculated_none| |]].
  set (k := List.filter _ l).
  assert (∀ e, e ∈ k ↔ e ∈ l ∧ ie_id e ∉ dom (event_auth_chains t)) as Hk.
  { intros e. subst k. rewrite (list_elem_of_In (List.filter _ _)), filter_In, <- list_elem_of_In, negb_true_iff, bool_decide_eq_false. done. }
  assert (∀ e, e ∈ events → ie_is_state e = true → (∃ e', e' ∈ k ∧ ie_id e' = ie_id e) ∨ ie_id e ∈ dom (event_auth_chains t)) as Hcov.
  { intros e He Hs. destruct (Hall e He Hs) as [?%elem_of_empty|(e' & He' & Heq)]; [done|].
    destruct (decide (ie_id e ∈ dom (event_auth_chains t))); [by right|left]. exists e'. split; [|done]. apply Hk. by rewrite Heq. }
  destruct (calculate_new_spec t k Ht) as (rooms & new & t' & Hr & Hc & Hd).
  { intros e [He Hn]%Hk. apply Hsub in He as [He _]. split_and!; [by apply (ev_auth _ Hev)|by apply (ev_room _ Hev)|done]. }
  assert (∀ i, i ∈ dom rooms → i ∉ dom (event_auth_chains t) ∧ ∃ e, e ∈ events ∧ ie_is_state e = true ∧ ie_id e = i) as Hrooms.
  { intros i (e & [He Hn]%Hk & <-)%Hd. split; [done|]. exists e. apply Hsub in He as [? ?]. done. }
  destruct b as [[]|]; [exists rooms, new, t'|exists ∅, ∅, t; by split_and!; [|apply calculated_none| |]|exists rooms, new, t'];
    (split_and!; [exact Hr|done|done|]); intros _ e He Hs; destruct (Hcov e He Hs) as [?|?]; [left; by apply Hd|by right|left; by apply Hd|by right].
Qed.

(** *** Storing the rows *)

Lemma store_state_events_spec t l :
  let t' := foldl store_state_event t l in
  (∀ i, i ∈ dom (t_state_events t') ↔ i ∈ dom (t_state_events t) ∨ ∃ e, e ∈ l ∧ ie_is_state e = true ∧ ie_id e = i) ∧
  t_event_auth t' = t_event_auth t ∧ event_auth_chains t' = event_auth_chains t ∧ event_auth_chain_links t' = event_auth_chain_links t ∧
  event_auth_chain_to_calculate t' = event_auth_chain_to_calculate t ∧ next_chain_id t' = next_chain_id t.
Proof using Type.
  revert t. induction l as [|x l IH]; intros t; cbn [foldl].
  { split_and!; try done. intros i. split; [by left|]. by intros [?|(? & ?%elem_of_nil & _)]. }
  destruct (IH (store_state_event t x)) as (D & ? & ? & ? & ? & ?). unfold store_state_event in *. unfold ie_is_state in *.
  destruct (ie_state_key x) as [key|] eqn:Ek; cbn in *; split_and!; try done; intros i; rewrite D.
  - rewrite dom_insert_L, elem_of_union, elem_of_singleton. setoid_rewrite elem_of_cons. split.
    + intros [[->|?]|(e & ? & ? & ?)]; [right; exists x; rewrite Ek; auto|by left|right; eauto].
    + intros [?|(e & [->|?] & ? & <-)]; [by left; right|by left; left|right; eauto].
  - setoid_rewrite elem_of_cons. split; [intros [?|(e & ? & ? & ?)]; [by left|right; eauto]|].
    intros [?|(e & [->|?] & Hs & ?)]; [by left|by rewrite Ek in Hs|right; eauto].
Qed.

Lemma add_auth_rows_spec id l m i :
  default [] (foldl (add_auth_row id) m l !! i) = default [] (m !! i) ++ (if decide (i = id) then l else []).
Proof using Type.
  revert m. induction l as [|a l IH]; intros m; cbn [foldl]; [case_decide; by rewrite app_nil_r|].
  rewrite IH. unfold add_auth_row. case_decide as E.
  - subst i. rewrite lookup_insert_eq. cbn. by rewrite <- (assoc_L (++)).
  - by rewrite lookup_insert_ne.
Qed.

Lemma store_event_auths_spec t l :
  NoDup (map ie_id l) →
  let t' := foldl store_event_auth t l in
  (∀ i, (∀ e, e ∈ l → ie_is_state e = true → ie_id e ≠ i) → stored_auth t' i = stored_auth t i) ∧
  (∀ e, e ∈ l → ie_is_state e = true → stored_auth t' (ie_id e) = stored_auth t (ie_id e) ++ ie_auth e) ∧
  t_state_events t' = t_state_events t ∧ event_auth_chains t' = event_auth_chains t ∧ event_auth_chain_links t' = event_auth_chain_links t ∧
  event_auth_chain_to_calculate t' = event_auth_chain_to_calculate t ∧ next_chain_id t' = next_chain_id t.
Proof using Type.
  revert t. induction l as [|x l IH]; intros t Hnd; cbn [foldl].
  { split_and!; try done. by intros e ?%elem_of_nil. }
  cbn [map] in Hnd. apply NoDup_cons in Hnd as [Hx Hnd]. destruct (IH (store_event_auth t x) Hnd) as (K1 & K2 & ? & ? & ? & ? & ?).
  assert (∀ i, stored_auth (store_event_auth t x) i = stored_auth t i ++ (if decide (i = ie_id x ∧ ie_is_state x = true) then ie_auth x else [])) as Hi.
  { intros i. unfold store_event_auth, stored_auth. destruct (ie_is_state x); cbn [t_event_auth].
    - rewrite add_auth_rows_spec. f_equal. apply decide_ext. tauto.
    - rewrite decide_False by by intros [_ ?]. by rewrite app_nil_r. }
  assert (t_state_events (store_event_auth t x) = t_state_events t ∧ event_auth_chains (store_event_auth t x) = event_auth_chains t ∧
    event_auth_chain_links (store_event_auth t x) = event_auth_chain_links t ∧
    event_auth_chain_to_calculate (store_event_auth t x) = event_auth_chain_to_calculate t ∧
    next_chain_id (store_event_auth t x) = next_chain_id t) as (? & ? & ? & ? & ?) by (unfold store_event_auth; by destruct (ie_is_state x)).
  split_and!; try congruence.
  - intros i Hn. rewrite K1 by (intros; apply Hn; [by right|done]). rewrite Hi, decide_False, app_nil_r; [done|].
    intros [-> ?]. by apply (Hn x); [left|..].
  - intros e [->|He]%elem_of_cons Hs.
    + rewrite K1, Hi, decide_True; [done..|]. intros e He _ Heq. apply Hx. rewrite <- Heq. by apply list_elem_of_fmap_2.
    + rewrite K2 by done. rewrite Hi, decide_False, app_nil_r; [done|]. intros [Heq _]. apply Hx. rewrite <- Heq. by apply list_elem_of_fmap_2.
Qed.

Lemma persist_event_auth_chain_fold t l new :
  persist_event_auth_chain t l new = foldl store_event_auth (persist_chain_cover_index t new) l.
Proof using Type.
  unfold persist_event_auth_chain.
  assert ((if decide (new = ∅) then t else persist_chain_cover_index t new) = persist_chain_cover_index t new) as ->.
  { case_decide as E; [subst|done]. destruct t. unfold persist_chain_cover_index. cbn.
    rewrite map_to_list_empty, fmap_empty, map_empty_union, app_nil_r. cbn. rewrite map_filter_id; [done|].
    intros e v _. cbn. by rewrite dom_empty_L. }
  destruct (existsb ie_is_state l) eqn:E; [done|]. generalize (persist_chain_cover_index t new) as t'. intros t'.
  induction l as [|x l IH]; [done|]. cbn in E. apply orb_false_iff in E as [E1 E2]. cbn [foldl].
  assert (store_event_auth t' x = t') as -> by (unfold store_event_auth; by rewrite E1). by apply IH.
Qed.

Lemma unseen_elem t l e : e ∈ unseen_events t l ↔ e ∈ l ∧ ie_id e ∉ dom (t_state_events t).
Proof using Type.
  unfold unseen_events. by rewrite (list_elem_of_In (List.filter _ _)), filter_In, <- list_elem_of_In, negb_true_iff, bool_decide_eq_false.
Qed.

Lemma unseen_nodup t l : NoDup (map ie_id l) → NoDup (map ie_id (unseen_events t l)).
Proof using Type.
  induction l as [|x l IH]; cbn; [done|]. intros [Hx Hnd]%NoDup_cons. case_match; [|by apply IH]. cbn. apply NoDup_cons.
  split; [|by apply IH]. intros Hin. apply Hx. apply list_elem_of_fmap in Hin as (e & Heq & He). apply unseen_elem in He as [He _].
  rewrite Heq. by apply list_elem_of_fmap_2.
Qed.

(** The tables after the rows of a calculation are stored *)
Lemma stored_tables_ok t rooms new t' events :
  tables_ok t → events_ok events → calculated t rooms new t' →
  (∀ i, i ∈ dom rooms → i ∉ dom (event_auth_chains t) ∧ ∃ e, e ∈ events ∧ ie_is_state e = true ∧ ie_id e = i) →
  let t2 := persist_event_auth_chain (foldl store_state_event t' (unseen_events t' events)) (unseen_events t' events) new in
  tables_ok t2 ∧ (∀ i, i ∈ dom (event_auth_chains t2) ↔ i ∈ dom new ∨ i ∈ dom (event_auth_chains t)) ∧
  event_auth_chains t ⊆ event_auth_chains t2 ∧
  ∀ i, i ∈ dom (event_auth_chain_to_calculate t2) ↔ i ∈ dom (event_auth_chain_to_calculate t') ∧ i ∉ dom new.
Proof using Type.
  intros Ht Hev [C1 C2 C3 C4 C5 C6 (T1 & T2 & T3 & T4)] Hrooms. set (us := unseen_events t' events). cbn zeta.
  rewrite persist_event_auth_chain_fold.
  destruct (store_state_events_spec t' us) as (S1 & S2 & S3 & S4 & S5 & S6). set (ts := foldl store_state_event t' us) in *.
  destruct (store_event_auths_spec (persist_chain_cover_index ts new) us) as (A1 & A2 & A3 & A4 & A5 & A6 & A7); [by apply unseen_nodup, Hev|].
  set (t2 := foldl store_event_auth _ us) in *. cbn in A3, A4, A6, A7. rewrite S3, T3 in A4. rewrite S5 in A6.
  assert (∀ i, stored_auth (persist_chain_cover_index ts new) i = stored_auth t i) as Hau.
  { intros i. unfold stored_auth. cbn. by rewrite S2, T1. }
  assert (∀ i, i ∈ dom (event_auth_chains t2) ↔ i ∈ dom new ∨ i ∈ dom (event_auth_chains t)) as Hdom.
  { intros i. by rewrite A4, dom_union_L, dom_fmap_L, elem_of_union. }
  assert (∀ i, i ∈ dom (event_auth_chain_to_calculate t2) ↔ i ∈ dom (event_auth_chain_to_calculate t') ∧ i ∉ dom new) as Hcalc.
  { intros i. rewrite A6, elem_of_dom, elem_of_dom. clear. split.
    - intros [v [Hv Hn]%map_lookup_filter_Some]. split; [by exists v|done].
    - intros [[v Hv] Hn]. exists v. by apply map_lookup_filter_Some. }
  assert (∀ e, e ∈ us ↔ e ∈ events ∧ ie_id e ∉ dom (t_state_events t)) as Hus by (intros e; rewrite <- T2; apply unseen_elem).
  assert (∀ i, i ∈ dom (t_state_events t2) ↔ i ∈ dom (t_state_events t) ∨ ∃ e, e ∈ us ∧ ie_is_state e = true ∧ ie_id e = i) as Hst
    by (intros i; by rewrite A3, S1, T2).
  assert (∀ i, i ∈ dom rooms → i ∈ dom (t_state_events t2)) as Hrs.
  { intros i Hi. apply Hst. destruct (Hrooms i Hi) as (_ & e & He & Hs & <-).
    destruct (decide (ie_id e ∈ dom (t_state_events t))); [by left|right]. exists e. by rewrite Hus. }
  split_and!; [|done| |done].
  2:{ rewrite A4. apply map_union_subseteq_r, map_disjoint_dom. rewrite dom_fmap_L. intros i Hi. by apply C2. }
  split.
  - intros i [Hi|(e & He & Hs & <-)]%Hst.
    + rewrite A1, Hau by (intros e [_ Hn]%Hus _ <-; done). by apply ok_stored.
    + pose proof (proj1 (Hus e) He) as [Hin Hn]. rewrite A2, Hau, (ok_event_auth _ Ht) by done. by apply (ev_auth _ Hev).
  - intros i Hi. rewrite Hst in Hi. rewrite A1, Hau; [apply (ok_event_auth _ Ht); tauto|]. intros e He Hs <-. apply Hi. right. eauto.
  - intros i [Hi|Hi]%Hdom; [|apply Hst; left; by apply (ok_indexed _ Ht)].
    destruct (C2 i Hi) as [_ [?|?]]; [by apply Hrs|apply Hst; by left].
  - intros w [Hw Hn]%Hcalc. rewrite Hdom. destruct (C6 w Hw) as [Hw'|Hw'].
    + destruct (ok_waiting _ Ht w Hw') as [? ?]. split; [tauto|]. apply Hst. by left.
    + destruct (Hrooms w Hw') as [? _]. split; [tauto|]. by apply Hrs.
  - intros e c s. rewrite A4, A7, S6. intros [He|[_ He]]%lookup_union_Some_raw.
    + rewrite lookup_fmap in He. destruct (new !! e) as [n|] eqn:En; [|done]. injection He as <- <-. by eapply C3.
    + pose proof (ok_chains _ Ht e c s He). lia.
  - rewrite A4. eapply covers_links; [|exact C1]. intros l. rewrite A5, persist_links. unfold all_link. by rewrite S4, T4.
Qed.
End Index.

Lemma persist_keeps_ok graph rank t has_index room_id events t' :
  graph_ok graph rank → tables_ok graph t → events_ok graph events →
  persist_auth_index t has_index room_id events = Ok t' → tables_ok graph t'.
Proof.
  intros Hg Ht Hev Hp. destruct (calculate_for_events_spec graph rank Hg t has_index room_id events Ht Hev)
    as (rooms & new & t1 & Hc & Hcal & Hrooms & _).
  unfold persist_auth_index in Hp. rewrite Hc in Hp. injection Hp as <-. by eapply stored_tables_ok.
Qed.


(** ** An example: a room whose create event is indexed *)

Definition ex_graph (e : string) : list string :=
  match e with
  | "$m" => ["$c"] | "$m2" => ["$c"; "$m"] | "$p" => ["$c"; "$m"] | "$x" => ["$c"; "$u"]
  | _ => []
  end%string.
Definition ex_rank (e : string) : nat :=
  match e with "$c"%string | "$u"%string => O | "$m"%string => 1%nat | _ => 2%nat end.
Definition ex_tables : chain_tables :=
  MkTables ∅ {[ "$c"%string := ("m.room.create", "")%string ]} {[ "$c"%string := (1, 1) ]} [] ∅ 2.
Definition ex_member : string := "m.room.member".
Definition ex_events : list index_event := [
  IndexEvent "$m" "!r" ex_member (Some "@a") ["$c"];
  IndexEvent "$p" "!r" "m.room.power_levels" (Some "") ["$c"; "$m"];
  IndexEvent "$t" "!r" "m.room.message" None [];
  IndexEvent "$m2" "!r" ex_member (Some "@a") ["$c"; "$m"];
  IndexEvent "$x" "!r" ex_member (Some "@b") ["$c"; "$u"] ]%string.

(** The second membership of a user goes on with the chain of the first one, and has
    no link to the create event, which the first one leads to.  The event with an
    unknown auth event waits. *)
Example ex_persist :
  match persist_auth_index ex_tables {[ "!r"%string := Some true ]} "!r" ex_events with
  | Ok t => event_auth_chains t !! "$m"%string = Some (2, 1) ∧ event_auth_chains t !! "$m2"%string = Some (2, 2) ∧
            event_auth_chains t !! "$p"%string = Some (3, 1) ∧ event_auth_chain_links t = [(2, 1, 1, 1); (3, 1, 2, 1)] ∧
            event_auth_chains t !! "$x"%string = None ∧ elements (dom (event_auth_chain_to_calculate t)) = ["$x"%string]
  | Raise _ => False
  end.
Proof. vm_compute. by split_and!. Qed.

(** An auth event that is listed twice is reachable from itself, so no link to it is
    made: with such a list the index does not cover the auth graph. *)
Example ex_duplicate_auth :
  match persist_auth_index ex_tables {[ "!r"%string := Some true ]} "!r"
          [IndexEvent "$d" "!r" ex_member (Some "@a") ["$c"; "$c"]]%string with
  | Ok t => event_auth_chains t !! "$d"%string = Some (2, 1) ∧ event_auth_chain_links t = []
  | Raise _ => False
  end.
Proof. vm_compute. by split_and!. Qed.

Lemma ex_graph_ok : graph_ok ex_graph ex_rank.
Proof.
  assert (∀ e, Forall (λ a, ex_rank a < ex_rank e)%nat (ex_graph e) ∧ NoDup (ex_graph e)) as H.
  { intros e. unfold ex_graph. repeat case_match; subst; (split; [repeat constructor|]); cbn; (try lia); try apply NoDup_nil_2;
      by apply (bool_decide_unpack _). }
  split; [|apply H]. intros e a Ha. destruct (H e) as [Hf _]. rewrite Forall_forall in Hf. by apply Hf.
Qed.

Lemma ex_tables_ok : tables_ok ex_graph ex_tables.
Proof.
  assert (∀ e, e ∈ dom (event_auth_chains ex_tables) → e = "$c"%string) as Hc
    by (intros e; cbn; by rewrite dom_singleton_L, elem_of_singleton).
  split.
  - intros e. cbn. rewrite dom_singleton_L, elem_of_singleton. by intros ->.
  - done.
  - cbn. by rewrite !dom_singleton_L.
  - intros w. cbn. by rewrite dom_empty_L.
  - intros e c s. cbn. by intros [_ [= <- _]]%lookup_singleton_Some.
  - split; [split|]; cbn.
    + intros e e' p [<- _]%lookup_singleton_Some [<- _]%lookup_singleton_Some. done.
    + by intros e c s [_ [= <- <-]]%lookup_singleton_Some.
    + by intros e c s [_ [= <- <-]]%lookup_singleton_Some.
    + by intros c os tc ts ?%elem_of_nil.
    + by intros e p a [<- _]%lookup_singleton_Some ?%elem_of_nil.
Qed.

Lemma ex_events_ok : events_ok ex_graph ex_events.
Proof. split; [by apply (bool_decide_unpack _)|..]; apply Forall_forall; by repeat constructor. Qed.

