(* ===== verification/AuthChains.v ===== *)
(** * Reading auth chains

    The methods of [EventFederationWorkerStore], in
    [synapse/storage/databases/main/event_federation.py], that find the auth chain of
    events and the difference of the auth chains of state sets, by the chain cover
    index and, for auth chains, by following [event_auth].  The cache
    [_event_auth_cache] holds what the table says and is left out. *)

From S2P Require Import Prelude TopoSort IterUtils ChainCover.

Open Scope Z_scope.

(** ** [_materialize] *)

(** The links of one chain *)
Fixpoint mat_scan (s : Z) (ls : list (Z * Z * Z)) (acc : list pos * gmap Z Z) : list pos * gmap Z Z :=
  match ls with
  | [] => acc
  | (sequence_number, target_chain_id, target_sequence_number) :: ls =>
      let '(stack, materialized) := acc in
      mat_scan s ls
        (if s <? sequence_number then acc
         else if default 0 (materialized !! target_chain_id) <? target_sequence_number then
           ((target_chain_id, target_sequence_number) :: stack, <[target_chain_id := target_sequence_number]> materialized)
         else acc)
  end.

Fixpoint mat_loop (links : gmap Z (list (Z * Z * Z))) (fuel : nat) (stack : list pos) (materialized : gmap Z Z) : option (gmap Z Z) :=
  match stack with
  | [] => Some materialized
  | (c, s) :: stack =>
      match fuel with
      | O => None
      | S fuel =>
          let '(stack, materialized) := mat_scan s (default [] (links !! c)) (stack, materialized) in
          mat_loop links fuel stack materialized
      end
  end.

Definition dict_links (links : gmap Z (list (Z * Z * Z))) : list chain_link :=
  flat_map (λ x, map (λ y, (x.1, y.1.1, y.1.2, y.2)) x.2) (map_to_list links).

Definition materialize (origin : pos) (links : gmap Z (list (Z * Z * Z))) (materialized : gmap Z Z) : py (gmap Z Z) :=
  fueled (mat_loop links (S (length (dict_links links))) [origin] materialized).

(** ** [_get_auth_chain_ids_using_cover_index_txn] *)

Definition no_chain_cover : exn := PyException "Unexpectedly no chain cover for events in %s".

(** [chains[chain_id] = max(seq_no, chains.get(chain_id, 0))] *)
Definition raise_to (chains : gmap Z Z) (p : pos) : gmap Z Z :=
  <[p.1 := Z.max p.2 (default 0 (chains !! p.1))]> chains.

Definition start_chain (t : chain_tables) (chains : gmap Z Z) (event_id : string) : gmap Z Z :=
  match event_auth_chains t !! event_id with Some p => raise_to chains p | None => chains end.
Definition start_chains (t : chain_tables) (event_ids : list string) : gmap Z Z :=
  foldl (foldl (start_chain t)) ∅ (batch_iter event_ids 1000).

(** The loop over the dicts of links, for what is reached from given positions *)
Definition follow_from (event_chains : gmap Z Z) (chains : gmap Z Z) (links : gmap Z (list (Z * Z * Z))) : py (gmap Z Z) :=
  py_fold (λ chains chain_id,
    match event_chains !! chain_id with
    | None => Ok chains
    | Some seq => materialize (chain_id, seq) links chains
    end) chains (elements (dom links)).

(** The part of a chain below the events given *)
Definition below_start (chains : gmap Z Z) (x : pos) : gmap Z Z :=
  if x.2 =? 1 then chains else <[x.1 := Z.max (x.2 - 1) (default 0 (chains !! x.1))]> chains.

(** The events up to the given sequence numbers *)
Definition events_upto (t : chain_tables) (chains : gmap Z Z) : gset string :=
  dom (filter (λ x, match chains !! x.2.1 with Some m => x.2.2 <=? m | None => false end = true) (event_auth_chains t)).

Definition get_auth_chain_ids_using_cover_index (t : chain_tables) (event_ids : gset string) (include_given : bool)
    : py (gset string) :=
  let event_chains := start_chains t (elements event_ids) in
  raise_if (negb (bool_decide (event_ids ⊆ dom (event_auth_chains t)))) no_chain_cover ;;
  chains ← py_fold (follow_from event_chains) ∅ (chain_links t (dom event_chains));
  let chains := foldl below_start chains (map_to_list event_chains) in
  Ok ((if include_given then event_ids else ∅) ∪ events_upto t chains).

(** ** [_get_auth_chain_ids_txn] *)

(** Rows of [event_auth] whose auth event is stored; [known] are the ids in [events] *)
Definition auth_rows (t : chain_tables) (known : gset string) (event_id : string) : gset string :=
  list_to_set (List.filter (λ a, bool_decide (a ∈ known)) (stored_auth t event_id)).

Fixpoint auth_walk (t : chain_tables) (known : gset string) (fuel : nat) (front results : gset string) : option (gset string) :=
  if decide (front = ∅) then Some results
  else
    match fuel with
    | O => None
    | S fuel =>
        let new_front := ⋃ (map (λ chunk, ⋃ (map (auth_rows t known) chunk)) (batch_iter (elements front) 100)) in
        let front := new_front ∖ results in
        auth_walk t known fuel front (results ∪ front)
    end.

Definition get_auth_chain_ids (t : chain_tables) (known : gset string) (event_ids : gset string) (include_given : bool) : py (gset string) :=
  fueled (auth_walk t known (size known + 1) event_ids (if include_given then event_ids else ∅)).

(** ** [_get_auth_chain_difference_using_cover_index_txn] *)

(** *** [_fixup_auth_chain_difference_sets] *)

(** The events that wait for their position, in the room, with their auth events *)
Definition waiting_auth (t : chain_tables) (room_id : string) : gmap string (gset string) :=
  map_imap (λ e _, Some (list_to_set (stored_auth t e)))
    (filter (λ x, x.2.1.1 = room_id) (event_auth_chain_to_calculate t)).

(** [while processing: ...] *)
Fixpoint partial_chain (event_to_auth_ids : gmap string (gset string)) (fuel : nat) (processing to_add : gset string)
    : option (gset string) :=
  match elements processing with
  | [] => Some to_add
  | auth_id :: _ =>
      match fuel with
      | O => None
      | S fuel =>
          let processing := processing ∖ {[auth_id]} in
          let to_add := {[auth_id]} ∪ to_add in
          match event_to_auth_ids !! auth_id with
          | None => partial_chain event_to_auth_ids fuel processing to_add
          | Some sub => partial_chain event_to_auth_ids fuel (processing ∪ (sub ∖ to_add)) to_add
          end
      end
  end.
Definition partial_fuel (event_to_auth_ids : gmap string (gset string)) : nat :=
  size (⋃ (map snd (map_to_list event_to_auth_ids)) : gset string) + 1.

(** The replacement of one unindexed event in a state set *)
Definition fixup_one (have_index : gset string) (acc : gset string * gset string) (x : string * gset string) : gset string * gset string :=
  let '(state_set, unindexed) := acc in
  let '(event_id, auth_chain) := x in
  if decide (event_id ∈ state_set) then
    ((state_set ∖ {[event_id]} ∖ auth_chain) ∪ (auth_chain ∩ have_index),
     {[event_id]} ∪ unindexed ∪ (auth_chain ∖ have_index))
  else acc.

(** Union and intersection of a list of sets that is not empty *)
Definition sets_union (l : list (gset string)) : gset string := ⋃ l.
Definition sets_intersection (l : list (gset string)) : gset string :=
  match l with [] => ∅ | s :: l => foldl (∩) s l end.

Definition fixup_auth_chain_difference_sets (t : chain_tables) (room_id : string) (state_sets : list (gset string))
    (missing have_index : gset string) : py (gset string * list (gset string)) :=
  let event_to_auth_ids := waiting_auth t room_id in
  let have_index := have_index ∪ (⋃ (map snd (map_to_list event_to_auth_ids)) ∩ dom (event_auth_chains t)) in
  raise_if (negb (bool_decide (missing ⊆ dom event_to_auth_ids))) no_chain_cover ;;
  partial ← py_fold (λ acc '(event_id, auth_ids),
    if existsb (λ s, bool_decide (event_id ∈ s)) state_sets then
      to_add ← fueled (partial_chain event_to_auth_ids (partial_fuel event_to_auth_ids) auth_ids ∅);
      Ok (acc ++ [(event_id, to_add)])
    else Ok acc) [] (map_to_list event_to_auth_ids);
  let fixed := map (λ s, foldl (fixup_one have_index) (s, ∅) partial) state_sets in
  Ok (sets_union (map snd fixed) ∖ sets_intersection (map snd fixed), map fst fixed).

(** *** The difference *)

(** [chain_info[state_id]] and the highest number per chain *)
Definition set_chains (t : chain_tables) (state_set : gset string) : py (gmap Z Z) :=
  py_fold (λ chains e, p ← pos_of (event_auth_chains t) e; Ok (raise_to chains p)) ∅ (elements state_set).

Definition follow_set (links : gmap Z (list (Z * Z * Z))) (chains : gmap Z Z) : py (gmap Z Z) :=
  py_fold (λ chains chain_id,
    match chains !! chain_id with
    | None => Ok chains
    | Some seq => materialize (chain_id, seq) links chains
    end) chains (elements (dom links)).

Fixpoint py_map {A B} (f : A → py B) (l : list A) : py (list B) :=
  match l with [] => Ok [] | x :: l => y ← f x; l ← py_map f l; Ok (y :: l) end.

(** The state sets are materialized with each dict of links in turn; the chains seen
    grow by those of the sets. *)
Definition follow_sets (acc : list (gmap Z Z) * gset Z) (links : gmap Z (list (Z * Z * Z))) : py (list (gmap Z Z) * gset Z) :=
  sets ← py_map (follow_set links) acc.1;
  Ok (sets, acc.2 ∪ ⋃ (map dom sets)).

Definition min_list (l : list Z) : Z := match l with [] => 0 | x :: l => foldl Z.min x l end.
Definition max_list (l : list Z) : Z := match l with [] => 0 | x :: l => foldl Z.max x l end.

(** The events of a gap that were fetched already, in [chain_to_event]; [true] if one
    is missing among them *)
Fixpoint fill_gap (at_seq : Z → option string) (seqs : list Z) (result : gset string) : gset string * bool :=
  match seqs with
  | [] => (result, false)
  | seq_no :: seqs =>
      match at_seq seq_no with
      | Some event_id => fill_gap at_seq seqs ({[event_id]} ∪ result)
      | None => (result, true)
      end
  end.

Definition chain_event (t : chain_tables) (fetched : gset string) (c n : Z) : option string :=
  head (List.filter (λ e, bool_decide (event_auth_chains t !! e = Some (c, n))) (elements fetched)).

Definition gap_one (t : chain_tables) (fetched : gset string) (sets : list (gmap Z Z)) (acc : gset string * list (Z * (Z * Z)))
    (chain_id : Z) : gset string * list (Z * (Z * Z)) :=
  let '(result, gaps) := acc in
  let numbers := map (λ chains : gmap Z Z, default 0 (chains !! chain_id)) sets in
  let min_seq_no := min_list numbers in
  let max_seq_no := max_list numbers in
  if min_seq_no <? max_seq_no then
    let '(result, gap) := fill_gap (chain_event t fetched chain_id) (seqZ (min_seq_no + 1) (max_seq_no - min_seq_no)) result in
    (result, if gap : bool then gaps ++ [(chain_id, (min_seq_no, max_seq_no))] else gaps)
  else acc.

(** [min_seq < sequence_number AND sequence_number <= max_seq] *)
Definition events_between (t : chain_tables) (gap : Z * (Z * Z)) : gset string :=
  let '(c, (lo, hi)) := gap in
  dom (filter (λ x, (x.2.1 =? c) && (lo <? x.2.2) && (x.2.2 <=? hi) = true) (event_auth_chains t)).

(** The part for state sets that are indexed, from [set_to_chain] on; [fetched] are the
    events that [fetch_chain_info] found. *)
Definition indexed_difference (t : chain_tables) (fetched result : gset string) (state_sets : list (gset string)) : py (gset string) :=
  sets ← py_map (set_chains t) state_sets;
  let seen_chains := list_to_set (omap (λ e, fst <$> event_auth_chains t !! e) (elements fetched)) in
  '(sets, seen_chains) ← py_fold follow_sets (sets, seen_chains) (chain_links t seen_chains);
  let '(result, gaps) := foldl (gap_one t fetched sets) (result, []) (elements seen_chains) in
  Ok (result ∪ ⋃ (map (events_between t) gaps)).

Definition get_auth_chain_difference_using_cover_index (t : chain_tables) (room_id : string) (state_sets : list (gset string))
    : py (gset string) :=
  raise_if (bool_decide (state_sets = [])) IndexError ;;
  let initial_events := ⋃ state_sets in
  let chain_info := initial_events ∩ dom (event_auth_chains t) in
  let missing := initial_events ∖ chain_info in
  '(result, state_sets) ← (if decide (missing = ∅) then Ok (∅, state_sets)
                            else fixup_auth_chain_difference_sets t room_id state_sets missing chain_info);
  indexed_difference t ((initial_events ∪ ⋃ state_sets) ∩ dom (event_auth_chains t)) result state_sets.
