(* ===== verification/AuthChainFacts.v ===== *)
(** * Auth chains by the chain cover index

    What [_materialize] finds, and that the readers of [AuthChains.v] give the auth
    chains of the graph that the index covers. *)

From S2P Require Import Prelude TopoSort IterUtils ChainCover ChainPaths ChainBuild ChainGather ChainIndex AuthChains.

Open Scope Z_scope.

(** ** [_materialize] *)

Definition lvl (M : gmap Z Z) (c : Z) : Z := default 0 (M !! c).
Definition below (M M' : gmap Z Z) : Prop := ∀ c, lvl M c ≤ lvl M' c.

#[export] Instance below_preorder : PreOrder below.
Proof. split; [by intros M c|]. intros M1 M2 M3 H1 H2 c. specialize (H1 c). specialize (H2 c). lia. Qed.

Lemma lvl_insert M c v c' : lvl (<[c := v]> M) c' = if decide (c' = c) then v else lvl M c'.
Proof. unfold lvl. case_decide as E; [subst; by rewrite lookup_insert_eq|by rewrite lookup_insert_ne]. Qed.

Lemma below_insert M c v : lvl M c ≤ v → below M (<[c := v]> M).
Proof. intros Hv c'. rewrite lvl_insert. case_decide; [subst|]; lia. Qed.

(** The links that would still raise a chain *)
Definition raising (all : list (Z * Z * Z)) (M : gmap Z Z) : nat :=
  length (List.filter (λ l, lvl M l.1.2 <? l.2) all).

Lemma raising_le all M M' : below M M' → (raising all M' ≤ raising all M)%nat.
Proof. intros Hb. apply filter_length_le. intros l Hl. to_prop. specialize (Hb l.1.2). apply Z.ltb_lt. lia. Qed.

Lemma raising_lt all M tc ts os :
  (os, tc, ts) ∈ all → lvl M tc < ts → (raising all (<[tc := ts]> M) < raising all M)%nat.
Proof.
  intros Hin Hlt. unfold raising. eapply (filter_length_lt _ _ _ (os, tc, ts)); [|done|..]; cbn.
  - intros l Hl. to_prop. rewrite lvl_insert in Hl. apply Z.ltb_lt. case_decide as E; [rewrite E|]; lia.
  - apply Z.ltb_ge. rewrite lvl_insert, decide_True by done. lia.
  - by apply Z.ltb_lt.
Qed.

Record scanned (all ls : list (Z * Z * Z)) (s : Z) (M : gmap Z Z) (new : list pos) (M' : gmap Z Z) : Prop := {
  sc_new : ∀ c v, (c, v) ∈ new → ∃ os, os ≤ s ∧ (os, c, v) ∈ ls;
  sc_below : below M M';
  sc_done : ∀ os tc ts, (os, tc, ts) ∈ ls → os ≤ s → ts ≤ lvl M' tc;
  sc_raised : ∀ c, M' !! c = M !! c ∨ (c, lvl M' c) ∈ new ∧ M' !! c = Some (lvl M' c);
  sc_measure : (length new + raising all M' ≤ raising all M)%nat;
}.

Lemma mat_scan_spec all s ls stack M :
  (∀ l, l ∈ ls → l ∈ all) →
  ∃ new M', mat_scan s ls (stack, M) = (new ++ stack, M') ∧ scanned all ls s M new M'.
Proof.
  revert stack M. induction ls as [|[[os tc] ts] ls IH]; intros stack M Hall; cbn [mat_scan].
  { exists [], M. split; [done|]. split; cbn; [by intros c v ?%elem_of_nil|done|by intros ? ? ? ?%elem_of_nil|by left|lia]. }
  assert (∀ l, l ∈ ls → l ∈ all) as Hall' by (intros; apply Hall; by right).
  destruct (s <? os) eqn:E1; to_prop.
  { destruct (IH stack M Hall') as (new & M' & -> & [S1 S2 S3 S4 S5]). exists new, M'. split; [done|]. split; try done.
    - intros c v Hv. destruct (S1 c v Hv) as (os' & ? & ?). exists os'. split; [done|by right].
    - intros os' tc' ts' [[= -> -> ->]|Hl]%elem_of_cons; [lia|by apply S3]. }
  fold (lvl M tc). destruct (lvl M tc <? ts) eqn:E2; to_prop.
  - destruct (IH ((tc, ts) :: stack) (<[tc := ts]> M) Hall') as (new & M' & -> & [S1 S2 S3 S4 S5]).
    exists (new ++ [(tc, ts)]), M'. split; [by rewrite <- (assoc_L (++))|].
    assert (below M M') as Hb by (etrans; [|exact S2]; apply below_insert; lia). split; [|done|..].
    + intros c v [Hv|Hv]%elem_of_app.
      * destruct (S1 c v Hv) as (os' & ? & ?). exists os'. split; [done|by right].
      * apply list_elem_of_singleton in Hv as [= -> ->]. exists os. split; [lia|by left].
    + intros os' tc' ts' [[= -> -> ->]|Hl]%elem_of_cons Hle; [|by eapply S3]. specialize (S2 tc). rewrite lvl_insert, decide_True in S2 by done. lia.
    + intros c. destruct (S4 c) as [Hc|[Hc ?]]; [|right; split; [apply elem_of_app; by left|done]].
      destruct (decide (c = tc)) as [->|Hne]; [|rewrite lookup_insert_ne in Hc by done; by left].
      rewrite lookup_insert_eq in Hc. right. unfold lvl. rewrite Hc. cbn. split; [|done]. apply elem_of_app. right. by left.
    + rewrite length_app. cbn. pose proof (raising_lt all M tc ts os (Hall _ (list_elem_of_here _ _)) E2). lia.
  - destruct (IH stack M Hall') as (new & M' & -> & [S1 S2 S3 S4 S5]). exists new, M'. split; [done|]. split; try done.
    + intros c v Hv. destruct (S1 c v Hv) as (os' & ? & ?). exists os'. split; [done|by right].
    + intros os' tc' ts' [[= -> -> ->]|Hl]%elem_of_cons Hle; [specialize (S2 tc); lia|by eapply S3].
Qed.

(** A dict with all the links that lead on from some chains *)
Record dict_of (links : list chain_link) (d : gmap Z (list (Z * Z * Z))) (D : gset Z) : Prop := {
  do_links : ∀ c os tc ts, c ∈ D → (os, tc, ts) ∈ default [] (d !! c) ↔ (c, os, tc, ts) ∈ links;
  do_dom : dom d ⊆ D;
  do_closed : ∀ c os tc ts, c ∈ D → (c, os, tc, ts) ∈ links → tc ∈ D;
}.

(** All links from below a position have been followed. *)
Definition closed_at (links : list chain_link) (M : gmap Z Z) (p : pos) : Prop :=
  ∀ os tc ts, (p.1, os, tc, ts) ∈ links → os ≤ p.2 → ts ≤ lvl M tc.

Lemma closed_at_below links M M' p : below M M' → closed_at links M p → closed_at links M' p.
Proof. intros Hb Hc os tc ts Hl Hos. specialize (Hc os tc ts Hl Hos). specialize (Hb tc). lia. Qed.

(** What a search from some positions adds *)
Record reached_from (links : list chain_link) (stack : list pos) (M M' : gmap Z Z) : Prop := {
  rf_below : below M M';
  rf_closed : ∀ p, p ∈ stack → closed_at links M' p;
  rf_raised : ∀ c, M' !! c = M !! c ∨
    closed_at links M' (c, lvl M' c) ∧ M' !! c = Some (lvl M' c) ∧ ∃ p, p ∈ stack ∧ linked (.∈ links) p (c, lvl M' c);
}.

Section Materialize.
Context (links : list chain_link) (d : gmap Z (list (Z * Z * Z))) (D : gset Z) (Hd : dict_of links d D).

Definition dict_rows : list (Z * Z * Z) := flat_map snd (map_to_list d).

Lemma dict_rows_elem c l : l ∈ default [] (d !! c) → l ∈ dict_rows.
Proof using Type.
  intros Hl. destruct (d !! c) as [k|] eqn:E; [|by apply elem_of_nil in Hl]. unfold dict_rows. apply list_elem_of_In, in_flat_map.
  exists (c, k). rewrite <- !list_elem_of_In. split; [by apply elem_of_map_to_list|done].
Qed.

Lemma mat_loop_spec fuel stack M :
  (∀ p, p ∈ stack → p.1 ∈ D) → (raising dict_rows M + length stack ≤ fuel)%nat →
  ∃ M', mat_loop d fuel stack M = Some M' ∧ reached_from links stack M M'.
Proof using Hd.
  revert stack M. induction fuel as [|fuel IH]; intros [|[c s] stack] M HD Hf; cbn [length] in Hf.
  1,3: (exists M; split; [done|]; split; [done|by intros p ?%elem_of_nil|by left]).
  { lia. }
  cbn [mat_loop]. destruct (mat_scan_spec dict_rows s (default [] (d !! c)) stack M) as (new & M1 & -> & [S1 S2 S3 S4 S5]);
    [apply dict_rows_elem|].
  assert (c ∈ D) as Hc by (apply (HD (c, s)); by left).
  assert (∀ p, p ∈ new → linked (.∈ links) (c, s) p ∧ p.1 ∈ D) as Hnew.
  { intros [tc ts] Hp. destruct (S1 tc ts Hp) as (os & Hos & Hl). apply (do_links _ _ _ Hd c os tc ts Hc) in Hl.
    split; [|by eapply (do_closed _ _ _ Hd c)]. exists os, tc, ts. split_and!; [done|done|apply path_refl]. }
  destruct (IH (new ++ stack) M1) as (M' & Hm & [R1 R2 R3]).
  { intros p [Hp|Hp]%elem_of_app; [by apply Hnew|]. apply HD. by right. }
  { rewrite length_app. lia. }
  exists M'. split; [done|]. split.
  - by etrans.
  - intros p [->|Hp]%elem_of_cons; [|apply R2, elem_of_app; by right].
    intros os tc ts Hl Hos. apply (do_links _ _ _ Hd c os tc ts Hc) in Hl. specialize (S3 os tc ts Hl Hos). specialize (R1 tc). lia.
  - intros c'. destruct (R3 c') as [Heq|(H1 & H2 & p & Hp & Hl)].
    + destruct (S4 c') as [->%eq_sym|[Hin Hs]]; [by left|right].
      assert (lvl M' c' = lvl M1 c') as Hlvl by (unfold lvl; by rewrite Heq). rewrite Hlvl. split_and!.
      * apply R2, elem_of_app. by left.
      * congruence.
      * exists (c, s). split; [by left|]. by apply Hnew.
    + right. split_and!; [done|done|]. apply elem_of_app in Hp as [Hp|Hp].
      * exists (c, s). split; [by left|]. destruct (Hnew p Hp) as [(os & tc & ts & Hos & Hl' & Hpath) _]. exists os, tc, ts.
        split_and!; [done|done|]. eapply path_trans; [done|]. apply path_linked. by right.
      * exists p. split; [by right|done].
Qed.

Lemma dict_rows_length : length dict_rows = length (dict_links d).
Proof using Type.
  unfold dict_rows, dict_links. induction (map_to_list d) as [|[c l] k IH]; [done|]. cbn.
  by rewrite !length_app, length_map, IH.
Qed.

Lemma materialize_spec c s M :
  c ∈ D → ∃ M', materialize (c, s) d M = Ok M' ∧ reached_from links [(c, s)] M M'.
Proof using Hd.
  intros Hc. unfold materialize. destruct (mat_loop_spec (S (length (dict_links d))) [(c, s)] M) as (M' & -> & Hr).
  - intros p ->%list_elem_of_singleton. done.
  - cbn. pose proof (List.filter_length_le (λ l, lvl M l.1.2 <? l.2) dict_rows). unfold raising. rewrite <- dict_rows_length. lia.
  - by exists M'.
Qed.
End Materialize.

(** ** [_get_chain_links] *)

Section ChainLinks.
Context (links : list chain_link).

Definition all_targets : gset Z := list_to_set (map (λ l : chain_link, l.1.2) links).

Lemma link_targets_elem C tc : tc ∈ link_targets links C ↔ ∃ c os ts, c ∈ C ∧ (c, os, tc, ts) ∈ links.
Proof using Type.
  unfold link_targets. rewrite elem_of_list_to_set, list_elem_of_omap. split.
  - intros ([[[c os] tc'] ts] & Hl & Hd). case_decide; [|done]. injection Hd as ->. eauto.
  - intros (c & os & ts & Hc & Hl). exists (c, os, tc, ts). split; [done|]. by rewrite decide_True.
Qed.

Lemma linked_chains_closed n C :
  (size (all_targets ∖ C) ≤ n)%nat → C ⊆ linked_chains links n C ∧ link_targets links (linked_chains links n C) ⊆ linked_chains links n C.
Proof using Type.
  assert (∀ C, link_targets links C ⊆ all_targets) as Hall.
  { intros C' tc (c & os & ts & _ & Hl)%link_targets_elem. unfold all_targets. apply elem_of_list_to_set, list_elem_of_fmap.
    by exists (c, os, tc, ts). }
  revert C. induction n as [|n IH]; intros C Hn; cbn [linked_chains].
  { split; [done|]. assert (all_targets ∖ C ≡ ∅) as He by (apply size_empty_inv; lia). specialize (Hall C). set_solver. }
  destruct (decide (link_targets links C ⊆ C)) as [Hc|Hc].
  - assert (C ∪ link_targets links C = C) as -> by set_solver. clear IH Hn. induction n as [|n IH]; cbn [linked_chains]; [done|].
    by assert (C ∪ link_targets links C = C) as -> by set_solver.
  - destruct (IH (C ∪ link_targets links C)) as [Hs Ht]; [|split; [set_solver|done]].
    assert (size (all_targets ∖ (C ∪ link_targets links C)) < size (all_targets ∖ C))%nat; [|lia].
    specialize (Hall C). apply subset_size. split; [set_solver|]. intros Hle. apply Hc. intros tc Htc.
    destruct (decide (tc ∈ C)) as [|Hn2]; [done|]. assert (tc ∈ all_targets ∖ C) as Hin by set_solver. apply Hle in Hin. set_solver.
Qed.

Lemma add_rows_dom ls d c : c ∈ dom (foldl add_row d ls) ↔ c ∈ dom d ∨ ∃ os tc ts, (c, os, tc, ts) ∈ ls.
Proof using Type.
  revert d. induction ls as [|[[[c' os'] tc'] ts'] ls IH]; intros d; cbn [foldl].
  { split; [by left|]. by intros [?|(? & ? & ? & ?%elem_of_nil)]. }
  rewrite IH. unfold add_row at 1. rewrite dom_insert_L, elem_of_union, elem_of_singleton. split.
  - intros [[->|?]|(os & tc & ts & ?)]; [right; do 3 eexists; by left|by left|]. right. exists os, tc, ts. by right.
  - intros [?|(os & tc & ts & [[= -> _ _ _]|?]%elem_of_cons)]; [left; by right|left; by left|]. right. eauto.
Qed.

Lemma fetch_links_spec batch :
  ∃ D, dict_of links (fetch_links links batch) D ∧ batch ⊆ D ∧
    ∀ c os tc ts, c ∈ batch → (c, os, tc, ts) ∈ links → c ∈ dom (fetch_links links batch).
Proof using Type.
  set (D := linked_chains links (length links) batch). exists D.
  destruct (linked_chains_closed (length links) batch) as [Hsub Hcl].
  { etrans; [apply subseteq_size, subseteq_difference_l; done|]. unfold all_targets. clear. induction links as [|l k IH]; cbn [map list_to_set]; [done|].
    cbn [length list_to_set]. rewrite size_union_alt, size_singleton. etrans; [|apply le_n_S, IH].
    apply le_n_S, subseteq_size, subseteq_difference_l. done. }
  fold D in Hsub, Hcl.
  assert (∀ c, c ∈ dom (fetch_links links batch) ↔ c ∈ D ∧ ∃ os tc ts, (c, os, tc, ts) ∈ links) as Hdom.
  { intros c. unfold fetch_links. rewrite add_rows_dom, dom_empty_L. fold D. split.
    - intros [?%elem_of_empty|(os & tc & ts & Hl)]; [done|]. apply list_elem_of_In, filter_In in Hl as [Hl Hd]. to_prop.
      split; [done|]. exists os, tc, ts. by apply list_elem_of_In.
    - intros (Hd & os & tc & ts & Hl). right. exists os, tc, ts. apply list_elem_of_In, filter_In. split; [by apply list_elem_of_In|].
      by apply bool_decide_eq_true. }
  split_and!; [|done|].
  - split.
    + intros c os tc ts Hc. rewrite fetch_links_elem. fold D. tauto.
    + by intros c [? _]%Hdom.
    + intros c os tc ts Hc Hl. apply Hcl, link_targets_elem. eauto.
  - intros c os tc ts Hc Hl. apply Hdom. split; [by apply Hsub|eauto].
Qed.

Lemma get_chain_links_spec fuel chains :
  (size chains ≤ fuel)%nat →
  (∀ d, d ∈ get_chain_links links fuel chains → ∃ D, dict_of links d D) ∧
  ∀ c os tc ts, c ∈ chains → (c, os, tc, ts) ∈ links → ∃ d, d ∈ get_chain_links links fuel chains ∧ c ∈ dom d.
Proof using Type.
  revert chains. induction fuel as [|fuel IH]; intros chains Hf; cbn [get_chain_links].
  { split; [by intros d ?%elem_of_nil|]. intros c os tc ts Hc. assert (chains ≡ ∅) as He by (apply size_empty_inv; lia).
    apply He in Hc. by apply elem_of_empty in Hc. }
  destruct (elements chains) as [|x l] eqn:El.
  { split; [by intros d ?%elem_of_nil|]. intros c os tc ts Hc. apply elem_of_elements in Hc. rewrite El in Hc. by apply elem_of_nil in Hc. }
  set (batch := list_to_set (take 1000 (x :: l))). destruct (fetch_links_spec batch) as (D & HD & _ & Hb).
  destruct (IH ((chains ∖ batch) ∖ dom (fetch_links links batch))) as [IH1 IH2].
  { assert (size ((chains ∖ batch) ∖ dom (fetch_links links batch)) < size chains)%nat; [|lia]. apply subset_size. split.
    - intros c [[? _]%elem_of_difference _]%elem_of_difference. done.
    - intros Hle. assert (x ∈ chains) as Hx by (apply elem_of_elements; rewrite El; by left).
      apply Hle in Hx. apply elem_of_difference in Hx as [[_ Hx]%elem_of_difference _]. apply Hx. subst batch.
      apply elem_of_list_to_set. cbn. by left. }
  split.
  - intros d [->|Hd]%elem_of_cons; [by exists D|by apply IH1].
  - intros c os tc ts Hc Hl. destruct (decide (c ∈ dom (fetch_links links batch))) as [Hin|Hn]; [eexists; split; [by left|done]|].
    destruct (decide (c ∈ batch)) as [Hcb|Hcb]; [destruct Hn; by eapply Hb|].
    destruct (IH2 c os tc ts) as (d & Hd & Hcd); [by rewrite !elem_of_difference|done|]. exists d. split; [by right|done].
Qed.
End ChainLinks.

(** ** Following all links *)

Lemma reached_from_app links l1 l2 M M1 M2 :
  reached_from links l1 M M1 → reached_from links l2 M1 M2 → reached_from links (l1 ++ l2) M M2.
Proof.
  intros [A1 A2 A3] [B1 B2 B3]. split.
  - by etrans.
  - intros p [Hp|Hp]%elem_of_app; [|by apply B2]. eapply closed_at_below; [done|by apply A2].
  - intros c. destruct (B3 c) as [Heq|(H1 & H2 & p & Hp & Hl)].
    + rewrite Heq. destruct (A3 c) as [?|(H1 & H2 & p & Hp & Hl)]; [by left|right].
      assert (lvl M2 c = lvl M1 c) as -> by (unfold lvl; by rewrite Heq). split_and!; [by eapply closed_at_below|done|].
      exists p. split; [apply elem_of_app; by left|done].
    + right. split_and!; [done|done|]. exists p. split; [apply elem_of_app; by right|done].
Qed.

Lemma reached_from_nil links M : reached_from links [] M M.
Proof. split; [done|by intros p ?%elem_of_nil|by left]. Qed.

Definition starts_in (E : gmap Z Z) (d : gmap Z (list (Z * Z * Z))) : list pos :=
  omap (λ c, pair c <$> E !! c) (elements (dom d)).

Lemma starts_in_elem E d c s : (c, s) ∈ starts_in E d ↔ c ∈ dom d ∧ E !! c = Some s.
Proof.
  unfold starts_in. rewrite list_elem_of_omap. split.
  - intros (c' & Hc & Hs). apply elem_of_elements in Hc. destruct (E !! c') as [v|] eqn:Ev; [|done]. by injection Hs as -> ->.
  - intros [Hc Hs]. exists c. rewrite Hs. split; [by apply elem_of_elements|done].
Qed.

Lemma follow_from_spec links d D E M :
  dict_of links d D → ∃ M', follow_from E M d = Ok M' ∧ reached_from links (starts_in E d) M M'.
Proof.
  intros Hd. unfold follow_from, starts_in.
  assert (∀ c, c ∈ elements (dom d) → c ∈ D) as HD by (intros c Hc; apply (do_dom _ _ _ Hd); by apply elem_of_elements).
  revert M HD. induction (elements (dom d)) as [|c l IH]; intros M HD; cbn [py_fold omap list_omap].
  { exists M. split; [done|]. apply reached_from_nil. }
  destruct (E !! c) as [s|]; cbn [fmap option_fmap option_map].
  - destruct (materialize_spec links d D Hd c s M) as (M1 & -> & H1); [apply HD; by left|]. cbn [mbind py_bind].
    destruct (IH M1) as (M' & Hf & H2); [intros; apply HD; by right|]. exists M'. split; [done|].
    by apply (reached_from_app links [(c, s)]) with M1.
  - apply IH. intros; apply HD; by right.
Qed.

Lemma follow_all_spec links ds E M :
  (∀ d, d ∈ ds → ∃ D, dict_of links d D) →
  ∃ M', py_fold (follow_from E) M ds = Ok M' ∧ reached_from links (flat_map (starts_in E) ds) M M'.
Proof.
  revert M. induction ds as [|d ds IH]; intros M Hds; cbn [py_fold flat_map].
  { exists M. split; [done|]. apply reached_from_nil. }
  destruct (Hds d) as [D Hd]; [by left|]. destruct (follow_from_spec links d D E M Hd) as (M1 & -> & H1). cbn [mbind py_bind].
  destruct (IH M1) as (M' & Hf & H2); [intros; apply Hds; by right|]. exists M'. split; [done|]. by eapply reached_from_app.
Qed.

(** From positions that have been followed, all paths stay below. *)
Lemma closed_path links M p q :
  (∀ c, closed_at links M (c, lvl M c)) → path (.∈ links) p q → p.2 ≤ lvl M p.1 → q.2 ≤ lvl M q.1.
Proof.
  intros Hc. induction 1 as [c s s' Hs|c s os tc ts q Hs Hl Hp IH]; cbn; intros Hle; [lia|].
  apply IH. cbn. apply (Hc c os tc ts Hl). cbn. lia.
Qed.

Lemma closed_linked links M p q :
  (∀ c, closed_at links M (c, lvl M c)) → closed_at links M p → linked (.∈ links) p q → q.2 ≤ lvl M q.1.
Proof.
  intros Hc Hp (os & tc & ts & Hos & Hl & Hpath). eapply (closed_path links M (tc, ts)); [done|done|]. by eapply Hp.
Qed.

(** ** Highest positions *)

Lemma raise_to_lvl M p c : lvl (raise_to M p) c = if decide (c = p.1) then Z.max p.2 (lvl M c) else lvl M c.
Proof. unfold raise_to. rewrite lvl_insert. case_decide as E; [by rewrite E|done]. Qed.

Lemma raise_to_some M p c v : 1 ≤ p.2 → raise_to M p !! c = Some v → M !! c = Some v ∨ p = (c, v).
Proof.
  intros Hp. unfold raise_to. intros [[<- <-]|[_ ?]]%lookup_insert_Some; [|by left]. destruct p as [c s]. cbn in *.
  destruct (M !! c) as [w|] eqn:Ew; cbn; [|right; f_equal; lia].
  destruct (Z.max_spec s w) as [[_ ->]|[_ ->]]; [by left|by right].
Qed.

(** [M] has the highest of some positions. *)
Record highest (ps : list pos) (M : gmap Z Z) : Prop := {
  hi_above : ∀ c s, (c, s) ∈ ps → s ≤ lvl M c ∧ c ∈ dom M;
  hi_some : ∀ c s, M !! c = Some s → (c, s) ∈ ps;
}.

Lemma highest_raise ps M p : 1 ≤ p.2 → highest ps M → highest (ps ++ [p]) (raise_to M p).
Proof.
  intros Hp [H1 H2]. split.
  - intros c s [Hs|Hs]%elem_of_app.
    + destruct (H1 c s Hs) as [Hle Hd]. rewrite raise_to_lvl. split; [case_decide; lia|]. unfold raise_to. rewrite dom_insert_L.
      apply elem_of_union. by right.
    + apply list_elem_of_singleton in Hs as <-. rewrite raise_to_lvl, decide_True by done. cbn. split; [lia|].
      unfold raise_to. cbn. rewrite dom_insert_L. apply elem_of_union. left. by apply elem_of_singleton.
  - intros c s Hs. rewrite elem_of_app, list_elem_of_singleton.
    destruct (raise_to_some M p c s Hp Hs) as [?|?]; [left; by apply H2|by right].
Qed.

(** ** By following [event_auth] *)

Section Walk.
Context (t : chain_tables).
Abbreviation auth := (λ e a : string, a ∈ stored_auth t e).

Lemma new_front_elem known (front : gset string) a :
  a ∈ (⋃ (map (λ chunk, ⋃ (map (auth_rows t known) chunk)) (batch_iter (elements front) 100)) : gset string) ↔
  ∃ e, e ∈ front ∧ auth e a ∧ a ∈ known.
Proof.
  destruct (batch_iter_spec (elements front) 100) as [Hc _]; [lia|]. rewrite elem_of_union_list. split.
  - intros (X & HX & Ha). apply list_elem_of_fmap in HX as (chunk & -> & Hch). apply elem_of_union_list in Ha as (Y & HY & Ha).
    apply list_elem_of_fmap in HY as (e & -> & He). exists e. split.
    + apply elem_of_elements. rewrite <- Hc. apply list_elem_of_In, in_concat. exists chunk. by rewrite <- !list_elem_of_In.
    + unfold auth_rows in Ha. apply elem_of_list_to_set, list_elem_of_In, filter_In in Ha as [Ha Hk]. to_prop.
      split; [by apply list_elem_of_In|done].
  - intros (e & He & Ha & Hk). apply elem_of_elements in He. rewrite <- Hc in He. apply list_elem_of_In, in_concat in He as (chunk & Hch & He).
    eexists. split; [apply list_elem_of_fmap; exists chunk; split; [done|by apply list_elem_of_In]|].
    apply elem_of_union_list. eexists. split; [apply list_elem_of_fmap; exists e; split; [done|by apply list_elem_of_In]|].
    unfold auth_rows. apply elem_of_list_to_set, list_elem_of_In, filter_In. split; [by apply list_elem_of_In|]. by apply bool_decide_eq_true.
Qed.

Lemma auth_walk_spec (known ids : gset string) fuel (front results : gset string) :
  (∀ e, e ∈ front → e ∈ ids ∨ e ∈ results ∧ e ∈ known) →
  (∀ e, e ∈ ids ∨ e ∈ results → e ∈ front ∨ ∀ a, auth e a → a ∈ known → a ∈ results) →
  (size (known ∖ results) + (if decide (front = ∅) then 0 else 1) ≤ fuel)%nat →
  ∃ r, auth_walk t known fuel front results = Some r ∧ results ⊆ r ∧
    (∀ e a, e ∈ ids ∨ e ∈ r → auth e a → a ∈ known → a ∈ r) ∧
    ∀ a, a ∈ r → a ∈ results ∨ a ∈ known ∧ ∃ e, (e ∈ ids ∨ e ∈ results) ∧ tc auth e a.
Proof.
  revert front results. induction fuel as [|fuel IH]; intros front results Hfr Hcl Hf; cbn [auth_walk].
  { case_decide; [|lia]. exists results. split_and!; [done|done| |by left]. intros e a He. subst.
    destruct (Hcl e He) as [?%elem_of_empty|H1]; [done|]. apply H1. }
  case_decide as Hemp.
  { exists results. split_and!; [done|done| |by left]. intros e a He. subst.
    destruct (Hcl e He) as [?%elem_of_empty|H1]; [done|]. apply H1. }
  pose proof (new_front_elem known front) as Hnf. set (nf := ⋃ _ : gset string) in *. set (front' := nf ∖ results).
  assert (∀ a, a ∈ front' ↔ (∃ e, e ∈ front ∧ auth e a ∧ a ∈ known) ∧ a ∉ results) as Hf'
    by (intros a; subst front'; by rewrite elem_of_difference, Hnf).
  destruct (IH front' (results ∪ front')) as (r & -> & R1 & R2 & R3).
  - intros e He. right. pose proof (proj1 (Hf' e) He) as [(? & _ & _ & Hk) _]. split; [apply elem_of_union; by right|done].
  - intros e He. destruct (decide (e ∈ front')) as [|Hn]; [by left|right]. intros a Hea Hk. apply elem_of_union.
    destruct (decide (a ∈ results)) as [|Har]; [by left|right]. apply Hf'. split; [|done].
    destruct (Hcl e) as [Hin|Hcl']; [| |by destruct Har; apply Hcl'].
    + destruct He as [?|[?|?]%elem_of_union]; [by left|by right|done].
    + eauto.
  - case_decide as He'.
    { assert (size (known ∖ (results ∪ front')) ≤ size (known ∖ results))%nat; [|lia]. apply subseteq_size. set_solver. }
    assert (size (known ∖ (results ∪ front')) < size (known ∖ results))%nat; [|lia].
    apply set_choose_L in He' as [a Ha]. pose proof (proj1 (Hf' a) Ha) as [(? & _ & _ & Hk) Hn].
    apply subset_size. split; [set_solver|]. intros Hle. assert (a ∈ known ∖ results) as Hin by by apply elem_of_difference.
    apply Hle in Hin. apply elem_of_difference in Hin as [_ Hin]. apply Hin, elem_of_union. by right.
  - exists r. split_and!; [done|set_solver|done|]. intros a Ha.
    assert (∀ f, f ∈ front' → f ∈ known ∧ ∃ e, (e ∈ ids ∨ e ∈ results) ∧ tc auth e f) as Hfront.
    { intros f Hff. apply Hf' in Hff as [(e & He & Hef & Hk) _]. split; [done|]. exists e. split; [|by apply tc_once].
      destruct (Hfr e He) as [?|[? _]]; tauto. }
    destruct (R3 a Ha) as [[?|Hff]%elem_of_union|(Hk & e & He & Hea)]; [by left|right; by apply Hfront|]. right. split; [done|].
    destruct He as [He|[He|He]%elem_of_union]; [exists e; tauto|exists e; tauto|].
    destruct (Hfront e He) as (_ & e' & He' & Hte). exists e'. split; [done|]. by etrans.
Qed.

(** When the events of the auth chains are stored, following them gives the auth chains. *)
Lemma walk_auth_chain (known ids : gset string) include_given :
  (∀ e a, e ∈ ids → tc auth e a → a ∈ known) →
  ∃ r, get_auth_chain_ids t known ids include_given = Ok r ∧
    ∀ a, a ∈ r ↔ (include_given = true ∧ a ∈ ids) ∨ ∃ e, e ∈ ids ∧ tc auth e a.
Proof.
  intros Hknown. unfold get_auth_chain_ids. set (res := if include_given then ids else ∅).
  assert (res ⊆ ids) as Hres by (subst res; by destruct include_given).
  destruct (auth_walk_spec known ids (size known + 1) ids res) as (r & -> & R1 & R2 & R3).
  - by left.
  - intros e [?|?]; left; [done|by apply Hres].
  - assert (size (known ∖ res) ≤ size known)%nat by (apply subseteq_size, subseteq_difference_l; done). case_decide; lia.
  - exists r. split; [done|]. intros a. split.
    + intros Ha. destruct (R3 a Ha) as [Hr|(_ & e & He & Hea)].
      * left. subst res. destruct include_given; [done|]. by apply elem_of_empty in Hr.
      * right. exists e. split; [|done]. destruct He as [?|?]; [done|by apply Hres].
    + intros [[Hi Ha]|(e & He & Hea)]; [apply R1; subst res; by rewrite Hi|].
      apply (tc_ind_r (R := auth) (λ a, a ∈ r) e) with (z := a); [| |done].
      * intros f Hf. eapply R2; [by left|done|]. eapply Hknown; [done|by apply tc_once].
      * intros f g Hef Hfg Hf. eapply R2; [by right|done|]. eapply Hknown; [done|by eapply tc_r].
Qed.
End Walk.

(** ** Following the links of a state set *)

Record set_followed (links : list chain_link) (C : list Z) (M M' : gmap Z Z) : Prop := {
  sf_below : below M M';
  sf_closed : ∀ c, c ∈ C → c ∈ dom M → closed_at links M' (c, lvl M' c);
  sf_raised : ∀ c, M' !! c = M !! c ∨
    closed_at links M' (c, lvl M' c) ∧ M' !! c = Some (lvl M' c) ∧
    ∃ c0 s0, M !! c0 = Some s0 ∧ linked (.∈ links) (c0, s0) (c, lvl M' c);
}.

Lemma set_followed_dom links C M M' c : set_followed links C M M' → c ∈ dom M → c ∈ dom M'.
Proof.
  intros [_ _ H] Hc. apply elem_of_dom. destruct (H c) as [->|(_ & -> & _)]; [by apply elem_of_dom|eauto].
Qed.

Lemma set_followed_app links C1 C2 M M1 M2 :
  set_followed links C1 M M1 → set_followed links C2 M1 M2 → set_followed links (C1 ++ C2) M M2.
Proof.
  intros H1 H2. pose proof H1 as [A1 A2 A3]. pose proof H2 as [B1 B2 B3].
  assert (∀ c, M2 !! c = M1 !! c → closed_at links M1 (c, lvl M1 c) → closed_at links M2 (c, lvl M2 c)) as Hkeep.
  { intros c Heq Hc. assert (lvl M2 c = lvl M1 c) as -> by (unfold lvl; by rewrite Heq). by eapply closed_at_below. }
  split.
  - by etrans.
  - intros c [Hc|Hc]%elem_of_app Hd; [|apply B2; [done|by eapply set_followed_dom]].
    destruct (B3 c) as [Heq|[? _]]; [|done]. apply Hkeep; [done|by apply A2].
  - intros c. destruct (B3 c) as [Heq|(H3 & H4 & c0 & s0 & Hs0 & Hl)].
    + rewrite Heq. destruct (A3 c) as [?|(H3 & H4 & H5)]; [by left|right]. split; [by apply Hkeep|].
      assert (lvl M2 c = lvl M1 c) as -> by (unfold lvl; by rewrite Heq). done.
    + right. split_and!; [done|done|]. destruct (A3 c0) as [Heq|(_ & H5 & c1 & s1 & Hs1 & Hl1)].
      * exists c0, s0. split; [congruence|done].
      * exists c1, s1. split; [done|]. rewrite Hs0 in H5. injection H5 as ->. destruct Hl1 as (os & tc & ts & ? & ? & Hp).
        exists os, tc, ts. split_and!; [done|done|]. eapply path_trans; [done|]. apply path_linked. by right.
Qed.

Lemma set_followed_nil links M : set_followed links [] M M.
Proof. split; [done|by intros c ?%elem_of_nil|by left]. Qed.

Lemma follow_set_spec links d D M :
  dict_of links d D → ∃ M', follow_set d M = Ok M' ∧ set_followed links (elements (dom d)) M M'.
Proof.
  intros Hd. unfold follow_set.
  assert (∀ c, c ∈ elements (dom d) → c ∈ D) as HD by (intros c Hc; apply (do_dom _ _ _ Hd); by apply elem_of_elements).
  revert M HD. induction (elements (dom d)) as [|c l IH]; intros M HD; cbn [py_fold].
  { exists M. split; [done|]. apply set_followed_nil. }
  assert (∃ M1, match M !! c with None => Ok M | Some seq => materialize (c, seq) d M end = Ok M1 ∧ set_followed links [c] M M1)
    as (M1 & -> & H1).
  { destruct (M !! c) as [s|] eqn:Es.
    - destruct (materialize_spec links d D Hd c s M) as (M1 & Hm & [R1 R2 R3]); [apply HD; by left|]. exists M1. split; [done|]. split; [done|..].
      + intros c' ->%list_elem_of_singleton _. destruct (R3 c) as [Heq|[? _]]; [|done].
        assert (lvl M1 c = s) as -> by (unfold lvl; by rewrite Heq, Es). apply R2. by left.
      + intros c'. destruct (R3 c') as [?|(? & ? & p & ->%list_elem_of_singleton & Hl)]; [by left|right]. split_and!; [done|done|]. eauto.
    - exists M. split; [done|]. split; [done| |by left]. intros c' ->%list_elem_of_singleton Hc. apply elem_of_dom in Hc as [? ?]. congruence. }
  cbn [mbind py_bind]. destruct (IH M1) as (M' & Hf & H2); [intros; apply HD; by right|]. exists M'. split; [done|].
  by apply (set_followed_app links [c] l M M1 M').
Qed.

Lemma py_map_spec {A B} (f : A → py B) (P : A → B → Prop) l :
  (∀ x, x ∈ l → ∃ y, f x = Ok y ∧ P x y) → ∃ l', py_map f l = Ok l' ∧ Forall2 P l l'.
Proof.
  induction l as [|x l IH]; intros Hl; cbn [py_map]; [by exists []|].
  destruct (Hl x) as (y & -> & Hy); [by left|]. cbn [mbind py_bind]. destruct IH as (l' & -> & Hl'); [intros; apply Hl; by right|].
  cbn [mbind py_bind]. exists (y :: l'). by split; [|constructor].
Qed.

Definition dict_keys (ds : list (gmap Z (list (Z * Z * Z)))) : list Z := flat_map (λ d, elements (dom d)) ds.

Lemma follow_sets_spec links ds sets seen :
  (∀ d, d ∈ ds → ∃ D, dict_of links d D) → (∀ M, M ∈ sets → dom M ⊆ seen) →
  ∃ sets' seen', py_fold follow_sets (sets, seen) ds = Ok (sets', seen') ∧
    Forall2 (set_followed links (dict_keys ds)) sets sets' ∧ ∀ M, M ∈ sets' → dom M ⊆ seen'.
Proof.
  revert sets seen. induction ds as [|d ds IH]; intros sets seen Hds Hseen; cbn [py_fold dict_keys flat_map].
  { exists sets, seen. split_and!; [done| |done]. apply Forall2_same_length_lookup. split; [done|]. intros i M M' H1 H2. simplify_eq.
    apply set_followed_nil. }
  destruct (Hds d) as [D Hd]; [by left|].
  destruct (py_map_spec (follow_set d) (set_followed links (elements (dom d))) sets) as (sets1 & Hm & Hf1).
  { intros M _. by eapply follow_set_spec. }
  assert (follow_sets (sets, seen) d = Ok (sets1, seen ∪ ⋃ (map dom sets1))) as -> by (unfold follow_sets; cbn [fst snd]; by rewrite Hm).
  cbn [mbind py_bind].
  destruct (IH sets1 (seen ∪ ⋃ (map dom sets1))) as (sets' & seen' & Hf & Hf2 & Hdom).
  { intros; apply Hds; by right. }
  { intros M HM c Hc. apply elem_of_union. right. apply elem_of_union_list. exists (dom M). split; [by apply list_elem_of_fmap_2|done]. }
  exists sets', seen'. split_and!; [done| |done].
  clear -Hf1 Hf2. revert sets' Hf2. induction Hf1 as [|M M1 sets sets1 H1 _ IH]; intros sets' Hf2; inversion Hf2; subst; constructor; [|by apply IH].
  by eapply set_followed_app.
Qed.

Section Read.
Context (t : chain_tables) (rank : string → nat).
Abbreviation old := (event_auth_chains t).
Abbreviation links := (event_auth_chain_links t).
Abbreviation auth := (λ e a : string, a ∈ stored_auth t e).
Context (Hcov : covers auth old (.∈ links)) (Hrank : ∀ e a, auth e a → (rank a < rank e)%nat).

Lemma tc_rank e a : tc auth e a → (rank a < rank e)%nat.
Proof using Hrank. induction 1 as [e a H|e f a H _ IH]; apply Hrank in H; lia. Qed.

Lemma old_seq e c s : old !! e = Some (c, s) → 1 ≤ s.
Proof using Hcov. apply (cov_pos _ _ _ (cov_sound _ _ _ Hcov)). Qed.

Lemma link_seq c os tc ts : (c, os, tc, ts) ∈ links → 1 ≤ os ∧ 1 ≤ ts.
Proof using Hcov.
  intros Hl. destruct (cov_link _ _ _ (cov_sound _ _ _ Hcov) c os tc ts Hl) as (_ & e & a & He & Ha & _).
  split; by eapply old_seq.
Qed.

Definition positions (ids : list string) : list pos := omap (λ e, old !! e) ids.

Lemma positions_elem ids p : p ∈ positions ids ↔ ∃ e, e ∈ ids ∧ old !! e = Some p.
Proof using Type. unfold positions. by rewrite list_elem_of_omap. Qed.

Lemma start_chains_spec ids : highest (positions ids) (start_chains t ids).
Proof using Hcov.
  unfold start_chains. destruct (batch_iter_spec ids 1000) as [Hc _]; [lia|].
  assert (∀ bs M ps, highest ps M → highest (ps ++ positions (concat bs)) (foldl (foldl (start_chain t)) M bs)) as Hb.
  { assert (∀ b M ps, highest ps M → highest (ps ++ positions b) (foldl (start_chain t) M b)) as Hb.
    { intros b. induction b as [|e b IH]; intros M ps HM; cbn [foldl]; [by rewrite app_nil_r|]. unfold positions. cbn [omap list_omap].
      unfold start_chain at 2. destruct (old !! e) as [[c s]|] eqn:Ee; [|by apply IH].
      pose proof (IH (raise_to M (c, s)) (ps ++ [(c, s)])) as H. rewrite <- (assoc_L (++)) in H. apply H.
      apply highest_raise; [by eapply old_seq|done]. }
    intros bs. induction bs as [|b bs IH]; intros M ps HM; cbn [foldl concat]; [by rewrite app_nil_r|].
    unfold positions. rewrite omap_app. rewrite (assoc_L (++)). by apply IH, Hb. }
  rewrite <- Hc at 1. apply (Hb _ ∅ []). split; [by intros c s ?%elem_of_nil|done].
Qed.

(** All links from the given events are followed. *)
Lemma follow_starts E ps :
  highest ps E → (∀ p, p ∈ ps → ∃ e, old !! e = Some p) →
  ∃ M, py_fold (follow_from E) ∅ (chain_links t (dom E)) = Ok M ∧
    (∀ c, closed_at links M (c, lvl M c)) ∧ (∀ p, p ∈ ps → closed_at links M p) ∧
    ∀ c v, M !! c = Some v → ∃ p, p ∈ ps ∧ linked (.∈ links) p (c, v).
Proof using Hcov.
  intros [H1 H2] Hps. destruct (get_chain_links_spec links (size (dom E)) (dom E)) as [Hd Hc]; [done|]. fold (chain_links t (dom E)) in Hd, Hc.
  destruct (follow_all_spec links (chain_links t (dom E)) E ∅ Hd) as (M & -> & [R1 R2 R3]).
  exists M. split; [done|]. assert (∀ c s, (c, s) ∈ flat_map (starts_in E) (chain_links t (dom E)) → E !! c = Some s) as Hst.
  { intros c s Hin. apply list_elem_of_In, in_flat_map in Hin as (d & _ & Hin). apply list_elem_of_In, starts_in_elem in Hin. by apply Hin. }
  split_and!.
  - intros c. destruct (R3 c) as [Hc0|[? _]]; [|done]. rewrite lookup_empty in Hc0. intros os tc ts Hl. cbn. unfold lvl at 1. rewrite Hc0. cbn.
    apply link_seq in Hl. lia.
  - intros [c s] Hp os tc ts Hl Hos. cbn in *. destruct (H1 c s Hp) as [Hle [v Hv]%elem_of_dom].
    destruct (Hc c os tc ts) as (d & Hd' & Hcd); [by apply elem_of_dom|done|].
    eapply (R2 (c, v)); [|done|].
    + apply list_elem_of_In, in_flat_map. exists d. rewrite <- !list_elem_of_In. split; [done|]. by apply starts_in_elem.
    + cbn. unfold lvl in Hle. rewrite Hv in Hle. cbn in Hle. lia.
  - intros c v Hv. destruct (R3 c) as [Hc0|(_ & Hv' & [c0 s0] & Hp & Hl)]; [by rewrite Hv in Hc0|].
    exists (c0, s0). split; [by apply H2, Hst|]. rewrite Hv in Hv'. injection Hv' as ->. done.
Qed.

Lemma below_starts_spec l M :
  (∀ x, x ∈ l → 1 ≤ x.2) →
  let M' := foldl below_start M l in
  below M M' ∧ (∀ c s, (c, s) ∈ l → 1 < s → s - 1 ≤ lvl M' c) ∧
  ∀ c v, M' !! c = Some v → M !! c = Some v ∨ ∃ s, (c, s) ∈ l ∧ v = s - 1.
Proof using Type.
  revert M. induction l as [|[c0 s0] l IH]; intros M Hl; cbn [foldl].
  { split_and!; [done|by intros c s ?%elem_of_nil|by left]. }
  destruct (IH (below_start M (c0, s0))) as (I1 & I2 & I3); [intros; apply Hl; by right|].
  assert (1 ≤ s0) as H0 by (apply (Hl (c0, s0)); by left).
  assert (below M (below_start M (c0, s0)) ∧ (1 < s0 → s0 - 1 ≤ lvl (below_start M (c0, s0)) c0) ∧
    ∀ c v, below_start M (c0, s0) !! c = Some v → M !! c = Some v ∨ c = c0 ∧ v = s0 - 1) as (B1 & B2 & B3).
  { unfold below_start. cbn [fst snd]. destruct (s0 =? 1) eqn:E; to_prop; [split_and!; [done|lia|by left]|].
    fold (lvl M c0). split_and!.
    - apply below_insert. lia.
    - rewrite lvl_insert, decide_True by done. lia.
    - intros c v [[<- <-]|[_ ?]]%lookup_insert_Some; [|by left]. unfold lvl. destruct (M !! c0) as [w|] eqn:Ew; cbn; [|right; split; [done|lia]].
      destruct (Z.max_spec (s0 - 1) w) as [[_ ->]|[_ ->]]; [by left|by right]. }
  split_and!.
  - by etrans.
  - intros c s [[= -> ->]|Hin]%elem_of_cons Hs; [specialize (I1 c0); specialize (B2 Hs); lia|by apply I2].
  - intros c v [Hv|(s & Hs & ->)]%I3; [|right; exists s; split; [by right|done]].
    apply B3 in Hv as [?|[-> ->]]; [by left|]. right. exists s0. split; [by left|done].
Qed.

Lemma events_upto_elem M a : a ∈ events_upto t M ↔ ∃ c n v, old !! a = Some (c, n) ∧ M !! c = Some v ∧ n ≤ v.
Proof using Type.
  unfold events_upto. rewrite elem_of_dom. split.
  - intros [[c n] [Ha Hm]%map_lookup_filter_Some]. cbn in Hm. destruct (M !! c) as [v|] eqn:Ev; [|done]. to_prop. eauto 10.
  - intros (c & n & v & Ha & Hv & Hle). exists (c, n). apply map_lookup_filter_Some. split; [done|]. cbn. rewrite Hv. by apply Z.leb_le.
Qed.

(** The auth chains of the given events, by the index *)
Lemma index_auth_chain (ids : gset string) include_given :
  ids ⊆ dom old →
  ∃ r, get_auth_chain_ids_using_cover_index t ids include_given = Ok r ∧
    ∀ a, a ∈ r ↔ (include_given = true ∧ a ∈ ids) ∨ ∃ e, e ∈ ids ∧ tc auth e a.
Proof using Hcov Hrank.
  intros Hids. unfold get_auth_chain_ids_using_cover_index. rewrite bool_decide_eq_true_2 by done. cbn [negb raise_if mbind py_bind].
  pose proof (cov_sound _ _ _ Hcov) as Hsound. set (E := start_chains t (elements ids)).
  pose proof (start_chains_spec (elements ids)) as HE. fold E in HE.
  destruct (follow_starts E (positions (elements ids)) HE) as (M & -> & M1 & M2 & M3).
  { intros p (e & _ & He)%positions_elem. eauto. }
  cbn [mbind py_bind]. eexists. split; [done|].
  destruct (below_starts_spec (map_to_list E) M) as (B1 & B2 & B3).
  { intros [c s] Hc%elem_of_map_to_list. apply (hi_some _ _ HE), positions_elem in Hc as (e & _ & He). by eapply old_seq. }
  set (M' := foldl below_start M (map_to_list E)) in *.
  assert (∀ a, a ∈ events_upto t M' ↔ ∃ e, e ∈ ids ∧ tc auth e a) as Hup.
  2:{ intros a. rewrite elem_of_union, Hup. destruct include_given; [tauto|]. rewrite elem_of_empty. intuition discriminate. }
  intros a. rewrite events_upto_elem. split.
  - intros (c & n & v & Ha & Hv & Hle). pose proof (old_seq a c n Ha) as Hn. apply B3 in Hv as [Hv|(s & Hs & ->)].
    + destruct (M3 c v Hv) as (p & Hp & Hl). apply positions_elem in Hp as (e & He & Hep). exists e. split; [by apply elem_of_elements|].
      apply (linked_sound _ _ _ Hsound p (c, n) e a); [|done|done]. destruct Hl as (os & tc & ts & ? & ? & Hpath). exists os, tc, ts.
      split_and!; [done|done|]. by eapply path_lower.
    + apply elem_of_map_to_list, (hi_some _ _ HE), positions_elem in Hs as (e & He & Hep). exists e. split; [by apply elem_of_elements|].
      destruct (at_below _ _ _ Hsound e c s n Hep) as (b & Hb & _ & Htc); [lia|].
      rewrite (cov_inj _ _ _ Hsound a b (c, n)) by done. apply Htc. lia.
  - intros (e & He & Hea). pose proof (Hids e He) as [[c s] Hp]%elem_of_dom.
    destruct (path_complete _ _ _ Hcov e a (c, s) (tc_rtc _ _ Hea) Hp) as ([c' n] & Hq & Hpath).
    pose proof (old_seq a c' n Hq) as Hn.
    assert ((c, s) ∈ positions (elements ids)) as Hin by (apply positions_elem; exists e; split; [by apply elem_of_elements|done]).
    assert (n ≤ lvl M' c') as Hle.
    { apply path_linked in Hpath as [[Hc Hs]|Hl]; cbn in *.
      - subst c'. assert (n ≠ s) as Hne.
        { intros ->. pose proof (cov_inj _ _ _ Hsound e a (c, s) Hp Hq). subst a. apply tc_rank in Hea. lia. }
        destruct (hi_above _ _ HE c s Hin) as [Hle [v Hv]%elem_of_dom]. unfold lvl in Hle. rewrite Hv in Hle. cbn in Hle.
        specialize (B2 c v (proj2 (elem_of_map_to_list _ _ _) Hv)). lia.
      - specialize (B1 c'). pose proof (closed_linked links M (c, s) (c', n) M1 (M2 _ Hin) Hl). cbn in *. lia. }
    unfold lvl in Hle. destruct (M' !! c') as [v|] eqn:Ev; cbn in Hle; [|lia]. exists c', n, v. split_and!; done.
Qed.

End Read.

(** The index of consistent tables covers what [event_auth] says. *)
Lemma tables_covers graph t :
  tables_ok graph t → covers (λ e a : string, a ∈ stored_auth t e) (event_auth_chains t) (.∈ event_auth_chain_links t).
Proof.
  intros Ht. eapply covers_ext; [|by apply ok_covers]. intros e a He. cbn. by rewrite (ok_stored _ _ Ht e) by by apply (ok_indexed _ _ Ht).
Qed.

Lemma tables_rank graph rank t :
  graph_ok graph rank → tables_ok graph t → ∀ e a, a ∈ stored_auth t e → (rank a < rank e)%nat.
Proof.
  intros Hg Ht e a Ha. destruct (decide (e ∈ dom (t_state_events t))) as [Hd|Hd].
  - rewrite (ok_stored _ _ Ht e Hd) in Ha. by apply (gr_rank _ _ Hg).
  - rewrite (ok_event_auth _ _ Ht e Hd) in Ha. by apply elem_of_nil in Ha.
Qed.

(** For indexed events, [event_auth] has the whole auth graph. *)
Lemma tables_tc graph t e a :
  tables_ok graph t → e ∈ dom (event_auth_chains t) →
  tc (λ e a, a ∈ stored_auth t e) e a ↔ tc (λ e a, a ∈ graph e) e a.
Proof.
  intros Ht He. assert (∀ e, e ∈ dom (event_auth_chains t) → stored_auth t e = graph e) as Hst.
  { intros e' He'. by apply (ok_stored _ _ Ht), (ok_indexed _ _ Ht). }
  assert (∀ e a, e ∈ dom (event_auth_chains t) → a ∈ graph e → a ∈ dom (event_auth_chains t)) as Hin.
  { intros e' a' [p Hp]%elem_of_dom Ha. destruct (cov_auth _ _ _ (ok_covers _ _ Ht) e' p a' Hp Ha) as (q & Hq & _). by apply elem_of_dom. }
  split; intros Hea; revert He; induction Hea as [e a H|e f a H _ IH]; intros He.
  - apply tc_once. by rewrite <- Hst.
  - rewrite Hst in H by done. eapply tc_l; [done|]. apply IH. by eapply Hin.
  - apply tc_once. by rewrite Hst.
  - eapply tc_l; [by rewrite Hst|]. apply IH. by eapply Hin.
Qed.

(** The auth chain of indexed events that is read from the chain cover index is the
    one that following [event_auth] finds, and is the set of the events that can be
    reached from them along auth events, with the events themselves if asked for. *)
Theorem auth_chain_by_index graph rank t (known ids : gset string) include_given :
  graph_ok graph rank → tables_ok graph t → dom (t_state_events t) ⊆ known → ids ⊆ dom (event_auth_chains t) →
  ∃ r, get_auth_chain_ids_using_cover_index t ids include_given = Ok r ∧ get_auth_chain_ids t known ids include_given = Ok r ∧
    ∀ a, a ∈ r ↔ (include_given = true ∧ a ∈ ids) ∨ ∃ e, e ∈ ids ∧ tc (λ e a, a ∈ graph e) e a.
Proof.
  intros Hg Ht Hk Hids. pose proof (tables_covers graph t Ht) as Hcov. pose proof (tables_rank graph rank t Hg Ht) as Hrank.
  assert (∀ e a, e ∈ dom (event_auth_chains t) → tc (λ e a, a ∈ stored_auth t e) e a → a ∈ dom (event_auth_chains t)) as Hdom.
  { intros e a [p Hp]%elem_of_dom Hea. destruct (path_complete _ _ _ Hcov e a p (tc_rtc _ _ Hea) Hp) as (q & Hq & _). by apply elem_of_dom. }
  destruct (index_auth_chain t rank Hcov Hrank ids include_given Hids) as (r & -> & Hr).
  destruct (walk_auth_chain t known ids include_given) as (r' & -> & Hr').
  { intros e a He Hea. apply Hk, (ok_indexed _ _ Ht). eapply Hdom; [by apply Hids|done]. }
  exists r. split_and!; [done|f_equal; apply set_eq; intros a; by rewrite Hr, Hr'|].
  intros a. rewrite Hr. apply or_iff_compat_l. split; intros (e & He & Hea); exists e; (split; [done|]).
  - by apply (tables_tc graph t e a Ht (Hids e He)).
  - by apply (tables_tc graph t e a Ht (Hids e He)).
Qed.

(** In the room of the example with its events *)
Definition ex_indexed : chain_tables :=
  MkTables {[ "$m" := ["$c"]; "$p" := ["$c"; "$m"]; "$m2" := ["$c"; "$m"]; "$x" := ["$c"; "$u"] ]}%string
    {[ "$c" := ("m.room.create", ""); "$m" := (ex_member, "@a"); "$p" := ("m.room.power_levels", ""); "$m2" := (ex_member, "@a");
       "$x" := (ex_member, "@b") ]}%string
    {[ "$c"%string := (1, 1); "$m"%string := (2, 1); "$m2"%string := (2, 2); "$p"%string := (3, 1) ]}
    [(2, 1, 1, 1); (3, 1, 2, 1)] {[ "$x" := ("!r", ex_member, "@b") ]}%string 4.

Example ex_persisted :
  persist_auth_index ex_tables {[ "!r"%string := Some true ]} "!r" ex_events = Ok ex_indexed.
Proof. vm_compute. reflexivity. Qed.

Lemma ex_indexed_ok : tables_ok ex_graph ex_indexed.
Proof. exact (persist_keeps_ok ex_graph ex_rank _ _ _ _ _ ex_graph_ok ex_tables_ok ex_events_ok ex_persisted). Qed.

Lemma auth_chain_by_index_witness :
  ∃ r, get_auth_chain_ids_using_cover_index ex_indexed {[ "$p"%string ]} true = Ok r ∧
    get_auth_chain_ids ex_indexed (dom (t_state_events ex_indexed)) {[ "$p"%string ]} true = Ok r ∧
    ∀ a, a ∈ r ↔ (true = true ∧ a ∈ ({[ "$p"%string ]} : gset string)) ∨
      ∃ e, e ∈ ({[ "$p"%string ]} : gset string) ∧ tc (λ e a, a ∈ ex_graph e) e a.
Proof.
  apply (auth_chain_by_index ex_graph ex_rank); [exact ex_graph_ok|exact ex_indexed_ok|done|by apply (bool_decide_unpack _)].
Defined.
