(* ===== verification/AuthDifference.v ===== *)
(** * The difference of auth chains by the chain cover index

    [get_auth_chain_difference_using_cover_index] gives the events that are in the
    auth chain of some state set and not of all of them. *)

From S2P Require Import Prelude TopoSort IterUtils ChainCover ChainPaths ChainBuild ChainGather ChainIndex AuthChains AuthChainFacts.

Open Scope Z_scope.

(** What is reached from a set of events, and the difference of these sets *)
Definition reaches (auth : string → string → Prop) (S : gset string) (a : string) : Prop := ∃ e, e ∈ S ∧ rtc auth e a.
Definition in_difference (auth : string → string → Prop) (sets : list (gset string)) (a : string) : Prop :=
  (∃ S, S ∈ sets ∧ reaches auth S a) ∧ ∃ S, S ∈ sets ∧ ¬ reaches auth S a.

(** ** Least and greatest numbers *)

Lemma min_list_spec l : l ≠ [] → (∀ x, x ∈ l → min_list l ≤ x) ∧ min_list l ∈ l.
Proof.
  destruct l as [|x l]; [done|]. intros _. cbn [min_list]. revert x. induction l as [|y l IH]; intros x; cbn [foldl].
  { split; [|by left]. by intros z ->%list_elem_of_singleton. }
  destruct (IH (Z.min x y)) as [H1 H2]. split.
  - intros z Hz. assert (foldl Z.min (Z.min x y) l ≤ Z.min x y) by (apply H1; by left).
    apply elem_of_cons in Hz as [->|[->|Hz]%elem_of_cons]; [lia..|]. apply H1. by right.
  - apply elem_of_cons in H2 as [->|H2]; [|right; by right]. destruct (Z.min_spec x y) as [[_ ->]|[_ ->]]; [by left|right; by left].
Qed.

Lemma max_list_spec l : l ≠ [] → (∀ x, x ∈ l → x ≤ max_list l) ∧ max_list l ∈ l.
Proof.
  destruct l as [|x l]; [done|]. intros _. cbn [max_list]. revert x. induction l as [|y l IH]; intros x; cbn [foldl].
  { split; [|by left]. by intros z ->%list_elem_of_singleton. }
  destruct (IH (Z.max x y)) as [H1 H2]. split.
  - intros z Hz. assert (Z.max x y ≤ foldl Z.max (Z.max x y) l) by (apply H1; by left).
    apply elem_of_cons in Hz as [->|[->|Hz]%elem_of_cons]; [lia..|]. apply H1. by right.
  - apply elem_of_cons in H2 as [->|H2]; [|right; by right]. destruct (Z.max_spec x y) as [[_ ->]|[_ ->]]; [right; by left|by left].
Qed.

(** A number lies in the gap if some numbers are below it and some are not. *)
Lemma gap_spec l n : l ≠ [] → min_list l < n ≤ max_list l ↔ (∃ x, x ∈ l ∧ n ≤ x) ∧ ∃ x, x ∈ l ∧ ¬ n ≤ x.
Proof.
  intros Hl. destruct (min_list_spec l Hl) as [M1 M2]. destruct (max_list_spec l Hl) as [X1 X2]. split.
  - intros [Hlo Hhi]. split; [by exists (max_list l)|]. exists (min_list l). split; [done|lia].
  - intros [(x & Hx & Hn) (y & Hy & Hm)]. specialize (X1 x Hx). specialize (M1 y Hy). lia.
Qed.

(** ** Filling the gaps *)

Lemma fill_gap_spec at_seq seqs result :
  let '(r, gap) := fill_gap at_seq seqs result in
  (∀ e, e ∈ r → e ∈ result ∨ ∃ n, n ∈ seqs ∧ at_seq n = Some e) ∧ result ⊆ r ∧
  (gap = false → ∀ n, n ∈ seqs → ∃ e, at_seq n = Some e ∧ e ∈ r).
Proof.
  revert result. induction seqs as [|n seqs IH]; intros result; cbn [fill_gap].
  { split_and!; [by left|done|]. by intros _ n ?%elem_of_nil. }
  destruct (at_seq n) as [e|] eqn:En; [|split_and!; [by left|done|done]].
  specialize (IH ({[e]} ∪ result)). destruct (fill_gap at_seq seqs ({[e]} ∪ result)) as [r gap]. destruct IH as (I1 & I2 & I3).
  split_and!.
  - intros x [[->%elem_of_singleton|?]%elem_of_union|(m & Hm & Hx)]%I1; [|by left|].
    + right. exists n. split; [by left|done].
    + right. exists m. split; [by right|done].
  - set_solver.
  - intros Hg m [->|Hm]%elem_of_cons; [|by apply I3]. exists e. split; [done|]. set_solver.
Qed.

Section Gaps.
Context (t : chain_tables) (fetched : gset string).
Abbreviation old := (event_auth_chains t).
Context (old_inj : ∀ e e' p, old !! e = Some p → old !! e' = Some p → e = e').

Lemma chain_event_some c n e : chain_event t fetched c n = Some e → old !! e = Some (c, n).
Proof using Type.
  unfold chain_event. intros He. destruct (List.filter _ _) as [|x l] eqn:El; [done|]. injection He as ->.
  assert (In e (List.filter (λ e, bool_decide (old !! e = Some (c, n))) (elements fetched))) as Hin by (rewrite El; by left).
  apply filter_In in Hin as [_ Hin]. by apply bool_decide_eq_true in Hin.
Qed.

Lemma events_between_elem c lo hi a : a ∈ events_between t (c, (lo, hi)) ↔ ∃ n, old !! a = Some (c, n) ∧ lo < n ≤ hi.
Proof using Type.
  cbn [events_between]. rewrite elem_of_dom. split.
  - intros [[c' n] [Ha Hm]%map_lookup_filter_Some]. cbn in Hm. apply andb_true_iff in Hm as [[Hc Hn]%andb_true_iff Hh]. to_prop.
    exists n. subst. split; [done|lia].
  - intros (n & Ha & Hn). exists (c, n). apply map_lookup_filter_Some. split; [done|]. cbn.
    rewrite !andb_true_iff, Z.eqb_eq, Z.ltb_lt, Z.leb_le. lia.
Qed.

(** What has been found, with what is fetched for the gaps *)
Definition found (acc : gset string * list (Z * (Z * Z))) (a : string) : Prop :=
  a ∈ acc.1 ∨ ∃ g, g ∈ acc.2 ∧ a ∈ events_between t g.

Context (sets : list (gmap Z Z)).
Abbreviation numbers c := (map (λ chains : gmap Z Z, default 0 (chains !! c)) sets).
Definition in_gap (c : Z) (a : string) : Prop := ∃ n, old !! a = Some (c, n) ∧ min_list (numbers c) < n ≤ max_list (numbers c).

Lemma gap_one_spec acc c a : found (gap_one t fetched sets acc c) a ↔ found acc a ∨ in_gap c a.
Proof using old_inj.
  destruct acc as [result gaps]. cbn [gap_one]. set (lo := min_list (numbers c)). set (hi := max_list (numbers c)).
  destruct (lo <? hi) eqn:E; to_prop.
  2:{ split; [by left|]. intros [?|(n & _ & Hn)]; [done|]. fold lo hi in Hn. lia. }
  pose proof (fill_gap_spec (chain_event t fetched c) (seqZ (lo + 1) (hi - lo)) result) as Hf.
  destruct (fill_gap _ _ result) as [r gap]. destruct Hf as (F1 & F2 & F3).
  assert (∀ e, e ∈ r → e ∈ result ∨ in_gap c e) as Hr.
  { intros e [?|(n & Hn & He)]%F1; [by left|right]. apply chain_event_some in He. exists n. split; [done|]. fold lo hi.
    apply elem_of_seqZ in Hn. lia. }
  unfold found. cbn [fst snd]. destruct gap.
  - split.
    + intros [[?|?]%Hr|(g & [Hg|Hg]%elem_of_app & Ha)]; [left; by left|by right|left; right; eauto|].
      apply list_elem_of_singleton in Hg as ->. right. by apply events_between_elem.
    + intros [[?|(g & Hg & Ha)]|Hg]; [left; by apply F2|right; exists g; rewrite elem_of_app; auto|].
      right. exists (c, (lo, hi)). split; [apply elem_of_app; right; by left|]. by apply events_between_elem.
  - split.
    + intros [[?|?]%Hr|?]; [left; by left|by right|left; by right].
    + intros [[?|?]|(n & Ha & Hn)]; [left; by apply F2|by right|]. left. fold lo hi in Hn.
      destruct (F3 eq_refl n) as (e & He & Her); [apply elem_of_seqZ; lia|]. apply chain_event_some in He.
      by rewrite (old_inj a e (c, n)).
Qed.

Lemma gaps_spec chains acc a : found (foldl (gap_one t fetched sets) acc chains) a ↔ found acc a ∨ ∃ c, c ∈ chains ∧ in_gap c a.
Proof using old_inj.
  revert acc. induction chains as [|c chains IH]; intros acc; cbn [foldl].
  { split; [by left|]. by intros [?|(? & ?%elem_of_nil & _)]. }
  rewrite IH, gap_one_spec. setoid_rewrite elem_of_cons. naive_solver.
Qed.
End Gaps.

(** ** Events that wait for their position *)

Section Partial.
Context (W : gmap string (gset string)).

(** The auth events of the waiting events *)
Definition waits (e a : string) : Prop := ∃ X, W !! e = Some X ∧ a ∈ X.
Definition wait_targets : gset string := ⋃ (map snd (map_to_list W)).

Lemma wait_targets_elem e a : waits e a → a ∈ wait_targets.
Proof.
  intros (X & HX & Ha). unfold wait_targets. apply elem_of_union_list. exists X. split; [|done]. apply list_elem_of_fmap.
  exists (e, X). split; [done|]. by apply elem_of_map_to_list.
Qed.

Lemma partial_chain_spec fuel (P T : gset string) :
  P ⊆ wait_targets → P ## T → (∀ x a, x ∈ T → waits x a → a ∈ P ∨ a ∈ T) → (size (wait_targets ∖ T) ≤ fuel)%nat →
  ∃ r, partial_chain W fuel P T = Some r ∧ P ⊆ r ∧ T ⊆ r ∧ (∀ x a, x ∈ r → waits x a → a ∈ r) ∧
    ∀ a, a ∈ r → a ∈ T ∨ ∃ x, x ∈ P ∧ rtc waits x a.
Proof.
  revert P T. induction fuel as [|fuel IH]; intros P T HP Hdisj Hcl Hf; cbn [partial_chain]; destruct (elements P) as [|x l] eqn:El.
  1,3: (assert (P = ∅) as -> by (by apply elements_empty_inv, leibniz_equiv in El); exists T;
    split_and!; [done|done|done| |by left]; intros x a Hx Hxa; by destruct (Hcl x a Hx Hxa) as [?%elem_of_empty|]).
  all: assert (x ∈ P) as Hx by (apply elem_of_elements; rewrite El; by left).
  { exfalso. assert (wait_targets ∖ T ≡ ∅) as He by (apply size_empty_inv; lia). specialize (He x). set_solver. }
  assert (size (wait_targets ∖ ({[x]} ∪ T)) < size (wait_targets ∖ T))%nat as Hlt.
  { apply subset_size. split; [set_solver|]. intros Hle. assert (x ∈ wait_targets ∖ T) as Hin by set_solver. apply Hle in Hin. set_solver. }
  destruct (W !! x) as [sub|] eqn:Ex.
  - destruct (IH (P ∖ {[x]} ∪ (sub ∖ ({[x]} ∪ T))) ({[x]} ∪ T)) as (r & -> & R1 & R2 & R3 & R4); [| | |lia|].
    + intros a [Ha|Ha]%elem_of_union; [set_solver|]. apply (wait_targets_elem x). exists sub. set_solver.
    + set_solver.
    + intros y a [->%elem_of_singleton|Hy]%elem_of_union Ha.
      * destruct Ha as (X & HX & Ha). rewrite Ex in HX. injection HX as <-. destruct (decide (a ∈ {[x]} ∪ T)); [by right|left]. set_solver.
      * destruct (Hcl y a Hy Ha); [|set_solver]. destruct (decide (a = x)) as [->|]; [right|left]; set_solver.
    + exists r. split_and!; [done| |set_solver|done|].
      * intros y Hy. destruct (decide (y = x)) as [->|]; [apply R2|apply R1]; set_solver.
      * intros a Ha. destruct (R4 a Ha) as [[->%elem_of_singleton|?]%elem_of_union|(y & [Hy|Hy]%elem_of_union & Hya)].
        -- right. exists x. split; [done|apply rtc_refl].
        -- by left.
        -- right. exists y. split; [set_solver|done].
        -- right. exists x. split; [done|]. eapply rtc_l; [|done]. exists sub. set_solver.
  - destruct (IH (P ∖ {[x]}) ({[x]} ∪ T)) as (r & -> & R1 & R2 & R3 & R4); [set_solver|set_solver| |lia|].
    + intros y a [->%elem_of_singleton|Hy]%elem_of_union Ha; [destruct Ha as (X & HX & _); congruence|].
      destruct (Hcl y a Hy Ha); [|set_solver]. destruct (decide (a = x)) as [->|]; [right|left]; set_solver.
    + exists r. split_and!; [done| |set_solver|done|].
      * intros y Hy. destruct (decide (y = x)) as [->|]; [apply R2|apply R1]; set_solver.
      * intros a Ha. destruct (R4 a Ha) as [[->%elem_of_singleton|?]%elem_of_union|(y & Hy & Hya)].
        -- right. exists x. split; [done|apply rtc_refl].
        -- by left.
        -- right. exists y. split; [set_solver|done].
Qed.

Lemma partial_auth_chain e X :
  W !! e = Some X →
  ∃ r, partial_chain W (partial_fuel W) X ∅ = Some r ∧ ∀ a, a ∈ r ↔ tc waits e a.
Proof.
  intros HX. assert (∀ a, a ∈ X → waits e a) as Hwe by (intros a Ha; by exists X).
  destruct (partial_chain_spec (partial_fuel W) X ∅) as (r & -> & R1 & _ & R3 & R4).
  - intros a Ha. by apply (wait_targets_elem e), Hwe.
  - set_solver.
  - set_solver.
  - unfold partial_fuel. fold wait_targets. assert (wait_targets ∖ ∅ = wait_targets) as -> by set_solver. lia.
  - exists r. split; [done|]. intros a. split.
    + intros Ha. destruct (R4 a Ha) as [?%elem_of_empty|(x & Hx & Hxa)]; [done|]. eapply tc_rtc_r; [by apply tc_once, Hwe|done].
    + intros Ha. apply (tc_ind_r (R := waits) (λ a, a ∈ r) e) with (z := a); [| |done].
      * intros b (X' & HX' & Hb). rewrite HX in HX'. injection HX' as <-. by apply R1.
      * intros b c _ Hbc Hb. by eapply R3.
Qed.
End Partial.

(** *** One state set *)

Section Fixup.
Context (W : gmap string (gset string)) (I S0 : gset string).
Context (HWI : ∀ e, e ∈ dom W → e ∉ I).

(** The waiting event and its partial auth chain are in the two sets. *)
Definition handled (acc : gset string * gset string) (e : string) : Prop :=
  e ∈ acc.2 ∧ ∀ a, tc (waits W) e a → (a ∈ I → a ∈ acc.1) ∧ (a ∉ I → a ∈ acc.2).

Record fixed_up (l : list string) (acc : gset string * gset string) : Prop := {
  fx_out : ∀ a, a ∈ acc.2 → a ∉ I ∧ ∃ e, e ∈ S0 ∧ e ∈ dom W ∧ rtc (waits W) e a;
  fx_set : ∀ a, a ∈ acc.1 → a ∈ S0 ∨ a ∈ I ∧ ∃ e, e ∈ S0 ∧ e ∈ dom W ∧ tc (waits W) e a;
  fx_index : ∀ a, a ∈ S0 → a ∈ I → a ∈ acc.1;
  fx_gone : ∀ e, e ∈ l → e ∈ dom W → e ∉ acc.1;
  fx_handled : ∀ e, e ∈ S0 → e ∈ dom W → e ∈ acc.1 ∨ handled acc e;
}.

Lemma fixup_one_spec l acc e A :
  fixed_up l acc → e ∈ dom W → (∀ a, a ∈ A ↔ tc (waits W) e a) → fixed_up (l ++ [e]) (fixup_one I acc (e, A)).
Proof using HWI.
  intros [F1 F2 F3 F4 F5] He HA. destruct acc as [S Un]. cbn [fixup_one fst snd] in *. pose proof (HWI e He) as HeI. case_decide as HeS.
  2:{ split; cbn [fst snd]; try done. intros x [Hx|Hx]%elem_of_app Hxw; [by apply F4|]. by apply list_elem_of_singleton in Hx as ->. }
  assert (e ∈ S0) as HeS0 by (destruct (F2 e HeS) as [?|[? _]]; done).
  assert (∀ a, a ∈ S → a ∈ I → a ∈ (S ∖ {[e]} ∖ A) ∪ (A ∩ I)) as Hkeep.
  { intros a HaS HaI. destruct (decide (a ∈ A)); [set_solver|]. assert (a ≠ e) by congruence. set_solver. }
  assert (handled ((S ∖ {[e]} ∖ A) ∪ (A ∩ I), {[e]} ∪ Un ∪ (A ∖ I)) e) as Hh.
  { split; cbn [fst snd]; [set_solver|]. intros a Ha%HA. set_solver. }
  split; cbn [fst snd].
  - intros a [[->%elem_of_singleton|Ha]%elem_of_union|[Ha Hn]%elem_of_difference]%elem_of_union.
    + split; [done|]. exists e. split_and!; [done|done|apply rtc_refl].
    + by apply F1.
    + split; [done|]. exists e. split_and!; [done|done|]. by apply tc_rtc, HA.
  - intros a [Ha|[Ha HaI]%elem_of_intersection]%elem_of_union; [apply F2; set_solver|]. right. split; [done|]. exists e. split_and!; [done|done|]. by apply HA.
  - intros a Ha HaI. apply Hkeep; [by apply F3|done].
  - intros x Hx Hxw. pose proof (HWI x Hxw) as HxI. apply elem_of_app in Hx as [Hx|Hx]; [specialize (F4 x Hx Hxw); set_solver|].
    apply list_elem_of_singleton in Hx as ->. set_solver.
  - intros x Hx Hxw. destruct (decide (x = e)) as [->|Hne]; [by right|]. destruct (F5 x Hx Hxw) as [HxS|[Hxu Hxc]].
    + destruct (decide (x ∈ A)) as [HxA|HxA]; [|left; set_solver]. right. pose proof (HWI x Hxw) as HxI.
      apply HA in HxA as Hex. split; cbn [fst snd]; [set_solver|]. intros a Ha. apply Hh. by etrans.
    + right. split; cbn [fst snd] in *; [set_solver|]. intros a Ha. destruct (Hxc a Ha) as [H1 H2]. split; [intros HaI; by apply Hkeep; [apply H1|]|].
      intros HaI. specialize (H2 HaI). set_solver.
Qed.

Lemma fixup_fold_spec l partial acc :
  fixed_up l acc → (∀ x, x ∈ partial → x.1 ∈ dom W ∧ ∀ a, a ∈ x.2 ↔ tc (waits W) x.1 a) →
  fixed_up (l ++ map fst partial) (foldl (fixup_one I) acc partial).
Proof using HWI.
  revert l acc. induction partial as [|[e A] partial IH]; intros l acc Hacc Hp; cbn [foldl map]; [by rewrite app_nil_r|].
  destruct (Hp (e, A)) as [He HA]; [by left|]. pose proof (IH (l ++ [e]) (fixup_one I acc (e, A))) as H.
  rewrite <- (assoc_L (++)) in H. apply H; [by apply fixup_one_spec|]. intros; apply Hp; by right.
Qed.

Lemma fixed_up_start : fixed_up [] (S0, ∅).
Proof using Type. split; cbn; [by intros a ?%elem_of_empty|by left|done|by intros e ?%elem_of_nil|by left]. Qed.
End Fixup.

Lemma sets_intersection_elem (l : list (gset string)) a : l ≠ [] → a ∈ sets_intersection l ↔ ∀ X, X ∈ l → a ∈ X.
Proof.
  destruct l as [|X0 l]; [done|]. intros _. cbn [sets_intersection]. revert X0. induction l as [|Y l IH]; intros X0; cbn [foldl].
  { split; [by intros ? X ->%list_elem_of_singleton|]. intros H. apply H. by left. }
  rewrite IH. split.
  - intros H X [->|[->|HX]%elem_of_cons]%elem_of_cons; [..|apply H; by right]; specialize (H (X0 ∩ Y) (list_elem_of_here _ _)); set_solver.
  - intros H X [->|HX]%elem_of_cons; [|apply H; right; by right]. apply elem_of_intersection. split; apply H; [by left|right; by left].
Qed.

(** ** Indexed state sets *)

Section Difference.
Context (t : chain_tables).
Abbreviation old := (event_auth_chains t).
Abbreviation links := (event_auth_chain_links t).
Abbreviation auth := (λ e a : string, a ∈ stored_auth t e).
Context (Hcov : covers auth old (.∈ links)).

Lemma set_chains_spec (S : gset string) :
  S ⊆ dom old → ∃ M, set_chains t S = Ok M ∧ highest (positions t (elements S)) M.
Proof using Hcov.
  intros HS. unfold set_chains.
  assert (∀ l M ps, (∀ e, e ∈ l → e ∈ dom old) → highest ps M →
    ∃ M', py_fold (λ chains e, p ← pos_of old e; Ok (raise_to chains p)) M l = Ok M' ∧ highest (ps ++ positions t l) M') as Hl.
  { intros l. induction l as [|e l IH]; intros M ps Hl HM; cbn [py_fold]; [exists M; by rewrite app_nil_r|].
    assert (is_Some (old !! e)) as [p Hp] by (apply elem_of_dom, Hl; by left). rewrite (pos_of_Ok old e p Hp). cbn [mbind py_bind].
    destruct (IH (raise_to M p) (ps ++ [p])) as (M' & Hf & HM'); [intros; apply Hl; by right| |].
    { apply highest_raise; [|done]. destruct p as [c s]. by eapply (old_seq t Hcov). }
    exists M'. split; [done|]. unfold positions. cbn [omap list_omap]. rewrite Hp. by rewrite <- (assoc_L (++)) in HM'. }
  apply (Hl (elements S) ∅ []).
  - intros e He. by apply HS, elem_of_elements.
  - split; [by intros c s ?%elem_of_nil|done].
Qed.

(** The number that is reached on each chain *)
Lemma set_level (S : gset string) keys M M' :
  S ⊆ dom old → highest (positions t (elements S)) M → set_followed links keys M M' →
  (∀ c os tc ts, c ∈ dom M → (c, os, tc, ts) ∈ links → c ∈ keys) →
  ∀ a c n, old !! a = Some (c, n) → n ≤ lvl M' c ↔ reaches auth S a.
Proof using Hcov.
  intros HS [H1 H2] [F1 F2 F3] Hkeys a c n Ha. pose proof (cov_sound _ _ _ Hcov) as Hsound. pose proof (old_seq t Hcov a c n Ha) as Hn.
  assert (∀ c, closed_at links M' (c, lvl M' c)) as Hcl.
  { intros c'. destruct (F3 c') as [Heq|[? _]]; [|done]. intros os tc ts Hl Hos. cbn in *. destruct (M !! c') as [v|] eqn:Ev.
    - assert (c' ∈ dom M) as Hd by (apply elem_of_dom; by eexists). by eapply (F2 c'); [by eapply Hkeys|done|..].
    - unfold lvl at 1 in Hos. rewrite Heq in Hos. cbn in Hos. apply (link_seq t Hcov) in Hl. lia. }
  split.
  - intros Hle. unfold lvl in Hle. destruct (M' !! c) as [v|] eqn:Ev; cbn in Hle; [|lia].
    destruct (F3 c) as [Heq|(_ & Hv & c0 & s0 & Hs0 & Hl)].
    + rewrite Ev in Heq. symmetry in Heq. apply H2, positions_elem in Heq as (e & He & Hp). exists e. split; [by apply elem_of_elements|].
      destruct (at_below _ _ _ Hsound e c v n Hp) as (b & Hb & Hrtc & _); [lia|]. by rewrite (cov_inj _ _ _ Hsound a b (c, n)).
    + apply H2, positions_elem in Hs0 as (e & He & Hp). exists e. split; [by apply elem_of_elements|].
      rewrite Ev in Hv. injection Hv as Hv. rewrite <- Hv in Hl. apply tc_rtc.
      apply (linked_sound _ _ _ Hsound (c0, s0) (c, n) e a); [|done|done].
      destruct Hl as (os & tc & ts & ? & ? & Hpath). exists os, tc, ts. split_and!; [done|done|]. by eapply path_lower.
  - intros (e & He & Hea). pose proof (HS e He) as [[c0 s0] Hp]%elem_of_dom.
    destruct (path_complete _ _ _ Hcov e a (c0, s0) Hea Hp) as (q & Hq & Hpath). rewrite Ha in Hq. injection Hq as <-.
    apply (closed_path links M' (c0, s0) (c, n) Hcl Hpath). cbn.
    destruct (H1 c0 s0) as [Hle _]; [apply positions_elem; exists e; split; [by apply elem_of_elements|done]|].
    specialize (F1 c0). lia.
Qed.

(** The gaps of the levels are the difference. *)
Lemma difference_gaps sets Ms (seen : gset Z) a :
  sets ≠ [] → (∀ S, S ∈ sets → S ⊆ dom old) →
  Forall2 (λ S M, ∀ a c n, old !! a = Some (c, n) → n ≤ lvl M c ↔ reaches auth S a) sets Ms → (∀ M, M ∈ Ms → dom M ⊆ seen) →
  (∃ c, c ∈ elements seen ∧ in_gap t Ms c a) ↔ in_difference auth sets a.
Proof using Hcov.
  intros Hne Hsets Hlev Hseen.
  assert (∀ c, map (λ chains : gmap Z Z, default 0 (chains !! c)) Ms ≠ []) as Hnums.
  { intros c. destruct Hlev; [done|]. done. }
  assert (∀ c n, old !! a = Some (c, n) →
    (∃ x, x ∈ map (λ chains : gmap Z Z, default 0 (chains !! c)) Ms ∧ n ≤ x) ↔ ∃ S, S ∈ sets ∧ reaches auth S a) as Hyes.
  { intros c n Ha. split.
    - intros (x & Hx & Hn). apply list_elem_of_fmap in Hx as (M & -> & HM). apply list_elem_of_lookup in HM as [i HM].
      destruct (Forall2_lookup_r _ _ _ _ _ Hlev HM) as (S & HS & Hl). exists S. split; [by eapply list_elem_of_lookup_2|]. by eapply Hl.
    - intros (S & HS & Hr). apply list_elem_of_lookup in HS as [i HS]. destruct (Forall2_lookup_l _ _ _ _ _ Hlev HS) as (M & HM & Hl).
      exists (lvl M c). split; [apply list_elem_of_fmap; exists M; split; [done|by eapply list_elem_of_lookup_2]|]. by apply (Hl a). }
  assert (∀ c n, old !! a = Some (c, n) →
    (∃ x, x ∈ map (λ chains : gmap Z Z, default 0 (chains !! c)) Ms ∧ ¬ n ≤ x) ↔ ∃ S, S ∈ sets ∧ ¬ reaches auth S a) as Hno.
  { intros c n Ha. split.
    - intros (x & Hx & Hn). apply list_elem_of_fmap in Hx as (M & -> & HM). apply list_elem_of_lookup in HM as [i HM].
      destruct (Forall2_lookup_r _ _ _ _ _ Hlev HM) as (S & HS & Hl). exists S. split; [by eapply list_elem_of_lookup_2|].
      by rewrite <- (Hl a c n Ha).
    - intros (S & HS & Hr). apply list_elem_of_lookup in HS as [i HS]. destruct (Forall2_lookup_l _ _ _ _ _ Hlev HS) as (M & HM & Hl).
      exists (lvl M c). split; [apply list_elem_of_fmap; exists M; split; [done|by eapply list_elem_of_lookup_2]|]. by rewrite (Hl a c n Ha). }
  split.
  - intros (c & _ & n & Ha & Hn). apply gap_spec in Hn as [Hn1 Hn2]; [|done]. split; [by eapply Hyes|by eapply Hno].
  - intros [H1 H2]. pose proof H1 as (S & HS & e & He & Hea). pose proof (Hsets S HS e He) as [p Hp]%elem_of_dom.
    destruct (path_complete _ _ _ Hcov e a p Hea Hp) as ([c n] & Ha & _). exists c. split.
    + apply elem_of_elements. apply list_elem_of_lookup in HS as [i HS]. destruct (Forall2_lookup_l _ _ _ _ _ Hlev HS) as (M & HM & Hl).
      apply (Hseen M); [by eapply list_elem_of_lookup_2|]. apply elem_of_dom. assert (n ≤ lvl M c) as Hle by (apply (Hl a); [done|by exists e]).
      pose proof (old_seq t Hcov a c n Ha). unfold lvl in Hle. destruct (M !! c); [by eexists|]. cbn in Hle. lia.
    + exists n. split; [done|]. apply gap_spec; [done|]. split; [by eapply Hyes|by eapply Hno].
Qed.

Lemma indexed_difference_spec (fetched result : gset string) (sets : list (gset string)) :
  sets ≠ [] → (∀ S, S ∈ sets → S ⊆ dom old ∧ S ⊆ fetched) →
  ∃ r, indexed_difference t fetched result sets = Ok r ∧ ∀ a, a ∈ r ↔ a ∈ result ∨ in_difference auth sets a.
Proof using Hcov.
  intros Hne Hsets. unfold indexed_difference.
  destruct (py_map_spec (set_chains t) (λ S M, highest (positions t (elements S)) M) sets) as (Ms & -> & HMs).
  { intros S HS. apply set_chains_spec. by apply Hsets. }
  cbn [mbind py_bind]. set (seen := list_to_set _ : gset Z).
  assert (∀ M, M ∈ Ms → dom M ⊆ seen) as Hseen.
  { intros M HM. apply list_elem_of_lookup in HM as [i HM]. destruct (Forall2_lookup_r _ _ _ _ _ HMs HM) as (S & HS & [_ H2]).
    intros c [s Hs]%elem_of_dom. apply H2, positions_elem in Hs as (e & He & Hp). subst seen. apply elem_of_list_to_set, list_elem_of_omap.
    exists e. rewrite Hp. split; [|done]. apply elem_of_elements. apply elem_of_elements in He. eapply Hsets; [|done].
    by eapply list_elem_of_lookup_2. }
  destruct (get_chain_links_spec links (size seen) seen) as [Hd Hk]; [done|]. fold (chain_links t seen) in Hd, Hk.
  destruct (follow_sets_spec links (chain_links t seen) Ms seen Hd Hseen) as (Ms' & seen' & -> & Hf & Hseen'). cbn [mbind py_bind].
  destruct (foldl _ _ (elements seen')) as [r gaps] eqn:Er. eexists. split; [done|]. intros a.
  pose proof (gaps_spec t fetched (cov_inj _ _ _ (cov_sound _ _ _ Hcov)) Ms' (elements seen') (result, []) a) as Hg. rewrite Er in Hg.
  assert (a ∈ r ∪ ⋃ (map (events_between t) gaps) ↔ found t (r, gaps) a) as ->.
  { unfold found. cbn. rewrite elem_of_union, elem_of_union_list. apply or_iff_compat_l. split.
    - intros (X & HX & Ha). apply list_elem_of_fmap in HX as (g & -> & ?). eauto.
    - intros (g & Hg' & Ha). eexists. split; [by apply list_elem_of_fmap_2|done]. }
  rewrite Hg. unfold found at 1. cbn [fst snd].
  assert (Forall2 (λ S M, ∀ a c n, old !! a = Some (c, n) → n ≤ lvl M c ↔ reaches auth S a) sets Ms') as Hlev.
  { apply Forall2_same_length_lookup. split; [by rewrite (Forall2_length _ _ _ HMs), (Forall2_length _ _ _ Hf)|]. intros i S M' HS HM'.
    destruct (Forall2_lookup_r _ _ _ _ _ Hf HM') as (M & HM & HMM'). pose proof (Forall2_lookup_lr _ _ _ _ _ _ HMs HS HM) as Hhi.
    apply (set_level S (dict_keys (chain_links t seen)) M M'); [apply Hsets; by eapply list_elem_of_lookup_2|done|done|].
    intros c os tc ts Hc Hl. destruct (Hk c os tc ts) as (d & Hd' & Hcd); [|done|].
    - eapply Hseen; [by eapply list_elem_of_lookup_2|done].
    - unfold dict_keys. apply list_elem_of_In, in_flat_map. exists d. rewrite <- !list_elem_of_In. split; [done|]. by apply elem_of_elements. }
  rewrite <- (difference_gaps sets Ms' seen' a Hne (λ S HS, proj1 (Hsets S HS)) Hlev Hseen').
  split; [|by intros [?|?]; [left; left|right]]. intros [[?|(g & ?%elem_of_nil & _)]|?]; [by left|done|by right].
Qed.

(** ** State sets with events that wait *)

Context (room_id : string).
Abbreviation W := (waiting_auth t room_id).

Lemma waiting_auth_lookup e X :
  W !! e = Some X ↔ ∃ ty k, event_auth_chain_to_calculate t !! e = Some (room_id, ty, k) ∧ X = list_to_set (stored_auth t e).
Proof using Type.
  unfold waiting_auth. rewrite map_lookup_imap. split.
  - destruct (filter _ _ !! e) as [[[r ty] k]|] eqn:E; [|done]. intros [= <-]. apply map_lookup_filter_Some in E as [E Hr]. cbn in Hr. subst. eauto.
  - intros (ty & k & He & ->). assert (filter (λ x, x.2.1.1 = room_id) (event_auth_chain_to_calculate t) !! e = Some (room_id, ty, k)) as ->
      by by apply map_lookup_filter_Some. done.
Qed.

Lemma waits_auth e a : waits W e a ↔ e ∈ dom W ∧ auth e a.
Proof using Type.
  split.
  - intros (X & HX & Ha). split; [by apply elem_of_dom|]. apply waiting_auth_lookup in HX as (ty & k & _ & ->).
    by apply elem_of_list_to_set in Ha.
  - intros [[X HX]%elem_of_dom Ha]. exists X. split; [done|]. apply waiting_auth_lookup in HX as (ty & k & _ & ->). by apply elem_of_list_to_set.
Qed.

(** The events of the room that have no position wait for one, apart from those whose
    auth events are not known. *)
Record room_ready : Prop := {
  rr_new : ∀ e, e ∈ dom W → e ∉ dom old;
  rr_auth : ∀ e a, e ∈ dom W → auth e a → a ∈ dom old ∨ a ∈ dom W ∨ stored_auth t a = [];
}.
Context (Hready : room_ready).

Lemma waits_rtc e a : rtc (waits W) e a → rtc auth e a.
Proof using Type. induction 1 as [|e f a H _ IH]; [apply rtc_refl|]. eapply rtc_l; [by apply waits_auth in H as [_ ?]|done]. Qed.

(** The auth chain of a waiting event: a part that waits, and the auth chains of the
    indexed events it leads to *)
Lemma waiting_chain e a :
  e ∈ dom W → rtc auth e a → a = e ∨ tc (waits W) e a ∨ ∃ b, b ∈ dom old ∧ tc (waits W) e b ∧ rtc auth b a.
Proof using Hready.
  intros He. revert a. apply rtc_ind_r; [by left|]. intros f a Hef Hfa IH. right.
  destruct IH as [->|[Hw|(b & Hb & Hw & Hbf)]].
  - left. by apply tc_once, waits_auth.
  - assert (∃ x, waits W x f) as (x & Hx) by (clear -Hw; induction Hw; eauto). apply waits_auth in Hx as [Hxw Hx].
    destruct (rr_auth Hready x f Hxw Hx) as [Ho|[Hf|Hnil]].
    + right. exists f. split_and!; [done|done|by apply rtc_once].
    + left. eapply tc_r; [done|]. by apply waits_auth.
    + rewrite Hnil in Hfa. by apply elem_of_nil in Hfa.
  - right. exists b. split_and!; [done|done|]. by eapply rtc_r.
Qed.

Lemma fixup_reaches (I S0 S' Un : gset string) l :
  fixed_up W I S0 l (S', Un) → I ⊆ dom old → (∀ a, a ∈ S0 → a ∈ dom old → a ∈ I) → (∀ e a, waits W e a → a ∈ dom old → a ∈ I) →
  (∀ e, e ∈ S0 → e ∈ dom old ∨ e ∈ dom W) → (∀ e, e ∈ S0 → e ∈ dom W → e ∈ l) →
  S' ⊆ dom old ∧ (∀ a, a ∈ Un → a ∉ dom old) ∧ ∀ a, reaches auth S0 a ↔ a ∈ Un ∨ reaches auth S' a.
Proof using Hready.
  intros [F1 F2 F3 F4 F5] HI HS0 HW Hknown Hl. cbn [fst snd] in *.
  assert (∀ e a, tc (waits W) e a → a ∈ dom old → a ∈ I) as HtcI.
  { intros e a Hea. assert (∃ x, waits W x a) as (x & Hx) by (clear -Hea; induction Hea; eauto). by eapply HW. }
  split_and!.
  - intros a Ha. destruct (F2 a Ha) as [HaS|[HaI _]]; [|by apply HI]. destruct (Hknown a HaS) as [?|HaW]; [done|].
    exfalso. by apply (F4 a); [apply Hl|..].
  - intros a Ha Hao. destruct (F1 a Ha) as [HaI (e & He & Hew & Hea)]. apply HaI. apply rtc_inv_r in Hea as [->|(b & _ & Hba)].
    + by apply (rr_new Hready) in Hew.
    + by eapply HW.
  - intros a. split.
    + intros (e & He & Hea). destruct (decide (e ∈ dom W)) as [Hew|Hew].
      2:{ right. exists e. split; [|done]. destruct (Hknown e He) as [Heo|]; [|done]. apply F3; [done|by apply HS0]. }
      destruct (F5 e He Hew) as [Hin|[Hun Hc]]; [exfalso; by apply (F4 e); [apply Hl|..]|]. cbn [fst snd] in *.
      destruct (waiting_chain e a Hew Hea) as [->|[Hw|(b & Hb & Hw & Hba)]]; [by left| |].
      * destruct (decide (a ∈ I)) as [HaI|HaI]; [|left; by apply Hc]. right. exists a. split; [by apply Hc|apply rtc_refl].
      * right. exists b. split; [|done]. apply (Hc b Hw). by eapply HtcI.
    + intros [Ha|(e & He & Hea)].
      * destruct (F1 a Ha) as (_ & e & He & _ & Hea). exists e. split; [done|]. by apply waits_rtc.
      * destruct (F2 e He) as [?|(_ & f & Hf & _ & Hfe)]; [by exists e|]. exists f. split; [done|].
        etrans; [|done]. by apply waits_rtc, tc_rtc.
Qed.

(** The partial auth chains of the events of the state sets that wait *)
Lemma partial_chains_spec (sets : list (gset string)) :
  ∃ partial, py_fold (λ acc '(event_id, auth_ids),
      if existsb (λ s, bool_decide (event_id ∈ s)) sets then
        to_add ← fueled (partial_chain W (partial_fuel W) auth_ids ∅);
        Ok (acc ++ [(event_id, to_add)])
      else Ok acc) [] (map_to_list W) = Ok partial ∧
    (∀ x, x ∈ partial → x.1 ∈ dom W ∧ ∀ a, a ∈ x.2 ↔ tc (waits W) x.1 a) ∧
    ∀ S e, S ∈ sets → e ∈ S → e ∈ dom W → e ∈ map fst partial.
Proof using Type.
  set (f := λ (acc : list (string * gset string)) '(event_id, auth_ids), _).
  assert (∀ l acc, (∀ x, x ∈ l → W !! x.1 = Some x.2) → (∀ x, x ∈ acc → x.1 ∈ dom W ∧ ∀ a, a ∈ x.2 ↔ tc (waits W) x.1 a) →
    ∃ partial, py_fold f acc l = Ok partial ∧ (∀ x, x ∈ partial → x.1 ∈ dom W ∧ ∀ a, a ∈ x.2 ↔ tc (waits W) x.1 a) ∧
      (∀ e, e ∈ map fst acc → e ∈ map fst partial) ∧
      ∀ S e, S ∈ sets → e ∈ S → e ∈ map fst l → e ∈ map fst partial) as Hl.
  { intros l. induction l as [|[e X] l IH]; intros acc Hl Hacc; cbn [py_fold map].
    { exists acc. split_and!; [done|done|done|]. by intros S e _ _ ?%elem_of_nil. }
    assert (∀ x, x ∈ l → W !! x.1 = Some x.2) as Hl' by (intros; apply Hl; by right). pose proof (Hl (e, X) (list_elem_of_here _ _)) as HeX.
    cbn in HeX. unfold f at 2. destruct (existsb _ sets) eqn:Eb.
    - destruct (partial_auth_chain W e X HeX) as (r & -> & Hr). cbn [fueled mbind py_bind].
      destruct (IH (acc ++ [(e, r)])) as (partial & Hp & P1 & P2 & P3); [done| |].
      { intros x [Hx|Hx]%elem_of_app; [by apply Hacc|]. apply list_elem_of_singleton in Hx as ->. cbn. split; [by apply elem_of_dom|done]. }
      exists partial. split_and!; [done|done| |].
      + intros x Hx. apply P2. rewrite map_app. apply elem_of_app. by left.
      + intros S x HS HxS [->|Hx]%elem_of_cons; [|by eapply P3]. apply P2. rewrite map_app. apply elem_of_app. right. by left.
    - destruct (IH acc Hl' Hacc) as (partial & Hp & P1 & P2 & P3). exists partial. split_and!; [done|done|done|].
      intros S x HS HxS [->|Hx]%elem_of_cons; [|by eapply P3]. exfalso. apply not_true_iff_false in Eb. apply Eb, existsb_exists.
      exists S. split; [by apply list_elem_of_In|]. by apply bool_decide_eq_true. }
  destruct (Hl (map_to_list W) []) as (partial & Hp & P1 & _ & P3).
  - by intros [e X] He%elem_of_map_to_list.
  - by intros x ?%elem_of_nil.
  - exists partial. split_and!; [done|done|]. intros S e HS He [X HX]%elem_of_dom. eapply P3; [done|done|].
    apply list_elem_of_fmap. exists (e, X). split; [done|]. by apply elem_of_map_to_list.
Qed.

(** An event without a position is in the difference by the waiting parts, one with a
    position by the indexed parts. *)
Lemma difference_split (I : gset string) (sets : list (gset string)) partial a :
  let fixed := map (λ s, foldl (fixup_one I) (s, ∅) partial) sets in
  sets ≠ [] →
  (∀ S, S ∈ sets → let x := foldl (fixup_one I) (S, ∅) partial in
    x.1 ⊆ dom old ∧ (∀ a, a ∈ x.2 → a ∉ dom old) ∧ ∀ a, reaches auth S a ↔ a ∈ x.2 ∨ reaches auth x.1 a) →
  in_difference auth sets a ↔
    a ∈ sets_union (map snd fixed) ∖ sets_intersection (map snd fixed) ∨ in_difference auth (map fst fixed) a.
Proof using Hcov.
  intros fixed Hne Hfix.
  assert (∀ S, S ∈ sets → let x := foldl (fixup_one I) (S, ∅) partial in
    (a ∈ x.2 → a ∉ dom old) ∧ (reaches auth x.1 a → a ∈ dom old) ∧ (reaches auth S a ↔ a ∈ x.2 ∨ reaches auth x.1 a)) as H.
  { intros S HS. destruct (Hfix S HS) as (H1 & H2 & H3). cbn zeta. split_and!; [apply H2| |apply H3].
    intros (e & He & Hea). apply H1, elem_of_dom in He as [p Hp]. destruct (path_complete _ _ _ Hcov e a p Hea Hp) as (q & Hq & _).
    by apply elem_of_dom. }
  clear Hfix. assert (map snd fixed ≠ []) as Hne' by (subst fixed; by destruct sets).
  assert (∀ P : gset string * gset string → Prop, (∃ x, x ∈ fixed ∧ P x) ↔ ∃ S, S ∈ sets ∧ P (foldl (fixup_one I) (S, ∅) partial)) as Hex.
  { intros P. subst fixed. split.
    - intros (x & Hx & HP). apply list_elem_of_fmap in Hx as (S & -> & HS). eauto.
    - intros (S & HS & HP). eexists. split; [by apply list_elem_of_fmap_2|done]. }
  assert (a ∈ sets_union (map snd fixed) ∖ sets_intersection (map snd fixed) ↔
    (∃ x, x ∈ fixed ∧ a ∈ x.2) ∧ ∃ x, x ∈ fixed ∧ a ∉ x.2) as ->.
  { unfold sets_union. rewrite elem_of_difference, elem_of_union_list, sets_intersection_elem by done.
    assert ((∃ X, X ∈ map snd fixed ∧ a ∈ X) ↔ ∃ x, x ∈ fixed ∧ a ∈ x.2) as ->.
    { split; [intros (X & HX & Ha); apply list_elem_of_fmap in HX as (x & -> & ?); eauto|].
      intros (x & Hx & Ha). eexists. split; [by apply list_elem_of_fmap_2|done]. }
    apply and_iff_compat_l. split.
    - intros Hn. destruct (decide (Exists (λ x, a ∉ x.2) fixed)) as [He|He]; [by apply Exists_exists in He|]. exfalso. apply Hn.
      intros X HX. apply list_elem_of_fmap in HX as (x & -> & Hx). rewrite <- Forall_Exists_neg, Forall_forall in He.
      specialize (He x Hx). by apply dec_stable in He.
    - intros (x & Hx & Ha) Hn. apply Ha, Hn. by apply list_elem_of_fmap_2. }
  unfold in_difference.
  assert (∀ P : gset string → Prop, (∃ S, S ∈ map fst fixed ∧ P S) ↔ ∃ x, x ∈ fixed ∧ P x.1) as Hfst.
  { intros P. split; [intros (S & HS & HP); apply list_elem_of_fmap in HS as (x & -> & ?); eauto|].
    intros (x & Hx & HP). eexists. split; [by apply list_elem_of_fmap_2|done]. }
  rewrite !Hfst, (Hex (λ x, a ∈ x.2)), (Hex (λ x, a ∉ x.2)), (Hex (λ x, reaches auth x.1 a)), (Hex (λ x, ¬ reaches auth x.1 a)).
  clear -H. destruct (decide (a ∈ dom old)) as [Ho|Ho]; split.
  - intros [(S & HS & Hr) (S' & HS' & Hr')]. right. split; [exists S|exists S']; (split; [done|]).
    + destruct (H S HS) as (H1 & _ & H3). apply H3 in Hr as [?|?]; [by destruct H1|done].
    + intros Hr2. by apply Hr', H; [|right].
  - intros [[(S & HS & Hr) _]|[(S & HS & Hr) (S' & HS' & Hr')]]; [by destruct (H S HS) as (H1 & _); destruct H1|].
    split; [exists S|exists S']; (split; [done|]); [by apply H; [|right]|].
    intros Hr2. apply H in Hr2 as [Hr2|?]; [|done..]. by destruct (H S' HS') as (H1 & _); destruct H1.
  - intros [(S & HS & Hr) (S' & HS' & Hr')]. left. split; [exists S|exists S']; (split; [done|]).
    + apply H in Hr as [?|Hr]; [done| |done]. by destruct (H S HS) as (_ & H2 & _); destruct Ho; apply H2.
    + intros Hr2. by apply Hr', H; [|left].
  - intros [[(S & HS & Hr) (S' & HS' & Hr')]|[(S & HS & Hr) _]]; [|by destruct (H S HS) as (_ & H2 & _); destruct Ho; apply H2].
    split; [exists S|exists S']; (split; [done|]); [by apply H; [|left]|].
    intros Hr2. apply H in Hr2 as [?|Hr2]; [done| |done]. by destruct (H S' HS') as (_ & H2 & _); destruct Ho; apply H2.
Qed.

Lemma fixup_spec (sets : list (gset string)) (missing have_index : gset string) :
  sets ≠ [] → missing ⊆ dom W → have_index ⊆ dom old →
  (∀ S e, S ∈ sets → e ∈ S → e ∈ missing ∨ e ∈ have_index) →
  ∃ result sets', fixup_auth_chain_difference_sets t room_id sets missing have_index = Ok (result, sets') ∧
    sets' ≠ [] ∧ (∀ S, S ∈ sets' → S ⊆ dom old) ∧
    ∀ a, in_difference auth sets a ↔ a ∈ result ∨ in_difference auth sets' a.
Proof using Hready Hcov.
  intros Hne Hmiss HI Hsplit. unfold fixup_auth_chain_difference_sets. rewrite bool_decide_eq_true_2 by done. cbn [negb raise_if mbind py_bind].
  destruct (partial_chains_spec sets) as (partial & -> & P1 & P2). cbn [mbind py_bind].
  fold (wait_targets W). set (I := have_index ∪ (wait_targets W ∩ dom old)).
  assert (∀ e, e ∈ dom W → e ∉ I) as HWI by (intros e He%(rr_new Hready); subst I; set_solver).
  eexists _, _. split; [done|]. set (fixed := map _ sets).
  assert (∀ S, S ∈ sets → let x := foldl (fixup_one I) (S, ∅) partial in
    x.1 ⊆ dom old ∧ (∀ a, a ∈ x.2 → a ∉ dom old) ∧ ∀ a, reaches auth S a ↔ a ∈ x.2 ∨ reaches auth x.1 a) as Hfix.
  { intros S HS. cbn zeta. pose proof (fixup_fold_spec W I S HWI [] partial (S, ∅) (fixed_up_start W I S) P1) as Hf. cbn [app] in Hf.
    destruct (foldl (fixup_one I) (S, ∅) partial) as [S' Un]. cbn [fst snd]. eapply fixup_reaches; [exact Hf| | | | |].
    - subst I. set_solver.
    - intros a Ha Hao. subst I. destruct (Hsplit S a HS Ha) as [Hm%Hmiss|?]; [by apply (rr_new Hready) in Hm|set_solver].
    - intros e a Hw Hao. subst I. apply wait_targets_elem in Hw. set_solver.
    - intros e He. destruct (Hsplit S e HS He) as [?|?]; [right; by apply Hmiss|left; by apply HI].
    - intros e He Hew. by eapply P2. }
  split_and!.
  - subst fixed. by destruct sets.
  - intros S HS. apply list_elem_of_fmap in HS as (x & -> & Hx). apply list_elem_of_fmap in Hx as (S0 & -> & HS0). by apply Hfix.
  - intros a. by apply (difference_split I sets partial).
Qed.
End Difference.

(** C22: The difference of the auth chains of state sets, by the chain cover index, is
    the set of the events that are reached from some of the sets and not from all of
    them along auth events, the sets themselves included, also when some events of the
    sets still wait for their position; with an event that is neither indexed nor
    waiting the index is not used. *)
Theorem auth_difference_by_index graph t room_id (sets : list (gset string)) :
  tables_ok graph t → room_ready t room_id → sets ≠ [] →
  if decide (⋃ sets ⊆ dom (event_auth_chains t) ∪ dom (waiting_auth t room_id)) then
    ∃ r, get_auth_chain_difference_using_cover_index t room_id sets = Ok r ∧
      ∀ a, a ∈ r ↔ in_difference (λ e a, a ∈ stored_auth t e) sets a
  else get_auth_chain_difference_using_cover_index t room_id sets = Raise no_chain_cover.
Proof.
  intros Ht Hready Hne. pose proof (tables_covers graph t Ht) as Hcov. unfold get_auth_chain_difference_using_cover_index.
  rewrite bool_decide_eq_false_2 by done. cbn [raise_if mbind py_bind].
  set (old := dom (event_auth_chains t)). set (init := ⋃ sets : gset string).
  assert (∀ S, S ∈ sets → S ⊆ init) as Hin by (intros S HS e He; apply elem_of_union_list; eauto).
  destruct (decide (init ∖ (init ∩ old) = ∅)) as [Hm|Hm].
  { assert (init ⊆ old) as Hio by (clear -Hm; intros e He; destruct (decide (e ∈ old)); set_solver).
    rewrite decide_True by (clear -Hio; set_solver). cbn [mbind py_bind].
    destruct (indexed_difference_spec t Hcov ((init ∪ ⋃ sets) ∩ old) ∅ sets Hne) as (r & -> & Hr).
    - intros S HS. pose proof (Hin S HS). split; [by etrans|]. clear -H Hio. set_solver.
    - exists r. split; [done|]. intros a. rewrite Hr. split; [by intros [?%elem_of_empty|]|by right]. }
  case_decide as Hk.
  - destruct (fixup_spec t Hcov room_id Hready sets (init ∖ (init ∩ old)) (init ∩ old) Hne) as (result & sets' & -> & Hne' & Hsub & Hdiff).
    + clear -Hk. intros e He. specialize (Hk e). set_solver.
    + clear. set_solver.
    + intros S e HS He. pose proof (Hin S HS e He) as Hei. destruct (decide (e ∈ old)); [right|left]; clear -Hei n || clear -Hei e0; set_solver.
    + cbn [mbind py_bind]. destruct (indexed_difference_spec t Hcov ((init ∪ ⋃ sets') ∩ old) result sets' Hne') as (r & -> & Hr).
      * intros S HS. split; [by apply Hsub|]. intros e He. apply elem_of_intersection. split; [|by eapply Hsub].
        apply elem_of_union. right. apply elem_of_union_list. eauto.
      * exists r. split; [done|]. intros a. by rewrite Hr, Hdiff.
  - unfold fixup_auth_chain_difference_sets. rewrite bool_decide_eq_false_2; [done|]. intros Hle. apply Hk. clear -Hle.
    intros e He. specialize (Hle e). destruct (decide (e ∈ old)); set_solver.
Qed.

Example ex_difference :
  get_auth_chain_difference_using_cover_index ex_indexed "!r" [{[ "$m2"; "$x" ]}; {[ "$m" ]}; {[ "$p"; "$m2" ]}]%string =
  Ok {[ "$m2"; "$p"; "$x"; "$u" ]}%string.
Proof. vm_compute. reflexivity. Qed.

Lemma auth_difference_by_index_witness :
  ∃ r, get_auth_chain_difference_using_cover_index ex_indexed "!r" [{[ "$m2"; "$x" ]}; {[ "$p" ]}]%string = Ok r ∧
    ∀ a, a ∈ r ↔ in_difference (λ e a, a ∈ stored_auth ex_indexed e) [{[ "$m2"; "$x" ]}; {[ "$p" ]}]%string a.
Proof.
  assert (room_ready ex_indexed "!r") as Hready.
  { assert (dom (waiting_auth ex_indexed "!r") = {["$x"%string]}) as Hd by (vm_compute; reflexivity). split; rewrite Hd.
    - intros e ->%elem_of_singleton. apply (bool_decide_unpack _); vm_compute; exact I.
    - intros e a ->%elem_of_singleton Ha. assert (stored_auth ex_indexed "$x" = ["$c"; "$u"]%string) as Hx by (vm_compute; reflexivity).
      rewrite Hx in Ha. apply elem_of_cons in Ha as [->|[->|?%elem_of_nil]%elem_of_cons]; [left|right; right|done].
      + apply (bool_decide_unpack _); vm_compute; exact I.
      + done. }
  pose proof (auth_difference_by_index ex_graph ex_indexed "!r" [{[ "$m2"; "$x" ]}; {[ "$p" ]}]%string ex_indexed_ok Hready) as H.
  rewrite decide_True in H; [by apply H|]. apply (bool_decide_unpack _). vm_compute. exact I.
Defined.
