(* ===== verification/DictionaryCache.v ===== *)
(** * The class [DictionaryCache] of [synapse/util/caches/dictionary_cache.py]

    A cache of dicts, whole or in parts, in one [LruCache] over a [TreeCache].  The
    keys of the LRU cache are pairs of a cache key and a dict key, or the mark
    [_FullCacheKey.KEY] for the whole dict; [KeyScheme] has what is used of them.

    The cache never says anything wrong: what it returns is part of the dict that was
    given to it, until the key is invalidated. *)

From S2P Require Import Prelude LinkedList CacheStore LruCache LruCacheFacts.

Open Scope Z_scope.

(** The keys of the LRU cache: [(key, dict_key)], with [None] for the whole dict, and the
    part [(key,)] that [del_multi] is given *)
Class KeyScheme (KT DKT K : Type) : Type := {
  entry_key : KT → option DKT → K;
  top_key : KT → K;
}.

Class KeySchemeLaws (KT DKT K S : Type) `{!KeyScheme KT DKT K} `{Countable KT} `{Countable K} `{!CacheStore K S} `{!CacheStoreLaws K S} : Prop := {
  entry_key_inj : ∀ k d k' d', entry_key k d = entry_key k' d' → k = k' ∧ d = d';
  entry_key_full : ∀ k d, full_key (S := S) (entry_key k d);
  top_key_some : ∀ k, some_key (S := S) (top_key k);
  top_key_under : ∀ k k' d, under (S := S) (top_key k) (entry_key k' d) = bool_decide (k = k');
}.

Section DictionaryCache.
Context {KT DKT DV K S : Type} `{Countable KT} `{Countable DKT} `{EqDecision DV} `{Countable K} `{!CacheStore K S}.
Context `{!KeyScheme KT DKT K}.

(** The values of the LRU cache: [_PerKeyValue], where no value is the sentinel, and the
    whole dict *)
Inductive dict_value : Type :=
  | PerKeyValue (value : option DV)
  | FullDict (value : gmap DKT DV).
#[export] Instance dict_value_eq_dec : EqDecision dict_value.
Proof. solve_decision. Defined.

(** [len] *)
Definition value_len (v : dict_value) : Z := match v with PerKeyValue _ => 1 | FullDict m => Z.of_nat (size m) end.

Abbreviation lru := (LruCache (K := K) (V := dict_value) (S := S)).
Record DictionaryCache : Type := MkDictCache { dc_cache : lru; dc_sequence : Z }.

Record DictionaryEntry : Type := DictEntry {
  full : bool;
  known_absent : gset DKT;
  value : gmap DKT DV;
}.

Definition new_dictionary_cache (max_entries : Z) : py DictionaryCache :=
  c ← new_lru_cache max_entries; Ok (MkDictCache c 0).

Definition lru_set (c : lru) (key : K) (v : dict_value) : py lru := cache_set (Some value_len) None c key v [].

(** One round of the loop over the requested keys *)
Definition lookup_key (key : KT) (acc : lru * gmap DKT DV * gset DKT * list DKT) (dict_key : DKT)
    : py (lru * gmap DKT DV * gset DKT * list DKT) :=
  let '(c, values, known_absent, missing) := acc in
  '(entry, c) ← cache_get c (entry_key key (Some dict_key)) [] true;
  match entry with
  | None => Ok (c, values, known_absent, missing ++ [dict_key])
  | Some (FullDict _) => Raise AssertionError
  | Some (PerKeyValue None) => Ok (c, values, {[dict_key]} ∪ known_absent, missing)
  | Some (PerKeyValue (Some v)) => Ok (c, <[dict_key := v]> values, known_absent, missing)
  end.

(** The missing keys, from the whole dict *)
Definition fill_key (key : KT) (entry : gmap DKT DV) (acc : lru * gmap DKT DV) (dict_key : DKT) : py (lru * gmap DKT DV) :=
  let '(c, values) := acc in
  c ← lru_set c (entry_key key (Some dict_key)) (PerKeyValue (entry !! dict_key));
  Ok (c, match entry !! dict_key with Some v => <[dict_key := v]> values | None => values end).

(** [_get_full_dict] *)
Definition get_full_dict (d : DictionaryCache) (key : KT) : py (DictionaryEntry * DictionaryCache) :=
  '(entry, c) ← cache_get (dc_cache d) (entry_key key None) [] true;
  let d := MkDictCache c (dc_sequence d) in
  match entry with
  | None => Ok (DictEntry false ∅ ∅, d)
  | Some (PerKeyValue _) => Raise AssertionError
  | Some (FullDict m) => Ok (DictEntry true ∅ m, d)
  end.

Definition dict_cache_get (d : DictionaryCache) (key : KT) (dict_keys : option (list DKT)) : py (DictionaryEntry * DictionaryCache) :=
  match dict_keys with
  | None => get_full_dict d key
  | Some dict_keys =>
      '(c, values, known_absent, missing) ← py_fold (lookup_key key) (dc_cache d, ∅, ∅, []) dict_keys;
      match missing with
      | [] => Ok (DictEntry false known_absent values, MkDictCache c (dc_sequence d))
      | _ =>
          '(entry, c) ← cache_get c (entry_key key None) [] false;
          match entry with
          | None => Ok (DictEntry false known_absent values, MkDictCache c (dc_sequence d))
          | Some (PerKeyValue _) => Raise AssertionError
          | Some (FullDict m) =>
              '(c, values) ← py_fold (fill_key key m) (c, values) missing;
              Ok (DictEntry true ∅ values, MkDictCache c (dc_sequence d))
          end
      end
  end.

Definition dict_cache_invalidate (d : DictionaryCache) (key : KT) : py DictionaryCache :=
  c ← cache_del_multi (Some value_len) None (dc_cache d) (top_key key);
  Ok (MkDictCache c (dc_sequence d + 1)).

Definition dict_cache_invalidate_all (d : DictionaryCache) : py DictionaryCache :=
  c ← cache_clear (Some value_len) (dc_cache d);
  Ok (MkDictCache c (dc_sequence d + 1)).

(** [_update_subset] *)
Definition update_subset (c : lru) (key : KT) (value : gmap DKT DV) (fetched_keys : list DKT) : py lru :=
  c ← py_fold (λ c x, lru_set c (entry_key key (Some x.1)) (PerKeyValue (Some x.2))) c (map_to_list value);
  py_fold (λ c dict_key,
    if decide (dict_key ∈ dom value) then Ok c else lru_set c (entry_key key (Some dict_key)) (PerKeyValue None)) c fetched_keys.

Definition dict_cache_update (d : DictionaryCache) (sequence : Z) (key : KT) (value : gmap DKT DV) (fetched_keys : option (list DKT))
    : py DictionaryCache :=
  if dc_sequence d =? sequence then
    c ← match fetched_keys with
        | None => lru_set (dc_cache d) (entry_key key None) (FullDict value)
        | Some fetched_keys => update_subset (dc_cache d) key value fetched_keys
        end;
    Ok (MkDictCache c (dc_sequence d))
  else Ok d.
End DictionaryCache.

(** ** Facts *)

Section Facts.
Context {KT DKT DV K S : Type} `{Countable KT} `{Countable DKT} `{EqDecision DV} `{Countable K} `{!CacheStore K S} `{!CacheStoreLaws K S}.
Context `{!KeyScheme KT DKT K} `{!KeySchemeLaws KT DKT K S}.
Abbreviation lru := (LruCache (K := K) (V := dict_value (DKT := DKT) (DV := DV)) (S := S)).
Abbreviation entry := (lru_entry (K := K) (V := dict_value (DKT := DKT) (DV := DV))).
Abbreviation dcache := (DictionaryCache (DKT := DKT) (DV := DV) (K := K) (S := S)).

Lemma spec_find_elem (l : list entry) k e : spec_find l k = Some e → e ∈ l ∧ e_key e = k.
Proof using Type.
  unfold spec_find. intros He. destruct (List.filter _ l) as [|x r] eqn:E; [done|]. injection He as ->.
  assert (In e (List.filter (λ e, bool_decide (e_key e = k)) l)) as Hin by (rewrite E; by left).
  apply filter_In in Hin as [Hin Hk]. to_prop. by apply list_elem_of_In in Hin.
Qed.

Lemma spec_get_elem (l : list entry) k cs u e :
  e ∈ spec_get l k cs u → ∃ e', e' ∈ l ∧ e_key e' = e_key e ∧ e_value e' = e_value e.
Proof using Type.
  unfold spec_get. destruct (spec_find l k) as [e0|] eqn:Ef; [|by exists e]. apply spec_find_elem in Ef as [Hin Hk]. destruct u.
  - intros [->|He]%elem_of_cons; [by exists e0|]. apply list_elem_of_In, filter_In in He as [He _]. exists e. by rewrite list_elem_of_In.
  - intros He. apply list_elem_of_fmap in He as (x & -> & Hx). case_decide; [by exists e0|by exists x].
Qed.

Lemma spec_set_elem sz max (l : list entry) k v cs e :
  0 ≤ max → e ∈ (spec_set sz max l k v cs).1 → e_key e = k ∧ e_value e = v ∨ e ∈ l ∧ e_key e ≠ k.
Proof using Type.
  intros Hmax. unfold spec_set. set (l' := _ :: spec_without l k). destruct (spec_evict_prefix sz max l' Hmax) as (n & Hn & _).
  destruct (spec_evict sz max l') as [kept called] eqn:Ek. cbn [fst] in *. subst kept. intros He.
  assert (e ∈ l') as Hin by (rewrite <- (take_drop n l'); apply elem_of_app; by left).
  subst l'. apply elem_of_cons in Hin as [->|Hin]; [by left|right]. apply list_elem_of_In, filter_In in Hin as [Hin Hne].
  rewrite negb_true_iff, bool_decide_eq_false in Hne. by rewrite list_elem_of_In.
Qed.

(** What the cache knows of the dicts *)
Definition entry_true (truth : KT → option (gmap DKT DV)) (e : entry) : Prop :=
  ∃ k m, truth k = Some m ∧
    ((e_key e = entry_key k None ∧ e_value e = FullDict m) ∨
     ∃ d, e_key e = entry_key k (Some d) ∧ e_value e = PerKeyValue (m !! d)).

Definition lru_agrees (truth : KT → option (gmap DKT DV)) (c : lru) : Prop :=
  ∃ zs, lru_rep (Some value_len) None c zs ∧ 0 ≤ max_size c ∧ ∀ e, e ∈ entries_of zs → entry_true truth e.
Definition agrees (truth : KT → option (gmap DKT DV)) (d : dcache) : Prop := lru_agrees truth (dc_cache d).

Lemma agrees_weaken truth truth' d :
  (∀ k m, truth k = Some m → truth' k = Some m) → agrees truth d → agrees truth' d.
Proof using Type.
  intros Hsub (zs & Hr & Hm & He). exists zs. split_and!; [done|done|]. intros e (k & m & Hk & He')%He. exists k, m. split; [by apply Hsub|done].
Qed.

Lemma lru_get_agrees truth c k od u :
  lru_agrees truth c → ∃ o c', cache_get c (entry_key k od) [] u = Ok (o, c') ∧ lru_agrees truth c' ∧
    ∀ v, o = Some v → ∃ m, truth k = Some m ∧ v = match od with None => FullDict m | Some d => PerKeyValue (m !! d) end.
Proof using KeySchemeLaws0.
  intros (zs & Hr & Hm & He). destruct (get_spec (Some value_len) None c zs (entry_key k od) [] u Hr) as (c' & zs' & -> & Hr' & Hent & Hm' & _);
    [apply entry_key_full|].
  eexists _, c'. split; [done|]. split.
  - exists zs'. split_and!; [done|lia|]. intros e Hin. rewrite Hent in Hin. apply spec_get_elem in Hin as (e' & Hin & Hk & Hv).
    destruct (He e' Hin) as (k' & m & Ht & Hcase). exists k', m. rewrite <- Hk, <- Hv. done.
  - intros v Hv. destruct (spec_find (entries_of zs) (entry_key k od)) as [e|] eqn:Ef; [|done]. injection Hv as <-.
    apply spec_find_elem in Ef as [Hin Hk]. destruct (He e Hin) as (k' & m & Ht & [[Hk' Hv]|(d & Hk' & Hv)]);
      rewrite Hk in Hk'; apply entry_key_inj in Hk' as [<- ->]; eauto.
Qed.

Lemma no_index_stable (f : K → dict_value (DKT := DKT) (DV := DV) → K) k v v' : None = Some f → f k v = f k v'.
Proof using Type. done. Qed.

Lemma lru_set_agrees truth c k od m :
  lru_agrees truth c → truth k = Some m →
  ∃ c', lru_set c (entry_key k od) (match od with None => FullDict m | Some d => PerKeyValue (m !! d) end) = Ok c' ∧ lru_agrees truth c'.
Proof using KeySchemeLaws0.
  intros (zs & Hr & Hm & He) Ht. set (v := match od with None => _ | Some d => _ end).
  destruct (set_spec (Some value_len) None no_index_stable c zs (entry_key k od) v [] Hr) as (c' & zs' & Hset & Hr' & Hm' & Hent & _);
    [apply entry_key_full|done|].
  exists c'. split; [done|]. exists zs'. split_and!; [done|lia|]. intros e Hin. rewrite Hent in Hin.
  apply spec_set_elem in Hin as [[Hk Hv]|[Hin _]]; [|by apply He|done]. exists k, m. split; [done|]. rewrite Hk, Hv. subst v.
  destruct od as [d|]; [right; by exists d|by left].
Qed.

(** *** [get] *)

(** What an entry says of a dict, when some of its keys were asked for *)
Record entry_sound (asked : option (list DKT)) (m : gmap DKT DV) (e : DictionaryEntry (DKT := DKT) (DV := DV)) : Prop := {
  es_value : ∀ d v, value e !! d = Some v → m !! d = Some v;
  es_absent : ∀ d, d ∈ known_absent e → m !! d = None;
  es_full : full e = true → match asked with None => value e = m | Some ks => ∀ d, d ∈ ks → value e !! d = m !! d end;
}.

Definition found_so_far (m : option (gmap DKT DV)) (values : gmap DKT DV) (absent : gset DKT) : Prop :=
  (∀ d v, values !! d = Some v → ∃ m', m = Some m' ∧ m' !! d = Some v) ∧ (∀ d, d ∈ absent → ∃ m', m = Some m' ∧ m' !! d = None).

Lemma lookup_keys_spec truth k ks c values absent missing :
  lru_agrees truth c → found_so_far (truth k) values absent →
  ∃ c' values' absent' missing', py_fold (lookup_key k) (c, values, absent, missing) ks = Ok (c', values', absent', missing') ∧
    lru_agrees truth c' ∧ found_so_far (truth k) values' absent' ∧ (∀ d, d ∈ missing → d ∈ missing') ∧
    (∀ d, d ∈ dom values → d ∈ dom values') ∧ (∀ d, d ∈ absent → d ∈ absent') ∧
    (∀ d, d ∈ ks → d ∈ dom values' ∨ d ∈ absent' ∨ d ∈ missing').
Proof using KeySchemeLaws0.
  revert c values absent missing. induction ks as [|d ks IH]; intros c values absent missing Hc Hf; cbn [py_fold].
  { exists c, values, absent, missing. split_and!; try done. by intros d ?%elem_of_nil. }
  destruct (lru_get_agrees truth c k (Some d) true Hc) as (o & c1 & Hget & Hc1 & Hv).
  assert (∃ values1 absent1 missing1, lookup_key k (c, values, absent, missing) d = Ok (c1, values1, absent1, missing1) ∧
    found_so_far (truth k) values1 absent1 ∧ (∀ x, x ∈ missing → x ∈ missing1) ∧ (∀ x, x ∈ dom values → x ∈ dom values1) ∧
    (∀ x, x ∈ absent → x ∈ absent1) ∧ (d ∈ dom values1 ∨ d ∈ absent1 ∨ d ∈ missing1))
    as (values1 & absent1 & missing1 & -> & Hf1 & M1 & M2 & M3 & M4).
  { unfold lookup_key. rewrite Hget. cbn [mbind py_bind]. destruct Hf as [Hf1 Hf2]. destruct o as [v|].
    2:{ exists values, absent, (missing ++ [d]). split_and!; try done; [intros x Hx; apply elem_of_app; by left|].
        right. right. apply elem_of_app. right. by left. }
    destruct (Hv v eq_refl) as (m & Hm & ->). destruct (m !! d) as [w|] eqn:Ew.
    - exists (<[d := w]> values), absent, missing. split_and!; try done.
      + split; [|done]. intros x y [[<- <-]|[_ Hx]]%lookup_insert_Some; eauto.
      + intros x Hx. rewrite dom_insert_L. apply elem_of_union. by right.
      + left. rewrite dom_insert_L. apply elem_of_union. left. by apply elem_of_singleton.
    - exists values, ({[d]} ∪ absent), missing. split_and!; try done.
      + split; [done|]. intros x [->%elem_of_singleton|Hx]%elem_of_union; eauto.
      + intros x Hx. apply elem_of_union. by right.
      + right. left. apply elem_of_union. left. by apply elem_of_singleton. }
  cbn [mbind py_bind]. destruct (IH c1 values1 absent1 missing1 Hc1 Hf1) as (c' & values' & absent' & missing' & -> & Hc' & Hf' & N1 & N2 & N3 & N4).
  exists c', values', absent', missing'. split_and!; try done; eauto. intros x [->|Hx]%elem_of_cons; [|by apply N4].
  destruct M4 as [?|[?|?]]; eauto.
Qed.

Lemma fill_keys_spec truth k m ks c values :
  lru_agrees truth c → truth k = Some m → (∀ d v, values !! d = Some v → m !! d = Some v) →
  ∃ c' values', py_fold (fill_key k m) (c, values) ks = Ok (c', values') ∧ lru_agrees truth c' ∧
    (∀ d v, values' !! d = Some v → m !! d = Some v) ∧ (∀ d, d ∈ dom values → d ∈ dom values') ∧
    (∀ d, d ∈ ks → values' !! d = m !! d).
Proof using KeySchemeLaws0.
  intros Hc Hm. revert c Hc values. induction ks as [|d ks IH]; intros c Hc values Hval; cbn [py_fold].
  { exists c, values. split_and!; try done. by intros d ?%elem_of_nil. }
  destruct (lru_set_agrees truth c k (Some d) m Hc Hm) as (c1 & Hset & Hc1).
  set (values1 := match m !! d with Some v => <[d := v]> values | None => values end).
  assert (fill_key k m (c, values) d = Ok (c1, values1)) as -> by (unfold fill_key; by rewrite Hset).
  cbn [mbind py_bind].
  assert (∀ x v, values1 !! x = Some v → m !! x = Some v) as Hval1.
  { subst values1. destruct (m !! d) as [w|] eqn:Ew; [|done]. intros x v [[<- <-]|[_ ?]]%lookup_insert_Some; eauto. }
  assert (∀ x, x ∈ dom values → x ∈ dom values1) as Hdom1.
  { subst values1. destruct (m !! d); [|done]. intros x Hx. rewrite dom_insert_L. apply elem_of_union. by right. }
  assert (values1 !! d = m !! d) as Hd1.
  { subst values1. destruct (m !! d) as [w|] eqn:Ew; [by rewrite lookup_insert_eq|]. destruct (values !! d) eqn:Ed; [|done].
    by rewrite (Hval d _ Ed) in Ew. }
  destruct (IH c1 Hc1 values1 Hval1) as (c' & values' & -> & Hc' & V1 & V2 & V3). exists c', values'. split_and!; try done; eauto.
  intros x [->|Hx]%elem_of_cons; [|by apply V3]. destruct (m !! d) as [w|] eqn:Ew.
  - assert (d ∈ dom values') as [w' Hw']%elem_of_dom by (apply V2, elem_of_dom; eauto). rewrite Hw'. by rewrite <- (V1 d w' Hw').
  - destruct (values' !! d) as [w'|] eqn:Ew'; [|done]. by rewrite (V1 d w' Ew') in Ew.
Qed.

Lemma dict_get_spec truth d k ks :
  agrees truth d →
  ∃ e d', dict_cache_get d k ks = Ok (e, d') ∧ agrees truth d' ∧ dc_sequence d' = dc_sequence d ∧
    (∀ m, truth k = Some m → entry_sound ks m e).
Proof using KeySchemeLaws0.
  intros Hd. unfold dict_cache_get. destruct ks as [ks|].
  - destruct (lookup_keys_spec truth k ks (dc_cache d) ∅ ∅ [] Hd) as (c & values & absent & missing & -> & Hc & [F1 F2] & _ & _ & _ & Hks).
    { split; [by intros x v|]. by intros x ?%elem_of_empty. }
    cbn [mbind py_bind].
    assert (∀ m, truth k = Some m → entry_sound (Some ks) m (DictEntry false absent values)) as Hpart.
    { intros m Hm. split; cbn; [| |done].
      - intros x v Hx. destruct (F1 x v Hx) as (m' & Hm' & ?). congruence.
      - intros x Hx. destruct (F2 x Hx) as (m' & Hm' & ?). congruence. }
    destruct missing as [|x0 l0] eqn:Em; [by eexists _, _|]. rewrite <- Em in *. clear x0 l0 Em.
    destruct (lru_get_agrees truth c k None false Hc) as (o & c1 & -> & Hc1 & Hv). cbn [mbind py_bind].
    destruct o as [v|]; [|by eexists _, _]. destruct (Hv v eq_refl) as (m & Hm & ->).
    destruct (fill_keys_spec truth k m missing c1 values Hc1 Hm) as (c2 & values2 & -> & Hc2 & V1 & V2 & V3).
    { intros x v Hx. destruct (F1 x v Hx) as (m' & Hm' & ?). congruence. }
    cbn [mbind py_bind]. eexists _, _. split; [done|]. split_and!; [done|done|]. intros m' Hm'. assert (m' = m) as -> by congruence.
    split; cbn; [done|by intros x ?%elem_of_empty|]. intros _ x Hx. destruct (Hks x Hx) as [Hv1|[Ha|Hmiss]]; [| |by apply V3].
    + apply V2, elem_of_dom in Hv1 as [w Hw]. rewrite Hw. by rewrite (V1 x w Hw).
    + destruct (F2 x Ha) as (m'' & Hm'' & Hnone). assert (m'' = m) as -> by congruence.
      destruct (values2 !! x) as [w|] eqn:Ew; [|done]. by rewrite (V1 x w Ew) in Hnone.
  - unfold get_full_dict. destruct (lru_get_agrees truth (dc_cache d) k None true Hd) as (o & c & -> & Hc & Hv). cbn [mbind py_bind].
    destruct o as [v|].
    + destruct (Hv v eq_refl) as (m & Hm & ->). eexists _, _. split; [done|]. split_and!; [done|done|]. intros m' Hm'.
      assert (m' = m) as -> by congruence. split; cbn; [done|by intros x ?%elem_of_empty|done].
    + eexists _, _. split; [done|]. split_and!; [done|done|]. intros m' Hm'. split; cbn; [done|by intros x ?%elem_of_empty|done].
Qed.

(** *** [update] *)

Lemma lru_sets_agree truth {X} (f : X → DKT) (v : X → option DV) k m l c :
  lru_agrees truth c → truth k = Some m → (∀ x, x ∈ l → v x = m !! f x) →
  ∃ c', py_fold (λ c x, lru_set c (entry_key k (Some (f x))) (PerKeyValue (v x))) c l = Ok c' ∧ lru_agrees truth c'.
Proof using KeySchemeLaws0.
  intros Hc Hm. revert c Hc. induction l as [|x l IH]; intros c Hc Hl; cbn [py_fold]; [by exists c|].
  destruct (lru_set_agrees truth c k (Some (f x)) m Hc Hm) as (c1 & Hset & Hc1). rewrite (Hl x) by by left. rewrite Hset. cbn [mbind py_bind].
  apply IH; [done|]. intros y Hy. apply Hl. by right.
Qed.

Lemma dict_update_spec truth d sequence k m val fetched :
  agrees truth d → truth k = Some m → (∀ x v, val !! x = Some v → m !! x = Some v) →
  match fetched with None => val = m | Some ks => ∀ x, x ∈ ks → val !! x = m !! x end →
  ∃ d', dict_cache_update d sequence k val fetched = Ok d' ∧ agrees truth d' ∧ dc_sequence d' = dc_sequence d.
Proof using KeySchemeLaws0.
  intros Hd Hm Hval Hf. unfold dict_cache_update. destruct (dc_sequence d =? sequence); [|by exists d].
  assert (∃ c, match fetched with
      | None => lru_set (dc_cache d) (entry_key k None) (FullDict val)
      | Some fetched_keys => update_subset (dc_cache d) k val fetched_keys end = Ok c ∧ lru_agrees truth c) as (c & -> & Hc).
  2:{ cbn [mbind py_bind]. by eexists. }
  destruct fetched as [ks|]; [|subst val; by apply (lru_set_agrees truth (dc_cache d) k None m)].
  unfold update_subset.
  destruct (lru_sets_agree truth fst (λ x, Some x.2) k m (map_to_list val) (dc_cache d) Hd Hm) as (c1 & -> & Hc1).
  { intros [x v] Hx%elem_of_map_to_list. cbn. symmetry. by apply Hval. }
  cbn [mbind py_bind]. clear Hd. revert c1 Hc1. induction ks as [|x ks IH]; intros c1 Hc1; cbn [py_fold]; [by exists c1|].
  assert (∀ y, y ∈ ks → val !! y = m !! y) as Hks by (intros y Hy; apply Hf; by right).
  destruct (decide (x ∈ dom val)) as [Hx|Hx]; cbn [mbind py_bind]; [by apply IH|].
  destruct (lru_set_agrees truth c1 k (Some x) m Hc1 Hm) as (c2 & Hset & Hc2). apply not_elem_of_dom in Hx.
  assert (m !! x = None) as Hmx by (rewrite <- Hx; symmetry; apply Hf; by left). rewrite Hmx in Hset. rewrite Hset. cbn [mbind py_bind]. by apply IH.
Qed.

(** *** [invalidate] *)

(** After a key is invalidated its dict may be any other one. *)
Lemma dict_invalidate_spec truth d k om :
  agrees truth d →
  ∃ d', dict_cache_invalidate d k = Ok d' ∧ agrees (λ k', if decide (k' = k) then om else truth k') d' ∧
    dc_sequence d' = dc_sequence d + 1.
Proof using KeySchemeLaws0.
  intros (zs & Hr & Hm & He). unfold dict_cache_invalidate.
  destruct (del_multi_spec (Some value_len) None (dc_cache d) zs (top_key k) Hr (top_key_some k)) as (c & zs' & called & -> & Hr' & Hm' & Hent & _).
  cbn [mbind py_bind]. eexists. split; [done|]. split; [|done]. exists zs'. split_and!; [done|cbn; lia|]. intros e Hin. rewrite Hent in Hin.
  apply list_elem_of_In, filter_In in Hin as [Hin Hu]. apply list_elem_of_In in Hin. destruct (He e Hin) as (k' & m & Ht & Hcase).
  exists k', m. split; [|done]. rewrite decide_False; [done|]. intros ->. rewrite negb_true_iff in Hu.
  destruct Hcase as [[Hk _]|(x & Hk & _)]; rewrite Hk, top_key_under, bool_decide_eq_true_2 in Hu by done; done.
Qed.

Lemma dict_invalidate_all_spec truth truth' d :
  agrees truth d → ∃ d', dict_cache_invalidate_all d = Ok d' ∧ agrees truth' d' ∧ dc_sequence d' = dc_sequence d + 1.
Proof using KeySchemeLaws0.
  intros (zs & Hr & Hm & He). unfold dict_cache_invalidate_all.
  destruct (clear_spec (Some value_len) None (dc_cache d) zs Hr) as (c & called & -> & Hr' & Hm' & _). cbn [mbind py_bind].
  eexists. split; [done|]. split; [|done]. exists []. split_and!; [done|cbn; lia|]. by intros e ?%elem_of_nil.
Qed.

Lemma new_dictionary_cache_spec truth n : 0 ≤ n → ∃ d, new_dictionary_cache n = Ok d ∧ agrees truth d.
Proof using Type.
  intros Hn. unfold new_dictionary_cache. destruct (new_lru_spec (V := dict_value (DKT := DKT) (DV := DV)) (Some value_len) None n) as (c & -> & Hr & Hm & _).
  cbn [mbind py_bind]. eexists. split; [done|]. exists []. split_and!; [done|cbn; lia|]. by intros e ?%elem_of_nil.
Qed.
End Facts.
