(* ===== verification/StateGroups.v ===== *)
(** * State groups: [synapse/storage/databases/state]

    The state of a room after an event is stored as a state group: all of it, or the
    difference to an earlier group.  The transactions of [StateGroupDataStore]
    ([store.py]) and of [StateGroupBackgroundUpdateStore] ([bg_updates.py]) are
    functions of the three tables.  An edge leads from a group to the group it is a
    difference to; a group has at most one (the code raises an error if it finds two).
    Both database engines are modelled: PostgreSQL reads the state with one recursive
    query, SQLite with a loop. *)

From S2P Require Import Prelude PyData RoomVersions Ids Events EventAuth StateFilters.

Open Scope Z_scope.

Abbreviation state_ids := (state_map string).

Record state_tables : Type := MkState {
  (** id to room and event *)
  state_groups : gmap Z (string * string);
  state_group_edges : gmap Z Z;
  (** the rows of [state_groups_state], by group *)
  state_groups_state : gmap Z state_ids;
  (** the next value of the sequence *)
  next_state_group : Z;
}.

Inductive engine : Type := Postgres | SQLite.

Definition MAX_STATE_DELTA_HOPS : Z := 100.

(** ** Reading *)

Definition group_rows (t : state_tables) (group : Z) : state_ids := default ∅ (state_groups_state t !! group).

(** A chain has no more groups than there are edges, and one. *)
Definition chain_fuel (t : state_tables) : nat := S (size (state_group_edges t)).

(** The recursive query: the group and all groups that edges lead to *)
Fixpoint recursive_groups (t : state_tables) (fuel : nat) (group : Z) : option (list Z) :=
  match fuel with
  | O => None
  | S fuel =>
      match state_group_edges t !! group with
      | None => Some [group]
      | Some prev => cons group <$> recursive_groups t fuel prev
      end
  end.

(** [while next_group: ...]; the value 0 ends the loop too *)
Fixpoint count_hops_loop (t : state_tables) (fuel : nat) (next_group : option Z) (count : Z) : option Z :=
  match next_group with
  | None | Some 0 => Some count
  | Some g =>
      match fuel with
      | O => None
      | S fuel =>
          let next_group := state_group_edges t !! g in
          count_hops_loop t fuel next_group (match next_group with None | Some 0 => count | Some _ => count + 1 end)
      end
  end.

Definition count_state_group_hops (e : engine) (t : state_tables) (state_group : Z) : py Z :=
  match e with
  | Postgres => gs ← fueled (recursive_groups t (chain_fuel t) state_group); Ok (Z.of_nat (length gs))
  | SQLite => fueled (count_hops_loop t (chain_fuel t) (Some state_group) 0)
  end.

Definition newer (g g' : Z) : Prop := g' ≤ g.
#[export] Instance newer_dec : RelDecision newer := λ g g', decide (g' ≤ g).

(** [SELECT DISTINCT ON (type, state_key) ... ORDER BY type, state_key, state_group DESC]
    over the rows of some groups that satisfy a condition *)
Definition select_distinct (t : state_tables) (gs : list Z) (where_clause : string * string → bool) : state_ids :=
  foldl (λ acc g, acc ∪ filter (λ r, where_clause r.1 = true) (group_rows t g)) ∅ (merge_sort newer gs).

(** A condition of the optimised query, one of [state_filter_condition_combos], which
    are the pairs of [to_types] *)
Definition combo_holds (c : string * option string) (key : string * string) : bool :=
  match c.2 with
  | None => bool_decide (key.1 = c.1)
  | Some state_key => bool_decide (key.1 = c.1) && bool_decide (key.2 = state_key)
  end.

Definition where_filter (f : StateFilter) (key : string * string) : bool := sql_matches (sql_clauses f) key.1 key.2.

(** A query that ends after its WITH clause is no SQL. *)
Definition sql_syntax_error : exn := PyException "syntax error at end of input".

Definition postgres_state (t : state_tables) (f : StateFilter) (group : Z) : py state_ids :=
  gs ← fueled (recursive_groups t (chain_fuel t) group);
  let combos := to_types f in
  if negb (include_others f) && negb (is_full f) && bool_decide (length combos < 10)%nat then
    match combos with
    | [] => Raise sql_syntax_error
    | _ => Ok (foldl (λ acc c, select_distinct t gs (combo_holds c) ∪ acc) ∅ combos)
    end
  else Ok (select_distinct t gs (where_filter f)).

Fixpoint sqlite_loop (t : state_tables) (f : StateFilter) (fuel : nat) (next_group : option Z) (result : state_ids) : option state_ids :=
  match next_group with
  | None | Some 0 => Some result
  | Some g =>
      match fuel with
      | O => None
      | S fuel =>
          let result := result ∪ filter (λ r, where_filter f r.1 = true) (group_rows t g) in
          if bool_decide (max_entries_returned f = Some (size result)) then Some result
          else sqlite_loop t f fuel (state_group_edges t !! g) result
      end
  end.
Definition sqlite_state (t : state_tables) (f : StateFilter) (group : Z) : py state_ids :=
  fueled (sqlite_loop t f (chain_fuel t) (Some group) ∅).

Definition group_state (e : engine) (t : state_tables) (f : StateFilter) (group : Z) : py state_ids :=
  match e with Postgres => postgres_state t f group | SQLite => sqlite_state t f group end.

(** [_get_state_groups_from_groups_txn] and [_get_state_groups_from_groups]: the groups
    are read one by one, in chunks of 100. *)
Definition get_state_groups_from_groups_txn (e : engine) (t : state_tables) (groups : list Z) (f : StateFilter) : py (gmap Z state_ids) :=
  py_fold (λ res g, st ← group_state e t f g; Ok (<[g := st]> res)) ∅ groups.

(** [get_state_group_delta] *)
Definition get_state_group_delta (t : state_tables) (state_group : Z) : option (Z * state_ids) :=
  match state_group_edges t !! state_group with
  | None | Some 0 => None
  | Some prev_group => Some (prev_group, group_rows t state_group)
  end.

(** [get_previous_state_groups]: the rows whose [prev_state_group] is among the groups *)
Definition get_previous_state_groups (t : state_tables) (groups : gset Z) : gmap Z Z :=
  filter (λ x, x.2 ∈ groups) (state_group_edges t).

(** ** Storing *)

Definition add_group (t : state_tables) (g : Z) (row : string * string) (prev : option Z) (rows : state_ids) : state_tables :=
  MkState (<[g := row]> (state_groups t))
    (match prev with Some p => <[g := p]> (state_group_edges t) | None => state_group_edges t end)
    (<[g := rows ∪ group_rows t g]> (state_groups_state t)) (next_state_group t).

Definition take_group_ids (t : state_tables) (n : Z) : state_tables :=
  MkState (state_groups t) (state_group_edges t) (state_groups_state t) (next_state_group t + n).

Definition unpersisted_prev_group : exn := PyException "Trying to persist state with unpersisted prev_group: %r".

(** [insert_delta_group_txn] of [store_state_group]; [None] asks for the full state *)
Definition insert_delta_group (e : engine) (t : state_tables) (event_id room_id : string) (prev_group : Z) (delta_ids : state_ids)
    : py (option Z * state_tables) :=
  raise_if (negb (bool_decide (prev_group ∈ dom (state_groups t))) || (prev_group =? 0)) unpersisted_prev_group ;;
  potential_hops ← count_state_group_hops e t prev_group;
  if MAX_STATE_DELTA_HOPS <=? potential_hops then Ok (None, t)
  else
    let g := next_state_group t in
    Ok (Some g, add_group (take_group_ids t 1) g (room_id, event_id) (Some prev_group) delta_ids).

(** [insert_full_state_txn] *)
Definition insert_full_state (t : state_tables) (event_id room_id : string) (current_state_ids : state_ids) : Z * state_tables :=
  let g := next_state_group t in
  (g, add_group (take_group_ids t 1) g (room_id, event_id) None current_state_ids).

(** An event of a batch: its id and, for a state event, its type and state key; with the
    context that is filled in *)
Record batch_event : Type := BatchEvent { be_id : string; be_state : option (string * string) }.
Record batch_context : Type := BatchContext {
  state_group_before_event : Z;
  state_group_after_event : Z;
  state_delta_due_to_event : option state_ids;
}.

Definition assign_group (acc : Z * Z * list (batch_event * batch_context)) (ev : batch_event) : Z * Z * list (batch_event * batch_context) :=
  let '(sg_before, next_id, out) := acc in
  match be_state ev with
  | None => (sg_before, next_id, out ++ [(ev, BatchContext sg_before sg_before None)])
  | Some key => (next_id, next_id + 1, out ++ [(ev, BatchContext sg_before next_id (Some {[key := be_id ev]}))])
  end.

Definition store_batch_row (room_id : string) (t : state_tables) (x : batch_event * batch_context) : state_tables :=
  match state_delta_due_to_event x.2 with
  | None => t
  | Some delta => add_group t (state_group_after_event x.2) (room_id, be_id x.1) (Some (state_group_before_event x.2)) delta
  end.

(** [store_state_deltas_for_batched] *)
Definition store_state_deltas_for_batched (t : state_tables) (events : list batch_event) (room_id : string) (prev_group : Z)
    : py (list (batch_event * batch_context) * state_tables) :=
  raise_if (negb (bool_decide (prev_group ∈ dom (state_groups t))) || (prev_group =? 0)) unpersisted_prev_group ;;
  let '(_, _, out) := foldl assign_group (prev_group, next_state_group t, []) events in
  let n := Z.of_nat (length (List.filter (λ ev, bool_decide (is_Some (be_state ev))) events)) in
  Ok (out, foldl (store_batch_row room_id) (take_group_ids t n) out).

(** ** Purging *)

(** A group that is a difference to a deleted one is given all of its state. *)
Definition de_delta (e : engine) (t : state_tables) (sg : Z) : py state_tables :=
  curr_state ← group_state e t all sg;
  Ok (MkState (state_groups t) (delete sg (state_group_edges t)) (<[sg := curr_state]> (state_groups_state t)) (next_state_group t)).

Definition remaining_groups (t : state_tables) (state_groups_to_delete : gset Z) : gset Z :=
  dom (filter (λ x, x.2 ∈ state_groups_to_delete ∧ x.1 ∉ state_groups_to_delete) (state_group_edges t)).

(** [_purge_unreferenced_state_groups]; the edges of the deleted groups are kept *)
Definition purge_unreferenced_state_groups (e : engine) (t : state_tables) (state_groups_to_delete : gset Z) : py state_tables :=
  t ← py_fold (de_delta e) t (elements (remaining_groups t state_groups_to_delete));
  Ok (MkState (filter (λ x, x.1 ∉ state_groups_to_delete) (state_groups t)) (state_group_edges t)
        (filter (λ x, x.1 ∉ state_groups_to_delete) (state_groups_state t)) (next_state_group t)).

(** [_purge_room_state_txn] *)
Definition purge_room_state (t : state_tables) (state_groups_to_delete : gset Z) : state_tables :=
  MkState (filter (λ x, x.1 ∉ state_groups_to_delete) (state_groups t))
    (filter (λ x, x.1 ∉ state_groups_to_delete) (state_group_edges t))
    (filter (λ x, x.1 ∉ state_groups_to_delete) (state_groups_state t)) (next_state_group t).

(** ** Reencoding as differences: [_background_deduplicate_state] *)

Definition earlier (a b : Z * (string * string)) : Prop := a.1 ≤ b.1.
#[export] Instance earlier_dec : RelDecision earlier := λ a b, decide (a.1 ≤ b.1).

(** [SELECT id, room_id ... ORDER BY id ASC LIMIT 1] *)
Definition first_group_after (t : state_tables) (last_group max_group : Z) : option (Z * string) :=
  match merge_sort earlier (map_to_list (filter (λ x, last_group < x.1 ∧ x.1 ≤ max_group) (state_groups t))) with
  | [] => None
  | x :: _ => Some (x.1, x.2.1)
  end.

(** [SELECT coalesce(max(id), 0) ...] *)
Definition last_group_before (t : state_tables) (state_group : Z) (room_id : string) : Z :=
  match map fst (map_to_list (filter (λ x, x.1 < state_group ∧ x.2.1 = room_id) (state_groups t))) with
  | [] => 0
  | g :: gs => foldr Z.max g gs
  end.

Definition reencode (e : engine) (t : state_tables) (state_group prev_group : Z) : py state_tables :=
  prev_state ← group_state e t all prev_group;
  curr_state ← group_state e t all state_group;
  if bool_decide (dom prev_state ⊆ dom curr_state) then
    let delta_state := filter (λ x, prev_state !! x.1 ≠ Some x.2) curr_state in
    Ok (MkState (state_groups t) (<[state_group := prev_group]> (state_group_edges t))
          (<[state_group := delta_state]> (state_groups_state t)) (next_state_group t))
  else Ok t.

(** The loop of [reindex_txn]: whether it is finished, the tables and the last group *)
Fixpoint deduplicate_loop (e : engine) (t : state_tables) (last_state_group max_group : Z) (batch_size : nat) : py (bool * state_tables * Z) :=
  match batch_size with
  | O => Ok (false, t, last_state_group)
  | S batch_size =>
      match first_group_after t last_state_group max_group with
      | None | Some (0, _) => Ok (true, t, last_state_group)
      | Some (state_group, room_id) =>
          if bool_decide (state_group ∈ dom (state_group_edges t)) then Ok (true, t, last_state_group)
          else
            let prev_group := last_group_before t state_group room_id in
            t ← (if prev_group =? 0 then Ok t
                 else
                   potential_hops ← count_state_group_hops e t prev_group;
                   if MAX_STATE_DELTA_HOPS <=? potential_hops then Ok t else reencode e t state_group prev_group);
            deduplicate_loop e t state_group max_group batch_size
      end
  end.

(** ** What a purge of history may delete: [_find_unreferenced_groups] of [purge_events.py] *)

(** [get_referenced_state_groups]: the groups in the column of [event_to_state_groups] *)
Definition get_referenced_state_groups (event_to_state_groups : gset Z) (groups : gset Z) : gset Z := groups ∩ event_to_state_groups.

Fixpoint find_unreferenced_loop (t : state_tables) (event_to_state_groups : gset Z) (fuel : nat)
    (referenced_groups state_groups_seen next_to_search : gset Z) : option (gset Z) :=
  if decide (next_to_search = ∅) then Some (state_groups_seen ∖ referenced_groups)
  else
    match fuel with
    | O => None
    | S fuel =>
        let '(current_search, next_to_search) :=
          if bool_decide (size next_to_search < 100)%nat then (next_to_search, ∅)
          else let current := list_to_set (take 100 (elements next_to_search)) in (current, next_to_search ∖ current) in
        let referenced := get_referenced_state_groups event_to_state_groups current_search in
        let referenced_groups := referenced_groups ∪ referenced in
        let current_search := current_search ∖ referenced in
        let edges := get_previous_state_groups t current_search in
        let prevs := map_img edges ∖ state_groups_seen in
        find_unreferenced_loop t event_to_state_groups fuel referenced_groups (state_groups_seen ∪ prevs) (next_to_search ∪ prevs)
    end.

(** Each group is searched at most once. *)
Definition find_unreferenced_groups (t : state_tables) (event_to_state_groups : gset Z) (groups : gset Z) : py (gset Z) :=
  fueled (find_unreferenced_loop t event_to_state_groups (size groups + size (state_group_edges t)) ∅ groups groups).

(** [purge_history], once the main store has deleted the events and returned their groups *)
Definition purge_history_state (e : engine) (t : state_tables) (event_to_state_groups : gset Z) (groups : gset Z) : py state_tables :=
  sg_to_delete ← find_unreferenced_groups t event_to_state_groups groups;
  purge_unreferenced_state_groups e t sg_to_delete.
