(* ===== verification/StateGroupFacts.v ===== *)
(** * State groups: what reading and storing do

    A group stands for the state that its chain of differences adds up to.  Both
    engines read this state; storing a group adds one and keeps the others; purging
    keeps the groups that are not deleted. *)

From S2P Require Import Prelude PyData RoomVersions Ids Events EventAuth StateFilters StateGroups.

Open Scope Z_scope.

(** ** Chains of groups *)

Inductive chain (t : state_tables) : Z → list Z → Prop :=
  | chain_end g : state_group_edges t !! g = None → chain t g [g]
  | chain_step g p gs : state_group_edges t !! g = Some p → chain t p gs → chain t g (g :: gs).

Definition chain_state (t : state_tables) (gs : list Z) : state_ids := foldr (λ g st, group_rows t g ∪ st) ∅ gs.

(** The state that a group stands for *)
Definition stands_for (t : state_tables) (g : Z) (st : state_ids) : Prop :=
  g ∈ dom (state_groups t) ∧ ∃ gs, chain t g gs ∧ st = chain_state t gs.

Record state_ok (t : state_tables) : Prop := {
  so_edge : ∀ g p, g ∈ dom (state_groups t) → state_group_edges t !! g = Some p → p < g ∧ p ∈ dom (state_groups t);
  so_fresh : ∀ g, g ∈ dom (state_groups t) ∨ g ∈ dom (state_group_edges t) ∨ g ∈ dom (state_groups_state t) →
    0 < g < next_state_group t;
  (** Purging keeps the edges of the groups it deletes. *)
  so_down : ∀ g p, state_group_edges t !! g = Some p → p < g;
}.

Lemma chain_det t g gs gs' : chain t g gs → chain t g gs' → gs = gs'.
Proof.
  intros H. revert gs'. induction H as [g Hg|g p gs Hg H IH]; intros gs' H'; inversion H'; subst; try congruence.
  f_equal. apply IH. congruence.
Qed.

Lemma stands_for_det t g st st' : stands_for t g st → stands_for t g st' → st = st'.
Proof. intros (_ & gs & H1 & ->) (_ & gs' & H2 & ->). by rewrite (chain_det _ _ _ _ H1 H2). Qed.

(** The edges from a group on *)
Definition edges_below (t : state_tables) (g : Z) : nat := size (filter (λ x, x.1 ≤ g) (state_group_edges t)).

Lemma edges_below_step t g p : state_group_edges t !! g = Some p → p < g → (edges_below t p < edges_below t g)%nat.
Proof.
  intros Hg Hp. unfold edges_below. apply map_subset_size, map_subset_alt. split.
  - apply map_subseteq_spec. intros h q [Hh Hle]%map_lookup_filter_Some. apply map_lookup_filter_Some. split; [done|]. cbn in *. lia.
  - exists g. split.
    + apply map_lookup_filter_None. right. intros q _. cbn. lia.
    + exists p. apply map_lookup_filter_Some. split; [done|]. cbn. lia.
Qed.

Lemma edges_below_fuel t g : (edges_below t g < chain_fuel t)%nat.
Proof.
  unfold chain_fuel. apply Nat.lt_succ_r. unfold edges_below. apply map_subseteq_size, map_filter_subseteq.
Qed.

Section Ok.
Context (t : state_tables) (Hok : state_ok t).

Lemma chain_exists g : g ∈ dom (state_groups t) → ∃ gs, chain t g gs.
Proof using Hok.
  remember (edges_below t g) as n eqn:En. revert g En. induction (lt_wf n) as [n _ IH]. intros g -> Hg.
  destruct (state_group_edges t !! g) as [p|] eqn:E; [|exists [g]; by constructor].
  destruct (so_edge _ Hok g p Hg E) as [Hlt Hp]. destruct (IH (edges_below t p) (edges_below_step t g p E Hlt) p eq_refl Hp) as [gs Hgs].
  exists (g :: gs). by econstructor.
Qed.

Lemma stands_for_exists g : g ∈ dom (state_groups t) → ∃ st, stands_for t g st.
Proof using Hok. intros Hg. destruct (chain_exists g Hg) as [gs Hgs]. exists (chain_state t gs). split; [done|]. by exists gs. Qed.

Lemma chain_members g gs : chain t g gs → g ∈ dom (state_groups t) → ∀ h, h ∈ gs → h ∈ dom (state_groups t) ∧ h ≤ g.
Proof using Hok.
  induction 1 as [g Hg|g p gs Hg H IH]; intros Hd h Hh.
  - apply list_elem_of_singleton in Hh as ->. split; [done|lia].
  - destruct (so_edge _ Hok g p Hd Hg) as [Hlt Hp]. apply elem_of_cons in Hh as [->|Hh]; [split; [done|lia]|].
    destruct (IH Hp h Hh). split; [done|lia].
Qed.

Lemma chain_sorted g gs : chain t g gs → g ∈ dom (state_groups t) → StronglySorted newer gs.
Proof using Hok.
  induction 1 as [g Hg|g p gs Hg H IH]; intros Hd; [repeat constructor|].
  destruct (so_edge _ Hok g p Hd Hg) as [Hlt Hp]. constructor; [by apply IH|]. apply Forall_forall. intros h Hh.
  destruct (chain_members p gs H Hp h Hh) as [_ Hle]. unfold newer. lia.
Qed.

Lemma recursive_groups_spec fuel g gs :
  chain t g gs → g ∈ dom (state_groups t) → (edges_below t g < fuel)%nat → recursive_groups t fuel g = Some gs.
Proof using Hok.
  intros H. revert fuel. induction H as [g Hg|g p gs Hg H IH]; intros [|fuel] Hd Hf; try lia; cbn [recursive_groups]; rewrite Hg; [done|].
  destruct (so_edge _ Hok g p Hd Hg) as [Hlt Hp]. pose proof (edges_below_step t g p Hg Hlt). by rewrite IH by (done || lia).
Qed.
End Ok.

(** ** Reading *)

Lemma union_filter_fold t (P : string * string → bool) gs acc :
  foldl (λ acc g, acc ∪ filter (λ r, P r.1 = true) (group_rows t g)) acc gs =
  acc ∪ filter (λ r, P r.1 = true) (chain_state t gs).
Proof.
  revert acc. induction gs as [|g gs IH]; intros acc; cbn [foldl chain_state foldr].
  { by rewrite map_filter_empty, (right_id_L ∅ (∪)). }
  rewrite IH, <- (assoc_L (∪)). f_equal. fold (chain_state t gs). apply map_eq. intros k. rewrite lookup_union.
  destruct (P k) eqn:Ek.
  - assert (∀ m : state_ids, filter (λ r : (string * string) * string, P r.1 = true) m !! k = m !! k) as Hf.
    { intros m. destruct (m !! k) as [v|] eqn:Ev; [by apply map_lookup_filter_Some|]. by apply map_lookup_filter_None; left. }
    by rewrite !Hf, lookup_union.
  - assert (∀ m : state_ids, filter (λ r : (string * string) * string, P r.1 = true) m !! k = None) as Hf.
    { intros m. apply map_lookup_filter_None. right. intros v _. cbn. by rewrite Ek. }
    by rewrite !Hf.
Qed.

Lemma select_distinct_spec t g gs P :
  state_ok t → chain t g gs → g ∈ dom (state_groups t) →
  select_distinct t gs P = filter (λ r, P r.1 = true) (chain_state t gs).
Proof.
  intros Hok Hc Hg. unfold select_distinct. assert (merge_sort newer gs = gs) as ->.
  { assert (Transitive newer) by (intros a b c; unfold newer; lia). assert (AntiSymm (=) newer) by (intros a b; unfold newer; lia).
    assert (Total newer) by (intros a b; unfold newer; lia).
    apply (Sorted_unique newer); [apply Sorted_merge_sort; apply _| |apply merge_sort_Permutation].
    apply StronglySorted_Sorted. by eapply chain_sorted. }
  by rewrite union_filter_fold, (left_id_L ∅ (∪)).
Qed.

Lemma where_filter_contains f key : (∃ key, contains f key = true) → where_filter f key = contains f key.
Proof. intros He. destruct key as [ty k]. unfold where_filter. by apply sql_filter_clause_spec; right. Qed.

Lemma filter_ext_contains (f : StateFilter) (P : string * string → bool) (st : state_ids) :
  (∀ key, P key = contains f key) → filter (λ r, P r.1 = true) st = filter_state f st.
Proof.
  intros HP. apply map_eq. intros k. rewrite filter_state_lookup. destruct (contains f k) eqn:Ek.
  - destruct (st !! k) as [v|] eqn:Ev; [|by apply map_lookup_filter_None; left]. apply map_lookup_filter_Some. split; [done|]. cbn. by rewrite HP.
  - apply map_lookup_filter_None. right. intros v _. cbn. rewrite HP. congruence.
Qed.

(** The conditions of the optimised query *)
Lemma combos_hold f key : include_others f = false → existsb (λ c, combo_holds c key) (to_types f) = contains f key.
Proof.
  intros Ho. destruct key as [ty k]. apply eq_true_iff_eq. rewrite existsb_exists. unfold contains. cbn [fst snd]. split.
  - intros ([ty' o] & Hin & Hh). apply list_elem_of_In, elem_of_to_types in Hin. unfold combo_holds in Hh. cbn [fst snd] in Hh.
    destruct o as [k'|].
    + apply andb_true_iff in Hh as [Hh1 Hh2]. to_prop. subst. destruct Hin as (ks & -> & Hk). by apply bool_decide_eq_true.
    + to_prop. subst. by rewrite Hin.
  - destruct (types f !! ty) as [[ks|]|] eqn:Et; [| |by rewrite Ho].
    + intros Hk. to_prop. exists (ty, Some k). split; [apply list_elem_of_In, elem_of_to_types; eauto|]. unfold combo_holds. cbn.
      by rewrite !bool_decide_eq_true_2.
    + intros _. exists (ty, None). split; [by apply list_elem_of_In, elem_of_to_types|]. unfold combo_holds. cbn. by apply bool_decide_eq_true.
Qed.

Lemma combos_fold t gs combos acc :
  (∀ P, select_distinct t gs P = filter (λ r, P r.1 = true) (chain_state t gs)) →
  ∀ k, foldl (λ acc c, select_distinct t gs (combo_holds c) ∪ acc) acc combos !! k =
    if existsb (λ c, combo_holds c k) combos then chain_state t gs !! k ∪ acc !! k else acc !! k.
Proof.
  intros Hsel k. revert acc. induction combos as [|c combos IH]; intros acc; cbn [foldl existsb]; [done|].
  rewrite IH, lookup_union, Hsel.
  assert (filter (λ r : (string * string) * string, combo_holds c r.1 = true) (chain_state t gs) !! k =
    if combo_holds c k then chain_state t gs !! k else None) as ->.
  { destruct (combo_holds c k) eqn:Ek.
    - destruct (chain_state t gs !! k) as [v|] eqn:Ev; [by apply map_lookup_filter_Some|]. by apply map_lookup_filter_None; left.
    - apply map_lookup_filter_None. right. intros v _. cbn. by rewrite Ek. }
  destruct (combo_holds c k), (existsb _ combos); cbn [orb]; rewrite ?(left_id_L None (∪)); try done.
  destruct (chain_state t gs !! k) as [v|]; [by rewrite !union_Some_l|by rewrite !(left_id_L None (∪))].
Qed.

Lemma postgres_state_spec t f g gs :
  state_ok t → chain t g gs → g ∈ dom (state_groups t) → (∃ key, contains f key = true) →
  postgres_state t f g = Ok (filter_state f (chain_state t gs)).
Proof.
  intros Hok Hc Hg He. unfold postgres_state.
  rewrite (recursive_groups_spec t Hok _ g gs Hc Hg (edges_below_fuel t g)). cbn [fueled mbind py_bind].
  pose proof (λ P, select_distinct_spec t g gs P Hok Hc Hg) as Hsel.
  destruct (negb (include_others f) && negb (is_full f) && bool_decide (length (to_types f) < 10)%nat) eqn:Eo.
  - apply andb_true_iff in Eo as [[Ho%negb_true_iff _]%andb_true_iff _]. destruct (to_types f) as [|c0 combos] eqn:Et.
    + exfalso. destruct He as [key Hk]. by rewrite <- combos_hold, Et in Hk.
    + rewrite <- Et. f_equal. apply map_eq. intros k. rewrite (combos_fold t gs (to_types f) ∅ Hsel k), filter_state_lookup, combos_hold by done.
      rewrite lookup_empty. destruct (contains f k); [|done]. by rewrite (right_id_L None (∪)).
  - f_equal. rewrite Hsel. apply filter_ext_contains. intros key. by apply where_filter_contains.
Qed.

Lemma subseteq_size_eq (m1 m2 : state_ids) : m1 ⊆ m2 → (size m2 ≤ size m1)%nat → m1 = m2.
Proof.
  intros Hs Hz. destruct (decide (m2 ⊆ m1)) as [|Hn]; [by apply (anti_symm (⊆))|].
  assert (m1 ⊂ m2) as Hlt by done. apply map_subset_size in Hlt. lia.
Qed.

Lemma sqlite_loop_spec t f fuel g gs acc :
  state_ok t → (∃ key, contains f key = true) → chain t g gs → g ∈ dom (state_groups t) → (edges_below t g < fuel)%nat →
  (∀ k, is_Some (acc !! k) → contains f k = true) →
  sqlite_loop t f fuel (Some g) acc = Some (acc ∪ filter_state f (chain_state t gs)).
Proof.
  intros Hok He H. revert fuel acc. induction H as [g Hg|g p gs Hg H IH]; intros [|fuel] acc Hd Hf Hacc; try lia; cbn [sqlite_loop].
  all: assert (0 < g) as Hpos by (apply (so_fresh _ Hok); by left).
  all: destruct g as [|g|g]; try lia.
  all: rewrite (filter_ext_contains f) by (intros; by apply where_filter_contains).
  all: set (res := acc ∪ filter_state f (group_rows t (Z.pos g))).
  - cbn [chain_state foldr]. rewrite (right_id_L ∅ (∪)). fold res. rewrite Hg. destruct fuel; by destruct (bool_decide _).
  - destruct (so_edge _ Hok _ p Hd Hg) as [Hlt Hp]. pose proof (edges_below_step t _ p Hg Hlt) as Hb.
    assert (∀ k, is_Some (res !! k) → contains f k = true) as Hres.
    { intros k [v Hv]. subst res. apply lookup_union_Some_raw in Hv as [Hv|[_ Hv]]; [eauto|]. rewrite filter_state_lookup in Hv.
      by destruct (contains f k). }
    assert (acc ∪ filter_state f (chain_state t (Z.pos g :: gs)) = res ∪ filter_state f (chain_state t gs)) as Hsplit.
    { subst res. rewrite <- (assoc_L (∪)). f_equal. cbn [chain_state foldr]. apply map_eq. intros k.
      rewrite lookup_union, !filter_state_lookup, lookup_union. by destruct (contains f k). }
    rewrite Hsplit. case_bool_decide as Hm; [|rewrite Hg; apply IH; [done|lia|done]].
    f_equal. apply subseteq_size_eq; [apply map_union_subseteq_l|].
    assert (res ∪ filter_state f (chain_state t gs) = filter_state f (res ∪ chain_state t gs)) as ->.
    { apply map_eq. intros k. rewrite lookup_union, !filter_state_lookup, lookup_union. destruct (contains f k) eqn:Ek; [done|].
      destruct (res !! k) eqn:Er; [|done]. rewrite Hres in Ek by eauto. done. }
    by apply max_entries_returned_spec.
Qed.

(** A group that is read has the state that it stands for, with either engine. *)
Lemma group_state_spec e t f g st :
  state_ok t → stands_for t g st → (∃ key, contains f key = true) → group_state e t f g = Ok (filter_state f st).
Proof.
  intros Hok (Hg & gs & Hc & ->) He. destruct e; cbn [group_state]; [by apply postgres_state_spec|].
  unfold sqlite_state. rewrite (sqlite_loop_spec t f _ g gs ∅ Hok He Hc Hg (edges_below_fuel t g)).
  - by rewrite (left_id_L ∅ (∪)).
  - intros k. by rewrite lookup_empty; intros [? ?].
Qed.

(** ** Counting hops *)

Lemma count_hops_loop_spec t fuel g gs n :
  state_ok t → chain t g gs → g ∈ dom (state_groups t) → (edges_below t g < fuel)%nat →
  count_hops_loop t fuel (Some g) n = Some (n + Z.of_nat (length gs) - 1).
Proof.
  intros Hok H. revert fuel n. induction H as [g Hg|g p gs Hg H IH]; intros [|fuel] n Hd Hf; try lia; cbn [count_hops_loop].
  all: assert (0 < g) as Hpos by (apply (so_fresh _ Hok); by left).
  all: destruct g as [|g|g]; try lia; rewrite Hg.
  - destruct fuel; cbn; f_equal; lia.
  - destruct (so_edge _ Hok _ p Hd Hg) as [Hlt Hp]. pose proof (edges_below_step t _ p Hg Hlt) as Hb.
    assert (0 < p) as Hpp by (apply (so_fresh _ Hok); by left). rewrite IH by (done || lia). destruct p as [|p|p]; try lia. cbn [length]. f_equal. lia.
Qed.

(** PostgreSQL counts the group itself, SQLite does not. *)
Lemma count_hops_spec e t g gs :
  state_ok t → chain t g gs → g ∈ dom (state_groups t) →
  count_state_group_hops e t g = Ok (Z.of_nat (length gs) - match e with Postgres => 0 | SQLite => 1 end).
Proof.
  intros Hok Hc Hg. destruct e; cbn [count_state_group_hops].
  - rewrite (recursive_groups_spec t Hok _ g gs Hc Hg (edges_below_fuel t g)). cbn [fueled mbind py_bind]. f_equal. lia.
  - rewrite (count_hops_loop_spec t _ g gs 0 Hok Hc Hg (edges_below_fuel t g)). cbn. f_equal.
Qed.

(** ** Storing *)

(** A group that is used nowhere *)
Definition fresh_group (t : state_tables) (g : Z) : Prop :=
  g ∉ dom (state_groups t) ∧ g ∉ dom (state_group_edges t) ∧ g ∉ dom (state_groups_state t).

Lemma next_fresh t n : state_ok t → 0 ≤ n → fresh_group (take_group_ids t n) (next_state_group t).
Proof.
  intros Hok Hn. assert (∀ g, g ∈ dom (state_groups t) ∨ g ∈ dom (state_group_edges t) ∨ g ∈ dom (state_groups_state t) → g < next_state_group t)
    as H by (intros g Hg; by apply (so_fresh _ Hok)).
  split_and!; cbn; intros Hin; (assert (next_state_group t < next_state_group t) by (apply H; tauto)); lia.
Qed.

Lemma take_ids_ok t n : state_ok t → 0 ≤ n → state_ok (take_group_ids t n).
Proof. intros [H1 H2 H3] Hn. split; [done| |done]. intros g Hg. specialize (H2 g Hg). cbn. lia. Qed.

Lemma take_ids_chain t n g gs : chain (take_group_ids t n) g gs ↔ chain t g gs.
Proof. split; induction 1; by econstructor. Qed.

Lemma take_ids_stands t n g st : stands_for (take_group_ids t n) g st ↔ stands_for t g st.
Proof. unfold stands_for. by setoid_rewrite take_ids_chain. Qed.

Section Add.
Context (t : state_tables) (g : Z) (row : string * string) (prev : option Z) (rows : state_ids).
Context (Hok : state_ok t) (Hfresh : fresh_group t g) (Hrange : 0 < g < next_state_group t).
Context (Hprev : ∀ p, prev = Some p → p ∈ dom (state_groups t) ∧ p < g).
Abbreviation t' := (add_group t g row prev rows).

Lemma add_edges h : h ≠ g → state_group_edges t' !! h = state_group_edges t !! h.
Proof using Type. clear Hprev. intros Hne. cbn. destruct prev; [by rewrite lookup_insert_ne|done]. Qed.

Lemma add_edge_new : state_group_edges t' !! g = prev.
Proof using Hfresh. clear Hprev. destruct Hfresh as (_ & He & _). cbn. destruct prev; [by rewrite lookup_insert_eq|by apply not_elem_of_dom]. Qed.

Lemma add_rows h : group_rows t' h = if decide (h = g) then rows else group_rows t h.
Proof using Hfresh.
  destruct Hfresh as (_ & _ & Hs). unfold group_rows. cbn. case_decide as E.
  - subst. rewrite lookup_insert_eq. cbn. apply not_elem_of_dom in Hs. unfold group_rows. rewrite Hs. cbn. apply (right_id_L ∅ (∪)).
  - by rewrite lookup_insert_ne.
Qed.

Lemma add_chain h gs : chain t h gs → h ∈ dom (state_groups t) → chain t' h gs ∧ chain_state t' gs = chain_state t gs.
Proof using Hok Hfresh.
  induction 1 as [h Hh|h p gs Hh H IH]; intros Hd; (assert (h ≠ g) as Hne by (intros ->; by destruct Hfresh)).
  - split; [constructor; by rewrite add_edges|]. cbn [chain_state foldr]. by rewrite add_rows, decide_False.
  - destruct (so_edge _ Hok h p Hd Hh) as [Hlt Hp]. destruct (IH Hp) as [Hc Hs]. split; [econstructor; [by rewrite add_edges|done]|].
    cbn [chain_state foldr]. fold (chain_state t' gs) (chain_state t gs). by rewrite add_rows, decide_False, Hs.
Qed.

Lemma add_group_ok : state_ok t'.
Proof using Hok Hfresh Hrange Hprev.
  split.
  - intros h p Hh He. cbn in Hh. rewrite dom_insert_L, elem_of_union, elem_of_singleton in Hh. cbn [state_groups add_group].
    rewrite dom_insert_L, elem_of_union. destruct (decide (h = g)) as [->|Hne].
    + rewrite add_edge_new in He. destruct (Hprev p He). split; [done|by right].
    + rewrite add_edges in He by done. destruct Hh as [?|Hh]; [done|]. destruct (so_edge _ Hok h p Hh He). split; [done|by right].
  - intros h Hh. cbn [next_state_group add_group]. destruct (decide (h = g)) as [->|Hne]; [done|]. apply (so_fresh _ Hok).
    cbn in Hh. rewrite !dom_insert_L, !elem_of_union, !elem_of_singleton in Hh. destruct Hh as [[?|?]|[Hh|[?|?]]]; try done; [by left| |by right; right].
    right. left. destruct prev; [|done]. rewrite dom_insert_L in Hh. by apply elem_of_union in Hh as [?%elem_of_singleton|].
  - intros h p He. destruct (decide (h = g)) as [->|Hne]; [rewrite add_edge_new in He; by apply Hprev|]. rewrite add_edges in He by done. by apply (so_down _ Hok).
Qed.

Lemma add_group_keeps h st : h ≠ g → stands_for t' h st ↔ stands_for t h st.
Proof using Hok Hfresh Hrange Hprev.
  intros Hne. assert (h ∈ dom (state_groups t') ↔ h ∈ dom (state_groups t)) as Hd
    by (cbn; rewrite dom_insert_L, elem_of_union, elem_of_singleton; tauto).
  assert (∀ st, stands_for t h st → stands_for t' h st) as Hto.
  { intros st' (Hh & gs & Hc & ->). destruct (add_chain h gs Hc Hh) as [Hc' Hs]. split; [by apply Hd|]. exists gs. by rewrite Hs. }
  split; [|apply Hto]. intros Hst. destruct (stands_for_exists t Hok h) as [st0 H0]; [apply Hd; by apply Hst|].
  by rewrite (stands_for_det t' h st st0 Hst (Hto _ H0)).
Qed.

Lemma add_group_new st :
  match prev with Some p => stands_for t p st | None => st = ∅ end → stands_for t' g (rows ∪ st).
Proof using Hok Hfresh Hrange Hprev.
  intros Hst. split; [cbn; rewrite dom_insert_L; apply elem_of_union; left; by apply elem_of_singleton|].
  pose proof add_edge_new as Hnew. pose proof (add_rows g) as Hr. rewrite decide_True in Hr by done.
  pose proof Hprev as Hp. pose proof add_chain as Hch. destruct prev as [p|].
  - destruct Hst as (Hpd & gs & Hc & ->). destruct (Hch p gs Hc Hpd) as [Hc' Hs]. exists (g :: gs). split; [by econstructor|].
    cbn [chain_state foldr]. fold (chain_state (add_group t g row (Some p) rows) gs). by rewrite Hr, Hs.
  - subst st. exists [g]. split; [by constructor|]. cbn [chain_state foldr]. by rewrite Hr.
Qed.
End Add.

(** *** Batches *)

Fixpoint assigned (sg_before next_id : Z) (l : list batch_event) : list (batch_event * batch_context) :=
  match l with
  | [] => []
  | ev :: l =>
      match be_state ev with
      | None => (ev, BatchContext sg_before sg_before None) :: assigned sg_before next_id l
      | Some key => (ev, BatchContext sg_before next_id (Some {[key := be_id ev]})) :: assigned next_id (next_id + 1) l
      end
  end.

Lemma assign_fold b n out l : (foldl assign_group (b, n, out) l).2 = out ++ assigned b n l.
Proof.
  revert b n out. induction l as [|ev l IH]; intros b n out; cbn [foldl assigned]; [by rewrite app_nil_r|].
  unfold assign_group at 2. destruct (be_state ev); rewrite IH, <- (assoc_L (++)); done.
Qed.

(** The state after an event of a batch *)
Definition after_event (st : state_ids) (ev : batch_event) : state_ids :=
  match be_state ev with Some key => <[key := be_id ev]> st | None => st end.

(** The contexts of a batch name groups with the states before and after the events. *)
Fixpoint batch_states (t : state_tables) (st : state_ids) (l : list (batch_event * batch_context)) : Prop :=
  match l with
  | [] => True
  | (ev, ctx) :: l =>
      stands_for t (state_group_before_event ctx) st ∧ stands_for t (state_group_after_event ctx) (after_event st ev) ∧
      batch_states t (after_event st ev) l
  end.

Lemma batch_states_mono t t' st l :
  (∀ g st, stands_for t g st → stands_for t' g st) → batch_states t st l → batch_states t' st l.
Proof. intros Hm. revert st. induction l as [|[ev ctx] l IH]; intros st; cbn; [done|]. intros (H1 & H2 & H3). auto. Qed.

Lemma batch_spec room_id l t b n st :
  state_ok t → stands_for t b st → 0 < n →
  (∀ g, g ∈ dom (state_groups t) ∨ g ∈ dom (state_group_edges t) ∨ g ∈ dom (state_groups_state t) → g < n) →
  n + Z.of_nat (length (List.filter (λ ev, bool_decide (is_Some (be_state ev))) l)) ≤ next_state_group t →
  let t' := foldl (store_batch_row room_id) t (assigned b n l) in
  state_ok t' ∧ (∀ h st, stands_for t h st → stands_for t' h st) ∧ batch_states t' st (assigned b n l).
Proof.
  revert t b n st. induction l as [|ev l IH]; intros t b n st Hok Hb Hn Hbelow Hids; cbn [assigned foldl]; [done|].
  cbn [List.filter] in Hids. destruct (be_state ev) as [key|] eqn:Ek.
  - rewrite bool_decide_eq_true_2 in Hids by done. cbn [length] in Hids. cbn [foldl]. unfold store_batch_row at 2 4. cbn [state_delta_due_to_event fst snd
      state_group_after_event state_group_before_event].
    set (t1 := add_group t n (room_id, be_id ev) (Some b) {[key := be_id ev]}).
    assert (fresh_group t n) as Hf by (split_and!; intros Hin; (assert (n < n) by (apply Hbelow; tauto)); lia).
    assert (∀ p, Some b = Some p → p ∈ dom (state_groups t) ∧ p < n) as Hp.
    { intros p [= <-]. split; [apply Hb|]. apply Hbelow. left. apply Hb. }
    assert (state_ok t1) as Hok1 by (apply add_group_ok; try done; lia).
    pose proof (add_group_new t n (room_id, be_id ev) (Some b) {[key := be_id ev]} Hok Hf ltac:(lia) Hp st Hb) as Hnew. fold t1 in Hnew.
    assert (∀ h st, stands_for t h st → stands_for t1 h st) as Hkeep.
    { intros h st' Hst'. apply add_group_keeps; try done; [lia|]. intros ->. destruct Hf as [Hf _]. apply Hf, Hst'. }
    assert (after_event st ev = {[key := be_id ev]} ∪ st) as Hae by (unfold after_event; rewrite Ek; apply insert_union_singleton_l).
    destruct (IH t1 n (n + 1) (after_event st ev)) as (I1 & I2 & I3); [done|by rewrite Hae|lia| | |].
    + intros g Hg. assert (g < n ∨ g = n) as [|]; [|lia..]. cbn in Hg. rewrite !dom_insert_L, !elem_of_union, !elem_of_singleton in Hg.
      destruct Hg as [[->|Hg]|[[->|Hg]|[->|Hg]]]; try (by right); left; apply Hbelow; tauto.
    + cbn [next_state_group add_group t1]. lia.
    + split_and!; [done|by intros h st' ?%Hkeep%I2|]. cbn [batch_states state_group_before_event state_group_after_event].
      split_and!; [by apply I2, Hkeep|apply I2; by rewrite Hae|done].
  - rewrite bool_decide_eq_false_2 in Hids by (by intros [? ?]). cbn [foldl]. unfold store_batch_row at 2 4. cbn [state_delta_due_to_event snd].
    destruct (IH t b n st Hok Hb Hn Hbelow Hids) as (I1 & I2 & I3). split_and!; [done|done|].
    cbn [batch_states state_group_before_event state_group_after_event].
    assert (after_event st ev = st) as -> by (unfold after_event; by rewrite Ek). split_and!; [by apply I2|by apply I2|done].
Qed.

(** ** Purging *)

Lemma contains_all key : contains all key = true.
Proof. unfold contains, all, new_filter. cbn. by rewrite map_filter_empty, lookup_empty. Qed.

Lemma filter_state_all (st : state_ids) : filter_state all st = st.
Proof. apply map_eq. intros k. by rewrite filter_state_lookup, contains_all. Qed.

Definition with_full_state (t : state_tables) (sg : Z) (st : state_ids) : state_tables :=
  MkState (state_groups t) (delete sg (state_group_edges t)) (<[sg := st]> (state_groups_state t)) (next_state_group t).

Lemma de_delta_spec e t sg st : state_ok t → stands_for t sg st → de_delta e t sg = Ok (with_full_state t sg st).
Proof.
  intros Hok Hst. unfold de_delta. rewrite (group_state_spec e t all sg st Hok Hst) by (exists ("", "")%string; apply contains_all).
  cbn [mbind py_bind]. by rewrite filter_state_all.
Qed.

(** Giving a group all of its state changes no state. *)
Lemma with_full_state_ok t sg st :
  state_ok t → stands_for t sg st →
  state_ok (with_full_state t sg st) ∧ ∀ h st', stands_for t h st' → stands_for (with_full_state t sg st) h st'.
Proof.
  intros Hok Hst. set (t' := with_full_state t sg st). split.
  - split.
    + intros g p Hg He. cbn in *. apply lookup_delete_Some in He as [_ He]. by apply (so_edge _ Hok).
    + intros g Hg. cbn in *. apply (so_fresh _ Hok). rewrite dom_delete_L, dom_insert_L in Hg.
      destruct Hg as [?|[[? _]%elem_of_difference|[->%elem_of_singleton|?]%elem_of_union]]; [by left|by right; left|left; apply Hst|by right; right].
    + intros g p. cbn. intros [_ He]%lookup_delete_Some. by apply (so_down _ Hok).
  - intros h st' (Hh & gs & Hc & ->). split; [done|].
    assert (∀ g, group_rows t' g = if decide (g = sg) then st else group_rows t g) as Hrows.
    { intros g. unfold group_rows. cbn. case_decide as E; [subst; by rewrite lookup_insert_eq|by rewrite lookup_insert_ne]. }
    clear Hh. induction Hc as [h Hh|h p gs Hh Hc IH].
    + exists [h]. split.
      * constructor. cbn. destruct (decide (h = sg)) as [->|]; [apply lookup_delete_eq|by rewrite lookup_delete_ne].
      * cbn [chain_state foldr]. rewrite Hrows. case_decide as E; [|done]. subst h. destruct Hst as (_ & gs & Hc & ->).
        inversion Hc; subst; [|congruence]. cbn [chain_state foldr]. by rewrite !(right_id_L ∅ (∪)).
    + destruct (decide (h = sg)) as [->|Hne].
      * exists [sg]. split; [constructor; cbn; apply lookup_delete_eq|].
        assert (chain_state t' [sg] = st) as ->.
        { cbn [chain_state foldr]. by rewrite Hrows, decide_True, (right_id_L ∅ (∪)). }
        destruct Hst as (_ & gs' & Hc' & ->). by rewrite (chain_det t sg (sg :: gs) gs') by (done || by econstructor).
      * destruct IH as (gs' & Hc' & Hs). exists (h :: gs'). split; [econstructor; [|done]; cbn; by rewrite lookup_delete_ne|].
        cbn [chain_state foldr]. fold (chain_state t gs) (chain_state t' gs'). by rewrite Hrows, decide_False, Hs.
Qed.

(** A group that was deleted before can be read, too, *)
Lemma recursive_groups_total t fuel g : state_ok t → (edges_below t g < fuel)%nat → is_Some (recursive_groups t fuel g).
Proof.
  intros Hok. revert g. induction fuel as [|fuel IH]; intros g Hf; [lia|]. cbn [recursive_groups]. destruct (state_group_edges t !! g) as [p|] eqn:E; [|by eexists].
  destruct (IH p) as [gs ->]; [pose proof (edges_below_step t g p E (so_down _ Hok g p E)); lia|]. by eexists.
Qed.
Lemma sqlite_loop_total t f fuel g acc : state_ok t → (edges_below t g < fuel)%nat → is_Some (sqlite_loop t f fuel (Some g) acc).
Proof.
  intros Hok. revert g acc. induction fuel as [|fuel IH]; intros g acc Hf; [lia|]. destruct g as [|g|g]; cbn [sqlite_loop]; [by eexists| |].
  all: destruct (bool_decide _); [by eexists|]; match goal with |- context [state_group_edges ?t !! ?h] => destruct (state_group_edges t !! h) as [p|] eqn:E end;
    [apply IH; pose proof (edges_below_step t _ p E (so_down _ Hok _ p E)); lia|destruct fuel; by eexists].
Qed.
Lemma group_state_total e t g : state_ok t → ∃ st, group_state e t all g = Ok st.
Proof.
  intros Hok. destruct e; cbn [group_state].
  - unfold postgres_state. destruct (recursive_groups_total t (chain_fuel t) g Hok (edges_below_fuel t g)) as [gs ->]. cbn [fueled mbind py_bind].
    by eexists.
  - unfold sqlite_state. destruct (sqlite_loop_total t all (chain_fuel t) g ∅ Hok (edges_below_fuel t g)) as [st ->]. by eexists.
Qed.

(** and what is written for it changes no state. *)
Lemma dead_full_state_ok t sg st :
  state_ok t → 0 < sg < next_state_group t → sg ∉ dom (state_groups t) →
  state_ok (with_full_state t sg st) ∧ ∀ h st', stands_for t h st' → stands_for (with_full_state t sg st) h st'.
Proof.
  intros Hok Hsg Hdead. set (t' := with_full_state t sg st). split.
  - split.
    + intros g p Hg He. cbn in *. apply lookup_delete_Some in He as [_ He]. by apply (so_edge _ Hok).
    + intros g Hg. cbn in *. rewrite dom_delete_L, dom_insert_L in Hg.
      destruct Hg as [?|[[? _]%elem_of_difference|[->%elem_of_singleton|?]%elem_of_union]]; [..|done|]; apply (so_fresh _ Hok); [by left|by right; left|by right; right].
    + intros g p. cbn. intros [_ He]%lookup_delete_Some. by apply (so_down _ Hok).
  - intros h st' (Hh & gs & Hc & ->). split; [done|]. exists gs. induction Hc as [h He|h p gs He Hc IH].
    all: assert (sg ≠ h) as Hne by (intros ->; done).
    + split; [constructor; cbn; by rewrite lookup_delete_ne|]. cbn [chain_state foldr]. unfold group_rows. cbn. by rewrite lookup_insert_ne.
    + destruct (so_edge _ Hok h p Hh He) as [_ Hp]. destruct (IH Hp) as [Hc' Hs]. split; [econstructor; [cbn; by rewrite lookup_delete_ne|done]|].
      cbn [chain_state foldr]. fold (chain_state t gs) (chain_state t' gs). rewrite Hs. f_equal. unfold group_rows. cbn. by rewrite lookup_insert_ne.
Qed.

Lemma de_delta_keeps e t g :
  state_ok t → 0 < g < next_state_group t →
  ∃ st, de_delta e t g = Ok (with_full_state t g st) ∧ state_ok (with_full_state t g st) ∧ ∀ h st', stands_for t h st' → stands_for (with_full_state t g st) h st'.
Proof.
  intros Hok Hg. destruct (decide (g ∈ dom (state_groups t))) as [Hd|Hd].
  - destruct (stands_for_exists t Hok g Hd) as [st Hst]. exists st. split; [by apply de_delta_spec|by apply with_full_state_ok].
  - destruct (group_state_total e t g Hok) as [st Hst]. exists st. split; [unfold de_delta; by rewrite Hst|by apply dead_full_state_ok].
Qed.

Lemma de_deltas_spec e l t :
  state_ok t → (∀ g, g ∈ l → 0 < g < next_state_group t) →
  ∃ t', py_fold (de_delta e) t l = Ok t' ∧ state_ok t' ∧ (∀ h st, stands_for t h st → stands_for t' h st) ∧
    state_groups t' = state_groups t ∧ next_state_group t' = next_state_group t ∧
    (∀ g p, state_group_edges t' !! g = Some p → state_group_edges t !! g = Some p ∧ g ∉ l).
Proof.
  revert t. induction l as [|g l IH]; intros t Hok Hl; cbn [py_fold].
  { exists t. split_and!; try done. intros g p Hg. split; [done|apply not_elem_of_nil]. }
  destruct (de_delta_keeps e t g Hok) as (st & -> & Hok1 & Hk1); [apply Hl; by left|]. cbn [mbind py_bind].
  destruct (IH (with_full_state t g st) Hok1) as (t' & Hf & Hok' & Hk' & Hgr & Hnx & Hed); [intros; apply Hl; by right|].
  exists t'. split_and!; [done|done| |done|done|].
  - intros h st' Hh. by apply Hk', Hk1.
  - intros h p Hh. destruct (Hed h p Hh) as [He Hn]. cbn in He. apply lookup_delete_Some in He as [Hne He]. split; [done|].
    intros [->|?]%elem_of_cons; done.
Qed.

(** What the deletion does to tables where no edge leads from a remaining to a deleted group *)
Lemma deletion_spec t del t' :
  state_ok t → state_groups t' = filter (λ x, x.1 ∉ del) (state_groups t) → state_groups_state t' = filter (λ x, x.1 ∉ del) (state_groups_state t) →
  next_state_group t' = next_state_group t → (∀ g p, state_group_edges t' !! g = Some p → state_group_edges t !! g = Some p) →
  (∀ g, g ∉ del → state_group_edges t' !! g = state_group_edges t !! g) →
  (∀ g p, g ∉ del → g ∈ dom (state_groups t) → state_group_edges t !! g = Some p → p ∉ del) →
  state_ok t' ∧ ∀ g st, stands_for t' g st ↔ g ∉ (del : gset Z) ∧ stands_for t g st.
Proof.
  intros Hok Hgr Hrows Hnx Hsub Hkeep Hedge.
  assert (∀ g, g ∈ dom (state_groups t') ↔ g ∈ dom (state_groups t) ∧ g ∉ del) as Hdom.
  { intros g. rewrite Hgr, !elem_of_dom. split.
    - intros [v [Hv Hn]%map_lookup_filter_Some]. split; [by exists v|done].
    - intros [[v Hv] Hn]. exists v. by apply map_lookup_filter_Some. }
  assert (∀ g, g ∉ del → group_rows t' g = group_rows t g) as Hr.
  { intros g Hn. unfold group_rows. rewrite Hrows. destruct (state_groups_state t !! g) as [v|] eqn:Ev; [|by rewrite map_lookup_filter_None_2; [|left]].
    by rewrite (map_lookup_filter_Some_2 _ _ g v). }
  assert (state_ok t') as Hok'.
  { split.
    - intros g p [Hg Hn]%Hdom He. rewrite Hkeep in He by done. destruct (so_edge _ Hok g p Hg He). split; [done|]. apply Hdom. split; [done|by eapply Hedge].
    - intros g Hg. rewrite Hnx. apply (so_fresh _ Hok). destruct Hg as [[Hg _]%Hdom|[[p Hg]%elem_of_dom|Hg]]; [by left|right; left; apply elem_of_dom; eauto|].
      right. right. rewrite Hrows in Hg. apply elem_of_dom in Hg as [v [Hv _]%map_lookup_filter_Some]. by apply elem_of_dom.
    - intros g p He%Hsub. by apply (so_down _ Hok). }
  split; [done|].
  assert (∀ g st, g ∉ del → stands_for t g st → stands_for t' g st) as Hto.
  { intros g st Hg (Hgd & gs & Hc & ->). split; [by apply Hdom|]. exists gs. induction Hc as [g He|g p gs He Hc IH].
    - split; [constructor; by rewrite Hkeep|]. cbn [chain_state foldr]. by rewrite Hr.
    - destruct (so_edge _ Hok g p Hgd He) as [_ Hpd]. destruct (IH (Hedge g p Hg Hgd He) Hpd) as [Hc' Hs].
      split; [by econstructor; [rewrite Hkeep|]|]. cbn [chain_state foldr]. fold (chain_state t gs) (chain_state t' gs). by rewrite Hr, Hs. }
  intros g st. split.
  - intros Hst. pose proof Hst as [Hg _]. apply Hdom in Hg as [Hg Hn]. split; [done|].
    destruct (stands_for_exists t Hok g Hg) as [st0 H0]. by rewrite (stands_for_det t' g st st0 Hst (Hto g st0 Hn H0)).
  - intros [Hn Hst]. by apply Hto.
Qed.

Lemma purge_spec e t (del : gset Z) :
  state_ok t →
  ∃ t', purge_unreferenced_state_groups e t del = Ok t' ∧ state_ok t' ∧ next_state_group t' = next_state_group t ∧
    (∀ g st, stands_for t' g st ↔ g ∉ del ∧ stands_for t g st).
Proof.
  intros Hok. unfold purge_unreferenced_state_groups.
  destruct (de_deltas_spec e (elements (remaining_groups t del)) t Hok) as (t1 & -> & Hok1 & Hk1 & Hgr & Hnx & Hed).
  { intros g Hg%elem_of_elements. apply (so_fresh _ Hok). right. left. unfold remaining_groups in Hg. apply elem_of_dom in Hg as [p [Hp _]%map_lookup_filter_Some]. by apply elem_of_dom. }
  cbn [mbind py_bind]. eexists. split; [done|]. set (t' := MkState _ _ _ _).
  destruct (deletion_spec t1 del t' Hok1) as [Hok' Hst]; try done.
  { intros g p Hg Hgd Hp Hpdel. destruct (Hed g p Hp) as [He Hn]. rewrite elem_of_elements in Hn. apply Hn. unfold remaining_groups.
    apply elem_of_dom. exists p. by apply map_lookup_filter_Some. }
  split; [done|]. split; [done|]. intros g st. rewrite Hst. split; intros [Hn H1]; (split; [done|]); [|by apply Hk1].
  pose proof H1 as [Hg _]. rewrite Hgr in Hg. destruct (stands_for_exists t Hok g Hg) as [st0 H0].
  by rewrite (stands_for_det t1 g st st0 H1 (Hk1 g st0 H0)).
Qed.

Lemma purge_room_spec t (del : gset Z) :
  state_ok t → (∀ g p, g ∉ del → g ∈ dom (state_groups t) → state_group_edges t !! g = Some p → p ∉ del) →
  state_ok (purge_room_state t del) ∧ ∀ g st, stands_for (purge_room_state t del) g st ↔ g ∉ del ∧ stands_for t g st.
Proof.
  intros Hok Hedge. apply deletion_spec; try done.
  - cbn. intros g p [? _]%map_lookup_filter_Some. done.
  - cbn. intros g Hn. destruct (state_group_edges t !! g) as [p|] eqn:E; [by apply map_lookup_filter_Some|]. apply map_lookup_filter_None. by left.
Qed.

(** ** Reencoding *)

Lemma last_group_before_spec t g room : let p := last_group_before t g room in p = 0 ∨ p < g ∧ p ∈ dom (state_groups t).
Proof.
  unfold last_group_before. set (m := filter _ _).
  assert (∀ x, x ∈ map fst (map_to_list m) → x < g ∧ x ∈ dom (state_groups t)) as Hin.
  { intros x ([x' v] & -> & Hx%elem_of_map_to_list)%elem_of_map_list. apply map_lookup_filter_Some in Hx as [Hx [Hlt _]].
    split; [done|]. apply elem_of_dom. eauto. }
  destruct (map fst (map_to_list m)) as [|x l]; [by left|right]. induction l as [|y l IH]; cbn [foldr]; [apply Hin; by left|].
  destruct (Z.max_spec y (foldr Z.max x l)) as [[_ ->]|[_ ->]]; [|apply Hin; right; by left].
  apply IH. intros z [->|Hz]%elem_of_cons; apply Hin; [by left|right; by right].
Qed.

Lemma first_group_after_spec t last max g room : first_group_after t last max = Some (g, room) → g ∈ dom (state_groups t).
Proof.
  unfold first_group_after. set (m := filter _ _). destruct (merge_sort earlier (map_to_list m)) as [|x l] eqn:E; [done|]. intros [= <- _].
  assert (x ∈ map_to_list m) as Hx. { rewrite <- (merge_sort_Permutation earlier). rewrite E. by left. }
  destruct x as [g' v]. apply elem_of_map_to_list, map_lookup_filter_Some in Hx as [Hx _]. apply elem_of_dom. eauto.
Qed.

(** A group that is stored whole and then as a difference to an earlier one stands for the
    same state, and so do all groups. *)
Lemma reencoded_ok t g p prev curr :
  state_ok t → state_group_edges t !! g = None → p < g → stands_for t p prev → stands_for t g curr → dom prev ⊆ dom curr →
  let t' := MkState (state_groups t) (<[g := p]> (state_group_edges t))
              (<[g := filter (λ x, prev !! x.1 ≠ Some x.2) curr]> (state_groups_state t)) (next_state_group t) in
  state_ok t' ∧ ∀ h st, stands_for t h st → stands_for t' h st.
Proof.
  intros Hok Hnone Hlt (Hpd & ps & Hpc & Hps) (Hgd & gs & Hgc & Hgs) Hsub t'.
  assert (∀ h, h ≠ g → state_group_edges t' !! h = state_group_edges t !! h ∧ group_rows t' h = group_rows t h) as Hother.
  { intros h Hne. unfold group_rows. cbn. by rewrite !lookup_insert_ne. }
  assert (∀ h hs, chain t h hs → h ∈ dom (state_groups t) → h < g → chain t' h hs ∧ chain_state t' hs = chain_state t hs) as Hbelow.
  { intros h hs Hc Hd Hh. induction Hc as [h He|h q hs He Hc IH]; destruct (Hother h) as [Ho Hr]; try lia.
    - split; [constructor; by rewrite Ho|]. cbn [chain_state foldr]. by rewrite Hr.
    - destruct (so_edge _ Hok h q Hd He) as [Hq Hqd]. destruct IH as [IH1 IH2]; [done|lia|]. split; [econstructor; [by rewrite Ho|done]|].
      cbn [chain_state foldr]. fold (chain_state t hs) (chain_state t' hs). by rewrite Hr, IH2. }
  destruct (Hbelow p ps Hpc Hpd Hlt) as [Hpc' Hps'].
  assert (chain t' g (g :: ps) ∧ chain_state t' (g :: ps) = curr) as [Hgc' Hgs'].
  { split; [econstructor; [cbn; by rewrite lookup_insert_eq|done]|]. cbn [chain_state foldr]. fold (chain_state t' ps). rewrite Hps', <- Hps.
    unfold group_rows. cbn. rewrite lookup_insert_eq. cbn. apply map_eq. intros k. rewrite lookup_union. destruct (curr !! k) as [v|] eqn:Ek.
    - destruct (decide (prev !! k = Some v)) as [Hk|Hk].
      + rewrite map_lookup_filter_None_2; [by rewrite Hk|]. right. intros w Hw. cbn. rewrite Ek in Hw. injection Hw as <-. intros Hn. by apply Hn.
      + rewrite (map_lookup_filter_Some_2 _ _ k v) by done. by destruct (prev !! k).
    - rewrite map_lookup_filter_None_2 by (by left). assert (prev !! k = None) as ->; [|done]. apply not_elem_of_dom. intros Hk%Hsub.
      apply elem_of_dom in Hk as [? ?]. congruence. }
  split.
  - split; cbn.
    + intros h q Hd Hq. destruct (decide (h = g)) as [->|Hne]; [rewrite lookup_insert_eq in Hq; by injection Hq as <-|].
      rewrite lookup_insert_ne in Hq by done. by apply (so_edge _ Hok).
    + intros h Hh. rewrite !dom_insert_L in Hh. apply (so_fresh _ Hok). clear -Hh Hgd. set_solver.
    + intros h q [[<- <-]|[_ Hq]]%lookup_insert_Some; [done|]. by apply (so_down _ Hok).
  - intros h st (Hd & hs & Hc & ->). split; [done|]. induction Hc as [h He|h q hs He Hc IH].
    + destruct (decide (h = g)) as [->|Hne].
      * exists (g :: ps). split; [done|]. rewrite Hgs', Hgs. by rewrite (chain_det _ _ _ _ Hgc (chain_end t g He)).
      * destruct (Hother h Hne) as [Ho Hr]. exists [h]. split; [constructor; by rewrite Ho|]. cbn [chain_state foldr]. by rewrite Hr.
    + destruct (so_edge _ Hok h q Hd He) as [_ Hqd]. destruct (IH Hqd) as (hs' & Hc' & Hs). destruct (Hother h) as [Ho Hr]; [congruence|].
      exists (h :: hs'). split; [econstructor; [by rewrite Ho|done]|].
      cbn [chain_state foldr]. fold (chain_state t hs) (chain_state t' hs'). by rewrite Hr, Hs.
Qed.

(** What changes only the encoding *)
Definition same_states (t t' : state_tables) : Prop :=
  state_ok t' ∧ state_groups t' = state_groups t ∧ next_state_group t' = next_state_group t ∧ ∀ h st, stands_for t h st → stands_for t' h st.

Lemma same_states_trans t1 t2 t3 : same_states t1 t2 → same_states t2 t3 → same_states t1 t3.
Proof. intros (_ & G1 & N1 & S1) (O2 & G2 & N2 & S2). split_and!; [done|congruence|congruence|]. auto. Qed.

Lemma reencode_spec e t g p :
  state_ok t → state_group_edges t !! g = None → g ∈ dom (state_groups t) → p < g → p ∈ dom (state_groups t) →
  ∃ t', reencode e t g p = Ok t' ∧ same_states t t'.
Proof.
  intros Hok Hnone Hg Hlt Hp. destruct (stands_for_exists t Hok p Hp) as [prev Hprev]. destruct (stands_for_exists t Hok g Hg) as [curr Hcurr].
  unfold reencode. rewrite (group_state_spec e t all p prev Hok Hprev), (group_state_spec e t all g curr Hok Hcurr) by (exists ("", ""); apply contains_all).
  cbn [mbind py_bind]. rewrite !filter_state_all. case_bool_decide as Hsub; [|by exists t]. eexists. split; [done|].
  destruct (reencoded_ok t g p prev curr Hok Hnone Hlt Hprev Hcurr Hsub) as [Hok' Hst]. by split_and!.
Qed.

Lemma deduplicate_spec e t last max n :
  state_ok t → ∃ finished t' last', deduplicate_loop e t last max n = Ok (finished, t', last') ∧ same_states t t'.
Proof.
  revert t last. induction n as [|n IH]; intros t last Hok; cbn [deduplicate_loop]; [by eexists _, t, _|].
  destruct (first_group_after t last max) as [[g room]|] eqn:Ef; [|by eexists _, t, _].
  pose proof (first_group_after_spec t last max g room Ef) as Hg. destruct (so_fresh _ Hok g); [by left|]. destruct g as [|g|g]; [lia| |lia].
  case_bool_decide as He; [by eexists _, t, _|]. apply not_elem_of_dom in He.
  set (p := last_group_before t (Z.pos g) room). pose proof (last_group_before_spec t (Z.pos g) room) as Hp. fold p in Hp. cbv zeta in Hp.
  assert (∃ t1, (if p =? 0 then Ok t else
      potential_hops ← count_state_group_hops e t p;
      if MAX_STATE_DELTA_HOPS <=? potential_hops then Ok t else reencode e t (Z.pos g) p) = Ok t1 ∧ same_states t t1) as (t1 & -> & Hsame).
  { destruct (Z.eqb_spec p 0); [by exists t|]. destruct Hp as [?|[Hlt Hp]]; [done|]. destruct (chain_exists t Hok p Hp) as [ps Hps].
    rewrite (count_hops_spec e t p ps Hok Hps Hp). cbn [mbind py_bind]. destruct (_ <=? _); [by exists t|]. by apply reencode_spec. }
  cbn [mbind py_bind]. destruct (IH t1 (Z.pos g)) as (fin & t' & last' & -> & Hsame'); [apply Hsame|]. eexists _, t', _. split; [done|].
  by eapply same_states_trans.
Qed.

(** ** What a purge of history finds *)

Lemma get_previous_groups_img t X : map_img (get_previous_state_groups t X) ⊆ X.
Proof. intros p (g & Hg)%elem_of_map_img. by apply map_lookup_filter_Some in Hg as [_ ?]. Qed.

(** The search never gets to other groups than those it starts with. *)
Lemma find_unreferenced_loop_spec t refs fuel referenced seen next :
  next ⊆ seen → (size next ≤ fuel)%nat → find_unreferenced_loop t refs fuel referenced seen next = Some (seen ∖ (referenced ∪ (next ∩ refs))).
Proof.
  revert referenced next. induction fuel as [|fuel IH]; intros referenced next Hsub Hf; cbn [find_unreferenced_loop].
  { assert (next = ∅) as -> by (apply leibniz_equiv, size_empty_inv; lia). rewrite decide_True by done. f_equal. clear. set_solver. }
  destruct (decide (next = ∅)) as [->|Hne]; [f_equal; clear; set_solver|].
  set (split := if bool_decide _ then _ else _). 
  assert (split.1 ∪ split.2 = next ∧ (size split.2 < size next)%nat) as [Hsplit Hsize].
  { unfold split. case_bool_decide as Hlt; cbn [fst snd].
    - split; [apply (right_id_L ∅ (∪))|]. rewrite size_empty. apply Nat.neq_0_lt_0. by intros ?%size_empty_inv%leibniz_equiv.
    - set (cur := list_to_set (take 100 (elements next)) : gset Z). assert (cur ⊆ next) as Hcur.
      { intros x Hx%elem_of_list_to_set. apply elem_of_elements. eapply elem_of_submseteq; [done|]. apply sublist_submseteq, sublist_take. }
      split; [clear -Hcur; rewrite union_comm_L, difference_union_L; set_solver|]. apply subset_size. split; [clear; set_solver|].
      intros Hsup. destruct (elements next) as [|x l] eqn:El; [apply Hne; by apply leibniz_equiv, elements_empty_inv|].
      assert (x ∈ cur) as Hx by (unfold cur; cbn [take]; rewrite list_to_set_cons; clear; set_solver).
      specialize (Hsup x (Hcur x Hx)). clear -Hx Hsup. set_solver. }
  destruct split as [cur rest]. cbn [fst snd] in *.
  assert (map_img (get_previous_state_groups t (cur ∖ get_referenced_state_groups refs cur)) ∖ seen = ∅) as ->.
  { pose proof (get_previous_groups_img t (cur ∖ get_referenced_state_groups refs cur)) as Hi. clear -Hi Hsub Hsplit. set_solver. }
  rewrite !(right_id_L ∅ (∪)). rewrite IH; [|clear -Hsub Hsplit; set_solver|lia]. f_equal. unfold get_referenced_state_groups. clear -Hsplit. set_solver.
Qed.
