(* ===== verification/StateGroupCache.v ===== *)
(** * The state group store: [StateGroupDataStore] of [synapse/storage/databases/state/store.py]

    The tables of [StateGroups] with the two caches in front of them, one for the
    membership events of a group and one for the rest of its state.  A read that finds
    something missing waits for the database before it fills the caches; it is split
    there, and other operations may come in between.

    State groups are immutable: a group stands for the same state until it is deleted,
    and a read gives that state, filtered, wherever it is taken from. *)

From S2P Require Import Prelude PyData RoomVersions Ids Events EventAuth StateFilters IterUtils LinkedList CacheStore LruCache LruCacheFacts TreeCache DictionaryCache StateGroups StateGroupFacts.

Open Scope Z_scope.

Section Store.
Context {K S : Type} `{Countable K} `{!CacheStore K S} `{!KeyScheme Z (string * string) K}.
Abbreviation cache_type := (DictionaryCache (DKT := string * string) (DV := string) (K := K) (S := S)).

Record sg_store : Type := MkStore {
  sg_tables : state_tables;
  state_group_cache : cache_type;
  state_group_members_cache : cache_type;
}.

Definition is_member_key (key : string * string) : bool := bool_decide (key.1 = EventTypes.Member).
Definition member_part (st : state_ids) : state_ids := filter (λ x, is_member_key x.1 = true) st.
Definition non_member_part (st : state_ids) : state_ids := filter (λ x, is_member_key x.1 = false) st.

(** [_get_state_groups_from_groups]: in chunks of 100 *)
Definition get_state_groups_from_groups (e : engine) (t : state_tables) (groups : list Z) (f : StateFilter) : py (gmap Z state_ids) :=
  chunks ← chunk_seq groups 100;
  py_fold (λ results chunk, res ← get_state_groups_from_groups_txn e t chunk f; Ok (res ∪ results)) ∅ chunks.

(** [_get_state_for_group_using_cache] *)
Definition get_state_for_group_using_cache (cache : cache_type) (group : Z) (f : StateFilter) : py (state_ids * bool * cache_type) :=
  let dict_keys := if has_wildcards f then None else Some (concrete_types f) in
  '(cache_entry, cache) ← dict_cache_get cache group dict_keys;
  let state_dict_ids := value cache_entry in
  if full cache_entry || is_full f then Ok (filter_state f state_dict_ids, full cache_entry, cache)
  else
    let missing_types :=
      has_wildcards f ||
      existsb (λ key, negb (bool_decide (key ∈ dom state_dict_ids)) && negb (bool_decide (key ∈ known_absent cache_entry))) (concrete_types f) in
    Ok (filter_state f state_dict_ids, negb missing_types, cache).

(** [_get_state_for_groups_using_cache] *)
Definition check_group (f : StateFilter) (acc : gmap Z state_ids * gset Z * cache_type) (group : Z) : py (gmap Z state_ids * gset Z * cache_type) :=
  let '(results, incomplete_groups, cache) := acc in
  '(state_dict_ids, got_all, cache) ← get_state_for_group_using_cache cache group f;
  Ok (<[group := state_dict_ids]> results, if (got_all : bool) then incomplete_groups else {[group]} ∪ incomplete_groups, cache).

Definition get_state_for_groups_using_cache (groups : gset Z) (cache : cache_type) (f : StateFilter) : py (gmap Z state_ids * gset Z * cache_type) :=
  py_fold (check_group f) (∅, ∅, cache) (elements groups).

(** [_insert_into_cache] *)
Definition insert_into_cache (s : sg_store) (group_to_state_dict : gmap Z state_ids) (f : StateFilter) (cache_seq_num_members cache_seq_num_non_members : Z)
    : py sg_store :=
  let '(member_filter, non_member_filter) := get_member_split f in
  let member_types := if is_full member_filter then None else Some (concrete_types member_filter) in
  let non_member_types := if is_full non_member_filter then None else Some (concrete_types non_member_filter) in
  py_fold (λ s x,
    members ← dict_cache_update (state_group_members_cache s) cache_seq_num_members x.1 (member_part x.2) member_types;
    non_members ← dict_cache_update (state_group_cache s) cache_seq_num_non_members x.1 (non_member_part x.2) non_member_types;
    Ok (MkStore (sg_tables s) non_members members)) s (map_to_list group_to_state_dict).

(** A read that looked into the caches and, if some groups are incomplete, waits for the
    database *)
Record pending_read : Type := Pending {
  pr_state : gmap Z state_ids;
  pr_incomplete : gset Z;
  pr_sequence_nm : Z;
  pr_sequence_m : Z;
}.

(** [_get_state_for_groups] up to the query *)
Definition get_state_for_groups_begin (s : sg_store) (groups : list Z) (f : StateFilter) : py (pending_read * sg_store) :=
  let '(member_filter, non_member_filter) := get_member_split f in
  '(non_member_state, incomplete_groups_nm, nm) ← get_state_for_groups_using_cache (list_to_set groups) (state_group_cache s) non_member_filter;
  '(member_state, incomplete_groups_m, m) ← get_state_for_groups_using_cache (list_to_set groups) (state_group_members_cache s) member_filter;
  state ← py_fold (λ state group,
    a ← match state !! group with Some st => Ok st | None => Raise KeyError end;
    b ← match member_state !! group with Some st => Ok st | None => Raise KeyError end;
    Ok (<[group := b ∪ a]> state)) non_member_state groups;
  Ok (Pending state (incomplete_groups_m ∪ incomplete_groups_nm) (dc_sequence nm) (dc_sequence m), MkStore (sg_tables s) nm m).

(** and from the query on *)
Definition get_state_for_groups_end (e : engine) (s : sg_store) (p : pending_read) (f : StateFilter) : py (gmap Z state_ids * sg_store) :=
  if bool_decide (pr_incomplete p = ∅) then Ok (pr_state p, s)
  else
    let db_state_filter := return_expanded f in
    group_to_state_dict ← get_state_groups_from_groups e (sg_tables s) (elements (pr_incomplete p)) db_state_filter;
    s ← insert_into_cache s group_to_state_dict db_state_filter (pr_sequence_m p) (pr_sequence_nm p);
    Ok ((filter_state f <$> group_to_state_dict) ∪ pr_state p, s).

Definition get_state_for_groups (e : engine) (s : sg_store) (groups : list Z) (f : StateFilter) : py (gmap Z state_ids * sg_store) :=
  '(p, s) ← get_state_for_groups_begin s groups f;
  get_state_for_groups_end e s p f.

(** [insert_full_state_txn] of [store_state_group] with what it calls afterwards *)
Definition insert_full_group (s : sg_store) (event_id room_id : string) (current_state_ids : state_ids) : py (Z * sg_store) :=
  let '(state_group, t) := insert_full_state (sg_tables s) event_id room_id current_state_ids in
  members ← dict_cache_update (state_group_members_cache s) (dc_sequence (state_group_members_cache s)) state_group (member_part current_state_ids) None;
  non_members ← dict_cache_update (state_group_cache s) (dc_sequence (state_group_cache s)) state_group (non_member_part current_state_ids) None;
  Ok (state_group, MkStore t non_members members).

Definition both_none : exn := PyException "current_state_ids and prev_group can't both be None".
Definition delta_none : exn := PyException "delta_ids is None when prev_group is not None".

(** The state for a full group, from the caller or from the previous group *)
Definition state_for_full_group (e : engine) (s : sg_store) (prev_group : option Z) (delta_ids current_state_ids : option state_ids) : py (state_ids * sg_store) :=
  match current_state_ids, prev_group, delta_ids with
  | Some current_state_ids, _, _ => Ok (current_state_ids, s)
  | None, Some prev_group, Some delta_ids =>
      '(groups, s) ← get_state_for_groups e s [prev_group] all;
      st ← match groups !! prev_group with Some st => Ok st | None => Raise KeyError end;
      Ok (delta_ids ∪ st, s)
  | None, _, _ => Raise AssertionError
  end.

Definition store_state_group (e : engine) (s : sg_store) (event_id room_id : string) (prev_group : option Z)
    (delta_ids current_state_ids : option state_ids) : py (Z * sg_store) :=
  raise_if (negb (bool_decide (is_Some prev_group)) && negb (bool_decide (is_Some current_state_ids))) both_none ;;
  raise_if (bool_decide (is_Some prev_group) && negb (bool_decide (is_Some delta_ids))) delta_none ;;
  '(stored, t) ← match prev_group, delta_ids with
                 | Some prev_group, Some delta_ids => insert_delta_group e (sg_tables s) event_id room_id prev_group delta_ids
                 | _, _ => Ok (None, sg_tables s)
                 end;
  let s := MkStore t (state_group_cache s) (state_group_members_cache s) in
  match stored with
  | Some state_group => Ok (state_group, s)
  | None =>
      '(current_state_ids, s) ← state_for_full_group e s prev_group delta_ids current_state_ids;
      insert_full_group s event_id room_id current_state_ids
  end.

Definition new_store (t : state_tables) : py sg_store :=
  nm ← new_dictionary_cache 50000;
  m ← new_dictionary_cache 500000;
  Ok (MkStore t nm m).
End Store.

(** ** Facts: parts and filters *)

Definition part (b : bool) (st : state_ids) : state_ids := if b then member_part st else non_member_part st.

Lemma part_lookup b st key : part b st !! key = if bool_decide (is_member_key key = b) then st !! key else None.
Proof.
  assert (∀ b', filter (λ x : (string * string) * string, is_member_key x.1 = b') st !! key =
                if bool_decide (is_member_key key = b') then st !! key else None) as Hf.
  { intros b'. case_bool_decide as E.
    - destruct (st !! key) as [v|] eqn:Ev; [by apply map_lookup_filter_Some|]. apply map_lookup_filter_None. by left.
    - apply map_lookup_filter_None. right. by intros v _. }
  destruct b; apply Hf.
Qed.

(** The halves of a filter, for the two parts of the state *)
Definition half (b : bool) (f : StateFilter) : StateFilter := if b then (get_member_split f).1 else (get_member_split f).2.

Lemma half_contains b f key : canonical f → is_member_key key = b → contains (half b f) key = contains f key.
Proof.
  intros Hf Hb. destruct key as [ty k]. destruct (get_member_split_spec f ty k Hf) as [H1 H2]. unfold is_member_key in Hb. cbn [fst] in Hb.
  destruct b; cbn [half]; to_prop; subst; [apply H1|by apply H2].
Qed.

Lemma halves_union f st : canonical f → filter_state (half true f) (part true st) ∪ filter_state (half false f) (part false st) = filter_state f st.
Proof.
  intros Hf. apply map_eq. intros key. rewrite lookup_union, !filter_state_lookup, !part_lookup.
  destruct (is_member_key key) eqn:E; cbn [bool_decide decide_rel bool_eq_dec decide]; [rewrite <- (half_contains true f key Hf E)|rewrite <- (half_contains false f key Hf E)];
    rewrite ?(bool_decide_eq_true_2 (true = true)), ?(bool_decide_eq_true_2 (false = false)), ?bool_decide_eq_false_2 by done;
    repeat case_match; rewrite ?(right_id_L None union), ?(left_id_L None union); done.
Qed.

(** A half that may miss something of a group comes from a filter that something passes. *)
Lemma half_nonempty b f : canonical f → has_wildcards (half b f) = true ∨ (∃ key, key ∈ concrete_types (half b f)) → ∃ key, contains f key = true.
Proof.
  intros Hf Hh.
  assert (include_others f = true → ∃ key, contains f key = true) as Hio.
  { intros Hio. exists (fresh (dom (types f)), ""). unfold contains. cbn [fst snd].
    assert (types f !! fresh (dom (types f)) = None) as -> by apply not_elem_of_dom, is_fresh. done. }
  assert (∀ t, types f !! t = Some None → ∃ key, contains f key = true) as Hwild.
  { intros t Ht. exists (t, ""). unfold contains. cbn [fst snd]. by rewrite Ht. }
  assert (∀ t ks k, types f !! t = Some (Some ks) → k ∈ ks → ∃ key, contains f key = true) as Hkey.
  { intros t ks k Ht Hk. exists (t, k). unfold contains. cbn [fst snd]. rewrite Ht. by apply bool_decide_eq_true_2. }
  destruct b; cbn [half] in Hh; unfold get_member_split in Hh; cbn [fst snd] in Hh.
  - destruct (types f !! EventTypes.Member) as [[ks|]|] eqn:E; [|by eapply Hwild|destruct (include_others f) eqn:Eo; [by apply Hio|]].
    + destruct Hh as [[?|[t Ht]]%has_wildcards_true|[[t k] (ks' & Ht & Hk)%elem_of_concrete_types]]; [done| |];
        rewrite new_filter_types in Ht; destruct (decide (t = EventTypes.Member)) as [->|Hne];
        rewrite ?lookup_singleton_eq, ?lookup_singleton_ne in Ht by done; simplify_eq. by eapply Hkey.
    + destruct Hh as [[?|[t Ht]]%has_wildcards_true|[[t k] (ks' & Ht & Hk)%elem_of_concrete_types]]; [done| |];
        unfold none in Ht; by rewrite new_filter_types, lookup_empty in Ht.
  - destruct Hh as [[?|[t Ht]]%has_wildcards_true|[[t k] (ks' & Ht & Hk)%elem_of_concrete_types]]; [by apply Hio| |];
      rewrite new_filter_types in Ht; destruct (decide (t = EventTypes.Member)) as [->|Hne];
      rewrite ?lookup_delete_eq, ?lookup_delete_ne in Ht by done; try done.
    + destruct (types f !! t) as [[]|] eqn:E; [done| |done]. by eapply Hwild.
    + destruct (types f !! t) as [[]|] eqn:E; [|by destruct (include_others f)|done]. simplify_eq. by eapply Hkey.
Qed.

(** ** Facts: reading the tables *)

Section Tables.
Context (e : engine) (t : state_tables) (f : StateFilter) (hist : gmap Z state_ids).
Context (Hok : state_ok t) (Hhist : ∀ g st, stands_for t g st → hist !! g = Some st) (Hf : ∃ key, contains f key = true).

Lemma from_groups_txn_spec (l : list Z) (acc : gmap Z state_ids) :
  (∀ g, g ∈ l → g ∈ dom (state_groups t)) →
  ∃ res, py_fold (λ res g, st ← group_state e t f g; Ok (<[g := st]> res)) acc l = Ok res ∧
    ∀ g, res !! g = if decide (g ∈ l) then filter_state f <$> hist !! g else acc !! g.
Proof using Hok Hhist Hf.
  revert acc. induction l as [|h l IH]; intros acc Hl; cbn [py_fold]; [by exists acc|].
  destruct (stands_for_exists t Hok h) as [st Hst]; [apply Hl; by left|]. rewrite (group_state_spec e t f h st Hok Hst Hf). cbn [mbind py_bind].
  destruct (IH (<[h := filter_state f st]> acc)) as (res & -> & Hres); [intros; apply Hl; by right|]. exists res. split; [done|]. intros g. rewrite Hres.
  destruct (decide (g ∈ l)) as [Hg|Hg]; [by rewrite decide_True by (by right)|]. destruct (decide (g = h)) as [->|Hne].
  - rewrite lookup_insert_eq, decide_True by by left. by rewrite (Hhist h st Hst).
  - rewrite lookup_insert_ne, decide_False; [done| |done]. by intros [?|?]%elem_of_cons.
Qed.

Lemma chunks_spec (chunks : list (list Z)) (acc : gmap Z state_ids) :
  (∀ g, g ∈ concat chunks → g ∈ dom (state_groups t)) →
  ∃ res, py_fold (λ results chunk, res ← get_state_groups_from_groups_txn e t chunk f; Ok (res ∪ results)) acc chunks = Ok res ∧
    ∀ g, res !! g = if decide (g ∈ concat chunks) then filter_state f <$> hist !! g else acc !! g.
Proof using Hok Hhist Hf.
  revert acc. induction chunks as [|c chunks IH]; intros acc Hl; cbn [py_fold concat]; [by exists acc|]. cbn [concat] in Hl.
  destruct (from_groups_txn_spec c ∅) as (res & Hres & Hlook); [intros g Hg; apply Hl, elem_of_app; by left|].
  assert (get_state_groups_from_groups_txn e t c f = Ok res) as -> by exact Hres. cbn [mbind py_bind].
  destruct (IH (res ∪ acc)) as (res' & -> & Hlook'); [intros g Hg; apply Hl, elem_of_app; by right|]. exists res'. split; [done|]. intros g.
  rewrite Hlook', lookup_union, Hlook, lookup_empty. destruct (decide (g ∈ concat chunks)) as [Hg|Hg].
  { rewrite decide_True; [done|]. apply elem_of_app. by right. }
  destruct (decide (g ∈ c)) as [Hc|Hc].
  - rewrite decide_True by (apply elem_of_app; by left).
    destruct (stands_for_exists t Hok g) as [st Hst]; [apply Hl, elem_of_app; by left|]. rewrite (Hhist g st Hst). cbn. by destruct (acc !! g).
  - rewrite decide_False; [by rewrite (left_id_L None union)|]. by intros [?|?]%elem_of_app.
Qed.

Lemma from_groups_spec (groups : list Z) :
  (∀ g, g ∈ groups → g ∈ dom (state_groups t)) →
  ∃ res, get_state_groups_from_groups e t groups f = Ok res ∧
    ∀ g, res !! g = if decide (g ∈ groups) then filter_state f <$> hist !! g else None.
Proof using Hok Hhist Hf.
  intros Hg. unfold get_state_groups_from_groups. destruct (chunk_seq_spec groups 100) as (chunks & -> & <-); [lia|]. cbn [mbind py_bind].
  destruct (chunks_spec chunks ∅ Hg) as (res & -> & Hres). exists res. split; [done|]. intros g. by rewrite Hres, lookup_empty.
Qed.
End Tables.

(** ** Facts: adding groups *)

(** One new group, and all others as before *)
Record adds_group (t t' : state_tables) (g : Z) (st : state_ids) : Prop := {
  ag_ok : state_ok t';
  ag_next : g = next_state_group t ∧ next_state_group t' = next_state_group t + 1;
  ag_new : stands_for t' g st;
  ag_others : ∀ h st', h ≠ g → stands_for t' h st' ↔ stands_for t h st';
}.

Lemma adds_group_stands t t' g st h st' : adds_group t t' g st → stands_for t h st' → state_ok t → stands_for t' h st'.
Proof.
  intros Ha Hst Ht. apply (ag_others _ _ _ _ Ha); [|done]. intros ->. destruct (ag_next _ _ _ _ Ha) as [-> _], Hst as [Hd _].
  destruct (so_fresh _ Ht (next_state_group t)); [by left|lia].
Qed.

Lemma add_next_group t row prev rows st :
  state_ok t → 0 < next_state_group t → match prev with Some p => stands_for t p st | None => st = ∅ end →
  adds_group t (add_group (take_group_ids t 1) (next_state_group t) row prev rows) (next_state_group t) (rows ∪ st).
Proof.
  intros Ht Hpos Hprev. pose proof (take_ids_ok t 1 Ht ltac:(lia)) as Hok. pose proof (next_fresh t 1 Ht ltac:(lia)) as Hfresh.
  assert (∀ p, prev = Some p → p ∈ dom (state_groups (take_group_ids t 1)) ∧ p < next_state_group t) as Hp.
  { intros p ->. destruct Hprev as [Hd _]. split; [done|]. destruct (so_fresh _ Ht p); [by left|done]. }
  assert (0 < next_state_group t < next_state_group (take_group_ids t 1)) as Hrange by (cbn; lia).
  split; [by apply add_group_ok|done| |].
  - apply add_group_new; try done. destruct prev as [p|]; [by apply take_ids_stands|done].
  - intros h st' Hne. rewrite add_group_keeps by done. apply take_ids_stands.
Qed.

Lemma insert_full_spec t event_id room_id st :
  state_ok t → 0 < next_state_group t → adds_group t (insert_full_state t event_id room_id st).2 (insert_full_state t event_id room_id st).1 st.
Proof. intros Ht Hpos. rewrite <- (right_id_L ∅ (∪) st) at 3. by apply add_next_group. Qed.

Lemma insert_delta_spec e t event_id room_id p delta st :
  state_ok t → stands_for t p st →
  ∃ og t', insert_delta_group e t event_id room_id p delta = Ok (og, t') ∧
    match og with Some g => adds_group t t' g (delta ∪ st) | None => t' = t end.
Proof.
  intros Ht Hp. pose proof Hp as (Hd & gs & Hc & _). destruct (so_fresh _ Ht p); [by left|]. unfold insert_delta_group.
  rewrite bool_decide_eq_true_2 by done. destruct (Z.eqb_spec p 0); [lia|]. cbn [negb orb]. rewrite (count_hops_spec e t p gs Ht Hc Hd).
  cbn [mbind py_bind raise_if]. destruct (_ <=? _); [by eexists _, _|]. eexists _, _. split; [done|]. apply add_next_group; [done|lia|done].
Qed.

(** ** Facts: the caches *)

Section Facts.
Context {K S : Type} `{Countable K} `{!CacheStore K S} `{!CacheStoreLaws K S} `{!KeyScheme Z (string * string) K} `{!KeySchemeLaws Z (string * string) K S}.
Abbreviation cache_type := (DictionaryCache (DKT := string * string) (DV := string) (K := K) (S := S)).
Abbreviation store := (sg_store (K := K) (S := S)).

(** What a cache knows of the groups there have been *)
Definition cache_ok (b : bool) (hist : gmap Z state_ids) (c : cache_type) : Prop := agrees (λ g, part b <$> hist !! g) c.

Lemma cache_ok_grow b hist hist' c : hist ⊆ hist' → cache_ok b hist c → cache_ok b hist' c.
Proof using Type.
  intros Hsub. apply agrees_weaken. intros g m Hm. apply fmap_Some in Hm as (st & Hg & ->). by rewrite (lookup_weaken _ _ _ _ Hg Hsub).
Qed.

Lemma using_cache_spec b hist c g f :
  cache_ok b hist c →
  ∃ st got c', get_state_for_group_using_cache c g f = Ok (st, got, c') ∧ cache_ok b hist c' ∧ dc_sequence c' = dc_sequence c ∧
    (got = true → ∀ full, hist !! g = Some full → st = filter_state f (part b full)) ∧
    (got = false → has_wildcards f = true ∨ ∃ key, key ∈ concrete_types f).
Proof using KeySchemeLaws0.
  intros Hc. unfold get_state_for_group_using_cache. set (ks := if has_wildcards f then None else Some (concrete_types f)).
  destruct (dict_get_spec _ c g ks Hc) as (en & c' & -> & Hc' & Hseq & Hen). cbn [mbind py_bind].
  assert (∀ st, hist !! g = Some st → entry_sound ks (part b st) en) as Hsound by (intros st Hst; apply Hen; by rewrite Hst). clear Hen.
  assert (∀ st, hist !! g = Some st → (∀ key, contains f key = true → value en !! key = part b st !! key) →
    filter_state f (value en) = filter_state f (part b st)) as Hext.
  { intros st Hst Hk. apply map_eq. intros key. rewrite !filter_state_lookup. destruct (contains f key) eqn:E; [by apply Hk|done]. }
  assert (∀ key, has_wildcards f = false → contains f key = true → key ∈ concrete_types f) as Hconc.
  { intros [ty k] Hw Hk. apply elem_of_concrete_types. unfold contains in Hk. cbn [fst snd] in Hk.
    destruct (types f !! ty) as [[ks'|]|] eqn:E; [exists ks'; split; [done|by to_prop]| |].
    - assert (has_wildcards f = true) by (apply has_wildcards_true; eauto). congruence.
    - assert (has_wildcards f = true) by (apply has_wildcards_true; eauto). congruence. }
  destruct (full en || is_full f) eqn:Efull.
  - eexists _, _, c'. split; [done|]. split_and!; [done|done| |].
    + intros Hgot st Hst. apply Hext; [done|]. intros key Hk. pose proof (es_full _ _ _ (Hsound st Hst) Hgot) as Hv. subst ks.
      destruct (has_wildcards f) eqn:Ew; [by rewrite Hv|]. apply Hv. by apply Hconc.
    + intros Hgot. rewrite Hgot in Efull. cbn in Efull. left. apply has_wildcards_true. left. unfold is_full in Efull. by to_prop.
  - eexists _, _, c'. split; [done|]. split_and!; [done|done| |].
    + intros [Hw Hmiss]%negb_true_iff%orb_false_iff st Hst. apply Hext; [done|]. intros key Hk.
      pose proof (Hconc key Hw Hk) as Hin. apply not_true_iff_false in Hmiss.
      destruct (Hsound st Hst) as [Hv Ha _]. destruct (value en !! key) as [v|] eqn:Ev; [symmetry; by apply Hv|].
      destruct (decide (key ∈ known_absent en)) as [Hka|Hka]; [symmetry; by apply Ha|]. exfalso. apply Hmiss, existsb_exists. exists key.
      split; [by apply list_elem_of_In|]. rewrite !bool_decide_eq_false_2; [done|done|by apply not_elem_of_dom].
    + intros [?|(key & Hkey & _)%existsb_exists]%negb_false_iff%orb_true_iff; [by left|right; exists key; by apply list_elem_of_In].
Qed.

(** What the loop over the groups has found *)
Record groups_found (b : bool) (hist : gmap Z state_ids) (f : StateFilter) (groups : gset Z) (res : gmap Z state_ids) (inc : gset Z) : Prop := {
  gf_dom : dom res = groups;
  gf_incomplete : inc ⊆ groups;
  gf_state : ∀ g full, g ∈ groups → g ∉ inc → hist !! g = Some full → res !! g = Some (filter_state f (part b full));
  gf_missing : inc ≠ ∅ → has_wildcards f = true ∨ ∃ key, key ∈ concrete_types f;
}.

Lemma check_group_spec b hist f groups res inc c g :
  cache_ok b hist c → groups_found b hist f groups res inc → g ∉ groups →
  ∃ res' inc' c', check_group f (res, inc, c) g = Ok (res', inc', c') ∧ cache_ok b hist c' ∧ dc_sequence c' = dc_sequence c ∧
    groups_found b hist f (groups ∪ {[g]}) res' inc'.
Proof using KeySchemeLaws0.
  intros Hc [Hdom Hinc Hres Hne] Hg. unfold check_group.
  destruct (using_cache_spec b hist c g f Hc) as (st & got & c1 & -> & Hc1 & Hseq & Hgot & Hmiss). cbn [mbind py_bind].
  eexists _, _, c1. split; [done|]. split_and!; [done|done|]. split.
  - rewrite dom_insert_L, Hdom. apply (comm_L (∪)).
  - destruct got; clear -Hinc; set_solver.
  - intros h full Hh Hni Hfull. destruct (decide (h = g)) as [->|Hhg].
    + rewrite lookup_insert_eq. destruct got; [by rewrite (Hgot eq_refl full Hfull)|]. clear -Hni. set_solver.
    + rewrite lookup_insert_ne by done. apply Hres; [clear -Hh Hhg; set_solver|destruct got; clear -Hni; set_solver|done].
  - destruct got; [done|]. intros _. by apply Hmiss.
Qed.

Lemma groups_using_cache_spec b hist c groups f :
  cache_ok b hist c →
  ∃ res inc c', get_state_for_groups_using_cache groups c f = Ok (res, inc, c') ∧ cache_ok b hist c' ∧ dc_sequence c' = dc_sequence c ∧
    groups_found b hist f groups res inc.
Proof using KeySchemeLaws0.
  intros Hc. unfold get_state_for_groups_using_cache.
  assert (∀ l seen res inc c, cache_ok b hist c → groups_found b hist f seen res inc → NoDup l → (∀ g, g ∈ l → g ∉ seen) →
    ∃ res' inc' c', py_fold (check_group f) (res, inc, c) l = Ok (res', inc', c') ∧ cache_ok b hist c' ∧ dc_sequence c' = dc_sequence c ∧
      groups_found b hist f (seen ∪ list_to_set l) res' inc') as Hloop.
  { clear c Hc groups. intros l. induction l as [|g l IH]; intros seen res inc c Hc Hgf Hnd Hl; cbn [py_fold].
    { exists res, inc, c. split_and!; [done|done|done|]. by rewrite list_to_set_nil, (right_id_L ∅ (∪)). }
    apply NoDup_cons in Hnd as [Hg Hnd].
    destruct (check_group_spec b hist f seen res inc c g Hc Hgf) as (res1 & inc1 & c1 & -> & Hc1 & Hs1 & Hgf1); [apply Hl; by left|]. cbn [mbind py_bind].
    destruct (IH _ res1 inc1 c1 Hc1 Hgf1 Hnd) as (res' & inc' & c' & -> & Hc' & Hs & Hgf').
    - intros h Hh. apply not_elem_of_union. split; [apply Hl; by right|]. intros ->%elem_of_singleton. done.
    - exists res', inc', c'. rewrite list_to_set_cons, (assoc_L (∪)), Hs. by split_and!. }
  destruct (Hloop (elements groups) ∅ ∅ ∅ c Hc) as (res & inc & c' & -> & R); [|apply NoDup_elements|intros g _; apply not_elem_of_empty|].
  { split; [apply dom_empty_L|done| |done]. intros g full ?%elem_of_empty. done. }
  exists res, inc, c'. rewrite (left_id_L ∅ (∪)), list_to_set_elements_L in R. done.
Qed.

(** *** Filling the caches *)

Record sg_ok (hist : gmap Z state_ids) (s : store) : Prop := {
  sg_state_ok : state_ok (sg_tables s);
  sg_hist : ∀ g st, stands_for (sg_tables s) g st → hist !! g = Some st;
  sg_bound : ∀ g, is_Some (hist !! g) → g < next_state_group (sg_tables s);
  sg_non_members : cache_ok false hist (state_group_cache s);
  sg_members : cache_ok true hist (state_group_members_cache s);
}.

Lemma cache_fill b hist c sequence g st f :
  cache_ok b hist c → canonical f → hist !! g = Some st →
  ∃ c', dict_cache_update c sequence g (part b (filter_state f st)) (if is_full (half b f) then None else Some (concrete_types (half b f))) = Ok c' ∧
    cache_ok b hist c'.
Proof using KeySchemeLaws0.
  intros Hc Hf Hg.
  assert (∀ key, contains (half b f) key = true → part b (filter_state f st) !! key = part b st !! key) as Hkey.
  { intros key Hk. rewrite !part_lookup. case_bool_decide as Hb; [|done]. rewrite filter_state_lookup. by rewrite <- (half_contains b f key Hf Hb), Hk. }
  destruct (dict_update_spec (λ g, part b <$> hist !! g) c sequence g (part b st) (part b (filter_state f st))
    (if is_full (half b f) then None else Some (concrete_types (half b f)))) as (c' & Hc' & Hok & _); [done|by rewrite Hg| | |by exists c'].
  - intros key v. rewrite !part_lookup, filter_state_lookup. by repeat case_match.
  - destruct (is_full (half b f)) eqn:E.
    + apply map_eq. intros key. apply Hkey. by apply is_full_contains.
    + intros [ty k] Hin. apply Hkey. apply elem_of_concrete_types in Hin as (ks & Ht & Hk). unfold contains. cbn [fst snd]. rewrite Ht.
      by apply bool_decide_eq_true_2.
Qed.

Lemma insert_into_cache_spec hist s d f seq_m seq_nm :
  sg_ok hist s → canonical f → (∀ g st, d !! g = Some st → ∃ full, hist !! g = Some full ∧ st = filter_state f full) →
  ∃ s', insert_into_cache s d f seq_m seq_nm = Ok s' ∧ sg_ok hist s' ∧ sg_tables s' = sg_tables s.
Proof using KeySchemeLaws0.
  intros Hs Hf Hd. unfold insert_into_cache.
  assert (∀ g st, (g, st) ∈ map_to_list d → ∃ full, hist !! g = Some full ∧ st = filter_state f full) as Hl
    by (intros g st Hin%elem_of_map_to_list; by apply Hd). clear Hd.
  pose proof (λ c sequence g st, cache_fill true hist c sequence g st f) as Hfm. pose proof (λ c sequence g st, cache_fill false hist c sequence g st f) as Hfn.
  cbn [half part] in Hfm, Hfn. destruct (get_member_split f) as [fm fn]. cbn [fst snd] in Hfm, Hfn.
  revert s Hs. induction (map_to_list d) as [|[g st] l IH]; intros s Hs; cbn [py_fold]; [by exists s|].
  destruct (Hl g st) as (full & Hg & ->); [by left|].
  destruct (Hfm (state_group_members_cache s) seq_m g full (sg_members _ _ Hs) Hf Hg) as (m & Hm & Hmok).
  destruct (Hfn (state_group_cache s) seq_nm g full (sg_non_members _ _ Hs) Hf Hg) as (nm & Hnm & Hnmok).
  cbn [fst snd]. rewrite Hm. cbn [mbind py_bind]. rewrite Hnm. cbn [mbind py_bind]. 
  destruct (IH (λ g st Hin, Hl g st (list_elem_of_further _ _ _ Hin)) (MkStore (sg_tables s) nm m)) as (s' & Hs' & Hok & Ht);
    [by destruct Hs; split|by exists s'].
Qed.

(** *** The two halves of a read *)

(** What a read holds on to while it waits *)
Record read_ok (hist : gmap Z state_ids) (f : StateFilter) (groups : gset Z) (p : pending_read) : Prop := {
  ro_dom : dom (pr_state p) = groups;
  ro_incomplete : pr_incomplete p ⊆ groups;
  ro_state : ∀ g full, g ∈ groups → g ∉ pr_incomplete p → hist !! g = Some full → pr_state p !! g = Some (filter_state f full);
  ro_missing : pr_incomplete p ≠ ∅ → ∃ key, contains f key = true;
}.

Lemma merge_spec (members : gmap Z state_ids) (l : list Z) (state : gmap Z state_ids) :
  (∀ g, g ∈ l → is_Some (state !! g) ∧ is_Some (members !! g)) →
  ∃ state', py_fold (λ state group,
    a ← match state !! group with Some st => Ok st | None => Raise KeyError end;
    b ← match members !! group with Some st => Ok st | None => Raise KeyError end;
    Ok (<[group := b ∪ a]> state)) state l = Ok state' ∧ dom state' = dom state ∧
    ∀ g a b, state !! g = Some a → members !! g = Some b → state' !! g = Some (if decide (g ∈ l) then b ∪ a else a).
Proof using Type.
  revert state. induction l as [|h l IH]; intros state Hl; cbn [py_fold]; [by exists state|].
  destruct (Hl h) as [[a Ha] [b Hb]]; [by left|]. rewrite Ha, Hb. cbn [mbind py_bind].
  destruct (IH (<[h := b ∪ a]> state)) as (state' & -> & Hdom & Hlook).
  { intros g Hg. destruct (Hl g) as [Hs Hm]; [by right|]. split; [|done]. destruct (decide (g = h)) as [->|Hne];
      [by rewrite lookup_insert_eq|by rewrite lookup_insert_ne]. }
  exists state'. split; [done|]. split; [rewrite Hdom, dom_insert_lookup_L; done|]. intros g a' b' Ha' Hb'. destruct (decide (g = h)) as [->|Hne].
  - assert (a' = a) as -> by congruence. assert (b' = b) as -> by congruence.
    rewrite (Hlook h (b ∪ a) b); [|by rewrite lookup_insert_eq|done]. rewrite (decide_True (P := h ∈ h :: l)) by by left.
    case_decide; [|done]. by rewrite (assoc_L (∪)), (idemp_L (∪)).
  - rewrite (Hlook g a' b'); [|by rewrite lookup_insert_ne|done]. f_equal. destruct (decide (g ∈ l)) as [Hin|Hin].
    + rewrite decide_True; [done|by right].
    + rewrite decide_False; [done|]. by intros [?|?]%elem_of_cons.
Qed.

Lemma begin_spec hist s groups f :
  sg_ok hist s → canonical f →
  ∃ p s', get_state_for_groups_begin s groups f = Ok (p, s') ∧ sg_ok hist s' ∧ sg_tables s' = sg_tables s ∧ read_ok hist f (list_to_set groups) p.
Proof using KeySchemeLaws0.
  intros [Hso Hh Hb Hnm Hm] Hf. unfold get_state_for_groups_begin.
  pose proof (halves_union f) as Hunion. pose proof (λ b, half_nonempty b f Hf) as Hne.
  pose proof (Hne true) as Hnet. pose proof (Hne false) as Hnef. clear Hne. cbn [half] in *. destruct (get_member_split f) as [fm fn]. cbn [fst snd] in *.
  destruct (groups_using_cache_spec false hist (state_group_cache s) (list_to_set groups) fn Hnm) as (rn & inn & cn & -> & Hcn & Hsn & [Dn In Sn Mn]).
  cbn [mbind py_bind].
  destruct (groups_using_cache_spec true hist (state_group_members_cache s) (list_to_set groups) fm Hm) as (rm & inm & cm & -> & Hcm & Hsm & [Dm Im Sm Mm]).
  cbn [mbind py_bind]. destruct (merge_spec rm groups rn) as (state & -> & Hdom & Hlook).
  { intros g Hg. split; apply elem_of_dom; rewrite ?Dn, ?Dm; by apply elem_of_list_to_set. }
  cbn [mbind py_bind]. eexists _, _. split; [done|]. split; [by split|]. split; [done|]. split; cbn [pr_state pr_incomplete].
  - by rewrite Hdom.
  - clear -In Im. set_solver.
  - intros g full Hg Hni Hfull. apply not_elem_of_union in Hni as [Hnm' Hnn'].
    rewrite (Hlook g _ _ (Sn g full Hg Hnn' Hfull) (Sm g full Hg Hnm' Hfull)), decide_True by by apply elem_of_list_to_set in Hg. by rewrite Hunion.
  - intros Hinc. destruct (decide (inm = ∅)) as [->|Hi]; [|by apply Hnet, Mm]. apply Hnef, Mn. intros ->. apply Hinc. apply (left_id_L ∅ (∪)).
Qed.

Lemma return_expanded_canonical f : canonical f → canonical (return_expanded f).
Proof using Type.
  intros Hf. unfold return_expanded, ALL_NON_MEMBER_STATE_FILTER, all.
  destruct (is_full f); [exact Hf|]. destruct (negb (has_wildcards f)); [exact Hf|]. destruct (negb _); [exact Hf|].
  destruct (match types f !! EventTypes.Member with Some ks => _ | None => _ end); [apply new_filter_canonical|].
  destruct (types f !! EventTypes.Member); apply new_filter_canonical.
Qed.

Lemma expanded_filter (f : StateFilter) (st : state_ids) : canonical f → filter_state f (filter_state (return_expanded f) st) = filter_state f st.
Proof using Type.
  intros Hf. apply map_eq. intros [ty k]. rewrite !filter_state_lookup. destruct (contains f (ty, k)) eqn:E; [|done].
  destruct (return_expanded_expands f Hf) as (He & _). by rewrite (He ty k E).
Qed.

Lemma end_spec e hist0 hist s (f : StateFilter) groups p :
  read_ok hist0 f groups p → hist0 ⊆ hist → sg_ok hist s → canonical f → (∀ g, g ∈ groups → g ∈ dom (state_groups (sg_tables s)) ∧ is_Some (hist0 !! g)) →
  ∃ res s', get_state_for_groups_end e s p f = Ok (res, s') ∧ sg_ok hist s' ∧ sg_tables s' = sg_tables s ∧
    dom res = groups ∧ ∀ g st, g ∈ groups → stands_for (sg_tables s) g st → res !! g = Some (filter_state f st).
Proof using KeySchemeLaws0.
  intros [Pd Pi Ps Pm] Hsub Hs Hf Hg. unfold get_state_for_groups_end.
  assert (∀ g st, g ∈ groups → stands_for (sg_tables s) g st → hist0 !! g = Some st) as Hh0.
  { intros g st Hgr Hst. apply (sg_hist _ _ Hs) in Hst. destruct (Hg g Hgr) as [_ [st' Hst']]. rewrite Hst'.
    pose proof (lookup_weaken _ _ _ _ Hst' Hsub). congruence. }
  case_bool_decide as Hinc.
  { exists (pr_state p), s. split_and!; try done. intros g st Hgr Hst. apply Ps; [done|rewrite Hinc; apply not_elem_of_empty|by apply Hh0]. }
  destruct (Pm Hinc) as [[ty k] Hkey]. destruct (return_expanded_expands f Hf) as (Hexp & _).
  destruct (from_groups_spec e (sg_tables s) (return_expanded f) hist (sg_state_ok _ _ Hs) (sg_hist _ _ Hs)
    (ex_intro _ (ty, k) (Hexp ty k Hkey)) (elements (pr_incomplete p))) as (d & -> & Hd).
  { intros g Hin%elem_of_elements. by apply Hg, Pi. }
  cbn [mbind py_bind]. destruct (insert_into_cache_spec hist s d (return_expanded f) (pr_sequence_m p) (pr_sequence_nm p) Hs) as (s' & -> & Hs' & Ht);
    [by apply return_expanded_canonical| |].
  { intros g st. rewrite Hd. case_decide; [|done]. intros (full & Hfull & ->)%fmap_Some. eauto. }
  cbn [mbind py_bind]. eexists _, s'. split; [done|]. split_and!; [done|done| |].
  - rewrite dom_union_L, dom_fmap_L, Pd. assert (dom d ⊆ groups); [|clear -H0; set_solver]. intros g [x Hx]%elem_of_dom. rewrite Hd in Hx.
    case_decide as Hin; [|done]. by apply Pi, elem_of_elements.
  - intros g st Hgr Hst. rewrite lookup_union, lookup_fmap, Hd. destruct (decide (g ∈ elements (pr_incomplete p))) as [Hin|Hin].
    + rewrite (sg_hist _ _ Hs g st Hst). cbn. rewrite expanded_filter by done. by destruct (pr_state p !! g).
    + rewrite (Ps g st Hgr); [done|by rewrite elem_of_elements in Hin|by apply Hh0].
Qed.

Lemma get_groups_spec e hist s (f : StateFilter) groups :
  sg_ok hist s → canonical f → (∀ g, g ∈ groups → g ∈ dom (state_groups (sg_tables s))) →
  ∃ res s', get_state_for_groups e s groups f = Ok (res, s') ∧ sg_ok hist s' ∧ sg_tables s' = sg_tables s ∧
    dom res = list_to_set groups ∧ ∀ g st, g ∈ groups → stands_for (sg_tables s) g st → res !! g = Some (filter_state f st).
Proof using KeySchemeLaws0.
  intros Hs Hf Hg. unfold get_state_for_groups. destruct (begin_spec hist s groups f Hs Hf) as (p & s1 & -> & Hs1 & Ht1 & Hp). cbn [mbind py_bind].
  destruct (end_spec e hist hist s1 f _ p Hp (reflexivity _) Hs1 Hf) as (res & s' & -> & Hs' & Ht' & Hdom & Hres).
  - intros g Hin%elem_of_list_to_set. rewrite Ht1. split; [by apply Hg|].
    destruct (stands_for_exists _ (sg_state_ok _ _ Hs) g (Hg g Hin)) as [st Hst]. exists st. by apply Hs.
  - exists res, s'. rewrite Ht', Ht1 in *. split_and!; [done|done|done|done|]. intros g st Hin. apply Hres. by apply elem_of_list_to_set.
Qed.

(** *** Storing *)

Lemma sg_ok_positive hist s : sg_ok hist s → (∃ g, g ∈ dom (state_groups (sg_tables s))) → 0 < next_state_group (sg_tables s).
Proof using Type. intros Hs [g Hg]. destruct (so_fresh _ (sg_state_ok _ _ Hs) g); [by left|lia]. Qed.

Lemma hist_fresh hist s st : sg_ok hist s → hist ⊆ <[next_state_group (sg_tables s) := st]> hist.
Proof using Type.
  intros Hs. apply insert_subseteq. destruct (hist !! _) as [x|] eqn:E; [|done]. assert (is_Some (hist !! next_state_group (sg_tables s))) as Hb by eauto.
  apply (sg_bound _ _ Hs) in Hb. lia.
Qed.

Lemma sg_ok_adds hist s t' g st nm m :
  sg_ok hist s → adds_group (sg_tables s) t' g st →
  cache_ok false (<[g := st]> hist) nm → cache_ok true (<[g := st]> hist) m → sg_ok (<[g := st]> hist) (MkStore t' nm m).
Proof using Type.
  intros Hs Ha Hnm Hm. destruct (ag_next _ _ _ _ Ha) as [Hg Hn]. split; [apply Ha| | |done|done]; cbn [sg_tables].
  - intros h st' Hst. destruct (decide (h = g)) as [->|Hne].
    + rewrite lookup_insert_eq. f_equal. eapply stands_for_det; [apply Ha|done].
    + rewrite lookup_insert_ne by done. apply Hs. by apply (ag_others _ _ _ _ Ha).
  - intros h Hh. destruct (decide (h = g)) as [->|Hne]; [lia|]. rewrite lookup_insert_ne in Hh by done. apply (sg_bound _ _ Hs) in Hh. lia.
Qed.

Lemma insert_full_group_spec hist s event_id room_id st :
  sg_ok hist s → 0 < next_state_group (sg_tables s) →
  ∃ g s', insert_full_group s event_id room_id st = Ok (g, s') ∧ adds_group (sg_tables s) (sg_tables s') g st ∧ sg_ok (<[g := st]> hist) s'.
Proof using KeySchemeLaws0.
  intros Hs Hpos. unfold insert_full_group. pose proof (insert_full_spec (sg_tables s) event_id room_id st (sg_state_ok _ _ Hs) Hpos) as Ha.
  destruct (insert_full_state (sg_tables s) event_id room_id st) as [g t]. cbn [fst snd] in Ha. pose proof (ag_next _ _ _ _ Ha) as [Hg _].
  pose proof (hist_fresh hist s st Hs) as Hsub. rewrite <- Hg in Hsub.
  assert (∀ b c sequence, cache_ok b hist c → ∃ c', dict_cache_update c sequence g (part b st) None = Ok c' ∧ cache_ok b (<[g := st]> hist) c') as Hfill.
  { intros b c sequence Hc. apply (cache_ok_grow b _ _ _ Hsub) in Hc. destruct (cache_fill b _ c sequence g st all Hc) as (c' & Hc' & Hok);
      [apply new_filter_canonical|by rewrite lookup_insert_eq|]. exists c'. rewrite filter_state_all in Hc'. split; [|done]. by destruct b. }
  destruct (Hfill true _ (dc_sequence (state_group_members_cache s)) (sg_members _ _ Hs)) as (m & Hm & Hmok).
  destruct (Hfill false _ (dc_sequence (state_group_cache s)) (sg_non_members _ _ Hs)) as (nm & Hnm & Hnmok). cbn [part] in Hm, Hnm.
  rewrite Hm. cbn [mbind py_bind]. rewrite Hnm. cbn [mbind py_bind]. eexists g, _. split; [done|]. split; [done|]. by eapply sg_ok_adds.
Qed.

(** The state that [store_state_group] is asked to store *)
Definition wanted_state (t : state_tables) (prev_group : option Z) (delta_ids current_state_ids : option state_ids) (st : state_ids) : Prop :=
  match prev_group, delta_ids with
  | Some p, Some delta => ∃ prev, stands_for t p prev ∧ st = delta ∪ prev ∧ ∀ c, current_state_ids = Some c → c = st
  | Some _, None => False
  | None, _ => current_state_ids = Some st
  end.

Lemma store_spec e hist s event_id room_id prev_group delta_ids current_state_ids st :
  sg_ok hist s → 0 < next_state_group (sg_tables s) → wanted_state (sg_tables s) prev_group delta_ids current_state_ids st →
  ∃ g s', store_state_group e s event_id room_id prev_group delta_ids current_state_ids = Ok (g, s') ∧
    adds_group (sg_tables s) (sg_tables s') g st ∧ sg_ok (<[g := st]> hist) s'.
Proof using KeySchemeLaws0.
  intros Hs Hpos Hw. unfold store_state_group. destruct prev_group as [p|].
  2:{ cbn in Hw. subst current_state_ids. 
      rewrite (bool_decide_eq_true_2 (is_Some (Some st))) by done. rewrite (bool_decide_eq_false_2 (is_Some (@None Z))) by by intros [? ?].
      destruct s as [t nm m]. cbn [negb andb raise_if mbind py_bind sg_tables state_group_cache state_group_members_cache].
      unfold state_for_full_group. cbn [mbind py_bind]. by apply insert_full_group_spec. }
  destruct delta_ids as [delta|]; [|done]. destruct Hw as (prev & Hp & -> & Hc).
  destruct (insert_delta_spec e (sg_tables s) event_id room_id p delta prev (sg_state_ok _ _ Hs) Hp) as (og & t & Hins & Hog).
  assert (∃ st' s1, state_for_full_group e (MkStore (sg_tables s) (state_group_cache s) (state_group_members_cache s)) (Some p) (Some delta) current_state_ids = Ok (st', s1) ∧
    st' = delta ∪ prev ∧ sg_ok hist s1 ∧ sg_tables s1 = sg_tables s) as (st' & s1 & Hfull & -> & Hs1 & Ht1).
  { destruct s as [t0 nm m]. cbn [sg_tables state_group_cache state_group_members_cache] in *. unfold state_for_full_group.
    destruct current_state_ids as [c|]; [by eexists _, _; split; [done|]; rewrite (Hc c)|].
    destruct (get_groups_spec e hist _ all [p] Hs) as (res & s1 & -> & Hs1 & Ht1 & _ & Hres).
    - apply new_filter_canonical.
    - intros g ->%list_elem_of_singleton. apply Hp.
    - cbn [mbind py_bind]. rewrite (Hres p prev), filter_state_all by (try done; by left). cbn [mbind py_bind]. by eexists _, _. }
  rewrite !bool_decide_eq_true_2 by by eexists. cbn [negb andb raise_if mbind py_bind]. rewrite Hins. cbn [mbind py_bind]. destruct og as [g|].
  - eexists g, _. split; [reflexivity|]. split; [exact Hog|]. pose proof (hist_fresh hist s (delta ∪ prev) Hs) as Hsub.
    rewrite <- (proj1 (ag_next _ _ _ _ Hog)) in Hsub.
    apply (sg_ok_adds hist s); [exact Hs|exact Hog| |]; apply (cache_ok_grow _ hist); [exact Hsub|apply Hs|exact Hsub|apply Hs].
  - subst t. rewrite Hfull. cbn [mbind py_bind]. rewrite <- Ht1 in *. by apply insert_full_group_spec.
Qed.
End Facts.
