(* ===== verification/StateGroupSystem.v ===== *)
(** * The state group store in operation

    All operations of the state group store of [StateGroupCache], in any order, with
    reads that wait for the database while other operations run.  A group stands for
    one state from its creation to its deletion, and every read that ends while its
    groups exist gives these states. *)

From S2P Require Import Prelude PyData RoomVersions Ids Events EventAuth StateFilters IterUtils LinkedList CacheStore LruCache LruCacheFacts TreeCache DictionaryCache StateGroups StateGroupFacts StateGroupCache.

From stdpp Require Import pretty.

Open Scope Z_scope.

(** The keys of the caches in a tree: a level for the group and one for the state key or
    the mark of the whole dict *)
Definition code {A} `{Countable A} (x : A) : string := pretty (N.pos (encode x)).

Lemma code_inj {A} `{Countable A} (x y : A) : code x = code y → x = y.
Proof. unfold code. intros Hc. apply (inj pretty) in Hc. injection Hc as Hc. by apply (inj encode). Qed.

#[export] Instance tree_key_scheme {KT DKT} `{Countable KT} `{Countable DKT} : KeyScheme KT DKT (list string) := {
  entry_key k od := [code k; code od];
  top_key k := [code k];
}.

#[export] Instance two_level_laws : CacheStoreLaws (list string) TreeCache := tree_store_laws 1.

#[export] Instance tree_key_laws {KT DKT} `{Countable KT} `{Countable DKT} : KeySchemeLaws KT DKT (list string) TreeCache.
Proof.
  split.
  - intros k d k' d' Hk. injection Hk as Hk Hd. split; by apply code_inj.
  - done.
  - intros k. cbn. lia.
  - intros k k' d. cbn. unfold tree_under. apply bool_decide_ext. split.
    + intros [l Hl]. cbn in Hl. injection Hl as Hl _. symmetry. by apply code_inj.
    + intros ->. by exists [code d].
Qed.

(** The states of all groups *)
Lemma states_of_tables t : state_ok t → ∃ hist : gmap Z state_ids, ∀ g st, stands_for t g st ↔ hist !! g = Some st.
Proof.
  intros Hok. exists (map_imap (λ g _, chain_state t <$> recursive_groups t (chain_fuel t) g) (state_groups t)). intros g st.
  rewrite map_lookup_imap. split.
  - intros (Hg & gs & Hc & ->). pose proof (recursive_groups_spec t Hok _ g gs Hc Hg (edges_below_fuel t g)) as Hr.
    apply elem_of_dom in Hg as [row ->]. cbn [mbind option_bind]. by rewrite Hr.
  - intros (row & Hrow & Hst)%bind_Some. assert (g ∈ dom (state_groups t)) as Hg by (apply elem_of_dom; eauto).
    destruct (stands_for_exists t Hok g Hg) as [st' Hst']. pose proof Hst' as (_ & gs & Hc & ->).
    rewrite (recursive_groups_spec t Hok _ g gs Hc Hg (edges_below_fuel t g)) in Hst. by injection Hst as <-.
Qed.

(** Both database engines read the same: for groups that exist and a filter that
    something passes, the recursive query of PostgreSQL (its optimised form for few
    conditions too) and the loop of SQLite (which stops early when it has all entries that
    the filter allows) give for each group the entries of its state that pass the
    filter. *)
Theorem engines_read_alike t groups f :
  state_ok t → (∃ key, contains f key = true) → (∀ g, g ∈ groups → g ∈ dom (state_groups t)) →
  ∃ res, (∀ e, get_state_groups_from_groups e t groups f = Ok res) ∧ dom res = list_to_set groups ∧
    ∀ g st, g ∈ groups → stands_for t g st → res !! g = Some (filter_state f st).
Proof.
  intros Hok Hf Hg. destruct (states_of_tables t Hok) as [hist Hhist].
  assert (∀ e, ∃ res, get_state_groups_from_groups e t groups f = Ok res ∧
    ∀ g, res !! g = if decide (g ∈ groups) then filter_state f <$> hist !! g else None) as Hread.
  { intros e. apply from_groups_spec; [done| |done|done]. intros g st. apply Hhist. }
  destruct (Hread SQLite) as (res & Hres & Hlook). exists res. split_and!.
  - intros []; [|done]. destruct (Hread Postgres) as (res' & -> & Hlook'). f_equal. apply map_eq. intros g. by rewrite Hlook, Hlook'.
  - apply set_eq. intros g. rewrite elem_of_dom, elem_of_list_to_set, Hlook. case_decide as Hin; [|by split; [intros []|]].
    destruct (stands_for_exists t Hok g (Hg g Hin)) as [st Hst%Hhist]. rewrite Hst. by split.
  - intros g st Hin Hst%Hhist. by rewrite Hlook, decide_True, Hst.
Qed.

Section System.
Context {K S : Type} `{Countable K} `{!CacheStore K S} `{!CacheStoreLaws K S} `{!KeyScheme Z (string * string) K} `{!KeySchemeLaws Z (string * string) K S}.
Abbreviation store := (sg_store (K := K) (S := S)).

(** The store and the reads that wait *)
Record sg_system : Type := MkSystem { sys_store : store; sys_reads : list (list Z * StateFilter * pending_read) }.

Definition groups_exist (s : store) (groups : list Z) : Prop := ∀ g, g ∈ groups → g ∈ dom (state_groups (sg_tables s)).
Definition with_tables (s : store) (t : state_tables) : store := MkStore t (state_group_cache s) (state_group_members_cache s).

(** The operations, with what their callers see to: the groups that are read exist, and a
    state that is given to [store_state_group] with a difference is what the difference
    leads to.  Purges are given any groups. *)
Inductive sg_step (e : engine) : sg_system → sg_system → Prop :=
  | step_begin s s' reads groups f p :
      canonical f → groups_exist s groups → get_state_for_groups_begin s groups f = Ok (p, s') →
      sg_step e (MkSystem s reads) (MkSystem s' (reads ++ [(groups, f, p)]))
  | step_end s s' l r groups f p res :
      groups_exist s groups → get_state_for_groups_end e s p f = Ok (res, s') →
      sg_step e (MkSystem s (l ++ (groups, f, p) :: r)) (MkSystem s' (l ++ r))
  | step_store s s' reads event_id room_id prev_group delta_ids current_state_ids st g :
      wanted_state (sg_tables s) prev_group delta_ids current_state_ids st →
      store_state_group e s event_id room_id prev_group delta_ids current_state_ids = Ok (g, s') →
      sg_step e (MkSystem s reads) (MkSystem s' reads)
  | step_batch s t reads events room_id prev_group out :
      store_state_deltas_for_batched (sg_tables s) events room_id prev_group = Ok (out, t) →
      sg_step e (MkSystem s reads) (MkSystem (with_tables s t) reads)
  | step_purge s t reads del :
      purge_unreferenced_state_groups e (sg_tables s) del = Ok t →
      sg_step e (MkSystem s reads) (MkSystem (with_tables s t) reads)
  | step_purge_room s reads del :
      sg_step e (MkSystem s reads) (MkSystem (with_tables s (purge_room_state (sg_tables s) del)) reads)
  | step_deduplicate s t reads last_state_group max_group batch_size finished last' :
      deduplicate_loop e (sg_tables s) last_state_group max_group batch_size = Ok (finished, t, last') →
      sg_step e (MkSystem s reads) (MkSystem (with_tables s t) reads).

(** A purge of a room deletes the groups of its events, and leaves a group that no event refers to although it is a
    difference to one of them; what it then stands for is not what it stood for.  In the runs that are
    looked at below purges of rooms do not do so; all other operations never do. *)
Definition no_orphans (t : state_tables) : Prop :=
  ∀ g p, g ∈ dom (state_groups t) → state_group_edges t !! g = Some p → p ∈ dom (state_groups t).
Definition whole_step (e : engine) (x y : sg_system) : Prop := sg_step e x y ∧ no_orphans (sg_tables (sys_store y)).

(** ** The invariant *)

Definition waiting_ok (hist : gmap Z state_ids) (r : list Z * StateFilter * pending_read) : Prop :=
  let '(groups, f, p) := r in
  canonical f ∧ ∃ hist0, hist0 ⊆ hist ∧ read_ok hist0 f (list_to_set groups) p ∧ ∀ g, g ∈ groups → is_Some (hist0 !! g).

Record sys_ok (hist : gmap Z state_ids) (x : sg_system) : Prop := {
  sys_sg_ok : sg_ok hist (sys_store x);
  sys_next : 0 < next_state_group (sg_tables (sys_store x));
  sys_waiting : ∀ r, r ∈ sys_reads x → waiting_ok hist r;
}.

Lemma waiting_grow hist hist' r : hist ⊆ hist' → waiting_ok hist r → waiting_ok hist' r.
Proof using Type. destruct r as [[groups f] p]. intros Hsub (Hf & h0 & Hh0 & R). split; [done|]. exists h0. split; [by etrans|done]. Qed.

Lemma hist_known hist (s : store) groups : sg_ok hist s → groups_exist s groups → ∀ g, g ∈ groups → is_Some (hist !! g).
Proof using Type.
  intros Hs Hg g Hin. destruct (stands_for_exists _ (sg_state_ok _ _ Hs) g (Hg g Hin)) as [st Hst]. exists st. by apply Hs.
Qed.

(** Tables with the old groups, all as before, and new ones *)
Lemma sg_ok_extend hist (s : store) t' :
  sg_ok hist s → state_ok t' → next_state_group (sg_tables s) ≤ next_state_group t' →
  (∀ g st, stands_for (sg_tables s) g st → stands_for t' g st) →
  (∀ g, g ∈ dom (state_groups t') → g ∈ dom (state_groups (sg_tables s)) ∨ next_state_group (sg_tables s) ≤ g) →
  ∃ hist', hist ⊆ hist' ∧ sg_ok hist' (with_tables s t').
Proof using Type.
  intros Hs Hok Hnx Hkeep Hnew.
  destruct (states_of_tables t' Hok) as [new Hof]. exists (hist ∪ new).
  assert (hist ⊆ hist ∪ new) as Hsub by apply map_union_subseteq_l.
  split; [done|]. split; cbn [sg_tables with_tables state_group_cache state_group_members_cache]; [done| | | |].
  - intros g st Hst. pose proof Hst as [Hg _]. destruct (hist !! g) as [st0|] eqn:E.
    + rewrite (lookup_union_Some_l _ _ _ st0) by done.
      destruct (Hnew g Hg) as [Hold|Hge]; [|assert (is_Some (hist !! g)) as Hb%(sg_bound _ _ Hs) by eauto; lia].
      destruct (stands_for_exists _ (sg_state_ok _ _ Hs) g Hold) as [st1 H1]. pose proof (sg_hist _ _ Hs g st1 H1).
      pose proof (stands_for_det t' g st st1 Hst (Hkeep g st1 H1)). congruence.
    + rewrite lookup_union_r by done. by apply Hof.
  - intros g [st [Hg|[_ Hg]]%lookup_union_Some_raw]; [assert (is_Some (hist !! g)) as Hb%(sg_bound _ _ Hs) by eauto; lia|].
    apply Hof in Hg as [Hg _]. destruct (so_fresh _ Hok g); [by left|done].
  - eapply cache_ok_grow; [done|apply Hs].
  - eapply cache_ok_grow; [done|apply Hs].
Qed.

(** Tables with some of the groups *)
Lemma sg_ok_shrink hist (s : store) t' :
  sg_ok hist s → state_ok t' → next_state_group t' = next_state_group (sg_tables s) →
  (∀ g st, stands_for t' g st → stands_for (sg_tables s) g st) → sg_ok hist (with_tables s t').
Proof using Type. intros [H1 H2 H3 H4 H5] Hok Hnx Hst. split; cbn; [done| |by rewrite Hnx|done|done]. intros g st Hg. by apply H2, Hst. Qed.
End System.

(** ** Batches *)

Lemma assigned_above b n l x : x ∈ assigned b n l → is_Some (state_delta_due_to_event x.2) → n ≤ state_group_after_event x.2.
Proof.
  revert b n. induction l as [|ev l IH]; intros b n; cbn [assigned]; [by intros ?%elem_of_nil|].
  destruct (be_state ev); intros [->|Hx]%elem_of_cons Hd; cbn in *; [lia|apply IH in Hx; [lia|done]|by destruct Hd|by apply IH in Hx].
Qed.

Lemma batch_rows_groups room_id out t :
  next_state_group (foldl (store_batch_row room_id) t out) = next_state_group t ∧
  ∀ g, g ∈ dom (state_groups (foldl (store_batch_row room_id) t out)) →
    g ∈ dom (state_groups t) ∨ ∃ x, x ∈ out ∧ is_Some (state_delta_due_to_event x.2) ∧ g = state_group_after_event x.2.
Proof.
  revert t. induction out as [|x out IH]; intros t; cbn [foldl]; [by split; [|left]|]. destruct (IH (store_batch_row room_id t x)) as [-> Hg].
  split; [unfold store_batch_row; by destruct (state_delta_due_to_event x.2)|]. intros g [Hd|(y & Hy & ? & ?)]%Hg; [|right; exists y; split; [by right|done]].
  unfold store_batch_row in Hd. destruct (state_delta_due_to_event x.2) as [delta|] eqn:E; [|by left]. cbn in Hd.
  rewrite dom_insert_L in Hd. apply elem_of_union in Hd as [->%elem_of_singleton|Hd]; [right|by left]. exists x. rewrite E. split; [by left|by split].
Qed.

(** A batch on tables that are in order *)
Lemma store_batch_spec t events room_id prev_group out t' :
  state_ok t → 0 < next_state_group t → store_state_deltas_for_batched t events room_id prev_group = Ok (out, t') →
  ∃ st, stands_for t prev_group st ∧ state_ok t' ∧ next_state_group t ≤ next_state_group t' ∧ batch_states t' st out ∧
    (∀ g st, stands_for t g st → stands_for t' g st) ∧
    (∀ g, g ∈ dom (state_groups t') → g ∈ dom (state_groups t) ∨ next_state_group t ≤ g).
Proof.
  intros Hok Hpos Hb. unfold store_state_deltas_for_batched in Hb. 
  destruct (negb (bool_decide (prev_group ∈ dom (state_groups t))) || (prev_group =? 0)) eqn:E; [done|]. cbn [raise_if mbind py_bind] in Hb.
  apply orb_false_iff in E as [Hp _]. to_prop.
  destruct (stands_for_exists t Hok prev_group) as [st Hst]; [done|]. exists st.
  destruct (foldl assign_group _ events) as [[b0 n0] out0] eqn:Ef. pose proof (assign_fold prev_group (next_state_group t) [] events) as Ha.
  rewrite Ef in Ha. cbn [snd app] in Ha. subst out0. injection Hb as <- <-.
  set (n := Z.of_nat _).
  destruct (batch_spec room_id events (take_group_ids t n) prev_group (next_state_group t) st) as (B1 & B2 & B3).
  - apply take_ids_ok; [done|lia].
  - by apply take_ids_stands.
  - done.
  - intros g Hg. apply (so_fresh _ Hok) in Hg. lia.
  - done.
  - destruct (batch_rows_groups room_id (assigned prev_group (next_state_group t) events) (take_group_ids t n)) as [Hn Hg].
    split_and!; [done|done|rewrite Hn; cbn; lia|done| |].
    + intros g st' Hg'. apply B2. by apply take_ids_stands.
    + intros g [Hd|(x & Hx & Hd & ->)]%Hg; [by left|right]. by eapply assigned_above.
Qed.

Section Claims.
Context {K S : Type} `{Countable K} `{!CacheStore K S} `{!CacheStoreLaws K S} `{!KeyScheme Z (string * string) K} `{!KeySchemeLaws Z (string * string) K S}.
Abbreviation store := (sg_store (K := K) (S := S)).
Abbreviation system := (sg_system (K := K) (S := S)).

Lemma sys_step_ok e hist (x y : system) : sys_ok hist x → whole_step e x y → ∃ hist', hist ⊆ hist' ∧ sys_ok hist' y.
Proof using KeySchemeLaws0.
  intros [Hs Hn Hw] [Hstep Hwhole]. destruct Hstep as [s s' reads groups f p Hf Hg Hb|s s' l r groups f p res Hg He|s s' reads ev room prev delta cur st g Hwant Hst
    |s t reads events room prev out Hb|s t reads del Hp|s reads del|s t reads last max n fin last' Hd]; cbn [sys_store sys_reads] in *.
  - destruct (begin_spec hist s groups f Hs Hf) as (p' & s1 & Hb' & Hs1 & Ht1 & Hp). rewrite Hb in Hb'. injection Hb' as <- <-.
    exists hist. split; [done|]. split; cbn [sys_store sys_reads]; [done|by rewrite Ht1|]. intros r [Hr| ->%list_elem_of_singleton]%elem_of_app; [by apply Hw|].
    split; [done|]. exists hist. split_and!; [done|done|]. by apply (hist_known hist s).
  - destruct (Hw (groups, f, p)) as (Hf & h0 & Hsub & Hp & Hk); [apply elem_of_app; right; by left|].
    destruct (end_spec e h0 hist s f _ p Hp Hsub Hs Hf) as (res' & s1 & He' & Hs1 & Ht1 & _).
    { intros g Hin%elem_of_list_to_set. split; [by apply Hg|by apply Hk]. }
    rewrite He in He'. injection He' as <- <-. exists hist. split; [done|]. split; cbn [sys_store sys_reads]; [done|by rewrite Ht1|].
    intros r' Hr'. apply Hw. apply elem_of_app in Hr' as [?|?]; apply elem_of_app; [by left|right; by right].
  - destruct (store_spec e hist s ev room prev delta cur st Hs Hn Hwant) as (g' & s1 & Hst' & Ha & Hs1). rewrite Hst in Hst'. injection Hst' as <- <-.
    destruct (ag_next _ _ _ _ Ha) as [Hg Hnx]. exists (<[g := st]> hist).
    assert (hist ⊆ <[g := st]> hist) as Hsub by (rewrite Hg; by apply hist_fresh).
    split; [done|]. split; cbn [sys_store sys_reads]; [done|lia|]. intros r Hr. by eapply waiting_grow, Hw.
  - destruct (store_batch_spec _ _ _ _ _ _ (sg_state_ok _ _ Hs) Hn Hb) as (st & _ & Hok & Hnx & _ & Hkeep & Hnew).
    destruct (sg_ok_extend hist s t Hs Hok Hnx Hkeep Hnew) as (hist' & Hsub & Hs'). exists hist'. split; [done|].
    split; cbn [sys_store sys_reads]; [done|cbn; lia|]. intros r Hr. by eapply waiting_grow, Hw.
  - destruct (purge_spec e _ del (sg_state_ok _ _ Hs)) as (t' & Hp' & Hok & Hnx & Hst). rewrite Hp in Hp'. injection Hp' as <-.
    exists hist. split; [done|]. split; cbn [sys_store sys_reads]; [|by cbn; rewrite Hnx|done]. apply sg_ok_shrink; try done. by intros g st [_ ?]%Hst.
  - destruct (purge_room_spec (sg_tables s) del (sg_state_ok _ _ Hs)) as [Hok Hst].
    { intros g p Hg Hgd Hp Hdel. apply elem_of_dom in Hgd as [row Hrow].
      assert (p ∈ dom (state_groups (purge_room_state (sg_tables s) del))) as [row' [_ ?]%map_lookup_filter_Some]%elem_of_dom; [|done].
      apply (Hwhole g p); cbn; [apply elem_of_dom; exists row|]; by apply map_lookup_filter_Some. }
    exists hist. split; [done|]. split; cbn [sys_store sys_reads]; [|done|done]. apply sg_ok_shrink; try done. by intros g st [_ ?]%Hst.
  - destruct (deduplicate_spec e (sg_tables s) last max n (sg_state_ok _ _ Hs)) as (fin' & t' & l' & Hd' & Hok & Hgr & Hnx & Hst).
    rewrite Hd in Hd'. injection Hd' as <- <- <-.
    destruct (sg_ok_extend hist s t Hs Hok) as (hist' & Hsub & Hs'); [by rewrite Hnx|done|rewrite Hgr; by left|]. exists hist'. split; [done|].
    split; cbn [sys_store sys_reads]; [done|by cbn; rewrite Hnx|]. intros r Hr. by eapply waiting_grow, Hw.
Qed.

Lemma sys_steps_ok e hist (x y : system) : sys_ok hist x → rtc (whole_step e) x y → ∃ hist', hist ⊆ hist' ∧ sys_ok hist' y.
Proof using KeySchemeLaws0.
  intros Hx Hsteps. revert hist Hx. induction Hsteps as [x|x y z Hxy _ IH]; intros hist Hx; [by exists hist|].
  destruct (sys_step_ok e hist x y Hx Hxy) as (h1 & Hsub & Hy). destruct (IH h1 Hy) as (h2 & Hsub2 & Hz). exists h2. split; [by etrans|done].
Qed.

(** A store as it is when the server starts *)
Definition start (t : state_tables) (x : system) : Prop := ∃ s, new_store t = Ok s ∧ x = MkSystem s [].

Lemma new_store_ok (t : state_tables) (s : store) (hist : gmap Z state_ids) :
  state_ok t → new_store t = Ok s → (∀ g st, stands_for t g st ↔ hist !! g = Some st) → sg_ok hist s ∧ sg_tables s = t.
Proof using Type.
  intros Ht Hs Hhist. unfold new_store in Hs.
  destruct (new_dictionary_cache_spec (KT := Z) (DKT := string * string) (DV := string) (S := S) (λ g, part false <$> hist !! g) 50000) as (nm & Hnm & Anm); [lia|].
  destruct (new_dictionary_cache_spec (KT := Z) (DKT := string * string) (DV := string) (S := S) (λ g, part true <$> hist !! g) 500000) as (m & Hm & Am); [lia|].
  rewrite Hnm in Hs. cbn [mbind py_bind] in Hs. rewrite Hm in Hs. cbn [mbind py_bind] in Hs. injection Hs as <-. split; [|done].
  split; cbn [sg_tables state_group_cache state_group_members_cache]; [done|by intros g st ?%Hhist| |done|done].
  intros g [st [Hg _]%Hhist]. by apply (so_fresh _ Ht); left.
Qed.

Lemma start_ok t x : state_ok t → 0 < next_state_group t → start t x → ∃ hist, sys_ok hist x.
Proof using Type.
  intros Ht Hn (s & Hs & ->). destruct (states_of_tables t Ht) as [hist Hhist]. exists hist. destruct (new_store_ok t s hist Ht Hs Hhist) as [Hok Htab].
  split; [done|by cbn; rewrite Htab|]. by intros r ?%elem_of_nil.
Qed.

(** C11: State groups are immutable.  Let the state group store be started on tables that are
    in order and do any operations, on either database engine: reads of groups that exist,
    new groups stored whole or as a difference that leads to the state given with it,
    batches, purges of groups and rooms, the reencoding in the background.  Then a group that
    is still there stands for the state it stood for before, as long as no purge of a room
    leaves a group that is a difference to one it deletes. *)
Theorem state_groups_immutable e t (x y z : system) g st :
  state_ok t → 0 < next_state_group t → start t x → rtc (whole_step e) x y → rtc (whole_step e) y z →
  stands_for (sg_tables (sys_store y)) g st → g ∈ dom (state_groups (sg_tables (sys_store z))) →
  stands_for (sg_tables (sys_store z)) g st.
Proof using KeySchemeLaws0.
  intros Ht Hn Hx Hxy Hyz Hst Hg. destruct (start_ok t x Ht Hn Hx) as [h0 H0]. destruct (sys_steps_ok e h0 x y H0 Hxy) as (h1 & _ & H1).
  destruct (sys_steps_ok e h1 y z H1 Hyz) as (h2 & Hsub & H2). apply (sg_hist _ _ (sys_sg_ok _ _ H1)) in Hst.
  destruct (stands_for_exists _ (sg_state_ok _ _ (sys_sg_ok _ _ H2)) g Hg) as [st' Hst'].
  pose proof (sg_hist _ _ (sys_sg_ok _ _ H2) g st' Hst'). pose proof (lookup_weaken _ _ _ _ Hst Hsub). by assert (st' = st) as -> by congruence.
Qed.

(** C12: A read of [_get_state_for_groups] never fails and is right, wherever the state
    comes from: a read that looked into the caches earlier and ends now, with any
    operations of the store in between (of which no purge of a room leaves a group that is a
    difference to one it deletes), gives for each of its groups (when they still
    exist) exactly the entries of the group's state that pass the filter. *)
Theorem state_reads_right e t (x y : system) groups f p :
  state_ok t → 0 < next_state_group t → start t x → rtc (whole_step e) x y → (groups, f, p) ∈ sys_reads y → groups_exist (sys_store y) groups →
  ∃ res s', get_state_for_groups_end e (sys_store y) p f = Ok (res, s') ∧ dom res = list_to_set groups ∧
    ∀ g st, g ∈ groups → stands_for (sg_tables (sys_store y)) g st → res !! g = Some (filter_state f st).
Proof using KeySchemeLaws0.
  intros Ht Hn Hx Hxy Hin Hg. destruct (start_ok t x Ht Hn Hx) as [h0 H0]. destruct (sys_steps_ok e h0 x y H0 Hxy) as (h1 & _ & [Hs _ Hw]).
  destruct (Hw _ Hin) as (Hf & h2 & Hsub & Hp & Hk).
  destruct (end_spec e h2 h1 (sys_store y) f _ p Hp Hsub Hs Hf) as (res & s' & He & _ & _ & Hdom & Hres).
  - intros g Hgr%elem_of_list_to_set. split; [by apply Hg|by apply Hk].
  - exists res, s'. split_and!; [done|done|]. intros g st Hgr. apply Hres. by apply elem_of_list_to_set.
Qed.

(** [store_state_group] in a running store: given a previous group with the difference
    to it, or a state, or both, it returns the next free id, and this group stands for the
    difference applied to the previous state, or for the given state, whether it is stored
    as a difference or, when the chain is too long, whole; all other groups are as they
    were.  With neither of the two, without a difference, or with a previous group that is
    not stored it raises. *)
Theorem store_state_group_spec e t (x y : system) event_id room_id prev_group delta_ids current_state_ids :
  state_ok t → 0 < next_state_group t → start t x → rtc (whole_step e) x y →
  (∀ st, wanted_state (sg_tables (sys_store y)) prev_group delta_ids current_state_ids st →
    ∃ g s', store_state_group e (sys_store y) event_id room_id prev_group delta_ids current_state_ids = Ok (g, s') ∧
      adds_group (sg_tables (sys_store y)) (sg_tables s') g st) ∧
  (prev_group = None → current_state_ids = None →
    store_state_group e (sys_store y) event_id room_id prev_group delta_ids current_state_ids = Raise both_none) ∧
  (is_Some prev_group → delta_ids = None →
    store_state_group e (sys_store y) event_id room_id prev_group delta_ids current_state_ids = Raise delta_none) ∧
  (∀ p, prev_group = Some p → is_Some delta_ids → p ∉ dom (state_groups (sg_tables (sys_store y))) →
    store_state_group e (sys_store y) event_id room_id prev_group delta_ids current_state_ids = Raise unpersisted_prev_group).
Proof using KeySchemeLaws0.
  intros Ht Hn Hx Hxy. destruct (start_ok t x Ht Hn Hx) as [h0 H0]. destruct (sys_steps_ok e h0 x y H0 Hxy) as (h1 & _ & [Hs Hny _]). split_and!.
  - intros st Hw. destruct (store_spec e h1 _ event_id room_id prev_group delta_ids current_state_ids st Hs Hny Hw) as (g & s' & Hst & Ha & _). by exists g, s'.
  - intros -> ->. done.
  - intros [p ->] ->. done.
  - intros p -> [delta ->] Hp. unfold store_state_group. rewrite !(bool_decide_eq_true_2 (is_Some (Some _))) by done. cbn [negb andb raise_if mbind py_bind].
    unfold insert_delta_group. by rewrite bool_decide_eq_false_2.
Qed.
End Claims.

(** ** Examples *)

(** Tables with a group stored whole and two differences *)
Definition ex_member : string * string := (EventTypes.Member, "@alice:a").
Definition ex_name : string * string := ("m.room.name", "").
Definition ex_topic : string * string := ("m.room.topic", "").
Definition ex_state_1 : state_ids := {[ex_member := "$join"; ex_name := "$name1"]}.
Definition ex_tables : state_tables :=
  MkState {[1 := ("!r:a", "$1"); 2 := ("!r:a", "$2"); 3 := ("!r:a", "$3")]} {[2 := 1; 3 := 2]}
    {[1 := ex_state_1; 2 := {[ex_topic := "$topic"]}; 3 := {[ex_name := "$name2"]}]} 4.
Definition ex_state_3 : state_ids := {[ex_member := "$join"; ex_name := "$name2"; ex_topic := "$topic"]}.

Definition state_ok_check (t : state_tables) : bool :=
  bool_decide (map_Forall (λ g p, p < g ∧ (g ∈ dom (state_groups t) → p ∈ dom (state_groups t))) (state_group_edges t)) &&
  bool_decide (set_Forall (λ g, 0 < g < next_state_group t) (dom (state_groups t) ∪ (dom (state_group_edges t) ∪ dom (state_groups_state t)) : gset Z)).

Lemma state_ok_checked t : state_ok_check t = true → state_ok t.
Proof.
  unfold state_ok_check. intros [H1 H2]%andb_true_iff. to_prop. split.
  - intros g p Hg Hp. destruct (H1 g p Hp). auto.
  - intros g Hg. apply H2. by rewrite !elem_of_union.
  - intros g p Hp. by destruct (H1 g p Hp).
Qed.

Lemma recursive_chain t fuel g gs : recursive_groups t fuel g = Some gs → chain t g gs.
Proof.
  revert g gs. induction fuel as [|fuel IH]; intros g gs; cbn; [done|]. destruct (state_group_edges t !! g) as [p|] eqn:E.
  - intros (gs' & Hr & ->)%fmap_Some. econstructor; eauto.
  - intros [= <-]. by constructor.
Qed.

Lemma stands_for_checked t g gs :
  bool_decide (g ∈ dom (state_groups t)) = true → recursive_groups t (chain_fuel t) g = Some gs → stands_for t g (chain_state t gs).
Proof. intros Hg Hr. to_prop. split; [done|]. exists gs. split; [by eapply recursive_chain|done]. Qed.

Lemma ex_state_tables_ok : state_ok ex_tables.
Proof. apply state_ok_checked. vm_compute. reflexivity. Qed.

Lemma ex_stands_3 : stands_for ex_tables 3 ex_state_3.
Proof.
  assert (ex_state_3 = chain_state ex_tables [3; 2; 1]) as -> by (apply (bool_decide_unpack _); vm_compute; exact I).
  apply stands_for_checked; vm_compute; reflexivity.
Qed.

(** Only the name and one member are asked for. *)
Definition ex_filter : StateFilter := from_types [("m.room.name", Some ""); (EventTypes.Member, Some "@alice:a")].

Lemma engines_read_alike_witness :
  ∃ res, (∀ e, get_state_groups_from_groups e ex_tables [3; 1] ex_filter = Ok res) ∧
    res !! 3 = Some {[ex_member := "$join"; ex_name := "$name2"]}.
Proof.
  destruct (engines_read_alike ex_tables [3; 1] ex_filter ex_state_tables_ok) as (res & Hres & _ & Hst).
  - exists ex_member. vm_compute. reflexivity.
  - apply Forall_forall, (bool_decide_unpack _). vm_compute. exact I.
  - exists res. split; [done|]. rewrite (Hst 3 ex_state_3 ltac:(by left) ex_stands_3). apply (bool_decide_unpack _). vm_compute. exact I.
Defined.

Abbreviation tree_store := (sg_store (K := list string) (S := TreeCache)).

(** The value of a result that is no exception *)
Ltac take_ok r := let v := eval vm_compute in r in match v with Ok ?x => exact x end.

(** The store is started, a read begins, a group is stored and a group is purged. *)
Definition ex_store : tree_store.
Proof. take_ok (new_store (K := list string) (S := TreeCache) ex_tables). Defined.
Definition ex_read : pending_read * tree_store.
Proof. take_ok (get_state_for_groups_begin ex_store [3; 1] ex_filter). Defined.
Definition ex_stored : Z * tree_store.
Proof. take_ok (store_state_group Postgres ex_read.2 "$4" "!r:a" (Some 3) (Some {[ex_topic := "$topic2"]}) None). Defined.
Definition ex_purged : state_tables.
Proof. take_ok (purge_unreferenced_state_groups Postgres (sg_tables ex_stored.2) {[2]}). Defined.

Lemma groups_exist_checked (s : tree_store) groups :
  bool_decide (Forall (λ g, g ∈ dom (state_groups (sg_tables s))) groups) = true → groups_exist s groups.
Proof. intros Hg g. to_prop. revert g. by apply Forall_forall. Qed.

Definition ex_sys_0 := MkSystem ex_store [].
Definition ex_sys_1 := MkSystem ex_read.2 [([3; 1], ex_filter, ex_read.1)].
Definition ex_sys_2 := MkSystem ex_stored.2 [([3; 1], ex_filter, ex_read.1)].
Definition ex_sys_3 := MkSystem (with_tables ex_stored.2 ex_purged) [([3; 1], ex_filter, ex_read.1)].

Lemma ex_start : start ex_tables ex_sys_0.
Proof. exists ex_store. split; [|done]. vm_compute. reflexivity. Qed.

Lemma whole_checked (s : tree_store) reads x :
  sg_step Postgres x (MkSystem s reads) → bool_decide (map_Forall (λ g p, g ∈ dom (state_groups (sg_tables s)) → p ∈ dom (state_groups (sg_tables s))) (state_group_edges (sg_tables s))) = true →
  whole_step Postgres x (MkSystem s reads).
Proof. intros Hx Ht. to_prop. split; [done|]. intros g p Hg Hp. by apply (Ht g p). Qed.

Lemma ex_run_1 : rtc (whole_step Postgres) ex_sys_0 ex_sys_1.
Proof.
  apply rtc_once, whole_checked; [|vm_compute; reflexivity]. apply (step_begin Postgres ex_store ex_read.2 [] [3; 1] ex_filter ex_read.1).
  - apply new_filter_canonical.
  - apply groups_exist_checked. vm_compute. reflexivity.
  - vm_compute. reflexivity.
Qed.

Lemma ex_wanted : wanted_state (sg_tables ex_read.2) (Some 3) (Some {[ex_topic := "$topic2"]}) None ({[ex_topic := "$topic2"]} ∪ ex_state_3).
Proof. exists ex_state_3. assert (sg_tables ex_read.2 = ex_tables) as -> by (vm_compute; reflexivity). split; [apply ex_stands_3|done]. Qed.

Lemma ex_run_3 : rtc (whole_step Postgres) ex_sys_1 ex_sys_3.
Proof.
  apply (rtc_l _ _ ex_sys_2).
  - apply whole_checked; [|vm_compute; reflexivity].
    apply (step_store Postgres _ _ _ "$4" "!r:a" (Some 3) (Some {[ex_topic := "$topic2"]}) None _ ex_stored.1 ex_wanted). vm_compute. reflexivity.
  - apply rtc_once, whole_checked; [|vm_compute; reflexivity]. apply (step_purge Postgres ex_stored.2 ex_purged _ {[2]}). vm_compute. reflexivity.
Qed.

Lemma state_groups_immutable_witness :
  2 ∉ dom (state_groups (sg_tables (sys_store ex_sys_3))) ∧ stands_for (sg_tables (sys_store ex_sys_3)) 3 ex_state_3.
Proof.
  split; [apply (bool_decide_unpack _); vm_compute; exact I|].
  apply (state_groups_immutable Postgres ex_tables ex_sys_0 ex_sys_0 ex_sys_3 3 ex_state_3 ex_state_tables_ok).
  - done.
  - apply ex_start.
  - apply rtc_refl.
  - transitivity ex_sys_1; [apply ex_run_1|apply ex_run_3].
  - apply ex_stands_3.
  - apply (bool_decide_unpack _). vm_compute. exact I.
Defined.

Lemma ex_stands_3_later : stands_for (sg_tables (sys_store ex_sys_3)) 3 ex_state_3.
Proof.
  assert (ex_state_3 = chain_state (sg_tables (sys_store ex_sys_3)) [3]) as -> by (apply (bool_decide_unpack _); vm_compute; exact I).
  apply stands_for_checked; vm_compute; reflexivity.
Qed.

Lemma state_reads_right_witness :
  ∃ res s', get_state_for_groups_end Postgres (sys_store ex_sys_3) ex_read.1 ex_filter = Ok (res, s') ∧
    res !! 3 = Some {[ex_member := "$join"; ex_name := "$name2"]}.
Proof.
  destruct (state_reads_right Postgres ex_tables ex_sys_0 ex_sys_3 [3; 1] ex_filter ex_read.1 ex_state_tables_ok) as (res & s' & He & _ & Hst).
  - done.
  - apply ex_start.
  - transitivity ex_sys_1; [apply ex_run_1|apply ex_run_3].
  - by left.
  - apply groups_exist_checked. vm_compute. reflexivity.
  - exists res, s'. split; [done|]. rewrite (Hst 3 ex_state_3 ltac:(by left) ex_stands_3_later). apply (bool_decide_unpack _). vm_compute. exact I.
Defined.

Lemma store_state_group_spec_witness :
  (∃ g s', store_state_group Postgres (sys_store ex_sys_1) "$4" "!r:a" (Some 3) (Some {[ex_topic := "$topic2"]}) None = Ok (g, s') ∧
    adds_group (sg_tables (sys_store ex_sys_1)) (sg_tables s') g ({[ex_topic := "$topic2"]} ∪ ex_state_3)) ∧
  store_state_group Postgres (sys_store ex_sys_1) "$4" "!r:a" (Some 7) (Some ∅) None = Raise unpersisted_prev_group.
Proof.
  split.
  - destruct (store_state_group_spec Postgres ex_tables ex_sys_0 ex_sys_1 "$4" "!r:a" (Some 3) (Some {[ex_topic := "$topic2"]}) None ex_state_tables_ok) as [Hst _];
      [done|apply ex_start|apply ex_run_1|]. apply Hst, ex_wanted.
  - destruct (store_state_group_spec Postgres ex_tables ex_sys_0 ex_sys_1 "$4" "!r:a" (Some 7) (Some ∅) None ex_state_tables_ok) as (_ & _ & _ & Hst);
      [done|apply ex_start|apply ex_run_1|]. apply (Hst 7); [done|done|]. apply (bool_decide_unpack _). vm_compute. exact I.
Defined.

(** A purge keeps the edges of the groups it deletes.  When later the group such an edge
    leads to is purged, the deleted group is given rows again. *)
Example purge_revives_rows :
  let t := MkState {[1 := ("!r:a", "$1"); 2 := ("!r:a", "$2")]} {[2 := 1]} {[1 := ex_state_1; 2 := {[ex_topic := "$topic"]}]} 3 in
  (t1 ← purge_unreferenced_state_groups Postgres t {[2]};
   t2 ← purge_unreferenced_state_groups Postgres t1 {[1]};
   Ok (bool_decide (state_groups t2 = ∅), bool_decide (state_groups_state t2 !! 2 = Some ex_state_1))) = Ok (true, true).
Proof. vm_compute. reflexivity. Qed.

(** The hops from a group that is stored whole: none on SQLite, one on PostgreSQL *)
Example hops_of_full_group :
  count_state_group_hops SQLite ex_tables 1 = Ok 0 ∧ count_state_group_hops Postgres ex_tables 1 = Ok 1.
Proof. split; vm_compute; reflexivity. Qed.

(** A filter that nothing passes is no query for PostgreSQL. *)
Example empty_filter_query :
  group_state SQLite ex_tables none 1 = Ok ∅ ∧ group_state Postgres ex_tables none 1 = Raise sql_syntax_error.
Proof. split; vm_compute; reflexivity. Qed.

(** [get_previous_state_groups] returns the groups that come next. *)
Example previous_groups_are_next : get_previous_state_groups ex_tables {[2]} = {[3 := 2]}.
Proof. vm_compute. reflexivity. Qed.

(** ** Purging history *)

(** C13: What [purge_history] does to state groups, on tables that are in order and with either
    database engine: it raises nothing and leaves the tables in order; a group that an event
    refers to is not deleted; the groups of the purged events that no event refers to any more
    are; and every group that is left stands for the same state as before. *)
Theorem purge_history_keeps_state e t event_to_state_groups groups :
  state_ok t →
  ∃ t', purge_history_state e t event_to_state_groups groups = Ok t' ∧ state_ok t' ∧
    (∀ g, g ∈ dom (state_groups t) → g ∈ event_to_state_groups → g ∈ dom (state_groups t')) ∧
    (∀ g, g ∈ groups → g ∉ event_to_state_groups → g ∉ dom (state_groups t')) ∧
    (∀ g st, g ∈ dom (state_groups t') → stands_for t g st → stands_for t' g st).
Proof.
  intros Hok. unfold purge_history_state, find_unreferenced_groups. rewrite find_unreferenced_loop_spec by (done || lia).
  assert (groups ∖ (∅ ∪ groups ∩ event_to_state_groups) = groups ∖ event_to_state_groups) as -> by (clear; set_solver). cbn [fueled mbind py_bind].
  destruct (purge_spec e t (groups ∖ event_to_state_groups) Hok) as (t' & -> & Hok' & _ & Hst). exists t'.
  assert (∀ g, g ∈ dom (state_groups t') → g ∉ groups ∖ event_to_state_groups) as Hleft.
  { intros g Hg. destruct (stands_for_exists t' Hok' g Hg) as [st [Hn _]%Hst]. done. }
  split_and!; [done|done| | |].
  - intros g Hd Hr. destruct (stands_for_exists t Hok g Hd) as [st Hs]. apply (proj2 (Hst g st)). split; [|done]. intros [_ ?]%elem_of_difference. done.
  - intros g Hg Hr Hd. apply (Hleft g Hd). by apply elem_of_difference.
  - intros g st Hg Hs. apply Hst. split; [by apply Hleft|done].
Qed.

(** The second time, the edge of the group deleted first leads to a group to delete. *)
Lemma purge_history_keeps_state_witness :
  ∃ t1 t2, purge_history_state SQLite ex_tables {[1; 3]} {[2; 3]} = Ok t1 ∧ 2 ∉ dom (state_groups t1) ∧ stands_for t1 3 ex_state_3 ∧
    purge_history_state SQLite t1 {[3]} {[1]} = Ok t2 ∧ 1 ∉ dom (state_groups t2) ∧ stands_for t2 3 ex_state_3.
Proof.
  assert ((3 : Z) ∈ ({[1; 3]} : gset Z) ∧ (3 : Z) ∈ ({[3]} : gset Z) ∧ (2 : Z) ∈ ({[2; 3]} : gset Z) ∧ (2 : Z) ∉ ({[1; 3]} : gset Z) ∧ (1 : Z) ∉ ({[3]} : gset Z)) as (H3 & H3' & H2 & H2' & H1) by set_solver.
  destruct (purge_history_keeps_state SQLite ex_tables {[1; 3]} {[2; 3]} ex_state_tables_ok) as (t1 & Ht1 & Hok1 & Hk1 & Hd1 & Hst1).
  assert (stands_for t1 3 ex_state_3) as Hs1 by (apply Hst1; [apply Hk1; [apply ex_stands_3|exact H3]|apply ex_stands_3]).
  destruct (purge_history_keeps_state SQLite t1 {[3]} {[1]} Hok1) as (t2 & Ht2 & _ & Hk2 & Hd2 & Hst2).
  exists t1, t2. split_and!; [done|by apply Hd1|done|done|apply Hd2; [by apply elem_of_singleton|exact H1]|].
  apply Hst2; [apply Hk2; [apply Hs1|exact H3']|done].
Defined.

(** A purge of a room leaves a group that no event of the room refers to, but not what it is a difference to. *)
Example purge_room_spoils_group :
  group_state Postgres ex_tables all 3 = Ok ex_state_3 ∧
  group_state Postgres (purge_room_state ex_tables {[1; 2]}) all 3 = Ok {[ex_name := "$name2"]}.
Proof. split; vm_compute; reflexivity. Qed.

(** The search for groups to delete is meant to go on to the previous groups, but never
    does: here the events of group 3 are purged and no event refers to the groups 1 and 2. *)
Example unreferenced_groups_stay : find_unreferenced_groups ex_tables ∅ {[3]} = Ok {[3]}.
Proof. vm_compute. reflexivity. Qed.
