(* ===== verification/ExpiringCache.v ===== *)
(** * The class [ExpiringCache] of [synapse/util/caches/expiringcache.py]

    An ordered dict with the time each entry was set or, if asked for, last read.
    Too many entries drop the first ones; old entries are pruned from time to time.  A
    size of 0 means no limit and an expiry of 0 that entries never expire.

    The lengths of the values are a parameter of the operations that look at them: a
    value may be an object that changes while it is in the cache. *)

From S2P Require Import Prelude.

Open Scope Z_scope.

(** ** [OrderedDict] *)

Section OrderedDict.
Context {K V : Type} `{EqDecision K}.
Implicit Types (k : K) (l : list (K * V)).

Fixpoint od_get k l : option V :=
  match l with
  | [] => None
  | (k', v) :: l => if decide (k = k') then Some v else od_get k l
  end.

(** A key that is there keeps its place. *)
Fixpoint od_set k (v : V) l : list (K * V) :=
  match l with
  | [] => [(k, v)]
  | (k', v') :: l => if decide (k = k') then (k, v) :: l else (k', v') :: od_set k v l
  end.

Definition od_pop k l : list (K * V) := List.filter (λ x, negb (bool_decide (x.1 = k))) l.

Lemma od_get_set k v l k' : od_get k' (od_set k v l) = if decide (k' = k) then Some v else od_get k' l.
Proof.
  induction l as [|[k0 v0] l IH]; cbn; [done|]. destruct (decide (k = k0)) as [<-|Hne]; cbn.
  - by repeat case_decide.
  - rewrite IH. repeat case_decide; congruence.
Qed.

Lemma od_get_pop k l k' : od_get k' (od_pop k l) = if decide (k' = k) then None else od_get k' l.
Proof.
  unfold od_pop. induction l as [|[k0 v0] l IH]; cbn; [by case_decide|]. case_bool_decide as Hk; cbn.
  - rewrite IH. repeat case_decide; congruence.
  - rewrite IH. repeat case_decide; congruence.
Qed.

Lemma od_get_elem k v l : od_get k l = Some v → (k, v) ∈ l.
Proof. induction l as [|[k0 v0] l IH]; cbn; [done|]. case_decide as E; [intros [= ->]; subst; by left|intros ?; right; by apply IH]. Qed.

Lemma od_get_keys k l : od_get k l = None ↔ k ∉ map fst l.
Proof.
  induction l as [|[k0 v0] l IH]; cbn; [split; [intros _; apply not_elem_of_nil|done]|]. rewrite not_elem_of_cons, <- IH.
  case_decide; naive_solver.
Qed.

Lemma od_set_keys k v l : NoDup (map fst l) → NoDup (map fst (od_set k v l)).
Proof.
  induction l as [|[k0 v0] l IH]; cbn [od_set map fst]; intros Hn; [by apply NoDup_singleton|]. case_decide as E; [by subst|]. apply NoDup_cons in Hn as [Hk Hn].
  cbn [map fst]. apply NoDup_cons. split; [|by apply IH]. apply od_get_keys. rewrite od_get_set, decide_False by congruence. by apply od_get_keys.
Qed.

Lemma filter_keys (P : K * V → bool) l : NoDup (map fst l) → NoDup (map fst (List.filter P l)).
Proof.
  induction l as [|[k v] l IH]; cbn [map fst List.filter]; intros Hn; [done|]. apply NoDup_cons in Hn as [Hk Hn].
  destruct (P (k, v)); [|by apply IH]. cbn [map fst]. apply NoDup_cons. split; [|by apply IH]. intros Hin. apply Hk.
  apply list_elem_of_In, in_map_iff in Hin as ([k' v'] & <- & [Hin _]%filter_In). apply list_elem_of_In, in_map_iff. by exists (k', v').
Qed.

Lemma od_get_filter (P : K * V → bool) k l :
  NoDup (map fst l) → od_get k (List.filter P l) = match od_get k l with Some v => if P (k, v) then Some v else None | None => None end.
Proof.
  induction l as [|[k0 v0] l IH]; cbn [od_get List.filter map fst]; intros Hn; [done|]. apply NoDup_cons in Hn as [Hk Hn]. specialize (IH Hn).
  destruct (decide (k = k0)) as [->|Hne].
  - destruct (P (k0, v0)); cbn; [by rewrite decide_True|]. rewrite IH. by rewrite (proj2 (od_get_keys k0 l) Hk).
  - destruct (P (k0, v0)); cbn; [by rewrite decide_False|done].
Qed.

Lemma elem_od_get k v l : NoDup (map fst l) → (k, v) ∈ l → od_get k l = Some v.
Proof.
  induction l as [|[k0 v0] l IH]; cbn; intros Hn Hin; [by apply elem_of_nil in Hin|]. apply NoDup_cons in Hn as [Hk Hn].
  apply elem_of_cons in Hin as [[= -> ->]|Hin]; [by rewrite decide_True|]. rewrite decide_False; [by apply IH|]. intros ->. apply Hk.
  apply list_elem_of_In, in_map_iff. exists (k0, v). split; [done|by apply list_elem_of_In].
Qed.
End OrderedDict.

(** ** The cache *)

Section ExpiringCache.
Context {K V : Type} `{EqDecision K}.

(** [_CacheEntry] *)
Record CacheEntry : Type := MkCacheEntry { ce_time : Z; ce_value : V }.

Record ExpiringCache : Type := MkExpiring {
  ec_original_max_size : Z;
  ec_max_size : Z;
  ec_expiry_ms : Z;
  ec_reset_expiry_on_get : bool;
  ec_iterable : bool;
  ec_cache : list (K * CacheEntry);
}.

Definition with_cache (c : ExpiringCache) (l : list (K * CacheEntry)) : ExpiringCache :=
  MkExpiring (ec_original_max_size c) (ec_max_size c) (ec_expiry_ms c) (ec_reset_expiry_on_get c) (ec_iterable c) l.

(** The cache factor multiplies the size; [max_size] is the size it gives. *)
Definition new_expiring_cache (max_len max_size expiry_ms : Z) (reset_expiry_on_get iterable : bool) : ExpiringCache :=
  MkExpiring max_len max_size expiry_ms reset_expiry_on_get iterable [].

Definition sum_len (vlen : V → Z) (l : list (K * CacheEntry)) : Z := foldr (λ x n, vlen (ce_value x.2) + n) 0 l.

(** [__len__] *)
Definition expiring_len (vlen : V → Z) (c : ExpiringCache) : Z :=
  if ec_iterable c then sum_len vlen (ec_cache c) else Z.of_nat (length (ec_cache c)).

(** [evict]; taking an entry out of an empty dict raises *)
Fixpoint expiring_evict_loop (len : list (K * CacheEntry) → Z) (max_size : Z) (l : list (K * CacheEntry)) : py (list (K * CacheEntry)) :=
  if negb (max_size =? 0) && (max_size <? len l) then
    match l with [] => Raise KeyError | _ :: l' => expiring_evict_loop len max_size l' end
  else Ok l.
Definition expiring_evict (vlen : V → Z) (c : ExpiringCache) : py ExpiringCache :=
  l ← expiring_evict_loop (λ l, expiring_len vlen (with_cache c l)) (ec_max_size c) (ec_cache c);
  Ok (with_cache c l).

(** [__setitem__] *)
Definition expiring_set (vlen : V → Z) (now : Z) (c : ExpiringCache) (k : K) (v : V) : py ExpiringCache :=
  expiring_evict vlen (with_cache c (od_set k (MkCacheEntry now v) (ec_cache c))).

(** [__getitem__] *)
Definition expiring_getitem (now : Z) (c : ExpiringCache) (k : K) : py (V * ExpiringCache) :=
  match od_get k (ec_cache c) with
  | None => Raise KeyError
  | Some e =>
      Ok (ce_value e, if ec_reset_expiry_on_get c then with_cache c (od_set k (MkCacheEntry now (ce_value e)) (ec_cache c)) else c)
  end.

(** [get] *)
Definition expiring_get (now : Z) (c : ExpiringCache) (k : K) : option V * ExpiringCache :=
  match expiring_getitem now c k with Ok (v, c) => (Some v, c) | Raise _ => (None, c) end.

Definition expiring_pop (c : ExpiringCache) (k : K) (default : option V) : py (V * ExpiringCache) :=
  match od_get k (ec_cache c), default with
  | Some e, _ => Ok (ce_value e, with_cache c (od_pop k (ec_cache c)))
  | None, Some d => Ok (d, c)
  | None, None => Raise KeyError
  end.

Definition expiring_contains (c : ExpiringCache) (k : K) : bool := bool_decide (is_Some (od_get k (ec_cache c))).

Definition expiring_setdefault (vlen : V → Z) (now : Z) (c : ExpiringCache) (k : K) (v : V) : py (V * ExpiringCache) :=
  match expiring_getitem now c k with
  | Ok r => Ok r
  | Raise _ => c ← expiring_set vlen now c k v; Ok (v, c)
  end.

(** [_prune_cache] *)
Definition prune_cache (now : Z) (c : ExpiringCache) : ExpiringCache :=
  if ec_expiry_ms c =? 0 then c
  else with_cache c (List.filter (λ x, negb (ec_expiry_ms c <? now - ce_time x.2)) (ec_cache c)).

(** [set_cache_factor], given the new size *)
Definition expiring_set_cache_factor (vlen : V → Z) (c : ExpiringCache) (new_size : Z) : py (bool * ExpiringCache) :=
  if new_size =? ec_max_size c then Ok (false, c)
  else
    c ← expiring_evict vlen (MkExpiring (ec_original_max_size c) new_size (ec_expiry_ms c) (ec_reset_expiry_on_get c) (ec_iterable c) (ec_cache c));
    Ok (true, c).
End ExpiringCache.
Arguments CacheEntry : clear implicits.
Arguments ExpiringCache : clear implicits.

(** ** Facts *)

Section Facts.
Context {K V : Type} `{EqDecision K}.
Implicit Types (c : ExpiringCache K V) (k : K) (v : V).

(** What a cache holds *)
Definition expiring_value c k : option V := ce_value <$> od_get k (ec_cache c).

Record expiring_ok c : Prop := {
  eo_keys : NoDup (map fst (ec_cache c));
  eo_max : 0 ≤ ec_max_size c;
}.

Lemma expiring_evict_loop_spec (len : list (K * CacheEntry V) → Z) max l :
  0 ≤ max → len [] = 0 →
  ∃ n, expiring_evict_loop len max l = Ok (drop n l) ∧ (max = 0 → n = 0%nat) ∧ (max ≠ 0 → len (drop n l) ≤ max).
Proof.
  intros Hmax Hlen. induction l as [|x l IH]; cbn [expiring_evict_loop].
  - rewrite Hlen. destruct (Z.ltb_spec max 0); [lia|]. rewrite andb_false_r. exists 0%nat. cbn [drop]. by rewrite Hlen.
  - destruct (Z.eqb_spec max 0) as [->|Hne]; cbn [negb andb]; [by exists 0%nat|]. destruct (Z.ltb_spec max (len (x :: l))); [|by exists 0%nat].
    destruct IH as (n & -> & _ & Hn). exists (S n). split_and!; [done|done|done].
Qed.

Lemma drop_keys (l : list (K * CacheEntry V)) n : NoDup (map fst l) → NoDup (map fst (drop n l)).
Proof. intros Hn. revert n. induction l as [|x l IH]; intros [|n]; cbn [drop]; try done. apply NoDup_cons in Hn as [_ Hn]. by apply IH. Qed.

(** Evicting never fails, keeps the last entries, and as many as fit. *)
Lemma expiring_evict_spec (vlen : V → Z) c :
  expiring_ok c → ∃ n c', expiring_evict vlen c = Ok c' ∧ c' = with_cache c (drop n (ec_cache c)) ∧ expiring_ok c' ∧
    (ec_max_size c ≠ 0 → expiring_len vlen c' ≤ ec_max_size c) ∧ (ec_max_size c = 0 → c' = c).
Proof.
  intros [Hk Hm]. unfold expiring_evict.
  destruct (expiring_evict_loop_spec (λ l, expiring_len vlen (with_cache c l)) (ec_max_size c) (ec_cache c) Hm) as (n & -> & H0 & Hn).
  { unfold expiring_len. cbn. by destruct (ec_iterable c). }
  cbn [mbind py_bind]. exists n. eexists. split_and!; [done|done| |done|].
  - split; [by apply drop_keys|done].
  - intros E. rewrite (H0 E). by destruct c.
Qed.

Lemma evicted_value c n k v : expiring_ok c → expiring_value (with_cache c (drop n (ec_cache c))) k = Some v → expiring_value c k = Some v.
Proof.
  intros [Hk _]. unfold expiring_value. cbn. intros (e & He & ->)%fmap_Some. apply od_get_elem in He.
  assert ((k, e) ∈ ec_cache c) as Hin by (rewrite <- (take_drop n (ec_cache c)); apply elem_of_app; by right).
  by rewrite (elem_od_get k e _ Hk Hin).
Qed.

(** After [cache[k] = v] the cache holds for [k] either [v] or nothing, when it was too
    large to stay, and for other keys what it held or nothing; and it fits. *)
Lemma expiring_set_spec (vlen : V → Z) now c k v :
  expiring_ok c → ∃ c', expiring_set vlen now c k v = Ok c' ∧ expiring_ok c' ∧
    (ec_max_size c ≠ 0 → expiring_len vlen c' ≤ ec_max_size c) ∧
    (∀ k' v', expiring_value c' k' = Some v' → if decide (k' = k) then v' = v else expiring_value c k' = Some v').
Proof.
  intros Hc. unfold expiring_set. set (c1 := with_cache c _).
  assert (expiring_ok c1) as Hc1 by (destruct Hc; split; [by apply od_set_keys|done]).
  destruct (expiring_evict_spec vlen c1 Hc1) as (n & c' & -> & Hc' & Hok & Hlen & _). exists c'. split_and!; [done|done|done|].
  intros k' v' Hv. rewrite Hc' in Hv. apply evicted_value in Hv; [|done]. unfold expiring_value, c1 in Hv. cbn in Hv. rewrite od_get_set in Hv.
  case_decide; [by injection Hv|done].
Qed.

(** Reading returns what the cache holds and keeps all values. *)
Lemma expiring_get_spec now c k :
  expiring_ok c → (expiring_get now c k).1 = expiring_value c k ∧ expiring_ok (expiring_get now c k).2 ∧
    (∀ k', expiring_value (expiring_get now c k).2 k' = expiring_value c k') ∧ ec_max_size (expiring_get now c k).2 = ec_max_size c.
Proof.
  intros Hc. unfold expiring_get, expiring_getitem, expiring_value. destruct (od_get k (ec_cache c)) as [e|] eqn:E; [|done]. cbn [fst snd].
  destruct (ec_reset_expiry_on_get c); [|done]. split_and!; [done|destruct Hc; split; [by apply od_set_keys|done]| |done].
  intros k'. cbn. rewrite od_get_set. case_decide; [|done]. subst. by rewrite E.
Qed.

(** Pruning drops exactly the entries that are too old. *)
Lemma prune_spec now c k :
  expiring_ok c → expiring_ok (prune_cache now c) ∧
  od_get k (ec_cache (prune_cache now c)) =
    match od_get k (ec_cache c) with
    | Some e => if negb (ec_expiry_ms c =? 0) && (ec_expiry_ms c <? now - ce_time e) then None else Some e
    | None => None
    end.
Proof.
  intros Hc. unfold prune_cache. destruct (ec_expiry_ms c =? 0); cbn [negb andb]; [split; [done|by destruct (od_get k (ec_cache c))]|].
  split; [destruct Hc; split; [by apply filter_keys|done]|]. cbn. rewrite od_get_filter by apply Hc. destruct (od_get k (ec_cache c)) as [e|]; [|done]. cbn.
  by destruct (_ <? _).
Qed.
End Facts.
