(* ===== verification/StateHandler.v ===== *)
(** * The state handler: [synapse/state/__init__.py] and [synapse/events/snapshot.py]

    Works out the state before and after an event and gives it state groups.  The state
    before is that of the previous events, resolved if they differ; resolved states are
    cached by the set of groups they were resolved from.  The entries of the cache are
    objects that change when a group is stored for them, while others may hold them:
    they are in a heap, and the cache holds references.

    State resolution is the interface [StateResolver]; [resolver] dispatches to the two
    algorithms.  The state group store is that of [StateGroupCache]. *)

From S2P Require Import Prelude PyData RoomVersions Ids Events EventAuth StateFilters StateResV2 StateResV1 IterUtils LinkedList CacheStore LruCache TreeCache DictionaryCache StateGroups StateGroupCache ExpiringCache.

Open Scope Z_scope.

(** ** [_StateCacheEntry] *)

Record StateCacheEntry : Type := MkEntry {
  se_state : option state_ids;
  se_state_group : option Z;
  se_prev_group : option Z;
  se_delta_ids : option state_ids;
}.

Definition entry_needs_state : exn := PyException "One of state, state_group or prev_group must be not None".
Definition entry_needs_delta : exn := PyException "If prev_group is set so must delta_ids".

Definition new_state_cache_entry (state : option state_ids) (state_group prev_group : option Z) (delta_ids : option state_ids) : py StateCacheEntry :=
  raise_if (bool_decide (state = None ∧ state_group = None ∧ prev_group = None)) entry_needs_state ;;
  raise_if (bool_decide (is_Some prev_group ∧ delta_ids = None)) entry_needs_delta ;;
  Ok (MkEntry state state_group prev_group delta_ids).

Definition set_state_group (en : StateCacheEntry) (state_group : Z) : StateCacheEntry :=
  MkEntry None (Some state_group) (se_prev_group en) (se_delta_ids en).

(** [__len__] *)
Definition entry_len (en : StateCacheEntry) : Z :=
  let length := Z.of_nat (default 0%nat (size <$> se_state en) + default 0%nat (size <$> se_delta_ids en)) in
  if length =? 0 then 1 else length.

(** [_make_state_cache_entry]: an input group with the same events *)
Fixpoint exact_match (new_state : state_ids) (groups : list (Z * state_ids)) : option Z :=
  match groups with
  | [] => None
  | (sg, state) :: groups =>
      let new_state_event_ids := map_img (SA := gset string) new_state in
      if negb (bool_decide (size new_state_event_ids = size state)) then exact_match new_state groups
      else if bool_decide (new_state_event_ids = map_img state) then Some sg
      else exact_match new_state groups
  end.

(** the closest of the input groups that the new state has all keys of *)
Definition closer_match (new_state : state_ids) (best : option Z * option state_ids) (x : Z * state_ids) : option Z * option state_ids :=
  let '(old_group, old_state) := x in
  if bool_decide (dom old_state ∖ dom new_state ≠ ∅) then best
  else
    let n_delta_ids := filter (λ y, old_state !! y.1 ≠ Some y.2) new_state in
    let better := match best.2 with
                  | None => true
                  | Some delta_ids => bool_decide (delta_ids = ∅) || bool_decide (size n_delta_ids < size delta_ids)%nat
                  end in
    if better then (Some old_group, Some n_delta_ids) else best.

Definition make_state_cache_entry (new_state : state_ids) (state_groups_ids : gmap Z state_ids) : py StateCacheEntry :=
  match exact_match new_state (map_to_list state_groups_ids) with
  | Some sg => new_state_cache_entry None (Some sg) None None
  | None =>
      let '(prev_group, delta_ids) := foldl (closer_match new_state) (None, None) (map_to_list state_groups_ids) in
      match prev_group with
      | Some _ => new_state_cache_entry None None prev_group delta_ids
      | None => new_state_cache_entry (Some new_state) None None None
      end
  end.

(** ** State resolution *)

(** [StateResolutionHandler.resolve_events_with_store], by the id of the room version *)
Class StateResolver : Type := resolve_states : string → list state_ids → py state_ids.

(** The dispatch on the room version, with the events that are given in advance and those
    of the store *)
Definition resolver `{!External} `{!StateResolutionStore} (fuel : nat) (room_id : string) (event_map : option emap)
    : StateResolver := λ room_version state_sets,
  match dict_get room_version KNOWN_ROOM_VERSIONS with
  | None => Raise KeyError
  | Some room_version_obj =>
      if bool_decide (state_res room_version_obj = StateResV1) then
        resolve_events_with_store_v1 (λ ids, store_get_events (elements ids)) room_id room_version_obj state_sets event_map
      else
        match resolve_events_with_store fuel room_id room_version_obj state_sets (default ∅ event_map) with
        | None => fuel_out
        | Some r => '(st, _) ← r; Ok st
        end
  end.

(** ** The handlers *)

Section Handler.
Context {K S : Type} `{Countable K} `{!CacheStore K S} `{!KeyScheme Z (string * string) K} `{!StateResolver}.
Abbreviation store := (sg_store (K := K) (S := S)).

Record state_handler : Type := MkHandler {
  sh_store : store;
  (** the objects of class [_StateCacheEntry] *)
  sh_entries : gmap nat StateCacheEntry;
  sh_next : nat;
  (** [_state_cache] of the [StateResolutionHandler] *)
  sh_cache : ExpiringCache (gset Z) nat;
}.

Definition sh_with_store (h : state_handler) (s : store) : state_handler := MkHandler s (sh_entries h) (sh_next h) (sh_cache h).
Definition sh_with_entry (h : state_handler) (r : nat) (en : StateCacheEntry) : state_handler :=
  MkHandler (sh_store h) (<[r := en]> (sh_entries h)) (sh_next h) (sh_cache h).
Definition sh_with_cache (h : state_handler) (c : ExpiringCache (gset Z) nat) : state_handler := MkHandler (sh_store h) (sh_entries h) (sh_next h) c.
Definition new_entry (h : state_handler) (en : StateCacheEntry) : nat * state_handler :=
  (sh_next h, MkHandler (sh_store h) (<[sh_next h := en]> (sh_entries h)) (sh_next h + 1) (sh_cache h)).
Definition the_entry (h : state_handler) (r : nat) : py StateCacheEntry := match sh_entries h !! r with Some en => Ok en | None => Raise KeyError end.
Definition ref_len (h : state_handler) (r : nat) : Z := default 1 (entry_len <$> sh_entries h !! r).

(** [get_state_ids_for_group] of [storage/controllers/state.py] *)
Definition get_state_ids_for_group (e : engine) (s : store) (state_group : Z) (f : StateFilter) : py (state_ids * store) :=
  '(group_to_state, s) ← get_state_for_groups e s [state_group] f;
  match group_to_state !! state_group with Some st => Ok (st, s) | None => Raise KeyError end.

(** [_StateCacheEntry.get_state] *)
Definition entry_get_state (e : engine) (s : store) (en : StateCacheEntry) (f : StateFilter) : py (state_ids * store) :=
  match se_state en, se_state_group en, se_prev_group en, se_delta_ids en with
  | Some st, _, _, _ => Ok (st, s)
  | None, Some g, _, _ => get_state_ids_for_group e s g f
  | None, None, Some p, Some delta_ids =>
      '(prev_state, s) ← get_state_ids_for_group e s p f;
      Ok (delta_ids ∪ prev_state, s)
  | None, None, _, _ => Raise AssertionError
  end.

(** [resolve_state_groups] *)
Definition resolve_state_groups (now : Z) (h : state_handler) (room_version : string) (state_groups_ids : gmap Z state_ids) : py (nat * state_handler) :=
  let group_names := dom state_groups_ids in
  let '(cached, c) := expiring_get now (sh_cache h) group_names in
  let h := sh_with_cache h c in
  match cached with
  | Some r => Ok (r, h)
  | None =>
      new_state ← resolve_states room_version (map snd (map_to_list state_groups_ids));
      en ← make_state_cache_entry new_state state_groups_ids;
      let '(r, h) := new_entry h en in
      c ← expiring_set (ref_len h) now (sh_cache h) group_names r;
      Ok (r, sh_with_cache h c)
  end.

(** What is read of the main store: the groups of events, the events with partial state,
    and the room version *)
Record main_tables : Type := MkMain {
  event_to_state_groups : gmap string Z;
  partial_state_events : gset string;
  room_version_id : py string;
}.

(** [_get_state_group_for_events] *)
Definition get_state_group_for_events (m : main_tables) (event_ids : list string) : py (gmap string Z) :=
  raise_if (existsb (λ e, bool_decide (e ∉ dom (event_to_state_groups m))) event_ids) (RuntimeError "No state group for unknown or outlier event %s") ;;
  Ok (filter (λ x, x.1 ∈ event_ids) (event_to_state_groups m)).

(** [resolve_state_groups_for_events] *)
Definition resolve_state_groups_for_events (e : engine) (now : Z) (m : main_tables) (h : state_handler) (event_ids : list string)
    : py (nat * state_handler) :=
  state_groups ← get_state_group_for_events m event_ids;
  let state_group_ids_set := map_img (SA := gset Z) state_groups in
  match elements state_group_ids_set with
  | [] => en ← new_state_cache_entry (Some ∅) None None None; Ok (new_entry h en)
  | [state_group_id] =>
      let delta := get_state_group_delta (sg_tables (sh_store h)) state_group_id in
      en ← new_state_cache_entry None (Some state_group_id) (fst <$> delta) (snd <$> delta);
      Ok (new_entry h en)
  | groups =>
      room_version ← room_version_id m;
      '(state_to_resolve, s) ← get_state_for_groups e (sh_store h) groups all;
      resolve_state_groups now (sh_with_store h s) room_version state_to_resolve
  end.

(** [compute_state_after_events] *)
Definition compute_state_after_events (e : engine) (now : Z) (m : main_tables) (h : state_handler) (event_ids : list string) (f : StateFilter)
    : py (state_ids * state_handler) :=
  '(r, h) ← resolve_state_groups_for_events e now m h event_ids;
  en ← the_entry h r;
  '(st, s) ← entry_get_state e (sh_store h) en f;
  Ok (st, sh_with_store h s).
End Handler.

(** ** Event contexts: [events/snapshot.py] *)

Record UnpersistedEventContext : Type := MkUnpersisted {
  uc_state_group_before_event : option Z;
  uc_state_group_after_event : option Z;
  uc_state_delta_due_to_event : option state_ids;
  uc_prev_group_for_state_group_before_event : option Z;
  uc_delta_ids_to_state_group_before_event : option state_ids;
  uc_partial_state : bool;
  uc_state_map_before_event : option state_ids;
}.

Record EventContext : Type := MkContext {
  ctx_state_group : option Z;
  ctx_state_group_before_event : option Z;
  ctx_state_delta_due_to_event : option state_ids;
  ctx_state_group_deltas : gmap (Z * Z) state_ids;
  ctx_rejected : option string;
  (** the id of the application service *)
  ctx_app_service : option string;
  ctx_partial_state : bool;
}.

(** [EventContext.for_outlier] *)
Definition for_outlier : EventContext := MkContext None None None ∅ None None false.

(** [EventContext.state_group] *)
Definition context_state_group (c : EventContext) : py (option Z) :=
  raise_if (bool_decide (is_Some (ctx_rejected c) ∧ ctx_rejected c ≠ Some "")) (RuntimeError "Attempt to access state_group of rejected event") ;;
  Ok (ctx_state_group c).

(** A group in a condition: neither [None] nor 0 *)
Definition truthy_group (g : option Z) : option Z := match g with Some 0 => None | _ => g end.
(** A state map in a condition: neither [None] nor empty *)
Definition truthy_state (st : option state_ids) : option state_ids :=
  match st with Some m => if bool_decide (m = ∅) then None else Some m | None => None end.

Definition get_delta (delta : option state_ids) : py state_ids := match delta with Some d => Ok d | None => Raise AssertionError end.

(** [_build_state_group_deltas] *)
Definition build_state_group_deltas (c : UnpersistedEventContext) : py (gmap (Z * Z) state_ids) :=
  deltas ← match truthy_group (uc_state_group_before_event c), truthy_group (uc_state_group_after_event c) with
           | Some b, Some a => d ← get_delta (uc_state_delta_due_to_event c); Ok {[(b, a) := d]}
           | _, _ => Ok ∅
           end;
  match truthy_group (uc_prev_group_for_state_group_before_event c), truthy_group (uc_state_group_before_event c) with
  | Some p, Some b => d ← get_delta (uc_delta_ids_to_state_group_before_event c); Ok (<[(p, b) := d]> deltas)
  | _, _ => Ok deltas
  end.

Section Contexts.
Context {K S : Type} `{Countable K} `{!CacheStore K S} `{!KeyScheme Z (string * string) K} `{!StateResolver}.
Abbreviation store := (sg_store (K := K) (S := S)).
Abbreviation handler := (state_handler (K := K) (S := S)).

(** [EventContext.get_prev_state_ids] *)
Definition get_prev_state_ids (e : engine) (s : store) (c : EventContext) (f : StateFilter) : py (state_ids * store) :=
  match ctx_state_group_before_event c with
  | Some g => get_state_ids_for_group e s g f
  | None => Raise AssertionError
  end.

(** [EventContext.get_current_state_ids] *)
Definition get_current_state_ids (e : engine) (s : store) (c : EventContext) (f : StateFilter) : py (state_ids * store) :=
  raise_if (bool_decide (is_Some (ctx_rejected c) ∧ ctx_rejected c ≠ Some "")) (RuntimeError "Attempt to access state_ids of rejected event") ;;
  delta ← get_delta (ctx_state_delta_due_to_event c);
  '(prev_state_ids, s) ← get_prev_state_ids e s c f;
  Ok (delta ∪ prev_state_ids, s).

(** [UnpersistedEventContext.persist] *)
Definition persist_context (e : engine) (s : store) (c : UnpersistedEventContext) (ev : event) : py (EventContext * store) :=
  '(before, s) ← match uc_state_group_before_event c with
                 | Some g => Ok (g, s)
                 | None =>
                     st ← match truthy_state (uc_state_map_before_event c) with Some st => Ok st | None => Raise AssertionError end;
                     store_state_group e s (ev_id ev) (ev_room_id ev) (uc_prev_group_for_state_group_before_event c)
                       (uc_delta_ids_to_state_group_before_event c) (Some st)
                 end;
  '(after, s) ← match truthy_state (uc_state_delta_due_to_event c) with
                | None => Ok (before, s)
                | Some delta => store_state_group e s (ev_id ev) (ev_room_id ev) (Some before) (Some delta) None
                end;
  deltas ← build_state_group_deltas
             (MkUnpersisted (Some before) (Some after) (uc_state_delta_due_to_event c) (uc_prev_group_for_state_group_before_event c)
                (uc_delta_ids_to_state_group_before_event c) (uc_partial_state c) (uc_state_map_before_event c));
  Ok (MkContext (Some after) (Some before) (uc_state_delta_due_to_event c) deltas None None (uc_partial_state c), s).

(** [calculate_context_info]: the state before the event that is resolved from the
    previous events, with a group for it; what is set is the group, its previous group and
    difference, and the state if it had to be loaded *)
Definition state_before_event (e : engine) (now : Z) (m : main_tables) (h : handler) (ev : event)
    : py (nat * Z * option Z * option state_ids * option state_ids * handler) :=
  '(r, h) ← resolve_state_groups_for_events e now m h (prev_event_ids ev);
  en ← the_entry h r;
  match se_state_group en with
  | Some g => Ok (r, g, se_prev_group en, se_delta_ids en, None, h)
  | None =>
      '(loaded, h) ← match se_prev_group en with
                     | Some _ => Ok (None, h)
                     | None => '(st, s) ← entry_get_state e (sh_store h) en all; Ok (Some st, sh_with_store h s)
                     end;
      '(g, s) ← store_state_group e (sh_store h) (ev_id ev) (ev_room_id ev) (se_prev_group en) (se_delta_ids en) loaded;
      Ok (r, g, se_prev_group en, se_delta_ids en, loaded, sh_with_entry (sh_with_store h s) r (set_state_group en g))
  end.

Definition set_replaces_state (ev : event) (replaces : option string) : event :=
  match replaces with
  | Some r =>
      if bool_decide (r ≠ "") && bool_decide (r ≠ ev_id ev) then
        {| ev_id := ev_id ev; ev_room_version := ev_room_version ev; ev_type := ev_type ev; ev_sender := ev_sender ev;
           ev_room_id := ev_room_id ev; ev_state_key := ev_state_key ev; ev_content := ev_content ev;
           ev_origin_server_ts := ev_origin_server_ts ev; ev_depth := ev_depth ev; ev_prev_events := ev_prev_events ev;
           ev_auth_events := ev_auth_events ev; ev_extra := ev_extra ev; ev_signatures := ev_signatures ev;
           ev_unsigned := dict_set "replaces_state" (JStr r) (ev_unsigned ev); ev_rejected_reason := ev_rejected_reason ev;
           ev_outlier := ev_outlier ev; ev_soft_failed := ev_soft_failed ev; ev_redacted := ev_redacted ev;
           ev_recheck_redaction := ev_recheck_redaction ev |}
      else ev
  | None => ev
  end.

(** The first part of [calculate_context_info]: the state before the event, as given or
    resolved *)
Definition before_event_info (e : engine) (now : Z) (m : main_tables) (h : handler) (ev : event)
    (state_ids_before_event : option state_ids) (partial_state : option bool) (state_group_before_event : option Z)
    : py (option nat * option Z * option Z * option state_ids * option state_ids * bool * handler) :=
  match truthy_state state_ids_before_event, partial_state with
  | Some st, Some p => Ok (None, state_group_before_event, None, None, Some st, p, h)
  | Some _, None | None, Some _ => Raise AssertionError
  | None, None =>
      let partial_state := existsb (λ i, bool_decide (i ∈ partial_state_events m)) (prev_event_ids ev) in
      '(r, g, prev_group, deltas, loaded, h) ← state_before_event e now m h ev;
      Ok (Some r, Some g, prev_group, deltas, loaded, partial_state, h)
  end.

(** The event that a state event replaces *)
Definition replaced_event (e : engine) (h : handler) (r : option nat) (state_ids_before_event : option state_ids) (event_type sk : string)
    : py (option string * handler) :=
  match state_ids_before_event, r with
  | Some st, _ => Ok (st !! (event_type, sk), h)
  | None, Some r =>
      en ← the_entry h r;
      '(st, s) ← entry_get_state e (sh_store h) en (from_types [(event_type, Some sk)]);
      Ok (st !! (event_type, sk), sh_with_store h s)
  | None, None => Raise UnboundLocalError
  end.

Definition calculate_context_info (e : engine) (now : Z) (m : main_tables) (h : handler) (ev : event)
    (state_ids_before_event : option state_ids) (partial_state : option bool) (state_group_before_event : option Z)
    : py (UnpersistedEventContext * event * handler) :=
  raise_if (ev_outlier ev) AssertionError ;;
  '(r, before, prev_group, deltas, state_ids_before_event, partial_state, h) ←
    before_event_info e now m h ev state_ids_before_event partial_state state_group_before_event;
  match ev_state_key ev with
  | None => Ok (MkUnpersisted before before (Some ∅) prev_group deltas partial_state state_ids_before_event, ev, h)
  | Some sk =>
      '(replaces, h) ← replaced_event e h r state_ids_before_event (ev_type ev) sk;
      Ok (MkUnpersisted before None (Some {[(ev_type ev, sk) := ev_id ev]}) prev_group deltas partial_state state_ids_before_event,
          set_replaces_state ev replaces, h)
  end.

(** [compute_event_context] *)
Definition compute_event_context (e : engine) (now : Z) (m : main_tables) (h : handler) (ev : event)
    (state_ids_before_event : option state_ids) (partial_state : option bool) : py (EventContext * event * handler) :=
  '(unpersisted_context, ev, h) ← calculate_context_info e now m h ev state_ids_before_event partial_state None;
  '(context, s) ← persist_context e (sh_store h) unpersisted_context ev;
  Ok (context, ev, sh_with_store h s).
End Contexts.
