(* ===== verification/StateHandlerFacts.v ===== *)
(** * The state before and after an event: facts about [StateHandler]

    As long as no state group is deleted, the context of an event names a group for the
    state before it, which is the state after its previous events, resolved, and one for
    the state after it. *)

From S2P Require Import Prelude PyData RoomVersions Ids Events EventAuth StateFilters StateResV2 StateResV2Facts StateResV1 RoomExample IterUtils LinkedList CacheStore LruCache TreeCache DictionaryCache StateGroups StateGroupFacts StateGroupCache StateGroupSystem ExpiringCache StateHandler.

Open Scope Z_scope.

(** Each event has one key in the states it is in. *)
Definition keyed (key_of : string → string * string) (st : state_ids) : Prop := ∀ k v, st !! k = Some v → key_of v = k.

(** What is relied on of state resolution: the entries of the result are under their own
    keys. *)
Class StateResolverLaws (key_of : string → string * string) `{!StateResolver} : Prop :=
  resolver_keyed : ∀ ver sets st, resolve_states ver sets = Ok st → Forall (keyed key_of) sets → keyed key_of st.

Lemma keyed_img (key_of : string → string * string) (m1 m2 : state_ids) :
  keyed key_of m1 → keyed key_of m2 → map_img (SA := gset string) m1 = map_img m2 → m1 = m2.
Proof.
  intros H1 H2 Himg. apply map_eq. intros k. apply option_eq. intros v. split; intros Hv.
  - assert (v ∈ map_img (SA := gset string) m2) as (k' & Hk')%elem_of_map_img by (rewrite <- Himg; by apply (elem_of_map_img_2 _ k)).
    by rewrite <- (H1 k v Hv), (H2 k' v Hk').
  - assert (v ∈ map_img (SA := gset string) m1) as (k' & Hk')%elem_of_map_img by (rewrite Himg; by apply (elem_of_map_img_2 _ k)).
    by rewrite <- (H2 k v Hv), (H1 k' v Hk').
Qed.

(** ** Entries *)

(** The entry stands for a state, in each of the ways it has. *)
Record entry_ok (hist : gmap Z state_ids) (en : StateCacheEntry) (st : state_ids) : Prop := {
  eo_state : ∀ st', se_state en = Some st' → st' = st;
  eo_group : ∀ g, se_state_group en = Some g → hist !! g = Some st;
  eo_prev : ∀ p, se_prev_group en = Some p → ∃ d ps, se_delta_ids en = Some d ∧ hist !! p = Some ps ∧ st = d ∪ ps;
  eo_some : is_Some (se_state en) ∨ is_Some (se_state_group en) ∨ is_Some (se_prev_group en);
}.

Lemma entry_ok_grow hist hist' en st : hist ⊆ hist' → entry_ok hist en st → entry_ok hist' en st.
Proof.
  intros Hsub [H1 H2 H3 H4]. split; [done| | |done].
  - intros g Hg. by eapply lookup_weaken, Hsub; apply H2.
  - intros p Hp. destruct (H3 p Hp) as (d & ps & Hd & Hps & ->). exists d, ps. split_and!; [done|by eapply lookup_weaken|done].
Qed.

Lemma entry_ok_det hist en st st' : entry_ok hist en st → entry_ok hist en st' → st = st'.
Proof.
  intros [A1 A2 A3 A4] [B1 B2 B3 _]. destruct A4 as [[x Hx]|[[g Hg]|[p Hp]]].
  - by rewrite <- (A1 x Hx), <- (B1 x Hx).
  - pose proof (A2 g Hg). pose proof (B2 g Hg). congruence.
  - destruct (A3 p Hp) as (d & ps & Hd & Hps & ->), (B3 p Hp) as (d' & ps' & Hd' & Hps' & ->). congruence.
Qed.

Lemma exact_match_spec (key_of : string → string * string) new groups sg :
  keyed key_of new → (∀ g st, (g, st) ∈ groups → keyed key_of st) → exact_match new groups = Some sg → (sg, new) ∈ groups.
Proof.
  intros Hn. induction groups as [|[g st] groups IH]; intros Hg; cbn; [done|].
  assert (∀ g st, (g, st) ∈ groups → keyed key_of st) as Hg' by (intros g' st' Hin; apply (Hg g'); by right).
  case_bool_decide as Hs; cbn [negb]; [|intros ?; right; by apply IH]. case_bool_decide as Hi; [|intros ?; right; by apply IH].
  intros [= <-]. rewrite (keyed_img key_of new st); [by left|done|apply (Hg g); by left|done].
Qed.

(** The difference to a state that the new one has all keys of *)
Lemma delta_union (new old : state_ids) : dom old ⊆ dom new → filter (λ y, old !! y.1 ≠ Some y.2) new ∪ old = new.
Proof.
  intros Hsub. apply map_eq. intros k. rewrite lookup_union. destruct (new !! k) as [v|] eqn:E.
  - destruct (decide (old !! k = Some v)) as [Ho|Ho].
    + rewrite map_lookup_filter_None_2; [by rewrite Ho|]. right. intros w Hw. rewrite E in Hw. injection Hw as <-. cbn. intros Hc. by apply Hc.
    + rewrite (map_lookup_filter_Some_2 _ _ k v) by done. by destruct (old !! k).
  - rewrite map_lookup_filter_None_2 by by left. assert (old !! k = None) as ->; [|done]. apply not_elem_of_dom. intros Hk%Hsub.
    apply elem_of_dom in Hk as [? ?]. congruence.
Qed.

Definition match_ok (new : state_ids) (groups : list (Z * state_ids)) (best : option Z * option state_ids) : Prop :=
  match best with
  | (Some p, Some d) => ∃ ps, (p, ps) ∈ groups ∧ new = d ∪ ps
  | (Some _, None) => False
  | (None, _) => True
  end.

Lemma closer_match_ok new all groups best : (∀ x, x ∈ groups → x ∈ all) → match_ok new all best → match_ok new all (foldl (closer_match new) best groups).
Proof.
  revert best. induction groups as [|[g st] groups IH]; intros best Hin Hb; cbn [foldl]; [done|].
  apply IH; [intros x Hx; apply Hin; by right|]. unfold closer_match. case_bool_decide as Hd; [done|].
  destruct (match best.2 with None => true | Some _ => _ end); [|done]. cbn. exists st. split; [apply Hin; by left|].
  rewrite delta_union; [done|]. clear -Hd. set_solver.
Qed.

Lemma make_entry_spec (key_of : string → string * string) hist new groups :
  keyed key_of new → (∀ g st, groups !! g = Some st → hist !! g = Some st ∧ keyed key_of st) →
  ∃ en, make_state_cache_entry new groups = Ok en ∧ entry_ok hist en new.
Proof.
  intros Hn Hg. unfold make_state_cache_entry.
  destruct (exact_match new (map_to_list groups)) as [sg|] eqn:Em.
  { apply (exact_match_spec key_of) in Em; [|done|intros g st Hin%elem_of_map_to_list; by apply (Hg g)].
    eexists. split; [done|]. apply elem_of_map_to_list in Em. split; cbn; try done; [intros g [= <-]; by apply Hg|right; left; by eexists]. }
  pose proof (closer_match_ok new (map_to_list groups) (map_to_list groups) (None, None) (λ x Hx, Hx) I) as Hc.
  destruct (foldl (closer_match new) (None, None) (map_to_list groups)) as [[p|] d].
  - destruct d as [d|]; [|done]. destruct Hc as (ps & Hin%elem_of_map_to_list & ->). eexists. split; [done|]. split; cbn; try done; [|by right; right; eexists].
    intros p' [= <-]. exists d, ps. split_and!; [done|by apply Hg|done].
  - eexists. split; [done|]. split; cbn; try done; [by intros st' [= <-]|left; by eexists].
Qed.

(** ** The handler *)

Section Handler.
Context {K S : Type} `{Countable K} `{!CacheStore K S} `{!CacheStoreLaws K S} `{!KeyScheme Z (string * string) K} `{!KeySchemeLaws Z (string * string) K S}.
Context (key_of : string → string * string) `{!StateResolver} `{!StateResolverLaws key_of}.
(** the version of the room that groups belong to *)
Context (version_of : gset Z → string).
Abbreviation store := (sg_store (K := K) (S := S)).
Abbreviation handler := (state_handler (K := K) (S := S)).

Definition group_states (hist : gmap Z state_ids) (names : gset Z) : gmap Z state_ids := filter (λ x, x.1 ∈ names) hist.

(** The state that the states of some groups are resolved to *)
Definition resolution (hist : gmap Z state_ids) (names : gset Z) (st : state_ids) : Prop :=
  names ⊆ dom hist ∧ resolve_states (version_of names) (map snd (map_to_list (group_states hist names))) = Ok st.

(** The state after some events, by their groups *)
Definition merged_state (hist : gmap Z state_ids) (names : gset Z) (st : state_ids) : Prop :=
  match elements names with
  | [] => st = ∅
  | [g] => hist !! g = Some st
  | _ => resolution hist names st
  end.

Lemma group_states_grow hist hist' names : hist ⊆ hist' → names ⊆ dom hist → group_states hist' names = group_states hist names.
Proof using Type.
  intros Hsub Hd. apply map_eq. intros g. unfold group_states. apply option_eq. intros st. rewrite !map_lookup_filter_Some. cbn. split; intros [Hst Hg]; (split; [|done]).
  - apply Hd, elem_of_dom in Hg as [st' Hst']. rewrite (lookup_weaken _ _ _ _ Hst' Hsub) in Hst. congruence.
  - by eapply lookup_weaken.
Qed.

Lemma resolution_grow hist hist' names st : hist ⊆ hist' → resolution hist names st → resolution hist' names st.
Proof using Type.
  intros Hsub [Hd Hr]. split; [|by rewrite (group_states_grow hist hist')]. etrans; [done|]. by apply subseteq_dom.
Qed.

(** All groups there have been are still there. *)
Record groups_ok (hist : gmap Z state_ids) (s : store) : Prop := {
  go_sg : sg_ok hist s;
  go_exact : ∀ g st, hist !! g = Some st → stands_for (sg_tables s) g st;
  go_next : 0 < next_state_group (sg_tables s);
  go_keyed : ∀ g st, hist !! g = Some st → keyed key_of st;
}.

Record handler_ok (hist : gmap Z state_ids) (h : handler) : Prop := {
  ho_groups : groups_ok hist (sh_store h);
  ho_cache : expiring_ok (sh_cache h);
  ho_fresh : ∀ r, is_Some (sh_entries h !! r) → (r < sh_next h)%nat;
  ho_cached : ∀ names r, expiring_value (sh_cache h) names = Some r →
    ∃ en st, sh_entries h !! r = Some en ∧ resolution hist names st ∧ entry_ok hist en st;
}.

Lemma groups_ok_tables hist s s' : groups_ok hist s → sg_ok hist s' → sg_tables s' = sg_tables s → groups_ok hist s'.
Proof using Type. intros [G1 G2 G3 G4] Hs Ht. split; [done|by rewrite Ht|by rewrite Ht|done]. Qed.

Lemma groups_ok_exists hist s g st : groups_ok hist s → hist !! g = Some st → g ∈ dom (state_groups (sg_tables s)).
Proof using Type. intros Hg Hst. by apply (go_exact _ _ Hg g st). Qed.

(** A new group *)
Lemma groups_ok_adds hist s s' g st :
  groups_ok hist s → adds_group (sg_tables s) (sg_tables s') g st → sg_ok (<[g := st]> hist) s' → keyed key_of st →
  hist ⊆ <[g := st]> hist ∧ groups_ok (<[g := st]> hist) s'.
Proof using Type.
  intros [G1 G2 G3 G4] Ha Hs' Hk. destruct (ag_next _ _ _ _ Ha) as [Hg Hn]. split; [rewrite Hg; by apply hist_fresh|]. split; [done| |lia|].
  - intros h st' [[<- <-]|[Hne Hst]]%lookup_insert_Some; [apply Ha|]. apply (ag_others _ _ _ _ Ha); [done|by apply G2].
  - intros h st' [[<- <-]|[Hne Hst]]%lookup_insert_Some; [done|by eapply G4].
Qed.

Lemma handler_ok_store hist hist' h s : handler_ok hist h → hist ⊆ hist' → groups_ok hist' s → handler_ok hist' (sh_with_store h s).
Proof using Type.
  intros [H1 H2 H3 H4] Hsub Hg. split; cbn; [done|done|done|]. intros names r Hr. destruct (H4 names r Hr) as (en & st & He & Hres & Ho).
  exists en, st. split_and!; [done|by eapply resolution_grow|by eapply entry_ok_grow].
Qed.

Lemma handler_ok_same hist h s : handler_ok hist h → sg_ok hist s → sg_tables s = sg_tables (sh_store h) → handler_ok hist (sh_with_store h s).
Proof using Type. intros Hh Hs Ht. eapply handler_ok_store; [done|done|]. by eapply groups_ok_tables; [apply Hh| |]. Qed.

(** An object for a state, new or with another value for the same state *)
Lemma handler_ok_new hist h en : handler_ok hist h → handler_ok hist (new_entry h en).2 ∧ sh_entries (new_entry h en).2 !! (new_entry h en).1 = Some en.
Proof using Type.
  intros [H1 H2 H3 H4]. split; [|by cbn; rewrite lookup_insert_eq]. split; cbn; [done|done| |].
  - intros r Hr. destruct (decide (r = sh_next h)) as [->|Hne]; [lia|]. rewrite lookup_insert_ne in Hr by done. apply H3 in Hr. lia.
  - intros names r Hr. destruct (H4 names r Hr) as (en' & st & He & R). exists en', st. split; [|done]. rewrite lookup_insert_ne; [done|].
    intros <-. assert (is_Some (sh_entries h !! sh_next h)) as Hs%H3 by eauto. lia.
Qed.

Lemma handler_ok_entry hist h r en en' st :
  handler_ok hist h → sh_entries h !! r = Some en → entry_ok hist en st → entry_ok hist en' st → handler_ok hist (sh_with_entry h r en').
Proof using Type.
  intros [H1 H2 H3 H4] Hr Ho Ho'. split; cbn; [done|done| |].
  - intros r' Hr'. apply H3. destruct (decide (r' = r)) as [->|Hne]; [by eexists|]. by rewrite lookup_insert_ne in Hr'.
  - intros names r' Hv. destruct (H4 names r' Hv) as (en0 & st0 & He0 & Hres & Ho0). destruct (decide (r' = r)) as [->|Hne].
    + exists en', st0. rewrite lookup_insert_eq. split_and!; [done|done|]. assert (en0 = en) as -> by congruence.
      by rewrite (entry_ok_det hist en st0 st Ho0 Ho).
    + exists en0, st0. by rewrite lookup_insert_ne.
Qed.

(** *** Reading the state of an entry *)

Lemma get_state_ids_spec e hist s g st (f : StateFilter) :
  groups_ok hist s → hist !! g = Some st → canonical f →
  ∃ s', get_state_ids_for_group e s g f = Ok (filter_state f st, s') ∧ groups_ok hist s' ∧ sg_tables s' = sg_tables s.
Proof using KeySchemeLaws0.
  intros Hg Hst Hf. unfold get_state_ids_for_group.
  destruct (get_groups_spec e hist s f [g] (go_sg _ _ Hg) Hf) as (res & s' & -> & Hs' & Ht & _ & Hres).
  { intros g' ->%list_elem_of_singleton. by eapply groups_ok_exists. }
  cbn [mbind py_bind]. rewrite (Hres g st); [|by left|by apply (go_exact _ _ Hg)]. exists s'. split_and!; [done|by eapply groups_ok_tables|done].
Qed.

Lemma entry_get_state_spec e hist s en st (f : StateFilter) :
  groups_ok hist s → entry_ok hist en st → canonical f →
  ∃ st' s', entry_get_state e s en f = Ok (st', s') ∧ groups_ok hist s' ∧ sg_tables s' = sg_tables s ∧
    (∀ key, contains f key = true → st' !! key = st !! key).
Proof using KeySchemeLaws0.
  intros Hg [O1 O2 O3 O4] Hf. unfold entry_get_state. destruct (se_state en) as [st0|].
  { eexists _, s. split; [done|]. split_and!; [done|done|]. intros key _. by rewrite (O1 st0). }
  destruct (se_state_group en) as [g|].
  { destruct (get_state_ids_spec e hist s g st f Hg (O2 g eq_refl) Hf) as (s' & -> & Hg' & Ht). eexists _, s'. split; [done|]. split_and!; [done|done|].
    intros key Hk. by rewrite filter_state_lookup, Hk. }
  destruct (se_prev_group en) as [p|]; [|by destruct O4 as [[? ?]|[[? ?]|[? ?]]]]. destruct (O3 p eq_refl) as (d & ps & -> & Hps & ->).
  destruct (get_state_ids_spec e hist s p ps f Hg Hps Hf) as (s' & -> & Hg' & Ht). cbn [mbind py_bind]. eexists _, s'. split; [done|]. split_and!; [done|done|].
  intros key Hk. rewrite !lookup_union, filter_state_lookup, Hk. done.
Qed.

Lemma entry_get_all_spec e hist s en st :
  groups_ok hist s → entry_ok hist en st →
  ∃ s', entry_get_state e s en all = Ok (st, s') ∧ groups_ok hist s' ∧ sg_tables s' = sg_tables s.
Proof using KeySchemeLaws0.
  intros Hg Ho. destruct (entry_get_state_spec e hist s en st all Hg Ho) as (st' & s' & -> & Hg' & Ht & Hk); [apply new_filter_canonical|].
  exists s'. split_and!; [|done|done]. f_equal. f_equal. apply map_eq. intros key. apply Hk, contains_all.
Qed.

(** *** Resolving *)

Lemma resolve_state_groups_spec now hist h groups st :
  handler_ok hist h → groups = group_states hist (dom groups) → resolution hist (dom groups) st →
  ∃ r h' en, resolve_state_groups now h (version_of (dom groups)) groups = Ok (r, h') ∧ handler_ok hist h' ∧ sh_store h' = sh_store h ∧
    sh_entries h' !! r = Some en ∧ entry_ok hist en st.
Proof using StateResolverLaws0.
  intros Hh Hgr Hres. unfold resolve_state_groups. destruct (expiring_get_spec now (sh_cache h) (dom groups) (ho_cache _ _ Hh)) as (Hget & Hok & Hval & _).
  destruct (expiring_get now (sh_cache h) (dom groups)) as [cached c] eqn:Eg. cbn [fst snd] in *.
  assert (handler_ok hist (sh_with_cache h c)) as Hh1.
  { destruct Hh as [H1 H2 H3 H4]. split; cbn; [done|done|done|]. intros names r. rewrite Hval. apply H4. }
  destruct cached as [r|].
  { destruct (ho_cached _ _ Hh (dom groups) r) as (en & st0 & He & Hres0 & Ho); [done|]. eexists r, _, en. split; [done|]. split_and!; [done|done|done|].
    destruct Hres as [_ Hr], Hres0 as [_ Hr0]. assert (st0 = st) as -> by congruence. done. }
  destruct Hres as [Hd Hr]. rewrite <- Hgr in Hr. rewrite Hr. cbn [mbind py_bind].
  assert (∀ g st, groups !! g = Some st → hist !! g = Some st ∧ keyed key_of st) as Hgk.
  { intros g st0 Hst. rewrite Hgr in Hst. apply map_lookup_filter_Some in Hst as [Hst _]. split; [done|]. by eapply (go_keyed _ _ (ho_groups _ _ Hh)). }
  assert (keyed key_of st) as Hk.
  { eapply resolver_keyed; [exact Hr|]. apply Forall_forall. intros st0 ([g st1] & -> & Hin%elem_of_map_to_list)%elem_of_map_list. by apply (Hgk g). }
  destruct (make_entry_spec key_of hist st groups Hk Hgk) as (en & -> & Ho). cbn [mbind py_bind].
  destruct (handler_ok_new hist _ en Hh1) as [Hh2 Hen]. destruct (new_entry (sh_with_cache h c) en) as [r h2] eqn:Enew. cbn [fst snd] in *.
  destruct (expiring_set_spec (ref_len h2) now (sh_cache h2) (dom groups) r (ho_cache _ _ Hh2)) as (c' & -> & Hc' & _ & Hv). cbn [mbind py_bind].
  eexists r, _, en. split; [done|]. split_and!; [|by injection Enew as <- <-|done|done]. destruct Hh2 as [H1 H2 H3 H4]. split; cbn; [done|done|done|].
  intros names r' Hr'. specialize (Hv names r' Hr'). case_decide as E; [|by apply H4]. subst. exists en, st. split_and!; [done| |done].
  split; [done|]. by rewrite <- Hgr.
Qed.

(** *** The state after some events *)

(** The groups of some events, all known *)
Definition groups_of_events (m : main_tables) (event_ids : list string) : gset Z :=
  map_img (filter (λ x, x.1 ∈ event_ids) (event_to_state_groups m)).

Record main_ok (hist : gmap Z state_ids) (m : main_tables) : Prop := {
  mo_groups : ∀ i g, event_to_state_groups m !! i = Some g → is_Some (hist !! g);
}.

Lemma delta_of_group (hist : gmap Z state_ids) (s : store) g st prev delta :
  groups_ok hist s → hist !! g = Some st → get_state_group_delta (sg_tables s) g = Some (prev, delta) →
  ∃ ps, hist !! prev = Some ps ∧ st = delta ∪ ps.
Proof using Type.
  intros Hg Hst Hd. unfold get_state_group_delta in Hd. destruct (state_group_edges (sg_tables s) !! g) as [p|] eqn:Ep; [|done].
  assert (prev = p ∧ delta = group_rows (sg_tables s) g) as [-> ->] by (destruct p; by simplify_eq).
  destruct (go_exact _ _ Hg g st Hst) as (Hgd & gs & Hc & ->). destruct (so_edge _ (sg_state_ok _ _ (go_sg _ _ Hg)) g p Hgd Ep) as [_ Hpd].
  inversion Hc as [? He|? p' ps He Hc']; subst; [congruence|]. assert (p' = p) as -> by congruence.
  exists (chain_state (sg_tables s) ps). split; [|done]. apply (sg_hist _ _ (go_sg _ _ Hg)). split; [done|by exists ps].
Qed.

Lemma for_events_spec e now m hist h event_ids st :
  handler_ok hist h → main_ok hist m → (∀ i, i ∈ event_ids → i ∈ dom (event_to_state_groups m)) →
  room_version_id m = Ok (version_of (groups_of_events m event_ids)) → merged_state hist (groups_of_events m event_ids) st →
  ∃ r h' en, resolve_state_groups_for_events e now m h event_ids = Ok (r, h') ∧ handler_ok hist h' ∧ sg_tables (sh_store h') = sg_tables (sh_store h) ∧
    sh_entries h' !! r = Some en ∧ entry_ok hist en st.
Proof using KeySchemeLaws0 StateResolverLaws0.
  intros Hh Hm Hev Hver Hst. unfold resolve_state_groups_for_events, get_state_group_for_events.
  assert (existsb (λ i, bool_decide (i ∉ dom (event_to_state_groups m))) event_ids = false) as ->.
  { apply not_true_iff_false. intros (i & Hi%list_elem_of_In & Hn)%existsb_exists. to_prop. by apply Hn, Hev. }
  cbn [raise_if mbind py_bind]. fold (groups_of_events m event_ids). set (names := groups_of_events m event_ids) in *.
  assert (∀ g, g ∈ names → is_Some (hist !! g)) as Hnames.
  { intros g (i & Hi)%elem_of_map_img. apply map_lookup_filter_Some in Hi as [Hi _]. by eapply (mo_groups _ _ Hm). }
  unfold merged_state in Hst. destruct (elements names) as [|g [|g' gs]] eqn:El.
  - subst st. cbn. destruct (handler_ok_new hist h (MkEntry (Some ∅) None None None) Hh) as [Hh' Hen].
    eexists _, _, _. split; [done|]. split_and!; [exact Hh'|done|exact Hen|]. split; cbn; try done; [by intros ? [= <-]|left; by eexists].
  - assert (∃ en, new_state_cache_entry None (Some g) (fst <$> get_state_group_delta (sg_tables (sh_store h)) g)
        (snd <$> get_state_group_delta (sg_tables (sh_store h)) g) = Ok en ∧ entry_ok hist en st) as (en & -> & Ho).
    { destruct (get_state_group_delta (sg_tables (sh_store h)) g) as [[p d]|] eqn:Ed; cbn.
      - eexists. split; [done|]. split; cbn; try done; [by intros g0 [= <-]| |right; left; by eexists]. intros p' [= <-].
        destruct (delta_of_group hist (sh_store h) g st p d (ho_groups _ _ Hh) Hst Ed) as (ps & Hps & ->). by exists d, ps.
      - eexists. split; [done|]. split; cbn; try done; [by intros g0 [= <-]|right; left; by eexists]. }
    cbn [mbind py_bind]. destruct (handler_ok_new hist h en Hh) as [Hh' Hen]. eexists _, _, en. split; [done|]. by split_and!.
  - rewrite Hver. cbn [mbind py_bind].
    destruct (get_groups_spec e hist (sh_store h) all (g :: g' :: gs) (go_sg _ _ (ho_groups _ _ Hh))) as (res & s' & -> & Hs' & Ht & Hdom & Hres).
    { apply new_filter_canonical. }
    { intros x Hx. rewrite <- El in Hx. apply elem_of_elements, Hnames in Hx as [stx Hx]. by eapply groups_ok_exists; [apply Hh|]. }
    cbn [mbind py_bind]. assert (dom res = names) as Hdn by (rewrite Hdom, <- El; apply list_to_set_elements_L).
    assert (res = group_states hist (dom res)) as Hgr.
    { apply map_eq. intros x. rewrite Hdn. destruct (decide (x ∈ names)) as [Hx|Hx].
      - destruct (Hnames x Hx) as [stx Hstx]. rewrite (Hres x stx), filter_state_all; [|by rewrite <- El; apply elem_of_elements|by apply (go_exact _ _ (ho_groups _ _ Hh))].
        symmetry. by apply map_lookup_filter_Some.
      - assert (res !! x = None) as -> by (apply not_elem_of_dom; by rewrite Hdn). symmetry. apply map_lookup_filter_None. right. by intros ? _. }
    pose proof (handler_ok_same hist h s' Hh Hs' Ht) as Hh1.
    destruct (resolve_state_groups_spec now hist (sh_with_store h s') res st Hh1 Hgr) as (r & h' & en & Hr & Hh' & Hst' & Hen & Ho); [by rewrite Hdn|].
    rewrite <- Hdn. exists r, h', en. split; [exact Hr|]. split_and!; [done| |done|done]. by rewrite Hst'.
Qed.

(** *** The state before an event *)

Lemma merged_keyed hist s names st : groups_ok hist s → merged_state hist names st → keyed key_of st.
Proof using StateResolverLaws0.
  intros Hg. unfold merged_state. destruct (elements names) as [|g [|g' gs]].
  - intros ->. by intros k v.
  - apply (go_keyed _ _ Hg).
  - intros [_ Hr]. eapply resolver_keyed; [exact Hr|]. apply Forall_forall.
    intros st0 ([x st1] & -> & Hin%elem_of_map_to_list)%elem_of_map_list. apply map_lookup_filter_Some in Hin as [Hin _]. by apply (go_keyed _ _ Hg x).
Qed.

Lemma store_keeps hist s event_id room_id prev delta current st e :
  groups_ok hist s → wanted_state (sg_tables s) prev delta current st → keyed key_of st →
  ∃ g s', store_state_group e s event_id room_id prev delta current = Ok (g, s') ∧ hist ⊆ <[g := st]> hist ∧ groups_ok (<[g := st]> hist) s'.
Proof using KeySchemeLaws0.
  intros Hg Hw Hk. destruct (store_spec e hist s event_id room_id prev delta current st (go_sg _ _ Hg) (go_next _ _ Hg) Hw) as (g & s' & Hst & Ha & Hs').
  destruct (groups_ok_adds hist s s' g st Hg Ha Hs' Hk). by exists g, s'.
Qed.

(** The previous group and the difference to it *)
Definition prev_ok (hist : gmap Z state_ids) (prev : option Z) (delta : option state_ids) (st : state_ids) : Prop :=
  ∀ p, prev = Some p → ∃ d ps, delta = Some d ∧ hist !! p = Some ps ∧ st = d ∪ ps.

Lemma prev_ok_grow hist hist' prev delta st : hist ⊆ hist' → prev_ok hist prev delta st → prev_ok hist' prev delta st.
Proof using Type. intros Hsub Hp p Hpr. destruct (Hp p Hpr) as (d & ps & ? & ? & ?). exists d, ps. split_and!; [done|by eapply lookup_weaken|done]. Qed.

Lemma state_before_spec e now m hist h ev st :
  handler_ok hist h → main_ok hist m → (∀ i, i ∈ prev_event_ids ev → i ∈ dom (event_to_state_groups m)) →
  room_version_id m = Ok (version_of (groups_of_events m (prev_event_ids ev))) → merged_state hist (groups_of_events m (prev_event_ids ev)) st →
  ∃ r g prev delta loaded h' en hist', state_before_event e now m h ev = Ok (r, g, prev, delta, loaded, h') ∧
    hist ⊆ hist' ∧ handler_ok hist' h' ∧ hist' !! g = Some st ∧ prev_ok hist' prev delta st ∧ (∀ st', loaded = Some st' → st' = st) ∧
    sh_entries h' !! r = Some en ∧ entry_ok hist' en st.
Proof using KeySchemeLaws0 StateResolverLaws0.
  intros Hh Hm Hev Hver Hst. unfold state_before_event.
  destruct (for_events_spec e now m hist h (prev_event_ids ev) st Hh Hm Hev Hver Hst) as (r & h1 & en & -> & Hh1 & Ht1 & Hen & Ho). cbn [mbind py_bind].
  assert (the_entry h1 r = Ok en) as -> by (unfold the_entry; by rewrite Hen). cbn [mbind py_bind].
  pose proof (merged_keyed hist _ _ st (ho_groups _ _ Hh) Hst) as Hk.
  destruct (se_state_group en) as [g|] eqn:Eg.
  { eexists r, g, _, _, _, h1, en, hist. split; [done|]. split_and!; [done|done|by apply Ho|exact (eo_prev _ _ _ Ho)|done|done|done]. }
  assert (∃ loaded h2, (match se_prev_group en with
      | Some _ => Ok (None, h1)
      | None => '(st, s) ← entry_get_state e (sh_store h1) en all; Ok (Some st, sh_with_store h1 s) end) = Ok (loaded, h2) ∧
      handler_ok hist h2 ∧ sh_entries h2 = sh_entries h1 ∧ (∀ st', loaded = Some st' → st' = st) ∧
      wanted_state (sg_tables (sh_store h2)) (se_prev_group en) (se_delta_ids en) loaded st) as (loaded & h2 & -> & Hh2 & Hent & Hl & Hw).
  { destruct (se_prev_group en) as [p|] eqn:Ep.
    - eexists _, h1. split; [done|]. split_and!; [done|done|done|]. destruct (eo_prev _ _ _ Ho p Ep) as (d & ps & -> & Hps & ->). cbn.
      exists ps. split; [by apply (go_exact _ _ (ho_groups _ _ Hh1))|done].
    - destruct (entry_get_all_spec e hist (sh_store h1) en st (ho_groups _ _ Hh1) Ho) as (s' & -> & Hg' & Ht'). cbn [mbind py_bind].
      eexists _, _. split; [done|]. split_and!; [|done|by intros ? [= <-]|done]. eapply handler_ok_same; [done|apply Hg'|done]. }
  cbn [mbind py_bind].
  destruct (store_keeps hist (sh_store h2) (ev_id ev) (ev_room_id ev) _ _ _ st e (ho_groups _ _ Hh2) Hw Hk) as (g & s' & -> & Hsub & Hg'). cbn [mbind py_bind].
  pose proof (handler_ok_store hist _ h2 s' Hh2 Hsub Hg') as Hh3. pose proof (entry_ok_grow _ _ en st Hsub Ho) as Ho3.
  assert (entry_ok (<[g := st]> hist) (set_state_group en g) st) as Ho4.
  { split; cbn; [done| |apply Ho3|right; left; by eexists]. intros g' [= <-]. by rewrite lookup_insert_eq. }
  eexists r, g, _, _, _, _, (set_state_group en g), (<[g := st]> hist). split; [done|].
  split_and!; [done| |by rewrite lookup_insert_eq|exact (eo_prev _ _ _ Ho3)|done|by cbn; rewrite lookup_insert_eq|done].
  eapply handler_ok_entry; [done|by cbn; rewrite Hent|done|done].
Qed.

(** *** Contexts *)

(** What an event changes of the state *)
Definition event_delta (ev : event) : state_ids :=
  match ev_state_key ev with Some sk => {[(ev_type ev, sk) := ev_id ev]} | None => ∅ end.

Definition deltas_ok (hist : gmap Z state_ids) (deltas : gmap (Z * Z) state_ids) : Prop :=
  ∀ g1 g2 d, deltas !! (g1, g2) = Some d → ∃ s1 s2, hist !! g1 = Some s1 ∧ hist !! g2 = Some s2 ∧ s2 = d ∪ s1.

Record unpersisted_ok (hist : gmap Z state_ids) (c : UnpersistedEventContext) (ev : event) (st : state_ids) : Prop := {
  uo_before : ∀ g, uc_state_group_before_event c = Some g → hist !! g = Some st;
  uo_map : ∀ m, uc_state_map_before_event c = Some m → m = st;
  uo_given : uc_state_group_before_event c = None → uc_state_map_before_event c = Some st ∧ st ≠ ∅ ∧ uc_prev_group_for_state_group_before_event c = None;
  uo_delta : uc_state_delta_due_to_event c = Some (event_delta ev);
  uo_prev : prev_ok hist (uc_prev_group_for_state_group_before_event c) (uc_delta_ids_to_state_group_before_event c) st;
}.

Lemma build_deltas_spec hist c ev st b a :
  uc_state_group_before_event c = Some b → uc_state_group_after_event c = Some a → hist !! b = Some st → hist !! a = Some (event_delta ev ∪ st) →
  uc_state_delta_due_to_event c = Some (event_delta ev) → prev_ok hist (uc_prev_group_for_state_group_before_event c) (uc_delta_ids_to_state_group_before_event c) st →
  ∃ deltas, build_state_group_deltas c = Ok deltas ∧ deltas_ok hist deltas.
Proof using Type.
  intros Eb Ea Hb Ha Ed Hp. unfold build_state_group_deltas. rewrite Eb, Ea, Ed.
  assert (∃ deltas, match truthy_group (Some b), truthy_group (Some a) with
      | Some b, Some a => d ← get_delta (Some (event_delta ev)); Ok {[(b, a) := d]}
      | _, _ => Ok ∅ end = Ok deltas ∧ deltas_ok hist deltas) as (deltas & -> & Hd).
  { assert (deltas_ok hist {[(b, a) := event_delta ev]}) as H1.
    { intros g1 g2 d [[= <- <-] <-]%lookup_singleton_Some. by exists st, (event_delta ev ∪ st). }
    destruct b as [|b|b], a as [|a|a]; cbn; eexists; (split; [done|]); done. }
  cbn [mbind py_bind].
  destruct (truthy_group (uc_prev_group_for_state_group_before_event c)) as [p|] eqn:Ep; [|by exists deltas].
  destruct (truthy_group (Some b)) as [b'|] eqn:Eb'; [|by exists deltas]. assert (b' = b) as -> by (destruct b; cbn in Eb'; congruence).
  assert (uc_prev_group_for_state_group_before_event c = Some p) as Ep' by (destruct (uc_prev_group_for_state_group_before_event c) as [[]|]; cbn in Ep; congruence).
  destruct (Hp p Ep') as (d & ps & -> & Hps & ->). cbn [get_delta mbind py_bind]. eexists. split; [done|].
  intros g1 g2 d' [[[= <- <-] <-]|[_ Hl]]%lookup_insert_Some; [by exists ps, (d ∪ ps)|by apply Hd].
Qed.

Lemma event_delta_keyed ev st : (is_state ev = true → ∀ sk, ev_state_key ev = Some sk → key_of (ev_id ev) = (ev_type ev, sk)) → keyed key_of st → keyed key_of (event_delta ev ∪ st).
Proof using Type.
  intros Hev Hk k v Hv. unfold event_delta in Hv. destruct (ev_state_key ev) as [sk|] eqn:E.
  - apply lookup_union_Some_raw in Hv as [[<- <-]%lookup_singleton_Some|[_ Hv]]; [|by apply Hk]. apply Hev; [|done]. unfold is_state, get_state_key. by rewrite E.
  - rewrite (left_id_L ∅ (∪)) in Hv. by apply Hk.
Qed.

Lemma persist_spec e hist s c ev st :
  groups_ok hist s → unpersisted_ok hist c ev st → keyed key_of st →
  (is_state ev = true → ∀ sk, ev_state_key ev = Some sk → key_of (ev_id ev) = (ev_type ev, sk)) →
  ∃ ctx s' hist' b a, persist_context e s c ev = Ok (ctx, s') ∧ hist ⊆ hist' ∧ groups_ok hist' s' ∧
    ctx_state_group_before_event ctx = Some b ∧ ctx_state_group ctx = Some a ∧ hist' !! b = Some st ∧ hist' !! a = Some (event_delta ev ∪ st) ∧
    ctx_state_delta_due_to_event ctx = Some (event_delta ev) ∧ deltas_ok hist' (ctx_state_group_deltas ctx) ∧ ctx_rejected ctx = None.
Proof using KeySchemeLaws0.
  intros Hg [Ub Um Ug Ud Up] Hk Hev. unfold persist_context.
  assert (∃ b s1 hist1, match uc_state_group_before_event c with
      | Some g => Ok (g, s)
      | None =>
          st ← match truthy_state (uc_state_map_before_event c) with Some st => Ok st | None => Raise AssertionError end;
          store_state_group e s (ev_id ev) (ev_room_id ev) (uc_prev_group_for_state_group_before_event c)
            (uc_delta_ids_to_state_group_before_event c) (Some st)
      end = Ok (b, s1) ∧ hist ⊆ hist1 ∧ groups_ok hist1 s1 ∧ hist1 !! b = Some st) as (b & s1 & hist1 & -> & Hsub1 & Hg1 & Hb).
  { destruct (uc_state_group_before_event c) as [g|] eqn:Eg; [exists g, s, hist; split_and!; [done|done|done|by apply Ub]|].
    destruct (Ug eq_refl) as (-> & Hne & ->). cbn [truthy_state]. rewrite bool_decide_eq_false_2 by done. cbn [mbind py_bind].
    destruct (store_keeps hist s (ev_id ev) (ev_room_id ev) None (uc_delta_ids_to_state_group_before_event c) (Some st) st e Hg) as (g & s' & -> & Hsub & Hg');
      [done|done|]. exists g, s', (<[g := st]> hist). split_and!; [done|done|done|by rewrite lookup_insert_eq]. }
  cbn [mbind py_bind]. pose proof (event_delta_keyed ev st Hev Hk) as Hk2. pose proof (prev_ok_grow _ _ _ _ _ Hsub1 Up) as Up1.
  assert (∃ a s2 hist2, match truthy_state (uc_state_delta_due_to_event c) with
      | None => Ok (b, s1)
      | Some delta => store_state_group e s1 (ev_id ev) (ev_room_id ev) (Some b) (Some delta) None
      end = Ok (a, s2) ∧ hist1 ⊆ hist2 ∧ groups_ok hist2 s2 ∧ hist2 !! a = Some (event_delta ev ∪ st)) as (a & s2 & hist2 & -> & Hsub2 & Hg2 & Ha).
  { rewrite Ud. cbn [truthy_state]. case_bool_decide as E; [exists b, s1, hist1; split_and!; [done|done|done|by rewrite E, (left_id_L ∅ (∪))]|].
    destruct (store_keeps hist1 s1 (ev_id ev) (ev_room_id ev) (Some b) (Some (event_delta ev)) None (event_delta ev ∪ st) e Hg1) as (g & s' & -> & Hsub & Hg');
      [|done|].
    - exists st. split; [by apply (go_exact _ _ Hg1)|done].
    - exists g, s', (<[g := event_delta ev ∪ st]> hist1). split_and!; [done|done|done|by rewrite lookup_insert_eq]. }
  cbn [mbind py_bind]. set (c' := MkUnpersisted _ _ _ _ _ _ _).
  destruct (build_deltas_spec hist2 c' ev st b a eq_refl eq_refl) as (deltas & -> & Hd);
    [by eapply lookup_weaken|done|done|by eapply prev_ok_grow|].
  cbn [mbind py_bind]. eexists _, s2, hist2, b, a. split; [done|]. cbn. split_and!; try done; [by etrans|by eapply lookup_weaken].
Qed.

(** The state before the event, given or resolved, in the handler as it is *)
Definition wanted_before (hist : gmap Z state_ids) (m : main_tables) (ev : event) (given : option state_ids) (partial_state : option bool) (st : state_ids) : Prop :=
  match given with
  | Some g => g ≠ ∅ ∧ st = g ∧ is_Some partial_state ∧ keyed key_of st
  | None =>
      partial_state = None ∧ (∀ i, i ∈ prev_event_ids ev → i ∈ dom (event_to_state_groups m)) ∧
      room_version_id m = Ok (version_of (groups_of_events m (prev_event_ids ev))) ∧ merged_state hist (groups_of_events m (prev_event_ids ev)) st
  end.

Lemma replaces_same ev replaces :
  let ev' := set_replaces_state ev replaces in
  ev_id ev' = ev_id ev ∧ ev_room_id ev' = ev_room_id ev ∧ ev_type ev' = ev_type ev ∧ ev_state_key ev' = ev_state_key ev.
Proof using Type. unfold set_replaces_state. destruct replaces as [r|]; [|done]. by destruct (_ && _). Qed.

Lemma calculate_context_info_spec e now m hist h ev given partial_state st :
  handler_ok hist h → main_ok hist m → ev_outlier ev = false → wanted_before hist m ev given partial_state st →
  ∃ c ev' h' hist', calculate_context_info e now m h ev given partial_state None = Ok (c, ev', h') ∧ hist ⊆ hist' ∧ handler_ok hist' h' ∧
    unpersisted_ok hist' c ev st ∧ ∃ replaces, ev' = set_replaces_state ev replaces ∧
      (∀ sk, ev_state_key ev = Some sk → replaces = st !! (ev_type ev, sk)).
Proof using KeySchemeLaws0 StateResolverLaws0.
  intros Hh Hm Hout Hw. unfold calculate_context_info. rewrite Hout. cbn [raise_if mbind py_bind].
  assert (∃ r before prev delta loaded p h' hist', before_event_info e now m h ev given partial_state None = Ok (r, before, prev, delta, loaded, p, h') ∧
      hist ⊆ hist' ∧ handler_ok hist' h' ∧
      (∀ g, before = Some g → hist' !! g = Some st) ∧ (before = None → loaded = Some st ∧ st ≠ ∅ ∧ prev = None) ∧ prev_ok hist' prev delta st ∧
      (∀ st', loaded = Some st' → st' = st) ∧ (loaded = None → ∃ r' en, r = Some r' ∧ sh_entries h' !! r' = Some en ∧ entry_ok hist' en st))
    as (r & before & prev & delta & loaded & p & h1 & hist1 & -> & Hsub & Hh1 & Hb & Hn & Hp & Hl & Hr).
  { unfold before_event_info. destruct given as [g|].
    - destruct Hw as (Hne & -> & [p ->] & Hk). cbn [truthy_state]. rewrite bool_decide_eq_false_2 by done.
      eexists _, _, _, _, _, _, h, hist. split; [done|]. split_and!; try done. by intros ? [= <-].
    - destruct Hw as (-> & Hev & Hver & Hst). cbn [truthy_state].
      destruct (state_before_spec e now m hist h ev st Hh Hm Hev Hver Hst) as (r & g & prev & delta & loaded & h' & en & hist' & -> & Hsub & Hh' & Hg & Hp & Hl & Hen & Ho).
      cbn [mbind py_bind]. eexists _, _, _, _, _, _, h', hist'. split; [done|]. split_and!; try done; [by intros ? [= <-]|]. intros _. by exists r, en. }
  cbn [mbind py_bind]. destruct (ev_state_key ev) as [sk|] eqn:Ek.
  2:{ eexists _, ev, h1, hist1. split; [done|]. split_and!; [done|done| |by exists None].
      split; cbn; [done|done|done| |done]. unfold event_delta. by rewrite Ek. }
  assert (∃ replaces h2, replaced_event e h1 r loaded (ev_type ev) sk = Ok (replaces, h2) ∧ handler_ok hist1 h2 ∧ replaces = st !! (ev_type ev, sk)) as (replaces & h2 & -> & Hh2 & Hrep).
  { unfold replaced_event. destruct loaded as [st0|]; [by eexists _, h1; split; [done|]; split; [done|]; rewrite (Hl st0)|].
    destruct (Hr eq_refl) as (r' & en & -> & Hen & Ho). assert (the_entry h1 r' = Ok en) as -> by (unfold the_entry; by rewrite Hen). cbn [mbind py_bind].
    destruct (entry_get_state_spec e hist1 (sh_store h1) en st (from_types [(ev_type ev, Some sk)]) (ho_groups _ _ Hh1) Ho) as (st' & s' & -> & Hg' & Ht' & Hkeys);
      [apply new_filter_canonical|].
    cbn [mbind py_bind]. eexists _, _. split; [done|]. split; [eapply handler_ok_same; [done|apply Hg'|done]|]. apply Hkeys.
    apply from_types_contains. right. by left. }
  cbn [mbind py_bind]. eexists _, _, h2, hist1. split; [done|]. split_and!; [done|done| |].
  - split; cbn; [done|done|done| |done]. unfold event_delta. by rewrite Ek.
  - exists replaces. split; [done|]. by intros sk' [= <-].
Qed.

End Handler.

(** ** The resolution algorithms *)

(** The key of an event in the store or in flight *)
Definition key_law `{!StateResolutionStore} (key_of : string → string * string) (event_map : option emap) : Prop :=
  (∀ ids i e sk, store_get_events ids !! i = Some e → ev_state_key e = Some sk → key_of i = (ev_type e, sk)) ∧
  (∀ i e sk, default ∅ event_map !! i = Some e → ev_id e = i ∧ (ev_state_key e = Some sk → key_of i = (ev_type e, sk))).

Lemma resolver_laws `{!External} `{!StateResolutionStore} `{!LawfulStore} fuel room_id event_map key_of :
  key_law key_of event_map → @StateResolverLaws key_of (resolver fuel room_id event_map).
Proof.
  intros [Hstore Hmap] ver sets st. unfold resolve_states, resolver. destruct (dict_get ver KNOWN_ROOM_VERSIONS) as [rv|]; [|done]. case_bool_decide.
  - intros Hr Hsets k v Hv. destruct (resolve_v1_picks_candidates (λ ids, store_get_events (elements ids)) room_id rv sets event_map st k v) as [Hcand _]; try done.
    + intros ids j e [_ He]%store_get_events_spec. done.
    + intros em j e -> He. by apply (Hmap j e "").
    + destruct (Hcand Hv) as (s & Hs & Hk). by eapply Forall_forall in Hsets; [apply Hsets|].
  - destruct (resolve_events_with_store fuel room_id rv sets (default ∅ event_map)) as [[[r em']|]|] eqn:Er; [|done..]. intros [= <-] Hsets k v Hv.
    destruct (resolve_own_keys _ _ _ _ _ _ _ k v Er Hv) as [(s & Hs & Hk)|(e & Hsrc & Ht & Hsk)].
    + by eapply Forall_forall in Hsets; [apply Hsets|].
    + destruct k as [ty sk]. cbn in Ht, Hsk. subst ty. destruct Hsrc as [(ids & e0 & He0 & Hse)|(e0 & He0 & Hse)].
      * rewrite <- (same_event_field ev_type _ _ (λ _, eq_refl) Hse). apply (Hstore ids _ e0); [done|]. by rewrite (same_event_field ev_state_key _ _ (λ _, eq_refl) Hse).
      * rewrite <- (same_event_field ev_type _ _ (λ _, eq_refl) Hse). apply (Hmap v e0); [done|]. by rewrite (same_event_field ev_state_key _ _ (λ _, eq_refl) Hse).
Qed.

(** ** Example *)

(** The room of [StateResV2Facts], with a group for the topic and one for the ban; an event
    after both sets the name of the room. *)
Definition ctx_tables : state_tables :=
  MkState {[1 := ("!r:hs", "$topic"); 2 := ("!r:hs", "$ban")]} ∅ {[1 := topic_state; 2 := ban_state]} 3.
Definition ctx_hist : gmap Z state_ids := {[1 := topic_state; 2 := ban_state]}.
Definition ctx_main : main_tables := MkMain {["$topic" := 1; "$ban" := 2]} ∅ (Ok "11").
Definition ctx_event : event := mk_event RoomVersions.V11 "$name" "m.room.name" alice (Some "") [] 10 ["$topic"; "$ban"] [].
Definition ctx_key_of (i : string) : string * string :=
  match stored !! i with Some e => (ev_type e, default "" (ev_state_key e)) | None => ("m.room.name", "") end.
#[local] Instance ctx_resolver : StateResolver := resolver 64 "!r:hs" None.

Lemma ctx_resolver_laws : StateResolverLaws ctx_key_of.
Proof.
  apply resolver_laws. split; [|by intros i e sk]. intros ids i e sk [_ Hi]%room_store_events Hsk. unfold ctx_key_of. by rewrite Hi, Hsk.
Qed.

Definition ctx_store : tree_store.
Proof. take_ok (new_store (K := list string) (S := TreeCache) ctx_tables). Defined.
Definition ctx_handler : state_handler := MkHandler ctx_store ∅ 0 (new_expiring_cache 100000 50000 3600000 true true).

(** The resolved state *)
Definition ctx_resolved : py state_ids := resolve_states "11" (map snd (map_to_list (group_states ctx_hist {[1; 2]}))).
Definition ctx_state : state_ids := match ctx_resolved with Ok st => st | Raise _ => ∅ end.

Lemma ctx_resolved_Ok : ctx_resolved = Ok ctx_state.
Proof.
  assert (match ctx_resolved with Ok _ => true | Raise _ => false end = true) as Hb by (vm_compute; reflexivity). revert Hb. unfold ctx_state. by destruct ctx_resolved.
Qed.

Lemma ctx_states g st : stands_for ctx_tables g st ↔ ctx_hist !! g = Some st.
Proof.
  assert (∀ g, state_group_edges ctx_tables !! g = None) as Hnone by done.
  assert (∀ g, g ∈ dom (state_groups ctx_tables) → ctx_hist !! g = Some (group_rows ctx_tables g)) as Hrows.
  { intros x Hx. assert (x = 1 ∨ x = 2) as [->| ->]; [|done|done]. cbn [state_groups ctx_tables] in Hx. rewrite dom_insert_L, dom_singleton_L in Hx. clear -Hx. set_solver. }
  split.
  - intros (Hg & gs & Hc & ->). destruct Hc as [g He|g p gs He _]; [|done]. cbn [chain_state foldr]. rewrite (right_id_L ∅ (∪)). by apply Hrows.
  - intros Hst. assert (g ∈ dom (state_groups ctx_tables)) as Hg.
    { assert (g ∈ dom ctx_hist) as Hd by (apply elem_of_dom; eauto). unfold ctx_hist in Hd. cbn [state_groups ctx_tables]. by rewrite dom_insert_L, dom_singleton_L in *. }
    split; [done|]. exists [g]. split; [by constructor|]. cbn [chain_state foldr]. rewrite (right_id_L ∅ (∪)). rewrite Hrows in Hst by done. by injection Hst.
Qed.

Lemma ctx_handler_ok : handler_ok ctx_key_of (λ _, "11") ctx_hist ctx_handler.
Proof.
  destruct (new_store_ok ctx_tables ctx_store ctx_hist) as [Hs Ht]; [apply state_ok_checked; vm_compute; reflexivity|vm_compute; reflexivity|apply ctx_states|].
  split; [split; [exact Hs| | |]| | |].
  - intros g st Hst. cbn [sh_store ctx_handler]. rewrite Ht. by apply ctx_states.
  - done.
  - apply (bool_decide_unpack (map_Forall (λ _ st, map_Forall (λ k v, ctx_key_of v = k) st) ctx_hist)). vm_compute. exact I.
  - split; [constructor|done].
  - by intros r [? ?].
  - by intros names r.
Qed.

