(* ===== verification/ContextCodec.v ===== *)
(** * Event contexts as JSON: [serialize] and [deserialize] of [synapse/events/snapshot.py]

    A context is sent to the worker that persists the event as JSON.  State maps have
    keys that JSON has no form for and are sent as lists of triples. *)

From S2P Require Import Prelude PyData RoomVersions Ids Events EventAuth StateFilters StateGroups StateHandler.

Open Scope Z_scope.

(** ** Encoding *)

Definition json_group (g : option Z) : json := match g with Some z => JInt z | None => JNull end.
Definition json_str_opt (s : option string) : json := match s with Some s => JStr s | None => JNull end.

(** [_encode_state_dict] *)
Definition encode_state_dict (state_dict : option state_ids) : json :=
  match state_dict with
  | None => JNull
  | Some m => JList (map (λ x, JList [JStr x.1.1; JStr x.1.2; JStr x.2]) (map_to_list m))
  end.

(** [_encode_state_group_delta]; tuples are lists in JSON *)
Definition encode_state_group_delta (state_group_delta : gmap (Z * Z) state_ids) : json :=
  JList (map (λ x, JList [JInt x.1.1; JInt x.1.2; encode_state_dict (Some x.2)]) (map_to_list state_group_delta)).

Definition serialize (c : EventContext) : json :=
  JObj [("state_group", json_group (ctx_state_group c));
        ("state_group_before_event", json_group (ctx_state_group_before_event c));
        ("rejected", json_str_opt (ctx_rejected c));
        ("state_group_deltas", encode_state_group_delta (ctx_state_group_deltas c));
        ("state_delta_due_to_event", encode_state_dict (ctx_state_delta_due_to_event c));
        ("app_service_id", json_str_opt (ctx_app_service c));
        ("partial_state", JBool (ctx_partial_state c))].

(** ** Decoding *)

(** The code takes the values as they come; values of other types than [serialize] writes
    are left out here, as a type error. *)
Definition group_of_json (j : json) : py (option Z) :=
  match j with JInt z => Ok (Some z) | JNull => Ok None | _ => Raise TypeError end.
Definition str_opt_of_json (j : json) : py (option string) :=
  match j with JStr s => Ok (Some s) | JNull => Ok None | _ => Raise TypeError end.
Definition bool_of_json (j : json) : py bool := match j with JBool b => Ok b | _ => Raise TypeError end.

(** One triple of the list; a list of another length cannot be unpacked *)
Definition decode_entry (acc : state_ids) (j : json) : py state_ids :=
  match j with
  | JList [JStr etype; JStr state_key; JStr v] => Ok (<[(etype, state_key) := v]> acc)
  | JList [_; _; _] => Raise TypeError
  | JList _ => Raise ValueError
  | _ => Raise TypeError
  end.

(** [_decode_state_dict] *)
Definition decode_state_dict (j : json) : py (option state_ids) :=
  match j with
  | JNull => Ok None
  | JList l => m ← py_fold decode_entry ∅ l; Ok (Some m)
  | _ => Raise TypeError
  end.

Definition decode_delta (acc : gmap (Z * Z) state_ids) (j : json) : py (gmap (Z * Z) state_ids) :=
  match j with
  | JList [JInt g1; JInt g2; d] =>
      state_map ← decode_state_dict d;
      match state_map with Some m => Ok (<[(g1, g2) := m]> acc) | None => Raise AssertionError end
  | JList [_; _; _] => Raise TypeError
  | JList _ => Raise ValueError
  | _ => Raise TypeError
  end.

(** [_decode_state_group_delta] *)
Definition decode_state_group_delta (j : json) : py (gmap (Z * Z) state_ids) :=
  match j with
  | JNull => Ok ∅
  | JList l => py_fold decode_delta ∅ l
  | _ => Raise TypeError
  end.

(** [deserialize]; [get_app_service_by_id] looks a service up among those of the
    configuration, by its id *)
Definition deserialize (get_app_service_by_id : string → option string) (input : json) : py EventContext :=
  match input with
  | JObj d =>
      g ← dict_item "state_group" d; state_group ← group_of_json g;
      b ← dict_item "state_group_before_event" d; state_group_before_event ← group_of_json b;
      ds ← dict_item "state_group_deltas" d; state_group_deltas ← decode_state_group_delta ds;
      sd ← dict_item "state_delta_due_to_event" d; state_delta ← decode_state_dict sd;
      r ← dict_item "rejected" d; rejected ← str_opt_of_json r;
      partial_state ← bool_of_json (default (JBool false) (dict_get "partial_state" d));
      a ← dict_item "app_service_id" d; app_service_id ← str_opt_of_json a;
      let app_service :=
        match app_service_id with
        | Some i => if bool_decide (i = "") then None else get_app_service_by_id i
        | None => None
        end in
      Ok (MkContext state_group state_group_before_event state_delta state_group_deltas rejected app_service partial_state)
  | _ => Raise TypeError
  end.

(** ** The round trip *)

Lemma decode_entries (l : list ((string * string) * string)) (acc : state_ids) :
  py_fold decode_entry acc (map (λ x, JList [JStr x.1.1; JStr x.1.2; JStr x.2]) l) = Ok (foldl (λ acc x, <[x.1 := x.2]> acc) acc l).
Proof. revert acc. induction l as [|[[ty sk] v] l IH]; intros acc; cbn; [done|]. apply IH. Qed.

Lemma foldl_insert_map {K V} `{Countable K} (m acc : gmap K V) : foldl (λ acc x, <[x.1 := x.2]> acc) acc (map_to_list m) = m ∪ acc.
Proof.
  apply map_eq. intros k. rewrite lookup_union.
  assert (∀ (l : list (K * V)) (acc : gmap K V), NoDup (l.*1) → foldl (λ acc x, <[x.1 := x.2]> acc) acc l !! k = union ((list_to_map l : gmap K V) !! k) (acc !! k)) as Hl.
  { clear. induction l as [|[k0 v0] l IH]; intros acc Hn; cbn; [by rewrite lookup_empty, (left_id_L None union)|]. apply NoDup_cons in Hn as [Hk Hn].
    rewrite IH by done. destruct (decide (k = k0)) as [->|Hne].
    - rewrite !lookup_insert_eq. rewrite (not_elem_of_list_to_map_1 l k0) by done. cbn. by destruct (acc !! k0).
    - by rewrite !lookup_insert_ne. }
  rewrite Hl by apply NoDup_fst_map_to_list. by rewrite list_to_map_to_list.
Qed.

Lemma decode_encode_state_dict st : decode_state_dict (encode_state_dict st) = Ok st.
Proof.
  destruct st as [m|]; [|done]. cbn. rewrite decode_entries. cbn [mbind py_bind]. by rewrite foldl_insert_map, (right_id_L ∅ (∪)).
Qed.

Lemma decode_encode_deltas deltas : decode_state_group_delta (encode_state_group_delta deltas) = Ok deltas.
Proof.
  unfold encode_state_group_delta, decode_state_group_delta. rewrite <- (right_id_L ∅ (∪) deltas) at 2. rewrite <- foldl_insert_map.
  generalize (∅ : gmap (Z * Z) state_ids) as acc. induction (map_to_list deltas) as [|[[g1 g2] m] l IH]; intros acc; cbn [map py_fold foldl]; [done|].
  assert (decode_delta acc (JList [JInt g1; JInt g2; encode_state_dict (Some m)]) = Ok (<[(g1, g2) := m]> acc)) as Hd.
  { unfold decode_delta. by rewrite decode_encode_state_dict. }
  cbn [fst snd]. rewrite Hd. cbn [mbind py_bind]. apply IH.
Qed.

(** C40: An event context survives the way to another worker: what [serialize] writes,
    [deserialize] reads back as the same context, with its groups, its differences, the
    reason of its rejection, whether its state is partial, and its application service, if
    the worker that reads it has that service. *)
Theorem context_roundtrip get_app_service_by_id c :
  (∀ i, ctx_app_service c = Some i → i ≠ "" ∧ get_app_service_by_id i = Some i) →
  deserialize get_app_service_by_id (serialize c) = Ok c.
Proof.
  intros Happ. destruct c as [g b sd ds r a p]. cbn in Happ. unfold serialize. cbn [ctx_state_group ctx_state_group_before_event ctx_rejected
    ctx_state_group_deltas ctx_state_delta_due_to_event ctx_app_service ctx_partial_state].
  assert (∀ o, group_of_json (json_group o) = Ok o) as Hg by by intros [].
  assert (∀ o, str_opt_of_json (json_str_opt o) = Ok o) as Hs by by intros [].
  pose proof (Hg g) as Jg. pose proof (Hg b) as Jb. pose proof (Hs r) as Jr. pose proof (Hs a) as Ja.
  pose proof (decode_encode_deltas ds) as Jds. pose proof (decode_encode_state_dict sd) as Jsd. clear Hg Hs.
  revert Jg Jb Jr Ja Jds Jsd. generalize (json_group g), (json_group b), (json_str_opt r), (json_str_opt a), (encode_state_group_delta ds), (encode_state_dict sd).
  intros jg jb jr ja jds jsd Jg Jb Jr Ja Jds Jsd.
  change ((state_group ← group_of_json jg; state_group_before_event ← group_of_json jb; state_group_deltas ← decode_state_group_delta jds;
    state_delta ← decode_state_dict jsd; rejected ← str_opt_of_json jr; app_service_id ← str_opt_of_json ja;
    Ok (MkContext state_group state_group_before_event state_delta state_group_deltas rejected
      (match app_service_id with Some i => if bool_decide (i = "") then None else get_app_service_by_id i | None => None end) p)) = Ok (MkContext g b sd ds r a p)).
  rewrite Jg. cbn [mbind py_bind]. rewrite Jb. cbn [mbind py_bind]. rewrite Jds. cbn [mbind py_bind]. rewrite Jsd. cbn [mbind py_bind].
  rewrite Jr. cbn [mbind py_bind]. rewrite Ja. cbn [mbind py_bind]. destruct a as [i|]; [|done].
  destruct (Happ i eq_refl) as [Hi Ha]. by rewrite bool_decide_eq_false_2, Ha.
Qed.

Lemma context_roundtrip_witness :
  deserialize Some (serialize (MkContext (Some 2) (Some 1) (Some {[("m.room.name", "") := "$e"]}) {[(1, 2) := {[("m.room.name", "") := "$e"]}]} None (Some "irc") false))
  = Ok (MkContext (Some 2) (Some 1) (Some {[("m.room.name", "") := "$e"]}) {[(1, 2) := {[("m.room.name", "") := "$e"]}]} None (Some "irc") false).
Proof. apply context_roundtrip. by intros i [= <-]. Defined.
