(* ===== verification/EventTables.v ===== *)
(** * The tables events are persisted in: [storage/databases/main/events.py]

    The graph of the events of a room with its forward and backward extremities, the
    state groups of events, the memberships and the current state, and the transaction
    that stores a batch of events in them.  The tables that hold what is derived from the
    content of single events (search, relations, redactions, push actions, labels) and
    those of sliding sync are left out, as are the caches of the store; the chain cover
    index is in [ChainCover].  A transaction that raises leaves the tables as they were. *)

From S2P Require Import Prelude PyData RoomVersions Ids Events EventAuth StateFilters IterUtils LinkedList CacheStore LruCache TreeCache DictionaryCache StateGroups StateGroupCache StateHandler.

From Stdlib Require Import Ascii.

Open Scope Z_scope.

(** [hs.is_mine_id] *)
Definition hs_is_mine_id (hostname : string) (s : string) : bool :=
  match str_cut ":" s with Some (_, host) => bool_decide (host = hostname) | None => false end.

(** ** The tables *)

(** A row of [events], with the event as [event_json] has it *)
Record event_row : Type := MkEventRow {
  er_event : event;
  er_stream_ordering : Z;
  er_outlier : bool;
  er_rejection_reason : option string;
}.

(** [events] and [event_json], [rejections], [event_edges], [event_forward_extremities]
    and [event_backward_extremities] as pairs of room and event,
    [stream_ordering_to_exterm], [timeline_gaps], [room_depth] *)
Record event_graph : Type := MkGraph {
  g_events : gmap string event_row;
  g_rejections : gmap string string;
  g_edges : gset (string * string);
  g_forward : gset (string * string);
  g_backward : gset (string * string);
  g_exterm : list (string * string * Z);
  g_gaps : list (string * Z);
  g_depth : gmap string Z;
}.

(** [event_to_state_groups], [partial_state_rooms], [partial_state_events],
    [ex_outlier_stream], [event_txn_id_device_id] *)
Record event_info : Type := MkInfo {
  i_state_groups : gmap string Z;
  i_partial_rooms : gset string;
  i_partial_events : gmap string string;
  i_ex_outliers : list (Z * string * Z);
  i_txn_ids : gmap (string * string * string * string) string;
}.

(** A row of [current_state_delta_stream] *)
Record delta_row : Type := MkDeltaRow {
  dr_stream_id : Z;
  dr_room_id : string;
  dr_key : string * string;
  dr_event_id : option string;
  dr_prev_event_id : option string;
}.

(** [rooms] (the version), [room_memberships], [local_current_membership],
    [current_state_events], [current_state_delta_stream] *)
Record room_tables : Type := MkRoomTables {
  r_rooms : gmap string (option json);
  r_memberships : gmap string (string * json);
  r_local : gmap (string * string) (string * json);
  r_current : gmap string state_ids;
  r_deltas : list delta_row;
}.

Record event_tables : Type := MkTables {
  t_graph : event_graph;
  t_info : event_info;
  t_room : room_tables;
}.

Definition with_graph (t : event_tables) (g : event_graph) : event_tables := MkTables g (t_info t) (t_room t).
Definition with_info (t : event_tables) (i : event_info) : event_tables := MkTables (t_graph t) i (t_room t).
Definition with_room (t : event_tables) (r : room_tables) : event_tables := MkTables (t_graph t) (t_info t) r.

(** An event that is persisted, with its context and what the other definitions do not use
    of its internal metadata: the stream ordering, whether it is an out-of-band membership,
    and the device and transaction that sent it *)
Record item : Type := MkItem {
  it_event : event;
  it_context : EventContext;
  it_stream : Z;
  it_oob : bool;
  it_txn : option string * option string;
}.
Definition it_id (x : item) : string := ev_id (it_event x).

(** [context.rejected] in a condition *)
Definition is_rejected (c : EventContext) : bool := match ctx_rejected c with Some r => bool_decide (r ≠ "") | None => false end.

(** [DeltaState] *)
Record DeltaState : Type := MkDelta {
  to_delete : list (string * string);
  to_insert : state_ids;
  no_longer_in_room : bool;
}.
Definition is_noop (d : DeltaState) : bool :=
  bool_decide (to_delete d = []) && bool_decide (to_insert d = ∅) && negb (no_longer_in_room d).

(** The keys of a difference, in [itertools.chain(to_delete, to_insert)] *)
Definition delta_keys (d : DeltaState) : list (string * string) := to_delete d ++ map fst (map_to_list (to_insert d)).

(** ** Reading the graph *)

(** [get_latest_event_ids_in_room] *)
Definition get_latest_event_ids_in_room (g : event_graph) (room_id : string) : gset string :=
  set_map snd (filter (λ x, x.1 = room_id) (g_forward g)).

(** [events] joined with [rejections] and [event_json] *)
Definition is_soft_failed (g : event_graph) (i : string) : bool :=
  match g_events g !! i with Some row => ev_soft_failed (er_event row) | None => false end.
Definition in_rejections (g : event_graph) (i : string) : bool := bool_decide (i ∈ dom (g_rejections g)).
Definition not_outlier (g : event_graph) (i : string) : bool :=
  match g_events g !! i with Some row => negb (er_outlier row) | None => false end.

(** The rows of [event_edges] that a condition selects *)
Definition edge_rows (g : event_graph) (p : string * string → bool) : list (string * string) := List.filter p (elements (g_edges g)).

(** [_get_events_which_are_prevs] *)
Definition get_events_which_are_prevs (g : event_graph) (event_ids : list string) : list string :=
  concat (map (λ batch : list string,
    map snd (edge_rows g (λ x, not_outlier g x.1 && negb (in_rejections g x.1) && bool_decide (x.2 ∈ batch) && negb (is_soft_failed g x.1))))
    (batch_iter event_ids 100)).

(** One row of the query of [_get_prevs_before_rejected] *)
Definition prev_row (g : event_graph) (s : list string * gset string) (x : string * string) : list string * gset string :=
  let '(to_check, existing_prevs) := s in
  if bool_decide (x.2 ∈ existing_prevs) then s
  else if is_soft_failed g x.1 || in_rejections g x.1 then (to_check ++ [x.2], {[x.2]} ∪ existing_prevs)
  else s.

(** The loop of its transaction *)
Fixpoint prevs_before_rejected_txn (fuel : nat) (g : event_graph) (to_check : list string) (existing_prevs : gset string) : option (gset string) :=
  match to_check with
  | [] => Some existing_prevs
  | _ =>
      match fuel with
      | O => None
      | S fuel =>
          let rows := edge_rows g (λ x, not_outlier g x.1 && bool_decide (x.1 ∈ to_check)) in
          let '(to_check, existing_prevs) := foldl (prev_row g) ([], existing_prevs) rows in
          prevs_before_rejected_txn fuel g to_check existing_prevs
      end
  end.

(** [_get_prevs_before_rejected] *)
Definition get_prevs_before_rejected (g : event_graph) (event_ids : list string) : option (gset string) :=
  foldl (λ existing_prevs batch, existing_prevs ≫= prevs_before_rejected_txn (size (g_edges g) + 1) g batch)
    (Some ∅) (batch_iter event_ids 100).

(** [get_events] of the main store, with rejected events and without redaction *)
Definition get_events (g : event_graph) (event_ids : gset string) : gmap string event :=
  er_event <$> filter (λ x, x.1 ∈ event_ids) (g_events g).

(** [get_already_persisted_events] *)
Definition already_persisted_step (i : event_info) (s : gmap string string * gmap (string * string * string * string) string) (x : item)
    : gmap string string * gmap (string * string * string * string) string :=
  let '(mapping, txn_id_to_event) := s in
  match it_txn x with
  | (Some device_id, Some txn_id) =>
      if bool_decide (device_id = "") || bool_decide (txn_id = "") then s
      else
        let key := (ev_room_id (it_event x), ev_sender (it_event x), device_id, txn_id) in
        match txn_id_to_event !! key with
        | Some existing => (<[it_id x := existing]> mapping, txn_id_to_event)
        | None =>
            match i_txn_ids i !! key with
            | Some existing => (<[it_id x := existing]> mapping, <[key := existing]> txn_id_to_event)
            | None => (mapping, <[key := it_id x]> txn_id_to_event)
            end
        end
  | _ => s
  end.
Definition get_already_persisted_events (i : event_info) (l : list item) : gmap string string :=
  (foldl (already_persisted_step i) (∅, ∅) l).1.

(** ** The steps of the transaction *)

(** [_filter_events_and_contexts_for_duplicates] *)
Definition add_item (l : list item) (x : item) : list item :=
  match List.find (λ y, bool_decide (it_id y = it_id x)) l with
  | Some y =>
      if negb (ev_outlier (it_event x)) && ev_outlier (it_event y)
      then List.filter (λ y, bool_decide (it_id y ≠ it_id x)) l ++ [x] else l
  | None => l ++ [x]
  end.
Definition filter_events_and_contexts_for_duplicates (l : list item) : list item := foldl add_item [] l.

(** [_update_min_depth_for_room_txn] *)
Definition update_min_depth_for_room_txn (g : event_graph) (room_id : string) (depth : Z) : event_graph :=
  let keep := match g_depth g !! room_id with Some min_depth => min_depth <=? depth | None => false end in
  if keep then g
  else MkGraph (g_events g) (g_rejections g) (g_edges g) (g_forward g) (g_backward g) (g_exterm g) (g_gaps g) (<[room_id := depth]> (g_depth g)).

(** [_update_room_depths_txn] *)
Definition update_room_depths_txn (g : event_graph) (room_id : string) (l : list item) : event_graph :=
  let depth_update := foldl (λ d x, if negb (ev_outlier (it_event x)) && negb (is_rejected (it_context x)) then Z.max (ev_depth (it_event x)) d else d) 0 l in
  update_min_depth_for_room_txn g room_id depth_update.

(** [_store_event_state_mappings_txn]: the groups to store *)
Definition state_mapping (x : item) : py (option (string * Z)) :=
  if ev_outlier (it_event x) then Ok None
  else
    match (if is_rejected (it_context x) then ctx_state_group_before_event (it_context x) else ctx_state_group (it_context x)) with
    | Some g => Ok (Some (it_id x, g))
    | None => Raise IntegrityError
    end.

(** The rows of [partial_state_events] refer to [partial_state_rooms], and an event has
    one. *)
Definition add_partial_event (i : event_info) (x : item) : py event_info :=
  if ctx_partial_state (it_context x) then
    raise_if (bool_decide (ev_room_id (it_event x) ∉ i_partial_rooms i) || bool_decide (it_id x ∈ dom (i_partial_events i))) PartialStateConflictError ;;
    Ok (MkInfo (i_state_groups i) (i_partial_rooms i) (<[it_id x := ev_room_id (it_event x)]> (i_partial_events i)) (i_ex_outliers i) (i_txn_ids i))
  else Ok i.

Definition store_event_state_mappings_txn (i : event_info) (l : list item) : py event_info :=
  py_for_each (λ x, raise_if (ev_outlier (it_event x) && ctx_partial_state (it_context x)) ValueError) l ;;
  i ← py_fold add_partial_event i l;
  py_fold (λ i x,
    mapping ← state_mapping x;
    Ok (match mapping with
        | Some (event_id, g) => MkInfo (<[event_id := g]> (i_state_groups i)) (i_partial_rooms i) (i_partial_events i) (i_ex_outliers i) (i_txn_ids i)
        | None => i
        end)) i l.

(** [_update_backward_extremeties] *)
Definition update_backward_extremeties (g : event_graph) (l : list item) : py event_graph :=
  match l with
  | [] => Raise IndexError
  | x0 :: _ =>
      let room_id := ev_room_id (it_event x0) in
      let potential : gset string := list_to_set (concat (map (λ x, if ev_outlier (it_event x) then [] else prev_event_ids (it_event x)) l)) in
      if bool_decide (potential = ∅) then Ok g
      else
        let potential := filter (λ i, not_outlier g i = false) potential in
        let gap_events := if bool_decide (potential = ∅) then []
          else map (λ x, (room_id, it_stream x)) (List.filter (λ x, existsb (λ i, bool_decide (i ∈ potential)) (prev_event_ids (it_event x))) l) in
        let to_remove := map (λ x, (ev_room_id (it_event x), it_id x))
          (List.filter (λ x, negb (ev_outlier (it_event x)) || bool_decide (prev_event_ids (it_event x) = [])) l) in
        Ok (MkGraph (g_events g) (g_rejections g) (g_edges g) (g_forward g)
              ((g_backward g ∪ set_map (pair room_id) potential) ∖ list_to_set to_remove)
              (g_exterm g) (g_gaps g ++ gap_events) (g_depth g))
  end.

(** [_update_outliers_txn]: an event that was stored as an outlier *)
Definition set_not_outlier (g : event_graph) (event_id : string) : event_graph :=
  MkGraph (alter (λ row, MkEventRow (er_event row) (er_stream_ordering row) false (er_rejection_reason row)) event_id (g_events g))
    (g_rejections g) (g_edges g) (g_forward g) (g_backward g) (g_exterm g) (g_gaps g) (g_depth g).

Definition ex_outlier (t : event_tables) (x : item) : py event_tables :=
  i ← store_event_state_mappings_txn (t_info t) [x];
  state_group ← match ctx_state_group (it_context x) with Some sg => Ok sg | None => Raise IntegrityError end;
  let i := MkInfo (i_state_groups i) (i_partial_rooms i) (i_partial_events i) (i_ex_outliers i ++ [(it_stream x, it_id x, state_group)]) (i_txn_ids i) in
  g ← update_backward_extremeties (set_not_outlier (t_graph t) (it_id x)) [x];
  Ok (MkTables g i (t_room t)).

Definition update_outliers_txn (t : event_tables) (l : list item) : py (list item * event_tables) :=
  let have_persisted := er_outlier <$> g_events (t_graph t) in
  t ← py_fold (λ t x,
        match have_persisted !! it_id x with
        | None => Ok t
        | Some outlier_persisted =>
            if is_rejected (it_context x) then Ok t
            else if negb (ev_outlier (it_event x)) && outlier_persisted then ex_outlier t x
            else Ok t
        end) t l;
  Ok (List.filter (λ x, bool_decide (have_persisted !! it_id x = None)) l, t).

(** [_store_event_txn]: the rows of [events] and [event_json] *)
Definition store_event (g : event_graph) (x : item) : event_graph :=
  MkGraph (<[it_id x := MkEventRow (it_event x) (it_stream x) (ev_outlier (it_event x)) (ctx_rejected (it_context x))]> (g_events g))
    (g_rejections g) (g_edges g) (g_forward g) (g_backward g) (g_exterm g) (g_gaps g) (g_depth g).
Definition store_event_txn (g : event_graph) (l : list item) : event_graph := foldl store_event g l.

(** [_update_forward_extremities_txn] *)
Definition update_forward_extremities_txn (g : event_graph) (room_id : string) (new_forward_extremities : gset string) (max_stream_order : Z) : event_graph :=
  MkGraph (g_events g) (g_rejections g) (g_edges g)
    (filter (λ x, x.1 ≠ room_id) (g_forward g) ∪ set_map (pair room_id) new_forward_extremities)
    (g_backward g) (g_exterm g ++ map (λ i, (room_id, i, max_stream_order)) (elements new_forward_extremities)) (g_gaps g) (g_depth g).

(** [_persist_transaction_ids_txn] *)
Definition persist_transaction_id (i : event_info) (x : item) : py event_info :=
  match it_txn x with
  | (Some device_id, Some txn_id) =>
      let key := (ev_room_id (it_event x), ev_sender (it_event x), device_id, txn_id) in
      raise_if (bool_decide (is_Some (i_txn_ids i !! key)) || bool_decide (it_id x ∈ map_img (SA := gset string) (i_txn_ids i))) IntegrityError ;;
      Ok (MkInfo (i_state_groups i) (i_partial_rooms i) (i_partial_events i) (i_ex_outliers i) (<[key := it_id x]> (i_txn_ids i)))
  | _ => Ok i
  end.
Definition persist_transaction_ids_txn (i : event_info) (l : list item) : py event_info := py_fold persist_transaction_id i l.

(** [_store_rejected_events_txn] *)
Definition store_rejection (g : event_graph) (x : item) : event_graph :=
  MkGraph (g_events g) (match ctx_rejected (it_context x) with Some reason => <[it_id x := reason]> (g_rejections g) | None => g_rejections g end)
    (g_edges g) (g_forward g) (g_backward g) (g_exterm g) (g_gaps g) (g_depth g).
Definition store_rejected_events_txn (g : event_graph) (l : list item) : list item * event_graph :=
  (List.filter (λ x, negb (is_rejected (it_context x))) l, foldl store_rejection g (List.filter (λ x, is_rejected (it_context x)) l)).

(** [_handle_mult_prev_events] *)
Definition add_edge (g : event_graph) (edge : string * string) : py event_graph :=
  raise_if (bool_decide (edge ∈ g_edges g)) IntegrityError ;;
  Ok (MkGraph (g_events g) (g_rejections g) ({[edge]} ∪ g_edges g) (g_forward g) (g_backward g) (g_exterm g) (g_gaps g) (g_depth g)).
Definition handle_mult_prev_events (g : event_graph) (l : list item) : py event_graph :=
  g ← py_fold add_edge g (concat (map (λ x, map (pair (it_id x)) (prev_event_ids (it_event x))) l));
  update_backward_extremeties g l.

(** [_store_room_members_txn]: the row of the event, and the local membership *)
Definition store_room_member (r : room_tables) (x : item) : py room_tables :=
  user ← state_key (it_event x);
  m ← membership (it_event x);
  raise_if (bool_decide (it_id x ∈ dom (r_memberships r)) || (match m with JNull => true | _ => false end)) IntegrityError ;;
  Ok (MkRoomTables (r_rooms r) (<[it_id x := (user, m)]> (r_memberships r)) (r_local r) (r_current r) (r_deltas r)).
Definition store_local_membership (hostname : string) (inhibit : bool) (r : room_tables) (x : item) : py room_tables :=
  user ← state_key (it_event x);
  if hs_is_mine_id hostname user && negb inhibit && ev_outlier (it_event x) && it_oob x then
    m ← membership (it_event x);
    raise_if (negb (existsb (is_str m) ["invite"; "knock"; "leave"])) AssertionError ;;
    Ok (MkRoomTables (r_rooms r) (r_memberships r) (<[(ev_room_id (it_event x), user) := (it_id x, m)]> (r_local r)) (r_current r) (r_deltas r))
  else Ok r.
Definition store_room_members_txn (hostname : string) (r : room_tables) (l : list item) (inhibit : bool) : py room_tables :=
  r ← py_fold store_room_member r l;
  py_fold (store_local_membership hostname inhibit) r l.

(** [_update_metadata_tables_txn], for the tables here *)
Definition update_metadata_tables_txn (hostname : string) (t : event_tables) (l : list item) (inhibit : bool) : py event_tables :=
  match l with
  | [] => Ok t
  | _ =>
      g ← handle_mult_prev_events (t_graph t) l;
      r ← store_room_members_txn hostname (t_room t) (List.filter (λ x, bool_decide (ev_type (it_event x) = EventTypes.Member)) l) inhibit;
      Ok (MkTables g (t_info t) r)
  end.

(** ** The current state *)

Definition current_state (r : room_tables) (room_id : string) : state_ids := default ∅ (r_current r !! room_id).

(** [_upsert_room_version_txn] *)
Definition upsert_room_version_txn (g : event_graph) (r : room_tables) (room_id : string) : room_tables :=
  match current_state r room_id !! (EventTypes.Create, "") ≫= (g_events g !!.) with
  | Some row =>
      let room_version := default (JStr "1") (dict_get "room_version" (ev_content (er_event row))) in
      MkRoomTables (<[room_id := Some room_version]> (r_rooms r)) (r_memberships r) (r_local r) (r_current r) (r_deltas r)
  | None => r
  end.

(** The rows of [local_current_membership] that are replaced *)
Definition insert_local (room_id : string) (r : room_tables) (x : string * string * string) : py room_tables :=
  let '(_, user, event_id) := x in
  match r_memberships r !! event_id with
  | Some (_, m) => Ok (MkRoomTables (r_rooms r) (r_memberships r) (<[(room_id, user) := (event_id, m)]> (r_local r)) (r_current r) (r_deltas r))
  | None => Raise IntegrityError
  end.
Definition local_member (hostname : string) (key : string * string) : bool := bool_decide (key.1 = EventTypes.Member) && hs_is_mine_id hostname key.2.

(** [_update_current_state_txn], for the tables here *)
Definition update_current_state_txn (hostname : string) (g : event_graph) (r : room_tables) (room_id : string) (d : DeltaState) (stream_id : Z) : py room_tables :=
  let cur := current_state r room_id in
  let r :=
    if no_longer_in_room d then
      let r := upsert_room_version_txn g r room_id in
      let rows := map (λ x, MkDeltaRow stream_id room_id x.1 None (Some x.2)) (map_to_list cur) in
      MkRoomTables (r_rooms r) (r_memberships r) (r_local r) (delete room_id (r_current r)) (r_deltas r ++ rows)
    else
      let rows := map (λ k, MkDeltaRow stream_id room_id k (to_insert d !! k) (cur !! k)) (delta_keys d) in
      MkRoomTables (r_rooms r) (r_memberships r) (r_local r)
        (<[room_id := to_insert d ∪ filter (λ x, x.1 ∉ delta_keys d) cur]> (r_current r)) (r_deltas r ++ rows) in
  let gone := map (λ k, (room_id, k.2)) (List.filter (local_member hostname) (delta_keys d)) in
  let r := MkRoomTables (r_rooms r) (r_memberships r) (filter (λ x, x.1 ∉ gone) (r_local r)) (r_current r) (r_deltas r) in
  py_fold (insert_local room_id) r (List.filter (λ x, local_member hostname x.1) (map_to_list (to_insert d))).

(** ** The transaction *)

(** [_persist_events_txn], for the tables here *)
Definition persist_events_txn (e : engine) (hostname : string) (t : event_tables) (room_id : string) (l : list item) (inhibit : bool)
    (state_delta_for_room : option DeltaState) (new_forward_extremities : option (gset string)) : py event_tables :=
  min_stream_order ← match l with x :: _ => Ok (it_stream x) | [] => Raise IndexError end;
  max_stream_order ← match last l with Some x => Ok (it_stream x) | None => Raise IndexError end;
  raise_if (match e, r_rooms (t_room t) !! room_id with Postgres, None => true | _, _ => false end) (PyException "Room does not exist") ;;
  raise_if ((min_stream_order =? 0) || (max_stream_order =? 0)) AssertionError ;;
  let l := filter_events_and_contexts_for_duplicates l in
  let t := with_graph t (update_room_depths_txn (t_graph t) room_id l) in
  '(l, t) ← update_outliers_txn t l;
  let g := store_event_txn (t_graph t) l in
  let g := match new_forward_extremities with
           | Some ext => if bool_decide (ext = ∅) then g else update_forward_extremities_txn g room_id ext max_stream_order
           | None => g
           end in
  i ← persist_transaction_ids_txn (t_info t) l;
  i ← store_event_state_mappings_txn i l;
  let '(l, g) := store_rejected_events_txn g l in
  t ← update_metadata_tables_txn hostname (MkTables g i (t_room t)) l inhibit;
  match state_delta_for_room with
  | Some d => r ← update_current_state_txn hostname (t_graph t) (t_room t) room_id d min_stream_order; Ok (with_room t r)
  | None => Ok t
  end.
