(* ===== verification/PersistEvents.v ===== *)
(** * Persisting events: [storage/controllers/persist_events.py]

    Works out, for a batch of events of one room, the forward extremities and the current
    state of the room after them, and stores the events with both.  The events of the batch
    that state resolution is given in advance are part of the instance of [StateResolver].
    The queue in front of this is in [PersistQueue]. *)

From S2P Require Import Prelude PyData RoomVersions Ids Events EventAuth StateFilters IterUtils LinkedList CacheStore LruCache TreeCache DictionaryCache StateGroups StateGroupCache ExpiringCache StateHandler EventTables.

Open Scope Z_scope.

(** ** Forward extremities *)

Definition accepted_item (x : item) : bool :=
  negb (ev_outlier (it_event x)) && negb (is_rejected (it_context x)) && negb (ev_soft_failed (it_event x)).

(** [_calculate_new_extremities] *)
Definition calculate_new_extremities (g : event_graph) (l : list item) (latest_event_ids : gset string) : py (gset string) :=
  let new_events := map it_event (List.filter accepted_item l) in
  let prevs := concat (map prev_event_ids new_events) in
  let result := latest_event_ids ∪ list_to_set (map ev_id new_events) in
  let result := result ∖ list_to_set prevs in
  let result := result ∖ list_to_set (get_events_which_are_prevs g (elements result)) in
  existing_prevs ← fueled (get_prevs_before_rejected g prevs);
  Ok (result ∖ existing_prevs).

(** ** Pruning *)

(** A dummy event of this server may be dropped if the events it refers to may: the loop
    over [events_to_check] of [_prune_extremities], which gives false for an own event *)
Fixpoint only_dummies (fuel : nat) (hostname : string) (g : event_graph) (events_to_check : list event) : option bool :=
  match events_to_check with
  | [] => Some true
  | _ =>
      match fuel with
      | O => None
      | S fuel =>
          let own := List.filter (λ ev, hs_is_mine_id hostname (ev_sender ev)) events_to_check in
          if existsb (λ ev, negb (bool_decide (ev_type ev = EventTypes.Dummy))) own then Some false
          else only_dummies fuel hostname g (map snd (map_to_list (get_events g (list_to_set (concat (map prev_event_ids own))))))
      end
  end.

(** One round of the loop over [dropped_events]: may the event be dropped? *)
Definition may_drop (fuel : nat) (hostname : string) (now : Z) (g : event_graph) (new_senders : list string) (current_depth : Z) (ev : event) : py bool :=
  ok ← fueled (only_dummies fuel hostname g [ev]);
  if negb ok then Ok false
  else if (ev_origin_server_ts ev <? now - 24 * 60 * 60 * 1000) && (ev_depth ev <? current_depth - 100) then Ok true
  else
    domain ← get_domain_from_id (ev_sender ev);
    Ok (bool_decide (domain ∈ new_senders) && (ev_depth ev <? current_depth - 20)).

Fixpoint all_may_drop (fuel : nat) (hostname : string) (now : Z) (g : event_graph) (new_senders : list string) (current_depth : Z) (l : list event) : py bool :=
  match l with
  | [] => Ok true
  | ev :: l =>
      b ← may_drop fuel hostname now g new_senders current_depth ev;
      if b : bool then all_may_drop fuel hostname now g new_senders current_depth l else Ok false
  end.

(** [_prune_extremities] *)
Definition prune_extremities (fuel : nat) (hostname : string) (now : Z) (g : event_graph) (new_latest_event_ids : gset string)
    (resolved_state_group : Z) (event_id_to_state_group : gmap string Z) (l : list item) : py (gset string) :=
  raise_if (bool_decide (new_latest_event_ids ⊈ dom event_id_to_state_group)) KeyError ;;
  let new_new_extrems := filter (λ i, event_id_to_state_group !! i = Some resolved_state_group) new_latest_event_ids in
  let dropped_extrems := new_latest_event_ids ∖ new_new_extrems in
  if existsb (λ x, bool_decide (it_id x ∈ dropped_extrems)) l then Ok new_latest_event_ids
  else
    let dropped_events := get_events g dropped_extrems in
    new_senders ← py_fold (λ ds x, d ← get_domain_from_id (ev_sender (it_event x)); Ok (d :: ds)) [] l;
    current_depth ← match z_max (map (λ x, ev_depth (it_event x)) l) with Some d => Ok d | None => Raise ValueError end;
    ok ← all_may_drop fuel hostname now g new_senders current_depth (map snd (map_to_list dropped_events));
    Ok (if ok : bool then new_new_extrems else new_latest_event_ids).

(** ** The state after the events *)

(** The differences between groups that the contexts bring *)
Definition add_group_deltas (deltas : gmap (Z * Z) state_ids) (x : item) : py (gmap (Z * Z) state_ids) :=
  sg ← context_state_group (it_context x);
  match sg with
  | None => raise_if (negb (ev_outlier (it_event x))) (PyException "Context for new event %s has no state group") ;; Ok deltas
  | Some _ => Ok (ctx_state_group_deltas (it_context x) ∪ deltas)
  end.

(** The state group of an event of the batch *)
Fixpoint context_group (l : list item) (event_id : string) : py (option Z) :=
  match l with
  | [] => Ok None
  | x :: l =>
      if bool_decide (event_id = it_id x) then
        sg ← context_state_group (it_context x);
        match sg with Some g => Ok (Some g) | None => context_group l event_id end
      else context_group l event_id
  end.

(** [event_id_to_state_group[i] for i in ids] *)
Definition groups_of_ids (m : gmap string Z) (ids : gset string) : py (gset Z) :=
  raise_if (bool_decide (ids ⊈ dom m)) KeyError ;;
  Ok (map_img (filter (λ x, x.1 ∈ ids) m)).

(** [event_id_to_state_group], from the contexts and the table *)
Definition find_state_groups (m : main_tables) (l : list item) (old_latest_event_ids new_latest_event_ids : gset string) : py (gmap string Z) :=
  '(groups, missing) ← py_fold (λ s i,
      g ← context_group l i;
      Ok (match g with Some g => (<[i := g]> s.1, s.2) | None => (s.1, {[i]} ∪ s.2) end))
    (∅, old_latest_event_ids) (elements new_latest_event_ids);
  if bool_decide (missing = ∅) then Ok groups
  else
    event_to_groups ← get_state_group_for_events m (elements missing);
    Ok (event_to_groups ∪ groups).

(** The room version, from a create event of the batch *)
Fixpoint batch_room_version (l : list item) : py (option json) :=
  match l with
  | [] => Ok None
  | x :: l =>
      if bool_decide (ev_type (it_event x) = EventTypes.Create) then
        sk ← state_key (it_event x);
        if bool_decide (sk = "") then Ok (Some (default (JStr "1") (dict_get "room_version" (ev_content (it_event x)))))
        else batch_room_version l
      else batch_room_version l
  end.

(** [get_room_version_id]; versions that are not strings are not known *)
Definition version_string (j : json) : py string := match j with JStr v => Ok v | _ => Raise KeyError end.
Definition get_room_version_id (r : room_tables) (room_id : string) : py string :=
  match r_rooms r !! room_id with
  | Some (Some JNull) | Some None | None => Raise (SynapseError 404 "Could not find room_version for %s")
  | Some (Some j) => version_string j
  end.
Definition room_version_for (r : room_tables) (room_id : string) (l : list item) : py string :=
  v ← batch_room_version l;
  match v with
  | Some j => if truthy j then version_string j else get_room_version_id r room_id
  | None => get_room_version_id r room_id
  end.

(** What the state handler reads of the tables *)
Definition main_of (t : event_tables) (room_id : string) : main_tables :=
  MkMain (i_state_groups (t_info t)) (dom (i_partial_events (t_info t))) (get_room_version_id (t_room t) room_id).

(** ** The current state *)

(** [_calculate_state_delta] *)
Definition calculate_state_delta (r : room_tables) (room_id : string) (state : state_ids) : DeltaState :=
  let existing_state := current_state r room_id in
  MkDelta (List.filter (λ k, bool_decide (state !! k = None)) (map fst (map_to_list existing_state)))
    (filter (λ x, existing_state !! x.1 ≠ Some x.2) state) false.

(** [is_local_host_in_room_ignoring_users] of [storage/databases/main/roommember.py] *)
Definition is_local_host_in_room_ignoring_users (r : room_tables) (room_id : string) (ignore_users : list string) : bool :=
  existsb (λ x : string * string * (string * json), bool_decide (x.1.1 = room_id) && is_str x.2.2 "join" && negb (bool_decide (x.1.2 ∈ ignore_users)))
    (map_to_list (r_local r)).

(** The loop over [delta.to_insert] of [_is_server_still_joined]: true if an event of the
    batch is a local join, else the events to look up *)
Fixpoint batch_joins (l : list item) (event_id : string) : py bool :=
  match l with
  | [] => Ok false
  | x :: l =>
      if bool_decide (event_id = it_id x) then
        m ← membership (it_event x);
        if is_str m "join" then Ok true else batch_joins l event_id
      else batch_joins l event_id
  end.
Fixpoint new_local_joins (hostname : string) (l : list item) (inserts : list (string * string * string)) : py (bool * list string) :=
  match inserts with
  | [] => Ok (false, [])
  | (key, event_id) :: inserts =>
      if negb (local_member hostname key) then new_local_joins hostname l inserts
      else
        b ← batch_joins l event_id;
        if b : bool then Ok (true, [])
        else '(b, to_check) ← new_local_joins hostname l inserts; Ok (b, event_id :: to_check)
  end.

(** [_is_server_still_joined] *)
Definition is_server_still_joined (hostname : string) (r : room_tables) (room_id : string) (l : list item) (d : DeltaState) : py bool :=
  if negb (existsb (local_member hostname) (delta_keys d)) then Ok true
  else
    '(joined, events_to_check) ← new_local_joins hostname l (map_to_list (to_insert d));
    if joined : bool then Ok true
    else if existsb (λ i, match r_memberships r !! i with Some (_, m) => is_str m "join" | None => false end) events_to_check then Ok true
    else
      let users_to_ignore := map snd (List.filter (local_member hostname) (delta_keys d)) in
      Ok (is_local_host_in_room_ignoring_users r room_id users_to_ignore).

(** ** The controller *)

Section Controller.
Context {K S : Type} `{Countable K} `{!CacheStore K S} `{!KeyScheme Z (string * string) K} `{!StateResolver}.
Context (e : engine) (hostname : string).
Abbreviation handler := (state_handler (K := K) (S := S)).

(** [_get_new_state_after_events]: the new state if there is one, the difference if it is
    known, and the extremities; pruning walks over dummy events with the fuel *)
Definition get_new_state_after_events (fuel : nat) (now : Z) (t : event_tables) (h : handler) (room_id : string) (l : list item)
    (old_latest_event_ids new_latest_event_ids : gset string) : py (option state_ids * option state_ids * gset string * handler) :=
  state_group_deltas ← py_fold add_group_deltas ∅ l;
  event_id_to_state_group ← find_state_groups (main_of t room_id) l old_latest_event_ids new_latest_event_ids;
  old_state_groups ← groups_of_ids event_id_to_state_group old_latest_event_ids;
  new_state_groups ← groups_of_ids event_id_to_state_group new_latest_event_ids;
  if bool_decide (old_state_groups = new_state_groups) then Ok (None, None, new_latest_event_ids, h)
  else
    let delta_ids := match elements old_state_groups, elements new_state_groups with
                     | [old_state_group], [new_state_group] => state_group_deltas !! (old_state_group, new_state_group)
                     | _, _ => None
                     end in
    match delta_ids with
    | Some delta_ids => Ok (None, Some delta_ids, new_latest_event_ids, h)
    | None =>
        '(state_groups_map, s) ← get_state_for_groups e (sh_store h) (elements new_state_groups) all;
        let h := sh_with_store h s in
        match elements new_state_groups with
        | [g] => match state_groups_map !! g with
                 | Some st => Ok (Some st, None, new_latest_event_ids, h)
                 | None => Raise KeyError
                 end
        | _ =>
            raise_if (bool_decide (new_state_groups ⊈ dom state_groups_map)) KeyError ;;
            let state_groups := filter (λ x, x.1 ∈ new_state_groups) state_groups_map in
            room_version ← room_version_for (t_room t) room_id l;
            '(r, h) ← resolve_state_groups now h room_version state_groups;
            res ← the_entry h r;
            new_latest_event_ids ←
              match truthy_group (se_state_group res) with
              | Some g =>
                  if bool_decide (g ∈ new_state_groups)
                  then prune_extremities fuel hostname now (t_graph t) new_latest_event_ids g event_id_to_state_group l
                  else Ok new_latest_event_ids
              | None => Ok new_latest_event_ids
              end;
            '(full_state, s) ← entry_get_state e (sh_store h) res all;
            Ok (Some full_state, None, new_latest_event_ids, sh_with_store h s)
        end
    end.

Definition no_extremities_left : exn := AssertionError.

Definition single_prev_not_state (ev : event) : bool := bool_decide (length (prev_event_ids ev) = 1%nat) && negb (is_state ev).

(** [_calculate_new_forward_extremities_and_state_delta] *)
Definition calculate_new_forward_extremities_and_state_delta (fuel : nat) (now : Z) (t : event_tables) (h : handler) (room_id : string)
    (l : list item) : py (option (gset string) * option DeltaState * handler) :=
  let latest_event_ids := get_latest_event_ids_in_room (t_graph t) room_id in
  new_latest_event_ids ← calculate_new_extremities (t_graph t) l latest_event_ids;
  if bool_decide (new_latest_event_ids = latest_event_ids) then Ok (None, None, h)
  else
    raise_if (bool_decide (new_latest_event_ids = ∅)) no_extremities_left ;;
    if bool_decide (size latest_event_ids = 1%nat) && bool_decide (size new_latest_event_ids = 1%nat)
       && forallb (λ x, single_prev_not_state (it_event x)) l
    then Ok (Some new_latest_event_ids, None, h)
    else
      '(new_state, delta_ids, new_latest_event_ids, h) ← get_new_state_after_events fuel now t h room_id l latest_event_ids new_latest_event_ids;
      raise_if (bool_decide (new_latest_event_ids = ∅)) no_extremities_left ;;
      let delta := match delta_ids, new_state with
                   | Some delta_ids, _ => Some (MkDelta [] delta_ids false)
                   | None, Some st => Some (calculate_state_delta (t_room t) room_id st)
                   | None, None => None
                   end in
      match delta with
      | None => Ok (Some new_latest_event_ids, None, h)
      | Some d =>
          is_still_joined ← is_server_still_joined hostname (t_room t) room_id l d;
          Ok (Some new_latest_event_ids, Some (if is_still_joined : bool then d else MkDelta (to_delete d) (to_insert d) true), h)
      end.

(** The tables, the state handler and the last values of the two sequences that stream
    orderings come from; see [IdGen] *)
Record persist_state : Type := MkPersist {
  ps_tables : event_tables;
  ps_handler : handler;
  ps_stream : Z;
  ps_backfill : Z;
}.

(** Stream orderings are assigned when the batch is written. *)
Fixpoint assign_streams (step : Z) (stream : Z) (l : list item) : list item :=
  match l with
  | [] => []
  | x :: l => MkItem (it_event x) (it_context x) (stream + step) (it_oob x) (it_txn x) :: assign_streams step (stream + step) l
  end.

(** [_persist_events_and_state_updates] *)
Definition persist_events_and_state_updates (s : persist_state) (room_id : string) (l : list item) (state_delta_for_room : option DeltaState)
    (new_forward_extremities : option (gset string)) (backfilled : bool) : py persist_state :=
  let step := if backfilled then -1 else 1 in
  let l := assign_streams step (if backfilled then ps_backfill s else ps_stream s) l in
  t ← persist_events_txn e hostname (ps_tables s) room_id l backfilled state_delta_for_room new_forward_extremities;
  Ok (MkPersist t (ps_handler s) (if backfilled then ps_stream s else ps_stream s + Z.of_nat (length l))
        (if backfilled then ps_backfill s - Z.of_nat (length l) else ps_backfill s)).

(** One chunk of [_persist_event_batch] *)
Definition persist_chunk (fuel : nat) (now : Z) (s : persist_state) (room_id : string) (backfilled : bool) (l : list item) : py persist_state :=
  '(new_forward_extremities, state_delta_for_room, h) ←
    (if backfilled then Ok (None, None, ps_handler s)
     else calculate_new_forward_extremities_and_state_delta fuel now (ps_tables s) (ps_handler s) room_id l);
  persist_events_and_state_updates (MkPersist (ps_tables s) h (ps_stream s) (ps_backfill s)) room_id l state_delta_for_room new_forward_extremities backfilled.

(** [_persist_event_batch] *)
Definition persist_event_batch (fuel : nat) (now : Z) (s : persist_state) (room_id : string) (l : list item) (backfilled : bool)
    : py (gmap string string * persist_state) :=
  let replaced_events := get_already_persisted_events (t_info (ps_tables s)) l in
  let l := List.filter (λ x, bool_decide (replaced_events !! it_id x = None)) l in
  s ← py_fold (λ s chunk, persist_chunk fuel now s room_id backfilled chunk) s (batch_iter l 100);
  Ok (replaced_events, s).

(** [_calculate_current_state] *)
Definition calculate_current_state (now : Z) (t : event_tables) (h : handler) (room_id : string) : py (state_ids * handler) :=
  let latest_event_ids := get_latest_event_ids_in_room (t_graph t) room_id in
  groups ← get_state_group_for_events (main_of t room_id) (elements latest_event_ids);
  let state_groups := map_img (SA := gset Z) groups in
  '(state_maps_by_state_group, s) ← get_state_for_groups e (sh_store h) (elements state_groups) all;
  let h := sh_with_store h s in
  match elements state_groups with
  | [g] => match state_maps_by_state_group !! g with Some st => Ok (st, h) | None => Raise KeyError end
  | _ =>
      room_version ← get_room_version_id (t_room t) room_id;
      '(r, h) ← resolve_state_groups now h room_version state_maps_by_state_group;
      res ← the_entry h r;
      '(st, s) ← entry_get_state e (sh_store h) res all;
      Ok (st, sh_with_store h s)
  end.

(** [_update_current_state] and [update_current_state] of the store *)
Definition update_current_state (now : Z) (s : persist_state) (room_id : string) : py persist_state :=
  '(st, h) ← calculate_current_state now (ps_tables s) (ps_handler s) room_id;
  let t := ps_tables s in
  let d := calculate_state_delta (t_room t) room_id st in
  if is_noop d then Ok (MkPersist t h (ps_stream s) (ps_backfill s))
  else
    r ← update_current_state_txn hostname (t_graph t) (t_room t) room_id d (ps_stream s + 1);
    Ok (MkPersist (with_room t r) h (ps_stream s + 1) (ps_backfill s)).
End Controller.
