(* ===== verification/PersistExample.v ===== *)
(** * A room whose events are persisted: an example for [PersistEvents]

    The room of [StateResV2Facts]: Bob has set the topic, and this is the only forward
    extremity; the state is that of group 1.  Then Alice's ban of Bob arrives, from another
    branch, with group 2. *)

From S2P Require Import Prelude PyData RoomVersions Ids Events EventAuth StateFilters StateResV2 StateResV2Facts StateResV1 RoomExample IterUtils LinkedList CacheStore LruCache TreeCache DictionaryCache StateGroups StateGroupFacts StateGroupCache StateGroupSystem ExpiringCache StateHandler StateHandlerFacts EventTables PersistEvents.

Open Scope Z_scope.

Definition px_dave : event := mk_event RoomVersions.V11 "$dave" EventTypes.Member dave (Some dave) [("membership", JStr "join")] 7 [] [].
Definition px_row (n : Z) (e : event) : event_row := MkEventRow e n false None.
Definition px_context (g : Z) : EventContext := MkContext (Some g) (Some g) (Some ∅) ∅ None None false.
Definition px_item (e : event) (g : Z) : item := MkItem e (px_context g) 0 false (None, None).

Definition px_graph : event_graph :=
  MkGraph {["$dave" := px_row 1 px_dave; "$topic" := px_row 2 bob_topic]} ∅ {[("$topic", "$dave")]} {[("!r:hs", "$topic")]} ∅ [] [] ∅.
Definition px_info : event_info := MkInfo {["$dave" := 1; "$topic" := 1]} ∅ ∅ [] ∅.
Definition px_members : gmap string (string * json) :=
  {["$alice" := (alice, JStr "join"); "$bob" := (bob, JStr "join"); "$dave" := (dave, JStr "join")]}.
Definition px_local : gmap (string * string) (string * json) :=
  {[("!r:hs", alice) := ("$alice", JStr "join"); ("!r:hs", bob) := ("$bob", JStr "join")]}.
Definition px_deltas : list delta_row := map (λ k, MkDeltaRow 2 "!r:hs" k (topic_state !! k) None) (map fst (map_to_list topic_state)).
Definition px_room : room_tables := MkRoomTables {["!r:hs" := Some (JStr "11")]} px_members px_local {["!r:hs" := topic_state]} px_deltas.
Definition px_tables : event_tables := MkTables px_graph px_info px_room.

Definition px_state : persist_state (K := list string) (S := TreeCache) := MkPersist px_tables ctx_handler 2 0.
Definition px_batch : list item := [px_item bob_ban 2].
Definition px_rank (i : string) : nat := if bool_decide (i = "$dave") then 0%nat else 1%nat.
Definition px_group (i : string) : Z := if bool_decide (i = "$ban") then 2 else 1.
#[export] Instance px_resolver : StateResolver := ctx_resolver.

(** The batch is persisted: both events are extremities, and the ban is in the state. *)
Definition px_result : py (persist_state (K := list string) (S := TreeCache)) := persist_chunk SQLite "hs" 10 0 px_state "!r:hs" false px_batch.
Definition px_after : persist_state (K := list string) (S := TreeCache) := match px_result with Ok s => s | Raise _ => px_state end.

Lemma px_after_Ok : px_result = Ok px_after.
Proof.
  assert (match px_result with Ok _ => true | Raise _ => false end = true) as Hb by (vm_compute; reflexivity). revert Hb. unfold px_after. by destruct px_result.
Qed.

Example px_after_state :
  get_latest_event_ids_in_room (t_graph (ps_tables px_after)) "!r:hs" = {["$topic"; "$ban"]} ∧
  current_state (t_room (ps_tables px_after)) "!r:hs" = ctx_state ∧ ctx_state !! (EventTypes.Member, bob) = Some "$ban".
Proof. split_and!; apply (bool_decide_unpack _); vm_compute; exact I. Qed.
