(* ===== verification/EventGraphFacts.v ===== *)
(** * The graph of events: facts about [EventTables]

    What the queries on the graph find, and what the transaction that stores a batch does
    to the tables of the graph. *)

From S2P Require Import Prelude PyData RoomVersions Ids Events EventAuth StateFilters IterUtils LinkedList CacheStore LruCache TreeCache DictionaryCache StateGroups StateGroupCache ExpiringCache StateHandler EventTables.

Open Scope Z_scope.

(** ** Lists *)

Lemma elem_of_concat {A} (x : A) (ls : list (list A)) : x ∈ concat ls ↔ ∃ l, l ∈ ls ∧ x ∈ l.
Proof. rewrite list_elem_of_In, in_concat. split; intros (l & H1 & H2); exists l; by rewrite ?list_elem_of_In in *. Qed.

Lemma elem_of_bfilter {A} (f : A → bool) (x : A) (l : list A) : x ∈ List.filter f l ↔ x ∈ l ∧ f x = true.
Proof. by rewrite !list_elem_of_In, filter_In. Qed.

Lemma elem_of_concat_map {A B} (f : A → list B) (y : B) (l : list A) : y ∈ concat (map f l) ↔ ∃ x, x ∈ l ∧ y ∈ f x.
Proof.
  rewrite elem_of_concat. split; [intros (? & (x & -> & Hx)%list_elem_of_fmap & Hy); eauto|].
  intros (x & Hx & Hy). exists (f x). split; [|done]. apply list_elem_of_fmap. eauto.
Qed.

Lemma in_map_to_list `{Countable A} {B} (m : gmap A B) k x : m !! k = Some x → In (k, x) (map_to_list m).
Proof. intros Hk. by apply list_elem_of_In, elem_of_map_to_list. Qed.

(** ** Accepted events and paths *)

Definition accepted (g : event_graph) (i : string) : Prop :=
  not_outlier g i = true ∧ in_rejections g i = false ∧ is_soft_failed g i = false.

(** Soft-failed or rejected *)
Definition failed (g : event_graph) (i : string) : Prop :=
  not_outlier g i = true ∧ (is_soft_failed g i = true ∨ in_rejections g i = true).

Definition edge (g : event_graph) (a b : string) : Prop := (a, b) ∈ g_edges g.

(** The events before failed events: [x] is reached from [s] through failed events only *)
Inductive before_failed (g : event_graph) : string → string → Prop :=
  | before_one s x : failed g s → edge g s x → before_failed g s x
  | before_more s y x : failed g s → edge g s y → before_failed g y x → before_failed g s x.

Lemma before_failed_path g s x : before_failed g s x → tc (edge g) s x.
Proof. induction 1; [by apply tc_once|by eapply tc_l]. Qed.

Lemma before_failed_snoc g s y x : before_failed g s y → failed g y → edge g y x → before_failed g s x.
Proof. induction 1; intros; [eapply before_more; eauto; by apply before_one|eapply before_more; eauto]. Qed.

Lemma elem_of_edge_rows g p x : x ∈ edge_rows g p ↔ x ∈ g_edges g ∧ p x = true.
Proof. unfold edge_rows. by rewrite list_elem_of_In, filter_In, <- list_elem_of_In, elem_of_elements. Qed.

(** ** Reading *)

Lemma events_which_are_prevs_spec g ids x :
  x ∈ get_events_which_are_prevs g ids ↔ x ∈ ids ∧ ∃ a, accepted g a ∧ edge g a x.
Proof.
  unfold get_events_which_are_prevs. rewrite elem_of_concat_map. destruct (batch_iter_spec ids 100) as [Hc _]; [lia|]. split.
  - intros (batch & Hb & ([a b] & -> & [He Hp]%elem_of_edge_rows)%list_elem_of_fmap). cbn [fst snd] in *. to_prop.
    split; [|by exists a]. rewrite <- Hc. apply elem_of_concat. eauto.
  - intros [Hx (a & (H1 & H2 & H3) & He)]. rewrite <- Hc in Hx. apply elem_of_concat in Hx as (batch & Hb & Hx).
    exists batch. split; [done|]. apply list_elem_of_fmap. exists (a, x). split; [done|]. apply elem_of_edge_rows. split; [done|]. cbn [fst snd].
    by rewrite H1, H2, H3, bool_decide_true by done.
Qed.

Definition failed_b (g : event_graph) (i : string) : bool := is_soft_failed g i || in_rejections g i.

(** One query: the new previous events of the failed events *)
Lemma prev_rows_spec g rows (T : list string) (P : gset string) :
  ∃ T', foldl (prev_row g) (T, P) rows = (T ++ T', P ∪ list_to_set T') ∧
    (∀ x, x ∈ T' → x ∉ P ∧ ∃ a, (a, x) ∈ rows ∧ failed_b g a = true) ∧
    (∀ a x, (a, x) ∈ rows → failed_b g a = true → x ∈ P ∨ x ∈ T').
Proof.
  revert T P. induction rows as [|[a b] rows IH]; intros T P; cbn [foldl].
  { exists []. rewrite app_nil_r. split_and!; [f_equal; set_solver|by intros x ?%elem_of_nil|by intros a x ?%elem_of_nil]. }
  unfold prev_row at 2. cbn [fst snd]. case_bool_decide as Hb; [|fold (failed_b g a); destruct (failed_b g a) eqn:Ef].
  - destruct (IH T P) as (T' & -> & H1 & H2). exists T'. split_and!; [done| |].
    + intros x Hx. destruct (H1 x Hx) as (Hn & a' & Ha & Hf). split; [done|]. exists a'. split; [by right|done].
    + intros a' x [[= -> ->]|Hin]%elem_of_cons Hf; [by left|by eapply H2].
  - destruct (IH (T ++ [b]) ({[b]} ∪ P)) as (T' & -> & H1 & H2). exists (b :: T'). rewrite <- app_assoc. split_and!; [f_equal; set_solver| |].
    + intros x [->|Hx]%elem_of_cons; [split; [done|]; exists a; split; [by left|done]|]. destruct (H1 x Hx) as (Hn & a' & Ha & Hf).
      split; [set_solver|]. exists a'. split; [by right|done].
    + intros a' x [[= -> ->]|Hin]%elem_of_cons Hf; [right; by left|]. destruct (H2 a' x Hin Hf) as [Hx|Hx]; [|right; by right].
      apply elem_of_union in Hx as [->%elem_of_singleton|Hx]; [right; by left|by left].
  - destruct (IH T P) as (T' & -> & H1 & H2). exists T'. split_and!; [done| |].
    + intros x Hx. destruct (H1 x Hx) as (Hn & a' & Ha & Hf). split; [done|]. exists a'. split; [by right|done].
    + intros a' x [[= -> ->]|Hin]%elem_of_cons Hf; [congruence|by eapply H2].
Qed.

Lemma failed_iff g i : failed g i ↔ not_outlier g i = true ∧ failed_b g i = true.
Proof. unfold failed, failed_b. by rewrite orb_true_iff. Qed.

Lemma size_prevs (E : gset (string * string)) : (size (set_map snd E : gset string) ≤ size E)%nat.
Proof.
  change (size E) with (length (elements E)). rewrite <- (length_map snd (elements E)). unfold set_map.
  change (snd <$> elements E) with (map snd (elements E)).
  induction (map snd (elements E)) as [|x l IH]; cbn [list_to_set length]; [done|]. rewrite size_union_alt, size_singleton.
  pose proof (subseteq_size (list_to_set l ∖ {[x]} : gset string) (list_to_set l) ltac:(set_solver)). lia.
Qed.

(** The previous events that are still to be found *)
Definition unseen (g : event_graph) (P : gset string) : nat := size ((set_map snd (g_edges g) : gset string) ∖ P).

Lemma prevs_loop_spec fuel g (T : list string) (P : gset string) (D : string → Prop) :
  (∀ s x, D s ∨ s ∈ P → s ∉ T → failed g s → edge g s x → x ∈ P) → (unseen g P < fuel)%nat →
  ∃ P', prevs_before_rejected_txn fuel g T P = Some P' ∧ P ⊆ P' ∧
    (∀ s x, D s ∨ s ∈ P' → failed g s → edge g s x → x ∈ P') ∧ (∀ x, x ∈ P' → x ∈ P ∨ ∃ s, s ∈ T ∧ before_failed g s x).
Proof.
  revert T P. induction fuel as [|fuel IH]; intros T P HD Hf; [lia|]. destruct T as [|t0 T0] eqn:ET.
  { exists P. split_and!; [done|done| |by left]. intros s x Hs. apply HD; [done|]. by intros ?%elem_of_nil. }
  rewrite <- ET in *. cbn [prevs_before_rejected_txn]. rewrite ET. rewrite <- ET.
  set (rows := edge_rows g (λ x, not_outlier g x.1 && bool_decide (x.1 ∈ T))).
  destruct (prev_rows_spec g rows [] P) as (T' & -> & H1 & H2). cbn [app].
  assert (∀ a x, (a, x) ∈ rows ↔ edge g a x ∧ not_outlier g a = true ∧ a ∈ T) as Hrows.
  { intros a x. unfold rows. rewrite elem_of_edge_rows. cbn. by rewrite andb_true_iff, bool_decide_eq_true. }
  assert (∀ s x, D s ∨ s ∈ P ∪ list_to_set T' → s ∉ T' → failed g s → edge g s x → x ∈ P ∪ list_to_set T') as HD'.
  { intros s x Hs Hn Hfs He. destruct (decide (s ∈ T)) as [HT|HT].
    - apply failed_iff in Hfs as [Ho Hb]. destruct (H2 s x) as [?|?]; [by apply Hrows|done|set_solver|set_solver].
    - apply elem_of_union_l, (HD s x); [|done|done|done]. destruct Hs as [?|[?|?]%elem_of_union]; [by left|by right|]. set_solver. }
  assert (T' = [] ∨ (unseen g (P ∪ list_to_set T') < unseen g P)%nat) as [->|Hlt].
  { destruct T' as [|b T'']; [by left|right]. destruct (H1 b) as (Hb & a & [He _]%Hrows & _); [by left|]. apply subset_size.
    split; [set_solver|]. intros Hsub. assert (b ∈ (set_map snd (g_edges g) : gset string)) as Hin by (apply elem_of_map; by exists (a, b)). set_solver. }
  { assert (prevs_before_rejected_txn fuel g [] (P ∪ list_to_set []) = Some (P ∪ list_to_set [])) as -> by (by destruct fuel).
    exists (P ∪ list_to_set []). split_and!; [done|set_solver| |set_solver]. intros s x Hs. apply HD'; [done|]. by intros ?%elem_of_nil. }
  destruct (IH T' (P ∪ list_to_set T') HD') as (P' & -> & Hsub & Hcl & Hsnd); [lia|]. exists P'. split_and!; [done|set_solver|done|].
  assert (∀ b, b ∈ T' → ∃ s, s ∈ T ∧ before_failed g s b) as HT'.
  { intros b (Hb & a & (He & Ho & Ha)%Hrows & Hfa)%H1. exists a. split; [done|]. apply before_one; [by apply failed_iff|done]. }
  intros x [[Hx|Hx%elem_of_list_to_set]%elem_of_union|(s & Hs & Hbf)]%Hsnd; [by left|right; by apply HT'|right].
  destruct (H1 s Hs) as (_ & a & (He & Ho & Ha)%Hrows & Hfa). exists a. split; [done|]. eapply before_more; [by apply failed_iff|done|done].
Qed.

Lemma prevs_before_rejected_spec g ids :
  ∃ P, get_prevs_before_rejected g ids = Some P ∧ ∀ x, x ∈ P ↔ ∃ s, s ∈ ids ∧ before_failed g s x.
Proof.
  unfold get_prevs_before_rejected. destruct (batch_iter_spec ids 100) as [Hc _]; [lia|].
  enough (∀ batches (P : gset string) (D : string → Prop),
    (∀ s x, D s ∨ s ∈ P → failed g s → edge g s x → x ∈ P) →
    ∃ P', foldl (λ existing_prevs batch, existing_prevs ≫= prevs_before_rejected_txn (size (g_edges g) + 1) g batch) (Some P) batches = Some P' ∧ P ⊆ P' ∧
      (∀ s x, D s ∨ s ∈ concat batches ∨ s ∈ P' → failed g s → edge g s x → x ∈ P') ∧ (∀ x, x ∈ P' → x ∈ P ∨ ∃ s, s ∈ concat batches ∧ before_failed g s x)) as Hall.
  { destruct (Hall (batch_iter ids 100) ∅ (λ _, False)) as (P & HP & _ & Hcl & Hsnd); [intros s x [[]|?]; set_solver|]. rewrite Hc in *.
    exists P. split; [exact HP|]. intros x. split; [intros [?|?]%Hsnd; [set_solver|done]|]. intros (s & Hs & Hb).
    assert (False ∨ s ∈ ids ∨ s ∈ P) as Hs' by auto. clear Hs. induction Hb as [s x Hf He|s y x Hf He Hb IHb]; [by eapply Hcl|]. apply IHb. right; right. by eapply Hcl. }
  clear ids Hc. induction batches as [|b batches IH]; intros P D HD; cbn [foldl concat].
  { exists P. split_and!; [done|done| |by left]. intros s x [?|[?%elem_of_nil|?]]; [apply HD; by left|done|apply HD; by right]. }
  destruct (prevs_loop_spec (size (g_edges g) + 1) g b P (λ s, D s ∨ s ∈ b)) as (P1 & H1 & Hsub1 & Hcl1 & Hs1).
  { intros s x Hs Hn. apply HD. naive_solver. }
  { unfold unseen. pose proof (subseteq_size ((set_map snd (g_edges g) : gset string) ∖ P) (set_map snd (g_edges g))) as Hle.
    pose proof (size_prevs (g_edges g)). specialize (Hle ltac:(set_solver)). lia. }
  cbn [mbind option_bind]. rewrite H1. destruct (IH P1 (λ s, D s ∨ s ∈ b)) as (P' & -> & Hsub & Hcl & Hs); [done|].
  exists P'. split_and!; [done|set_solver| |].
  - intros s x Hs0. apply Hcl. rewrite elem_of_app in Hs0. naive_solver.
  - intros x [Hx|(s & Hs0 & Hb)]%Hs; [apply Hs1 in Hx as [?|(s & ? & ?)]; [by left|]|]; right; exists s; rewrite elem_of_app; auto.
Qed.

(** ** Storing a batch *)

Lemma find_id_Some (i : string) l y : List.find (λ y, bool_decide (it_id y = i)) l = Some y → y ∈ l ∧ it_id y = i.
Proof. intros [Hin Hd]%find_some. by rewrite list_elem_of_In, bool_decide_eq_true in *. Qed.
Lemma find_id_None (i : string) l y : List.find (λ y, bool_decide (it_id y = i)) l = None → y ∈ l → it_id y ≠ i.
Proof. intros Hn Hy%list_elem_of_In He. pose proof (find_none _ _ Hn y Hy) as Hf. by rewrite bool_decide_eq_false in Hf. Qed.

Lemma NoDup_ids_bfilter (f : item → bool) l : NoDup (map it_id l) → NoDup (map it_id (List.filter f l)).
Proof.
  induction l as [|x l IH]; cbn [map List.filter]; [done|]. intros [Hn Hd]%NoDup_cons. specialize (IH Hd). destruct (f x); [|done].
  cbn [map]. apply NoDup_cons. split; [|done]. intros (y & Hy & [Hin _]%elem_of_bfilter)%list_elem_of_fmap. apply Hn, list_elem_of_fmap. eauto.
Qed.

Lemma NoDup_ids_inj l x y : NoDup (map it_id l) → x ∈ l → y ∈ l → it_id x = it_id y → x = y.
Proof.
  intros Hd [j Hx]%list_elem_of_lookup [k Hy]%list_elem_of_lookup He. assert (j = k) as ->; [|congruence].
  eapply NoDup_lookup; [exact Hd|rewrite list_lookup_fmap, Hx; done|]. by rewrite list_lookup_fmap, Hy; cbn; rewrite He.
Qed.

Lemma elem_of_ids i l : i ∈ map it_id l ↔ ∃ x, x ∈ l ∧ it_id x = i.
Proof. rewrite list_elem_of_In, in_map_iff. split; intros (x & H1 & H2); exists x; by rewrite ?list_elem_of_In in *. Qed.

(** Every event once, as the earliest that is not an outlier if there is one *)
Record once (l l' : list item) : Prop := {
  on_nodup : NoDup (map it_id l');
  on_sub : ∀ y, y ∈ l' → y ∈ l;
  on_all : ∀ x, x ∈ l → ∃ y, y ∈ l' ∧ it_id y = it_id x ∧ (ev_outlier (it_event y) = true → ev_outlier (it_event x) = true);
}.

Lemma add_item_once l l' x : once l l' → once (l ++ [x]) (add_item l' x).
Proof.
  intros [H1 H2 H3]. unfold add_item. destruct (List.find _ l') as [y|] eqn:Ef.
  - apply find_id_Some in Ef as [Hy Hid]. destruct (negb (ev_outlier (it_event x)) && ev_outlier (it_event y)) eqn:Eo.
    + to_prop. split.
      * rewrite map_app. apply NoDup_app. split_and!; [by apply NoDup_ids_bfilter| |apply NoDup_singleton].
        intros i (z & Hi & [Hz Hne]%elem_of_bfilter)%list_elem_of_fmap Hi2%list_elem_of_singleton. to_prop. congruence.
      * intros z [[Hz _]%elem_of_bfilter| ->%list_elem_of_singleton]%elem_of_app; rewrite elem_of_app; [left; auto|right; by left].
      * intros z [Hz| ->%list_elem_of_singleton]%elem_of_app; [|exists x; rewrite elem_of_app; split_and!; [right; by left|done|done]].
        destruct (decide (it_id z = it_id x)) as [E|E]; [exists x; rewrite elem_of_app; split_and!; [right; by left|done|congruence]|].
        destruct (H3 z Hz) as (w & Hw & Hwid & Hwo). exists w. rewrite elem_of_app, elem_of_bfilter, bool_decide_eq_true. split_and!; [left; split; [done|congruence]|done|done].
    + split; [done|intros z Hz; rewrite elem_of_app; left; auto|].
      intros z [Hz| ->%list_elem_of_singleton]%elem_of_app; [by apply H3|]. exists y. split_and!; [done|done|]. intros Ho. rewrite Ho, andb_true_r in Eo. by destruct (ev_outlier (it_event x)).
  - split.
    + rewrite map_app. apply NoDup_app. split_and!; [done| |apply NoDup_singleton]. intros i (z & Hi & Hz)%list_elem_of_fmap Hi2%list_elem_of_singleton.
      apply (find_id_None _ _ _ Ef Hz). congruence.
    + intros z. rewrite !elem_of_app. intros [?|?]; [left; auto|by right].
    + intros z [Hz| ->%list_elem_of_singleton]%elem_of_app; [destruct (H3 z Hz) as (w & Hw & R); exists w; rewrite elem_of_app; auto|].
      exists x. rewrite elem_of_app. split_and!; [right; by left|done|done].
Qed.

Lemma filter_duplicates_once l : once l (filter_events_and_contexts_for_duplicates l).
Proof.
  unfold filter_events_and_contexts_for_duplicates. induction l as [|x l IH] using rev_ind; [split; [constructor|by intros ? ?%elem_of_nil|by intros ? ?%elem_of_nil]|].
  rewrite foldl_snoc. by apply add_item_once.
Qed.

(** What the steps leave alone *)
Definition same_graph (g g' : event_graph) : Prop :=
  g_events g' = g_events g ∧ g_rejections g' = g_rejections g ∧ g_edges g' = g_edges g ∧ g_forward g' = g_forward g.

Lemma update_backward_same g l g' : update_backward_extremeties g l = Ok g' → same_graph g g'.
Proof. unfold update_backward_extremeties. intros Hu. destruct l; [done|]. case_bool_decide; by injection Hu as <-. Qed.

Lemma update_depth_same g room_id l : same_graph g (update_room_depths_txn g room_id l).
Proof. unfold update_room_depths_txn, update_min_depth_for_room_txn. by destruct (match g_depth g !! room_id with Some _ => _ | None => _ end). Qed.

(** *** Outliers *)

Definition ex_outlier_item (have_persisted : gmap string bool) (x : item) : bool :=
  bool_decide (have_persisted !! it_id x = Some true) && negb (is_rejected (it_context x)) && negb (ev_outlier (it_event x)).

Definition known_row (row : event_row) : event_row := MkEventRow (er_event row) (er_stream_ordering row) false (er_rejection_reason row).

Lemma ex_outlier_graph t x t' :
  ex_outlier t x = Ok t' → same_graph (set_not_outlier (t_graph t) (it_id x)) (t_graph t') ∧ t_room t' = t_room t.
Proof. unfold ex_outlier. intros Hx. py_inv. cbn. split; [|done]. by eapply update_backward_same. Qed.

Definition outlier_step (have_persisted : gmap string bool) (t : event_tables) (x : item) : py event_tables :=
  match have_persisted !! it_id x with
  | None => Ok t
  | Some outlier_persisted =>
      if is_rejected (it_context x) then Ok t
      else if negb (ev_outlier (it_event x)) && outlier_persisted then ex_outlier t x else Ok t
  end.

Lemma outlier_step_eq hp t x : outlier_step hp t x = if ex_outlier_item hp x then ex_outlier t x else Ok t.
Proof.
  unfold outlier_step, ex_outlier_item. destruct (hp !! it_id x) as [[]|]; [rewrite bool_decide_true by done|rewrite bool_decide_false by done|by rewrite bool_decide_false].
  - destruct (is_rejected _), (ev_outlier (it_event x)); done.
  - rewrite andb_false_r. by destruct (is_rejected _).
Qed.

Lemma outliers_graph hp l t t' :
  py_fold (outlier_step hp) t l = Ok t' →
  g_rejections (t_graph t') = g_rejections (t_graph t) ∧ g_edges (t_graph t') = g_edges (t_graph t) ∧ g_forward (t_graph t') = g_forward (t_graph t) ∧
  t_room t' = t_room t ∧
  ∀ i, g_events (t_graph t') !! i = (λ row, if existsb (λ x, bool_decide (it_id x = i) && ex_outlier_item hp x) l then known_row row else row) <$> g_events (t_graph t) !! i.
Proof.
  revert t. induction l as [|x l IH]; intros t; cbn [py_fold existsb].
  { intros [= <-]. split_and!; try done. intros i. by destruct (_ !! i). }
  rewrite outlier_step_eq. intros (t1 & H1 & H2)%py_bind_Ok. destruct (IH t1 H2) as (R1 & R2 & R3 & R4 & R5). destruct (ex_outlier_item hp x) eqn:Ex.
  - apply ex_outlier_graph in H1 as [(E1 & E2 & E3 & E4) E5]. cbn in E1, E2, E3, E4. split_and!; [congruence|congruence|congruence|congruence|].
    intros i. rewrite R5, E1, andb_true_r. case_bool_decide as Hi.
    + subst i. rewrite lookup_alter_eq. destruct (_ !! it_id x); cbn; [|done]. by destruct (existsb _ l).
    + rewrite lookup_alter_ne by congruence. done.
  - injection H1 as ->. split_and!; try done. intros i. rewrite R5, andb_false_r. done.
Qed.

(** *** New events *)

Lemma store_events_graph l g :
  NoDup (map it_id l) →
  let g' := store_event_txn g l in
  g_rejections g' = g_rejections g ∧ g_edges g' = g_edges g ∧ g_forward g' = g_forward g ∧
  (∀ x, x ∈ l → g_events g' !! it_id x = Some (MkEventRow (it_event x) (it_stream x) (ev_outlier (it_event x)) (ctx_rejected (it_context x)))) ∧
  (∀ i, i ∉ map it_id l → g_events g' !! i = g_events g !! i).
Proof.
  unfold store_event_txn. revert g. induction l as [|x l IH]; intros g Hd; cbn [foldl map]; [split_and!; try done; by intros ? ?%elem_of_nil|].
  cbn [map] in Hd. apply NoDup_cons in Hd as [Hn Hd]. destruct (IH (store_event g x) Hd) as (R1 & R2 & R3 & R4 & R5). split_and!; [done|done|done| |].
  - intros y [->|Hy]%elem_of_cons; [|by apply R4]. rewrite R5 by done. cbn. by rewrite lookup_insert_eq.
  - intros i [Hi1 Hi2]%not_elem_of_cons. rewrite R5 by done. cbn. by rewrite lookup_insert_ne.
Qed.

Lemma rejected_reason x : is_rejected (it_context x) = true → is_Some (ctx_rejected (it_context x)).
Proof. unfold is_rejected. by destruct (ctx_rejected (it_context x)). Qed.

Lemma store_rejections_graph l g :
  (∀ x, x ∈ l → is_rejected (it_context x) = true) →
  let g' := foldl store_rejection g l in
  g_events g' = g_events g ∧ g_edges g' = g_edges g ∧ g_forward g' = g_forward g ∧ g_backward g' = g_backward g ∧
  (∀ i, i ∈ dom (g_rejections g') ↔ i ∈ dom (g_rejections g) ∨ i ∈ map it_id l).
Proof.
  revert g. induction l as [|x l IH]; intros g Hr; cbn [foldl map]; [split_and!; try done; intros i; rewrite elem_of_nil; tauto|].
  destruct (IH (store_rejection g x)) as (R1 & R2 & R3 & R4 & R5); [intros y Hy; apply Hr; by right|]. split_and!; try done.
  intros i. rewrite R5, elem_of_cons. cbn. destruct (rejected_reason x) as [reason ->]; [apply Hr; by left|]. set_solver.
Qed.

Lemma add_edges_graph es g g' :
  py_fold add_edge g es = Ok g' →
  g_events g' = g_events g ∧ g_rejections g' = g_rejections g ∧ g_forward g' = g_forward g ∧ g_backward g' = g_backward g ∧
  g_edges g' = list_to_set es ∪ g_edges g.
Proof.
  revert g. induction es as [|x es IH]; intros g; cbn [py_fold list_to_set]; [intros [= <-]; split_and!; try done; set_solver|].
  intros (g1 & H1 & H2)%py_bind_Ok. unfold add_edge in H1. py_inv. destruct (IH _ H2) as (R1 & R2 & R3 & R4 & R5). cbn in *. split_and!; try done. rewrite R5. set_solver.
Qed.

Lemma handle_edges_graph g l g' :
  handle_mult_prev_events g l = Ok g' →
  g_events g' = g_events g ∧ g_rejections g' = g_rejections g ∧ g_forward g' = g_forward g ∧
  ∀ a b, edge g' a b ↔ edge g a b ∨ ∃ x, x ∈ l ∧ it_id x = a ∧ b ∈ prev_event_ids (it_event x).
Proof.
  unfold handle_mult_prev_events. intros (g1 & H1 & (E1 & E2 & E3 & E4)%update_backward_same)%py_bind_Ok.
  apply add_edges_graph in H1 as (R1 & R2 & R3 & _ & R5). split_and!; [congruence|congruence|congruence|]. intros a b. unfold edge.
  rewrite E3, R5, elem_of_union, elem_of_list_to_set, elem_of_concat_map. split.
  - intros [(x & Hx & (c & [= -> ->] & Hc)%list_elem_of_fmap)|?]; [right; eauto|by left].
  - intros [?|(x & Hx & <- & Hb)]; [by right|left]. exists x. split; [done|]. apply list_elem_of_fmap. eauto.
Qed.

Lemma update_metadata_graph hostname t l inhibit t' :
  update_metadata_tables_txn hostname t l inhibit = Ok t' →
  t_info t' = t_info t ∧ g_events (t_graph t') = g_events (t_graph t) ∧ g_rejections (t_graph t') = g_rejections (t_graph t) ∧ g_forward (t_graph t') = g_forward (t_graph t) ∧
  ∀ a b, edge (t_graph t') a b ↔ edge (t_graph t) a b ∨ ∃ x, x ∈ l ∧ it_id x = a ∧ b ∈ prev_event_ids (it_event x).
Proof.
  unfold update_metadata_tables_txn. destruct l as [|x0 l0] eqn:El.
  { intros [= <-]. split_and!; try done. intros a b. split; [by left|]. intros [?|(x & ?%elem_of_nil & _)]; done. }
  rewrite <- El. intros (g & Hg & (r & Hr & Hok)%py_bind_Ok)%py_bind_Ok. injection Hok as <-. cbn. split; [done|]. by apply handle_edges_graph.
Qed.

(** *** The transaction *)

(** The items of the batch that are stored as new events *)
Definition new_item (g : event_graph) (l : list item) (x : item) : Prop :=
  x ∈ filter_events_and_contexts_for_duplicates l ∧ g_events g !! it_id x = None.

Definition forward_after (g : event_graph) (room_id : string) (ext : option (gset string)) : gset (string * string) :=
  match ext with
  | Some E => if bool_decide (E = ∅) then g_forward g else filter (λ x, x.1 ≠ room_id) (g_forward g) ∪ set_map (pair room_id) E
  | None => g_forward g
  end.

Record stored (g : event_graph) (room_id : string) (l : list item) (ext : option (gset string)) (g' : event_graph) : Prop := {
  st_old : ∀ i row, g_events g !! i = Some row → ∃ row', g_events g' !! i = Some row' ∧ er_event row' = er_event row ∧
    (er_outlier row' = false ↔ er_outlier row = false ∨
      ∃ x, x ∈ filter_events_and_contexts_for_duplicates l ∧ it_id x = i ∧ is_rejected (it_context x) = false ∧ ev_outlier (it_event x) = false);
  st_new : ∀ x, new_item g l x → ∃ row, g_events g' !! it_id x = Some row ∧ er_event row = it_event x ∧ er_outlier row = ev_outlier (it_event x);
  st_dom : ∀ i, is_Some (g_events g' !! i) → is_Some (g_events g !! i) ∨ ∃ x, new_item g l x ∧ it_id x = i;
  st_rejections : ∀ i, i ∈ dom (g_rejections g') ↔ i ∈ dom (g_rejections g) ∨ ∃ x, new_item g l x ∧ it_id x = i ∧ is_rejected (it_context x) = true;
  st_edges : ∀ a b, edge g' a b ↔ edge g a b ∨
    ∃ x, new_item g l x ∧ it_id x = a ∧ is_rejected (it_context x) = false ∧ b ∈ prev_event_ids (it_event x);
  st_forward : g_forward g' = forward_after g room_id ext;
}.

Lemma new_items_ids (g : event_graph) l x : x ∈ List.filter (λ x, bool_decide ((er_outlier <$> g_events g) !! it_id x = None)) (filter_events_and_contexts_for_duplicates l) ↔ new_item g l x.
Proof. unfold new_item. rewrite elem_of_bfilter, bool_decide_eq_true, lookup_fmap, fmap_None. done. Qed.

Theorem persist_events_stored e hostname t room_id l inhibit d ext t' :
  persist_events_txn e hostname t room_id l inhibit d ext = Ok t' → stored (t_graph t) room_id l ext (t_graph t').
Proof.
  unfold persist_events_txn. set (L := filter_events_and_contexts_for_duplicates l). intros Ht.
  pose proof (on_nodup _ _ (filter_duplicates_once l)) as Hnd. fold L in Hnd.
  destruct (update_depth_same (t_graph t) room_id L) as (D1 & D2 & D3 & D4). set (g0 := update_room_depths_txn (t_graph t) room_id L) in *.
  apply py_bind_Ok in Ht as (mn & _ & Ht). apply py_bind_Ok in Ht as (mx & _ & Ht). apply py_bind_Ok in Ht as ([] & _ & Ht). apply py_bind_Ok in Ht as ([] & _ & Ht).
  apply py_bind_Ok in Ht as ([l1 t1] & Hout & Ht). unfold update_outliers_txn in Hout. apply py_bind_Ok in Hout as (t1' & Hout & [= <- <-]).
  apply (outliers_graph _ L) in Hout as (O1 & O2 & O3 & _ & O5). cbn [with_graph t_graph] in *. set (hp := er_outlier <$> g_events g0) in *.
  set (new := List.filter (λ x, bool_decide (hp !! it_id x = None)) L) in *.
  assert (∀ x, x ∈ new ↔ new_item (t_graph t) l x) as Hnew by (intros x; unfold new, hp, L; rewrite D1; apply new_items_ids).
  destruct (store_events_graph new (t_graph t1')) as (S1 & S2 & S3 & S4 & S5); [by apply NoDup_ids_bfilter|]. set (g1 := store_event_txn (t_graph t1') new) in *.
  apply py_bind_Ok in Ht as (i1 & _ & Ht). apply py_bind_Ok in Ht as (i2 & _ & Ht).
  set (g2 := match ext with Some _ => _ | None => _ end) in Ht.
  assert (g_events g2 = g_events g1 ∧ g_rejections g2 = g_rejections g1 ∧ g_edges g2 = g_edges g1 ∧ g_forward g2 = forward_after (t_graph t) room_id ext) as (F1 & F2 & F3 & F4).
  { unfold g2, forward_after. destruct ext as [E|]; [case_bool_decide|]; (split_and!; [done|done|done|]); cbn; congruence. }
  destruct (store_rejections_graph (List.filter (λ x, is_rejected (it_context x)) new) g2) as (J1 & J2 & J3 & _ & J5); [by intros x [_ ?]%elem_of_bfilter|].
  unfold store_rejected_events_txn in Ht. apply py_bind_Ok in Ht as (t3 & Hmd & Ht).
  apply update_metadata_graph in Hmd as (_ & M1 & M2 & M3 & M4). cbn [t_graph] in *.
  assert (t_graph t' = t_graph t3) as ->.
  { destruct d as [d|]; [apply py_bind_Ok in Ht as (r & _ & Ht)|]; by injection Ht as <-. }
  assert (∀ i, g_events (t_graph t3) !! i = g_events g1 !! i) as Ev by (intros i; by rewrite M1, J1, F1).
  assert (∀ i, i ∈ map it_id new ↔ ∃ x, new_item (t_graph t) l x ∧ it_id x = i) as Hids.
  { intros i. rewrite elem_of_ids. by setoid_rewrite Hnew. }
  assert (∀ i, g_events (t_graph t) !! i ≠ None → i ∉ map it_id new) as Hold by (intros i Hi (x & [_ Hx] & <-)%Hids; done).
  split.
  - intros i row Hrow. rewrite Ev, (S5 i), O5, D1, Hrow by (apply Hold; congruence). cbn.
    eexists. split; [done|]. destruct (existsb _ L) eqn:Ex; cbn.
    + split; [done|]. split; [intros _|done]. apply existsb_exists in Ex as (x & Hx%list_elem_of_In & Hc). unfold ex_outlier_item in Hc. to_prop. right. exists x. done.
    + split; [done|]. split; [by left|]. intros [?|(x & Hx & <- & Hr & Ho)]; [done|]. apply not_true_iff_false in Ex. destruct (er_outlier row) eqn:Er; [|done].
      destruct Ex. apply existsb_exists. exists x. split; [by apply list_elem_of_In|]. rewrite bool_decide_true by done. unfold ex_outlier_item, hp. rewrite lookup_fmap, D1, Hrow. cbn. by rewrite Er, Hr, Ho.
  - intros x Hx. rewrite Ev. rewrite (S4 x) by by apply Hnew. by eexists.
  - intros i Hi. destruct (decide (i ∈ map it_id new)) as [Hin|Hin]; [right; by apply Hids|left]. rewrite Ev, (S5 i Hin), O5, D1 in Hi. by destruct (g_events (t_graph t) !! i); [eexists|destruct Hi].
  - intros i. rewrite M2, J5, F2, S1, O1, D2. apply or_iff_compat_l. rewrite elem_of_ids. setoid_rewrite elem_of_bfilter. setoid_rewrite Hnew. naive_solver.
  - intros a b. rewrite M4. unfold edge at 1. rewrite J2, F3, S2, O2, D3. apply or_iff_compat_l. setoid_rewrite elem_of_bfilter. setoid_rewrite Hnew. setoid_rewrite negb_true_iff. naive_solver.
  - by rewrite M3, J3, F4.
Qed.
