(* ===== verification/Extremities.v ===== *)
(** * Forward extremities: facts about [PersistEvents]

    The forward extremities of a room are events that were accepted and that no accepted
    event refers to, and after every batch the events that were reached from them, and those
    of the batch, are reached from the new ones, but for extremities that were pruned. *)

From S2P Require Import Prelude PyData RoomVersions Ids Events EventAuth StateFilters StateResV2Facts RoomExample IterUtils LinkedList CacheStore LruCache TreeCache DictionaryCache StateGroups StateGroupCache StateGroupSystem ExpiringCache StateHandler EventTables PersistEvents PersistExample EventGraphFacts.

Open Scope Z_scope.

(** What the extremities are after a batch *)
Record new_extremity (g : event_graph) (l : list item) (latest : gset string) (f : string) : Prop := {
  ne_candidate : f ∈ latest ∨ ∃ x, x ∈ l ∧ accepted_item x = true ∧ it_id x = f;
  ne_batch : ∀ x, x ∈ l → accepted_item x = true → f ∉ prev_event_ids (it_event x);
  ne_existing : ∀ a, accepted g a → ¬ edge g a f;
  ne_failed : ∀ x s, x ∈ l → accepted_item x = true → s ∈ prev_event_ids (it_event x) → ¬ before_failed g s f;
}.

Lemma calculate_new_extremities_spec g l latest :
  ∃ E, calculate_new_extremities g l latest = Ok E ∧ ∀ f, f ∈ E ↔ new_extremity g l latest f.
Proof.
  unfold calculate_new_extremities. set (new := List.filter accepted_item l). set (prevs := concat (map prev_event_ids (map it_event new))).
  destruct (prevs_before_rejected_spec g prevs) as (P & -> & HP). cbn [fueled mbind py_bind]. eexists. split; [done|]. intros f.
  assert (∀ s, s ∈ prevs ↔ ∃ x, x ∈ l ∧ accepted_item x = true ∧ s ∈ prev_event_ids (it_event x)) as Hprevs.
  { intros s. unfold prevs, new. rewrite map_map, elem_of_concat_map. setoid_rewrite elem_of_bfilter. naive_solver. }
  assert (f ∈ map ev_id (map it_event new) ↔ ∃ x, x ∈ l ∧ accepted_item x = true ∧ it_id x = f) as Hids.
  { unfold new. rewrite map_map. change (λ x, ev_id (it_event x)) with it_id. rewrite elem_of_ids. setoid_rewrite elem_of_bfilter. naive_solver. }
  set (candidates := latest ∪ _).
  assert (f ∈ candidates ↔ f ∈ latest ∨ ∃ x, x ∈ l ∧ accepted_item x = true ∧ it_id x = f) as Hcand by (unfold candidates; by rewrite elem_of_union, elem_of_list_to_set, Hids).
  rewrite !elem_of_difference, HP, !elem_of_list_to_set, events_which_are_prevs_spec, elem_of_elements, elem_of_difference, elem_of_list_to_set, Hprevs, Hcand.
  setoid_rewrite Hprevs. split.
  - intros [[[Hc Hb] He] Hf]. split; [done| | |].
    + intros x Hx Ha Hin. apply Hb. eauto.
    + intros a Ha Hed. apply He. eauto.
    + intros x s Hx Ha Hs Hbf. apply Hf. naive_solver.
  - intros [Hc Hb He Hf]. naive_solver.
Qed.

Section Facts.
(** events are later than the events they refer to *)
Context (rank : string → nat).

Record graph_ok (room_id : string) (g : event_graph) : Prop := {
  gk_edges : ∀ a b, edge g a b → ∃ row, g_events g !! a = Some row ∧ b ∈ prev_event_ids (er_event row);
  gk_complete : ∀ a row b, g_events g !! a = Some row → in_rejections g a = false → b ∈ prev_event_ids (er_event row) → edge g a b;
  gk_rank : ∀ a b, edge g a b → (rank b < rank a)%nat;
  gk_accepted : ∀ f, f ∈ get_latest_event_ids_in_room g room_id → accepted g f;
  gk_forward : ∀ f a, f ∈ get_latest_event_ids_in_room g room_id → accepted g a → ¬ edge g a f;
}.

(** Copies of an event agree: its id is a hash of it, and it is accepted or not. *)
Record same_event (x : item) (ev : event) : Prop := {
  se_prevs : prev_event_ids ev = prev_event_ids (it_event x);
  se_soft : ev_soft_failed ev = ev_soft_failed (it_event x);
}.
Record batch_ok (g : event_graph) (l : list item) : Prop := {
  bk_rank : ∀ x p, x ∈ l → p ∈ prev_event_ids (it_event x) → (rank p < rank (it_id x))%nat;
  bk_stored : ∀ x row, x ∈ l → g_events g !! it_id x = Some row → same_event x (er_event row);
  bk_rejected : ∀ x, x ∈ l → in_rejections g (it_id x) = true → is_rejected (it_context x) = true;
  bk_copies : ∀ x y, x ∈ l → y ∈ l → it_id x = it_id y → same_event x (it_event y) ∧ is_rejected (it_context x) = is_rejected (it_context y);
}.

(** An event is reached from extremities. *)
Definition covered (g : event_graph) (E : gset string) (i : string) : Prop := ∃ f, f ∈ E ∧ rtc (edge g) f i.

(** Stored events that refer to an event of the batch still have an extremity after
    them. *)
Definition not_lost (room_id : string) (g : event_graph) (l : list item) : Prop :=
  ∀ x a, x ∈ l → accepted_item x = true → accepted g a → edge g a (it_id x) → covered g (get_latest_event_ids_in_room g room_id) a.

Lemma accepted_item_iff x : accepted_item x = true ↔ ev_outlier (it_event x) = false ∧ is_rejected (it_context x) = false ∧ ev_soft_failed (it_event x) = false.
Proof. unfold accepted_item. rewrite !andb_true_iff, !negb_true_iff. tauto. Qed.

Lemma rank_bound (X : gset string) : ∃ n, ∀ c, c ∈ X → (rank c ≤ n)%nat.
Proof using Type.
  induction X as [|x X Hx [n IH]] using set_ind_L; [exists 0%nat; set_solver|]. exists (Nat.max n (rank x)). intros c [->%elem_of_singleton|Hc%IH]%elem_of_union; lia.
Qed.

Section Batch.
Context (room_id : string) (g g' : event_graph) (l : list item) (ext : option (gset string)).
Context (Hg : graph_ok room_id g) (Hl : batch_ok g l) (Hs : stored g room_id l ext g').

Lemma soft_failed_kept i row : g_events g !! i = Some row → is_soft_failed g' i = is_soft_failed g i.
Proof using Hs. intros Hrow. unfold is_soft_failed. destruct (st_old _ _ _ _ _ Hs i row Hrow) as (row' & -> & He & _). by rewrite Hrow, He. Qed.

Lemma rejection_kept i row : g_events g !! i = Some row → in_rejections g' i = in_rejections g i.
Proof using Hs.
  intros Hrow. unfold in_rejections. apply bool_decide_ext. rewrite (st_rejections _ _ _ _ _ Hs). split; [|by left].
  intros [?|(x & [_ Hn] & <- & _)]; [done|congruence].
Qed.

Lemma edges_grow a b : edge g a b → edge g' a b.
Proof using Hs. intros He. apply (st_edges _ _ _ _ _ Hs). by left. Qed.

Lemma paths_grow a b : rtc (edge g) a b → rtc (edge g') a b.
Proof using Hs. apply rtc_subrel. exact edges_grow. Qed.

(** Accepted events stay accepted. *)
Lemma accepted_grow i : accepted g i → accepted g' i.
Proof using Hs.
  intros (Ho & Hr & Hsf). unfold not_outlier in Ho. destruct (g_events g !! i) as [row|] eqn:Hrow; [|done]. split_and!.
  - unfold not_outlier. destruct (st_old _ _ _ _ _ Hs i row Hrow) as (row' & -> & _ & Hout). apply negb_true_iff. apply Hout. left. by apply negb_true_iff.
  - by rewrite (rejection_kept i row).
  - by rewrite (soft_failed_kept i row).
Qed.

(** The item of the batch that is stored *)
Lemma survivor x : x ∈ l → ∃ y, y ∈ l ∧ y ∈ filter_events_and_contexts_for_duplicates l ∧ it_id y = it_id x ∧ same_event x (it_event y) ∧
  is_rejected (it_context y) = is_rejected (it_context x) ∧ (ev_outlier (it_event x) = false → ev_outlier (it_event y) = false).
Proof using Hl.
  intros Hx. destruct (on_all _ _ (filter_duplicates_once l) x Hx) as (y & Hy & Hid & Ho). pose proof (on_sub _ _ (filter_duplicates_once l) y Hy) as Hyl.
  destruct (bk_copies _ _ Hl x y Hx Hyl (eq_sym Hid)) as [Hse Hrj]. exists y. split_and!; try done. destruct (ev_outlier (it_event y)) eqn:E; [|done]. intros. specialize (Ho eq_refl). congruence.
Qed.

(** The accepted items are accepted events afterwards, with their edges. *)
Lemma accepted_stored x : x ∈ l → accepted_item x = true → accepted g' (it_id x).
Proof using Hl Hs.
  intros Hx (Ho & Hr & Hsf)%accepted_item_iff. destruct (survivor x Hx) as (y & Hyl & Hy & Hid & Hse & Hry & Hoy). rewrite <- Hid.
  destruct (g_events g !! it_id y) as [row|] eqn:Hrow.
  - pose proof (bk_stored _ _ Hl y row Hyl Hrow) as Hst. split_and!.
    + unfold not_outlier. destruct (st_old _ _ _ _ _ Hs _ row Hrow) as (row' & -> & _ & Hout). apply negb_true_iff, Hout. right. exists y. split_and!; auto; congruence.
    + rewrite (rejection_kept _ row) by done. apply not_true_iff_false. intros Hin. apply (bk_rejected _ _ Hl y Hyl) in Hin. congruence.
    + rewrite (soft_failed_kept _ row) by done. unfold is_soft_failed. rewrite Hrow, (se_soft _ _ Hst), (se_soft _ _ Hse). done.
  - destruct (st_new _ _ _ _ _ Hs y) as (row & Hr' & He & Hout); [done|]. split_and!.
    + unfold not_outlier. rewrite Hr', Hout. by rewrite Hoy.
    + unfold in_rejections. apply bool_decide_eq_false. rewrite (st_rejections _ _ _ _ _ Hs). intros [Hin|(z & Hz & Hzid & Hrz)].
      * assert (is_rejected (it_context y) = true); [|congruence]. apply (bk_rejected _ _ Hl y Hyl). by apply bool_decide_eq_true.
      * assert (z = y) as ->; [|congruence]. eapply NoDup_ids_inj; [apply (filter_duplicates_once l)|apply Hz|done|done].
    + unfold is_soft_failed. rewrite Hr', He, (se_soft _ _ Hse). done.
Qed.

Lemma batch_edges x b : x ∈ l → accepted_item x = true → b ∈ prev_event_ids (it_event x) → edge g' (it_id x) b.
Proof using Hg Hl Hs.
  intros Hx (Ho & Hr & Hsf)%accepted_item_iff Hb. destruct (survivor x Hx) as (y & Hyl & Hy & Hid & Hse & Hry & Hoy). rewrite <- Hid.
  destruct (g_events g !! it_id y) as [row|] eqn:Hrow.
  - apply edges_grow. eapply (gk_complete _ _ Hg); [done| |].
    + apply not_true_iff_false. intros Hin. apply (bk_rejected _ _ Hl y Hyl) in Hin. congruence.
    + rewrite (se_prevs _ _ (bk_stored _ _ Hl y row Hyl Hrow)), (se_prevs _ _ Hse). done.
  - apply (st_edges _ _ _ _ _ Hs). right. exists y. split_and!; [done|done|congruence|]. by rewrite (se_prevs _ _ Hse).
Qed.

(** What is accepted afterwards was accepted before or is an accepted item. *)
Lemma accepted_inv a : accepted g' a → accepted g a ∨ ∃ x, x ∈ l ∧ accepted_item x = true ∧ it_id x = a.
Proof using Hl Hs.
  intros (Ho & Hr & Hsf). unfold not_outlier in Ho. destruct (g_events g' !! a) as [row'|] eqn:Hrow'; [|done].
  destruct (g_events g !! a) as [row|] eqn:Hrow.
  - destruct (st_old _ _ _ _ _ Hs a row Hrow) as (row2 & Hrow2 & He & Hout). assert (row2 = row') as -> by congruence.
    rewrite (rejection_kept a row) in Hr by done. rewrite (soft_failed_kept a row) in Hsf by done.
    apply negb_true_iff, Hout in Ho as [Ho|(x & Hx & Hid & Hrx & Hox)].
    + left. split_and!; try done. unfold not_outlier. by rewrite Hrow, Ho.
    + right. pose proof (on_sub _ _ (filter_duplicates_once l) x Hx) as Hxl. exists x. split_and!; [done| |done]. apply accepted_item_iff. split_and!; try done.
      subst a. unfold is_soft_failed in Hsf. rewrite Hrow in Hsf. by rewrite <- (se_soft _ _ (bk_stored _ _ Hl x row Hxl Hrow)).
  - right. destruct (st_dom _ _ _ _ _ Hs a) as [[? ?]|(x & Hx & Hid)]; [by eexists|congruence|]. subst a.
    destruct (st_new _ _ _ _ _ Hs x Hx) as (row & Hr' & He & Hout). assert (row = row') as -> by congruence.
    exists x. split_and!; [by apply (on_sub _ _ (filter_duplicates_once l)), Hx| |done]. apply accepted_item_iff. split_and!.
    + rewrite <- Hout. by apply negb_true_iff.
    + apply not_true_iff_false. intros Hrej. unfold in_rejections in Hr. apply bool_decide_eq_false in Hr. apply Hr, (st_rejections _ _ _ _ _ Hs). right. eauto.
    + unfold is_soft_failed in Hsf. by rewrite Hrow', He in Hsf.
Qed.

(** ** The events that are reached *)

Abbreviation latest := (get_latest_event_ids_in_room g room_id).

Lemma path_rank a b : rtc (edge g) a b → (rank b ≤ rank a)%nat.
Proof using Hg. induction 1 as [|x y z He _ IH]; [done|]. pose proof (gk_rank _ _ Hg x y He). lia. Qed.

(** A candidate that is no extremity is below a later one. *)
Lemma removed_covered (E : gset string) c :
  not_lost room_id g l → (∀ f, f ∈ E ↔ new_extremity g l latest f) →
  (c ∈ latest ∨ ∃ x, x ∈ l ∧ accepted_item x = true ∧ it_id x = c) → c ∉ E →
  ∃ c', (c' ∈ latest ∨ ∃ x, x ∈ l ∧ accepted_item x = true ∧ it_id x = c') ∧ rtc (edge g') c' c ∧ (rank c < rank c')%nat.
Proof using Hg Hl Hs.
  intros Hnl HE Hc Hn.
  destruct (decide (Exists (λ x, accepted_item x = true ∧ c ∈ prev_event_ids (it_event x)) l)) as [(x & Hx & Ha & Hin)%Exists_exists|Hb].
  { exists (it_id x). split_and!; [eauto|by apply rtc_once, batch_edges|by apply (bk_rank _ _ Hl x)]. }
  destruct (prevs_before_rejected_spec g (concat (map (λ x, if accepted_item x then prev_event_ids (it_event x) else []) l))) as (P & _ & HP).
  destruct (decide (c ∈ P)) as [(s & (x & Hx & Hsx)%elem_of_concat_map & Hbf)%HP|HnP].
  { destruct (accepted_item x) eqn:Ha; [|by apply elem_of_nil in Hsx]. exists (it_id x). split_and!; [eauto| |].
    - eapply rtc_l; [by apply batch_edges|]. apply paths_grow, tc_rtc. by apply before_failed_path.
    - pose proof (bk_rank _ _ Hl x s Hx Hsx). pose proof (path_rank s c (tc_rtc _ _ (before_failed_path _ _ _ Hbf))). lia. }
  destruct (decide (c ∈ get_events_which_are_prevs g [c])) as [(_ & a & Ha & He)%events_which_are_prevs_spec|Hne].
  - destruct Hc as [Hc|(x & Hx & Hax & <-)]; [by destruct (gk_forward _ _ Hg c a)|]. destruct (Hnl x a Hx Hax Ha He) as (f & Hf & Hp).
    exists f. split_and!; [by left|by apply paths_grow; eapply rtc_r|]. pose proof (path_rank f a Hp). pose proof (gk_rank _ _ Hg _ _ He). lia.
  - destruct Hn. apply HE. split; [done| | |].
    + intros x Hx Ha Hin. apply Hb, Exists_exists. eauto.
    + intros a Ha He. apply Hne, events_which_are_prevs_spec. split; [by left|eauto].
    + intros x s Hx Ha Hsx Hbf. apply HnP, HP. exists s. split; [|done]. apply elem_of_concat_map. exists x. by rewrite Ha.
Qed.

Lemma candidates_covered (E : gset string) :
  not_lost room_id g l → (∀ f, f ∈ E ↔ new_extremity g l latest f) →
  ∀ c, (c ∈ latest ∨ ∃ x, x ∈ l ∧ accepted_item x = true ∧ it_id x = c) → covered g' E c.
Proof using Hg Hl Hs.
  intros Hnl HE. destruct (rank_bound (latest ∪ list_to_set (map it_id l))) as [n Hn].
  assert (∀ c, (c ∈ latest ∨ ∃ x, x ∈ l ∧ accepted_item x = true ∧ it_id x = c) → (rank c ≤ n)%nat) as Hb.
  { intros c [Hc|(x & Hx & _ & <-)]; apply Hn; [set_solver|]. apply elem_of_union_r, elem_of_list_to_set, elem_of_ids. eauto. }
  enough (∀ m c, (n - rank c < m)%nat → (c ∈ latest ∨ ∃ x, x ∈ l ∧ accepted_item x = true ∧ it_id x = c) → covered g' E c) as Hm by (intros c; apply (Hm (S (n - rank c))); lia).
  induction m as [|m IH]; intros c Hlt Hc; [lia|]. destruct (decide (c ∈ E)) as [Hin|Hin]; [by exists c|].
  destruct (removed_covered E c Hnl HE Hc Hin) as (c' & Hc' & Hp & Hr). specialize (Hb c' Hc').
  destruct (IH c') as (f & Hf & Hpf); [lia|done|]. exists f. split; [done|]. by etrans.
Qed.

Lemma all_covered (E : gset string) i :
  not_lost room_id g l → (∀ f, f ∈ E ↔ new_extremity g l latest f) →
  (covered g latest i ∨ ∃ x, x ∈ l ∧ accepted_item x = true ∧ it_id x = i) → covered g' E i.
Proof using Hg Hl Hs.
  intros Hnl HE [(f & Hf & Hp)|Hi]; [|by apply candidates_covered; auto].
  destruct (candidates_covered E Hnl HE f) as (f' & Hf' & Hp'); [by left|]. exists f'. split; [done|]. etrans; [done|]. by apply paths_grow.
Qed.

Lemma extremities_nonempty (E : gset string) :
  not_lost room_id g l → (∀ f, f ∈ E ↔ new_extremity g l latest f) → latest ≠ ∅ ∨ (∃ x, x ∈ l ∧ accepted_item x = true) → E ≠ ∅.
Proof using Hg Hl Hs.
  intros Hnl HE Hne ->. assert (∃ c, c ∈ latest ∨ ∃ x, x ∈ l ∧ accepted_item x = true ∧ it_id x = c) as [c Hc].
  { destruct Hne as [[c Hc]%set_choose_L|(x & Hx & Ha)]; [exists c; by left|exists (it_id x); eauto]. }
  destruct (candidates_covered ∅ Hnl HE c Hc) as (f & Hf & _). set_solver.
Qed.

(** ** The invariant *)

Lemma latest_after : get_latest_event_ids_in_room g' room_id = match ext with Some E => if bool_decide (E = ∅) then latest else E | None => latest end.
Proof using Hs.
  clear Hg Hl. unfold get_latest_event_ids_in_room. rewrite (st_forward _ _ _ _ _ Hs). unfold forward_after. destruct ext as [E|]; [|done]. case_bool_decide; [done|].
  apply set_eq. intros i. rewrite elem_of_map. setoid_rewrite elem_of_filter. setoid_rewrite elem_of_union. setoid_rewrite elem_of_filter. setoid_rewrite elem_of_map. split.
  - intros ([r j] & -> & <- & [[? _]|(k & [= ->] & Hk)]); done.
  - intros Hi. exists (room_id, i). split_and!; [done|done|]. right. eauto.
Qed.

Lemma graph_ok_stored :
  (∀ f, f ∈ get_latest_event_ids_in_room g' room_id → new_extremity g l latest f) → graph_ok room_id g'.
Proof using Hg Hl Hs.
  intros Hlat. split.
  - intros a b [He|(x & Hx & <- & _ & Hb)]%(st_edges _ _ _ _ _ Hs).
    + destruct (gk_edges _ _ Hg a b He) as (row & Hrow & Hb). destruct (st_old _ _ _ _ _ Hs a row Hrow) as (row' & Hrow' & Hev & _). exists row'. by rewrite Hev.
    + destruct (st_new _ _ _ _ _ Hs x Hx) as (row & Hrow & Hev & _). exists row. by rewrite Hev.
  - intros a row b Hrow Hr Hb. destruct (g_events g !! a) as [row0|] eqn:Hrow0.
    + destruct (st_old _ _ _ _ _ Hs a row0 Hrow0) as (row' & Hrow' & Hev & _). assert (row' = row) as -> by congruence.
      apply edges_grow. eapply (gk_complete _ _ Hg); [done|by rewrite <- (rejection_kept a row0)|congruence].
    + destruct (st_dom _ _ _ _ _ Hs a) as [[? ?]|(x & Hx & <-)]; [by eexists|congruence|]. destruct (st_new _ _ _ _ _ Hs x Hx) as (row' & Hrow' & Hev & _).
      assert (row' = row) as -> by congruence. apply (st_edges _ _ _ _ _ Hs). right. exists x. split_and!; [done|done| |congruence].
      apply not_true_iff_false. intros Hrej. unfold in_rejections in Hr. apply bool_decide_eq_false in Hr. apply Hr, (st_rejections _ _ _ _ _ Hs). right. eauto.
  - intros a b [He|(x & Hx & <- & _ & Hb)]%(st_edges _ _ _ _ _ Hs); [by apply (gk_rank _ _ Hg)|]. apply (bk_rank _ _ Hl x); [|done]. by apply (on_sub _ _ (filter_duplicates_once l)), Hx.
  - intros f Hf%Hlat. destruct (ne_candidate _ _ _ _ Hf) as [Hc|(x & Hx & Ha & <-)]; [by apply accepted_grow, (gk_accepted _ _ Hg)|by apply accepted_stored].
  - intros f a Hf%Hlat Ha He. destruct (accepted_inv a Ha) as [Ha0|(x & Hx & Hax & <-)].
    + apply (st_edges _ _ _ _ _ Hs) in He as [He|(x & [Hx Hnew] & <- & _ & Hb)]; [by apply (ne_existing _ _ _ _ Hf a)|].
      destruct Ha0 as (Ho & _). unfold not_outlier in Ho. by rewrite Hnew in Ho.
    + apply (ne_batch _ _ _ _ Hf x Hx Hax). apply (st_edges _ _ _ _ _ Hs) in He as [He|(y & [Hy Hnew] & Hid & _ & Hb)].
      * destruct (gk_edges _ _ Hg _ _ He) as (row & Hrow & Hb). by rewrite <- (se_prevs _ _ (bk_stored _ _ Hl x row Hx Hrow)).
      * pose proof (on_sub _ _ (filter_duplicates_once l) y Hy) as Hyl. destruct (bk_copies _ _ Hl x y Hx Hyl (eq_sym Hid)) as [Hse _]. by rewrite <- (se_prevs _ _ Hse).
Qed.
End Batch.
End Facts.

(** ** Stream orderings make no difference *)

Definition alike (l l' : list item) : Prop :=
  (∀ x, x ∈ l → ∃ y, y ∈ l' ∧ it_event y = it_event x ∧ it_context y = it_context x) ∧
  (∀ y, y ∈ l' → ∃ x, x ∈ l ∧ it_event x = it_event y ∧ it_context x = it_context y).

Lemma assign_streams_alike step n l : alike l (assign_streams step n l).
Proof.
  revert n. induction l as [|x l IH]; intros n; cbn [assign_streams]; [split; by intros ? ?%elem_of_nil|]. destruct (IH (n + step)) as [H1 H2]. split.
  - intros y [->|Hy]%elem_of_cons; [eexists; split; [by left|done]|]. destruct (H1 y Hy) as (z & Hz & R). exists z. split; [by right|done].
  - intros y [->|Hy]%elem_of_cons; [exists x; split; [by left|done]|]. destruct (H2 y Hy) as (z & Hz & R). exists z. split; [by right|done].
Qed.

Lemma alike_id x y : it_event y = it_event x → it_id y = it_id x.
Proof. unfold it_id. by intros ->. Qed.
Lemma alike_accepted x y : it_event y = it_event x → it_context y = it_context x → accepted_item y = accepted_item x.
Proof. unfold accepted_item. by intros -> ->. Qed.

Lemma batch_ok_alike rank g l l' : alike l l' → batch_ok rank g l → batch_ok rank g l'.
Proof.
  intros [_ Ha] [B1 B2 B3 B4]. split.
  - intros x p (y & Hy & E1 & E2)%Ha. rewrite <- E1, <- (alike_id x y E1). by apply B1.
  - intros x row (y & Hy & E1 & E2)%Ha. rewrite <- (alike_id x y E1). intros Hr. destruct (B2 y row Hy Hr). split; by rewrite <- E1.
  - intros x (y & Hy & E1 & E2)%Ha. rewrite <- (alike_id x y E1), <- E2. by apply B3.
  - intros x y (x0 & Hx & E1 & E2)%Ha (y0 & Hy & E3 & E4)%Ha. rewrite <- (alike_id x x0 E1), <- (alike_id y y0 E3), <- E2, <- E4. intros Hid.
    destruct (B4 x0 y0 Hx Hy Hid) as [[S1 S2] R]. split; [|done]. split; by rewrite <- E1, <- E3.
Qed.

Lemma new_extremity_alike g l l' latest f : alike l l' → new_extremity g l latest f → new_extremity g l' latest f.
Proof.
  intros [Ha Hb] [N1 N2 N3 N4]. split.
  - destruct N1 as [?|(x & (y & Hy & E1 & E2)%Ha & Hax & Hid)]; [by left|right]. exists y. by rewrite (alike_accepted x y E1 E2), (alike_id x y E1).
  - intros x (y & Hy & E1 & E2)%Hb Hax. rewrite <- E1. apply N2; [done|]. by rewrite (alike_accepted x y).
  - done.
  - intros x s (y & Hy & E1 & E2)%Hb Hax. rewrite <- E1. apply N4; [done|]. by rewrite (alike_accepted x y).
Qed.

Lemma alike_sym l l' : alike l l' → alike l' l.
Proof. intros [H1 H2]. by split. Qed.

Lemma not_lost_alike room_id g l l' : alike l l' → not_lost room_id g l → not_lost room_id g l'.
Proof.
  intros [_ Hb] Hnl x a (y & Hy & E1 & E2)%Hb Hax Ha He. apply (Hnl y a Hy); [by rewrite (alike_accepted x y)|done|by rewrite (alike_id x y)].
Qed.

(** ** Pruning *)

(** An extremity that may be dropped: not of the batch, not an event of this server other
    than a dummy, and more than 20 events back *)
Record droppable (hostname : string) (g : event_graph) (l : list item) (i : string) : Prop := {
  dp_old : ∀ x, x ∈ l → it_id x ≠ i;
  dp_own : ∀ row, g_events g !! i = Some row → hs_is_mine_id hostname (ev_sender (er_event row)) = true → ev_type (er_event row) = EventTypes.Dummy;
  dp_depth : ∀ row, g_events g !! i = Some row → ∃ x, x ∈ l ∧ ev_depth (er_event row) < ev_depth (it_event x) - 20;
}.

Lemma may_drop_spec fuel hostname now g senders depth ev :
  may_drop fuel hostname now g senders depth ev = Ok true →
  (hs_is_mine_id hostname (ev_sender ev) = true → ev_type ev = EventTypes.Dummy) ∧ ev_depth ev < depth - 20.
Proof.
  unfold may_drop. intros (ok & Hok & Hm)%py_bind_Ok. destruct ok; [|done]. cbn [negb] in Hm. split.
  - intros Hmine. unfold fueled in Hok. destruct fuel as [|fuel]; [done|]. cbn [only_dummies List.filter] in Hok. rewrite Hmine in Hok. cbn [existsb] in Hok.
    destruct (bool_decide (ev_type ev = EventTypes.Dummy)) eqn:Ed; [by apply bool_decide_eq_true in Ed|done].
  - destruct ((_ <? _) && (_ <? _)) eqn:Eb; [to_prop; lia|]. py_inv. to_prop. lia.
Qed.

Lemma all_may_drop_spec fuel hostname now g senders depth l ev :
  all_may_drop fuel hostname now g senders depth l = Ok true → ev ∈ l → may_drop fuel hostname now g senders depth ev = Ok true.
Proof.
  induction l as [|e0 l IH]; cbn [all_may_drop]; [by intros _ ?%elem_of_nil|]. intros (b & Hb & Hr)%py_bind_Ok. destruct b; [|done].
  intros [->|Hin]%elem_of_cons; [done|by apply IH].
Qed.

Lemma get_events_lookup g X i row : g_events g !! i = Some row → i ∈ X → (i, er_event row) ∈ map_to_list (get_events g X).
Proof.
  intros Hrow Hi. apply elem_of_map_to_list. unfold get_events. rewrite lookup_fmap, (map_lookup_filter_Some_2 _ _ i row); done.
Qed.

Lemma prune_extremities_spec fuel hostname now g new sg groups l N :
  prune_extremities fuel hostname now g new sg groups l = Ok N →
  N ⊆ new ∧ (∀ i, i ∈ new → groups !! i = Some sg → i ∈ N) ∧ (N = new ∨ ∀ i, i ∈ N → groups !! i = Some sg) ∧
  ∀ i, i ∈ new → i ∉ N → droppable hostname g l i.
Proof.
  unfold prune_extremities. set (keep := filter (λ i, groups !! i = Some sg) new). set (dropped := new ∖ keep). intros Hp. py_inv.
  assert (∀ (b : bool), (b = true → ∀ i, i ∈ dropped → droppable hostname g l i) → let N := if b then keep else new in
    N ⊆ new ∧ (∀ i, i ∈ new → groups !! i = Some sg → i ∈ N) ∧ (N = new ∨ ∀ i, i ∈ N → groups !! i = Some sg) ∧ ∀ i, i ∈ new → i ∉ N → droppable hostname g l i) as Hres.
  { intros [] Hd; cbn; [|split_and!; [done|done|by left|done]]. unfold dropped, keep in *. split_and!.
    - set_solver.
    - intros i Hi Hg. apply elem_of_filter. done.
    - right. intros i [Hg _]%elem_of_filter. done.
    - intros i Hi Hn. apply Hd; [done|]. apply elem_of_difference. done. }
  destruct (existsb (λ y, bool_decide (it_id y ∈ dropped)) l) eqn:Ein; [injection H0 as <-; by apply (Hres false)|].
  apply py_bind_Ok in H0 as (senders & _ & H0). apply py_bind_Ok in H0 as (depth & Hdepth & H0). apply py_bind_Ok in H0 as (b & Hb & [= <-]). apply Hres. intros -> i Hi.
  destruct (z_max (map (λ x, ev_depth (it_event x)) l)) as [m|] eqn:Em; [injection Hdepth as <-|done]. apply z_max_Some in Em as [Em _].
  apply list_elem_of_In, in_map_iff in Em as (y & <- & Hy%list_elem_of_In).
  assert (∀ row, g_events g !! i = Some row → (hs_is_mine_id hostname (ev_sender (er_event row)) = true → ev_type (er_event row) = EventTypes.Dummy) ∧ ev_depth (er_event row) < ev_depth (it_event y) - 20) as Hrow.
  { intros row Hrow. eapply may_drop_spec, all_may_drop_spec; [exact Hb|]. apply list_elem_of_In, in_map_iff. exists (i, er_event row). split; [done|]. apply list_elem_of_In. by apply get_events_lookup. }
  split; [|intros row Hr; by apply Hrow|intros row Hr; exists y; split; [done|by apply Hrow]].
  intros z Hz <-. apply not_true_iff_false in Ein. apply Ein, existsb_exists. exists z. split; [by apply list_elem_of_In|by apply bool_decide_eq_true].
Qed.

Section Chunk.
Context {K S : Type} `{Countable K} `{!CacheStore K S} `{!KeyScheme Z (string * string) K} `{!StateResolver}.
Context (e : engine) (hostname : string).
Abbreviation handler := (state_handler (K := K) (S := S)).

(** The extremities that are left are those that were worked out, but for dropped ones. *)
Definition pruned (g : event_graph) (l : list item) (E N : gset string) : Prop :=
  N ⊆ E ∧ N ≠ ∅ ∧ ∀ i, i ∈ E → i ∉ N → droppable hostname g l i.

Lemma new_state_pruned fuel now t (h : handler) room_id l old E st delta N h' :
  get_new_state_after_events e hostname fuel now t h room_id l old E = Ok (st, delta, N, h') →
  N ⊆ E ∧ ∀ i, i ∈ E → i ∉ N → droppable hostname (t_graph t) l i.
Proof using Type.
  unfold get_new_state_after_events. intros Hr. apply py_bind_Ok in Hr as (deltas & _ & Hr). apply py_bind_Ok in Hr as (groups & _ & Hr).
  apply py_bind_Ok in Hr as (old_groups & _ & Hr). apply py_bind_Ok in Hr as (new_groups & _ & Hr).
  case_bool_decide; [injection Hr as <- <- <- <-; done|].
  destruct (match elements old_groups, elements new_groups with [_], [_] => _ | _, _ => _ end); [injection Hr as <- <- <- <-; done|].
  apply py_bind_Ok in Hr as ([gm s] & _ & Hr).
  assert (∀ (m : py (option state_ids * option state_ids * gset string * handler)), m = Ok (st, delta, N, h') →
    (∃ h0 room_version gs, m = (raise_if (bool_decide (new_groups ⊈ dom gm)) KeyError ;;
      room_version ← room_version; '(r, h) ← resolve_state_groups now h0 room_version gs; res ← the_entry h r;
      new_latest_event_ids ← match truthy_group (se_state_group res) with
        | Some g => if bool_decide (g ∈ new_groups) then prune_extremities fuel hostname now (t_graph t) E g groups l else Ok E
        | None => Ok E end;
      '(full_state, s) ← entry_get_state e (sh_store h) res all; Ok (Some full_state, None, new_latest_event_ids, sh_with_store h s))) →
    N ⊆ E ∧ ∀ i, i ∈ E → i ∉ N → droppable hostname (t_graph t) l i) as Hgen.
  { intros m Hm (h0 & rv & gs & ->). apply py_bind_Ok in Hm as (? & _ & Hm). apply py_bind_Ok in Hm as (v & _ & Hm). apply py_bind_Ok in Hm as ([r h1] & _ & Hm).
    apply py_bind_Ok in Hm as (res & _ & Hm). apply py_bind_Ok in Hm as (N' & HN & Hm). apply py_bind_Ok in Hm as ([full s1] & _ & [= <- <- <- <-]).
    destruct (truthy_group (se_state_group res)) as [sg|]; [|by injection HN as <-]. case_bool_decide; [|by injection HN as <-].
    apply prune_extremities_spec in HN as (Hsub & _ & _ & Hdrop). done. }
  destruct (elements new_groups) as [|g0 [|g1 gs]]; [eapply Hgen; [exact Hr|by do 3 eexists]| |eapply Hgen; [exact Hr|by do 3 eexists]].
  destruct (gm !! g0); [injection Hr as <- <- <- <-|]; done.
Qed.

Lemma calculate_pruned fuel now t (h : handler) room_id l ext d h' E :
  calculate_new_extremities (t_graph t) l (get_latest_event_ids_in_room (t_graph t) room_id) = Ok E →
  calculate_new_forward_extremities_and_state_delta e hostname fuel now t h room_id l = Ok (ext, d, h') →
  match ext with None => E = get_latest_event_ids_in_room (t_graph t) room_id | Some N => pruned (t_graph t) l E N end.
Proof using Type.
  intros HE. unfold calculate_new_forward_extremities_and_state_delta. rewrite HE. cbn [mbind py_bind]. case_bool_decide as Heq; [by intros [= <- <- <-]|].
  destruct (bool_decide (E = ∅)) eqn:Hne; [by intros|apply bool_decide_eq_false in Hne]. cbn [raise_if mbind py_bind].
  destruct (bool_decide (size _ = 1%nat) && bool_decide (size E = 1%nat) && _); [intros [= <- <- <-]; by split_and!|].
  intros ([[[st delta] N] h1] & Hst & Hr)%py_bind_Ok. apply new_state_pruned in Hst as [Hsub Hdrop]. apply py_bind_Ok in Hr as ([] & Hn & Hr). apply raise_if_Ok in Hn.
  apply bool_decide_eq_false in Hn. assert (pruned (t_graph t) l E N) as HP by by split_and!.
  destruct (match delta, st with Some _, _ => _ | None, Some _ => _ | None, None => _ end); [apply py_bind_Ok in Hr as (b & _ & Hr)|]; by injection Hr as <- <- <-.
Qed.

Lemma persist_chunk_inv fuel now (s s' : persist_state (K := K) (S := S)) room_id l :
  persist_chunk e hostname fuel now s room_id false l = Ok s' →
  ∃ ext d h' l', calculate_new_forward_extremities_and_state_delta e hostname fuel now (ps_tables s) (ps_handler s) room_id l = Ok (ext, d, h') ∧
    l' = assign_streams 1 (ps_stream s) l ∧ ps_handler s' = h' ∧
    persist_events_txn e hostname (ps_tables s) room_id l' false d ext = Ok (ps_tables s').
Proof using Type.
  unfold persist_chunk. intros ([[ext d] h'] & Hc & Hp)%py_bind_Ok. unfold persist_events_and_state_updates in Hp. apply py_bind_Ok in Hp as (t' & Ht & [= <-]).
  exists ext, d, h', (assign_streams 1 (ps_stream s) l). split_and!; done.
Qed.
End Chunk.

(** C18: After a batch of events is persisted, the forward extremities of the room are
    accepted events that no accepted event refers to.  The events that were reached from the
    old extremities, and the accepted events of the batch, are reached from the extremities
    worked out for the batch, which are never empty; of these only such are dropped that are
    no events of this server (but for dummies), not of the batch, and more than 20 events
    back.  This is for batches whose copies of an event agree, and where the stored events
    that refer to events of the batch have an extremity after them. *)
Theorem extremities_right {K S : Type} `{Countable K} `{!CacheStore K S} `{!KeyScheme Z (string * string) K} `{!StateResolver}
    (rank : string → nat) (e : engine) (hostname : string) fuel now (s : persist_state (K := K) (S := S)) room_id l :
  let g := t_graph (ps_tables s) in let latest := get_latest_event_ids_in_room g room_id in
  graph_ok rank room_id g → batch_ok rank g l → not_lost room_id g l → latest ≠ ∅ ∨ (∃ x, x ∈ l ∧ accepted_item x = true) →
  ∃ E, calculate_new_extremities g l latest = Ok E ∧ ∀ s',
    persist_chunk e hostname fuel now s room_id false l = Ok s' →
    let g' := t_graph (ps_tables s') in
    graph_ok rank room_id g' ∧ pruned hostname g l E (get_latest_event_ids_in_room g' room_id) ∧
    ∀ i, covered g latest i ∨ (∃ x, x ∈ l ∧ accepted_item x = true ∧ it_id x = i) → covered g' E i.
Proof.
  intros g latest Hg Hl Hnl Hne. destruct (calculate_new_extremities_spec g l latest) as (E & HE & HEf). exists E. split; [done|].
  intros s' (ext & d & h' & l' & Hc & -> & _ & Ht)%persist_chunk_inv g'. pose proof (persist_events_stored _ _ _ _ _ _ _ _ _ Ht) as Hst.
  pose proof (assign_streams_alike 1 (ps_stream s) l) as Hal. set (l' := assign_streams 1 (ps_stream s) l) in *.
  pose proof (batch_ok_alike _ _ _ _ Hal Hl) as Hl'. pose proof (not_lost_alike _ _ _ _ Hal Hnl) as Hnl'.
  assert (∀ f, f ∈ E ↔ new_extremity g l' latest f) as HE'.
  { intros f. rewrite HEf. split; apply new_extremity_alike; [done|by apply alike_sym]. }
  assert (latest ≠ ∅ ∨ ∃ x, x ∈ l' ∧ accepted_item x = true) as Hne'.
  { destruct Hne as [?|(x & (y & Hy & E1 & E2)%(proj1 Hal) & Ha)]; [by left|right]. exists y. by rewrite (alike_accepted x y). }
  pose proof (extremities_nonempty rank room_id g g' l' ext Hg Hl' Hst E Hnl' HE' Hne') as HEne.
  assert (pruned hostname g l E (get_latest_event_ids_in_room g' room_id)) as HP.
  { rewrite (latest_after room_id g g' l' ext Hst). pose proof (calculate_pruned _ _ _ _ _ _ _ _ _ _ _ _ HE Hc) as HP. destruct ext as [N|].
    - rewrite bool_decide_false; [done|]. by destruct HP as (_ & ? & _).
    - subst E. by split_and!. }
  split_and!; [|done|].
  - apply (graph_ok_stored rank room_id g g' l' ext Hg Hl' Hst). intros f Hf. apply HE'. by apply HP.
  - intros i Hi. apply (all_covered rank room_id g g' l' ext Hg Hl' Hst E i Hnl' HE'). destruct Hi as [?|(x & (y & Hy & E1 & E2)%(proj1 Hal) & Ha & <-)]; [by left|right].
    exists y. by rewrite (alike_accepted x y E1 E2), (alike_id x y E1).
Qed.

(** ** Checking the conditions *)

Definition acceptedb (g : event_graph) (i : string) : bool := not_outlier g i && negb (in_rejections g i) && negb (is_soft_failed g i).

Lemma acceptedb_iff g i : acceptedb g i = true ↔ accepted g i.
Proof. unfold acceptedb, accepted. rewrite !andb_true_iff, !negb_true_iff. tauto. Qed.

Definition graph_okb (rank : string → nat) (room_id : string) (g : event_graph) : bool :=
  let latest := get_latest_event_ids_in_room g room_id in
  forallb (λ x, match g_events g !! x.1 with Some row => bool_decide (x.2 ∈ prev_event_ids (er_event row)) | None => false end
                && bool_decide (rank x.2 < rank x.1)%nat && negb (bool_decide (x.2 ∈ latest) && acceptedb g x.1)) (elements (g_edges g))
  && forallb (λ x : string * event_row, in_rejections g x.1 || forallb (λ b, bool_decide ((x.1, b) ∈ g_edges g)) (prev_event_ids (er_event x.2))) (map_to_list (g_events g))
  && forallb (acceptedb g) (elements latest).

Lemma graph_ok_checked rank room_id g : graph_okb rank room_id g = true → graph_ok rank room_id g.
Proof.
  unfold graph_okb. rewrite !andb_true_iff, !forallb_forall. intros [[H1 H2] H3].
  assert (∀ a b, edge g a b → (∃ row, g_events g !! a = Some row ∧ b ∈ prev_event_ids (er_event row)) ∧ (rank b < rank a)%nat ∧
    (b ∈ get_latest_event_ids_in_room g room_id → acceptedb g a = false)) as He.
  { intros a b Hab. assert (In (a, b) (elements (g_edges g))) as Hin by (apply list_elem_of_In, elem_of_elements; exact Hab). specialize (H1 (a, b) Hin). cbn [fst snd] in H1.
    rewrite !andb_true_iff, negb_true_iff, andb_false_iff, bool_decide_eq_true, bool_decide_eq_false in H1. destruct H1 as [[Hrow Hr] Hl].
    destruct (g_events g !! a) as [row|]; [|done]. to_prop. split_and!; [by exists row|done|]. by destruct Hl. }
  split.
  - intros a b Hab. by apply He.
  - intros a row b Hrow Hr Hb. assert (In (a, row) (map_to_list (g_events g))) as Hin by (by apply list_elem_of_In, elem_of_map_to_list). specialize (H2 (a, row) Hin).
    cbn [fst snd] in H2. rewrite Hr in H2. cbn [orb] in H2. rewrite forallb_forall in H2. specialize (H2 b (proj1 (list_elem_of_In _ _) Hb)). by to_prop.
  - intros a b Hab. by apply He.
  - intros f Hf. apply acceptedb_iff, H3, list_elem_of_In. by apply elem_of_elements.
  - intros f a Hf Ha Hab. apply acceptedb_iff in Ha. destruct (He a f Hab) as (_ & _ & Hl). rewrite Hl in Ha; done.
Qed.

Definition batch_okb (rank : string → nat) (g : event_graph) (l : list item) : bool :=
  forallb (λ x, forallb (λ p, bool_decide (rank p < rank (it_id x))%nat) (prev_event_ids (it_event x))
    && match g_events g !! it_id x with
       | Some row => bool_decide (prev_event_ids (er_event row) = prev_event_ids (it_event x)) && eqb (ev_soft_failed (er_event row)) (ev_soft_failed (it_event x))
       | None => true
       end
    && (negb (in_rejections g (it_id x)) || is_rejected (it_context x))) l
  && bool_decide (NoDup (map it_id l)).

Lemma batch_ok_checked rank g l : batch_okb rank g l = true → batch_ok rank g l.
Proof.
  unfold batch_okb. rewrite andb_true_iff, forallb_forall, bool_decide_eq_true. intros [H1 Hd].
  assert (∀ x, x ∈ l → In x l) as Hin by (intros x; apply list_elem_of_In). split.
  - intros x p Hx Hp. specialize (H1 x (Hin x Hx)). rewrite !andb_true_iff, forallb_forall in H1. destruct H1 as [[H1 _] _]. specialize (H1 p (proj1 (list_elem_of_In _ _) Hp)). by to_prop.
  - intros x row Hx Hrow. specialize (H1 x (Hin x Hx)). rewrite Hrow in H1. to_prop. split; [done|]. by apply eqb_prop.
  - intros x Hx Hr. specialize (H1 x (Hin x Hx)). rewrite Hr in H1. by to_prop.
  - intros x y Hx Hy Hid. by rewrite (NoDup_ids_inj l x y Hd Hx Hy Hid).
Qed.

(** Nothing refers to the events of the batch yet. *)
Lemma not_lost_checked room_id g l : forallb (λ x, forallb (λ e, negb (bool_decide (e.2 = it_id x))) (elements (g_edges g))) l = true → not_lost room_id g l.
Proof.
  rewrite forallb_forall. intros Hall x a Hx _ _ He. specialize (Hall x (proj1 (list_elem_of_In _ _) Hx)). rewrite forallb_forall in Hall.
  assert (In (a, it_id x) (elements (g_edges g))) as Hin by (apply list_elem_of_In, elem_of_elements; exact He). specialize (Hall _ Hin). to_prop. done.
Qed.

Lemma extremities_right_witness :
  graph_ok px_rank "!r:hs" (t_graph (ps_tables px_after)) ∧ covered (t_graph (ps_tables px_after)) {["$topic"; "$ban"]} "$dave".
Proof.
  destruct (extremities_right px_rank SQLite "hs" 10 0 px_state "!r:hs" px_batch) as (E & HE & Hall).
  - apply graph_ok_checked. vm_compute. reflexivity.
  - apply batch_ok_checked. vm_compute. reflexivity.
  - apply not_lost_checked. vm_compute. reflexivity.
  - right. eexists. split; [by left|vm_compute; reflexivity].
  - destruct (Hall px_after px_after_Ok) as (Hg & _ & Hcov). split; [exact Hg|].
    assert (E = {["$topic"; "$ban"]}) as <-; [|apply Hcov; left; exists "$topic"; split; [apply (bool_decide_unpack _); vm_compute; exact I|]; apply rtc_once; unfold edge; apply (bool_decide_unpack _); vm_compute; exact I].
    assert (calculate_new_extremities (t_graph (ps_tables px_state)) px_batch (get_latest_event_ids_in_room (t_graph (ps_tables px_state)) "!r:hs") = Ok {["$topic"; "$ban"]}) as HE2 by (vm_compute; reflexivity).
    congruence.
Defined.
