(* ===== verification/CurrentState.v ===== *)
(** * The current state of a room: facts about [PersistEvents]

    The current state that is stored for a room is the state after its forward extremities,
    resolved; the stream of changes replays it; and the server knows whether it is still in
    the room. *)

From S2P Require Import Prelude PyData RoomVersions Ids Events EventAuth StateFilters StateResV2 StateResV2Facts StateResV1 RoomExample IterUtils LinkedList CacheStore LruCache TreeCache DictionaryCache StateGroups StateGroupFacts StateGroupCache StateGroupSystem ExpiringCache StateHandler StateHandlerFacts EventTables PersistEvents PersistExample EventGraphFacts Extremities.

Open Scope Z_scope.

(** ** The tables after the transaction *)

(** Applying a difference *)
Definition delta_applied (d : DeltaState) (cur : state_ids) : state_ids :=
  if no_longer_in_room d then ∅ else to_insert d ∪ filter (λ x, x.1 ∉ delta_keys d) cur.

(** The rows for a difference *)
Definition delta_rows (stream_id : Z) (room_id : string) (d : DeltaState) (cur : state_ids) : list delta_row :=
  if no_longer_in_room d then map (λ x, MkDeltaRow stream_id room_id x.1 None (Some x.2)) (map_to_list cur)
  else map (λ k, MkDeltaRow stream_id room_id k (to_insert d !! k) (cur !! k)) (delta_keys d).

Lemma insert_local_same room_id l r r' :
  py_fold (insert_local room_id) r l = Ok r' → r_current r' = r_current r ∧ r_deltas r' = r_deltas r ∧ r_memberships r' = r_memberships r.
Proof.
  revert r. induction l as [|[[ty u] i] l IH]; intros r; cbn [py_fold]; [by intros [= <-]|]. intros (r1 & H1 & H2)%py_bind_Ok. cbn in H1.
  destruct (r_memberships r !! i) as [[u' m]|]; [injection H1 as <-|done]. by apply IH in H2.
Qed.

Lemma update_current_state_spec hostname g r room_id d stream_id r' :
  update_current_state_txn hostname g r room_id d stream_id = Ok r' →
  current_state r' room_id = delta_applied d (current_state r room_id) ∧ (∀ room, room ≠ room_id → current_state r' room = current_state r room) ∧
  r_deltas r' = r_deltas r ++ delta_rows stream_id room_id d (current_state r room_id) ∧ r_memberships r' = r_memberships r.
Proof.
  unfold update_current_state_txn. intros (Hc & Hd & Hm)%insert_local_same. cbn [r_current r_deltas r_memberships] in *. unfold current_state at 1 3. rewrite Hc, Hd, Hm.
  assert (∀ b : bool, r_current (if b then r else r) = r_current r) as _ by (by intros []). unfold delta_applied, delta_rows.
  assert (r_current (upsert_room_version_txn g r room_id) = r_current r ∧ r_deltas (upsert_room_version_txn g r room_id) = r_deltas r ∧
    r_memberships (upsert_room_version_txn g r room_id) = r_memberships r) as (U1 & U2 & U3) by (unfold upsert_room_version_txn; by destruct (_ ≫= _)).
  destruct (no_longer_in_room d); cbn [r_current r_deltas r_memberships].
  - rewrite U1, U2, U3. split_and!; [by rewrite lookup_delete_eq| |done|done]. intros room Hne. by rewrite lookup_delete_ne.
  - split_and!; [by rewrite lookup_insert_eq| |done|done]. intros room Hne. by rewrite lookup_insert_ne.
Qed.

Lemma store_members_same hostname r l inhibit r' :
  store_room_members_txn hostname r l inhibit = Ok r' → r_current r' = r_current r ∧ r_deltas r' = r_deltas r.
Proof.
  unfold store_room_members_txn. intros (r1 & H1 & H2)%py_bind_Ok.
  eapply (py_fold_inv (λ r0, r_current r0 = r_current r ∧ r_deltas r0 = r_deltas r)) in H1; [|intros x r2 r3 _ Hr Hs; unfold store_room_member in Hs; py_inv; done|done].
  eapply (py_fold_inv (λ r0, r_current r0 = r_current r ∧ r_deltas r0 = r_deltas r)) in H2; [done| |done].
  intros x r2 r3 _ Hr Hs. unfold store_local_membership in Hs. apply py_bind_Ok in Hs as (u & _ & Hs). destruct (_ && _); py_inv; done.
Qed.

Lemma update_outliers_room t l l' t' : update_outliers_txn t l = Ok (l', t') → t_room t' = t_room t.
Proof. unfold update_outliers_txn. intros (t1 & Ho & [= <- <-])%py_bind_Ok. apply (outliers_graph _ l) in Ho as (_ & _ & _ & Hr & _). done. Qed.

(** The stream ordering of the first event is that of the changes of the state. *)
Theorem persist_events_room e hostname t room_id l inhibit d ext t' :
  persist_events_txn e hostname t room_id l inhibit d ext = Ok t' →
  let cur := current_state (t_room t) room_id in
  match d with
  | Some d => current_state (t_room t') room_id = delta_applied d cur ∧
      ∃ x l', l = x :: l' ∧ r_deltas (t_room t') = r_deltas (t_room t) ++ delta_rows (it_stream x) room_id d cur
  | None => current_state (t_room t') room_id = cur ∧ r_deltas (t_room t') = r_deltas (t_room t)
  end ∧ ∀ room, room ≠ room_id → current_state (t_room t') room = current_state (t_room t) room.
Proof.
  intros Ht cur. unfold persist_events_txn in Ht. apply py_bind_Ok in Ht as (mn & Hmn & Ht). apply py_bind_Ok in Ht as (mx & _ & Ht).
  apply py_bind_Ok in Ht as ([] & _ & Ht). apply py_bind_Ok in Ht as ([] & _ & Ht). apply py_bind_Ok in Ht as ([l1 t1] & Hout & Ht). apply update_outliers_room in Hout. cbn [with_graph t_room] in Hout.
  apply py_bind_Ok in Ht as (i1 & _ & Ht). apply py_bind_Ok in Ht as (i2 & _ & Ht). unfold store_rejected_events_txn in Ht. apply py_bind_Ok in Ht as (t3 & Hmd & Ht).
  assert (r_current (t_room t3) = r_current (t_room t) ∧ r_deltas (t_room t3) = r_deltas (t_room t)) as [Hc Hd].
  { rewrite <- Hout. unfold update_metadata_tables_txn in Hmd. case_hyp Hmd; [injection Hmd as <-; done|].
    apply py_bind_Ok in Hmd as (g3 & _ & Hmd). apply py_bind_Ok in Hmd as (r3 & Hr & [= <-]). by apply store_members_same in Hr. }
  assert (∀ room, current_state (t_room t3) room = current_state (t_room t) room) as Hcs by (intros room; unfold current_state; by rewrite Hc).
  destruct d as [d|]; [|injection Ht as <-; split; [split; [apply Hcs|done]|intros; apply Hcs]].
  apply py_bind_Ok in Ht as (r' & Hu & [= <-]). apply update_current_state_spec in Hu as (U1 & U2 & U3 & _). cbn [with_room t_room]. rewrite !Hcs in *. rewrite Hd in U3.
  split; [|intros room Hne; by rewrite U2, Hcs]. split; [done|]. destruct l as [|x l0]; [done|]. injection Hmn as <-. by exists x, l0.
Qed.

(** ** The stream of changes *)

(** The state of a room, from the rows of the stream *)
Definition replay_row (room_id : string) (st : state_ids) (row : delta_row) : state_ids :=
  if bool_decide (dr_room_id row = room_id) then
    match dr_event_id row with Some i => <[dr_key row := i]> st | None => delete (dr_key row) st end
  else st.
Definition replay (rows : list delta_row) (room_id : string) : state_ids := foldl (replay_row room_id) ∅ rows.

Record stream_ok (rows : list delta_row) (r : room_tables) (pos : Z) : Prop := {
  so_replay : ∀ room_id, replay rows room_id = current_state r room_id;
  so_prev : ∀ rows1 row rows2, rows = rows1 ++ row :: rows2 → dr_prev_event_id row = replay rows1 (dr_room_id row) !! dr_key row;
  so_sorted : StronglySorted Z.le (map dr_stream_id rows);
  so_bound : Forall (λ row, dr_stream_id row ≤ pos) rows;
}.

(** A group of rows for one room, with different keys *)
Definition rows_for (stream_id : Z) (room_id : string) (cur : state_ids) (new : string * string → option string) (keys : list (string * string)) : list delta_row :=
  map (λ k, MkDeltaRow stream_id room_id k (new k) (cur !! k)) keys.

Lemma replay_rows_for stream_id room_id cur new keys st k :
  NoDup keys → foldl (replay_row room_id) st (rows_for stream_id room_id cur new keys) !! k = if bool_decide (k ∈ keys) then new k else st !! k.
Proof.
  revert st. induction keys as [|k0 keys IH]; intros st Hd; cbn [rows_for map foldl]; [by rewrite bool_decide_false by by intros ?%elem_of_nil|].
  apply NoDup_cons in Hd as [Hn Hd]. rewrite IH by done. unfold replay_row. cbn [dr_room_id dr_event_id dr_key]. rewrite (bool_decide_true (room_id = room_id)) by done.
  destruct (decide (k = k0)) as [->|Hne].
  - rewrite (bool_decide_false (k0 ∈ keys)), (bool_decide_true (k0 ∈ k0 :: keys)) by (done || by left). destruct (new k0); [by rewrite lookup_insert_eq|by rewrite lookup_delete_eq].
  - destruct (decide (k ∈ keys)) as [Hk|Hk]; [rewrite (bool_decide_true (k ∈ keys)), (bool_decide_true (k ∈ k0 :: keys)) by (done || by right); done|].
    rewrite (bool_decide_false (k ∈ keys)), (bool_decide_false (k ∈ k0 :: keys)) by (done || by intros [?|?]%elem_of_cons). destruct (new k0); [by rewrite lookup_insert_ne|by rewrite lookup_delete_ne].
Qed.

Lemma replay_rows_other stream_id room_id room cur new keys st :
  room ≠ room_id → foldl (replay_row room) st (rows_for stream_id room_id cur new keys) = st.
Proof.
  intros Hne. revert st. induction keys as [|k keys IH]; intros st; cbn [rows_for map foldl]; [done|]. rewrite IH. unfold replay_row. cbn. by rewrite bool_decide_false.
Qed.

(** The rows and the state they lead to *)
Lemma stream_ok_app rows r r' pos stream_id room_id new keys :
  stream_ok rows r pos → pos < stream_id → NoDup keys →
  (∀ k, current_state r' room_id !! k = if bool_decide (k ∈ keys) then new k else current_state r room_id !! k) →
  (∀ room, room ≠ room_id → current_state r' room = current_state r room) →
  stream_ok (rows ++ rows_for stream_id room_id (current_state r room_id) new keys) r' stream_id.
Proof.
  intros [H1 H2 H3 H4] Hpos Hd Hcur Hother. split.
  - intros room. unfold replay. rewrite foldl_app. fold (replay rows room). rewrite H1. destruct (decide (room = room_id)) as [->|Hne].
    + apply map_eq. intros k. by rewrite replay_rows_for, Hcur.
    + by rewrite replay_rows_other, Hother.
  - intros rows1 row rows2 Heq. apply app_eq_inv in Heq as [(l & -> & Heq)|(l & -> & Heq)].
    + destruct l as [|row' l]; cbn [app] in Heq.
      * rewrite app_nil_r in *. destruct keys as [|k keys]; [done|]. injection Heq as -> ->. cbn. by rewrite H1.
      * injection Heq as -> _. by apply (H2 rows1 _ l).
    + unfold rows_for in Heq. apply map_eq_app in Heq as (ks1 & ks2 & -> & <- & Heq). apply map_eq_cons in Heq as (k & ks & -> & <- & _). cbn.
      unfold replay. rewrite foldl_app. fold (replay rows room_id) (rows_for stream_id room_id (current_state r room_id) new ks1).
      apply NoDup_app in Hd as (Hd1 & Hd2 & _). rewrite replay_rows_for, bool_decide_false, H1; [done| |done]. intros Hin. apply (Hd2 k Hin). by left.
  - rewrite map_app. apply StronglySorted_app_2; [|done|].
    + intros a b (row & -> & Hrow)%list_elem_of_fmap (row' & -> & (k & -> & _)%list_elem_of_fmap)%list_elem_of_fmap. cbn. rewrite Forall_forall in H4. specialize (H4 row Hrow). lia.
    + unfold rows_for. rewrite map_map. cbn. clear. induction keys; cbn; constructor; [done|]. apply Forall_forall. intros z (k & -> & _)%list_elem_of_fmap. lia.
  - apply Forall_app. split; [eapply Forall_impl; [exact H4|cbn; lia]|]. apply Forall_forall. intros row (k & -> & _)%list_elem_of_fmap. cbn. lia.
Qed.

Lemma delta_rows_spec (stream_id : Z) (room_id : string) (d : DeltaState) (cur : state_ids) :
  NoDup (delta_keys d) →
  ∃ new keys, delta_rows stream_id room_id d cur = rows_for stream_id room_id cur new keys ∧ NoDup keys ∧
    ∀ k, delta_applied d cur !! k = if bool_decide (k ∈ keys) then new k else cur !! k.
Proof.
  intros Hd. unfold delta_rows, delta_applied. destruct (no_longer_in_room d).
  - exists (λ _, None), (map fst (map_to_list cur)). split_and!; [|apply NoDup_fst_map_to_list|].
    + unfold rows_for. rewrite map_map. apply map_ext_in. intros [k v] Hin%list_elem_of_In%elem_of_map_to_list. cbn. by rewrite Hin.
    + intros k. case_bool_decide as Hk; [done|]. rewrite lookup_empty. destruct (cur !! k) as [v|] eqn:E; [|done]. destruct Hk. apply list_elem_of_fmap. exists (k, v). split; [done|]. by apply elem_of_map_to_list.
  - exists (to_insert d !!.), (delta_keys d). split_and!; [done|done|]. intros k. rewrite lookup_union. case_bool_decide as Hk.
    + rewrite (map_lookup_filter_None_2 _ cur); [by destruct (to_insert d !! k)|]. right. intros v Hv Hn. cbn in Hn. done.
    + assert (to_insert d !! k = None) as ->.
      { destruct (to_insert d !! k) as [v|] eqn:E; [|done]. destruct Hk. unfold delta_keys. apply elem_of_app. right. apply list_elem_of_fmap. exists (k, v). split; [done|]. by apply elem_of_map_to_list. }
      rewrite (left_id_L None (∪)). destruct (cur !! k) as [v|] eqn:E; [by apply map_lookup_filter_Some_2|]. apply map_lookup_filter_None_2. by left.
Qed.

Lemma calculate_state_delta_keys r room_id st : NoDup (delta_keys (calculate_state_delta r room_id st)).
Proof.
  unfold delta_keys, calculate_state_delta. cbn. apply NoDup_app. split_and!.
  - assert (∀ (f : string * string → bool) l, NoDup l → NoDup (List.filter f l)) as Hf.
    { intros f l. induction l as [|x l IH]; cbn; [done|]. intros [Hn Hd]%NoDup_cons. destruct (f x); [|by apply IH]. apply NoDup_cons. split; [|by apply IH]. by intros [? _]%elem_of_bfilter. }
    apply Hf, NoDup_fst_map_to_list.
  - intros k [_ Hn]%elem_of_bfilter ([k' v] & -> & Hin%elem_of_map_to_list)%list_elem_of_fmap. to_prop. apply map_lookup_filter_Some in Hin as [Hin _]. cbn in Hn. congruence.
  - apply NoDup_fst_map_to_list.
Qed.

Section Persist.
Context {K S : Type} `{Countable K} `{!CacheStore K S} `{!KeyScheme Z (string * string) K} `{!StateResolver}.
Context (e : engine) (hostname : string).
Abbreviation handler := (state_handler (K := K) (S := S)).
Abbreviation persist := (persist_state (K := K) (S := S)).

Lemma calculated_keys fuel now t (h : handler) room_id l ext d h' :
  calculate_new_forward_extremities_and_state_delta e hostname fuel now t h room_id l = Ok (ext, Some d, h') → NoDup (delta_keys d).
Proof using Type.
  unfold calculate_new_forward_extremities_and_state_delta. intros (E & _ & Hr)%py_bind_Ok. case_bool_decide; [done|].
  apply py_bind_Ok in Hr as ([] & _ & Hr). case_hyp Hr; [done|]. apply py_bind_Ok in Hr as ([[[st delta] N] h1] & _ & Hr). apply py_bind_Ok in Hr as ([] & _ & Hr).
  assert (∀ d0 b, delta_keys (if b : bool then d0 else MkDelta (to_delete d0) (to_insert d0) true) = delta_keys d0) as Hb by (by intros d0 []).
  destruct delta as [delta|]; [|destruct st as [st|]; [|done]]; apply py_bind_Ok in Hr as (b & _ & [= <- <- <-]).
  - rewrite Hb. apply NoDup_fst_map_to_list.
  - rewrite Hb. apply calculate_state_delta_keys.
Qed.

(** What changes the tables: a batch is persisted, or the current state is recalculated. *)
Inductive persist_step : persist → persist → Prop :=
  | chunk_step fuel now s s' room_id backfilled l :
      persist_chunk e hostname fuel now s room_id backfilled l = Ok s' → persist_step s s'
  | recalculate_step now s s' room_id :
      update_current_state e hostname now s room_id = Ok s' → persist_step s s'.

Definition deltas_right (s : persist) : Prop := stream_ok (r_deltas (t_room (ps_tables s))) (t_room (ps_tables s)) (ps_stream s).

Lemma stream_ok_same rows r r' pos pos' : stream_ok rows r pos → pos ≤ pos' → (∀ room, current_state r' room = current_state r room) → stream_ok rows r' pos'.
Proof using Type. intros [H1 H2 H3 H4] Hp Hc. split; [intros room; by rewrite Hc|done|done|]. eapply Forall_impl; [exact H4|cbn; lia]. Qed.

Lemma stream_ok_delta (r r' : room_tables) (pos pos' stream_id : Z) (room_id : string) (d : DeltaState) :
  stream_ok (r_deltas r) r pos → pos < stream_id → stream_id ≤ pos' → NoDup (delta_keys d) →
  current_state r' room_id = delta_applied d (current_state r room_id) → (∀ room, room ≠ room_id → current_state r' room = current_state r room) →
  r_deltas r' = r_deltas r ++ delta_rows stream_id room_id d (current_state r room_id) → stream_ok (r_deltas r') r' pos'.
Proof using Type.
  intros Hs Hpos Hpos' Hd Hc Ho ->. destruct (delta_rows_spec stream_id room_id d (current_state r room_id) Hd) as (new & keys & -> & Hnd & Hk).
  eapply stream_ok_same; [eapply (stream_ok_app _ r r'); [exact Hs|exact Hpos|done| |done]|done|done]. intros k. by rewrite Hc, Hk.
Qed.

Lemma length_assign step n l : length (assign_streams step n l) = length l.
Proof using Type. revert n. induction l; intros n; cbn; [done|]. by rewrite IHl. Qed.

Lemma deltas_right_step s s' : persist_step s s' → deltas_right s → deltas_right s'.
Proof using Type.
  unfold deltas_right. intros [fuel now s1 s2 room_id [] l Hp|now s1 s2 room_id Hp] Hok.
  - unfold persist_chunk in Hp. cbn [mbind py_bind] in Hp. unfold persist_events_and_state_updates in Hp. apply py_bind_Ok in Hp as (t' & Ht & [= <-]).
    apply persist_events_room in Ht as [[Hc Hd] Ho]. cbn [ps_tables ps_stream] in *. rewrite Hd. eapply stream_ok_same; [exact Hok|done|].
    intros room. destruct (decide (room = room_id)) as [->|Hne]; [exact Hc|by apply Ho].
  - unfold persist_chunk in Hp. apply py_bind_Ok in Hp as ([[ext d] h'] & Hcalc & Hp). unfold persist_events_and_state_updates in Hp.
    apply py_bind_Ok in Hp as (t' & Ht & [= <-]). apply persist_events_room in Ht as [Hd Ho]. cbn [ps_tables ps_stream] in *. rewrite length_assign. destruct d as [d|].
    + destruct Hd as (Hc & x & l' & Hl & Hrows). destruct l as [|x0 l0]; [done|]. cbn [assign_streams] in Hl. injection Hl as <- _. cbn [it_stream] in Hrows.
      eapply stream_ok_delta; [exact Hok| | |by eapply calculated_keys|exact Hc|exact Ho|exact Hrows]; cbn [length]; lia.
    + destruct Hd as [Hc ->]. eapply stream_ok_same; [exact Hok|lia|]. intros room. destruct (decide (room = room_id)) as [->|Hne]; [exact Hc|by apply Ho].
  - unfold update_current_state in Hp. apply py_bind_Ok in Hp as ([st h'] & _ & Hp). case_hyp Hp; [injection Hp as <-; done|].
    apply py_bind_Ok in Hp as (r' & Hu & [= <-]). apply update_current_state_spec in Hu as (U1 & U2 & U3 & _). cbn [ps_tables ps_stream with_room t_room] in *.
    eapply stream_ok_delta; [exact Hok| | |apply calculate_state_delta_keys|exact U1|exact U2|exact U3]; lia.
Qed.

(** C19: The stream of changes of the current state.  After batches of events, backfilled or
    not, and recalculations in any order, replaying the stream gives the current state of
    every room; each row has the event that was in the state before it; and the stream
    orderings of the rows never go back. *)
Theorem delta_stream_replays s s' : rtc persist_step s s' → deltas_right s → deltas_right s'.
Proof using Type. induction 1 as [|s1 s2 s3 Hs _ IH]; [done|]. intros Hd. apply IH. by eapply deltas_right_step. Qed.
End Persist.

(** ** The groups of the events *)

Definition mapped_group (x : item) : option Z :=
  if is_rejected (it_context x) then ctx_state_group_before_event (it_context x) else ctx_state_group (it_context x).

(** The groups in [i'] are those in [i] and those of some items. *)
Record groups_added (i : gmap string Z) (l : list item) (i' : gmap string Z) : Prop := {
  ga_from : ∀ j g, i' !! j = Some g → i !! j = Some g ∨ ∃ x, x ∈ l ∧ it_id x = j ∧ ev_outlier (it_event x) = false ∧ mapped_group x = Some g;
  ga_old : ∀ j, is_Some (i !! j) → is_Some (i' !! j);
  ga_new : ∀ x, x ∈ l → ev_outlier (it_event x) = false → is_Some (i' !! it_id x);
}.

Lemma partial_same l i i' : py_fold add_partial_event i l = Ok i' → i_state_groups i' = i_state_groups i.
Proof.
  intros Hf. eapply (py_fold_inv (λ i0, i_state_groups i0 = i_state_groups i)) in Hf; [done| |done].
  intros x i1 i2 _ Hi Hx. unfold add_partial_event in Hx. case_hyp Hx; [|by injection Hx as <-]. py_inv. done.
Qed.

Lemma mappings_added l i i' : store_event_state_mappings_txn i l = Ok i' → groups_added (i_state_groups i) l (i_state_groups i').
Proof.
  unfold store_event_state_mappings_txn. intros ([] & _ & Hr)%py_bind_Ok. apply py_bind_Ok in Hr as (i1 & <-%partial_same & Hr). revert i1 Hr.
  induction l as [|x l IH]; intros i1 Hr; cbn [py_fold] in Hr; [injection Hr as <-; split; [by left|done|by intros ? ?%elem_of_nil]|].
  apply py_bind_Ok in Hr as (i2 & Hx & Hr). apply IH in Hr as [G1 G2 G3]. apply py_bind_Ok in Hx as (m & Hm & [= <-]). unfold state_mapping in Hm. fold (mapped_group x) in Hm.
  destruct (ev_outlier (it_event x)) eqn:Eo; [injection Hm as <-|destruct (mapped_group x) as [g|] eqn:Eg; [injection Hm as <-|done]]; cbn [i_state_groups] in *.
  - split; [|done|].
    + intros j g [?|(y & Hy & R)]%G1; [by left|right]. exists y. split; [by right|done].
    + intros y [->|Hy]%elem_of_cons Hoy; [congruence|by apply G3].
  - split.
    + intros j g' [[[<- <-]|[Hne Hj]]%lookup_insert_Some|(y & Hy & R)]%G1; [right; exists x; split_and!; [by left|done|done|done]|by left|right; exists y; split; [by right|done]].
    + intros j Hj. apply G2. destruct (decide (j = it_id x)) as [->|Hne]; [by rewrite lookup_insert_eq|by rewrite lookup_insert_ne].
    + intros y [->|Hy]%elem_of_cons Hoy; [apply G2; by rewrite lookup_insert_eq|by apply G3].
Qed.

Lemma groups_added_trans i1 l1 i2 l2 i3 (l : list item) :
  groups_added i1 l1 i2 → groups_added i2 l2 i3 → (∀ x, x ∈ l1 → x ∈ l) → (∀ x, x ∈ l2 → x ∈ l) →
  (∀ j g, i3 !! j = Some g → i1 !! j = Some g ∨ ∃ x, x ∈ l ∧ it_id x = j ∧ ev_outlier (it_event x) = false ∧ mapped_group x = Some g) ∧
  (∀ j, is_Some (i1 !! j) → is_Some (i3 !! j)) ∧ (∀ x, x ∈ l1 ∨ x ∈ l2 → ev_outlier (it_event x) = false → is_Some (i3 !! it_id x)).
Proof.
  intros [A1 A2 A3] [B1 B2 B3] H1 H2. split_and!.
  - intros j g [[?|(x & Hx & R)]%A1|(x & Hx & R)]%B1; [by left|right; exists x; auto|right; exists x; auto].
  - auto.
  - intros x [Hx|Hx] Ho; auto.
Qed.

Lemma outliers_groups hp l t t' :
  py_fold (outlier_step hp) t l = Ok t' → groups_added (i_state_groups (t_info t)) (List.filter (ex_outlier_item hp) l) (i_state_groups (t_info t')).
Proof.
  revert t. induction l as [|x l IH]; intros t; cbn [py_fold List.filter]; [intros [= <-]; split; [by left|done|by intros ? ?%elem_of_nil]|].
  rewrite outlier_step_eq. intros (t1 & H1 & H2)%py_bind_Ok. apply IH in H2. destruct (ex_outlier_item hp x); [|by injection H1 as ->].
  unfold ex_outlier in H1. apply py_bind_Ok in H1 as (i1 & Hi%mappings_added & H1). apply py_bind_Ok in H1 as (sg & _ & H1). apply py_bind_Ok in H1 as (g1 & _ & [= <-]).
  cbn [t_info i_state_groups] in *. destruct (groups_added_trans _ _ _ _ _ (x :: List.filter (ex_outlier_item hp) l) Hi H2) as (G1 & G2 & G3).
  { intros y ->%list_elem_of_singleton. by left. } { intros y Hy. by right. }
  split; [done|done|]. intros y [->|Hy]%elem_of_cons Hoy; apply G3; try done; [left; by left|by right].
Qed.

Lemma transaction_ids_same l i i' : persist_transaction_ids_txn i l = Ok i' → i_state_groups i' = i_state_groups i.
Proof.
  unfold persist_transaction_ids_txn. intros Hf. eapply (py_fold_inv (λ i0, i_state_groups i0 = i_state_groups i)) in Hf; [done| |done].
  intros x i1 i2 _ Hi Hx. unfold persist_transaction_id in Hx. destruct (it_txn x) as [[dev|] [tid|]]; [py_inv; done|by injection Hx as <-..].
Qed.

Theorem persist_events_groups e hostname t room_id l inhibit d ext t' :
  persist_events_txn e hostname t room_id l inhibit d ext = Ok t' →
  let L := filter_events_and_contexts_for_duplicates l in
  (∀ j g, i_state_groups (t_info t') !! j = Some g → i_state_groups (t_info t) !! j = Some g ∨
    ∃ x, x ∈ l ∧ it_id x = j ∧ ev_outlier (it_event x) = false ∧ mapped_group x = Some g) ∧
  (∀ j, is_Some (i_state_groups (t_info t) !! j) → is_Some (i_state_groups (t_info t') !! j)) ∧
  (∀ x, x ∈ L → ev_outlier (it_event x) = false →
    g_events (t_graph t) !! it_id x = None ∨ (is_rejected (it_context x) = false ∧ ∃ row, g_events (t_graph t) !! it_id x = Some row ∧ er_outlier row = true) →
    is_Some (i_state_groups (t_info t') !! it_id x)).
Proof.
  intros Ht L. unfold persist_events_txn in Ht. fold L in Ht. apply py_bind_Ok in Ht as (mn & _ & Ht). apply py_bind_Ok in Ht as (mx & _ & Ht).
  apply py_bind_Ok in Ht as ([] & _ & Ht). apply py_bind_Ok in Ht as ([] & _ & Ht). apply py_bind_Ok in Ht as ([l1 t1] & Hout & Ht).
  unfold update_outliers_txn in Hout. apply py_bind_Ok in Hout as (t1' & Hout & [= <- <-]). destruct (update_depth_same (t_graph t) room_id L) as (D1 & _).
  cbn [with_graph t_graph] in *. set (hp := er_outlier <$> g_events (update_room_depths_txn (t_graph t) room_id L)) in *. apply (outliers_groups hp L) in Hout. cbn [t_info] in Hout.
  apply py_bind_Ok in Ht as (i1 & Hi1%transaction_ids_same & Ht). apply py_bind_Ok in Ht as (i2 & Hi2%mappings_added & Ht). rewrite Hi1 in Hi2.
  unfold store_rejected_events_txn in Ht. apply py_bind_Ok in Ht as (t3 & (Hinfo & _)%update_metadata_graph & Ht). cbn [t_info] in Hinfo.
  assert (t_info t' = i2) as ->. { destruct d as [d|]; [apply py_bind_Ok in Ht as (r & _ & Ht)|]; by injection Ht as <-. }
  pose proof (on_sub _ _ (filter_duplicates_once l)) as Hsub. fold L in Hsub.
  destruct (groups_added_trans _ _ _ _ _ l Hout Hi2) as (G1 & G2 & G3); [intros x [Hx _]%elem_of_bfilter; auto|intros x [Hx _]%elem_of_bfilter; auto|].
  split_and!; [done|done|]. intros x Hx Ho Hc. apply G3; [|done]. rewrite !elem_of_bfilter. unfold ex_outlier_item, hp. rewrite lookup_fmap, D1.
  destruct Hc as [Hn|(Hr & row & -> & Hro)]; [right; by rewrite Hn|left]. cbn. by rewrite Hro, Hr, Ho.
Qed.

(** ** The state after the extremities *)

Section State.
Context {K S : Type} `{Countable K} `{!CacheStore K S} `{!CacheStoreLaws K S} `{!KeyScheme Z (string * string) K} `{!KeySchemeLaws Z (string * string) K S}.
Context (key_of : string → string * string) `{!StateResolver} `{!StateResolverLaws key_of} (version_of : gset Z → string).
(** the group of each event *)
Context (group_at : string → Z).
Context (e : engine) (hostname : string).
Abbreviation handler := (state_handler (K := K) (S := S)).
Abbreviation handler_right := (handler_ok (K := K) (S := S) key_of version_of).
Abbreviation merged := (merged_state version_of).

Definition groups_of (X : gset string) : gset Z := set_map group_at X.

(** All events that are not outliers have their group in the table. *)
Record groups_known (hist : gmap Z state_ids) (t : event_tables) : Prop := {
  sk_table : ∀ i g, i_state_groups (t_info t) !! i = Some g → g = group_at i ∧ is_Some (hist !! g);
  sk_known : ∀ i, not_outlier (t_graph t) i = true → is_Some (i_state_groups (t_info t) !! i);
}.

(** The contexts of the batch are right: they name the groups of the events and differences
    between groups, and an event that is no state event has the state of its only previous
    event, if this is an extremity or of the batch. *)
Record contexts_ok (hist : gmap Z state_ids) (t : event_tables) (room_id : string) (l : list item) : Prop := {
  ck_item : ∀ x, x ∈ l → ev_outlier (it_event x) = false → mapped_group x = Some (group_at (it_id x)) ∧ is_Some (hist !! group_at (it_id x));
  ck_outlier : ∀ x, x ∈ l → ev_outlier (it_event x) = true → ctx_state_group (it_context x) = None;
  ck_deltas : ∀ x, x ∈ l → deltas_ok hist (ctx_state_group_deltas (it_context x));
  ck_chain : ∀ x p, x ∈ l → accepted_item x = true → prev_event_ids (it_event x) = [p] → is_state (it_event x) = false →
    (p ∈ get_latest_event_ids_in_room (t_graph t) room_id ∨ ∃ y, y ∈ l ∧ accepted_item y = true ∧ it_id y = p) →
    hist !! group_at (it_id x) = hist !! group_at p;
  ck_failed : ∀ x p, x ∈ l → accepted_item x = true → p ∈ prev_event_ids (it_event x) → ¬ failed (t_graph t) p;
}.

Lemma read_groups_spec hist (h : handler) (names : gset Z) :
  handler_right hist h → names ⊆ dom hist →
  ∃ s', get_state_for_groups e (sh_store h) (elements names) all = Ok (group_states hist names, s') ∧ handler_right hist (sh_with_store h s').
Proof using KeySchemeLaws0.
  intros Hh Hd. assert (∀ g, g ∈ names → is_Some (hist !! g)) as Hnames by (intros g Hg; by apply elem_of_dom, Hd).
  destruct (get_groups_spec e hist (sh_store h) all (elements names) (go_sg _ _ _ (ho_groups _ _ _ _ Hh))) as (res & s' & Hr & Hs' & Ht & Hdom & Hres).
  { apply new_filter_canonical. }
  { intros x [stx Hx]%elem_of_elements%Hnames. by eapply groups_ok_exists; [apply Hh|]. }
  exists s'. split; [|by eapply handler_ok_same]. rewrite Hr. do 2 f_equal. apply map_eq. intros x. rewrite list_to_set_elements_L in Hdom. destruct (decide (x ∈ names)) as [Hx|Hx].
  - destruct (Hnames x Hx) as [stx Hstx]. rewrite (Hres x stx), filter_state_all; [|by apply elem_of_elements|by apply (go_exact _ _ _ (ho_groups _ _ _ _ Hh))].
    symmetry. by apply map_lookup_filter_Some.
  - assert (res !! x = None) as -> by (apply not_elem_of_dom; by rewrite Hdom). symmetry. apply map_lookup_filter_None. right. by intros ? _.
Qed.

Lemma dom_group_states hist (names : gset Z) : names ⊆ dom hist → dom (group_states hist names) = names.
Proof using Type.
  intros Hd. apply set_eq. intros g. rewrite elem_of_dom. unfold group_states. split.
  - intros [st [_ Hg]%map_lookup_filter_Some]. done.
  - intros Hg. destruct (proj1 (elem_of_dom hist g) (Hd g Hg)) as [st Hst]. exists st. by apply map_lookup_filter_Some.
Qed.

(** *** The groups that are found *)

Definition right_groups (hist : gmap Z state_ids) (m : gmap string Z) : Prop := ∀ i g, m !! i = Some g → g = group_at i ∧ is_Some (hist !! g).

Lemma context_state_group_Ok c sg : context_state_group c = Ok sg → is_rejected c = false ∧ sg = ctx_state_group c.
Proof using Type.
  unfold context_state_group, is_rejected. intros ([] & Hr%raise_if_Ok & [= <-])%py_bind_Ok. split; [|done]. destruct (ctx_rejected c) as [r|]; [|done].
  apply bool_decide_eq_false in Hr. apply bool_decide_eq_false. intros Hne. apply Hr. split; [by eexists|congruence].
Qed.

Lemma context_group_right hist t room_id l l0 i g :
  contexts_ok hist t room_id l → (∀ x, x ∈ l0 → x ∈ l) → context_group l0 i = Ok (Some g) → g = group_at i ∧ is_Some (hist !! g).
Proof using Type.
  intros Hc. induction l0 as [|x l0 IH]; intros Hsub; cbn [context_group]; [done|].
  assert (context_group l0 i = Ok (Some g) → g = group_at i ∧ is_Some (hist !! g)) as IH' by (apply IH; intros y Hy; apply Hsub; by right).
  case_bool_decide as Hi; [subst i|done]. intros (sg & [Hr ->]%context_state_group_Ok & Hg)%py_bind_Ok. destruct (ctx_state_group (it_context x)) as [g'|] eqn:Eg; [injection Hg as ->|by apply IH'].
  assert (x ∈ l) as Hx by (apply Hsub; by left). destruct (ev_outlier (it_event x)) eqn:Eo; [rewrite (ck_outlier _ _ _ _ Hc x Hx Eo) in Eg; done|].
  destruct (ck_item _ _ _ _ Hc x Hx Eo) as [Hm Hh]. unfold mapped_group in Hm. rewrite Hr, Eg in Hm. by injection Hm as ->.
Qed.

Lemma find_groups_right hist t room_id l old new m :
  groups_known hist t → contexts_ok hist t room_id l → find_state_groups (main_of t room_id) l old new = Ok m → right_groups hist m.
Proof using Type.
  intros Ht Hc. unfold find_state_groups. intros ([groups missing] & Hf & Hr)%py_bind_Ok.
  eapply (py_fold_inv (λ s0, right_groups hist s0.1)) in Hf; [|intros i s1 s2 _ Hs Hi|by intros i g].
  - cbn [fst] in Hf. case_bool_decide; [by injection Hr as <-|]. apply py_bind_Ok in Hr as (ev & Hev & [= <-]). unfold get_state_group_for_events in Hev.
    apply py_bind_Ok in Hev as ([] & _ & [= <-]). intros i g Hg. apply lookup_union_Some_raw in Hg as [[Hg _]%map_lookup_filter_Some|[_ Hg]]; [by apply (sk_table _ _ Ht)|by apply Hf].
  - apply py_bind_Ok in Hi as (og & Hog & [= <-]). destruct og as [g|]; [|done]. cbn. apply (context_group_right _ _ _ _ l i g Hc) in Hog; [|done].
    intros j g' [[<- <-]|[_ Hj]]%lookup_insert_Some; [done|by apply Hs].
Qed.

Lemma groups_of_ids_right hist m X G : right_groups hist m → groups_of_ids m X = Ok G → G = groups_of X ∧ G ⊆ dom hist ∧ ∀ i, i ∈ X → m !! i = Some (group_at i).
Proof using Type.
  intros Hm. unfold groups_of_ids. intros ([] & Hx%raise_if_Ok & [= <-])%py_bind_Ok. apply bool_decide_eq_false, dec_stable in Hx.
  assert (∀ i, i ∈ X → m !! i = Some (group_at i)) as Hall.
  { intros i Hi. apply Hx, elem_of_dom in Hi as [g Hg]. destruct (Hm i g Hg) as [-> _]. done. }
  split_and!; [|intros g (i & [Hi _]%map_lookup_filter_Some)%elem_of_map_img; by apply elem_of_dom, (Hm i)|done].
  apply set_eq. intros g. unfold groups_of. rewrite elem_of_map_img, elem_of_map. split.
  - intros (i & [Hi Hin]%map_lookup_filter_Some). exists i. split; [by apply (Hm i)|done].
  - intros (i & -> & Hi). exists i. apply map_lookup_filter_Some. split; [by apply Hall|done].
Qed.

(** *** The new state *)

Lemma merged_singleton hist (g : Z) st : merged hist {[g]} st ↔ hist !! g = Some st.
Proof using Type. unfold merged_state. by rewrite elements_singleton. Qed.

Lemma merged_det hist names st1 st2 : merged hist names st1 → merged hist names st2 → st1 = st2.
Proof using Type.
  unfold merged_state. destruct (elements names) as [|g [|]]; [by intros -> ->|intros H1 H2; congruence|]. intros [_ H1] [_ H2]. congruence.
Qed.

Lemma add_deltas_right hist t room_id l l0 m m' :
  contexts_ok hist t room_id l → (∀ x, x ∈ l0 → x ∈ l) → deltas_ok hist m → py_fold add_group_deltas m l0 = Ok m' → deltas_ok hist m'.
Proof using Type.
  intros Hc Hsub Hm Hf. eapply py_fold_inv in Hf; [exact Hf| |exact Hm]. intros x m1 m2 Hx Hm1 Hs. unfold add_group_deltas in Hs. apply py_bind_Ok in Hs as (sg & _ & Hs).
  destruct sg as [sg|]; [injection Hs as <-|py_inv; done]. intros g1 g2 d [Hd|[_ Hd]]%lookup_union_Some_raw; [|by apply Hm1]. by apply (ck_deltas _ _ _ _ Hc x (Hsub x Hx)).
Qed.

(** The result of [get_new_state_after_events] *)
Definition new_state_right (hist : gmap Z state_ids) (old N : gset string) (st delta : option state_ids) : Prop :=
  match delta, st with
  | Some d, _ => ∃ s0, merged hist (groups_of old) s0 ∧ merged hist (groups_of N) (d ∪ s0)
  | None, Some st => merged hist (groups_of N) st
  | None, None => groups_of N = groups_of old
  end.

Lemma truthy_group_Some g g' : truthy_group g = Some g' → g = Some g'.
Proof using Type. destruct g as [[]|]; cbn; congruence. Qed.

Lemma groups_of_singleton (N : gset string) (g : Z) : N ≠ ∅ → (∀ i, i ∈ N → group_at i = g) → groups_of N = {[g]}.
Proof using Type.
  intros [i Hi]%set_choose_L HN. apply set_eq. intros x. unfold groups_of. rewrite elem_of_map, elem_of_singleton. split; [by intros (j & -> & Hj%HN)|].
  intros ->. exists i. split; [by rewrite (HN i Hi)|done].
Qed.

Lemma pruned_right hist fuel now g new sg m l N st :
  right_groups hist m → (∀ i, i ∈ new → m !! i = Some (group_at i)) → hist !! sg = Some st → merged hist (groups_of new) st → sg ∈ groups_of new →
  prune_extremities fuel hostname now g new sg m l = Ok N → merged hist (groups_of N) st.
Proof using Type.
  intros Hm Hall Hsg Hst Hin Hp. apply prune_extremities_spec in Hp as (_ & Hkeep & Hor & _). destruct Hor as [->|Hor]; [done|].
  rewrite (groups_of_singleton N sg); [by apply merged_singleton| |].
  - unfold groups_of in Hin. apply elem_of_map in Hin as (i & -> & Hi). specialize (Hkeep i Hi (Hall i Hi)). intros ->. by apply not_elem_of_empty in Hkeep.
  - intros i Hi. destruct (Hm i sg (Hor i Hi)) as [-> _]. done.
Qed.

Lemma new_state_spec hist fuel now t (h : handler) room_id l old new st delta N h' :
  handler_right hist h → groups_known hist t → contexts_ok hist t room_id l → new ≠ ∅ →
  room_version_for (t_room t) room_id l = Ok (version_of (groups_of new)) →
  (∃ st0, merged hist (groups_of old) st0) → (∃ st0, merged hist (groups_of new) st0) →
  get_new_state_after_events e hostname fuel now t h room_id l old new = Ok (st, delta, N, h') →
  handler_right hist h' ∧ new_state_right hist old N st delta.
Proof using KeySchemeLaws0 StateResolverLaws0.
  intros Hh Ht Hc Hne Hver [so Hso] [sn Hsn]. unfold get_new_state_after_events. intros (deltas & Hdel & Hr)%py_bind_Ok.
  apply (add_deltas_right hist t room_id l) in Hdel; [|done|done|by intros ???]. apply py_bind_Ok in Hr as (m & Hm & Hr). apply (find_groups_right hist) in Hm; [|done|done].
  apply py_bind_Ok in Hr as (go & Hgo & Hr). apply py_bind_Ok in Hr as (gn & Hgn & Hr).
  destruct (groups_of_ids_right hist m old go Hm Hgo) as (-> & _ & _). destruct (groups_of_ids_right hist m new gn Hm Hgn) as (-> & Hd & Hall). clear Hgo Hgn.
  case_bool_decide as Hsame; [injection Hr as <- <- <- <-; split; [done|by cbn]|].
  set (od := match elements (groups_of old), elements (groups_of new) with [_], [_] => _ | _, _ => _ end) in Hr. destruct od as [d|] eqn:Eod.
  { injection Hr as <- <- <- <-. split; [done|]. cbn. exists so. split; [done|]. unfold od in Eod. unfold merged_state in Hso |- *.
    destruct (elements (groups_of old)) as [|g1 [|]]; [done| |done]. destruct (elements (groups_of new)) as [|g2 [|]]; [done| |done].
    destruct (Hdel g1 g2 d Eod) as (s1 & s2 & H1 & H2 & ->). congruence. }
  clear od Eod. destruct (read_groups_spec hist h (groups_of new) Hh Hd) as (s' & Hrd & Hh'). rewrite Hrd in Hr. cbn [mbind py_bind] in Hr.
  pose proof (dom_group_states hist (groups_of new) Hd) as Hdom.
  destruct (elements (groups_of new)) as [|g0 [|g1 gs]] eqn:El.
  - destruct Hne. apply elements_empty_inv in El. destruct (decide (new = ∅)) as [|[i Hi]%set_choose_L]; [done|]. assert (group_at i ∈ groups_of new) as Hin by (unfold groups_of; apply elem_of_map; eauto).
    rewrite El in Hin. by apply not_elem_of_empty in Hin.
  - destruct (group_states hist (groups_of new) !! g0) as [st0|] eqn:E0; [|done]. injection Hr as <- <- <- <-. split; [done|]. cbn. unfold merged_state. rewrite El. by apply map_lookup_filter_Some in E0 as [? _].
  - rewrite Hdom, bool_decide_false in Hr by (intros Hx; by apply Hx). cbn [raise_if mbind py_bind] in Hr. rewrite Hver in Hr. cbn [mbind py_bind] in Hr.
    assert (filter (λ x, x.1 ∈ groups_of new) (group_states hist (groups_of new)) = group_states hist (groups_of new)) as Hff.
    { apply map_filter_id. intros g st0 [_ Hin]%map_lookup_filter_Some. done. }
    rewrite Hff in Hr. assert (resolution version_of hist (groups_of new) sn) as Hres by (unfold merged_state in Hsn; by rewrite El in Hsn).
    destruct (resolve_state_groups_spec key_of version_of now hist (sh_with_store h s') (group_states hist (groups_of new)) sn Hh') as (r & h2 & en & Hrs & Hh2 & Hst2 & Hen & Ho); [by rewrite Hdom|by rewrite Hdom|].
    rewrite Hdom in Hrs. rewrite Hrs in Hr. cbn [mbind py_bind] in Hr. assert (the_entry h2 r = Ok en) as Hte by (unfold the_entry; by rewrite Hen). rewrite Hte in Hr. cbn [mbind py_bind] in Hr.
    apply py_bind_Ok in Hr as (N' & HN & Hr). destruct (entry_get_all_spec key_of e hist (sh_store h2) en sn (ho_groups _ _ _ _ Hh2) Ho) as (s3 & Hget & Hg3 & Ht3). rewrite Hget in Hr.
    cbn [mbind py_bind] in Hr. injection Hr as <- <- <- <-. split; [eapply handler_ok_same; [done|apply Hg3|done]|]. cbn.
    destruct (truthy_group (se_state_group en)) as [sg|] eqn:Esg; [|by injection HN as <-]. case_bool_decide as Hin; [|by injection HN as <-]. apply truthy_group_Some in Esg.
    eapply pruned_right; [exact Hm|exact Hall|by apply (eo_group _ _ _ Ho)|done|done|exact HN].
Qed.

(** *** Chains of events that are no state events *)

Lemma before_failed_start g s x : before_failed g s x → failed g s.
Proof using Type. by destruct 1. Qed.

Lemma removed_why rank hist t room_id l (E : gset string) c :
  let g := t_graph t in let latest := get_latest_event_ids_in_room g room_id in
  graph_ok rank room_id g → not_lost room_id g l → contexts_ok hist t room_id l → (∀ f, f ∈ E ↔ new_extremity g l latest f) →
  (c ∈ latest ∨ ∃ x, x ∈ l ∧ accepted_item x = true ∧ it_id x = c) → c ∉ E →
  (∃ x, x ∈ l ∧ accepted_item x = true ∧ c ∈ prev_event_ids (it_event x)) ∨ (c ∉ latest ∧ ∃ f, f ∈ latest ∧ (rank c < rank f)%nat).
Proof using Type.
  intros g latest Hg Hnl Hc HE Hcand Hn.
  destruct (decide (Exists (λ x, accepted_item x = true ∧ c ∈ prev_event_ids (it_event x)) l)) as [(x & Hx & Ha & Hin)%Exists_exists|Hb]; [left; eauto|right].
  destruct (decide (c ∈ get_events_which_are_prevs g [c])) as [(_ & a & Ha & He)%events_which_are_prevs_spec|Hne].
  - destruct Hcand as [Hcl|(x & Hx & Hax & <-)]; [by destruct (gk_forward _ _ _ Hg c a)|]. split; [intros Hcl; by destruct (gk_forward _ _ _ Hg (it_id x) a)|].
    destruct (Hnl x a Hx Hax Ha He) as (f & Hf & Hp). exists f. split; [done|]. pose proof (path_rank rank room_id g Hg f a Hp). pose proof (gk_rank _ _ _ Hg _ _ He). lia.
  - destruct Hn. apply HE. split; [done| | |].
    + intros x Hx Ha Hin. apply Hb, Exists_exists. eauto.
    + intros a Ha He. apply Hne, events_which_are_prevs_spec. split; [by left|eauto].
    + intros x s0 Hx Ha Hs Hbf. eapply (ck_failed _ _ _ _ Hc x s0); [done|done|done|]. by eapply before_failed_start.
Qed.

Lemma chain_keeps_state rank hist t room_id l (o n : string) :
  let g := t_graph t in let latest := get_latest_event_ids_in_room g room_id in
  graph_ok rank room_id g → batch_ok rank g l → not_lost room_id g l → contexts_ok hist t room_id l →
  latest = {[o]} → (∀ f, f ∈ ({[n]} : gset string) ↔ new_extremity g l latest f) → n ≠ o → forallb (λ x, single_prev_not_state (it_event x)) l = true →
  hist !! group_at n = hist !! group_at o.
Proof using Type.
  intros g latest Hg Hl Hnl Hc Hlat HE Hno Hall. rewrite forallb_forall in Hall.
  assert (∀ x p, x ∈ l → accepted_item x = true → p ∈ prev_event_ids (it_event x) → (p = o ∨ ∃ y, y ∈ l ∧ accepted_item y = true ∧ it_id y = p) → hist !! group_at (it_id x) = hist !! group_at p) as Hstep.
  { intros x p Hx Ha Hp Hor. specialize (Hall x (proj1 (list_elem_of_In _ _) Hx)). unfold single_prev_not_state in Hall. to_prop.
    destruct (prev_event_ids (it_event x)) as [|p' [|]] eqn:Ep; [done| |done]. apply list_elem_of_singleton in Hp as ->. apply (ck_chain _ _ _ _ Hc); [done|done|done|done|].
    destruct Hor as [->|?]; [left; fold g latest; rewrite Hlat; by apply elem_of_singleton|by right]. }
  destruct (rank_bound rank (list_to_set (map it_id l))) as [b Hb].
  assert (∀ k c, (b - rank c < k)%nat → (rank o < rank c)%nat → hist !! group_at c = hist !! group_at o → (∃ x, x ∈ l ∧ accepted_item x = true ∧ it_id x = c) → hist !! group_at n = hist !! group_at o) as Hup.
  { induction k as [|k IH]; intros c Hk Hr Hcs Hci; [lia|]. destruct (decide (c = n)) as [->|Hcn]; [done|].
    destruct (removed_why rank hist t room_id l {[n]} c Hg Hnl Hc HE) as [(x & Hx & Ha & Hp)|(_ & f & Hf & Hrf)]; [by right|by intros ?%elem_of_singleton| |].
    - pose proof (bk_rank _ _ _ Hl x c Hx Hp) as Hrx. assert (rank (it_id x) ≤ b)%nat as Hbx by (apply Hb, elem_of_list_to_set, elem_of_ids; eauto).
      apply (IH (it_id x)); [lia|lia| |eauto]. rewrite (Hstep x c Hx Ha Hp); [done|by right].
    - fold g latest in Hf. rewrite Hlat in Hf. apply elem_of_singleton in Hf as ->. lia. }
  destruct (removed_why rank hist t room_id l {[n]} o Hg Hnl Hc HE) as [(x & Hx & Ha & Hp)|(Hnl' & _)].
  - left. fold g latest. rewrite Hlat. by apply elem_of_singleton.
  - by intros ->%elem_of_singleton.
  - apply (Hup (1 + (b - rank (it_id x)))%nat (it_id x)); [lia|by apply (bk_rank _ _ _ Hl x)| |eauto]. apply (Hstep x o Hx Ha Hp). by left.
  - destruct Hnl'. fold g latest. rewrite Hlat. by apply elem_of_singleton.
Qed.

(** *** The current state *)

Lemma elem_of_keys (m : state_ids) k : k ∈ map fst (map_to_list m) ↔ is_Some (m !! k).
Proof using Type.
  rewrite list_elem_of_fmap. split; [intros ([k' v] & -> & Hin%elem_of_map_to_list); by eexists|]. intros [v Hv]. exists (k, v). split; [done|]. by apply elem_of_map_to_list.
Qed.

Lemma delta_of_state (r : room_tables) (room_id : string) (st : state_ids) : delta_applied (calculate_state_delta r room_id st) (current_state r room_id) = st.
Proof using Type.
  unfold delta_applied, calculate_state_delta. cbn [no_longer_in_room to_insert]. set (cur := current_state r room_id). apply map_eq. intros k. rewrite lookup_union.
  set (ins := filter (λ x, cur !! x.1 ≠ Some x.2) st). set (d := MkDelta _ _ _).
  assert (k ∈ delta_keys d ↔ (is_Some (cur !! k) ∧ st !! k = None) ∨ is_Some (ins !! k)) as Hkeys.
  { unfold delta_keys, d. cbn [to_delete to_insert]. by rewrite elem_of_app, elem_of_bfilter, bool_decide_eq_true, !elem_of_keys. }
  destruct (ins !! k) as [v|] eqn:Ei.
  { apply map_lookup_filter_Some in Ei as [-> _]. rewrite map_lookup_filter_None_2; [done|]. right. intros w _ Hn. apply Hn. cbn. apply Hkeys. right. by eexists. }
  rewrite (left_id_L None (∪)). destruct (st !! k) as [v|] eqn:Es.
  - destruct (decide (cur !! k = Some v)) as [Ec|Ec]; [|unfold ins in Ei; by rewrite (map_lookup_filter_Some_2 _ _ k v) in Ei].
    apply map_lookup_filter_Some_2; [done|]. intros [[_ ?]|[? ?]]%Hkeys; congruence.
  - apply map_lookup_filter_None_2. destruct (cur !! k) as [v|] eqn:Ec; [|by left]. right. intros w _ Hn. apply Hn. cbn. apply Hkeys. left. by split; [eexists|].
Qed.

Lemma delta_of_inserts (ins cur : state_ids) : delta_applied (MkDelta [] ins false) cur = ins ∪ cur.
Proof using Type.
  unfold delta_applied. cbn [no_longer_in_room to_insert]. apply map_eq. intros k. rewrite !lookup_union. destruct (ins !! k) as [v|] eqn:Ei; [by destruct (filter _ cur !! k), (cur !! k)|].
  f_equal. destruct (cur !! k) as [v|] eqn:Ec; [|apply map_lookup_filter_None_2; by left]. apply map_lookup_filter_Some_2; [done|]. unfold delta_keys. cbn.
  intros ([k' w] & -> & Hin%elem_of_map_to_list)%list_elem_of_fmap. cbn in Ei. congruence.
Qed.

(** What is stored as the current state: the state after the extremities, or nothing if
    the server is found to have left *)
Definition current_right (hist : gmap Z state_ids) (r r' : room_tables) (room_id : string) (l : list item) (latest : gset string) : Prop :=
  ∃ st, merged hist (groups_of latest) st ∧
    (current_state r' room_id = st ∨
     ∃ d, is_server_still_joined hostname r room_id l d = Ok false ∧ no_longer_in_room d = false ∧ delta_applied d (current_state r room_id) = st ∧ current_state r' room_id = ∅).

Lemma calculated_right rank hist fuel now t (h : handler) room_id l E ext d h' :
  let g := t_graph t in let latest := get_latest_event_ids_in_room g room_id in
  handler_right hist h → groups_known hist t → contexts_ok hist t room_id l → graph_ok rank room_id g → batch_ok rank g l → not_lost room_id g l →
  calculate_new_extremities g l latest = Ok E → room_version_for (t_room t) room_id l = Ok (version_of (groups_of E)) →
  (∃ st, merged hist (groups_of E) st) → merged hist (groups_of latest) (current_state (t_room t) room_id) →
  calculate_new_forward_extremities_and_state_delta e hostname fuel now t h room_id l = Ok (ext, d, h') →
  handler_right hist h' ∧ ∃ st, merged hist (groups_of (match ext with Some N => N | None => latest end)) st ∧
    match d with
    | None => st = current_state (t_room t) room_id
    | Some d => ∃ d0, no_longer_in_room d0 = false ∧ delta_applied d0 (current_state (t_room t) room_id) = st ∧
        (d = d0 ∨ (d = MkDelta (to_delete d0) (to_insert d0) true ∧ is_server_still_joined hostname (t_room t) room_id l d0 = Ok false))
    end.
Proof using KeySchemeLaws0 StateResolverLaws0.
  intros g latest Hh Ht Hc Hg Hl Hnl HE Hver Hres Hcur. destruct (calculate_new_extremities_spec g l latest) as (E' & HE' & HEf). assert (E' = E) as -> by congruence.
  unfold calculate_new_forward_extremities_and_state_delta. fold g latest. rewrite HE. cbn [mbind py_bind].
  destruct (bool_decide (E = latest)) eqn:Esame; [intros [= <- <- <-]; split; [done|]; eexists; by split|]. apply bool_decide_eq_false in Esame.
  destruct (bool_decide (E = ∅)) eqn:Hne; [by intros|apply bool_decide_eq_false in Hne]. cbn [raise_if mbind py_bind]. case_match eqn:Eshort.
  { intros [= <- <- <-]. split; [done|]. to_prop. exists (current_state (t_room t) room_id). split; [|done].
    match goal with H1 : size latest = 1%nat, H2 : size E = 1%nat |- _ => apply size_1_elem_of in H1 as [o Ho]; apply size_1_elem_of in H2 as [n Hn] end.
    apply leibniz_equiv in Ho, Hn. rewrite Ho in Hcur. rewrite Hn in *. unfold groups_of in *. rewrite set_map_singleton_L in *. apply merged_singleton. apply merged_singleton in Hcur.
    rewrite <- Hcur. eapply (chain_keeps_state rank hist t room_id l o n); try done. intros ->. by rewrite Ho in Esame. }
  intros ([[[st delta] N] h1] & Hst & Hr)%py_bind_Ok.
  destruct (new_state_spec hist fuel now t h room_id l latest E st delta N h1) as [Hh1 Hright]; try done; [by eexists|].
  apply py_bind_Ok in Hr as ([] & _ & Hr). unfold new_state_right in Hright. cbn [option_map] in *.
  destruct delta as [delta|]; [|destruct st as [st|]].
  - apply py_bind_Ok in Hr as (b & Hb & [= <- <- <-]). split; [done|]. destruct Hright as (s0 & Hs0 & HsN). exists (delta ∪ s0). split; [done|].
    exists (MkDelta [] delta false). split_and!; [done|rewrite delta_of_inserts; f_equal; by eapply merged_det|]. destruct b; [by left|by right].
  - apply py_bind_Ok in Hr as (b & Hb & [= <- <- <-]). split; [done|]. exists st. split; [done|].
    exists (calculate_state_delta (t_room t) room_id st). split_and!; [done|apply delta_of_state|]. destruct b; [by left|by right].
  - injection Hr as <- <- <-. split; [done|]. exists (current_state (t_room t) room_id). by rewrite Hright.
Qed.

Lemma groups_known_stored hist t room_id l l' inhibit d ext t' :
  groups_known hist t → contexts_ok hist t room_id l → alike l l' → persist_events_txn e hostname t room_id l' inhibit d ext = Ok t' → groups_known hist t'.
Proof using Type.
  intros Ht Hc [_ Hal] Hp. pose proof (persist_events_stored _ _ _ _ _ _ _ _ _ Hp) as Hst. destruct (persist_events_groups _ _ _ _ _ _ _ _ _ Hp) as (G1 & G2 & G3). split.
  - intros i g [Hi|(y & (x & Hx & E1 & E2)%Hal & <- & Ho & Hm)]%G1; [by apply (sk_table _ _ Ht)|]. rewrite <- E1 in Ho. destruct (ck_item _ _ _ _ Hc x Hx Ho) as [Hmx Hs].
    assert (mapped_group y = mapped_group x) as Hyx by (unfold mapped_group; by rewrite E2). rewrite <- (alike_id y x E1). split; [congruence|]. by assert (g = group_at (it_id x)) as -> by congruence.
  - intros i Ho. unfold not_outlier in Ho. destruct (g_events (t_graph t') !! i) as [row'|] eqn:Hrow'; [|done]. apply negb_true_iff in Ho.
    destruct (g_events (t_graph t) !! i) as [row|] eqn:Hrow.
    + destruct (st_old _ _ _ _ _ Hst i row Hrow) as (row2 & Hrow2 & _ & Hout). assert (row2 = row') as -> by congruence. pose proof (proj1 Hout Ho) as [Ho'|(x & Hx & Hid & Hr & Hox)].
      * apply G2, (sk_known _ _ Ht). unfold not_outlier. by rewrite Hrow, Ho'.
      * subst i. destruct (er_outlier row) eqn:Eo; [apply (G3 x Hx Hox); right; split; [done|by eexists]|]. apply G2, (sk_known _ _ Ht). unfold not_outlier. by rewrite Hrow, Eo.
    + destruct (st_dom _ _ _ _ _ Hst i) as [[? ?]|(x & Hx & Hid)]; [by eexists|congruence|]. destruct (st_new _ _ _ _ _ Hst x Hx) as (row & Hr & _ & Hout).
      rewrite <- Hid. apply (G3 x); [apply Hx| |left; by apply Hx]. rewrite <- Hout. assert (row = row') as -> by congruence. done.
Qed.

End State.

(** ** Example *)

Lemma px_stream_ok : deltas_right px_state.
Proof.
  unfold deltas_right. change (r_deltas (t_room (ps_tables px_state))) with ([] ++ rows_for 2 "!r:hs" (current_state (MkRoomTables ∅ ∅ ∅ ∅ []) "!r:hs") (topic_state !!.) (map fst (map_to_list topic_state))).
  apply (stream_ok_app [] (MkRoomTables ∅ ∅ ∅ ∅ []) (t_room (ps_tables px_state)) 0).
  - split; [done|by intros [|]|constructor|constructor].
  - done.
  - apply NoDup_fst_map_to_list.
  - intros k. change (current_state (t_room (ps_tables px_state)) "!r:hs") with topic_state. case_bool_decide as Hk; [done|]. rewrite elem_of_keys in Hk. by apply eq_None_not_Some.
  - intros room Hne. unfold current_state. cbn [r_current t_room ps_tables px_state px_tables px_room]. by rewrite lookup_singleton_ne.
Qed.

Lemma delta_stream_replays_witness : deltas_right px_after.
Proof.
  apply (delta_stream_replays SQLite "hs" px_state px_after); [|exact px_stream_ok]. apply rtc_once. exact (chunk_step SQLite "hs" 10 0 px_state px_after "!r:hs" false px_batch px_after_Ok).
Defined.

Lemma px_groups_known : groups_known px_group ctx_hist px_tables.
Proof.
  split.
  - apply (bool_decide_unpack (map_Forall (λ i g, g = px_group i ∧ is_Some (ctx_hist !! g)) (i_state_groups px_info))). vm_compute. exact I.
  - intros i Hi. unfold not_outlier in Hi. destruct (g_events (t_graph px_tables) !! i) as [row|] eqn:E; [|done]. revert i row E Hi.
    assert (map_Forall (λ i (_ : event_row), is_Some (i_state_groups px_info !! i)) (g_events px_graph)) as Hall; [|intros i row E _; exact (Hall i row E)].
    apply (bool_decide_unpack _). vm_compute. exact I.
Qed.

Lemma px_contexts_ok : contexts_ok px_group ctx_hist px_tables "!r:hs" px_batch.
Proof.
  split.
  - intros x ->%list_elem_of_singleton _. split; [vm_compute; reflexivity|]. apply (bool_decide_unpack _). vm_compute. exact I.
  - by intros x ->%list_elem_of_singleton.
  - by intros x ->%list_elem_of_singleton.
  - by intros x p ->%list_elem_of_singleton.
  - intros x p ->%list_elem_of_singleton _ ->%list_elem_of_singleton [_ [Hf|Hf]]; vm_compute in Hf; discriminate Hf.
Qed.

