(* ===== verification/LocalMembership.v ===== *)
(** * Whether the server is in a room: facts about [PersistEvents]

    The memberships of the users of this server that are kept beside the current state, and
    the test for the last of them leaving. *)

From S2P Require Import Prelude PyData RoomVersions Ids Events EventAuth StateFilters StateResV2Facts RoomExample IterUtils LinkedList CacheStore LruCache TreeCache DictionaryCache StateGroups StateGroupCache StateGroupSystem ExpiringCache StateHandler StateHandlerFacts EventTables PersistEvents PersistExample EventGraphFacts Extremities CurrentState.

Open Scope Z_scope.

Section Local.
Context (hostname : string).
(** the membership that an event sets *)
Context (membership_at : string → option json).

(** A user of this server is joined in a state. *)
Definition local_joined (st : state_ids) : Prop :=
  ∃ u i m, hs_is_mine_id hostname u = true ∧ st !! (EventTypes.Member, u) = Some i ∧ membership_at i = Some m ∧ is_str m "join" = true.

(** [local_current_membership] has the memberships of the current state. *)
Record local_right (r : room_tables) (room_id : string) : Prop := {
  lr_members : ∀ i u m, r_memberships r !! i = Some (u, m) → membership_at i = Some m;
  lr_local : ∀ u i, hs_is_mine_id hostname u = true → current_state r room_id !! (EventTypes.Member, u) = Some i →
    ∃ m, r_local r !! (room_id, u) = Some (i, m) ∧ membership_at i = Some m;
  lr_mine : ∀ u, is_Some (r_local r !! (room_id, u)) → hs_is_mine_id hostname u = true;
  lr_joined : ∀ u i m, hs_is_mine_id hostname u = true → r_local r !! (room_id, u) = Some (i, m) → is_str m "join" = true →
    current_state r room_id !! (EventTypes.Member, u) = Some i;
}.

(** The membership events of a difference are of the batch or stored. *)
Record changes_known (r : room_tables) (l : list item) (d : DeltaState) : Prop := {
  cn_batch : ∀ u i x, to_insert d !! (EventTypes.Member, u) = Some i → x ∈ l → it_id x = i → ∃ m, membership (it_event x) = Ok m ∧ membership_at i = Some m;
  cn_known : ∀ u i, to_insert d !! (EventTypes.Member, u) = Some i → (∃ x, x ∈ l ∧ it_id x = i) ∨ is_Some (r_memberships r !! i);
}.

Lemma local_member_iff key : local_member hostname key = true ↔ ∃ u, key = (EventTypes.Member, u) ∧ hs_is_mine_id hostname u = true.
Proof. unfold local_member. rewrite andb_true_iff, bool_decide_eq_true. destruct key as [ty u]. cbn. split; [intros [-> ?]; eauto|by intros (? & [= -> ->] & ?)]. Qed.

Lemma elem_of_delta_keys d k : k ∈ delta_keys d ↔ k ∈ to_delete d ∨ is_Some (to_insert d !! k).
Proof. unfold delta_keys. by rewrite elem_of_app, elem_of_keys. Qed.

Lemma delta_applied_lookup (d : DeltaState) (cur : state_ids) (k : string * string) :
  no_longer_in_room d = false → (∀ k, k ∈ to_delete d → to_insert d !! k = None) →
  delta_applied d cur !! k = if bool_decide (k ∈ delta_keys d) then to_insert d !! k else cur !! k.
Proof.
  intros Hn Hdis. unfold delta_applied. rewrite Hn, lookup_union. case_bool_decide as Hk.
  - rewrite (map_lookup_filter_None_2 _ cur); [by destruct (to_insert d !! k)|]. right. intros v _ Hv. cbn in Hv. done.
  - rewrite elem_of_delta_keys in Hk. assert (to_insert d !! k = None) as -> by (apply eq_None_not_Some; tauto). rewrite (left_id_L None (∪)).
    destruct (cur !! k) as [v|] eqn:E; [|apply map_lookup_filter_None_2; by left]. apply map_lookup_filter_Some_2; [done|]. cbn. by rewrite elem_of_delta_keys.
Qed.

Lemma batch_joins_spec l i m :
  (∀ x, x ∈ l → it_id x = i → membership (it_event x) = Ok m) →
  batch_joins l i = Ok (is_str m "join" && existsb (λ x, bool_decide (i = it_id x)) l).
Proof.
  induction l as [|x l IH]; intros Hl; cbn [batch_joins existsb]; [by rewrite andb_false_r|]. specialize (IH (λ y Hy, Hl y (proj2 (elem_of_cons _ _ _) (or_intror Hy)))).
  case_bool_decide as Hi; [|by rewrite IH]. rewrite (Hl x) by (by left || done). cbn [mbind py_bind]. destruct (is_str m "join"); [done|]. by rewrite IH.
Qed.

Lemma new_local_joins_spec (r : room_tables) (l : list item) (d : DeltaState) (ins : list (string * string * string)) :
  changes_known r l d → (∀ k i, (k, i) ∈ ins → to_insert d !! k = Some i) →
  ∃ b to_check, new_local_joins hostname l ins = Ok (b, to_check) ∧
    (b = true → ∃ u i m, hs_is_mine_id hostname u = true ∧ to_insert d !! (EventTypes.Member, u) = Some i ∧ membership_at i = Some m ∧ is_str m "join" = true) ∧
    (∀ i, i ∈ to_check → ∃ u, hs_is_mine_id hostname u = true ∧ to_insert d !! (EventTypes.Member, u) = Some i) ∧
    (b = false → ∀ u i, hs_is_mine_id hostname u = true → (EventTypes.Member, u, i) ∈ ins →
      i ∈ to_check ∧ ((∃ x, x ∈ l ∧ it_id x = i) → ∃ m, membership_at i = Some m ∧ is_str m "join" = false)).
Proof.
  intros Hc. induction ins as [|[key i] ins IH]; intros Hins; cbn [new_local_joins].
  { exists false, []. split_and!; [done|done|by intros ? ?%elem_of_nil|]. by intros _ u i _ ?%elem_of_nil. }
  assert (∀ k i, (k, i) ∈ ins → to_insert d !! k = Some i) as Hins' by (intros k i' Hin; apply Hins; by right). destruct (IH Hins') as (b & to_check & Hr & H1 & H2 & H3).
  destruct (local_member hostname key) eqn:Ek; cbn [negb].
  2:{ exists b, to_check. split_and!; [done|done|done|]. intros Hb u i' Hu [[= <- <-]|Hin]%elem_of_cons; [|by apply (H3 Hb u)].
      assert (local_member hostname (EventTypes.Member, u) = true) by (apply local_member_iff; eauto). congruence. }
  apply local_member_iff in Ek as (u0 & -> & Hu0). assert (to_insert d !! (EventTypes.Member, u0) = Some i) as Hi by (apply Hins; by left).
  assert (∃ m, (∀ x, x ∈ l → it_id x = i → membership (it_event x) = Ok m) ∧ ((∃ x, x ∈ l ∧ it_id x = i) → membership_at i = Some m)) as (m & Hm & Hma).
  { destruct (decide (Exists (λ x, it_id x = i) l)) as [(x & Hx & Hid)%Exists_exists|Hn].
    - destruct (cn_batch _ _ _ Hc u0 i x Hi Hx Hid) as (m & Hm & Hma). exists m. split; [|done]. intros y Hy Hidy. destruct (cn_batch _ _ _ Hc u0 i y Hi Hy Hidy) as (m' & Hm' & Hma'). congruence.
    - exists JNull. split; [intros x Hx Hid|intros (x & Hx & Hid)]; destruct Hn; apply Exists_exists; eauto. }
  rewrite (batch_joins_spec l i m Hm). cbn [mbind py_bind].
  assert (existsb (λ x, bool_decide (i = it_id x)) l = true ↔ ∃ x, x ∈ l ∧ it_id x = i) as Hex.
  { rewrite existsb_exists. split; intros (x & Hx & Hid); exists x; [apply list_elem_of_In in Hx; to_prop; done|split; [by apply list_elem_of_In|by rewrite bool_decide_true]]. }
  destruct (is_str m "join" && existsb (λ x, bool_decide (i = it_id x)) l) eqn:Eb.
  - apply andb_true_iff in Eb as [Ej Ex]. exists true, []. split_and!; [done| |by intros ? ?%elem_of_nil|done]. intros _. exists u0, i, m. split_and!; try done. by apply Hma, Hex.
  - rewrite Hr. cbn [mbind py_bind]. exists b, (i :: to_check). split_and!; [done|done| |].
    + intros j [->|Hj]%elem_of_cons; [eauto|by apply H2].
    + intros Hb u i' Hu [[= <- <-]|Hin]%elem_of_cons.
      * split; [by left|]. intros Hx. exists m. split; [by apply Hma|]. apply Hex in Hx. rewrite Hx, andb_true_r in Eb. done.
      * destruct (H3 Hb u i' Hu Hin) as [? ?]. split; [by right|done].
Qed.

Lemma ignored_iff d u : u ∈ map snd (List.filter (local_member hostname) (delta_keys d)) ↔ hs_is_mine_id hostname u = true ∧ (EventTypes.Member, u) ∈ delta_keys d.
Proof.
  rewrite list_elem_of_fmap. split.
  - intros (k & -> & [Hk (u' & -> & Hu)%local_member_iff]%elem_of_bfilter). done.
  - intros [Hu Hk]. exists (EventTypes.Member, u). split; [done|]. apply elem_of_bfilter. split; [done|]. apply local_member_iff. eauto.
Qed.

Lemma local_host_iff r room_id ignore :
  is_local_host_in_room_ignoring_users r room_id ignore = true ↔ ∃ u i m, r_local r !! (room_id, u) = Some (i, m) ∧ is_str m "join" = true ∧ u ∉ ignore.
Proof.
  unfold is_local_host_in_room_ignoring_users. rewrite existsb_exists. split.
  - intros ([[room u] [i m]] & Hin%list_elem_of_In%elem_of_map_to_list & Hc). cbn [fst snd] in Hc. rewrite !andb_true_iff, negb_true_iff, bool_decide_eq_true, bool_decide_eq_false in Hc.
    destruct Hc as [[-> Hj] Hn]. eauto 10.
  - intros (u & i & m & Hl & Hj & Hn). exists (room_id, u, (i, m)). split; [by apply list_elem_of_In, elem_of_map_to_list|]. cbn [fst snd]. rewrite Hj, bool_decide_true, bool_decide_false by done. done.
Qed.

Lemma known_joins_iff r l : existsb (λ i, match r_memberships r !! i with Some (_, m) => is_str m "join" | None => false end) l = true ↔
  ∃ i u m, i ∈ l ∧ r_memberships r !! i = Some (u, m) ∧ is_str m "join" = true.
Proof.
  rewrite existsb_exists. split.
  - intros (i & Hi%list_elem_of_In & Hm). destruct (r_memberships r !! i) as [[u m]|] eqn:E; [|done]. eauto 10.
  - intros (i & u & m & Hi & Hr & Hj). exists i. split; [by apply list_elem_of_In|]. by rewrite Hr.
Qed.

(** Whether the server is still in the room.  If a user of the server was joined, and
    the memberships kept beside the current state are right, then the test for a change of
    the state always gives an answer, and it is that a user of the server is joined in the
    new state. *)
Theorem still_joined_right r room_id l d :
  local_right r room_id → changes_known r l d → local_joined (current_state r room_id) →
  no_longer_in_room d = false → (∀ k, k ∈ to_delete d → to_insert d !! k = None) →
  ∃ b, is_server_still_joined hostname r room_id l d = Ok b ∧ (b = true ↔ local_joined (delta_applied d (current_state r room_id))).
Proof.
  intros Hr Hc Hj Hn Hdis. unfold is_server_still_joined.
  assert (∀ k, delta_applied d (current_state r room_id) !! k = if bool_decide (k ∈ delta_keys d) then to_insert d !! k else current_state r room_id !! k) as Happ by (intros k; by apply delta_applied_lookup).
  assert (∀ u i, to_insert d !! (EventTypes.Member, u) = Some i → delta_applied d (current_state r room_id) !! (EventTypes.Member, u) = Some i) as Hins.
  { intros u i Hi. rewrite Happ, bool_decide_true; [done|]. apply elem_of_delta_keys. right. by eexists. }
  destruct (existsb (local_member hostname) (delta_keys d)) eqn:Ech; cbn [negb].
  2:{ exists true. split; [done|]. split; [intros _|done]. destruct Hj as (u & i & m & Hu & Hi & R). exists u, i, m. split_and!; [done| |apply R|apply R]. rewrite Happ, bool_decide_false; [done|].
      intros Hk. apply not_true_iff_false in Ech. apply Ech, existsb_exists. exists (EventTypes.Member, u). split; [by apply list_elem_of_In|]. apply local_member_iff. eauto. }
  destruct (new_local_joins_spec r l d (map_to_list (to_insert d)) Hc) as (b & to_check & -> & H1 & H2 & H3); [intros k i ?%elem_of_map_to_list; done|]. cbn [mbind py_bind].
  destruct b. { exists true. split; [done|]. split; [|done]. intros _. destruct (H1 eq_refl) as (u & i & m & Hu & Hi & R). exists u, i, m. split_and!; [done|by apply Hins|apply R|apply R]. }
  destruct (existsb _ to_check) eqn:Ek.
  { exists true. split; [done|]. split; [|done]. intros _. apply known_joins_iff in Ek as (i & u' & m & Hi & Hm & Hjm). destruct (H2 i Hi) as (u & Hu & Hui). exists u, i, m. split_and!; [done|by apply Hins|by eapply (lr_members _ _ Hr)|done]. }
  eexists. split; [done|]. rewrite local_host_iff. split.
  - intros (u & i & m & Hl & Hjm & Hni). pose proof (lr_mine _ _ Hr u (mk_is_Some _ _ Hl)) as Hu. pose proof (lr_joined _ _ Hr u i m Hu Hl Hjm) as Hcur.
    destruct (lr_local _ _ Hr u i Hu Hcur) as (m' & Hl' & Hma). assert (m' = m) as -> by congruence. exists u, i, m. split_and!; [done| |done|done]. rewrite Happ, bool_decide_false; [done|].
    intros Hk. apply Hni, ignored_iff. done.
  - intros (u & i & m & Hu & Hi & Hma & Hjm). rewrite Happ in Hi. case_bool_decide as Hk.
    + exfalso. destruct (H3 eq_refl u i Hu) as [Hck Hnj]; [by apply elem_of_map_to_list|]. destruct (cn_known _ _ _ Hc u i Hi) as [Hb|[[u' m'] Hm']].
      * destruct (Hnj Hb) as (m' & Hm' & Hf). congruence.
      * apply not_true_iff_false in Ek. apply Ek, known_joins_iff. exists i, u', m'. split_and!; [done|done|]. pose proof (lr_members _ _ Hr i u' m' Hm'). congruence.
    + destruct (lr_local _ _ Hr u i Hu Hi) as (m' & Hl & Hma'). exists u, i, m'. split_and!; [done|congruence|]. rewrite ignored_iff. by intros [_ ?].
Qed.

(** ** The memberships after a batch *)

Lemma insert_local_spec room_id l r r' :
  NoDup (map (λ x : string * string * string, x.1.2) l) → py_fold (insert_local room_id) r l = Ok r' →
  (∀ room u, room ≠ room_id ∨ u ∉ map (λ x : string * string * string, x.1.2) l → r_local r' !! (room, u) = r_local r !! (room, u)) ∧
  (∀ ty u i, (ty, u, i) ∈ l → ∃ u' m, r_memberships r !! i = Some (u', m) ∧ r_local r' !! (room_id, u) = Some (i, m)).
Proof.
  revert r. induction l as [|[[ty u] i] l IH]; intros r; cbn [py_fold map fst snd]; [intros _ [= <-]; split; [done|by intros ??? ?%elem_of_nil]|].
  intros [Hn Hd]%NoDup_cons (r1 & H1 & H2)%py_bind_Ok. cbn in H1. destruct (r_memberships r !! i) as [[u' m]|] eqn:Em; [injection H1 as <-|done].
  destruct (IH _ Hd H2) as [IH1 IH2]. cbn [r_local r_memberships] in *. split.
  - intros room v Hv. rewrite IH1 by (rewrite not_elem_of_cons in Hv; tauto). rewrite lookup_insert_ne; [done|]. intros [= <- <-]. rewrite not_elem_of_cons in Hv. tauto.
  - intros ty' v j [[= -> -> ->]|Hin]%elem_of_cons; [|by apply (IH2 ty')]. exists u', m. split; [done|]. rewrite IH1 by (by right). by rewrite lookup_insert_eq.
Qed.

Lemma local_inserts_users d : NoDup (map (λ x : string * string * string, x.1.2) (List.filter (λ x, local_member hostname x.1) (map_to_list (to_insert d)))).
Proof.
  assert (NoDup (map fst (map_to_list (to_insert d)))) as Hnd by apply NoDup_fst_map_to_list. revert Hnd. induction (map_to_list (to_insert d)) as [|[[ty u] i] l IH]; cbn [map List.filter fst snd]; [constructor|].
  intros [Hn Hd]%NoDup_cons. specialize (IH Hd). destruct (local_member hostname (ty, u)) eqn:Ek; [|done]. cbn [map]. apply NoDup_cons. split; [|done].
  apply local_member_iff in Ek as (u0 & [= -> ->] & Hu). cbn [fst snd]. intros ([[ty' u'] j] & Hu' & [Hin (v & [= -> ->] & _)%local_member_iff]%elem_of_bfilter)%list_elem_of_fmap. cbn in Hu'. subst v.
  apply Hn. apply list_elem_of_fmap. exists (EventTypes.Member, u0, j). done.
Qed.

(** The step that updates the current state *)
Lemma update_local_spec g r room_id d stream_id r' :
  update_current_state_txn hostname g r room_id d stream_id = Ok r' →
  (∀ u i, hs_is_mine_id hostname u = true → to_insert d !! (EventTypes.Member, u) = Some i →
    ∃ u' m, r_memberships r !! i = Some (u', m) ∧ r_local r' !! (room_id, u) = Some (i, m)) ∧
  (∀ u, hs_is_mine_id hostname u = true → (EventTypes.Member, u) ∈ to_delete d → to_insert d !! (EventTypes.Member, u) = None → r_local r' !! (room_id, u) = None) ∧
  (∀ u, hs_is_mine_id hostname u = false ∨ (EventTypes.Member, u) ∉ delta_keys d → r_local r' !! (room_id, u) = r_local r !! (room_id, u)).
Proof.
  set (gone := map (λ k, (room_id, k.2)) (List.filter (local_member hostname) (delta_keys d))). set (ins := List.filter (λ x, local_member hostname x.1) (map_to_list (to_insert d))).
  intros Hu. assert (∃ r1, r_local r1 = filter (λ x, x.1 ∉ gone) (r_local r) ∧ r_memberships r1 = r_memberships r ∧ py_fold (insert_local room_id) r1 ins = Ok r') as (r1 & Hl1 & Hm1 & Hf).
  { eexists. split_and!; [| |exact Hu]; cbn [r_local r_memberships]; destruct (no_longer_in_room d); try done; unfold upsert_room_version_txn; by destruct (_ ≫= _). }
  assert (∀ u, (room_id, u) ∈ gone ↔ hs_is_mine_id hostname u = true ∧ (EventTypes.Member, u) ∈ delta_keys d) as Hgone.
  { intros u. rewrite <- ignored_iff. unfold gone. rewrite !list_elem_of_fmap. split; [intros (k & [= ->] & Hk)|intros (k & -> & Hk)]; eauto. }
  assert (∀ ty u i, (ty, u, i) ∈ ins ↔ ty = EventTypes.Member ∧ hs_is_mine_id hostname u = true ∧ to_insert d !! (EventTypes.Member, u) = Some i) as Hins.
  { intros ty u i. unfold ins. rewrite elem_of_bfilter, elem_of_map_to_list, local_member_iff. cbn [fst]. split; [intros [Hi (v & [= -> ->] & Hv)]; done|intros (-> & Hv & Hi); eauto]. }
  apply insert_local_spec in Hf as [Hold Hnew]; [|apply local_inserts_users]. rewrite Hm1 in Hnew.
  assert (∀ u, (hs_is_mine_id hostname u = true → to_insert d !! (EventTypes.Member, u) = None) → r_local r' !! (room_id, u) = filter (λ x, x.1 ∉ gone) (r_local r) !! (room_id, u)) as Hkeep.
  { intros u Hn. rewrite Hold, Hl1; [done|]. right. intros ([[ty v] i] & -> & (_ & Hv & Hi)%Hins)%list_elem_of_fmap. cbn in Hn. rewrite (Hn Hv) in Hi. done. }
  split_and!.
  - intros u i Hm Hi. apply (Hnew EventTypes.Member). by apply Hins.
  - intros u Hm Hd Hn. rewrite Hkeep by done. apply map_lookup_filter_None_2. right. intros x _ Hx. apply Hx, Hgone. split; [done|]. apply elem_of_delta_keys. by left.
  - intros u Hor. rewrite Hkeep. 2:{ intros Hm. destruct Hor as [?|Hk]; [congruence|]. rewrite elem_of_delta_keys in Hk. apply eq_None_not_Some. tauto. }
    destruct (r_local r !! (room_id, u)) as [x|] eqn:E; [|apply map_lookup_filter_None_2; by left]. apply map_lookup_filter_Some_2; [done|]. cbn. rewrite Hgone. intros [Hm Hk]. destruct Hor; [congruence|done].
Qed.

Lemma local_right_update g r room_id d stream_id r' :
  local_right r room_id → (∀ k, k ∈ to_delete d → to_insert d !! k = None) →
  (no_longer_in_room d = true → ¬ local_joined (delta_applied (MkDelta (to_delete d) (to_insert d) false) (current_state r room_id))) →
  update_current_state_txn hostname g r room_id d stream_id = Ok r' → local_right r' room_id.
Proof.
  intros Hr Hdis Hleft Hu. destruct (update_current_state_spec _ _ _ _ _ _ _ Hu) as (Hcs & _ & _ & Hmem). destruct (update_local_spec _ _ _ _ _ _ Hu) as (U1 & U2 & U3).
  set (d0 := MkDelta (to_delete d) (to_insert d) false) in *. set (cur := current_state r room_id) in *.
  assert (∀ k, delta_applied d0 cur !! k = if bool_decide (k ∈ delta_keys d) then to_insert d !! k else cur !! k) as Happ by (intros k; exact (delta_applied_lookup d0 cur k eq_refl Hdis)).
  (** the new state and the table say the same *)
  assert (∀ u i, hs_is_mine_id hostname u = true → delta_applied d0 cur !! (EventTypes.Member, u) = Some i → ∃ m, r_local r' !! (room_id, u) = Some (i, m) ∧ membership_at i = Some m) as Hloc.
  { intros u i Hm. rewrite Happ. case_bool_decide as Hk; intros Hi.
    - destruct (U1 u i Hm Hi) as (u' & m & Hmm & Hl). exists m. split; [done|]. by apply (lr_members _ _ Hr i u').
    - rewrite U3 by by right. by apply (lr_local _ _ Hr). }
  assert (∀ u i m, hs_is_mine_id hostname u = true → r_local r' !! (room_id, u) = Some (i, m) → is_str m "join" = true → delta_applied d0 cur !! (EventTypes.Member, u) = Some i) as Hjoi.
  { intros u i m Hm Hl Hj. rewrite Happ. case_bool_decide as Hk.
    - destruct (to_insert d !! (EventTypes.Member, u)) as [i'|] eqn:E; [destruct (U1 u i' Hm E) as (? & ? & _ & ?); congruence|]. apply elem_of_delta_keys in Hk as [Hk|[? ?]]; [|congruence]. rewrite U2 in Hl; done.
    - rewrite U3 in Hl by by right. by apply (lr_joined _ _ Hr u i m). }
  split.
  - rewrite Hmem. apply (lr_members _ _ Hr).
  - rewrite Hcs. unfold delta_applied. destruct (no_longer_in_room d); [done|]. exact Hloc.
  - intros u [x Hx]. destruct (hs_is_mine_id hostname u) eqn:Em; [done|]. rewrite U3 in Hx by by left. rewrite <- Em. by apply (lr_mine _ _ Hr u); eexists.
  - rewrite Hcs. unfold delta_applied. destruct (no_longer_in_room d) eqn:El; [|exact Hjoi]. intros u i m Hm Hl Hj. destruct (Hleft eq_refl). pose proof (Hjoi u i m Hm Hl Hj) as Hi.
    destruct (Hloc u i Hm Hi) as (m' & Hl' & Hma). assert (m' = m) as -> by congruence. by exists u, i, m.
Qed.

(** The membership events of the batch *)
Definition members_right (l : list item) : Prop :=
  ∀ x m, x ∈ l → ev_type (it_event x) = EventTypes.Member → membership (it_event x) = Ok m → membership_at (it_id x) = Some m.

Lemma store_members_right l r inhibit r' room_id :
  (∀ x, x ∈ l → it_oob x = false ∧ ∀ m, membership (it_event x) = Ok m → membership_at (it_id x) = Some m) →
  store_room_members_txn hostname r l inhibit = Ok r' → local_right r room_id → local_right r' room_id.
Proof.
  intros Hl. unfold store_room_members_txn. intros (r1 & H1 & H2)%py_bind_Ok Hr.
  eapply (py_fold_inv (λ r0, local_right r0 room_id)) in H1; [|intros x r2 r3 Hx Hr2 Hs|exact Hr].
  - eapply (py_fold_inv (λ r0, local_right r0 room_id)) in H2; [exact H2| |exact H1]. intros x r2 r3 Hx Hr2 Hs. unfold store_local_membership in Hs. apply py_bind_Ok in Hs as (u & _ & Hs).
    destruct (Hl x Hx) as [Ho _]. rewrite Ho, andb_false_r in Hs. by injection Hs as <-.
  - unfold store_room_member in Hs. apply py_bind_Ok in Hs as (u & _ & Hs). apply py_bind_Ok in Hs as (m & Hm & Hs). apply py_bind_Ok in Hs as ([] & _ & [= <-]).
    destruct Hr2 as [L1 L2 L3 L4]. split; cbn; [|done|done|done]. intros i v m' [[<- [= <- <-]]|[_ Hi]]%lookup_insert_Some; [by apply Hl|by eapply L1].
Qed.

(** The memberships kept beside the current state stay right. *)
Theorem local_memberships_kept e t room_id l inhibit d ext t' :
  local_right (t_room t) room_id → members_right l → (∀ x, x ∈ l → it_oob x = false) →
  (∀ d0, d = Some d0 → (∀ k, k ∈ to_delete d0 → to_insert d0 !! k = None) ∧
    (no_longer_in_room d0 = true → ¬ local_joined (delta_applied (MkDelta (to_delete d0) (to_insert d0) false) (current_state (t_room t) room_id)))) →
  persist_events_txn e hostname t room_id l inhibit d ext = Ok t' → local_right (t_room t') room_id.
Proof.
  intros Hr Hm Hoob Hd Ht. unfold persist_events_txn in Ht. apply py_bind_Ok in Ht as (mn & _ & Ht). apply py_bind_Ok in Ht as (mx & _ & Ht).
  apply py_bind_Ok in Ht as ([] & _ & Ht). apply py_bind_Ok in Ht as ([] & _ & Ht). apply py_bind_Ok in Ht as ([l1 t1] & Hout & Ht).
  assert (∀ x, x ∈ l1 → x ∈ l) as Hl1.
  { unfold update_outliers_txn in Hout. apply py_bind_Ok in Hout as (t2 & _ & [= <- <-]). intros x [Hx _]%elem_of_bfilter. by apply (on_sub _ _ (filter_duplicates_once l)). }
  apply update_outliers_room in Hout. cbn [with_graph t_room] in Hout.
  apply py_bind_Ok in Ht as (i1 & _ & Ht). apply py_bind_Ok in Ht as (i2 & _ & Ht). unfold store_rejected_events_txn in Ht. apply py_bind_Ok in Ht as (t3 & Hmd & Ht).
  assert (r_current (t_room t3) = r_current (t_room t) ∧ local_right (t_room t3) room_id) as [Hc3 Hr3].
  { rewrite <- Hout in *. unfold update_metadata_tables_txn in Hmd. case_hyp Hmd; [injection Hmd as <-; done|].
    apply py_bind_Ok in Hmd as (g3 & _ & Hmd). apply py_bind_Ok in Hmd as (r3 & Hr3 & [= <-]). cbn [t_room] in *. split; [by destruct (store_members_same _ _ _ _ _ Hr3)|].
    eapply store_members_right; [|exact Hr3|exact Hr]. intros x [Hx Hty]%elem_of_bfilter. to_prop.
    assert (x ∈ l) as Hxl. { match goal with E : _ = _ :: _ |- _ => rewrite <- E in Hx end. apply elem_of_bfilter in Hx as [Hx _]. by apply Hl1. }
    split; [by apply Hoob|]. intros m. by apply Hm. }
  destruct d as [d0|]; [|by injection Ht as <-]. apply py_bind_Ok in Ht as (r4 & Hu & [= <-]). destruct (Hd d0 eq_refl) as [Hdis Hleft]. cbn [with_room t_room].
  eapply local_right_update; [exact Hr3|exact Hdis| |exact Hu]. unfold current_state in *. by rewrite Hc3.
Qed.
End Local.

(** ** Example *)

Definition px_membership (i : string) : option json := snd <$> (<["$ban" := (bob, JStr "ban")]> px_members) !! i.

Lemma px_local_right : local_right "hs" px_membership px_room "!r:hs".
Proof.
  assert (px_members !! "$ban" = None) as Hban by (vm_compute; reflexivity).
  assert (∀ i u m, px_members !! i = Some (u, m) → px_membership i = Some m) as Hm.
  { intros i u m Hi. unfold px_membership. rewrite lookup_insert_ne by congruence. by rewrite Hi. }
  assert (∀ x, x ∈ map_to_list topic_state → x.1.1 = EventTypes.Member → (∃ m, px_local !! ("!r:hs", x.1.2) = Some (x.2, m) ∧ px_membership x.2 = Some m)) as Hloc.
  { intros x Hx Hty. assert (forallb (λ x : string * string * string, negb (bool_decide (x.1.1 = EventTypes.Member)) ||
      match px_local !! ("!r:hs", x.1.2), px_membership x.2 with Some (i, m), Some m' => bool_decide (i = x.2) && is_str m "join" && is_str m' "join" | _, _ => false end)
      (map_to_list topic_state) = true) as Hall by (vm_compute; reflexivity).
    rewrite forallb_forall in Hall. specialize (Hall x (proj1 (list_elem_of_In _ _) Hx)). rewrite bool_decide_true in Hall by done. cbn [negb orb] in Hall.
    destruct (px_local !! _) as [[i m]|], (px_membership x.2) as [m'|]; try done. to_prop. repeat match goal with H : is_str _ _ = true |- _ => apply is_str_true in H end. subst. eauto. }
  split.
  - exact Hm.
  - intros u i _ Hi. apply (Hloc ((EventTypes.Member, u), i)); [|done]. apply list_elem_of_In. exact (in_map_to_list topic_state _ _ Hi).
  - intros u [x Hx]. assert (forallb (λ x : string * string * (string * json), hs_is_mine_id "hs" x.1.2) (map_to_list px_local) = true) as Hall by (vm_compute; reflexivity).
    rewrite forallb_forall in Hall. exact (Hall (("!r:hs", u), x) (in_map_to_list px_local _ _ Hx)).
  - intros u i m _ Hx _. assert (forallb (λ x : string * string * (string * json), bool_decide (topic_state !! (EventTypes.Member, x.1.2) = Some x.2.1)) (map_to_list px_local) = true) as Hall by (vm_compute; reflexivity).
    rewrite forallb_forall in Hall. specialize (Hall (("!r:hs", u), (i, m)) (in_map_to_list px_local _ _ Hx)). apply bool_decide_eq_true in Hall. exact Hall.
Qed.

(** Bob is banned; Alice is still in the room. *)
Lemma still_joined_right_witness :
  ∃ b, is_server_still_joined "hs" px_room "!r:hs" px_batch (MkDelta [("m.room.topic", "")] {[(EventTypes.Member, bob) := "$ban"]} false) = Ok b ∧
    (b = true ↔ local_joined "hs" px_membership (delta_applied (MkDelta [("m.room.topic", "")] {[(EventTypes.Member, bob) := "$ban"]} false) (current_state px_room "!r:hs"))).
Proof.
  apply (still_joined_right "hs" px_membership px_room "!r:hs" px_batch).
  - exact px_local_right.
  - split; cbn [to_insert].
    + intros u i x [[= <-] <-]%lookup_singleton_Some ->%list_elem_of_singleton _. exists (JStr "ban"). split; reflexivity.
    + intros u i [[= <-] <-]%lookup_singleton_Some. left. exists (px_item bob_ban 2). split; [by left|reflexivity].
  - exists alice, "$alice", (JStr "join"). split_and!; vm_compute; reflexivity.
  - reflexivity.
  - intros k ->%list_elem_of_singleton. reflexivity.
Defined.
