(* ===== verification/BackwardExtremities.v ===== *)
(** * Backward extremities: facts about [EventTables]

    The backward extremities of a room are where its graph has gaps: previous events of
    stored events that are not stored themselves.  Backfilling starts from them. *)

From S2P Require Import Prelude PyData RoomVersions Ids Events EventAuth StateFilters StateResV2Facts RoomExample IterUtils LinkedList CacheStore LruCache TreeCache DictionaryCache StateGroups StateGroupCache StateGroupSystem ExpiringCache StateHandler EventTables PersistEvents PersistExample EventGraphFacts Extremities.

Open Scope Z_scope.

Section Backward.
Context (room_id : string).

(** A stored event that is neither an outlier nor rejected refers to [p]. *)
Definition referred (g : event_graph) (p : string) : Prop :=
  ∃ a row, g_events g !! a = Some row ∧ er_outlier row = false ∧ in_rejections g a = false ∧ p ∈ prev_event_ids (er_event row).

(** [p] is stored, with no previous events. *)
Definition first_event (g : event_graph) (p : string) : Prop := ∃ row, g_events g !! p = Some row ∧ prev_event_ids (er_event row) = [].

Record backward_ok (g : event_graph) : Prop := {
  bo_complete : ∀ p, referred g p → not_outlier g p = false → ¬ first_event g p → (room_id, p) ∈ g_backward g;
  bo_referred : ∀ p, (room_id, p) ∈ g_backward g → referred g p;
  bo_missing : ∀ p, (room_id, p) ∈ g_backward g → not_outlier g p = true → in_rejections g p = true ∨ first_event g p;
}.

(** What [update_backward_extremeties] does *)
Lemma update_backward_spec g l g' :
  (∀ x, x ∈ l → ev_room_id (it_event x) = room_id) → update_backward_extremeties g l = Ok g' →
  ∀ p, (room_id, p) ∈ g_backward g' ↔
    ((room_id, p) ∈ g_backward g ∧ ¬ (∃ x y, x ∈ l ∧ it_id x = p ∧ (ev_outlier (it_event x) = false ∨ prev_event_ids (it_event x) = []) ∧
                                      y ∈ l ∧ ev_outlier (it_event y) = false ∧ prev_event_ids (it_event y) ≠ [])) ∨
    ((∃ x, x ∈ l ∧ ev_outlier (it_event x) = false ∧ p ∈ prev_event_ids (it_event x)) ∧ not_outlier g p = false ∧
     ¬ (∃ x, x ∈ l ∧ it_id x = p ∧ (ev_outlier (it_event x) = false ∨ prev_event_ids (it_event x) = []))).
Proof.
  intros Hroom Hu p. unfold update_backward_extremeties in Hu. destruct l as [|x0 l0]; [done|]. set (l := x0 :: l0) in *.
  assert (ev_room_id (it_event x0) = room_id) as Hx0 by (apply Hroom; by left).
  set (pot := list_to_set (concat (map (λ x, if ev_outlier (it_event x) then [] else prev_event_ids (it_event x)) l)) : gset string) in Hu.
  assert (∀ i, i ∈ pot ↔ ∃ x, x ∈ l ∧ ev_outlier (it_event x) = false ∧ i ∈ prev_event_ids (it_event x)) as Hpot.
  { intros i. unfold pot. rewrite elem_of_list_to_set, elem_of_concat_map. split; intros (x & Hx & Hi); exists x; (split; [done|]); destruct (ev_outlier (it_event x)); [by apply elem_of_nil in Hi|done|by destruct Hi|by destruct Hi]. }
  assert (pot = ∅ ↔ ¬ ∃ y, y ∈ l ∧ ev_outlier (it_event y) = false ∧ prev_event_ids (it_event y) ≠ []) as Hemp.
  { split.
    - intros E (y & Hy & Ho & Hne). destruct (prev_event_ids (it_event y)) as [|i is'] eqn:Ei; [done|]. assert (i ∈ pot) as Hin by (apply Hpot; exists y; rewrite Ei; split_and!; [done|done|by left]). rewrite E in Hin. by apply not_elem_of_empty in Hin.
    - intros Hn. apply set_eq. intros i. split; [|by intros ?%not_elem_of_empty]. intros (y & Hy & Ho & Hi)%Hpot. destruct Hn. exists y. split_and!; [done|done|]. intros E. rewrite E in Hi. by apply elem_of_nil in Hi. }
  rewrite Hx0 in Hu. case_bool_decide as Ep.
  - injection Hu as <-. pose proof (proj1 Hemp Ep) as Hno. split; [intros Hp; left; split; [done|]|].
    + intros (x & y & _ & _ & _ & Hy). apply Hno. by exists y.
    + intros [[? _]|[(x & Hx & Ho & Hi) _]]; [done|]. destruct Hno. exists x. split_and!; [done|done|]. intros E. rewrite E in Hi. by apply elem_of_nil in Hi.
  - set (gone := map (λ x, (ev_room_id (it_event x), it_id x)) _) in Hu. injection Hu as <-. cbn [g_backward]. rewrite elem_of_difference, elem_of_union, elem_of_map, elem_of_list_to_set.
    assert ((room_id, p) ∈ gone ↔
      ∃ x, x ∈ l ∧ it_id x = p ∧ (ev_outlier (it_event x) = false ∨ prev_event_ids (it_event x) = [])) as Hrem.
    { unfold gone. rewrite list_elem_of_fmap. setoid_rewrite elem_of_bfilter. setoid_rewrite orb_true_iff. setoid_rewrite negb_true_iff. setoid_rewrite bool_decide_eq_true. split.
      - intros (x & [= Hr Hi] & Hx & Hor). eauto.
      - intros (x & Hx & <- & Hor). exists x. split_and!; [by rewrite Hroom|done|done]. }
    rewrite Hrem. assert (∃ y, y ∈ l ∧ ev_outlier (it_event y) = false ∧ prev_event_ids (it_event y) ≠ []) as (y & Hy).
    { apply set_choose_L in Ep as [i (y & Hy & Ho & Hi)%Hpot]. exists y. split_and!; [done|done|]. intros E. rewrite E in Hi. by apply elem_of_nil in Hi. }
    split.
    + intros [[Hp|(i & [= <-] & [Hno Hi]%elem_of_filter)] Hnr]; [left|right].
      * split; [done|]. intros (x & z & Hx & Hid & Hor & _). apply Hnr. eauto.
      * split_and!; [by apply Hpot|done|done].
    + intros [[Hp Hnr]|(Hi & Hno & Hnr)].
      * split; [by left|]. intros (x & Hx & Hid & Hor). apply Hnr. exists x, y. naive_solver.
      * split; [|done]. right. exists p. split; [done|]. apply elem_of_filter. split; [done|]. by apply Hpot.
Qed.

(** ** An event that was an outlier *)

Lemma set_not_outlier_lookup g i j : g_events (set_not_outlier g i) !! j = (if bool_decide (j = i) then known_row else id) <$> g_events g !! j.
Proof.
  cbn. case_bool_decide as E; [subst; rewrite lookup_alter_eq; by destruct (_ !! _)|]. rewrite lookup_alter_ne by done. by destruct (_ !! _).
Qed.

Lemma not_outlier_iff g i : not_outlier g i = true ↔ ∃ row, g_events g !! i = Some row ∧ er_outlier row = false.
Proof. unfold not_outlier. destruct (g_events g !! i) as [row|]; [rewrite negb_true_iff; naive_solver|naive_solver]. Qed.

Lemma backward_ok_ex_outlier g x row g' :
  backward_ok g → g_events g !! it_id x = Some row → prev_event_ids (er_event row) = prev_event_ids (it_event x) → in_rejections g (it_id x) = false →
  ev_outlier (it_event x) = false → ev_room_id (it_event x) = room_id →
  update_backward_extremeties (set_not_outlier g (it_id x)) [x] = Ok g' → backward_ok g'.
Proof.
  intros [B1 B2 B3] Hrow Hprev Hrej Ho Hroom Hu. set (g1 := set_not_outlier g (it_id x)) in *.
  pose proof (update_backward_spec g1 [x] g' ltac:(by intros y ->%list_elem_of_singleton) Hu) as Hb. destruct (update_backward_same _ _ _ Hu) as (E1 & E2 & _ & _).
  assert (∀ p, referred g1 p ↔ referred g p ∨ p ∈ prev_event_ids (it_event x)) as Href.
  { intros p. split.
    - intros (a & r & Ha & Hro & Hr & Hp). unfold g1 in Ha. rewrite set_not_outlier_lookup in Ha. destruct (g_events g !! a) as [r0|] eqn:E0; [|done]. case_bool_decide as Ea.
      + subst a. right. assert (r0 = row) as -> by congruence. injection Ha as <-. by rewrite <- Hprev.
      + injection Ha as <-. left. by exists a, r0.
    - intros [(a & r & Ha & Hro & Hr & Hp)|Hp].
      + exists a, (if bool_decide (a = it_id x) then known_row r else r). unfold g1. rewrite set_not_outlier_lookup, Ha. split_and!; [by case_bool_decide|by case_bool_decide|done|by case_bool_decide].
      + exists (it_id x), (known_row row). unfold g1. rewrite set_not_outlier_lookup, Hrow, bool_decide_true by done. cbn. by rewrite Hprev. }
  assert (∀ p, not_outlier g1 p = true ↔ not_outlier g p = true ∨ p = it_id x) as Hno.
  { intros p. rewrite !not_outlier_iff. unfold g1. rewrite set_not_outlier_lookup. case_bool_decide as Ep; [subst p; rewrite Hrow; cbn; naive_solver|].
    destruct (g_events g !! p); cbn; naive_solver. }
  assert (∀ p, first_event g1 p ↔ first_event g p) as Hfi.
  { intros p. unfold first_event, g1. setoid_rewrite set_not_outlier_lookup. destruct (g_events g !! p) as [r|]; cbn; [|naive_solver]. case_bool_decide; cbn; naive_solver. }
  assert (∀ p, referred g' p ↔ referred g1 p) as Href' by (intros p; unfold referred, in_rejections; by rewrite E1, E2).
  assert (∀ p, not_outlier g' p = not_outlier g1 p) as Hno' by (intros p; unfold not_outlier; by rewrite E1).
  assert (∀ p, first_event g' p ↔ first_event g1 p) as Hfi' by (intros p; unfold first_event; by rewrite E1).
  assert (∀ p, in_rejections g' p = in_rejections g p) as Hrj by (intros p; unfold in_rejections; by rewrite E2).
  split.
  - intros p. rewrite Href', Href, Hno', Hfi', Hfi. intros Hp Hn Hf. apply not_true_iff_false in Hn. rewrite Hno in Hn. apply Hb.
    destruct Hp as [Hp|Hp].
    + left. split; [apply B1; [done|apply not_true_iff_false; tauto|done]|]. intros (y & z & ->%list_elem_of_singleton & Hid & _). apply Hn. by right.
    + right. split_and!; [exists x; split_and!; [by left|done|done]|apply not_true_iff_false; rewrite Hno; tauto|]. intros (y & ->%list_elem_of_singleton & Hid & _). apply Hn. by right.
  - intros p [[Hp _]|[(y & ->%list_elem_of_singleton & _ & Hp) _]]%Hb; rewrite Href', Href; [left; by apply B2|by right].
  - intros p Hp. rewrite Hno', Hrj, Hfi', Hfi. intros Hn. apply Hb in Hp as [[Hp Hnr]|[_ [Hf _]]]; [|congruence]. apply Hno in Hn as [Hn|Hid]; [by apply B3|]. subst p.
    right. exists row. split; [done|]. rewrite Hprev. destruct (decide (prev_event_ids (it_event x) = [])) as [|Hne]; [done|]. destruct Hnr. exists x, x. split_and!; [by left|done|by left|by left|done|done].
Qed.

Definition item_known (g : event_graph) (x : item) : Prop :=
  ev_room_id (it_event x) = room_id ∧ (is_rejected (it_context x) = false → in_rejections g (it_id x) = false) ∧
  ∀ row, g_events g !! it_id x = Some row → prev_event_ids (er_event row) = prev_event_ids (it_event x).

Lemma backward_ok_outliers hp l t t' :
  backward_ok (t_graph t) → (∀ x, x ∈ l → item_known (t_graph t) x ∧ (hp !! it_id x = Some true → is_Some (g_events (t_graph t) !! it_id x))) →
  py_fold (outlier_step hp) t l = Ok t' → backward_ok (t_graph t').
Proof.
  revert t. induction l as [|x l IH]; intros t Hg Hl; cbn [py_fold]; [by intros [= <-]|]. rewrite outlier_step_eq. intros (t1 & H1 & H2)%py_bind_Ok.
  destruct (Hl x) as [(Hroom & Hrj & Hprev) Hst]; [by left|]. assert (∀ y, y ∈ l → item_known (t_graph t) y ∧ (hp !! it_id y = Some true → is_Some (g_events (t_graph t) !! it_id y))) as Hl' by (intros y Hy; apply Hl; by right).
  destruct (ex_outlier_item hp x) eqn:Ex; [|injection H1 as ->; by eapply IH].
  destruct (ex_outlier_graph _ _ _ H1) as [(E1 & E2 & _ & _) _]. unfold ex_outlier in H1. apply py_bind_Ok in H1 as (i1 & _ & H1). apply py_bind_Ok in H1 as (sg & _ & H1).
  apply py_bind_Ok in H1 as (g1 & Hg1 & [= <-]). cbn [t_graph] in *. unfold ex_outlier_item in Ex. to_prop. destruct Hst as [row Hrow]; [done|].
  eapply (IH (MkTables g1 _ (t_room t))); [| |exact H2]; cbn [t_graph].
  - eapply backward_ok_ex_outlier; [exact Hg|exact Hrow|by apply Hprev|by apply Hrj|done|done|exact Hg1].
  - intros y Hy. destruct (Hl' y Hy) as [(Y1 & Y2 & Y3) Y4]. unfold item_known, in_rejections. rewrite E1, E2. split_and!; [done|exact Y2| |].
    + intros r. rewrite set_not_outlier_lookup. destruct (g_events (t_graph t) !! it_id y) as [r0|] eqn:E0; [|done]. intros [= <-]. rewrite <- (Y3 r0 eq_refl). by case_bool_decide.
    + intros Hh. destruct (Y4 Hh) as [r0 E0]. rewrite set_not_outlier_lookup, E0. by eexists.
Qed.

(** ** New events *)

Lemma backward_ok_new g g4 g' new :
  backward_ok g → (∀ x, x ∈ new → ev_room_id (it_event x) = room_id ∧ g_events g !! it_id x = None) →
  (∀ x, x ∈ new → ∃ row, g_events g4 !! it_id x = Some row ∧ er_event row = it_event x ∧ er_outlier row = ev_outlier (it_event x)) →
  (∀ i row, g_events g !! i = Some row → g_events g4 !! i = Some row) → (∀ i row, g_events g4 !! i = Some row → g_events g !! i = Some row ∨ ∃ x, x ∈ new ∧ it_id x = i) →
  (∀ i, in_rejections g4 i = true ↔ in_rejections g i = true ∨ ∃ x, x ∈ new ∧ it_id x = i ∧ is_rejected (it_context x) = true) → g_backward g4 = g_backward g →
  NoDup (map it_id new) →
  (let nonrej := List.filter (λ x, negb (is_rejected (it_context x))) new in (nonrej = [] ∧ g' = g4) ∨ update_backward_extremeties g4 nonrej = Ok g') →
  (∀ x, x ∈ new → is_rejected (it_context x) = false → in_rejections g (it_id x) = false) →
  backward_ok g'.
Proof.
  intros [B1 B2 B3] Hnew Hrow Hold Hdom Hrj Hback Hnd Hupd Hnrj. set (nonrej := List.filter (λ x, negb (is_rejected (it_context x))) new) in *.
  assert (∀ x, x ∈ nonrej ↔ x ∈ new ∧ is_rejected (it_context x) = false) as Hnr by (intros x; unfold nonrej; by rewrite elem_of_bfilter, negb_true_iff).
  assert (∀ p, referred g4 p ↔ referred g p ∨ ∃ x, x ∈ nonrej ∧ ev_outlier (it_event x) = false ∧ p ∈ prev_event_ids (it_event x)) as Href.
  { intros p. split.
    - intros (a & r & Ha & Hro & Hr & Hp). destruct (Hdom a r Ha) as [Hg|(x & Hx & <-)].
      + left. exists a, r. split_and!; try done. apply not_true_iff_false. intros Hc. apply not_true_iff_false in Hr. apply Hr, Hrj. by left.
      + right. destruct (Hrow x Hx) as (r' & Hr' & Hev & Hout). assert (r' = r) as -> by congruence. exists x. rewrite Hnr. split_and!; [done| |congruence|congruence].
        apply not_true_iff_false. intros Hc. apply not_true_iff_false in Hr. apply Hr, Hrj. right. eauto.
    - intros [(a & r & Ha & Hro & Hr & Hp)|(x & [Hx Hc]%Hnr & Ho & Hp)].
      + exists a, r. split_and!; [by apply Hold|done| |done]. apply not_true_iff_false. rewrite Hrj. intros [?|(y & Hy & Hid & _)]; [congruence|]. destruct (Hnew y Hy) as [_ Hn]. congruence.
      + destruct (Hrow x Hx) as (r & Hr & Hev & Hout). exists (it_id x), r. split_and!; [done|congruence| |congruence]. apply not_true_iff_false. rewrite Hrj.
        intros [Hi|(y & Hy & Hid & Hcy)]; [rewrite (Hnrj x Hx Hc) in Hi; done|]. assert (y = x) as -> by (by eapply NoDup_ids_inj). congruence. }
  assert (∀ p, not_outlier g p = true → not_outlier g4 p = true) as Hno by (intros p; rewrite !not_outlier_iff; intros (r & Hr & Ho); exists r; split; [by apply Hold|done]).
  assert (∀ p, first_event g p → first_event g4 p) as Hfi by (intros p (r & Hr & Hf); exists r; split; [by apply Hold|done]).
  assert (∀ x, x ∈ nonrej → ev_outlier (it_event x) = false → not_outlier g4 (it_id x) = true) as Hnox.
  { intros x [Hx _]%Hnr Ho. destruct (Hrow x Hx) as (r & Hr & _ & Hout). apply not_outlier_iff. exists r. split; [done|congruence]. }
  assert (∀ x, x ∈ nonrej → prev_event_ids (it_event x) = [] → first_event g4 (it_id x)) as Hfix.
  { intros x [Hx _]%Hnr Hp. destruct (Hrow x Hx) as (r & Hr & Hev & _). exists r. split; [done|by rewrite Hev]. }
  assert (same_graph g4 g' ∧ ∀ p, (room_id, p) ∈ g_backward g' ↔
    ((room_id, p) ∈ g_backward g ∧ ¬ (∃ x y, x ∈ nonrej ∧ it_id x = p ∧ (ev_outlier (it_event x) = false ∨ prev_event_ids (it_event x) = []) ∧
                                      y ∈ nonrej ∧ ev_outlier (it_event y) = false ∧ prev_event_ids (it_event y) ≠ [])) ∨
    ((∃ x, x ∈ nonrej ∧ ev_outlier (it_event x) = false ∧ p ∈ prev_event_ids (it_event x)) ∧ not_outlier g4 p = false ∧
     ¬ (∃ x, x ∈ nonrej ∧ it_id x = p ∧ (ev_outlier (it_event x) = false ∨ prev_event_ids (it_event x) = [])))) as [(E1 & E2 & _ & _) Hb].
  { destruct Hupd as [[Hnil ->]|Hu].
    - split; [done|]. intros p. rewrite Hback, Hnil. split; [intros Hp; left; split; [done|by intros (x & y & ?%elem_of_nil & _)]|]. intros [[? _]|[(x & ?%elem_of_nil & _) _]]; done.
    - split; [by eapply update_backward_same|]. rewrite <- Hback. apply update_backward_spec; [|done]. intros x [Hx _]%Hnr. by apply Hnew. }
  assert (∀ p, referred g' p ↔ referred g4 p) as Href' by (intros p; unfold referred, in_rejections; by rewrite E1, E2).
  assert (∀ p, not_outlier g' p = not_outlier g4 p) as Hno' by (intros p; unfold not_outlier; by rewrite E1).
  assert (∀ p, first_event g' p ↔ first_event g4 p) as Hfi' by (intros p; unfold first_event; by rewrite E1).
  assert (∀ p, in_rejections g' p = in_rejections g4 p) as Hrj' by (intros p; unfold in_rejections; by rewrite E2).
  split.
  - intros p. rewrite Href', Href, Hno', Hfi'. intros Hp Hn Hf. apply Hb.
    assert (¬ ∃ x, x ∈ nonrej ∧ it_id x = p ∧ (ev_outlier (it_event x) = false ∨ prev_event_ids (it_event x) = [])) as Hkeep.
    { intros (x & Hx & <- & [Ho|Hpr]); [rewrite (Hnox x Hx Ho) in Hn; done|by apply Hf, Hfix]. }
    destruct Hp as [Hp|Hp]; [left|right; done]. split; [|intros (x & y & Hx & Hid & Hor & _); apply Hkeep; eauto].
    apply B1; [done| |by intros ?%Hfi]. apply not_true_iff_false. intros Hc%Hno. congruence.
  - intros p [[Hp _]|[Hx _]]%Hb; rewrite Href', Href; [left; by apply B2|by right].
  - intros p Hp. rewrite Hno', Hrj', Hfi'. intros Hn. apply Hb in Hp as [[Hp Hrem]|[_ [Hf _]]]; [|congruence].
    apply not_outlier_iff in Hn as (r & Hr & Ho). destruct (Hdom p r Hr) as [Hg|(x & Hx & <-)].
    + destruct (B3 p Hp) as [Hc|Hc]; [apply not_outlier_iff; eauto|left; apply Hrj; by left|right; by apply Hfi].
    + destruct (is_rejected (it_context x)) eqn:Ec; [left; apply Hrj; right; eauto|right]. assert (x ∈ nonrej) as Hxn by (by apply Hnr). destruct (Hrow x Hx) as (r' & Hr' & Hev & Hout).
      assert (r' = r) as -> by congruence. apply Hfix; [done|]. destruct (decide (prev_event_ids (it_event x) = [])) as [|Hne]; [done|]. destruct Hrem.
      exists x, x. split_and!; [done|done|left; congruence|done|congruence|done].
Qed.

Lemma store_events_backward l g : g_backward (store_event_txn g l) = g_backward g.
Proof. unfold store_event_txn. revert g. induction l as [|x l IH]; intros g; cbn [foldl]; [done|]. by rewrite IH. Qed.

Lemma metadata_backward hostname t l inhibit t' :
  update_metadata_tables_txn hostname t l inhibit = Ok t' →
  (l = [] ∧ t_graph t' = t_graph t) ∨
  ∃ g, g_events g = g_events (t_graph t) ∧ g_rejections g = g_rejections (t_graph t) ∧ g_backward g = g_backward (t_graph t) ∧ update_backward_extremeties g l = Ok (t_graph t').
Proof.
  unfold update_metadata_tables_txn. destruct l as [|x0 l0] eqn:El; [intros [= <-]; by left|]. rewrite <- El. intros (g & Hg & (r & _ & [= <-])%py_bind_Ok)%py_bind_Ok. right.
  unfold handle_mult_prev_events in Hg. apply py_bind_Ok in Hg as (g1 & (R1 & R2 & _ & R4 & _)%add_edges_graph & Hg). by exists g1.
Qed.

(** C20: Backward extremities.  After a batch of events is stored, every previous event of a
    stored event (that is neither an outlier nor rejected) that is missing, or only there
    as an outlier, is a backward extremity, so that no gap is forgotten; only events stored
    with no previous events are exempt.  And the backward extremities are previous events of
    such events, and are missing or outliers, but for rejected events and events with no
    previous events. *)
Theorem backward_extremities_right e hostname t l inhibit d ext t' :
  backward_ok (t_graph t) → (∀ x, x ∈ l → item_known (t_graph t) x) →
  persist_events_txn e hostname t room_id l inhibit d ext = Ok t' → backward_ok (t_graph t').
Proof.
  intros Hg Hl Ht. unfold persist_events_txn in Ht. set (L := filter_events_and_contexts_for_duplicates l) in Ht.
  pose proof (filter_duplicates_once l) as [Hnd Hsub _]. fold L in Hnd, Hsub.
  destruct (update_depth_same (t_graph t) room_id L) as (D1 & D2 & _ & _). set (g0 := update_room_depths_txn (t_graph t) room_id L) in *.
  assert (g_backward g0 = g_backward (t_graph t)) as D5 by (unfold g0, update_room_depths_txn, update_min_depth_for_room_txn; by destruct (match g_depth _ !! room_id with Some _ => _ | None => _ end)).
  apply py_bind_Ok in Ht as (mn & _ & Ht). apply py_bind_Ok in Ht as (mx & _ & Ht). apply py_bind_Ok in Ht as ([] & _ & Ht). apply py_bind_Ok in Ht as ([] & _ & Ht).
  apply py_bind_Ok in Ht as ([l1 t1] & Hout & Ht). unfold update_outliers_txn in Hout. apply py_bind_Ok in Hout as (t1' & Hout & [= <- <-]).
  cbn [with_graph t_graph] in *. set (hp := er_outlier <$> g_events g0) in *.
  assert (∀ x, x ∈ L → item_known g0 x ∧ (hp !! it_id x = Some true → is_Some (g_events g0 !! it_id x))) as HL.
  { intros x Hx%Hsub. split; [unfold item_known, in_rejections; rewrite D1, D2; by apply Hl|]. unfold hp. rewrite lookup_fmap. by destruct (g_events g0 !! it_id x). }
  assert (backward_ok (t_graph t1')) as Hg1.
  { apply (backward_ok_outliers hp L (with_graph t g0) t1'); [|exact HL|exact Hout]. cbn. destruct Hg as [B1 B2 B3]. split; unfold referred, not_outlier, first_event, in_rejections in *; by rewrite ?D1, ?D2, ?D5. }
  apply (outliers_graph hp L) in Hout as (O1 & _ & _ & _ & O5). cbn [with_graph t_graph] in O1, O5.
  set (new := List.filter (λ x, bool_decide (hp !! it_id x = None)) L) in *.
  assert (∀ x, x ∈ new → x ∈ L ∧ g_events (t_graph t1') !! it_id x = None) as Hnew.
  { intros x [Hx Hn]%elem_of_bfilter. to_prop. split; [done|]. rewrite O5. unfold hp in Hn. rewrite lookup_fmap, fmap_None in Hn. by rewrite Hn. }
  pose proof (NoDup_ids_bfilter (λ x, bool_decide (hp !! it_id x = None)) L Hnd) as Hnd1. fold new in Hnd1.
  destruct (store_events_graph new (t_graph t1') Hnd1) as (S1 & _ & _ & S4 & S5). pose proof (store_events_backward new (t_graph t1')) as S6. set (g1 := store_event_txn (t_graph t1') new) in *.
  apply py_bind_Ok in Ht as (i1 & _ & Ht). apply py_bind_Ok in Ht as (i2 & _ & Ht). set (g2 := match ext with Some _ => _ | None => _ end) in Ht.
  assert (g_events g2 = g_events g1 ∧ g_rejections g2 = g_rejections g1 ∧ g_backward g2 = g_backward g1) as (F1 & F2 & F3) by (unfold g2; destruct ext as [E|]; [case_bool_decide|]; done).
  destruct (store_rejections_graph (List.filter (λ x, is_rejected (it_context x)) new) g2) as (J1 & _ & _ & J4 & J5); [by intros x [_ ?]%elem_of_bfilter|].
  unfold store_rejected_events_txn in Ht. apply py_bind_Ok in Ht as (t3 & Hmd & Ht).
  assert (t_graph t' = t_graph t3) as -> by (destruct d as [d|]; [apply py_bind_Ok in Ht as (r & _ & Ht)|]; by injection Ht as <-).
  set (g3 := foldl store_rejection g2 _) in *. apply metadata_backward in Hmd. cbn [t_graph] in Hmd.
  assert (∃ g4, g_events g4 = g_events g1 ∧ g_rejections g4 = g_rejections g3 ∧ g_backward g4 = g_backward (t_graph t1') ∧
    ((List.filter (λ x, negb (is_rejected (it_context x))) new = [] ∧ t_graph t3 = g4) ∨ update_backward_extremeties g4 (List.filter (λ x, negb (is_rejected (it_context x))) new) = Ok (t_graph t3))) as (g4 & G1 & G2 & G3 & Hupd).
  { destruct Hmd as [[Hn ->]|(g4 & M1 & M2 & M3 & Hu)]; [exists g3|exists g4]; (split_and!; [congruence|congruence|congruence|]); [by left|by right]. }
  assert (∀ i, i ∈ map it_id new → g_events (t_graph t1') !! i = None) as Hids by (intros i (x & Hx & <-)%elem_of_ids; by apply Hnew).
  eapply (backward_ok_new (t_graph t1') g4 (t_graph t3) new); [exact Hg1| | | | | |exact G3|exact Hnd1|exact Hupd|].
  - intros x Hx. destruct (Hnew x Hx) as [HxL Hn]. split; [apply (HL x HxL)|done].
  - intros x Hx. rewrite G1, (S4 x Hx). by eexists.
  - intros i row Hi. rewrite G1, S5; [done|]. intros Hin%Hids. congruence.
  - intros i row. rewrite G1. destruct (decide (i ∈ map it_id new)) as [Hin%elem_of_ids|Hin]; [by right|]. rewrite S5 by done. by left.
  - intros i. unfold in_rejections. rewrite !bool_decide_eq_true, G2, J5, F2, S1, elem_of_ids. setoid_rewrite elem_of_bfilter. naive_solver.
  - intros x Hx Hc. destruct (Hnew x Hx) as [HxL _]. destruct (HL x HxL) as [(_ & Hr & _) _]. specialize (Hr Hc). unfold in_rejections in *. by rewrite O1.
Qed.
End Backward.

(** ** Example *)

Lemma px_backward_ok : backward_ok "!r:hs" px_graph.
Proof.
  assert (∀ p, referred px_graph p → p = "$dave") as Href.
  { intros p (a & row & Ha & _ & _ & Hp). assert (forallb (λ x : string * event_row, forallb (λ p, bool_decide (p = "$dave")) (prev_event_ids (er_event x.2))) (map_to_list (g_events px_graph)) = true) as Hall by (vm_compute; reflexivity).
    rewrite forallb_forall in Hall. specialize (Hall (a, row) (in_map_to_list (g_events px_graph) a row Ha)). rewrite forallb_forall in Hall.
    exact (proj1 (bool_decide_eq_true (p = "$dave")) (Hall p (proj1 (list_elem_of_In _ _) Hp))). }
  split; [|done|done]. intros p ->%Href Hn. vm_compute in Hn. discriminate Hn.
Qed.

(** An event arrives whose previous event is not known. *)
Definition px_gap : event := mk_event RoomVersions.V11 "$gap" "m.room.message" alice None [] 12 ["$missing"] [].
Definition px_gap_result : py event_tables := persist_events_txn SQLite "hs" px_tables "!r:hs" [MkItem px_gap (px_context 1) 3 false (None, None)] false None None.
Definition px_gap_tables : event_tables := match px_gap_result with Ok t => t | Raise _ => px_tables end.

Lemma px_gap_Ok : px_gap_result = Ok px_gap_tables.
Proof.
  assert (match px_gap_result with Ok _ => true | Raise _ => false end = true) as Hb by (vm_compute; reflexivity). revert Hb. unfold px_gap_tables. by destruct px_gap_result.
Qed.

Lemma backward_extremities_right_witness : backward_ok "!r:hs" (t_graph px_gap_tables) ∧ ("!r:hs", "$missing") ∈ g_backward (t_graph px_gap_tables).
Proof.
  split; [|apply (bool_decide_unpack _); vm_compute; exact I].
  apply (backward_extremities_right "!r:hs" SQLite "hs" px_tables [MkItem px_gap (px_context 1) 3 false (None, None)] false None None); [exact px_backward_ok| |exact px_gap_Ok].
  intros x ->%list_elem_of_singleton. split; [reflexivity|]. split; [vm_compute; done|]. intros row Hrow. vm_compute in Hrow. discriminate Hrow.
Defined.
