(* ===== verification/PersistCorners.v ===== *)
(** * Corner cases of persisting events

    What [PersistEvents] does with batches that the other files exclude: rejected events
    among others, soft-failed events, events that were dropped from the extremities, events
    that are listed twice. *)

From S2P Require Import Prelude PyData RoomVersions Ids Events EventAuth StateFilters StateResV2 StateResV2Facts RoomExample IterUtils LinkedList CacheStore LruCache TreeCache DictionaryCache StateGroups StateGroupCache StateGroupSystem ExpiringCache StateHandler StateHandlerFacts EventTables PersistEvents PersistExample EventGraphFacts Extremities CurrentState BackwardExtremities.

Open Scope Z_scope.

(** ** A rejected event in a batch *)

Definition rejected_access : exn := RuntimeError "Attempt to access state_group of rejected event".

Lemma rejected_group c : is_rejected c = true → context_state_group c = Raise rejected_access.
Proof.
  unfold is_rejected, context_state_group. destruct (ctx_rejected c) as [r|]; [|done]. intros Hr%bool_decide_eq_true. rewrite bool_decide_true; [done|]. split; [by eexists|congruence].
Qed.

Lemma add_deltas_rejected l m :
  (∃ x, x ∈ l ∧ is_rejected (it_context x) = true) →
  (∀ x, x ∈ l → is_rejected (it_context x) = false → ev_outlier (it_event x) = false → is_Some (ctx_state_group (it_context x))) →
  py_fold add_group_deltas m l = Raise rejected_access.
Proof.
  revert m. induction l as [|y l IH]; intros m (x & Hx & Hr) Hl; [by apply elem_of_nil in Hx|]. cbn [py_fold].
  assert (add_group_deltas m y = (sg ← context_state_group (it_context y);
    match sg with
    | None => raise_if (negb (ev_outlier (it_event y))) (PyException "Context for new event %s has no state group") ;; Ok m
    | Some _ => Ok (ctx_state_group_deltas (it_context y) ∪ m)
    end)) as -> by done.
  destruct (is_rejected (it_context y)) eqn:Ey; [by rewrite (rejected_group _ Ey)|]. apply elem_of_cons in Hx as [->|Hx]; [congruence|].
  assert (context_state_group (it_context y) = Ok (ctx_state_group (it_context y))) as ->.
  { unfold context_state_group, is_rejected in *. destruct (ctx_rejected (it_context y)) as [r|]; [apply bool_decide_eq_false in Ey; rewrite bool_decide_false; [done|]; intros [_ Hn]; apply Ey; congruence|].
    rewrite bool_decide_false; [done|]. by intros [[? ?] _]. }
  cbn [mbind py_bind]. assert (∀ m', py_fold add_group_deltas m' l = Raise rejected_access) as IH'.
  { intros m'. apply IH; [eauto|]. intros z Hz. apply Hl. by right. }
  destruct (ctx_state_group (it_context y)) as [g|] eqn:Eg; cbn [mbind py_bind]; [apply IH'|]. destruct (ev_outlier (it_event y)) eqn:Eo; cbn [negb raise_if mbind py_bind]; [apply IH'|].
  destruct (Hl y) as [? ?]; [by left|done|done|congruence].
Qed.

(** C32: A rejected event in a chunk of a batch that has to work out the state.  If the chunk
    changes the extremities, and it does not replace one by one with events that all have a
    single previous event and are no state events, then a rejected event in it makes
    persisting the chunk raise, so that none of its events is stored.  (Rejected events get into batches with others by the queue.) *)
Theorem rejected_spoils_batch {K S : Type} `{Countable K} `{!CacheStore K S} `{!KeyScheme Z (string * string) K} `{!StateResolver}
    e hostname fuel now (s : persist_state (K := K) (S := S)) room_id l E :
  let g := t_graph (ps_tables s) in let latest := get_latest_event_ids_in_room g room_id in
  calculate_new_extremities g l latest = Ok E → E ≠ latest → E ≠ ∅ →
  bool_decide (size latest = 1%nat) && bool_decide (size E = 1%nat) && forallb (λ x, single_prev_not_state (it_event x)) l = false →
  (∃ x, x ∈ l ∧ is_rejected (it_context x) = true) →
  (∀ x, x ∈ l → is_rejected (it_context x) = false → ev_outlier (it_event x) = false → is_Some (ctx_state_group (it_context x))) →
  persist_chunk e hostname fuel now s room_id false l = Raise (RuntimeError "Attempt to access state_group of rejected event").
Proof.
  intros g latest HE Hne Hemp Hshort Hr Hl. unfold persist_chunk, calculate_new_forward_extremities_and_state_delta. fold g latest. rewrite HE. cbn [mbind py_bind].
  rewrite (bool_decide_false (E = latest)), (bool_decide_false (E = ∅)) by done. cbn [raise_if mbind py_bind]. rewrite Hshort. unfold get_new_state_after_events.
  by rewrite add_deltas_rejected.
Qed.

(** A message of Alice is merged with a rejected event. *)
Definition px_message (id : string) (prevs : list string) : event := mk_event RoomVersions.V11 id "m.room.message" alice None [] 12 prevs [].
Definition px_rejected : item := MkItem (px_message "$bad" ["$topic"]) (MkContext None (Some 1) (Some ∅) ∅ (Some "auth_error") None false) 0 false (None, None).

Lemma rejected_spoils_batch_witness :
  persist_chunk SQLite "hs" 10 0 px_state "!r:hs" false [px_item bob_ban 2; px_rejected] = Raise (RuntimeError "Attempt to access state_group of rejected event").
Proof.
  apply (rejected_spoils_batch SQLite "hs" 10 0 px_state "!r:hs" [px_item bob_ban 2; px_rejected] {["$topic"; "$ban"]}).
  - vm_compute. reflexivity.
  - apply (bool_decide_unpack _). vm_compute. exact I.
  - apply (bool_decide_unpack _). vm_compute. exact I.
  - vm_compute. reflexivity.
  - exists px_rejected. split; [right; by left|reflexivity].
  - intros x [->|[->|?%elem_of_nil]%elem_of_cons]%elem_of_cons Hr _; [by eexists|vm_compute in Hr; discriminate Hr|done].
Defined.

(** ** Soft-failed events *)

Definition soft (e : event) (outlier failed : bool) : event :=
  {| ev_id := ev_id e; ev_room_version := ev_room_version e; ev_type := ev_type e; ev_sender := ev_sender e; ev_room_id := ev_room_id e; ev_state_key := ev_state_key e;
     ev_content := ev_content e; ev_origin_server_ts := ev_origin_server_ts e; ev_depth := ev_depth e; ev_prev_events := ev_prev_events e; ev_auth_events := ev_auth_events e;
     ev_extra := ev_extra e; ev_signatures := ev_signatures e; ev_unsigned := ev_unsigned e; ev_rejected_reason := ev_rejected_reason e; ev_outlier := outlier;
     ev_soft_failed := failed; ev_redacted := ev_redacted e; ev_recheck_redaction := ev_recheck_redaction e |}.

(** The tables with one more event *)
Definition px_with (rows : list (string * event_row)) (edges : list (string * string)) (latest : list string) (groups : gmap string Z) : persist_state (K := list string) (S := TreeCache) :=
  MkPersist (MkTables (MkGraph (list_to_map rows ∪ g_events px_graph) ∅ (list_to_set edges ∪ g_edges px_graph) (list_to_set (map (pair "!r:hs") latest)) ∅ [] [] ∅)
    (MkInfo (groups ∪ i_state_groups px_info) ∅ ∅ [] ∅) px_room) ctx_handler 4 0.
Definition px_run (s : persist_state (K := list string) (S := TreeCache)) (l : list item) : py (persist_state (K := list string) (S := TreeCache)) :=
  persist_chunk SQLite "hs" 10 0 s "!r:hs" false l.
Definition px_latest (r : py (persist_state (K := list string) (S := TreeCache))) : option (gset string) :=
  match r with Ok s => Some (get_latest_event_ids_in_room (t_graph (ps_tables s)) "!r:hs") | Raise _ => None end.
Definition px_current (r : py (persist_state (K := list string) (S := TreeCache))) : option state_ids :=
  match r with Ok s => Some (current_state (t_room (ps_tables s)) "!r:hs") | Raise _ => None end.

(** The ban is stored, after the topic, and soft-failed.  A message after it is no state
    event with one previous event, so the state is not looked at: the ban is in the state of
    the only extremity, but not in the current state. *)
Definition px_soft_ban : event := soft (mk_event RoomVersions.V11 "$ban" EventTypes.Member alice (Some bob) [("membership", JStr "ban")] 9 ["$topic"] []) false true.
Definition px_soft_state := px_with [("$ban", MkEventRow px_soft_ban 4 false None)] [("$ban", "$topic")] ["$topic"] {["$ban" := 2]}.
Definition px_soft_result := px_run px_soft_state [px_item (px_message "$m" ["$ban"]) 2].

Example soft_failed_state_is_missed :
  px_latest px_soft_result = Some {["$m"]} ∧ px_current px_soft_result = Some topic_state ∧ ctx_hist !! 2 = Some ban_state ∧ ban_state ≠ topic_state.
Proof. split_and!; apply (bool_decide_unpack _); vm_compute; exact I. Qed.

(** The soft-failed event is in the same batch as the message after it: the event before
    both is left as an extremity. *)
Example soft_failed_in_batch :
  px_latest (px_run px_state [px_item (soft (px_message "$s" ["$topic"]) false true) 1; px_item (px_message "$m" ["$s"]) 1]) = Some {["$topic"; "$m"]}.
Proof. apply (bool_decide_unpack _). vm_compute. exact I. Qed.

(** Stored as an outlier first, then received and soft-failed: that it failed is not stored,
    so the next batch takes it for accepted and drops the extremity before it. *)
Definition px_outlier_state := px_with [("$s", MkEventRow (soft (px_message "$s" ["$topic"]) true false) 4 true None)] [("$s", "$topic")] ["$topic"] ∅.
Definition px_ex_outlier := px_run px_outlier_state [px_item (soft (px_message "$s" ["$topic"]) false true) 1].

Example soft_failure_is_forgotten :
  px_latest px_ex_outlier = Some {["$topic"]} ∧
  match px_ex_outlier with Ok s => px_latest (px_run s [px_item (px_message "$m" ["$dave"]) 1]) | Raise _ => None end = Some {["$m"]}.
Proof. split; apply (bool_decide_unpack _); vm_compute; exact I. Qed.

(** ** Extremities that are lost *)

(** An event [$y] after a gap was dropped from the extremities.  The event in the gap
    refers to the only extremity, and [$y] to it: no extremity is left. *)
Definition px_pruned_state := px_with [("$y", MkEventRow (px_message "$y" ["$x"]) 4 false None)] [("$y", "$x")] ["$topic"] {["$y" := 1]}.

Example no_extremity_left : px_run px_pruned_state [px_item (px_message "$x" ["$topic"]) 1] = Raise AssertionError.
Proof. vm_compute. reflexivity. Qed.

(** ** Events listed twice *)

(** A previous event that is listed twice is an error of the database. *)
Example duplicate_prev_event : px_run px_state [px_item (px_message "$m" ["$topic"; "$topic"]) 1] = Raise IntegrityError.
Proof. vm_compute. reflexivity. Qed.

(** An event with a transaction id that is twice in a batch is a duplicate of itself, and
    neither is persisted. *)
Definition px_txn_item : item := MkItem (px_message "$m" ["$topic"]) (px_context 1) 0 false (Some "device", Some "txn").
Definition px_twice := persist_event_batch SQLite "hs" 10 0 px_state "!r:hs" [px_txn_item; px_txn_item] false.

Example event_twice_is_dropped :
  match px_twice with Ok (replaced, s) => Some (replaced, bool_decide (g_events (t_graph (ps_tables s)) !! "$m" = None)) | Raise _ => None end = Some ({["$m" := "$m"]}, true).
Proof. vm_compute. reflexivity. Qed.

(** ** Depths and gaps *)

(** The depth that is kept for a room is reset to 0 by a batch of outliers. *)
Example outliers_reset_depth :
  let g := MkGraph ∅ ∅ ∅ ∅ ∅ [] [] {["!r:hs" := 10]} in
  g_depth (update_room_depths_txn g "!r:hs" [px_item (px_message "$m" []) 1]) !! "!r:hs" = Some 10 ∧
  g_depth (update_room_depths_txn g "!r:hs" [px_item (soft (px_message "$m" []) true false) 1]) !! "!r:hs" = Some 0.
Proof. split; vm_compute; reflexivity. Qed.

(** A rejected event, or an event with no previous events that comes alone, fills a gap, but
    stays a backward extremity. *)
Definition px_gap_state (rejected : option string) (prevs : list string) : py event_tables :=
  persist_events_txn SQLite "hs" px_gap_tables "!r:hs"
    [MkItem (px_message "$missing" prevs) (MkContext (Some 1) (Some 1) (Some ∅) ∅ rejected None false) 4 false (None, None)] true None None.
Definition still_gap (r : py event_tables) : option bool :=
  match r with Ok t => Some (not_outlier (t_graph t) "$missing" && bool_decide (("!r:hs", "$missing") ∈ g_backward (t_graph t))) | Raise _ => None end.

Example gap_stays :
  still_gap (px_gap_state None ["$topic"]) = Some false ∧ still_gap (px_gap_state (Some "auth_error") ["$topic"]) = Some true ∧ still_gap (px_gap_state None []) = Some true.
Proof. split_and!; vm_compute; reflexivity. Qed.
