(* ===== verification/PersistQueue.v ===== *)
(** * The queue of tasks of a room: [_EventPeristenceQueue] of
    [storage/controllers/persist_events.py]

    Tasks are queued by room, and merged with the last one that waits where this is
    possible; one background loop per room hands them to a callback.  Coroutines
    interleave only where they await, so the stretches between two awaits are functions,
    put together as a step relation: callers arrive at any time, and a callback returns
    or raises at any time.  Opentracing is left out. *)

From S2P Require Import Prelude.

Section Queue.
Context {C X R : Type} `{EqDecision C}.

(** [_PersistEventsTask] and [_UpdateCurrentStateTask] *)
Inductive task : Type :=
  | PersistEventsTask (events_and_contexts : list X) (backfilled : bool)
  | UpdateCurrentStateTask.

(** [try_merge]: the task that [self] becomes, if it is merged *)
Definition try_merge (self new : task) : option task :=
  match self, new with
  | PersistEventsTask l b, PersistEventsTask l' b' => if Bool.eqb b b' then Some (PersistEventsTask (l ++ l') b) else None
  | UpdateCurrentStateTask, UpdateCurrentStateTask => Some UpdateCurrentStateTask
  | _, _ => None
  end.

(** [_EventPersistQueueItem], with those that observe its deferred *)
Record EventPersistQueueItem : Type := MkQueueItem { qi_task : task; qi_observers : list C }.

(** The loops of [_handle_queue] that run are listed by room, with the item whose callback
    they await, or none while the deferred of the last item is called back.
    [answers] are the results that observers were called with, the last one first; the
    trace has what happened, the last first, and is there for specification only. *)
Inductive queue_event : Type :=
  | Added (caller : C) (room_id : string) (t : task)
  | Started (room_id : string) (t : task)
  | Returned (room_id : string) (ret : R).
Record event_queue : Type := MkQueue {
  event_persist_queues : gmap string (list EventPersistQueueItem);
  currently_persisting_rooms : gset string;
  loops : list (string * option EventPersistQueueItem);
  answers : list (C * R);
  trace : list queue_event;
}.
Definition new_queue : event_queue := MkQueue ∅ ∅ [] [] [].

Definition room_queue (q : event_queue) (room_id : string) : list EventPersistQueueItem := default [] (event_persist_queues q !! room_id).

(** The next round of [handle_queue_loop]: [_get_drainining_queue] gives an item, or it is at
    its end and the loop finishes *)
Definition next_item (q : event_queue) (room_id : string) : event_queue :=
  match room_queue q room_id with
  | item :: queue =>
      MkQueue (<[room_id := queue]> (event_persist_queues q)) (currently_persisting_rooms q) ((room_id, Some item) :: loops q)
        (answers q) (Started room_id (qi_task item) :: trace q)
  | [] =>
      MkQueue (delete room_id (event_persist_queues q)) (currently_persisting_rooms q ∖ {[room_id]}) (loops q) (answers q) (trace q)
  end.

(** [_handle_queue] *)
Definition handle_queue (q : event_queue) (room_id : string) : event_queue :=
  if bool_decide (room_id ∈ currently_persisting_rooms q) then q
  else next_item (MkQueue (event_persist_queues q) ({[room_id]} ∪ currently_persisting_rooms q) (loops q) (answers q) (trace q)) room_id.

(** The queue of the room, with the task merged into its last item or at its end *)
Fixpoint enqueue (queue : list EventPersistQueueItem) (caller : C) (t : task) : list EventPersistQueueItem :=
  match queue with
  | [] => [MkQueueItem t [caller]]
  | [end_item] =>
      match try_merge (qi_task end_item) t with
      | Some merged => [MkQueueItem merged (qi_observers end_item ++ [caller])]
      | None => [end_item; MkQueueItem t [caller]]
      end
  | item :: queue => item :: enqueue queue caller t
  end.

(** [add_to_queue], until it waits *)
Definition add_to_queue (q : event_queue) (caller : C) (room_id : string) (t : task) : event_queue :=
  let queue := enqueue (room_queue q room_id) caller t in
  handle_queue (MkQueue (<[room_id := queue]> (event_persist_queues q)) (currently_persisting_rooms q) (loops q) (answers q)
    (Added caller room_id t :: trace q)) room_id.

(** The callback that the loop number [k] awaits returns, or raises; the deferred of the
    item is called back. *)
Definition item_done (q : event_queue) (k : nat) (room_id : string) (item : EventPersistQueueItem) (ret : R) : event_queue :=
  MkQueue (event_persist_queues q) (currently_persisting_rooms q) (<[k := (room_id, None)]> (loops q))
    (map (λ c, (c, ret)) (qi_observers item) ++ answers q) (Returned room_id ret :: trace q).

(** The callbacks of the deferred have run. *)
Definition resume_loop (q : event_queue) (k : nat) (room_id : string) : event_queue :=
  next_item (MkQueue (event_persist_queues q) (currently_persisting_rooms q) (delete k (loops q)) (answers q) (trace q)) room_id.

(** What may happen.  A caller is a call of [add_to_queue]. *)
Definition new_caller (q : event_queue) (c : C) : Prop := ∀ room_id t, Added c room_id t ∉ trace q.
Inductive queue_step (q : event_queue) : event_queue → Prop :=
  | step_add caller room_id t : new_caller q caller → queue_step q (add_to_queue q caller room_id t)
  | step_done k room_id item ret : loops q !! k = Some (room_id, Some item) → queue_step q (item_done q k room_id item ret)
  | step_resume k room_id : loops q !! k = Some (room_id, None) → queue_step q (resume_loop q k room_id).

(** ** Tasks that are merged *)

Definition task_events (t : task) : list (X * bool) := match t with PersistEventsTask l b => map (λ x, (x, b)) l | UpdateCurrentStateTask => [] end.
Definition queue_events (l : list EventPersistQueueItem) : list (X * bool) := concat (map (λ i, task_events (qi_task i)) l).

(** A task is done when [t'] is: its events are some of those of [t'], together and in order. *)
Definition includes (t t' : task) : Prop :=
  match t with
  | PersistEventsTask l b => ∃ l1 l2, t' = PersistEventsTask (l1 ++ l ++ l2) b
  | UpdateCurrentStateTask => t' = UpdateCurrentStateTask
  end.

Lemma includes_refl t : includes t t.
Proof using Type. destruct t as [l b|]; [|done]. exists [], []. by rewrite app_nil_r. Qed.

Lemma try_merge_includes a b m : try_merge a b = Some m → task_events m = task_events a ++ task_events b ∧ (∀ t, includes t a → includes t m) ∧ includes b m.
Proof using Type.
  destruct a as [l f|], b as [l' f'|]; cbn [try_merge]; try done; [|by intros [= <-]]. destruct (Bool.eqb f f') eqn:Ef; [|done]. apply Bool.eqb_prop in Ef as <-.
  intros [= <-]. split_and!; [by cbn; rewrite map_app| |by exists l, []; rewrite app_nil_r].
  intros [k f'|]; [|done]. intros (l1 & l2 & [= -> ->]). exists l1, (l2 ++ l'). by rewrite <- !app_assoc.
Qed.

(** What [enqueue] does with the items that are there, and where the caller is then *)
Lemma enqueue_spec l c t :
  queue_events (enqueue l c t) = queue_events l ++ task_events t ∧
  concat (map qi_observers (enqueue l c t)) = concat (map qi_observers l) ++ [c] ∧
  (∀ n item, l !! n = Some item → ∃ item', enqueue l c t !! n = Some item' ∧ qi_observers item ⊆ qi_observers item') ∧
  (∀ item', item' ∈ enqueue l c t → ∀ c', c' ∈ qi_observers item' →
    c' = c ∧ includes t (qi_task item') ∨ ∃ item, item ∈ l ∧ c' ∈ qi_observers item ∧ ∀ t', includes t' (qi_task item) → includes t' (qi_task item')).
Proof using Type.
  induction l as [|x [|y l] IH]; [| |].
  - cbn. split_and!; [by rewrite app_nil_r|done|by intros n item Hn; rewrite lookup_nil in Hn|]. intros item' ->%list_elem_of_singleton c' ->%list_elem_of_singleton. left. split; [done|apply includes_refl].
  - clear IH. cbn [enqueue]. destruct (try_merge (qi_task x) t) as [m|] eqn:Em.
    + apply try_merge_includes in Em as (Ev & Hm & Hb). unfold queue_events. cbn. rewrite !app_nil_r. split_and!; [done|done| |].
      * intros [|n] item [= <-]. eexists. split; [done|]. cbn. set_solver.
      * intros item' ->%list_elem_of_singleton c'. cbn. intros [Hc| ->%list_elem_of_singleton]%elem_of_app; [right; exists x|left]; [|done]. split_and!; [by left|done|exact Hm].
    + unfold queue_events. cbn. rewrite !app_nil_r. split_and!; [done|done| |].
      * intros [|n] item [= <-]. by exists x.
      * intros item' [->| ->%list_elem_of_singleton]%elem_of_cons c' Hc; [right; exists x; split_and!; [by left|done|done]|]. cbn in Hc. apply list_elem_of_singleton in Hc as ->. left. split; [done|apply includes_refl].
  - destruct IH as (E & O & I & B). change (enqueue (x :: y :: l) c t) with (x :: enqueue (y :: l) c t). split_and!.
    + unfold queue_events in *. cbn [map concat] in *. rewrite E. by rewrite <- !app_assoc.
    + cbn [map concat] in *. rewrite O. by rewrite <- !app_assoc.
    + intros [|n] item Hi; [injection Hi as <-; by exists x|]. by apply I.
    + intros item' [->|Hi]%elem_of_cons c' Hc; [right; exists x; split_and!; [by left|done|done]|]. destruct (B _ Hi _ Hc) as [?|(i & Hl & H1 & H2)]; [by left|]. right. exists i. split_and!; [by right|done|done].
Qed.

(** ** The items of a room that are not done *)

(** The item of the loop, if it awaits the callback, and those that wait *)
Definition awaited (q : event_queue) (room_id : string) : list EventPersistQueueItem :=
  match List.find (λ x, bool_decide (x.1 = room_id)) (loops q) with Some (_, Some item) => [item] | _ => [] end.
Definition pending (q : event_queue) (room_id : string) : list EventPersistQueueItem := awaited q room_id ++ room_queue q room_id.

(** One loop per room, for the rooms that are noted; only these have queues *)
Record loops_ok (q : event_queue) : Prop := {
  lo_once : NoDup (map fst (loops q));
  lo_noted : ∀ r, r ∈ currently_persisting_rooms q ↔ r ∈ map fst (loops q);
  lo_queues : ∀ r, is_Some (event_persist_queues q !! r) → r ∈ currently_persisting_rooms q;
}.

Lemma find_loop (l : list (string * option EventPersistQueueItem)) r o :
  NoDup (map fst l) → (r, o) ∈ l → List.find (λ x, bool_decide (x.1 = r)) l = Some (r, o).
Proof using Type.
  induction l as [|[r' o'] l IH]; intros Hnd Hin; [by apply elem_of_nil in Hin|]. cbn [map] in Hnd. apply NoDup_cons in Hnd as [Hni Hnd]. cbn [List.find fst] in *.
  apply elem_of_cons in Hin as [[= <- <-]|Hin]; [by rewrite bool_decide_true|]. rewrite bool_decide_false; [by apply IH|].
  intros ->. apply Hni. apply list_elem_of_fmap. by exists (r, o).
Qed.

Lemma awaited_loop q r item : loops_ok q → (r, Some item) ∈ loops q → awaited q r = [item].
Proof using Type. intros Hq Hin. unfold awaited. by rewrite (find_loop _ _ _ (lo_once _ Hq) Hin). Qed.

Lemma awaited_between q r : loops_ok q → (r, None) ∈ loops q → awaited q r = [].
Proof using Type. intros Hq Hin. unfold awaited. by rewrite (find_loop _ _ _ (lo_once _ Hq) Hin). Qed.

Lemma awaited_idle q r : r ∉ map fst (loops q) → awaited q r = [].
Proof using Type.
  intros Hr. unfold awaited. destruct (List.find _ (loops q)) as [[r' o]|] eqn:Ef; [|done]. apply find_some in Ef as [Hin Heq].
  apply bool_decide_eq_true in Heq. cbn in Heq. subst r'. exfalso. apply Hr. apply list_elem_of_fmap. exists (r, o). split; [done|]. by apply list_elem_of_In.
Qed.

Lemma awaited_in q r item : item ∈ awaited q r → (r, Some item) ∈ loops q.
Proof using Type.
  unfold awaited. destruct (List.find _ (loops q)) as [[r' [i|]]|] eqn:Ef; [|by intros ?%elem_of_nil..]. intros ->%list_elem_of_singleton.
  apply find_some in Ef as [Hin Heq]. apply bool_decide_eq_true in Heq. cbn in Heq. subst r'. by apply list_elem_of_In.
Qed.

(** ** What the steps do with them *)

Lemma room_queue_idle q r : loops_ok q → r ∉ currently_persisting_rooms q → room_queue q r = [].
Proof using Type.
  intros Hq Hr. unfold room_queue. destruct (event_persist_queues q !! r) as [l|] eqn:E; [|done]. destruct Hr. apply (lo_queues _ Hq). by eexists.
Qed.

Lemma room_queue_insert (m : gmap string (list EventPersistQueueItem)) p l a tr r r' queue :
  room_queue (MkQueue (<[r := queue]> m) p l a tr) r' = if bool_decide (r' = r) then queue else default [] (m !! r').
Proof using Type. unfold room_queue. cbn. case_bool_decide as E; [by subst; rewrite lookup_insert_eq|by rewrite lookup_insert_ne]. Qed.

(** The next item is started, if there is one. *)
Lemma next_item_ok q r :
  NoDup (r :: map fst (loops q)) → (∀ r', r' ∈ currently_persisting_rooms q ↔ r' ∈ r :: map fst (loops q)) →
  (∀ r', is_Some (event_persist_queues q !! r') → r' ∈ currently_persisting_rooms q) →
  loops_ok (next_item q r) ∧ answers (next_item q r) = answers q ∧
  (∀ r', pending (next_item q r) r' = if bool_decide (r' = r) then room_queue q r else pending q r') ∧
  (trace (next_item q r) = trace q ∧ room_queue q r = [] ∨
   ∃ item queue, room_queue q r = item :: queue ∧ room_queue (next_item q r) r = queue ∧ loops (next_item q r) = (r, Some item) :: loops q ∧
     trace (next_item q r) = Started r (qi_task item) :: trace q).
Proof using Type.
  intros Hnd Hno Hqu. pose proof Hnd as [Hni Hnd']%NoDup_cons. unfold next_item. destruct (room_queue q r) as [|item queue] eqn:Eq.
  - assert (loops_ok (MkQueue (delete r (event_persist_queues q)) (currently_persisting_rooms q ∖ {[r]}) (loops q) (answers q) (trace q))) as Hok.
    { split; cbn; [done| |].
      - intros r'. rewrite elem_of_difference, Hno, elem_of_cons, not_elem_of_singleton. split; [by intros [[?|?] ?]|]. intros Hin. split; [by right|]. by intros ->.
      - intros r' Hs. assert (r' ≠ r) by (intros ->; rewrite lookup_delete_eq in Hs; by destruct Hs). rewrite lookup_delete_ne in Hs by done. apply Hqu in Hs. set_solver. }
    split_and!; [done|done| |by left]. intros r'. unfold pending. case_bool_decide as E.
    + subst r'. rewrite awaited_idle by done. unfold room_queue. cbn. by rewrite lookup_delete_eq.
    + unfold room_queue. cbn. by rewrite lookup_delete_ne.
  - set (q' := MkQueue (<[r := queue]> (event_persist_queues q)) (currently_persisting_rooms q) ((r, Some item) :: loops q) (answers q) (Started r (qi_task item) :: trace q)).
    assert (loops_ok q') as Hok.
    { split; cbn; [done|done|]. intros r' Hs. destruct (decide (r' = r)) as [->|Hne]; [apply Hno; by left|]. rewrite lookup_insert_ne in Hs by done. by apply Hqu. }
    split_and!; [done|done| |].
    + intros r'. unfold pending. unfold q' at 2. rewrite room_queue_insert. case_bool_decide as E.
      * subst r'. rewrite (awaited_loop _ _ item Hok) by by left. done.
      * f_equal. unfold awaited, q'. cbn. by rewrite bool_decide_false.
    + right. exists item, queue. split_and!; [done| |done|done]. unfold q'. rewrite room_queue_insert. by rewrite bool_decide_true.
Qed.

(** ** The invariant *)

(** The events that were handed to the callback for a room, and those that were added *)
Fixpoint started_events (r : string) (tr : list queue_event) : list (X * bool) :=
  match tr with
  | [] => []
  | Started r' t :: tr => started_events r tr ++ (if bool_decide (r' = r) then task_events t else [])
  | _ :: tr => started_events r tr
  end.
Fixpoint added_events (r : string) (tr : list queue_event) : list (X * bool) :=
  match tr with
  | [] => []
  | Added _ r' t :: tr => added_events r tr ++ (if bool_decide (r' = r) then task_events t else [])
  | _ :: tr => added_events r tr
  end.

(** Nothing is started or returned for the room. *)
Definition quiet (r : string) (tr : list queue_event) : Prop := (∀ t, Started r t ∉ tr) ∧ ∀ ret, Returned r ret ∉ tr.

(** The callback was started with a task that includes the one of the caller, after the
    caller had come, and is the last one of the room. *)
Definition served (tr : list queue_event) (c : C) (r : string) (t' : task) : Prop :=
  ∃ newer older t, tr = newer ++ Started r t' :: older ∧ quiet r newer ∧ Added c r t ∈ older ∧ includes t t'.
Definition answered_by (tr : list queue_event) (c : C) (ret : R) : Prop :=
  ∃ r newer older t', tr = newer ++ Returned r ret :: older ∧ served older c r t'.

Definition observers (l : list EventPersistQueueItem) : list C := concat (map qi_observers l).

Record items_ok (q : event_queue) : Prop := {
  io_unique : ∀ c r t r' t', Added c r t ∈ trace q → Added c r' t' ∈ trace q → r = r' ∧ t = t';
  io_waiting : ∀ r item c, item ∈ room_queue q r → c ∈ qi_observers item → ∃ t, Added c r t ∈ trace q ∧ includes t (qi_task item);
  io_running : ∀ r item c, item ∈ awaited q r → c ∈ qi_observers item → served (trace q) c r (qi_task item);
  io_answers : ∀ c ret, (c, ret) ∈ answers q → answered_by (trace q) c ret;
  io_observers : ∀ r, NoDup (observers (pending q r));
  io_once : NoDup (map fst (answers q));
  io_not_yet : ∀ r c, c ∈ observers (pending q r) → c ∉ map fst (answers q);
  io_all : ∀ c r t, Added c r t ∈ trace q → c ∈ observers (pending q r) ∨ c ∈ map fst (answers q);
  io_events : ∀ r, started_events r (trace q) ++ queue_events (room_queue q r) = added_events r (trace q);
}.

Lemma elem_of_observers c l : c ∈ observers l ↔ ∃ item, item ∈ l ∧ c ∈ qi_observers item.
Proof using Type.
  unfold observers. rewrite list_elem_of_In, in_concat. split.
  - intros (o & (item & <- & Hi)%in_map_iff & Hc). exists item. by rewrite !list_elem_of_In.
  - intros (item & Hi%list_elem_of_In & Hc%list_elem_of_In). exists (qi_observers item). split; [by apply in_map|done].
Qed.

Lemma served_snoc tr x c r t' : served tr c r t' → quiet r [x] → served (x :: tr) c r t'.
Proof using Type.
  intros (newer & older & t & -> & Hq & Hr) [Hx1 Hx2]. exists (x :: newer), older, t. split_and!; [done| |by apply Hr..]. destruct Hq as [H1 H2].
  split; intros y [Hy|Hy]%elem_of_cons; [apply (Hx1 y); rewrite Hy; by left|by apply (H1 y)|apply (Hx2 y); rewrite Hy; by left|by apply (H2 y)].
Qed.

Lemma answered_snoc tr x c ret : answered_by tr c ret → answered_by (x :: tr) c ret.
Proof using Type. intros (r & newer & older & t' & -> & Hs). exists r, (x :: newer), older, t'. done. Qed.

(** A caller that waits was added, to the room it waits for. *)
Lemma waiter_was_added q r c : items_ok q → c ∈ observers (pending q r) → ∃ t, Added c r t ∈ trace q.
Proof using Type.
  intros Hq (item & [Hi|Hi]%elem_of_app & Hc)%elem_of_observers.
  - destruct (io_running _ Hq _ _ _ Hi Hc) as (newer & older & t & -> & _ & Hin & _). exists t. apply elem_of_app. right. by right.
  - destruct (io_waiting _ Hq _ _ _ Hi Hc) as (t & Hin & _). by exists t.
Qed.

Lemma awaited_eq q q' r : NoDup (map fst (loops q)) → NoDup (map fst (loops q')) → (∀ o, (r, o) ∈ loops q ↔ (r, o) ∈ loops q') → awaited q r = awaited q' r.
Proof using Type.
  intros Hn Hn' Hr. destruct (decide (r ∈ map fst (loops q))) as [([r' o] & Heq & Hin)%list_elem_of_fmap|Hni].
  - cbn in Heq. subst r'. unfold awaited. by rewrite (find_loop _ _ _ Hn Hin), (find_loop _ _ _ Hn' (proj1 (Hr o) Hin)).
  - rewrite !awaited_idle; [done| |done]. intros ([r' o] & Heq & Hin)%list_elem_of_fmap. cbn in Heq. subst r'. apply Hni, list_elem_of_fmap. exists (r, o). split; [done|]. by apply Hr.
Qed.

(** *** The next item *)
Lemma next_item_items q r :
  NoDup (r :: map fst (loops q)) → (∀ r', r' ∈ currently_persisting_rooms q ↔ r' ∈ r :: map fst (loops q)) →
  (∀ r', is_Some (event_persist_queues q !! r') → r' ∈ currently_persisting_rooms q) →
  items_ok q → items_ok (next_item q r).
Proof using Type.
  intros Hnd Hno Hqu Hq. destruct (next_item_ok q r Hnd Hno Hqu) as (Hok & Ha & Hp & Ht). pose proof Hnd as [Hni Hnd']%NoDup_cons.
  assert (awaited q r = []) as Haw by by apply awaited_idle.
  assert (∀ r', pending (next_item q r) r' = pending q r') as Hp'.
  { intros r'. rewrite Hp. case_bool_decide as E; [|done]. subst r'. unfold pending. by rewrite Haw. }
  destruct Ht as [[Ht Hemp]|(item & queue & Hrq & Hrq' & Hl & Ht)].
  - assert (∀ r', awaited (next_item q r) r' = awaited q r') as Haw' by (intros r'; unfold next_item; by rewrite Hemp).
    assert (∀ r', room_queue (next_item q r) r' = room_queue q r') as Hrq.
    { intros r'. apply (app_inv_head (awaited q r')). rewrite <- Haw' at 1. apply Hp'. }
    destruct Hq. split; intros *; rewrite ?Ha, ?Ht, ?Hp', ?Haw', ?Hrq; eauto.
  - assert (∀ r', r' ≠ r → awaited (next_item q r) r' = awaited q r') as Haw'.
    { intros r' Hne. unfold awaited. rewrite Hl. cbn [List.find fst]. by rewrite bool_decide_false. }
    assert (∀ r', r' ≠ r → room_queue (next_item q r) r' = room_queue q r') as Hrq2.
    { intros r' Hne. apply (app_inv_head (awaited q r')). rewrite <- Haw' at 1 by done. apply Hp'. }
    assert (awaited (next_item q r) r = [item]) as Haw2 by (apply awaited_loop; [done|rewrite Hl; by left]).
    assert (∀ c r' t, Added c r' t ∈ trace (next_item q r) ↔ Added c r' t ∈ trace q) as Hadd.
    { intros c r' t. rewrite Ht, elem_of_cons. split; [by intros [?|?]|by right]. }
    split.
    + intros c r1 t1 r2 t2. rewrite !Hadd. apply (io_unique _ Hq).
    + intros r' i c Hi Hc. setoid_rewrite Hadd. destruct (decide (r' = r)) as [->|Hne]; [|rewrite Hrq2 in Hi by done; by apply (io_waiting _ Hq)].
      rewrite Hrq' in Hi. apply (io_waiting _ Hq _ i c); [rewrite Hrq; by right|done].
    + intros r' i c Hi Hc. destruct (decide (r' = r)) as [->|Hne].
      * rewrite Haw2 in Hi. apply list_elem_of_singleton in Hi as ->. destruct (io_waiting _ Hq r item c) as (t & Hin & Hinc); [rewrite Hrq; by left|done|].
        exists [], (trace q), t. split_and!; [by rewrite Ht|split; intros ? ?%elem_of_nil; done|done|done].
      * rewrite Haw' in Hi by done. rewrite Ht. apply served_snoc; [by apply (io_running _ Hq)|].
        split; intros y ?%list_elem_of_singleton; congruence.
    + intros c ret. rewrite Ha, Ht. intros Hin%(io_answers _ Hq). by apply answered_snoc.
    + intros r'. rewrite Hp'. apply (io_observers _ Hq).
    + rewrite Ha. apply (io_once _ Hq).
    + intros r' c. rewrite Hp', Ha. apply (io_not_yet _ Hq).
    + intros c r' t. rewrite Hadd, Hp', Ha. apply (io_all _ Hq).
    + intros r'. rewrite Ht. cbn [started_events added_events]. rewrite <- (io_events _ Hq r'). case_bool_decide as E.
      * subst r'. rewrite Hrq', Hrq. unfold queue_events. cbn [map concat]. by rewrite <- !app_assoc.
      * rewrite Hrq2 by done. by rewrite app_nil_r.
Qed.

(** *** A task is added *)

Lemma answered_added tr c ret : answered_by tr c ret → ∃ r t, Added c r t ∈ tr.
Proof using Type.
  intros (r & newer & older & t' & -> & newer' & older' & t & -> & _ & Hin & _). exists r, t. apply elem_of_app. right. right. apply elem_of_app. right. by right.
Qed.

Lemma observers_app l l' : observers (l ++ l') = observers l ++ observers l'.
Proof using Type. unfold observers. by rewrite map_app, concat_app. Qed.

Lemma enqueued_items q c r t : items_ok q → new_caller q c →
  items_ok (MkQueue (<[r := enqueue (room_queue q r) c t]> (event_persist_queues q)) (currently_persisting_rooms q) (loops q) (answers q) (Added c r t :: trace q)).
Proof using Type.
  intros Hq Hnew. set (q' := MkQueue _ _ _ _ _). destruct (enqueue_spec (room_queue q r) c t) as (He & Ho & _ & Hb).
  assert (∀ r', room_queue q' r' = if bool_decide (r' = r) then enqueue (room_queue q r) c t else room_queue q r') as Hrq by (intros r'; apply room_queue_insert).
  assert (∀ r', observers (pending q' r') = observers (pending q r') ++ (if bool_decide (r' = r) then [c] else [])) as Hobs.
  { intros r'. unfold pending. rewrite Hrq, !observers_app. case_bool_decide as E; [subst r'; unfold observers at 2 4; by rewrite Ho, app_assoc|by rewrite app_nil_r]. }
  assert (c ∉ map fst (answers q)) as Hna.
  { intros ([c' ret] & -> & Hin)%list_elem_of_fmap. apply (io_answers _ Hq), answered_added in Hin as (r' & t' & Hin). by apply Hnew in Hin. }
  assert (∀ r', c ∉ observers (pending q r')) as Hnp by (intros r' (t' & Hin)%(waiter_was_added _ _ _ Hq); by apply Hnew in Hin).
  split; cbn [trace answers q'].
  - intros c0 r1 t1 r2 t2 [H1|H1]%elem_of_cons [H2|H2]%elem_of_cons; [split; congruence|injection H1 as -> -> ->; by apply Hnew in H2|injection H2 as -> -> ->; by apply Hnew in H1|by eapply (io_unique _ Hq)].
  - intros r' i c' Hi Hc. rewrite Hrq in Hi. case_bool_decide as E.
    + subst r'. destruct (Hb _ Hi _ Hc) as [[-> Hinc]|(i' & Hi' & Hc' & Hinc)]; [exists t; split; [by left|done]|].
      destruct (io_waiting _ Hq _ _ _ Hi' Hc') as (t' & Hin & Ht'). exists t'. split; [by right|by apply Hinc].
    + destruct (io_waiting _ Hq _ _ _ Hi Hc) as (t' & Hin & Ht'). exists t'. split; [by right|done].
  - intros r' i c' Hi Hc. apply served_snoc; [by apply (io_running _ Hq)|]. split; intros y ?%list_elem_of_singleton; congruence.
  - intros c' ret Hin%(io_answers _ Hq). by apply answered_snoc.
  - intros r'. rewrite Hobs. apply NoDup_app. split_and!; [apply (io_observers _ Hq)| |case_bool_decide; [apply NoDup_singleton|constructor]].
    intros c' Hc'. case_bool_decide; [|by intros ?%elem_of_nil]. intros ->%list_elem_of_singleton. by apply Hnp in Hc'.
  - apply (io_once _ Hq).
  - intros r' c'. rewrite Hobs, elem_of_app. intros [Hc|Hc]; [by apply (io_not_yet _ Hq) in Hc|]. case_bool_decide; [|by apply elem_of_nil in Hc]. apply list_elem_of_singleton in Hc as ->. done.
  - intros c' r' t' [[= -> -> ->]|Hin]%elem_of_cons; rewrite Hobs, elem_of_app; [left; right; rewrite bool_decide_true by done; by left|].
    destruct (io_all _ Hq _ _ _ Hin) as [?|?]; [left; by left|by right].
  - intros r'. cbn [started_events added_events]. rewrite Hrq, <- (io_events _ Hq r'). rewrite (bool_decide_ext (r = r') (r' = r)) by done.
    case_bool_decide as E; [subst r'; by rewrite He, app_assoc|by rewrite app_nil_r].
Qed.

(** *** The callback of an item returns *)
Lemma item_done_ok q k r item ret : loops_ok q → loops q !! k = Some (r, Some item) →
  loops_ok (item_done q k r item ret) ∧ pending q r = item :: room_queue q r ∧
  ∀ r', awaited (item_done q k r item ret) r' = if bool_decide (r' = r) then [] else awaited q r'.
Proof using Type.
  intros Hq Hk. pose proof (list_elem_of_lookup_2 _ _ _ Hk) as Hin.
  assert (map fst (<[k := (r, None)]> (loops q)) = map fst (loops q)) as Hfst.
  { change (fst <$> <[k := (r, None)]> (loops q) = fst <$> loops q). rewrite list_fmap_insert. apply list_insert_id. by rewrite list_lookup_fmap, Hk. }
  assert (loops_ok (item_done q k r item ret)) as Hok by (destruct Hq; split; cbn [item_done loops currently_persisting_rooms event_persist_queues]; rewrite ?Hfst; done).
  split_and!; [done|unfold pending; by rewrite (awaited_loop _ _ _ Hq Hin)|]. intros r'. case_bool_decide as E.
  - subst r'. apply awaited_between; [done|]. cbn. apply list_elem_of_lookup. exists k. apply list_lookup_insert_eq. by eapply lookup_lt_Some.
  - apply awaited_eq; [apply Hok|apply Hq|]. intros o. cbn. rewrite !list_elem_of_lookup. split; intros [j Hj]; exists j.
    + apply list_lookup_insert_Some in Hj as [(_ & [= <- <-] & _)|[_ Hj]]; done.
    + rewrite list_lookup_insert_ne; [done|]. intros <-. congruence.
Qed.

Lemma item_done_items q k r item ret : loops_ok q → items_ok q → loops q !! k = Some (r, Some item) → items_ok (item_done q k r item ret).
Proof using Type.
  intros Hl Hq Hk. destruct (item_done_ok q k r item ret Hl Hk) as (Hok & Hp & Haw). set (q' := item_done q k r item ret) in *.
  assert (∀ r', observers (pending q' r') = if bool_decide (r' = r) then observers (room_queue q r) else observers (pending q r')) as Hobs.
  { intros r'. unfold pending. rewrite Haw. case_bool_decide as E; [by subst r'|done]. }
  assert (observers (pending q r) = qi_observers item ++ observers (room_queue q r)) as Hsplit by by rewrite Hp.
  assert (item ∈ awaited q r) as Hi0 by (rewrite (awaited_loop q r item); [by left|done|by eapply list_elem_of_lookup_2]).
  assert (∀ c, c ∈ qi_observers item → c ∈ observers (pending q r)) as Hin0 by (intros c Hc; rewrite Hsplit; set_solver).
  assert (∀ r' c, c ∈ qi_observers item → c ∉ observers (pending q' r')) as Hgone.
  { intros r' c Hc. rewrite Hobs. case_bool_decide as E.
    - pose proof (io_observers _ Hq r) as Hnd. rewrite Hsplit in Hnd. apply NoDup_app in Hnd as (_ & Hnd & _). by apply Hnd.
    - intros (t & Ht)%(waiter_was_added _ _ _ Hq). destruct (waiter_was_added q r c Hq (Hin0 c Hc)) as (t' & Ht'). destruct (io_unique _ Hq _ _ _ _ _ Ht Ht'). done. }
  assert (∀ c, c ∈ map fst (map (λ c, (c, ret)) (qi_observers item)) ↔ c ∈ qi_observers item) as Hfst by (intros c; by rewrite map_map, map_id).
  assert (∀ c r' t, Added c r' t ∈ Returned r ret :: trace q ↔ Added c r' t ∈ trace q) as Hadd by (intros c r' t; rewrite elem_of_cons; split; [by intros [?|?]|by right]).
  split; cbn [item_done trace answers q'].
  - intros c r1 t1 r2 t2. rewrite !Hadd. apply (io_unique _ Hq).
  - intros r' i c Hi Hc. setoid_rewrite Hadd. by apply (io_waiting _ Hq r').
  - intros r' i c Hi Hc. rewrite Haw in Hi. case_bool_decide as E; [by apply elem_of_nil in Hi|]. apply served_snoc; [by apply (io_running _ Hq)|].
    split; intros y ?%list_elem_of_singleton; congruence.
  - intros c ret' [(c' & [= <- <-] & Hc)%list_elem_of_fmap|Hin]%elem_of_app; [|by apply answered_snoc, (io_answers _ Hq)].
    exists r, [], (trace q), (qi_task item). split; [done|]. by apply (io_running _ Hq).
  - intros r'. rewrite Hobs. case_bool_decide; [|apply (io_observers _ Hq)]. pose proof (io_observers _ Hq r) as Hnd. rewrite Hsplit in Hnd. by apply NoDup_app in Hnd as (_ & _ & Hnd).
  - rewrite map_app. apply NoDup_app. split_and!; [|intros c Hc%Hfst; by apply (io_not_yet _ Hq r), Hin0|apply (io_once _ Hq)].
    rewrite map_map, map_id. pose proof (io_observers _ Hq r) as Hnd. rewrite Hsplit in Hnd. by apply NoDup_app in Hnd as (Hnd & _ & _).
  - intros r' c Hc. rewrite map_app, elem_of_app, Hfst. intros [Hc'|Hc']; [by apply (Hgone r') in Hc'|]. revert Hc'. rewrite Hobs in Hc. case_bool_decide; [|by apply (io_not_yet _ Hq) in Hc].
    apply (io_not_yet _ Hq r). rewrite Hsplit. set_solver.
  - intros c r' t. rewrite Hadd, Hobs, map_app, elem_of_app, Hfst. intros [Hc|Hc]%(io_all _ Hq); [|by right; right]. case_bool_decide as E; [|by left]. subst r'.
    rewrite Hsplit in Hc. apply elem_of_app in Hc as [?|?]; [right; by left|by left].
  - intros r'. apply (io_events _ Hq).
Qed.

(** *** The steps *)
Definition queue_ok (q : event_queue) : Prop := loops_ok q ∧ items_ok q.

Lemma add_to_queue_ok q c r t : queue_ok q → new_caller q c →
  queue_ok (add_to_queue q c r t) ∧ answers (add_to_queue q c r t) = answers q ∧
  ∀ r', pending (add_to_queue q c r t) r' = if bool_decide (r' = r) then awaited q r ++ enqueue (room_queue q r) c t else pending q r'.
Proof using Type.
  intros [Hl Hq] Hnew. pose proof (enqueued_items q c r t Hq Hnew) as Hi. unfold add_to_queue, handle_queue. cbn [currently_persisting_rooms event_persist_queues loops answers trace].
  set (m := <[r := enqueue (room_queue q r) c t]> (event_persist_queues q)) in *.
  assert (∀ r' p l a tr, room_queue (MkQueue m p l a tr) r' = if bool_decide (r' = r) then enqueue (room_queue q r) c t else room_queue q r') as Hrq by (intros; apply room_queue_insert).
  case_bool_decide as Er.
  - split_and!; [|done|].
    + split; [|done]. destruct Hl as [H1 H2 H3]. split; cbn; [done|done|]. intros r' Hs. destruct (decide (r' = r)) as [->|Hne]; [done|]. unfold m in Hs. rewrite lookup_insert_ne in Hs by done. by apply H3.
    + intros r'. unfold pending. rewrite Hrq. case_bool_decide as E; [by subst r'|done].
  - assert (r ∉ map fst (loops q)) as Hni by by rewrite <- (lo_noted _ Hl).
    set (q1 := MkQueue m ({[r]} ∪ currently_persisting_rooms q) (loops q) (answers q) (Added c r t :: trace q)).
    assert (items_ok q1) as Hi1 by (destruct Hi; by split).
    assert (NoDup (r :: map fst (loops q1))) as N1 by (apply NoDup_cons; split; [done|apply (lo_once _ Hl)]).
    assert (∀ r', r' ∈ currently_persisting_rooms q1 ↔ r' ∈ r :: map fst (loops q1)) as N2 by (intros r'; cbn; rewrite elem_of_union, elem_of_singleton, elem_of_cons, (lo_noted _ Hl); done).
    assert (∀ r', is_Some (event_persist_queues q1 !! r') → r' ∈ currently_persisting_rooms q1) as N3.
    { intros r' Hs. cbn. destruct (decide (r' = r)) as [->|Hne]; [set_solver|]. cbn in Hs. unfold m in Hs. rewrite lookup_insert_ne in Hs by done. apply (lo_queues _ Hl) in Hs. set_solver. }
    destruct (next_item_ok q1 r N1 N2 N3) as (Hok & Ha & Hp & _). split_and!; [split; [done|by apply next_item_items]|done|].
    intros r'. rewrite Hp. case_bool_decide as E; [|unfold pending, q1; rewrite Hrq; by rewrite bool_decide_false].
    unfold q1. rewrite Hrq, bool_decide_true by done. by rewrite awaited_idle.
Qed.

Lemma resume_loop_ok q k r : queue_ok q → loops q !! k = Some (r, None) →
  queue_ok (resume_loop q k r) ∧ answers (resume_loop q k r) = answers q ∧ ∀ r', pending (resume_loop q k r) r' = pending q r'.
Proof using Type.
  intros [Hl Hq] Hk. pose proof (delete_Permutation _ _ _ Hk) as Hperm. pose proof (list_elem_of_lookup_2 _ _ _ Hk) as Hin. unfold resume_loop.
  set (q1 := MkQueue (event_persist_queues q) (currently_persisting_rooms q) (delete k (loops q)) (answers q) (trace q)).
  assert (map fst (loops q) ≡ₚ r :: map fst (loops q1)) as Hfst by (rewrite Hperm; done).
  assert (NoDup (r :: map fst (loops q1))) as N1 by (rewrite <- Hfst; apply (lo_once _ Hl)).
  assert (∀ r', r' ∈ currently_persisting_rooms q1 ↔ r' ∈ r :: map fst (loops q1)) as N2 by (intros r'; cbn; rewrite (lo_noted _ Hl), Hfst; done).
  assert (∀ r', awaited q1 r' = awaited q r') as Haw.
  { intros r'. pose proof N1 as [Hni Hnd]%NoDup_cons. destruct (decide (r' = r)) as [->|Hne]; [by rewrite (awaited_idle q1), (awaited_between q)|].
    apply awaited_eq; [done|apply (lo_once _ Hl)|]. intros o. rewrite Hperm, elem_of_cons. split; [by right|]. by intros [[= ? ?]|?]. }
  assert (∀ r', pending q1 r' = pending q r') as Hp1 by (intros r'; unfold pending; by rewrite Haw).
  assert (items_ok q1) as Hi1 by (destruct Hq; split; intros *; rewrite ?Hp1, ?Haw; eauto).
  destruct (next_item_ok q1 r N1 N2 (lo_queues _ Hl)) as (Hok & Ha & Hp & _). split_and!; [split; [done|by apply next_item_items; [..|apply (lo_queues _ Hl)|]]|done|].
  intros r'. rewrite Hp. case_bool_decide as E; [|apply Hp1]. subst r'. unfold pending. by rewrite (awaited_between q).
Qed.

Lemma new_persist_queue_ok : queue_ok new_queue.
Proof using Type.
  split; split; cbn; try by intros * ?%elem_of_nil.
  - constructor.
  - intros r. split; [set_solver|by intros ?%elem_of_nil].
  - intros r Hs. rewrite lookup_empty in Hs. by destruct Hs.
  - intros r. unfold pending, room_queue. cbn. rewrite lookup_empty. constructor.
  - constructor.
  - intros r. unfold room_queue. cbn. by rewrite lookup_empty.
Qed.

Lemma queue_step_ok q q' : queue_step q q' → queue_ok q → queue_ok q'.
Proof using Type.
  intros [c r t Hnew|k r item ret Hk|k r Hk] Hq; [by apply add_to_queue_ok| |by apply resume_loop_ok].
  destruct Hq as [Hl Hq]. split; [by apply (item_done_ok q k r item ret)|by apply item_done_items].
Qed.

Lemma queue_reachable_ok q : rtc queue_step new_queue q → queue_ok q.
Proof using Type. intros Hr. revert Hr. generalize new_persist_queue_ok. generalize new_queue. intros q0 Hq0 Hr. induction Hr as [|q1 q2 q3 Hs _ IH]; [done|]. apply IH. by eapply queue_step_ok. Qed.

(** C16: The queue of tasks, whatever order callers and callbacks come in.  No two callbacks
    run for the same room.  For every room, the events handed to the callback so far and
    then those that wait are the events of the tasks that were added, in the order they
    were added in, nothing lost or done twice.  An answer is the result of a callback
    that was started after its caller had come, with a task that includes the caller's,
    and nobody is answered twice. *)
Theorem queue_in_order q : rtc queue_step new_queue q →
  NoDup (map fst (loops q)) ∧
  (∀ r, started_events r (trace q) ++ queue_events (room_queue q r) = added_events r (trace q)) ∧
  (∀ c ret, (c, ret) ∈ answers q → answered_by (trace q) c ret) ∧ NoDup (map fst (answers q)).
Proof using Type. intros [Hl Hq]%queue_reachable_ok. split_and!; [apply Hl|apply Hq..]. Qed.

(** ** Everybody is answered *)

(** How often the callback returned for a room *)
Fixpoint returns (r : string) (tr : list queue_event) : nat :=
  match tr with
  | [] => 0
  | Returned r' _ :: tr => (if bool_decide (r' = r) then 1 else 0) + returns r tr
  | _ :: tr => returns r tr
  end.

(** The caller waits for the item at index [n] of the room. *)
Definition waits (q : event_queue) (r : string) (c : C) (n : nat) : Prop := ∃ item, pending q r !! n = Some item ∧ c ∈ qi_observers item.

Lemma returns_next q r r' : returns r' (trace (next_item q r)) = returns r' (trace q).
Proof using Type. unfold next_item. by destruct (room_queue q r). Qed.

Lemma returns_add q c r t r' : returns r' (trace (add_to_queue q c r t)) = returns r' (trace q).
Proof using Type. unfold add_to_queue, handle_queue. case_bool_decide; [done|]. by rewrite returns_next. Qed.

Lemma waits_step q q' r c n : queue_ok q → queue_step q q' → waits q r c n →
  (∃ m, waits q' r c m ∧ returns r (trace q') + m = returns r (trace q) + n) ∨ c ∈ map fst (answers q').
Proof using Type.
  intros Hq Hs (item & Hi & Hc). destruct Hs as [c' r' t Hnew|k r' it ret Hk|k r' Hk].
  - left. exists n. rewrite returns_add. split; [|done]. destruct (add_to_queue_ok q c' r' t Hq Hnew) as (_ & _ & Hp). unfold waits. rewrite Hp.
    case_bool_decide as E; [|by exists item]. subst r'. destruct (enqueue_spec (room_queue q r) c' t) as (_ & _ & He & _).
    unfold pending in Hi. apply lookup_app_Some in Hi as [Hi|[Hn Hi]]; [exists item; split; [by apply lookup_app_l_Some|done]|].
    destruct (He _ _ Hi) as (item' & Hi' & Hsub). exists item'. split; [by rewrite lookup_app_r|by apply Hsub].
  - destruct Hq as [Hl Hq]. destruct (item_done_ok q k r' it ret Hl Hk) as (_ & Hp & Haw). cbn [item_done trace returns answers]. case_bool_decide as E.
    + subst r'. rewrite Hp in Hi. destruct n as [|n]; cbn in Hi; [right|left].
      * injection Hi as <-. rewrite map_app, elem_of_app. left. by rewrite map_map, map_id.
      * exists n. split; [|lia]. exists item. split; [|done]. unfold pending. rewrite Haw, bool_decide_true by done. done.
    + left. exists n. split; [|done]. exists item. split; [|done]. unfold pending. rewrite Haw, bool_decide_false by done. done.
  - left. exists n. unfold resume_loop. rewrite returns_next. split; [|done]. destruct (resume_loop_ok q k r' Hq Hk) as (_ & _ & Hp). exists item. fold (resume_loop q k r'). by rewrite Hp.
Qed.

Lemma answered_stays q q' c : queue_ok q → queue_step q q' → c ∈ map fst (answers q) → c ∈ map fst (answers q').
Proof using Type.
  intros Hq [c' r t Hnew|k r item ret Hk|k r Hk] Hc.
  - destruct (add_to_queue_ok q c' r t Hq Hnew) as (_ & -> & _). done.
  - cbn. rewrite map_app. set_solver.
  - destruct (resume_loop_ok q k r Hq Hk) as (_ & -> & _). done.
Qed.

(** C30: Nobody waits for ever.  A caller that has no answer waits for an item of its room,
    with some number of items before it, and the room has a loop that goes on: it waits
    for a callback, or takes the next item.  Whatever else happens, when as many callbacks
    have returned for the room, and one more, the caller has an answer. *)
Theorem queue_answers_all q c r t : rtc queue_step new_queue q → Added c r t ∈ trace q → c ∉ map fst (answers q) →
  ∃ n, waits q r c n ∧ r ∈ map fst (loops q) ∧
    ∀ q', rtc queue_step q q' → returns r (trace q) + n < returns r (trace q') → c ∈ map fst (answers q').
Proof using Type.
  intros Hq%queue_reachable_ok Ha Hna. destruct (io_all _ (proj2 Hq) _ _ _ Ha) as [(item & [n Hn]%list_elem_of_lookup & Hc)%elem_of_observers|?]; [|done].
  assert (waits q r c n) as Hw by by exists item. exists n. split_and!; [done| |].
  - destruct (decide (r ∈ map fst (loops q))) as [?|Hni]; [done|]. exfalso. unfold pending in Hn. rewrite awaited_idle, room_queue_idle in Hn; [done|apply Hq|by rewrite (lo_noted _ (proj1 Hq))|done].
  - intros q' Hr. clear Hn Hc Ha item Hna. revert n Hw. induction Hr as [q|q q1 q' Hs Hr IH]; intros n Hw Hlt; [lia|].
    pose proof (queue_step_ok _ _ Hs Hq) as Hq1. destruct (waits_step _ _ _ _ _ Hq Hs Hw) as [(m & Hw' & Hm)|Hans]; [apply (IH Hq1 m); [done|lia]|].
    clear - Hr Hq1 Hans. induction Hr as [q|q1 q2 q' Hs _ IH]; [done|]. apply IH; [by eapply queue_step_ok|by eapply answered_stays].
Qed.
End Queue.

(** ** An example: three callers, two of which are merged, and two rooms *)
Definition qx0 : event_queue (C := nat) (X := nat) (R := bool) := new_queue.
Definition qx1 := add_to_queue qx0 1 "!a" (PersistEventsTask [10] false).
Definition qx2 := add_to_queue qx1 2 "!a" (PersistEventsTask [20; 21] false).
Definition qx3 := add_to_queue qx2 3 "!b" UpdateCurrentStateTask.
Definition qx4 := add_to_queue qx3 4 "!a" (PersistEventsTask [40] false).
Definition qx5 := item_done qx4 1 "!a" (MkQueueItem (PersistEventsTask [10] false) [1]) true.
Definition qx6 := resume_loop qx5 1 "!a".

Lemma qx_reachable : rtc queue_step new_queue qx6.
Proof.
  assert (∀ (q : event_queue (C := nat) (X := nat) (R := bool)) c, forallb (λ e, match e with Added c' _ _ => negb (Nat.eqb c c') | _ => true end) (trace q) = true → new_caller q c) as Hnew.
  { intros q c Hq r t Hin%list_elem_of_In. rewrite forallb_forall in Hq. apply Hq in Hin. cbn in Hin. by rewrite Nat.eqb_refl in Hin. }
  apply rtc_l with qx1; [by apply step_add, Hnew|]. apply rtc_l with qx2; [by apply step_add, Hnew|]. apply rtc_l with qx3; [by apply step_add, Hnew|].
  apply rtc_l with qx4; [by apply step_add, Hnew|]. apply rtc_l with qx5; [by apply step_done|]. apply rtc_once. by apply step_resume.
Qed.

Example qx_merged : loops qx6 = [("!a", Some (MkQueueItem (PersistEventsTask [20; 21; 40] false) [2; 4])); ("!b", Some (MkQueueItem UpdateCurrentStateTask [3]))] ∧ answers qx6 = [(1, true)].
Proof. split; vm_compute; reflexivity. Qed.

Lemma queue_in_order_witness :
  (1, true) ∈ answers qx6 ∧ answered_by (trace qx6) 1 true ∧ started_events "!a" (trace qx6) ++ queue_events (room_queue qx6 "!a") = [(10, false); (20, false); (21, false); (40, false)].
Proof.
  destruct (queue_in_order qx6 qx_reachable) as (_ & Hev & Hans & _). assert ((1, true) ∈ answers qx6) as Hin by by left. split_and!; [done|by apply Hans|].
  rewrite Hev. vm_compute. reflexivity.
Defined.

Lemma queue_answers_all_witness : ∃ n, waits qx6 "!a" 4 n ∧ "!a" ∈ map fst (loops qx6).
Proof.
  destruct (queue_answers_all qx6 4 "!a" (PersistEventsTask [40] false)) as (n & Hw & Hl & _).
  - apply qx_reachable.
  - vm_compute. by repeat constructor.
  - intros [?|?%elem_of_nil]%elem_of_cons; done.
  - by exists n.
Defined.
