(* ===== verification/PersistSystem.v ===== *)
(** * Persisting events through the queue

    The callers of [EventsPersistenceStorageController], its queue ([PersistQueue]) and
    the tables ([PersistEvents]), put together.  The callbacks for different rooms
    interleave between the chunks of their batches; a chunk, with its transaction, is one
    step.  A chunk that fails leaves the tables as they were, but it may have used stream
    orderings and caches.  The lock against purges is left out. *)

From S2P Require Import Prelude PyData RoomVersions Ids Events EventAuth StateFilters StateResV2 StateResV2Facts RoomExample IterUtils LinkedList CacheStore LruCache TreeCache DictionaryCache StateGroups StateGroupCache StateGroupSystem ExpiringCache StateHandler StateHandlerFacts EventTables PersistEvents PersistExample EventGraphFacts PersistQueue.

Open Scope Z_scope.

(** ** The callers *)

Abbreviation replaced_map := (gmap string string).
Abbreviation persist_task := (task (X := item)).
Abbreviation persist_queue := (event_queue (C := nat * string) (X := item) (R := py replaced_map)).

(** The events by room, [partitioned] of [persist_events]: [setdefault] and [append] *)
Fixpoint add_to_room (x : item) (partitioned : list (string * list item)) : list (string * list item) :=
  match partitioned with
  | [] => [(ev_room_id (it_event x), [x])]
  | (room_id, l) :: partitioned =>
      if bool_decide (room_id = ev_room_id (it_event x)) then (room_id, l ++ [x]) :: partitioned
      else (room_id, l) :: add_to_room x partitioned
  end.
Definition partition_rooms (l : list item) : list (string * list item) := foldl (λ p x, add_to_room x p) [] l.

(** [persist_events], until it waits: call number [n] enqueues a task for each room.  The
    callers of the queue are known by the call and the room. *)
Definition persist_events_begin (q : persist_queue) (n : nat) (l : list item) (backfilled : bool) : persist_queue :=
  foldl (λ q p, add_to_queue q (n, p.1) p.1 (PersistEventsTask p.2 backfilled)) q (partition_rooms l).

(** [yieldable_gather_results]: the first error, or all results, if they are there *)
Definition first_error (q : persist_queue) (n : nat) : option exn :=
  foldr (λ x o, match o, x with Some e, _ => Some e | None, ((m, _), Raise e) => if bool_decide (m = n) then Some e else None | _, _ => None end) None (answers q).
Definition answer_of (q : persist_queue) (n : nat) (room_id : string) : option (py replaced_map) :=
  snd <$> List.find (λ x, bool_decide (x.1 = (n, room_id))) (answers q).
Definition ok_answer (o : option (py replaced_map)) : option replaced_map := match o with Some (Ok d) => Some d | _ => None end.
Definition gather_results (q : persist_queue) (n : nat) (rooms : list string) : option (py (list replaced_map)) :=
  match first_error q n with
  | Some e => Some (Raise e)
  | None => Ok <$> mapM (λ r, ok_answer (answer_of q n r)) rooms
  end.

(** [get_event] of the main store, without redaction *)
Definition store_get_event (g : event_graph) (event_id : string) : py event :=
  match g_events g !! event_id with
  | Some row => if in_rejections g event_id then Raise (SynapseError 404 "Could not find event %s") else Ok (er_event row)
  | None => Raise (SynapseError 404 "Could not find event %s")
  end.

(** The end of [persist_events]: the events that are returned *)
Definition returned_event (g : event_graph) (replaced_events : replaced_map) (x : item) : py event :=
  match replaced_events !! it_id x with
  | Some existing_event_id => if bool_decide (existing_event_id = "") then Ok (it_event x) else store_get_event g existing_event_id
  | None => Ok (it_event x)
  end.
Definition merge_results (ret_vals : list replaced_map) : replaced_map := foldl (λ replaced_events d, d ∪ replaced_events) ∅ ret_vals.
Definition persist_events_end (g : event_graph) (q : persist_queue) (n : nat) (l : list item) : option (py (list event)) :=
  ret_vals ← gather_results q n (map fst (partition_rooms l));
  Some (ret_vals ← ret_vals;
        py_fold (λ persisted_events x, ev ← returned_event g (merge_results ret_vals) x; Ok (persisted_events ++ [ev])) [] l).

(** Each event is in the task of its room, and the tasks keep the order. *)
Lemma add_to_room_lookup x p : NoDup (map fst p) → NoDup (map fst (add_to_room x p)) ∧
  ∀ r, List.find (λ y, bool_decide (y.1 = r)) (add_to_room x p) =
    let old := List.find (λ y, bool_decide (y.1 = r)) p in
    if bool_decide (r = ev_room_id (it_event x)) then Some (r, default [] (snd <$> old) ++ [x]) else old.
Proof.
  induction p as [|[r0 l0] p IH]; intros Hnd; cbn [add_to_room].
  - split; [apply NoDup_singleton|]. intros r. cbn [List.find fst]. rewrite (bool_decide_ext (ev_room_id (it_event x) = r) (r = ev_room_id (it_event x))) by done. by case_bool_decide as E; [rewrite E|].
  - cbn [map] in Hnd. apply NoDup_cons in Hnd as [Hni Hnd]. destruct (IH Hnd) as [IH1 IH2]. case_bool_decide as E.
    + subst r0. split; [by apply NoDup_cons|]. intros r. cbn [List.find fst]. rewrite (bool_decide_ext (ev_room_id (it_event x) = r) (r = ev_room_id (it_event x))) by done. by case_bool_decide as Er; [rewrite Er|].
    + split.
      * cbn [map]. apply NoDup_cons. split; [|done]. intros ([r1 l1] & Heq & Hin)%list_elem_of_fmap. cbn in Heq. subst r1.
        assert (∀ p', (r0, l1) ∈ add_to_room x p' → r0 ∈ map fst p') as Hsub.
        { induction p' as [|[r2 l2] p' IHp]; cbn [add_to_room]; [by intros [= -> _]%list_elem_of_singleton|]. case_bool_decide; intros [[= -> _]|Hi]%elem_of_cons; [by left| |by left|right; by apply IHp].
          right. apply list_elem_of_fmap. by exists (r0, l1). }
        by apply Hsub in Hin.
      * intros r. cbn [List.find fst]. rewrite IH2. case_bool_decide as E1; [|done]. subst r. by rewrite bool_decide_false.
Qed.

Lemma partition_rooms_spec l : NoDup (map fst (partition_rooms l)) ∧
  ∀ r, default [] (snd <$> List.find (λ y, bool_decide (y.1 = r)) (partition_rooms l)) = List.filter (λ x, bool_decide (ev_room_id (it_event x) = r)) l.
Proof.
  unfold partition_rooms. induction l as [|x l IH] using rev_ind; [split; [constructor|done]|]. rewrite foldl_app. cbn [foldl]. destruct IH as [IH1 IH2].
  destruct (add_to_room_lookup x _ IH1) as [H1 H2]. split; [done|]. intros r. rewrite H2, List.filter_app, <- IH2. cbn [List.filter]. rewrite (bool_decide_ext (ev_room_id (it_event x) = r) (r = ev_room_id (it_event x))) by done.
  case_bool_decide; [done|]. by rewrite app_nil_r.
Qed.

Lemma partition_rooms_in l x : x ∈ l → ∃ evs, (ev_room_id (it_event x), evs) ∈ partition_rooms l ∧ x ∈ evs.
Proof.
  intros Hx. destruct (partition_rooms_spec l) as [_ Hp]. specialize (Hp (ev_room_id (it_event x))).
  assert (x ∈ List.filter (λ y, bool_decide (ev_room_id (it_event y) = ev_room_id (it_event x))) l) as Hin.
  { apply list_elem_of_In, filter_In. rewrite <- list_elem_of_In. split; [done|]. by rewrite bool_decide_true. }
  rewrite <- Hp in Hin. destruct (List.find _ _) as [[r evs]|] eqn:Ef; [|by apply elem_of_nil in Hin]. apply find_some in Ef as [Hf Heq]. apply bool_decide_eq_true in Heq. cbn in Heq, Hin. subst r.
  exists evs. split; [by apply list_elem_of_In|done].
Qed.

(** The results of all rooms, one after the other *)
Lemma merge_results_spec ds i : (∀ v, merge_results ds !! i = Some v → ∃ d, d ∈ ds ∧ d !! i = Some v) ∧ (∀ d, d ∈ ds → is_Some (d !! i) → is_Some (merge_results ds !! i)).
Proof.
  unfold merge_results. induction ds as [|d ds [IH1 IH2]] using rev_ind; [split; [by intros v Hv; cbn [foldl] in Hv; rewrite lookup_empty in Hv|by intros d ?%elem_of_nil]|]. rewrite foldl_app. cbn [foldl]. split.
  - intros v [Hv|[_ Hv]]%lookup_union_Some_raw; [exists d; set_solver|]. destruct (IH1 v Hv) as (d' & Hd & Hi). exists d'. set_solver.
  - intros d' [Hd| ->%list_elem_of_singleton]%elem_of_app [v Hv]; [|exists v; by apply lookup_union_Some_l]. destruct (IH2 d' Hd) as [w Hw]; [by eexists|].
    destruct (d !! i) as [u|] eqn:Eu; [exists u; by apply lookup_union_Some_l|exists w; by rewrite lookup_union_r].
Qed.

Lemma answer_of_in (q : persist_queue) n r a : answer_of q n r = Some a → ((n, r), a) ∈ answers q.
Proof.
  unfold answer_of. destruct (List.find _ (answers q)) as [[c a']|] eqn:Ef; [|done]. intros [= <-]. apply find_some in Ef as [Hin Heq]. apply bool_decide_eq_true in Heq. cbn in Heq. subst c. by apply list_elem_of_In.
Qed.

Lemma gather_results_Ok (q : persist_queue) n rooms ds : gather_results q n rooms = Some (Ok ds) →
  (∀ r, r ∈ rooms → ∃ d, d ∈ ds ∧ ((n, r), Ok d) ∈ answers q) ∧ (∀ d, d ∈ ds → ∃ r, ((n, r), Ok d) ∈ answers q).
Proof.
  unfold gather_results. destruct (first_error q n); [done|]. destruct (mapM _ rooms) as [ds'|] eqn:Em; [|done]. intros [= ->]. apply mapM_Some in Em.
  assert (∀ r d, ok_answer (answer_of q n r) = Some d → ((n, r), Ok d) ∈ answers q) as Hok.
  { intros r d. destruct (answer_of q n r) as [[d'|ex]|] eqn:Ea; cbn; [|done..]. intros [= <-]. by apply answer_of_in. }
  split.
  - intros r [k Hk]%list_elem_of_lookup. destruct (Forall2_lookup_l _ _ _ _ _ Em Hk) as (d & Hd & Hr). exists d. split; [by eapply list_elem_of_lookup_2|by apply Hok].
  - intros d [k Hk]%list_elem_of_lookup. destruct (Forall2_lookup_r _ _ _ _ _ Em Hk) as (r & Hr & Hd). exists r. by apply Hok.
Qed.

(** When all rooms have answered there is a result. *)
Lemma gather_results_ready (q : persist_queue) n rooms : (∀ r, r ∈ rooms → (n, r) ∈ map fst (answers q)) → is_Some (gather_results q n rooms).
Proof.
  intros Hr. unfold gather_results. destruct (first_error q n) as [ex|] eqn:Ee; [by eexists|]. rewrite fmap_is_Some, mapM_is_Some. apply Forall_forall. intros r Hin.
  assert (∃ a, answer_of q n r = Some a) as [a Ha].
  { apply Hr, list_elem_of_fmap in Hin as ([c a] & Heq & Hin). cbn in Heq. subst c. unfold answer_of. destruct (List.find _ _) as [y|] eqn:Ef; [by eexists|]. eapply find_none in Ef; [|by apply list_elem_of_In]. cbn in Ef. by rewrite bool_decide_true in Ef. }
  cbn. rewrite Ha. destruct a as [d|ex]; [by eexists|]. exfalso. apply answer_of_in in Ha. clear Hr Hin. revert Ee Ha. unfold first_error. induction (answers q) as [|[[m r'] a] l IH]; [by intros _ ?%elem_of_nil|]. cbn [foldr].
  destruct (foldr _ None l) as [e'|] eqn:Ef; [done|]. intros Hn [[= <- <- <-]|Hin']%elem_of_cons; [by rewrite bool_decide_true in Hn|]. by apply IH.
Qed.

(** ** The system *)

(** The callback that runs for a room: the batch, with what is left of it *)
Record batch_job : Type := MkJob { job_replaced : replaced_map; job_chunks : list (list item) }.

Section System.
Context {K S : Type} `{Countable K} `{!CacheStore K S} `{!KeyScheme Z (string * string) K} `{!StateResolver}.
Context (e : engine) (hostname : string).
Abbreviation persist := (persist_state (K := K) (S := S)).

(** [_persist_event_batch], up to its loop *)
Definition begin_batch (i : event_info) (l : list item) : batch_job :=
  let replaced_events := get_already_persisted_events i l in
  MkJob replaced_events (batch_iter (List.filter (λ x, bool_decide (replaced_events !! it_id x = None)) l) 100).

(** Without anything in between, the chunks are what [persist_event_batch] does. *)
Lemma persist_event_batch_chunks fuel now (s : persist) room_id l backfilled :
  persist_event_batch e hostname fuel now s room_id l backfilled =
  let job := begin_batch (t_info (ps_tables s)) l in
  s' ← py_fold (λ s chunk, persist_chunk e hostname fuel now s room_id backfilled chunk) s (job_chunks job);
  Ok (job_replaced job, s').
Proof using Type. done. Qed.

Record persist_system : Type := MkSystem {
  sy_queue : persist_queue;
  sy_state : persist;
  sy_jobs : gmap string batch_job;
}.

(** The tables after something failed *)
Definition failed (s s' : persist) : Prop := ps_tables s' = ps_tables s ∧ ps_stream s ≤ ps_stream s' ∧ ps_backfill s' ≤ ps_backfill s.

(** [_process_event_persist_queue_task] is the callback of the queue. *)
Inductive system_step (y : persist_system) : persist_system → Prop :=
  | sys_add c r t : new_caller (sy_queue y) c → system_step y (MkSystem (add_to_queue (sy_queue y) c r t) (sy_state y) (sy_jobs y))
  | sys_begin k r item l b :
      loops (sy_queue y) !! k = Some (r, Some item) → qi_task item = PersistEventsTask l b → sy_jobs y !! r = None →
      system_step y (MkSystem (sy_queue y) (sy_state y) (<[r := begin_batch (t_info (ps_tables (sy_state y))) l]> (sy_jobs y)))
  | sys_chunk k r item l b replaced chunk chunks fuel now s' :
      loops (sy_queue y) !! k = Some (r, Some item) → qi_task item = PersistEventsTask l b → sy_jobs y !! r = Some (MkJob replaced (chunk :: chunks)) →
      persist_chunk e hostname fuel now (sy_state y) r b chunk = Ok s' →
      system_step y (MkSystem (sy_queue y) s' (<[r := MkJob replaced chunks]> (sy_jobs y)))
  | sys_chunk_fails k r item l b replaced chunk chunks fuel now ex s' :
      loops (sy_queue y) !! k = Some (r, Some item) → qi_task item = PersistEventsTask l b → sy_jobs y !! r = Some (MkJob replaced (chunk :: chunks)) →
      persist_chunk e hostname fuel now (sy_state y) r b chunk = Raise ex → failed (sy_state y) s' →
      system_step y (MkSystem (item_done (sy_queue y) k r item (Raise ex)) s' (delete r (sy_jobs y)))
  | sys_batch_end k r item l b replaced :
      loops (sy_queue y) !! k = Some (r, Some item) → qi_task item = PersistEventsTask l b → sy_jobs y !! r = Some (MkJob replaced []) →
      system_step y (MkSystem (item_done (sy_queue y) k r item (Ok replaced)) (sy_state y) (delete r (sy_jobs y)))
  | sys_update k r item now s' :
      loops (sy_queue y) !! k = Some (r, Some item) → qi_task item = UpdateCurrentStateTask →
      update_current_state e hostname now (sy_state y) r = Ok s' →
      system_step y (MkSystem (item_done (sy_queue y) k r item (Ok ∅)) s' (sy_jobs y))
  | sys_update_fails k r item now ex s' :
      loops (sy_queue y) !! k = Some (r, Some item) → qi_task item = UpdateCurrentStateTask →
      update_current_state e hostname now (sy_state y) r = Raise ex → failed (sy_state y) s' →
      system_step y (MkSystem (item_done (sy_queue y) k r item (Raise ex)) s' (sy_jobs y))
  | sys_resume k r : loops (sy_queue y) !! k = Some (r, None) → system_step y (MkSystem (resume_loop (sy_queue y) k r) (sy_state y) (sy_jobs y)).

(** ** What is stored stays *)

Definition have (s : persist) (i : string) : Prop := is_Some (g_events (t_graph (ps_tables s)) !! i).
Definition rows_named (g : event_graph) : Prop := ∀ i row, g_events g !! i = Some row → ev_id (er_event row) = i.

Lemma assign_streams_ids step n l x : x ∈ l → ∃ x', x' ∈ assign_streams step n l ∧ it_id x' = it_id x.
Proof using Type.
  revert n. induction l as [|y l IH]; intros n Hx; [by apply elem_of_nil in Hx|]. cbn [assign_streams]. apply elem_of_cons in Hx as [->|Hx]; [eexists; split; [by left|done]|].
  destruct (IH (n + step) Hx) as (x' & Hin & Hid). exists x'. split; [by right|done].
Qed.

Lemma stored_grows g room_id l ext g' : stored g room_id l ext g' →
  (∀ i, is_Some (g_events g !! i) → is_Some (g_events g' !! i)) ∧ (∀ x, x ∈ l → is_Some (g_events g' !! it_id x)) ∧ (rows_named g → rows_named g').
Proof using Type.
  intros Hst. assert (∀ i, is_Some (g_events g !! i) → is_Some (g_events g' !! i)) as Hold by (intros i [row Hr]; destruct (st_old _ _ _ _ _ Hst i row Hr) as (row' & -> & _); by eexists).
  split_and!; [done| |].
  - intros x Hx. destruct (on_all _ _ (filter_duplicates_once l) x Hx) as (y & Hy & Hid & _). rewrite <- Hid.
    destruct (g_events g !! it_id y) as [row|] eqn:E; [apply Hold; by eexists|]. destruct (st_new _ _ _ _ _ Hst y) as (row & -> & _); [done|by eexists].
  - intros Hn i row Hr. destruct (st_dom _ _ _ _ _ Hst i) as [[row0 Hr0]|(x & Hx & <-)]; [by eexists| |].
    + destruct (st_old _ _ _ _ _ Hst i row0 Hr0) as (row' & Hr' & He & _). rewrite Hr in Hr'. injection Hr' as <-. rewrite He. by apply Hn.
    + destruct (st_new _ _ _ _ _ Hst x Hx) as (row' & Hr' & He & _). rewrite Hr in Hr'. injection Hr' as <-. by rewrite He.
Qed.

Lemma persist_chunk_grows fuel now (s s' : persist) r b l : persist_chunk e hostname fuel now s r b l = Ok s' →
  (∀ i, have s i → have s' i) ∧ (∀ x, x ∈ l → have s' (it_id x)) ∧ (rows_named (t_graph (ps_tables s)) → rows_named (t_graph (ps_tables s'))).
Proof using Type.
  unfold persist_chunk. intros ([[ext d] h] & _ & Hp)%py_bind_Ok. unfold persist_events_and_state_updates in Hp. apply py_bind_Ok in Hp as (t & Ht & [= <-]).
  apply persist_events_stored, stored_grows in Ht as (H1 & H2 & H3). unfold have. cbn in *. split_and!; [done| |done].
  intros x (x' & Hx' & <-)%(assign_streams_ids (if b then -1 else 1) (if b then ps_backfill s else ps_stream s)). by apply H2.
Qed.

Lemma update_current_state_graph now (s s' : persist) r : update_current_state e hostname now s r = Ok s' → t_graph (ps_tables s') = t_graph (ps_tables s).
Proof using Type.
  unfold update_current_state. intros ([st h] & _ & Hu)%py_bind_Ok. destruct (is_noop _); [by injection Hu as <-|]. apply py_bind_Ok in Hu as (r' & _ & [= <-]). done.
Qed.

(** ** The invariant *)

(** An event of the task is replaced, or stored, or in the chunks that are left. *)
Definition accounted (s : persist) (d : replaced_map) (left : list item) (l : list item) : Prop :=
  ∀ x, x ∈ l → is_Some (d !! it_id x) ∨ have s (it_id x) ∨ x ∈ left.

Record system_ok (y : persist_system) : Prop := {
  so_queue : queue_ok (sy_queue y);
  so_rows : rows_named (t_graph (ps_tables (sy_state y)));
  so_jobs : ∀ r job, sy_jobs y !! r = Some job → ∃ item l b,
    (r, Some item) ∈ loops (sy_queue y) ∧ qi_task item = PersistEventsTask l b ∧ accounted (sy_state y) (job_replaced job) (concat (job_chunks job)) l;
  so_answers : ∀ c d r l b, (c, Ok d) ∈ answers (sy_queue y) → Added c r (PersistEventsTask l b) ∈ trace (sy_queue y) → accounted (sy_state y) d [] l;
}.

Lemma accounted_grows s s' d left l : (∀ i, have s i → have s' i) → accounted s d left l → accounted s' d left l.
Proof using Type. intros Hh Ha x Hx. destruct (Ha x Hx) as [?|[?|?]]; auto. Qed.

Lemma next_loops (q : persist_queue) r x : x ∈ loops q → x ∈ loops (next_item q r).
Proof using Type. unfold next_item. destruct (room_queue q r); [done|by right]. Qed.
Lemma next_added (q : persist_queue) r c r' t : Added c r' t ∈ trace (next_item q r) ↔ Added c r' t ∈ trace q.
Proof using Type. unfold next_item. destruct (room_queue q r); [done|]. cbn. rewrite elem_of_cons. split; [by intros [?|?]|by right]. Qed.

Lemma add_loops (q : persist_queue) c r t x : x ∈ loops q → x ∈ loops (add_to_queue q c r t).
Proof using Type. intros Hx. unfold add_to_queue, handle_queue. case_bool_decide; [done|]. by apply next_loops. Qed.
Lemma add_added (q : persist_queue) c r t c' r' t' : Added c' r' t' ∈ trace (add_to_queue q c r t) ↔ (c' = c ∧ r' = r ∧ t' = t) ∨ Added c' r' t' ∈ trace q.
Proof using Type.
  unfold add_to_queue, handle_queue. cbn [currently_persisting_rooms]. assert (∀ tr : list (queue_event (R := py replaced_map)), Added c' r' t' ∈ Added c r t :: tr ↔ (c' = c ∧ r' = r ∧ t' = t) ∨ Added c' r' t' ∈ tr) as Hc.
  { intros tr. rewrite elem_of_cons. split; [intros [[= -> -> ->]|?]; auto|intros [(-> & -> & ->)|?]; auto]. }
  case_bool_decide; [apply Hc|]. rewrite next_added. apply Hc.
Qed.

Lemma done_loops (q : persist_queue) k r item ret r' o : loops q !! k = Some (r, Some item) → r' ≠ r → (r', o) ∈ loops q → (r', o) ∈ loops (item_done q k r item ret).
Proof using Type.
  intros Hk Hne [j Hj]%list_elem_of_lookup. apply list_elem_of_lookup. exists j. cbn. rewrite list_lookup_insert_ne; [done|]. intros <-. congruence.
Qed.
Lemma done_added (q : persist_queue) k r item ret c r' t : Added c r' t ∈ trace (item_done q k r item ret) ↔ Added c r' t ∈ trace q.
Proof using Type. cbn. rewrite elem_of_cons. split; [by intros [?|?]|by right]. Qed.

Lemma resume_loops (q : persist_queue) k r r' item : loops q !! k = Some (r, None) → (r', Some item) ∈ loops q → (r', Some item) ∈ loops (resume_loop q k r).
Proof using Type.
  intros Hk Hin. apply next_loops. cbn. rewrite (delete_Permutation _ _ _ Hk) in Hin. by apply elem_of_cons in Hin as [?|?].
Qed.

Lemma begin_batch_accounted s i l : accounted s (job_replaced (begin_batch i l)) (concat (job_chunks (begin_batch i l))) l.
Proof using Type.
  intros x Hx. cbn [begin_batch job_replaced job_chunks]. rewrite (proj1 (batch_iter_spec _ 100 ltac:(lia))). destruct (get_already_persisted_events i l !! it_id x) as [v|] eqn:Ev; [left; by eexists|].
  right. right. apply list_elem_of_In, filter_In. rewrite <- list_elem_of_In. split; [done|]. by rewrite Ev.
Qed.

(** The loop of a room awaits one item. *)
Lemma same_item (q : persist_queue) r item item' : queue_ok q → (r, Some item) ∈ loops q → (r, Some item') ∈ loops q → item = item'.
Proof using Type. intros [Hl _] H1 H2. pose proof (awaited_loop q r item Hl H1) as E1. rewrite (awaited_loop q r item' Hl H2) in E1. by injection E1. Qed.

(** An item is done, with a result that accounts for its events. *)
Lemma done_answers (q : persist_queue) k r item ret s :
  queue_ok q → loops q !! k = Some (r, Some item) →
  (∀ c d r l b, (c, Ok d) ∈ answers q → Added c r (PersistEventsTask l b) ∈ trace q → accounted s d [] l) →
  (∀ d l b, ret = Ok d → qi_task item = PersistEventsTask l b → accounted s d [] l) →
  ∀ c d r' l b, (c, Ok d) ∈ answers (item_done q k r item ret) → Added c r' (PersistEventsTask l b) ∈ trace (item_done q k r item ret) → accounted s d [] l.
Proof using Type.
  intros [Hl Hq] Hk Hans Hret c d r' l b Hin Hadd. rewrite done_added in Hadd. cbn in Hin. apply elem_of_app in Hin as [(c' & [= <- <-] & Hc)%list_elem_of_fmap|Hin]; [|by eapply Hans].
  assert (item ∈ awaited q r) as Hi by (rewrite (awaited_loop q r item); [by left|done|by eapply list_elem_of_lookup_2]).
  destruct (io_running _ Hq _ _ _ Hi Hc) as (newer & older & t & Htr & _ & Hold & Hinc).
  destruct (io_unique _ Hq c r t r' (PersistEventsTask l b)) as [_ ->]; [rewrite Htr; apply elem_of_app; right; by right|done|].
  destruct Hinc as (l1 & l2 & Hinc). intros x Hx. apply (Hret d _ b eq_refl Hinc). set_solver.
Qed.

Lemma system_ok_init s0 : rows_named (t_graph (ps_tables s0)) → system_ok (MkSystem new_queue s0 ∅).
Proof using Type. intros Hn. split; cbn; [apply new_persist_queue_ok|done|intros r job Hj; by rewrite lookup_empty in Hj|by intros ? ? ? ? ? ?%elem_of_nil]. Qed.

(** The callback of a room is done: the job is removed, and the others stay. *)
Lemma done_ok y k r item ret s' jobs : system_ok y → loops (sy_queue y) !! k = Some (r, Some item) →
  (∀ i, have (sy_state y) i → have s' i) → (rows_named (t_graph (ps_tables (sy_state y))) → rows_named (t_graph (ps_tables s'))) →
  (∀ d l b, ret = Ok d → qi_task item = PersistEventsTask l b → accounted s' d [] l) →
  (∀ r' job, jobs !! r' = Some job → r' ≠ r ∧ sy_jobs y !! r' = Some job) →
  system_ok (MkSystem (item_done (sy_queue y) k r item ret) s' jobs).
Proof using Type.
  intros [Hq Hr Hj Ha] Hk Hh Hn Hret Hjobs. split; cbn [sy_queue sy_state sy_jobs].
  - destruct Hq as [Hl Hi]. split; [by apply (item_done_ok (sy_queue y) k r item ret)|by apply item_done_items].
  - by apply Hn.
  - intros r' job [Hne Hjob]%Hjobs. destruct (Hj _ _ Hjob) as (it & l & b & Hin & Ht & Hacc). exists it, l, b. split_and!; [by apply done_loops|done|by eapply accounted_grows].
  - apply done_answers; [done|done| |done]. intros c d r' l b Hin Hadd. eapply accounted_grows; [exact Hh|by eapply Ha].
Qed.

Lemma system_step_ok y y' : system_step y y' → system_ok y → system_ok y'.
Proof using Type.
  intros Hs Hy. pose proof Hy as [Hq Hr Hj Ha]. destruct Hs as [c r t Hnew|k r item l b Hk Ht Hno|k r item l b d chunk chunks fuel now s' Hk Ht Hjob Hp|k r item l b d chunk chunks fuel now ex s' Hk Ht Hjob Hp Hf
    |k r item l b d Hk Ht Hjob|k r item now s' Hk Ht Hu|k r item now ex s' Hk Ht Hu Hf|k r Hk]; [| | |destruct Hf as (Htab & _)| | |destruct Hf as (Htab & _)|].
  - split; cbn [sy_queue sy_state sy_jobs]; [by apply add_to_queue_ok|done| |].
    + intros r' job Hjob. destruct (Hj _ _ Hjob) as (it & l & b & Hin & Hrest). exists it, l, b. split; [by apply add_loops|done].
    + intros c' d r' l b. destruct (add_to_queue_ok (sy_queue y) c r t Hq Hnew) as (_ & -> & _). rewrite add_added. intros Hin [(-> & _ & _)|Hadd]; [|by eapply Ha].
      apply (io_answers _ (proj2 Hq)), answered_added in Hin as (r0 & t0 & Hin). by apply Hnew in Hin.
  - split; cbn [sy_queue sy_state sy_jobs]; [done|done| |done]. intros r' job [[<- <-]|[_ Hjob]]%lookup_insert_Some; [|by apply Hj].
    exists item, l, b. split_and!; [by eapply list_elem_of_lookup_2|done|apply begin_batch_accounted].
  - destruct (persist_chunk_grows _ _ _ _ _ _ _ Hp) as (H1 & H2 & H3). split; cbn [sy_queue sy_state sy_jobs]; [done|by apply H3| |].
    + intros r' job [[<- <-]|[_ Hjob']]%lookup_insert_Some.
      * destruct (Hj _ _ Hjob) as (it & l' & b' & Hin & Ht' & Hacc). exists it, l', b'. split_and!; [done|done|]. intros x Hx. cbn in *.
        destruct (Hacc x Hx) as [?|[?|Hc]]; [by left|right; left; by apply H1|]. cbn in Hc. apply elem_of_app in Hc as [Hc|Hc]; [right; left; by apply H2|by right; right].
      * destruct (Hj _ _ Hjob') as (it & l' & b' & Hin & Ht' & Hacc). exists it, l', b'. split_and!; [done|done|by eapply accounted_grows].
    + intros c d' r' l' b' Hin Hadd. eapply accounted_grows; [exact H1|by eapply Ha].
  - apply done_ok; try done; unfold have; rewrite ?Htab; [done|done|]. by intros r' job [? ?]%lookup_delete_Some.
  - apply done_ok; try done; [|by intros r' job [? ?]%lookup_delete_Some]. intros d' l' b' [= <-] Ht'. destruct (Hj _ _ Hjob) as (it & l0 & b0 & Hin & Ht0 & Hacc).
    assert (it = item) as -> by (eapply same_item; [done|done|by eapply list_elem_of_lookup_2]). rewrite Ht' in Ht0. injection Ht0 as <- <-. exact Hacc.
  - pose proof (update_current_state_graph _ _ _ _ Hu) as Hg. apply done_ok; try done; unfold have; rewrite ?Hg; [done|done|by intros d l b _ Ht'; rewrite Ht in Ht'|]. intros r' job Hjob. split; [|done]. intros ->.
    destruct (Hj _ _ Hjob) as (it & l0 & b0 & Hin & Ht0 & _). assert (it = item) as -> by (eapply same_item; [done|done|by eapply list_elem_of_lookup_2]). by rewrite Ht in Ht0.
  - apply done_ok; try done; unfold have; rewrite ?Htab; [done|done|]. intros r' job Hjob. split; [|done]. intros ->.
    destruct (Hj _ _ Hjob) as (it & l0 & b0 & Hin & Ht0 & _). assert (it = item) as -> by (eapply same_item; [done|done|by eapply list_elem_of_lookup_2]). by rewrite Ht in Ht0.
  - split; cbn [sy_queue sy_state sy_jobs]; [by apply resume_loop_ok|done| |].
    + intros r' job Hjob. destruct (Hj _ _ Hjob) as (it & l & b & Hin & Hrest). exists it, l, b. split; [by apply resume_loops|done].
    + intros c d r' l b. destruct (resume_loop_ok (sy_queue y) k r Hq Hk) as (_ & -> & _). unfold resume_loop. rewrite next_added. apply Ha.
Qed.

Lemma system_reachable_ok s0 y : rows_named (t_graph (ps_tables s0)) → rtc system_step (MkSystem new_queue s0 ∅) y → system_ok y.
Proof using Type. intros Hn Hr. revert Hr. generalize (system_ok_init s0 Hn). generalize (MkSystem new_queue s0 ∅). intros y0 Hy0 Hr. induction Hr as [|y1 y2 y3 Hs _ IH]; [done|]. apply IH. by eapply system_step_ok. Qed.

(** A call of [persist_events] is a run of the system, and adds the tasks of its rooms. *)
Lemma persist_events_begin_steps y n l b : (∀ r, new_caller (sy_queue y) (n, r)) →
  let q' := persist_events_begin (sy_queue y) n l b in
  rtc system_step y (MkSystem q' (sy_state y) (sy_jobs y)) ∧ ∀ r evs, (r, evs) ∈ partition_rooms l → Added (n, r) r (PersistEventsTask evs b) ∈ trace q'.
Proof using Type.
  intros Hnew. unfold persist_events_begin. destruct (partition_rooms_spec l) as [Hnd _]. induction (partition_rooms l) as [|[r evs] p IH] using rev_ind; cbn [foldl].
  - split; [by destruct y|by intros r evs ?%elem_of_nil].
  - rewrite foldl_app. cbn [foldl fst snd]. rewrite map_app in Hnd. apply NoDup_app in Hnd as (Hnd & Hdis & _). destruct (IH Hnd) as [Hrun Hin]. set (q1 := foldl _ (sy_queue y) p) in *. split.
    + eapply rtc_r; [exact Hrun|]. apply (sys_add (MkSystem q1 (sy_state y) (sy_jobs y))). intros r' t' Hadd. cbn in Hadd.
      assert (∀ p q r' t', r ∉ map fst p → Added (n, r) r' t' ∈ trace (foldl (λ (q : persist_queue) (p : string * list item), add_to_queue q (n, p.1) p.1 (PersistEventsTask p.2 b)) q p) → Added (n, r) r' t' ∈ trace q) as Hold.
      { clear. induction p as [|[r0 l0] p IH]; intros q r' t' Hni; cbn [foldl fst snd map] in *; [done|]. intros [([= ->] & _)|?]%IH%add_added; [|done|set_solver]. set_solver. }
      apply Hold in Hadd; [by apply Hnew in Hadd|]. intros Hr. apply (Hdis r Hr). by left.
    + intros r' evs' [Hp|[= -> ->]%list_elem_of_singleton]%elem_of_app; apply add_added; [right; by apply Hin|by left].
Qed.

Lemma returned_stored y n l d x ev : system_ok y → x ∈ l → (∀ r evs, (r, evs) ∈ partition_rooms l → ∃ b, Added (n, r) r (PersistEventsTask evs b) ∈ trace (sy_queue y)) →
  (∀ c d i, (c, Ok d) ∈ answers (sy_queue y) → d !! i ≠ Some "") →
  gather_results (sy_queue y) n (map fst (partition_rooms l)) = Some (Ok d) →
  returned_event (t_graph (ps_tables (sy_state y))) (merge_results d) x = Ok ev →
  have (sy_state y) (ev_id ev) ∧ (ev = it_event x ∨ ∃ r d, ((n, r), Ok d) ∈ answers (sy_queue y) ∧ d !! it_id x = Some (ev_id ev)).
Proof using Type.
  intros [Hq Hn _ Ha] Hx Hadd Hne Hg Hret. destruct (gather_results_Ok _ _ _ _ Hg) as [Hrooms Hds]. destruct (merge_results_spec d (it_id x)) as [Hm1 Hm2].
  destruct (partition_rooms_in l x Hx) as (evs & Hp & Hxe). destruct (Hrooms (ev_room_id (it_event x))) as (dr & Hdr & Hans); [apply list_elem_of_fmap; by exists (ev_room_id (it_event x), evs)|].
  destruct (Hadd _ _ Hp) as (b & Hb). unfold returned_event in Hret. destruct (merge_results d !! it_id x) as [v|] eqn:Em.
  - destruct (Hm1 v eq_refl) as (d' & Hd' & Hv). destruct (Hds d' Hd') as (r' & Hr'). rewrite bool_decide_false in Hret by (intros ->; by apply (Hne _ _ _ Hr') in Hv).
    unfold store_get_event in Hret. destruct (g_events _ !! v) as [row|] eqn:Ev; [|done]. destruct (in_rejections _ _); [done|]. injection Hret as <-. rewrite (Hn _ _ Ev). split; [by eexists|]. right. by exists r', d'.
  - injection Hret as <-. split; [|by left]. destruct (Ha _ _ _ _ _ Hans Hb x Hxe) as [Hs|[?|?%elem_of_nil]]; [|done|done].
    destruct (Hm2 dr Hdr Hs) as [? ?]. done.
Qed.

(** C15: What [persist_events] returns is stored.  Whatever other calls and rooms do in
    between, and however the events of a call are merged into batches with others, cut
    into chunks, found to be duplicates or stored already: as soon as the queue has
    answered for every room of the call there is a result, and if it is no error then it
    has one event for each one given, in order, which is in the tables; it is the one that
    was given, or the one that replaces it because it has its transaction id. *)
Theorem persist_events_returns_stored s0 y n l : rows_named (t_graph (ps_tables s0)) → rtc system_step (MkSystem new_queue s0 ∅) y →
  (∀ r evs, (r, evs) ∈ partition_rooms l → ∃ b, Added (n, r) r (PersistEventsTask evs b) ∈ trace (sy_queue y)) →
  (∀ c d i, (c, Ok d) ∈ answers (sy_queue y) → d !! i ≠ Some "") →
  ((∀ r, r ∈ map fst (partition_rooms l) → (n, r) ∈ map fst (answers (sy_queue y))) →
    is_Some (persist_events_end (t_graph (ps_tables (sy_state y))) (sy_queue y) n l)) ∧
  ∀ evs, persist_events_end (t_graph (ps_tables (sy_state y))) (sy_queue y) n l = Some (Ok evs) →
    Forall2 (λ x ev, have (sy_state y) (ev_id ev) ∧
      (ev = it_event x ∨ ∃ r d, ((n, r), Ok d) ∈ answers (sy_queue y) ∧ d !! it_id x = Some (ev_id ev))) l evs.
Proof using Type.
  intros Hn Hr Hadd Hne. pose proof (system_reachable_ok _ _ Hn Hr) as Hy. unfold persist_events_end. split.
  - intros [res Hres]%gather_results_ready. rewrite Hres. by eexists.
  - intros evs. destruct (gather_results _ _ _) as [[d|ex]|] eqn:Eg; cbn [mbind option_bind py_bind]; [|done|done]. intros [= Hf].
    assert (∀ l' acc evs', (∀ x, x ∈ l' → x ∈ l) →
      py_fold (λ acc x, ev ← returned_event (t_graph (ps_tables (sy_state y))) (merge_results d) x; Ok (acc ++ [ev])) acc l' = Ok evs' →
      ∃ new, evs' = acc ++ new ∧ Forall2 (λ x ev, have (sy_state y) (ev_id ev) ∧ (ev = it_event x ∨ ∃ r d, ((n, r), Ok d) ∈ answers (sy_queue y) ∧ d !! it_id x = Some (ev_id ev))) l' new) as Hgen.
    { induction l' as [|x l' IH]; intros acc evs' Hsub Hfold; cbn [py_fold] in Hfold; [injection Hfold as <-; exists []; rewrite app_nil_r; split; [done|constructor]|].
      apply py_bind_Ok in Hfold as (acc' & Hacc & Hfold). apply py_bind_Ok in Hacc as (ev & Hev & [= <-]). destruct (IH _ _ (λ x Hx, Hsub x (list_elem_of_further _ _ _ Hx)) Hfold) as (new & -> & Hnew).
      exists (ev :: new). rewrite <- app_assoc. split; [done|]. constructor; [|done]. eapply returned_stored; [done|apply Hsub; by left|done|done|done|done]. }
    destruct (Hgen l [] evs) as (new & -> & Hnew); done.
Qed.
End System.

(** ** An example: the batch of [PersistExample], through the queue *)
Abbreviation sx_system := (persist_system (K := list string) (S := TreeCache)).
Definition sx_rooms : list (string * list item) := partition_rooms px_batch.
Definition sx_q1 : persist_queue := persist_events_begin new_queue 1 px_batch false.
Definition sx_item : EventPersistQueueItem (C := nat * string) := MkQueueItem (PersistEventsTask px_batch false) [(1%nat, "!r:hs")].
Definition sx_q2 : persist_queue := item_done sx_q1 0 "!r:hs" sx_item (Ok ∅).
Definition sx_end : sx_system := MkSystem sx_q2 px_after ∅.

Lemma sx_reachable : rtc (system_step SQLite "hs") (MkSystem new_queue px_state ∅) sx_end.
Proof.
  apply rtc_l with (MkSystem sx_q1 px_state ∅); [apply (sys_add SQLite "hs" (MkSystem new_queue px_state ∅) (1%nat, "!r:hs") "!r:hs" (PersistEventsTask px_batch false)); intros r t Hin; by apply elem_of_nil in Hin|].
  apply rtc_l with (MkSystem sx_q1 px_state {["!r:hs" := MkJob ∅ [px_batch]]}).
  { assert (begin_batch (t_info (ps_tables px_state)) px_batch = MkJob ∅ [px_batch]) as <- by (vm_compute; reflexivity). by apply (sys_begin SQLite "hs" (MkSystem sx_q1 px_state ∅) 0 "!r:hs" sx_item px_batch false). }
  apply rtc_l with (MkSystem sx_q1 px_after {["!r:hs" := MkJob ∅ []]}).
  { assert (<["!r:hs" := MkJob ∅ []]> ({["!r:hs" := MkJob ∅ [px_batch]]} : gmap string batch_job) = {["!r:hs" := MkJob ∅ []]}) as <- by (vm_compute; reflexivity).
    pose proof (sys_chunk SQLite "hs" (MkSystem sx_q1 px_state {["!r:hs" := MkJob ∅ [px_batch]]}) 0 "!r:hs" sx_item px_batch false ∅ px_batch [] 10 0 px_after) as Hs.
    cbn [sy_queue sy_state sy_jobs] in Hs. apply Hs; [done|done|by vm_compute|exact px_after_Ok]. }
  apply rtc_once. assert (delete "!r:hs" ({["!r:hs" := MkJob ∅ []]} : gmap string batch_job) = ∅) as He by (vm_compute; reflexivity). unfold sx_end. rewrite <- He.
  pose proof (sys_batch_end SQLite "hs" (MkSystem sx_q1 px_after {["!r:hs" := MkJob ∅ []]}) 0 "!r:hs" sx_item px_batch false ∅) as Hs.
  cbn [sy_queue sy_state sy_jobs] in Hs. apply Hs; [done|done|by vm_compute].
Qed.

Lemma persist_events_returns_stored_witness :
  persist_events_end (t_graph (ps_tables (sy_state sx_end))) (sy_queue sx_end) 1 px_batch = Some (Ok [bob_ban]) ∧ have (sy_state sx_end) "$ban".
Proof.
  assert (persist_events_end (t_graph (ps_tables (sy_state sx_end))) (sy_queue sx_end) 1 px_batch = Some (Ok [bob_ban])) as He by (vm_compute; reflexivity). split; [exact He|].
  destruct (persist_events_returns_stored SQLite "hs" px_state sx_end 1 px_batch) as [_ Hres].
  - apply (bool_decide_unpack (map_Forall (λ i row, ev_id (er_event row) = i) (g_events (t_graph (ps_tables px_state))))). vm_compute. exact I.
  - exact sx_reachable.
  - intros r evs [[= -> ->]|?%elem_of_nil]%elem_of_cons; [|done]. exists false. vm_compute. by repeat constructor.
  - intros c d i [[= -> ->]|?%elem_of_nil]%elem_of_cons; [by rewrite lookup_empty|done].
  - apply Hres in He. inversion He as [|? ? ? ? [Hh _] _]; subst. exact Hh.
Defined.
