(* ===== verification/DeferredCache.v ===== *)
(** * The class [DeferredCache] of [synapse/util/caches/deferred_cache.py], and the wrappers
    of [descriptors.py] around cached methods

    An LRU cache of values, with a second cache of those that are being loaded.  Entries
    of the second are objects, shared by several keys when they are loaded together: they
    are kept in a heap, and the stores have their numbers.  Callbacks are numbers too; the
    ones that are run are listed.  A deferred is known by the entry and the key it is for.
    Metrics and log contexts are left out, and so is the check for threads. *)

From S2P Require Import Prelude LinkedList CacheStore LruCache TreeCache.

Open Scope Z_scope.

(** [items()] of the store of the loads, with the law for it *)
Class StoreItems (K S : Type) : Type := { store_items : S → list (K * nat) }.
Class StoreItemsLaws (K S : Type) `{Countable K} `{!CacheStore K S} `{!CacheStoreLaws K S} `{!StoreItems K S} : Prop := {
  store_items_law : ∀ s, store_ok s → store_items s ≡ₚ map_to_list (store_map s);
}.
#[export] Instance dict_items {K} `{Countable K} : StoreItems K (gmap K nat) := { store_items := map_to_list }.
#[export] Instance dict_items_laws {K} `{Countable K} : StoreItemsLaws K (gmap K nat).
Proof. split. done. Qed.
#[export] Instance tree_store_items : StoreItems (list string) TreeCache := { store_items := tree_items }.

Section DeferredCache.
Context {K V S : Type} `{Countable K} `{EqDecision V} `{!CacheStore K S} `{!StoreItems K S}.
Context (size_callback : option (V → Z)).

Abbreviation lru := (LruCache (K := K) (V := V) (S := S)).

(** [CacheEntrySingle] and [CacheMultipleEntries] *)
Inductive DeferredCacheEntry : Type :=
  | CacheEntrySingle (callbacks : list nat)
  | CacheMultipleEntries (callbacks : gmap K (list nat)) (global_callbacks : list nat).

Definition add_invalidation_callback (entry : DeferredCacheEntry) (key : K) (callback : option nat) : DeferredCacheEntry :=
  match callback with
  | None => entry
  | Some cb =>
      match entry with
      | CacheEntrySingle cbs => CacheEntrySingle (add_new cbs cb)
      | CacheMultipleEntries m g => CacheMultipleEntries (<[key := add_new (default [] (m !! key)) cb]> m) g
      end
  end.
Definition get_invalidation_callbacks (entry : DeferredCacheEntry) (key : K) : list nat :=
  match entry with
  | CacheEntrySingle cbs => cbs
  | CacheMultipleEntries m g => foldl add_new (default [] (m !! key)) g
  end.

Record DeferredCache : Type := MkDeferred {
  df_cache : lru;
  df_pending : S;
  df_entries : gmap nat DeferredCacheEntry;
  df_next : nat;
  df_called : list nat;
}.

Definition new_deferred_cache (max_entries : Z) : py DeferredCache :=
  c ← new_lru_cache max_entries; Ok (MkDeferred c store_empty ∅ 0 []).

Definition the_cache_entry (d : DeferredCache) (e : nat) : py DeferredCacheEntry :=
  match df_entries d !! e with Some entry => Ok entry | None => Raise AttributeError end.
Definition with_cache_entry (d : DeferredCache) (e : nat) (entry : DeferredCacheEntry) : DeferredCache :=
  MkDeferred (df_cache d) (df_pending d) (<[e := entry]> (df_entries d)) (df_next d) (df_called d).
Definition with_lru (d : DeferredCache) (c : lru) : DeferredCache := MkDeferred c (df_pending d) (df_entries d) (df_next d) (df_called d).
Definition with_pending (d : DeferredCache) (p : S) : DeferredCache := MkDeferred (df_cache d) p (df_entries d) (df_next d) (df_called d).
Definition call_all (d : DeferredCache) (cbs : list nat) : DeferredCache :=
  MkDeferred (df_cache d) (df_pending d) (df_entries d) (df_next d) (df_called d ++ cbs).

(** A deferred for a key: one that is done, or that of an entry *)
Inductive deferred_lookup : Type :=
  | Succeeded (value : V)
  | Loading (entry : nat).

(** [get] *)
Definition deferred_get (d : DeferredCache) (key : K) (callback : option nat) : py (deferred_lookup * DeferredCache) :=
  val ← store_get (df_pending d) key;
  match val with
  | Some e =>
      entry ← the_cache_entry d e;
      Ok (Loading e, with_cache_entry d e (add_invalidation_callback entry key callback))
  | None =>
      '(val2, c) ← cache_get (df_cache d) key (option_list callback) true;
      match val2 with
      | None => Raise KeyError
      | Some v => Ok (Succeeded v, with_lru d c)
      end
  end.

(** [get_bulk]: one key, and all of them *)
Record bulk : Type := MkBulk { bk_cached : gmap K V; bk_pending : list (K * nat); bk_missing : list K }.
Definition get_bulk_key (callback : option nat) (s : bulk * DeferredCache) (key : K) : py (bulk * DeferredCache) :=
  let '(b, d) := s in
  '(immediate_value, c) ← cache_get (df_cache d) key (option_list callback) true;
  let d := with_lru d c in
  match immediate_value with
  | Some v => Ok (MkBulk (<[key := v]> (bk_cached b)) (bk_pending b) (bk_missing b), d)
  | None =>
      pending_value ← store_get (df_pending d) key;
      match pending_value with
      | Some e =>
          entry ← the_cache_entry d e;
          Ok (MkBulk (bk_cached b) (bk_pending b ++ [(key, e)]) (bk_missing b), with_cache_entry d e (add_invalidation_callback entry key callback))
      | None => Ok (MkBulk (bk_cached b) (bk_pending b) (bk_missing b ++ [key]), d)
      end
  end.
Definition get_bulk (d : DeferredCache) (keys : list K) (callback : option nat) : py (bulk * DeferredCache) :=
  py_fold (get_bulk_key callback) (MkBulk ∅ [] [], d) keys.

(** [get_immediate] *)
Definition get_immediate (d : DeferredCache) (key : K) : py (option V * DeferredCache) :=
  '(v, c) ← cache_get (df_cache d) key [] true; Ok (v, with_lru d c).

(** A new entry object *)
Definition new_cache_entry (d : DeferredCache) (entry : DeferredCacheEntry) : nat * DeferredCache :=
  (df_next d, MkDeferred (df_cache d) (df_pending d) (<[df_next d := entry]> (df_entries d)) (Datatypes.S (df_next d)) (df_called d)).

(** [set]: the entry, whose deferred is returned *)
Definition deferred_set (d : DeferredCache) (key : K) (callback : option nat) : py (nat * DeferredCache) :=
  '(_, p) ← store_pop (df_pending d) key;
  let '(e, d) := new_cache_entry (with_pending d p) (add_invalidation_callback (CacheEntrySingle []) key callback) in
  p ← store_set (df_pending d) key e;
  Ok (e, with_pending d p).

(** [start_bulk_input] *)
Definition start_bulk_input (d : DeferredCache) (keys : list K) (callback : option nat) : py (nat * DeferredCache) :=
  let '(e, d) := new_cache_entry d (CacheMultipleEntries ∅ (option_list callback)) in
  p ← py_fold (λ p key, store_set p key e) (df_pending d) keys;
  Ok (e, with_pending d p).

(** The beginning of both callbacks: true if the entry is still that of the key *)
Definition take_pending (d : DeferredCache) (e : nat) (key : K) : py (bool * DeferredCache) :=
  '(current_entry, p) ← store_pop (df_pending d) key;
  match current_entry with
  | [] => Ok (false, with_pending d p)
  | current :: _ =>
      if bool_decide (current = e) then Ok (true, with_pending d p)
      else p ← store_set p key current; Ok (false, with_pending d p)
  end.

(** [_completed_callback] and [_error_callback] *)
Definition completed_callback (d : DeferredCache) (value : V) (e : nat) (key : K) : py DeferredCache :=
  '(is_current, d) ← take_pending d e key;
  if is_current : bool then
    entry ← the_cache_entry d e;
    c ← cache_set size_callback None (df_cache d) key value (get_invalidation_callbacks entry key);
    Ok (with_lru d c)
  else Ok d.
Definition error_callback (d : DeferredCache) (e : nat) (key : K) : py DeferredCache :=
  '(is_current, d) ← take_pending d e key;
  if is_current : bool then
    entry ← the_cache_entry d e;
    Ok (call_all d (get_invalidation_callbacks entry key))
  else Ok d.

(** [complete_bulk] and [error_bulk] of the entry *)
Definition complete_bulk (d : DeferredCache) (e : nat) (result : list (K * V)) : py DeferredCache :=
  py_fold (λ d x, completed_callback d x.2 e x.1) d result.
Definition error_bulk (d : DeferredCache) (e : nat) (keys : list K) : py DeferredCache :=
  py_fold (λ d key, error_callback d e key) d keys.

(** [prefill] *)
Definition prefill (d : DeferredCache) (key : K) (value : V) (callback : option nat) : py DeferredCache :=
  c ← cache_set size_callback None (df_cache d) key value (option_list callback);
  '(_, p) ← store_pop (df_pending d) key;
  Ok (with_pending (with_lru d c) p).

(** [invalidate] and [invalidate_all] *)
Definition invalidate (d : DeferredCache) (key : K) : py DeferredCache :=
  c ← cache_del_multi size_callback None (df_cache d) key;
  '(popped, p) ← store_pop (df_pending d) key;
  py_fold (λ d e, entry ← the_cache_entry d e; Ok (call_all d (get_invalidation_callbacks entry key))) (with_pending (with_lru d c) p) popped.
Definition invalidate_all (d : DeferredCache) : py DeferredCache :=
  c ← cache_clear size_callback (df_cache d);
  d ← py_fold (λ d x, entry ← the_cache_entry d x.2; Ok (call_all d (get_invalidation_callbacks entry x.1))) (with_lru d c) (store_items (df_pending d));
  Ok (with_pending d store_empty).

(** ** Cached methods *)

(** [_wrapped] of [DeferredCacheDescriptor]: what is cached, or a new load *)
Inductive call_result : Type :=
  | Cached (r : deferred_lookup)
  | StartedLoad (entry : nat).
Definition cached_call (d : DeferredCache) (key : K) (on_invalidate : option nat) : py (call_result * DeferredCache) :=
  match deferred_get d key on_invalidate with
  | Raise KeyError => '(e, d) ← deferred_set d key on_invalidate; Ok (StartedLoad e, d)
  | Raise ex => Raise ex
  | Ok (r, d) => Ok (Cached r, d)
  end.

(** [wrapped] of [DeferredCacheListDescriptor], until it waits: what was found, and the
    entry of the load of the rest, if there is one *)
Definition cached_list_call (d : DeferredCache) (keys : list K) (on_invalidate : option nat) : py (bulk * option nat * DeferredCache) :=
  '(b, d) ← get_bulk d keys on_invalidate;
  match bk_missing b with
  | [] => Ok (b, None, d)
  | missing => '(e, d) ← start_bulk_input d missing on_invalidate; Ok (b, Some e, d)
  end.

(** [complete_all]: the results of the load; no result for a key counts as [None] *)
Definition missing_results (none : V) (missing : list K) (res : gmap K V) : list (K * V) := map (λ key, (key, default none (res !! key))) missing.

(** The result of [wrapped]: the values that were there, those of the loads of others, or
    the error of one of these, and those of the own load; [errback_all] does not return
    the failure of this one *)
Definition list_results (none : V) (b : bulk) (others : K → py V) (own : py (gmap K V)) : py (gmap K V) :=
  results ← py_fold (λ results x, v ← others x.1; Ok (<[x.1 := v]> results)) (bk_cached b) (bk_pending b);
  Ok (match own with
      | Ok res => foldl (λ results x, <[x.1 := x.2]> results) results (missing_results none (bk_missing b) res)
      | Raise _ => results
      end).
End DeferredCache.

(** ** Corner cases *)

(** A load that is replaced by another is dropped without its callbacks. *)
Example replaced_load :
  (d ← new_deferred_cache (K := nat) (V := nat) (S := gmap nat nat) 10; '(_, d) ← deferred_set d 5%nat (Some 1%nat); '(_, d) ← deferred_set d 5%nat (Some 2%nat);
   d ← completed_callback None d 7%nat 1%nat 5%nat; Ok (df_called d, lru_called (df_cache d))) = Ok ([], []).
Proof. vm_compute. reflexivity. Qed.

(** Invalidating a part of a key does not run the callbacks for the keys of a load of
    several keys. *)
Example part_of_bulk :
  (d ← new_deferred_cache (K := list string) (V := nat) (S := TreeCache) 10; '(_, d) ← start_bulk_input d [["a"; "b"]] None; '(_, d) ← deferred_get d ["a"; "b"] (Some 7%nat);
   d1 ← invalidate None d ["a"]; d2 ← invalidate None d ["a"; "b"]; Ok (df_called d1, df_called d2)) = Ok ([], [7%nat]).
Proof. vm_compute. reflexivity. Qed.

(** The error of a load of several keys is lost: the keys are missing from the result. *)
Example bulk_error_lost (ex : exn) :
  (d ← new_deferred_cache (K := nat) (V := nat) (S := gmap nat nat) 10; '(b, _, d) ← cached_list_call d [1%nat; 2%nat] None;
   list_results 0%nat b (λ _, Raise ex) (Raise ex)) = Ok ∅.
Proof. vm_compute. reflexivity. Qed.
