(* ===== verification/DeferredCacheFacts.v ===== *)
(** * What a [DeferredCache] holds

    Every operation returns, and what the cache holds after it is described by two
    predicates: one for the values in the LRU cache, one for the loads that are pending. *)

From S2P Require Import Prelude LinkedList CacheStore LruCache LruCacheFacts TreeCache DeferredCache.

Open Scope Z_scope.

(** ** Entries of the LRU cache *)

Section Holds.
Context {K V : Type} `{EqDecision K} `{EqDecision V} (size_callback : option (V → Z)).

Definition holds (l : list (lru_entry (K := K) (V := V))) (k : K) (v : V) : Prop := ∃ cs, Entry k v cs ∈ l.

Lemma holds_find l k e : spec_find l k = Some e → holds l k (e_value e).
Proof using Type.
  unfold spec_find. intros He%head_Some_elem_of. apply list_elem_of_In, filter_In in He as [Hin Hk]. apply bool_decide_eq_true in Hk. subst k. exists (e_callbacks e). apply list_elem_of_In. by destruct e.
Qed.

Lemma holds_without l k k' v : holds (spec_without l k) k' v ↔ holds l k' v ∧ k' ≠ k.
Proof using Type.
  unfold holds, spec_without. split.
  - intros (cs & Hin%list_elem_of_In). apply filter_In in Hin as [Hin Hk]. cbn in Hk. apply negb_true_iff, bool_decide_eq_false in Hk. split; [exists cs; by apply list_elem_of_In|done].
  - intros [(cs & Hin%list_elem_of_In) Hne]. exists cs. apply list_elem_of_In, filter_In. split; [done|]. cbn. by rewrite bool_decide_false.
Qed.

Lemma holds_get l k cs u k' v : holds (spec_get l k cs u) k' v → holds l k' v.
Proof using Type.
  unfold spec_get. destruct (spec_find l k) as [e|] eqn:Ef; [|done]. apply holds_find in Ef. destruct u.
  - intros (cs' & [[= -> -> _]|Hin]%elem_of_cons); [done|]. apply (holds_without l k k' v). by exists cs'.
  - intros (cs' & (x & Hx & Hin)%list_elem_of_fmap). case_decide as E; [injection Hx as -> -> _; done|]. subst x. by exists cs'.
Qed.

Lemma holds_set max l k v cs k' v' : holds (spec_set size_callback max l k v cs).1 k' v' → (k' = k ∧ v' = v) ∨ (k' ≠ k ∧ holds l k' v').
Proof using Type.
  unfold spec_set. set (l0 := Entry k v _ :: spec_without l k). intros Hh. assert (holds l0 k' v') as (cs' & Hin).
  { revert Hh. unfold spec_evict. destruct (spec_evict_rev _ _ (rev l0)) as [kept called] eqn:Ev. cbn. intros (cs' & Hin). exists cs'. apply list_elem_of_In in Hin. apply in_rev in Hin.
    assert (∀ (r : list (lru_entry (K := K) (V := V))) kept called, spec_evict_rev size_callback max r = (kept, called) → ∀ x, In x kept → In x r) as Hsub.
    { clear. induction r as [|e r IH]; intros kept called; cbn [spec_evict_rev]; [by intros [= <- <-]|]. destruct (max <? _); [|by intros [= <- <-]].
      destruct (spec_evict_rev _ _ r) as [kept' called'] eqn:E. intros [= <- <-] x Hx. right. by eapply IH. }
    apply list_elem_of_In. rewrite in_rev. by eapply Hsub. }
  apply elem_of_cons in Hin as [[= -> -> _]|Hin]; [by left|]. right. assert (holds (spec_without l k) k' v') as []%holds_without by by exists cs'. done.
Qed.

Lemma holds_remove l (p : K → bool) k v : holds (spec_remove l (λ e, p (e_key e))) k v → holds l k v ∧ p k = false.
Proof using Type. intros (cs & Hin%list_elem_of_In). apply filter_In in Hin as [Hin Hp]. cbn in Hp. apply negb_true_iff in Hp. split; [exists cs; by apply list_elem_of_In|done]. Qed.
End Holds.

Definition tree_items_laws (d : nat) : StoreItemsLaws (list string) TreeCache (CacheStoreLaws0 := tree_store_laws d).
Proof. split. intros s [Hwf _]. destruct (tree_map_items d s Hwf) as [Hm _]. symmetry. exact Hm. Qed.

(** ** The operations *)

Section Facts.
Context {K V S : Type} `{Countable K} `{EqDecision V} `{!CacheStore K S} `{!CacheStoreLaws K S} `{!StoreItems K S} `{!StoreItemsLaws K S}.
Context (size_callback : option (V → Z)).
Abbreviation cache := (DeferredCache (K := K) (V := V) (S := S)).
Implicit Types d : cache.

Definition pending_of d : gmap K nat := store_map (df_pending d).

(** All values in the cache satisfy [P], and all loads [Q]. *)
Record deferred_ok (P : K → V → Prop) (Q : K → nat → Prop) d : Prop := {
  do_lru : ∃ zs, lru_rep size_callback None (df_cache d) zs ∧ ∀ k v, holds (entries_of zs) k v → P k v;
  do_size : 0 ≤ max_size (df_cache d);
  do_store : store_ok (df_pending d);
  do_pending : ∀ k e, pending_of d !! k = Some e → Q k e;
  do_entries : ∀ k e, pending_of d !! k = Some e → is_Some (df_entries d !! e);
  do_fresh : ∀ e, is_Some (df_entries d !! e) → (e < df_next d)%nat;
}.

Lemma deferred_ok_weaken (P P' : K → V → Prop) (Q Q' : K → nat → Prop) d :
  (∀ k v, P k v → P' k v) → (∀ k e, Q k e → Q' k e) → deferred_ok P Q d → deferred_ok P' Q' d.
Proof using Type. intros HP HQ [(zs & Hr & Hh) ? ? ? ? ?]. split; try done; [|by auto]. exists zs. split; [done|]. intros k v Hv. by apply HP, Hh. Qed.

Lemma the_cache_entry_ok d k e P Q : deferred_ok P Q d → pending_of d !! k = Some e → ∃ entry, the_cache_entry d e = Ok entry.
Proof using Type. intros Hd He. destruct (do_entries _ _ _ Hd k e He) as [entry E]. exists entry. unfold the_cache_entry. by rewrite E. Qed.

Lemma with_cache_entry_ok d e entry P Q : is_Some (df_entries d !! e) → deferred_ok P Q d → deferred_ok P Q (with_cache_entry d e entry).
Proof using Type.
  intros He [H1 H2 H3 H4 H5 H6]. split; try done; cbn.
  - intros k e' Hk. destruct (decide (e' = e)) as [->|Hne]; [by rewrite lookup_insert_eq; eexists|]. rewrite lookup_insert_ne by done. by apply (H5 k).
  - intros e' Hs. destruct (decide (e' = e)) as [->|Hne]; [by apply H6|]. rewrite lookup_insert_ne in Hs by done. by apply H6.
Qed.

Lemma lru_get_ok d k cs u P Q : deferred_ok P Q d → full_key k →
  ∃ v c, cache_get (df_cache d) k cs u = Ok (v, c) ∧ deferred_ok P Q (with_lru d c) ∧ ∀ v', v = Some v' → P k v'.
Proof using Type.
  intros [(zs & Hr & Hh) H2 H3 H4 H5 H6] Hk. destruct (get_spec size_callback None (df_cache d) zs k cs u Hr Hk) as (c & zs' & Hg & Hr' & He & Hm & _).
  exists (e_value <$> spec_find (entries_of zs) k), c. split_and!; [done| |].
  - split; try done; [|cbn; by rewrite Hm]. exists zs'. split; [done|]. intros k' v'. rewrite He. intros Hv. by apply Hh, (holds_get _ k cs u).
  - intros v' Hv. destruct (spec_find _ k) as [en|] eqn:Ef; [|done]. injection Hv as <-. by apply Hh, holds_find.
Qed.

(** A lookup, of one key *)
Lemma deferred_get_ok d k cb P Q : deferred_ok P Q d → full_key k →
  (∃ r d', deferred_get d k cb = Ok (r, d') ∧ deferred_ok P Q d' ∧ df_next d' = df_next d ∧ match r with Succeeded v => P k v | Loading e => Q k e end) ∨
  (deferred_get d k cb = Raise KeyError).
Proof using Type.
  intros Hd Hk. unfold deferred_get. rewrite store_get_law by (done || apply Hd). cbn [mbind py_bind]. change (store_map (df_pending d)) with (pending_of d). destruct (pending_of d !! k) as [e|] eqn:Ee.
  - left. destruct (the_cache_entry_ok d k e P Q Hd Ee) as (entry & ->). cbn [mbind py_bind]. eexists _, _. split_and!; [done| |done|by apply (do_pending _ _ _ Hd)].
    apply with_cache_entry_ok; [by eapply (do_entries _ _ _ Hd)|done].
  - destruct (lru_get_ok d k (option_list cb) true P Q Hd Hk) as (v & c & -> & Hd' & Hv). cbn [mbind py_bind]. destruct v as [v|]; [left|by right]. eexists _, _. split_and!; [done|done|done|by apply Hv].
Qed.

(** A lookup of several keys *)
Definition bulk_ok (P : K → V → Prop) (Q : K → nat → Prop) d (keys : list K) (b : bulk (K := K) (V := V)) : Prop :=
  (∀ k v, bk_cached b !! k = Some v → P k v) ∧ (∀ k e, (k, e) ∈ bk_pending b → Q k e) ∧ (∀ k, k ∈ bk_missing b → pending_of d !! k = None) ∧ sublist (bk_missing b) keys.

Lemma get_bulk_ok d keys cb P Q : deferred_ok P Q d → Forall full_key keys →
  ∃ b d', get_bulk d keys cb = Ok (b, d') ∧ deferred_ok P Q d' ∧ df_next d' = df_next d ∧ pending_of d' = pending_of d ∧ bulk_ok P Q d' keys b.
Proof using Type.
  intros Hd Hk. unfold get_bulk. assert (∀ keys done b d1, deferred_ok P Q d1 → Forall full_key keys → bulk_ok P Q d1 done b →
    ∃ b' d', py_fold (get_bulk_key cb) (b, d1) keys = Ok (b', d') ∧ deferred_ok P Q d' ∧ df_next d' = df_next d1 ∧ pending_of d' = pending_of d1 ∧ bulk_ok P Q d' (done ++ keys) b') as Hgen.
  { clear keys Hk d Hd. induction keys as [|k keys IH]; intros dn b d1 Hd Hks Hb; [exists b, d1; rewrite app_nil_r; by split_and!|]. apply Forall_cons in Hks as [Hk Hks]. cbn [py_fold get_bulk_key].
    destruct Hb as (B1 & B2 & B3 & B4). destruct (lru_get_ok d1 k (option_list cb) true P Q Hd Hk) as (v & c & -> & Hd' & Hv). cbn [mbind py_bind].
    assert (∃ b1 d2, match v with
      | Some v => Ok (MkBulk (<[k := v]> (bk_cached b)) (bk_pending b) (bk_missing b), with_lru d1 c)
      | None => pending_value ← store_get (df_pending (with_lru d1 c)) k;
          match pending_value with
          | Some e => entry ← the_cache_entry (with_lru d1 c) e;
              Ok (MkBulk (bk_cached b) (bk_pending b ++ [(k, e)]) (bk_missing b), with_cache_entry (with_lru d1 c) e (add_invalidation_callback entry k cb))
          | None => Ok (MkBulk (bk_cached b) (bk_pending b) (bk_missing b ++ [k]), with_lru d1 c)
          end
      end = Ok (b1, d2) ∧ deferred_ok P Q d2 ∧ df_next d2 = df_next d1 ∧ pending_of d2 = pending_of d1 ∧ bulk_ok P Q d2 (dn ++ [k]) b1) as (b1 & d2 & -> & Hd2 & Hn2 & Hp2 & Hb2).
    { destruct v as [v|].
      - eexists _, _. split_and!; [done|done|done|done|]. split_and!; cbn; [|done|done|by apply sublist_inserts_r].
        intros k' v' [[<- <-]|[_ Hin]]%lookup_insert_Some; [by apply Hv|by apply B1].
      - cbn [with_lru df_pending]. rewrite store_get_law by (done || apply Hd). cbn [mbind py_bind]. change (store_map (df_pending d1)) with (pending_of d1). destruct (pending_of d1 !! k) as [e|] eqn:Ee.
        + destruct (the_cache_entry_ok (with_lru d1 c) k e P Q Hd' Ee) as (entry & ->). cbn [mbind py_bind]. eexists _, _. split_and!; [done|apply with_cache_entry_ok; [by eapply (do_entries _ _ _ Hd)|done]|done|done|].
          split_and!; cbn; [done| |done|by apply sublist_inserts_r]. intros k' e' [?|[= -> ->]%list_elem_of_singleton]%elem_of_app; [by apply B2|by apply (do_pending _ _ _ Hd)].
        + eexists _, _. split_and!; [done|done|done|done|]. split_and!; cbn; [done|done| |by apply sublist_app]. intros k' [?| ->%list_elem_of_singleton]%elem_of_app; [by apply B3|done]. }
    cbn [mbind py_bind]. destruct (IH (dn ++ [k]) b1 d2 Hd2 Hks Hb2) as (b' & d' & -> & Hd3 & Hn3 & Hp3 & Hb3). exists b', d'. rewrite <- app_assoc in Hb3. split_and!; [done|done|congruence|congruence|exact Hb3]. }
  destruct (Hgen keys [] (MkBulk ∅ [] []) d Hd Hk) as (b & d' & -> & Hd' & Hn & Hp & Hb); [|by exists b, d'].
  split_and!; cbn; [by intros k v Hv; rewrite lookup_empty in Hv|by intros k e ?%elem_of_nil|by intros k ?%elem_of_nil|done].
Qed.

(** A new load, of one key *)
Lemma deferred_set_ok d k cb P Q : deferred_ok P Q d → full_key k →
  ∃ d', deferred_set d k cb = Ok (df_next d, d') ∧ deferred_ok P (λ k' e', (k' = k ∧ e' = df_next d) ∨ (k' ≠ k ∧ Q k' e')) d' ∧ df_next d' = Datatypes.S (df_next d).
Proof using Type.
  intros [H1 H2 H3 H4 H5 H6] Hk. unfold deferred_set. destruct (store_pop_full (df_pending d) k H3 Hk) as (ns & p & -> & Hp & Hpm & _). cbn [mbind py_bind new_cache_entry with_pending df_pending df_next df_entries df_cache df_called].
  destruct (store_set_law p k (df_next d) Hp Hk) as (p' & -> & Hp' & Hpm'); [by rewrite Hpm, lookup_delete_eq|]. cbn [mbind py_bind]. eexists. split_and!; [done| |done].
  assert (∀ k' e', store_map p' !! k' = Some e' → (k' = k ∧ e' = df_next d) ∨ (k' ≠ k ∧ pending_of d !! k' = Some e')) as Hin.
  { intros k' e'. rewrite Hpm', Hpm, lookup_insert_Some, lookup_delete_Some. intros [[<- <-]|[? [? ?]]]; [by left|right; by split]. }
  split; cbn; try done.
  - intros k' e' [?|[? He]]%Hin; [by left|right; split; [done|by apply H4]].
  - intros k' e' [[-> ->]|[_ He]]%Hin; [by rewrite lookup_insert_eq; eexists|]. apply H5 in He. destruct (decide (e' = df_next d)) as [->|Hne]; [by rewrite lookup_insert_eq; eexists|by rewrite lookup_insert_ne].
  - intros e' Hs. destruct (decide (e' = df_next d)) as [->|Hne]; [lia|]. rewrite lookup_insert_ne in Hs by done. apply H6 in Hs. lia.
Qed.

(** A new load, of several keys *)
Lemma start_bulk_ok d keys cb P Q : deferred_ok P Q d → Forall full_key keys → NoDup keys → (∀ k, k ∈ keys → pending_of d !! k = None) →
  ∃ d', start_bulk_input d keys cb = Ok (df_next d, d') ∧ deferred_ok P (λ k' e', (k' ∈ keys ∧ e' = df_next d) ∨ Q k' e') d' ∧ df_next d' = Datatypes.S (df_next d).
Proof using Type.
  intros [H1 H2 H3 H4 H5 H6] Hk Hnd Habs. unfold start_bulk_input. cbn [new_cache_entry df_pending].
  assert (∀ keys p, store_ok p → Forall full_key keys → NoDup keys → (∀ k, k ∈ keys → store_map p !! k = None) →
    ∃ p', py_fold (λ p key, store_set p key (df_next d)) p keys = Ok p' ∧ store_ok p' ∧ ∀ k e, store_map p' !! k = Some e → (k ∈ keys ∧ e = df_next d) ∨ store_map p !! k = Some e) as Hgen.
  { clear -CacheStoreLaws0. induction keys as [|k keys IH]; intros p Hp Hf Hnd Habs; [exists p; split_and!; [done|done|by right]|]. apply Forall_cons in Hf as [Hk Hf]. apply NoDup_cons in Hnd as [Hni Hnd]. cbn [py_fold].
    destruct (store_set_law p k (df_next d) Hp Hk) as (p1 & -> & Hp1 & Hm1); [apply Habs; by left|]. cbn [mbind py_bind]. destruct (IH p1 Hp1 Hf Hnd) as (p' & -> & Hp' & Hm').
    { intros k' Hin. rewrite Hm1, lookup_insert_ne by (intros <-; done). apply Habs. by right. }
    exists p'. split_and!; [done|done|]. intros k' e' [[? ?]|Hin]%Hm'; [left; split; [by right|done]|]. rewrite Hm1 in Hin. apply lookup_insert_Some in Hin as [[<- <-]|[_ Hin]]; [left; split; [by left|done]|by right]. }
  destruct (Hgen keys (df_pending d) H3 Hk Hnd Habs) as (p' & -> & Hp' & Hm'). cbn [mbind py_bind]. eexists. split_and!; [done| |done]. split; cbn; try done.
  - intros k' e' [?|He]%Hm'; [by left|right; by apply H4].
  - intros k' e' [[_ ->]|He]%Hm'; [by rewrite lookup_insert_eq; eexists|]. apply H5 in He. destruct (decide (e' = df_next d)) as [->|Hne]; [by rewrite lookup_insert_eq; eexists|by rewrite lookup_insert_ne].
  - intros e' Hs. destruct (decide (e' = df_next d)) as [->|Hne]; [lia|]. rewrite lookup_insert_ne in Hs by done. apply H6 in Hs. lia.
Qed.

(** Only the load that is pending for the key is taken. *)
Lemma take_pending_ok d e k P Q : deferred_ok P Q d → full_key k →
  ∃ b d', take_pending d e k = Ok (b, d') ∧ deferred_ok P Q d' ∧ df_next d' = df_next d ∧ df_entries d' = df_entries d ∧ (b = true → Q k e ∧ is_Some (df_entries d !! e)).
Proof using Type.
  intros Hd Hk. pose proof Hd as [H1 H2 H3 H4 H5 H6]. unfold take_pending. destruct (store_pop_full (df_pending d) k H3 Hk) as (ns & p & -> & Hp & Hpm & ->). cbn [mbind py_bind].
  assert (deferred_ok P Q (with_pending d p)) as Hd'.
  { split; try done; cbn; intros k' e'; unfold pending_of; cbn; rewrite Hpm, lookup_delete_Some; intros [_ ?]; [by apply H4|by apply (H5 k')]. }
  destruct (store_map (df_pending d) !! k) as [cur|] eqn:Ec; [|exists false, (with_pending d p); by split_and!]. cbn. case_bool_decide as Eb.
  - subst cur. exists true, (with_pending d p). split_and!; try done. intros _. split; [by apply H4|by apply (H5 k)].
  - destruct (store_set_law p k cur Hp Hk) as (p' & -> & Hp' & Hm'); [by rewrite Hpm, lookup_delete_eq|]. cbn [mbind py_bind]. eexists false, _. split_and!; [done| |done|done|done].
    assert (store_map p' = store_map (df_pending d)) as Hsame by (by rewrite Hm', Hpm, insert_delete_id).
    split; try done; cbn; intros k' e'; unfold pending_of; cbn; rewrite Hsame; [by apply H4|by apply (H5 k')].
Qed.

(** A load is done: its value is kept if it is still the one for the key. *)
Lemma completed_ok d v e k P Q : deferred_ok P Q d → full_key k →
  ∃ d', completed_callback size_callback d v e k = Ok d' ∧ deferred_ok (λ k' v', P k' v' ∨ (k' = k ∧ v' = v ∧ Q k e)) Q d' ∧ df_next d' = df_next d.
Proof using Type.
  intros Hd Hk. unfold completed_callback. destruct (take_pending_ok d e k P Q Hd Hk) as (b & d1 & -> & Hd1 & Hn & He & Hb). cbn [mbind py_bind]. destruct b.
  - destruct (Hb eq_refl) as [HQ Hs]. destruct Hs as [entry Hs]. assert (the_cache_entry d1 e = Ok entry) as -> by (unfold the_cache_entry; by rewrite He, Hs). cbn [mbind py_bind].
    destruct Hd1 as [(zs & Hr & Hh) H2 H3 H4 H5 H6]. destruct (set_spec size_callback None ltac:(done) (df_cache d1) zs k v (get_invalidation_callbacks entry k) Hr Hk H2) as (c & zs' & -> & Hr' & Hm & Hen & _).
    cbn [mbind py_bind]. exists (with_lru d1 c). split_and!; [done| |done]. split; try done; [|cbn; by rewrite Hm]. exists zs'. split; [done|]. intros k' v'. rewrite Hen. intros [[-> ->]|[_ ?]]%holds_set; [by right|left; by apply Hh].
  - exists d1. split_and!; [done| |done]. eapply deferred_ok_weaken; [| |exact Hd1]; [by left|done].
Qed.

Lemma error_ok d e k P Q : deferred_ok P Q d → full_key k → ∃ d', error_callback d e k = Ok d' ∧ deferred_ok P Q d' ∧ df_next d' = df_next d.
Proof using Type.
  intros Hd Hk. unfold error_callback. destruct (take_pending_ok d e k P Q Hd Hk) as (b & d1 & -> & Hd1 & Hn & He & Hb). cbn [mbind py_bind]. destruct b; [|by exists d1].
  destruct (Hb eq_refl) as [HQ [entry Hs]]. assert (the_cache_entry d1 e = Ok entry) as -> by (unfold the_cache_entry; by rewrite He, Hs). cbn [mbind py_bind]. eexists. split_and!; [done| |done]. by destruct Hd1.
Qed.

Lemma complete_bulk_ok l d e P Q : deferred_ok P Q d → Forall (λ x, full_key x.1) l →
  ∃ d', complete_bulk size_callback d e l = Ok d' ∧ deferred_ok (λ k' v', P k' v' ∨ ((k', v') ∈ l ∧ Q k' e)) Q d' ∧ df_next d' = df_next d.
Proof using Type.
  revert d P. induction l as [|[k v] l IH]; intros d P Hd Hl.
  - exists d. split_and!; [done| |done]. eapply deferred_ok_weaken; [| |exact Hd]; [by left|done].
  - apply Forall_cons in Hl as [Hk Hl]. cbn in Hk. unfold complete_bulk. cbn [py_fold fst snd]. destruct (completed_ok d v e k P Q Hd Hk) as (d1 & -> & Hd1 & Hn1). cbn [mbind py_bind].
    destruct (IH d1 _ Hd1 Hl) as (d' & Hf & Hd' & Hn'). unfold complete_bulk in Hf. rewrite Hf. exists d'. split_and!; [done| |congruence].
    eapply deferred_ok_weaken; [| |exact Hd']; [|done]. intros k' v' [[?|(-> & -> & ?)]|[? ?]]; [by left|right; split; [by left|done]|right; split; [by right|done]].
Qed.

Lemma error_bulk_ok keys d e P Q : deferred_ok P Q d → Forall full_key keys → ∃ d', error_bulk d e keys = Ok d' ∧ deferred_ok P Q d' ∧ df_next d' = df_next d.
Proof using Type.
  revert d. induction keys as [|k keys IH]; intros d Hd Hl; [by exists d|]. apply Forall_cons in Hl as [Hk Hl]. unfold error_bulk. cbn [py_fold]. destruct (error_ok d e k P Q Hd Hk) as (d1 & -> & Hd1 & Hn1). cbn [mbind py_bind].
  destruct (IH d1 Hd1 Hl) as (d' & Hf & Hd' & Hn'). unfold error_bulk in Hf. rewrite Hf. exists d'. split_and!; [done|done|congruence].
Qed.

Lemma deferred_prefill_ok d k v cb P Q : deferred_ok P Q d → full_key k →
  ∃ d', prefill size_callback d k v cb = Ok d' ∧ deferred_ok (λ k' v', (k' = k ∧ v' = v) ∨ P k' v') Q d' ∧ df_next d' = df_next d.
Proof using Type.
  intros [(zs & Hr & Hh) H2 H3 H4 H5 H6] Hk. unfold prefill. destruct (set_spec size_callback None ltac:(done) (df_cache d) zs k v (option_list cb) Hr Hk H2) as (c & zs' & -> & Hr' & Hm & Hen & _). cbn [mbind py_bind].
  destruct (store_pop_full (df_pending d) k H3 Hk) as (ns & p & -> & Hp & Hpm & _). cbn [mbind py_bind]. eexists. split_and!; [done| |done]. split; cbn; try done.
  - exists zs'. split; [done|]. intros k' v'. rewrite Hen. intros [[-> ->]|[_ ?]]%holds_set; [by left|right; by apply Hh].
  - by rewrite Hm.
  - intros k' e'. unfold pending_of. cbn. rewrite Hpm, lookup_delete_Some. intros [_ ?]. by apply H4.
  - intros k' e'. unfold pending_of. cbn. rewrite Hpm, lookup_delete_Some. intros [_ ?]. by apply (H5 k').
Qed.

(** The callbacks of entries that are taken out are run. *)
Lemma call_entries {A} (f : A → nat) (g : A → K) l d P Q : deferred_ok P Q d → (∀ x, x ∈ l → is_Some (df_entries d !! f x)) →
  ∃ d', py_fold (λ d x, entry ← the_cache_entry d (f x); Ok (call_all d (get_invalidation_callbacks entry (g x)))) d l = Ok d' ∧ deferred_ok P Q d' ∧ df_next d' = df_next d ∧ df_pending d' = df_pending d.
Proof using Type.
  revert d. induction l as [|x l IH]; intros d Hd Hl; [by exists d|]. cbn [py_fold]. destruct (Hl x) as [entry Hx]; [by left|]. assert (the_cache_entry d (f x) = Ok entry) as -> by (unfold the_cache_entry; by rewrite Hx). cbn [mbind py_bind].
  destruct (IH (call_all d (get_invalidation_callbacks entry (g x)))) as (d' & -> & Hd' & Hn' & Hp'); [by destruct Hd|intros y Hy; cbn; apply Hl; by right|]. by exists d'.
Qed.

Lemma invalidate_ok d p P Q : deferred_ok P Q d → some_key p →
  ∃ d', invalidate size_callback d p = Ok d' ∧ deferred_ok (λ k v, P k v ∧ under p k = false) (λ k e, Q k e ∧ under p k = false) d' ∧ df_next d' = df_next d.
Proof using Type.
  intros [(zs & Hr & Hh) H2 H3 H4 H5 H6] Hp. unfold invalidate. destruct (del_multi_spec size_callback None (df_cache d) zs p Hr Hp) as (c & zs' & called & -> & Hr' & Hm & Hen & _ & _). cbn [mbind py_bind].
  destruct (store_pop_law (df_pending d) p H3 Hp) as (ns & p' & -> & Hp' & Hpm & Hns). cbn [mbind py_bind].
  assert (deferred_ok (λ k v, P k v ∧ under p k = false) (λ k e, Q k e ∧ under p k = false) (with_pending (with_lru d c) p')) as Hd1.
  { split; cbn; try done.
    - exists zs'. split; [done|]. intros k v. rewrite Hen. intros [Hv Hu]%(holds_remove _ (under p)). split; [by apply Hh|done].
    - by rewrite Hm.
    - intros k e. unfold pending_of. cbn. rewrite Hpm, map_lookup_filter_Some. intros [He Hu]. split; [by apply H4|done].
    - intros k e. unfold pending_of. cbn. rewrite Hpm, map_lookup_filter_Some. intros [He _]. by apply (H5 k). }
  destruct (call_entries (λ e, e) (λ _, p) ns _ _ _ Hd1) as (d' & -> & Hd' & Hn' & _); [|by exists d'].
  intros e He. rewrite Hns in He. apply list_elem_of_fmap in He as ([k e'] & -> & Hin%elem_of_map_to_list). apply map_lookup_filter_Some in Hin as [Hin _]. by apply (H5 k).
Qed.

Lemma invalidate_all_ok d P Q : deferred_ok P Q d →
  ∃ d', invalidate_all size_callback d = Ok d' ∧ deferred_ok (λ _ _, False) (λ _ _, False) d' ∧ df_next d' = df_next d.
Proof using StoreItemsLaws0.
  intros [(zs & Hr & Hh) H2 H3 H4 H5 H6]. unfold invalidate_all. destruct (clear_spec size_callback None (df_cache d) zs Hr) as (c & called & -> & Hr' & Hm & _ & _). cbn [mbind py_bind].
  assert (deferred_ok (λ _ _, False) Q (with_lru d c)) as Hd1 by (split; cbn; try done; [exists []; split; [done|by intros k v (cs & ?%elem_of_nil)]|by rewrite Hm]).
  destruct (call_entries snd fst (store_items (df_pending d)) _ _ _ Hd1) as (d1 & -> & Hd2 & Hn & _).
  - intros [k e] Hx. rewrite store_items_law in Hx by done. apply elem_of_map_to_list in Hx. by apply (H5 k).
  - cbn [mbind py_bind]. eexists. split_and!; [done| |done]. destruct Hd2 as [G1 G2 G3 G4 G5 G6]. destruct store_empty_ok as [Hok Hem]. split; cbn; try done; intros k e; unfold pending_of; cbn; by rewrite Hem, lookup_empty.
Qed.
End Facts.
