(* ===== verification/CachedCalls.v ===== *)
(** * Calls of cached methods: [util/caches/descriptors.py]

    Cached methods over a [DeferredCache] as steps: calls of the method and of the one for
    lists of keys, loads that come back or fail, invalidations and values that are filled
    in, in any order.  What is loaded is read from a database whose content [db n key] is
    any function of the time: a load reads each key at some time between its start and
    its end. *)

From S2P Require Import Prelude LinkedList CacheStore LruCache LruCacheFacts TreeCache DeferredCache DeferredCacheFacts.

Open Scope nat_scope.

Section Calls.
Context {C K V S : Type} `{Countable K} `{EqDecision V} `{!CacheStore K S} `{!CacheStoreLaws K S} `{!StoreItems K S} `{!StoreItemsLaws K S}.
Context (size_callback : option (V → Z)) (db : nat → K → V).
Abbreviation cache := (DeferredCache (K := K) (V := V) (S := S)).

(** The cache; the loads, with the time of their start and their keys, and those that are
    over; the invalidations, with their times; the callers that wait for a key of an
    entry, and those that have a value, with the time of the call *)
Record calls : Type := MkCalls {
  cl_cache : cache;
  cl_now : nat;
  cl_loads : gmap nat (nat * list K);
  cl_over : gset nat;
  cl_invalidations : list (nat * (K → bool));
  cl_waiting : list (C * K * nat * nat);
  cl_answers : list (C * K * nat * V);
}.

(** The values of the waiting callers *)
Definition answers_for (e : nat) (value_of : K → V) (waiting : list (C * K * nat * nat)) : list (C * K * nat * V) :=
  map (λ w, (w.1.1.1, w.1.1.2, w.2, value_of w.1.1.2)) (List.filter (λ w, Nat.eqb w.1.2 e) waiting).
Definition still_waiting (e : nat) (waiting : list (C * K * nat * nat)) : list (C * K * nat * nat) := List.filter (λ w, negb (Nat.eqb w.1.2 e)) waiting.

(** A call that finds a value, one that finds a load or starts it *)
Definition answered (s : calls) (d : cache) (new : list (C * K * nat * V)) (waiting : list (C * K * nat * nat)) (loads : gmap nat (nat * list K)) : calls :=
  MkCalls d (Datatypes.S (cl_now s)) loads (cl_over s) (cl_invalidations s) (waiting ++ cl_waiting s) (new ++ cl_answers s).
Definition load_over (s : calls) (d : cache) (e : nat) (value_of : option (K → V)) : calls :=
  MkCalls d (Datatypes.S (cl_now s)) (cl_loads s) ({[e]} ∪ cl_over s) (cl_invalidations s) (still_waiting e (cl_waiting s))
    (match value_of with Some f => answers_for e f (cl_waiting s) | None => [] end ++ cl_answers s).
Definition invalidated (s : calls) (d : cache) (p : K → bool) : calls :=
  MkCalls d (Datatypes.S (cl_now s)) (cl_loads s) (cl_over s) ((cl_now s, p) :: cl_invalidations s) (cl_waiting s) (cl_answers s).

(** What a load may read *)
Definition read_since (s : calls) (start : nat) (k : K) (v : V) : Prop := ∃ n, start ≤ n ≤ cl_now s ∧ v = db n k.

Inductive call_step (s : calls) : calls → Prop :=
  | call_cached c k cb v d : full_key k → cached_call (cl_cache s) k cb = Ok (Cached (Succeeded v), d) →
      call_step s (answered s d [(c, k, cl_now s, v)] [] (cl_loads s))
  | call_loading c k cb e d : full_key k → cached_call (cl_cache s) k cb = Ok (Cached (Loading e), d) →
      call_step s (answered s d [] [(c, k, e, cl_now s)] (cl_loads s))
  | call_starts c k cb e d : full_key k → cached_call (cl_cache s) k cb = Ok (StartedLoad e, d) →
      call_step s (answered s d [] [(c, k, e, cl_now s)] (<[e := (cl_now s, [k])]> (cl_loads s)))
  | call_list c keys cb b o d : Forall full_key keys → NoDup keys → cached_list_call (cl_cache s) keys cb = Ok (b, o, d) →
      call_step s (answered s d (map (λ x, (c, x.1, cl_now s, x.2)) (map_to_list (bk_cached b)))
        (map (λ x, (c, x.1, x.2, cl_now s)) (bk_pending b) ++ match o with Some e => map (λ k, (c, k, e, cl_now s)) (bk_missing b) | None => [] end)
        (match o with Some e => <[e := (cl_now s, bk_missing b)]> (cl_loads s) | None => cl_loads s end))
  | load_done e k start v d : cl_loads s !! e = Some (start, [k]) → e ∉ cl_over s → read_since s start k v →
      completed_callback size_callback (cl_cache s) v e k = Ok d → call_step s (load_over s d e (Some (λ _, v)))
  | bulk_done e keys start (f : K → V) d : cl_loads s !! e = Some (start, keys) → e ∉ cl_over s → (∀ k, k ∈ keys → read_since s start k (f k)) →
      complete_bulk size_callback (cl_cache s) e (map (λ k, (k, f k)) keys) = Ok d → call_step s (load_over s d e (Some f))
  | load_fails e k start d : cl_loads s !! e = Some (start, [k]) → e ∉ cl_over s →
      error_callback (cl_cache s) e k = Ok d → call_step s (load_over s d e None)
  | bulk_fails e keys start d : cl_loads s !! e = Some (start, keys) → e ∉ cl_over s →
      error_bulk (cl_cache s) e keys = Ok d → call_step s (load_over s d e None)
  | call_prefill k v cb d : full_key k → v = db (cl_now s) k → prefill size_callback (cl_cache s) k v cb = Ok d →
      call_step s (answered s d [] [] (cl_loads s))
  | call_invalidate p d : some_key p → invalidate size_callback (cl_cache s) p = Ok d → call_step s (invalidated s d (under p))
  | call_invalidate_all d : invalidate_all size_callback (cl_cache s) = Ok d → call_step s (invalidated s d (λ _, true)).

(** ** No stale values *)

(** All invalidations of the key, up to [before] if this is given, are older than [n]. *)
Definition after_invalidations (s : calls) (before : option nat) (n : nat) (k : K) : Prop :=
  ∀ t p, (t, p) ∈ cl_invalidations s → p k = true → match before with Some b => t ≤ b | None => True end → t < n.

Definition good_value (s : calls) (k : K) (v : V) : Prop := ∃ n, n ≤ cl_now s ∧ v = db n k ∧ after_invalidations s None n k.
Definition good_load (s : calls) (k : K) (e : nat) : Prop := ∃ start keys, cl_loads s !! e = Some (start, keys) ∧ k ∈ keys ∧ after_invalidations s None start k.
Definition good_wait (s : calls) (w : C * K * nat * nat) : Prop :=
  w.2 < cl_now s ∧ ∃ start keys, cl_loads s !! w.1.2 = Some (start, keys) ∧ w.1.1.2 ∈ keys ∧ after_invalidations s (Some w.2) start w.1.1.2.
Definition good_answer (s : calls) (a : C * K * nat * V) : Prop :=
  a.1.2 < cl_now s ∧ ∃ n, a.2 = db n a.1.1.2 ∧ after_invalidations s (Some a.1.2) n a.1.1.2.

Record calls_ok (s : calls) : Prop := {
  co_cache : deferred_ok size_callback (good_value s) (good_load s) (cl_cache s);
  co_loads : ∀ e start keys, cl_loads s !! e = Some (start, keys) → e < df_next (cl_cache s) ∧ start < cl_now s ∧ Forall full_key keys;
  co_waiting : ∀ w, w ∈ cl_waiting s → good_wait s w;
  co_answers : ∀ a, a ∈ cl_answers s → good_answer s a;
  co_invalidations : ∀ t p, (t, p) ∈ cl_invalidations s → t < cl_now s;
}.

(** Time goes on, and loads are added. *)
Definition extends (s s' : calls) : Prop :=
  cl_now s' = Datatypes.S (cl_now s) ∧ cl_invalidations s' = cl_invalidations s ∧ ∀ e x, cl_loads s !! e = Some x → cl_loads s' !! e = Some x.

Lemma extends_after s s' b n k : extends s s' → after_invalidations s b n k → after_invalidations s' b n k.
Proof using Type. intros (_ & Hi & _) Ha t p. rewrite Hi. apply Ha. Qed.
Lemma extends_value s s' k v : extends s s' → good_value s k v → good_value s' k v.
Proof using Type. intros He (n & Hn & -> & Ha). exists n. split_and!; [destruct He as (-> & _); lia|done|by eapply extends_after]. Qed.
Lemma extends_load s s' k e : extends s s' → good_load s k e → good_load s' k e.
Proof using Type. intros He (start & keys & Hl & Hk & Ha). exists start, keys. split_and!; [by apply He|done|by eapply extends_after]. Qed.
Lemma extends_wait s s' w : extends s s' → good_wait s w → good_wait s' w.
Proof using Type. intros He (Hn & start & keys & Hl & Hk & Ha). split; [destruct He as (-> & _); lia|]. exists start, keys. split_and!; [by apply He|done|by eapply extends_after]. Qed.
Lemma extends_answer s s' a : extends s s' → good_answer s a → good_answer s' a.
Proof using Type. intros He (Hn & n & Ha & Hi). split; [destruct He as (-> & _); lia|]. exists n. split; [done|by eapply extends_after]. Qed.
Lemma extends_cache s s' d : extends s s' → deferred_ok size_callback (good_value s) (good_load s) d → deferred_ok size_callback (good_value s') (good_load s') d.
Proof using Type. intros He. apply deferred_ok_weaken; intros; [by eapply extends_value|by eapply extends_load]. Qed.

(** What is found now is good for a caller of now. *)
Lemma value_answer s s' c k v : extends s s' → good_value s k v → good_answer s' (c, k, cl_now s, v).
Proof using Type.
  intros He (n & Hn & -> & Ha). split; [cbn; destruct He as (-> & _); lia|]. exists n. split; [done|]. intros t p Hin Hp _. eapply (extends_after s s' None); [done|exact Ha|done|done|done].
Qed.
Lemma load_wait s s' c k e : extends s s' → good_load s' k e → good_wait s' (c, k, e, cl_now s).
Proof using Type.
  intros He (start & keys & Hl & Hk & Ha). split; [cbn; destruct He as (-> & _); lia|]. exists start, keys. split_and!; [done|done|]. intros t p Hin Hp _. by eapply Ha.
Qed.

Lemma calls_extend_ok s s' : calls_ok s → extends s s' → deferred_ok size_callback (good_value s') (good_load s') (cl_cache s') →
  (∀ e start keys, cl_loads s' !! e = Some (start, keys) → e < df_next (cl_cache s') ∧ start < cl_now s' ∧ Forall full_key keys) →
  (∀ w, w ∈ cl_waiting s' → w ∈ cl_waiting s ∨ good_wait s' w) → (∀ a, a ∈ cl_answers s' → a ∈ cl_answers s ∨ good_answer s' a) → calls_ok s'.
Proof using Type.
  intros [_ _ Hw Ha Hi] He Hd Hl Hw' Ha'. split; [done|done| | |].
  - intros w [Hin|?]%Hw'; [|done]. by eapply extends_wait; [|apply Hw].
  - intros a [Hin|?]%Ha'; [|done]. by eapply extends_answer; [|apply Ha].
  - intros t p Hin. destruct He as (-> & Hinv & _). rewrite Hinv in Hin. apply Hi in Hin. lia.
Qed.

Lemma loads_kept s s' : calls_ok s → cl_now s' = Datatypes.S (cl_now s) → cl_loads s' = cl_loads s → df_next (cl_cache s') = df_next (cl_cache s) →
  ∀ e start keys, cl_loads s' !! e = Some (start, keys) → e < df_next (cl_cache s') ∧ start < cl_now s' ∧ Forall full_key keys.
Proof using Type. intros Hs Hn Hl Hx e start keys. rewrite Hl, Hn, Hx. intros (? & ? & ?)%(co_loads _ Hs). split_and!; [done|lia|done]. Qed.

(** A new load is good: nothing was invalidated since now. *)
Lemma new_load s s' e k keys : calls_ok s → extends s s' → cl_loads s' !! e = Some (cl_now s, keys) → k ∈ keys → good_load s' k e.
Proof using Type. intros Hs He Hl Hk. exists (cl_now s), keys. split_and!; [done|done|]. intros t p Hin _ _. destruct He as (_ & Hi & _). rewrite Hi in Hin. by apply (co_invalidations _ Hs) in Hin. Qed.

(** What a load reads is good for those who wait, and to be kept while it is the current one. *)
Lemma read_answer s s' w start keys v : extends s s' → good_wait s w → cl_loads s !! w.1.2 = Some (start, keys) → read_since s start w.1.1.2 v → good_answer s' (w.1.1.1, w.1.1.2, w.2, v).
Proof using Type.
  intros He (Hn & start' & keys' & Hl & _ & Ha) Hl' (n & Hr & ->). rewrite Hl in Hl'. injection Hl' as <- <-. split; [cbn; destruct He as (-> & _); lia|]. exists n. split; [done|].
  intros t p Hin Hp Hb. cbn in *. destruct He as (_ & Hi & _). rewrite Hi in Hin. specialize (Ha t p Hin Hp Hb). lia.
Qed.
Lemma read_value s s' start keys e k v : extends s s' → good_load s k e → cl_loads s !! e = Some (start, keys) → read_since s start k v → good_value s' k v.
Proof using Type.
  intros He (start' & keys' & Hl & _ & Ha) Hl' (n & Hr & ->). rewrite Hl in Hl'. injection Hl' as <- <-. exists n. split_and!; [destruct He as (-> & _); lia|done|].
  intros t p Hin Hp Hb. destruct He as (_ & Hi & _). rewrite Hi in Hin. specialize (Ha t p Hin Hp Hb). lia.
Qed.

Lemma cached_call_ok s k cb : calls_ok s → full_key k →
  ∃ r d, cached_call (cl_cache s) k cb = Ok (r, d) ∧
    match r with
    | Cached (Succeeded v) => good_value s k v ∧ deferred_ok size_callback (good_value s) (good_load s) d ∧ df_next d = df_next (cl_cache s)
    | Cached (Loading e) => good_load s k e ∧ deferred_ok size_callback (good_value s) (good_load s) d ∧ df_next d = df_next (cl_cache s)
    | StartedLoad e => e = df_next (cl_cache s) ∧ df_next d = Datatypes.S e ∧ deferred_ok size_callback (good_value s) (λ k' e', (k' = k ∧ e' = e) ∨ (k' ≠ k ∧ good_load s k' e')) d
    end.
Proof using Type.
  intros Hs Hk. unfold cached_call. destruct (deferred_get_ok size_callback (cl_cache s) k cb _ _ (co_cache _ Hs) Hk) as [(r & d & -> & Hd & Hn & Hr)| ->].
  - eexists _, d. split; [done|]. by destruct r.
  - destruct (deferred_set_ok size_callback (cl_cache s) k cb _ _ (co_cache _ Hs) Hk) as (d & -> & Hd & Hn). eexists _, d. split; [done|]. by split_and!.
Qed.

Lemma cached_list_call_ok s keys cb : calls_ok s → Forall full_key keys → NoDup keys →
  ∃ b o d, cached_list_call (cl_cache s) keys cb = Ok (b, o, d) ∧ (∀ k v, bk_cached b !! k = Some v → good_value s k v) ∧ (∀ k e, (k, e) ∈ bk_pending b → good_load s k e) ∧ Forall full_key (bk_missing b) ∧
    match o with
    | Some e => e = df_next (cl_cache s) ∧ df_next d = Datatypes.S e ∧ deferred_ok size_callback (good_value s) (λ k' e', (k' ∈ bk_missing b ∧ e' = e) ∨ good_load s k' e') d
    | None => df_next d = df_next (cl_cache s) ∧ deferred_ok size_callback (good_value s) (good_load s) d
    end.
Proof using Type.
  intros Hs Hf Hnd. unfold cached_list_call. destruct (get_bulk_ok size_callback (cl_cache s) keys cb _ _ (co_cache _ Hs) Hf) as (b & d1 & -> & Hd1 & Hn1 & _ & B1 & B2 & B3 & B4). cbn [mbind py_bind].
  assert (Forall full_key (bk_missing b)) as Hfm by (apply Forall_forall; intros k Hk; rewrite Forall_forall in Hf; apply Hf; by eapply elem_of_sublist).
  destruct (bk_missing b) as [|k0 ks] eqn:Em; [exists b, None, d1; rewrite Em; by split_and!|]. rewrite <- Em in *.
  destruct (start_bulk_ok size_callback d1 (bk_missing b) cb _ _ Hd1) as (d & -> & Hd & Hn); [done|by eapply sublist_NoDup|done|]. cbn [mbind py_bind]. exists b, (Some (df_next d1)), d. rewrite <- Hn1. by split_and!.
Qed.

Lemma extends_same s d over waiting answers :
  extends s (MkCalls d (Datatypes.S (cl_now s)) (cl_loads s) over (cl_invalidations s) waiting answers).
Proof using Type. by split_and!. Qed.
Lemma extends_new s d e x waiting answers : calls_ok s → e = df_next (cl_cache s) →
  extends s (MkCalls d (Datatypes.S (cl_now s)) (<[e := x]> (cl_loads s)) (cl_over s) (cl_invalidations s) waiting answers).
Proof using Type. intros Hs ->. split_and!; [done|done|]. intros e' [start keys] He'. cbn. rewrite lookup_insert_ne; [done|]. intros <-. apply (co_loads _ Hs) in He' as (? & _). lia. Qed.

(** The loads after a new one *)
Lemma loads_new s s' e keys : calls_ok s → cl_now s' = Datatypes.S (cl_now s) → cl_loads s' = <[e := (cl_now s, keys)]> (cl_loads s) → e = df_next (cl_cache s) →
  df_next (cl_cache s') = Datatypes.S e → Forall full_key keys →
  ∀ e' start keys', cl_loads s' !! e' = Some (start, keys') → e' < df_next (cl_cache s') ∧ start < cl_now s' ∧ Forall full_key keys'.
Proof using Type.
  intros Hs Hn Hl He Hx Hf e' start keys'. rewrite Hl, Hn, Hx. intros [[<- [= <- <-]]|[_ (H1 & H2 & H3)%(co_loads _ Hs)]]%lookup_insert_Some; split_and!; try done; lia.
Qed.

(** A load that is over: with a value for each of its keys, or without *)
Lemma load_over_ok s d e start keys f : calls_ok s → cl_loads s !! e = Some (start, keys) →
  (∀ g, f = Some g → ∀ k, k ∈ keys → read_since s start k (g k)) →
  deferred_ok size_callback (λ k v, good_value s k v ∨ ∃ g, f = Some g ∧ k ∈ keys ∧ v = g k ∧ good_load s k e) (good_load s) d → df_next d = df_next (cl_cache s) →
  calls_ok (load_over s d e f).
Proof using Type.
  intros Hs Hl Hf Hd Hn. assert (extends s (load_over s d e f)) as He by apply extends_same. apply (calls_extend_ok s); [done|done| |by apply (loads_kept s)| |].
  - eapply deferred_ok_weaken; [| |exact Hd]; [|intros; by eapply extends_load]. intros k v [Hv|(g & Hg & Hk & -> & Hgl)]; [by eapply extends_value|]. eapply read_value; [done|done|done|by apply (Hf g)].
  - intros w Hw. left. cbn in Hw. unfold still_waiting in Hw. apply list_elem_of_In, filter_In in Hw as [Hw _]. by apply list_elem_of_In.
  - intros a [Ha|Ha]%elem_of_app; [right|by left]. destruct f as [g|]; [|by apply elem_of_nil in Ha]. apply list_elem_of_fmap in Ha as (w & -> & Hw). apply list_elem_of_In, filter_In in Hw as [Hw Hwe].
    apply Nat.eqb_eq in Hwe. apply list_elem_of_In in Hw. pose proof (co_waiting _ Hs w Hw) as Hgw. eapply read_answer; [done|done|by rewrite Hwe|].
    destruct Hgw as (_ & start' & keys' & Hl' & Hk & _). rewrite Hwe, Hl in Hl'. injection Hl' as <- <-. by apply (Hf g).
Qed.

(** An invalidation *)
Lemma invalidated_ok s d p : calls_ok s → deferred_ok size_callback (λ k v, good_value s k v ∧ p k = false) (λ k e, good_load s k e ∧ p k = false) d → df_next d = df_next (cl_cache s) → calls_ok (invalidated s d p).
Proof using Type.
  intros Hs Hd Hn. assert (∀ b n k, after_invalidations s b n k → (∀ c, b = Some c → c < cl_now s) → (b = None → p k = false) → after_invalidations (invalidated s d p) b n k) as Hafter.
  { intros b n k Ha Hb Hp t q Hin Hq Ht. cbn in Hin. apply elem_of_cons in Hin as [[= -> ->]|Hin]; [|by eapply Ha]. destruct b as [b|]; [specialize (Hb b eq_refl); lia|by rewrite Hp in Hq]. }
  split.
  - cbn [invalidated cl_cache]. eapply deferred_ok_weaken; [| |exact Hd].
    + intros k v [(n & Hle & -> & Ha) Hp]. exists n. split_and!; [cbn; lia|done|by apply Hafter].
    + intros k e [(start & keys & Hl & Hk & Ha) Hp]. exists start, keys. split_and!; [done|done|by apply Hafter].
  - intros e start keys Hl. cbn in *. rewrite Hn. apply (co_loads _ Hs) in Hl as (? & ? & ?). split_and!; [done|lia|done].
  - intros w Hw. apply (co_waiting _ Hs) in Hw as (Hlt & start & keys & Hl & Hk & Ha). split; [cbn; lia|]. exists start, keys. split_and!; [done|done|]. apply Hafter; [done|by intros c [= <-]|done].
  - intros a Ha. apply (co_answers _ Hs) in Ha as (Hlt & n & Hv & Ha). split; [cbn; lia|]. exists n. split; [done|]. apply Hafter; [done|by intros c [= <-]|done].
  - intros t q [[= -> ->]|Hin]%elem_of_cons; cbn; [lia|]. apply (co_invalidations _ Hs) in Hin. lia.
Qed.

Lemma call_step_ok s s' : call_step s s' → calls_ok s → calls_ok s'.
Proof using StoreItemsLaws0.
  intros Hstep Hs. destruct Hstep as [c k cb v d Hk Hc|c k cb e d Hk Hc|c k cb e d Hk Hc|c keys cb b o d Hf Hnd Hc|e k start v d Hl _ Hr Hc|e keys start f d Hl _ Hr Hc|e k start d Hl _ Hc|e keys start d Hl _ Hc|k v cb d Hk Hv Hc|p d Hp Hc|d Hc].
  - destruct (cached_call_ok s k cb Hs Hk) as (r & d' & Hc' & Hr). rewrite Hc in Hc'. injection Hc' as <- <-. destruct Hr as (Hv & Hd & Hn).
    assert (extends s (answered s d [(c, k, cl_now s, v)] [] (cl_loads s))) as He by apply extends_same. apply (calls_extend_ok s); [done|done|by apply (extends_cache s)|by apply (loads_kept s)|by left|].
    intros a [->|Ha]%elem_of_cons; [right; by apply value_answer|by left].
  - destruct (cached_call_ok s k cb Hs Hk) as (r & d' & Hc' & Hr). rewrite Hc in Hc'. injection Hc' as <- <-. destruct Hr as (Hv & Hd & Hn).
    assert (extends s (answered s d [] [(c, k, e, cl_now s)] (cl_loads s))) as He by apply extends_same. apply (calls_extend_ok s); [done|done|by apply (extends_cache s)|by apply (loads_kept s)| |by left].
    intros a [->|Ha]%elem_of_cons; [right; apply load_wait; [done|by eapply extends_load]|by left].
  - destruct (cached_call_ok s k cb Hs Hk) as (r & d' & Hc' & Hr). rewrite Hc in Hc'. injection Hc' as <- <-. destruct Hr as (Hv & Hn & Hd).
    set (s' := answered s d [] [(c, k, e, cl_now s)] (<[e := (cl_now s, [k])]> (cl_loads s))). assert (extends s s') as He by by apply extends_new.
    assert (good_load s' k e) as Hgl by (eapply new_load; [done|done|apply lookup_insert_eq|by left]). apply (calls_extend_ok s); [done|done| | | |by left].
    + eapply deferred_ok_weaken; [| |exact Hd]; [intros; by eapply extends_value|]. intros k' e' [[-> ->]|[_ ?]]; [done|by eapply extends_load].
    + apply (loads_new s s' e [k]); try done. by apply Forall_singleton.
    + intros w [->|Hw]%elem_of_cons; [right; by apply load_wait|by left].
  - destruct (cached_list_call_ok s keys cb Hs Hf Hnd) as (b' & o' & d' & Hc' & B1 & B2 & B3 & Ho). rewrite Hc in Hc'. injection Hc' as <- <- <-. set (s' := answered _ _ _ _ _).
    assert (extends s s' ∧ deferred_ok size_callback (good_value s') (good_load s') d ∧ (∀ e start keys, cl_loads s' !! e = Some (start, keys) → e < df_next d ∧ start < cl_now s' ∧ Forall full_key keys) ∧
      ∀ e k, o = Some e → k ∈ bk_missing b → good_load s' k e) as (He & Hd & Hls & Hnew).
    { destruct o as [e|].
      - destruct Ho as (He & Hn & Hd). assert (extends s s') as Hex by by apply extends_new. assert (∀ k, k ∈ bk_missing b → good_load s' k e) as Hgl by (intros k Hk; eapply new_load; [done|done|apply lookup_insert_eq|done]).
        split_and!; [done| |by apply (loads_new s s' e (bk_missing b))|by intros e' k [= <-]; apply Hgl]. eapply deferred_ok_weaken; [| |exact Hd]; [intros; by eapply extends_value|]. intros k' e' [[? ->]|?]; [by apply Hgl|by eapply extends_load].
      - destruct Ho as (Hn & Hd). assert (extends s s') as Hex by apply extends_same. split_and!; [done|by apply (extends_cache s)|by apply (loads_kept s s')|done]. }
    apply (calls_extend_ok s); [done|done|done|done| |].
    + intros w [Hw|Hw]%elem_of_app; [right|by left]. apply elem_of_app in Hw as [([k e] & -> & Hin)%list_elem_of_fmap|Hw]; [apply load_wait; [done|eapply extends_load; [done|by apply B2]]|].
      destruct o as [e|]; [|by apply elem_of_nil in Hw]. apply list_elem_of_fmap in Hw as (k & -> & Hin). apply load_wait; [done|by apply Hnew].
    + intros a [Ha|Ha]%elem_of_app; [right|by left]. apply list_elem_of_fmap in Ha as ([k v] & -> & Hin%elem_of_map_to_list). apply value_answer; [done|by apply B1].
  - destruct (co_loads _ Hs _ _ _ Hl) as (_ & _ & [Hk _]%Forall_cons). destruct (completed_ok size_callback (cl_cache s) v e k _ _ (co_cache _ Hs) Hk) as (d' & Hc' & Hd & Hn). rewrite Hc in Hc'. injection Hc' as <-.
    eapply load_over_ok; [done|exact Hl|by intros g [= <-] k' ->%list_elem_of_singleton| |done]. eapply deferred_ok_weaken; [| |exact Hd]; [|done].
    intros k' v' [?|(-> & -> & ?)]; [by left|right]. exists (λ _, v). split_and!; [done|by left|done|done].
  - destruct (co_loads _ Hs _ _ _ Hl) as (_ & _ & Hk). destruct (complete_bulk_ok size_callback (map (λ k, (k, f k)) keys) (cl_cache s) e _ _ (co_cache _ Hs)) as (d' & Hc' & Hd & Hn).
    { apply Forall_map. exact Hk. }
    rewrite Hc in Hc'. injection Hc' as <-. eapply load_over_ok; [done|exact Hl|by intros g [= <-]| |done]. eapply deferred_ok_weaken; [| |exact Hd]; [|done].
    intros k' v' [?|[(k0 & [= -> ->] & Hin)%list_elem_of_fmap ?]]; [by left|right]. by exists f.
  - destruct (co_loads _ Hs _ _ _ Hl) as (_ & _ & [Hk _]%Forall_cons). destruct (error_ok size_callback (cl_cache s) e k _ _ (co_cache _ Hs) Hk) as (d' & Hc' & Hd & Hn). rewrite Hc in Hc'. injection Hc' as <-.
    eapply load_over_ok; [done|exact Hl|done| |done]. eapply deferred_ok_weaken; [| |exact Hd]; [by left|done].
  - destruct (co_loads _ Hs _ _ _ Hl) as (_ & _ & Hk). destruct (error_bulk_ok size_callback keys (cl_cache s) e _ _ (co_cache _ Hs) Hk) as (d' & Hc' & Hd & Hn). rewrite Hc in Hc'. injection Hc' as <-.
    eapply load_over_ok; [done|exact Hl|done| |done]. eapply deferred_ok_weaken; [| |exact Hd]; [by left|done].
  - destruct (deferred_prefill_ok size_callback (cl_cache s) k v cb _ _ (co_cache _ Hs) Hk) as (d' & Hc' & Hd & Hn). rewrite Hc in Hc'. injection Hc' as <-. set (s' := answered _ _ _ _ _). assert (extends s s') as He by apply extends_same.
    apply (calls_extend_ok s); [done|done| |by apply (loads_kept s s')|by left|by left]. eapply deferred_ok_weaken; [| |exact Hd]; [|intros; by eapply extends_load]. intros k' v' [[-> ->]|?]; [|by eapply extends_value].
    exists (cl_now s). split_and!; [cbn; lia|done|]. intros t p Hin _ _. by apply (co_invalidations _ Hs) in Hin.
  - destruct (invalidate_ok size_callback (cl_cache s) p _ _ (co_cache _ Hs) Hp) as (d' & Hc' & Hd & Hn). rewrite Hc in Hc'. injection Hc' as <-. by apply invalidated_ok.
  - destruct (invalidate_all_ok size_callback (cl_cache s) _ _ (co_cache _ Hs)) as (d' & Hc' & Hd & Hn). rewrite Hc in Hc'. injection Hc' as <-. apply invalidated_ok; [done| |done]. eapply deferred_ok_weaken; [| |exact Hd]; done.
Qed.

Definition new_calls (d : cache) : calls := MkCalls d 0 ∅ ∅ [] [] [].

Lemma new_calls_ok n d : new_deferred_cache n = Ok d → (0 ≤ n)%Z → calls_ok (new_calls d).
Proof using Type.
  unfold new_deferred_cache. destruct (new_lru_spec size_callback None n) as (c & -> & Hr & Hm & _). cbn [mbind py_bind]. intros [= <-] Hn. destruct store_empty_ok as [Hok Hem].
  split; cbn; try by intros * ?%elem_of_nil.
  - split; cbn; try done.
    + exists []. split; [done|]. by intros k v (cs & ?%elem_of_nil).
    + by rewrite Hm.
    + intros k e. unfold pending_of. cbn. by rewrite Hem, lookup_empty.
    + intros k e. unfold pending_of. cbn. by rewrite Hem, lookup_empty.
    + intros e. rewrite lookup_empty. by intros [? ?].
  - intros e start keys. by rewrite lookup_empty.
Qed.

Lemma calls_reachable_ok n d s : new_deferred_cache n = Ok d → (0 ≤ n)%Z → rtc call_step (new_calls d) s → calls_ok s.
Proof using StoreItemsLaws0.
  intros Hd Hn Hr. revert Hr. generalize (new_calls_ok n d Hd Hn). generalize (new_calls d). intros s0 Hs0 Hr. induction Hr as [|s1 s2 s3 Hs _ IH]; [done|]. apply IH. by eapply call_step_ok.
Qed.

(** C23: No stale values.  Whatever calls, loads, failures and invalidations come in
    between, over any store that satisfies the laws: a caller of a cached method gets a
    value that was in the database at some time after the last invalidation of the key
    that came before the call; values that were loaded, or being loaded, when the key was
    invalidated are not returned to later callers.  And calls never raise. *)
Theorem no_stale_values n d s : new_deferred_cache n = Ok d → (0 ≤ n)%Z → rtc call_step (new_calls d) s →
  (∀ c k t v, (c, k, t, v) ∈ cl_answers s → ∃ n, v = db n k ∧ ∀ t' p, (t', p) ∈ cl_invalidations s → p k = true → t' ≤ t → t' < n) ∧
  (∀ k cb, full_key k → ∃ r d', cached_call (cl_cache s) k cb = Ok (r, d')) ∧
  (∀ keys cb, Forall full_key keys → NoDup keys → ∃ b o d', cached_list_call (cl_cache s) keys cb = Ok (b, o, d')).
Proof using StoreItemsLaws0.
  intros Hd Hn Hr. pose proof (calls_reachable_ok n d s Hd Hn Hr) as Hs. split_and!.
  - intros c k t v (_ & m & Hv & Ha)%(co_answers _ Hs). exists m. split; [done|]. intros t' p Hin Hp Ht. by apply (Ha t' p).
  - intros k cb Hk. destruct (cached_call_ok s k cb Hs Hk) as (r & d' & Hc & _). by exists r, d'.
  - intros keys cb Hf Hnd. destruct (cached_list_call_ok s keys cb Hs Hf Hnd) as (b & o & d' & Hc & _). by exists b, o, d'.
Qed.
End Calls.

(** ** An example: a load is invalidated before it is done *)
Definition cx_db (n k : nat) : nat := n.
Abbreviation cx_cache := (DeferredCache (K := nat) (V := nat) (S := gmap nat nat)).
Abbreviation cx_calls := (calls (C := nat) (K := nat) (V := nat) (S := gmap nat nat)).
Definition cx_d0 : cx_cache := match new_deferred_cache 10 with Ok d => d | Raise _ => MkDeferred (MkLru 0 ∅ empty_heap 0 ∅ 0 0 ∅ []) ∅ ∅ 0 [] end.
Definition cx_d1 : cx_cache := match cached_call cx_d0 5 None with Ok (_, d) => d | Raise _ => cx_d0 end.
Definition cx_d2 : cx_cache := match invalidate None cx_d1 5 with Ok d => d | Raise _ => cx_d1 end.
Definition cx_d3 : cx_cache := match cached_call cx_d2 5 None with Ok (_, d) => d | Raise _ => cx_d2 end.
Definition cx_d4 : cx_cache := match completed_callback None cx_d3 0 0 5 with Ok d => d | Raise _ => cx_d3 end.
Definition cx_d5 : cx_cache := match completed_callback None cx_d4 2 1 5 with Ok d => d | Raise _ => cx_d4 end.
Definition cx_s1 : cx_calls := answered (new_calls cx_d0) cx_d1 [] [(1, 5, 0, 0)] {[0 := (0, [5])]}.
Definition cx_s2 : cx_calls := invalidated cx_s1 cx_d2 (under (S := gmap nat nat) 5).
Definition cx_s3 : cx_calls := answered cx_s2 cx_d3 [] [(2, 5, 1, 2)] (<[1 := (2, [5])]> {[0 := (0, [5])]}).
Definition cx_s4 : cx_calls := load_over cx_s3 cx_d4 0 (Some (λ _, 0)).
Definition cx_s5 : cx_calls := load_over cx_s4 cx_d5 1 (Some (λ _, 2)).

Lemma cx_reachable : rtc (call_step None cx_db) (new_calls cx_d0) cx_s5.
Proof.
  apply rtc_l with cx_s1; [apply (call_starts None cx_db (new_calls cx_d0) 1 5 None 0 cx_d1); [done|vm_compute; reflexivity]|].
  apply rtc_l with cx_s2; [apply (call_invalidate None cx_db cx_s1 5 cx_d2); [done|vm_compute; reflexivity]|].
  apply rtc_l with cx_s3; [apply (call_starts None cx_db cx_s2 2 5 None 1 cx_d3); [done|vm_compute; reflexivity]|].
  apply rtc_l with cx_s4; [apply (load_done None cx_db cx_s3 0 5 0 0 cx_d4); [done|set_solver|exists 0; cbn; split; [lia|done]|vm_compute; reflexivity]|].
  apply rtc_once. apply (load_done None cx_db cx_s4 1 5 2 2 cx_d5); [done|vm_compute; by intros|exists 2; cbn; split; [lia|done]|vm_compute; reflexivity].
Qed.

Lemma no_stale_values_witness : (2, 5, 2, 2) ∈ cl_answers cx_s5 ∧ (1, 5, 0, 0) ∈ cl_answers cx_s5 ∧ ∃ n, 2 = cx_db n 5 ∧ 1 < n.
Proof.
  assert ((2, 5, 2, 2) ∈ cl_answers cx_s5) as Hin by (vm_compute; by left). split_and!; [done|vm_compute; right; by left|].
  destruct (no_stale_values None cx_db 10 cx_d0 cx_s5) as (Hst & _ & _); [vm_compute; reflexivity|lia|apply cx_reachable|].
  destruct (Hst 2 5 2 2 Hin) as (n & Hv & Ha). exists n. split; [done|]. apply (Ha 1 (under (S := gmap nat nat) 5)); [vm_compute; by left|done|lia].
Defined.
