(* ===== verification/WorkerLocks.v ===== *)
(** * The tables of the locks between workers: [storage/databases/main/lock.py]

    The statements of [LockStore] and [Lock] as functions of [worker_locks],
    [worker_read_write_locks] and [worker_read_write_locks_mode], with the triggers and the
    constraints that the schema has for both database engines
    ([schema/main/delta/79/03], [79/05], [80/03] and [80/04]): that a read-write lock is
    taken by readers or by one writer is not checked by the Python code, but by them.  A
    statement that raises leaves the tables as they were.  [scan] is the order in which the
    database finds rows that match; a transaction of PostgreSQL that deletes passes over the
    rows that others have locked. *)

From S2P Require Import Prelude StateGroups.

Open Scope Z_scope.

Definition RENEWAL_INTERVAL_MS : Z := 30 * 1000.
Definition LOCK_TIMEOUT_MS : Z := 2 * 60 * 1000.

(** [lock_name] and [lock_key] *)
Abbreviation lock_id := (string * string)%type.

(** The rows of [worker_locks] have a unique [lock_id], those of
    [worker_read_write_locks] a unique [lock_id] and token. *)
Record lock_row : Type := MkLockRow { lr_instance_name : string; lr_token : string; lr_last_renewed_ts : Z }.
Record rw_row : Type := MkRwRow { rw_instance_name : string; write_lock : bool; rw_last_renewed_ts : Z }.
Record lock_tables : Type := MkLockTables {
  worker_locks : gmap lock_id lock_row;
  worker_read_write_locks : gmap (lock_id * string) rw_row;
  worker_read_write_locks_mode : gmap lock_id (bool * string);
}.
Definition no_locks : lock_tables := MkLockTables ∅ ∅ ∅.

Definition set_rows (t : lock_tables) (rows : gmap (lock_id * string) rw_row) : lock_tables :=
  MkLockTables (worker_locks t) rows (worker_read_write_locks_mode t).
Definition set_mode (t : lock_tables) (mode : gmap lock_id (bool * string)) : lock_tables :=
  MkLockTables (worker_locks t) (worker_read_write_locks t) mode.

(** ** [worker_locks] *)

(** The statement of [_try_acquire_lock_txn], with whether it changed a row *)
Definition try_acquire_lock_txn (t : lock_tables) (l : lock_id) (instance_name token : string) (now : Z) : lock_tables * bool :=
  let taken := (MkLockTables (<[l := MkLockRow instance_name token now]> (worker_locks t)) (worker_read_write_locks t) (worker_read_write_locks_mode t), true) in
  match worker_locks t !! l with
  | None => taken
  | Some r => if (lr_last_renewed_ts r <? now - LOCK_TIMEOUT_MS) || bool_decide (lr_instance_name r = instance_name) then taken else (t, false)
  end.

(** ** Rows of [worker_read_write_locks] *)

Section Tables.
Context (e : engine) (scan : ∀ A : Type, list A → list A).

(** The tokens that a lock is taken with *)
Definition tokens_of (t : lock_tables) (l : lock_id) : list string :=
  scan _ (map snd (filter (λ k, k.1 = l) (map fst (map_to_list (worker_read_write_locks t))))).

(** The constraint of [worker_read_write_locks] on [worker_read_write_locks_mode], which is
    checked at the end of a statement, *)
Definition rows_have_mode (t : lock_tables) (l : lock_id) : bool :=
  forallb (λ '(k, r), negb (bool_decide (k.1 = l)) || bool_decide ((worker_read_write_locks_mode t !! l) ≫= (λ m, Some m.1) = Some (write_lock r)))
    (map_to_list (worker_read_write_locks t)).
(** and that of the mode on the rows, which is checked at the end of the transaction *)
Definition mode_has_row (t : lock_tables) (l : lock_id) : bool :=
  match worker_read_write_locks_mode t !! l with
  | None => true
  | Some (_, token) => bool_decide (is_Some (worker_read_write_locks t !! (l, token)))
  end.
Definition commit (t : lock_tables) (locks : list lock_id) : py lock_tables :=
  raise_if (negb (forallb (mode_has_row t) locks)) IntegrityError ;; Ok t.

(** [upsert_read_write_lock_parent].  In PostgreSQL it is a trigger on an insert, where [OLD]
    is null, so the condition of the update never holds. *)
Definition upsert_read_write_lock_parent (t : lock_tables) (l : lock_id) (write : bool) (token : string) : lock_tables :=
  let mode := worker_read_write_locks_mode t in
  match e with
  | Postgres => match mode !! l with None => set_mode t (<[l := (write, token)]> mode) | Some _ => t end
  | SQLite =>
      let mode := match tokens_of t l with [] => delete l mode | _ => mode end in
      set_mode t (<[l := (write, token)]> mode)
  end.

(** [delete_read_write_lock_parent], after the row was deleted.  [locked] are the tokens of
    the rows that other transactions have locked. *)
Definition delete_read_write_lock_parent (locked : list string) (t : lock_tables) (l : lock_id) (token : string) : py lock_tables :=
  let mode := worker_read_write_locks_mode t in
  match e with
  | Postgres =>
      match mode !! l with
      | None => Ok t
      | Some (write, mode_row_token) =>
          if negb (bool_decide (mode_row_token = token)) then Ok t
          else
            match filter (λ tk, tk ∉ locked) (tokens_of t l) with
            | [] =>
                let t := set_mode t (delete l mode) in
                raise_if (negb (rows_have_mode t l)) IntegrityError ;; Ok t
            | new_token :: _ => Ok (set_mode t (<[l := (write, new_token)]> mode))
            end
      end
  | SQLite =>
      match mode !! l, tokens_of t l with
      | None, _ => Ok t
      | Some (_, mode_token), [] => if bool_decide (mode_token = token) then Ok (set_mode t (delete l mode)) else Raise IntegrityError
      | Some (write, _), new_token :: _ => Ok (set_mode t (<[l := (write, new_token)]> mode))
      end
  end.

(** The insert of [_try_acquire_read_write_lock_txn] *)
Definition insert_read_write_lock (t : lock_tables) (l : lock_id) (write : bool) (instance_name token : string) (now : Z) : py lock_tables :=
  let t := upsert_read_write_lock_parent t l write token in
  let rows := worker_read_write_locks t in
  raise_if (bool_decide (is_Some (rows !! (l, token)))) IntegrityError ;;
  raise_if (write && existsb (λ '(k, r), bool_decide (k.1 = l) && write_lock r) (map_to_list rows)) IntegrityError ;;
  let t := set_rows t (<[(l, token) := MkRwRow instance_name write now]> rows) in
  raise_if (negb (rows_have_mode t l)) IntegrityError ;; Ok t.

(** [_try_acquire_multi_read_write_lock_txn], with the token and the time of each lock, and
    [_try_acquire_read_write_lock_txn] where there is one *)
Definition try_acquire_multi_read_write_lock_txn (t : lock_tables) (write : bool) (instance_name : string) (locks : list (lock_id * string * Z)) : py lock_tables :=
  t ← py_fold (λ t '(l, token, now), insert_read_write_lock t l write instance_name token now) t locks;
  commit t (map (λ x, x.1.1) locks).

(** A statement that deletes the rows [keys]: the triggers of PostgreSQL run when they are
    all gone, those of SQLite after each *)
Definition delete_read_write_locks (locked : list string) (t : lock_tables) (keys : list (lock_id * string)) : py lock_tables :=
  t ←
    match e with
    | Postgres =>
        py_fold (λ t '(l, token), delete_read_write_lock_parent locked t l token)
          (set_rows t (foldr delete (worker_read_write_locks t) keys)) keys
    | SQLite =>
        py_fold (λ t '(l, token), delete_read_write_lock_parent locked (set_rows t (delete (l, token) (worker_read_write_locks t))) l token) t keys
    end;
  commit t (map fst keys).

(** [reap_stale_read_write_locks_txn], with the time it has read *)
Definition reap_stale_read_write_locks_txn (locked : list string) (t : lock_tables) (now : Z) : py lock_tables :=
  delete_read_write_locks locked t
    (scan _ (map fst (filter (λ kr, rw_last_renewed_ts kr.2 < now - LOCK_TIMEOUT_MS) (map_to_list (worker_read_write_locks t))))).

(** ** The statements of [Lock] *)

(** The delete of [release] *)
Definition drop_lock (locked : list string) (t : lock_tables) (read_write : bool) (l : lock_id) (token : string) : py lock_tables :=
  if read_write then delete_read_write_locks locked t (if bool_decide (is_Some (worker_read_write_locks t !! (l, token))) then [(l, token)] else [])
  else
    match worker_locks t !! l with
    | Some r => if bool_decide (lr_token r = token) then Ok (MkLockTables (delete l (worker_locks t)) (worker_read_write_locks t) (worker_read_write_locks_mode t)) else Ok t
    | None => Ok t
    end.

(** The select of [is_still_valid] *)
Definition lock_last_renewed_ts (t : lock_tables) (read_write : bool) (l : lock_id) (token : string) : option Z :=
  if read_write then rw_last_renewed_ts <$> worker_read_write_locks t !! (l, token)
  else r ← worker_locks t !! l; if bool_decide (lr_token r = token) then Some (lr_last_renewed_ts r) else None.

(** The update of [_renew], with the time it has read *)
Definition renew_lock (t : lock_tables) (read_write : bool) (l : lock_id) (token : string) (now : Z) : lock_tables :=
  if read_write then set_rows t (alter (λ r, MkRwRow (rw_instance_name r) (write_lock r) now) (l, token) (worker_read_write_locks t))
  else
    MkLockTables (alter (λ r, if bool_decide (lr_token r = token) then MkLockRow (lr_instance_name r) (lr_token r) now else r) l (worker_locks t))
      (worker_read_write_locks t) (worker_read_write_locks_mode t).
End Tables.
