(* ===== verification/WorkerLockFacts.v ===== *)
(** * What the triggers and constraints of the lock tables add up to

    The table of modes stays in step with the rows of [worker_read_write_locks], so that for
    both engines the statements do what a table of rows alone would do, in which a lock is
    taken if nobody has it, or if it is to be read and has only readers. *)

From S2P Require Import Prelude StateGroups WorkerLocks.

Open Scope Z_scope.

Abbreviation rows := worker_read_write_locks.
Abbreviation mode := worker_read_write_locks_mode.

(** The mode of a lock is right, but for [gone], rows that were deleted already *)
Definition mode_ok_but (gone : list (lock_id * string)) (t : lock_tables) (l : lock_id) : Prop :=
  match mode t !! l with
  | None => ∀ tk, rows t !! (l, tk) = None
  | Some (w, tk) =>
      (is_Some (rows t !! (l, tk)) ∨ (l, tk) ∈ gone) ∧
      ∀ tk' r, rows t !! (l, tk') = Some r → write_lock r = w ∧ (w = true → tk' = tk)
  end.
Definition modes_ok (t : lock_tables) : Prop := ∀ l, mode_ok_but [] t l.

Lemma mode_ok_but_mono gone gone' t l : gone ⊆ gone' → mode_ok_but gone t l → mode_ok_but gone' t l.
Proof. unfold mode_ok_but. intros Hg. destruct (mode t !! l) as [[w tk]|]; [|done]. intros [[H|H] Hr]; split; eauto. Qed.

(** The mode of a lock depends on its own rows only. *)
Lemma mode_ok_but_ext gone t t' l :
  (∀ tk, rows t' !! (l, tk) = rows t !! (l, tk)) → mode t' !! l = mode t !! l → mode_ok_but gone t l → mode_ok_but gone t' l.
Proof.
  unfold mode_ok_but. intros Hr ->. destruct (mode t !! l) as [[w tk]|]; [|by intros H tk; rewrite Hr].
  rewrite Hr. intros [H1 H2]. split; [done|]. intros tk' r. rewrite Hr. apply H2.
Qed.

Lemma rows_have_mode_true t l :
  rows_have_mode t l = true ↔ ∀ tk r, rows t !! (l, tk) = Some r → fst <$> mode t !! l = Some (write_lock r).
Proof.
  unfold rows_have_mode. rewrite forallb_forall. split.
  - intros H tk r Hr. specialize (H ((l, tk), r)). rewrite <- list_elem_of_In, elem_of_map_to_list in H.
    specialize (H Hr). cbn in H. rewrite bool_decide_true in H by done. cbn in H. apply bool_decide_eq_true in H.
    by destruct (mode t !! l).
  - intros H [[l' tk] r]. rewrite <- list_elem_of_In, elem_of_map_to_list. intros Hr. cbn.
    destruct (decide (l' = l)) as [->|]; [|by rewrite bool_decide_false]. apply orb_true_iff. right. apply bool_decide_eq_true.
    specialize (H _ _ Hr). by destruct (mode t !! l).
Qed.

Lemma has_write_row t l :
  existsb (λ '(k, r), bool_decide (k.1 = l) && write_lock r) (map_to_list (rows t)) = true ↔ ∃ tk r, rows t !! (l, tk) = Some r ∧ write_lock r = true.
Proof.
  rewrite existsb_exists. split.
  - intros ([[l' tk] r] & Hr & Hb). rewrite <- list_elem_of_In, elem_of_map_to_list in Hr. cbn in Hb. apply andb_true_iff in Hb as [->%bool_decide_eq_true Hb]. by exists tk, r.
  - intros (tk & r & Hr & Hw). exists ((l, tk), r). rewrite <- list_elem_of_In, elem_of_map_to_list. split; [done|]. cbn. by rewrite bool_decide_true, Hw.
Qed.

(** ** The statements on the rows alone *)

(** A lock may be taken with a new token, if nobody has it or it has only readers and is to
    be read. *)
Definition may_take (rs : gmap (lock_id * string) rw_row) (l : lock_id) (write : bool) (token : string) : bool :=
  forallb (λ '(k, r), negb (bool_decide (k.1 = l)) || negb (bool_decide (k.2 = token)) && negb write && negb (write_lock r)) (map_to_list rs).

Lemma may_take_true rs l write token :
  may_take rs l write token = true ↔ ∀ tk r, rs !! (l, tk) = Some r → tk ≠ token ∧ write = false ∧ write_lock r = false.
Proof.
  unfold may_take. rewrite forallb_forall. split.
  - intros H tk r Hr. specialize (H ((l, tk), r)). rewrite <- list_elem_of_In, elem_of_map_to_list in H. specialize (H Hr). cbn in H.
    rewrite bool_decide_true in H by done. cbn in H. by apply andb_true_iff in H as [[?%negb_true_iff%bool_decide_eq_false ?%negb_true_iff]%andb_true_iff ?%negb_true_iff].
  - intros H [[l' tk] r]. rewrite <- list_elem_of_In, elem_of_map_to_list. intros Hr. cbn.
    destruct (decide (l' = l)) as [->|]; [|by rewrite bool_decide_false]. destruct (H _ _ Hr) as (Ht & -> & ->). by rewrite (bool_decide_false (tk = token)), orb_true_r.
Qed.

Definition spec_take (write : bool) (instance_name : string) (rs : gmap (lock_id * string) rw_row) (x : lock_id * string * Z) : py (gmap (lock_id * string) rw_row) :=
  let '(l, token, now) := x in
  if may_take rs l write token then Ok (<[(l, token) := MkRwRow instance_name write now]> rs) else Raise IntegrityError.

(** Another row of the lock may stand for its mode, *)
Lemma new_token_ok gone t l w tk new :
  (∀ tk' r, rows t !! (l, tk') = Some r → write_lock r = w ∧ (w = true → tk' = tk)) →
  is_Some (rows t !! (l, new)) → mode_ok_but gone (set_mode t (<[l := (w, new)]> (mode t))) l.
Proof.
  intros Hr [r' Hn]. unfold mode_ok_but. cbn. rewrite lookup_insert_eq. split; [left; by exists r'|].
  intros tk' r H'. destruct (Hr _ _ H') as [? Hw]. split; [done|]. intros Ew. rewrite Hw by done. by destruct (Hr _ _ Hn) as [_ ->].
Qed.

(** and the rows of other locks do not. *)
Lemma mode_ok_but_other gone t m l l' tk :
  mode_ok_but ((l, tk) :: gone) t l' → l' ≠ l → m !! l' = mode t !! l' → mode_ok_but gone (set_mode t m) l'.
Proof.
  unfold mode_ok_but. cbn. intros H Hne ->. destruct (mode t !! l') as [[w tk']|]; [|done]. destruct H as [[H|H] Hr]; split; try done; [by left|right]. set_solver.
Qed.

Lemma foldr_delete_lookup {K A} `{Countable K} (m : gmap K A) (keys : list K) k :
  foldr delete m keys !! k = if decide (k ∈ keys) then None else m !! k.
Proof.
  induction keys as [|k' keys IH]; cbn [foldr]; [by rewrite decide_False by apply not_elem_of_nil|].
  destruct (decide (k = k')) as [->|Hne]; [by rewrite lookup_delete_eq, decide_True by (by left)|].
  rewrite lookup_delete_ne by done. rewrite IH. apply decide_ext. rewrite elem_of_cons. naive_solver.
Qed.

Lemma rows_deleted_ok t keys l : modes_ok t → mode_ok_but keys (set_rows t (foldr delete (rows t) keys)) l.
Proof.
  intros Hok. specialize (Hok l). unfold mode_ok_but in *. cbn. destruct (mode t !! l) as [[w tk]|].
  - destruct Hok as [[Hs|[]%not_elem_of_nil] Hr]. split.
    + rewrite foldr_delete_lookup. destruct (decide _); [by right|by left].
    + intros tk' r. rewrite foldr_delete_lookup. destruct (decide _); [done|]. apply Hr.
  - intros tk. rewrite foldr_delete_lookup. destruct (decide _); [done|]. apply Hok.
Qed.

Lemma commit_ok t locks : modes_ok t → commit t locks = Ok t.
Proof.
  intros Hok. unfold commit. replace (forallb _ _) with true; [done|]. symmetry. apply forallb_forall. intros l _. specialize (Hok l).
  unfold mode_ok_but in Hok. unfold mode_has_row. destruct (mode t !! l) as [[w tk]|]; [|done]. destruct Hok as [[?|[]%not_elem_of_nil] _]. by apply bool_decide_eq_true.
Qed.

(** What is done with the read-write locks, when nothing else has locked rows of the tables *)
Inductive lock_op : Type :=
  | OpTake (write : bool) (instance_name : string) (locks : list (lock_id * string * Z))
  | OpDrop (l : lock_id) (token : string)
  | OpReap (now : Z)
  | OpRenew (l : lock_id) (token : string) (now : Z).

Definition run_op (e : engine) (scan : ∀ A : Type, list A → list A) (t : lock_tables) (op : lock_op) : py lock_tables :=
  match op with
  | OpTake write instance_name locks => try_acquire_multi_read_write_lock_txn e scan t write instance_name locks
  | OpDrop l token => drop_lock e scan [] t true l token
  | OpReap now => reap_stale_read_write_locks_txn e scan [] t now
  | OpRenew l token now => Ok (renew_lock t true l token now)
  end.

Definition spec_op (rs : gmap (lock_id * string) rw_row) (op : lock_op) : py (gmap (lock_id * string) rw_row) :=
  match op with
  | OpTake write instance_name locks => py_fold (spec_take write instance_name) rs locks
  | OpDrop l token => Ok (delete (l, token) rs)
  | OpReap now => Ok (filter (λ kr, now - LOCK_TIMEOUT_MS ≤ rw_last_renewed_ts kr.2) rs)
  | OpRenew l token now => Ok (alter (λ r, MkRwRow (rw_instance_name r) (write_lock r) now) (l, token) rs)
  end.

(** Transactions one after the other, with those that raised *)
Fixpoint run_log {S Op} (f : S → Op → py S) (s : S) (ops : list Op) : S * list (option exn) :=
  match ops with
  | [] => (s, [])
  | op :: ops =>
      match f s op with
      | Ok s' => let (s'', log) := run_log f s' ops in (s'', None :: log)
      | Raise ex => let (s'', log) := run_log f s ops in (s'', Some ex :: log)
      end
  end.

Lemma renew_modes_ok t read_write l token now : modes_ok t → modes_ok (renew_lock t read_write l token now).
Proof.
  intros Hok l'. specialize (Hok l'). destruct read_write; [|done]. unfold mode_ok_but in *. cbn.
  assert (∀ tk r, alter (λ r, MkRwRow (rw_instance_name r) (write_lock r) now) (l, token) (rows t) !! (l', tk) = Some r →
    ∃ r', rows t !! (l', tk) = Some r' ∧ write_lock r = write_lock r') as H.
  { intros tk r [(E & r' & -> & H)|[_ H]]%lookup_alter_Some; [|by exists r]. exists r'. split; [congruence|by rewrite H]. }
  destruct (mode t !! l') as [[w tk]|].
  - destruct Hok as [[Hs|[]%not_elem_of_nil] Hr]. split; [left; by apply lookup_alter_is_Some|]. intros tk' r (r' & Hr' & ->)%H. by apply Hr.
  - intros tk. apply eq_None_not_Some. intros [r (r' & Hr' & _)%H]. by rewrite Hok in Hr'.
Qed.

Section Facts.
Context (e : engine) (scan : ∀ A : Type, list A → list A) (scan_perm : ∀ (A : Type) (l : list A), scan A l ≡ₚ l).

Lemma elem_of_tokens_of t l tk : tk ∈ tokens_of scan t l ↔ is_Some (rows t !! (l, tk)).
Proof using scan_perm.
  unfold tokens_of. rewrite scan_perm, list_elem_of_fmap. split.
  - intros ([l' tk'] & -> & [Hl Hk]%list_elem_of_filter). cbn in Hl. subst l'. apply list_elem_of_fmap in Hk as ([k r] & Ek & Hk%elem_of_map_to_list). cbn in *. subst k. by exists r.
  - intros [r Hr]. exists (l, tk). split; [done|]. apply list_elem_of_filter. split; [done|]. apply list_elem_of_fmap. exists ((l, tk), r). by rewrite elem_of_map_to_list.
Qed.

Lemma tokens_of_nil t l : tokens_of scan t l = [] → ∀ tk, rows t !! (l, tk) = None.
Proof using scan_perm.
  intros H tk. apply eq_None_not_Some. rewrite <- elem_of_tokens_of, H. apply not_elem_of_nil.
Qed.

(** *** Taking locks *)

Lemma insert_read_write_lock_spec t l write instance_name token now :
  modes_ok t →
  match insert_read_write_lock e scan t l write instance_name token now with
  | Ok t' => spec_take write instance_name (rows t) (l, token, now) = Ok (rows t') ∧ modes_ok t' ∧ worker_locks t' = worker_locks t
  | Raise ex => spec_take write instance_name (rows t) (l, token, now) = Raise ex
  end.
Proof using scan_perm.
  intros Hok. pose proof (Hok l) as Hl. unfold insert_read_write_lock, spec_take.
  set (t1 := upsert_read_write_lock_parent e scan t l write token).
  assert (rows t1 = rows t ∧ worker_locks t1 = worker_locks t) as [Er Ew].
  { unfold t1, upsert_read_write_lock_parent. destruct e; [by destruct (mode t !! l)|done]. }
  assert (∀ l', l' ≠ l → mode t1 !! l' = mode t !! l') as Em.
  { intros l' Hl'. unfold t1, upsert_read_write_lock_parent. destruct e; [destruct (mode t !! l); [done|]|]; cbn; rewrite lookup_insert_ne by done; [done|].
    destruct (tokens_of scan t l); [|done]. by rewrite lookup_delete_ne. }
  rewrite Er. destruct (bool_decide (is_Some _)) eqn:Ek; cbn [raise_if mbind py_bind].
  { apply bool_decide_eq_true in Ek as [r Hr]. destruct (may_take _ _ _ _) eqn:Ea; [|done]. rewrite may_take_true in Ea. by destruct (Ea _ _ Hr) as [[] _]. }
  destruct (write && _) eqn:Ex; cbn [raise_if mbind py_bind].
  { apply andb_true_iff in Ex as [-> (tk & r & Hr & Hw)%has_write_row]. destruct (may_take _ _ _ _) eqn:Ea; [|done].
    rewrite may_take_true in Ea. by destruct (Ea _ _ Hr) as (_ & ? & _). }
  apply bool_decide_eq_false in Ek. apply eq_None_not_Some in Ek.
  assert (may_take (rows t) l write token = true → mode t1 !! l = Some (write, token) ∨ mode t1 !! l = mode t !! l ∧ ∃ tk, mode t !! l = Some (false, tk) ∧ write = false) as Hm.
  { rewrite may_take_true. intros Ha. unfold t1, upsert_read_write_lock_parent. destruct e; [|left; cbn; by rewrite lookup_insert_eq].
    destruct (mode t !! l) as [[w tk]|] eqn:Eml; [right|left; cbn; by rewrite lookup_insert_eq]. split; [done|].
    unfold mode_ok_but in Hl. rewrite Eml in Hl. destruct Hl as [[[r Hr]|[]%not_elem_of_nil] Hl]. destruct (Hl _ _ Hr) as [<- _]. destruct (Ha _ _ Hr) as (_ & -> & ->). eauto. }
  assert (rows_have_mode (set_rows t1 (<[(l, token):=MkRwRow instance_name write now]> (rows t))) l = may_take (rows t) l write token) as ->.
  { apply eq_true_iff_eq. rewrite rows_have_mode_true. split.
    - rewrite may_take_true. intros H tk r Hr. pose proof (H token _ (lookup_insert_eq _ _ _)) as Hw. rewrite (H tk r) in Hw by (cbn; rewrite lookup_insert_ne by congruence; done).
      injection Hw as Hw. cbn in Hw. split; [congruence|]. destruct write; [|done]. cbn in Ex. apply not_true_iff_false in Ex. destruct Ex. apply has_write_row. eauto.
    - intros Ha. specialize (Hm Ha). rewrite may_take_true in Ha. assert (fst <$> mode t1 !! l = Some write) as Hf by (destruct Hm as [->|(-> & tk & -> & ->)]; done).
      cbn. rewrite Hf. intros tk r. rewrite lookup_insert_Some. intros [[_ <-]|[_ Hr]]; [done|]. by destruct (Ha _ _ Hr) as (_ & -> & ->). }
  destruct (may_take (rows t) l write token) eqn:Ea; cbn; [|done]. split_and!; [done| |done].
  rewrite may_take_true in Ea. specialize (Hm eq_refl).
  intros l'. destruct (decide (l' = l)) as [->|Hne].
  - unfold mode_ok_but. cbn. destruct Hm as [Hm|(Hm & tk & Hm' & ->)]; rewrite Hm.
    + split; [left; by rewrite lookup_insert_eq|]. intros tk' r. rewrite lookup_insert_Some. intros [[[= <-] <-]|[Hne Hr]]; [done|].
      destruct (Ea _ _ Hr) as (_ & -> & ->). done.
    + rewrite Hm'. split; [left|intros tk' r; rewrite lookup_insert_Some; intros [[[= <-] <-]|[Hne Hr]]; [done|by destruct (Ea _ _ Hr) as (_ & _ & ->)]].
      unfold mode_ok_but in Hl. rewrite Hm' in Hl. destruct Hl as [[?|[]%not_elem_of_nil] _]. by apply lookup_insert_is_Some'; right.
  - apply (mode_ok_but_ext _ t); [|by apply Em|apply Hok]. intros tk. cbn. rewrite lookup_insert_ne by congruence. done.
Qed.

(** *** Dropping locks *)

Lemma delete_parent_spec locked t l tk gone :
  (e = SQLite → gone = []) → (∀ l', mode_ok_but ((l, tk) :: gone) t l') →
  match delete_read_write_lock_parent e scan locked t l tk with
  | Ok t' => (∀ l', mode_ok_but gone t' l') ∧ rows t' = rows t ∧ worker_locks t' = worker_locks t
  | Raise ex => ex = IntegrityError ∧ e = Postgres ∧ ∃ tk', tk' ∈ locked ∧ is_Some (rows t !! (l, tk'))
  end.
Proof using scan_perm.
  intros Hg Hok. pose proof (Hok l) as Hl. unfold mode_ok_but in Hl.
  assert (∀ m, (∀ l', l' ≠ l → m !! l' = mode t !! l') → mode_ok_but gone (set_mode t m) l → ∀ l', mode_ok_but gone (set_mode t m) l') as Hset.
  { intros m Hm Hml l'. destruct (decide (l' = l)) as [->|Hne]; [done|]. eapply mode_ok_but_other; eauto. }
  assert (set_mode t (mode t) = t) as Eset by by destruct t.
  unfold delete_read_write_lock_parent. destruct (mode t !! l) as [[w mt]|] eqn:Em; destruct e.
  - destruct Hl as [Hl Hr]. destruct (decide (mt = tk)) as [->|Hne]; [rewrite bool_decide_true by done|rewrite bool_decide_false by done]; cbn [negb].
    2:{ split; [|done]. rewrite <- Eset. apply Hset; [done|]. rewrite Eset. unfold mode_ok_but. rewrite Em. split; [|done]. destruct Hl as [?|[?|?]%elem_of_cons]; [by left|congruence|by right]. }
    destruct (filter _ (tokens_of scan t l)) as [|new l0] eqn:Ef.
    + destruct (rows_have_mode _ l) eqn:Eh; cbn.
      * split; [|done]. apply Hset; [intros; by rewrite lookup_delete_ne|]. unfold mode_ok_but. cbn. rewrite lookup_delete_eq. intros tk'.
        destruct (rows t !! (l, tk')) as [r|] eqn:Hr'; [|done]. rewrite rows_have_mode_true in Eh. specialize (Eh _ _ Hr'). cbn in Eh. by rewrite lookup_delete_eq in Eh.
      * split_and!; [done|done|]. destruct (tokens_of scan t l) as [|tk' l0] eqn:Et.
        { apply not_true_iff_false in Eh. destruct Eh. apply rows_have_mode_true. intros tk' r. cbn. by rewrite tokens_of_nil. }
        exists tk'. rewrite <- elem_of_tokens_of, Et. split; [|by left]. rewrite filter_cons in Ef. destruct (decide (tk' ∉ locked)) as [|Hin]; [done|]. by destruct (decide (tk' ∈ locked)).
    + split; [|done]. apply Hset; [intros; by rewrite lookup_insert_ne|]. apply (new_token_ok _ _ _ _ tk); [done|]. apply elem_of_tokens_of.
      assert (new ∈ filter (λ tk, tk ∉ locked) (tokens_of scan t l)) as [_ ?]%list_elem_of_filter by (rewrite Ef; by left). done.
  - rewrite (Hg eq_refl) in *. destruct Hl as [Hl Hr]. destruct (tokens_of scan t l) as [|new l0] eqn:Et.
    + assert (mt = tk) as -> by (destruct Hl as [[r Hm]|[?|[]%not_elem_of_nil]%elem_of_cons]; [by rewrite tokens_of_nil in Hm|congruence]).
      rewrite bool_decide_true by done. split; [|done]. apply Hset; [intros; by rewrite lookup_delete_ne|]. unfold mode_ok_but. cbn. rewrite lookup_delete_eq. by apply tokens_of_nil.
    + split; [|done]. apply Hset; [intros; by rewrite lookup_insert_ne|]. apply (new_token_ok _ _ _ _ mt); [done|apply elem_of_tokens_of; rewrite Et; by left].
  - split; [|done]. rewrite <- Eset. apply Hset; [done|]. rewrite Eset. unfold mode_ok_but. by rewrite Em.
  - split; [|done]. rewrite <- Eset. apply Hset; [done|]. rewrite Eset. unfold mode_ok_but. by rewrite Em.
Qed.

Lemma delete_parents_spec locked keys t :
  e = Postgres → (∀ l, mode_ok_but keys t l) →
  match py_fold (λ t '(l, token), delete_read_write_lock_parent e scan locked t l token) t keys with
  | Ok t' => modes_ok t' ∧ rows t' = rows t ∧ worker_locks t' = worker_locks t
  | Raise ex => ex = IntegrityError ∧ ∃ l tk tk', (l, tk) ∈ keys ∧ tk' ∈ locked ∧ is_Some (rows t !! (l, tk'))
  end.
Proof using scan_perm.
  intros He. revert t. induction keys as [|[l tk] keys IH]; intros t Hok; cbn [py_fold]; [done|].
  pose proof (delete_parent_spec locked t l tk keys) as Hs. destruct (delete_read_write_lock_parent e scan locked t l tk) as [t1|ex]; cbn [mbind py_bind].
  - destruct Hs as (H1 & <- & <-); [by rewrite He|done|]. specialize (IH t1 H1). destruct (py_fold _ t1 keys); [done|]. destruct IH as [-> (l' & tk1 & tk' & H' & ?)]. split; [done|].
    exists l', tk1, tk'. split; [by right|done].
  - destruct Hs as (-> & _ & tk' & ?); [by rewrite He|done|]. split; [done|]. exists l, tk, tk'. split; [by left|done].
Qed.

Lemma delete_in_turn_spec locked keys t :
  e = SQLite → modes_ok t →
  ∃ t', py_fold (λ t '(l, token), delete_read_write_lock_parent e scan locked (set_rows t (delete (l, token) (rows t))) l token) t keys = Ok t' ∧
    modes_ok t' ∧ (∀ k, rows t' !! k = if decide (k ∈ keys) then None else rows t !! k) ∧ worker_locks t' = worker_locks t.
Proof using scan_perm.
  intros He. revert t. induction keys as [|[l tk] keys IH]; intros t Hok; cbn [py_fold].
  - exists t. split_and!; [done|done| |done]. intros k. by rewrite decide_False by apply not_elem_of_nil.
  - pose proof (delete_parent_spec locked (set_rows t (delete (l, tk) (rows t))) l tk []) as Hs.
    destruct (delete_read_write_lock_parent e scan locked _ l tk) as [t1|ex]; cbn [mbind py_bind].
    2:{ destruct Hs as (_ & He' & _); [done| |congruence]. intros l'. by apply (rows_deleted_ok t [(l, tk)]). }
    destruct Hs as (H1 & Er & Ew); [done|intros l'; by apply (rows_deleted_ok t [(l, tk)])|]. destruct (IH t1 H1) as (t' & -> & H2 & Hr & Hw).
    exists t'. split_and!; [done|done| |by rewrite Hw]. intros k. rewrite Hr, Er. cbn. destruct (decide (k = (l, tk))) as [->|Hne].
    + rewrite lookup_delete_eq, (decide_True (P := _ ∈ _ :: _)) by (by left). by destruct (decide _).
    + rewrite lookup_delete_ne by done. apply decide_ext. rewrite elem_of_cons. naive_solver.
Qed.

(** The rows are deleted, unless PostgreSQL passes over a row that another transaction has
    locked. *)
Lemma delete_read_write_locks_spec locked t keys :
  modes_ok t →
  match delete_read_write_locks e scan locked t keys with
  | Ok t' => modes_ok t' ∧ rows t' = foldr delete (rows t) keys ∧ worker_locks t' = worker_locks t
  | Raise ex => ex = IntegrityError ∧ e = Postgres ∧ ∃ l tk tk', (l, tk) ∈ keys ∧ tk' ∈ locked ∧ (l, tk') ∉ keys ∧ is_Some (rows t !! (l, tk'))
  end.
Proof using scan_perm.
  intros Hok. unfold delete_read_write_locks. destruct e eqn:He.
  - pose proof (delete_parents_spec locked keys (set_rows t (foldr delete (rows t) keys)) He) as Hs. rewrite He in Hs. destruct (py_fold _ _ keys) as [t'|ex]; cbn [mbind py_bind].
    + destruct Hs as (H1 & H2 & H3); [intros l; by apply rows_deleted_ok|]. by rewrite commit_ok.
    + destruct Hs as (-> & l & tk & tk' & Hk & Ht & Hs); [intros l; by apply rows_deleted_ok|]. split_and!; [done|done|]. exists l, tk, tk'.
      cbn in Hs. rewrite foldr_delete_lookup in Hs. destruct (decide _); [by destruct Hs|done].
  - destruct (delete_in_turn_spec locked keys t He Hok) as (t' & Hf & H1 & H2 & H3). rewrite He in Hf. rewrite Hf. cbn. rewrite commit_ok by done.
    split_and!; [done| |done]. apply map_eq. intros k. by rewrite H2, foldr_delete_lookup.
Qed.

Lemma take_spec t write instance_name locks :
  modes_ok t →
  match try_acquire_multi_read_write_lock_txn e scan t write instance_name locks with
  | Ok t' => py_fold (spec_take write instance_name) (rows t) locks = Ok (rows t') ∧ modes_ok t' ∧ worker_locks t' = worker_locks t
  | Raise ex => py_fold (spec_take write instance_name) (rows t) locks = Raise ex
  end.
Proof using scan_perm.
  intros Hok. unfold try_acquire_multi_read_write_lock_txn. generalize (map (λ x : lock_id * string * Z, x.1.1) locks) as ls. intros ls.
  revert t Hok. induction locks as [|[[l token] now] locks IH]; intros t Hok; cbn [py_fold mbind py_bind].
  - by rewrite commit_ok.
  - pose proof (insert_read_write_lock_spec t l write instance_name token now Hok) as Hi.
    destruct (insert_read_write_lock e scan t l write instance_name token now) as [t1|ex]; cbn [mbind py_bind].
    + destruct Hi as (-> & H1 & <-). apply IH. done.
    + by rewrite Hi.
Qed.

Lemma reap_keys t (P : _ → Prop) `{∀ kr, Decision (P kr)} k :
  k ∈ scan _ (map fst (filter P (map_to_list (rows t)))) ↔ ∃ r, rows t !! k = Some r ∧ P (k, r).
Proof using scan_perm.
  rewrite scan_perm, list_elem_of_fmap. split.
  - intros ([k' r] & -> & [HP Hr%elem_of_map_to_list]%list_elem_of_filter). by exists r.
  - intros (r & Hr & HP). exists (k, r). split; [done|]. apply list_elem_of_filter. by rewrite elem_of_map_to_list.
Qed.

Lemma run_op_spec t op :
  modes_ok t →
  match run_op e scan t op with
  | Ok t' => spec_op (rows t) op = Ok (rows t') ∧ modes_ok t'
  | Raise ex => spec_op (rows t) op = Raise ex
  end.
Proof using scan_perm.
  intros Hok. destruct op as [write instance_name locks|l token|now|l token now]; cbn [run_op spec_op].
  - pose proof (take_spec t write instance_name locks Hok) as Ht. destruct (try_acquire_multi_read_write_lock_txn _ _ _ _ _ _); [|done]. by destruct Ht as (? & ? & ?).
  - unfold drop_lock. pose proof (delete_read_write_locks_spec [] t (if bool_decide (is_Some (rows t !! (l, token))) then [(l, token)] else []) Hok) as Hd.
    destruct (delete_read_write_locks _ _ _ _ _) as [t'|ex]; [|by destruct Hd as (_ & _ & ? & ? & ? & _ & []%not_elem_of_nil & _)].
    destruct Hd as (H1 & -> & _). split; [|done]. destruct (bool_decide _) eqn:Eb; [done|]. cbn. apply bool_decide_eq_false, eq_None_not_Some in Eb. by rewrite delete_id.
  - unfold reap_stale_read_write_locks_txn. match goal with |- context [delete_read_write_locks _ _ _ _ ?ks] => pose proof (delete_read_write_locks_spec [] t ks Hok) as Hd end.
    destruct (delete_read_write_locks _ _ _ _ _) as [t'|ex]; [|by destruct Hd as (_ & _ & ? & ? & ? & _ & []%not_elem_of_nil & _)].
    destruct Hd as (H1 & -> & _). split; [|done]. f_equal. apply map_eq. intros k. rewrite foldr_delete_lookup, map_lookup_filter.
    destruct (decide _) as [(r & Hr & HP)%reap_keys|Hn]; cbn in *.
    + rewrite Hr. cbn. by rewrite option_guard_False by lia.
    + destruct (rows t !! k) as [r|] eqn:Hr; [|done]. cbn. rewrite option_guard_True; [done|]. apply Z.nlt_ge. intros Hlt. apply Hn. apply reap_keys. by exists r.
  - split; [done|]. by apply (renew_modes_ok t true).
Qed.

End Facts.

Definition room_lock : lock_id := ("new_event_during_purge_lock", "!room").
Definition lock_ops : list lock_op :=
  [OpTake false "w1" [(room_lock, "a", 0)]; OpTake false "w2" [(room_lock, "b", 10)]; OpTake true "w3" [(("x", "y"), "c", 20); (room_lock, "d", 20)];
   OpDrop room_lock "a"; OpRenew room_lock "b" 30000; OpReap 150001; OpTake true "w3" [(room_lock, "e", 150002)]; OpTake false "w1" [(room_lock, "f", 150003)]].

