(* ===== verification/WorkerLockSystem.v ===== *)
(** * Locks between workers: the processes that take them

    [LockStore] and [Lock] of [storage/databases/main/lock.py], in any number of processes
    that share a database.  A coroutine runs without interruption until it awaits a
    transaction; between the transaction and the moment the coroutine goes on, anything else
    may happen.  The steps are functions of the whole state, and a run is a list of labels
    that say what happens next.  All processes read the same clock.  Tokens are drawn by
    [random_string] and are taken not to repeat.  Transactions are atomic and fail only on
    the constraints of the tables. *)

From S2P Require Import Prelude StateGroups WorkerLocks WorkerLockFacts.

Open Scope Z_scope.

(** A [Lock].  [lk_loop] is whether its looping call runs, if it was set up; [lk_renewing] has
    the time that a call of [_renew] read, while it awaits the update.  [lk_write] is what the lock was asked
    for and [lk_exited] is set once [release] was called: both are there for specification only. *)
Record Lock : Type := MkLock {
  lk_instance : string;
  lk_read_write : bool;
  lk_id : lock_id;
  lk_token : string;
  lk_write : bool;
  lk_loop : option bool;
  lk_renewing : option Z;
  lk_exited : bool;
  lk_dropped : bool;
}.

(** The coroutines that await a transaction, or that are to go on after it *)
Inductive lock_task : Type :=
  (** [_try_acquire_lock]: the select of [is_still_valid] of a lock that the process has *)
  | TryValid (i : string) (l : lock_id) (k : nat)
  | TryValidDone (i : string) (l : lock_id) (last_renewed_ts : option Z)
  (** and the insert *)
  | TryTaking (i : string) (l : lock_id) (token : string) (now : Z)
  | TryTaken (i : string) (l : lock_id) (token : string) (did_lock : bool)
  (** [try_acquire_read_write_lock] and [try_acquire_multi_read_write_lock] *)
  | RwTaking (i : string) (locks : list lock_id) (write : bool)
  (** [release], and the locks that [_on_shutdown] releases after it *)
  | Releasing (k : nat) (rest : list nat)
  | Released (k : nat) (rest : list nat)
  (** [_reap_stale_read_write_locks] *)
  | Reaping (i : string) (now : Z).

(** [_live_lock_tokens], [_live_read_write_lock_tokens] and [_acquiring_locks] are listed with the
    process that they belong to.  [drawn] are the tokens drawn so far. *)
Record lock_system : Type := MkSystem {
  tables : lock_tables;
  clock : Z;
  locks : gmap nat Lock;
  live_lock_tokens : gmap (string * lock_id) nat;
  live_read_write_lock_tokens : gmap (string * (lock_id * string)) nat;
  acquiring_locks : gset (string * lock_id);
  tasks : gmap nat lock_task;
  next_id : nat;
  drawn : gset string;
}.
Definition lock_system_init : lock_system := MkSystem no_locks 0 ∅ ∅ ∅ ∅ ∅ 0 ∅.

Definition upd_tables (s : lock_system) (t : lock_tables) : lock_system :=
  MkSystem t (clock s) (locks s) (live_lock_tokens s) (live_read_write_lock_tokens s) (acquiring_locks s) (tasks s) (next_id s) (drawn s).
Definition upd_locks (s : lock_system) (ls : gmap nat Lock) : lock_system :=
  MkSystem (tables s) (clock s) ls (live_lock_tokens s) (live_read_write_lock_tokens s) (acquiring_locks s) (tasks s) (next_id s) (drawn s).
Definition upd_tasks (s : lock_system) (ts : gmap nat lock_task) : lock_system :=
  MkSystem (tables s) (clock s) (locks s) (live_lock_tokens s) (live_read_write_lock_tokens s) (acquiring_locks s) ts (next_id s) (drawn s).
Definition upd_acquiring (s : lock_system) (a : gset (string * lock_id)) : lock_system :=
  MkSystem (tables s) (clock s) (locks s) (live_lock_tokens s) (live_read_write_lock_tokens s) a (tasks s) (next_id s) (drawn s).
Definition upd_live (s : lock_system) (m : gmap (string * lock_id) nat) : lock_system :=
  MkSystem (tables s) (clock s) (locks s) m (live_read_write_lock_tokens s) (acquiring_locks s) (tasks s) (next_id s) (drawn s).
Definition upd_live_rw (s : lock_system) (m : gmap (string * (lock_id * string)) nat) : lock_system :=
  MkSystem (tables s) (clock s) (locks s) (live_lock_tokens s) m (acquiring_locks s) (tasks s) (next_id s) (drawn s).
Definition upd_drawn (s : lock_system) (d : gset string) : lock_system :=
  MkSystem (tables s) (clock s) (locks s) (live_lock_tokens s) (live_read_write_lock_tokens s) (acquiring_locks s) (tasks s) (next_id s) d.
Definition upd_clock (s : lock_system) (c : Z) : lock_system :=
  MkSystem (tables s) c (locks s) (live_lock_tokens s) (live_read_write_lock_tokens s) (acquiring_locks s) (tasks s) (next_id s) (drawn s).

(** A coroutine starts, goes on to its next await, or ends. *)
Definition start_task (s : lock_system) (t : lock_task) : lock_system :=
  MkSystem (tables s) (clock s) (locks s) (live_lock_tokens s) (live_read_write_lock_tokens s) (acquiring_locks s) (<[next_id s := t]> (tasks s)) (S (next_id s)) (drawn s).
Definition set_task (s : lock_system) (n : nat) (t : lock_task) : lock_system := upd_tasks s (<[n := t]> (tasks s)).
Definition end_task (s : lock_system) (n : nat) : lock_system := upd_tasks s (delete n (tasks s)).

(** A new [Lock], whose looping call is to be set up later *)
Definition new_lock (s : lock_system) (i : string) (read_write : bool) (l : lock_id) (token : string) (write : bool) : lock_system :=
  MkSystem (tables s) (clock s) (<[next_id s := MkLock i read_write l token write None None false false]> (locks s)) (live_lock_tokens s) (live_read_write_lock_tokens s)
    (acquiring_locks s) (tasks s) (S (next_id s)) (drawn s).

(** [random_string(6)] *)
Definition draw (s : lock_system) (token : string) : option lock_system :=
  if bool_decide (token ∈ drawn s) then None
  else Some (upd_drawn s ({[token]} ∪ drawn s)).

(** ** [LockStore] *)

(** [try_acquire_lock] until it awaits.  It is returned with the token it draws, if it does. *)
Definition try_acquire_lock (s : lock_system) (i : string) (l : lock_id) (token : string) : option lock_system :=
  if bool_decide ((i, l) ∈ acquiring_locks s) then Some s
  else
    let s := upd_acquiring s ({[(i, l)]} ∪ acquiring_locks s) in
    match live_lock_tokens s !! (i, l) with
    | Some k => Some (start_task s (TryValid i l k))
    | None => s ← draw s token; Some (start_task s (TryTaking i l token (clock s)))
    end.

(** [try_acquire_lock] ends *)
Definition end_try (s : lock_system) (n : nat) (i : string) (l : lock_id) : lock_system :=
  upd_acquiring (end_task s n) (acquiring_locks s ∖ {[(i, l)]}).

(** [_try_acquire_lock] after [is_still_valid], *)
Definition try_acquire_lock_valid (s : lock_system) (n : nat) (i : string) (l : lock_id) (ts : option Z) (token : string) : option lock_system :=
  if match ts with Some ts => clock s - LOCK_TIMEOUT_MS <? ts | None => false end then Some (end_try s n i l)
  else s ← draw s token; Some (set_task s n (TryTaking i l token (clock s))).

(** and after the insert *)
Definition try_acquire_lock_taken (s : lock_system) (n : nat) (i : string) (l : lock_id) (token : string) (did_lock : bool) : lock_system :=
  let s := end_try s n i l in
  if did_lock then
    let k := next_id s in
    let s := new_lock s i false l token true in
    upd_live s (<[(i, l) := k]> (live_lock_tokens s))
  else s.

(** [set_lock] for each lock that the transaction has taken *)
Fixpoint set_locks (s : lock_system) (i : string) (write : bool) (ls : list (lock_id * string * Z)) : lock_system :=
  match ls with
  | [] => s
  | (l, token, _) :: ls =>
      let k := next_id s in
      let s := new_lock s i true l token write in
      set_locks (upd_live_rw s (<[(i, (l, token)) := k]> (live_read_write_lock_tokens s))) i write ls
  end.

Fixpoint draw_all (s : lock_system) (tokens : list string) : option lock_system :=
  match tokens with
  | [] => Some s
  | token :: tokens => s ← draw s token; draw_all s tokens
  end.

(** ** [Lock] *)

Definition stop_loop (k : Lock) : Lock :=
  MkLock (lk_instance k) (lk_read_write k) (lk_id k) (lk_token k) (lk_write k) (match lk_loop k with Some true => Some false | b => b end) (lk_renewing k) true (lk_dropped k).
Definition set_loop (k : Lock) : Lock :=
  MkLock (lk_instance k) (lk_read_write k) (lk_id k) (lk_token k) (lk_write k) (Some true) (lk_renewing k) (lk_exited k) (lk_dropped k).
Definition set_renewing (k : Lock) (r : option Z) : Lock :=
  MkLock (lk_instance k) (lk_read_write k) (lk_id k) (lk_token k) (lk_write k) (lk_loop k) r (lk_exited k) (lk_dropped k).
Definition set_dropped (k : Lock) : Lock :=
  MkLock (lk_instance k) (lk_read_write k) (lk_id k) (lk_token k) (lk_write k) (lk_loop k) (lk_renewing k) (lk_exited k) true.

(** [release] of the first of these locks that was not dropped, until it awaits, in the coroutine
    that [go] starts or goes on with *)
Fixpoint release_next (s : lock_system) (ks : list nat) (go : lock_system → lock_task → lock_system) (stop : lock_system → lock_system) : lock_system :=
  match ks with
  | [] => stop s
  | k :: ks =>
      match locks s !! k with
      | Some lk => if lk_dropped lk then release_next s ks go stop else go (upd_locks s (<[k := stop_loop lk]> (locks s))) (Releasing k ks)
      | None => release_next s ks go stop
      end
  end.
Definition release (s : lock_system) (k : nat) : lock_system := release_next s [k] start_task id.

(** [_on_shutdown] *)
Definition drop_locks_on_shutdown (s : lock_system) (i : string) : lock_system :=
  release_next s
    (map (λ x, x.2) (filter (λ x, x.1.1 = i) (map_to_list (live_lock_tokens s))) ++
     map (λ x, x.2) (filter (λ x, x.1.1 = i) (map_to_list (live_read_write_lock_tokens s)))) start_task id.

(** [release] after the delete *)
Definition release_done (s : lock_system) (n : nat) (k : nat) (rest : list nat) : option lock_system :=
  lk ← locks s !! k;
  let s :=
    if lk_read_write lk then upd_live_rw s (delete (lk_instance lk, (lk_id lk, lk_token lk)) (live_read_write_lock_tokens s))
    else upd_live s (delete (lk_instance lk, lk_id lk) (live_lock_tokens s)) in
  let s := upd_locks s (<[k := set_dropped lk]> (locks s)) in
  Some (release_next s rest (λ s t, set_task s n t) (λ s, end_task s n)).

(** The looping call of a lock calls [_renew], unless the call before has not ended. *)
Definition renew (s : lock_system) (k : nat) : option lock_system :=
  lk ← locks s !! k;
  match lk_loop lk, lk_renewing lk with
  | Some true, None => Some (upd_locks s (<[k := set_renewing lk (Some (clock s))]> (locks s)))
  | _, _ => None
  end.
Definition renew_txn (s : lock_system) (k : nat) : option lock_system :=
  lk ← locks s !! k;
  now ← lk_renewing lk;
  Some (upd_locks (upd_tables s (renew_lock (tables s) (lk_read_write lk) (lk_id lk) (lk_token lk) now)) (<[k := set_renewing lk None]> (locks s))).
Definition setup_looping_call (s : lock_system) (k : nat) : option lock_system :=
  lk ← locks s !! k;
  match lk_loop lk with None => Some (upd_locks s (<[k := set_loop lk]> (locks s))) | Some _ => None end.

(** The process that a coroutine runs in *)
Definition task_instance (s : lock_system) (t : lock_task) : option string :=
  match t with
  | TryValid i _ _ | TryValidDone i _ _ | TryTaking i _ _ _ | TryTaken i _ _ _ | RwTaking i _ _ | Reaping i _ => Some i
  | Releasing k _ | Released k _ => lk_instance <$> locks s !! k
  end.

(** A process dies; what it had inserted stays. *)
Definition crash (s : lock_system) (i : string) : lock_system :=
  MkSystem (tables s) (clock s) (filter (λ x, lk_instance x.2 ≠ i) (locks s)) (filter (λ x, x.1.1 ≠ i) (live_lock_tokens s))
    (filter (λ x, x.1.1 ≠ i) (live_read_write_lock_tokens s)) (filter (λ x, x.1 ≠ i) (acquiring_locks s))
    (filter (λ x, task_instance s x.2 ≠ Some i) (tasks s)) (next_id s) (drawn s).

(** ** Steps *)

Inductive label : Type :=
  | LTick (d : Z)
  | LTry (i : string) (l : lock_id) (token : string)
  | LTryReadWrite (i : string) (ls : list lock_id) (write : bool)
  | LTask (n : nat) (tokens : list string) (locked : list string)
  | LSetup (k : nat)
  | LRenew (k : nat)
  | LRenewTxn (k : nat)
  | LRelease (k : nat)
  | LReap (i : string)
  | LShutdown (i : string)
  | LCrash (i : string).

Section Steps.
Context (e : engine) (scan : ∀ A : Type, list A → list A).

(** A coroutine goes on: the transaction it awaits is done, or what follows it. *)
Definition run_task (s : lock_system) (n : nat) (t : lock_task) (tokens locked : list string) : option lock_system :=
  match t with
  | TryValid i l k =>
      lk ← locks s !! k;
      Some (set_task s n (TryValidDone i l (lock_last_renewed_ts (tables s) (lk_read_write lk) (lk_id lk) (lk_token lk))))
  | TryValidDone i l ts => try_acquire_lock_valid s n i l ts (default EmptyString (head tokens))
  | TryTaking i l token now =>
      let (t, did_lock) := try_acquire_lock_txn (tables s) l i token now in
      Some (set_task (upd_tables s t) n (TryTaken i l token did_lock))
  | TryTaken i l token did_lock => Some (try_acquire_lock_taken s n i l token did_lock)
  | RwTaking i ls write =>
      if negb (length tokens =? length ls)%nat then None
      else
        s ← draw_all s tokens;
        let ls := zip_with (λ l token, (l, token, clock s)) ls tokens in
        match try_acquire_multi_read_write_lock_txn e scan (tables s) write i ls with
        | Ok t => Some (set_locks (upd_tables (end_task s n) t) i write ls)
        | Raise _ => Some (end_task s n)
        end
  | Releasing k rest =>
      lk ← locks s !! k;
      match drop_lock e scan locked (tables s) (lk_read_write lk) (lk_id lk) (lk_token lk) with
      | Ok t => Some (set_task (upd_tables s t) n (Released k rest))
      | Raise _ => Some (end_task s n)
      end
  | Released k rest => release_done s n k rest
  | Reaping i now =>
      match reap_stale_read_write_locks_txn e scan locked (tables s) now with
      | Ok t => Some (end_task (upd_tables s t) n)
      | Raise _ => Some (end_task s n)
      end
  end.

Definition lock_step (s : lock_system) (lbl : label) : option lock_system :=
  match lbl with
  | LTick d => if d <? 0 then None else Some (upd_clock s (clock s + d))
  | LTry i l token => try_acquire_lock s i l token
  | LTryReadWrite i ls write => Some (start_task s (RwTaking i ls write))
  | LTask n tokens locked => t ← tasks s !! n; run_task s n t tokens locked
  | LSetup k => setup_looping_call s k
  | LRenew k => renew s k
  | LRenewTxn k => renew_txn s k
  | LRelease k => Some (release s k)
  | LReap i => Some (start_task s (Reaping i (clock s)))
  | LShutdown i => Some (drop_locks_on_shutdown s i)
  | LCrash i => Some (crash s i)
  end.

(** ** Runs *)

(** The states that are reached through states in which [P] holds *)
Inductive reach (P : lock_system → bool) : lock_system → Prop :=
  | reach_init : reach P lock_system_init
  | reach_step s lbl s' : reach P s → P s = true → lock_step s lbl = Some s' → reach P s'.

(** A run by its labels, which stops where [P] does not hold *)
Fixpoint run_labels (P : lock_system → bool) (s : lock_system) (ls : list label) : option lock_system :=
  match ls with
  | [] => Some s
  | lbl :: ls => if P s then s' ← lock_step s lbl; run_labels P s' ls else None
  end.
End Steps.

(** ** Who holds locks *)

(** A lock is held from the moment its row was inserted until [release] is called. *)
Definition holds (s : lock_system) (h : string * bool * lock_id * string) : Prop :=
  let '(i, read_write, l, token) := h in
  (∃ k lk, locks s !! k = Some lk ∧ lk_exited lk = false ∧ lk_instance lk = i ∧ lk_read_write lk = read_write ∧ lk_id lk = l ∧ lk_token lk = token) ∨
  read_write = false ∧ ∃ n, tasks s !! n = Some (TryTaken i l token true).

Definition holders (s : lock_system) : list (string * bool * lock_id * string) :=
  omap (λ x, if lk_exited x.2 then None else Some (lk_instance x.2, lk_read_write x.2, lk_id x.2, lk_token x.2)) (map_to_list (locks s)) ++
  omap (λ x, match x.2 with TryTaken i l token true => Some (i, false, l, token) | _ => None end) (map_to_list (tasks s)).

(** The locks that are held have been renewed within the time-out, and what [is_still_valid] has
    read is looked at before it is that old. *)
Definition in_time (s : lock_system) : bool :=
  forallb (λ '(i, read_write, l, token),
    match lock_last_renewed_ts (tables s) read_write l token with Some ts => clock s - LOCK_TIMEOUT_MS <? ts | None => true end) (holders s) &&
  forallb (λ x, match x.2 with TryValidDone _ _ (Some ts) => clock s - LOCK_TIMEOUT_MS <? ts | _ => true end) (map_to_list (tasks s)).

(** No process tries to take a lock that it is releasing. *)
Definition tries (t : lock_task) : option (string * lock_id) :=
  match t with
  | TryValid i l _ | TryValidDone i l _ | TryTaking i l _ _ | TryTaken i l _ _ => Some (i, l)
  | _ => None
  end.
Definition releases (s : lock_system) (t : lock_task) : option (string * lock_id) :=
  match t with
  | Releasing k _ | Released k _ => lk ← locks s !! k; if lk_read_write lk then None else Some (lk_instance lk, lk_id lk)
  | _ => None
  end.
Definition no_overlap (s : lock_system) : bool :=
  let ts := map snd (map_to_list (tasks s)) in
  forallb (λ x, bool_decide (x ∉ omap (releases s) ts)) (omap tries ts).
