(* ===== verification/WorkerLockExclusion.v ===== *)
(** * Locks between workers: exclusion

    Who holds a lock has its row, as long as locks that are held are renewed in time. *)

From S2P Require Import Prelude StateGroups WorkerLocks WorkerLockFacts WorkerLockSystem.

Open Scope Z_scope.

(** ** Tokens, and what coroutines know *)

(** The token of a coroutine that takes a lock *)
Definition task_token (t : lock_task) : option string :=
  match t with TryTaking _ _ token _ | TryTaken _ _ token _ => Some token | _ => None end.
(** The time a coroutine has read *)
Definition task_time (t : lock_task) : option Z :=
  match t with TryTaking _ _ _ now | Reaping _ now => Some now | _ => None end.
(** The lock a coroutine releases *)
Definition task_lock (t : lock_task) : option nat :=
  match t with Releasing k _ | Released k _ => Some k | _ => None end.

Definition owns (s : lock_system) (o : nat) (token : string) : Prop :=
  lk_token <$> locks s !! o = Some token ∨ (tasks s !! o ≫= task_token) = Some token.

Record sys_inv (s : lock_system) : Prop := MkSysInv {
  inv_lock_id : ∀ k lk, locks s !! k = Some lk → (k < next_id s)%nat;
  inv_task_id : ∀ n t, tasks s !! n = Some t → (n < next_id s)%nat;
  inv_apart : ∀ n t, tasks s !! n = Some t → locks s !! n = None;
  inv_drawn : ∀ o token, owns s o token → token ∈ drawn s;
  inv_token : ∀ o o' token, owns s o token → owns s o' token → o = o';
  inv_released : ∀ n t k, tasks s !! n = Some t → task_lock t = Some k → ∃ lk, locks s !! k = Some lk ∧ lk_exited lk = true;
  inv_time : ∀ n t now, tasks s !! n = Some t → task_time t = Some now → now ≤ clock s;
}.

(** A lock that changes keeps what it is. *)
Definition same_lock (lk lk' : Lock) : Prop :=
  lk_instance lk' = lk_instance lk ∧ lk_read_write lk' = lk_read_write lk ∧ lk_id lk' = lk_id lk ∧ lk_token lk' = lk_token lk ∧ lk_write lk' = lk_write lk ∧
  (lk_exited lk = true → lk_exited lk' = true).

Lemma sys_inv_tables s t : sys_inv s → sys_inv (upd_tables s t).
Proof. by intros []. Qed.
Lemma sys_inv_acquiring s a : sys_inv s → sys_inv (upd_acquiring s a).
Proof. by intros []. Qed.
Lemma sys_inv_live s m : sys_inv s → sys_inv (upd_live s m).
Proof. by intros []. Qed.
Lemma sys_inv_live_rw s m : sys_inv s → sys_inv (upd_live_rw s m).
Proof. by intros []. Qed.

Lemma sys_inv_lock s k lk lk' : sys_inv s → locks s !! k = Some lk → same_lock lk lk' → sys_inv (upd_locks s (<[k := lk']> (locks s))).
Proof.
  intros [I1 I2 I0 I3 I4 I5 I6] Hk (_ & _ & _ & Et & _ & Ee).
  assert (∀ o token, owns (upd_locks s (<[k := lk']> (locks s))) o token → owns s o token) as Ho.
  { intros o token [H|H]; [left|by right]. cbn in H. destruct (decide (o = k)) as [->|Hne]; [|by rewrite lookup_insert_ne in H].
    rewrite lookup_insert_eq in H. rewrite Hk. cbn in *. by rewrite <- Et. }
  split; cbn; [|done| |by intros o token H%Ho; apply (I3 o)|by intros o o' token H%Ho H'%Ho; eapply I4| |done].
  - intros k' lk1 [[<- _]|[_ H]]%lookup_insert_Some; eauto.
  - intros n t Hn. apply lookup_insert_None. split; [by eapply I0|]. intros ->. by rewrite (I0 _ _ Hn) in Hk.
  - intros n t k' Ht Hr. destruct (I5 _ _ _ Ht Hr) as (lk1 & H1 & H2). destruct (decide (k' = k)) as [->|Hne].
    + exists lk'. rewrite lookup_insert_eq. split; [done|]. apply Ee. congruence.
    + exists lk1. by rewrite lookup_insert_ne.
Qed.

(** A coroutine goes on.  It may have drawn a token that nobody has, and it may release a lock
    once this is marked. *)
Lemma sys_inv_task s n t :
  sys_inv s → (n < next_id s)%nat ∧ locks s !! n = None →
  (∀ token, task_token t = Some token → token ∈ drawn s ∧ ∀ o, owns s o token → o = n) →
  (∀ k, task_lock t = Some k → ∃ lk, locks s !! k = Some lk ∧ lk_exited lk = true) →
  (∀ now, task_time t = Some now → now ≤ clock s) →
  sys_inv (set_task s n t).
Proof.
  intros [I1 I2 I0 I3 I4 I5 I6] [Hn Hl] Ht Hk Hc.
  assert (∀ o token, owns (set_task s n t) o token → owns s o token ∨ o = n ∧ task_token t = Some token) as Ho.
  { intros o token [H|H]; [by left; left|]. cbn in H. destruct (decide (o = n)) as [->|Hne]; [rewrite lookup_insert_eq in H; by right|].
    rewrite lookup_insert_ne in H by done. by left; right. }
  split; cbn; [done| | | | | |].
  - intros m t' [[<- _]|[_ H]]%lookup_insert_Some; eauto.
  - intros m t' [[<- _]|[_ H]]%lookup_insert_Some; eauto.
  - intros o token [H|[-> H]]%Ho; [by eapply I3|by apply Ht].
  - intros o o' token [H|[-> H]]%Ho [H'|[-> H']]%Ho; [by eapply I4| | |done].
    + destruct (Ht _ H') as [_ Hu]. by apply Hu.
    + destruct (Ht _ H) as [_ Hu]. symmetry. by apply Hu.
  - intros m t' k [[<- <-]|[_ H]]%lookup_insert_Some; eauto.
  - intros m t' now [[<- <-]|[_ H]]%lookup_insert_Some; eauto.
Qed.

Lemma owns_end_task s n o token : owns (end_task s n) o token → owns s o token.
Proof.
  intros [H|H]; [by left|right]. cbn in H. destruct (decide (o = n)) as [->|Hne]; [by rewrite lookup_delete_eq in H|by rewrite lookup_delete_ne in H].
Qed.

Lemma sys_inv_end s n : sys_inv s → sys_inv (end_task s n).
Proof.
  intros [I1 I2 I0 I3 I4 I5 I6].
  pose proof (owns_end_task s n) as Ho.
  split; cbn; [done| | |by intros o token H%Ho; apply (I3 o)|by intros o o' token H%Ho H'%Ho; eapply I4| |].
  - intros m t [_ H]%lookup_delete_Some; eauto.
  - intros m t [_ H]%lookup_delete_Some; eauto.
  - intros m t k [_ H]%lookup_delete_Some; eauto.
  - intros m t now [_ H]%lookup_delete_Some; eauto.
Qed.

(** Identifiers that were not given out yet are free. *)
Lemma sys_inv_next s (n : nat) :
  sys_inv s → (next_id s ≤ n)%nat →
  sys_inv (MkSystem (tables s) (clock s) (locks s) (live_lock_tokens s) (live_read_write_lock_tokens s) (acquiring_locks s) (tasks s) n (drawn s)) ∧
  locks s !! n = None ∧ tasks s !! n = None.
Proof.
  intros [I1 I2 I0 I3 I4 I5 I6] Hn. split_and!.
  - split; cbn; try done; [intros k lk Hk%I1; lia|intros k lk Hk%I2; lia].
  - apply eq_None_not_Some. intros [lk Hk%I1]. lia.
  - apply eq_None_not_Some. intros [t Hk%I2]. lia.
Qed.

Lemma sys_inv_start s t :
  sys_inv s →
  (∀ token, task_token t = Some token → token ∈ drawn s ∧ ∀ o, ¬ owns s o token) →
  (∀ k, task_lock t = Some k → ∃ lk, locks s !! k = Some lk ∧ lk_exited lk = true) →
  (∀ now, task_time t = Some now → now ≤ clock s) →
  sys_inv (start_task s t).
Proof.
  intros Hi Ht Hk Hc. destruct (sys_inv_next s (S (next_id s)) Hi) as (Hi' & _); [lia|]. destruct (sys_inv_next s (next_id s) Hi) as (_ & Hl & _); [lia|].
  refine (sys_inv_task _ (next_id s) t Hi' _ _ _ _); [split; [cbn; lia|exact Hl]| |exact Hk|exact Hc].
  intros token H. destruct (Ht _ H) as [Hd Ho]. split; [done|]. intros o H'. by destruct (Ho o).
Qed.

(** Tokens that were just drawn are nobody's. *)
Lemma sys_inv_draw s token s' :
  sys_inv s → draw s token = Some s' → sys_inv s' ∧ token ∈ drawn s' ∧ (∀ o, ¬ owns s' o token) ∧ s' = upd_drawn s ({[token]} ∪ drawn s).
Proof.
  intros [I1 I2 I0 I3 I4 I5 I6]. unfold draw. destruct (bool_decide _) eqn:Eb; [done|]. apply bool_decide_eq_false in Eb. intros [= <-]. split_and!; [|cbn; set_solver| |done].
  - split; try done. cbn. intros o tk H. apply elem_of_union_r. by apply (I3 o).
  - intros o H. apply Eb. by apply (I3 o).
Qed.

Lemma owns_new_lock s i read_write l token write o tk : owns (new_lock s i read_write l token write) o tk → owns s o tk ∨ o = next_id s ∧ tk = token.
Proof.
  intros [H|H]; [|by left; right]. cbn in H. destruct (decide (o = next_id s)) as [->|Hne]; [rewrite lookup_insert_eq in H; injection H as <-; by right|].
  rewrite lookup_insert_ne in H by done. by left; left.
Qed.

Lemma sys_inv_new_lock s i read_write l token write :
  sys_inv s → token ∈ drawn s → (∀ o, ¬ owns s o token) → sys_inv (new_lock s i read_write l token write).
Proof.
  intros Hi Hd Ho. pose proof Hi as [I1 I2 I0 I3 I4 I5 I6]. destruct (sys_inv_next s (next_id s) Hi) as (_ & Hl & Ht); [lia|].
  pose proof (owns_new_lock s i read_write l token write) as Hn.
  split; cbn.
  - intros k lk [[<- _]|[_ H%I1]]%lookup_insert_Some; lia.
  - intros n t H%I2. lia.
  - intros n t H. apply lookup_insert_None. split; [by eapply I0|]. intros <-. congruence.
  - intros o tk [H|[-> ->]]%Hn; [by apply (I3 o)|done].
  - intros o o' tk [H|[-> ->]]%Hn [H'|[-> E']]%Hn; [by eapply I4|subst; by destruct (Ho o)|by destruct (Ho o')|done].
  - intros n t k Hn' Hk. destruct (I5 _ _ _ Hn' Hk) as (lk & H1 & H2). exists lk. rewrite lookup_insert_ne by (intros <-; congruence). done.
  - done.
Qed.

(** A process is gone. *)
Lemma sys_inv_crash s i : sys_inv s → sys_inv (crash s i).
Proof.
  intros [I1 I2 I0 I3 I4 I5 I6].
  assert (∀ o token, owns (crash s i) o token → owns s o token) as Ho.
  { intros o token [(lk & [H _]%map_lookup_filter_Some & ->)%fmap_Some|(t & [H _]%map_lookup_filter_Some & Ht)%bind_Some]; [left|right]; by rewrite H. }
  split; cbn; [| | |by intros o token H%Ho; apply (I3 o)|by intros o o' token H%Ho H'%Ho; eapply I4| |].
  - intros k lk [H _]%map_lookup_filter_Some. eauto.
  - intros n t [H _]%map_lookup_filter_Some. eauto.
  - intros n t [H _]%map_lookup_filter_Some. apply map_lookup_filter_None. left. eauto.
  - intros n t k [H Hi]%map_lookup_filter_Some Hk. destruct (I5 _ _ _ H Hk) as (lk & H1 & H2). exists lk. split; [|done].
    apply map_lookup_filter_Some. split; [done|]. cbn in *. intros <-. apply Hi. destruct t; try done; injection Hk as ->; cbn; by rewrite H1.
  - intros n t now [H _]%map_lookup_filter_Some. eauto.
Qed.

Lemma sys_inv_draw_all s tokens s' :
  sys_inv s → draw_all s tokens = Some s' →
  sys_inv s' ∧ NoDup tokens ∧ (∀ token, token ∈ tokens → token ∈ drawn s' ∧ ∀ o, ¬ owns s' o token) ∧ s' = upd_drawn s (drawn s').
Proof.
  revert s. induction tokens as [|token tokens IH]; intros s Hi Hd; cbn [draw_all] in Hd.
  - injection Hd as <-. split_and!; [done|constructor|by intros ? []%not_elem_of_nil|by destruct s].
  - destruct (draw s token) as [s1|] eqn:E1; [|done]. cbn in Hd. destruct (sys_inv_draw _ _ _ Hi E1) as (H1 & Hd1 & Ho1 & Es1).
    destruct (IH _ H1 Hd) as (H2 & Hn & Ht & Es2).
    assert (token ∈ drawn s' ∧ token ∉ tokens) as [Hd2 Hn2].
    { clear -Hd Hd1. revert s1 Hd Hd1. induction tokens as [|tk tokens IH]; intros s1 Hd Hd1; cbn [draw_all] in Hd; [injection Hd as <-; split; [done|apply not_elem_of_nil]|].
      unfold draw in Hd at 1. destruct (bool_decide _) eqn:Eb; [done|]. apply bool_decide_eq_false in Eb. cbn in Hd. destruct (IH _ Hd) as [? ?]; [cbn; set_solver|].
      split; [done|]. apply not_elem_of_cons. split; [|done]. intros ->. done. }
    split_and!; [done|by constructor| |by rewrite Es2 at 1; rewrite Es1].
    intros tk [->|Htk]%elem_of_cons; [|by apply Ht]. split; [done|]. intros o H. apply (Ho1 o). by rewrite Es2 in H.
Qed.

Lemma sys_inv_set_locks i write ls s :
  sys_inv s → NoDup (map (λ x : lock_id * string * Z, x.1.2) ls) → (∀ token, token ∈ map (λ x : lock_id * string * Z, x.1.2) ls → token ∈ drawn s ∧ ∀ o, ¬ owns s o token) →
  sys_inv (set_locks s i write ls).
Proof.
  revert s. induction ls as [|[[l token] now] ls IH]; intros s Hi Hn Ho; cbn [set_locks]; [done|]. cbn in Hn. apply NoDup_cons in Hn as [Hn1 Hn].
  destruct (Ho token) as [Hd Hu]; [by left|]. apply IH; [apply sys_inv_live_rw; by apply sys_inv_new_lock|done|].
  intros tk Htk. destruct (Ho tk) as [Hd' Hu']; [by right|]. split; [done|]. by intros o [H|[-> ->]]%owns_new_lock; [apply (Hu' o)|].
Qed.

Lemma zip_tokens (ls : list lock_id) tokens (now : Z) : length tokens = length ls → map (λ x : lock_id * string * Z, x.1.2) (zip_with (λ l token, (l, token, now)) ls tokens) = tokens.
Proof. revert tokens. induction ls as [|l ls IH]; intros [|token tokens] El; try done. cbn. f_equal. apply IH. by injection El. Qed.

(** [release_next] releases at most one lock. *)
Lemma release_next_ind (Q : lock_system → Prop) s ks go stop :
  Q (stop s) → (∀ k lk rest, locks s !! k = Some lk → lk_dropped lk = false → Q (go (upd_locks s (<[k := stop_loop lk]> (locks s))) (Releasing k rest))) →
  Q (release_next s ks go stop).
Proof.
  intros Hs Hg. induction ks as [|k ks IH]; cbn [release_next]; [done|]. destruct (locks s !! k) as [lk|] eqn:Ek; [|done]. destruct (lk_dropped lk) eqn:Ed; [done|]. by apply Hg.
Qed.

Lemma sys_inv_release s k lk : sys_inv s → locks s !! k = Some lk → sys_inv (upd_locks s (<[k := stop_loop lk]> (locks s))).
Proof. intros. by eapply sys_inv_lock. Qed.

Lemma sys_inv_release_done s n t k rest s' : sys_inv s → tasks s !! n = Some t → release_done s n k rest = Some s' → sys_inv s'.
Proof.
  intros Hi Ht. unfold release_done. destruct (locks s !! k) as [lk|] eqn:Ek; [|done]. cbn. intros [= <-].
  match goal with |- sys_inv (release_next ?x _ _ _) => set (s1 := x) end.
  assert (sys_inv s1 ∧ tasks s1 = tasks s) as (H1 & E1).
  { unfold s1. destruct (lk_read_write lk); (split; [|done]); (eapply sys_inv_lock; [|exact Ek|done]); [by apply sys_inv_live_rw|by apply sys_inv_live]. }
  clearbody s1. rewrite <- E1 in Ht. apply release_next_ind; [by apply sys_inv_end|]. intros k' lk' rest' Hk' _.
  assert (sys_inv (upd_locks s1 (<[k' := stop_loop lk']> (locks s1)))) as H2 by by eapply sys_inv_lock.
  apply sys_inv_task; [done|split; [by apply (inv_task_id _ H2 n t)|by apply (inv_apart _ H2 n t)]|done| |done].
  intros k1 [= <-]. eexists. split; [apply lookup_insert_eq|done].
Qed.

Section Steps.
Context (e : engine) (scan : ∀ A : Type, list A → list A).

Lemma sys_inv_run_task s n t tokens locked s' : sys_inv s → tasks s !! n = Some t → run_task e scan s n t tokens locked = Some s' → sys_inv s'.
Proof using Type.
  intros Hi Ht Hr. pose proof (conj (inv_task_id _ Hi _ _ Ht) (inv_apart _ Hi _ _ Ht)) as Hn. destruct t as [i l k|i l ts|i l token now|i l token did|i ls write|k rest|k rest|i now]; cbn [run_task] in Hr.
  - destruct (locks s !! k); [|done]. injection Hr as <-. by apply sys_inv_task.
  - unfold try_acquire_lock_valid in Hr. destruct (match ts with Some ts => _ | None => _ end); [injection Hr as <-; by apply sys_inv_acquiring, sys_inv_end|].
    destruct (draw _ _) as [s1|] eqn:Ed; [|done]. injection Hr as <-. destruct (sys_inv_draw _ _ _ Hi Ed) as (H1 & H2 & H3 & E). apply sys_inv_task; [done|by rewrite E| |done|].
    + intros token [= <-]. split; [done|]. intros o Ho. by destruct (H3 o).
    + intros now [= <-]. done.
  - destruct (try_acquire_lock_txn _ _ _ _ _) as [t did]. injection Hr as <-. apply sys_inv_task; [by apply sys_inv_tables|done| |done|done].
    assert (owns s n token) as Ho by (right; by rewrite Ht). intros tk [= <-]. split; [exact (inv_drawn s Hi n token Ho)|]. intros o Ho'. exact (inv_token s Hi _ _ token Ho' Ho).
  - injection Hr as <-. unfold try_acquire_lock_taken. assert (owns s n token) as Ho by (right; by rewrite Ht). assert (sys_inv (end_try s n i l)) as He by (by apply sys_inv_acquiring, sys_inv_end).
    destruct did; [|done]. apply sys_inv_live, sys_inv_new_lock; [done|exact (inv_drawn s Hi n token Ho)|].
    intros o Ho'. assert (owns s o token) as Ho2 by by apply (owns_end_task s n).
    assert (o = n) as -> by exact (inv_token s Hi _ _ token Ho2 Ho). destruct Ho' as [H|H]; cbn in H; [|by rewrite lookup_delete_eq in H]. destruct Hn as [_ Hn]. by rewrite Hn in H.
  - destruct (negb _) eqn:El; [done|]. apply negb_false_iff, Nat.eqb_eq in El. destruct (draw_all s tokens) as [s1|] eqn:Ed; [|done]. cbn in Hr.
    destruct (sys_inv_draw_all _ _ _ Hi Ed) as (H1 & Hnd & Hf & Es). destruct (try_acquire_multi_read_write_lock_txn _ _ _ _ _ _) as [t|ex]; injection Hr as <-; [|by apply sys_inv_end].
    apply sys_inv_set_locks; rewrite ?zip_tokens by done; [apply sys_inv_tables; by apply sys_inv_end|done|]. intros token H. destruct (Hf _ H) as [Hd Ho]. split; [done|].
    intros o Ho'. by apply (Ho o), (owns_end_task s1 n).
  - destruct (locks s !! k) as [lk|] eqn:Ek; [|done]. cbn in Hr. destruct (drop_lock _ _ _ _ _ _ _); injection Hr as <-; [|by apply sys_inv_end].
    apply sys_inv_task; [by apply sys_inv_tables|done|done| |done]. intros k' [= <-]. by apply (inv_released _ Hi _ _ _ Ht).
  - by eapply sys_inv_release_done.
  - destruct (reap_stale_read_write_locks_txn _ _ _ _ _); injection Hr as <-; apply sys_inv_end; [by apply sys_inv_tables|done].
Qed.

Lemma sys_inv_init : sys_inv lock_system_init.
Proof using Type.
  split; cbn; try (intros *; rewrite lookup_empty; done).
  - intros o token [H|H]; cbn in H; by rewrite lookup_empty in H.
  - intros o o' token [H|H]; cbn in H; by rewrite lookup_empty in H.
Qed.

Lemma sys_inv_start_release s ks : sys_inv s → sys_inv (release_next s ks start_task id).
Proof using Type.
  intros Hi. apply release_next_ind; [done|]. intros k lk rest Hk _. apply sys_inv_start; [by eapply sys_inv_lock|done| |done].
  intros k' [= <-]. eexists. split; [apply lookup_insert_eq|done].
Qed.

Lemma sys_inv_step s lbl s' : sys_inv s → lock_step e scan s lbl = Some s' → sys_inv s'.
Proof using Type.
  intros Hi. destruct lbl as [d|i l token|i ls write|n tokens locked|k|k|k|k|i|i|i]; cbn [lock_step]; intros Hs.
  - destruct (Z.ltb_spec d 0); [done|]. injection Hs as <-. destruct Hi as [I1 I2 I0 I3 I4 I5 I6]. split; try done. cbn. intros n t now Hn Ht. specialize (I6 _ _ _ Hn Ht). lia.
  - unfold try_acquire_lock in Hs. destruct (bool_decide _); [by injection Hs as <-|]. cbn in Hs. destruct (live_lock_tokens s !! (i, l)); [injection Hs as <-; apply sys_inv_start; [by apply sys_inv_acquiring|done..]|].
    destruct (draw _ token) as [s1|] eqn:Ed; [|done]. injection Hs as <-. destruct (sys_inv_draw _ _ _ (sys_inv_acquiring _ _ Hi) Ed) as (H1 & H2 & H3 & _).
    apply sys_inv_start; [done|by intros tk [= <-]|done|by intros now [= <-]].
  - injection Hs as <-. by apply sys_inv_start.
  - destruct (tasks s !! n) as [t|] eqn:Ht; [|done]. by eapply sys_inv_run_task.
  - unfold setup_looping_call in Hs. destruct (locks s !! k) as [lk|] eqn:Hk; [|done]. cbn in Hs. destruct (lk_loop lk); [done|]. injection Hs as <-. by eapply sys_inv_lock.
  - unfold renew in Hs. destruct (locks s !! k) as [lk|] eqn:Hk; [|done]. cbn in Hs. destruct (lk_loop lk) as [[]|], (lk_renewing lk); try done. injection Hs as <-. by eapply sys_inv_lock.
  - unfold renew_txn in Hs. destruct (locks s !! k) as [lk|] eqn:Hk; [|done]. cbn in Hs. destruct (lk_renewing lk); [|done]. injection Hs as <-.
    refine (sys_inv_lock (upd_tables s _) k lk _ _ Hk _); [by apply sys_inv_tables|done].
  - injection Hs as <-. by apply sys_inv_start_release.
  - injection Hs as <-. apply sys_inv_start; try done. by intros now [= <-].
  - injection Hs as <-. by apply sys_inv_start_release.
  - injection Hs as <-. by apply sys_inv_crash.
Qed.
End Steps.

(** ** Read-write locks *)

(** A lock that is held has its row *)
Definition rw_held (s : lock_system) : Prop :=
  ∀ k lk, locks s !! k = Some lk → lk_read_write lk = true → lk_exited lk = false →
    ∃ r, rows (tables s) !! (lk_id lk, lk_token lk) = Some r ∧ write_lock r = lk_write lk.
Definition rw_inv (s : lock_system) : Prop := sys_inv s ∧ modes_ok (tables s) ∧ rw_held s.

(** and keeps it, where the locks that are there were there before, and their rows stay. *)
Lemma rw_held_keep s s' :
  (∀ k lk', locks s' !! k = Some lk' → lk_read_write lk' = true → ∃ lk, locks s !! k = Some lk ∧ same_lock lk lk') →
  (∀ k lk r, locks s !! k = Some lk → lk_read_write lk = true → lk_exited lk = false → rows (tables s) !! (lk_id lk, lk_token lk) = Some r →
    ∃ r', rows (tables s') !! (lk_id lk, lk_token lk) = Some r' ∧ write_lock r' = write_lock r) →
  rw_held s → rw_held s'.
Proof.
  intros Hl Hr Hh k lk' Hk' Hrw He. destruct (Hl _ _ Hk' Hrw) as (lk & Hk & _ & E1 & E2 & E3 & E4 & E5). rewrite E2, E3, E4. rewrite E1 in Hrw.
  assert (lk_exited lk = false) as He' by (destruct (lk_exited lk); [by rewrite E5 in He|done]). destruct (Hh _ _ Hk Hrw He') as (r & H1 & <-). eauto.
Qed.

Lemma same_lock_refl lk : same_lock lk lk.
Proof. done. Qed.
#[local] Hint Resolve same_lock_refl : core.

Lemma locks_insert_same s k lk lk' : locks s !! k = Some lk → same_lock lk lk' → ∀ k' lk1', <[k := lk']> (locks s) !! k' = Some lk1' → ∃ lk1, locks s !! k' = Some lk1 ∧ same_lock lk1 lk1'.
Proof. intros Hk Hs k' lk1' [[<- <-]|[_ H]]%lookup_insert_Some; eauto. Qed.

(** A lock that is held is not reaped, if it was renewed in time. *)
Lemma in_time_lock s k lk r :
  in_time s = true → locks s !! k = Some lk → lk_read_write lk = true → lk_exited lk = false → rows (tables s) !! (lk_id lk, lk_token lk) = Some r →
  clock s - LOCK_TIMEOUT_MS < rw_last_renewed_ts r.
Proof.
  intros Ht Hk Hrw He Hr. apply andb_true_iff in Ht as [Ht _]. rewrite forallb_forall in Ht.
  specialize (Ht (lk_instance lk, true, lk_id lk, lk_token lk)). cbn in Ht. rewrite Hr in Ht. apply Z.ltb_lt, Ht. apply list_elem_of_In.
  unfold holders. apply elem_of_app. left. apply list_elem_of_omap. exists (k, lk). rewrite elem_of_map_to_list. split; [done|]. cbn. by rewrite He, Hrw.
Qed.

(** What [same_locks] allows does not matter for read-write locks. *)
Definition same_locks (s s' : lock_system) : Prop :=
  ∀ k lk', locks s' !! k = Some lk' → lk_read_write lk' = true → ∃ lk, locks s !! k = Some lk ∧ same_lock lk lk'.

Lemma same_locks_eq s s' : locks s' = locks s → same_locks s s'.
Proof. intros E k lk' Hk _. rewrite E in Hk. eauto. Qed.

Lemma same_locks_insert s s' k lk lk' : locks s' = <[k := lk']> (locks s) → locks s !! k = Some lk → same_lock lk lk' → same_locks s s'.
Proof. intros E Hk Hs k' lk1 Hk' _. rewrite E in Hk'. by eapply locks_insert_same. Qed.

Lemma same_locks_trans s1 s2 s3 : same_locks s1 s2 → same_locks s2 s3 → same_locks s1 s3.
Proof.
  intros H1 H2 k lk3 Hk Hr. destruct (H2 _ _ Hk Hr) as (lk2 & Hk2 & F1 & F2 & F3 & F4 & F5 & F6). destruct (H1 _ _ Hk2) as (lk1 & Hk1 & G1 & G2 & G3 & G4 & G5 & G6); [congruence|].
  exists lk1. split; [done|]. split_and!; try congruence. eauto.
Qed.

Lemma release_next_same s ks go stop :
  (∀ s, locks (stop s) = locks s ∧ tables (stop s) = tables s) → (∀ s t, locks (go s t) = locks s ∧ tables (go s t) = tables s) →
  same_locks s (release_next s ks go stop) ∧ tables (release_next s ks go stop) = tables s.
Proof.
  intros Hs Hg. apply release_next_ind.
  - destruct (Hs s) as [E1 ->]. by split; [apply same_locks_eq|].
  - intros k lk rest Hk _. edestruct Hg as [E1 ->]. split; [|done]. by refine (same_locks_insert _ _ k lk _ E1 Hk _).
Qed.

Lemma release_done_same s n k rest s' : release_done s n k rest = Some s' → same_locks s s' ∧ tables s' = tables s.
Proof.
  unfold release_done. destruct (locks s !! k) as [lk|] eqn:Hk; [|done]. cbn. intros [= <-].
  match goal with |- same_locks s (release_next ?x _ _ _) ∧ _ => set (s1 := x) end.
  assert (locks s1 = <[k := set_dropped lk]> (locks s) ∧ tables s1 = tables s) as [E1 <-] by (unfold s1; by destruct (lk_read_write lk)).
  destruct (release_next_same s1 rest (λ s t, set_task s n t) (λ s, end_task s n)) as [H1 ->]; [done|done|]. split; [|done].
  eapply same_locks_trans; [|exact H1]. by eapply same_locks_insert.
Qed.

(** The rows that are there stay when locks are taken, and those of the locks are there then. *)
Lemma spec_take_rows write i ls rs rs' :
  py_fold (spec_take write i) rs ls = Ok rs' →
  (∀ k r, rs !! k = Some r → rs' !! k = Some r) ∧ ∀ l token now, (l, token, now) ∈ ls → rs' !! (l, token) = Some (MkRwRow i write now).
Proof.
  revert rs. induction ls as [|[[l token] now] ls IH]; intros rs Hf; cbn [py_fold] in Hf.
  - injection Hf as <-. split; [done|]. by intros ??? []%not_elem_of_nil.
  - cbn [spec_take] in Hf. destruct (may_take rs l write token) eqn:Em; [|done]. cbn in Hf. destruct (IH _ Hf) as [Hk Hn]. rewrite may_take_true in Em. split.
    + intros [l' tk] r Hr. apply Hk. rewrite lookup_insert_ne; [done|]. intros [= <- <-]. by destruct (Em _ _ Hr) as [[] _].
    + intros l' tk now' [[= -> -> ->]|Hin]%elem_of_cons; [|by apply Hn]. apply Hk. apply lookup_insert_eq.
Qed.

(** The locks that [set_locks] adds *)
Lemma set_locks_spec i write ls s :
  tables (set_locks s i write ls) = tables s ∧
  ∀ k lk, locks (set_locks s i write ls) !! k = Some lk →
    locks s !! k = Some lk ∨ ∃ l token now, (l, token, now) ∈ ls ∧ lk_id lk = l ∧ lk_token lk = token ∧ lk_write lk = write.
Proof.
  revert s. induction ls as [|[[l token] now] ls IH]; intros s; cbn [set_locks]; [by split; [|left]|].
  match goal with |- context [set_locks ?x i write ls] => destruct (IH x) as [Et Hl] end. split; [done|]. intros k lk [H|(l' & tk & now' & Hin & H)]%Hl.
  - cbn in H. apply lookup_insert_Some in H as [[<- <-]|[_ H]]; [right|by left]. exists l, token, now. split; [by left|done].
  - right. exists l', tk, now'. split; [by right|done].
Qed.

Lemma run_labels_reach_from e scan P ls s s' : reach e scan P s → run_labels e scan P s ls = Some s' → reach e scan P s'.
Proof.
  revert s. induction ls as [|lbl ls IH]; intros s Hs Hr; cbn [run_labels] in Hr; [by injection Hr as <-|]. destruct (P s) eqn:Ep; [|done].
  destruct (lock_step e scan s lbl) as [s1|] eqn:E1; [|done]. apply (IH s1); [by eapply reach_step|done].
Qed.
Lemma run_labels_reach e scan P ls s : run_labels e scan P lock_system_init ls = Some s → reach e scan P s.
Proof. apply run_labels_reach_from. constructor. Qed.

Section ReadWrite.
Context (e : engine) (scan : ∀ A : Type, list A → list A) (scan_perm : ∀ (A : Type) (l : list A), scan A l ≡ₚ l).

(** Only the row of the lock that is dropped goes, *)
Lemma drop_lock_rows locked t read_write l token t' :
  modes_ok t → drop_lock e scan locked t read_write l token = Ok t' →
  modes_ok t' ∧ ∀ k, k ≠ (l, token) → rows t' !! k = rows t !! k.
Proof using scan_perm.
  intros Hok. unfold drop_lock. destruct read_write.
  - match goal with |- delete_read_write_locks _ _ _ _ ?ks = _ → _ => pose proof (delete_read_write_locks_spec e scan scan_perm locked t ks Hok) as Hd; assert (∀ k, k ∈ ks → k = (l, token)) as Hks end.
    { intros k. destruct (bool_decide _); [by intros ->%list_elem_of_singleton|by intros []%not_elem_of_nil]. }
    intros E. rewrite E in Hd. destruct Hd as (H1 & -> & _). split; [done|]. intros k Hne. rewrite foldr_delete_lookup. destruct (decide _) as [?%Hks|]; done.
  - destruct (worker_locks t !! l) as [r|]; [destruct (bool_decide _)|]; intros [= <-]; done.
Qed.

(** and only rows that are old are reaped. *)
Lemma reap_rows locked t now t' :
  modes_ok t → reap_stale_read_write_locks_txn e scan locked t now = Ok t' →
  modes_ok t' ∧ ∀ k r, rows t !! k = Some r → now - LOCK_TIMEOUT_MS ≤ rw_last_renewed_ts r → rows t' !! k = Some r.
Proof using scan_perm.
  intros Hok. unfold reap_stale_read_write_locks_txn.
  match goal with |- delete_read_write_locks _ _ _ _ ?ks = _ → _ => pose proof (delete_read_write_locks_spec e scan scan_perm locked t ks Hok) as Hd end.
  intros E. rewrite E in Hd. destruct Hd as (H1 & -> & _). split; [done|]. intros k r Hr Hts. rewrite foldr_delete_lookup.
  destruct (decide _) as [(r' & Hr' & HP)%reap_keys|]; [|done|done]. cbn in HP. assert (r' = r) as -> by congruence. lia.
Qed.

Lemma rw_run_task s n t tokens locked s' :
  rw_inv s → in_time s = true → tasks s !! n = Some t → run_task e scan s n t tokens locked = Some s' → modes_ok (tables s') ∧ rw_held s'.
Proof using scan_perm.
  intros (Hi & Hm & Hh) Htime Ht Hr.
  assert (∀ s', same_locks s s' → rows (tables s') = rows (tables s) → mode (tables s') = mode (tables s) → modes_ok (tables s') ∧ rw_held s') as Hframe.
  { intros s1 Hl E1 E2. split; [intros l; apply (mode_ok_but_ext _ (tables s)); [by rewrite E1|by rewrite E2|apply Hm]|]. refine (rw_held_keep s s1 Hl _ Hh). intros k lk r _ _ _ Hrow. rewrite E1. eauto. }
  destruct t as [i l k|i l ts|i l token now|i l token did|i ls write|k rest|k rest|i now]; cbn [run_task] in Hr.
  - destruct (locks s !! k); [|done]. injection Hr as <-. by apply Hframe; [apply same_locks_eq|..].
  - unfold try_acquire_lock_valid in Hr. destruct (match ts with Some ts => _ | None => _ end); [injection Hr as <-; by apply Hframe; [apply same_locks_eq|..]|].
    destruct (draw _ _) as [s1|] eqn:Ed; [|done]. injection Hr as <-. destruct (sys_inv_draw _ _ _ Hi Ed) as (_ & _ & _ & ->). by apply Hframe; [apply same_locks_eq|..].
  - unfold try_acquire_lock_txn in Hr. destruct (worker_locks (tables s) !! l) as [r|]; [destruct (_ || _)|]; injection Hr as <-; by apply Hframe; [apply same_locks_eq|..].
  - injection Hr as <-. unfold try_acquire_lock_taken. destruct did; apply Hframe; try done; [|by apply same_locks_eq]. intros k lk' Hk. cbn in Hk. apply lookup_insert_Some in Hk as [[<- <-]|[_ H]]; [done|eauto].
  - destruct (negb _); [done|]. destruct (draw_all s tokens) as [s1|] eqn:Ed; [|done]. cbn in Hr. destruct (sys_inv_draw_all _ _ _ Hi Ed) as (_ & _ & _ & Es).
    pose proof (take_spec e scan scan_perm (tables s1) write i (zip_with (λ l token, (l, token, clock s1)) ls tokens)) as Hts.
    destruct (try_acquire_multi_read_write_lock_txn _ _ _ _ _ _) as [t|ex]; injection Hr as <-; [|rewrite Es; by apply Hframe; [apply same_locks_eq|..]].
    destruct Hts as (Hf & Hm' & _); [by rewrite Es|]. apply spec_take_rows in Hf as [Hkeep Hnew]. set (ls' := zip_with _ ls tokens) in *.
    destruct (set_locks_spec i write ls' (upd_tables (end_task s1 n) t)) as [Et Hl]. rewrite Et. split; [done|]. intros k lk Hk Hrw He. rewrite Et.
    apply Hl in Hk as [Hk|(l & token & now & Hin & -> & -> & ->)]; [|eexists; split; [by eapply Hnew|done]]. cbn in Hk. rewrite Es in Hk. destruct (Hh _ _ Hk Hrw He) as (r & Hr & Hw). exists r. split; [|done].
    apply Hkeep. by rewrite Es.
  - destruct (locks s !! k) as [lk|] eqn:Hk; [|done]. cbn in Hr. destruct (drop_lock _ _ _ _ _ _ _) as [t|ex] eqn:Ed; injection Hr as <-; [|by apply Hframe; [apply same_locks_eq|..]].
    destruct (drop_lock_rows _ _ _ _ _ _ Hm Ed) as [Hm' Hrows]. split; [done|]. apply (rw_held_keep s); [by apply same_locks_eq| |done]. intros k1 lk1 r Hk1 _ He1 Hr1. exists r. split; [|done]. cbn. rewrite Hrows; [done|].
    intros [= _ E]. destruct (inv_released _ Hi _ _ k Ht eq_refl) as (lk' & Hk' & He'). assert (k1 = k) as ->.
    { apply (inv_token _ Hi _ _ (lk_token lk)); left; [by rewrite Hk1; cbn; rewrite E|by rewrite Hk]. }
    congruence.
  - destruct (release_done_same _ _ _ _ _ Hr) as [Hl E]. apply Hframe; [done|by rewrite E|by rewrite E].
  - destruct (reap_stale_read_write_locks_txn _ _ _ _ _) as [t|ex] eqn:Er; injection Hr as <-; [|by apply Hframe; [apply same_locks_eq|..]].
    destruct (reap_rows _ _ _ _ Hm Er) as [Hm' Hrows]. split; [done|]. apply (rw_held_keep s); [by apply same_locks_eq| |done]. intros k1 lk1 r Hk1 Hrw He1 Hr1. exists r. split; [|done].
    cbn. apply Hrows; [done|]. pose proof (in_time_lock _ _ _ _ Htime Hk1 Hrw He1 Hr1). pose proof (inv_time _ Hi _ _ now Ht eq_refl). lia.
Qed.

Lemma rw_inv_step s lbl s' : rw_inv s → in_time s = true → lock_step e scan s lbl = Some s' → rw_inv s'.
Proof using scan_perm.
  intros Hinv Htime Hs. pose proof Hinv as (Hi & Hm & Hh). split; [by eapply sys_inv_step|].
  assert (∀ s', same_locks s s' → tables s' = tables s → modes_ok (tables s') ∧ rw_held s') as Hframe.
  { intros s1 Hl E. rewrite E. split; [done|]. refine (rw_held_keep s s1 Hl _ Hh). intros k lk r _ _ _ Hrow. rewrite E. eauto. }
  destruct lbl as [d|i l token|i ls write|n tokens locked|k|k|k|k|i|i|i]; cbn [lock_step] in Hs.
  - destruct (d <? 0); [done|]. injection Hs as <-. by apply Hframe; [apply same_locks_eq|].
  - unfold try_acquire_lock in Hs. destruct (bool_decide _); [by injection Hs as <-|]. cbn in Hs. destruct (live_lock_tokens s !! (i, l)); [injection Hs as <-; by apply Hframe; [apply same_locks_eq|]|].
    destruct (draw _ token) as [s1|] eqn:Ed; [|done]. injection Hs as <-. destruct (sys_inv_draw _ _ _ (sys_inv_acquiring _ _ Hi) Ed) as (_ & _ & _ & ->). by apply Hframe; [apply same_locks_eq|].
  - injection Hs as <-. by apply Hframe; [apply same_locks_eq|].
  - destruct (tasks s !! n) as [t|] eqn:Ht; [|done]. by eapply rw_run_task.
  - unfold setup_looping_call in Hs. destruct (locks s !! k) as [lk|] eqn:Hk; [|done]. cbn in Hs. destruct (lk_loop lk); [done|]. injection Hs as <-. apply Hframe; [by eapply same_locks_insert|done].
  - unfold renew in Hs. destruct (locks s !! k) as [lk|] eqn:Hk; [|done]. cbn in Hs. destruct (lk_loop lk) as [[]|], (lk_renewing lk); try done. injection Hs as <-. apply Hframe; [by eapply same_locks_insert|done].
  - unfold renew_txn in Hs. destruct (locks s !! k) as [lk|] eqn:Hk; [|done]. cbn in Hs. destruct (lk_renewing lk) as [now|]; [|done]. injection Hs as <-. split; [by apply renew_modes_ok|].
    apply (rw_held_keep s); [by eapply same_locks_insert| |done]. intros k1 lk1 r _ _ _ Hr. cbn. destruct (lk_read_write lk); cbn; [|eauto].
    destruct (decide ((lk_id lk, lk_token lk) = (lk_id lk1, lk_token lk1))) as [E|Hne]; [rewrite <- E in *; rewrite lookup_alter_eq, Hr; by eexists|rewrite lookup_alter_ne by done; eauto].
  - injection Hs as <-. destruct (release_next_same s [k] start_task id) as [Hl E]; [done|done|]. by apply Hframe.
  - injection Hs as <-. by apply Hframe; [apply same_locks_eq|].
  - injection Hs as <-. unfold drop_locks_on_shutdown. match goal with |- context [release_next s ?ks _ _] => destruct (release_next_same s ks start_task id) as [Hl E]; [done|done|] end. by apply Hframe.
  - injection Hs as <-. apply Hframe; [|done]. intros k lk [Hk _]%map_lookup_filter_Some _. eauto.
Qed.

Lemma rw_inv_reach P s : (∀ s, P s = true → in_time s = true) → reach e scan P s → rw_inv s.
Proof using scan_perm.
  intros HP. induction 1 as [|s lbl s' _ IH Hp Hs]; [|by eapply rw_inv_step; eauto]. split; [apply sys_inv_init|]. split.
  - intros l. unfold mode_ok_but. cbn. rewrite lookup_empty. intros tk. by rewrite lookup_empty.
  - intros k lk Hk. cbn in Hk. by rewrite lookup_empty in Hk.
Qed.

(** C7: However processes take, renew, release and reap read-write locks in a shared database, lose
    them at shutdown or die: as long as every lock that is held was renewed within the time-out, two locks
    that are held at the same time on the same name and key are both for reading. *)
Theorem worker_rw_lock_exclusion s k k' lk lk' :
  reach e scan in_time s → locks s !! k = Some lk → locks s !! k' = Some lk' → k ≠ k' →
  lk_read_write lk = true → lk_read_write lk' = true → lk_id lk = lk_id lk' → lk_exited lk = false → lk_exited lk' = false →
  lk_write lk = false ∧ lk_write lk' = false.
Proof using scan_perm.
  intros Hr Hk Hk' Hne Hrw Hrw' El He He'. destruct (rw_inv_reach in_time s (λ _ H, H) Hr) as (Hi & Hm & Hh).
  destruct (Hh _ _ Hk Hrw He) as (r & H1 & <-). destruct (Hh _ _ Hk' Hrw' He') as (r' & H1' & <-). specialize (Hm (lk_id lk)). unfold mode_ok_but in Hm. rewrite <- El in H1'.
  destruct (mode (tables s) !! lk_id lk) as [[w tk]|]; [|by rewrite Hm in H1]. destruct Hm as [_ Hm]. destruct (Hm _ _ H1) as [-> E], (Hm _ _ H1') as [-> E']. destruct w; [|done].
  destruct Hne. apply (inv_token _ Hi _ _ tk); left; [rewrite Hk|rewrite Hk']; cbn; f_equal; auto.
Qed.
End ReadWrite.

(** ** Runs *)

Definition purge_lock : lock_id := ("new_event_during_purge_lock", "!room").
(** Two processes read; one that wants to write fails while one of them renews the lock, and takes
    it with another when that was released. *)
Definition rw_run_readers : list label :=
  [LTryReadWrite "w1" [purge_lock] false; LTask 0 ["t1"] []; LSetup 1; LTryReadWrite "w2" [purge_lock] false; LTask 2 ["t2"] []; LSetup 3;
   LTryReadWrite "w3" [purge_lock] true; LTask 4 ["t3"] []; LTick 100000; LRenew 1; LRenewTxn 1; LRenew 3; LRenewTxn 3].
Definition rw_run_writer : list label :=
  rw_run_readers ++ [LRelease 1; LTask 5 [] []; LCrash "w2"; LTick 120001; LReap "w3"; LTask 6 [] []; LTryReadWrite "w3" [("other", ""); purge_lock] true; LTask 7 ["t4"; "t5"] []].
Definition rw_run_end : lock_system := default lock_system_init (run_labels Postgres (λ _ l, l) in_time lock_system_init rw_run_readers).

Lemma worker_rw_lock_exclusion_witness :
  (λ s, omap (λ x, if lk_exited x.2 then None else Some (lk_instance x.2, lk_write x.2)) (map_to_list (locks s))) <$>
    run_labels Postgres (λ _ l, l) in_time lock_system_init rw_run_writer = Some [("w3", true); ("w3", true)] ∧
  omap (λ x, if lk_exited x.2 then None else Some (lk_instance x.2, lk_write x.2)) (map_to_list (locks rw_run_end)) = [("w2", false); ("w1", false)] ∧
  ∀ k lk, locks rw_run_end !! k = Some lk → k ≠ 1%nat → lk_read_write lk = true → lk_id lk = purge_lock → lk_exited lk = false → lk_write lk = false.
Proof.
  split; [vm_compute; reflexivity|]. split; [vm_compute; reflexivity|]. intros k lk Hk Hne Hrw Hid He.
  assert (locks rw_run_end !! 1%nat = Some (MkLock "w1" true purge_lock "t1" false (Some true) None false false)) as H1 by (vm_compute; reflexivity).
  refine (proj1 (worker_rw_lock_exclusion Postgres (λ _ l, l) (λ A l, Permutation_refl l) rw_run_end k 1%nat lk _ _ Hk H1 Hne Hrw eq_refl Hid He eq_refl)).
  apply (run_labels_reach _ _ _ rw_run_readers). vm_compute. reflexivity.
Defined.

(** Where PostgreSQL finds the row of the other reader locked, because it is being renewed, the delete
    of the row is refused, and the lock stays until it is reaped. *)
Example release_refused :
  (λ s, (λ lk, (lk_exited lk, lk_dropped lk)) <$> locks s !! 1%nat) <$>
    run_labels Postgres (λ _ l, l) in_time lock_system_init (rw_run_readers ++ [LRelease 1; LTask 5 [] ["t2"]]) = Some (Some (true, false)) ∧
  (λ s, (bool_decide (is_Some (rows (tables s) !! (purge_lock, "t1"))), size (tasks s))) <$>
    run_labels Postgres (λ _ l, l) in_time lock_system_init (rw_run_readers ++ [LRelease 1; LTask 5 [] ["t2"]]) = Some (true, 0%nat).
Proof. vm_compute. done. Qed.
