(* ===== verification/WorkerLockPlain.v ===== *)
(** * Locks between workers: exclusion of the locks in [worker_locks]

    The statement that takes a lock takes it from a row of the same process, whatever its age: that
    a process does not take a lock from itself depends on what it knows of the locks it has. *)

From S2P Require Import Prelude StateGroups WorkerLocks WorkerLockFacts WorkerLockSystem WorkerLockExclusion.

Open Scope Z_scope.

Definition held_lock (s : lock_system) (k : nat) (lk : Lock) : Prop := locks s !! k = Some lk ∧ lk_read_write lk = false ∧ lk_exited lk = false.
Definition owner (lk : Lock) : string * lock_id := (lk_instance lk, lk_id lk).

(** The row of a lock that is held *)
Definition has_row (t : lock_tables) (i : string) (l : lock_id) (token : string) : Prop :=
  ∃ r, worker_locks t !! l = Some r ∧ lr_instance_name r = i ∧ lr_token r = token.

(** What a coroutine that tries to take a lock has found out, while the process holds it *)
Definition finds (t : lock_task) (k : nat) : Prop :=
  match t with TryValid _ _ k' => k' = k | TryValidDone _ _ ts => is_Some ts | _ => False end.

Record plain_inv (s : lock_system) : Prop := MkPlainInv {
  pl_row : ∀ i l token, holds s (i, false, l, token) → has_row (tables s) i l token;
  pl_acquiring : ∀ n t x, tasks s !! n = Some t → tries t = Some x → x ∈ acquiring_locks s;
  pl_one : ∀ n n' t t' x, tasks s !! n = Some t → tasks s !! n' = Some t' → tries t = Some x → tries t' = Some x → n = n';
  pl_live : ∀ k lk, held_lock s k lk → live_lock_tokens s !! owner lk = Some k;
  pl_try : ∀ k lk n t, held_lock s k lk → tasks s !! n = Some t → tries t = Some (owner lk) → finds t k;
  pl_others : ∀ k lk k' lk', held_lock s k lk → locks s !! k' = Some lk' → lk_read_write lk' = false → owner lk' = owner lk → k' ≠ k → lk_dropped lk' = true;
  pl_norel : ∀ k lk n t, held_lock s k lk → tasks s !! n = Some t → releases s t ≠ Some (owner lk);
  pl_rel : ∀ k lk, locks s !! k = Some lk → lk_read_write lk = false → lk_exited lk = true → lk_dropped lk = false → ∃ n t, tasks s !! n = Some t ∧ task_lock t = Some k;
}.

(** ** What changes *)

(** A table may change where no lock is held. *)
Lemma plain_tables s t : plain_inv s → (∀ i l token, holds s (i, false, l, token) → has_row t i l token) → plain_inv (upd_tables s t).
Proof. by intros [] ?. Qed.

Lemma plain_tables_same s t : plain_inv s → worker_locks t = worker_locks (tables s) → plain_inv (upd_tables s t).
Proof. intros Hi E. apply plain_tables; [done|]. intros i l token Hh. unfold has_row. rewrite E. by apply (pl_row _ Hi). Qed.

(** Coroutines may change, if they keep to what the others rely on. *)
Definition task_ok (s : lock_system) (ts : gmap nat lock_task) (n : nat) (t : lock_task) : Prop :=
  (∀ x, tries t = Some x → x ∈ acquiring_locks s ∧ (∀ n' t', ts !! n' = Some t' → tries t' = Some x → n' = n) ∧ ∀ k lk, held_lock s k lk → x = owner lk → finds t k) ∧
  (∀ k lk, held_lock s k lk → releases s t ≠ Some (owner lk)) ∧
  (∀ i l token, t = TryTaken i l token true → has_row (tables s) i l token).

Lemma plain_tasks s ts :
  plain_inv s →
  (∀ n t, ts !! n = Some t → tasks s !! n = Some t ∨ task_ok s ts n t) →
  (∀ n t k lk, tasks s !! n = Some t → task_lock t = Some k → locks s !! k = Some lk → lk_read_write lk = false → lk_dropped lk = false →
    ∃ n' t', ts !! n' = Some t' ∧ task_lock t' = Some k) →
  plain_inv (upd_tasks s ts).
Proof.
  intros [P1 P2 P3 P4 P5 P6 P7 P8] Hts Hrel. split; cbn; [| | |done| |done| |].
  - intros i l token [H|[_ [n H]]]; [apply P1; by left|]. destruct (Hts _ _ H) as [H'|(_ & _ & Hr)]; [|by apply Hr]. apply P1. right. split; [done|by exists n].
  - intros n t x H Hx. destruct (Hts _ _ H) as [H'|(Ht & _)]; [exact (P2 _ _ _ H' Hx)|by destruct (Ht _ Hx)].
  - intros n n' t t' x H H' Hx Hx'. destruct (Hts _ _ H) as [H1|(Ht & _)]; [|destruct (Ht _ Hx) as (_ & Hu & _); symmetry; by eapply Hu].
    destruct (Hts _ _ H') as [H1'|(Ht' & _)]; [exact (P3 _ _ _ _ _ H1 H1' Hx Hx')|destruct (Ht' _ Hx') as (_ & Hu & _); by eapply Hu].
  - intros k lk n t Hk H Hx. destruct (Hts _ _ H) as [H'|(Ht & _)]; [exact (P5 _ _ _ _ Hk H' Hx)|destruct (Ht _ Hx) as (_ & _ & Hf); by eapply Hf].
  - intros k lk n t Hk H. destruct (Hts _ _ H) as [H'|(_ & Hr & _)]; [exact (P7 _ _ _ _ Hk H')|exact (Hr _ _ Hk)].
  - intros k lk Hk Hrw He Hd. destruct (P8 _ _ Hk Hrw He Hd) as (n & t & H & Ht). by eapply Hrel.
Qed.

(** A coroutine that neither tries nor releases *)
Lemma plain_end s n :
  plain_inv s → (∀ t k lk, tasks s !! n = Some t → task_lock t = Some k → locks s !! k = Some lk → lk_read_write lk = false → lk_dropped lk = false → False) →
  plain_inv (end_task s n).
Proof.
  intros Hi Hn. apply plain_tasks; [done|by intros m t [_ H]%lookup_delete_Some; left|].
  intros m t k lk H Ht Hk Hrw Hd. exists m, t. rewrite lookup_delete_ne; [done|]. intros <-. by eapply Hn.
Qed.

Lemma plain_set s n t :
  plain_inv s → task_ok s (<[n := t]> (tasks s)) n t →
  (∀ t' k lk, tasks s !! n = Some t' → task_lock t' = Some k → locks s !! k = Some lk → lk_read_write lk = false → lk_dropped lk = false → task_lock t = Some k) →
  plain_inv (set_task s n t).
Proof.
  intros Hi Hok Hn. apply plain_tasks; [done| |].
  - intros m t' [[<- <-]|[_ H]]%lookup_insert_Some; [by right|by left].
  - intros m t' k lk H Ht Hk Hrw Hd. destruct (decide (m = n)) as [->|Hne].
    + exists n, t. rewrite lookup_insert_eq. split; [done|by eapply Hn].
    + exists m, t'. by rewrite lookup_insert_ne.
Qed.

Lemma plain_start s t : sys_inv s → plain_inv s → task_ok s (<[next_id s := t]> (tasks s)) (next_id s) t → plain_inv (start_task s t).
Proof.
  intros Hs Hi Hok. destruct (sys_inv_next s (next_id s) Hs) as (_ & _ & Hn); [lia|].
  assert (plain_inv (set_task s (next_id s) t)) as H by (apply plain_set; [done|done|]; intros; congruence). by destruct H.
Qed.

Lemma task_ok_other s ts n t : tries t = None → task_lock t = None → task_ok s ts n t.
Proof. intros H1 H2. split_and!; [by rewrite H1| |by intros i l token ->]. intros k lk _. by destruct t. Qed.

(** A lock changes, but not whether it is held, or it was dropped, *)
Lemma plain_lock s k lk lk' :
  plain_inv s → locks s !! k = Some lk → same_lock lk lk' → lk_exited lk' = lk_exited lk → (lk_dropped lk = true → lk_dropped lk' = true) →
  plain_inv (upd_locks s (<[k := lk']> (locks s))).
Proof.
  intros [P1 P2 P3 P4 P5 P6 P7 P8] Hk (S1 & S2 & S3 & S4 & _) Se Sd. set (s' := upd_locks s _).
  assert (owner lk' = owner lk) as So by (unfold owner; by rewrite S1, S3).
  assert (∀ k1 lk1, locks s' !! k1 = Some lk1 → ∃ lk0, locks s !! k1 = Some lk0 ∧ lk_read_write lk1 = lk_read_write lk0 ∧ owner lk1 = owner lk0 ∧ lk_token lk1 = lk_token lk0 ∧
    lk_exited lk1 = lk_exited lk0 ∧ (lk_dropped lk0 = true → lk_dropped lk1 = true)) as Hl.
  { intros k1 lk1 H. cbn in H. apply lookup_insert_Some in H as [[<- <-]|[_ H]]; [exists lk|exists lk1]; done. }
  assert (∀ k1 lk1, held_lock s' k1 lk1 → ∃ lk0, held_lock s k1 lk0 ∧ owner lk1 = owner lk0) as Hh.
  { intros k1 lk1 (H1 & H2 & H3). destruct (Hl _ _ H1) as (lk0 & G1 & G2 & G3 & _ & G5 & _). exists lk0. split; [|done]. split_and!; [done|congruence|congruence]. }
  assert (∀ t, releases s' t = releases s t) as Hr.
  { intros [| | | | |k1|k1|]; try done; cbn; (destruct (decide (k1 = k)) as [->|Hne]; [rewrite lookup_insert_eq, Hk; cbn; by rewrite ?S1, S2, ?S3|by rewrite lookup_insert_ne]). }
  split; cbn.
  - intros i l token [(k1 & lk1 & H & He & Ei & Er & El & Et)|H]; [|apply P1; by right]. destruct (Hl _ _ H) as (lk0 & G1 & G2 & G3 & G4 & G5 & _). apply P1. left. exists k1, lk0.
    injection G3 as G3 G3'. split_and!; congruence.
  - done.
  - done.
  - intros k1 lk1 (lk0 & H & ->)%Hh. by apply P4.
  - intros k1 lk1 n t (lk0 & H & ->)%Hh. by apply P5.
  - intros k1 lk1 k2 lk2 (lk0 & H & ->)%Hh H2 Hrw Eo Hne. destruct (Hl _ _ H2) as (lk3 & G1 & G2 & G3 & _ & _ & G6). apply G6. eapply P6; [exact H|exact G1|congruence|congruence|done].
  - intros k1 lk1 n t (lk0 & H & ->)%Hh Ht. rewrite Hr. exact (P7 _ _ _ _ H Ht).
  - intros k1 lk1 H1 Hrw He Hd. destruct (Hl _ _ H1) as (lk3 & G1 & G2 & G3 & _ & G5 & G6). eapply P8; [exact G1|congruence|congruence|]. destruct (lk_dropped lk3); [|done]. by rewrite G6 in Hd.
Qed.

(** or it is released, by a coroutine that has dropped what it released before. *)
Lemma plain_release s k lk n rest :
  plain_inv s → locks s !! k = Some lk → lk_dropped lk = false →
  (∀ t' k' lk', tasks s !! n = Some t' → task_lock t' = Some k' → locks s !! k' = Some lk' → lk_read_write lk' = false → lk_dropped lk' = false → k' = k) →
  plain_inv (set_task (upd_locks s (<[k := stop_loop lk]> (locks s))) n (Releasing k rest)).
Proof.
  intros [P1 P2 P3 P4 P5 P6 P7 P8] Hk Hd Hn. set (s' := set_task _ _ _).
  assert (∀ k1 lk1, held_lock s' k1 lk1 → held_lock s k1 lk1 ∧ k1 ≠ k) as Hh.
  { intros k1 lk1 (H1 & H2 & H3). cbn in H1. apply lookup_insert_Some in H1 as [[<- <-]|[Hne H1]]; [done|]. done. }
  assert (∀ t, releases s' t = releases s t) as Hr.
  { intros [| | | | |k1|k1|]; try done; cbn; (destruct (decide (k1 = k)) as [->|Hne]; [by rewrite lookup_insert_eq, Hk|by rewrite lookup_insert_ne]). }
  assert (∀ k1 lk1, locks s' !! k1 = Some lk1 → ∃ lk0, locks s !! k1 = Some lk0 ∧ lk_read_write lk1 = lk_read_write lk0 ∧ owner lk1 = owner lk0 ∧ lk_dropped lk1 = lk_dropped lk0) as Hl.
  { intros k1 lk1 H. cbn in H. apply lookup_insert_Some in H as [[<- <-]|[_ H]]; [exists lk|exists lk1]; done. }
  assert (∀ m t, tasks s' !! m = Some t → tasks s !! m = Some t ∨ m = n ∧ t = Releasing k rest) as Ht.
  { intros m t H. cbn in H. apply lookup_insert_Some in H as [[<- <-]|[_ H]]; [by right|by left]. }
  split.
  - intros i l token [(k1 & lk1 & H & He & Hx)|[_ [m [H|[_ [=]]]%Ht]]]; apply P1.
    + left. exists k1, lk1. cbn in H. apply lookup_insert_Some in H as [[<- <-]|[_ H]]; done.
    + right. split; [done|by exists m].
  - intros m t x [H|[-> ->]]%Ht; [by eapply P2|done].
  - intros m m' t t' x [H|[-> ->]]%Ht [H'|[-> ->]]%Ht; [by eapply P3|done..].
  - intros k1 lk1 [H _]%Hh. by apply P4.
  - intros k1 lk1 m t [H _]%Hh [H'|[-> ->]]%Ht; [by eapply P5|done].
  - intros k1 lk1 k2 lk2 [H _]%Hh H2 Hrw Eo Hne. destruct (Hl _ _ H2) as (lk0 & G1 & G2 & G3 & ->). eapply P6; [exact H|exact G1|congruence|congruence|done].
  - intros k1 lk1 m t [H Hne]%Hh [H'|[-> ->]]%Ht; rewrite Hr; [exact (P7 _ _ _ _ H H')|]. cbn. rewrite Hk. cbn. destruct (lk_read_write lk) eqn:Erw; [done|]. intros Eo%(inj Some).
    rewrite (P6 _ _ k lk H Hk Erw Eo) in Hd by congruence. done.
  - intros k1 lk1 H1 Hrw He Hd1. destruct (decide (k1 = k)) as [->|Hne]; [exists n, (Releasing k rest); cbn; by rewrite lookup_insert_eq|].
    cbn in H1. rewrite lookup_insert_ne in H1 by done. destruct (P8 _ _ H1 Hrw He Hd1) as (m & t & Hm & Hk1). exists m, t. cbn. rewrite lookup_insert_ne; [done|]. intros <-. by destruct Hne; eapply Hn.
Qed.

(** A coroutine stops trying. *)
Lemma plain_end_try s n t i l : plain_inv s → tasks s !! n = Some t → tries t = Some (i, l) → plain_inv (end_try s n i l).
Proof.
  intros Hi Ht Hx. assert (plain_inv (end_task s n)) as [P1 P2 P3 P4 P5 P6 P7 P8].
  { apply plain_end; [done|]. intros t' k lk Ht' Hk. rewrite Ht in Ht'. injection Ht' as <-. by destruct t. }
  split; [exact P1| |exact P3|exact P4|exact P5|exact P6|exact P7|exact P8].
  cbn. intros m t' x Hm Hx'. assert (m ≠ n) as Hne by (intros ->; by rewrite lookup_delete_eq in Hm). apply elem_of_difference. split; [by eapply P2|].
  intros ->%elem_of_singleton. apply Hne. rewrite lookup_delete_ne in Hm by done. by eapply (pl_one _ Hi).
Qed.

(** A process that takes a lock, which it is not releasing, has no other. *)
Lemma plain_taken s n i l token :
  sys_inv s → plain_inv s → tasks s !! n = Some (TryTaken i l token true) →
  (∀ m t, tasks s !! m = Some t → releases s t ≠ Some (i, l)) →
  plain_inv (try_acquire_lock_taken s n i l token true).
Proof.
  intros Hs Hi Ht Hno. pose proof (pl_row _ Hi i l token (or_intror (conj eq_refl (ex_intro _ n Ht)))) as Hrow.
  assert (∀ k lk, locks s !! k = Some lk → lk_read_write lk = false → owner lk = (i, l) → lk_dropped lk = true ∧ lk_exited lk = true) as Hold.
  { intros k lk Hk Hrw Ho. destruct (lk_exited lk) eqn:He; [|by destruct (pl_try _ Hi k lk n _ (conj Hk (conj Hrw He)) Ht); rewrite Ho].
    destruct (lk_dropped lk) eqn:Hd; [done|]. destruct (pl_rel _ Hi _ _ Hk Hrw He Hd) as (m & t & Hm & Hl). destruct (Hno _ _ Hm). destruct t; try done; injection Hl as ->; cbn; rewrite Hk; cbn; rewrite Hrw; by f_equal. }
  pose proof (plain_end_try s n _ i l Hi Ht eq_refl) as [P1 P2 P3 P4 P5 P6 P7 P8]. unfold try_acquire_lock_taken. set (s1 := end_try s n i l) in *. set (k0 := next_id s1). set (lk0 := MkLock i false l token true None None false false).
  destruct (sys_inv_next s (next_id s) Hs) as (_ & Hk0 & _); [lia|]. change (locks s1 !! k0 = None) in Hk0.
  assert (∀ k lk, <[k0 := lk0]> (locks s1) !! k = Some lk → k = k0 ∧ lk = lk0 ∨ locks s !! k = Some lk) as Hl.
  { intros k lk [[<- <-]|[_ H]]%lookup_insert_Some; [by left|by right]. }
  assert (∀ k lk, held_lock (new_lock s1 i false l token true) k lk → k = k0 ∧ lk = lk0 ∨ held_lock s1 k lk ∧ owner lk ≠ (i, l)) as Hh.
  { intros k lk (H1 & H2 & H3). destruct (Hl _ _ H1) as [?|H]; [by left|right]. split; [done|]. intros Ho. destruct (Hold _ _ H H2 Ho). congruence. }
  assert (∀ m t, tasks s1 !! m = Some t → tasks s !! m = Some t ∧ m ≠ n) as Htk.
  { intros m t H. cbn in H. apply lookup_delete_Some in H as [? ?]. done. }
  assert (∀ m t, tasks s1 !! m = Some t → releases (new_lock s1 i false l token true) t = releases s t) as Hr.
  { intros m t [Hm _]%Htk. assert (task_lock t ≠ Some k0) as Hk'. { intros Hk. destruct (inv_released _ Hs _ _ _ Hm Hk) as (lk & H & _). change (locks s1 !! k0 = Some lk) in H. congruence. }
    destruct t; try done; cbn; by rewrite lookup_insert_ne by (intros E; apply Hk'; cbn; by rewrite <- E). }
  split; [|exact P2|exact P3| | | | |]; cbn.
  - intros i' l' tk [(k & lk & H & He & Hx)|[_ [m H]]]; [|apply P1; right; split; [done|by exists m]].
    destruct (Hl _ _ H) as [[-> ->]|H']; [|apply P1; left; by exists k, lk]. destruct Hx as (<- & _ & <- & <-). exact Hrow.
  - intros k lk [[-> ->]|[H Ho]]%Hh; [by rewrite lookup_insert_eq|]. rewrite lookup_insert_ne by done. by apply P4.
  - intros k lk m t [[-> ->]|[H Ho]]%Hh Hm Hx; [|by eapply P5]. destruct (Htk _ _ Hm) as [Hm' []]. eapply (pl_one _ Hi); [exact Hm'|exact Ht|exact Hx|done].
  - intros k lk k' lk' [[-> ->]|[H Ho]]%Hh Hk' Hrw Eo Hne; destruct (Hl _ _ Hk') as [[-> ->]|H']; [done|by apply (Hold k' lk')|by destruct Ho|by eapply (P6 k lk k' lk')].
  - intros k lk m t [[-> ->]|[H Ho]]%Hh Hm; [|].
    + change (releases (new_lock s1 i false l token true) t ≠ Some (i, l)). rewrite (Hr _ _ Hm). destruct (Htk _ _ Hm) as [Hm' _]. by eapply Hno.
    + change (releases (new_lock s1 i false l token true) t ≠ Some (owner lk)). rewrite (Hr _ _ Hm). by eapply (P7 k lk m t).
  - intros k lk Hk Hrw He Hd. destruct (Hl _ _ Hk) as [[-> ->]|H']; [done|]. by eapply P8.
Qed.

(** The entry of a lock that is not held goes. *)
Lemma plain_live_delete s x : plain_inv s → (∀ k lk, held_lock s k lk → owner lk ≠ x) → plain_inv (upd_live s (delete x (live_lock_tokens s))).
Proof.
  intros [P1 P2 P3 P4 P5 P6 P7 P8] Hx. split; try done. cbn. intros k lk Hk. rewrite lookup_delete_ne; [by apply P4|]. apply not_eq_sym. by eapply Hx.
Qed.

Lemma plain_crash s i : sys_inv s → plain_inv s → plain_inv (crash s i).
Proof.
  intros Hs [P1 P2 P3 P4 P5 P6 P7 P8].
  assert (∀ k lk, locks (crash s i) !! k = Some lk → locks s !! k = Some lk ∧ lk_instance lk ≠ i) as Hl by by intros k lk [H1 H2]%map_lookup_filter_Some.
  assert (∀ n t, tasks (crash s i) !! n = Some t → tasks s !! n = Some t ∧ task_instance s t ≠ Some i) as Ht by by intros n t [H1 H2]%map_lookup_filter_Some.
  assert (∀ k lk, held_lock (crash s i) k lk → held_lock s k lk) as Hh by by intros k lk ([H _]%Hl & H2 & H3).
  assert (∀ t x, releases (crash s i) t = Some x → releases s t = Some x) as Hr.
  { intros t x. destruct t as [| | | | |k|k|]; try done; cbn; destruct (filter _ (locks s) !! k) as [lk|] eqn:Ek; try done; apply map_lookup_filter_Some in Ek as [-> _]; done. }
  split.
  - intros i' l token [(k & lk & [H _]%Hl & Hx)|[_ [n [H _]%Ht]]]; apply P1; [left; by exists k, lk|right; split; [done|by exists n]].
  - intros n t x [H Hi]%Ht Hx. cbn. apply elem_of_filter. split; [|by eapply P2]. intros <-. apply Hi. destruct t; try done; by injection Hx as <-.
  - intros n n' t t' x [H _]%Ht [H' _]%Ht. by apply P3.
  - intros k lk Hk. cbn. apply map_lookup_filter_Some. split; [by apply P4, Hh|]. destruct Hk as ([_ ?]%Hl & _). done.
  - intros k lk n t H%Hh [H' _]%Ht. by eapply P5.
  - intros k lk k' lk' H%Hh [H' _]%Hl. by eapply P6.
  - intros k lk n t H%Hh [H' _]%Ht E%Hr. exact (P7 _ _ _ _ H H' E).
  - intros k lk [H Hi]%Hl Hrw He Hd. destruct (P8 _ _ H Hrw He Hd) as (n & t & Hn & Hk). exists n, t. split; [|done]. apply map_lookup_filter_Some. split; [done|]. cbn.
    destruct t; try done; injection Hk as ->; cbn; rewrite H; by intros [= ?].
Qed.

(** [release] after the delete, and the next one *)
Lemma plain_release_done s n k rest s' : sys_inv s → plain_inv s → tasks s !! n = Some (Released k rest) → release_done s n k rest = Some s' → plain_inv s'.
Proof.
  intros Hs Hp Ht. unfold release_done. destruct (locks s !! k) as [lk|] eqn:Hk; [|done]. cbn. intros [= <-].
  match goal with |- plain_inv (release_next ?x _ _ _) => set (s1 := x) end.
  assert (plain_inv s1 ∧ tasks s1 = tasks s ∧ locks s1 = <[k := set_dropped lk]> (locks s)) as (H1 & E1 & E2).
  { unfold s1. destruct (lk_read_write lk) eqn:Erw; (split; [|done]).
    - assert (plain_inv (upd_locks s (<[k := set_dropped lk]> (locks s)))) as [] by (by eapply plain_lock). done.
    - refine (plain_lock (upd_live s _) k lk (set_dropped lk) _ Hk _ _ _); [|done..]. apply plain_live_delete; [done|]. intros k1 lk1 Hk1 Eo. apply (pl_norel _ Hp _ _ _ _ Hk1 Ht). cbn. rewrite Hk. cbn. rewrite Erw, Eo. done. }
  assert (∀ t' k' lk', tasks s1 !! n = Some t' → task_lock t' = Some k' → locks s1 !! k' = Some lk' → lk_read_write lk' = false → lk_dropped lk' = false → False) as Hn.
  { intros t' k' lk' Ht' Hk' Hl. rewrite E1, Ht in Ht'. injection Ht' as <-. injection Hk' as <-. rewrite E2, lookup_insert_eq in Hl. by injection Hl as <-. }
  clearbody s1. apply release_next_ind; [by apply plain_end|]. intros k' lk' rest' Hk' Hd. apply plain_release; [done|done|done|]. intros t1 k1 lk1 H2 H3 H4 H5 H6. by destruct (Hn t1 k1 lk1).
Qed.

(** Who holds a lock owns its token. *)
Lemma holds_owns s i l token : holds s (i, false, l, token) → ∃ o, owns s o token ∧ ((∃ lk, locks s !! o = Some lk ∧ lk_exited lk = false) ∨ ∃ t, tasks s !! o = Some t).
Proof.
  intros [(k & lk & Hk & He & _ & _ & _ & <-)|[_ [n Hn]]]; [exists k|exists n].
  - split; [left; by rewrite Hk|left; eauto].
  - split; [right; by rewrite Hn|right; eauto].
Qed.

(** ** What is assumed *)

Lemma in_time_row s i l token r :
  in_time s = true → holds s (i, false, l, token) → worker_locks (tables s) !! l = Some r → lr_token r = token → clock s - LOCK_TIMEOUT_MS < lr_last_renewed_ts r.
Proof.
  intros Ht Hh Hr Htk. apply andb_true_iff in Ht as [Ht _]. rewrite forallb_forall in Ht. specialize (Ht (i, false, l, token)). cbn in Ht. rewrite Hr in Ht. cbn in Ht.
  rewrite bool_decide_true in Ht by done. apply Z.ltb_lt, Ht, list_elem_of_In. unfold holders. apply elem_of_app. destruct Hh as [(k & lk & Hk & He & <- & Erw & <- & <-)|[_ [n Hn]]]; [left|right]; apply list_elem_of_omap.
  - exists (k, lk). rewrite elem_of_map_to_list. split; [done|]. cbn. by rewrite He, Erw.
  - eexists (n, _). by rewrite elem_of_map_to_list.
Qed.

Lemma in_time_valid s n i l ts : in_time s = true → tasks s !! n = Some (TryValidDone i l (Some ts)) → clock s - LOCK_TIMEOUT_MS < ts.
Proof.
  intros Ht Hn. apply andb_true_iff in Ht as [_ Ht]. rewrite forallb_forall in Ht. specialize (Ht (n, TryValidDone i l (Some ts))). rewrite <- list_elem_of_In, elem_of_map_to_list in Ht. by apply Z.ltb_lt, Ht.
Qed.

Lemma no_overlap_tasks s n t n' t' x : no_overlap s = true → tasks s !! n = Some t → tries t = Some x → tasks s !! n' = Some t' → releases s t' ≠ Some x.
Proof.
  intros Ho Hn Hx Hn' Hr. unfold no_overlap in Ho. rewrite forallb_forall in Ho. specialize (Ho x). rewrite <- list_elem_of_In, bool_decide_eq_true in Ho.
  assert (∀ m tk, tasks s !! m = Some tk → tk ∈ map snd (map_to_list (tasks s))) as Hin.
  { intros m tk Hm. apply list_elem_of_fmap. exists (m, tk). by rewrite elem_of_map_to_list. }
  apply Ho; apply list_elem_of_omap; eauto.
Qed.

Definition orderly (s : lock_system) : bool := in_time s && no_overlap s.

Section Plain.
Context (e : engine) (scan : ∀ A : Type, list A → list A) (scan_perm : ∀ (A : Type) (l : list A), scan A l ≡ₚ l).

(** The row of a lock that is held is not taken by others. *)
Lemma plain_take_txn s n i l token now :
  sys_inv s → plain_inv s → in_time s = true → tasks s !! n = Some (TryTaking i l token now) →
  let (t, did_lock) := try_acquire_lock_txn (tables s) l i token now in
  plain_inv (set_task (upd_tables s t) n (TryTaken i l token did_lock)).
Proof using Type.
  intros Hs Hi Htime Ht.
  assert (∀ k lk, held_lock s k lk → owner lk ≠ (i, l)) as Hnone by (intros k lk Hk Ho; by destruct (pl_try _ Hi _ _ _ _ Hk Ht); rewrite Ho).
  assert (∀ t did, plain_inv (upd_tables s t) → (did = true → has_row t i l token) → plain_inv (set_task (upd_tables s t) n (TryTaken i l token did))) as Hset.
  { intros t did Hp Hrow. apply plain_set; [done| |].
    - split_and!; [|done|by intros ? ? ? [= <- <- <- ->]; apply Hrow]. intros x [= <-]. split_and!; [by eapply (pl_acquiring _ Hi)| |intros k lk Hk Ho; by destruct (Hnone _ _ Hk)].
      cbn. intros n' t' [[<- _]|[Hne H]]%lookup_insert_Some Hx; [done|]. by eapply (pl_one _ Hi).
    - cbn. intros t' k lk H. rewrite Ht in H. by injection H as <-. }
  assert (∀ r, worker_locks (tables s) !! l = Some r → (lr_last_renewed_ts r <? now - LOCK_TIMEOUT_MS) || bool_decide (lr_instance_name r = i) = true → ∀ i' tk, ¬ holds s (i', false, l, tk)) as Hfree.
  { intros r Hr Hc i' tk Hh. destruct (pl_row _ Hi _ _ _ Hh) as (r' & Hr' & Ei & Etk). assert (r' = r) as -> by congruence. pose proof (in_time_row _ _ _ _ _ Htime Hh Hr Etk). pose proof (inv_time _ Hs _ _ now Ht eq_refl).
    apply orb_true_iff in Hc as [?%Z.ltb_lt|Einst%bool_decide_eq_true]; [lia|]. rewrite Einst in Ei. subst i'. destruct Hh as [(k & lk & Hk & He & <- & Erw & <- & _)|[_ [m Hm]]]; [by destruct (Hnone k lk)|].
    assert (m = n) as -> by (by eapply (pl_one _ Hi)). congruence. }
  assert (has_row (MkLockTables (<[l := MkLockRow i token now]> (worker_locks (tables s))) (rows (tables s)) (mode (tables s))) i l token) as Hrow.
  { eexists. split; [apply lookup_insert_eq|done]. }
  assert ((∀ i' tk, ¬ holds s (i', false, l, tk)) → plain_inv (upd_tables s (MkLockTables (<[l := MkLockRow i token now]> (worker_locks (tables s))) (rows (tables s)) (mode (tables s))))) as Hins.
  { intros Hf. apply plain_tables; [done|]. intros i' l' tk Hh. destruct (decide (l' = l)) as [->|Hne]; [by destruct (Hf i' tk)|]. unfold has_row. cbn. rewrite lookup_insert_ne by done. by apply (pl_row _ Hi). }
  unfold try_acquire_lock_txn. destruct (worker_locks (tables s) !! l) as [r|] eqn:Er; [destruct (_ || _) eqn:Ec|].
  - apply Hset; [|done]. apply Hins. by eapply Hfree.
  - apply Hset; [|done]. by apply plain_tables_same.
  - apply Hset; [|done]. apply Hins. intros i' tk Hh. destruct (pl_row _ Hi _ _ _ Hh) as (r' & Hr' & _). congruence.
Qed.

(** The transactions on read-write locks leave [worker_locks] alone, *)
Lemma drop_lock_other locked t l token t' : modes_ok t → drop_lock e scan locked t true l token = Ok t' → worker_locks t' = worker_locks t.
Proof using scan_perm.
  intros Hok E. unfold drop_lock in E. match type of E with delete_read_write_locks _ _ _ _ ?ks = _ => pose proof (delete_read_write_locks_spec e scan scan_perm locked t ks Hok) as Hd end.
  rewrite E in Hd. by destruct Hd as (_ & _ & ?).
Qed.
Lemma reap_other locked t now t' : modes_ok t → reap_stale_read_write_locks_txn e scan locked t now = Ok t' → worker_locks t' = worker_locks t.
Proof using scan_perm.
  intros Hok E. unfold reap_stale_read_write_locks_txn in E. match type of E with delete_read_write_locks _ _ _ _ ?ks = _ => pose proof (delete_read_write_locks_spec e scan scan_perm locked t ks Hok) as Hd end.
  rewrite E in Hd. by destruct Hd as (_ & _ & ?).
Qed.

(** and so do the locks that they add. *)
Lemma plain_new_rw_lock s i l token write : sys_inv s → plain_inv s → plain_inv (new_lock s i true l token write).
Proof using Type.
  intros Hs [P1 P2 P3 P4 P5 P6 P7 P8]. destruct (sys_inv_next s (next_id s) Hs) as (_ & Hk0 & _); [lia|].
  assert (∀ k lk, locks (new_lock s i true l token write) !! k = Some lk → lk_read_write lk = false → locks s !! k = Some lk) as Hl.
  { intros k lk H Hrw. cbn in H. by apply lookup_insert_Some in H as [[<- <-]|[_ H]]. }
  assert (∀ k lk, held_lock (new_lock s i true l token write) k lk → held_lock s k lk) as Hh by (intros k lk (H1 & H2 & H3); by split_and!; [apply Hl|..]).
  split; [|exact P2|exact P3| | | | |].
  - intros i' l' tk [(k & lk & H & He & Ei & Erw & Hx)|H]; apply P1; [left|by right]. exists k, lk. split; [by apply Hl|done].
  - intros k lk H%Hh. by apply P4.
  - intros k lk n t H%Hh. by apply P5.
  - intros k lk k' lk' H%Hh Hk' Hrw. by apply (P6 k lk k' lk' H (Hl _ _ Hk' Hrw) Hrw).
  - intros k lk n t H%Hh Hn. assert (releases (new_lock s i true l token write) t = releases s t) as ->; [|exact (P7 _ _ _ _ H Hn)].
    assert (task_lock t ≠ Some (next_id s)) as Hk' by (intros Hk; destruct (inv_released _ Hs _ _ _ Hn Hk) as (lk' & H' & _); congruence).
    destruct t; try done; cbn; by rewrite lookup_insert_ne by (intros E; apply Hk'; cbn; by rewrite <- E).
  - intros k lk Hk Hrw. apply P8; [by apply Hl|done].
Qed.

Lemma plain_set_locks i write ls s :
  sys_inv s → NoDup (map (λ x : lock_id * string * Z, x.1.2) ls) → (∀ token, token ∈ map (λ x : lock_id * string * Z, x.1.2) ls → token ∈ drawn s ∧ ∀ o, ¬ owns s o token) →
  plain_inv s → plain_inv (set_locks s i write ls).
Proof using Type.
  revert s. induction ls as [|[[l token] now] ls IH]; intros s Hs Hn Ho Hp; cbn [set_locks]; [done|]. cbn in Hn. apply NoDup_cons in Hn as [Hn1 Hn].
  destruct (Ho token) as [Hd Hu]; [by left|]. apply IH; [apply sys_inv_live_rw; by apply sys_inv_new_lock|done| |].
  - intros tk Htk. destruct (Ho tk) as [Hd' Hu']; [by right|]. split; [done|]. by intros o [H|[-> ->]]%owns_new_lock; [apply (Hu' o)|].
  - by destruct (plain_new_rw_lock s i l token write Hs Hp).
Qed.

Lemma plain_draw s d : plain_inv s → plain_inv (upd_drawn s d).
Proof using Type. by intros []. Qed.

(** The delete of [release] *)
Lemma plain_drop s n k rest lk locked :
  sys_inv s → modes_ok (tables s) → plain_inv s → tasks s !! n = Some (Releasing k rest) → locks s !! k = Some lk →
  plain_inv
    match drop_lock e scan locked (tables s) (lk_read_write lk) (lk_id lk) (lk_token lk) with
    | Ok t => set_task (upd_tables s t) n (Released k rest)
    | Raise _ => end_task s n
    end.
Proof using scan_perm.
  intros Hs Hm Hp Ht Hk. assert (∀ t', tasks s !! n = Some t' → t' = Releasing k rest) as Ht' by (intros t' H; congruence).
  destruct (inv_released _ Hs _ _ k Ht eq_refl) as (lk' & Hk' & He). assert (lk' = lk) as -> by congruence.
  assert (∀ t, plain_inv (upd_tables s t) → plain_inv (set_task (upd_tables s t) n (Released k rest))) as Hset.
  { intros t Hp'. apply plain_set; [done| |by intros ? k' lk' ->%Ht' [= <-]]. split_and!; [done| |done]. intros k1 lk1 Hk1. exact (pl_norel _ Hp _ _ _ _ Hk1 Ht). }
  destruct (drop_lock _ _ _ _ _ _ _) as [t|ex] eqn:Ed.
  - apply Hset. destruct (lk_read_write lk) eqn:Erw; [apply plain_tables_same; [done|by eapply drop_lock_other]|]. apply plain_tables; [done|].
    intros i l token Hh. destruct (pl_row _ Hp _ _ _ Hh) as (r & Hr & Ei & Etk). exists r. split; [|done]. cbn in Ed. destruct (decide (l = lk_id lk)) as [->|Hne].
    + rewrite Hr in Ed. destruct (bool_decide _) eqn:Eb; [|by injection Ed as <-]. apply bool_decide_eq_true in Eb. exfalso.
      destruct (holds_owns _ _ _ _ Hh) as (o & Ho & Hx). assert (o = k) as -> by (apply (inv_token _ Hs _ _ token); [done|left; rewrite Hk; cbn; congruence]).
      destruct Hx as [(lk1 & Hk1 & He1)|(t1 & Ht1)]; [congruence|]. by rewrite (inv_apart _ Hs _ _ Ht1) in Hk.
    + destruct (worker_locks (tables s) !! lk_id lk) as [r'|]; [destruct (bool_decide _)|]; injection Ed as <-; cbn; [by rewrite lookup_delete_ne|done..].
  - apply plain_end; [done|]. intros ? k1 lk1 ->%Ht' [= <-] Hk1 Hrw Hd. assert (lk1 = lk) as -> by congruence. rewrite Hrw in Ed. unfold drop_lock in Ed. destruct (worker_locks (tables s) !! lk_id lk); [destruct (bool_decide _)|]; done.
Qed.

Lemma plain_run_task s n t tokens locked s' :
  rw_inv s → plain_inv s → in_time s = true → no_overlap s = true → tasks s !! n = Some t → run_task e scan s n t tokens locked = Some s' → plain_inv s'.
Proof using scan_perm.
  intros (Hs & Hm & _) Hp Htime Hno Ht Hr. assert (∀ t', tasks s !! n = Some t' → t' = t) as Ht' by (intros t' H; congruence).
  destruct t as [i l k|i l ts|i l token now|i l token did|i ls write|k rest|k rest|i now]; cbn [run_task] in Hr.
  - destruct (locks s !! k) as [lk|] eqn:Hk; [|done]. injection Hr as <-. apply plain_set; [done| |by intros ? k' lk' ->%Ht']. split_and!; [|done|done]. intros x [= <-]. split_and!.
    + by eapply (pl_acquiring _ Hp).
    + intros n' t' [[<- _]|[_ H]]%lookup_insert_Some Hx; [done|]. by eapply (pl_one _ Hp).
    + intros k1 lk1 Hk1 Eo. pose proof (pl_try _ Hp _ _ _ _ Hk1 Ht (f_equal Some Eo)) as E. cbn in E. subst k1. destruct Hk1 as (Hk1 & Hrw & He). assert (lk1 = lk) as -> by congruence. rewrite Hrw. cbn.
      destruct (pl_row _ Hp (lk_instance lk) (lk_id lk) (lk_token lk)) as (r & -> & _ & Etk); [left; by exists k, lk|]. cbn. by rewrite bool_decide_true.
  - unfold try_acquire_lock_valid in Hr. destruct (match ts with Some ts => _ | None => _ end) eqn:Ev; [injection Hr as <-; by eapply plain_end_try|].
    destruct (draw _ _) as [s1|] eqn:Ed; [|done]. injection Hr as <-. destruct (sys_inv_draw _ _ _ Hs Ed) as (_ & _ & _ & ->). apply plain_set; [by apply plain_draw| |by intros ? k' lk' ->%Ht'].
    split_and!; [|done|done]. intros x [= <-]. split_and!.
    + by eapply (pl_acquiring _ Hp).
    + intros n' t' [[<- _]|[_ H]]%lookup_insert_Some Hx; [done|]. by eapply (pl_one _ Hp).
    + intros k1 lk1 Hk1 Eo. destruct (pl_try _ Hp _ _ _ _ Hk1 Ht (f_equal Some Eo)) as [v ->]. pose proof (in_time_valid _ _ _ _ _ Htime Ht). apply Z.ltb_ge in Ev. lia.
  - pose proof (plain_take_txn s n i l token now Hs Hp Htime Ht) as H. destruct (try_acquire_lock_txn _ _ _ _ _) as [t did]. by injection Hr as <-.
  - injection Hr as <-. destruct did; [|by eapply plain_end_try]. apply plain_taken; [done|done|done|]. intros m t Hmt. exact (no_overlap_tasks _ _ _ _ _ _ Hno Ht eq_refl Hmt).
  - destruct (negb _) eqn:El; [done|]. apply negb_false_iff, Nat.eqb_eq in El. destruct (draw_all s tokens) as [s1|] eqn:Ed; [|done]. cbn in Hr.
    destruct (sys_inv_draw_all _ _ _ Hs Ed) as (H1 & Hnd & Hf & Es). assert (plain_inv (end_task s1 n)) as He.
    { rewrite Es. apply plain_end; [by apply plain_draw|by intros ? k' lk' ->%Ht']. }
    pose proof (take_spec e scan scan_perm (tables s1) write i (zip_with (λ l token, (l, token, clock s1)) ls tokens)) as Hts.
    destruct (try_acquire_multi_read_write_lock_txn _ _ _ _ _ _) as [t|ex]; injection Hr as <-; [|done]. destruct Hts as (_ & _ & Ew); [by rewrite Es|].
    apply plain_set_locks; rewrite ?zip_tokens by done; [apply sys_inv_tables; by apply sys_inv_end|done| |by apply plain_tables_same].
    intros token H. destruct (Hf _ H) as [Hd Ho]. split; [done|]. intros o Ho'. by apply (Ho o), (owns_end_task s1 n).
  - destruct (locks s !! k) as [lk|] eqn:Hk; [|done]. cbn in Hr. pose proof (plain_drop s n k rest lk locked Hs Hm Hp Ht Hk) as H. destruct (drop_lock _ _ _ _ _ _ _); by injection Hr as <-.
  - by eapply plain_release_done.
  - destruct (reap_stale_read_write_locks_txn _ _ _ _ _) as [t|ex] eqn:Er; injection Hr as <-; (apply plain_end; [|by intros ? k' lk' ->%Ht']); [|done]. apply plain_tables_same; [done|by eapply reap_other].
Qed.

(** A process starts to take a lock. *)
Lemma plain_start_try s i l t :
  sys_inv s → plain_inv s → (i, l) ∈ acquiring_locks s → (∀ n' t', tasks s !! n' = Some t' → tries t' ≠ Some (i, l)) →
  tries t = Some (i, l) → task_lock t = None → (∀ k lk, held_lock s k lk → owner lk = (i, l) → finds t k) → (∀ token, t ≠ TryTaken i l token true) →
  plain_inv (start_task s t).
Proof using Type.
  intros Hi Hp Ha Hone Hx Hlk Hf Hnt. apply plain_start; [done|done|]. split_and!.
  - intros x Hx'. rewrite Hx in Hx'. injection Hx' as <-. split_and!; [done| |by intros k lk Hk ?; apply (Hf k lk)].
    intros n' t' [[<- _]|[_ H]]%lookup_insert_Some Ht'; [done|]. by destruct (Hone _ _ H).
  - intros k lk _. by destruct t.
  - intros i' l' tk ->. cbn in Hx. injection Hx as -> ->. by destruct (Hnt tk).
Qed.

Lemma plain_try_acquire s i l token s' : sys_inv s → plain_inv s → try_acquire_lock s i l token = Some s' → plain_inv s'.
Proof using Type.
  intros Hi Hp. unfold try_acquire_lock. destruct (bool_decide _) eqn:Ea; [by intros [= <-]|]. apply bool_decide_eq_false in Ea. cbn.
  set (s1 := upd_acquiring s ({[(i, l)]} ∪ acquiring_locks s)) in *. assert (plain_inv s1) as Hp1.
  { destruct Hp as [P1 P2 P3 P4 P5 P6 P7 P8]. split; try done. cbn. intros n t x Hn Hx. apply elem_of_union_r. by eapply P2. }
  assert (∀ n' t', tasks s1 !! n' = Some t' → tries t' ≠ Some (i, l)) as Hone by (intros n' t' H Hx; destruct Ea; by eapply (pl_acquiring _ Hp)).
  assert ((i, l) ∈ acquiring_locks s1) as Ha by (by apply elem_of_union_l, elem_of_singleton). destruct (live_lock_tokens s !! (i, l)) as [k0|] eqn:El.
  - intros [= <-]. apply (plain_start_try s1 i l); try done; [by apply sys_inv_acquiring|]. intros k lk Hk Eo. pose proof (pl_live _ Hp _ _ Hk) as H. rewrite Eo in H. cbn. congruence.
  - destruct (draw s1 token) as [s2|] eqn:Ed; [|done]. intros [= <-]. destruct (sys_inv_draw _ _ _ (sys_inv_acquiring _ _ Hi) Ed) as (Hi2 & _ & _ & Es). subst s2.
    apply (plain_start_try _ i l); try done; [by apply plain_draw|]. intros k lk Hk Eo. pose proof (pl_live _ Hp _ _ Hk) as H. rewrite Eo in H. congruence.
Qed.

Lemma plain_renew s read_write l token now : plain_inv s → plain_inv (upd_tables s (renew_lock (tables s) read_write l token now)).
Proof using Type.
  intros Hp. apply plain_tables; [done|]. intros i l' tk Hh. destruct (pl_row _ Hp _ _ _ Hh) as (r & Hr & Hx). unfold has_row, renew_lock.
  destruct read_write; cbn; [by exists r|]. destruct (decide (l = l')) as [->|Hne]; [rewrite lookup_alter_eq, Hr; cbn; eexists; split; [done|by destruct (bool_decide _)]|rewrite lookup_alter_ne by done; by exists r].
Qed.

Lemma plain_step s lbl s' : rw_inv s → plain_inv s → orderly s = true → lock_step e scan s lbl = Some s' → plain_inv s'.
Proof using scan_perm.
  intros Hrw Hp Ho Hs. pose proof Hrw as (Hi & _). apply andb_true_iff in Ho as [Htime Hno].
  assert (∀ ks, plain_inv (release_next s ks start_task id)) as Hrel.
  { intros ks. apply release_next_ind; [done|]. intros k lk rest Hk Hd. destruct (sys_inv_next s (next_id s) Hi) as (_ & _ & Hn); [lia|].
    assert (plain_inv (set_task (upd_locks s (<[k := stop_loop lk]> (locks s))) (next_id s) (Releasing k rest))) as [] by (apply plain_release; try done; intros; congruence). done. }
  destruct lbl as [d|i l token|i ls write|n tokens locked|k|k|k|k|i|i|i]; cbn [lock_step] in Hs.
  - destruct (d <? 0); [done|]. injection Hs as <-. by destruct Hp.
  - by eapply plain_try_acquire.
  - injection Hs as <-. apply plain_start; [done|done|]. by apply task_ok_other.
  - destruct (tasks s !! n) as [t|] eqn:Ht; [|done]. by eapply plain_run_task.
  - unfold setup_looping_call in Hs. destruct (locks s !! k) as [lk|] eqn:Hk; [|done]. cbn in Hs. destruct (lk_loop lk); [done|]. injection Hs as <-. by eapply plain_lock.
  - unfold renew in Hs. destruct (locks s !! k) as [lk|] eqn:Hk; [|done]. cbn in Hs. destruct (lk_loop lk) as [[]|], (lk_renewing lk); try done. injection Hs as <-. by eapply plain_lock.
  - unfold renew_txn in Hs. destruct (locks s !! k) as [lk|] eqn:Hk; [|done]. cbn in Hs. destruct (lk_renewing lk) as [now|]; [|done]. injection Hs as <-.
    refine (plain_lock (upd_tables s _) k lk (set_renewing lk None) _ Hk _ _ _); [by apply plain_renew|done..].
  - injection Hs as <-. apply Hrel.
  - injection Hs as <-. apply plain_start; [done|done|]. by apply task_ok_other.
  - injection Hs as <-. apply Hrel.
  - injection Hs as <-. by apply plain_crash.
Qed.

Lemma plain_inv_reach s : reach e scan orderly s → plain_inv s.
Proof using scan_perm.
  intros Hr. assert (∀ s, orderly s = true → in_time s = true) as Ho by by intros ? [? ?]%andb_true_iff.
  induction Hr as [|s lbl s' Hr IH Hp Hs]; [|by eapply plain_step; eauto using rw_inv_reach].
  split; cbn; try (intros *; rewrite lookup_empty; done); try (intros k lk * (H & _); cbn in H; by rewrite lookup_empty in H).
  intros i l token [(k & lk & H & _)|[_ [n H]]]; cbn in H; by rewrite lookup_empty in H.
Qed.

End Plain.

(** ** Runs *)

Definition a_lock : lock_id := ("delete_old_otks_task", "").
(** A process takes the lock, another fails to, a third takes it when the first has died. *)
Definition lock_run : list label :=
  [LTry "w1" a_lock "t1"; LTask 0 [] []; LTask 0 [] []; LSetup 1; LTry "w2" a_lock "t2"; LTask 2 [] []; LTask 2 [] []; LTick 100000; LRenew 1; LRenewTxn 1; LTick 100000;
   LCrash "w1"; LTick 100000; LTry "w3" a_lock "t3"; LTask 3 [] []; LTask 3 [] []].
Definition lock_run_end : lock_system := default lock_system_init (run_labels SQLite (λ _ l, l) orderly lock_system_init lock_run).


(** The process releases the lock and takes it again before [release] goes on after the delete;
    the entry of the new lock is removed then, and the process takes the lock a third time
    while it holds it. *)
Definition race_run : list label :=
  [LTry "w1" a_lock "t1"; LTask 0 [] []; LTask 0 [] []; LSetup 1;
   LRelease 1; LTask 2 [] []; LTry "w1" a_lock "t2"; LTask 3 [] []; LTask 3 ["t2"] []; LTask 3 [] []; LTask 3 [] [];
   LTask 2 [] []; LTry "w1" a_lock "t3"; LTask 5 [] []; LTask 5 [] []].
Example lock_taken_from_itself :
  (λ s, omap (λ x, if lk_exited x.2 then None else Some (lk_instance x.2, lk_id x.2, lk_token x.2)) (map_to_list (locks s))) <$>
    run_labels SQLite (λ _ l, l) in_time lock_system_init race_run = Some [("w1", a_lock, "t3"); ("w1", a_lock, "t2")].
Proof. vm_compute. reflexivity. Qed.

(** The same without a race, where the process had lost the lock and releases it late *)
Definition late_run : list label :=
  [LTry "w1" a_lock "t1"; LTask 0 [] []; LTask 0 [] []; LSetup 1; LTick 130000;
   LTry "w1" a_lock "t2"; LTask 2 [] []; LTask 2 ["t2"] []; LTask 2 [] []; LTask 2 [] []; LRelease 1; LTask 4 [] []; LTask 4 [] [];
   LTry "w1" a_lock "t3"; LTask 5 [] []; LTask 5 [] []].
Example lost_lock_releases_next :
  (λ s, omap (λ x, if lk_exited x.2 then None else Some (lk_instance x.2, lk_id x.2, lk_token x.2)) (map_to_list (locks s))) <$>
    run_labels SQLite (λ _ l, l) (λ _, true) lock_system_init late_run = Some [("w1", a_lock, "t3"); ("w1", a_lock, "t2")].
Proof. vm_compute. reflexivity. Qed.

(** A lock that is released before its looping call is set up is renewed for ever. *)
Example renewed_after_release :
  (λ s, (λ lk, (lk_dropped lk, lk_loop lk, lk_renewing lk)) <$> locks s !! 1%nat) <$>
    run_labels SQLite (λ _ l, l) orderly lock_system_init
      [LTry "w1" a_lock "t1"; LTask 0 [] []; LTask 0 [] []; LRelease 1; LSetup 1; LTask 2 [] []; LTask 2 [] []; LTick 30000; LRenew 1] = Some (Some (true, Some true, Some 30000)).
Proof. vm_compute. reflexivity. Qed.
