(* ===== verification/WorkerLockHandler.v ===== *)
(** * Waiting for locks: [handlers/worker_lock.py]

    [WorkerLocksHandler] of one process with its [WaitingLock]s and [WaitingMultiLock]s, which
    try to take their locks, and sleep in between until they are woken or their time is up.
    A step is what happens between two awaits.  What [LockStore] answers is part of the
    steps; times are in units of 0.1 ms, so that the random factor of the intervals, in
    thousandths, times their tenths of a second is a whole number.  Opentracing is left out. *)

From S2P Require Import Prelude StateGroups WorkerLocks.

Open Scope Z_scope.

(** Where the context manager of a lock is *)
Inductive wait_phase : Type := WCreated | WTrying | WWaiting (until : Z) | WAcquired | WExited.

(** [WaitingLock] and [WaitingMultiLock].  [wl_started] is when the last attempt began, in steps of the
    handler; it is there for specification only. *)
Record WaitingLock : Type := MkWaitingLock {
  wl_lock_names : list lock_id;
  wl_phase : wait_phase;
  (** [deferred.called] *)
  wl_called : bool;
  (** [_retry_interval], in tenths of a second *)
  wl_retry_interval : Z;
  wl_started : nat;
}.

(** [_locks] has for each lock a set, which is shared with the calls of [_wake_all_locks] that
    are due.  [last_wake] has the step at which a set was woken last. *)
Record locks_handler : Type := MkHandler {
  h_now : Z;
  h_locks : gmap lock_id nat;
  h_sets : gmap nat (gset nat);
  h_waiting : gmap nat WaitingLock;
  h_wakes : list nat;
  h_next : nat;
  h_steps : nat;
  last_wake : gmap nat nat;
}.
Definition new_locks_handler : locks_handler := MkHandler 0 ∅ ∅ ∅ [] 0 0 ∅.

Definition upd_waiting (h : locks_handler) (ws : gmap nat WaitingLock) : locks_handler :=
  MkHandler (h_now h) (h_locks h) (h_sets h) ws (h_wakes h) (h_next h) (h_steps h) (last_wake h).

(** [self._locks.setdefault((lock_name, lock_key), WeakSet()).add(lock)] *)
Definition register (w : nat) (h : locks_handler) (l : lock_id) : locks_handler :=
  match h_locks h !! l with
  | Some x => MkHandler (h_now h) (h_locks h) (<[x := {[w]} ∪ default ∅ (h_sets h !! x)]> (h_sets h)) (h_waiting h) (h_wakes h) (h_next h) (h_steps h) (last_wake h)
  | None =>
      let x := h_next h in
      MkHandler (h_now h) (<[l := x]> (h_locks h)) (<[x := {[w]}]> (h_sets h)) (h_waiting h) (h_wakes h) (S x) (h_steps h) (last_wake h)
  end.

(** [acquire_lock] and [acquire_read_write_lock], which have one name, and
    [acquire_multi_read_write_lock] *)
Definition acquire_locks (h : locks_handler) (lock_names : list lock_id) : locks_handler :=
  let w := h_next h in
  let lock := MkWaitingLock lock_names WCreated false 1 (h_steps h) in
  foldl (register w) (MkHandler (h_now h) (h_locks h) (h_sets h) (<[w := lock]> (h_waiting h)) (h_wakes h) (S w) (h_steps h) (last_wake h)) lock_names.

(** [_get_next_retry_interval]: the interval to wait for, without the random factor, and the next *)
Definition next_retry_interval (i : Z) : Z := Z.max 50 (i * 2).

(** A round of the loop of [__aenter__] until it awaits the store *)
Definition start_attempt (h : locks_handler) (lock : WaitingLock) : WaitingLock :=
  MkWaitingLock (wl_lock_names lock) WTrying false (wl_retry_interval lock) (h_steps h).
(** What follows when the store has answered: [timeout_deferred] returns at once if the deferred
    was called *)
Definition end_attempt (h : locks_handler) (lock : WaitingLock) (taken : bool) (factor : Z) : WaitingLock :=
  if taken then MkWaitingLock (wl_lock_names lock) WAcquired (wl_called lock) (wl_retry_interval lock) (wl_started lock)
  else
    let next := wl_retry_interval lock in
    let lock' := MkWaitingLock (wl_lock_names lock) (WWaiting (h_now h + next * factor)) (wl_called lock) (next_retry_interval next) (wl_started lock) in
    if wl_called lock then start_attempt h lock' else lock'.

(** [__aenter__] is called *)
Definition waiting_aenter (h : locks_handler) (w : nat) : option locks_handler :=
  lock ← h_waiting h !! w;
  match wl_phase lock with WCreated => Some (upd_waiting h (<[w := start_attempt h lock]> (h_waiting h))) | _ => None end.
Definition answer (h : locks_handler) (w : nat) (taken : bool) (factor : Z) : option locks_handler :=
  lock ← h_waiting h !! w;
  match wl_phase lock with WTrying => Some (upd_waiting h (<[w := end_attempt h lock taken factor]> (h_waiting h))) | _ => None end.
(** The time-out of [timeout_deferred]; its exception is dropped. *)
Definition timeout (h : locks_handler) (w : nat) : option locks_handler :=
  lock ← h_waiting h !! w;
  match wl_phase lock with
  | WWaiting until => if h_now h <? until then None else Some (upd_waiting h (<[w := start_attempt h lock]> (h_waiting h)))
  | _ => None
  end.

(** [_on_lock_released], for a lock that this or another process releases *)
Definition on_lock_released (h : locks_handler) (l : lock_id) : locks_handler :=
  match h_locks h !! l with
  | Some x =>
      if bool_decide (default ∅ (h_sets h !! x) = ∅) then h
      else MkHandler (h_now h) (h_locks h) (h_sets h) (h_waiting h) (h_wakes h ++ [x]) (h_next h) (h_steps h) (last_wake h)
  | None => h
  end.

(** [deferred.callback(None)], unless it was called: the lock goes on if it waits for it *)
Definition wake (h : locks_handler) (lock : WaitingLock) : WaitingLock :=
  if wl_called lock then lock
  else
    match wl_phase lock with
    | WWaiting _ => start_attempt h lock
    | _ => MkWaitingLock (wl_lock_names lock) (wl_phase lock) true (wl_retry_interval lock) (wl_started lock)
    end.
(** [_wake_all_locks], the next that is due *)
Definition wake_all_locks (h : locks_handler) : option locks_handler :=
  match h_wakes h with
  | [] => None
  | x :: wakes =>
      let ws := map_imap (λ w lock, Some (if bool_decide (w ∈ default ∅ (h_sets h !! x)) then wake h lock else lock)) (h_waiting h) in
      Some (MkHandler (h_now h) (h_locks h) (h_sets h) ws wakes (h_next h) (h_steps h) (<[x := h_steps h]> (last_wake h)))
  end.

(** [__aexit__], which first notifies; after it nothing refers to the lock, and it leaves the sets *)
Definition waiting_aexit (h : locks_handler) (w : nat) : option locks_handler :=
  lock ← h_waiting h !! w;
  match wl_phase lock with
  | WAcquired =>
      let h := foldl on_lock_released h (wl_lock_names lock) in
      Some (MkHandler (h_now h) (h_locks h) ((λ s, s ∖ {[w]}) <$> h_sets h)
        (<[w := MkWaitingLock (wl_lock_names lock) WExited (wl_called lock) (wl_retry_interval lock) (wl_started lock)]> (h_waiting h)) (h_wakes h) (h_next h) (h_steps h) (last_wake h))
  | _ => None
  end.

(** [_cleanup_locks] *)
Definition cleanup_locks (h : locks_handler) : locks_handler :=
  MkHandler (h_now h) (filter (λ x, default ∅ (h_sets h !! x.2) ≠ ∅) (h_locks h)) (h_sets h) (h_waiting h) (h_wakes h) (h_next h) (h_steps h) (last_wake h).

Inductive handler_label : Type :=
  | HTick (d : Z)
  | HAcquire (lock_names : list lock_id)
  | HEnter (w : nat)
  | HAnswer (w : nat) (taken : bool) (factor : Z)
  | HTimeout (w : nat)
  | HReleased (l : lock_id)
  | HWake
  | HExit (w : nat)
  | HCleanup.

Definition handler_action (h : locks_handler) (lbl : handler_label) : option locks_handler :=
  match lbl with
  | HTick d => if d <? 0 then None else Some (MkHandler (h_now h + d) (h_locks h) (h_sets h) (h_waiting h) (h_wakes h) (h_next h) (h_steps h) (last_wake h))
  | HAcquire lock_names => Some (acquire_locks h lock_names)
  | HEnter w => waiting_aenter h w
  | HAnswer w taken factor => if (900 <=? factor) && (factor <=? 1100) then answer h w taken factor else None
  | HTimeout w => timeout h w
  | HReleased l => Some (on_lock_released h l)
  | HWake => wake_all_locks h
  | HExit w => waiting_aexit h w
  | HCleanup => Some (cleanup_locks h)
  end.
Definition handler_step (h : locks_handler) (lbl : handler_label) : option locks_handler :=
  handler_action (MkHandler (h_now h) (h_locks h) (h_sets h) (h_waiting h) (h_wakes h) (h_next h) (S (h_steps h)) (last_wake h)) lbl.

Fixpoint run_handler (h : locks_handler) (ls : list handler_label) : option locks_handler :=
  match ls with
  | [] => Some h
  | lbl :: ls => h' ← handler_step h lbl; run_handler h' ls
  end.

(** ** Waking up *)

Definition in_set (h : locks_handler) (w x : nat) : Prop := w ∈ default ∅ (h_sets h !! x).
#[local] Instance in_set_dec h w x : Decision (in_set h w x).
Proof. unfold in_set. apply _. Defined.

Definition awake (h : locks_handler) (lock : WaitingLock) (n : nat) : Prop :=
  match wl_phase lock with
  | WTrying => (n ≤ wl_started lock)%nat ∨ wl_called lock = true
  | WWaiting _ => (n ≤ wl_started lock)%nat
  | _ => True
  end.
Definition not_called (lock : WaitingLock) : Prop := match wl_phase lock with WWaiting _ => wl_called lock = false | _ => True end.
Record wake_inv (h : locks_handler) : Prop := MkWakeInv {
  wi_past : ∀ x n, last_wake h !! x = Some n → (n ≤ h_steps h)%nat;
  wi_awake : ∀ w lock x n, h_waiting h !! w = Some lock → in_set h w x → last_wake h !! x = Some n → awake h lock n;
  wi_called : ∀ w lock, h_waiting h !! w = Some lock → not_called lock;
}.

(** A lock may change if it stays awake, or begins an attempt now. *)
Lemma wake_inv_lock h w lock :
  wake_inv h → not_called lock → (∀ x n, in_set h w x → last_wake h !! x = Some n → awake h lock n) → wake_inv (upd_waiting h (<[w := lock]> (h_waiting h))).
Proof.
  intros [I1 I2 I3] Hc Ha. split; cbn; [done| |].
  - intros w' lock' x n [[<- <-]|[_ H]]%lookup_insert_Some; [apply Ha|by eapply I2].
  - intros w' lock' [[<- <-]|[_ H]]%lookup_insert_Some; [done|by eapply I3].
Qed.

Lemma start_attempt_awake h lock x n : wake_inv h → last_wake h !! x = Some n → awake h (start_attempt h lock) n.
Proof. intros Hi Hn. left. by eapply wi_past. Qed.

(** A lock that is created joins sets. *)
Lemma wake_inv_register w ls h :
  wake_inv h → (∃ lock, h_waiting h !! w = Some lock ∧ wl_phase lock = WCreated) → wake_inv (foldl (register w) h ls).
Proof.
  revert h. induction ls as [|l ls IH]; intros h Hi Hw; cbn [foldl]; [done|]. apply IH.
  - destruct Hi as [I1 I2 I3]. destruct Hw as (lock & Hw & Hp).
    assert (h_waiting (register w h l) = h_waiting h ∧ last_wake (register w h l) = last_wake h ∧ h_steps (register w h l) = h_steps h) as (E1 & E2 & E3) by (unfold register; by destruct (h_locks h !! l)).
    assert (∀ w' x, in_set (register w h l) w' x → w' = w ∨ in_set h w' x) as Hs.
    { intros w' x. unfold in_set, register. destruct (h_locks h !! l) as [y|]; cbn.
      - destruct (decide (x = y)) as [->|Hne]; [rewrite lookup_insert_eq; cbn; set_solver|rewrite lookup_insert_ne by done; by right].
      - destruct (decide (x = h_next h)) as [->|Hne]; [rewrite lookup_insert_eq; cbn; set_solver|rewrite lookup_insert_ne by done; by right]. }
    split; rewrite ?E1, ?E2, ?E3; [done| |done]. intros w' lock' x n H [->|Hx]%Hs Hn; [|by eapply I2]. assert (lock' = lock) as -> by congruence. unfold awake. by rewrite Hp.
  - unfold register. by destruct (h_locks h !! l).
Qed.

(** What [__aexit__] notifies *)
Lemma on_lock_released_fold ls h :
  ∃ wakes, foldl on_lock_released h ls = MkHandler (h_now h) (h_locks h) (h_sets h) (h_waiting h) wakes (h_next h) (h_steps h) (last_wake h).
Proof.
  revert h. induction ls as [|l ls IH]; intros h; cbn [foldl]; [exists (h_wakes h); by destruct h|]. destruct (IH (on_lock_released h l)) as [wakes ->].
  exists wakes. unfold on_lock_released. destruct (h_locks h !! l); [|done]. by destruct (bool_decide _).
Qed.

Lemma wake_inv_wake_all h h' : wake_inv h → wake_all_locks h = Some h' → wake_inv h'.
Proof.
  intros Hi. pose proof Hi as [I1 I2 I3]. unfold wake_all_locks. destruct (h_wakes h) as [|x wakes]; [done|]. intros [= <-].
  assert (∀ w lock', map_imap (λ w lock, Some (if bool_decide (w ∈ default ∅ (h_sets h !! x)) then wake h lock else lock)) (h_waiting h) !! w = Some lock' →
    ∃ lock, h_waiting h !! w = Some lock ∧ lock' = if bool_decide (in_set h w x) then wake h lock else lock) as Hw.
  { intros w lock'. rewrite map_lookup_imap. destruct (h_waiting h !! w) as [lock|]; [|done]. cbn. intros [= <-]. by exists lock. }
  assert (∀ lock n, (n ≤ h_steps h)%nat → not_called lock → awake h (wake h lock) n) as Hwake.
  { intros lock n Hn Hc. unfold wake, awake, not_called in *. destruct (wl_called lock) eqn:Ec, (wl_phase lock) eqn:Ep; cbn; rewrite ?Ep; try done; auto. }
  split; cbn.
  - intros y n [[<- <-]|[_ H]]%lookup_insert_Some; [done|by eapply I1].
  - intros w lock' y n (lock & Hl & ->)%Hw Hs Hn. assert (n ≤ h_steps h)%nat as Hle by (apply lookup_insert_Some in Hn as [[<- <-]|[_ H]]; [done|by eapply I1]).
    destruct (bool_decide _) eqn:Eb; [apply Hwake; [done|by eapply I3]|]. apply bool_decide_eq_false in Eb. apply lookup_insert_Some in Hn as [[<- <-]|[_ H]]; [done|]. by eapply (I2 w lock y n).
  - intros w lock' (lock & Hl & ->)%Hw. destruct (bool_decide _); [|by eapply I3]. specialize (I3 _ _ Hl). unfold wake, not_called in *. destruct (wl_called lock) eqn:Ec, (wl_phase lock) eqn:Ep; cbn; rewrite ?Ep; done.
Qed.

Lemma wake_inv_end_attempt h w lock taken factor :
  wake_inv h → h_waiting h !! w = Some lock → wl_phase lock = WTrying → wake_inv (upd_waiting h (<[w := end_attempt h lock taken factor]> (h_waiting h))).
Proof.
  intros Hi Hw Hp. apply wake_inv_lock; [done| |].
  - unfold end_attempt, not_called. destruct taken; [done|]. by destruct (wl_called lock) eqn:Ec.
  - intros x n Hx Hn. pose proof (wi_awake _ Hi _ _ _ _ Hw Hx Hn) as Ha. unfold end_attempt, awake in *. rewrite Hp in Ha. destruct taken; [done|].
    destruct (wl_called lock) eqn:Ec; cbn; [left; by eapply wi_past|]. by destruct Ha.
Qed.

Lemma wake_inv_step h lbl h' : wake_inv h → handler_step h lbl = Some h' → wake_inv h'.
Proof.
  intros Hi0. unfold handler_step. set (h1 := MkHandler _ _ _ _ _ _ _ _).
  assert (wake_inv h1) as Hi by (destruct Hi0 as [I1 I2 I3]; split; [|exact I2|exact I3]; cbn; intros x n H; specialize (I1 _ _ H); lia).
  clearbody h1. clear Hi0 h. rename h1 into h. destruct lbl as [d|ls|w|w taken factor|w|l| |w|]; cbn [handler_action].
  - destruct (d <? 0); [done|]. intros [= <-]. by destruct Hi.
  - intros [= <-]. unfold acquire_locks. apply wake_inv_register.
    + pose proof (wake_inv_lock h (h_next h) (MkWaitingLock ls WCreated false 1 (h_steps h)) Hi I (λ _ _ _ _, I)) as []. done.
    + cbn. rewrite lookup_insert_eq. by eexists.
  - unfold waiting_aenter. destruct (h_waiting h !! w) as [lock|]; [|done]. cbn. destruct (wl_phase lock); try done. intros [= <-]. apply wake_inv_lock; [done|done|]. intros x n _. by apply start_attempt_awake.
  - destruct (_ && _); [|done]. unfold answer. destruct (h_waiting h !! w) as [lock|] eqn:Hw; [|done]. cbn. destruct (wl_phase lock) eqn:Hp; try done. intros [= <-]. by apply wake_inv_end_attempt.
  - unfold timeout. destruct (h_waiting h !! w) as [lock|]; [|done]. cbn. destruct (wl_phase lock) as [| |until| |]; try done. destruct (_ <? _); [done|]. intros [= <-].
    apply wake_inv_lock; [done|done|]. intros x n _. by apply start_attempt_awake.
  - intros [= <-]. destruct (on_lock_released_fold [l] h) as [wakes E]. cbn in E. rewrite E. by destruct Hi.
  - by apply wake_inv_wake_all.
  - unfold waiting_aexit. destruct (h_waiting h !! w) as [lock|]; [|done]. cbn. destruct (wl_phase lock); try done. destruct (on_lock_released_fold (wl_lock_names lock) h) as [wakes ->]. cbn. intros [= <-].
    destruct (wake_inv_lock h w (MkWaitingLock (wl_lock_names lock) WExited (wl_called lock) (wl_retry_interval lock) (wl_started lock)) Hi I (λ _ _ _ _, I)) as [I1 I2 I3]. split; [done| |done].
    intros w' lock' x n Hw' Hx. eapply I2; [exact Hw'|]. unfold in_set in *. cbn in *. rewrite lookup_fmap in Hx. destruct (h_sets h !! x); cbn in *; set_solver.
  - intros [= <-]. by destruct Hi.
Qed.

(** No wake-up is lost: who sleeps has made its last attempt after the last time that those who wait
    for one of its locks were woken.  That is why the deferred is made before the attempt. *)
Theorem wake_up_not_lost ls h w lock until x n :
  run_handler new_locks_handler ls = Some h → h_waiting h !! w = Some lock → wl_phase lock = WWaiting until → w ∈ default ∅ (h_sets h !! x) → last_wake h !! x = Some n → (n ≤ wl_started lock)%nat.
Proof.
  intros Hr Hw Hp Hx Hn. assert (wake_inv h) as Hi.
  { assert (wake_inv new_locks_handler) as H0 by (split; cbn; intros *; by rewrite lookup_empty). revert H0 Hr. generalize new_locks_handler as h0.
    induction ls as [|lbl ls IH]; intros h0 H0 Hr; cbn [run_handler] in Hr; [by injection Hr as <-|]. destruct (handler_step h0 lbl) as [h1|] eqn:E1; [|done]. eapply IH; [|exact Hr]. by eapply wake_inv_step. }
  pose proof (wi_awake _ Hi _ _ _ _ Hw Hx Hn) as H. unfold awake in H. by rewrite Hp in H.
Qed.

(** ** Intervals *)

(** The interval between attempts doubles without bound: [max] stands where [min] would keep it at five seconds. *)
Theorem retry_interval_grows (n : nat) : Nat.iter (S n) next_retry_interval 1 = 50 * 2 ^ Z.of_nat n.
Proof.
  induction n as [|n IH]; [done|]. cbn [Nat.iter nat_rect] in *. unfold next_retry_interval at 1. change (Nat.iter (S n) next_retry_interval 1) with (next_retry_interval (Nat.iter n next_retry_interval 1)) in IH. rewrite IH.
  rewrite Nat2Z.inj_succ, Z.pow_succ_r by lia. assert (1 ≤ 2 ^ Z.of_nat n) by (apply (Z.pow_le_mono_r 2 0); lia). lia.
Qed.

(** A lock that was woken because [__aexit__] notifies before it releases tries too early, and
    sleeps ten seconds although the lock is free by then. *)
Definition notified_run : list handler_label :=
  let l := ("name", "key") in
  [HAcquire [l]; HEnter 0; HAnswer 0 true 1000; HAcquire [l]; HEnter 2; HAnswer 2 false 1000; HTick 1000; HTimeout 2; HAnswer 2 false 1000;
   HExit 0; HWake; HAnswer 2 false 1000].
Example woken_too_early : (λ h, (wl_phase <$> h_waiting h !! 2%nat, h_now h, h_wakes h)) <$> run_handler new_locks_handler notified_run = Some (Some (WWaiting 101000), 1000, []).
Proof. vm_compute. reflexivity. Qed.
