(* ===== verification/ClientFilters.v ===== *)
(** * Filters of clients: [api/filtering.py]

    [Filter] and [FilterCollection], which say what events, presence and account data a client
    wants to see.  The schema validation is third-party code: filters are modelled from JSON of
    the types that the schema prescribes.  The events that a filter is applied to come from other
    servers and are as they are: a check may raise. *)

From S2P Require Import Prelude PyData RoomVersions Ids Events.

From Stdlib Require Import Ascii.

Open Scope Z_scope.

Record Filter : Type := MkFilter {
  f_limit : json;
  f_lazy_load_members : bool;
  f_include_redundant_members : bool;
  f_unread_thread_notifications : bool;
  f_types : option (list string);
  f_not_types : list string;
  f_rooms : option (list string);
  f_not_rooms : list string;
  f_senders : option (list string);
  f_not_senders : list string;
  f_contains_url : option bool;
  f_labels : option (list string);
  f_not_labels : list string;
  f_related_by_senders : option (list string);
  f_related_by_rel_types : option (list string);
  f_rel_types : option (list string);
  f_not_rel_types : list string;
}.

(** ** Filters from JSON *)

Definition str_of_json (j : json) : option string := match j with JStr s => Some s | _ => None end.
Definition strs_of_json (j : json) : option (list string) := match j with JList l => mapM str_of_json l | _ => None end.
(** [filter_json.get(k, None)], [filter_json.get(k, [])] and [filter_json.get(k, False)], where the
    value is of the type that the schema asks for *)
Definition get_strs (k : string) (j : jdict) : option (option (list string)) :=
  match dict_get k j with None => Some None | Some v => Some <$> strs_of_json v end.
Definition get_strs_default (k : string) (j : jdict) : option (list string) :=
  match dict_get k j with None => Some [] | Some v => strs_of_json v end.
Definition get_bool (k : string) (j : jdict) : option (option bool) :=
  match dict_get k j with None => Some None | Some (JBool b) => Some (Some b) | Some _ => None end.

(** [Filter.__init__], with the two options of the configuration that it reads *)
Definition Filter_init (msc3773_enabled msc3874_enabled : bool) (filter_json : jdict) : option Filter :=
  lazy_load_members ← get_bool "lazy_load_members" filter_json;
  include_redundant_members ← get_bool "include_redundant_members" filter_json;
  unread ← get_bool "unread_thread_notifications" filter_json;
  unread ← (if negb (default false unread) && msc3773_enabled then get_bool "org.matrix.msc3773.unread_thread_notifications" filter_json else Some unread);
  types ← get_strs "types" filter_json;
  not_types ← get_strs_default "not_types" filter_json;
  rooms ← get_strs "rooms" filter_json;
  not_rooms ← get_strs_default "not_rooms" filter_json;
  senders ← get_strs "senders" filter_json;
  not_senders ← get_strs_default "not_senders" filter_json;
  contains_url ← get_bool "contains_url" filter_json;
  labels ← get_strs "org.matrix.labels" filter_json;
  not_labels ← get_strs_default "org.matrix.not_labels" filter_json;
  related_by_senders ← get_strs "related_by_senders" filter_json;
  related_by_rel_types ← get_strs "related_by_rel_types" filter_json;
  rel_types ← (if msc3874_enabled then get_strs "org.matrix.msc3874.rel_types" filter_json else Some None);
  not_rel_types ← (if msc3874_enabled then get_strs_default "org.matrix.msc3874.not_rel_types" filter_json else Some []);
  Some (MkFilter (dict_get_default "limit" (JInt 10) filter_json) (default false lazy_load_members) (default false include_redundant_members) (default false unread)
    types not_types rooms not_rooms senders not_senders contains_url labels not_labels related_by_senders related_by_rel_types rel_types not_rel_types).

(** ** Matching *)

(** What is filtered: an event, presence of a user, or account data and the like *)
Inductive FilterEvent : Type :=
  | FEvent (e : event)
  | FPresence (user_id : string)
  | FDict (d : jdict).

(** [filter_value.endswith("*")], with the slice before it *)
Fixpoint cut_star (s : string) : option string :=
  match s with
  | "" => None
  | String c "" => if bool_decide (c = "*"%char) then Some "" else None
  | String c s => String c <$> cut_star s
  end.

(** [actual_value == filter_value] *)
Definition is_value (actual : option json) (v : string) : bool := match actual with Some (JStr s) => bool_decide (s = v) | _ => false end.

Definition matches_wildcard (actual_value : option json) (filter_value : string) : bool :=
  match cut_star filter_value, actual_value with
  | Some type_prefix, Some (JStr s) => str_prefix type_prefix s
  | _, _ => is_value actual_value filter_value
  end.

(** [relation_from_event]: the event that is related to, the type and the key of the relation *)
Definition relation_from_event (e : event) : option (string * string * option string) :=
  match dict_get "m.relates_to" (ev_content e) with
  | Some (JObj ((_ :: _) as relation)) =>
      match dict_get "rel_type" relation, dict_get "event_id" relation with
      | Some (JStr rel_type), Some (JStr parent_id) =>
          let aggregation_key := if bool_decide (rel_type = "m.annotation") then dict_get "key" relation ≫= str_of_json else None in
          Some (parent_id, rel_type, aggregation_key)
      | _, _ => None
      end
  | _ => None
  end.

(** The attributes of a filter for a field, not allowed and allowed, and how its values match *)
Definition field : Type := list string * option (list string) * (string → py bool).

Definition event_get (x : FilterEvent) (k : string) : option json :=
  match x with
  | FEvent e =>
      if bool_decide (k = "content") then Some (JObj (ev_content e))
      else if bool_decide (k = "sender") then Some (JStr (ev_sender e))
      else if bool_decide (k = "room_id") then Some (JStr (ev_room_id e))
      else if bool_decide (k = "type") then Some (JStr (ev_type e))
      else None
  | FDict d => dict_get k d
  | FPresence _ => None
  end.
Definition event_content (x : FilterEvent) : jdict := match event_get x "content" with Some (JObj d) => d | _ => [] end.
Definition event_sender (x : FilterEvent) : option json :=
  match event_get x "sender" with
  | Some s => if truthy s then Some s else dict_get "user_id" (event_content x)
  | None => dict_get "user_id" (event_content x)
  end.

Definition field_matchers (f : Filter) (x : FilterEvent) : list field :=
  match x with
  | FPresence user_id =>
      [(f_not_senders f, f_senders f, λ v, Ok (bool_decide (user_id = v)));
       (f_not_types f, f_types f, λ v, Ok (bool_decide ("m.presence" = v)))]
  | _ =>
      let rel_type := match x with FEvent e => (λ r, JStr r.1.2) <$> relation_from_event e | _ => None end in
      let labels := dict_get_default "org.matrix.labels" (JList []) (event_content x) in
      [(f_not_rooms f, f_rooms f, λ v, Ok (is_value (event_get x "room_id") v));
       (f_not_senders f, f_senders f, λ v, Ok (is_value (event_sender x) v));
       (f_not_types f, f_types f, λ v, Ok (matches_wildcard (event_get x "type") v));
       (f_not_labels f, f_labels f, λ v, py_in (JStr v) labels);
       (f_not_rel_types f, f_rel_types f, λ v, Ok (is_value rel_type v))]
  end.

Fixpoint check_fields (fields : list field) : py bool :=
  match fields with
  | [] => Ok true
  | (disallowed, allowed, match_func) :: fields =>
      bad ← py_any match_func disallowed;
      if bad : bool then Ok false
      else
        match allowed with
        | None => check_fields fields
        | Some values => good ← py_any match_func values; if good : bool then check_fields fields else Ok false
        end
  end.

(** [isinstance(content.get("url"), str)] *)
Definition has_url (content : jdict) : bool := match dict_get "url" content with Some (JStr _) => true | _ => false end.

Definition check (f : Filter) (x : FilterEvent) : py bool :=
  result ← check_fields (field_matchers f x);
  match x with
  | FPresence _ => Ok result
  | _ => Ok (result && match f_contains_url f with None => true | Some b => bool_decide (b = has_url (event_content x)) end)
  end.

(** ** Lists *)

Definition nonempty (l : option (list string)) : bool := match l with Some (_ :: _) => true | _ => false end.

Fixpoint py_filter {A} (p : A → py bool) (l : list A) : py (list A) :=
  match l with
  | [] => Ok []
  | x :: l => b ← p x; l' ← py_filter p l; Ok (if b : bool then x :: l' else l')
  end.

(** [_check_event_relations], with [events_have_relations] of the store *)
Definition check_event_relations (events_have_relations : list string → option (list string) → option (list string) → list string) (f : Filter) (events : list FilterEvent) : list FilterEvent :=
  let event_ids := omap (λ x, match x with FEvent e => Some (ev_id e) | _ => None end) events in
  let event_ids_to_keep := events_have_relations event_ids (f_related_by_senders f) (f_related_by_rel_types f) in
  List.filter (λ x, match x with FEvent e => bool_decide (ev_id e ∈ event_ids_to_keep) | _ => true end) events.

Definition filter_events (events_have_relations : list string → option (list string) → option (list string) → list string) (f : Filter) (events : list FilterEvent) : py (list FilterEvent) :=
  result ← py_filter (check f) events;
  Ok (if nonempty (f_related_by_senders f) || nonempty (f_related_by_rel_types f) then check_event_relations events_have_relations f result else result).

Definition filter_rooms (f : Filter) (room_ids : gset string) : gset string :=
  let room_ids := room_ids ∖ list_to_set (f_not_rooms f) in
  match f_rooms f with None => room_ids | Some l => room_ids ∩ list_to_set l end.

(** [types == [] or "*" in not_types] and the like *)
Definition filters_all (allowed : option (list string)) (disallowed : list string) : bool :=
  bool_decide (allowed = Some []) || bool_decide ("*" ∈ disallowed).
Definition filters_all_types (f : Filter) : bool := filters_all (f_types f) (f_not_types f).
Definition filters_all_senders (f : Filter) : bool := filters_all (f_senders f) (f_not_senders f).
Definition filters_all_rooms (f : Filter) : bool := filters_all (f_rooms f) (f_not_rooms f).

Definition set_rooms (f : Filter) (rooms : option (list string)) : Filter :=
  MkFilter (f_limit f) (f_lazy_load_members f) (f_include_redundant_members f) (f_unread_thread_notifications f) (f_types f) (f_not_types f) rooms (f_not_rooms f)
    (f_senders f) (f_not_senders f) (f_contains_url f) (f_labels f) (f_not_labels f) (f_related_by_senders f) (f_related_by_rel_types f) (f_rel_types f) (f_not_rel_types f).

(** [with_room_ids]: the new filter, and what the old one is then.  Both refer to the list of the
    JSON, which [+=] extends in place. *)
Definition with_room_ids (f : Filter) (room_ids : list string) : py (Filter * Filter) :=
  match f_rooms f with
  | None => Raise TypeError
  | Some rooms => let f' := set_rooms f (Some (rooms ++ room_ids)) in Ok (f', f')
  end.

(** ** [FilterCollection] *)

Record FilterCollection : Type := MkFilterCollection {
  fc_room_filter : Filter;
  fc_room_timeline_filter : Filter;
  fc_room_state_filter : Filter;
  fc_room_ephemeral_filter : Filter;
  fc_room_account_data_filter : Filter;
  fc_presence_filter : Filter;
  fc_global_account_data_filter : Filter;
  fc_include_leave : bool;
  fc_event_fields : list string;
  fc_event_format : string;
}.

Definition get_dict_default (k : string) (j : jdict) : option jdict :=
  match dict_get k j with None => Some [] | Some (JObj d) => Some d | Some _ => None end.

Definition FilterCollection_init (msc3773_enabled msc3874_enabled : bool) (filter_json : jdict) : option FilterCollection :=
  let Filter := λ j, Filter_init msc3773_enabled msc3874_enabled j in
  room_filter_json ← get_dict_default "room" filter_json;
  room_filter ← Filter (List.filter (λ x, bool_decide (x.1 ∈ ["rooms"; "not_rooms"])) room_filter_json);
  room_timeline_filter ← (j ← get_dict_default "timeline" room_filter_json; Filter j);
  room_state_filter ← (j ← get_dict_default "state" room_filter_json; Filter j);
  room_ephemeral_filter ← (j ← get_dict_default "ephemeral" room_filter_json; Filter j);
  room_account_data_filter ← (j ← get_dict_default "account_data" room_filter_json; Filter j);
  presence_filter ← (j ← get_dict_default "presence" filter_json; Filter j);
  global_account_data_filter ← (j ← get_dict_default "account_data" filter_json; Filter j);
  include_leave ← get_bool "include_leave" room_filter_json;
  event_fields ← get_strs_default "event_fields" filter_json;
  event_format ← str_of_json (dict_get_default "event_format" (JStr "client") filter_json);
  Some (MkFilterCollection room_filter room_timeline_filter room_state_filter room_ephemeral_filter room_account_data_filter presence_filter global_account_data_filter
    (default false include_leave) event_fields event_format).

Section Collection.
Context (events_have_relations : list string → option (list string) → option (list string) → list string) (c : FilterCollection).
Let run := filter_events events_have_relations.

Definition filter_presence (user_ids : list string) : py (list FilterEvent) := run (fc_presence_filter c) (map FPresence user_ids).
Definition filter_global_account_data (events : list jdict) : py (list FilterEvent) := run (fc_global_account_data_filter c) (map FDict events).
Definition filter_room_state (events : list event) : py (list FilterEvent) := l ← run (fc_room_filter c) (map FEvent events); run (fc_room_state_filter c) l.
Definition filter_room_timeline (events : list event) : py (list FilterEvent) := l ← run (fc_room_filter c) (map FEvent events); run (fc_room_timeline_filter c) l.
Definition filter_room_ephemeral (events : list jdict) : py (list FilterEvent) := l ← run (fc_room_filter c) (map FDict events); run (fc_room_ephemeral_filter c) l.
Definition filter_room_account_data (events : list jdict) : py (list FilterEvent) := l ← run (fc_room_filter c) (map FDict events); run (fc_room_account_data_filter c) l.

Definition blocks_all_rooms : bool := filters_all_rooms (fc_room_filter c).
Definition blocks_all_presence : bool := filters_all_types (fc_presence_filter c) || filters_all_senders (fc_presence_filter c).
Definition blocks_all_global_account_data : bool := filters_all_types (fc_global_account_data_filter c) || filters_all_senders (fc_global_account_data_filter c).
Definition blocks_all_room (f : Filter) : bool := filters_all_types f || filters_all_senders f || filters_all_rooms f.
Definition blocks_all_room_ephemeral : bool := blocks_all_room (fc_room_ephemeral_filter c).
Definition blocks_all_room_account_data : bool := blocks_all_room (fc_room_account_data_filter c).
Definition blocks_all_room_timeline : bool := blocks_all_room (fc_room_timeline_filter c).
End Collection.

(** ** What passes a filter *)

Lemma py_any_false {A} (p : A → py bool) l : py_any p l = Ok false → ∀ x, x ∈ l → p x = Ok false.
Proof.
  induction l as [|y l IH]; cbn [py_any]; [by intros _ x []%not_elem_of_nil|]. destruct (p y) as [[]|] eqn:E; cbn; try done.
  intros H x [->|Hx]%elem_of_cons; [done|by apply IH].
Qed.

Lemma check_fields_true fields :
  check_fields fields = Ok true → ∀ disallowed allowed m, (disallowed, allowed, m) ∈ fields →
    (∀ v, v ∈ disallowed → m v = Ok false) ∧ (∀ l, allowed = Some l → ∃ v, v ∈ l ∧ m v = Ok true).
Proof.
  induction fields as [|[[d a] m] fields IH]; cbn [check_fields]; [by intros _ ? ? ? []%not_elem_of_nil|]. destruct (py_any m d) as [[]|] eqn:Ed; cbn; try done.
  intros Hf. assert ((∀ l, a = Some l → ∃ v, v ∈ l ∧ m v = Ok true) ∧ check_fields fields = Ok true) as [Ha Hr].
  { destruct a as [l|]; [|done]. destruct (py_any m l) as [[]|] eqn:El; cbn in Hf; try done. split; [|done]. intros l' [= <-].
    apply py_any_true, Exists_exists in El as (v & Hv & Hm). eauto. }
  intros d' a' m' [[= -> -> ->]|Hin]%elem_of_cons; [split; [by apply py_any_false|done]|by apply IH].
Qed.

(** A field of an event lets it pass. *)
Definition passes (disallowed : list string) (allowed : option (list string)) (matches : string → Prop) : Prop :=
  (∀ v, v ∈ disallowed → ¬ matches v) ∧ (∀ l, allowed = Some l → ∃ v, v ∈ l ∧ matches v).

Definition label_in (e : event) (v : string) : Prop := py_in (JStr v) (dict_get_default "org.matrix.labels" (JList []) (ev_content e)) = Ok true.

Lemma check_event_true f e :
  check f (FEvent e) = Ok true →
  passes (f_not_rooms f) (f_rooms f) (λ v, ev_room_id e = v) ∧
  (ev_sender e ≠ "" → passes (f_not_senders f) (f_senders f) (λ v, ev_sender e = v)) ∧
  passes (f_not_types f) (f_types f) (λ v, matches_wildcard (Some (JStr (ev_type e))) v = true) ∧
  passes (f_not_labels f) (f_labels f) (label_in e) ∧
  passes (f_not_rel_types f) (f_rel_types f) (λ v, ∃ r, relation_from_event e = Some r ∧ r.1.2 = v) ∧
  (∀ b, f_contains_url f = Some b → has_url (ev_content e) = b).
Proof.
  intros H. unfold check in H. apply py_bind_Ok in H as (res & Hf & H). injection H as H. apply andb_true_iff in H as [-> Hu]. pose proof (check_fields_true _ Hf) as Hp.
  assert (∀ d a m (P : string → Prop), (d, a, m) ∈ field_matchers f (FEvent e) → (∀ v, m v = Ok true → P v) → (∀ v, m v = Ok false → ¬ P v) → passes d a P) as Hpass.
  { intros d a m P Hin Ht Hn. destruct (Hp _ _ _ Hin) as [H1 H2]. split; [intros v Hv; apply Hn; by apply H1|]. intros l El. destruct (H2 _ El) as (v & Hv & Hm). eauto. }
  split_and!.
  - eapply Hpass; [by left| |]; cbn; intros v [= H]; [by apply bool_decide_eq_true in H|by apply bool_decide_eq_false in H].
  - intros Hs. eapply Hpass; [by right; left| |]; cbn; unfold event_sender; cbn.
    + intros v [= H]. destruct (ev_sender e) eqn:E; [done|]. by apply bool_decide_eq_true in H.
    + intros v [= H]. destruct (ev_sender e) eqn:E; [done|]. by apply bool_decide_eq_false in H.
  - eapply Hpass; [by right; right; left| |]; intros v H; injection H as H; change (event_get (FEvent e) "type") with (Some (JStr (ev_type e))) in H; by rewrite H.
  - eapply Hpass; [by right; right; right; left| |]; intros v H; [exact H|]. unfold label_in. intros H'. change (event_content (FEvent e)) with (ev_content e) in H. by rewrite H in H'.
  - eapply Hpass; [by right; right; right; right; left| |]; cbn; intros v [= H]; destruct (relation_from_event e) as [r|]; cbn in H; try done.
    + apply bool_decide_eq_true in H. eauto.
    + apply bool_decide_eq_false in H. intros (r' & [= <-] & ?). done.
    + by intros (r' & ? & _).
  - intros b Eb. rewrite Eb in Hu. by apply bool_decide_eq_true in Hu as ->.
Qed.

(** When a filter is said to block everything, it does, if the values it has for senders and rooms
    are not stars, which the schema does not admit. *)
Theorem blocks_all_room_right f e b :
  blocks_all_room f = true → "*" ∉ f_not_senders f → "*" ∉ f_not_rooms f → ev_sender e ≠ "" → check f (FEvent e) = Ok b → b = false.
Proof.
  intros Hb Hs Hr He Hc. destruct b; [|done]. apply check_event_true in Hc as ([_ Hrooms] & Hsend & [Hnt Htypes] & _). destruct (Hsend He) as [_ Hsenders].
  unfold blocks_all_room, filters_all_types, filters_all_senders, filters_all_rooms, filters_all in Hb.
  apply orb_true_iff in Hb as [[[H|H]%orb_true_iff|[H|H]%orb_true_iff]%orb_true_iff|[H|H]%orb_true_iff]; apply bool_decide_eq_true in H; try done.
  - by destruct (Htypes _ H) as (v & []%not_elem_of_nil & _).
  - by destruct (Hnt _ H).
  - by destruct (Hsenders _ H) as (v & []%not_elem_of_nil & _).
  - by destruct (Hrooms _ H) as (v & []%not_elem_of_nil & _).
Qed.

(** ** Corner cases *)

Definition filter_from (j : jdict) : Filter :=
  default (MkFilter JNull false false false None [] None [] None [] None None [] None None None []) (Filter_init false false j).

(** The types of presence are compared without wildcards. *)
Example presence_has_no_wildcards :
  check (filter_from [("types", JList [JStr "*"])]) (FPresence "@a:hs") = Ok false ∧ check (filter_from [("not_types", JList [JStr "*"])]) (FPresence "@a:hs") = Ok true.
Proof. split; vm_compute; reflexivity. Qed.

(** Labels that are not a list make a filter on labels fail for everything. *)
Example labels_break_filter :
  filter_events (λ l _ _, l) (filter_from [("org.matrix.not_labels", JList [JStr "fun"])]) [FDict [("content", JObj [("org.matrix.labels", JInt 1)])]] = Raise TypeError.
Proof. vm_compute. reflexivity. Qed.

(** The rooms that a new filter is to have are added to the old one. *)
Example with_room_ids_is_shared :
  (λ x, (f_rooms x.1, f_rooms x.2)) <$> with_room_ids (filter_from [("rooms", JList [JStr "!new"])]) ["!old"] = Ok (Some ["!new"; "!old"], Some ["!new"; "!old"]).
Proof. vm_compute. reflexivity. Qed.
