(* ===== verification/FilterClause.v ===== *)
(** * Filters in the database: [filter_to_clause] of [storage/databases/main/stream.py]

    The condition that a filter adds to a query for events, with the meaning that the two database
    engines give to it: comparison with NULL is unknown, and [LIKE] has wildcards of its own.  The
    condition is a first selection; the events that are found are then filtered with
    [Filter.filter].  So it must select whatever the filter lets through. *)

From S2P Require Import Prelude PyData RoomVersions Ids Events EventAuth StateFilters StateGroups ClientFilters.

From Stdlib Require Import Ascii.

Open Scope Z_scope.

(** ** Conditions *)

Inductive sql_col : Type := ColType | ColSender | ColRoomId | ColLabel | ColRelatedSender | ColRelationType | ColEventRelationType.
Inductive sql_cond : Type :=
  | SqlLike (c : sql_col) (pattern : string)
  | SqlNotLike (c : sql_col) (pattern : string)
  | SqlEq (c : sql_col) (v : string)
  | SqlNe (c : sql_col) (v : string)
  | SqlContainsUrl (b : bool)
  | SqlOr (l : list sql_cond)
  (** [((... AND ...) OR column IS NULL)] *)
  | SqlAndOrNull (l : list sql_cond) (c : sql_col).

Definition col_name (c : sql_col) : string :=
  match c with
  | ColType => "event.type"
  | ColSender => "event.sender"
  | ColRoomId => "event.room_id"
  | ColLabel => "label"
  | ColRelatedSender => "related_event.sender"
  | ColRelationType => "relation_type"
  | ColEventRelationType => "event_relation.relation_type"
  end.

(** The text of conditions, and the arguments in their places *)
Fixpoint join_with (sep : string) (l : list string) : string :=
  match l with [] => "" | [s] => s | s :: l => s +:+ sep +:+ join_with sep l end.
Fixpoint cond_sql (c : sql_cond) : string :=
  match c with
  | SqlLike c _ => col_name c +:+ " LIKE ?"
  | SqlNotLike c _ => col_name c +:+ " NOT LIKE ?"
  | SqlEq c _ => col_name c +:+ " = ?"
  | SqlNe c _ => col_name c +:+ " != ?"
  | SqlContainsUrl _ => "event.contains_url = ?"
  | SqlOr l => "(" +:+ join_with " OR " (map cond_sql l) +:+ ")"
  | SqlAndOrNull l c => "((" +:+ join_with " AND " (map cond_sql l) +:+ ") OR " +:+ col_name c +:+ " IS NULL)"
  end.
Fixpoint cond_args (c : sql_cond) : list json :=
  match c with
  | SqlLike _ v | SqlNotLike _ v | SqlEq _ v | SqlNe _ v => [JStr v]
  | SqlContainsUrl b => [JBool b]
  | SqlOr l | SqlAndOrNull l _ => concat (map cond_args l)
  end.
Definition clause_sql (l : list sql_cond) : string * list json := (join_with " AND " (map cond_sql l), concat (map cond_args l)).

(** [typ.replace("*", "%")] *)
Fixpoint star_to_percent (s : string) : string :=
  match s with "" => "" | String c s => String (if bool_decide (c = "*"%char) then "%"%char else c) (star_to_percent s) end.

Definition type_cond (typ : string) : sql_cond := if str_mem "*" typ then SqlLike ColType (star_to_percent typ) else SqlEq ColType typ.
Definition not_type_cond (typ : string) : sql_cond := if str_mem "*" typ then SqlNotLike ColType (star_to_percent typ) else SqlNe ColType typ.

(** [if values: clauses.append("(%s)" % " OR ".join("column = ?" for _ in values))] *)
Definition any_of (c : sql_col) (values : option (list string)) : list sql_cond :=
  match values with Some ((_ :: _) as l) => [SqlOr (map (SqlEq c) l)] | _ => [] end.

Definition filter_to_clause (event_filter : option Filter) : list sql_cond :=
  match event_filter with
  | None => []
  | Some f =>
      match f_types f with Some ((_ :: _) as l) => [SqlOr (map type_cond l)] | _ => [] end ++
      map not_type_cond (f_not_types f) ++
      any_of ColSender (f_senders f) ++
      map (SqlNe ColSender) (f_not_senders f) ++
      any_of ColRoomId (f_rooms f) ++
      map (SqlNe ColRoomId) (f_not_rooms f) ++
      match f_contains_url f with Some true => [SqlContainsUrl true] | _ => [] end ++
      any_of ColLabel (f_labels f) ++
      any_of ColRelatedSender (f_related_by_senders f) ++
      any_of ColRelationType (f_related_by_rel_types f) ++
      any_of ColEventRelationType (f_rel_types f) ++
      match f_not_rel_types f with [] => [] | l => [SqlAndOrNull (map (SqlNe ColEventRelationType) l) ColEventRelationType] end
  end.

(** ** What they mean *)

(** The columns of a row of the query; those of tables that were joined with no match are NULL. *)
Record joined_row : Type := MkJoined {
  j_type : string;
  j_sender : string;
  j_room_id : string;
  j_contains_url : bool;
  j_label : option string;
  j_related_sender : option string;
  j_relation_type : option string;
  j_event_relation_type : option string;
}.
Definition col_value (j : joined_row) (c : sql_col) : option string :=
  match c with
  | ColType => Some (j_type j)
  | ColSender => Some (j_sender j)
  | ColRoomId => Some (j_room_id j)
  | ColLabel => j_label j
  | ColRelatedSender => j_related_sender j
  | ColRelationType => j_relation_type j
  | ColEventRelationType => j_event_relation_type j
  end.

Definition sql_or (a b : option bool) : option bool :=
  match a, b with Some true, _ | _, Some true => Some true | Some false, Some false => Some false | _, _ => None end.
Definition sql_and (a b : option bool) : option bool :=
  match a, b with Some false, _ | _, Some false => Some false | Some true, Some true => Some true | _, _ => None end.

(** SQLite compares ASCII letters in [LIKE] without regard to case. *)
Definition lower_ascii (c : ascii) : ascii :=
  let n := nat_of_ascii c in if (65 <=? n)%nat && (n <=? 90)%nat then ascii_of_nat (n + 32) else c.
Definition like_eq (e : engine) (a b : ascii) : bool :=
  match e with Postgres => bool_decide (a = b) | SQLite => bool_decide (lower_ascii a = lower_ascii b) end.

(** The rest of a character of several bytes *)
Fixpoint skip_continuation (s : string) : string :=
  match s with String c s' => if utf8_continuation c then skip_continuation s' else s | "" => "" end.

(** [s LIKE p] on UTF-8.  PostgreSQL takes a backslash for an escape, and refuses a pattern that
    ends in one: the query has no result. *)
Fixpoint like (e : engine) (p s : string) : option bool :=
  match p with
  | "" => Some (bool_decide (s = ""))
  | String c p' =>
      if bool_decide (c = "%"%char) then
        (fix any (s : string) : option bool := match s with "" => like e p' "" | String _ s' => sql_or (like e p' s) (any s') end) s
      else if bool_decide (c = "_"%char) then match s with "" => Some false | String _ s' => like e p' (skip_continuation s') end
      else if match e with Postgres => bool_decide (c = "092"%char) | SQLite => false end then
        match p', s with
        | "", _ => None
        | String d p'', String x s' => if bool_decide (d = x) then like e p'' s' else Some false
        | _, "" => Some false
        end
      else match s with "" => Some false | String x s' => if like_eq e c x then like e p' s' else Some false end
  end.

Fixpoint cond_holds (e : engine) (j : joined_row) (c : sql_cond) : option bool :=
  match c with
  | SqlLike c p => v ← col_value j c; like e p v
  | SqlNotLike c p => v ← col_value j c; negb <$> like e p v
  | SqlEq c x => v ← col_value j c; Some (bool_decide (v = x))
  | SqlNe c x => v ← col_value j c; Some (negb (bool_decide (v = x)))
  | SqlContainsUrl b => Some (bool_decide (j_contains_url j = b))
  | SqlOr l => foldr (λ c, sql_or (cond_holds e j c)) (Some false) l
  | SqlAndOrNull l c => sql_or (foldr (λ c, sql_and (cond_holds e j c)) (Some true) l) (Some (bool_decide (col_value j c = None)))
  end.
(** [WHERE] keeps the rows for which all conditions are true. *)
Definition selects (e : engine) (l : list sql_cond) (j : joined_row) : bool := forallb (λ c, bool_decide (cond_holds e j c = Some true)) l.

(** ** What is stored of events *)

(** The rows of [event_labels] and [event_relations] *)
Record label_row : Type := MkLabel { lb_event_id : string; lb_label : string }.
Record relation_row : Type := MkRelation { rl_event_id : string; rl_relates_to_id : string; rl_relation_type : string }.

#[export] Instance label_row_eq_dec : EqDecision label_row.
Proof. solve_decision. Defined.

(** [for label in labels], if there are any, where they are a list of strings *)
Definition insert_labels (e : event) : option (list label_row) :=
  match dict_get "org.matrix.labels" (ev_content e) with
  | None => Some []
  | Some labels => map (MkLabel (ev_id e)) <$> strs_of_json labels
  end.
(** [_handle_event_relations] *)
Definition insert_relations (e : event) : list relation_row :=
  match relation_from_event e with Some (parent_id, rel_type, _) => [MkRelation (ev_id e) parent_id rel_type] | None => [] end.

(** The rows of [events], with the columns that come from the event itself *)
Record stream_row : Type := MkStreamRow { sr_event : event; sr_instance_name : option string; sr_stream_ordering : Z }.
Definition sr_topological_ordering (r : stream_row) : Z := ev_depth (sr_event r).
Definition sr_event_id (r : stream_row) : string := ev_id (sr_event r).
Record stream_tables : Type := MkStreamTables {
  st_events : list stream_row;
  st_labels : list label_row;
  st_relations : list relation_row;
}.

(** [events_have_relations] *)
Definition is_in (v : string) (values : option (list string)) : bool := match values with Some ((_ :: _) as l) => bool_decide (v ∈ l) | _ => true end.
Definition events_have_relations (t : stream_tables) (parent_ids : list string) (relation_senders relation_types : option (list string)) : list string :=
  if negb (nonempty relation_senders) && negb (nonempty relation_types) then parent_ids
  else
    r ← st_relations t;
    x ← List.filter (λ x, bool_decide (sr_event_id x = rl_event_id r)) (st_events t);
    if bool_decide (rl_relates_to_id r ∈ parent_ids) && is_in (ev_sender (sr_event x)) relation_senders && is_in (rl_relation_type r) relation_types
    then [rl_relates_to_id r] else [].

(** A left join has a row without a match where there is no match. *)
Definition left_join {A B} (l : list A) (f : A → B) : list (option B) := match l with [] => [None] | l => map (λ x, Some (f x)) l end.

(** The joins of the query, where the filter needs them: labels, *)
Definition join_labels (t : stream_tables) (f : Filter) (r : stream_row) : list (option string) :=
  if nonempty (f_labels f) then left_join (List.filter (λ x, bool_decide (lb_event_id x = sr_event_id r)) (st_labels t)) lb_label else [None].
(** events that relate to the event, with their type and their sender, *)
Definition join_related (t : stream_tables) (f : Filter) (r : stream_row) : list (option string * option string) :=
  if nonempty (f_related_by_senders f) || nonempty (f_related_by_rel_types f) then
    match List.filter (λ x, bool_decide (rl_relates_to_id x = sr_event_id r)) (st_relations t) with
    | [] => [(None, None)]
    | l =>
        x ← l;
        s ← (if nonempty (f_related_by_senders f) then left_join (List.filter (λ y, bool_decide (sr_event_id y = rl_event_id x)) (st_events t)) (λ y, ev_sender (sr_event y)) else [None]);
        [(Some (rl_relation_type x), s)]
    end
  else [(None, None)].
(** and the relation of the event itself *)
Definition join_relation (t : stream_tables) (f : Filter) (r : stream_row) : list (option string) :=
  if nonempty (f_rel_types f) || nonempty (Some (f_not_rel_types f)) then left_join (List.filter (λ x, bool_decide (rl_event_id x = sr_event_id r)) (st_relations t)) rl_relation_type else [None].

(** When both kinds of relations are joined, the column [relation_type] is ambiguous, and so is [event_id] in
    [USING (event_id)], for which SQLite takes that of the first table. *)
Definition ambiguous (e : engine) (f : Filter) : bool :=
  (nonempty (f_related_by_rel_types f) || match e with Postgres => nonempty (f_related_by_senders f) | SQLite => false end) &&
  (nonempty (f_rel_types f) || nonempty (Some (f_not_rel_types f))).

Definition joined_rows (t : stream_tables) (f : Filter) (r : stream_row) : list joined_row :=
  let e := sr_event r in
  label ← join_labels t f r;
  related ← join_related t f r;
  relation ← join_relation t f r;
  [MkJoined (ev_type e) (ev_sender e) (ev_room_id e) (has_url (ev_content e)) label related.2 related.1 relation].

(** ** The condition selects what the filter lets through *)

(** The tables have what persisting the event writes. *)
Record stored (t : stream_tables) (r : stream_row) : Prop := MkStored {
  stored_row : r ∈ st_events t;
  stored_labels : ∃ ls, insert_labels (sr_event r) = Some ls ∧ ∀ x, x ∈ st_labels t ∧ lb_event_id x = sr_event_id r ↔ x ∈ ls;
  stored_relation : ∀ x, x ∈ st_relations t ∧ rl_event_id x = sr_event_id r ↔ x ∈ insert_relations (sr_event r);
}.

(** The characters of types without a special meaning for [LIKE]; SQLite finds types that differ in case
    from a pattern as well, so that types with upper-case letters are left out there. *)
Definition plain_char (e : engine) (c : ascii) : bool :=
  negb (bool_decide (c = "%"%char)) && negb (bool_decide (c = "_"%char)) &&
  match e with Postgres => negb (bool_decide (c = "092"%char)) | SQLite => bool_decide (lower_ascii c = c) end.
Fixpoint all_chars (p : ascii → bool) (s : string) : bool := match s with "" => true | String c s => p c && all_chars p s end.
(** Patterns to exclude have one star, at their end, and no other special characters; *)
Definition plain_exclude (e : engine) (typ : string) : bool :=
  match cut_star typ with Some p => all_chars (plain_char e) p && negb (str_mem "*" p) | None => negb (str_mem "*" typ) end.
(** those to include no escape *)
Definition plain_include (e : engine) (typ : string) : bool := match e with Postgres => negb (str_mem "092" typ) | SQLite => true end.
Definition plain_event_type (e : engine) (typ : string) : bool := match e with Postgres => true | SQLite => all_chars (λ c, bool_decide (lower_ascii c = c)) typ end.
(** No byte of a character is without the bytes before it. *)
Fixpoint no_stray (s : string) : bool :=
  match s with "" => true | String c s => negb (bool_decide (c = "_"%char) && starts_continuation s) && no_stray s end.

(** *** [LIKE] *)

(** The loop of a percent sign *)
Fixpoint like_any (e : engine) (p s : string) : option bool :=
  match s with "" => like e p "" | String _ s' => sql_or (like e p s) (like_any e p s') end.
Lemma like_percent e p s : like e (String "%" p) s = like_any e p s.
Proof. cbn [like]. rewrite bool_decide_true by done. induction s as [|c s IH]; [done|]. cbn [like_any]. by rewrite <- IH. Qed.

Lemma sql_or_true_r a : sql_or a (Some true) = Some true.
Proof. by destruct a as [[]|]. Qed.

Lemma like_any_all e s : like_any e "" s = Some true.
Proof. induction s as [|c s IH]; [done|]. cbn [like_any]. by rewrite IH, sql_or_true_r. Qed.

Lemma skip_no_stray s : starts_continuation s = false → skip_continuation s = s.
Proof. destruct s as [|c s]; [done|]. cbn. by intros ->. Qed.

(** What starts with a pattern matches it. *)
Lemma like_include e p q rest :
  plain_include e p = true → no_stray (p +:+ rest) = true → like e q rest = Some true → like e (star_to_percent p +:+ q) (p +:+ rest) = Some true.
Proof.
  induction p as [|c p IH]; intros Hp Hs Hq; [done|]. rewrite !str_app_cons in *. cbn [star_to_percent]. rewrite str_app_cons.
  cbn [no_stray] in Hs. apply andb_true_iff in Hs as [Hc Hs].
  assert (plain_include e p = true) as Hp' by (destruct e; [|done]; cbn in Hp |- *; apply negb_true_iff, orb_false_iff in Hp as [_ ->]; done).
  specialize (IH Hp' Hs Hq). destruct (decide (c = "*"%char ∨ c = "%"%char)) as [Hd|Hd].
  - assert ((if bool_decide (c = "*"%char) then "%"%char else c) = "%"%char) as -> by (destruct Hd as [->| ->]; done).
    rewrite like_percent. cbn [like_any]. destruct (p +:+ rest) as [|x s'] eqn:E; cbn [like_any]; rewrite IH; apply sql_or_true_r.
  - rewrite bool_decide_false by tauto. cbn [like]. rewrite (bool_decide_false (c = "%"%char)) by tauto. destruct (decide (c = "_"%char)) as [->|Hu].
    + rewrite bool_decide_true by done. rewrite skip_no_stray; [done|]. apply negb_true_iff in Hc. by rewrite bool_decide_true in Hc.
    + rewrite bool_decide_false by done. destruct e.
      * rewrite bool_decide_false; [cbn [like_eq]; by rewrite bool_decide_true|]. intros ->. cbn in Hp. done.
      * cbn [like_eq]. by rewrite bool_decide_true.
Qed.

(** A pattern that is excluded matches what starts with it, and nothing else. *)
Lemma like_exclude e p s :
  all_chars (plain_char e) p = true → plain_event_type e s = true → like e (p +:+ "%") s = Some (str_prefix p s).
Proof.
  revert s. induction p as [|c p IH]; intros s Hp Hs; [change ("" +:+ "%") with (String "%" ""); rewrite like_percent; by rewrite like_any_all|].
  rewrite str_app_cons. cbn [all_chars] in Hp. apply andb_true_iff in Hp as [Hc Hp]. unfold plain_char in Hc. apply andb_true_iff in Hc as [[H1 H2]%andb_true_iff H3].
  apply negb_true_iff, bool_decide_eq_false in H1. apply negb_true_iff, bool_decide_eq_false in H2. cbn [like]. rewrite !(bool_decide_false _) by done.
  destruct e.
  - apply negb_true_iff, bool_decide_eq_false in H3. rewrite bool_decide_false by done. destruct s as [|x s]; [done|]. cbn [str_prefix like_eq]. destruct (bool_decide (c = x)); [by apply IH|done].
  - apply bool_decide_eq_true in H3. destruct s as [|x s]; [done|]. cbn [plain_event_type all_chars] in Hs. apply andb_true_iff in Hs as [Hx%bool_decide_eq_true Hs]. cbn [str_prefix like_eq].
    rewrite H3, Hx. destruct (bool_decide (c = x)); [by apply IH|done].
Qed.

(** *** Types *)

Lemma cut_star_Some s p : cut_star s = Some p → s = p +:+ "*".
Proof.
  revert p. induction s as [|c s IH]; intros p H; [done|]. cbn [cut_star] in H. destruct s as [|d s]; [case_bool_decide; [injection H as <-; by subst c|done]|].
  destruct (cut_star (String d s)) as [q|] eqn:E; [|done]. injection H as <-. rewrite str_app_cons. f_equal. by apply IH.
Qed.

Lemma star_to_percent_app s t : star_to_percent (s +:+ t) = star_to_percent s +:+ star_to_percent t.
Proof. induction s as [|c s IH]; [done|]. rewrite str_app_cons. cbn [star_to_percent]. by rewrite IH, str_app_cons. Qed.

Lemma star_to_percent_id s : str_mem "*" s = false → star_to_percent s = s.
Proof.
  induction s as [|c s IH]; [done|]. cbn [str_mem star_to_percent]. intros [H%bool_decide_eq_false Hs]%orb_false_iff. by rewrite bool_decide_false, IH.
Qed.

Lemma str_prefix_app p s : str_prefix p s = true → ∃ rest, s = p +:+ rest.
Proof.
  revert s. induction p as [|c p IH]; intros s H; [by exists s|]. destruct s as [|d s]; [done|]. cbn in H. apply andb_true_iff in H as [->%bool_decide_eq_true H].
  destruct (IH _ H) as [rest ->]. exists rest. by rewrite str_app_cons.
Qed.

Lemma plain_include_app e p q : plain_include e (p +:+ q) = true → plain_include e p = true.
Proof. destruct e; [|done]. cbn. rewrite str_mem_app. by destruct (str_mem _ p). Qed.

(** The condition of a type to include holds for the types that it matches, *)
Lemma type_cond_holds e j v :
  plain_include e v = true → no_stray (j_type j) = true → matches_wildcard (Some (JStr (j_type j))) v = true → cond_holds e j (type_cond v) = Some true.
Proof.
  intros Hp Hs Hm. unfold type_cond. destruct (str_mem "*" v) eqn:Ev; cbn [cond_holds col_value mbind option_bind].
  - unfold matches_wildcard in Hm. destruct (cut_star v) as [p|] eqn:Ec.
    + apply cut_star_Some in Ec as ->. apply str_prefix_app in Hm as [rest Er]. rewrite Er in Hs |- *. rewrite star_to_percent_app. apply like_include; [by eapply plain_include_app|done|].
      change (star_to_percent "*") with (String "%" ""). by rewrite like_percent, like_any_all.
    + cbn in Hm. apply bool_decide_eq_true in Hm as <-. rewrite <- (str_app_nil_r (star_to_percent _)). rewrite <- (str_app_nil_r (j_type j)) at 2. by apply like_include; rewrite ?str_app_nil_r.
  - unfold matches_wildcard in Hm. destruct (cut_star v) as [p|] eqn:Ec; [apply cut_star_Some in Ec as ->; by rewrite str_mem_app, orb_true_r in Ev|]. cbn in Hm. f_equal. done.
Qed.

(** and that of a type to exclude for the others. *)
Lemma not_type_cond_holds e j v :
  plain_exclude e v = true → plain_event_type e (j_type j) = true → ¬ matches_wildcard (Some (JStr (j_type j))) v = true → cond_holds e j (not_type_cond v) = Some true.
Proof.
  intros Hp Hs Hm%not_true_iff_false. unfold plain_exclude, matches_wildcard, not_type_cond in *. destruct (cut_star v) as [p|] eqn:Ec.
  - apply cut_star_Some in Ec as ->. apply andb_true_iff in Hp as [Hp Hn%negb_true_iff]. rewrite str_mem_app, orb_true_r. cbn [cond_holds col_value mbind option_bind].
    rewrite star_to_percent_app, star_to_percent_id by done. change (star_to_percent "*") with "%". rewrite like_exclude by done. by rewrite Hm.
  - apply negb_true_iff in Hp as ->. cbn in *. by rewrite Hm.
Qed.

(** *** Groups of conditions *)

Lemma or_holds e j l c : c ∈ l → cond_holds e j c = Some true → cond_holds e j (SqlOr l) = Some true.
Proof.
  intros Hin Hc. cbn [cond_holds]. induction l as [|x l IH]; [by apply not_elem_of_nil in Hin|]. cbn [foldr]. apply elem_of_cons in Hin as [->|Hin]; [by rewrite Hc|]. rewrite IH by done. apply sql_or_true_r.
Qed.

Lemma any_of_holds e j c values v :
  col_value j c = Some v → (∀ l, values = Some l → v ∈ l) → Forall (λ x, cond_holds e j x = Some true) (any_of c values).
Proof.
  intros Hc Hv. destruct values as [[|x l]|]; cbn [any_of]; try done. apply Forall_singleton. refine (or_holds e j (map (SqlEq c) (x :: l)) (SqlEq c v) _ _); [apply (list_elem_of_fmap (SqlEq c) (x :: l) (SqlEq c v)); exists v; split; [done|exact (Hv _ eq_refl)]|].
  cbn. rewrite Hc. cbn. by rewrite bool_decide_true.
Qed.

Lemma none_of_holds e j c values v : col_value j c = Some v → v ∉ values → Forall (λ x, cond_holds e j x = Some true) (map (SqlNe c) values).
Proof.
  intros Hc Hv. apply Forall_forall. intros x (w & -> & Hw)%list_elem_of_fmap. cbn. rewrite Hc. cbn. rewrite bool_decide_false; [done|]. by intros ->.
Qed.

(** *** Joins *)

Lemma elem_of_left_join {A B} (l : list A) (f : A → B) x : x ∈ l → Some (f x) ∈ left_join l f.
Proof. intros Hx. destruct l as [|y l]; [by apply not_elem_of_nil in Hx|]. unfold left_join. apply list_elem_of_fmap. eauto. Qed.

Lemma elem_of_List_filter {A} (p : A → bool) l x : x ∈ List.filter p l ↔ x ∈ l ∧ p x = true.
Proof. rewrite !list_elem_of_In. apply filter_In. Qed.

Lemma strs_of_json_elem l ls v : strs_of_json (JList l) = Some ls → existsb (scalar_eqb (JStr v)) l = true → v ∈ ls.
Proof.
  cbn. rewrite mapM_Some. intros Hls (x & Hx & Hv)%existsb_exists. apply list_elem_of_In in Hx. apply list_elem_of_lookup in Hx as [i Hi].
  destruct (Forall2_lookup_l _ _ _ _ _ Hls Hi) as (w & Hw & Hs). destruct x; cbn in Hs; try done. injection Hs as ->. cbn in Hv. apply bool_decide_eq_true in Hv as ->. by eapply list_elem_of_lookup_2.
Qed.

(** There is a row with a label that the filter asks for, *)
Lemma join_labels_has t f r :
  stored t r → passes (f_not_labels f) (f_labels f) (label_in (sr_event r)) →
  ∃ lb, lb ∈ join_labels t f r ∧ (nonempty (f_labels f) = true → ∃ v, lb = Some v ∧ ∀ l, f_labels f = Some l → v ∈ l).
Proof.
  intros Hst [_ Hp]. unfold join_labels. destruct (nonempty (f_labels f)) eqn:Hn; [|exists None; split; [by left|done]]. destruct (f_labels f) as [l|]; [|done].
  destruct (Hp l eq_refl) as (v & Hv & Hin). exists (Some v). split; [|intros _; exists v; split; [done|by intros ? [= <-]]]. destruct Hst as [_ (ls & Hls & Hrows) _].
  unfold insert_labels in Hls. unfold label_in, dict_get_default in Hin. destruct (dict_get "org.matrix.labels" (ev_content (sr_event r))) as [labels|]; [|done].
  destruct labels; try done. destruct (strs_of_json (JList l0)) as [strs|] eqn:Es; [|done]. injection Hls as <-. cbn in Hin. injection Hin as Hin. pose proof (strs_of_json_elem _ _ _ Es Hin) as Hs.
  destruct (proj2 (Hrows (MkLabel (sr_event_id r) v))) as [H1 H2]; [apply list_elem_of_fmap; by exists v|].
  change (Some v) with (Some (lb_label (MkLabel (sr_event_id r) v))). apply elem_of_left_join, elem_of_List_filter. split; [done|by apply bool_decide_eq_true].
Qed.

(** one of an event that relates to the event, *)
Lemma join_related_has t f r :
  sr_event_id r ∈ events_have_relations t [sr_event_id r] (f_related_by_senders f) (f_related_by_rel_types f) →
  ∃ x, x ∈ join_related t f r ∧ (nonempty (f_related_by_rel_types f) = true → ∃ v, x.1 = Some v ∧ ∀ l, f_related_by_rel_types f = Some l → v ∈ l) ∧
    (nonempty (f_related_by_senders f) = true → ∃ v, x.2 = Some v ∧ ∀ l, f_related_by_senders f = Some l → v ∈ l).
Proof.
  unfold events_have_relations, join_related. set (ns := nonempty (f_related_by_senders f)). set (nt := nonempty (f_related_by_rel_types f)).
  destruct (ns || nt) eqn:Hn; [|apply orb_false_iff in Hn as [-> ->]; intros _; exists (None, None); split; [by left|done]].
  assert (negb ns && negb nt = false) as -> by by destruct ns, nt. intros (rl & Hr & Hrl)%list_elem_of_bind. apply list_elem_of_bind in Hr as (y & Hc & Hy).
  destruct (bool_decide _ && _ && _) eqn:Ec; [|by apply not_elem_of_nil in Hc]. apply andb_true_iff in Ec as [[_ Hs]%andb_true_iff Ht]. apply list_elem_of_singleton in Hc as Hid.
  assert (rl ∈ List.filter (λ x, bool_decide (rl_relates_to_id x = sr_event_id r)) (st_relations t)) as Hrl' by (apply elem_of_List_filter; split; [done|by apply bool_decide_eq_true]).
  assert (∀ v values, nonempty values = true → is_in v values = true → ∀ l, values = Some l → v ∈ l) as Hin by (intros v [[|w l]|] Hn' H l' El; try done; injection El as <-; by apply bool_decide_eq_true in H).
  destruct (List.filter _ (st_relations t)) as [|z zs] eqn:Ez; [by apply not_elem_of_nil in Hrl'|].
  exists (Some (rl_relation_type rl), if ns then Some (ev_sender (sr_event y)) else None). split_and!; cbn [fst snd].
  - apply list_elem_of_bind. exists rl. split; [|done]. apply list_elem_of_bind. eexists. split; [by left|]. destruct ns; [|by left]. exact (elem_of_left_join _ (λ y, ev_sender (sr_event y)) y Hy).
  - intros Hnt. eexists. split; [done|]. by apply Hin.
  - intros Hns. rewrite Hns. eexists. split; [done|]. by apply Hin.
Qed.

(** and one with the relation of the event. *)
Lemma join_relation_has t f r :
  stored t r → passes (f_not_rel_types f) (f_rel_types f) (λ v, ∃ x, relation_from_event (sr_event r) = Some x ∧ x.1.2 = v) →
  ∃ x, x ∈ join_relation t f r ∧ (nonempty (f_rel_types f) = true → ∃ v, x = Some v ∧ ∀ l, f_rel_types f = Some l → v ∈ l) ∧ ∀ v, x = Some v → v ∉ f_not_rel_types f.
Proof.
  intros [_ _ Hrows] [Hnot Hp]. unfold join_relation, insert_relations in *. destruct (relation_from_event (sr_event r)) as [[[parent rel_type] key]|].
  - destruct (proj2 (Hrows (MkRelation (sr_event_id r) parent rel_type))) as [H1 H2]; [by left|].
    destruct (nonempty (f_rel_types f) || _) eqn:En.
    + exists (Some rel_type). split_and!.
      * change rel_type with (rl_relation_type (MkRelation (sr_event_id r) parent rel_type)). apply elem_of_left_join, elem_of_List_filter. split; [done|by apply bool_decide_eq_true].
      * intros _. exists rel_type. split; [done|]. intros l El. destruct (Hp _ El) as (v & Hv & x & [= <-] & <-). done.
      * intros v [= <-] Hv. apply (Hnot _ Hv). by eexists.
    + exists None. split_and!; [by left| |done]. apply orb_false_iff in En as [-> _]. done.
  - assert (List.filter (λ x, bool_decide (rl_event_id x = sr_event_id r)) (st_relations t) = []) as ->.
    { destruct (List.filter _ _) as [|x l] eqn:Ef; [done|]. assert (x ∈ List.filter (λ x, bool_decide (rl_event_id x = sr_event_id r)) (st_relations t)) as [H1 H2%bool_decide_eq_true]%elem_of_List_filter by (rewrite Ef; by left).
      pose proof (proj1 (Hrows x) (conj H1 H2)) as H. by apply not_elem_of_nil in H. }
    exists None. split_and!; [by destruct (_ || _); left| |done]. intros Hn. destruct (f_rel_types f) as [l|]; [|done]. by destruct (Hp _ eq_refl) as (v & _ & x & ? & _).
Qed.


(** ** An event and a filter *)

Definition labelled_event : event :=
  Event "$1" RoomVersions.V10 "org.example.note" "@a:hs" "!room" None [("url", JStr "mxc://hs/1"); ("org.matrix.labels", JList [JStr "fun"])] 0 1 [] [] [] [] [] None false false false false.
Definition reaction_event : event :=
  Event "$2" RoomVersions.V10 "m.reaction" "@b:hs" "!room" None [("m.relates_to", JObj [("rel_type", JStr "m.annotation"); ("event_id", JStr "$1")])] 0 2 [] [] [] [] [] None false false false false.
Definition labelled_row : stream_row := MkStreamRow labelled_event None 1.
Definition labelled_tables : stream_tables := MkStreamTables [labelled_row; MkStreamRow reaction_event None 2] [MkLabel "$1" "fun"] [MkRelation "$2" "$1" "m.annotation"].
Definition labelled_filter : Filter :=
  MkFilter (JInt 10) false false false (Some ["m.room.message"; "org.*"]) ["org_example.x"; "org.example.hidden.*"] (Some ["!room"]) [] (Some ["@a:hs"]) ["@c:hs"] (Some true)
    (Some ["fun"; "work"]) [] (Some ["@b:hs"]) (Some ["m.annotation"]) None ["m.thread"].

Example labelled_clause :
  (clause_sql (filter_to_clause (Some (MkFilter (JInt 10) false false false (Some ["m.room.message"; "org.*"]) ["x.*"] None ["!other"] None [] (Some true) None [] None None None ["m.thread"])))) =
  ("(event.type = ? OR event.type LIKE ?) AND event.type NOT LIKE ? AND event.room_id != ? AND event.contains_url = ? AND ((event_relation.relation_type != ?) OR event_relation.relation_type IS NULL)",
   [JStr "m.room.message"; JStr "org.%"; JStr "x.%"; JStr "!other"; JBool true; JStr "m.thread"]).
Proof. vm_compute. reflexivity. Qed.

Lemma labelled_stored : stored labelled_tables labelled_row.
Proof.
  split; [by left| |].
  - exists [MkLabel "$1" "fun"]. split; [vm_compute; reflexivity|]. intros x. cbn. rewrite list_elem_of_singleton. split; [by intros [? _]|]. intros ->. done.
  - intros x. cbn. rewrite list_elem_of_singleton. split; [intros [-> ?]; done|]. change (insert_relations labelled_event) with (@nil relation_row). by intros []%not_elem_of_nil.
Qed.

