(* ===== verification/RoomPagination.v ===== *)
(** * Pages of the events of a room: [storage/databases/main/stream.py]

    The queries that give the events of a room page by page, in their topological or in their stream
    order, with the tokens between the pages.  A filter becomes a condition of the query
    ([FilterClause]); positions of tokens that have a map of writers are a first selection, too, and
    the rows are filtered again. *)

From S2P Require Import Prelude PyData RoomVersions Ids Events EventAuth StateFilters StateGroups StreamTokens ChangeCache ClientFilters FilterClause.

Open Scope Z_scope.

Inductive Direction : Type := FORWARDS | BACKWARDS.
#[export] Instance Direction_eq_dec : EqDecision Direction.
Proof. solve_decision. Defined.

(** ** Bounds *)

Inductive bound_op : Type := OpGt | OpLt | OpGe | OpLe.
Definition op_sql (o : bound_op) : string := match o with OpGt => ">" | OpLt => "<" | OpGe => ">=" | OpLe => "<=" end.
(** [bound[0]] *)
Definition strict_op (o : bound_op) : bound_op := match o with OpGt | OpGe => OpGt | OpLt | OpLe => OpLt end.

(** What [_make_generic_sql_bound] gives: a bound on the second column, a comparison of tuples, or
    the same written out for SQLite *)
Inductive sql_bound : Type :=
  | BoundSecond (o : bound_op) (val2 : Z)
  | BoundTuple (o : bound_op) (val1 val2 : Z)
  | BoundExpanded (o : bound_op) (val1 val2 : Z).

Definition make_generic_sql_bound (e : engine) (o : bound_op) (values : option Z * Z) : sql_bound :=
  match values with
  | (None, val2) => BoundSecond o val2
  | (Some val1, val2) => match e with Postgres => BoundTuple o val1 val2 | SQLite => BoundExpanded o val1 val2 end
  end.

Definition bound_sql (name1 name2 : string) (b : sql_bound) : string :=
  match b with
  | BoundSecond o val2 => "(" +:+ str_of_Z val2 +:+ " " +:+ op_sql o +:+ " " +:+ name2 +:+ ")"
  | BoundTuple o val1 val2 => "((" +:+ str_of_Z val1 +:+ "," +:+ str_of_Z val2 +:+ ") " +:+ op_sql o +:+ " (" +:+ name1 +:+ "," +:+ name2 +:+ "))"
  | BoundExpanded o val1 val2 =>
      "(" +:+ str_of_Z val1 +:+ " " +:+ op_sql (strict_op o) +:+ " " +:+ name1 +:+ " OR (" +:+ str_of_Z val1 +:+ " = " +:+ name1 +:+ " AND " +:+
      str_of_Z val2 +:+ " " +:+ op_sql o +:+ " " +:+ name2 +:+ "))"
  end.

Definition cmp_op (o : bound_op) (a b : Z) : bool := match o with OpGt => b <? a | OpLt => a <? b | OpGe => b <=? a | OpLe => a <=? b end.
(** Tuples compare lexicographically. *)
Definition tuple_lt (a b : Z * Z) : bool := (a.1 <? b.1) || (a.1 =? b.1) && (a.2 <? b.2).
Definition tuple_le (a b : Z * Z) : bool := negb (tuple_lt b a).
Definition bound_holds (b : sql_bound) (cols : Z * Z) : bool :=
  match b with
  | BoundSecond o val2 => cmp_op o val2 cols.2
  | BoundTuple OpGt val1 val2 => tuple_lt cols (val1, val2)
  | BoundTuple OpLt val1 val2 => tuple_lt (val1, val2) cols
  | BoundTuple OpGe val1 val2 => tuple_le cols (val1, val2)
  | BoundTuple OpLe val1 val2 => tuple_le (val1, val2) cols
  | BoundExpanded o val1 val2 => cmp_op (strict_op o) val1 cols.1 || (val1 =? cols.1) && cmp_op o val2 cols.2
  end.

Definition generate_pagination_where_clause (e : engine) (direction : Direction) (from_token to_token : option (option Z * Z)) : list sql_bound :=
  option_list (make_generic_sql_bound e (match direction with BACKWARDS => OpGe | FORWARDS => OpLt end) <$> from_token) ++
  option_list (make_generic_sql_bound e (match direction with BACKWARDS => OpLt | FORWARDS => OpGe end) <$> to_token).

(** The two bounds; rows are in ascending order forwards, and in descending order backwards. *)
Definition token_bound (t : RoomStreamToken) (max : bool) : option Z * Z :=
  match topological t with
  | Some top => (Some top, stream (room_pos t))
  | None => (None, if max then get_max_stream_pos (room_pos t) else stream (room_pos t))
  end.
Definition generate_pagination_bounds (direction : Direction) (from_token to_token : option RoomStreamToken) : option (option Z * Z) * option (option Z * Z) :=
  let backwards := bool_decide (direction = BACKWARDS) in
  ((λ t, token_bound t backwards) <$> from_token, (λ t, token_bound t (negb backwards)) <$> to_token).

Definition generate_next_token (direction : Direction) (last_topo_ordering : option Z) (last_stream_ordering : Z) : py RoomStreamToken :=
  new_room_token (match direction with BACKWARDS => last_stream_ordering - 1 | FORWARDS => last_stream_ordering end) ∅ last_topo_ordering.

(** ** Rows *)

Definition row_key (r : stream_row) : Z * Z := (sr_topological_ordering r, sr_stream_ordering r).
Definition instance_or_master (instance_name : option string) : string := default "master" instance_name.

Definition filter_results (lower_token upper_token : option RoomStreamToken) (r : stream_row) : bool :=
  let instance_name := instance_or_master (sr_instance_name r) in
  match lower_token with
  | None => true
  | Some t =>
      match topological t with
      | Some top => negb (tuple_le (row_key r) (top, stream (room_pos t)))
      | None => negb (sr_stream_ordering r <=? get_stream_pos_for_instance (room_pos t) instance_name)
      end
  end &&
  match upper_token with
  | None => true
  | Some t =>
      match topological t with
      | Some top => negb (tuple_lt (top, stream (room_pos t)) (row_key r))
      | None => negb (get_stream_pos_for_instance (room_pos t) instance_name <? sr_stream_ordering r)
      end
  end.

Definition is_live (t : option RoomStreamToken) : bool := match t with Some t => bool_decide (topological t = None) | None => true end.
Definition filter_results_by_stream (lower_token upper_token : option RoomStreamToken) (r : stream_row) : py bool :=
  raise_if (negb (is_live lower_token)) AssertionError ;;
  (if negb (filter_results lower_token None r) then Ok false
   else raise_if (negb (is_live upper_token)) AssertionError ;; Ok (filter_results None upper_token r)).

(** ** Queries *)

(** [ORDER BY ... LIMIT ?], by two columns *)
Definition order_by (key : stream_row → Z * Z) (direction : Direction) (l : list stream_row) : list stream_row :=
  py_sorted (λ a b, match direction with FORWARDS => tuple_le (key a) (key b) | BACKWARDS => tuple_le (key b) (key a) end) l.

(** [SELECT DISTINCT] *)
Fixpoint distinct (l : list stream_row) : list stream_row :=
  match l with
  | [] => []
  | r :: l => if existsb (λ x, bool_decide (sr_event_id x = sr_event_id r)) l then distinct l else r :: distinct l
  end.
Definition needs_distinct (f : Filter) : bool :=
  match f_labels f with Some (_ :: _ :: _) => true | _ => false end || nonempty (f_related_by_senders f) || nonempty (f_related_by_rel_types f).

Definition in_room (room_id : string) (r : stream_row) : bool := negb (ev_outlier (sr_event r)) && bool_decide (ev_room_id (sr_event r) = room_id).

(** The rows of the query, one for each row of the joins that the condition selects *)
Definition select_rows (e : engine) (t : stream_tables) (room_id : string) (bounds : list sql_bound) (event_filter : option Filter) : list stream_row :=
  r ← List.filter (λ r, in_room room_id r && forallb (λ b, bound_holds b (row_key r)) bounds) (st_events t);
  match event_filter with
  | None => [r]
  | Some f => map (λ _, r) (List.filter (selects e (filter_to_clause (Some f))) (joined_rows t f r))
  end.

(** The tokens are compared by their streams only. *)
Definition nothing_between (direction : Direction) (from_token : RoomStreamToken) (to_token : option RoomStreamToken) : bool :=
  match to_token with
  | None => false
  | Some to_token => match direction with FORWARDS => is_before_or_eq (room_pos to_token) (room_pos from_token) | BACKWARDS => is_before_or_eq (room_pos from_token) (room_pos to_token) end
  end.

(** What both kinds of pagination do with the rows they have fetched *)
Definition lower_of (direction : Direction) (from_token : RoomStreamToken) (to_token : option RoomStreamToken) : option RoomStreamToken :=
  match direction with BACKWARDS => to_token | FORWARDS => Some from_token end.
Definition upper_of (direction : Direction) (from_token : RoomStreamToken) (to_token : option RoomStreamToken) : option RoomStreamToken :=
  match direction with BACKWARDS => Some from_token | FORWARDS => to_token end.

(** [_paginate_room_events_by_topological_ordering_txn]: the rows, the next token and whether the
    limit was hit *)
Definition paginate_room_events_by_topological_ordering_txn (e : engine) (t : stream_tables) (room_id : string) (from_token : RoomStreamToken) (to_token : option RoomStreamToken)
    (direction : Direction) (limit : nat) (event_filter : option Filter) : py (list stream_row * RoomStreamToken * bool) :=
  if nothing_between direction from_token to_token then Ok ([], default from_token to_token, false)
  else
    let (from_bound, to_bound) := generate_pagination_bounds direction (Some from_token) to_token in
    let bounds := generate_pagination_where_clause e direction from_bound to_bound in
    raise_if (match event_filter with Some f => ambiguous e f | None => false end) (PyException "ambiguous column name") ;;
    let rows := select_rows e t room_id bounds event_filter in
    let rows := if match event_filter with Some f => needs_distinct f | None => false end then distinct rows else rows in
    let fetched_rows := take (limit * 2) (order_by row_key direction rows) in
    let limited := (limit * 2 <=? length fetched_rows)%nat in
    let rows := List.filter (filter_results (lower_of direction from_token to_token) (upper_of direction from_token to_token)) fetched_rows in
    let limited := limited || (limit <? length rows)%nat in
    let rows := take limit rows in
    match last rows with
    | Some r => next_token ← generate_next_token direction (Some (sr_topological_ordering r)) (sr_stream_ordering r); Ok (rows, next_token, limited)
    | None => Ok (rows, default from_token to_token, limited)
    end.

(** [paginate_room_events_by_topological_ordering], with the rows in place of the events they stand for *)
Definition paginate_room_events_by_topological_ordering (e : engine) (t : stream_tables) (room_id : string) (from_key : RoomStreamToken) (to_key : option RoomStreamToken)
    (direction : Direction) (limit : nat) (event_filter : option Filter) : py (list stream_row * RoomStreamToken * bool) :=
  if nothing_between direction from_key to_key then Ok ([], default from_key to_key, false)
  else paginate_room_events_by_topological_ordering_txn e t room_id from_key to_key direction limit event_filter.

(** [paginate_room_events_by_stream_ordering]; [_events_stream_cache] has the changes of rooms. *)
Definition stream_key (r : stream_row) : Z * Z := (0, sr_stream_ordering r).
Definition paginate_room_events_by_stream_ordering (events_stream_cache : StreamChangeCache) (e : engine) (t : stream_tables) (room_id : string) (from_key : RoomStreamToken)
    (to_key : option RoomStreamToken) (direction : Direction) (limit : nat) : py (list stream_row * RoomStreamToken * bool) :=
  raise_if (negb (is_live (Some from_key))) AssertionError ;;
  raise_if (negb (is_live to_key)) AssertionError ;;
  if nothing_between direction from_key to_key then Ok ([], default from_key to_key, false)
  else
    let has_changed :=
      match direction with
      | FORWARDS => has_entity_changed events_stream_cache room_id (stream (room_pos from_key))
      | BACKWARDS => match to_key with Some to_key => has_entity_changed events_stream_cache room_id (stream (room_pos to_key)) | None => true end
      end in
    if negb has_changed then Ok ([], default from_key to_key, false)
    else
      let (from_bound, to_bound) := generate_pagination_bounds direction (Some from_key) to_key in
      let bounds := generate_pagination_where_clause e direction from_bound to_bound in
      let fetched_rows := take (2 * limit) (order_by stream_key direction (List.filter (λ r, in_room room_id r && forallb (λ b, bound_holds b (stream_key r)) bounds) (st_events t))) in
      let limited := (2 * limit <=? length fetched_rows)%nat in
      rows ← py_filter (filter_results_by_stream (lower_of direction from_key to_key) (upper_of direction from_key to_key)) fetched_rows;
      let limited := limited || (limit <? length rows)%nat in
      let rows := take limit rows in
      match last rows with
      | Some r => next_key ← generate_next_token direction None (sr_stream_ordering r); Ok (rows, next_key, limited)
      | None => Ok (rows, default from_key to_key, limited)
      end.
