(* ===== verification/RoomPaginationFacts.v ===== *)
(** * Going through the pages of a room gives every event once *)

From S2P Require Import Prelude PyData RoomVersions Ids Events EventAuth StateFilters StateGroups StreamTokens StreamTokenFacts ChangeCache ClientFilters FilterClause RoomPagination.

Open Scope Z_scope.

(** ** Orders *)

Lemma tuple_lt_true a b : tuple_lt a b = true ↔ a.1 < b.1 ∨ a.1 = b.1 ∧ a.2 < b.2.
Proof. unfold tuple_lt. rewrite orb_true_iff, andb_true_iff, !Z.ltb_lt, Z.eqb_eq. done. Qed.
Lemma tuple_le_true a b : tuple_le a b = true ↔ a.1 < b.1 ∨ a.1 = b.1 ∧ a.2 ≤ b.2.
Proof. unfold tuple_le. rewrite negb_true_iff, <- not_true_iff_false, tuple_lt_true. lia. Qed.

(** On both engines a bound compares tuples. *)
Lemma bound_lt e a b c : bound_holds (make_generic_sql_bound e OpLt (Some a, b)) c = tuple_lt (a, b) c.
Proof.
  destruct e; [done|]. cbn. apply eq_true_iff_eq. rewrite tuple_lt_true, orb_true_iff, andb_true_iff, !Z.ltb_lt, Z.eqb_eq. done.
Qed.
Lemma bound_ge e a b c : bound_holds (make_generic_sql_bound e OpGe (Some a, b)) c = tuple_le c (a, b).
Proof.
  destruct e; [done|]. cbn. apply eq_true_iff_eq. rewrite tuple_le_true, orb_true_iff, andb_true_iff, Z.ltb_lt, Z.leb_le, Z.eqb_eq. cbn. lia.
Qed.

Section Order.
Context (key : stream_row → Z * Z) (direction : Direction).

(** In the direction of the pages, a row comes after another. *)
Definition precedes (a b : stream_row) : Prop :=
  match direction with FORWARDS => tuple_lt (key a) (key b) = true | BACKWARDS => tuple_lt (key b) (key a) = true end.

Lemma precedes_trans a b c : precedes a b → precedes b c → precedes a c.
Proof. unfold precedes. destruct direction; rewrite !tuple_lt_true; lia. Qed.
Lemma precedes_irrefl a : ¬ precedes a a.
Proof. unfold precedes. destruct direction; rewrite tuple_lt_true; lia. Qed.
#[local] Instance precedes_antisymm : AntiSymm (=) precedes.
Proof. intros a b H1 H2. by destruct (precedes_irrefl a); eapply precedes_trans. Qed.

(** Rows that are ordered are strictly so, if their keys differ. *)
Lemma order_by_sorted l : NoDup (map key l) → StronglySorted precedes (order_by key direction l).
Proof.
  intros Hn. unfold order_by. set (leb := λ a b, _).
  assert (StronglySorted (λ a b, leb a b = true) (py_sorted leb l)) as Hs.
  { apply py_sorted_sorted; unfold leb; intros *; destruct direction; rewrite !tuple_le_true; lia. }
  assert (NoDup (map key (py_sorted leb l))) as Hn' by by rewrite py_sorted_perm.
  induction Hs as [|a l' Hs IH Ha]; [constructor|]. cbn in Hn'. apply NoDup_cons in Hn' as [Hna Hn']. constructor; [by apply IH|].
  rewrite Forall_forall in Ha |- *. intros b Hb. specialize (Ha b Hb). assert (key a ≠ key b) as Hne by (intros E; apply Hna; rewrite E; apply list_elem_of_fmap; by exists b).
  unfold leb, precedes in *. destruct (key a) as [a1 a2], (key b) as [b1 b2]. destruct direction; rewrite tuple_le_true in Ha; rewrite tuple_lt_true; cbn in *.
  - destruct (decide (a1 = b1)) as [->|]; [|lia]. destruct (decide (a2 = b2)) as [->|]; [done|lia].
  - destruct (decide (a1 = b1)) as [->|]; [|lia]. destruct (decide (a2 = b2)) as [->|]; [done|lia].
Qed.

Lemma sorted_filter (p : stream_row → bool) l : StronglySorted precedes l → StronglySorted precedes (List.filter p l).
Proof.
  induction 1 as [|a l Hs IH Ha]; [constructor|]. cbn. destruct (p a); [|done]. constructor; [done|]. rewrite Forall_forall in Ha |- *. intros b [Hb _]%elem_of_List_filter. by apply Ha.
Qed.

Lemma sorted_NoDup l : StronglySorted precedes l → NoDup l.
Proof. induction 1 as [|a l Hs IH Ha]; constructor; [|done]. intros Hin. rewrite Forall_forall in Ha. by apply (precedes_irrefl a), Ha. Qed.

(** Two ordered lists with the same rows are the same. *)
Lemma sorted_unique l1 l2 : StronglySorted precedes l1 → StronglySorted precedes l2 → (∀ r, r ∈ l1 ↔ r ∈ l2) → l1 = l2.
Proof.
  intros H1 H2 Hl. eapply StronglySorted_unique; [apply precedes_antisymm|done|done|]. apply NoDup_Permutation; [by apply sorted_NoDup|by apply sorted_NoDup|done].
Qed.

(** What comes after a row of an ordered list is the rest of the list. *)
Lemma sorted_after l1 x l2 (after : stream_row → bool) :
  StronglySorted precedes (l1 ++ x :: l2) → (∀ r, after r = true ↔ precedes x r) → List.filter after (l1 ++ x :: l2) = l2.
Proof.
  intros Hs Ha. assert (∀ l, (∀ r, r ∈ l → after r = false) → List.filter after l = []) as Hnone.
  { induction l as [|r l IH]; intros H; [done|]. cbn. rewrite H by by left. apply IH. intros r' Hr'. apply H. by right. }
  assert (∀ l, (∀ r, r ∈ l → after r = true) → List.filter after l = l) as Hall.
  { induction l as [|r l IH]; intros H; [done|]. cbn. rewrite H by by left. f_equal. apply IH. intros r' Hr'. apply H. by right. }
  rewrite List.filter_app. apply StronglySorted_app in Hs as (H12 & H1 & H2). rewrite Hnone; [|].
  - cbn. apply StronglySorted_inv in H2 as [H2 Hx]. assert (after x = false) as -> by (apply not_true_iff_false; rewrite Ha; apply precedes_irrefl). cbn. apply Hall. intros r Hr. apply Ha. rewrite Forall_forall in Hx. by apply Hx.
  - intros r Hr. apply not_true_iff_false. rewrite Ha. intros Hp. apply (precedes_irrefl x). eapply precedes_trans; [exact Hp|]. apply H12; [done|by left].
Qed.
End Order.

(** ** What the query selects *)

(** The unique indexes of the tables *)
Record tables_ok (t : stream_tables) : Prop := MkTablesOk {
  ok_ids : NoDup (map sr_event_id (st_events t));
  ok_streams : NoDup (map sr_stream_ordering (st_events t));
  ok_labels : NoDup (st_labels t);
  ok_relations : NoDup (map rl_event_id (st_relations t));
}.

Definition wanted (e : engine) (t : stream_tables) (event_filter : option Filter) (r : stream_row) : bool :=
  match event_filter with None => true | Some f => existsb (selects e (filter_to_clause (Some f))) (joined_rows t f r) end.

(** A list in which any two elements that are wanted are the same has at most one. *)
Lemma filter_at_most_one {A} (p : A → bool) l : NoDup l → (∀ x y, x ∈ l → y ∈ l → p x = true → p y = true → x = y) → (length (List.filter p l) ≤ 1)%nat.
Proof.
  intros Hn Hp. destruct (List.filter p l) as [|x [|y l']] eqn:E; [cbn; lia..|]. exfalso.
  assert (NoDup (List.filter p l)) as Hf by (apply NoDup_ListNoDup, List.NoDup_filter; by apply NoDup_ListNoDup). rewrite E in Hf. apply NoDup_cons in Hf as [Hf _]. apply Hf.
  assert (x ∈ List.filter p l ∧ y ∈ List.filter p l) as [[Hx Px]%elem_of_List_filter [Hy Py]%elem_of_List_filter] by (rewrite E; split; [by left|by right; left]). rewrite (Hp x y) by done. by left.
Qed.

Lemma NoDup_map_eq {A B} (g : A → B) l x y : NoDup (map g l) → x ∈ l → y ∈ l → g x = g y → x = y.
Proof.
  induction l as [|z l IH]; cbn; [by intros _ []%not_elem_of_nil|]. intros [Hz Hn]%NoDup_cons Hx Hy E. apply elem_of_cons in Hx, Hy.
  destruct Hx as [->|Hx], Hy as [->|Hy]; [done| | |by apply IH]; exfalso; apply Hz, list_elem_of_fmap; [exists y|exists x]; done.
Qed.

Lemma distinct_spec l : NoDup (map sr_event_id (distinct l)) ∧ ((∀ x y, x ∈ l → y ∈ l → sr_event_id x = sr_event_id y → x = y) → ∀ r, r ∈ distinct l ↔ r ∈ l).
Proof.
  induction l as [|x l [IH1 IH2]]; cbn [distinct]; [split; [constructor|done]|].
  assert (∀ r, r ∈ distinct l → r ∈ l) as Hsub.
  { clear. induction l as [|y l IH]; cbn [distinct]; [done|]. intros r. destruct (existsb _ l); [by intros ?%IH; right|]. intros [->|?%IH]%elem_of_cons; [by left|by right]. }
  destruct (existsb _ l) eqn:Ex.
  - split; [done|]. intros Hl r. rewrite IH2 by (intros a b Ha Hb; apply Hl; by right). rewrite elem_of_cons. split; [by right|]. intros [->|?]; [|done].
    apply existsb_exists in Ex as (y & Hy%list_elem_of_In & Ey%bool_decide_eq_true). rewrite (Hl x y); [done|by left|by right|done].
  - split.
    + cbn. constructor; [|done]. intros (y & Ey & Hy)%list_elem_of_fmap. apply not_true_iff_false in Ex. apply Ex, existsb_exists. exists y. rewrite <- list_elem_of_In. split; [by apply Hsub|by apply bool_decide_eq_true].
    + intros Hl r. rewrite !elem_of_cons, IH2; [done|]. intros a b Ha Hb. apply Hl; by right.
Qed.

Section Select.
Context (e : engine) (t : stream_tables) (Ht : tables_ok t) (f : Filter).

Lemma NoDup_left_join {A B} (l : list A) (g : A → B) : NoDup (map g l) → NoDup (left_join l g).
Proof using Type.
  unfold left_join. destruct l as [|x l]; [intros _; apply NoDup_singleton|]. intros Hn. change (NoDup (map (λ y, Some (g y)) (x :: l))).
  replace (map (λ y, Some (g y)) (x :: l)) with (Some <$> map g (x :: l)) by (by rewrite <- list_fmap_compose || (cbn; f_equal; induction l; cbn; by f_equal)). by apply NoDup_fmap_2; [apply _|].
Qed.

(** An event has one row for its own relation, *)
Lemma join_relation_one r : ∃ z, join_relation t f r = [z].
Proof using Ht.
  unfold join_relation. destruct (_ || _); [|by exists None]. set (p := λ x : relation_row, _). assert (length (List.filter p (st_relations t)) ≤ 1)%nat as Hl.
  { apply filter_at_most_one; [eapply NoDup_fmap_1, (ok_relations _ Ht)|]. intros x y Hx Hy Px%bool_decide_eq_true Py%bool_decide_eq_true. apply (NoDup_map_eq _ _ _ _ (ok_relations _ Ht)); [done|done|congruence]. }
  destruct (List.filter p (st_relations t)) as [|x [|y l]]; [by eexists..|cbn in Hl; lia].
Qed.

(** and one for each label. *)
Lemma join_labels_NoDup r : NoDup (join_labels t f r).
Proof using Ht.
  unfold join_labels. destruct (nonempty (f_labels f)); [|apply NoDup_singleton]. apply NoDup_left_join. apply NoDup_fmap_2_strong.
  - intros [i1 l1] [i2 l2] [_ H1%bool_decide_eq_true]%elem_of_List_filter [_ H2%bool_decide_eq_true]%elem_of_List_filter E. cbn in *. congruence.
  - apply NoDup_ListNoDup, List.NoDup_filter, NoDup_ListNoDup. apply (ok_labels _ Ht).
Qed.

(** Without [DISTINCT] an event is selected once. *)
Lemma joined_once r : needs_distinct f = false → (length (List.filter (selects e (filter_to_clause (Some f))) (joined_rows t f r)) ≤ 1)%nat.
Proof using Ht.
  intros Hd. unfold needs_distinct in Hd. apply orb_false_iff in Hd as [[Hlab Hs]%orb_false_iff Hrt].
  destruct (join_relation_one r) as [z Ez]. set (mk := λ lb, MkJoined (ev_type (sr_event r)) (ev_sender (sr_event r)) (ev_room_id (sr_event r)) (has_url (ev_content (sr_event r))) lb None None z).
  assert (joined_rows t f r = map mk (join_labels t f r)) as ->.
  { unfold joined_rows. assert (join_related t f r = [(None, None)]) as -> by (unfold join_related; by rewrite Hs, Hrt). rewrite Ez. induction (join_labels t f r) as [|lb l IH]; [done|]. cbn. by f_equal. }
  apply filter_at_most_one; [apply NoDup_fmap_2; [intros x y E; by injection E|apply join_labels_NoDup]|].
  intros x y (lb & -> & Hlb)%list_elem_of_fmap (lb' & -> & Hlb')%list_elem_of_fmap Px Py. f_equal. unfold join_labels in Hlb, Hlb'.
  destruct (f_labels f) as [[|v [|w l]]|] eqn:El; cbn [nonempty] in *; try done; try (apply list_elem_of_singleton in Hlb as ->; by apply list_elem_of_singleton in Hlb' as ->).
  assert (∀ lb, selects e (filter_to_clause (Some f)) (mk lb) = true → lb = Some v) as Hv; [|by rewrite (Hv _ Px), (Hv _ Py)].
  intros lb0 Hsel. unfold selects in Hsel. rewrite forallb_forall in Hsel. specialize (Hsel (SqlOr [SqlEq ColLabel v])). rewrite <- list_elem_of_In in Hsel. destruct lb0 as [u|].
  - assert (bool_decide (cond_holds e (mk (Some u)) (SqlOr [SqlEq ColLabel v]) = Some true) = true) as H by (apply Hsel; cbn [filter_to_clause]; rewrite El; rewrite !elem_of_app; do 7 right; left; by left).
    apply bool_decide_eq_true in H. cbn in H. by destruct (decide (u = v)) as [->|]; [|rewrite bool_decide_false in H].
  - assert (bool_decide (cond_holds e (mk None) (SqlOr [SqlEq ColLabel v]) = Some true) = true) as H by (apply Hsel; cbn [filter_to_clause]; rewrite El; rewrite !elem_of_app; do 7 right; left; by left). done.
Qed.
End Select.

(** ** Pages *)

Lemma existsb_filter {A} (p : A → bool) l : existsb p l = true ↔ List.filter p l ≠ [].
Proof.
  induction l as [|x l IH]; cbn; [done|]. destruct (p x); cbn; [done|exact IH].
Qed.

Section Pages.
Context (e : engine) (t : stream_tables) (Ht : tables_ok t) (room_id : string) (event_filter : option Filter) (direction : Direction).

Lemma keys_NoDup l : NoDup l → (∀ r, r ∈ l → r ∈ st_events t) → NoDup (map row_key l).
Proof using Ht.
  intros Hn Hl. apply NoDup_fmap_2_strong; [|done]. intros x y Hx Hy E. apply (NoDup_map_eq _ _ _ _ (ok_streams _ Ht)); [by apply Hl|by apply Hl|]. by injection E.
Qed.

Definition unique_rows (rows : list stream_row) : list stream_row := if match event_filter with Some f => needs_distinct f | None => false end then distinct rows else rows.

(** The rows of a query are those in the bounds that the filter wants, each once. *)
Lemma query_rows bounds :
  NoDup (unique_rows (select_rows e t room_id bounds event_filter)) ∧
  ∀ r, r ∈ unique_rows (select_rows e t room_id bounds event_filter) ↔
    r ∈ st_events t ∧ in_room room_id r = true ∧ forallb (λ b, bound_holds b (row_key r)) bounds = true ∧ wanted e t event_filter r = true.
Proof using Ht.
  set (rows := select_rows e t room_id bounds event_filter).
  assert (∀ r, r ∈ rows ↔ r ∈ st_events t ∧ in_room room_id r = true ∧ forallb (λ b, bound_holds b (row_key r)) bounds = true ∧ wanted e t event_filter r = true) as Hrows.
  { intros r. unfold rows, select_rows. rewrite list_elem_of_bind. unfold wanted. split.
    - intros (r' & Hr & [Hin [Hr1 Hr2]%andb_true_iff]%elem_of_List_filter). destruct event_filter as [f|]; [|by apply list_elem_of_singleton in Hr as ->].
      apply list_elem_of_fmap in Hr as (j & -> & Hj). split_and!; try done. apply existsb_filter. intros E. rewrite E in Hj. by apply not_elem_of_nil in Hj.
    - intros (Hin & H1 & H2 & H3). exists r. split; [|apply elem_of_List_filter; by rewrite H1, H2]. destruct event_filter as [f|]; [|by left]. apply existsb_filter in H3.
      destruct (List.filter _ (joined_rows t f r)) as [|j l]; [done|]. by left. }
  assert (NoDup (st_events t)) as Hne by exact (NoDup_fmap_1 _ _ (ok_ids _ Ht)). unfold unique_rows. destruct (match event_filter with Some f => needs_distinct f | None => false end) eqn:Ed.
  - destruct (distinct_spec rows) as [Hd1 Hd2]. split; [exact (NoDup_fmap_1 _ _ Hd1)|]. intros r. rewrite Hd2; [apply Hrows|]. intros x y [Hx _]%Hrows [Hy _]%Hrows. by apply (NoDup_map_eq _ _ _ _ (ok_ids _ Ht)).
  - split; [|exact Hrows]. unfold rows, select_rows. apply NoDup_bind.
    + intros x1 x2 y _ _ H1 H2. destruct event_filter as [f|]; [|apply list_elem_of_singleton in H1, H2; congruence]. apply list_elem_of_fmap in H1 as (? & -> & _). by apply list_elem_of_fmap in H2 as (? & ? & _).
    + intros r _. destruct event_filter as [f|]; [|apply NoDup_singleton]. pose proof (joined_once e t Ht f r Ed) as Hl.
      destruct (List.filter _ (joined_rows t f r)) as [|j [|j' l]]; cbn in *; [constructor|apply NoDup_singleton|lia].
    + apply NoDup_ListNoDup, List.NoDup_filter. by apply NoDup_ListNoDup.
Qed.

(** The events of the room that the filter wants, in order, and those beyond a position *)
Definition timeline : list stream_row := order_by row_key direction (List.filter (λ r, in_room room_id r && wanted e t event_filter r) (st_events t)).
Definition beyond (p : Z * Z) (r : stream_row) : bool := match direction with FORWARDS => tuple_lt p (row_key r) | BACKWARDS => tuple_le (row_key r) p end.

Lemma timeline_sorted : StronglySorted (precedes row_key direction) timeline.
Proof using Ht.
  apply order_by_sorted, keys_NoDup; [|by intros r [? _]%elem_of_List_filter]. apply NoDup_ListNoDup, List.NoDup_filter, NoDup_ListNoDup. exact (NoDup_fmap_1 _ _ (ok_ids _ Ht)).
Qed.

Lemma elem_of_timeline r : r ∈ timeline ↔ r ∈ st_events t ∧ in_room room_id r = true ∧ wanted e t event_filter r = true.
Proof using Type. unfold timeline, order_by. rewrite py_sorted_perm, elem_of_List_filter, andb_true_iff. done. Qed.

(** A query from a topological token gives what is beyond it. *)
Lemma query_beyond top strm :
  let bounds := generate_pagination_where_clause e direction (Some (Some top, strm)) None in
  order_by row_key direction (unique_rows (select_rows e t room_id bounds event_filter)) = List.filter (beyond (top, strm)) timeline.
Proof using Ht.
  intros bounds. destruct (query_rows bounds) as [Hn Hr]. apply (sorted_unique row_key direction).
  - apply order_by_sorted, keys_NoDup; [done|]. by intros r [? _]%Hr.
  - apply sorted_filter, timeline_sorted.
  - intros r. unfold order_by at 1. rewrite py_sorted_perm, Hr, elem_of_List_filter, elem_of_timeline.
    assert (forallb (λ b, bound_holds b (row_key r)) bounds = beyond (top, strm) r) as ->; [|naive_solver]. unfold bounds, generate_pagination_where_clause, beyond.
    destruct direction; cbn -[bound_holds make_generic_sql_bound tuple_le tuple_lt]; rewrite andb_true_r; [by rewrite bound_lt|by rewrite bound_ge].
Qed.

Definition topological_token (top strm : Z) : RoomStreamToken := MkRoomToken (MkToken strm ∅) (Some top).

Lemma filter_id {A} (p : A → bool) l : (∀ x, x ∈ l → p x = true) → List.filter p l = l.
Proof using Type. induction l as [|x l IH]; intros H; [done|]. cbn. rewrite H by by left. f_equal. apply IH. intros y Hy. apply H. by right. Qed.

(** A page from a topological token *)
Lemma page_spec top strm limit :
  (match event_filter with Some f => ambiguous e f | None => false end) = false →
  ∃ limited, paginate_room_events_by_topological_ordering e t room_id (topological_token top strm) None direction limit event_filter =
    Ok (take limit (List.filter (beyond (top, strm)) timeline),
        match last (take limit (List.filter (beyond (top, strm)) timeline)) with
        | Some r => topological_token (sr_topological_ordering r) (match direction with BACKWARDS => sr_stream_ordering r - 1 | FORWARDS => sr_stream_ordering r end)
        | None => topological_token top strm
        end, limited) ∧ (limited = false → (length (List.filter (beyond (top, strm)) timeline) ≤ limit)%nat).
Proof using Ht.
  intros Ha. unfold paginate_room_events_by_topological_ordering, paginate_room_events_by_topological_ordering_txn. cbn [nothing_between generate_pagination_bounds token_bound topological topological_token fmap option_fmap option_map room_pos stream].
  rewrite Ha. cbn [raise_if mbind py_bind]. pose proof (query_beyond top strm) as Hq. cbn zeta in Hq. unfold unique_rows in Hq. rewrite Hq. set (X := List.filter (beyond (top, strm)) timeline).
  assert (List.filter (filter_results (lower_of direction (topological_token top strm) None) (upper_of direction (topological_token top strm) None)) (take (limit * 2) X) = take (limit * 2) X) as Hf.
  { apply filter_id. intros r Hr%elem_of_take. destruct Hr as (i & Hi & _). apply list_elem_of_lookup_2 in Hi. apply elem_of_List_filter in Hi as [_ Hb]. unfold filter_results, lower_of, upper_of, beyond in *.
    destruct direction; cbn; [rewrite andb_true_r; unfold tuple_le; by rewrite negb_involutive|done]. }
  unfold topological_token in Hf |- *. rewrite Hf. rewrite take_take, Nat.min_l by lia.
  eexists. split.
  - destruct (last (take limit X)) as [r|] eqn:El; [|done]. cbn. destruct direction; done.
  - intros [H1%Nat.leb_gt H2%Nat.ltb_ge]%orb_false_iff. rewrite length_take in H1, H2. lia.
Qed.

(** A client asks for page after page, from the token of the last one, until there are no events. *)
Fixpoint all_pages (fuel limit : nat) (from_key : RoomStreamToken) : py (list stream_row) :=
  match fuel with
  | O => fuel_out
  | S fuel =>
      '(rows, next_key, _) ← paginate_room_events_by_topological_ordering e t room_id from_key None direction limit event_filter;
      match rows with
      | [] => Ok []
      | _ => rest ← all_pages fuel limit next_key; Ok (rows ++ rest)
      end
  end.

(** The position after a row *)
Lemma beyond_next x r :
  beyond (sr_topological_ordering x, match direction with BACKWARDS => sr_stream_ordering x - 1 | FORWARDS => sr_stream_ordering x end) r = true ↔ precedes row_key direction x r.
Proof using Type. unfold beyond, precedes. destruct direction; [done|]. rewrite tuple_le_true, tuple_lt_true. cbn. lia. Qed.

Lemma beyond_trans p x r : beyond p x = true → precedes row_key direction x r → beyond p r = true.
Proof using Type. unfold beyond, precedes. destruct direction; rewrite ?tuple_le_true, !tuple_lt_true; lia. Qed.

Lemma filter_filter_sub {A} (p q : A → bool) l : (∀ x, q x = true → p x = true) → List.filter q (List.filter p l) = List.filter q l.
Proof using Type.
  intros H. induction l as [|x l IH]; [done|]. cbn. destruct (p x) eqn:Ep; cbn; rewrite IH; [done|]. destruct (q x) eqn:Eq; [by rewrite (H _ Eq) in Ep|done].
Qed.

Lemma all_pages_spec fuel limit top strm :
  (match event_filter with Some f => ambiguous e f | None => false end) = false → (1 ≤ limit)%nat →
  (length (List.filter (beyond (top, strm)) timeline) < fuel)%nat → all_pages fuel limit (topological_token top strm) = Ok (List.filter (beyond (top, strm)) timeline).
Proof using Ht.
  intros Ha Hl. revert top strm. induction fuel as [|fuel IH]; intros top strm Hf; [lia|]. cbn [all_pages].
  destruct (page_spec top strm limit Ha) as (limited & -> & _). cbn [mbind py_bind]. set (X := List.filter (beyond (top, strm)) timeline) in *.
  destruct (take limit X) as [|x0 l0] eqn:Et; [destruct X as [|x X]; [done|by destruct limit; [lia|]]|].
  destruct (exists_last (l := x0 :: l0)) as (l1 & x & El); [done|]. rewrite El, last_snoc.
  assert (X = l1 ++ x :: drop limit X) as EX by (rewrite <- (take_drop limit X) at 1; rewrite Et, El, <- app_assoc; done).
  assert (List.filter (beyond (sr_topological_ordering x, match direction with BACKWARDS => sr_stream_ordering x - 1 | FORWARDS => sr_stream_ordering x end)) timeline = drop limit X) as Enext.
  { rewrite <- (filter_filter_sub (beyond (top, strm))).
    - fold X. rewrite EX at 1. apply (sorted_after row_key direction); [rewrite <- EX; apply sorted_filter, timeline_sorted|]. apply beyond_next.
    - intros r Hr%beyond_next. eapply beyond_trans; [|exact Hr]. assert (x ∈ X) as [_ ?]%elem_of_List_filter by (rewrite EX; apply elem_of_app; right; by left). done. }
  rewrite IH; rewrite Enext.
  - destruct (l1 ++ [x]) as [|y l2] eqn:E1; [by destruct l1|]. cbn [mbind py_bind]. f_equal. rewrite <- E1, <- app_assoc. by rewrite EX at 2.
  - rewrite EX, length_app in Hf. cbn in Hf. lia.
Qed.

End Pages.

(** ** Pages in the order of the stream *)

Lemma prefix_filter {A} (p : A → bool) n l : List.filter p (take n l) `prefix_of` List.filter p l.
Proof. exists (List.filter p (drop n l)). rewrite <- List.filter_app. by rewrite take_drop. Qed.

Lemma py_filter_pure {A} (p : A → py bool) (q : A → bool) l : (∀ x, x ∈ l → p x = Ok (q x)) → py_filter p l = Ok (List.filter q l).
Proof.
  induction l as [|x l IH]; intros H; [done|]. cbn. rewrite H by by left. cbn. rewrite IH by (intros y Hy; apply H; by right). by destruct (q x).
Qed.

Section Stream.
Context (events_stream_cache : StreamChangeCache) (log : change_log) (e : engine) (t : stream_tables) (room_id : string).
Context (Ht : tables_ok t) (Hreach : reachable events_stream_cache log).
(** The cache is told of every event after the position it starts from. *)
Context (Hlog : ∀ r, r ∈ st_events t → in_room room_id r = true → get_earliest_known_position events_stream_cache < sr_stream_ordering r → (room_id, sr_stream_ordering r) ∈ log).

(** It never misses one. *)
Lemma cache_misses_nothing p r :
  has_entity_changed events_stream_cache room_id p = false → r ∈ st_events t → in_room room_id r = true → sr_stream_ordering r ≤ p.
Proof using Hreach Hlog.
  intros Hc Hr Hin. apply reachable_ok in Hreach as [Hi _ _ _]. assert (earliest_known_stream_pos events_stream_cache ≤ p) as Hp by (unfold has_entity_changed in Hc; destruct (p <? _) eqn:E; [done|]; by apply Z.ltb_ge in E).
  destruct (decide (sr_stream_ordering r ≤ p)) as [|Hgt]; [done|]. exfalso. apply not_true_iff_false in Hc. apply Hc. apply (has_entity_changed_spec _ _ _ _ Hi Hp).
  exists (sr_stream_ordering r). split; [|lia]. apply Hlog; [done|done|]. unfold get_earliest_known_position. lia.
Qed.

(** The events of the room between two tokens, by the positions of their writers *)
Definition between (direction : Direction) (from_key : RoomStreamToken) (to_key : option RoomStreamToken) : list stream_row :=
  order_by stream_key direction (List.filter (λ r, in_room room_id r && filter_results (lower_of direction from_key to_key) (upper_of direction from_key to_key) r) (st_events t)).

Lemma stream_keys_NoDup l : NoDup l → (∀ r, r ∈ l → r ∈ st_events t) → NoDup (map stream_key l).
Proof using Ht.
  intros Hn Hl. apply NoDup_fmap_2_strong; [|done]. intros x y Hx Hy E. apply (NoDup_map_eq _ _ _ _ (ok_streams _ Ht)); [by apply Hl|by apply Hl|]. by injection E.
Qed.

Lemma sorted_events direction (p : stream_row → bool) : StronglySorted (precedes stream_key direction) (order_by stream_key direction (List.filter p (st_events t))).
Proof using Ht.
  apply order_by_sorted, stream_keys_NoDup; [|by intros r [? _]%elem_of_List_filter]. apply NoDup_ListNoDup, List.NoDup_filter, NoDup_ListNoDup. exact (NoDup_fmap_1 _ _ (ok_ids _ Ht)).
Qed.

(** A live token, or none, bounds what the positions of writers bound. *)
Lemma live_bounds direction from_key to_key r :
  topological from_key = None → token_wf (room_pos from_key) → (∀ k, to_key = Some k → topological k = None ∧ token_wf (room_pos k)) →
  filter_results (lower_of direction from_key to_key) (upper_of direction from_key to_key) r = true →
  let (from_bound, to_bound) := generate_pagination_bounds direction (Some from_key) to_key in
  forallb (λ b, bound_holds b (stream_key r)) (generate_pagination_where_clause e direction from_bound to_bound) = true.
Proof using Type.
  intros Hf Hwf Hto Hr. assert (∀ k, topological k = None → token_wf (room_pos k) → let i := instance_or_master (sr_instance_name r) in
    stream (room_pos k) ≤ get_stream_pos_for_instance (room_pos k) i ≤ get_max_stream_pos (room_pos k)) as Hpos.
  { intros k _ Hk. split; [by apply pos_ge_stream|by apply get_max_stream_pos_spec]. }
  pose proof (Hpos _ Hf Hwf) as Hf'. unfold filter_results in Hr. apply andb_true_iff in Hr as [Hlo Hup]. unfold generate_pagination_bounds, generate_pagination_where_clause, token_bound. cbn [fmap option_fmap option_map].
  destruct direction; cbn [lower_of upper_of] in *; rewrite Hf in *; destruct to_key as [k|]; cbn [fmap option_fmap option_map option_list app forallb].
  all: try (destruct (Hto _ eq_refl) as [Hk1 Hk2]; pose proof (Hpos _ Hk1 Hk2) as Hk'; rewrite Hk1 in *).
  all: cbn -[get_stream_pos_for_instance get_max_stream_pos] in *; rewrite ?andb_true_r, ?andb_true_iff, ?negb_true_iff, ?Z.ltb_lt, ?Z.leb_le, ?Z.ltb_ge, ?Z.leb_gt in *.
  all: repeat case_bool_decide; try done; cbn [negb]; lia.
Qed.

(** What the bounds let through and the positions then keep is what lies between the tokens. *)
Lemma fetched_between direction from_key to_key :
  topological from_key = None → token_wf (room_pos from_key) → (∀ k, to_key = Some k → topological k = None ∧ token_wf (room_pos k)) →
  let (from_bound, to_bound) := generate_pagination_bounds direction (Some from_key) to_key in
  let bounds := generate_pagination_where_clause e direction from_bound to_bound in
  List.filter (filter_results (lower_of direction from_key to_key) (upper_of direction from_key to_key))
    (order_by stream_key direction (List.filter (λ r, in_room room_id r && forallb (λ b, bound_holds b (stream_key r)) bounds) (st_events t))) = between direction from_key to_key.
Proof using Ht.
  intros Hf Hwf Hto. pose proof (λ r, live_bounds direction from_key to_key r Hf Hwf Hto) as Hb. destruct (generate_pagination_bounds _ _ _) as [fb tb]. cbn zeta.
  apply (sorted_unique stream_key direction); [apply sorted_filter, sorted_events|apply sorted_events|]. intros r. unfold between, order_by.
  rewrite elem_of_List_filter, !py_sorted_perm, !elem_of_List_filter, !andb_true_iff. specialize (Hb r). naive_solver.
Qed.

(** There is nothing between the tokens when the method returns early. *)
Lemma between_nil direction from_key to_key : (∀ r, r ∈ st_events t → in_room room_id r = true → filter_results (lower_of direction from_key to_key) (upper_of direction from_key to_key) r = false) → between direction from_key to_key = [].
Proof using Type.
  intros H. unfold between, order_by. apply Permutation_nil_r. rewrite py_sorted_perm. apply Permutation_nil_r. apply elem_of_nil_inv. intros r [Hr [Hin Hres]%andb_true_iff]%elem_of_List_filter. by rewrite H in Hres.
Qed.

Lemma filter_results_live (lower upper : RoomStreamToken) r :
  topological lower = None → topological upper = None → (∀ i, pos (room_pos upper) i ≤ pos (room_pos lower) i) → filter_results (Some lower) (Some upper) r = false.
Proof using Type.
  intros Hl Hu Hp. unfold filter_results. rewrite Hl, Hu. specialize (Hp (instance_or_master (sr_instance_name r))). apply not_true_iff_false. rewrite andb_true_iff, !negb_true_iff, Z.leb_gt, Z.ltb_ge. lia.
Qed.

Lemma nothing_between_nil direction from_key to_key :
  topological from_key = None → token_wf (room_pos from_key) → (∀ k, to_key = Some k → topological k = None ∧ token_wf (room_pos k)) →
  nothing_between direction from_key to_key = true → between direction from_key to_key = [].
Proof using Type.
  intros Hf Hwf Hto Hn. apply between_nil. intros r _ _. destruct to_key as [k|]; [|done]. destruct (Hto k eq_refl) as [Hk Hkwf]. cbn in Hn.
  destruct direction; rewrite is_before_or_eq_pos in Hn by done; by apply filter_results_live.
Qed.

(** Rows that the cache says have not changed are not above the lower token. *)
Lemma unchanged_below lower upper :
  topological lower = None → token_wf (room_pos lower) → has_entity_changed events_stream_cache room_id (stream (room_pos lower)) = false →
  ∀ r, r ∈ st_events t → in_room room_id r = true → filter_results (Some lower) upper r = false.
Proof using Hreach Hlog.
  intros Hl Hwf Hc r Hr Hin. pose proof (cache_misses_nothing _ _ Hc Hr Hin). pose proof (pos_ge_stream (room_pos lower) (instance_or_master (sr_instance_name r)) Hwf).
  unfold filter_results. rewrite Hl. by replace (sr_stream_ordering r <=? _) with true by (symmetry; apply Z.leb_le; lia).
Qed.

(** C26: Between live tokens of any number of writers, on both engines and in either direction, a page in the
    order of the stream holds the first events of the room that lie between the tokens by the positions of
    the writers of the events, as many as asked for at most; when the page says the limit was not hit, it
    holds all of them, also when the method returns without a query, since the tokens are in the wrong order
    or the cache of changes has none. *)
Theorem stream_page_complete direction from_key to_key limit :
  topological from_key = None → token_wf (room_pos from_key) → (∀ k, to_key = Some k → topological k = None ∧ token_wf (room_pos k)) →
  ∃ rows next_key limited,
    paginate_room_events_by_stream_ordering events_stream_cache e t room_id from_key to_key direction limit = Ok (rows, next_key, limited) ∧
    (length rows ≤ limit)%nat ∧ rows `prefix_of` between direction from_key to_key ∧ (limited = false → rows = between direction from_key to_key).
Proof using Ht Hreach Hlog.
  intros Hf Hwf Hto. unfold paginate_room_events_by_stream_ordering. assert (is_live to_key = true) as Elive by (destruct to_key as [k|]; [apply bool_decide_eq_true, Hto; done|done]).
  assert (is_live (Some from_key) = true) as Efrom by by apply bool_decide_eq_true. rewrite Elive, Efrom. cbn [negb raise_if mbind py_bind].
  destruct (nothing_between direction from_key to_key) eqn:En; [rewrite nothing_between_nil by done; eexists _, _, _; split_and!; [done|cbn; lia|done|done]|].
  match goal with |- context [negb ?c] => destruct c eqn:Ec end; cbn [negb].
  2: { rewrite between_nil; [eexists _, _, _; split_and!; [done|cbn; lia|done|done]|]. destruct direction; [by apply unchanged_below|]. destruct to_key as [k|]; [|done]. by apply unchanged_below; [apply Hto..|]. }
  pose proof (fetched_between direction from_key to_key Hf Hwf Hto) as Hfb. destruct (generate_pagination_bounds _ _ _) as [fb tb]. cbn zeta in *. set (L := order_by _ _ _) in *.
  rewrite (py_filter_pure _ (filter_results (lower_of direction from_key to_key) (upper_of direction from_key to_key))).
  2: { intros r _. unfold filter_results_by_stream. assert (is_live (lower_of direction from_key to_key) = true ∧ is_live (upper_of direction from_key to_key) = true) as [-> ->] by by destruct direction.
       unfold filter_results. destruct (match lower_of direction from_key to_key with Some _ => _ | None => _ end); by rewrite ?andb_true_r. }
  cbn [mbind py_bind]. set (rows := List.filter _ (take (2 * limit) L)). set (limited := _ || _).
  assert (take limit rows `prefix_of` between direction from_key to_key) as Hp by (rewrite <- Hfb; etrans; [apply prefix_take|apply prefix_filter]).
  assert (limited = false → take limit rows = between direction from_key to_key) as Hlim.
  { intros [H1%Nat.leb_gt H2%Nat.ltb_ge]%orb_false_iff. rewrite take_ge by done. unfold rows. rewrite take_ge; [done|]. rewrite length_take in H1. lia. }
  destruct (last (take limit rows)) as [r|]; [|eexists _, _, _; split_and!; [done|rewrite length_take; lia|done|done]].
  eexists _, _, _. split_and!; [cbn; done|rewrite length_take; lia|done|done].
Qed.
End Stream.

(** ** A room *)

Definition page_event (id type sender : string) (depth : Z) (content : jdict) : event :=
  Event id RoomVersions.V10 type sender "!room" None content 0 depth [] [] [] [] [] None false false false false.
Definition page_row (id type sender instance : string) (depth stream : Z) (content : jdict) : stream_row := MkStreamRow (page_event id type sender depth content) (Some instance) stream.
(** Two writers; the third event came late. *)
Definition page_tables : stream_tables :=
  MkStreamTables
    [page_row "$1" "m.room.message" "@a:hs" "w1" 1 1 [("url", JStr "mxc://hs/1")]; page_row "$2" "m.room.topic" "@b:hs" "w1" 2 2 [("org.matrix.labels", JList [JStr "fun"; JStr "work"])];
     page_row "$3" "m.room.message" "@a:hs" "w2" 2 9 []; page_row "$4" "m.reaction" "@b:hs" "w1" 3 4 [("m.relates_to", JObj [("rel_type", JStr "m.annotation"); ("event_id", JStr "$1")])];
     page_row "$5" "org.example.note" "@c:hs" "w2" 4 6 []; page_row "$6" "m.room.message" "@c:hs" "w2" 5 7 []]
    [MkLabel "$2" "fun"; MkLabel "$2" "work"] [MkRelation "$4" "$1" "m.annotation"].
Definition empty_filter : Filter := default (MkFilter JNull false false false None [] None [] None [] None None [] None None None []) (Filter_init false false []).
Definition filter_of (j : jdict) : Filter := default empty_filter (Filter_init false true j).
Definition ids (m : py (list stream_row)) : py (list string) := l ← m; Ok (map sr_event_id l).
Definition page_ids (m : py (list stream_row * RoomStreamToken * bool)) : py (list string) := x ← m; Ok (map sr_event_id x.1.1).

Lemma page_tables_ok : tables_ok page_tables.
Proof. split; apply (bool_decide_unpack _); vm_compute; exact I. Qed.

Definition messages_filter : Filter := filter_of [("types", JList [JStr "m.room.*"]); ("not_senders", JList [JStr "@c:hs"])].

(** The cache has forgotten the first events. *)
Definition page_log : change_log := [("!other", 8); ("!room", 9); ("!room", 7); ("!room", 6); ("!room", 4)].
Definition page_cache : StreamChangeCache :=
  match new_cache 3 4 page_log with Ok s => s | Raise _ => {| original_max_size := 0; max_size := 0; cache := ∅; entity_to_key := ∅; earliest_known_stream_pos := 0 |} end.
Lemma page_cache_reachable : reachable page_cache page_log.
Proof. apply (reach_new 3 4); [lia|]. vm_compute. reflexivity. Qed.

(** The second writer has been ahead. *)
Definition page_from : RoomStreamToken := MkRoomToken (MkToken 3 {["w2" := 6]}) None.
Definition page_to : RoomStreamToken := MkRoomToken (MkToken 7 {["w2" := 9]}) None.
Lemma stream_page_complete_witness :
  page_ids (paginate_room_events_by_stream_ordering page_cache Postgres page_tables "!room" page_from (Some page_to) FORWARDS 3) = Ok ["$4"; "$6"; "$3"] ∧
  ∃ rows next_key limited,
    paginate_room_events_by_stream_ordering page_cache Postgres page_tables "!room" page_from (Some page_to) FORWARDS 3 = Ok (rows, next_key, limited) ∧
    (length rows ≤ 3)%nat ∧ rows `prefix_of` between page_tables "!room" FORWARDS page_from (Some page_to) ∧
    (limited = false → rows = between page_tables "!room" FORWARDS page_from (Some page_to)).
Proof.
  split; [vm_compute; reflexivity|].
  apply (stream_page_complete page_cache page_log Postgres page_tables "!room" page_tables_ok page_cache_reachable).
  - intros r Hr _ Hp. assert (Forall (λ r, sr_stream_ordering r ≤ get_earliest_known_position page_cache ∨ ("!room", sr_stream_ordering r) ∈ page_log) (st_events page_tables)) as H.
    { apply (bool_decide_unpack _); vm_compute; exact I. }
    rewrite Forall_forall in H. destruct (H r Hr); [lia|done].
  - done.
  - apply map_Forall_singleton. cbn. lia.
  - intros k [= <-]. split; [done|]. apply map_Forall_singleton. cbn. lia.
Defined.

(** The token of a page has one position for all writers: from it, a client is given again what the writer that
    was ahead had sent. *)
Example next_page_repeats :
  page_ids (paginate_room_events_by_stream_ordering page_cache Postgres page_tables "!room" page_from (Some page_to) FORWARDS 1) = Ok ["$4"] ∧
  (let next := match paginate_room_events_by_stream_ordering page_cache Postgres page_tables "!room" page_from (Some page_to) FORWARDS 1 with Ok (_, k, _) => k | Raise _ => page_from end in
   page_ids (paginate_room_events_by_stream_ordering page_cache Postgres page_tables "!room" next (Some page_to) FORWARDS 3) = Ok ["$5"; "$6"; "$3"]).
Proof. split; vm_compute; reflexivity. Qed.

(** Backwards from a token to one that is earlier in the room, but whose event came later, there is nothing, since
    the tokens are compared by their streams. *)
Example late_token_hides_events :
  page_ids (paginate_room_events_by_topological_ordering Postgres page_tables "!room" (topological_token 4 6) (Some (topological_token 2 9)) BACKWARDS 10 None) = Ok [] ∧
  page_ids (paginate_room_events_by_topological_ordering Postgres page_tables "!room" (topological_token 4 6) (Some (topological_token 2 2)) BACKWARDS 10 None) = Ok ["$5"; "$4"; "$3"].
Proof. split; vm_compute; reflexivity. Qed.

(** A live token whose writers are at different positions gives an empty page, and its own token again, when the
    rows that are fetched are all ahead of their writer. *)
Example empty_page_is_not_the_end :
  paginate_room_events_by_topological_ordering Postgres page_tables "!room" (MkRoomToken (MkToken 5 {["w1" := 8]}) None) None BACKWARDS 1 None =
    Ok ([], MkRoomToken (MkToken 5 {["w1" := 8]}) None, true) ∧
  page_ids (paginate_room_events_by_topological_ordering Postgres page_tables "!room" (MkRoomToken (MkToken 5 {["w1" := 8]}) None) None BACKWARDS 3 None) = Ok ["$4"; "$2"; "$1"].
Proof. split; vm_compute; reflexivity. Qed.

(** ** What the condition of a filter misses *)

Definition missed (e : engine) (f : Filter) (r : stream_row) : bool :=
  let t := MkStreamTables [r] [] [] in
  match check f (FEvent (sr_event r)) with Ok b => b | Raise _ => false end && negb (wanted e t (Some f) r).
Example like_characters_exclude_too_much :
  missed Postgres (filter_of [("not_types", JList [JStr "org_example.*"])]) (page_row "$5" "org.example.note" "@c:hs" "w2" 4 6 []) = true ∧
  missed Postgres (filter_of [("not_types", JList [JStr "a*b"])]) (page_row "$5" "a.b" "@c:hs" "w2" 4 6 []) = true ∧
  missed SQLite (filter_of [("not_types", JList [JStr "org.example.*"])]) (page_row "$5" "org.Example.note" "@c:hs" "w2" 4 6 []) = true.
Proof. split_and!; vm_compute; reflexivity. Qed.

(** A filter on the relations of an event and of others is a query that fails, on SQLite when the types of both
    are asked for. *)
Example relation_filters_clash :
  (let f := filter_of [("related_by_senders", JList [JStr "@b:hs"]); ("org.matrix.msc3874.not_rel_types", JList [JStr "m.thread"])] in
   page_ids (paginate_room_events_by_topological_ordering Postgres page_tables "!room" (topological_token 9 9) None BACKWARDS 10 (Some f)) = Raise (PyException "ambiguous column name") ∧
   page_ids (paginate_room_events_by_topological_ordering SQLite page_tables "!room" (topological_token 9 9) None BACKWARDS 10 (Some f)) = Ok ["$1"]) ∧
  page_ids (paginate_room_events_by_topological_ordering SQLite page_tables "!room" (topological_token 9 9) None BACKWARDS 10
    (Some (filter_of [("related_by_rel_types", JList [JStr "m.annotation"]); ("org.matrix.msc3874.not_rel_types", JList [JStr "m.thread"])]))) = Raise (PyException "ambiguous column name").
Proof. cbv zeta. split_and!; vm_compute; reflexivity. Qed.
